(* ===== verification/_CoqProject ===== *)
-Q . S2P
Prelude.v
Wire.v
Net.v
Trie.v
TrieSpec.v
PrefixMap.v
Vrp.v
PathId.v
Notification.v
Nlri.v
BgpLs.v
BgpLsParse.v
Attrs.v
BgpLsAttr.v
Text.v
LangBgp.v
LangBgpParse.v
LangSpec.v
LangPolicy.v
LangMain.v
LangTotal.v
Grammar.v
Candidate.v
CandSpec.v
Shell.v
Rtr.v
RtrSpec.v
RtrSession.v
RtrMain.v
OpenMsg.v
Msg.v
Path.v
UpdateCodec.v
UpdateCodecSpec.v
Update.v
UpdateSpec.v
UpdateMain.v
ExtComm.v
NetText.v
PeerCaps.v
Conf.v
Policy.v
PolicyConf.v
PolicyMgmt.v
ConfFile.v
ConfSpec.v
ConfMain.v
ShellMain.v
Store.v
Lock.v
Commit.v
Fsm.v
RibTables.v
LocRib.v
Outgoing.v
PeerState.v
Peer.v
PeerInv.v
PeerSafe.v
PeerCollision.v
LocRibInv.v
LocRibSpec.v
LocRibPeer.v
LocRibStale.v
LocRibSort.v
LocRibOps.v
Propagate.v
Mirror.v
Server.v
ServerOps.v
ServerMgmt.v
ServerSync.v
ServerSteps.v
ServerResend.v
ServerMgmtSteps.v
ServerMain.v
ServerBmp.v
