(* ===== verification/Prelude.v ===== *)
(** * Verification of the rogg BGP daemon -- root file and shared prelude

    [src/bgpgg] is a BGP speaker: one task per peer runs the session
    ([src/bgpgg/src/peer]), a server task owns the routing tables
    ([src/bgpgg/src/rib], [src/bgpgg/src/server]), and between them travel
    decoded routes and encoded messages ([src/bgpgg/src/bgp]).  This library
    translates that core into Rocq functions that keep the code's names, and
    proves what makes it correct.  Around it are the configuration file
    ([src/conf]) and the shell that edits it ([src/ggsh]).  Paths below are
    relative to [src/bgpgg/src] unless they say otherwise.

    ** Parts

    The data on the wire.
    - [Wire]: big-endian octets, the [Reader] that decoders share.
    - [Net]: addresses and prefixes ([net/mod.rs]); [Vrp]: route origin validation
      ([rpki/vrp.rs]); [Nlri]: prefixes on the wire ([bgp/msg_update.rs],
      [bgp/utils.rs]); [Notification], [OpenMsg], [Msg]: the messages and the
      framing of the TCP stream ([bgp/msg_*.rs], [peer/mod.rs] read task).
    - [BgpLs], [BgpLsParse], [BgpLsAttr]: link-state NLRI and attribute
      ([bgp/bgpls*.rs]).  [ExtComm]: extended communities; [NetText]: addresses,
      prefixes and communities as text.
    - [Attrs], [UpdateCodec], [Update]: path attributes and the UPDATE message
      ([bgp/msg_update_types.rs], [bgp/msg_update_codec.rs],
      [bgp/msg_update.rs]); [UpdateCodecSpec], [UpdateSpec], [UpdateMain]:
      their round trips, error handling (RFC 7606) and panics.

    The tables.
    - [Trie], [TrieSpec]: the arena radix trie ([table/trie.rs]) and its refinement
      of a finite map; [PrefixMap]: the hash map with a trie beside it;
      [PathId]: the allocator of ADD-PATH identifiers.
    - [Path]: paths and best-path selection ([rib/path.rs],
      [rib/types.rs]); [RibTables]: Adj-RIB-In and Adj-RIB-Out;
      [LocRib]: the Loc-RIB with route deltas, graceful-restart staleness and
      identifier allocation; [LocRibInv], [LocRibSpec], [LocRibPeer],
      [LocRibStale], [LocRibSort], [LocRibOps]: its invariant, the abstract
      table it implements, what each operation does to it, what it does with a
      sort that may panic, and its properties.

    The peer.
    - [PeerCaps]: capability negotiation and collision resolution; [Fsm]: the
      RFC 4271 transition function; [PeerState], [Peer]: the task's state and
      the handlers of every state, as state-passing functions over the peer and
      the log of what the task sends and closes, with
      the routes of a received UPDATE; [PeerInv], [PeerSafe]: what holds after
      any sequence of events; [PeerCollision]: two peers that dial each other.
    - [Policy]: routing policies; [PolicyConf]: sets and policies built from the
      configuration and turned back into it ([policy/]); [PolicyMgmt]: the
      requests about them ([server/ops_mgmt.rs]); [Outgoing]: the export of routes;
      [Propagate]: the Adj-RIB-Out against the Loc-RIB; [Mirror]: two speakers put together.

    The server task.
    - [Server]: its state and the propagation of a delta to every peer
      ([server/mod.rs], [server/propagate.rs]); [ServerOps]: the events of
      the peers' tasks ([server/ops.rs]); [ServerMgmt]: the requests of
      the management interface ([server/ops_mgmt.rs]) and the loop over both.
    - [ServerSync], [ServerSteps], [ServerResend], [ServerMgmtSteps]: the
      relation between the Loc-RIB and what each peer was sent, and what every
      step does to it; [ServerMain], [ServerBmp]: what follows
      for whole runs.

    The RPKI caches.
    - [Rtr], [RtrSpec]: the PDUs of the RPKI-to-Router protocol and the reader
      that cuts a stream into them ([rpki/rtr.rs]); [RtrSession]: a session
      ([rpki/session.rs]), the caches and their failover ([rpki/manager.rs]); [RtrMain]: from a cache's announcements to the table
      of [Vrp] that validates routes.

    The configuration ([src/conf]).
    - [Text]: strings as lists of characters, the standard library's
      reading and printing of numbers and addresses.  [LangBgp]: tokens and the
      parser's state ([language.rs]), the tree of a file and its printing; [LangBgpParse]: the parser of every block ([language_bgp.rs]).
    - [LangSpec], [LangPolicy], [LangMain]:
      the parser on what the printer wrote, from tokens to the whole file;
      [LangTotal]: the parser on any text.
    - [Conf]: the daemon's configuration and its defaults; [ConfFile]: reading
      it from a tree and writing it ([bgp.rs]); [ConfSpec], [ConfMain]: saved
      configurations load, and what loads is well formed.

    The shell ([src/ggsh]).
    - [Grammar]: the keys of settings and the shapes of their values
      ([language_bgp.rs]), the trees of commands and the parser of a
      line ([grammar.rs], [parser.rs]); [Candidate]: the edits of the candidate
      configuration ([cmd_configure.rs]); [Shell]: levels, sessions and the
      dispatch of commands ([shell.rs]), with what the file system and the
      daemon answer as an input of each line.
    - [CandSpec]: what the edits keep; [ShellMain]: sessions.

    Between the two.
    - [Store]: the snapshots and the atomic write of the file
      ([src/conf/src/fs.rs]), with system calls that may fail or stop half way.
    - [Lock]: the lock of a configuration session on inodes, one operation at a
      time and one call at a time.
    - [Commit]: commit, rollback and save in the daemon
      ([server/config.rs], [server/ops_mgmt.rs]); what the change does to the
      running subsystems is a parameter there, and the theorems hold for any.

    ** Conventions

    - Machine integers are [Z]; a wrap-around is a [mod], and the
      well-formedness predicates [u8], [u16], [u32], [u64] bound what the type
      bounds.  Octets are [Z] in [list Z].
    - A computation that can panic returns [option]; [None] is the panic
      unless a comment says that it is the code's own [None].  [Result] is a sum
      or an option as the code distinguishes errors.
    - [HashMap] and [HashSet] are [gmap] and [gset]; where the iteration order
      of a hash table shows, it is the parameter [HashOrder], a permutation.
      What [slice::sort_by] does on a comparison that is no order is left open
      by the parameter [SortBy]: it may panic, or give any permutation.
      Shared paths ([Arc<Path>]) are references [mkRef address path], so that
      [Arc::ptr_eq] is decidable.
    - Logging, metrics and the clock are left out; timers are part of the
      peer's state, and an event says that one fired.
    - Fuel: a trie walk has [depth_fuel] = 130 steps, one more than the 129
      nodes of a path in a trie of 128-bit keys, and [trie_arena_bounded] shows
      that the walk ends before; parsers take the length of their input, as
      every step consumes an octet; [chunks] takes the length of the list.

    ** Theorems

    - Tables: the trie and the Loc-RIB refine finite maps; identifiers are
      unique; the stored best path is the best path; the delta of an update
      names every key that changed; a lost peer leaves nothing behind; route
      origin validation is RFC 6811's for routes that have an origin AS.  A run
      of the Loc-RIB panics only where the sort of a route's paths does, which
      comparable MEDs exclude ([loc_rib_refines_map]).
    - Wire: what is encoded decodes to itself (frames, OPEN, UPDATE, attributes,
      NLRI, link state), decoders terminate and produce well-formed data, a
      malformed UPDATE withdraws the IP routes it mentions, and the exact
      condition under which the decoder panics without ADD-PATH.
    - Sessions: both ends agree on the formats, of two colliding connections
      both ends keep the same one, the states are sound after every event.
    - Export: which paths are exported and how they are rewritten; the
      Adj-RIB-Out follows the Loc-RIB; the peer's Adj-RIB-In follows our
      Adj-RIB-Out through the bytes actually sent ([propagation_mirrored]).
    - Policies: first match, implicit reject; after any requests the saved
      configuration builds the policies in force, and a listed policy builds
      the policy it was listed from.
    - Configuration: the text that is printed is read back, a saved
      configuration of the class [conf_ok] loads to itself, every text is loaded or refused at one of
      its lines, and what loads is well formed; the file is written atomically,
      a commit is all or nothing, a rollback undoes it, and a session owns the
      configuration while it holds the lock.
    - Shell: no line makes it panic, levels, candidate and lock agree, what it
      commits reads back as its candidate, and a setting its grammar accepts is
      the value that the daemon loads (for lines of bare words).
    - Server: after every step each established peer that takes part was sent
      the export of the Loc-RIB, a peer that comes up is sent all of it,
      management requests resend what they change, sessions are reported to BMP
      in pairs.
    - RPKI: PDUs are read back however the stream is cut, a session tells
      exactly what the cache holds, the table is the union of what the caches hold.

    ** Not modelled

    - gRPC ([grpc]), sockets and MD5 keys ([net], system calls), metrics,
      logging, telemetry, the tables that the shell prints: input and output
      around the core.
    - The text forms of link-state attributes: no protocol state depends on
      them.
    - Opening the connections of RPKI sessions (TCP, SSH), the BMP and the
      server's listening tasks: sockets; listing queries of the management
      interface and the reload of the configuration.
    - Third-party code is a parameter: the regular expressions of AS-path sets
      ([is_match], [regex_ok]).

    This file holds the tactics, the hint database [rogg] and the lemmas on
    lists, options and integers that the components share. *)

From stdpp Require Export base tactics list numbers option gmap sets strings sorting.
From Stdlib Require Export ZArith Lia Sorted.

Open Scope Z_scope.
#[export] Set Warnings "-clear-no-such-hyp".

Declare Scope rogg_scope.
Delimit Scope rogg_scope with rogg.

(** Hint database of the development: arithmetic side conditions, byte
    ranges and list facts that are closed without comment. *)
Create HintDb rogg.

(** ** Tactics *)

(** Case analysis on every [match]/[if]/[decide] that blocks the goal. *)
Ltac split_matches :=
  repeat (case_match; simplify_eq/=; try done).

(** Destruct all the conjunctions and existentials of the context. *)
Ltac unpack :=
  repeat match goal with
  | H : _ /\ _ |- _ => destruct H
  | H : exists _, _ |- _ => destruct H
  | H : ex _ |- _ => destruct H
  end.

(** [update_field eta f v r]: the record [r] with its field [f] set to [v]. *)
Ltac update_field eta f v r :=
  let all := eval cbv beta delta [eta] in (eta r) in
  let hole := eval pattern (f r) in all in
  match hole with ?k _ => let res := eval cbv beta in (k v) in exact res end.

(** Turn boolean comparisons of [Z]/[nat] in the context into propositions. *)
Ltac bool_props :=
  repeat match goal with
  | H : (_ && _)%bool = true |- _ => apply andb_prop in H; destruct H
  | H : (_ || _)%bool = false |- _ => apply orb_false_iff in H; destruct H
  | H : negb _ = true |- _ => apply negb_true_iff in H
  | H : negb _ = false |- _ => apply negb_false_iff in H
  | H : (_ =? _) = true |- _ => apply Z.eqb_eq in H
  | H : (_ =? _) = false |- _ => apply Z.eqb_neq in H
  | H : (_ <? _) = true |- _ => apply Z.ltb_lt in H
  | H : (_ <? _) = false |- _ => apply Z.ltb_ge in H
  | H : (_ <=? _) = true |- _ => apply Z.leb_le in H
  | H : (_ <=? _) = false |- _ => apply Z.leb_gt in H
  | H : bool_decide _ = true |- _ => apply bool_decide_eq_true in H
  | H : bool_decide _ = false |- _ => apply bool_decide_eq_false in H
  end.

(** ** Fallible code with panics

    A Rust function returning [Result<A, E>] has three ways to end: a value,
    an error value, or a panic (an out-of-range index, an overflowing shift).
    [Panic] is kept apart from [Err], since the callers can only handle the
    latter. *)
Inductive outcome (E A : Type) : Type :=
  | Ok (a : A)
  | Err (e : E)
  | Panic.
Arguments Ok {E A} a.
Arguments Err {E A} e.
Arguments Panic {E A}.

#[global] Instance outcome_ret {E} : MRet (outcome E) := fun A a => Ok a.
#[global] Instance outcome_bind {E} : MBind (outcome E) := fun A B f m =>
  match m with Ok a => f a | Err e => Err e | Panic => Panic end.
#[global] Instance outcome_fmap {E} : FMap (outcome E) := fun A B f m =>
  match m with Ok a => Ok (f a) | Err e => Err e | Panic => Panic end.

Lemma outcome_bind_no_panic {E A B} (m : outcome E A) (f : A -> outcome E B) :
  m <> Panic -> (forall a, m = Ok a -> f a <> Panic) -> (m ≫= f) <> Panic.
Proof. destruct m as [a| |]; cbn; auto. Qed.

Lemma outcome_fmap_no_panic {E A B} (m : outcome E A) (f : A -> B) : m <> Panic -> (f <$> m) <> Panic.
Proof. by destruct m. Qed.

(** A list access: Rust's [v[i]]. *)
Definition index {E A} (l : list A) (i : nat) : outcome E A :=
  match l !! i with Some a => Ok a | None => Panic end.

Lemma index_no_panic {E A} (l : list A) i : (i < length l)%nat -> index (E := E) l i <> Panic.
Proof. intros Hi. unfold index. by destruct (lookup_lt_is_Some_2 l i Hi) as [a ->]. Qed.

(** ** Machine words

    A [uN] is a [Z] in [[0, 2^N)]; bytes are [Z] below 256. *)
Definition u8 (z : Z) : Prop := 0 <= z < 2 ^ 8.
Definition u16 (z : Z) : Prop := 0 <= z < 2 ^ 16.
Definition u32 (z : Z) : Prop := 0 <= z < 2 ^ 32.
Definition u64 (z : Z) : Prop := 0 <= z < 2 ^ 64.
Definition u128 (z : Z) : Prop := 0 <= z < 2 ^ 128.

Definition byteb (z : Z) : bool := (0 <=? z) && (z <? 256).
Definition bytes_ok (l : list Z) : Prop := Forall u8 l.

Lemma byteb_u8 z : byteb z = true <-> u8 z.
Proof. unfold byteb, u8. rewrite andb_true_iff, Z.leb_le, Z.ltb_lt. lia. Qed.

Lemma bytes_ok_forallb l : forallb byteb l = true -> bytes_ok l.
Proof.
  intros H. unfold bytes_ok. apply Forall_forall. intros z Hz.
  apply byteb_u8. rewrite forallb_forall in H. apply H.
  by apply list_elem_of_In.
Qed.

(** ** Big-endian encodings: [uN::to_be_bytes] and [uN::from_be_bytes] *)
Fixpoint be_bytes (n : nat) (v : Z) : list Z :=
  match n with
  | O => []
  | S n' => (v / 256 ^ Z.of_nat n') mod 256 :: be_bytes n' v
  end.

Fixpoint be_val (bs : list Z) : Z :=
  match bs with
  | [] => 0
  | b :: bs' => b * 256 ^ Z.of_nat (length bs') + be_val bs'
  end.

Lemma length_be_bytes n v : length (be_bytes n v) = n.
Proof. induction n; simpl; congruence. Qed.

Lemma be_bytes_ok n v : bytes_ok (be_bytes n v).
Proof.
  induction n; simpl; constructor; auto.
  unfold u8. pose proof (Z.mod_pos_bound (v / 256 ^ Z.of_nat n) 256). lia.
Qed.

Lemma pow256_pos n : 0 < 256 ^ Z.of_nat n.
Proof. apply Z.pow_pos_nonneg; lia. Qed.

Lemma pow256_S n : 256 ^ Z.of_nat (S n) = 256 * 256 ^ Z.of_nat n.
Proof. rewrite Nat2Z.inj_succ, Z.pow_succ_r; lia. Qed.

Lemma be_val_bounds bs : bytes_ok bs -> 0 <= be_val bs < 256 ^ Z.of_nat (length bs).
Proof.
  induction 1 as [|b bs Hb _ IH]; cbn [be_val length].
  - split; [lia | reflexivity].
  - rewrite pow256_S. unfold u8 in Hb.
    pose proof (pow256_pos (length bs)). nia.
Qed.

Lemma be_val_be_bytes n v : be_val (be_bytes n v) = v mod 256 ^ Z.of_nat n.
Proof.
  induction n as [|n IH]; cbn [be_val be_bytes].
  - by rewrite Z.mod_1_r.
  - rewrite length_be_bytes, IH, pow256_S.
    pose proof (pow256_pos n).
    rewrite (Z.mul_comm 256), Z.rem_mul_r by lia. lia.
Qed.

Lemma be_val_be_bytes_id n v :
  0 <= v < 256 ^ Z.of_nat n -> be_val (be_bytes n v) = v.
Proof. intros. rewrite be_val_be_bytes. by apply Z.mod_small. Qed.

Lemma be_bytes_mod n v : be_bytes n (v mod 256 ^ Z.of_nat n) = be_bytes n v.
Proof.
  assert (forall m, (m <= n)%nat ->
    be_bytes m (v mod 256 ^ Z.of_nat n) = be_bytes m v) as Hm; [|by apply Hm].
  induction m as [|m IH]; intros Hle; cbn [be_bytes]; [done|].
  rewrite IH by lia. f_equal.
  replace (Z.of_nat n) with (Z.of_nat m + (1 + Z.of_nat (n - S m))) by lia.
  rewrite !Z.pow_add_r by lia. change (256 ^ 1) with 256.
  pose proof (pow256_pos m). pose proof (pow256_pos (n - S m)).
  rewrite Z.rem_mul_r by nia.
  rewrite (Z.mul_comm (256 ^ Z.of_nat m)), Z.div_add by lia.
  rewrite (Z.div_small (v mod 256 ^ Z.of_nat m)), Z.add_0_l
    by (apply Z.mod_pos_bound; lia).
  rewrite Z.rem_mul_r by lia.
  rewrite Z.mul_comm, Z.mod_add by lia. by rewrite Z.mod_mod by lia.
Qed.

Lemma be_bytes_be_val bs : bytes_ok bs -> be_bytes (length bs) (be_val bs) = bs.
Proof.
  induction 1 as [|b bs Hb Hbs IH]; cbn [be_val be_bytes length]; [done|].
  pose proof (be_val_bounds bs Hbs) as Hv. pose proof (pow256_pos (length bs)).
  f_equal.
  - rewrite Z.add_comm, Z.div_add, Z.div_small, Z.add_0_l by lia.
    unfold u8 in Hb. rewrite Z.mod_small; lia.
  - rewrite <- be_bytes_mod, Z.add_comm, Z.mod_add by lia.
    by rewrite be_bytes_mod, IH.
Qed.

#[export] Hint Resolve be_bytes_ok length_be_bytes pow256_pos : rogg.

(** Bit fields: a shifted value or-ed with a smaller one is a sum. *)
Lemma lor_shiftl_add a c n : 0 <= n -> 0 <= c < 2 ^ n -> Z.lor (Z.shiftl a n) c = a * 2 ^ n + c.
Proof.
  intros Hn Hc. rewrite Z.shiftl_mul_pow2 by done. pose proof (Z.add_lor_land (a * 2 ^ n) c) as E.
  assert (Z.land (a * 2 ^ n) c = 0) as El; [|lia].
  apply Z.bits_inj'. intros i Hi. rewrite Z.land_spec, Z.bits_0.
  destruct (Z.ltb_spec i n).
  - by rewrite Z.mul_pow2_bits_low by lia.
  - rewrite <- (Z.mod_small c (2 ^ n)), Z.mod_pow2_bits_high by lia. apply andb_false_r.
Qed.

(** Masks of low bits are remainders. *)
Lemma land_mask_mod a n : 0 <= n -> Z.land a (2 ^ n - 1) = a mod 2 ^ n.
Proof. intros. rewrite <- Z.land_ones by done. by rewrite Z.ones_equiv, <- Z.sub_1_r. Qed.

Lemma strongly_sorted_lt_nodup (l : list nat) : StronglySorted lt l -> NoDup l.
Proof.
  induction 1 as [|a l _ IH Ha]; constructor; [|done].
  intros Hin. rewrite Forall_forall in Ha. apply Ha in Hin. lia.
Qed.

(** ** Filtered lists *)
Lemma forall_filter {A} (P Q : A -> Prop) `{forall x, Decision (Q x)} l : Forall P l -> Forall P (filter Q l).
Proof. rewrite !Forall_forall. intros Hl x [_ Hx]%list_elem_of_filter. by apply Hl. Qed.
Lemma filter_all {A} (P : A -> Prop) `{!forall x, Decision (P x)} (l : list A) : Forall P l -> filter P l = l.
Proof. induction 1 as [|x l Hx _ IH]; [done|]. by rewrite filter_cons_True, IH. Qed.
Lemma filter_none {A} (P : A -> Prop) `{!forall x, Decision (P x)} (l : list A) : (forall x, x ∈ l -> ~ P x) -> filter P l = [].
Proof.
  induction l as [|x l IH]; intros Hl; [done|]. rewrite filter_cons_False by (apply Hl; by left). apply IH. intros y Hy. apply Hl. by right.
Qed.

(** ** Lexicographic comparison of integer tuples *)
Fixpoint lexcmp (xs ys : list Z) : comparison :=
  match xs, ys with
  | x :: xs', y :: ys' =>
      match Z.compare x y with Eq => lexcmp xs' ys' | c => c end
  | [], [] => Eq
  | [], _ :: _ => Lt
  | _ :: _, [] => Gt
  end.

Lemma lexcmp_refl xs : lexcmp xs xs = Eq.
Proof. induction xs as [|x xs IH]; simpl; [done|]. by rewrite Z.compare_refl. Qed.

Lemma lexcmp_antisym xs ys : lexcmp ys xs = CompOpp (lexcmp xs ys).
Proof.
  revert ys. induction xs as [|x xs IH]; intros [|y ys]; simpl; try done.
  rewrite (Z.compare_antisym x y). by destruct (x ?= y); simpl.
Qed.

Lemma lexcmp_eq xs ys : lexcmp xs ys = Eq <-> xs = ys.
Proof.
  revert ys. induction xs as [|x xs IH]; intros [|y ys]; simpl; try done.
  destruct (Z.compare_spec x y) as [->|Hlt|Hgt].
  - rewrite IH. split; congruence.
  - split; [done|]. intros [= -> ->]. lia.
  - split; [done|]. intros [= -> ->]. lia.
Qed.

Lemma lexcmp_trans xs ys zs :
  lexcmp xs ys <> Gt -> lexcmp ys zs <> Gt -> lexcmp xs zs <> Gt.
Proof.
  revert ys zs. induction xs as [|x xs IH]; intros [|y ys] [|z zs]; simpl; try done.
  destruct (Z.compare_spec x y); destruct (Z.compare_spec y z);
    destruct (Z.compare_spec x z); subst; try done; try lia; eauto.
Qed.

(** ** Insertion sort

    The stable sort the standard library runs on short slices: every element
    is moved left past the elements it compares [Less] to. *)
Section insertion_sort.
  Context {A : Type} (cmp : A -> A -> comparison).

(** The sorted prefix is kept reversed, its last element first. *)
Fixpoint insert_rev (x : A) (rl : list A) : list A :=
  match rl with
  | [] => [x]
  | y :: r => match cmp x y with Lt => y :: insert_rev x r | _ => x :: rl end
  end.

Definition insertion_sort (l : list A) : list A :=
  rev (foldl (fun rl x => insert_rev x rl) [] l).

Lemma insert_rev_perm x rl : insert_rev x rl ≡ₚ x :: rl.
Proof.
  induction rl as [|y r IH]; simpl; [done|].
  destruct (cmp x y); try done. rewrite IH. apply Permutation_swap.
Qed.

Lemma foldl_insert_perm l rl :
  foldl (fun rl x => insert_rev x rl) rl l ≡ₚ l ++ rl.
Proof.
  revert rl. induction l as [|x l IH]; intros rl; simpl; [done|].
  rewrite IH, insert_rev_perm. symmetry. apply Permutation_middle.
Qed.

Lemma insertion_sort_perm l : insertion_sort l ≡ₚ l.
Proof.
  unfold insertion_sort. rewrite <- Permutation_rev, foldl_insert_perm.
  by rewrite app_nil_r.
Qed.

Lemma elem_of_insertion_sort l x : x ∈ insertion_sort l <-> x ∈ l.
Proof. by rewrite insertion_sort_perm. Qed.

Lemma length_insertion_sort l : length (insertion_sort l) = length l.
Proof. by rewrite insertion_sort_perm. Qed.

(** [cmp] is a total preorder on the elements satisfying [P]. *)
Record cmp_preorder (P : A -> Prop) : Prop := {
  cp_antisym : forall a b, P a -> P b -> cmp b a = CompOpp (cmp a b);
  cp_trans : forall a b c, P a -> P b -> P c ->
    cmp a b <> Gt -> cmp b c <> Gt -> cmp a c <> Gt;
}.

Context (P : A -> Prop) (HP : cmp_preorder P).

Lemma insert_rev_sorted x rl :
  P x -> Forall P rl ->
  StronglySorted (fun a b => cmp b a <> Gt) rl ->
  StronglySorted (fun a b => cmp b a <> Gt) (insert_rev x rl).
Proof.
  intros Hx Hrl Hs. induction Hs as [|y r Hs IH Hy]; simpl.
  - repeat constructor.
  - apply Forall_cons in Hrl as [HPy HPr].
    pose proof (cp_antisym _ HP x y Hx HPy) as Hxy.
    destruct (cmp x y) eqn:E.
    + constructor; [by constructor|]. simpl in Hxy.
      constructor; [congruence|]. rewrite Forall_forall in Hy, HPr |- *.
      intros z Hz. apply (cp_trans _ HP z y x); auto. congruence.
    + constructor; [by apply IH|]. rewrite insert_rev_perm.
      constructor; [congruence|done].
    + constructor; [by constructor|]. simpl in Hxy.
      constructor; [congruence|]. rewrite Forall_forall in Hy, HPr |- *.
      intros z Hz. apply (cp_trans _ HP z y x); auto. congruence.
Qed.

Lemma foldl_insert_sorted l rl :
  Forall P l -> Forall P rl ->
  StronglySorted (fun a b => cmp b a <> Gt) rl ->
  StronglySorted (fun a b => cmp b a <> Gt)
    (foldl (fun rl x => insert_rev x rl) rl l).
Proof.
  revert rl. induction l as [|x l IH]; intros rl Hl Hrl Hs; simpl; [done|].
  apply Forall_cons in Hl as [Hx Hl]. apply IH; [done| |].
  - rewrite insert_rev_perm. by constructor.
  - by apply insert_rev_sorted.
Qed.

Lemma strongly_sorted_rev (R : A -> A -> Prop) l :
  StronglySorted (fun a b => R b a) l -> StronglySorted R (rev l).
Proof.
  induction 1 as [|x l Hs IH Hx]; simpl; [constructor|].
  apply StronglySorted_app_2; [|done|repeat constructor].
  intros a b Ha Hb. apply list_elem_of_singleton in Hb as ->.
  rewrite Forall_forall in Hx. apply Hx. by rewrite Permutation_rev.
Qed.

Lemma insertion_sort_sorted l :
  Forall P l -> StronglySorted (fun a b => cmp a b <> Gt) (insertion_sort l).
Proof.
  intros Hl. apply strongly_sorted_rev, foldl_insert_sorted; auto; constructor.
Qed.
End insertion_sort.

(** ** [slice::sort_by]

    Rust's stable sort.  When the comparison is a total preorder on the
    elements the result is the one every stable sort gives.  When it is not,
    the standard library leaves the order open and allows a panic: [None] is
    the panic, and any permutation may come back. *)
Class SortBy := {
  sort_by {A : Type} : (A -> A -> comparison) -> list A -> option (list A);
  sort_by_perm {A : Type} cmp (l l' : list A) : sort_by cmp l = Some l' -> l' ≡ₚ l;
  sort_by_preorder {A : Type} cmp (l : list A) :
    cmp_preorder cmp (fun x => x ∈ l) -> sort_by cmp l = Some (insertion_sort cmp l);
}.

(** A sort that never panics. *)
Class SortReturns `{SortBy} := {
  sort_returns {A : Type} cmp (l : list A) : is_Some (sort_by cmp l);
}.

Lemma sort_by_sorted `{SortBy} {A} (cmp : A -> A -> comparison) (l l' : list A) :
  cmp_preorder cmp (fun x => x ∈ l) -> sort_by cmp l = Some l' ->
  StronglySorted (fun a b => cmp a b <> Gt) l'.
Proof.
  intros Hp. rewrite sort_by_preorder by done. intros [= <-].
  apply (insertion_sort_sorted _ _ Hp). by apply Forall_forall.
Qed.

(** *** Instances *)
Definition insertion_sorts : SortBy :=
  {| sort_by _ cmp l := Some (insertion_sort cmp l);
     sort_by_perm _ cmp l l' E := match E in _ = x return default l x ≡ₚ l with eq_refl => insertion_sort_perm cmp l end;
     sort_by_preorder _ _ _ _ := eq_refl |}.

(** The sort [S], and insertion sort where it panics. *)
Definition returning (S : SortBy) : SortBy.
Proof.
  refine {| sort_by _ cmp l := Some (default (insertion_sort cmp l) (@sort_by S _ cmp l)) |}.
  - intros A cmp l l' [= <-]. destruct (@sort_by S A cmp l) as [l'|] eqn:E; cbn;
      [by apply sort_by_perm in E|apply insertion_sort_perm].
  - intros A cmp l Hp. by rewrite sort_by_preorder.
Defined.

(** The sort that panics whenever it is allowed to. *)
Definition is_preorder {A} (cmp : A -> A -> comparison) (l : list A) : bool :=
  forallb (fun a => forallb (fun b =>
    bool_decide (cmp b a = CompOpp (cmp a b)) &&
    forallb (fun c => bool_decide (cmp a b <> Gt -> cmp b c <> Gt -> cmp a c <> Gt)) l) l) l.

Lemma is_preorder_spec {A} (cmp : A -> A -> comparison) l :
  cmp_preorder cmp (fun x => x ∈ l) -> is_preorder cmp l = true.
Proof.
  intros [Ha Ht]. apply forallb_forall. intros a Hin%list_elem_of_In. apply forallb_forall. intros b Hb%list_elem_of_In.
  apply andb_true_iff. split; [by apply bool_decide_eq_true, Ha|].
  apply forallb_forall. intros c Hc%list_elem_of_In. apply bool_decide_eq_true. by apply Ht.
Qed.

Definition strict_sorts : SortBy.
Proof.
  refine {| sort_by _ cmp l := if is_preorder cmp l then Some (insertion_sort cmp l) else None |}.
  - intros A cmp l l'. destruct (is_preorder cmp l); [|done]. intros [= <-]. apply insertion_sort_perm.
  - intros A cmp l Hp. by rewrite is_preorder_spec.
Defined.

Lemma insertion_sorts_return : @SortReturns insertion_sorts.
Proof. split. by eexists. Qed.
Lemma returning_returns (S : SortBy) : @SortReturns (returning S).
Proof. split. by eexists. Qed.

(** What [S1] returns, [S2] returns as well. *)
Definition sort_le (S1 S2 : SortBy) : Prop :=
  forall A cmp (l l' : list A), @sort_by S1 A cmp l = Some l' -> @sort_by S2 A cmp l = Some l'.

Lemma sort_le_returning (S : SortBy) : sort_le S (returning S).
Proof. intros A cmp l l' E. cbn. by rewrite E. Qed.

(** ** Hash iteration order

    A [HashMap] or [HashSet] is iterated in an order that depends on the
    random keys of the table.  What the code computes by such an iteration is
    stated for any order. *)
Class HashOrder := {
  hash_order {A : Type} : list A -> list A;
  hash_order_perm {A : Type} (l : list A) : hash_order l ≡ₚ l;
}.

(** The order of insertion, for evaluation. *)
Definition insertion_order : HashOrder := {| hash_order _ l := l; hash_order_perm _ _ := reflexivity _ |}.
(** Its reverse. *)
Definition reverse_order : HashOrder :=
  {| hash_order _ l := rev l; hash_order_perm _ l := Permutation_sym (Permutation_rev l) |}.

Lemma elem_of_hash_order `{HashOrder} {A} (l : list A) x : x ∈ hash_order l <-> x ∈ l.
Proof. by rewrite hash_order_perm. Qed.

(** ** Definedness

    [y] returns at least what [x] returns. *)
Definition opt_le {A} (x y : option A) : Prop := forall a, x = Some a -> y = Some a.

Lemma opt_le_refl {A} (x : option A) : opt_le x x.
Proof. by intros a. Qed.
Lemma opt_le_bind {A B} (x y : option A) (f g : A -> option B) :
  opt_le x y -> (forall a, opt_le (f a) (g a)) -> opt_le (x ≫= f) (y ≫= g).
Proof. intros Hxy Hfg b (a & Ea & Eb)%bind_Some. rewrite (Hxy _ Ea). by apply Hfg. Qed.
