(* ===== verification/Wire.v ===== *)
(** * Loops over a buffer

    The decoders are loops [while cursor < bytes.len()] that read one element
    and advance the cursor.  [parse_many] is such a loop over the rest of the
    buffer, [step] being one turn; the lemmas give, for any [step] that
    consumes at least a byte, that the length of the buffer is enough fuel,
    that reading back what an encoder wrote gives it back, and that a loop
    whose turns never panic never panics. *)
From S2P Require Import Prelude.

Section parse_many.
Context {E A : Type} (step : list Z -> outcome E (A * list Z)).

Fixpoint parse_many (fuel : nat) (bytes : list Z) : outcome E (list A) :=
  match bytes with
  | [] => Ok []
  | _ =>
      match fuel with
      | O => Panic
      | S fuel => '(a, rest) ← step bytes; more ← parse_many fuel rest; Ok (a :: more)
      end
  end.

(** The loop with all the fuel it can use. *)
Definition parse_list (bytes : list Z) : outcome E (list A) := parse_many (length bytes) bytes.

Hypothesis step_shrinks : forall bytes a rest,
  step bytes = Ok (a, rest) -> (length rest < length bytes)%nat.

Lemma parse_many_fuel n m bytes :
  (length bytes <= n)%nat -> (length bytes <= m)%nat -> parse_many n bytes = parse_many m bytes.
Proof.
  revert m bytes. induction n as [|n IH]; intros m bytes Hn Hm.
  { destruct bytes; [by destruct m|simpl in *; lia]. }
  destruct m as [|m]; [destruct bytes; [done|simpl in *; lia]|].
  destruct bytes as [|b bytes]; [done|]. cbn [parse_many].
  destruct (step (b :: bytes)) as [[a rest]| |] eqn:Es; [|done..].
  apply step_shrinks in Es. cbn [mbind outcome_bind]. by rewrite (IH m rest) by (simpl in *; lia).
Qed.

Lemma parse_list_nil : parse_list [] = Ok [].
Proof. done. Qed.

Lemma parse_list_cons bytes :
  bytes <> [] ->
  parse_list bytes = '(a, rest) ← step bytes; more ← parse_list rest; Ok (a :: more).
Proof.
  intros Hne. unfold parse_list. destruct bytes as [|b bytes]; [done|]. cbn [parse_many length].
  destruct (step (b :: bytes)) as [[a rest]| |] eqn:Es; [|done..].
  apply step_shrinks in Es. cbn [mbind outcome_bind].
  by rewrite (parse_many_fuel (length bytes) (length rest)) by (simpl in *; lia).
Qed.

(** Induction over the elements of a buffer. *)
Lemma parse_list_ind (P : list Z -> Prop) :
  P [] ->
  (forall bytes, bytes <> [] -> (forall a rest, step bytes = Ok (a, rest) -> P rest) -> P bytes) ->
  forall bytes, P bytes.
Proof.
  intros H0 Hs bytes. induction bytes as [bytes IH] using (induction_ltof1 _ (@length Z)).
  destruct (decide (bytes = [])) as [->|Hne]; [done|]. apply Hs; [done|].
  intros a rest Es. apply IH. by eapply step_shrinks.
Qed.

Lemma parse_list_no_panic bytes : (forall bytes, step bytes <> Panic) -> parse_list bytes <> Panic.
Proof.
  intros Hstep. induction bytes as [|bytes Hne IH] using parse_list_ind; [done|].
  rewrite parse_list_cons by done. specialize (Hstep bytes).
  destruct (step bytes) as [[a rest]| |] eqn:Es; [|done..]. cbn [mbind outcome_bind].
  specialize (IH a rest eq_refl). by destruct (parse_list rest).
Qed.

(** What the turns establish of the elements holds of the whole list. *)
Lemma parse_list_forall (B : list Z -> Prop) (Q : A -> Prop) bytes l :
  (forall bytes a rest, B bytes -> step bytes = Ok (a, rest) -> Q a /\ B rest) ->
  B bytes -> parse_list bytes = Ok l -> Forall Q l.
Proof.
  intros Hstep. revert l. induction bytes as [|bytes Hne IH] using parse_list_ind; intros l Hb.
  { intros [= <-]. constructor. }
  rewrite parse_list_cons by done.
  destruct (step bytes) as [[a rest]| |] eqn:Es; [|done..]. cbn [mbind outcome_bind].
  destruct (Hstep bytes a rest Hb Es) as [Ha Hr]. specialize (IH a rest eq_refl).
  destruct (parse_list rest) as [more| |]; [|done..]. intros [= <-]. constructor; [done|]. by apply IH.
Qed.

(** An encoder [write] and the elements it is faithful on. *)
Context (write : A -> list Z) (wf : A -> Prop).
Hypothesis step_write : forall a tail, wf a -> write a <> [] /\ step (write a ++ tail) = Ok (a, tail).

Lemma parse_list_app l tail :
  Forall wf l ->
  parse_list (concat (map write l) ++ tail) = more ← parse_list tail; Ok (l ++ more).
Proof.
  induction 1 as [|a l Ha _ IH]; cbn [map concat app].
  { by destruct (parse_list tail). }
  rewrite <- app_assoc. destruct (step_write a (concat (map write l) ++ tail) Ha) as [Hne Es].
  rewrite parse_list_cons by (by destruct (write a)). rewrite Es. cbn [mbind outcome_bind].
  rewrite IH. by destruct (parse_list tail).
Qed.

Lemma parse_list_write l : Forall wf l -> parse_list (concat (map write l)) = Ok l.
Proof.
  intros Hl. rewrite <- (app_nil_r (concat _)), parse_list_app by done. cbn. by rewrite app_nil_r.
Qed.

(** Conversely, when a turn consumes exactly what [write] gives. *)
Lemma parse_list_sound bytes l :
  (forall bytes a rest, step bytes = Ok (a, rest) -> bytes = write a ++ rest) ->
  parse_list bytes = Ok l -> bytes = concat (map write l).
Proof.
  intros Hs. revert l. induction bytes as [|bytes Hne IH] using parse_list_ind; intros l.
  { by intros [= <-]. }
  rewrite parse_list_cons by done.
  destruct (step bytes) as [[a rest]| |] eqn:Es; [|done..]. cbn [mbind outcome_bind].
  specialize (IH a rest eq_refl). destruct (parse_list rest) as [more| |]; [|done..].
  intros [= <-]. rewrite (Hs _ _ _ Es). cbn. by rewrite <- (IH more).
Qed.
End parse_many.

(** ** Type-length-value elements

    A one-byte type, a one-byte length and a value: the shape of the OPEN
    parameters and capabilities. *)
Definition read_tlv8 {E} (err : E) (bytes : list Z) : outcome E (Z * list Z * list Z) :=
  match bytes with
  | t :: len :: body =>
      if (length body <? Z.to_nat len)%nat then Err err
      else Ok (t, take (Z.to_nat len) body, drop (Z.to_nat len) body)
  | _ => Err err
  end.

Lemma read_tlv8_split {E} (err : E) bytes t val rest :
  bytes_ok bytes -> read_tlv8 err bytes = Ok (t, val, rest) ->
  bytes = t :: Z.of_nat (length val) :: val ++ rest /\ u8 t /\ bytes_ok val /\ bytes_ok rest /\
  Z.of_nat (length val) < 256.
Proof.
  unfold read_tlv8. destruct bytes as [|t' [|len body]]; [done..|].
  intros [Ht [Hlen Hb]%Forall_cons]%Forall_cons. unfold u8 in Hlen.
  destruct (Nat.ltb_spec (length body) (Z.to_nat len)); [done|]. intros [= <- <- <-].
  rewrite length_take, Nat.min_l, Z2Nat.id, take_drop by lia.
  split_and!; [done|done|by apply Forall_take|by apply Forall_drop|lia].
Qed.

Lemma read_tlv8_shrinks {E} (err : E) bytes t val rest :
  read_tlv8 err bytes = Ok (t, val, rest) -> (length rest < length bytes)%nat.
Proof.
  unfold read_tlv8. destruct bytes as [|t' [|len body]]; [done..|].
  destruct (_ <? _)%nat; [done|]. intros [= <- <- <-]. rewrite length_drop. simpl. lia.
Qed.

Lemma read_tlv8_write {E} (err : E) t val tail :
  read_tlv8 err (t :: Z.of_nat (length val) :: val ++ tail) = Ok (t, val, tail).
Proof.
  unfold read_tlv8. rewrite Nat2Z.id, length_app.
  destruct (Nat.ltb_spec (length val + length tail) (length val)); [lia|].
  by rewrite (take_app_length val), (drop_app_length val).
Qed.

Lemma read_tlv8_no_panic {E} (err : E) bytes : read_tlv8 err bytes <> Panic.
Proof. unfold read_tlv8. by repeat case_match. Qed.

(** A two-byte type, a two-byte length and a value: the shape of the BGP-LS
    TLVs.  [truncated] and [overflow] give the error values. *)
Section tlv16.
Context {E : Type} (truncated : list Z -> E) (overflow : Z -> nat -> nat -> E).

Definition read_tlv16 (bytes : list Z) : outcome E (Z * list Z * list Z) :=
  match bytes with
  | a :: b :: c :: d :: body =>
      let t := be_val [a; b] in
      let len := Z.to_nat (be_val [c; d]) in
      if (length body <? len)%nat then Err (overflow t len (length body))
      else Ok (t, take len body, drop len body)
  | _ => Err (truncated bytes)
  end.

Definition write_tlv16 (t : Z) (val : list Z) : list Z :=
  be_bytes 2 t ++ be_bytes 2 (Z.of_nat (length val)) ++ val.

Lemma read_tlv16_shrinks bytes t val rest :
  read_tlv16 bytes = Ok (t, val, rest) -> (length rest < length bytes)%nat.
Proof.
  unfold read_tlv16. destruct bytes as [|a [|b [|c [|d body]]]]; [done..|].
  cbv zeta. destruct (_ <? _)%nat; [done|]. intros [= <- <- <-]. rewrite length_drop. simpl. lia.
Qed.

Lemma read_tlv16_write t val tail :
  u16 t -> Z.of_nat (length val) < 65536 -> read_tlv16 (write_tlv16 t val ++ tail) = Ok (t, val, tail).
Proof.
  unfold u16. intros Ht Hv. unfold write_tlv16. rewrite <- !app_assoc.
  pose proof (be_val_be_bytes_id 2 t ltac:(lia)) as Et.
  pose proof (be_val_be_bytes_id 2 (Z.of_nat (length val)) ltac:(lia)) as El.
  pose proof (length_be_bytes 2 t) as L1. pose proof (length_be_bytes 2 (Z.of_nat (length val))) as L2.
  destruct (be_bytes 2 t) as [|a [|b [|]]]; try done.
  destruct (be_bytes 2 (Z.of_nat (length val))) as [|c [|d [|]]]; try done.
  cbn [app]. unfold read_tlv16. rewrite Et, El, Nat2Z.id, length_app. cbv zeta.
  destruct (Nat.ltb_spec (length val + length tail) (length val)); [lia|].
  by rewrite (take_app_length val), (drop_app_length val).
Qed.

Lemma read_tlv16_no_panic bytes : read_tlv16 bytes <> Panic.
Proof. unfold read_tlv16. by repeat case_match. Qed.

Lemma write_tlv16_nonempty t val : write_tlv16 t val <> [].
Proof. done. Qed.
End tlv16.

(** ** [chunks_exact] *)
Fixpoint chunks_exact (k : nat) (n : nat) (l : list Z) : list (list Z) :=
  match n with
  | O => []
  | S n => if (length l <? k)%nat then [] else take k l :: chunks_exact k n (drop k l)
  end.
(** [l.chunks_exact(k)], for [k > 0]: no more chunks than elements. *)
Definition chunks (k : nat) (l : list Z) : list (list Z) := chunks_exact k (length l) l.

Lemma chunks_exact_concat {A} k (f : A -> list Z) l n :
  (0 < k)%nat -> (length (concat (map f l)) <= n)%nat -> Forall (fun x => length (f x) = k) l ->
  chunks_exact k n (concat (map f l)) = map f l.
Proof.
  intros Hk. revert n. induction l as [|x l IH]; intros n Hn Hl.
  { destruct n; [done|]. destruct k; [lia|done]. }
  apply Forall_cons in Hl as [Hx Hl]. cbn [map concat] in *. rewrite length_app in Hn.
  destruct n as [|n]; [lia|]. cbn [chunks_exact]. rewrite length_app, Hx.
  destruct (Nat.ltb_spec (k + length (concat (map f l))) k); [lia|].
  rewrite take_app_length', drop_app_length' by done. by rewrite IH by (done || lia).
Qed.

Lemma chunks_concat {A} k (f : A -> list Z) l :
  (0 < k)%nat -> Forall (fun x => length (f x) = k) l -> chunks k (concat (map f l)) = map f l.
Proof. intros. by apply chunks_exact_concat. Qed.

(** Big-endian words of [k] bytes. *)
Definition words (k : nat) (l : list Z) : list Z := map be_val (chunks k l).
Definition word_bytes (k : nat) (l : list Z) : list Z := concat (map (be_bytes k) l).

Lemma words_word_bytes k l :
  (0 < k)%nat -> Forall (fun v => 0 <= v < 256 ^ Z.of_nat k) l -> words k (word_bytes k l) = l.
Proof.
  intros Hk Hl. unfold words, word_bytes. rewrite chunks_concat, map_map.
  - induction Hl as [|v l Hv Hl IH]; [done|]. cbn [map]. rewrite be_val_be_bytes_id by done. by rewrite IH.
  - done.
  - apply Forall_forall. intros x _. apply length_be_bytes.
Qed.

Lemma length_word_bytes k l : length (word_bytes k l) = (k * length l)%nat.
Proof.
  induction l as [|v l IH]; [cbn; lia|]. change (word_bytes k (v :: l)) with (be_bytes k v ++ word_bytes k l).
  rewrite length_app, length_be_bytes, IH. cbn. lia.
Qed.

(** ** Slices *)
(** [&bytes[from..from + len]] *)
Definition slice {E} (bytes : list Z) (from len : nat) : outcome E (list Z) :=
  if (from + len <=? length bytes)%nat then Ok (take len (drop from bytes)) else Panic.
(** [u32::from_be_bytes] and its kin on [len] bytes. *)
Definition read_be {E} (bytes : list Z) (from len : nat) : outcome E Z := be_val <$> slice bytes from len.

Lemma slice_app {E} l1 l2 l3 from len :
  length l1 = from -> length l2 = len -> slice (l1 ++ l2 ++ l3) from len = Ok (E := E) l2.
Proof.
  intros <- <-. unfold slice. rewrite !length_app.
  destruct (Nat.leb_spec (length l1 + length l2) (length l1 + (length l2 + length l3))); [|lia].
  by rewrite drop_app_length, take_app_length.
Qed.

Lemma read_be_app {E} l1 k v l3 from :
  length l1 = from -> 0 <= v < 256 ^ Z.of_nat k -> read_be (l1 ++ be_bytes k v ++ l3) from k = Ok (E := E) v.
Proof.
  intros Hf Hv. unfold read_be. rewrite slice_app by (done || apply length_be_bytes).
  cbn [fmap outcome_fmap]. by rewrite be_val_be_bytes_id.
Qed.

Lemma read_be_all {E} k v : 0 <= v < 256 ^ Z.of_nat k -> read_be (be_bytes k v) 0 k = Ok (E := E) v.
Proof. intros Hv. pose proof (read_be_app (E := E) [] k v [] 0 eq_refl Hv) as Er. by rewrite app_nil_r in Er. Qed.

Lemma read_be_first {E} k v l3 : 0 <= v < 256 ^ Z.of_nat k -> read_be (be_bytes k v ++ l3) 0 k = Ok (E := E) v.
Proof. apply (read_be_app [] k v l3 0 eq_refl). Qed.

Lemma read_be_last {E} l1 k v from :
  length l1 = from -> 0 <= v < 256 ^ Z.of_nat k -> read_be (l1 ++ be_bytes k v) from k = Ok (E := E) v.
Proof. intros Hf Hv. pose proof (read_be_app (E := E) l1 k v [] from Hf Hv) as Er. by rewrite app_nil_r in Er. Qed.

Lemma slice_no_panic {E} bytes from len : (from + len <= length bytes)%nat -> slice bytes from len <> Panic (E := E).
Proof. intros Hl. unfold slice. by rewrite (proj2 (Nat.leb_le _ _)). Qed.

Lemma read_be_no_panic {E} bytes from len : (from + len <= length bytes)%nat -> read_be bytes from len <> Panic (E := E).
Proof. intros Hl. by apply outcome_fmap_no_panic, slice_no_panic. Qed.

Lemma read_be_short {E} bytes from len : (length bytes < from + len)%nat -> read_be bytes from len = Panic (E := E).
Proof. intros Hl. unfold read_be, slice. by destruct (Nat.leb_spec (from + len) (length bytes)); [lia|]. Qed.
