(* ===== verification/Net.v ===== *)
(** * Network prefixes ([bgpgg/src/net/mod.rs], [conf/src/bgp.rs], the
    [Prefix] trait of [bgpgg/src/table/trie.rs])

    Addresses are the integers [u32::from(Ipv4Addr)] / [u128::from(Ipv6Addr)];
    a prefix length is the [u8] field of the code.  The trait [Prefix] is the
    class of the same name; [PrefixLaws] states what the trie relies on, in
    terms of the bit string [key_bits] a prefix denotes, and the instances at
    the end discharge it for both address families. *)
From S2P Require Import Prelude.

(** ** Address families *)
Inductive Afi := Afi_Ipv4 | Afi_Ipv6 | Afi_LinkState.
Inductive Safi := Unicast | Multicast | MplsLabel | Safi_LinkState | LinkStateVpn.
Record AfiSafi := mkAfiSafi { afi : Afi; safi : Safi }.

#[export] Instance Afi_eq_dec : EqDecision Afi.
Proof. solve_decision. Defined.
#[export] Instance Safi_eq_dec : EqDecision Safi.
Proof. solve_decision. Defined.
#[export] Instance AfiSafi_eq_dec : EqDecision AfiSafi.
Proof. solve_decision. Defined.

#[export] Instance Afi_countable : Countable Afi.
Proof.
  apply (inj_countable' (fun a => match a with Afi_Ipv4 => 0 | Afi_Ipv6 => 1 | Afi_LinkState => 2 end)
    (fun z => if z =? 0 then Afi_Ipv4 else if z =? 1 then Afi_Ipv6 else Afi_LinkState)). by intros [].
Defined.
#[export] Instance Safi_countable : Countable Safi.
Proof.
  apply (inj_countable'
    (fun s => match s with Unicast => 0 | Multicast => 1 | MplsLabel => 2 | Safi_LinkState => 3
              | LinkStateVpn => 4 end)
    (fun z => if z =? 0 then Unicast else if z =? 1 then Multicast else if z =? 2 then MplsLabel
              else if z =? 3 then Safi_LinkState else LinkStateVpn)). by intros [].
Defined.
#[export] Instance AfiSafi_countable : Countable AfiSafi.
Proof.
  apply (inj_countable' (fun a => (afi a, safi a)) (fun p => mkAfiSafi p.1 p.2)). by intros [].
Defined.

(** The discriminants of the [repr] enums. *)
Definition afi_to_u16 (a : Afi) : Z :=
  match a with Afi_Ipv4 => 1 | Afi_Ipv6 => 2 | Afi_LinkState => 16388 end.
Definition safi_to_u8 (s : Safi) : Z :=
  match s with
  | Unicast => 1 | Multicast => 2 | MplsLabel => 4
  | Safi_LinkState => 71 | LinkStateVpn => 72
  end.

(** [TryFrom<u16> for Afi], [TryFrom<u8> for Safi]; the [AfiSafiError] of
    the code carries the rejected value only for display. *)
Definition afi_try_from (v : Z) : option Afi :=
  if v =? 1 then Some Afi_Ipv4
  else if v =? 2 then Some Afi_Ipv6
  else if v =? 16388 then Some Afi_LinkState
  else None.
Definition safi_try_from (v : Z) : option Safi :=
  if v =? 1 then Some Unicast
  else if v =? 2 then Some Multicast
  else if v =? 4 then Some MplsLabel
  else if v =? 71 then Some Safi_LinkState
  else if v =? 72 then Some LinkStateVpn
  else None.

(** [AfiSafi::from_raw]: the [as u16] and [as u8] casts truncate. *)
Definition afi_safi_from_raw (a s : option Z) : option AfiSafi :=
  av ← a;
  af ← afi_try_from (av mod 2 ^ 16);
  sf ← safi_try_from (default 1 s mod 2 ^ 8);
  Some (mkAfiSafi af sf).

Definition default_afi_safis : list AfiSafi :=
  [mkAfiSafi Afi_Ipv4 Unicast; mkAfiSafi Afi_Ipv6 Unicast].

(** ** Prefixes *)
Record Ipv4Net := mkV4 { v4_address : Z; v4_len : Z }.
Record Ipv6Net := mkV6 { v6_address : Z; v6_len : Z }.
Inductive IpNetwork := V4 (net : Ipv4Net) | V6 (net : Ipv6Net).

#[export] Instance Ipv4Net_eq_dec : EqDecision Ipv4Net.
Proof. solve_decision. Defined.
#[export] Instance Ipv6Net_eq_dec : EqDecision Ipv6Net.
Proof. solve_decision. Defined.
#[export] Instance IpNetwork_eq_dec : EqDecision IpNetwork.
Proof. solve_decision. Defined.
#[export] Instance Ipv4Net_countable : Countable Ipv4Net.
Proof.
  apply (inj_countable' (fun n => (v4_address n, v4_len n)) (fun p => mkV4 p.1 p.2)).
  by intros [].
Defined.
#[export] Instance Ipv6Net_countable : Countable Ipv6Net.
Proof.
  apply (inj_countable' (fun n => (v6_address n, v6_len n)) (fun p => mkV6 p.1 p.2)).
  by intros [].
Defined.
#[export] Instance IpNetwork_countable : Countable IpNetwork.
Proof.
  apply (inj_countable'
    (fun n => match n with V4 n => inl n | V6 n => inr n end)
    (fun s => match s with inl n => V4 n | inr n => V6 n end)).
  by intros [].
Defined.

(** [IpNetwork::prefix_len] *)
Definition network_prefix_len (n : IpNetwork) : Z :=
  match n with V4 net => v4_len net | V6 net => v6_len net end.

(** [IpNetwork::afi_safi] *)
Definition network_afi_safi (n : IpNetwork) : AfiSafi :=
  match n with
  | V4 _ => mkAfiSafi Afi_Ipv4 Unicast
  | V6 _ => mkAfiSafi Afi_Ipv6 Unicast
  end.

(** [Ipv4Net::is_multicast]: on the first octet. *)
Definition is_multicast (n : Ipv4Net) : bool :=
  let o := Z.shiftr (v4_address n) 24 in (224 <=? o) && (o <=? 239).

(** [x << n] on a [w]-bit unsigned integer.  A shift by [w] or more panics
    when overflow checks are on (debug builds) and otherwise shifts by
    [n mod w] (release builds). *)
Definition shl (checks : bool) (w x n : Z) : option Z :=
  if n <? w then Some (Z.shiftl x n mod 2 ^ w)
  else if checks then None
  else Some (Z.shiftl x (n mod w) mod 2 ^ w).

(** [32 - len] on [u8]. *)
Definition sub_u8 (checks : bool) (a b : Z) : option Z :=
  if b <=? a then Some (a - b) else if checks then None else Some ((a - b) mod 2 ^ 8).

(** [IpNetwork::contains] *)
Definition network_contains (checks : bool) (n other : IpNetwork) : option bool :=
  match n, other with
  | V4 net, V4 p =>
      k ← sub_u8 checks 32 (v4_len net);
      mask ← shl checks 32 (2 ^ 32 - 1) k;
      Some (Z.land (v4_address net) mask =? Z.land (v4_address p) mask)
  | V6 net, V6 p =>
      k ← sub_u8 checks 128 (v6_len net);
      mask ← shl checks 128 (2 ^ 128 - 1) k;
      Some (Z.land (v6_address net) mask =? Z.land (v6_address p) mask)
  | _, _ => Some false
  end.

(** ** The [Prefix] trait *)
Class Prefix (K : Type) := {
  prefix_len : K -> Z;
  bit_at : K -> Z -> bool;
  common_prefix_len : K -> K -> Z;
  masked : K -> Z -> K;
}.

(** [uN::leading_zeros] *)
Definition leading_zeros (w x : Z) : Z := if x =? 0 then w else w - 1 - Z.log2 x.

#[export] Instance Ipv4Net_Prefix : Prefix Ipv4Net := {
  prefix_len := v4_len;
  bit_at k pos := Z.land (Z.shiftr (v4_address k) (31 - pos)) 1 =? 1;
  common_prefix_len a b :=
    let xor := Z.lxor (v4_address a) (v4_address b) in
    let leading := leading_zeros 32 xor in
    Z.min (Z.min leading (v4_len a)) (v4_len b);
  masked k len :=
    if len =? 0 then mkV4 0 0
    else
      let mask := Z.shiftl (2 ^ 32 - 1) (32 - len) mod 2 ^ 32 in
      mkV4 (Z.land (v4_address k) mask) len;
}.

#[export] Instance Ipv6Net_Prefix : Prefix Ipv6Net := {
  prefix_len := v6_len;
  bit_at k pos := Z.land (Z.shiftr (v6_address k) (127 - pos)) 1 =? 1;
  common_prefix_len a b :=
    let xor := Z.lxor (v6_address a) (v6_address b) in
    let leading := leading_zeros 128 xor in
    Z.min (Z.min leading (v6_len a)) (v6_len b);
  masked k len :=
    if len =? 0 then mkV6 0 0
    else
      let mask := Z.shiftl (2 ^ 128 - 1) (128 - len) mod 2 ^ 128 in
      mkV6 (Z.land (v6_address k) mask) len;
}.

(** ** The bit string of a prefix *)

(** The [n] most significant bits of a [w]-bit address. *)
Definition addr_bits (w : Z) (a : Z) (n : nat) : list bool :=
  map (fun i => Z.testbit a (w - 1 - Z.of_nat i)) (seq 0 n).

(** Length of the longest common prefix. *)
Fixpoint lcp_len (xs ys : list bool) : nat :=
  match xs, ys with
  | x :: xs', y :: ys' => if Bool.eqb x y then S (lcp_len xs' ys') else O
  | _, _ => O
  end.

(** What the trie relies on. [key_ok] are the keys the code builds: an
    address in range and a length that does not exceed the family's. *)
Class PrefixLaws (K : Type) `{Prefix K} := {
  key_ok : K -> Prop;
  key_bits : K -> list bool;
  key_bits_length : forall k, key_ok k ->
    Z.of_nat (length (key_bits k)) = prefix_len k;
  key_bits_max : forall k, key_ok k -> (length (key_bits k) <= 128)%nat;
  key_bits_bit_at : forall k pos, key_ok k -> 0 <= pos < prefix_len k ->
    key_bits k !! Z.to_nat pos = Some (bit_at k pos);
  key_bits_common : forall a b, key_ok a -> key_ok b ->
    common_prefix_len a b = Z.of_nat (lcp_len (key_bits a) (key_bits b));
  key_ok_masked : forall k n, key_ok k -> 0 <= n <= prefix_len k ->
    key_ok (masked k n);
  key_bits_masked : forall k n, key_ok k -> 0 <= n <= prefix_len k ->
    key_bits (masked k n) = take (Z.to_nat n) (key_bits k);
  key_bits_inj : forall a b, key_ok a -> key_ok b ->
    masked a (prefix_len a) = a -> masked b (prefix_len b) = b ->
    key_bits a = key_bits b -> a = b;
  masked_canonical : forall k n, key_ok k -> 0 <= n <= prefix_len k ->
    masked (masked k n) (prefix_len (masked k n)) = masked k n;
}.

(** A prefix without host bits. *)
Definition canonical {K} `{Prefix K} (k : K) : Prop := masked k (prefix_len k) = k.

(** ** Longest common prefixes *)
Lemma lcp_len_le_l xs ys : (lcp_len xs ys <= length xs)%nat.
Proof.
  revert ys. induction xs as [|x xs IH]; intros [|y ys]; simpl; try lia.
  destruct (Bool.eqb x y); [specialize (IH ys)|]; lia.
Qed.

Lemma lcp_len_comm xs ys : lcp_len xs ys = lcp_len ys xs.
Proof.
  revert ys. induction xs as [|x xs IH]; intros [|y ys]; simpl; try done.
  destruct x, y; simpl; auto.
Qed.

Lemma lcp_len_le_r xs ys : (lcp_len xs ys <= length ys)%nat.
Proof. rewrite lcp_len_comm. apply lcp_len_le_l. Qed.

Lemma lcp_len_take xs ys : take (lcp_len xs ys) xs = take (lcp_len xs ys) ys.
Proof.
  revert ys. induction xs as [|x xs IH]; intros [|y ys]; simpl; try done.
  destruct (Bool.eqb_spec x y) as [->|]; simpl; [by rewrite IH|done].
Qed.

Lemma lcp_len_differ xs ys x y :
  xs !! lcp_len xs ys = Some x -> ys !! lcp_len xs ys = Some y -> y = negb x.
Proof.
  revert ys. induction xs as [|x' xs IH]; intros [|y' ys]; simpl; try done.
  destruct x', y'; simpl; [apply IH|by intros [= <-] [= <-]..|apply IH].
Qed.

Lemma lcp_len_unique xs ys n :
  (n <= length xs)%nat -> (n <= length ys)%nat -> take n xs = take n ys ->
  n = length xs \/ n = length ys \/ xs !! n <> ys !! n ->
  lcp_len xs ys = n.
Proof.
  revert ys n. induction xs as [|x xs IH]; intros [|y ys] [|n]; simpl;
    intros Hx Hy Ht Hd; try lia; try done.
  - destruct Hd as [?|[?|Hd]]; try lia.
    destruct (Bool.eqb_spec x y) as [->|]; [congruence|done].
  - injection Ht as -> Ht. rewrite Bool.eqb_reflx. f_equal.
    apply IH; try lia; [done|]. destruct Hd as [?|[?|Hd]]; [lia|lia|]. by right; right.
Qed.

Lemma lcp_len_full xs ys : lcp_len xs ys = length ys <-> ys `prefix_of` xs.
Proof.
  split.
  - intros Hl. exists (drop (length ys) xs).
    pose proof (lcp_len_take xs ys) as Ht. rewrite Hl, firstn_all in Ht.
    rewrite <- Ht at 1. by rewrite take_drop.
  - intros [zs ->]. apply lcp_len_unique.
    + rewrite length_app. lia.
    + lia.
    + by rewrite take_app_length, firstn_all.
    + by right; left.
Qed.

(** ** Address bits *)
Lemma length_addr_bits w a n : length (addr_bits w a n) = n.
Proof. unfold addr_bits. by rewrite length_map, length_seq. Qed.

Lemma addr_bits_lookup w a n i :
  (i < n)%nat -> addr_bits w a n !! i = Some (Z.testbit a (w - 1 - Z.of_nat i)).
Proof.
  intros Hi. unfold addr_bits. rewrite list_lookup_fmap, lookup_seq_lt by done. done.
Qed.

Lemma addr_bits_take w a n m :
  (m <= n)%nat -> take m (addr_bits w a n) = addr_bits w a m.
Proof.
  intros Hm. unfold addr_bits. rewrite List.firstn_map, take_seq.
  by rewrite Nat.min_l.
Qed.

(** The instances differ only in the width [w]; these lemmas are shared. *)
Lemma bit_at_testbit a n : 0 <= n -> (Z.land (Z.shiftr a n) 1 =? 1) = Z.testbit a n.
Proof.
  intros Hn. change 1 with (Z.ones 1). rewrite Z.land_ones by lia.
  rewrite <- Z.bit0_mod, Z.shiftr_spec, Z.add_0_l by lia.
  by destruct (Z.testbit a n).
Qed.

Lemma addr_bits_inj w a b n :
  0 <= a < 2 ^ w -> 0 <= b < 2 ^ w ->
  (forall i, 0 <= i < w - Z.of_nat n -> Z.testbit a i = Z.testbit b i) ->
  addr_bits w a n = addr_bits w b n -> a = b.
Proof.
  intros Ha Hb Hlow Hbits. apply Z.bits_inj'. intros i Hi.
  destruct (Z.lt_ge_cases i w) as [Hw|Hw].
  - destruct (Z.lt_ge_cases i (w - Z.of_nat n)); [by apply Hlow|].
    assert (Z.to_nat (w - 1 - i) < n)%nat as Hn by lia.
    pose proof (addr_bits_lookup w a n _ Hn) as Ea.
    pose proof (addr_bits_lookup w b n _ Hn) as Eb.
    rewrite Hbits, Eb in Ea. injection Ea as Ea.
    replace (w - 1 - Z.of_nat (Z.to_nat (w - 1 - i))) with i in Ea by lia. done.
  - assert (0 <= w) by (destruct (Z.lt_ge_cases w 0) as [Hn|]; [|done];
      rewrite Z.pow_neg_r in Ha by done; lia).
    rewrite <- (Z.mod_small a (2 ^ w)), <- (Z.mod_small b (2 ^ w)) by done.
    by rewrite !Z.mod_pow2_bits_high by lia.
Qed.

Lemma lcp_addr_bits w a b n m :
  0 < w -> 0 <= a < 2 ^ w -> 0 <= b < 2 ^ w ->
  (Z.of_nat n <= w) -> (Z.of_nat m <= w) ->
  Z.min (Z.min (leading_zeros w (Z.lxor a b)) (Z.of_nat n)) (Z.of_nat m)
  = Z.of_nat (lcp_len (addr_bits w a n) (addr_bits w b m)).
Proof.
  intros Hw Ha Hb Hn Hm. set (x := Z.lxor a b).
  assert (0 <= x) as Hx0 by (apply Z.lxor_nonneg; lia).
  assert (x < 2 ^ w) as Hxw.
  { destruct (Z.eq_dec x 0) as [->|]; [apply Z.pow_pos_nonneg; lia|].
    apply Z.log2_lt_pow2; [lia|].
    eapply Z.le_lt_trans; [apply Z.log2_lxor; lia|].
    assert (forall z, 0 <= z < 2 ^ w -> Z.log2 z < w) as Hl.
    { intros z Hz. destruct (Z.eq_dec z 0) as [->|]; [done|].
      apply Z.log2_lt_pow2; lia. }
    by apply Z.max_lub_lt; apply Hl. }
  assert (0 <= leading_zeros w x <= w) as Hlz.
  { unfold leading_zeros. destruct (Z.eqb_spec x 0); [lia|].
    assert (Z.log2 x < w) by (apply Z.log2_lt_pow2; lia).
    pose proof (Z.log2_nonneg x). lia. }
  assert (forall i, 0 <= i < leading_zeros w x ->
            Z.testbit a (w - 1 - i) = Z.testbit b (w - 1 - i)) as Hsame.
  { intros i Hi. apply xorb_eq. rewrite <- Z.lxor_spec. fold x.
    unfold leading_zeros in Hi. destruct (Z.eqb_spec x 0) as [->|].
    - apply Z.bits_0.
    - apply Z.bits_above_log2; lia. }
  set (k := Z.to_nat (Z.min (Z.min (leading_zeros w x) (Z.of_nat n)) (Z.of_nat m))).
  assert (Z.of_nat k = Z.min (Z.min (leading_zeros w x) (Z.of_nat n)) (Z.of_nat m))
    as Hkmin by lia.
  clearbody k. rewrite (lcp_len_unique _ _ k).
  - lia.
  - rewrite length_addr_bits. lia.
  - rewrite length_addr_bits. lia.
  - rewrite !addr_bits_take by lia. unfold addr_bits. apply map_ext_in.
    intros i Hi%in_seq. apply Hsame. lia.
  - rewrite !length_addr_bits.
    destruct (decide (k = n)); [by left|]. destruct (decide (k = m)); [by right; left|].
    right; right. rewrite !addr_bits_lookup by lia. intros [= Heq].
    assert (Z.of_nat k = w - 1 - Z.log2 x /\ x <> 0) as [Hk Hx].
    { unfold leading_zeros in *. destruct (Z.eqb_spec x 0); [lia|]. split; lia. }
    rewrite Hk in Heq. replace (w - 1 - (w - 1 - Z.log2 x)) with (Z.log2 x) in Heq by lia.
    pose proof (Z.bit_log2 x ltac:(lia)) as Hbit.
    unfold x in Hbit at 1. rewrite Z.lxor_spec, Heq, xorb_nilpotent in Hbit. done.
Qed.

(** [!0 << (w - len)] keeps the [len] high bits of a word. *)
Lemma mask_testbit w len i :
  0 < len <= w -> 0 <= i < w ->
  Z.testbit (Z.shiftl (2 ^ w - 1) (w - len) mod 2 ^ w) i = (w - len <=? i).
Proof.
  intros Hl Hi. rewrite Z.mod_pow2_bits_low, Z.shiftl_spec by lia.
  replace (2 ^ w - 1) with (Z.ones w) by (rewrite Z.ones_equiv; lia).
  destruct (Z.leb_spec (w - len) i).
  - rewrite Z.ones_spec_low; [done|lia].
  - by rewrite Z.testbit_neg_r by lia.
Qed.

Lemma land_mask_bits w a len n :
  0 < len <= w -> (Z.of_nat n <= len) ->
  addr_bits w (Z.land a (Z.shiftl (2 ^ w - 1) (w - len) mod 2 ^ w)) n = addr_bits w a n.
Proof.
  intros Hl Hn. unfold addr_bits. apply map_ext_in. intros i Hi%in_seq.
  rewrite Z.land_spec, mask_testbit by lia.
  destruct (Z.leb_spec (w - len) (w - 1 - Z.of_nat i)); [by rewrite andb_true_r|lia].
Qed.

Lemma land_mask_range w a m : 0 <= w -> 0 <= a < 2 ^ w -> 0 <= Z.land a m < 2 ^ w.
Proof.
  intros Hw Ha. assert (Z.land a m = Z.land a m mod 2 ^ w) as ->.
  { rewrite <- Z.land_ones, (Z.land_comm a), <- Z.land_assoc, Z.land_ones by lia.
    by rewrite (Z.mod_small a). }
  apply Z.mod_pos_bound. by apply Z.pow_pos_nonneg.
Qed.

Lemma land_mask_low w a len i :
  0 < len <= w -> 0 <= i < w - len ->
  Z.testbit (Z.land a (Z.shiftl (2 ^ w - 1) (w - len) mod 2 ^ w)) i = false.
Proof.
  intros Hl Hi. rewrite Z.land_spec, mask_testbit by lia.
  destruct (Z.leb_spec (w - len) i); [lia|]. by rewrite andb_false_r.
Qed.

(** Masking an already masked address changes nothing. *)
Lemma land_mask_idemp a m : Z.land (Z.land a m) m = Z.land a m.
Proof. by rewrite <- Z.land_assoc, Z.land_diag. Qed.

(** A masked address has no bit below its prefix. *)
Lemma masked_low w a len i :
  0 <= len <= w ->
  (if len =? 0 then 0 else Z.land a (Z.shiftl (2 ^ w - 1) (w - len) mod 2 ^ w)) = a ->
  0 <= i < w - len -> Z.testbit a i = false.
Proof.
  intros Hl Ha Hi. destruct (Z.eqb_spec len 0) as [->|].
  - rewrite <- Ha. apply Z.bits_0.
  - rewrite <- Ha. apply land_mask_low; lia.
Qed.

(** ** The instances discharge the laws *)
Ltac prefix_laws w :=
  split_and?; intros;
  repeat match goal with
  | k : Ipv4Net |- _ => destruct k
  | k : Ipv6Net |- _ => destruct k
  end; unfold u32, u128 in *; simpl in *; unpack.

Ltac prefix_law_cases :=
  match goal with |- context [if ?n =? 0 then _ else _] =>
    destruct (Z.eqb_spec n 0) as [->|]; simpl in * end.

Lemma addr_bits_masked w a n len :
  0 <= n <= Z.of_nat len -> Z.of_nat len <= w ->
  addr_bits w (if n =? 0 then 0
               else Z.land a (Z.shiftl (2 ^ w - 1) (w - n) mod 2 ^ w)) (Z.to_nat n)
  = take (Z.to_nat n) (addr_bits w a len).
Proof.
  intros Hn Hl. destruct (Z.eqb_spec n 0) as [->|]; [done|].
  rewrite addr_bits_take by lia. apply land_mask_bits; lia.
Qed.

Lemma addr_bits_canonical_inj w a b la lb :
  0 <= a < 2 ^ w -> 0 <= b < 2 ^ w -> 0 <= la <= w -> 0 <= lb <= w ->
  (if la =? 0 then 0 else Z.land a (Z.shiftl (2 ^ w - 1) (w - la) mod 2 ^ w)) = a ->
  (if lb =? 0 then 0 else Z.land b (Z.shiftl (2 ^ w - 1) (w - lb) mod 2 ^ w)) = b ->
  addr_bits w a (Z.to_nat la) = addr_bits w b (Z.to_nat lb) -> a = b /\ la = lb.
Proof.
  intros Ha Hb Hla Hlb Hca Hcb Hbits.
  assert (la = lb) as <-.
  { apply (f_equal length) in Hbits. rewrite !length_addr_bits in Hbits. lia. }
  split; [|done]. apply (addr_bits_inj w _ _ (Z.to_nat la)); [done..| |done].
  intros i Hi. rewrite (masked_low w a la), (masked_low w b la); [done|done|done|lia|done|done|lia].
Qed.

#[export, refine] Instance Ipv4Net_laws : PrefixLaws Ipv4Net := {
  key_ok k := u32 (v4_address k) /\ 0 <= v4_len k <= 32;
  key_bits k := addr_bits 32 (v4_address k) (Z.to_nat (v4_len k));
}.
Proof.
  - prefix_laws 32. rewrite length_addr_bits. lia.
  - prefix_laws 32. rewrite length_addr_bits. lia.
  - prefix_laws 32. rewrite addr_bits_lookup, bit_at_testbit by lia. do 2 f_equal. lia.
  - prefix_laws 32. rewrite <- (lcp_addr_bits 32) by lia. by rewrite !Z2Nat.id by lia.
  - prefix_laws 32. prefix_law_cases; [lia|].
    split; [apply (land_mask_range 32)|]; lia.
  - intros [a la] n [Ha Hl] Hn. simpl in *.
    rewrite <- (addr_bits_masked 32) by lia. by destruct (n =? 0) eqn:E; [apply Z.eqb_eq in E as ->|].
  - intros [a la] [b lb] [Ha Hla] [Hb Hlb] Hca Hcb Hbits. simpl in *.
    destruct (addr_bits_canonical_inj 32 a b la lb); try done; try congruence;
      [destruct (la =? 0) | destruct (lb =? 0)]; congruence.
  - prefix_laws 32. prefix_law_cases; [done|].
    destruct (Z.eqb_spec n 0); [done|]. by rewrite land_mask_idemp.
Defined.

#[export, refine] Instance Ipv6Net_laws : PrefixLaws Ipv6Net := {
  key_ok k := u128 (v6_address k) /\ 0 <= v6_len k <= 128;
  key_bits k := addr_bits 128 (v6_address k) (Z.to_nat (v6_len k));
}.
Proof.
  - prefix_laws 128. rewrite length_addr_bits. lia.
  - prefix_laws 128. rewrite length_addr_bits. lia.
  - prefix_laws 128. rewrite addr_bits_lookup, bit_at_testbit by lia. do 2 f_equal. lia.
  - prefix_laws 128. rewrite <- (lcp_addr_bits 128) by lia. by rewrite !Z2Nat.id by lia.
  - prefix_laws 128. prefix_law_cases; [lia|].
    split; [apply (land_mask_range 128)|]; lia.
  - intros [a la] n [Ha Hl] Hn. simpl in *.
    rewrite <- (addr_bits_masked 128) by lia. by destruct (n =? 0) eqn:E; [apply Z.eqb_eq in E as ->|].
  - intros [a la] [b lb] [Ha Hla] [Hb Hlb] Hca Hcb Hbits. simpl in *.
    destruct (addr_bits_canonical_inj 128 a b la lb); try done; try congruence;
      [destruct (la =? 0) | destruct (lb =? 0)]; congruence.
  - prefix_laws 128. prefix_law_cases; [done|].
    destruct (Z.eqb_spec n 0); [done|]. by rewrite land_mask_idemp.
Defined.

(** ** [IpNetwork::contains] *)
Definition network_ok (n : IpNetwork) : Prop :=
  match n with V4 net => key_ok net | V6 net => key_ok net end.

(** [n] covers [p]: same family, and the bits of [n] start those of [p]. *)
Definition network_covers (n p : IpNetwork) : Prop :=
  match n, p with
  | V4 net, V4 q => key_bits net `prefix_of` key_bits q
  | V6 net, V6 q => key_bits net `prefix_of` key_bits q
  | _, _ => False
  end.

#[export] Instance network_covers_dec n p : Decision (network_covers n p).
Proof. destruct n, p; simpl; apply _. Defined.

Lemma shl_mask w n :
  0 < n <= w ->
  shl false w (2 ^ w - 1) (w - n) = shl true w (2 ^ w - 1) (w - n) /\
  shl true w (2 ^ w - 1) (w - n) = Some (Z.shiftl (2 ^ w - 1) (w - n) mod 2 ^ w).
Proof. intros. unfold shl. destruct (Z.ltb_spec (w - n) w); [done|lia]. Qed.

Lemma masked_eq_prefix w a b la lb :
  0 <= a < 2 ^ w -> 0 <= b < 2 ^ w -> 0 < la <= w -> la <= lb <= w ->
  let mask := Z.shiftl (2 ^ w - 1) (w - la) mod 2 ^ w in
  (Z.land a mask =? Z.land b mask)
  = bool_decide (addr_bits w a (Z.to_nat la) `prefix_of` addr_bits w b (Z.to_nat lb)).
Proof.
  intros Ha Hb Hla Hlb mask.
  assert (addr_bits w a (Z.to_nat la) `prefix_of` addr_bits w b (Z.to_nat lb)
          <-> addr_bits w a (Z.to_nat la) = addr_bits w b (Z.to_nat la)) as Hpre.
  { rewrite <- (addr_bits_take w b (Z.to_nat lb) (Z.to_nat la)) by lia. split.
    - intros [zs ->]. rewrite take_app_le by (rewrite length_addr_bits; lia).
      by rewrite firstn_all2 by (rewrite length_addr_bits; lia).
    - intros ->. apply prefix_take. }
  destruct (Z.eqb_spec (Z.land a mask) (Z.land b mask)) as [E|E]; symmetry.
  - apply bool_decide_eq_true, Hpre.
    rewrite <- (land_mask_bits w a la), <- (land_mask_bits w b la) by lia.
    fold mask. by rewrite E.
  - apply bool_decide_eq_false. rewrite Hpre. intros Hbits. apply E.
    apply (addr_bits_inj w _ _ (Z.to_nat la)); [apply land_mask_range; lia..| |].
    + intros i Hi. unfold mask. rewrite !land_mask_low by lia. done.
    + unfold mask. by rewrite !land_mask_bits by lia.
Qed.

(** Away from the default route, [contains] tells whether the address of
    [p] lies in [n], in debug and in release builds. *)
Lemma network_contains_ok checks n p :
  network_ok n -> network_ok p ->
  0 < network_prefix_len n <= network_prefix_len p ->
  network_contains checks n p = Some (bool_decide (network_covers n p)).
Proof.
  destruct n as [[a la]|[a la]], p as [[b lb]|[b lb]]; simpl;
    intros [Ha Hla] [Hb Hlb] Hl; try done; unfold u32, u128, sub_u8 in *;
    (match goal with |- context [?x <=? ?y] => destruct (Z.leb_spec x y); [|lia] end); simpl.
  - destruct (shl_mask 32 la) as [E1 E2]; [lia|].
    destruct checks; [rewrite E2|rewrite E1, E2]; simpl;
      by rewrite (masked_eq_prefix 32 a b la lb) by lia.
  - destruct (shl_mask 128 la) as [E1 E2]; [lia|].
    destruct checks; [rewrite E2|rewrite E1, E2]; simpl;
      by rewrite (masked_eq_prefix 128 a b la lb) by lia.
Qed.
