(* ===== verification/Trie.v ===== *)
(** * The arena-allocated Patricia trie ([bgpgg/src/table/trie.rs])

    [PrefixTrie] keeps its nodes in a vector; a node names its children by
    index, and freed indices are kept on a stack for reuse.  The operations
    are the code's, in the option monad: [None] is a panic (an index outside
    the arena) or exhausted fuel, and [TrieSpec.v] shows that neither
    happens.  Fuel bounds the descents by [depth_fuel], which exceeds the
    number of distinct prefix lengths (0 to 128), and the traversal by the
    size of the arena.

    [TrieSpec.v] proves the operations against a finite map from bit strings
    to values. *)
From S2P Require Import Prelude Net.

Section trie.
Context {K V : Type} `{Prefix K}.

Record TrieNode := mkNode {
  tn_prefix : K;
  tn_value : option V;
  tn_child0 : option nat;
  tn_child1 : option nat;
}.

Record PrefixTrie := mkTrie {
  nodes : list TrieNode;
  free_list : list nat;  (* the top of the stack first *)
  root : option nat;
  len : nat;
}.

(** [children[side]] and its assignment *)
Definition tn_child (n : TrieNode) (side : bool) : option nat :=
  if side then tn_child1 n else tn_child0 n.
Definition set_child (n : TrieNode) (side : bool) (c : option nat) : TrieNode :=
  if side then mkNode (tn_prefix n) (tn_value n) (tn_child0 n) c
  else mkNode (tn_prefix n) (tn_value n) c (tn_child1 n).
Definition set_value (n : TrieNode) (v : option V) : TrieNode :=
  mkNode (tn_prefix n) v (tn_child0 n) (tn_child1 n).

Definition trie_new : PrefixTrie := mkTrie [] [] None 0.
Definition trie_len (t : PrefixTrie) : nat := len t.
Definition trie_is_empty (t : PrefixTrie) : bool := (len t =? 0)%nat.

(** [node] and writes through [node_mut]: out of range is a panic. *)
Definition node (t : PrefixTrie) (i : nat) : option TrieNode := nodes t !! i.
Definition update_node (t : PrefixTrie) (i : nat) (f : TrieNode -> TrieNode)
    : option PrefixTrie :=
  n ← node t i;
  Some (mkTrie (<[i := f n]> (nodes t)) (free_list t) (root t) (len t)).

Definition set_len (t : PrefixTrie) (l : nat) : PrefixTrie :=
  mkTrie (nodes t) (free_list t) (root t) l.

Definition alloc_node (t : PrefixTrie) (p : K) (v : option V)
    : option (PrefixTrie * nat) :=
  match free_list t with
  | idx :: rest =>
      t' ← update_node (mkTrie (nodes t) rest (root t) (len t)) idx
             (fun _ => mkNode p v None None);
      Some (t', idx)
  | [] =>
      let idx := length (nodes t) in
      Some (mkTrie (nodes t ++ [mkNode p v None None]) [] (root t) (len t), idx)
  end.

Definition free_node (t : PrefixTrie) (idx : nat) : PrefixTrie :=
  mkTrie (nodes t) (idx :: free_list t) (root t) (len t).

Definition depth_fuel : nat := 130.

(** The loop of [find_exact]. *)
Fixpoint find_exact_loop (fuel : nat) (t : PrefixTrie) (key : K) (current : nat)
    : option (option nat) :=
  match fuel with
  | O => None
  | S fuel' =>
      n ← node t current;
      let common := common_prefix_len key (tn_prefix n) in
      if common <? prefix_len (tn_prefix n) then Some None
      else if prefix_len (tn_prefix n) =? prefix_len key then Some (Some current)
      else
        match tn_child n (bit_at key (prefix_len (tn_prefix n))) with
        | None => Some None
        | Some c => find_exact_loop fuel' t key c
        end
  end.

Definition find_exact (t : PrefixTrie) (key : K) : option (option nat) :=
  match root t with
  | None => Some None
  | Some r => find_exact_loop depth_fuel t key r
  end.

Definition trie_get (t : PrefixTrie) (key : K) : option (option V) :=
  oi ← find_exact t key;
  match oi with
  | None => Some None
  | Some i => n ← node t i; Some (tn_value n)
  end.

(** [get_mut]: a write through the returned reference, when there is one. *)
Definition trie_update (t : PrefixTrie) (key : K) (f : V -> V) : option PrefixTrie :=
  oi ← find_exact t key;
  match oi with
  | None => Some t
  | Some i => update_node t i (fun n => set_value n (f <$> tn_value n))
  end.

Definition replace_child (t : PrefixTrie) (parent : option nat) (old_child : nat)
    (new_child : option nat) : option PrefixTrie :=
  match parent with
  | Some parent_idx =>
      update_node t parent_idx (fun n =>
        if decide (tn_child0 n = Some old_child) then set_child n false new_child
        else set_child n true new_child)
  | None => Some (mkTrie (nodes t) (free_list t) new_child (len t))
  end.

Definition split_node (t : PrefixTrie) (node_idx : nat) (parent : option nat)
    (key : K) (value : V) (common : Z) : option PrefixTrie :=
  n ← node t node_idx;
  let node_prefix := tn_prefix n in
  '(t, branch_idx) ← alloc_node t (masked node_prefix common) None;
  let existing_side := bit_at node_prefix common in
  t ← update_node t branch_idx (fun b => set_child b existing_side (Some node_idx));
  t ← (if common =? prefix_len key then
         update_node t branch_idx (fun b => set_value b (Some value))
       else
         let new_side := bit_at key common in
         '(t, new_idx) ← alloc_node t key (Some value);
         update_node t branch_idx (fun b => set_child b new_side (Some new_idx)));
  replace_child t parent node_idx (Some branch_idx).

Fixpoint insert_at (fuel : nat) (t : PrefixTrie) (node_idx : nat)
    (parent : option nat) (key : K) (value : V) : option (PrefixTrie * option V) :=
  match fuel with
  | O => None
  | S fuel' =>
      n ← node t node_idx;
      let node_prefix := tn_prefix n in
      let common := common_prefix_len key node_prefix in
      if common <? prefix_len node_prefix then
        t ← split_node t node_idx parent key value common;
        Some (set_len t (S (len t)), None)
      else if prefix_len node_prefix =? prefix_len key then
        let old := tn_value n in
        t ← update_node t node_idx (fun n => set_value n (Some value));
        Some (match old with None => set_len t (S (len t)) | Some _ => t end, old)
      else
        let next := bit_at key (prefix_len node_prefix) in
        match tn_child n next with
        | Some child => insert_at fuel' t child (Some node_idx) key value
        | None =>
            '(t, new_idx) ← alloc_node t key (Some value);
            t ← update_node t node_idx (fun n => set_child n next (Some new_idx));
            Some (set_len t (S (len t)), None)
        end
  end.

Definition trie_insert (t : PrefixTrie) (key : K) (value : V)
    : option (PrefixTrie * option V) :=
  match root t with
  | None =>
      '(t, idx) ← alloc_node t key (Some value);
      Some (mkTrie (nodes t) (free_list t) (Some idx) (S (len t)), None)
  | Some r => insert_at depth_fuel t r None key value
  end.

Definition try_collapse (t : PrefixTrie) (node_idx : nat) (parent : option nat)
    : option PrefixTrie :=
  n ← node t node_idx;
  match tn_value n with
  | Some _ => Some t
  | None =>
      match tn_child0 n, tn_child1 n with
      | Some _, Some _ => Some t
      | None, None =>
          t ← replace_child t parent node_idx None;
          Some (free_node t node_idx)
      | Some c, None | None, Some c =>
          t ← replace_child t parent node_idx (Some c);
          Some (free_node t node_idx)
      end
  end.

Fixpoint remove_at (fuel : nat) (t : PrefixTrie) (node_idx : nat)
    (parent : option nat) (key : K) : option (PrefixTrie * option V) :=
  match fuel with
  | O => None
  | S fuel' =>
      n ← node t node_idx;
      let node_prefix := tn_prefix n in
      let common := common_prefix_len key node_prefix in
      if common <? prefix_len node_prefix then Some (t, None)
      else if prefix_len node_prefix =? prefix_len key then
        match tn_value n with
        | None => Some (t, None)
        | Some value =>
            t ← update_node t node_idx (fun n => set_value n None);
            t ← try_collapse (set_len t (len t - 1)) node_idx parent;
            Some (t, Some value)
        end
      else
        let next := bit_at key (prefix_len node_prefix) in
        match tn_child n next with
        | None => Some (t, None)
        | Some child =>
            '(t, result) ← remove_at fuel' t child (Some node_idx) key;
            match result with
            | Some _ => t ← try_collapse t node_idx parent; Some (t, result)
            | None => Some (t, None)
            end
        end
  end.

Definition trie_remove (t : PrefixTrie) (key : K) : option (PrefixTrie * option V) :=
  match root t with
  | None => Some (t, None)
  | Some r => remove_at depth_fuel t r None key
  end.

(** [collect_all]: depth first, [stack] with its top first. *)
Fixpoint collect_loop (fuel : nat) (t : PrefixTrie) (stack : list nat)
    (results : list (K * V)) : option (list (K * V)) :=
  match stack with
  | [] => Some results
  | idx :: stack =>
      match fuel with
      | O => None
      | S fuel' =>
          n ← node t idx;
          let results :=
            match tn_value n with
            | Some v => results ++ [(tn_prefix n, v)]
            | None => results
            end in
          let stack := option_list (tn_child0 n) ++ stack in
          let stack := option_list (tn_child1 n) ++ stack in
          collect_loop fuel' t stack results
      end
  end.

Definition collect_all (t : PrefixTrie) (start : nat) : option (list (K * V)) :=
  collect_loop (length (nodes t)) t [start] [].

(** The loop of [subtree]: the node to collect from. *)
Fixpoint subtree_start (fuel : nat) (t : PrefixTrie) (key : K) (current : nat)
    : option (option nat) :=
  match fuel with
  | O => None
  | S fuel' =>
      n ← node t current;
      let common := common_prefix_len key (tn_prefix n) in
      if common <? prefix_len (tn_prefix n) then
        if prefix_len key <=? common then Some (Some current) else Some None
      else if prefix_len key <=? prefix_len (tn_prefix n) then Some (Some current)
      else
        match tn_child n (bit_at key (prefix_len (tn_prefix n))) with
        | Some child => subtree_start fuel' t key child
        | None => Some None
        end
  end.

Definition subtree (t : PrefixTrie) (key : K) : option (list (K * V)) :=
  match root t with
  | None => Some []
  | Some r =>
      start ← subtree_start depth_fuel t key r;
      match start with
      | Some idx => collect_all t idx
      | None => Some []
      end
  end.

(** The loop of [covering]. *)
Fixpoint covering_loop (fuel : nat) (t : PrefixTrie) (key : K) (current : nat)
    (results : list (K * V)) : option (list (K * V)) :=
  match fuel with
  | O => None
  | S fuel' =>
      n ← node t current;
      let common := common_prefix_len key (tn_prefix n) in
      if common <? prefix_len (tn_prefix n) then Some results
      else
        let results :=
          match tn_value n with
          | Some v => results ++ [(tn_prefix n, v)]
          | None => results
          end in
        if prefix_len (tn_prefix n) =? prefix_len key then Some results
        else
          match tn_child n (bit_at key (prefix_len (tn_prefix n))) with
          | Some child => covering_loop fuel' t key child results
          | None => Some results
          end
  end.

Definition covering (t : PrefixTrie) (key : K) : option (list (K * V)) :=
  match root t with
  | None => Some []
  | Some r => covering_loop depth_fuel t key r []
  end.

End trie.
Arguments TrieNode : clear implicits.
Arguments PrefixTrie : clear implicits.
