(* ===== verification/TrieSpec.v ===== *)
(** * The Patricia trie implements a map from prefixes

    The specification is a finite map from bit strings to values. [trie_repr]
    relates a trie to the map it represents: the arena holds a binary tree in
    which every live slot occurs once, every other slot is on the free list,
    and every valueless node has two children.  Each operation of [Trie.v]
    returns (no panic, fuel left over) and simulates the operation on the
    map; [covering] and [subtree] list exactly the bindings above and below a
    prefix. *)
From S2P Require Import Prelude Net Trie.

(** ** The tree in the arena *)
Section spec.
Context {K V : Type} `{PrefixLaws K}.

(** [Q] is a property of keys that masking keeps, such as [canonical]; every
    prefix stored in the arena has it when the inserted keys do. *)
Context (Q : K -> Prop).
Hypothesis Q_masked : forall k n, key_ok k -> 0 <= n <= prefix_len k -> Q (masked k n).

Implicit Types (st : PrefixTrie K V) (key p : K) (k pre : list bool).

Inductive tree :=
  | Leaf
  | TNode (i : nat) (p : K) (v : option V) (l r : tree).

Definition idx (t : tree) : option nat :=
  match t with Leaf => None | TNode i _ _ _ _ => Some i end.

Fixpoint indices (t : tree) : list nat :=
  match t with Leaf => [] | TNode i _ _ l r => i :: indices l ++ indices r end.

(** The arena [ns] holds [t]. *)
Fixpoint rep (ns : list (TrieNode K V)) (t : tree) : Prop :=
  match t with
  | Leaf => True
  | TNode i p v l r =>
      ns !! i = Some (mkNode p v (idx l) (idx r)) /\ rep ns l /\ rep ns r
  end.

(** Prefixes lengthen along every path, each side below its bit. *)
Fixpoint twf (pre : list bool) (t : tree) : Prop :=
  match t with
  | Leaf => True
  | TNode _ p v l r =>
      key_ok p /\ Q p /\ pre `prefix_of` key_bits p /\
      twf (key_bits p ++ [false]) l /\ twf (key_bits p ++ [true]) r
  end.

(** A node without a value has two children: no node could be spared. *)
Fixpoint compact (t : tree) : Prop :=
  match t with
  | Leaf => True
  | TNode _ _ v l r =>
      compact l /\ compact r /\ (v = None -> l <> Leaf /\ r <> Leaf)
  end.

(** The map a tree stands for. *)
Definition opt_insert (k : list bool) (v : option V) (m : gmap (list bool) V) :=
  match v with Some x => <[k := x]> m | None => m end.

Fixpoint tmap (t : tree) : gmap (list bool) V :=
  match t with
  | Leaf => ∅
  | TNode _ p v l r => opt_insert (key_bits p) v (tmap l ∪ tmap r)
  end.

Definition side (b : bool) (l r : tree) : tree := if b then r else l.
Definition set_side (b : bool) (i : nat) (p : K) (v : option V) (l r c : tree) : tree :=
  if b then TNode i p v l c else TNode i p v c r.

(** ** Keys against nodes *)
Inductive node_spec key p : bool -> bool -> Prop :=
  | ns_diverge b : ~ key_bits p `prefix_of` key_bits key -> node_spec key p true b
  | ns_exact : key_bits key = key_bits p -> node_spec key p false true
  | ns_below :
      key_bits p ++ [bit_at key (prefix_len p)] `prefix_of` key_bits key ->
      node_spec key p false false.

Lemma prefix_snoc k k' b :
  k `prefix_of` k' -> k' !! length k = Some b -> k ++ [b] `prefix_of` k'.
Proof.
  intros [zs ->] Hb.
  rewrite lookup_app_r, Nat.sub_diag in Hb by lia.
  destruct zs as [|z zs]; [done|]. injection Hb as ->.
  exists zs. by rewrite <- app_assoc.
Qed.

Lemma bit_at_lookup key (n : nat) :
  key_ok key -> (n < length (key_bits key))%nat ->
  key_bits key !! n = Some (bit_at key (Z.of_nat n)).
Proof.
  intros Hk Hn. pose proof (key_bits_length key Hk).
  pose proof (key_bits_bit_at key (Z.of_nat n) Hk ltac:(lia)) as Hb.
  by rewrite Nat2Z.id in Hb.
Qed.

Lemma node_case key p :
  key_ok key -> key_ok p ->
  node_spec key p (common_prefix_len key p <? prefix_len p)
                  (prefix_len p =? prefix_len key).
Proof.
  intros Hkey Hp. rewrite key_bits_common by done.
  pose proof (key_bits_length key Hkey) as Hlk.
  pose proof (key_bits_length p Hp) as Hlp.
  pose proof (lcp_len_le_r (key_bits key) (key_bits p)).
  pose proof (lcp_len_full (key_bits key) (key_bits p)) as Hfull.
  destruct (Z.ltb_spec (Z.of_nat (lcp_len (key_bits key) (key_bits p))) (prefix_len p)).
  - apply ns_diverge. rewrite <- Hfull. lia.
  - assert (key_bits p `prefix_of` key_bits key) as Hpre by (apply Hfull; lia).
    destruct (Z.eqb_spec (prefix_len p) (prefix_len key)).
    + apply ns_exact. destruct Hpre as [zs Hzs].
      pose proof (f_equal length Hzs) as Hl. rewrite length_app in Hl.
      destruct zs; [by rewrite app_nil_r in Hzs|simpl in Hl; lia].
    + apply ns_below. pose proof (prefix_length _ _ Hpre).
      apply prefix_snoc; [done|].
      rewrite <- Hlp. apply bit_at_lookup; [done|lia].
Qed.

(** ** The map of a well-formed tree *)
Lemma tmap_prefix pre t k v : twf pre t -> tmap t !! k = Some v -> pre `prefix_of` k.
Proof.
  revert pre. induction t as [|i p w l IHl r IHr]; intros pre; [done|].
  intros (_ & _ & Hpre & Hl & Hr) Hk. simpl in Hk.
  assert (key_bits p `prefix_of` k -> pre `prefix_of` k) as Hstep by (by intros; etrans).
  assert ((tmap l ∪ tmap r) !! k = Some v -> pre `prefix_of` k) as Hun.
  { intros [Hk'|[_ Hk']]%lookup_union_Some_raw; apply Hstep.
    - etrans; [|by apply (IHl (key_bits p ++ [false]))]. by apply prefix_app_r.
    - etrans; [|by apply (IHr (key_bits p ++ [true]))]. by apply prefix_app_r. }
  destruct w as [x|]; simpl in Hk; [|by apply Hun].
  rewrite lookup_insert in Hk. case_decide; [by subst|by apply Hun].
Qed.

Lemma tmap_none pre t k : twf pre t -> ~ pre `prefix_of` k -> tmap t !! k = None.
Proof.
  intros Ht Hn. destruct (tmap t !! k) eqn:E; [|done].
  by destruct Hn; eapply tmap_prefix.
Qed.

Lemma prefix_snoc_not_self k b : ~ k ++ [b] `prefix_of` k.
Proof. intros Hp. apply prefix_length in Hp. rewrite length_app in Hp. simpl in Hp. lia. Qed.

Lemma prefix_snoc_inj k k' b c :
  k ++ [b] `prefix_of` k' -> k ++ [c] `prefix_of` k' -> b = c.
Proof. intros [x ->] [y Hy]. rewrite <- !app_assoc in Hy. by simplify_list_eq. Qed.

Lemma tmap_diverge pre i p v l r k :
  twf pre (TNode i p v l r) -> ~ key_bits p `prefix_of` k ->
  tmap (TNode i p v l r) !! k = None.
Proof.
  intros (Hok & HQ & _ & Hl & Hr) Hn. eapply (tmap_none (key_bits p)); [|done].
  by split_and!.
Qed.

Lemma tmap_exact pre i p v l r :
  twf pre (TNode i p v l r) -> tmap (TNode i p v l r) !! key_bits p = v.
Proof.
  intros (_ & _ & _ & Hl & Hr). simpl. destruct v as [x|]; simpl.
  - by rewrite lookup_insert_eq.
  - rewrite lookup_union_r by (eapply tmap_none; [done|apply prefix_snoc_not_self]).
    eapply tmap_none; [done|apply prefix_snoc_not_self].
Qed.

Lemma tmap_below pre i p v l r b k :
  twf pre (TNode i p v l r) -> key_bits p ++ [b] `prefix_of` k ->
  tmap (TNode i p v l r) !! k = tmap (side b l r) !! k.
Proof.
  intros (_ & _ & _ & Hl & Hr) Hb. simpl.
  assert (opt_insert (key_bits p) v (tmap l ∪ tmap r) !! k
          = (tmap l ∪ tmap r) !! k) as ->.
  { destruct v; simpl; [|done]. rewrite lookup_insert_ne; [done|].
    intros <-. by eapply prefix_snoc_not_self. }
  destruct b; simpl.
  - apply lookup_union_r. eapply tmap_none; [done|].
    intros Hf. by discriminate (prefix_snoc_inj _ _ _ _ Hb Hf).
  - apply lookup_union_l. eapply tmap_none; [done|].
    intros Hf. by discriminate (prefix_snoc_inj _ _ _ _ Hb Hf).
Qed.

Lemma twf_weaken pre pre' t : pre' `prefix_of` pre -> twf pre t -> twf pre' t.
Proof.
  destruct t; [done|]. intros Hp (Hok & HQ & Hpre & Hl & Hr). split_and!; try done. by etrans.
Qed.

Lemma twf_length pre i p v l r :
  twf pre (TNode i p v l r) -> (length pre <= length (key_bits p) <= 128)%nat.
Proof.
  intros (Hok & _ & Hpre & _). split; [by apply prefix_length|by apply key_bits_max].
Qed.

(** A node against every key: the map below it, by the position of the key. *)
Lemma lookup_tmap_node pre i p v l r k :
  twf pre (TNode i p v l r) ->
  tmap (TNode i p v l r) !! k =
    (if decide (k = key_bits p) then v
     else if decide (key_bits p ++ [false] `prefix_of` k) then tmap l !! k
     else if decide (key_bits p ++ [true] `prefix_of` k) then tmap r !! k
     else None).
Proof.
  intros Ht. destruct (decide (k = key_bits p)) as [->|Hne]; [by eapply tmap_exact|].
  destruct (decide (_ ++ [false] `prefix_of` k)); [by eapply (tmap_below _ _ _ _ _ _ false)|].
  destruct (decide (_ ++ [true] `prefix_of` k)); [by eapply (tmap_below _ _ _ _ _ _ true)|].
  eapply tmap_diverge; [done|]. intros [zs ->]. destruct zs as [|b zs].
  - by rewrite app_nil_r in Hne.
  - assert (key_bits p ++ [b] `prefix_of` key_bits p ++ b :: zs)
      by (exists zs; by rewrite <- app_assoc). by destruct b.
Qed.

(** ** Frames *)

(** [ns'] extends [ns] and differs from it only on [S]. *)
Definition agree_off (S : list nat) (ns ns' : list (TrieNode K V)) : Prop :=
  (length ns <= length ns')%nat /\
  forall i, (i < length ns)%nat -> i ∉ S -> ns' !! i = ns !! i.

Lemma agree_off_refl S ns : agree_off S ns ns.
Proof. by split. Qed.

Lemma agree_off_trans S S' ns1 ns2 ns3 :
  agree_off S ns1 ns2 -> agree_off S' ns2 ns3 ->
  (forall i, (i < length ns1)%nat -> i ∈ S' -> i ∈ S) -> agree_off S ns1 ns3.
Proof.
  intros [L1 A1] [L2 A2] HS. split; [lia|]. intros i Hi Hn.
  rewrite A2, A1; [done..|lia|]. intros Hin. by apply Hn, HS.
Qed.

Lemma agree_off_insert S i n ns : i ∈ S -> agree_off S ns (<[i := n]> ns).
Proof.
  intros Hi. split; [by rewrite length_insert|]. intros j Hj Hn.
  rewrite list_lookup_insert_ne; [done|]. by intros ->.
Qed.

Lemma agree_off_weaken S S' ns ns' :
  (forall i, (i < length ns)%nat -> i ∈ S -> i ∈ S') ->
  agree_off S ns ns' -> agree_off S' ns ns'.
Proof. intros HS [L A]. split; [done|]. intros i Hi Hn. apply A; eauto. Qed.

Lemma rep_agree ns ns' t :
  (forall i, i ∈ indices t -> ns' !! i = ns !! i) -> rep ns t -> rep ns' t.
Proof.
  induction t as [|i p v l IHl r IHr]; simpl; [done|].
  intros Ha (Hi & Hl & Hr). split_and!.
  - rewrite Ha; [done|]. set_solver.
  - apply IHl; [|done]. intros j Hj. apply Ha. set_solver.
  - apply IHr; [|done]. intros j Hj. apply Ha. set_solver.
Qed.

Lemma rep_bound ns t i : rep ns t -> i ∈ indices t -> (i < length ns)%nat.
Proof.
  induction t as [|j p v l IHl r IHr]; simpl; [by intros _ ?%elem_of_nil|].
  intros (Hj & Hl & Hr). rewrite elem_of_cons, elem_of_app.
  intros [->|[Hi|Hi]]; [by eapply lookup_lt_Some|auto..].
Qed.

Lemma rep_frame S ns ns' t :
  agree_off S ns ns' -> rep ns t -> (forall i, i ∈ indices t -> i ∉ S) -> rep ns' t.
Proof.
  intros [_ A] Ht Hd. eapply rep_agree; [|done].
  intros i Hi. apply A; eauto using rep_bound.
Qed.

Lemma idx_elem t i : idx t = Some i -> i ∈ indices t.
Proof. destruct t; simpl; [done|]. intros [= ->]. apply list_elem_of_here. Qed.

(** The slots used by [t] and the free slots, before and after a step that
    may grow the arena: no slot is lost, none is shared. *)
Definition slots_ok st st' (t t' : tree) : Prop :=
  indices t' ++ free_list st'
  ≡ₚ indices t ++ free_list st
     ++ seq (length (nodes st)) (length (nodes st') - length (nodes st)).

Definition arena_ok st (t : tree) : Prop :=
  NoDup (indices t ++ free_list st) /\
  Forall (fun i => (i < length (nodes st))%nat) (indices t ++ free_list st).

Lemma slots_ok_elem st st' t t' i :
  slots_ok st st' t t' -> i ∈ indices t' ++ free_list st' ->
  i ∈ indices t ++ free_list st \/ (length (nodes st) <= i < length (nodes st'))%nat.
Proof.
  unfold slots_ok. intros Hs Hi. rewrite Hs, app_assoc, elem_of_app, elem_of_seq in Hi.
  destruct Hi; [by left|right; lia].
Qed.

Lemma arena_ok_step st st' t t' :
  arena_ok st t -> slots_ok st st' t t' -> (length (nodes st) <= length (nodes st'))%nat ->
  arena_ok st' t'.
Proof.
  intros [Hnd Hlt] Hs Hle. rewrite Forall_forall in Hlt. split.
  - unfold slots_ok in Hs. rewrite Hs, app_assoc. apply NoDup_app. split_and!; [done| |apply NoDup_seq].
    intros i Hi%Hlt. rewrite elem_of_seq. lia.
  - apply Forall_forall. intros i Hi.
    destruct (slots_ok_elem _ _ _ _ _ Hs Hi) as [Hi'%Hlt|]; lia.
Qed.

(** ** Allocation *)
Lemma alloc_node_spec st p v :
  NoDup (free_list st) -> Forall (fun i => (i < length (nodes st))%nat) (free_list st) ->
  exists st' i,
    alloc_node st p v = Some (st', i) /\
    nodes st' !! i = Some (mkNode p v None None) /\
    agree_off (free_list st) (nodes st) (nodes st') /\
    i :: free_list st' ≡ₚ free_list st
      ++ seq (length (nodes st)) (length (nodes st') - length (nodes st)) /\
    root st' = root st /\ len st' = len st /\
    (i ∈ free_list st \/ i = length (nodes st)).
Proof.
  intros Hnd Hlt. unfold alloc_node.
  destruct (free_list st) as [|i rest] eqn:Ef; simpl.
  - eexists _, _. split; [done|]. simpl. rewrite length_app, Nat.add_comm. simpl.
    replace (S (length (nodes st)) - length (nodes st))%nat with 1%nat by lia.
    split_and!; try done.
    + by rewrite lookup_app_r, Nat.sub_diag by lia.
    + split; [rewrite length_app; lia|]. intros j Hj _. by rewrite lookup_app_l.
    + by right.
  - apply Forall_cons in Hlt as [Hi Hlt].
    destruct (lookup_lt_is_Some_2 _ _ Hi) as [n Hn].
    unfold update_node, node; simpl. rewrite Hn. simpl.
    eexists _, _. split; [done|]. simpl. rewrite length_insert, Nat.sub_diag. simpl.
    split_and!; try done.
    + by apply list_lookup_insert_eq.
    + apply agree_off_insert, list_elem_of_here.
    + by rewrite app_nil_r.
    + left. apply list_elem_of_here.
Qed.

Lemma update_node_Some st i n f :
  nodes st !! i = Some n ->
  update_node st i f
  = Some (mkTrie (<[i := f n]> (nodes st)) (free_list st) (root st) (len st)).
Proof. intros Hn. unfold update_node, node. by rewrite Hn. Qed.

(** ** The slot of the parent *)

(** [i] is the child of [parent] (or the root). *)
Definition in_slot st (parent : option nat) (i : nat) : Prop :=
  match parent with
  | None => root st = Some i
  | Some q => exists n, nodes st !! q = Some n /\
      (tn_child0 n = Some i \/ tn_child1 n = Some i)
  end.

Definition slot_off (parent : option nat) (S : list nat) : Prop :=
  match parent with None => True | Some q => q ∉ S end.

Lemma replace_child_same st parent i :
  in_slot st parent i -> replace_child st parent i (Some i) = Some st.
Proof.
  destruct parent as [q|], st as [ns fr rt ln]; simpl; [|by intros ->].
  intros (n & Hn & Hc). rewrite (update_node_Some _ _ n) by done. simpl.
  rewrite list_insert_id; [done|]. rewrite Hn. f_equal. destruct n; simpl in *.
  case_decide; simpl; destruct Hc; simplify_eq; done.
Qed.

Lemma in_slot_agree S st st' parent i :
  agree_off S (nodes st) (nodes st') -> root st' = root st -> slot_off parent S ->
  in_slot st parent i -> in_slot st' parent i.
Proof.
  intros [_ A] Hr Ho. destruct parent as [q|]; simpl in *; [|congruence].
  intros (n & Hn & Hc). exists n. split; [|done].
  rewrite A; eauto using lookup_lt_Some.
Qed.

(** Replacing the child of a node the tree holds. *)
Lemma replace_child_node st i p v l r b c (t' : tree) :
  nodes st !! i = Some (mkNode p v (idx l) (idx r)) ->
  idx (side b l r) = Some c -> idx (side (negb b) l r) <> Some c ->
  replace_child st (Some i) c (idx t')
  = Some (mkTrie (<[i := mkNode p v (idx (side b t' l)) (idx (side b r t'))]> (nodes st))
            (free_list st) (root st) (len st)).
Proof.
  intros Hi Hc Ho. simpl. rewrite (update_node_Some _ _ _ _ Hi). simpl.
  destruct b; simpl in *; case_decide; done.
Qed.

(** ** Updates below a node *)

(** The map of [t'] is that of [t] with [k] bound to [o]. *)
Definition upd (t t' : tree) (k : list bool) (o : option V) : Prop :=
  forall k', tmap t' !! k' = if decide (k' = k) then o else tmap t !! k'.

Lemma upd_insert t t' k v : upd t t' k (Some v) -> tmap t' = <[k := v]> (tmap t).
Proof.
  intros Hu. apply map_eq. intros k'. rewrite Hu, lookup_insert.
  case_decide as E; case_decide as E'; subst; done.
Qed.

Lemma upd_delete t t' k : upd t t' k None -> tmap t' = delete k (tmap t).
Proof.
  intros Hu. apply map_eq. intros k'. rewrite Hu, lookup_delete.
  case_decide as E; case_decide as E'; subst; done.
Qed.

Lemma upd_none t k : tmap t !! k = None -> upd t t k None.
Proof. intros Hk k'. case_decide; by subst. Qed.

Lemma twf_side pre i p v l r b :
  twf pre (TNode i p v l r) -> twf (key_bits p ++ [b]) (side b l r).
Proof. intros (_ & _ & _ & Hl & Hr). by destruct b. Qed.

Lemma twf_set_side pre i p v l r b c :
  twf pre (TNode i p v l r) -> twf (key_bits p ++ [b]) c ->
  twf pre (set_side b i p v l r c).
Proof. intros (Hok & HQ & Hpre & Hl & Hr) Hc. by destruct b; split_and!. Qed.

Lemma compact_side i p v l r b : compact (TNode i p v l r) -> compact (side b l r).
Proof. intros (? & ? & _). by destruct b. Qed.

Lemma compact_set_side i p v l r b c :
  compact (TNode i p v l r) -> compact c -> (v = None -> c <> Leaf) ->
  compact (set_side b i p v l r c).
Proof.
  intros (Hl & Hr & Hv) Hc Hn.
  destruct b; simpl; (split_and!; [done..|]); intros E; destruct (Hv E); auto.
Qed.

Lemma upd_set_side pre i p v l r b k c o :
  twf pre (TNode i p v l r) -> twf pre (set_side b i p v l r c) ->
  key_bits p ++ [b] `prefix_of` k ->
  upd (side b l r) c k o -> upd (TNode i p v l r) (set_side b i p v l r c) k o.
Proof.
  intros Ht Ht' Hb Hu k'.
  assert (k <> key_bits p) as Hkp by (intros ->; by eapply prefix_snoc_not_self).
  destruct b; cbn [set_side side] in *;
    rewrite (lookup_tmap_node _ _ _ _ _ _ _ Ht'), (lookup_tmap_node _ _ _ _ _ _ _ Ht);
    (destruct (decide (k' = key_bits p)) as [->|]; [by rewrite (decide_False (P := _ = k))|]).
  - destruct (decide (_ ++ [false] `prefix_of` k')) as [Hf|].
    + rewrite (decide_False (P := _ = k)); [done|]. intros ->.
      by discriminate (prefix_snoc_inj _ _ _ _ Hb Hf).
    + destruct (decide (_ ++ [true] `prefix_of` k')); [apply Hu|].
      rewrite (decide_False (P := _ = k)); [done|]. by intros ->.
  - destruct (decide (_ ++ [false] `prefix_of` k')); [apply Hu|].
    rewrite (decide_False (P := _ = k)); [done|]. by intros ->.
Qed.

Lemma upd_set_value pre i p v l r o :
  twf pre (TNode i p v l r) -> upd (TNode i p v l r) (TNode i p o l r) (key_bits p) o.
Proof.
  intros Ht k'. simpl. case_decide as E.
  - subst. destruct o as [x|]; simpl; [by rewrite lookup_insert_eq|].
    destruct Ht as (_ & _ & _ & Hl & Hr).
    apply lookup_union_None. split; (eapply tmap_none; [done|apply prefix_snoc_not_self]).
  - destruct o, v; simpl; by rewrite ?lookup_insert_ne by done.
Qed.

Lemma indices_side i p v l r b j :
  j ∈ indices (side b l r) -> j ∈ indices (TNode i p v l r).
Proof. destruct b; simpl; set_solver. Qed.

Lemma rep_side ns i p v l r b : rep ns (TNode i p v l r) -> rep ns (side b l r).
Proof. intros (_ & ? & ?). by destruct b. Qed.

(** A node whose child on side [b] is replaced by [c], the rest unchanged. *)
Lemma rep_set_side S ns ns' i p v l r b c :
  rep ns (TNode i p v l r) -> agree_off S ns ns' ->
  ns' !! i = Some (mkNode p v (idx (side b c l)) (idx (side b r c))) ->
  (forall j, j ∈ indices (side (negb b) l r) -> j ∉ S) ->
  rep ns' c -> rep ns' (set_side b i p v l r c).
Proof.
  intros (_ & Hl & Hr) HA Hi Hd Hc. destruct b; simpl in *; split_and!; try done;
    eapply rep_frame; eauto.
Qed.

Lemma tn_child_side (p : K) (v : option V) (l r : tree) b :
  tn_child (mkNode p v (idx l) (idx r)) b = idx (side b l r).
Proof. by destruct b. Qed.

Lemma indices_set_side i p v l r b c :
  indices (set_side b i p v l r c)
  ≡ₚ i :: indices (side (negb b) l r) ++ indices c.
Proof. destruct b; simpl; [done|]. by rewrite Permutation_app_comm. Qed.

Lemma indices_node_side i p v l r b :
  indices (TNode i p v l r) ≡ₚ i :: indices (side (negb b) l r) ++ indices (side b l r).
Proof. destruct b; simpl; [done|]. by rewrite Permutation_app_comm. Qed.

(** ** Exact lookup *)
Definition focus st (t : tree) pre k (j : nat) (n : TrieNode K V) : Prop :=
  j ∈ indices t /\ nodes st !! j = Some n /\ tn_value n = tmap t !! k /\
  forall x, is_Some (tn_value n) -> NoDup (indices t) -> exists t',
    rep (<[j := set_value n (Some x)]> (nodes st)) t' /\ indices t' = indices t /\
    idx t' = idx t /\ twf pre t' /\ (compact t -> compact t') /\ upd t t' k (Some x).

Lemma find_exact_loop_spec fuel st t pre key c :
  twf pre t -> rep (nodes st) t -> idx t = Some c -> key_ok key ->
  (129 <= fuel + length pre)%nat ->
  (find_exact_loop fuel st key c = Some None /\ tmap t !! key_bits key = None) \/
  exists j n, find_exact_loop fuel st key c = Some (Some j) /\
    focus st t pre (key_bits key) j n.
Proof.
  revert t pre c. induction fuel as [|fuel IH]; intros t pre c Ht Hrep Hc Hkey Hf;
    (destruct t as [|i p v l r]; [done|]); injection Hc as ->;
    pose proof (twf_length _ _ _ _ _ _ Ht) as Hlen; [lia|].
  pose proof Hrep as (Hn & Hrl & Hrr). pose proof Ht as (Hok & _).
  cbn [find_exact_loop]. unfold node. rewrite Hn. cbn [mbind option_bind tn_prefix].
  destruct (node_case key p Hkey Hok) as [b Hd|He|Hb].
  - left. split; [done|]. by eapply tmap_diverge.
  - right. eexists _, _. split; [done|]. rewrite He. split_and!; try done.
    + apply list_elem_of_here.
    + symmetry. by apply (tmap_exact _ _ _ _ _ _ Ht).
    + intros x [y Hy] Hnd. simpl in Hy. subst v. exists (TNode c p (Some x) l r). split_and!; try done.
      * apply NoDup_cons in Hnd as [Hci Hnd].
        assert (agree_off [c] (nodes st) (<[c:=mkNode p (Some x) (idx l) (idx r)]> (nodes st))) as HA
          by (apply agree_off_insert, list_elem_of_here).
        simpl. split_and!.
        -- apply list_lookup_insert_eq. by eapply lookup_lt_Some.
        -- eapply rep_frame; [done..|]. intros j Hj ->%list_elem_of_singleton.
           apply Hci, elem_of_app. by left.
        -- eapply rep_frame; [done..|]. intros j Hj ->%list_elem_of_singleton.
           apply Hci, elem_of_app. by right.
      * intros (? & ? & _). by split_and!.
      * by eapply upd_set_value.
  - rewrite tn_child_side.
    rewrite (tmap_below _ _ _ _ _ _ _ _ Ht Hb).
    pose proof (twf_side _ _ _ _ _ _ (bit_at key (prefix_len p)) Ht) as Hts.
    pose proof (rep_side _ _ _ _ _ _ (bit_at key (prefix_len p)) Hrep) as Hrs.
    set (b := bit_at key (prefix_len p)) in *.
    destruct (idx (side b l r)) as [c'|] eqn:Ec.
    2:{ left. split; [done|]. by destruct (side b l r). }
    destruct (IH _ _ c' Hts Hrs Ec Hkey) as [Hnone|(j & n & Hj & Hin & Hjn & Hv & Hupd)].
    { rewrite length_app. simpl. lia. }
    + by left.
    + right. exists j, n. split; [done|]. split_and!.
      * by eapply indices_side.
      * done.
      * by rewrite Hv, (tmap_below _ _ _ _ _ _ _ _ Ht Hb).
      * intros x Hx Hnd.
        pose proof (indices_node_side c p v l r b) as Hperm. rewrite Hperm in Hnd.
        apply NoDup_cons in Hnd as [Hcn Hnd]. apply NoDup_app in Hnd as (_ & Hdis & Hnd).
        destruct (Hupd x Hx Hnd) as (t' & Hr' & Hi' & Hx' & Ht' & Hc' & Hu').
        exists (set_side b c p v l r t').
        assert (twf pre (set_side b c p v l r t')) as Hwf by (by apply twf_set_side).
        split_and!; [| | | done | |].
        -- apply (rep_set_side [j] (nodes st)); [done| | | |done].
           ++ apply agree_off_insert, list_elem_of_here.
           ++ rewrite list_lookup_insert_ne
                by (intros ->; apply Hcn, elem_of_app; by right). rewrite Hn.
              destruct b; simpl in *; congruence.
           ++ intros j' Hj' ->%list_elem_of_singleton. eapply Hdis; eauto.
        -- destruct b; simpl in *; congruence.
        -- by destruct b.
        -- intros Hcc. apply compact_set_side; [done|by eapply Hc', compact_side|].
           intros _ ->. simpl in Hx'. congruence.
        -- by eapply upd_set_side.
Qed.

(** ** Slots through allocations *)
Lemma slots_ok_refl st t : slots_ok st st t t.
Proof. unfold slots_ok. rewrite Nat.sub_diag. simpl. by rewrite app_nil_r. Qed.

Lemma slots_ok_trans st1 st2 st3 t1 t2 t3 :
  (length (nodes st1) <= length (nodes st2) <= length (nodes st3))%nat ->
  slots_ok st1 st2 t1 t2 -> slots_ok st2 st3 t2 t3 -> slots_ok st1 st3 t1 t3.
Proof.
  unfold slots_ok. intros Hle H12 H23. rewrite H23, app_assoc, H12, <- !app_assoc.
  do 2 f_equiv.
  replace (length (nodes st3) - length (nodes st1))%nat
    with ((length (nodes st2) - length (nodes st1))
          + (length (nodes st3) - length (nodes st2)))%nat by lia.
  rewrite seq_app.
  by replace (length (nodes st1) + (length (nodes st2) - length (nodes st1)))%nat
    with (length (nodes st2)) by lia.
Qed.

Lemma slots_ok_same st st1 st2 t t1 t2 :
  free_list st2 = free_list st1 -> length (nodes st2) = length (nodes st1) ->
  indices t2 ≡ₚ indices t1 -> slots_ok st st1 t t1 -> slots_ok st st2 t t2.
Proof. unfold slots_ok. by intros -> -> ->. Qed.

Lemma arena_ok_free st t : arena_ok st t ->
  NoDup (free_list st) /\ Forall (fun i => (i < length (nodes st))%nat) (free_list st) /\
  (forall i, i ∈ indices t -> i ∉ free_list st).
Proof.
  intros [Hnd Hlt]. apply NoDup_app in Hnd as (_ & Hd & Hnd).
  apply Forall_app in Hlt as [_ Hlt]. by split_and!.
Qed.

Lemma alloc_tree_spec st t p v :
  rep (nodes st) t -> arena_ok st t ->
  exists st' i,
    alloc_node st p v = Some (st', i) /\
    nodes st' !! i = Some (mkNode p v None None) /\
    agree_off (free_list st) (nodes st) (nodes st') /\
    root st' = root st /\ len st' = len st /\
    rep (nodes st') t /\ (i ∉ indices t) /\
    (i ∈ free_list st \/ i = length (nodes st)) /\
    (forall t', indices t' ≡ₚ (i :: indices t) -> slots_ok st st' t t').
Proof.
  intros Hrep Hok. pose proof (arena_ok_free _ _ Hok) as (Hnd & Hlt & Hdis).
  destruct (alloc_node_spec st p v Hnd Hlt)
    as (st' & i & Ha & Hi & HA & Hperm & Hr & Hl & Hor).
  exists st', i. split_and!; try done.
  - eapply rep_frame; eauto.
  - intros Hin. destruct Hor as [Hf|Hf]; [by eapply Hdis|].
    subst i. pose proof (rep_bound _ _ _ Hrep Hin). lia.
  - intros t' Ht'. unfold slots_ok. rewrite Ht', <- Hperm. simpl.
    by rewrite Permutation_middle.
Qed.

(** What a step on the subtree [t] leaves: [t'] in its place. *)
Definition step st (t : tree) st' (t' : tree) : Prop :=
  root st' = root st /\
  agree_off (indices t ++ free_list st) (nodes st) (nodes st') /\
  rep (nodes st') t' /\ slots_ok st st' t t'.

Lemma step_arena st t st' t' : step st t st' t' -> arena_ok st t -> arena_ok st' t'.
Proof. intros (_ & [Hle _] & _ & Hs) Hok. by eapply arena_ok_step. Qed.

(** ** Splitting a node *)
Definition branch (e : bool) (i : nat) (p : K) (v : option V) (t c : tree) : tree :=
  if e then TNode i p v c t else TNode i p v t c.

Lemma idx_branch e i p v t c : idx (branch e i p v t c) = Some i.
Proof. by destruct e. Qed.

Lemma indices_branch e i p v t c :
  indices (branch e i p v t c) ≡ₚ i :: indices t ++ indices c.
Proof. destruct e; simpl; [|done]. by rewrite Permutation_app_comm. Qed.

Lemma rep_branch ns e i p v t c :
  ns !! i = Some (set_child (set_child (mkNode p v None None) e (idx t)) (negb e) (idx c)) ->
  rep ns t -> rep ns c -> rep ns (branch e i p v t c).
Proof. intros Hi Ht Hc. destruct e; simpl in *; by split_and!. Qed.

Lemma twf_branch pre e i p v t c :
  key_ok p -> Q p -> pre `prefix_of` key_bits p ->
  twf (key_bits p ++ [e]) t -> twf (key_bits p ++ [negb e]) c ->
  twf pre (branch e i p v t c).
Proof. intros. by destruct e; split_and!. Qed.

Lemma compact_branch e i p v t c :
  compact t -> compact c -> t <> Leaf -> (v = None -> c <> Leaf) ->
  compact (branch e i p v t c).
Proof. intros. destruct e; simpl; split_and!; try done; intros ?; split; auto. Qed.

Lemma upd_branch pre e i p v t c k x :
  twf pre (branch e i p v t c) ->
  (k = key_bits p /\ v = Some x /\ c = Leaf) \/
  (v = None /\ key_bits p ++ [negb e] `prefix_of` k /\
     forall k', tmap c !! k' = if decide (k' = k) then Some x else None) ->
  upd t (branch e i p v t c) k (Some x).
Proof.
  intros Ht Hcase k'.
  assert (forall k'', tmap (branch e i p v t c) !! k'' =
    if decide (k'' = key_bits p) then v
    else if decide (key_bits p ++ [e] `prefix_of` k'') then tmap t !! k''
    else tmap c !! k'') as Hlk.
  { intros k''. assert (twf (key_bits p ++ [negb e]) c /\ twf (key_bits p ++ [e]) t)
      as [Hc Hte] by (destruct e; simpl in Ht; tauto).
    destruct e; cbn [branch] in *; rewrite (lookup_tmap_node _ _ _ _ _ _ _ Ht);
      (destruct (decide (k'' = key_bits p)); [done|]).
    - destruct (decide (_ ++ [false] `prefix_of` k'')) as [Hf|];
        destruct (decide (_ ++ [true] `prefix_of` k'')) as [Ht'|]; try done.
      + by discriminate (prefix_snoc_inj _ _ _ _ Hf Ht').
      + symmetry. by eapply tmap_none.
    - destruct (decide (_ ++ [false] `prefix_of` k'')) as [Hf|]; [done|].
      destruct (decide (_ ++ [true] `prefix_of` k'')) as [Ht'|]; [done|].
      symmetry. by eapply tmap_none. }
  assert (twf (key_bits p ++ [e]) t) as Hte by (destruct e; simpl in Ht; tauto).
  rewrite Hlk. clear Hlk Ht.
  assert (forall k'', ~ key_bits p ++ [e] `prefix_of` k'' -> tmap t !! k'' = None) as Hnone
    by (intros; by eapply tmap_none).
  destruct Hcase as [(-> & -> & ->)|(-> & Hk & Hc)].
  - destruct (decide (k' = key_bits p)) as [->|]; [done|].
    destruct (decide (_ `prefix_of` k')); [done|]. simpl. rewrite lookup_empty. symmetry. auto.
  - destruct (decide (k' = key_bits p)) as [->|].
    { rewrite decide_False by (intros <-; by eapply prefix_snoc_not_self).
      symmetry. apply Hnone, prefix_snoc_not_self. }
    destruct (decide (_ `prefix_of` k')) as [He|He].
    + rewrite decide_False; [done|]. intros ->.
      pose proof (prefix_snoc_inj _ _ _ _ Hk He). by destruct e.
    + rewrite Hc. case_decide; [done|]. symmetry. auto.
Qed.

Lemma twf_root pre pre' i p v l r :
  twf pre (TNode i p v l r) -> pre' `prefix_of` key_bits p -> twf pre' (TNode i p v l r).
Proof. intros (? & ? & ? & ? & ?) Hp. by split_and!. Qed.

Lemma lcp_prefix k k' pre :
  pre `prefix_of` k -> pre `prefix_of` k' -> pre `prefix_of` take (lcp_len k k') k'.
Proof.
  revert k k'. induction pre as [|b pre IH]; intros k k' Hk Hk'; [apply prefix_nil|].
  destruct Hk as [x ->], Hk' as [y ->]. simpl. rewrite Bool.eqb_reflx.
  apply prefix_cons, IH; by eexists.
Qed.

(** The prefix of the branch node, and the two sides that leave it. *)
Lemma split_prefix key p pre :
  key_ok key -> key_ok p -> pre `prefix_of` key_bits key -> pre `prefix_of` key_bits p ->
  ~ key_bits p `prefix_of` key_bits key ->
  let common := common_prefix_len key p in
  let m := masked p common in
  0 <= common <= prefix_len p /\ key_ok m /\ pre `prefix_of` key_bits m /\
  key_bits m ++ [bit_at p common] `prefix_of` key_bits p /\
  (if common =? prefix_len key then key_bits key = key_bits m
   else bit_at key common = negb (bit_at p common) /\
        key_bits m ++ [bit_at key common] `prefix_of` key_bits key).
Proof.
  intros Hkey Hp Hpre1 Hpre2 Hdiv common m.
  pose proof (key_bits_common key p Hkey Hp) as Hc. fold common in Hc.
  pose proof (key_bits_length key Hkey) as Hlk. pose proof (key_bits_length p Hp) as Hlp.
  set (n := lcp_len (key_bits key) (key_bits p)) in *.
  pose proof (lcp_len_le_l (key_bits key) (key_bits p)) as Hnk. fold n in Hnk.
  pose proof (lcp_len_le_r (key_bits key) (key_bits p)) as Hnp. fold n in Hnp.
  assert (n < length (key_bits p))%nat as Hlt.
  { destruct (Nat.eq_dec n (length (key_bits p))) as [E|]; [|lia].
    by apply lcp_len_full in E. }
  assert (0 <= common <= prefix_len p) as Hcommon by lia.
  assert (key_bits m = take n (key_bits p)) as Hm.
  { unfold m. rewrite key_bits_masked by done. by rewrite Hc, Nat2Z.id. }
  assert (length (key_bits m) = n) as Hlm by (rewrite Hm, length_take; lia).
  assert (forall k (b : bool), take n k = key_bits m -> k !! n = Some b ->
            key_bits m ++ [b] `prefix_of` k) as Hsnoc.
  { intros k b Hk Hb. apply prefix_snoc; [|by rewrite Hlm].
    rewrite <- Hk. apply prefix_take. }
  split_and!; [lia|lia|by apply key_ok_masked|rewrite Hm; by apply lcp_prefix| |].
  - apply Hsnoc; [done|]. rewrite Hc. by apply bit_at_lookup.
  - destruct (Z.eqb_spec common (prefix_len key)) as [E|E].
    + rewrite Hm. unfold n. rewrite <- lcp_len_take. fold n.
      by rewrite firstn_all2 by lia.
    + assert (key_bits key !! n = Some (bit_at key common)) as Hbk
        by (rewrite Hc; apply bit_at_lookup; [done|lia]).
      split.
      * rewrite (lcp_len_differ _ _ (bit_at key common) (bit_at p common) Hbk).
        -- by rewrite negb_involutive.
        -- fold n. rewrite Hc. by apply bit_at_lookup.
      * apply Hsnoc; [|done]. rewrite Hm. unfold n. by rewrite lcp_len_take.
Qed.

Lemma step_in_slot st t st' t' parent i :
  step st t st' t' -> in_slot st parent i ->
  slot_off parent (indices t ++ free_list st) -> in_slot st' parent i.
Proof. intros (Hr & HA & _) ? ?. by eapply in_slot_agree. Qed.

Lemma branch_leaf e i p v t :
  branch e i p v t Leaf = (if e then TNode i p v Leaf t else TNode i p v t Leaf).
Proof. done. Qed.

Lemma split_node_spec st t pre parent key value i p v l r :
  t = TNode i p v l r ->
  twf pre t -> rep (nodes st) t -> arena_ok st t ->
  key_ok key -> Q key -> pre `prefix_of` key_bits key ->
  ~ key_bits p `prefix_of` key_bits key ->
  exists st1 t',
    split_node st i parent key value (common_prefix_len key p)
    = replace_child st1 parent i (idx t') /\
    step st t st1 t' /\ len st1 = len st /\ twf pre t' /\
    (compact t -> compact t') /\ t' <> Leaf /\
    upd t t' (key_bits key) (Some value).
Proof.
  intros Et Ht Hrep Hok Hkey HQ Hpre Hdiv.
  assert (key_ok p /\ pre `prefix_of` key_bits p /\ nodes st !! i = Some (mkNode p v (idx l) (idx r))
    /\ idx t = Some i) as (Hp & Hprep & Hi & Hidx) by (subst t; simpl in *; tauto).
  destruct (split_prefix key p pre) as (Hc & Hokm & Hprem & Hep & Hnew); [done..|].
  set (common := common_prefix_len key p) in *. set (m := masked p common) in *.
  assert (twf (key_bits m ++ [bit_at p common]) t) as Htm by (subst t; by eapply twf_root).
  assert (Q m) as HQm by (by apply Q_masked).
  unfold split_node, node. rewrite Hi. cbn [mbind option_bind tn_prefix]. fold m.
  destruct (alloc_tree_spec st t m None Hrep Hok)
    as (sa & bi & Ha & Hbi & HAa & Hra & Hla & Hrepa & Hbit & _ & Hslots).
  rewrite Ha. cbn [mbind option_bind]. set (e := bit_at p common) in *.
  rewrite (update_node_Some _ _ _ _ Hbi). cbn [mbind option_bind].
  set (nb := set_child (mkNode m None None None) e (Some i)).
  set (sb := mkTrie (<[bi:=nb]> (nodes sa)) (free_list sa) (root sa) (len sa)).
  assert (nodes sb !! bi = Some nb) as Hbb
    by (apply list_lookup_insert_eq; by eapply lookup_lt_Some).
  assert (length (nodes sb) = length (nodes sa)) as Hlsb by apply length_insert.
  assert (rep (nodes sb) t) as Hrepb.
  { eapply rep_agree; [|exact Hrepa]. intros j Hj. simpl.
    apply list_lookup_insert_ne. by intros ->. }
  set (tb := branch e bi m None t Leaf).
  assert (slots_ok st sb t tb) as Hsb.
  { unfold slots_ok. rewrite Hlsb. apply (Hslots tb). unfold tb.
    rewrite indices_branch. simpl. by rewrite app_nil_r. }
  assert (arena_ok sb tb) as Hokb.
  { eapply arena_ok_step; [done..|]. rewrite Hlsb. apply HAa. }
  assert (bi ∈ free_list st \/ (length (nodes st) <= bi)%nat) as Hbnew.
  { destruct (slots_ok_elem _ _ _ _ bi Hsb) as [Hin|]; [| |by right; lia].
    - unfold tb. rewrite indices_branch. simpl. apply list_elem_of_here.
    - apply elem_of_app in Hin as [|]; [done|by left]. }
  assert (agree_off (indices t ++ free_list st) (nodes st) (nodes sb)) as HAb.
  { destruct HAa as [HLa HAa]. split; [lia|]. intros j Hj Hn. simpl.
    rewrite list_lookup_insert_ne, HAa; [done|done| |].
    - intros Hf. apply Hn, elem_of_app. by right.
    - intros ->. destruct Hbnew; [|lia]. apply Hn, elem_of_app. by right. }
  destruct (Z.eqb_spec common (prefix_len key)) as [E|E].
  - (* the key is the branch itself *)
    rewrite (update_node_Some _ _ _ _ Hbb). cbn [mbind option_bind].
    set (nc := set_value nb (Some value)).
    exists (mkTrie (<[bi:=nc]> (nodes sb)) (free_list sb) (root sb) (len sb)),
      (branch e bi m (Some value) t Leaf).
    assert (twf pre (branch e bi m (Some value) t Leaf)) as Hwf
      by (apply twf_branch; by subst t).
    split_and!; [by rewrite idx_branch| |by simpl; rewrite Hla|done
      |by intros; apply compact_branch; subst t|by destruct e|].
    + split_and!; [done| | |].
      * destruct HAb as [HLb HAb]. split; [simpl; rewrite length_insert; exact HLb|].
        intros j Hj Hn. simpl. rewrite list_lookup_insert_ne; [by apply HAb|].
        intros ->. destruct Hbnew; [|lia]. apply Hn, elem_of_app. by right.
      * apply rep_branch; [| |done].
        -- simpl. rewrite list_lookup_insert_eq by (by eapply lookup_lt_Some).
           unfold nc, nb. rewrite Hidx. by destruct e.
        -- eapply rep_agree; [|exact Hrepb]. intros j Hj. simpl.
           apply list_lookup_insert_ne. by intros ->.
      * apply (slots_ok_same _ sb _ _ tb); [done|apply length_insert| |done].
        unfold tb. by rewrite !indices_branch.
    + apply (upd_branch pre); [done|]. by left.
  - (* a leaf for the key next to the split node *)
    destruct Hnew as [Hside Hnew].
    destruct (alloc_tree_spec sb tb key (Some value))
      as (sc & ni & Hac & Hni & HAc & Hrc & Hlc & Hrepc & Hnit & Hnew' & Hslc); [|done|].
    { apply rep_branch; [|done..]. rewrite Hbb, Hidx. by destruct e. }
    rewrite Hac. cbn [mbind option_bind].
    assert (bi ∈ indices tb) as Hbitb
      by (unfold tb; rewrite indices_branch; apply list_elem_of_here).
    pose proof (arena_ok_free _ _ Hokb) as (_ & _ & Hdisb).
    assert (nodes sc !! bi = Some nb) as Hbc.
    { rewrite <- Hbb. apply HAc; [by eapply lookup_lt_Some|by apply Hdisb]. }
    rewrite (update_node_Some _ _ _ _ Hbc). cbn [mbind option_bind]. rewrite Hside.
    set (nc := set_child nb (negb e) (Some ni)).
    set (tl := TNode ni key (Some value) Leaf Leaf).
    assert (ni <> bi) as Hnb by (by intros ->).
    exists (mkTrie (<[bi:=nc]> (nodes sc)) (free_list sc) (root sc) (len sc)),
      (branch e bi m None t tl).
    assert (twf pre (branch e bi m None t tl)) as Hwf.
    { apply twf_branch; try done. rewrite <- Hside. by split_and!. }
    assert (forall j, j ∈ indices t -> j <> bi) as Hjt by (by intros j Hj ->).
    split_and!; [by rewrite idx_branch| |exact (eq_trans Hlc Hla)|done
      |by intros; apply compact_branch; subst t|by destruct e|].
    + split_and!; [exact (eq_trans Hrc Hra)| | |].
      * destruct HAb as [HLb HAb], HAc as [HLc HAc].
        split; [simpl; rewrite length_insert; lia|].
        intros j Hj Hn. simpl. rewrite list_lookup_insert_ne.
        -- rewrite HAc; [by apply HAb|lia|]. intros Hf. apply Hn.
           destruct (slots_ok_elem _ _ _ _ j Hsb) as [|]; [|done|lia].
           apply elem_of_app. by right.
        -- intros ->. destruct Hbnew; [|lia]. apply Hn, elem_of_app. by right.
      * apply rep_branch.
        -- simpl. rewrite list_lookup_insert_eq by (by eapply lookup_lt_Some).
           unfold nc, nb. rewrite Hidx. by destruct e.
        -- apply (rep_agree (nodes sc)).
           ++ intros j Hj. simpl. apply list_lookup_insert_ne. by apply not_eq_sym, Hjt.
           ++ eapply rep_frame; [exact HAc|done|]. intros j Hj. apply Hdisb.
              unfold tb. rewrite indices_branch. apply elem_of_cons. right.
              apply elem_of_app. by left.
        -- simpl. split_and!; [|done..]. by rewrite list_lookup_insert_ne.
      * apply (slots_ok_trans _ sb _ _ tb).
        -- destruct HAb as [HLb _], HAc as [HLc _].
           split; [done|]. cbn [nodes]. by rewrite length_insert.
        -- done.
        -- apply (slots_ok_same _ sc _ _ (branch e bi m None t tl));
             [done|apply length_insert|done|]. apply Hslc. unfold tb. rewrite !indices_branch. simpl. rewrite app_nil_r.
           rewrite (Permutation_app_comm _ [ni]). simpl. apply Permutation_swap.
    + apply (upd_branch pre); [done|]. right. rewrite <- Hside. split_and!; [done|done|].
      intros k'. simpl. destruct (decide (k' = key_bits key)) as [->|].
      * apply lookup_insert_eq.
      * by rewrite lookup_insert_ne, lookup_union, !lookup_empty.
Qed.

(** ** Insertion *)
Lemma replace_child_set_len st parent i c n :
  (st' ← replace_child st parent i c; Some (set_len st' n))
  = replace_child (set_len st n) parent i c.
Proof.
  destruct parent as [q|]; simpl; [|done]. unfold update_node, node. simpl.
  by destruct (nodes st !! q).
Qed.

(** Only one child has a given index. *)
Lemma side_idx_ne i (p : K) (v : option V) l r b c :
  NoDup (indices (TNode i p v l r)) -> idx (side b l r) = Some c ->
  idx (side (negb b) l r) <> Some c.
Proof.
  intros Hnd Hc Hc'. apply idx_elem in Hc, Hc'. simpl in Hnd.
  apply NoDup_cons in Hnd as [_ Hnd]. apply NoDup_app in Hnd as (_ & Hd & _).
  destruct b; simpl in *; by eapply Hd.
Qed.

(** The arena seen from a child of the subtree [t]. *)
Lemma arena_ok_side st i p v l r b :
  arena_ok st (TNode i p v l r) ->
  arena_ok st (side b l r) /\
  (i ∉ indices (side b l r) ++ free_list st) /\
  (forall j, j ∈ indices (side (negb b) l r) -> j ∉ indices (side b l r) ++ free_list st).
Proof.
  unfold arena_ok. rewrite (indices_node_side i p v l r b).
  rewrite <- app_comm_cons, <- app_assoc. intros [Hnd Hlt].
  apply NoDup_cons in Hnd as [Hi Hnd]. apply NoDup_app in Hnd as (_ & Hd & Hnd).
  apply Forall_cons in Hlt as [_ Hlt]. apply Forall_app in Hlt as [_ Hlt].
  split_and!; try done. intros Hin. apply Hi, elem_of_app. by right.
Qed.

(** A step on the child of a node, seen as a step on the node. *)
Lemma step_side st i p v l r b st1 c :
  rep (nodes st) (TNode i p v l r) -> arena_ok st (TNode i p v l r) ->
  step st (side b l r) st1 c ->
  step st (TNode i p v l r)
    (mkTrie (<[i := mkNode p v (idx (side b c l)) (idx (side b r c))]> (nodes st1))
       (free_list st1) (root st1) (len st1))
    (set_side b i p v l r c).
Proof.
  intros Hrep Hok Hstep. destruct (arena_ok_side _ _ _ _ _ _ b Hok) as (Hok' & Hi & Hd).
  pose proof (rep_bound _ _ i Hrep (list_elem_of_here _ _)) as Hilt.
  destruct Hstep as (Hr & HA & Hc & Hs).
  assert (agree_off (indices (TNode i p v l r) ++ free_list st) (nodes st) (nodes st1)) as HA'.
  { eapply agree_off_weaken; [|exact HA]. intros j _.
    rewrite !elem_of_app. intros [Hj|Hj]; [left; by eapply indices_side|by right]. }
  assert (i ∉ indices c) as Hic.
  { intros Hin. destruct (slots_ok_elem _ _ _ _ i Hs) as [|]; [|done|lia].
    apply elem_of_app. by left. }
  pose proof (proj1 HA) as Hlen.
  split_and!; [done| | |].
  - destruct HA' as [HL HA']. split; [simpl; by rewrite length_insert|].
    intros j Hj Hn. simpl. rewrite list_lookup_insert_ne; [by apply HA'|].
    intros ->. apply Hn, elem_of_app. left. apply list_elem_of_here.
  - eapply (rep_set_side (i :: indices (side b l r) ++ free_list st) (nodes st)); [done| | | |].
    + eapply agree_off_trans; [|apply (agree_off_insert [i]); apply list_elem_of_here|].
      * eapply agree_off_weaken; [|exact HA]. intros j _ Hj. by apply elem_of_cons; right.
      * intros j _ ->%list_elem_of_singleton. apply list_elem_of_here.
    + apply list_lookup_insert_eq. lia.
    + intros j Hj. rewrite elem_of_cons. intros [->|Hin]; [|by eapply Hd].
      destruct Hok as [Hnd _]. apply NoDup_app in Hnd as (Hnd & _).
      rewrite (indices_node_side i p v l r b) in Hnd.
      apply NoDup_cons in Hnd as [Hni _]. apply Hni, elem_of_app. by left.
    + eapply rep_agree; [|exact Hc]. intros j Hj. simpl.
      apply list_lookup_insert_ne. by intros ->.
  - apply (slots_ok_same _ st1 _ _ (set_side b i p v l r c)); [done|apply length_insert|done|].
    unfold slots_ok in *. rewrite indices_set_side, (indices_node_side i p v l r b).
    rewrite <- !app_comm_cons, <- !app_assoc. by rewrite Hs.
Qed.

(** Writing the value of a node. *)
Lemma step_value st i p v l r o :
  rep (nodes st) (TNode i p v l r) -> arena_ok st (TNode i p v l r) ->
  step st (TNode i p v l r)
    (mkTrie (<[i := set_value (mkNode p v (idx l) (idx r)) o]> (nodes st))
       (free_list st) (root st) (len st))
    (TNode i p o l r).
Proof.
  intros Hrep Hok.
  destruct (step_side st i p v l r true st r Hrep Hok) as (_ & _ & (_ & Hl & Hr) & _).
  { split_and!; [done|apply agree_off_refl|apply Hrep|apply slots_ok_refl]. }
  pose proof (rep_bound _ _ i Hrep (list_elem_of_here _ _)) as Hi.
  assert (forall t x y, i ∉ indices t -> rep (<[i := x]> (nodes st)) t ->
            rep (<[i := y]> (nodes st)) t) as Hsw.
  { intros t x y Hit. apply rep_agree. intros j Hj.
    by rewrite !list_lookup_insert_ne by (by intros ->). }
  destruct Hok as [Hnd _]. apply NoDup_app in Hnd as (Hnd & _).
  apply NoDup_cons in Hnd as [Hin _]. rewrite elem_of_app in Hin.
  split_and!; [done| | |].
  - apply agree_off_insert, elem_of_app. left. apply list_elem_of_here.
  - simpl. split_and!; [by apply list_lookup_insert_eq|eapply Hsw..];
      [tauto|exact Hl|tauto|exact Hr].
  - apply (slots_ok_same _ st _ _ (TNode i p v l r)); [done|apply length_insert|done|].
    apply slots_ok_refl.
Qed.

(** The slot of a child in its parent node. *)
Lemma in_slot_child st i p v l r b c :
  nodes st !! i = Some (mkNode p v (idx l) (idx r)) -> idx (side b l r) = Some c ->
  in_slot st (Some i) c.
Proof. intros Hi Hc. eexists. split; [done|]. destruct b; simpl in *; auto. Qed.

Lemma insert_at_spec fuel st t pre parent key value i :
  twf pre t -> rep (nodes st) t -> idx t = Some i -> arena_ok st t ->
  key_ok key -> Q key -> pre `prefix_of` key_bits key ->
  (129 <= fuel + length pre)%nat ->
  in_slot st parent i -> slot_off parent (indices t ++ free_list st) ->
  exists st1 t',
    insert_at fuel st i parent key value
    = (st2 ← replace_child st1 parent i (idx t'); Some (st2, tmap t !! key_bits key)) /\
    step st t st1 t' /\ twf pre t' /\ (compact t -> compact t') /\ t' <> Leaf /\
    upd t t' (key_bits key) (Some value) /\
    len st1 = (if tmap t !! key_bits key is Some _ then len st else S (len st)).
Proof.
  revert st t pre parent i. induction fuel as [|fuel IH];
    intros st t pre parent i Ht Hrep Hidx Hok Hkey HQ Hpre Hf Hslot Hoff;
    (destruct t as [|i' p v l r]; [done|]); injection Hidx as ->;
    pose proof (twf_length _ _ _ _ _ _ Ht) as Hlen; [lia|].
  pose proof Hrep as (Hn & Hrl & Hrr). pose proof Ht as (Hp & _).
  cbn [insert_at]. unfold node. rewrite Hn. cbn [mbind option_bind tn_prefix tn_value].
  destruct (node_case key p Hkey Hp) as [b Hd|He|Hb].
  - (* the key leaves the node's prefix *)
    destruct (split_node_spec st _ pre parent key value i p v l r eq_refl)
      as (st1 & t' & Es & Hst & Hl & Ht' & Hcp & Hne & Hu); [done..|].
    rewrite Es, (tmap_diverge _ _ _ _ _ _ _ Ht Hd).
    exists (set_len st1 (S (len st))), t'. split_and!; try done.
    rewrite <- replace_child_set_len, <- Hl.
    assert (forall st2, replace_child st1 parent i (idx t') = Some st2 -> len st2 = len st1) as Hln.
    { intros st2. destruct parent as [q|]; simpl; [|by intros [= <-]].
      unfold update_node, node. destruct (nodes st1 !! q); [|done]. by intros [= <-]. }
    destruct (replace_child st1 parent i (idx t')) as [st2|] eqn:E; simpl; [|done].
    by rewrite (Hln st2).
  - (* the node holds the key *)
    rewrite He, (tmap_exact _ _ _ _ _ _ Ht).
    rewrite (update_node_Some _ _ _ _ Hn). cbn [mbind option_bind].
    pose proof (step_value st i p v l r (Some value) Hrep Hok) as Hstep.
    set (st' := mkTrie _ _ _ _) in *.
    set (st1 := match v with None => set_len st' (S (len st')) | Some _ => st' end).
    assert (step st (TNode i p v l r) st1 (TNode i p (Some value) l r)) as Hstep1
      by (by destruct v).
    exists st1, (TNode i p (Some value) l r).
    cbn [idx]. rewrite replace_child_same by (by eapply step_in_slot).
    split_and!; [done|done|done| |done|by eapply upd_set_value|by destruct v].
    intros (? & ? & _). by split_and!.
  - (* the key is below the node *)
    rewrite tn_child_side, (tmap_below _ _ _ _ _ _ _ _ Ht Hb).
    set (b := bit_at key (prefix_len p)) in *.
    destruct (arena_ok_side _ _ _ _ _ _ b Hok) as (Hok' & Hi & _).
    destruct (idx (side b l r)) as [c|] eqn:Ec.
    + destruct (IH st (side b l r) (key_bits p ++ [b]) (Some i) c)
        as (st1 & c' & Eq & Hstep & Hwf' & Hcp & Hne' & Hu & Hl); try done;
        [by eapply twf_side|by eapply rep_side|rewrite length_app; simpl; lia
        |by eapply in_slot_child|].
      pose proof (step_side _ _ _ _ _ _ _ _ _ Hrep Hok Hstep) as Hstep'.
      assert (nodes st1 !! i = Some (mkNode p v (idx l) (idx r))) as Hn1.
      { destruct Hstep as (_ & HA & _). rewrite <- Hn. apply HA; [|done].
        by eapply lookup_lt_Some. }
      destruct Hok as [Hnd _]. apply NoDup_app in Hnd as (Hnd & _).
      rewrite (replace_child_node st1 i p v l r b c) in Eq; [|done|done|by eapply side_idx_ne].
      eexists _, (set_side b i p v l r c'). rewrite Eq. cbn [mbind option_bind].
      assert (idx (set_side b i p v l r c') = Some i) as -> by (by destruct b).
      rewrite replace_child_same by (by eapply step_in_slot).
      split_and!; [done|done|by apply twf_set_side| |by destruct b| |done].
      { intros Hcc. apply compact_set_side; [done|by eapply Hcp, compact_side|done]. }
      eapply upd_set_side; [done| |done|done]. by apply twf_set_side.
    + (* no child on that side: a new leaf *)
      destruct (side b l r) as [|] eqn:Es; [|done].
      destruct (alloc_tree_spec st Leaf key (Some value)) as
        (sa & ni & Ha & Hni & HAa & Hra & Hla & _ & _ & _ & Hs); [done|done|].
      rewrite Ha. cbn [mbind option_bind].
      set (c' := TNode ni key (Some value) Leaf Leaf).
      assert (step st (side b l r) sa c') as Hstep.
      { rewrite Es. split_and!; [done|done|by simpl|by apply Hs]. }
      assert (nodes sa !! i = Some (mkNode p v (idx l) (idx r))) as Hn1.
      { rewrite <- Hn. apply HAa; [by eapply lookup_lt_Some|done]. }
      pose proof (step_side _ _ _ _ _ _ _ _ _ Hrep Hok Hstep) as Hstep'.
      rewrite (update_node_Some _ _ _ _ Hn1). cbn [mbind option_bind].
      assert (twf (key_bits p ++ [b]) c') as Hwfc by (by split_and!).
      set (st1 := mkTrie _ _ _ _) in Hstep'.
      exists (set_len st1 (S (len sa))), (set_side b i p v l r c').
      assert (idx (set_side b i p v l r c') = Some i) as -> by (by destruct b).
      rewrite replace_child_same by (by eapply (step_in_slot st _ st1)).
      split_and!; [|done|by apply twf_set_side| |by destruct b| |by simpl; rewrite Hla].
      * unfold st1. simpl. by destruct b.
      * intros Hcc. by apply compact_set_side.
      * eapply upd_set_side; [done|by apply twf_set_side|done|].
        rewrite Es. intros k'. simpl. destruct (decide (k' = key_bits key)) as [->|].
        -- apply lookup_insert_eq.
        -- by rewrite lookup_insert_ne, lookup_union, !lookup_empty.
Qed.

(** ** Removal *)
Definition collapse (t : tree) : tree :=
  match t with
  | TNode _ _ None Leaf c | TNode _ _ None c Leaf => c
  | _ => t
  end.

Lemma twf_collapse pre t : twf pre t -> twf pre (collapse t).
Proof.
  destruct t as [|i p [x|] l r]; try done. intros Ht.
  pose proof Ht as (_ & _ & Hpre & Hl & Hr).
  assert (forall b c, twf (key_bits p ++ [b]) c -> twf pre c) as Hw
    by (intros b c; apply twf_weaken; by apply prefix_app_r).
  destruct l, r; simpl collapse; eauto.
Qed.

Lemma compact_collapse i p v l r :
  compact l -> compact r -> compact (collapse (TNode i p v l r)).
Proof. intros Hl Hr. by destruct v, l, r. Qed.

Lemma tmap_collapse t : tmap (collapse t) = tmap t.
Proof.
  destruct t as [|i p [x|] l r]; try done.
  destruct l, r; simpl collapse; try done; simpl;
    by rewrite ?(left_id_L ∅ (∪)), ?(right_id_L ∅ (∪)).
Qed.

Lemma replace_child_free st parent i c :
  (st' ← replace_child st parent i c; Some (free_node st' i))
  = replace_child (free_node st i) parent i c.
Proof.
  destruct parent as [q|]; simpl; [|done]. unfold update_node, node. simpl.
  by destruct (nodes st !! q).
Qed.

Lemma step_trans st t st1 t1 st2 t2 :
  step st t st1 t1 -> step st1 t1 st2 t2 -> step st t st2 t2.
Proof.
  intros (Hr1 & HA1 & _ & Hs1) (Hr2 & HA2 & Hrep2 & Hs2). split_and!; [congruence| |done|].
  - eapply agree_off_trans; [done..|]. intros i Hi Hin.
    destruct (slots_ok_elem _ _ _ _ _ Hs1 Hin); [done|lia].
  - eapply slots_ok_trans; [|done..]. split; [apply HA1|apply HA2].
Qed.

Lemma step_free st i p l r c :
  rep (nodes st) c -> indices c ≡ₚ indices l ++ indices r ->
  step st (TNode i p None l r) (free_node st i) c.
Proof.
  intros Hc Hp. split_and!; [done|apply agree_off_refl|done|].
  unfold slots_ok. simpl. rewrite Nat.sub_diag, Hp. simpl. rewrite app_nil_r.
  by rewrite <- Permutation_middle.
Qed.

Lemma try_collapse_spec st i p v l r parent :
  rep (nodes st) (TNode i p v l r) -> arena_ok st (TNode i p v l r) ->
  in_slot st parent i ->
  exists st1,
    try_collapse st i parent
    = replace_child st1 parent i (idx (collapse (TNode i p v l r))) /\
    step st (TNode i p v l r) st1 (collapse (TNode i p v l r)) /\ len st1 = len st.
Proof.
  intros Hrep Hok Hslot. pose proof Hrep as (Hn & Hl & Hr).
  assert (step st (TNode i p v l r) st (TNode i p v l r)) as Hsame
    by (split_and!; [done|apply agree_off_refl|done|apply slots_ok_refl]).
  unfold try_collapse, node. rewrite Hn. cbn [mbind option_bind tn_value tn_child0 tn_child1].
  destruct v as [x|]; [|destruct l as [|il pl vl ll lr], r as [|ir pr vr rl rr]]; cbn [idx collapse].
  - exists st. by rewrite replace_child_same.
  - exists (free_node st i). rewrite <- replace_child_free. split_and!; [done|by apply step_free|done].
  - exists (free_node st i). rewrite <- replace_child_free. split_and!; [done|by apply step_free|done].
  - exists (free_node st i). rewrite <- replace_child_free. split_and!; [done|apply step_free; [done|]|done].
    simpl. by rewrite app_nil_r.
  - exists st. by rewrite replace_child_same.
Qed.

Lemma remove_at_spec fuel st t pre parent key i :
  twf pre t -> rep (nodes st) t -> idx t = Some i -> arena_ok st t -> key_ok key ->
  (129 <= fuel + length pre)%nat ->
  in_slot st parent i -> slot_off parent (indices t ++ free_list st) ->
  exists st1 t',
    remove_at fuel st i parent key
    = (st2 ← replace_child st1 parent i (idx t'); Some (st2, tmap t !! key_bits key)) /\
    step st t st1 t' /\ twf pre t' /\ (compact t -> compact t') /\
    upd t t' (key_bits key) None /\
    len st1 = (if tmap t !! key_bits key is Some _ then len st - 1 else len st)%nat /\
    (tmap t !! key_bits key = None -> st1 = st /\ t' = t).
Proof.
  revert st t pre parent i. induction fuel as [|fuel IH];
    intros st t pre parent i Ht Hrep Hidx Hok Hkey Hf Hslot Hoff;
    (destruct t as [|i' p v l r]; [done|]); injection Hidx as ->;
    pose proof (twf_length _ _ _ _ _ _ Ht) as Hlen; [lia|].
  pose proof Hrep as (Hn & Hrl & Hrr). pose proof Ht as (Hp & _).
  assert (step st (TNode i p v l r) st (TNode i p v l r)) as Hsame
    by (split_and!; [done|apply agree_off_refl|done|apply slots_ok_refl]).
  cbn [remove_at]. unfold node. rewrite Hn. cbn [mbind option_bind tn_prefix tn_value].
  destruct (node_case key p Hkey Hp) as [b Hd|He|Hb].
  - rewrite (tmap_diverge _ _ _ _ _ _ _ Ht Hd).
    exists st, (TNode i p v l r). cbn [idx]. rewrite replace_child_same by done.
    split_and!; try done. by eapply upd_none, tmap_diverge.
  - pose proof (tmap_exact _ _ _ _ _ _ Ht) as Hv. rewrite <- He in Hv.
    destruct v as [x|].
    2:{ rewrite Hv. exists st, (TNode i p None l r). cbn [idx].
        rewrite replace_child_same by done. split_and!; try done. by apply upd_none. }
    rewrite Hv.
    rewrite (update_node_Some _ _ _ _ Hn). cbn [mbind option_bind].
    pose proof (step_value st i p (Some x) l r None Hrep Hok) as Hstep.
    set (st' := mkTrie _ _ _ _) in *. set (sl := set_len st' (len st' - 1)).
    assert (step st (TNode i p (Some x) l r) sl (TNode i p None l r)) as Hstep1 by done.
    destruct (try_collapse_spec sl i p None l r parent) as (st1 & Eq & Hst & Hl);
      [apply Hstep1|by eapply step_arena|by eapply step_in_slot|].
    eexists st1, _. rewrite Eq. split_and!; [done|by eapply step_trans| | | |done|done].
    + by apply twf_collapse.
    + intros (? & ? & _). by apply compact_collapse.
    + intros k'. rewrite tmap_collapse, He. by eapply upd_set_value.
  - rewrite tn_child_side. set (b := bit_at key (prefix_len p)) in *.
    pose proof (tmap_below _ _ _ _ _ _ _ _ Ht Hb) as Hv.
    destruct (arena_ok_side _ _ _ _ _ _ b Hok) as (Hok' & Hi & _).
    destruct (idx (side b l r)) as [c|] eqn:Ec.
    2:{ assert (tmap (side b l r) !! key_bits key = None) as Hnone
          by (by destruct (side b l r)).
        rewrite Hv, Hnone. exists st, (TNode i p v l r). cbn [idx].
        rewrite replace_child_same by done. split_and!; try done.
        apply upd_none. by rewrite Hv. }
    destruct (IH st (side b l r) (key_bits p ++ [b]) (Some i) c)
      as (st1 & c' & Eq & Hstep & Hwf' & Hcp & Hu & Hl & Hid); try done;
      [by eapply twf_side|by eapply rep_side|rewrite length_app; simpl; lia
      |by eapply in_slot_child|].
    pose proof (step_side _ _ _ _ _ _ _ _ _ Hrep Hok Hstep) as Hstep'.
    assert (nodes st1 !! i = Some (mkNode p v (idx l) (idx r))) as Hn1.
    { destruct Hstep as (_ & HA & _). rewrite <- Hn. apply HA; [|done].
      by eapply lookup_lt_Some. }
    pose proof Hok as [Hnd _]. apply NoDup_app in Hnd as (Hnd & _).
    rewrite (replace_child_node st1 i p v l r b c) in Eq; [|done|done|by eapply side_idx_ne].
    rewrite Eq. cbn [mbind option_bind]. clear Eq. rewrite Hv.
    set (st2 := mkTrie _ _ _ _) in *.
    assert (upd (TNode i p v l r) (set_side b i p v l r c') (key_bits key) None) as Hu'
      by (eapply upd_set_side; [done|by apply twf_set_side|done..]).
    destruct (tmap (side b l r) !! key_bits key) as [x|] eqn:Ex.
    + destruct (try_collapse_spec st2 i p v (side b c' l) (side b r c') parent)
        as (st3 & Eq & Hst & Hl3).
      { destruct Hstep' as (_ & _ & Hr' & _). by destruct b. }
      { pose proof (step_arena _ _ _ _ Hstep' Hok). by destruct b. }
      { by eapply step_in_slot. }
      eexists st3, _. rewrite Eq. split_and!; [done| | | | |by rewrite Hl3|done].
      * eapply step_trans; [exact Hstep'|]. by destruct b.
      * apply twf_collapse. pose proof (twf_set_side _ _ _ _ _ _ b _ Ht Hwf'). by destruct b.
      * intros (Hcl & Hcr & _). apply compact_collapse; destruct b; simpl; eauto.
      * intros k'. rewrite tmap_collapse. specialize (Hu' k'). by destruct b.
    + destruct (Hid eq_refl) as [-> ->]. exists st, (TNode i p v l r).
      assert (st2 = st) as ->.
      { unfold st2. destruct st as [ns fr rt ln]. simpl in *. f_equal.
        apply list_insert_id. rewrite Hn. by destruct b. }
      cbn [idx]. rewrite replace_child_same by done. split_and!; try done.
      apply upd_none. by rewrite Hv.
Qed.

(** ** Traversal *)

(** The entries of a tree in the order of the traversal. *)
Definition node_entry (p : K) (v : option V) : list (K * V) :=
  match v with Some x => [(p, x)] | None => [] end.

Fixpoint entries (t : tree) : list (K * V) :=
  match t with
  | Leaf => []
  | TNode _ p v l r => node_entry p v ++ entries r ++ entries l
  end.

(** Entries by bit string. *)
Definition ents (l : list (K * V)) : list (list bool * V) :=
  map (fun e => (key_bits e.1, e.2)) l.

Lemma ents_app l1 l2 : ents (l1 ++ l2) = ents l1 ++ ents l2.
Proof. apply map_app. Qed.

Lemma collect_loop_spec fuel st (ts : list tree) res :
  Forall (rep (nodes st)) ts ->
  (length (concat (map indices ts)) <= fuel)%nat ->
  collect_loop fuel st (omap idx ts) res = Some (res ++ concat (map entries ts)).
Proof.
  revert ts res. induction fuel as [|fuel IH]; intros ts res; induction ts as [|t ts IHts];
    intros Hrep Hf; try (by simpl; rewrite app_nil_r);
    apply Forall_cons in Hrep as [Ht Hts]; (destruct t as [|i p v l r]; [by apply IHts|]);
    [simpl in Hf; lia|].
  pose proof Ht as (Hn & Hl & Hr).
  change (omap idx (TNode i p v l r :: ts)) with (i :: omap idx ts).
  cbn [collect_loop]. unfold node. rewrite Hn.
  cbn [mbind option_bind tn_value tn_prefix tn_child0 tn_child1].
  assert (option_list (idx r) ++ option_list (idx l) ++ omap idx ts
          = omap idx (r :: l :: ts)) as ->.
  { simpl. by destruct (idx r), (idx l). }
  rewrite IH.
  - simpl. f_equal. rewrite <- !app_assoc. unfold node_entry.
    by destruct v; rewrite <- ?app_assoc.
  - by repeat constructor.
  - simpl in Hf |- *. rewrite !length_app in *. lia.
Qed.

Lemma entries_spec pre t :
  twf pre t ->
  (forall k x, (k, x) ∈ ents (entries t) <-> tmap t !! k = Some x) /\
  NoDup (ents (entries t)).*1 /\
  Forall (fun e => key_ok e.1 /\ Q e.1) (entries t).
Proof.
  revert pre. induction t as [|i p v l IHl r IHr]; intros pre Ht.
  { split_and!; [|constructor|constructor]. intros k x. simpl.
    rewrite lookup_empty. split; [by intros ?%elem_of_nil|done]. }
  pose proof Ht as (Hok & HQ & _ & Hl & Hr).
  destruct (IHl _ Hl) as (El & Nl & Ol), (IHr _ Hr) as (Er & Nr & Or).
  assert (forall b c k x, twf (key_bits p ++ [b]) c -> tmap c !! k = Some x ->
            key_bits p ++ [b] `prefix_of` k) as Hpre by (intros; by eapply tmap_prefix).
  assert (forall k x, (k, x) ∈ ents (node_entry p v) <-> k = key_bits p /\ v = Some x) as Ev.
  { intros k x. destruct v as [y|]; simpl.
    - rewrite list_elem_of_singleton. naive_solver.
    - rewrite elem_of_nil. naive_solver. }
  split_and!.
  - intros k x. cbn [entries]. rewrite !ents_app, !elem_of_app, Ev, El, Er.
    rewrite (lookup_tmap_node _ _ _ _ _ _ _ Ht).
    destruct (decide (k = key_bits p)) as [->|].
    { rewrite (tmap_none _ _ _ Hl (prefix_snoc_not_self _ _)),
        (tmap_none _ _ _ Hr (prefix_snoc_not_self _ _)). naive_solver. }
    destruct (decide (_ ++ [false] `prefix_of` k)) as [Hf|Hf].
    { rewrite (tmap_none _ r k Hr); [naive_solver|].
      intros Hb. by discriminate (prefix_snoc_inj _ _ _ _ Hf Hb). }
    rewrite (tmap_none _ l k Hl) by done.
    destruct (decide (_ ++ [true] `prefix_of` k)); [naive_solver|].
    rewrite (tmap_none _ r k Hr) by done. naive_solver.
  - cbn [entries]. rewrite !ents_app, !fmap_app.
    assert (forall k b c, twf (key_bits p ++ [b]) c ->
      (forall k x, (k, x) ∈ ents (entries c) <-> tmap c !! k = Some x) ->
      k ∈ (ents (entries c)).*1 -> key_bits p ++ [b] `prefix_of` k) as Hin.
    { intros k b c Hc Ec Hk. apply list_elem_of_fmap in Hk as ([k' x] & -> & Hk).
      apply Ec in Hk. eauto. }
    apply NoDup_app. split_and!; [destruct v; simpl; repeat constructor; by intros ?%elem_of_nil| |].
    + intros k Hk Hk'. assert (k = key_bits p) as ->.
      { destruct v; simpl in Hk; [by apply list_elem_of_singleton in Hk|by apply elem_of_nil in Hk]. }
      apply elem_of_app in Hk' as [Hk'|Hk'].
      * by eapply prefix_snoc_not_self, (Hin _ _ _ Hr Er Hk').
      * by eapply prefix_snoc_not_self, (Hin _ _ _ Hl El Hk').
    + apply NoDup_app. split_and!; [done| |done]. intros k Hk Hk'.
      by discriminate (prefix_snoc_inj _ _ _ _ (Hin _ _ _ Hr Er Hk) (Hin _ _ _ Hl El Hk')).
  - cbn [entries]. apply Forall_app. split; [destruct v; repeat constructor; done|].
    by apply Forall_app.
Qed.

(** ** Covering prefixes: the path of the key *)
Fixpoint tcov (t : tree) (key : K) : list (K * V) :=
  match t with
  | Leaf => []
  | TNode _ p v l r =>
      if common_prefix_len key p <? prefix_len p then []
      else node_entry p v ++
        (if prefix_len p =? prefix_len key then []
         else if bit_at key (prefix_len p) then tcov r key else tcov l key)
  end.

Lemma covering_loop_spec fuel st t pre key c res :
  twf pre t -> rep (nodes st) t -> idx t = Some c -> key_ok key ->
  (129 <= fuel + length pre)%nat ->
  covering_loop fuel st key c res = Some (res ++ tcov t key).
Proof.
  revert t pre c res. induction fuel as [|fuel IH]; intros t pre c res Ht Hrep Hc Hkey Hf;
    (destruct t as [|i p v l r]; [done|]); injection Hc as ->;
    pose proof (twf_length _ _ _ _ _ _ Ht) as Hlen; [lia|].
  pose proof Hrep as (Hn & Hrl & Hrr). pose proof Ht as (Hok & _).
  cbn [covering_loop tcov]. unfold node. rewrite Hn.
  cbn [mbind option_bind tn_prefix tn_value]. rewrite tn_child_side.
  assert (match v with Some v0 => res ++ [(p, v0)] | None => res end
          = res ++ node_entry p v) as ->.
  { destruct v; simpl; [done|by rewrite app_nil_r]. }
  destruct (node_case key p Hkey Hok) as [b Hd|He|Hb]; [by rewrite app_nil_r..|].
  set (b := bit_at key (prefix_len p)) in *.
  assert ((if b then tcov r key else tcov l key) = tcov (side b l r) key) as ->
    by (by destruct b).
  destruct (idx (side b l r)) as [c'|] eqn:Ec.
  - rewrite (IH (side b l r) (key_bits p ++ [b]) c').
    + by rewrite <- app_assoc.
    + by eapply twf_side.
    + by eapply rep_side.
    + done.
    + done.
    + rewrite length_app. simpl. lia.
  - destruct (side b l r); [|done]. simpl. by rewrite app_nil_r.
Qed.

Lemma tcov_spec pre t key :
  twf pre t -> key_ok key ->
  (forall k x, (k, x) ∈ ents (tcov t key) <->
     tmap t !! k = Some x /\ k `prefix_of` key_bits key) /\
  StronglySorted lt (map length (ents (tcov t key)).*1) /\
  Forall (fun e => key_ok e.1 /\ Q e.1) (tcov t key).
Proof.
  intros Ht Hkey. revert pre Ht. induction t as [|i p v l IHl r IHr]; intros pre Ht.
  { split_and!; [|constructor|constructor]. intros k x. simpl.
    rewrite lookup_empty, elem_of_nil. naive_solver. }
  pose proof Ht as (Hok & HQ & _ & Hl & Hr). cbn [tcov].
  assert (twf (key_bits p) (TNode i p v l r)) as Htp by (by split_and!).
  assert (forall k x, (k, x) ∈ ents (node_entry p v) <-> k = key_bits p /\ v = Some x) as Ev.
  { intros k x. destruct v as [y|]; simpl.
    - rewrite list_elem_of_singleton. naive_solver.
    - rewrite elem_of_nil. naive_solver. }
  destruct (node_case key p Hkey Hok) as [b Hd|He|Hb].
  - split_and!; [|constructor|constructor]. intros k x. simpl. split; [by intros ?%elem_of_nil|].
    intros [Hk Hpk]. destruct Hd. etrans; [|exact Hpk]. by eapply tmap_prefix.
  - rewrite app_nil_r. split_and!; [|destruct v; repeat constructor|destruct v; repeat constructor; done].
    intros k x. rewrite Ev, He. split.
    + intros [-> ->]. split; [by eapply tmap_exact|done].
    + intros [Hk Hpk]. assert (key_bits p `prefix_of` k) as Hpk' by (by eapply tmap_prefix).
      assert (k = key_bits p) as -> by (by apply (anti_symm prefix)).
      by rewrite (tmap_exact _ _ _ _ _ _ Ht) in Hk.
  - set (b := bit_at key (prefix_len p)) in *.
    assert ((if b then tcov r key else tcov l key) = tcov (side b l r) key) as ->
      by (by destruct b).
    pose proof (twf_side _ _ _ _ _ _ b Ht) as Hts.
    assert ((forall k x, (k, x) ∈ ents (tcov (side b l r) key) <->
               tmap (side b l r) !! k = Some x /\ k `prefix_of` key_bits key) /\
            StronglySorted lt (map length (ents (tcov (side b l r) key)).*1) /\
            Forall (fun e => key_ok e.1 /\ Q e.1) (tcov (side b l r) key))
      as (Es & Hss & Hall) by (destruct b; eauto).
    split_and!.
    + intros k x. rewrite ents_app, elem_of_app, Ev, Es.
      destruct (decide (k = key_bits p)) as [->|Hne].
      * rewrite (tmap_exact _ _ _ _ _ _ Ht),
          (tmap_none _ _ _ Hts (prefix_snoc_not_self _ _)).
        assert (key_bits p `prefix_of` key_bits key) by (etrans; [|exact Hb]; by apply prefix_app_r).
        naive_solver.
      * assert (k `prefix_of` key_bits key ->
                tmap (TNode i p v l r) !! k = Some x <-> tmap (side b l r) !! k = Some x) as Hiff;
          [|naive_solver].
        intros Hpk. destruct (decide (key_bits p `prefix_of` k)) as [[zs ->]|Hnp].
        -- destruct zs as [|z zs]; [by rewrite app_nil_r in Hne|].
           assert (key_bits p ++ [z] `prefix_of` key_bits p ++ z :: zs) as Hz
             by (exists zs; by rewrite <- app_assoc).
           assert (z = b) as -> by (eapply prefix_snoc_inj; [etrans; [exact Hz|done]|exact Hb]).
           by rewrite (tmap_below _ _ _ _ _ _ _ _ Ht Hz).
        -- rewrite (tmap_diverge _ _ _ _ _ _ _ Ht Hnp), (tmap_none _ _ _ Hts); [done|].
           intros Hk. apply Hnp. etrans; [|exact Hk]. by apply prefix_app_r.
    + rewrite ents_app, fmap_app, map_app. apply StronglySorted_app_2; [|destruct v; repeat constructor|done].
      intros a c Ha Hc. destruct v as [y|]; simpl in Ha; [|by apply elem_of_nil in Ha].
      apply list_elem_of_singleton in Ha as ->.
      apply list_elem_of_fmap in Hc as (k & -> & Hk).
      apply list_elem_of_fmap in Hk as ([k' z] & -> & Hk). apply Es in Hk as [Hk _].
      pose proof (prefix_length _ _ (tmap_prefix _ _ _ _ Hts Hk)) as Hpl.
      rewrite length_app in Hpl. simpl in *. lia.
    + apply Forall_app. split; [destruct v; repeat constructor; done|done].
Qed.

(** ** Subtrees *)
Fixpoint tsub (t : tree) (key : K) : tree :=
  match t with
  | Leaf => Leaf
  | TNode _ p v l r =>
      if common_prefix_len key p <? prefix_len p then
        if prefix_len key <=? common_prefix_len key p then t else Leaf
      else if prefix_len key <=? prefix_len p then t
      else if bit_at key (prefix_len p) then tsub r key else tsub l key
  end.

Lemma subtree_start_spec fuel st t pre key c :
  twf pre t -> rep (nodes st) t -> idx t = Some c -> key_ok key ->
  (129 <= fuel + length pre)%nat ->
  subtree_start fuel st key c = Some (idx (tsub t key)).
Proof.
  revert t pre c. induction fuel as [|fuel IH]; intros t pre c Ht Hrep Hc Hkey Hf;
    (destruct t as [|i p v l r]; [done|]); injection Hc as ->;
    pose proof (twf_length _ _ _ _ _ _ Ht) as Hlen; [lia|].
  pose proof Hrep as (Hn & Hrl & Hrr). pose proof Ht as (Hok & _).
  cbn [subtree_start tsub]. unfold node. rewrite Hn.
  cbn [mbind option_bind tn_prefix tn_value]. rewrite tn_child_side.
  destruct (_ <? _); [by destruct (_ <=? _)|].
  destruct (_ <=? _); [done|].
  set (b := bit_at key (prefix_len p)) in *.
  assert ((if b then tsub r key else tsub l key) = tsub (side b l r) key) as ->
    by (by destruct b).
  destruct (idx (side b l r)) as [c'|] eqn:Ec; [|by destruct (side b l r)].
  apply (IH _ (key_bits p ++ [b])); [by eapply twf_side|by eapply rep_side|done|done|].
  rewrite length_app. simpl. lia.
Qed.

Lemma tsub_rep ns t key : rep ns t -> rep ns (tsub t key).
Proof.
  induction t as [|i p v l IHl r IHr]; [done|]. intros (Hn & Hl & Hr). cbn [tsub].
  destruct (_ <? _); [by destruct (_ <=? _)|]. destruct (_ <=? _); [done|].
  destruct (bit_at _ _); auto.
Qed.

Lemma tsub_size t key : (length (indices (tsub t key)) <= length (indices t))%nat.
Proof.
  induction t as [|i p v l IHl r IHr]; [done|]. cbn [tsub].
  destruct (_ <? _); [destruct (_ <=? _); simpl; lia|]. destruct (_ <=? _); [done|].
  simpl. rewrite length_app. destruct (bit_at _ _); lia.
Qed.

Lemma tsub_spec pre t key :
  twf pre t -> key_ok key ->
  (exists pre', twf pre' (tsub t key)) /\
  forall k, tmap (tsub t key) !! k
    = if decide (key_bits key `prefix_of` k) then tmap t !! k else None.
Proof.
  intros Ht Hkey. revert pre Ht. induction t as [|i p v l IHl r IHr]; intros pre Ht.
  { split; [by exists pre|]. intros k. simpl. by case_decide. }
  pose proof Ht as (Hok & HQ & _ & Hl & Hr).
  assert (twf (key_bits p) (TNode i p v l r)) as Htp by (by split_and!).
  assert (key_bits key `prefix_of` key_bits p ->
    forall k, tmap (TNode i p v l r) !! k
      = if decide (key_bits key `prefix_of` k) then tmap (TNode i p v l r) !! k else None) as Hin.
  { intros Hp k. case_decide as Hk; [done|]. eapply tmap_none; [exact Htp|].
    intros Hpk. apply Hk. by etrans. }
  assert (~ key_bits key `prefix_of` key_bits p -> ~ key_bits p `prefix_of` key_bits key ->
    forall k, None = if decide (key_bits key `prefix_of` k)
                     then tmap (TNode i p v l r) !! k else None) as Hout.
  { intros H1 H2 k. case_decide as Hk; [|done]. symmetry. eapply tmap_none; [exact Htp|].
    intros Hpk. destruct (prefix_weak_total _ _ _ Hk Hpk); done. }
  pose proof (key_bits_common key p Hkey Hok) as Hc.
  pose proof (key_bits_length key Hkey) as Hlk. pose proof (key_bits_length p Hok) as Hlp.
  pose proof (lcp_len_le_l (key_bits key) (key_bits p)) as Hcl.
  pose proof (lcp_len_full (key_bits p) (key_bits key)) as Hfull. rewrite lcp_len_comm in Hfull.
  cbn [tsub].
  destruct (node_case key p Hkey Hok) as [_ Hd|He|Hb].
  - destruct (Z.leb_spec (prefix_len key) (common_prefix_len key p)).
    + split; [by exists pre|]. apply Hin, Hfull. lia.
    + split; [by exists pre|]. intros k. simpl. rewrite lookup_empty. apply Hout; [|done].
      rewrite <- Hfull. lia.
  - destruct (Z.leb_spec (prefix_len key) (prefix_len p)); [|rewrite He in Hlk; lia].
    split; [by exists pre|]. apply Hin. by rewrite He.
  - pose proof (prefix_length _ _ Hb) as Hbl. rewrite length_app in Hbl. simpl in Hbl.
    destruct (Z.leb_spec (prefix_len key) (prefix_len p)); [lia|].
    set (b := bit_at key (prefix_len p)) in *.
    assert ((if b then tsub r key else tsub l key) = tsub (side b l r) key) as ->
      by (by destruct b).
    assert ((exists pre', twf pre' (tsub (side b l r) key)) /\
      forall k, tmap (tsub (side b l r) key) !! k
        = if decide (key_bits key `prefix_of` k) then tmap (side b l r) !! k else None)
      as [Hw Hs] by (destruct b; eauto).
    split; [done|]. intros k. rewrite Hs. case_decide as Hk; [|done].
    by rewrite (tmap_below _ _ _ _ _ _ b k Ht) by (by etrans).
Qed.

(** ** The abstract specification: a map from bit strings *)
Definition trie_inv st (t : tree) : Prop :=
  idx t = root st /\ rep (nodes st) t /\ twf [] t /\ compact t /\
  indices t ++ free_list st ≡ₚ seq 0 (length (nodes st)) /\
  len st = size (tmap t).

Definition trie_repr st (m : gmap (list bool) V) : Prop :=
  exists t, trie_inv st t /\ m = tmap t.

Lemma trie_inv_arena st t : trie_inv st t -> arena_ok st t.
Proof.
  intros (_ & _ & _ & _ & Hp & _). unfold arena_ok. split.
  - rewrite Hp. apply NoDup_seq.
  - apply Forall_forall. intros i. rewrite Hp, elem_of_seq. lia.
Qed.

Lemma trie_repr_new : trie_repr trie_new ∅.
Proof. exists Leaf. by split. Qed.

Lemma trie_repr_len st m : trie_repr st m -> trie_len st = size m.
Proof. by intros (t & (_ & _ & _ & _ & _ & Hl) & ->). Qed.

Lemma slots_full st t st' t' :
  indices t ++ free_list st ≡ₚ seq 0 (length (nodes st)) ->
  (length (nodes st) <= length (nodes st'))%nat ->
  slots_ok st st' t t' ->
  indices t' ++ free_list st' ≡ₚ seq 0 (length (nodes st')).
Proof.
  unfold slots_ok. intros Hp Hl ->. rewrite app_assoc, Hp, <- seq_app.
  by replace (_ + _)%nat with (length (nodes st')) by lia.
Qed.

(** A step at the root, then the root slot set to the new tree. *)
Lemma trie_inv_step st t st1 t' l :
  trie_inv st t -> step st t st1 t' -> twf [] t' -> compact t' -> l = size (tmap t') ->
  trie_inv (mkTrie (nodes st1) (free_list st1) (idx t') l) t'.
Proof.
  intros (_ & _ & _ & _ & Hp & _) (_ & HA & Hrep & Hs) Ht Hc ->.
  split_and!; try done. eapply (slots_full st t st1); [done|apply HA|done].
Qed.

Lemma trie_insert_ok st m key value :
  trie_repr st m -> key_ok key -> Q key ->
  exists st', trie_insert st key value = Some (st', m !! key_bits key) /\
    trie_repr st' (<[key_bits key := value]> m).
Proof.
  intros (t & Hinv & ->) Hkey HQ. pose proof (trie_inv_arena _ _ Hinv) as Hok.
  pose proof Hinv as (Hroot & Hrep & Ht & Hc & Hp & Hl). unfold trie_insert.
  rewrite <- Hroot. destruct (idx t) as [r|] eqn:Er.
  - destruct (insert_at_spec depth_fuel st t [] None key value r)
      as (st1 & t' & Eq & Hst & Ht' & Hc' & _ & Hu & Hl'); try done.
    { apply prefix_nil. } { unfold depth_fuel. simpl. lia. }
    rewrite Eq. simpl. eexists. split; [done|]. exists t'.
    rewrite (upd_insert _ _ _ _ Hu). split; [|done].
    apply (trie_inv_step st t st1); auto. rewrite (upd_insert _ _ _ _ Hu), Hl', Hl.
    destruct (tmap t !! key_bits key) eqn:Ek.
    + by erewrite map_size_insert_Some.
    + by rewrite map_size_insert_None.
  - destruct t; [|done].
    destruct (alloc_tree_spec st Leaf key (Some value))
      as (sa & ni & Ha & Hni & HA & _ & Hla & _ & _ & _ & Hs); [done|done|].
    rewrite Ha. simpl. eexists. split; [done|].
    exists (TNode ni key (Some value) Leaf Leaf). split.
    + split_and!; simpl; try done; [split_and!; try done; apply prefix_nil| |].
      * apply (slots_full st Leaf sa (TNode ni key (Some value) Leaf Leaf));
          [done|apply HA|by apply Hs].
      * rewrite Hla, Hl, (left_id_L ∅ (∪)). by rewrite map_size_insert_None.
    + simpl. by rewrite (left_id_L ∅ (∪)).
Qed.

Lemma trie_remove_ok st m key :
  trie_repr st m -> key_ok key ->
  exists st', trie_remove st key = Some (st', m !! key_bits key) /\
    trie_repr st' (delete (key_bits key) m).
Proof.
  intros (t & Hinv & ->) Hkey. pose proof (trie_inv_arena _ _ Hinv) as Hok.
  pose proof Hinv as (Hroot & Hrep & Ht & Hc & Hp & Hl). unfold trie_remove.
  rewrite <- Hroot. destruct (idx t) as [r|] eqn:Er.
  - destruct (remove_at_spec depth_fuel st t [] None key r)
      as (st1 & t' & Eq & Hst & Ht' & Hc' & Hu & Hl' & _); try done.
    { unfold depth_fuel. simpl. lia. }
    rewrite Eq. simpl. eexists. split; [done|]. exists t'.
    rewrite (upd_delete _ _ _ Hu). split; [|done].
    apply (trie_inv_step st t st1); auto. rewrite (upd_delete _ _ _ Hu), Hl', Hl.
    destruct (tmap t !! key_bits key) eqn:Ek.
    + rewrite map_size_delete_Some by done. lia.
    + by rewrite map_size_delete_None.
  - destruct t; [|done]. eexists. split; [done|]. exists Leaf. simpl.
    by rewrite delete_empty.
Qed.

Lemma find_exact_ok st m key :
  trie_repr st m -> key_ok key ->
  (find_exact st key = Some None /\ m !! key_bits key = None) \/
  exists t j n, find_exact st key = Some (Some j) /\ trie_inv st t /\ m = tmap t /\
    focus st t [] (key_bits key) j n.
Proof.
  intros (t & Hinv & ->) Hkey. pose proof Hinv as (Hroot & Hrep & Ht & _).
  unfold find_exact. rewrite <- Hroot. destruct (idx t) as [r|] eqn:Er.
  - destruct (find_exact_loop_spec depth_fuel st t [] key r) as [[E Hn]|(j & n & E & Hf)];
      [done|done|done|done|unfold depth_fuel; simpl; lia|by left|].
    right. by exists t, j, n.
  - left. by destruct t.
Qed.

Lemma trie_get_ok st m key :
  trie_repr st m -> key_ok key -> trie_get st key = Some (m !! key_bits key).
Proof.
  intros Hr Hkey. unfold trie_get.
  destruct (find_exact_ok st m key Hr Hkey) as [[-> ->]|(t & j & n & -> & _ & -> & _ & Hn & Hv & _)];
    simpl; [done|]. unfold node. rewrite Hn. simpl. by rewrite Hv.
Qed.

(** Writing through [get_mut] changes the value of the key alone. *)
Lemma trie_update_ok st m key f :
  trie_repr st m -> key_ok key ->
  exists st', trie_update st key f = Some st' /\ trie_repr st' (alter f (key_bits key) m).
Proof.
  intros Hr Hkey. unfold trie_update.
  destruct (find_exact_ok st m key Hr Hkey)
    as [[-> Hn]|(t & j & n & -> & Hinv & -> & Hj & Hn & Hv & Hf)]; simpl.
  - exists st. split; [done|]. by rewrite alter_id by (intros ? Hx; rewrite Hn in Hx; done).
  - rewrite (update_node_Some _ _ _ _ Hn). eexists. split; [done|].
    destruct (tn_value n) as [x|] eqn:Ex; simpl.
    + destruct (Hf (f x)) as (t' & Hrep' & Hi' & Hx' & Ht' & Hc' & Hu); [done| |].
      { apply trie_inv_arena in Hinv as [Hnd _]. by apply NoDup_app in Hnd as (? & _). }
      assert (alter f (key_bits key) (tmap t) = tmap t') as ->.
      { rewrite (upd_insert _ _ _ _ Hu). apply map_eq. intros k.
        rewrite lookup_alter, lookup_insert. case_decide; [subst|done].
        by rewrite <- Hv. }
      exists t'. split; [|done]. destruct Hinv as (H1 & H2 & H3 & H4 & H5 & H6).
      split_and!; simpl; auto; [by rewrite Hx'|by rewrite Hi', length_insert|].
      rewrite (upd_insert _ _ _ _ Hu). by erewrite map_size_insert_Some.
    + exists t. split.
      * destruct st as [ns fr rt ln]. simpl in *. rewrite list_insert_id; [done|].
        rewrite Hn. f_equal. destruct n. simpl in *. by subst.
      * by rewrite alter_id by (intros ? Hx; rewrite <- Hv in Hx; done).
Qed.

(** The entries listed stand for the bindings of [m] whose key satisfies [P]. *)
Definition lists_map (res : list (K * V)) (P : list bool -> Prop)
    `{forall k, Decision (P k)} (m : gmap (list bool) V) : Prop :=
  ents res ≡ₚ map_to_list (filter (fun kv => P kv.1) m) /\
  Forall (fun e => key_ok e.1 /\ Q e.1) res.

Lemma lists_map_intro res (P : list bool -> Prop) `{forall k, Decision (P k)} m :
  (forall k x, (k, x) ∈ ents res <-> m !! k = Some x /\ P k) ->
  NoDup (ents res).*1 -> Forall (fun e => key_ok e.1 /\ Q e.1) res ->
  lists_map res P m.
Proof.
  intros Hin Hnd Hall. split; [|done]. apply NoDup_Permutation.
  - by eapply NoDup_fmap_1.
  - apply NoDup_map_to_list.
  - intros [k x]. rewrite elem_of_map_to_list, map_lookup_filter_Some. apply Hin.
Qed.

Lemma covering_ok st m key :
  trie_repr st m -> key_ok key ->
  exists res, covering st key = Some res /\
    lists_map res (fun k => k `prefix_of` key_bits key) m /\
    StronglySorted lt (map length (ents res).*1).
Proof.
  intros (t & Hinv & ->) Hkey. pose proof Hinv as (Hroot & Hrep & Ht & _).
  exists (tcov t key). unfold covering. rewrite <- Hroot.
  destruct (tcov_spec [] t key Ht Hkey) as (He & Hs & Ha). split_and!; [| |done].
  - destruct (idx t) as [r|] eqn:Er; [|by destruct t].
    rewrite (covering_loop_spec depth_fuel st t [] key r) by
      (done || unfold depth_fuel; simpl; lia). done.
  - apply lists_map_intro; [done| |done]. apply (NoDup_fmap_1 length).
    by apply strongly_sorted_lt_nodup.
Qed.

Lemma subtree_ok st m key :
  trie_repr st m -> key_ok key ->
  exists res, subtree st key = Some res /\
    lists_map res (fun k => key_bits key `prefix_of` k) m.
Proof.
  intros (t & Hinv & ->) Hkey. pose proof Hinv as (Hroot & Hrep & Ht & _ & Hp & _).
  destruct (tsub_spec [] t key Ht Hkey) as [[pre' Hw] Hs].
  destruct (entries_spec pre' _ Hw) as (He & Hn & Ha).
  exists (entries (tsub t key)). split.
  - unfold subtree. rewrite <- Hroot. destruct (idx t) as [r|] eqn:Er; [|by destruct t].
    rewrite (subtree_start_spec depth_fuel st t [] key r) by
      (done || unfold depth_fuel; simpl; lia). cbn [mbind option_bind].
    destruct (idx (tsub t key)) as [c|] eqn:Ec; [|by destruct (tsub t key)].
    unfold collect_all.
    pose proof (collect_loop_spec (length (nodes st)) st [tsub t key] []) as Hcol.
    simpl in Hcol. rewrite Ec in Hcol. simpl. rewrite Hcol, app_nil_r; [done|..].
    + repeat constructor. by apply tsub_rep.
    + rewrite app_nil_r. etrans; [apply tsub_size|].
      apply Permutation_length in Hp. rewrite length_app, length_seq in Hp. lia.
  - apply lists_map_intro; [|done|done]. intros k x. rewrite He, Hs. case_decide; naive_solver.
Qed.

(** A trie with [n] entries uses less than [2 n] arena slots. *)
Lemma compact_size t : compact t -> t <> Leaf -> (length (indices t) < 2 * length (entries t))%nat.
Proof.
  induction t as [|i p v l IHl r IHr]; [done|]. intros (Hl & Hr & Hv) _. simpl.
  rewrite !length_app.
  assert (forall c : tree, (compact c -> c <> Leaf -> (length (indices c) < 2 * length (entries c))%nat) ->
            compact c -> (length (indices c) <= 2 * length (entries c))%nat) as Hw.
  { intros [|j q w a b] Hc1 Hc2; [simpl; lia|]. apply Nat.lt_le_incl, Hc1; done. }
  pose proof (Hw l IHl Hl). pose proof (Hw r IHr Hr).
  destruct v; simpl; [lia|]. destruct Hv as [Hnl Hnr]; [done|].
  specialize (IHl Hl Hnl). specialize (IHr Hr Hnr). lia.
Qed.

Lemma trie_live_slots st m :
  trie_repr st m -> m <> ∅ ->
  (length (nodes st) - length (free_list st) < 2 * size m)%nat.
Proof.
  intros (t & (Hroot & Hrep & Ht & Hc & Hp & Hl) & ->) Hne.
  destruct (entries_spec [] t Ht) as (He & Hn & _).
  assert (size (tmap t) = length (entries t)) as ->.
  { rewrite <- length_map_to_list. replace (length (entries t)) with (length (ents (entries t)))
      by apply length_map.
    apply Permutation_length, NoDup_Permutation; [apply NoDup_map_to_list|by eapply NoDup_fmap_1|].
    intros [k x]. by rewrite elem_of_map_to_list, He. }
  apply Permutation_length in Hp. rewrite length_app, length_seq in Hp.
  assert (length (indices t) < 2 * length (entries t))%nat; [|lia].
  apply compact_size; [done|]. intros ->. by apply Hne.
Qed.
End spec.

(** Every trie of the code is specified for the keys in range; the maps that
    store canonical keys use [canonical_masked]. *)
Lemma canonical_masked {K} `{PrefixLaws K} (k : K) n :
  key_ok k -> 0 <= n <= prefix_len k -> canonical (masked k n).
Proof. apply masked_canonical. Qed.

(** ** Sequences of updates *)
Inductive trie_op (K V : Type) :=
  | OpInsert (key : K) (value : V)
  | OpRemove (key : K).
Arguments OpInsert {K V} key value.
Arguments OpRemove {K V} key.

Section run.
Context {K V : Type} `{PrefixLaws K}.

Definition op_key (o : trie_op K V) : K :=
  match o with OpInsert k _ | OpRemove k => k end.

(** The trie and the map, from the same operations; the outputs are the
    previous values. *)
Fixpoint run_trie (ops : list (trie_op K V)) (t : PrefixTrie K V)
    : option (PrefixTrie K V * list (option V)) :=
  match ops with
  | [] => Some (t, [])
  | o :: ops =>
      '(t, out) ← match o with
                  | OpInsert k v => trie_insert t k v
                  | OpRemove k => trie_remove t k
                  end;
      '(t, outs) ← run_trie ops t;
      Some (t, out :: outs)
  end.

Fixpoint run_map (ops : list (trie_op K V)) (m : gmap (list bool) V)
    : gmap (list bool) V * list (option V) :=
  match ops with
  | [] => (m, [])
  | o :: ops =>
      let k := key_bits (op_key o) in
      let m' := match o with OpInsert _ v => <[k := v]> m | OpRemove _ => delete k m end in
      let '(m'', outs) := run_map ops m' in
      (m'', m !! k :: outs)
  end.

Lemma run_trie_ok ops t m :
  trie_repr (fun _ => True) t m -> Forall (fun o => key_ok (op_key o)) ops ->
  exists t', run_trie ops t = Some (t', (run_map ops m).2) /\
    trie_repr (fun _ => True) t' (run_map ops m).1.
Proof.
  revert t m. induction ops as [|o ops IH]; intros t m Ht Hops; [by exists t|].
  apply Forall_cons in Hops as [Ho Hops].
  assert (exists t1, match o with
                     | OpInsert k v => trie_insert t k v
                     | OpRemove k => trie_remove t k
                     end = Some (t1, m !! key_bits (op_key o)) /\
    trie_repr (fun _ => True) t1
      (match o with OpInsert _ v => <[key_bits (op_key o) := v]> m
       | OpRemove _ => delete (key_bits (op_key o)) m end)) as (t1 & E1 & Ht1).
  { destruct o as [k v|k]; simpl in Ho |- *.
    - by apply trie_insert_ok.
    - by apply trie_remove_ok. }
  destruct (IH _ _ Ht1 Hops) as (t2 & E2 & Ht2).
  cbn [run_trie run_map]. rewrite E1. cbn [mbind option_bind]. rewrite E2.
  destruct (run_map ops _) as [m2 outs]. simpl in *. by exists t2.
Qed.
End run.

(** ** Properties *)

(** C1.  Whatever sequence of insertions and removals a trie went through, no
    operation panics or runs out of fuel, each returns the previous value of
    its key, and the trie answers [len] and exact lookups as the map built by
    the same operations does. *)
Theorem trie_refines_map {K V} `{PrefixLaws K} (ops : list (trie_op K V)) (q : K) :
  Forall (fun o => key_ok (op_key o)) ops -> key_ok q ->
  exists t, run_trie ops trie_new = Some (t, (run_map ops ∅).2) /\
    trie_len t = size (run_map ops ∅).1 /\
    trie_get t q = Some ((run_map ops ∅).1 !! key_bits q).
Proof.
  intros Hops Hq. destruct (run_trie_ok ops trie_new ∅) as (t & Hrun & Ht);
    [apply trie_repr_new|done|].
  exists t. split_and!; [done|by eapply trie_repr_len|].
  by apply (trie_get_ok (fun _ => True)).
Qed.

(**  [covering] lists exactly the stored prefixes that contain the query
    (with their values), the shortest prefix first. *)
Theorem covering_lists_supernets {K V} `{PrefixLaws K} (ops : list (trie_op K V)) (q : K) :
  Forall (fun o => key_ok (op_key o)) ops -> key_ok q ->
  exists t outs res, run_trie ops trie_new = Some (t, outs) /\
    covering t q = Some res /\
    ents res ≡ₚ map_to_list
      (filter (fun kv => kv.1 `prefix_of` key_bits q) (run_map ops ∅).1) /\
    StronglySorted lt (map length (ents res).*1).
Proof.
  intros Hops Hq. destruct (run_trie_ok ops trie_new ∅) as (t & Hrun & Ht);
    [apply trie_repr_new|done|].
  destruct (covering_ok _ t _ q Ht Hq) as (res & Hc & [Hl _] & Hs).
  by exists t, (run_map ops ∅).2, res.
Qed.

(**  [subtree] lists exactly the stored prefixes inside the query. *)
Theorem subtree_lists_subnets {K V} `{PrefixLaws K} (ops : list (trie_op K V)) (q : K) :
  Forall (fun o => key_ok (op_key o)) ops -> key_ok q ->
  exists t outs res, run_trie ops trie_new = Some (t, outs) /\
    subtree t q = Some res /\
    ents res ≡ₚ map_to_list
      (filter (fun kv => key_bits q `prefix_of` kv.1) (run_map ops ∅).1).
Proof.
  intros Hops Hq. destruct (run_trie_ok ops trie_new ∅) as (t & Hrun & Ht);
    [apply trie_repr_new|done|].
  destruct (subtree_ok _ t _ q Ht Hq) as (res & Hc & [Hl _]).
  by exists t, (run_map ops ∅).2, res.
Qed.

(** C31.  The arena does not leak: the slots that are not on the free list
    number fewer than twice the entries stored, whatever was removed. *)
Theorem trie_arena_bounded {K V} `{PrefixLaws K} (ops : list (trie_op K V)) :
  Forall (fun o => key_ok (op_key o)) ops -> (run_map ops ∅).1 <> ∅ ->
  exists t outs, run_trie ops trie_new = Some (t, outs) /\
    (length (nodes t) - length (free_list t) < 2 * trie_len t)%nat.
Proof.
  intros Hops Hne. destruct (run_trie_ok ops trie_new ∅) as (t & Hrun & Ht);
    [apply trie_repr_new|done|].
  exists t, (run_map ops ∅).2. split; [done|].
  rewrite (trie_repr_len _ _ _ Ht). by eapply trie_live_slots.
Qed.

(** ** Witnesses: 10/8, 10.1/16, 10.2/16, a removal and a reinsertion *)
Definition demo_ops : list (trie_op Ipv4Net Z) :=
  [OpInsert (mkV4 0x0A010000 16) 1; OpInsert (mkV4 0x0A020000 16) 2;
   OpInsert (mkV4 0x0A000000 8) 3; OpRemove (mkV4 0x0A010000 16);
   OpInsert (mkV4 0xC0A80000 16) 4].
Definition demo_query : Ipv4Net := mkV4 0x0A020300 24.

Ltac keys_in_range := repeat constructor; unfold u32, u128; simpl; lia.

Lemma trie_refines_map_witness :
  exists t, run_trie demo_ops trie_new = Some (t, (run_map demo_ops ∅).2) /\
    trie_len t = size (run_map demo_ops ∅).1 /\
    trie_get t demo_query = Some ((run_map demo_ops ∅).1 !! key_bits demo_query).
Proof. apply (trie_refines_map demo_ops demo_query); keys_in_range. Defined.

Lemma covering_lists_supernets_witness :
  exists t outs res, run_trie demo_ops trie_new = Some (t, outs) /\
    covering t demo_query = Some res /\
    ents res ≡ₚ map_to_list
      (filter (fun kv => kv.1 `prefix_of` key_bits demo_query) (run_map demo_ops ∅).1) /\
    StronglySorted lt (map length (ents res).*1).
Proof. apply (covering_lists_supernets demo_ops demo_query); keys_in_range. Defined.

Lemma subtree_lists_subnets_witness :
  exists t outs res, run_trie demo_ops trie_new = Some (t, outs) /\
    subtree t (mkV4 0x0A000000 7) = Some res /\
    ents res ≡ₚ map_to_list
      (filter (fun kv => key_bits (mkV4 0x0A000000 7) `prefix_of` kv.1) (run_map demo_ops ∅).1).
Proof. apply (subtree_lists_subnets demo_ops (mkV4 0x0A000000 7)); keys_in_range. Defined.

Lemma trie_arena_bounded_witness :
  exists t outs, run_trie demo_ops trie_new = Some (t, outs) /\
    (length (nodes t) - length (free_list t) < 2 * trie_len t)%nat.
Proof.
  apply (trie_arena_bounded demo_ops); [keys_in_range|].
  intros E%(f_equal size). vm_compute in E. discriminate E.
Defined.

(** The same trie, evaluated. *)
Example demo_covering :
  ('(t, _) ← run_trie demo_ops trie_new; covering t demo_query)
  = Some [(mkV4 0x0A000000 8, 3); (mkV4 0x0A020000 16, 2)].
Proof. vm_compute. reflexivity. Qed.
