(* ===== verification/PrefixMap.v ===== *)
(** * [PrefixMap]: a hash map and a trie kept in step
    ([bgpgg/src/table/prefix_map.rs])

    The hash map is a [gmap]; the code's iteration order over it is
    unspecified, so the results that come from an iteration are stated up to
    permutation.  [None] is a panic of the trie.  [pm_inv] is the invariant
    the module's comment announces ("HashMap + PrefixTrie kept in sync"); it
    holds for canonical keys, and the last lemma shows two prefixes with host
    bits that break it. *)
From S2P Require Import Prelude Net Trie TrieSpec.

Section prefix_map.
Context {K V : Type} `{PrefixLaws K} `{Countable K}.

Record PrefixMap := mkPM { pm_map : gmap K V; pm_trie : PrefixTrie K () }.

Definition pm_new : PrefixMap := mkPM ∅ trie_new.
Definition pm_len (m : PrefixMap) : nat := size (pm_map m).
Definition pm_is_empty (m : PrefixMap) : bool := (pm_len m =? 0)%nat.
Definition pm_get (m : PrefixMap) (key : K) : option V := pm_map m !! key.
Definition pm_contains_key (m : PrefixMap) (key : K) : bool :=
  bool_decide (is_Some (pm_map m !! key)).
Definition pm_values (m : PrefixMap) : list V := (map_to_list (pm_map m)).*2.
Definition pm_keys (m : PrefixMap) : list K := (map_to_list (pm_map m)).*1.
Definition pm_iter (m : PrefixMap) : list (K * V) := map_to_list (pm_map m).

(** Writes through [get_mut] and [values_mut]. *)
Definition pm_update (m : PrefixMap) (key : K) (f : V -> V) : PrefixMap :=
  mkPM (alter f key (pm_map m)) (pm_trie m).
Definition pm_update_values (m : PrefixMap) (f : V -> V) : PrefixMap :=
  mkPM (f <$> pm_map m) (pm_trie m).

Definition pm_insert (m : PrefixMap) (key : K) (value : V)
    : option (PrefixMap * option V) :=
  '(t, _) ← trie_insert (pm_trie m) key ();
  Some (mkPM (<[key := value]> (pm_map m)) t, pm_map m !! key).

(** [get_or_insert]: the value the returned reference points to. *)
Definition pm_get_or_insert (m : PrefixMap) (key : K) (value : V)
    : option (PrefixMap * V) :=
  match pm_map m !! key with
  | Some v => Some (m, v)
  | None =>
      '(t, _) ← trie_insert (pm_trie m) key ();
      Some (mkPM (<[key := value]> (pm_map m)) t, value)
  end.

Definition pm_remove (m : PrefixMap) (key : K) : option (PrefixMap * option V) :=
  match pm_map m !! key with
  | None => Some (m, None)
  | Some val =>
      '(t, _) ← trie_remove (pm_trie m) key;
      Some (mkPM (delete key (pm_map m)) t, Some val)
  end.

(** The second loop of [retain]. *)
Fixpoint pm_remove_all (m : PrefixMap) (to_remove : list K) : option PrefixMap :=
  match to_remove with
  | [] => Some m
  | key :: rest =>
      '(t, _) ← trie_remove (pm_trie m) key;
      pm_remove_all (mkPM (delete key (pm_map m)) t) rest
  end.

(** The predicate has mutable access to the values: it returns its verdict
    and the value it leaves. *)
Definition pm_retain (m : PrefixMap) (f : K -> V -> bool * V) : option PrefixMap :=
  let to_remove := (filter (fun kv => (f kv.1 kv.2).1 = false) (map_to_list (pm_map m))).*1 in
  let m := mkPM (map_imap (fun k v => Some (f k v).2) (pm_map m)) (pm_trie m) in
  pm_remove_all m to_remove.

Definition pm_subtree (m : PrefixMap) (key : K) : option (list K) :=
  res ← subtree (pm_trie m) key; Some res.*1.
Definition pm_covering (m : PrefixMap) (key : K) : option (list K) :=
  res ← covering (pm_trie m) key; Some res.*1.

(** ** The two structures in step *)
Definition key_set_of (m : gmap K V) (s : gmap (list bool) ()) : Prop :=
  forall b, is_Some (s !! b) <-> exists k, is_Some (m !! k) /\ key_bits k = b.

Definition pm_inv (m : PrefixMap) : Prop :=
  (forall k, is_Some (pm_map m !! k) -> key_ok k /\ canonical k) /\
  exists s, trie_repr canonical (pm_trie m) s /\ key_set_of (pm_map m) s.

Lemma pm_inv_new : pm_inv pm_new.
Proof.
  split; [by intros k [? ?]|]. exists ∅. split; [apply trie_repr_new|].
  intros b. split; [by intros [? ?]|]. by intros (k & [? ?] & _).
Qed.

Lemma key_set_insert m s k v :
  key_set_of m s -> key_set_of (<[k := v]> m) (<[key_bits k := ()]> s).
Proof.
  intros Hs b. rewrite lookup_insert_is_Some, (Hs b). split.
  - intros [<-|[Hne (k' & Hk' & <-)]].
    + exists k. by rewrite lookup_insert_eq.
    + exists k'. split; [|done]. rewrite lookup_insert_is_Some. right.
      split; [|done]. by intros ->.
  - intros (k' & Hk' & <-). apply lookup_insert_is_Some in Hk' as [->|[Hne Hk']]; [by left|].
    destruct (decide (key_bits k = key_bits k')); [by left|right; eauto].
Qed.

Lemma key_set_delete m s k :
  (forall k', is_Some (m !! k') -> key_ok k' /\ canonical k') ->
  key_ok k -> canonical k ->
  key_set_of m s -> key_set_of (delete k m) (delete (key_bits k) s).
Proof.
  intros Hm Hk Hc Hs b. rewrite lookup_delete_is_Some, (Hs b). split.
  - intros [Hne (k' & Hk' & <-)]. exists k'. split; [|done].
    apply lookup_delete_is_Some. split; [|done]. by intros ->.
  - intros (k' & [Hne Hk']%lookup_delete_is_Some & <-). split; [|eauto].
    intros Heq. destruct (Hm _ Hk') as [Hok' Hc'].
    by apply Hne, key_bits_inj.
Qed.

Lemma pm_inv_insert m s t k v :
  (forall k, is_Some (pm_map m !! k) -> key_ok k /\ canonical k) ->
  key_set_of (pm_map m) s -> key_ok k -> canonical k ->
  trie_repr canonical t (<[key_bits k := ()]> s) ->
  pm_inv (mkPM (<[k := v]> (pm_map m)) t).
Proof.
  intros Hm Hs Hk Hc Ht. split.
  - cbn. intros k' [<-|[_ Hk']]%lookup_insert_is_Some; [done|by apply Hm].
  - eexists. split; [done|]. by apply key_set_insert.
Qed.

Lemma pm_insert_ok m k v :
  pm_inv m -> key_ok k -> canonical k ->
  exists m', pm_insert m k v = Some (m', pm_map m !! k) /\ pm_inv m' /\
    pm_map m' = <[k := v]> (pm_map m).
Proof.
  intros [Hm (s & Ht & Hs)] Hk Hc. unfold pm_insert.
  destruct (trie_insert_ok canonical masked_canonical _ s k () Ht Hk Hc) as (t & -> & Ht').
  eexists. split_and!; [done| |done]. by eapply pm_inv_insert.
Qed.

Lemma pm_get_or_insert_ok m k v :
  pm_inv m -> key_ok k -> canonical k ->
  exists m', pm_get_or_insert m k v = Some (m', default v (pm_map m !! k)) /\ pm_inv m' /\
    pm_map m' = <[k := default v (pm_map m !! k)]> (pm_map m).
Proof.
  intros Hinv Hk Hc. pose proof Hinv as [Hm (s & Ht & Hs)]. unfold pm_get_or_insert.
  destruct (pm_map m !! k) as [x|] eqn:Ex; simpl.
  - exists m. split_and!; [done..|]. by rewrite insert_id.
  - destruct (trie_insert_ok canonical masked_canonical _ s k () Ht Hk Hc) as (t & -> & Ht').
    eexists. split_and!; [done| |done]. by eapply pm_inv_insert.
Qed.

Lemma pm_inv_delete m s k :
  (forall k, is_Some (pm_map m !! k) -> key_ok k /\ canonical k) ->
  trie_repr canonical (pm_trie m) s -> key_set_of (pm_map m) s ->
  key_ok k -> canonical k ->
  exists t, trie_remove (pm_trie m) k = Some (t, s !! key_bits k) /\
    pm_inv (mkPM (delete k (pm_map m)) t).
Proof.
  intros Hm Ht Hs Hk Hc.
  destruct (trie_remove_ok canonical masked_canonical _ s k Ht Hk) as (t & Et & Ht').
  exists t. split; [done|]. split.
  - cbn. intros k' [_ Hk']%lookup_delete_is_Some. by apply Hm.
  - eexists. split; [done|]. by apply key_set_delete.
Qed.

Lemma pm_remove_ok m k :
  pm_inv m ->
  exists m', pm_remove m k = Some (m', pm_map m !! k) /\ pm_inv m' /\
    pm_map m' = delete k (pm_map m).
Proof.
  intros Hinv. pose proof Hinv as [Hm (s & Ht & Hs)]. unfold pm_remove.
  destruct (pm_map m !! k) as [x|] eqn:Ex.
  - destruct (Hm k) as [Hk Hc]; [by eexists|].
    destruct (pm_inv_delete m s k) as (t & -> & Hinv'); [done..|].
    by eexists.
  - exists m. split_and!; [done..|]. by rewrite delete_id.
Qed.

Lemma foldr_delete_cons (m : gmap K V) k ks :
  foldr delete (delete k m) ks = foldr delete m (k :: ks).
Proof.
  cbn. induction ks as [|k' ks IH]; [done|]. cbn. by rewrite IH, delete_delete.
Qed.

Lemma pm_remove_all_ok m ks :
  pm_inv m -> Forall (fun k => key_ok k /\ canonical k) ks ->
  exists m', pm_remove_all m ks = Some m' /\ pm_inv m' /\
    pm_map m' = foldr delete (pm_map m) ks.
Proof.
  revert m. induction ks as [|k ks IH]; intros m Hinv Hks; [by exists m|].
  apply Forall_cons in Hks as [[Hk Hc] Hks].
  pose proof Hinv as [Hm (s & Ht & Hs)].
  destruct (pm_inv_delete m s k) as (t & Et & Hinv'); [done..|].
  destruct (IH _ Hinv' Hks) as (m' & E' & Hi' & Hm').
  exists m'. cbn [pm_remove_all]. rewrite Et. split_and!; [done..|].
  rewrite Hm'. apply foldr_delete_cons.
Qed.

Lemma pm_inv_dom m (n : gmap K V) :
  (forall k, is_Some (n !! k) <-> is_Some (pm_map m !! k)) ->
  pm_inv m -> pm_inv (mkPM n (pm_trie m)).
Proof.
  intros Hdom [Hm (s & Ht & Hs)]. split; cbn.
  - intros k Hk%Hdom. by apply Hm.
  - exists s. split; [done|]. intros b. rewrite (Hs b). by setoid_rewrite Hdom.
Qed.

(** The keys [retain] collects, and what is left without them. *)
Lemma retain_keys (m : gmap K V) (f : K -> V -> bool * V) k :
  k ∈ (filter (fun kv => (f kv.1 kv.2).1 = false) (map_to_list m)).*1 <->
  exists v, m !! k = Some v /\ (f k v).1 = false.
Proof.
  rewrite list_elem_of_fmap. split.
  - intros ([k' v] & -> & [Hf Hin]%list_elem_of_filter). apply elem_of_map_to_list in Hin. eauto.
  - intros (v & Hv & Hf). exists (k, v). split; [done|].
    apply list_elem_of_filter. by rewrite elem_of_map_to_list.
Qed.

Lemma retain_map (m : gmap K V) (f : K -> V -> bool * V) :
  foldr delete (map_imap (fun k v => Some (f k v).2) m)
    (filter (fun kv => (f kv.1 kv.2).1 = false) (map_to_list m)).*1 =
  map_imap (fun k v => if (f k v).1 then Some (f k v).2 else None) m.
Proof.
  apply map_eq. intros k. rewrite map_lookup_imap.
  destruct (decide (k ∈ (filter (fun kv => (f kv.1 kv.2).1 = false) (map_to_list m)).*1)) as [Hin|Hin].
  - rewrite lookup_foldr_delete by done. apply retain_keys in Hin as (v & -> & Hf). simpl. by rewrite Hf.
  - rewrite lookup_foldr_delete_not_elem_of, map_lookup_imap by done.
    destruct (m !! k) as [v|] eqn:Ev; [|done]. simpl.
    destruct (f k v).1 eqn:Ef; [done|]. destruct Hin. apply retain_keys. eauto.
Qed.

Lemma imap_dom (m : gmap K V) (f : K -> V -> V) k :
  is_Some (map_imap (fun k v => Some (f k v)) m !! k) <-> is_Some (m !! k).
Proof. rewrite map_lookup_imap. by destruct (m !! k). Qed.

(** [retain] keeps the bindings its predicate accepts, with the values the
    predicate leaves. *)
Lemma pm_retain_ok m f :
  pm_inv m ->
  exists m', pm_retain m f = Some m' /\ pm_inv m' /\
    pm_map m' = map_imap (fun k v => if (f k v).1 then Some (f k v).2 else None) (pm_map m).
Proof.
  intros Hinv. unfold pm_retain.
  destruct (pm_remove_all_ok (mkPM (map_imap (fun k v => Some (f k v).2) (pm_map m)) (pm_trie m))
    (filter (fun kv => (f kv.1 kv.2).1 = false) (map_to_list (pm_map m))).*1) as (m' & E & Hi & Hm).
  { apply pm_inv_dom; [|done]. intros k. apply imap_dom. }
  { apply Forall_forall. intros k (v & Hv & _)%retain_keys. apply Hinv. by eexists. }
  exists m'. split_and!; [done..|]. rewrite Hm. apply retain_map.
Qed.

(** ** Without canonical keys

    Prefixes from the network may have host bits, so a table can hold keys
    that are not canonical; the trie then still answers without a panic, and
    the map is the map. *)
Definition pm_safe (m : PrefixMap) : Prop :=
  (forall k, is_Some (pm_map m !! k) -> key_ok k) /\
  exists s, trie_repr (fun _ => True) (pm_trie m) s.

Lemma pm_safe_new : pm_safe pm_new.
Proof. split; [by intros k [? ?]|]. exists ∅. apply trie_repr_new. Qed.

Lemma pm_safe_dom m (n : gmap K V) :
  (forall k, is_Some (n !! k) -> is_Some (pm_map m !! k)) ->
  pm_safe m -> pm_safe (mkPM n (pm_trie m)).
Proof. intros Hn [Hm Ht]. split; [|done]. cbn. auto. Qed.

Lemma pm_safe_insert m t k v s :
  pm_safe m -> key_ok k -> trie_repr (fun _ => True) t s ->
  pm_safe (mkPM (<[k := v]> (pm_map m)) t).
Proof.
  intros [Hm _] Hk Ht. split; [|by eexists]. cbn.
  by intros k' [<-|[_ Hk']]%lookup_insert_is_Some; [|apply Hm].
Qed.

Lemma pm_get_or_insert_safe m k v :
  pm_safe m -> key_ok k ->
  exists m', pm_get_or_insert m k v = Some (m', default v (pm_map m !! k)) /\ pm_safe m' /\
    pm_map m' = <[k := default v (pm_map m !! k)]> (pm_map m).
Proof.
  intros Hs Hk. unfold pm_get_or_insert. destruct (pm_map m !! k) as [x|] eqn:Ex; simpl.
  - exists m. split_and!; [done..|]. by rewrite insert_id.
  - destruct Hs as [Hm [s Ht]].
    destruct (trie_insert_ok (fun _ => True) ltac:(done) _ s k () Ht Hk I) as (t & -> & Ht').
    eexists. split_and!; [done| |done]. eapply pm_safe_insert; [by split; [|eexists]|done..].
Qed.

Lemma pm_remove_safe m k :
  pm_safe m ->
  exists m', pm_remove m k = Some (m', pm_map m !! k) /\ pm_safe m' /\
    pm_map m' = delete k (pm_map m).
Proof.
  intros [Hm [s Ht]]. unfold pm_remove. destruct (pm_map m !! k) as [x|] eqn:Ex.
  - assert (key_ok k) as Hk by (apply Hm; by eexists).
    destruct (trie_remove_ok (fun _ => True) ltac:(done) _ s k Ht Hk) as (t & -> & Ht').
    eexists. split_and!; [done| |done]. split; [|by eexists]. cbn.
    intros k' [_ Hk']%lookup_delete_is_Some. by apply Hm.
  - exists m. split_and!; [done|by split; [|eexists]|]. by rewrite delete_id.
Qed.

Lemma pm_remove_all_safe m ks :
  pm_safe m -> Forall key_ok ks ->
  exists m', pm_remove_all m ks = Some m' /\ pm_safe m' /\
    pm_map m' = foldr delete (pm_map m) ks.
Proof.
  revert m. induction ks as [|k ks IH]; intros m Hs Hks; [by exists m|].
  apply Forall_cons in Hks as [Hk Hks]. pose proof Hs as [Hm [s Ht]].
  destruct (trie_remove_ok (fun _ => True) ltac:(done) _ s k Ht Hk) as (t & Et & Ht').
  destruct (IH (mkPM (delete k (pm_map m)) t)) as (m' & E' & Hs' & Hm').
  { split; [|by eexists]. cbn. intros k' [_ Hk']%lookup_delete_is_Some. by apply Hm. }
  { done. }
  exists m'. cbn [pm_remove_all]. rewrite Et. split_and!; [done..|].
  rewrite Hm'. apply foldr_delete_cons.
Qed.

Lemma pm_retain_safe m f :
  pm_safe m ->
  exists m', pm_retain m f = Some m' /\ pm_safe m' /\
    pm_map m' = map_imap (fun k v => if (f k v).1 then Some (f k v).2 else None) (pm_map m).
Proof.
  intros Hs. unfold pm_retain.
  destruct (pm_remove_all_safe (mkPM (map_imap (fun k v => Some (f k v).2) (pm_map m)) (pm_trie m))
    (filter (fun kv => (f kv.1 kv.2).1 = false) (map_to_list (pm_map m))).*1) as (m' & E & Hi & Hm).
  { apply pm_safe_dom; [|done]. intros k. by rewrite imap_dom. }
  { apply Forall_forall. intros k (v & Hv & _)%retain_keys. apply Hs. by eexists. }
  exists m'. split_and!; [done..|]. rewrite Hm. apply retain_map.
Qed.

(** The keys listed by a traversal of the trie are keys of the map. *)
Lemma lists_map_keys m s res (P : list bool -> Prop) `{forall b, Decision (P b)} :
  pm_inv m -> key_set_of (pm_map m) s -> lists_map canonical res P s ->
  NoDup res.*1 /\ forall k, k ∈ res.*1 <-> is_Some (pm_map m !! k) /\ P (key_bits k).
Proof.
  intros [Hm _] Hs [Hp Hall].
  assert (forall b, b ∈ (ents res).*1 <-> is_Some (s !! b) /\ P b) as Hin.
  { intros b. rewrite Hp, list_elem_of_fmap. split.
    - intros ([b' []] & -> & Hb). apply elem_of_map_to_list in Hb.
      apply map_lookup_filter_Some in Hb as [Hb HP]. by split; [eexists|].
    - intros [[[] Hb] HP]. exists (b, ()). split; [done|].
      by apply elem_of_map_to_list, map_lookup_filter_Some. }
  assert (forall k, k ∈ res.*1 -> key_ok k /\ canonical k) as Hok.
  { intros k (e & -> & He)%list_elem_of_fmap. rewrite Forall_forall in Hall. by apply Hall. }
  assert ((ents res).*1 = key_bits <$> res.*1) as Hfst.
  { clear. induction res as [|[k []] res IH]; [done|]. cbn. f_equal. exact IH. }
  split.
  - apply (NoDup_fmap_1 key_bits). rewrite <- Hfst, Hp. apply NoDup_fst_map_to_list.
  - intros k. split.
    + intros Hk. pose proof (Hok k Hk) as [Hkok Hkc].
      assert (key_bits k ∈ (ents res).*1) as [Hsk HP]%Hin
        by (rewrite Hfst; by apply list_elem_of_fmap_2).
      split; [|done]. apply Hs in Hsk as (k' & Hk' & Heq).
      destruct (Hm _ Hk') as [Hok' Hc'].
      assert (k = k') as ->; [|done]. by apply key_bits_inj.
    + intros [Hk HP]. destruct (Hm _ Hk) as [Hkok Hkc].
      assert (key_bits k ∈ (ents res).*1) as Hb by (apply Hin; split; [apply Hs; eauto|done]).
      rewrite Hfst in Hb. apply list_elem_of_fmap in Hb as (k' & Heq & Hk').
      destruct (Hok _ Hk'). assert (k = k') as ->; [|done]. by apply key_bits_inj.
Qed.

Lemma pm_subtree_ok m q :
  pm_inv m -> key_ok q ->
  exists res, pm_subtree m q = Some res /\ NoDup res /\
    forall k, k ∈ res <-> is_Some (pm_map m !! k) /\ key_bits q `prefix_of` key_bits k.
Proof.
  intros Hinv Hq. pose proof Hinv as [_ (s & Ht & Hs)]. unfold pm_subtree.
  destruct (subtree_ok canonical _ s q Ht Hq) as (res & -> & Hl).
  exists res.*1. split; [done|]. exact (lists_map_keys m s res _ Hinv Hs Hl).
Qed.

Lemma pm_covering_ok m q :
  pm_inv m -> key_ok q ->
  exists res, pm_covering m q = Some res /\ NoDup res /\
    forall k, k ∈ res <-> is_Some (pm_map m !! k) /\ key_bits k `prefix_of` key_bits q.
Proof.
  intros Hinv Hq. pose proof Hinv as [_ (s & Ht & Hs)]. unfold pm_covering.
  destruct (covering_ok canonical _ s q Ht Hq) as (res & -> & Hl & _).
  exists res.*1. split; [done|]. exact (lists_map_keys m s res _ Hinv Hs Hl).
Qed.

Lemma pm_inv_values m (g : V -> V) : pm_inv m -> pm_inv (pm_update_values m g).
Proof. apply pm_inv_dom. intros k. by rewrite lookup_fmap, fmap_is_Some. Qed.

Lemma pm_inv_update m k (g : V -> V) : pm_inv m -> pm_inv (pm_update m k g).
Proof. apply pm_inv_dom. intros k'. apply lookup_alter_is_Some. Qed.

(** ** Sequences of updates *)
Inductive pm_op :=
  | PmInsert (key : K) (value : V)
  | PmGetOrInsert (key : K) (value : V)
  | PmUpdate (key : K) (f : V -> V)
  | PmRemove (key : K)
  | PmRetain (f : K -> V -> bool * V).

Definition pm_op_ok (o : pm_op) : Prop :=
  match o with
  | PmInsert k _ | PmGetOrInsert k _ => key_ok k /\ canonical k
  | _ => True
  end.

Definition pm_step (o : pm_op) (m : PrefixMap) : option PrefixMap :=
  match o with
  | PmInsert k v => fst <$> pm_insert m k v
  | PmGetOrInsert k v => fst <$> pm_get_or_insert m k v
  | PmUpdate k f => Some (pm_update m k f)
  | PmRemove k => fst <$> pm_remove m k
  | PmRetain f => pm_retain m f
  end.

Definition map_step (o : pm_op) (m : gmap K V) : gmap K V :=
  match o with
  | PmInsert k v => <[k := v]> m
  | PmGetOrInsert k v => <[k := default v (m !! k)]> m
  | PmUpdate k f => alter f k m
  | PmRemove k => delete k m
  | PmRetain f => map_imap (fun k v => if (f k v).1 then Some (f k v).2 else None) m
  end.

Fixpoint pm_run (ops : list pm_op) (m : PrefixMap) : option PrefixMap :=
  match ops with
  | [] => Some m
  | o :: ops => m ← pm_step o m; pm_run ops m
  end.

Lemma pm_step_ok o m :
  pm_inv m -> pm_op_ok o ->
  exists m', pm_step o m = Some m' /\ pm_inv m' /\ pm_map m' = map_step o (pm_map m).
Proof.
  intros Hinv Ho. destruct o as [k v|k v|k f|k|f]; simpl in *.
  - destruct Ho, (pm_insert_ok m k v) as (m' & -> & ? & ?); by eauto.
  - destruct Ho, (pm_get_or_insert_ok m k v) as (m' & -> & ? & ?); by eauto.
  - eexists. split_and!; [done|by apply pm_inv_update|done].
  - destruct (pm_remove_ok m k) as (m' & -> & ? & ?); by eauto.
  - by apply pm_retain_ok.
Qed.

Lemma pm_run_ok ops m :
  pm_inv m -> Forall pm_op_ok ops ->
  exists m', pm_run ops m = Some m' /\ pm_inv m' /\
    pm_map m' = fold_left (fun m o => map_step o m) ops (pm_map m).
Proof.
  revert m. induction ops as [|o ops IH]; intros m Hinv Hops; [by exists m|].
  apply Forall_cons in Hops as [Ho Hops].
  destruct (pm_step_ok o m Hinv Ho) as (m1 & E1 & Hi1 & Hm1).
  destruct (IH m1 Hi1 Hops) as (m2 & E2 & Hi2 & Hm2).
  exists m2. cbn [pm_run]. rewrite E1. by rewrite Hm2, Hm1.
Qed.
End prefix_map.
Arguments PrefixMap K V {_ _}.
Arguments pm_op K V : clear implicits.

(** ** Properties *)

(**  After any sequence of operations on canonical keys the trie has not
    panicked, the hash map holds what a map given the same operations holds,
    and [subtree] and [covering] list, without repetition, exactly the map's
    keys that lie inside, respectively contain, the query. *)
Theorem prefix_map_in_sync {K V} `{PrefixLaws K} `{Countable K} (ops : list (pm_op K V)) (q : K) :
  Forall pm_op_ok ops -> key_ok q ->
  let m := fold_left (fun m o => map_step o m) ops ∅ in
  exists pm sub cov, pm_run ops pm_new = Some pm /\ pm_map pm = m /\
    pm_subtree pm q = Some sub /\ NoDup sub /\
    (forall k, k ∈ sub <-> is_Some (m !! k) /\ key_bits q `prefix_of` key_bits k) /\
    pm_covering pm q = Some cov /\ NoDup cov /\
    (forall k, k ∈ cov <-> is_Some (m !! k) /\ key_bits k `prefix_of` key_bits q).
Proof.
  intros Hops Hq m. destruct (pm_run_ok ops pm_new pm_inv_new Hops) as (pm & E & Hi & Hm).
  destruct (pm_subtree_ok pm q Hi Hq) as (sub & Es & Hns & Hs).
  destruct (pm_covering_ok pm q Hi Hq) as (cov & Ec & Hnc & Hc).
  exists pm, sub, cov. rewrite Hm in Hs, Hc. by split_and!.
Qed.

Definition pm_demo_ops : list (pm_op Ipv4Net Z) :=
  [PmInsert (mkV4 0x0A000000 8) 1; PmGetOrInsert (mkV4 0x0A010000 16) 2;
   PmInsert (mkV4 0xC0A80000 16) 3; PmUpdate (mkV4 0x0A000000 8) (Z.add 10);
   PmRetain (fun k v => (2 <? v, v)); PmRemove (mkV4 0xC0A80000 16)].

Lemma prefix_map_in_sync_witness :
  let q := mkV4 0x0A010200 24 in
  let m := fold_left (fun m o => map_step o m) pm_demo_ops ∅ in
  exists pm sub cov, pm_run pm_demo_ops pm_new = Some pm /\ pm_map pm = m /\
    pm_subtree pm q = Some sub /\ NoDup sub /\
    (forall k, k ∈ sub <-> is_Some (m !! k) /\ key_bits q `prefix_of` key_bits k) /\
    pm_covering pm q = Some cov /\ NoDup cov /\
    (forall k, k ∈ cov <-> is_Some (m !! k) /\ key_bits k `prefix_of` key_bits q).
Proof.
  intros q. apply (prefix_map_in_sync pm_demo_ops q).
  - repeat constructor; first [vm_compute; reflexivity|unfold u32; simpl; lia].
  - constructor; unfold u32; simpl; lia.
Defined.

Example pm_demo :
  (pm ← pm_run pm_demo_ops pm_new; cov ← pm_covering pm (mkV4 0x0A010200 24);
   Some (map_to_list (pm_map pm), cov))
  = Some ([(mkV4 0x0A000000 8, 11)], [mkV4 0x0A000000 8]).
Proof. vm_compute. reflexivity. Qed.

(** Prefixes that differ only in their host bits are different keys of the
    hash map and the same node of the trie: after both are stored and one is
    removed, the other is still in the map and no longer in the trie. *)
Lemma host_bits_break_sync :
  (pm ← pm_run [PmInsert (mkV4 0x0A000001 8) 1; PmInsert (mkV4 0x0A000000 8) 2;
                PmRemove (mkV4 0x0A000000 8)] pm_new;
   sub ← pm_subtree pm (mkV4 0 0);
   Some (pm_get pm (mkV4 0x0A000001 8), sub)) = Some (Some 1, []).
Proof. vm_compute. reflexivity. Qed.
