(* ===== verification/Vrp.v ===== *)
(** * RPKI: the table of validated ROA payloads and origin validation
    ([bgpgg/src/rpki/vrp.rs])

    A table is a pair of tries from prefixes to lists of VRPs; [None] is a
    panic of the trie.  Its abstraction is the finite set of VRPs added and
    not removed since, and [validate] is compared with RFC 6811's outcome on
    that set. *)
From S2P Require Import Prelude Net Trie TrieSpec.

Record Vrp := mkVrp { vrp_prefix : IpNetwork; max_length : Z; origin_as : Z }.

#[export] Instance Vrp_eq_dec : EqDecision Vrp.
Proof. solve_decision. Defined.
#[export] Instance Vrp_countable : Countable Vrp.
Proof.
  apply (inj_countable' (fun v => (vrp_prefix v, max_length v, origin_as v))
    (fun t => mkVrp t.1.1 t.1.2 t.2)).
  by intros [].
Defined.

Definition vrp_covers (v : Vrp) (route_prefix_len origin : Z) : bool :=
  (route_prefix_len <=? max_length v) && negb (origin_as v =? 0) && (origin =? origin_as v).

Inductive RpkiValidation := Valid | Invalid | NotFound.

#[export] Instance RpkiValidation_eq_dec : EqDecision RpkiValidation.
Proof. solve_decision. Defined.

Definition rpki_to_u8 (s : RpkiValidation) : Z :=
  match s with Valid => 0 | NotFound => 1 | Invalid => 2 end.

(** ** One family's trie *)
Section entry.
Context {K : Type} `{PrefixLaws K}.

Definition add_entry (trie : PrefixTrie K (list Vrp)) (key : K) (vrp : Vrp)
    : option (PrefixTrie K (list Vrp)) :=
  entry ← trie_get trie key;
  match entry with
  | Some vrps =>
      if bool_decide (vrp ∈ vrps) then Some trie
      else trie_update trie key (fun vrps => vrps ++ [vrp])
  | None => '(trie, _) ← trie_insert trie key [vrp]; Some trie
  end.

Definition remove_entry (trie : PrefixTrie K (list Vrp)) (key : K) (vrp : Vrp)
    : option (PrefixTrie K (list Vrp)) :=
  entry ← trie_get trie key;
  match entry with
  | Some vrps =>
      let vrps := filter (fun existing => existing <> vrp) vrps in
      trie ← trie_update trie key (fun _ => vrps);
      match vrps with
      | [] => '(trie, _) ← trie_remove trie key; Some trie
      | _ => Some trie
      end
  | None => Some trie
  end.
End entry.

(** ** The table *)
Record VrpTable := mkVrpTable
  { vt_ipv4 : PrefixTrie Ipv4Net (list Vrp); vt_ipv6 : PrefixTrie Ipv6Net (list Vrp) }.

Definition vrp_new : VrpTable := mkVrpTable trie_new trie_new.

Fixpoint vrp_add (t : VrpTable) (vrps : list Vrp) : option VrpTable :=
  match vrps with
  | [] => Some t
  | vrp :: rest =>
      t ← match vrp_prefix vrp with
          | V4 net => i4 ← add_entry (vt_ipv4 t) net vrp; Some (mkVrpTable i4 (vt_ipv6 t))
          | V6 net => i6 ← add_entry (vt_ipv6 t) net vrp; Some (mkVrpTable (vt_ipv4 t) i6)
          end;
      vrp_add t rest
  end.

Fixpoint vrp_remove (t : VrpTable) (vrps : list Vrp) : option VrpTable :=
  match vrps with
  | [] => Some t
  | vrp :: rest =>
      t ← match vrp_prefix vrp with
          | V4 net => i4 ← remove_entry (vt_ipv4 t) net vrp; Some (mkVrpTable i4 (vt_ipv6 t))
          | V6 net => i6 ← remove_entry (vt_ipv6 t) net vrp; Some (mkVrpTable (vt_ipv4 t) i6)
          end;
      vrp_remove t rest
  end.

Definition covering_vrps (t : VrpTable) (prefix : IpNetwork) : option (list Vrp) :=
  match prefix with
  | V4 net => res ← covering (vt_ipv4 t) net; Some (concat res.*2)
  | V6 net => res ← covering (vt_ipv6 t) net; Some (concat res.*2)
  end.

Definition validate (t : VrpTable) (prefix : IpNetwork) (origin : Z) : option RpkiValidation :=
  if origin =? 0 then Some NotFound
  else
    cov ← covering_vrps t prefix;
    match cov with
    | [] => Some NotFound
    | _ =>
        let route_prefix_len := network_prefix_len prefix in
        if existsb (fun vrp => vrp_covers vrp route_prefix_len origin) cov
        then Some Valid else Some Invalid
    end.

Definition vrp_len (t : VrpTable) : nat := (trie_len (vt_ipv4 t) + trie_len (vt_ipv6 t))%nat.
Definition vrp_is_empty (t : VrpTable) : bool :=
  trie_is_empty (vt_ipv4 t) && trie_is_empty (vt_ipv6 t).

(** ** What a trie of VRP lists holds *)
Section holds.
Context {K : Type} `{PrefixLaws K} (wrap : K -> IpNetwork).
Hypothesis wrap_inj : Inj eq eq wrap.

Implicit Types (t : PrefixTrie K (list Vrp)) (S : gset Vrp) (b : list bool).

Definition at_node b (v : Vrp) : Prop :=
  exists k, key_ok k /\ vrp_prefix v = wrap k /\ key_bits k = b.

Definition slot_ok S b (o : option (list Vrp)) : Prop :=
  o <> Some [] /\ forall v, v ∈ default [] o <-> v ∈ S /\ at_node b v.

Definition holds t S : Prop :=
  exists m, trie_repr (fun _ => True) t m /\ forall b, slot_ok S b (m !! b).

Lemma at_node_fun b b' v : at_node b v -> at_node b' v -> b = b'.
Proof. intros (k & _ & E & <-) (k' & _ & E' & <-). f_equal. apply wrap_inj. congruence. Qed.

Lemma holds_new : holds trie_new ∅.
Proof.
  exists ∅. split; [apply trie_repr_new|]. intros b. rewrite lookup_empty. split; [done|].
  set_solver.
Qed.

(** Changing the set at one VRP touches only its node. *)
Lemma slot_ok_other S S' b b' v o :
  at_node b v -> b' <> b -> (forall x, x <> v -> x ∈ S' <-> x ∈ S) ->
  slot_ok S b' o -> slot_ok S' b' o.
Proof.
  intros Hv Hne HS [Ho Hin]. split; [done|]. intros x. rewrite (Hin x).
  destruct (decide (x = v)) as [->|Hx]; [|by rewrite HS].
  split; intros [_ Hx]; by destruct Hne; eapply at_node_fun.
Qed.

Lemma add_entry_ok t S k v :
  holds t S -> key_ok k -> vrp_prefix v = wrap k ->
  exists t', add_entry t k v = Some t' /\ holds t' ({[v]} ∪ S).
Proof.
  intros (m & Ht & Hm) Hk Hv. unfold add_entry.
  assert (at_node (key_bits k) v) as Hat by by exists k.
  rewrite (trie_get_ok (fun _ => True) ltac:(done) _ _ _ Ht Hk). cbn [mbind option_bind].
  pose proof (Hm (key_bits k)) as [Hne Hin].
  assert (forall (m' : gmap (list bool) (list Vrp)) l, m' = <[key_bits k := l]> m -> l <> [] ->
    (forall x, x ∈ l <-> x = v \/ x ∈ default [] (m !! key_bits k)) ->
    forall b, slot_ok ({[v]} ∪ S) b (m' !! b)) as Hset.
  { intros m' l -> Hl Hx b. destruct (decide (b = key_bits k)) as [->|Hb].
    - rewrite lookup_insert_eq. split; [congruence|]. intros x. simpl. rewrite Hx, Hin. set_solver.
    - rewrite lookup_insert_ne by done. eapply slot_ok_other; [done..| |done]. set_solver. }
  destruct (m !! key_bits k) as [l|] eqn:El; simpl in Hin.
  - destruct (bool_decide_reflect (v ∈ l)) as [Hvl|Hvl].
    + exists t. split; [done|]. exists m. split; [done|]. apply (Hset m l); [by rewrite insert_id| |set_solver].
      congruence.
    + destruct (trie_update_ok (fun _ => True) ltac:(done) _ _ k (fun l => l ++ [v]) Ht Hk)
        as (t' & -> & Ht').
      exists t'. split; [done|]. eexists. split; [done|].
      apply (Hset _ (l ++ [v])); [|by destruct l|set_solver].
      apply map_eq. intros b. destruct (decide (b = key_bits k)) as [->|Hb].
      * by rewrite lookup_alter_eq, El, lookup_insert_eq.
      * by rewrite lookup_alter_ne, lookup_insert_ne.
  - destruct (trie_insert_ok (fun _ => True) ltac:(done) _ _ k [v] Ht Hk I) as (t' & -> & Ht').
    exists t'. split; [done|]. eexists. split; [done|]. eapply Hset; [done..|set_solver].
Qed.

Lemma remove_entry_ok t S k v :
  holds t S -> key_ok k -> vrp_prefix v = wrap k ->
  exists t', remove_entry t k v = Some t' /\ holds t' (S ∖ {[v]}).
Proof.
  intros (m & Ht & Hm) Hk Hv. unfold remove_entry.
  assert (at_node (key_bits k) v) as Hat by by exists k.
  rewrite (trie_get_ok (fun _ => True) ltac:(done) _ _ _ Ht Hk). cbn [mbind option_bind].
  pose proof (Hm (key_bits k)) as [Hne Hin].
  assert (forall (m' : gmap (list bool) (list Vrp)) o, (forall b, m' !! b = if decide (b = key_bits k) then o else m !! b) ->
    o <> Some [] -> (forall x, x ∈ default [] o <-> x <> v /\ x ∈ default [] (m !! key_bits k)) ->
    forall b, slot_ok (S ∖ {[v]}) b (m' !! b)) as Hset.
  { intros m' o Hm' Ho Hx b. rewrite Hm'. destruct (decide (b = key_bits k)) as [->|Hb].
    - split; [done|]. intros x. rewrite Hx, Hin. set_solver.
    - eapply slot_ok_other; [done..| |done]. set_solver. }
  destruct (m !! key_bits k) as [l|] eqn:El; simpl in Hin.
  - destruct (trie_update_ok (fun _ => True) ltac:(done) _ _ k
      (fun _ => filter (fun x => x <> v) l) Ht Hk) as (t1 & -> & Ht1). cbn [mbind option_bind].
    remember (filter (fun x => x <> v) l) as l' eqn:Efl.
    assert (forall x, x ∈ l' <-> x <> v /\ x ∈ l) as Hl'
      by (intros x; by rewrite Efl, list_elem_of_filter).
    destruct l' as [|y l'].
    + destruct (trie_remove_ok (fun _ => True) ltac:(done) _ _ k Ht1 Hk) as (t2 & -> & Ht2).
      exists t2. split; [done|]. eexists. split; [done|].
      apply (Hset _ None); [|done..]. intros b. case_decide as Hb; [subst; by rewrite lookup_delete_eq|].
      by rewrite lookup_delete_ne, lookup_alter_ne.
    + exists t1. split; [done|]. eexists. split; [done|].
      apply (Hset _ (Some (y :: l'))); [|done..].
      intros b. case_decide as Hb; [subst; by rewrite lookup_alter_eq, El|].
      by rewrite lookup_alter_ne.
  - exists t. split; [done|]. exists m. split; [done|].
    apply (Hset _ None); [|done|set_solver]. intros b. case_decide; by subst.
Qed.

Lemma covering_holds t S q :
  holds t S -> key_ok q -> exists res, covering t q = Some res /\
    forall v, v ∈ concat res.*2 <->
      v ∈ S /\ exists k, key_ok k /\ vrp_prefix v = wrap k /\ key_bits k `prefix_of` key_bits q.
Proof.
  intros (m & Ht & Hm) Hq.
  destruct (covering_ok _ t m q Ht Hq) as (res & Hc & [Hl _] & _).
  exists res. split; [done|]. intros v.
  assert (v ∈ concat res.*2 <-> exists b l, m !! b = Some l /\ b `prefix_of` key_bits q /\ v ∈ l)
    as ->.
  { rewrite list_elem_of_In, in_concat; setoid_rewrite <- list_elem_of_In. split.
    - intros (l & ([k l'] & -> & Hin)%list_elem_of_fmap & Hv).
      assert ((key_bits k, l') ∈ ents res) as Hb
        by (apply list_elem_of_fmap; by exists (k, l')).
      rewrite Hl in Hb. apply elem_of_map_to_list, map_lookup_filter_Some in Hb as [Hb Hp].
      by exists (key_bits k), l'.
    - intros (b & l & Hb & Hp & Hv).
      assert ((b, l) ∈ ents res) as Hin.
      { rewrite Hl. by apply elem_of_map_to_list, map_lookup_filter_Some. }
      apply list_elem_of_fmap in Hin as ([k l'] & [= -> ->] & Hin).
      exists l'. split; [|done]. apply list_elem_of_fmap. by exists (k, l'). }
  split.
  - intros (b & l & Hb & Hp & Hv). pose proof (Hm b) as [_ Hin]. rewrite Hb in Hin.
    apply Hin in Hv as [HS (k & Hk & E & <-)]. eauto 6.
  - intros [HS (k & Hk & E & Hp)]. pose proof (Hm (key_bits k)) as [_ Hin].
    assert (v ∈ default [] (m !! key_bits k)) as Hv by (apply Hin; split; [done|by exists k]).
    destruct (m !! key_bits k) as [l|] eqn:El; [|set_solver]. eauto.
Qed.
End holds.

#[export] Instance V4_inj : Inj eq eq V4.
Proof. by intros ?? [=]. Qed.
#[export] Instance V6_inj : Inj eq eq V6.
Proof. by intros ?? [=]. Qed.

(** ** The table as a set of VRPs *)
Definition vrp_repr (t : VrpTable) (S : gset Vrp) : Prop :=
  holds V4 (vt_ipv4 t) S /\ holds V6 (vt_ipv6 t) S.

Lemma vrp_repr_new : vrp_repr vrp_new ∅.
Proof. split; apply (holds_new _ _). Qed.

(** A VRP of the other family is in no node of a trie. *)
Lemma holds_other {K} `{PrefixLaws K} (wrap : K -> IpNetwork) t S S' v :
  (forall k, vrp_prefix v <> wrap k) -> (forall x, x <> v -> x ∈ S' <-> x ∈ S) ->
  holds wrap t S -> holds wrap t S'.
Proof.
  intros Hv HS (m & Ht & Hm). exists m. split; [done|]. intros b.
  destruct (Hm b) as [Hne Hin]. split; [done|]. intros x. rewrite Hin.
  destruct (decide (x = v)) as [->|Hx]; [|by rewrite HS].
  split; intros [_ (k & _ & E & _)]; by destruct (Hv k).
Qed.

Definition vrp_ok (v : Vrp) : Prop := network_ok (vrp_prefix v).

Lemma vrp_add_ok t S vrps :
  vrp_repr t S -> Forall vrp_ok vrps ->
  exists t', vrp_add t vrps = Some t' /\ vrp_repr t' (S ∪ list_to_set vrps).
Proof.
  revert t S. induction vrps as [|v vrps IH]; intros t S [H4 H6] Hok.
  { exists t. split; [done|]. by replace (S ∪ _) with S by set_solver. }
  apply Forall_cons in Hok as [Hv Hok]. cbn [vrp_add list_to_set].
  assert (exists t1, match vrp_prefix v with
          | V4 net => i4 ← add_entry (vt_ipv4 t) net v; Some (mkVrpTable i4 (vt_ipv6 t))
          | V6 net => i6 ← add_entry (vt_ipv6 t) net v; Some (mkVrpTable (vt_ipv4 t) i6)
          end = Some t1 /\ vrp_repr t1 ({[v]} ∪ S)) as (t1 & -> & Ht1).
  { unfold vrp_ok in Hv. destruct (vrp_prefix v) as [k|k] eqn:Ev; simpl in Hv.
    - destruct (add_entry_ok V4 _ _ _ k v H4 Hv Ev) as (i & -> & Hi).
      eexists. split; [done|]. split; [done|].
      eapply (holds_other V6 _ S _ v); [congruence|set_solver|done].
    - destruct (add_entry_ok V6 _ _ _ k v H6 Hv Ev) as (i & -> & Hi).
      eexists. split; [done|]. split; [|done].
      eapply (holds_other V4 _ S _ v); [congruence|set_solver|done]. }
  cbn [mbind option_bind]. destruct (IH t1 _ Ht1 Hok) as (t2 & -> & Ht2).
  exists t2. split; [done|]. by replace (S ∪ _) with ({[v]} ∪ S ∪ list_to_set vrps) by set_solver.
Qed.

Lemma vrp_remove_ok t S vrps :
  vrp_repr t S -> Forall vrp_ok vrps ->
  exists t', vrp_remove t vrps = Some t' /\ vrp_repr t' (S ∖ list_to_set vrps).
Proof.
  revert t S. induction vrps as [|v vrps IH]; intros t S [H4 H6] Hok.
  { exists t. split; [done|]. by replace (S ∖ _) with S by set_solver. }
  apply Forall_cons in Hok as [Hv Hok]. cbn [vrp_remove list_to_set].
  assert (exists t1, match vrp_prefix v with
          | V4 net => i4 ← remove_entry (vt_ipv4 t) net v; Some (mkVrpTable i4 (vt_ipv6 t))
          | V6 net => i6 ← remove_entry (vt_ipv6 t) net v; Some (mkVrpTable (vt_ipv4 t) i6)
          end = Some t1 /\ vrp_repr t1 (S ∖ {[v]})) as (t1 & -> & Ht1).
  { unfold vrp_ok in Hv. destruct (vrp_prefix v) as [k|k] eqn:Ev; simpl in Hv.
    - destruct (remove_entry_ok V4 _ _ _ k v H4 Hv Ev) as (i & -> & Hi).
      eexists. split; [done|]. split; [done|].
      eapply (holds_other V6 _ S _ v); [congruence|set_solver|done].
    - destruct (remove_entry_ok V6 _ _ _ k v H6 Hv Ev) as (i & -> & Hi).
      eexists. split; [done|]. split; [|done].
      eapply (holds_other V4 _ S _ v); [congruence|set_solver|done]. }
  cbn [mbind option_bind]. destruct (IH t1 _ Ht1 Hok) as (t2 & -> & Ht2).
  exists t2. split; [done|]. by replace (S ∖ _) with (S ∖ {[v]} ∖ list_to_set vrps) by set_solver.
Qed.

Lemma covering_vrps_ok t S p :
  vrp_repr t S -> network_ok p -> exists cov, covering_vrps t p = Some cov /\
    forall v, v ∈ cov <-> v ∈ S /\ vrp_ok v /\ network_covers (vrp_prefix v) p.
Proof.
  intros [H4 H6] Hp. unfold vrp_ok. destruct p as [q|q]; simpl in Hp |- *.
  - destruct (covering_holds V4 _ _ S q H4 Hp) as (res & -> & Hin).
    eexists. split; [done|]. intros v. rewrite Hin. split.
    + intros [HS (k & Hk & -> & Hpre)]. by split_and!.
    + intros (HS & Hok & Hc). split; [done|]. destruct (vrp_prefix v) as [k|k]; [|done]. eauto.
  - destruct (covering_holds V6 _ _ S q H6 Hp) as (res & -> & Hin).
    eexists. split; [done|]. intros v. rewrite Hin. split.
    + intros [HS (k & Hk & -> & Hpre)]. by split_and!.
    + intros (HS & Hok & Hc). split; [done|]. destruct (vrp_prefix v) as [k|k]; [done|]. eauto.
Qed.

(** ** Origin validation, as RFC 6811 section 2 states it

    NotFound when no VRP covers the route's prefix, Valid when one that does
    also matches, and Invalid when some cover it and none matches.  A route
    without an origin (an AS_PATH that ends in a set) has [origin] 0, which no
    VRP matches: RFC 6811 makes it Invalid as soon as a VRP covers it. *)
Definition rfc6811 (S : gset Vrp) (p : IpNetwork) (origin : Z) : RpkiValidation :=
  let covering := filter (fun v => network_covers (vrp_prefix v) p) S in
  let matching :=
    filter (fun v => network_prefix_len p <= max_length v /\ origin_as v <> 0 /\ origin_as v = origin)
      covering in
  if decide (covering = ∅) then NotFound
  else if decide (matching = ∅) then Invalid else Valid.

(** What the code makes of it: RFC 6811's outcome for a route that has an
    origin, NotFound for one that has none, covered or not. *)
Definition agrees_with_rfc6811 (t : VrpTable) (S : gset Vrp) (p : IpNetwork) : Prop :=
  (forall origin, origin <> 0 -> validate t p origin = Some (rfc6811 S p origin)) /\
  validate t p 0 = Some NotFound.

Lemma vrp_covers_true v len origin :
  vrp_covers v len origin = true <-> len <= max_length v /\ origin_as v <> 0 /\ origin_as v = origin.
Proof. unfold vrp_covers. rewrite !andb_true_iff, negb_true_iff. lia. Qed.

Lemma validate_ok t S p :
  vrp_repr t S -> (forall v, v ∈ S -> vrp_ok v) -> network_ok p -> agrees_with_rfc6811 t S p.
Proof.
  intros Ht HS Hp. split; [|done]. intros origin Ho. unfold validate, rfc6811. destruct (covering_vrps_ok t S p Ht Hp) as (cov & -> & Hcov).
  destruct (Z.eqb_spec origin 0) as [->|_]; [done|].
  set (C := filter _ S). cbn [mbind option_bind].
  assert (forall v, v ∈ cov <-> v ∈ C) as HC.
  { intros v. unfold C. rewrite Hcov, elem_of_filter. naive_solver. }
  destruct cov as [|v cov]; [rewrite decide_True; set_solver|].
  rewrite decide_False by set_solver. set (L := v :: cov) in *.
  destruct (existsb _ L) eqn:Ex.
  - apply existsb_exists in Ex as (x & Hx & Hc%vrp_covers_true).
    apply list_elem_of_In, HC in Hx. rewrite decide_False; [done|]. set_solver.
  - rewrite decide_True; [done|]. apply set_eq. intros x. split; [|set_solver].
    rewrite elem_of_filter. intros [Hm%vrp_covers_true Hx%HC%list_elem_of_In].
    assert (existsb (fun vrp => vrp_covers vrp (network_prefix_len p) origin) L = true); [|congruence].
    apply existsb_exists. eauto.
Qed.

(** ** Sequences of updates: [true] adds a batch, [false] removes it *)
Fixpoint vrp_run (ops : list (bool * list Vrp)) (t : VrpTable) : option VrpTable :=
  match ops with
  | [] => Some t
  | (true, vrps) :: ops => t ← vrp_add t vrps; vrp_run ops t
  | (false, vrps) :: ops => t ← vrp_remove t vrps; vrp_run ops t
  end.

Definition vrp_set (ops : list (bool * list Vrp)) : gset Vrp :=
  fold_left (fun S (o : bool * list Vrp) =>
    if o.1 then S ∪ list_to_set o.2 else S ∖ list_to_set o.2) ops ∅.

Lemma vrp_run_ok ops :
  Forall (fun o => Forall vrp_ok o.2) ops ->
  exists t, vrp_run ops vrp_new = Some t /\ vrp_repr t (vrp_set ops) /\
    forall v, v ∈ vrp_set ops -> vrp_ok v.
Proof.
  unfold vrp_set. generalize vrp_repr_new. generalize vrp_new as t.
  assert (forall v, v ∈ (∅ : gset Vrp) -> vrp_ok v) as Hall by set_solver. revert Hall.
  generalize (∅ : gset Vrp) as S. induction ops as [|[b vrps] ops IH]; intros S Hall t Ht Hops.
  { by exists t. }
  apply Forall_cons in Hops as [Hv Hops]. simpl in Hv.
  pose proof (proj1 (Forall_forall _ _) Hv) as Hv'. destruct b; cbn [vrp_run fold_left fst snd].
  - destruct (vrp_add_ok t S vrps Ht Hv) as (t1 & -> & Ht1). apply IH; [set_solver|done..].
  - destruct (vrp_remove_ok t S vrps Ht Hv) as (t1 & -> & Ht1). apply IH; [set_solver|done..].
Qed.

(** ** Properties *)

(** C29.  Whatever batches of VRPs were added and removed, validating a route
    that has an origin AS gives RFC 6811's outcome on the set of the VRPs added
    and not removed since, and a route without one is NotFound; no trie
    operation on the way panics. *)
Theorem validate_refines_rfc6811 (ops : list (bool * list Vrp)) (p : IpNetwork) :
  Forall (fun o => Forall vrp_ok o.2) ops -> network_ok p ->
  exists t, vrp_run ops vrp_new = Some t /\ agrees_with_rfc6811 t (vrp_set ops) p.
Proof.
  intros Hops Hp. destruct (vrp_run_ok ops Hops) as (t & E & Ht & Hall).
  exists t. split; [done|]. by apply validate_ok.
Qed.

(** [covering_vrps] returns exactly the VRPs in force whose prefix
    covers the route's. *)
Theorem covering_vrps_exact (ops : list (bool * list Vrp)) (p : IpNetwork) :
  Forall (fun o => Forall vrp_ok o.2) ops -> network_ok p ->
  exists t cov, vrp_run ops vrp_new = Some t /\ covering_vrps t p = Some cov /\
    forall v, v ∈ cov <-> v ∈ vrp_set ops /\ network_covers (vrp_prefix v) p.
Proof.
  intros Hops Hp. destruct (vrp_run_ok ops Hops) as (t & E & Ht & Hall).
  destruct (covering_vrps_ok t _ p Ht Hp) as (cov & Ec & Hin).
  exists t, cov. split_and!; [done..|]. intros v. rewrite Hin. naive_solver.
Qed.

(** ** Witnesses: two VRPs of one prefix, one of another, one removed *)
Definition demo_vrps : list (bool * list Vrp) :=
  [(true, [mkVrp (V4 (mkV4 0x0A000000 8)) 24 65001; mkVrp (V4 (mkV4 0x0A000000 8)) 16 65002;
           mkVrp (V6 (mkV6 0x20010db8000000000000000000000000 32)) 48 65001]);
   (false, [mkVrp (V4 (mkV4 0x0A000000 8)) 16 65002])].

Ltac networks_in_range :=
  repeat (cbn [fst snd]; first [apply Forall_cons_2|apply Forall_nil_2]);
  unfold vrp_ok; simpl; unfold u32, u128; lia.

Lemma validate_refines_rfc6811_witness :
  exists t, vrp_run demo_vrps vrp_new = Some t /\
    agrees_with_rfc6811 t (vrp_set demo_vrps) (V4 (mkV4 0x0A010000 16)).
Proof. apply (validate_refines_rfc6811 demo_vrps (V4 (mkV4 0x0A010000 16))); networks_in_range. Defined.

Lemma covering_vrps_exact_witness :
  exists t cov, vrp_run demo_vrps vrp_new = Some t /\
    covering_vrps t (V4 (mkV4 0x0A010000 16)) = Some cov /\
    forall v, v ∈ cov <->
      v ∈ vrp_set demo_vrps /\ network_covers (vrp_prefix v) (V4 (mkV4 0x0A010000 16)).
Proof. apply (covering_vrps_exact demo_vrps (V4 (mkV4 0x0A010000 16))); networks_in_range. Defined.

Example demo_validate :
  (t ← vrp_run demo_vrps vrp_new;
   a ← validate t (V4 (mkV4 0x0A010000 16)) 65001;
   b ← validate t (V4 (mkV4 0x0A010000 16)) 65002;
   c ← validate t (V4 (mkV4 0x0A010100 25)) 65001;
   d ← validate t (V4 (mkV4 0x0B000000 8)) 65001; Some [a; b; c; d])
  = Some [Valid; Invalid; Invalid; NotFound].
Proof. vm_compute. reflexivity. Qed.

(** A covered route whose AS_PATH ends in a set: Invalid by RFC 6811, and by
    the comment of [validate]; NotFound in the code. *)
Example as_set_not_invalid :
  rfc6811 (vrp_set demo_vrps) (V4 (mkV4 0x0A010000 16)) 0 = Invalid /\
  (t ← vrp_run demo_vrps vrp_new; validate t (V4 (mkV4 0x0A010000 16)) 0) = Some NotFound.
Proof. split; vm_compute; reflexivity. Qed.
