(* ===== verification/PathId.v ===== *)
(** * Local path identifiers ([bgpgg/src/rib/path_id.rs])

    The trait [PathIdAllocator] is a class; [PathIdLaws] states what the
    Loc-RIB relies on (a finite set of identifiers in use, a fresh one from
    each [alloc], one less after each [free]) and the bitmap allocator is an
    instance of both.  An identifier is computed in u32 arithmetic, written
    here with its wrap-around. *)
From S2P Require Import Prelude.

Class PathIdAllocator (A : Type) := {
  alloc : A -> A * Z;
  free : A -> Z -> A;
  free_all : A -> list Z -> A;
}.

(** The identifiers in use, as the client sees them. *)
Class PathIdLaws (A : Type) `{PathIdAllocator A} := {
  alloc_inv : A -> Prop;
  alloc_ids : A -> gset Z;
  alloc_ok : forall a, alloc_inv a -> Z.of_nat (size (alloc_ids a)) < 2 ^ 32 - 1 ->
    alloc_inv (alloc a).1 /\
    1 <= (alloc a).2 < 2 ^ 32 /\ ~ ((alloc a).2 ∈ alloc_ids a) /\
    alloc_ids (alloc a).1 = {[(alloc a).2]} ∪ alloc_ids a;
  free_ok : forall a id, alloc_inv a -> u32 id ->
    alloc_inv (free a id) /\ alloc_ids (free a id) = alloc_ids a ∖ {[id]};
  free_all_ok : forall a ids, alloc_inv a -> Forall u32 ids ->
    alloc_inv (free_all a ids) /\ alloc_ids (free_all a ids) = alloc_ids a ∖ list_to_set ids;
}.

(** ** The bitmap *)
Record BitmapPathIdAllocator := mkBitmap { bits : list Z; pos : nat }.

Definition bitmap_new : BitmapPathIdAllocator := mkBitmap [] 0.

Definition u64_max : Z := 2 ^ 64 - 1.

(** [u64::trailing_ones]: [n] is the number of bits left to look at. *)
Fixpoint trailing_ones (n : nat) (w : Z) : Z :=
  match n with
  | O => 0
  | S n => if Z.odd w then 1 + trailing_ones n (Z.div2 w) else 0
  end.

(** The loop of [alloc]: the first word, from [idx], with a free bit. *)
Fixpoint first_free (idx : nat) (words : list Z) : option (nat * Z) :=
  match words with
  | [] => None
  | w :: rest => if w =? u64_max then first_free (S idx) rest else Some (idx, trailing_ones 64 w)
  end.

Definition id_at (idx : nat) (bit : Z) : Z :=
  ((Z.of_nat idx mod 2 ^ 32 * 64) mod 2 ^ 32 + bit + 1) mod 2 ^ 32.

Definition bitmap_alloc (a : BitmapPathIdAllocator) : BitmapPathIdAllocator * Z :=
  match first_free (pos a) (drop (pos a) (bits a)) with
  | Some (idx, bit) =>
      (mkBitmap (alter (fun w => Z.lor w (Z.shiftl 1 bit)) idx (bits a)) idx, id_at idx bit)
  | None => (mkBitmap (bits a ++ [1]) (length (bits a)), id_at (length (bits a)) 0)
  end.

Definition bitmap_free (a : BitmapPathIdAllocator) (id : Z) : BitmapPathIdAllocator :=
  if id =? 0 then a
  else
    let id := id - 1 in
    let word_idx := Z.to_nat (id / 64) in
    let bit_idx := id mod 64 in
    if (word_idx <? length (bits a))%nat then
      mkBitmap (alter (fun w => Z.land w (Z.lxor u64_max (Z.shiftl 1 bit_idx))) word_idx (bits a))
        (if (word_idx <? pos a)%nat then word_idx else pos a)
    else a.

Definition bitmap_free_all (a : BitmapPathIdAllocator) (ids : list Z) : BitmapPathIdAllocator :=
  fold_left bitmap_free ids a.

#[export] Instance Bitmap_alloc : PathIdAllocator BitmapPathIdAllocator := {
  alloc := bitmap_alloc;
  free := bitmap_free;
  free_all := bitmap_free_all;
}.

(** ** The identifiers a bitmap has in use *)
Definition bit_used (words : list Z) (k : Z) : bool :=
  match words !! Z.to_nat (k / 64) with Some w => Z.testbit w (k mod 64) | None => false end.

Definition bitmap_ids (a : BitmapPathIdAllocator) : gset Z :=
  list_to_set (filter (fun id => bit_used (bits a) (id - 1) = true)
    (seqZ 1 (64 * Z.of_nat (length (bits a))))).

(** Every word is a u64, and the words before the cursor are full. *)
Definition bitmap_inv (a : BitmapPathIdAllocator) : Prop :=
  Forall u64 (bits a) /\ Forall (eq u64_max) (take (pos a) (bits a)).

Lemma bit_used_bound words k :
  0 <= k -> bit_used words k = true -> k < 64 * Z.of_nat (length words).
Proof.
  unfold bit_used. intros Hk. destruct (words !! _) eqn:E; [|done].
  apply lookup_lt_Some in E. pose proof (Z.div_mod k 64). pose proof (Z.mod_pos_bound k 64). lia.
Qed.

Lemma elem_of_bitmap_ids a id :
  id ∈ bitmap_ids a <-> 1 <= id /\ bit_used (bits a) (id - 1) = true.
Proof.
  unfold bitmap_ids. rewrite elem_of_list_to_set, list_elem_of_filter, elem_of_seqZ. split.
  - intros []; split; [lia|done].
  - intros [Hid Hu]. split; [done|]. apply bit_used_bound in Hu; lia.
Qed.

Lemma div2_64 n w : 0 <= w < 2 ^ Z.of_nat (S n) -> 0 <= Z.div2 w < 2 ^ Z.of_nat n.
Proof. rewrite Z.div2_div, Nat2Z.inj_succ, Z.pow_succ_r by lia. intros. split; [apply Z.div_pos|apply Z.div_lt_upper_bound]; lia. Qed.

Lemma odd_div2 w : Z.odd w = true -> w = 2 * Z.div2 w + 1.
Proof. intros Ho. rewrite (Z.div2_odd w) at 1. by rewrite Ho. Qed.

(** The count stops at the first zero bit. *)
Lemma trailing_ones_spec n w :
  0 <= w < 2 ^ Z.of_nat n -> w <> 2 ^ Z.of_nat n - 1 ->
  0 <= trailing_ones n w < Z.of_nat n /\
  Z.testbit w (trailing_ones n w) = false /\
  forall j, 0 <= j < trailing_ones n w -> Z.testbit w j = true.
Proof.
  revert w. induction n as [|n IH]; intros w Hw Hne; [simpl in *; lia|]. cbn [trailing_ones].
  destruct (Z.odd w) eqn:Eo.
  - pose proof (odd_div2 w Eo) as Ew. destruct (IH (Z.div2 w)) as (Hr & Hz & Ho).
    { by apply div2_64. }
    { intros E. apply Hne. rewrite Ew, E, Nat2Z.inj_succ, Z.pow_succ_r; lia. }
    split_and!; [lia|lia| |].
    + rewrite Ew at 1. replace (1 + trailing_ones n (Z.div2 w)) with (Z.succ (trailing_ones n (Z.div2 w)))
        by lia. by rewrite Z.testbit_odd_succ by lia.
    + intros j Hj. rewrite Ew at 1. destruct (Z.eq_dec j 0) as [->|Hj0].
      * apply Z.testbit_odd_0.
      * replace j with (Z.succ (j - 1)) by lia. rewrite Z.testbit_odd_succ by lia. apply Ho. lia.
  - split_and!; [lia|lia| |lia]. by rewrite Z.bit0_odd.
Qed.

Lemma first_free_spec idx words :
  match first_free idx words with
  | Some (i, b) => exists k w, i = (idx + k)%nat /\ words !! k = Some w /\ w <> u64_max /\
      b = trailing_ones 64 w /\ Forall (eq u64_max) (take k words)
  | None => Forall (eq u64_max) words
  end.
Proof.
  revert idx. induction words as [|w words IH]; intros idx; cbn [first_free]; [done|].
  destruct (Z.eqb_spec w u64_max) as [->|Hne].
  - specialize (IH (S idx)). destruct (first_free _ _) as [[i b]|].
    + destruct IH as (k & w & -> & Hk & Hw & -> & Hf). exists (S k), w.
      split_and!; [lia|exact Hk|exact Hw|reflexivity|]. by constructor.
    + by constructor.
  - exists O, w. split_and!; [lia|reflexivity|exact Hne|reflexivity|constructor].
Qed.

Lemma id_at_small idx bit :
  0 <= bit < 64 -> 64 * Z.of_nat idx + bit + 1 < 2 ^ 32 ->
  id_at idx bit = 64 * Z.of_nat idx + bit + 1.
Proof.
  intros Hb Hi. unfold id_at. rewrite (Z.mod_small (Z.of_nat idx)) by lia.
  rewrite (Z.mod_small (Z.of_nat idx * 64)) by lia. rewrite Z.mod_small; lia.
Qed.

Lemma u64_set_bit w b : u64 w -> 0 <= b < 64 -> u64 (Z.lor w (Z.shiftl 1 b)).
Proof.
  unfold u64. intros Hw Hb. rewrite Z.shiftl_1_l.
  assert (0 <= 2 ^ b < 2 ^ 64) by (split; [lia|apply Z.pow_lt_mono_r; lia]).
  split; [apply Z.lor_nonneg; lia|].
  destruct (Z.eq_dec (Z.lor w (2 ^ b)) 0) as [->|]; [lia|].
  apply Z.log2_lt_pow2; [pose proof (proj2 (Z.lor_nonneg w (2 ^ b))); lia|].
  rewrite Z.log2_lor by lia. apply Z.max_lub_lt.
  - destruct (Z.eq_dec w 0) as [->|]; [simpl; lia|]. apply Z.log2_lt_pow2; lia.
  - rewrite Z.log2_pow2; lia.
Qed.

Lemma u64_clear_bit w c : u64 w -> 0 <= c -> u64 (Z.land w c).
Proof.
  unfold u64. intros Hw Hc. split; [apply Z.land_nonneg; lia|].
  destruct (Z.eq_dec (Z.land w c) 0) as [->|]; [lia|].
  assert (0 <= Z.land w c) by (apply Z.land_nonneg; lia).
  apply Z.log2_lt_pow2; [lia|]. eapply Z.le_lt_trans; [apply Z.log2_land; lia|].
  eapply Z.le_lt_trans; [apply Z.le_min_l|].
  destruct (Z.eq_dec w 0) as [->|]; [simpl; lia|]. apply Z.log2_lt_pow2; lia.
Qed.

Lemma testbit_set w b j :
  0 <= b -> 0 <= j -> Z.testbit (Z.lor w (Z.shiftl 1 b)) j = (j =? b) || Z.testbit w j.
Proof.
  intros. rewrite Z.lor_spec, Z.shiftl_1_l, Z.pow2_bits_eqb by lia.
  rewrite (Z.eqb_sym b j). by destruct (j =? b), (Z.testbit w j).
Qed.

Lemma testbit_clear w b j :
  0 <= b < 64 -> 0 <= j < 64 ->
  Z.testbit (Z.land w (Z.lxor u64_max (Z.shiftl 1 b))) j = negb (j =? b) && Z.testbit w j.
Proof.
  intros. rewrite Z.land_spec, Z.lxor_spec, Z.shiftl_1_l, Z.pow2_bits_eqb by lia.
  unfold u64_max. rewrite <- (Z.ones_equiv 64 : Z.ones 64 = 2 ^ 64 - 1), Z.ones_spec_low by lia.
  rewrite (Z.eqb_sym b j). by destruct (j =? b), (Z.testbit w j).
Qed.

(** Bits of a list of words after one word changed at one bit. *)
Lemma bit_used_alter words i b f (c : bool) k :
  0 <= b < 64 -> 0 <= k -> (i < length words)%nat ->
  (forall w j, 0 <= j < 64 -> Z.testbit (f w) j = if j =? b then c else Z.testbit w j) ->
  bit_used (alter f i words) k = if k =? 64 * Z.of_nat i + b then c else bit_used words k.
Proof.
  intros Hb Hk Hi Hf. unfold bit_used.
  pose proof (Z.div_mod k 64). pose proof (Z.mod_pos_bound k 64).
  assert (0 <= k / 64) by (apply Z.div_pos; lia).
  destruct (decide (i = Z.to_nat (k / 64))) as [->|Hne].
  - rewrite list_lookup_alter_eq. destruct (lookup_lt_is_Some_2 words (Z.to_nat (k / 64)) Hi) as [w ->].
    simpl. rewrite Hf by lia.
    destruct (Z.eqb_spec (k mod 64) b), (Z.eqb_spec k (64 * Z.of_nat (Z.to_nat (k / 64)) + b)); lia || done.
  - rewrite list_lookup_alter_ne by done.
    destruct (Z.eqb_spec k (64 * Z.of_nat i + b)) as [->|]; [|done].
    destruct Hne. rewrite Z.mul_comm, Z.div_add_l, Z.div_small by lia. lia.
Qed.

Lemma bit_used_full words n k :
  Forall (eq u64_max) (take n words) -> (n <= length words)%nat -> 0 <= k < 64 * Z.of_nat n ->
  bit_used words k = true.
Proof.
  intros Hf Hn Hk. unfold bit_used.
  assert (0 <= k / 64) by (apply Z.div_pos; lia).
  assert (k / 64 < Z.of_nat n) by (apply Z.div_lt_upper_bound; lia).
  destruct (lookup_lt_is_Some_2 words (Z.to_nat (k / 64))) as [w Hw]; [lia|]. rewrite Hw.
  rewrite <- (lookup_take_lt words n) in Hw by lia. apply (Forall_lookup_1 _ _ _ _ Hf) in Hw as <-.
  pose proof (Z.mod_pos_bound k 64). unfold u64_max.
  rewrite <- (Z.ones_equiv 64 : Z.ones 64 = 2 ^ 64 - 1). apply Z.ones_spec_low. lia.
Qed.

Lemma bit_used_snoc words k :
  0 <= k -> bit_used (words ++ [1]) k = if k =? 64 * Z.of_nat (length words) then true
                                        else bit_used words k.
Proof.
  intros Hk. unfold bit_used. pose proof (Z.div_mod k 64). pose proof (Z.mod_pos_bound k 64).
  assert (0 <= k / 64) by (apply Z.div_pos; lia).
  destruct (decide (Z.to_nat (k / 64) < length words)%nat) as [Hlt|Hge].
  - rewrite lookup_app_l by lia. destruct (Z.eqb_spec k (64 * Z.of_nat (length words))); [lia|done].
  - rewrite lookup_app_r by lia.
    rewrite (lookup_ge_None_2 words) by lia.
    destruct (Z.to_nat (k / 64) - length words)%nat as [|[|]] eqn:E; simpl.
    + destruct (Z.eqb_spec k (64 * Z.of_nat (length words))) as [->|Hne].
      * by rewrite Z.mul_comm, Z_mod_mult.
      * change 1 with (2 ^ 0). rewrite Z.pow2_bits_eqb by lia. lia.
    + destruct (Z.eqb_spec k (64 * Z.of_nat (length words))); [lia|done].
    + destruct (Z.eqb_spec k (64 * Z.of_nat (length words))); [lia|done].
Qed.

(** What [alloc] does to the bits: one free bit, the lowest, is set. *)
Lemma bitmap_alloc_bits a :
  bitmap_inv a -> exists idx bit,
    bitmap_alloc a = ((bitmap_alloc a).1, id_at idx bit) /\ 0 <= bit < 64 /\
    bitmap_inv (bitmap_alloc a).1 /\
    let k0 := 64 * Z.of_nat idx + bit in
    bit_used (bits a) k0 = false /\ (forall k, 0 <= k < k0 -> bit_used (bits a) k = true) /\
    forall k, 0 <= k ->
      bit_used (bits (bitmap_alloc a).1) k = if k =? k0 then true else bit_used (bits a) k.
Proof.
  intros [Hw Hp]. unfold bitmap_alloc. pose proof (first_free_spec (pos a) (drop (pos a) (bits a))) as Hf.
  destruct (first_free _ _) as [[idx bit]|].
  - destruct Hf as (k & w & -> & Hk & Hne & -> & Hfull). rewrite lookup_drop in Hk.
    pose proof (lookup_lt_Some _ _ _ Hk) as Hlen.
    pose proof (Forall_lookup_1 _ _ _ _ Hw Hk) as Hw64.
    assert (Forall (eq u64_max) (take (pos a + k) (bits a))) as Hall.
    { rewrite <- take_take_drop. by apply Forall_app. }
    destruct (trailing_ones_spec 64 w) as (Hr & Hz & Ho); [exact Hw64|exact Hne|].
    generalize dependent (trailing_ones 64 w). intros bit Hr Hz Ho.
    exists (pos a + k)%nat, bit. split_and!; [done|lia|lia| | | |].
    + split; cbn [bits pos fst].
      * apply Forall_alter; [done|]. intros x _ Hx. apply u64_set_bit; [done|lia].
      * by rewrite take_alter_ge by lia.
    + unfold bit_used. rewrite Z.mul_comm, Z.div_add_l, Z.div_small, Z.add_0_r, Nat2Z.id by lia.
      rewrite Hk. rewrite Z.add_comm, Z_mod_plus_full, Z.mod_small by lia. done.
    + intros j Hj. destruct (decide (j < 64 * Z.of_nat (pos a + k))).
      * apply (bit_used_full _ (pos a + k)); [done|lia|lia].
      * unfold bit_used. replace j with (Z.of_nat (pos a + k) * 64 + (j - 64 * Z.of_nat (pos a + k))) by lia.
        rewrite Z.div_add_l, Z.div_small, Z.add_0_r, Nat2Z.id by lia. rewrite Hk.
        rewrite Z.add_comm, Z_mod_plus_full, Z.mod_small by lia. apply Ho. lia.
    + intros j Hj. apply bit_used_alter; [lia|done|done|].
      intros x i Hi. rewrite testbit_set by lia. by destruct (i =? bit).
  - assert (Forall (eq u64_max) (bits a)) as Hall.
    { rewrite <- (take_drop (pos a)). by apply Forall_app. }
    exists (length (bits a)), 0. rewrite Z.add_0_r. split_and!; [done|lia|lia| | | |].
    + split; cbn [bits pos fst].
      * apply Forall_app. split; [done|]. constructor; [unfold u64; lia|done].
      * by rewrite take_app_length.
    + unfold bit_used. rewrite Z.mul_comm, Z.div_mul by lia.
      by rewrite lookup_ge_None_2 by lia.
    + intros k Hk. apply (bit_used_full _ (length (bits a))); [by rewrite take_ge|done|lia].
    + intros k Hk. by apply bit_used_snoc.
Qed.

Lemma used_size a n :
  (forall k, 0 <= k < n -> bit_used (bits a) k = true) -> 0 <= n ->
  n <= Z.of_nat (size (bitmap_ids a)).
Proof.
  intros Hu Hn.
  assert (list_to_set (seqZ 1 n) ⊆ bitmap_ids a) as Hs.
  { intros id. rewrite elem_of_list_to_set, elem_of_seqZ, elem_of_bitmap_ids.
    intros Hid. split; [lia|]. apply Hu. lia. }
  apply subseteq_size in Hs. rewrite size_list_to_set, length_seqZ in Hs; [lia|apply NoDup_seqZ].
Qed.

Lemma bitmap_alloc_ok a :
  bitmap_inv a -> Z.of_nat (size (bitmap_ids a)) < 2 ^ 32 - 1 ->
  bitmap_inv (bitmap_alloc a).1 /\
  1 <= (bitmap_alloc a).2 < 2 ^ 32 /\ ~ ((bitmap_alloc a).2 ∈ bitmap_ids a) /\
  bitmap_ids (bitmap_alloc a).1 = {[(bitmap_alloc a).2]} ∪ bitmap_ids a /\
  (forall id, 1 <= id < (bitmap_alloc a).2 -> id ∈ bitmap_ids a).
Proof.
  intros Ha Hs. destruct (bitmap_alloc_bits a Ha) as (idx & bit & E & Hb & Hi & Hfree & Hlow & Hset).
  rewrite E. cbn [snd].
  assert (64 * Z.of_nat idx + bit <= Z.of_nat (size (bitmap_ids a)))
    by (apply used_size; [done|lia]).
  rewrite id_at_small in * by lia. split_and!; [done|lia|lia| | |].
  - rewrite elem_of_bitmap_ids. intros [_ Hu]. rewrite Z.add_simpl_r in Hu. congruence.
  - apply set_eq. intros id. rewrite elem_of_union, elem_of_singleton, !elem_of_bitmap_ids. cbn [fst].
    destruct (Z_le_gt_dec 1 id); [|split; [lia|intros [|]; lia]].
    rewrite Hset by lia. destruct (Z.eqb_spec (id - 1) (64 * Z.of_nat idx + bit)).
    + split; [left; lia|done].
    + split; [by right|]. intros [->|?]; [lia|done].
  - intros id Hid. apply elem_of_bitmap_ids. split; [lia|]. apply Hlow. lia.
Qed.

Lemma bitmap_free_ok a id :
  bitmap_inv a -> u32 id ->
  bitmap_inv (bitmap_free a id) /\ bitmap_ids (bitmap_free a id) = bitmap_ids a ∖ {[id]}.
Proof.
  intros [Hw Hp] Hid. unfold u32 in Hid. unfold bitmap_free.
  destruct (Z.eqb_spec id 0) as [->|Hne].
  { split; [done|]. apply set_eq. intros x.
    rewrite elem_of_difference, elem_of_singleton, elem_of_bitmap_ids.
    split; [intros Hx; split; [done|lia]|by intros []]. }
  set (k0 := id - 1). pose proof (Z.div_mod k0 64). pose proof (Z.mod_pos_bound k0 64).
  assert (0 <= k0 / 64) by (apply Z.div_pos; lia).
  assert (forall a', (forall k, 0 <= k ->
      bit_used (bits a') k = if k =? k0 then false else bit_used (bits a) k) ->
    bitmap_ids a' = bitmap_ids a ∖ {[id]}) as Hids.
  { intros a' Ha'. apply set_eq. intros x.
    rewrite elem_of_difference, elem_of_singleton, !elem_of_bitmap_ids.
    destruct (Z_le_gt_dec 1 x); [|lia]. rewrite Ha' by lia.
    destruct (Z.eqb_spec (x - 1) k0).
    - split; [by intros [_ ?]|]. intros [_ Hx]. destruct Hx. lia.
    - split; [intros Hx; split; [done|lia]|by intros []]. }
  destruct (Nat.ltb_spec (Z.to_nat (k0 / 64)) (length (bits a))) as [Hlt|Hge].
  - split; [|apply Hids]; cbn [bits pos].
    + split; cbn [bits pos].
      * apply Forall_alter; [done|]. intros x _ Hx. apply u64_clear_bit; [done|].
        apply Z.lxor_nonneg. split; intros; [apply Z.shiftl_nonneg|]; done.
      * destruct (Nat.ltb_spec (Z.to_nat (k0 / 64)) (pos a)) as [Hlp|Hlp].
        -- rewrite take_alter_ge by lia.
           replace (Z.to_nat (k0 / 64)) with (Z.to_nat (k0 / 64) `min` pos a)%nat by lia.
           rewrite <- take_take. by apply Forall_take.
        -- by rewrite take_alter_ge by lia.
    + intros k Hk. rewrite (bit_used_alter _ _ (k0 mod 64) _ false) by
        (first [lia|intros w j Hj; rewrite testbit_clear by lia; by destruct (j =? k0 mod 64)]).
      replace (64 * Z.of_nat (Z.to_nat (k0 / 64)) + k0 mod 64) with k0 by lia. done.
  - split; [done|]. apply Hids. intros k Hk. destruct (Z.eqb_spec k k0) as [->|]; [|done].
    unfold bit_used. by rewrite lookup_ge_None_2.
Qed.

Lemma bitmap_free_all_ok a ids :
  bitmap_inv a -> Forall u32 ids ->
  bitmap_inv (bitmap_free_all a ids) /\
  bitmap_ids (bitmap_free_all a ids) = bitmap_ids a ∖ list_to_set ids.
Proof.
  unfold bitmap_free_all. revert a. induction ids as [|id ids IH]; intros a Ha Hids.
  { split; [done|]. simpl. set_solver. }
  apply Forall_cons in Hids as [Hid Hids]. destruct (bitmap_free_ok a id Ha Hid) as [Hi Hs].
  destruct (IH _ Hi Hids) as [Hi' Hs']. split; [done|]. simpl. rewrite Hs', Hs. set_solver.
Qed.

#[export, refine] Instance Bitmap_laws : PathIdLaws BitmapPathIdAllocator := {
  alloc_inv := bitmap_inv;
  alloc_ids := bitmap_ids;
}.
Proof.
  - intros a Ha Hs. destruct (bitmap_alloc_ok a Ha Hs) as (? & ? & ? & ? & _). by repeat (split; [done|]).
  - apply bitmap_free_ok.
  - apply bitmap_free_all_ok.
Defined.

Lemma bitmap_new_ok : bitmap_inv bitmap_new /\ bitmap_ids bitmap_new = ∅.
Proof. by repeat constructor. Qed.

(** ** Sequences of allocator calls, and what they promise *)
Inductive id_op := Alloc | Free (id : Z) | FreeAll (ids : list Z).

Definition id_op_ok (o : id_op) : Prop :=
  match o with Alloc => True | Free id => u32 id | FreeAll ids => Forall u32 ids end.

(** The identifiers returned, in order. *)
Fixpoint run_ids {A} `{PathIdAllocator A} (ops : list id_op) (a : A) : A * list Z :=
  match ops with
  | [] => (a, [])
  | Alloc :: ops =>
      let '(a, id) := alloc a in let '(a, outs) := run_ids ops a in (a, id :: outs)
  | Free id :: ops => run_ids ops (free a id)
  | FreeAll ids :: ops => run_ids ops (free_all a ids)
  end.

(** The specification: [Alloc] takes the lowest positive identifier not in
    use. *)
Inductive id_steps : gset Z -> list id_op -> gset Z -> list Z -> Prop :=
  | steps_nil S : id_steps S [] S []
  | steps_alloc S id ops S' outs :
      1 <= id < 2 ^ 32 -> ~ (id ∈ S) -> (forall j, 1 <= j < id -> j ∈ S) ->
      id_steps ({[id]} ∪ S) ops S' outs -> id_steps S (Alloc :: ops) S' (id :: outs)
  | steps_free S id ops S' outs :
      id_steps (S ∖ {[id]}) ops S' outs -> id_steps S (Free id :: ops) S' outs
  | steps_free_all S ids ops S' outs :
      id_steps (S ∖ list_to_set ids) ops S' outs -> id_steps S (FreeAll ids :: ops) S' outs.

Lemma run_ids_ok ops a :
  bitmap_inv a -> Forall id_op_ok ops ->
  Z.of_nat (size (bitmap_ids a) + length ops) < 2 ^ 32 ->
  id_steps (bitmap_ids a) ops (bitmap_ids (run_ids ops a).1) (run_ids ops a).2.
Proof.
  revert a. induction ops as [|o ops IH]; intros a Ha Hops Hs; [constructor|].
  apply Forall_cons in Hops as [Ho Hops]. cbn [length] in Hs. destruct o as [|id|ids]; cbn [run_ids].
  - destruct (bitmap_alloc_ok a Ha) as (Hi & Hr & Hn & Hids & Hlow); [lia|].
    change (alloc a) with (bitmap_alloc a). destruct (bitmap_alloc a) as [a1 id]. cbn [fst snd] in *.
    assert (size (bitmap_ids a1) = S (size (bitmap_ids a))) as Hsz
      by (rewrite Hids, size_union, size_singleton; [lia|set_solver]).
    specialize (IH a1 Hi Hops ltac:(lia)). rewrite Hids in IH.
    destruct (run_ids ops a1) as [a2 outs]. by constructor.
  - destruct (bitmap_free_ok a id Ha Ho) as [Hi Hids]. constructor. rewrite <- Hids.
    apply IH; [done..|]. assert (size (bitmap_ids (bitmap_free a id)) <= size (bitmap_ids a))%nat; [|simpl; lia].
    rewrite Hids. apply subseteq_size. set_solver.
  - destruct (bitmap_free_all_ok a ids Ha Ho) as [Hi Hids]. constructor. rewrite <- Hids.
    apply IH; [done..|]. assert (size (bitmap_ids (bitmap_free_all a ids)) <= size (bitmap_ids a))%nat; [|simpl; lia].
    rewrite Hids. apply subseteq_size. set_solver.
Qed.

(** ** Properties *)

(**  From the empty bitmap, every [alloc] returns the lowest positive
    identifier not in use, whatever was freed in between, as long as fewer
    than 2^32 calls are made: identifiers are never zero, never handed out
    twice, and the u32 arithmetic does not wrap. *)
Theorem bitmap_allocates_lowest_free (ops : list id_op) :
  Forall id_op_ok ops -> Z.of_nat (length ops) < 2 ^ 32 ->
  id_steps ∅ ops (bitmap_ids (run_ids ops bitmap_new).1) (run_ids ops bitmap_new).2.
Proof.
  intros Hops Hlen. destruct bitmap_new_ok as [Hi Hids].
  pose proof (run_ids_ok ops bitmap_new Hi Hops) as H. rewrite Hids in H. by apply H.
Qed.

Definition demo_id_ops : list id_op :=
  replicate 66 Alloc ++ [Free 3; FreeAll [65; 64]; Alloc; Alloc; Alloc; Alloc].

Lemma bitmap_allocates_lowest_free_witness :
  id_steps ∅ demo_id_ops (bitmap_ids (run_ids demo_id_ops bitmap_new).1)
    (run_ids demo_id_ops bitmap_new).2.
Proof.
  apply (bitmap_allocates_lowest_free demo_id_ops).
  - unfold demo_id_ops. apply Forall_app. split; [by apply Forall_replicate|].
    repeat constructor; done.
  - done.
Defined.

Example demo_ids : drop 64 (run_ids demo_id_ops bitmap_new).2 = [65; 66; 3; 64; 65; 67].
Proof. vm_compute. reflexivity. Qed.
