(* ===== verification/Notification.v ===== *)
(** * BGP errors and NOTIFICATION messages ([bgpgg/src/bgp/msg_notification.rs],
    [ParserError] of [bgpgg/src/bgp/utils.rs])

    The error sub-enums keep the code's [Unknown] constructor for the
    subcodes they do not name. *)
From S2P Require Import Prelude.

Inductive MessageHeaderError :=
  | ConnectionNotSynchronized | BadMessageLength | BadMessageType | MhUnknown (v : Z).
Inductive OpenMessageError :=
  | UnsupportedVersionNumber | BadPeerAs | BadBgpIdentifier | UnsupportedOptionalParameter
  | UnacceptedHoldTime | UnsupportedCapability | OmUnknown (v : Z).
Inductive UpdateMessageError :=
  | MalformedAttributeList | UnrecognizedWellKnownAttribute | MissingWellKnownAttribute
  | AttributeFlagsError | AttributeLengthError | InvalidOriginAttribute
  | InvalidNextHopAttribute | OptionalAttributeError | InvalidNetworkField
  | MalformedASPath | UmUnknown (v : Z).
Inductive RouteRefreshMessageError := InvalidMessageLength | RrUnknown (v : Z).
Inductive CeaseSubcode :=
  | MaxPrefixesReached | AdministrativeShutdown | PeerDeconfigured | AdministrativeReset
  | ConnectionRejected | OtherConfigurationChange | ConnectionCollisionResolution
  | OutOfResources | CeaseUnknown (v : Z).

Inductive BgpError :=
  | EMessageHeader (e : MessageHeaderError)
  | EOpenMessage (e : OpenMessageError)
  | EUpdateMessage (e : UpdateMessageError)
  | EHoldTimerExpired
  | EFiniteStateMachine
  | ECease (e : CeaseSubcode)
  | ERouteRefresh (e : RouteRefreshMessageError)
  | EUnknown.

#[export] Instance MessageHeaderError_eq_dec : EqDecision MessageHeaderError.
Proof. solve_decision. Defined.
#[export] Instance OpenMessageError_eq_dec : EqDecision OpenMessageError.
Proof. solve_decision. Defined.
#[export] Instance UpdateMessageError_eq_dec : EqDecision UpdateMessageError.
Proof. solve_decision. Defined.
#[export] Instance RouteRefreshMessageError_eq_dec : EqDecision RouteRefreshMessageError.
Proof. solve_decision. Defined.
#[export] Instance CeaseSubcode_eq_dec : EqDecision CeaseSubcode.
Proof. solve_decision. Defined.
#[export] Instance BgpError_eq_dec : EqDecision BgpError.
Proof. solve_decision. Defined.

(** Text of an [IoError] is opaque to the code: a list of bytes here. *)
Inductive ParserError :=
  | IoError (msg : list Z)
  | BgpErr (error : BgpError) (data : list Z).

#[export] Instance ParserError_eq_dec : EqDecision ParserError.
Proof. solve_decision. Defined.

(** The error the UPDATE parsers raise, without data. *)
Definition update_err {A} (e : UpdateMessageError) : outcome ParserError A :=
  Err (BgpErr (EUpdateMessage e) []).

(** ** The [From<u8>] conversions *)
Definition header_error_from (v : Z) : MessageHeaderError :=
  if v =? 1 then ConnectionNotSynchronized else if v =? 2 then BadMessageLength
  else if v =? 3 then BadMessageType else MhUnknown v.

Definition open_error_from (v : Z) : OpenMessageError :=
  if v =? 1 then UnsupportedVersionNumber else if v =? 2 then BadPeerAs
  else if v =? 3 then BadBgpIdentifier else if v =? 4 then UnsupportedOptionalParameter
  else if v =? 6 then UnacceptedHoldTime else if v =? 7 then UnsupportedCapability
  else OmUnknown v.

Definition update_error_from (v : Z) : UpdateMessageError :=
  if v =? 1 then MalformedAttributeList else if v =? 2 then UnrecognizedWellKnownAttribute
  else if v =? 3 then MissingWellKnownAttribute else if v =? 4 then AttributeFlagsError
  else if v =? 5 then AttributeLengthError else if v =? 6 then InvalidOriginAttribute
  else if v =? 8 then InvalidNextHopAttribute else if v =? 9 then OptionalAttributeError
  else if v =? 10 then InvalidNetworkField else if v =? 11 then MalformedASPath
  else UmUnknown v.

Definition route_refresh_error_from (v : Z) : RouteRefreshMessageError :=
  if v =? 1 then InvalidMessageLength else RrUnknown v.

Definition cease_from (v : Z) : CeaseSubcode :=
  if v =? 1 then MaxPrefixesReached else if v =? 2 then AdministrativeShutdown
  else if v =? 3 then PeerDeconfigured else if v =? 4 then AdministrativeReset
  else if v =? 5 then ConnectionRejected else if v =? 6 then OtherConfigurationChange
  else if v =? 7 then ConnectionCollisionResolution else if v =? 8 then OutOfResources
  else CeaseUnknown v.

Definition bgp_error_new (err_code err_sub_code : Z) : BgpError :=
  if err_code =? 1 then EMessageHeader (header_error_from err_sub_code)
  else if err_code =? 2 then EOpenMessage (open_error_from err_sub_code)
  else if err_code =? 3 then EUpdateMessage (update_error_from err_sub_code)
  else if err_code =? 4 then EHoldTimerExpired
  else if err_code =? 5 then EFiniteStateMachine
  else if err_code =? 6 then ECease (cease_from err_sub_code)
  else if err_code =? 7 then ERouteRefresh (route_refresh_error_from err_sub_code)
  else EUnknown.

Definition error_code (e : BgpError) : Z :=
  match e with
  | EMessageHeader _ => 1 | EOpenMessage _ => 2 | EUpdateMessage _ => 3
  | EHoldTimerExpired => 4 | EFiniteStateMachine => 5 | ECease _ => 6
  | ERouteRefresh _ => 7 | EUnknown => 0
  end.

Definition error_subcode (e : BgpError) : Z :=
  match e with
  | EMessageHeader ConnectionNotSynchronized => 1
  | EMessageHeader BadMessageLength => 2
  | EMessageHeader BadMessageType => 3
  | EMessageHeader (MhUnknown v) => v
  | EOpenMessage UnsupportedVersionNumber => 1
  | EOpenMessage BadPeerAs => 2
  | EOpenMessage BadBgpIdentifier => 3
  | EOpenMessage UnsupportedOptionalParameter => 4
  | EOpenMessage UnacceptedHoldTime => 6
  | EOpenMessage UnsupportedCapability => 7
  | EOpenMessage (OmUnknown v) => v
  | EUpdateMessage MalformedAttributeList => 1
  | EUpdateMessage UnrecognizedWellKnownAttribute => 2
  | EUpdateMessage MissingWellKnownAttribute => 3
  | EUpdateMessage AttributeFlagsError => 4
  | EUpdateMessage AttributeLengthError => 5
  | EUpdateMessage InvalidOriginAttribute => 6
  | EUpdateMessage InvalidNextHopAttribute => 8
  | EUpdateMessage OptionalAttributeError => 9
  | EUpdateMessage InvalidNetworkField => 10
  | EUpdateMessage MalformedASPath => 11
  | EUpdateMessage (UmUnknown v) => v
  | ECease MaxPrefixesReached => 1
  | ECease AdministrativeShutdown => 2
  | ECease PeerDeconfigured => 3
  | ECease AdministrativeReset => 4
  | ECease ConnectionRejected => 5
  | ECease OtherConfigurationChange => 6
  | ECease ConnectionCollisionResolution => 7
  | ECease OutOfResources => 8
  | ECease (CeaseUnknown v) => v
  | ERouteRefresh InvalidMessageLength => 1
  | ERouteRefresh (RrUnknown v) => v
  | _ => 0
  end.

(** ** Messages *)
Record NotificationMessage := mkNotification { n_error : BgpError; n_data : list Z }.

Definition notification_from_parser_error (e : ParserError) : option NotificationMessage :=
  match e with BgpErr error data => Some (mkNotification error data) | IoError _ => None end.

Definition notification_from_bytes (bytes : list Z) : NotificationMessage :=
  match bytes with
  | err_code :: err_sub_code :: data => mkNotification (bgp_error_new err_code err_sub_code) data
  | _ => mkNotification EUnknown bytes
  end.

Definition notification_to_bytes (n : NotificationMessage) : list Z :=
  error_code (n_error n) :: error_subcode (n_error n) :: n_data n.

Definition is_version_error (n : NotificationMessage) : bool :=
  match n_error n with EOpenMessage UnsupportedVersionNumber => true | _ => false end.

(** An error whose [Unknown] payload is not a code that has a name: what
    [bgp_error_new] returns. *)
Definition error_normal (e : BgpError) : Prop :=
  match e with
  | EMessageHeader (MhUnknown v) => header_error_from v = MhUnknown v
  | EOpenMessage (OmUnknown v) => open_error_from v = OmUnknown v
  | EUpdateMessage (UmUnknown v) => update_error_from v = UmUnknown v
  | ECease (CeaseUnknown v) => cease_from v = CeaseUnknown v
  | ERouteRefresh (RrUnknown v) => route_refresh_error_from v = RrUnknown v
  | _ => True
  end.

#[local] Ltac code_cases :=
  repeat match goal with |- context [?x =? ?y] => destruct (Z.eqb_spec x y); subst; try done end.

Lemma bgp_error_codes e : error_normal e -> bgp_error_new (error_code e) (error_subcode e) = e.
Proof.
  destruct e as [[]|[]|[]| | |[]|[]|]; simpl; intros H; try reflexivity;
    unfold bgp_error_new; simpl; by rewrite H.
Qed.

(** The subcode is kept for the errors that have one. *)
Lemma bgp_error_new_subcode c s :
  c = 1 \/ c = 2 \/ c = 3 \/ c = 6 \/ c = 7 ->
  error_code (bgp_error_new c s) = c /\ error_subcode (bgp_error_new c s) = s.
Proof.
  intros [->|[->|[->|[->| ->]]]]; (split; [reflexivity|]); cbn;
    unfold header_error_from, open_error_from, update_error_from, cease_from,
      route_refresh_error_from; code_cases.
Qed.

(** The five conversions are the identity on what they do not name. *)
#[local] Ltac from_unknown f := unfold f; code_cases; by intros [= ->].

Lemma header_unknown s v : header_error_from s = MhUnknown v -> v = s.
Proof. from_unknown header_error_from. Qed.
Lemma open_unknown s v : open_error_from s = OmUnknown v -> v = s.
Proof. from_unknown open_error_from. Qed.
Lemma update_unknown s v : update_error_from s = UmUnknown v -> v = s.
Proof. from_unknown update_error_from. Qed.
Lemma cease_unknown s v : cease_from s = CeaseUnknown v -> v = s.
Proof. from_unknown cease_from. Qed.
Lemma route_refresh_unknown s v : route_refresh_error_from s = RrUnknown v -> v = s.
Proof. from_unknown route_refresh_error_from. Qed.

Lemma bgp_error_new_normal c s : error_normal (bgp_error_new c s).
Proof.
  unfold bgp_error_new, error_normal.
  repeat match goal with |- context [c =? ?y] => destruct (Z.eqb_spec c y); [try done|] end; try done.
  - destruct (header_error_from s) eqn:E; try done. pose proof (header_unknown _ _ E); by subst.
  - destruct (open_error_from s) eqn:E; try done. pose proof (open_unknown _ _ E); by subst.
  - destruct (update_error_from s) eqn:E; try done. pose proof (update_unknown _ _ E); by subst.
  - destruct (cease_from s) eqn:E; try done. pose proof (cease_unknown _ _ E); by subst.
  - destruct (route_refresh_error_from s) eqn:E; try done. pose proof (route_refresh_unknown _ _ E); by subst.
Qed.

(** ** Properties *)

(**  Writing a NOTIFICATION and reading it back gives the same message. *)
Theorem notification_roundtrip (n : NotificationMessage) :
  error_normal (n_error n) -> notification_from_bytes (notification_to_bytes n) = n.
Proof.
  intros H. unfold notification_from_bytes, notification_to_bytes.
  rewrite bgp_error_codes by done. by destruct n.
Qed.

Lemma notification_roundtrip_witness :
  let n := mkNotification (ECease (CeaseUnknown 9)) [1; 2] in
  notification_from_bytes (notification_to_bytes n) = n.
Proof. intros n. apply notification_roundtrip. reflexivity. Defined.

(** Reading a NOTIFICATION of at least two bytes and writing it back
    reproduces the bytes for the error codes that have subcodes; for the
    others (hold timer, FSM and unknown codes) the data is kept, the subcode
    becomes zero, and an unknown code becomes zero as well. *)
Theorem notification_reencode (c s : Z) (data : list Z) :
  notification_to_bytes (notification_from_bytes (c :: s :: data)) =
    (if bool_decide (c ∈ [1; 2; 3; 6; 7]) then c :: s :: data
     else if bool_decide (c ∈ [4; 5]) then c :: 0 :: data else 0 :: 0 :: data) /\
  error_normal (n_error (notification_from_bytes (c :: s :: data))).
Proof.
  split; [|apply bgp_error_new_normal]. cbn [notification_from_bytes].
  unfold notification_to_bytes. cbn [n_error n_data].
  destruct (bool_decide_reflect (c ∈ [1; 2; 3; 6; 7])) as [Hc|Hc].
  - destruct (bgp_error_new_subcode c s) as [-> ->]; [set_solver|done].
  - destruct (bool_decide_reflect (c ∈ [4; 5])) as [Hc'|Hc'].
    + assert (c = 4 \/ c = 5) as [-> | ->] by set_solver; reflexivity.
    + unfold bgp_error_new. code_cases; set_solver.
Qed.
