(* ===== verification/Nlri.v ===== *)
(** * Prefix lists on the wire ([bgpgg/src/bgp/utils.rs], [write_nlri_list] of
    [bgpgg/src/bgp/msg_update_codec.rs], [Nlri] of
    [bgpgg/src/bgp/msg_update_types.rs])

    A cursor into a buffer is the rest of the buffer.  Indexing past the end
    is a [Panic]. *)
From S2P Require Import Prelude Net Notification.

Record Nlri := mkNlri { nlri_prefix : IpNetwork; nlri_path_id : option Z }.

#[export] Instance Nlri_eq_dec : EqDecision Nlri.
Proof. solve_decision. Defined.

Definition make_nlri_list (prefixes : list IpNetwork) (path_id : option Z) : list Nlri :=
  map (fun net => mkNlri net path_id) prefixes.

(** ** Reading *)
Definition validate_and_calculate_byte_len (prefix_length max_prefix_len : Z)
    (remaining_bytes : nat) : outcome ParserError nat :=
  if max_prefix_len <? prefix_length then update_err InvalidNetworkField
  else
    let byte_len := Z.to_nat ((prefix_length + 7) / 8) in
    if (remaining_bytes <? byte_len)%nat then update_err InvalidNetworkField else Ok byte_len.

Definition PATH_ID_LEN : nat := 4.

Definition parse_path_id (bytes : list Z) (add_path : bool) : outcome ParserError (option Z) :=
  if negb add_path then Ok None
  else if (length bytes <? PATH_ID_LEN)%nat then update_err InvalidNetworkField
  else Ok (Some (be_val (take 4 bytes))).

(** One turn of the loop, generic in the address width ([nbytes] octets) and
    in what the entry becomes; the result is the entry, if it is kept, and
    the rest of the buffer. *)
Definition parse_entry (nbytes : nat) (mk : Z -> Z -> option IpNetwork) (bytes : list Z)
    (add_path : bool) : outcome ParserError (option Nlri * list Z) :=
  path_id ← parse_path_id bytes add_path;
  let bytes := match path_id with Some _ => drop PATH_ID_LEN bytes | None => bytes end in
  prefix_length ← index bytes 0;
  let bytes := drop 1 bytes in
  byte_len ← validate_and_calculate_byte_len prefix_length (8 * Z.of_nat nbytes) (length bytes);
  let address := be_val (take byte_len bytes ++ replicate (nbytes - byte_len) 0) in
  Ok ((fun net => mkNlri net path_id) <$> mk address prefix_length, drop byte_len bytes).

(** The loop; every turn consumes a byte, so the length of the buffer is
    enough fuel. *)
Fixpoint parse_entries (nbytes : nat) (mk : Z -> Z -> option IpNetwork) (fuel : nat)
    (bytes : list Z) (add_path : bool) : outcome ParserError (list Nlri) :=
  match bytes with
  | [] => Ok []
  | _ =>
      match fuel with
      | O => Panic
      | S fuel =>
          '(entry, bytes) ← parse_entry nbytes mk bytes add_path;
          rest ← parse_entries nbytes mk fuel bytes add_path;
          Ok (option_list entry ++ rest)
      end
  end.

(** Multicast IPv4 prefixes are skipped. *)
Definition mk_v4_entry (address len : Z) : option IpNetwork :=
  if is_multicast (mkV4 address len) then None else Some (V4 (mkV4 address len)).
Definition mk_v6_entry (address len : Z) : option IpNetwork := Some (V6 (mkV6 address len)).

Definition parse_nlri_list (bytes : list Z) (add_path : bool) : outcome ParserError (list Nlri) :=
  parse_entries 4 mk_v4_entry (length bytes) bytes add_path.
Definition parse_nlri_v6_list (bytes : list Z) (add_path : bool) : outcome ParserError (list Nlri) :=
  parse_entries 16 mk_v6_entry (length bytes) bytes add_path.

Definition read_u32 (bytes : list Z) : outcome ParserError Z :=
  if (length bytes =? 4)%nat then Ok (be_val bytes) else update_err AttributeLengthError.

Definition is_valid_unicast_ipv4 (ip : Z) : bool :=
  negb ((ip =? 0) || (ip =? 0xFFFFFFFF) || (Z.land ip 0xF0000000 =? 0xE0000000)).

(** ** Writing: [octets[..num_octets]] panics on a prefix length the type
    admits and the address does not *)
Definition prefix_octets (nbytes : nat) (address len : Z) : option (list Z) :=
  let num_octets := Z.to_nat ((len + 7) / 8) in
  if (num_octets <=? nbytes)%nat then Some (take num_octets (be_bytes nbytes address)) else None.

Definition write_nlri (n : Nlri) : option (list Z) :=
  let pid := match nlri_path_id n with Some pid => be_bytes 4 pid | None => [] end in
  octets ← match nlri_prefix n with
           | V4 net => prefix_octets 4 (v4_address net) (v4_len net)
           | V6 net => prefix_octets 16 (v6_address net) (v6_len net)
           end;
  Some (pid ++ [network_prefix_len (nlri_prefix n)] ++ octets).

Fixpoint write_nlri_list (l : list Nlri) : option (list Z) :=
  match l with
  | [] => Some []
  | n :: rest => bytes ← write_nlri n; more ← write_nlri_list rest; Some (bytes ++ more)
  end.

(** ** The loop *)
Lemma parse_path_id_ok bytes add_path :
  match parse_path_id bytes add_path with
  | Ok pid => (add_path = false /\ pid = None) \/
      (add_path = true /\ pid = Some (be_val (take 4 bytes)) /\ (4 <= length bytes)%nat)
  | Err _ => add_path = true /\ (length bytes < 4)%nat
  | Panic => False
  end.
Proof.
  unfold parse_path_id, PATH_ID_LEN. destruct add_path; simpl; [|by left].
  destruct (Nat.ltb_spec (length bytes) 4); [done|by right].
Qed.

(** The bytes an entry needs before its prefix length. *)
Definition pid_len (add_path : bool) : nat := if add_path then PATH_ID_LEN else 0.

Lemma parse_entry_eq nbytes mk bytes add_path :
  parse_entry nbytes mk bytes add_path =
    if add_path && (length bytes <? 4)%nat then update_err InvalidNetworkField
    else
      let pid := if add_path then Some (be_val (take 4 bytes)) else None in
      match drop (pid_len add_path) bytes with
      | [] => Panic
      | len :: bytes =>
          match validate_and_calculate_byte_len len (8 * Z.of_nat nbytes) (length bytes) with
          | Ok k => Ok ((fun net => mkNlri net pid) <$>
                          mk (be_val (take k bytes ++ replicate (nbytes - k) 0)) len, drop k bytes)
          | Err e => Err e
          | Panic => Panic
          end
      end.
Proof.
  unfold parse_entry, parse_path_id, pid_len, PATH_ID_LEN. destruct add_path; simpl.
  - destruct (Nat.ltb_spec (length bytes) 4); [done|]. simpl. unfold index.
    destruct (drop 4 bytes) as [|len rest]; [done|]. simpl.
    by destruct (validate_and_calculate_byte_len _ _ _).
  - unfold index. destruct bytes as [|len rest]; [done|]. simpl.
    by destruct (validate_and_calculate_byte_len _ _ _).
Qed.

Lemma validate_len_ok len max rem k :
  validate_and_calculate_byte_len len max rem = Ok k <->
  len <= max /\ k = Z.to_nat ((len + 7) / 8) /\ (k <= rem)%nat.
Proof.
  unfold validate_and_calculate_byte_len. destruct (Z.ltb_spec max len).
  { split; [done|lia]. }
  destruct (Nat.ltb_spec rem (Z.to_nat ((len + 7) / 8))).
  - split; [done|]. intros (_ & -> & ?). lia.
  - split; [intros [= <-]; by split_and!|]. by intros (_ & -> & _).
Qed.

Lemma validate_len_panic len max rem : validate_and_calculate_byte_len len max rem <> Panic.
Proof. unfold validate_and_calculate_byte_len. by repeat case_match. Qed.

(** An entry that parses has consumed a non-empty part of the buffer, and
    what follows that part plays no role. *)
Lemma parse_entry_split nbytes mk bytes add_path e rest :
  parse_entry nbytes mk bytes add_path = Ok (e, rest) ->
  exists used, used <> [] /\ bytes = used ++ rest /\
    forall tail, parse_entry nbytes mk (used ++ tail) add_path = Ok (e, tail).
Proof.
  setoid_rewrite parse_entry_eq. destruct (add_path && _) eqn:Eap; [done|].
  destruct (drop (pid_len add_path) bytes) as [|len body] eqn:Ed; [done|].
  destruct (validate_and_calculate_byte_len _ _ _) as [k| |] eqn:Ev; [|done..].
  apply validate_len_ok in Ev as (Hmax & Hk & Hrem). intros [= <- <-].
  assert (length (take (pid_len add_path) bytes) = pid_len add_path) as Hpl.
  { assert (length (drop (pid_len add_path) bytes) = S (length body)) as Hl by by rewrite Ed.
    rewrite length_drop in Hl. rewrite length_take. lia. }
  exists (take (pid_len add_path) bytes ++ len :: take k body). split_and!.
  - by destruct (take (pid_len add_path) bytes).
  - rewrite <- app_assoc. cbn [app]. rewrite (take_drop k body), <- Ed. by rewrite take_drop.
  - intros tail. rewrite <- app_assoc. cbn [app].
    assert (add_path && (length (take (pid_len add_path) bytes ++ len :: take k body ++ tail) <? 4)%nat
            = false) as ->.
    { destruct add_path; [|done]. apply Nat.ltb_ge. rewrite length_app, Hpl. unfold pid_len, PATH_ID_LEN. lia. }
    rewrite drop_app_length' by done.
    assert (validate_and_calculate_byte_len len (8 * Z.of_nat nbytes) (length (take k body ++ tail)) = Ok k)
      as -> by (apply validate_len_ok; rewrite length_app, length_take; lia).
    rewrite (take_app_length' (take k body)), (drop_app_length' (take k body)) by (rewrite length_take; lia).
    destruct add_path; [|done]. unfold pid_len, PATH_ID_LEN in *. by rewrite take_app_length'.
Qed.

Lemma parse_entry_inv nbytes mk bytes add_path e rest :
  parse_entry nbytes mk bytes add_path = Ok (e, rest) ->
  (length rest < length bytes)%nat /\
  forall tail, parse_entry nbytes mk (bytes ++ tail) add_path = Ok (e, rest ++ tail).
Proof.
  intros (used & Hne & -> & Hused)%parse_entry_split. split.
  - rewrite length_app. destruct used; [done|simpl; lia].
  - intros tail. rewrite <- app_assoc. apply Hused.
Qed.

(** Enough fuel is enough. *)
Lemma parse_entries_fuel nbytes mk n m bytes add_path :
  (length bytes <= n)%nat -> (length bytes <= m)%nat ->
  parse_entries nbytes mk n bytes add_path = parse_entries nbytes mk m bytes add_path.
Proof.
  revert m bytes. induction n as [|n IH]; intros m bytes Hn Hm.
  { destruct bytes; [by destruct m|simpl in *; lia]. }
  destruct m as [|m]; [destruct bytes; [done|simpl in *; lia]|].
  destruct bytes as [|b bytes]; [done|]. cbn [parse_entries].
  destruct (parse_entry _ _ _ _) as [[e rest]| |] eqn:E; [|done..].
  apply parse_entry_inv in E as [Hlt _]. cbn [mbind outcome_bind].
  rewrite (IH m rest); [done|simpl in *; lia..].
Qed.

Definition parse_all nbytes mk bytes add_path := parse_entries nbytes mk (length bytes) bytes add_path.

Lemma parse_all_nil nbytes mk add_path : parse_all nbytes mk [] add_path = Ok [].
Proof. done. Qed.

Lemma parse_all_cons nbytes mk bytes add_path :
  bytes <> [] ->
  parse_all nbytes mk bytes add_path =
    '(e, rest) ← parse_entry nbytes mk bytes add_path;
    more ← parse_all nbytes mk rest add_path; Ok (option_list e ++ more).
Proof.
  intros Hne. unfold parse_all. destruct bytes as [|b bytes]; [done|].
  cbn [parse_entries length].
  destruct (parse_entry _ _ _ _) as [[e rest]| |] eqn:E; [|done..].
  apply parse_entry_inv in E as [Hlt _]. cbn [mbind outcome_bind].
  rewrite (parse_entries_fuel _ _ (length bytes) (length rest)); [done|simpl in *; lia..].
Qed.

(** Induction over the entries of a buffer. *)
Lemma parse_all_ind nbytes mk add_path (P : list Z -> Prop) :
  P [] ->
  (forall bytes, bytes <> [] ->
     (forall e rest, parse_entry nbytes mk bytes add_path = Ok (e, rest) -> P rest) -> P bytes) ->
  forall bytes, P bytes.
Proof.
  intros H0 Hs bytes. induction bytes as [bytes IH] using (induction_ltof1 _ (@length Z)).
  destruct (decide (bytes = [])) as [->|Hne]; [done|]. apply Hs; [done|].
  intros e rest E. apply IH. unfold ltof. by eapply parse_entry_inv.
Qed.

Lemma parse_all_app nbytes mk add_path bytes l tail :
  parse_all nbytes mk bytes add_path = Ok l ->
  parse_all nbytes mk (bytes ++ tail) add_path =
    more ← parse_all nbytes mk tail add_path; Ok (l ++ more).
Proof.
  revert l. induction bytes as [|bytes Hne IH] using (parse_all_ind nbytes mk add_path); intros l.
  { intros [= <-]. simpl. by destruct (parse_all _ _ tail _). }
  rewrite (parse_all_cons _ _ bytes) by done.
  destruct (parse_entry _ _ bytes _) as [[e rest]| |] eqn:E; [|done..].
  pose proof (proj2 (parse_entry_inv _ _ _ _ _ _ E) tail) as E'. cbn [mbind outcome_bind].
  specialize (IH e rest eq_refl). destruct (parse_all _ _ rest _) as [l'| |] eqn:El; [|done..].
  intros [= <-]. rewrite parse_all_cons by (by destruct bytes). rewrite E'. cbn [mbind outcome_bind].
  rewrite (IH l') by done. destruct (parse_all _ _ tail _); [|done..]. simpl. by rewrite app_assoc.
Qed.

(** What parsing gives is in range. *)
Lemma parse_all_forall nbytes mk (add_path : bool) (Q : Nlri -> Prop) bytes l :
  (forall addr len net pid, 0 <= addr < 256 ^ Z.of_nat nbytes -> 0 <= len <= 8 * Z.of_nat nbytes ->
     mk addr len = Some net -> (if add_path then exists v : Z, pid = Some v /\ u32 v else pid = None) ->
     Q (mkNlri net pid)) ->
  bytes_ok bytes -> parse_all nbytes mk bytes add_path = Ok l -> Forall Q l.
Proof.
  intros HQ. revert l. induction bytes as [|bytes Hne IH] using (parse_all_ind nbytes mk add_path);
    intros l Hb; [by intros [= <-]|].
  rewrite parse_all_cons by done.
  destruct (parse_entry _ _ bytes _) as [[e rest]| |] eqn:E; [|done..]. cbn [mbind outcome_bind].
  pose proof E as E'. rewrite parse_entry_eq in E'.
  destruct (add_path && _) eqn:Eap; [done|].
  destruct (drop (pid_len add_path) bytes) as [|len body] eqn:Ed; [done|].
  destruct (validate_and_calculate_byte_len _ _ _) as [k| |] eqn:Ev; [|done..].
  apply validate_len_ok in Ev as (Hmax & Hk & Hrem). injection E' as <- <-.
  assert (bytes_ok (len :: body)) as Hlb by (rewrite <- Ed; by apply Forall_drop).
  apply Forall_cons in Hlb as [Hlen Hbody]. unfold u8 in Hlen.
  assert (k <= nbytes)%nat by (subst k; apply Nat2Z.inj_le; rewrite Z2Nat.id by (apply Z.div_pos; lia);
    apply Z.lt_succ_r, Z.div_lt_upper_bound; lia).
  destruct (parse_all _ _ (drop k body) _) as [l'| |] eqn:El; [|done..].
  intros [= <-]. apply Forall_app. split.
  - destruct (mk (be_val (take k body ++ replicate (nbytes - k) 0)) len) as [net|] eqn:Em; [|constructor]. simpl. constructor; [|constructor].
    assert (bytes_ok (take k body ++ replicate (nbytes - k) 0)) as Hab.
    { apply Forall_app. split; [by apply Forall_take|]. by apply Forall_replicate. }
    eapply HQ; [|by split; [apply Hlen|lia]|done|].
    + pose proof (be_val_bounds _ Hab) as Hr.
      rewrite length_app, length_take, length_replicate in Hr.
      by replace (k `min` length body + (nbytes - k))%nat with nbytes in Hr by lia.
    + destruct add_path; [|done]. eexists. split; [done|]. simpl in Eap. apply Nat.ltb_ge in Eap.
      pose proof (be_val_bounds (take 4 bytes)) as Hp. rewrite length_take in Hp.
      replace (4 `min` length bytes)%nat with 4%nat in Hp by lia.
      apply Hp. by apply Forall_take.
  - eapply IH; [done| |done]. by apply Forall_drop.
Qed.

(** ** Reading back what was written *)
Definition wire_len (len : Z) : nat := Z.to_nat ((len + 7) / 8).

Lemma wire_len_le nbytes len :
  0 <= len <= 8 * Z.of_nat nbytes -> (wire_len len <= nbytes)%nat.
Proof.
  intros H. unfold wire_len. apply Nat2Z.inj_le. rewrite Z2Nat.id by (apply Z.div_pos; lia).
  apply Z.lt_succ_r, Z.div_lt_upper_bound; lia.
Qed.

(** The address has no bit set past the octets that are sent. *)
Definition addr_fits (nbytes : nat) (address len : Z) : Prop :=
  0 <= address < 256 ^ Z.of_nat nbytes /\ 0 <= len <= 8 * Z.of_nat nbytes /\
  address mod 256 ^ Z.of_nat (nbytes - wire_len len) = 0.

Lemma be_bytes_zero n : be_bytes n 0 = replicate n 0.
Proof. induction n as [|n IH]; [done|]. cbn [be_bytes replicate]. by rewrite IH, Z.div_0_l by (pose proof (pow256_pos n); lia). Qed.

Lemma drop_be_bytes n k v : (k <= n)%nat -> drop k (be_bytes n v) = be_bytes (n - k) v.
Proof.
  revert k. induction n as [|n IH]; intros k Hk; [by destruct k; simpl; try lia|].
  destruct k as [|k]; [done|]. simpl. apply IH. lia.
Qed.

Lemma octets_roundtrip nbytes address len :
  addr_fits nbytes address len ->
  prefix_octets nbytes address len = Some (take (wire_len len) (be_bytes nbytes address)) /\
  be_val (take (wire_len len) (be_bytes nbytes address) ++ replicate (nbytes - wire_len len) 0)
    = address.
Proof.
  intros (Ha & Hl & Hz). pose proof (wire_len_le _ _ Hl) as Hk. unfold prefix_octets.
  fold (wire_len len). destruct (Nat.leb_spec (wire_len len) nbytes); [|lia]. split; [done|].
  rewrite <- be_bytes_zero, <- Hz, be_bytes_mod, <- drop_be_bytes, take_drop by done.
  by apply be_val_be_bytes_id.
Qed.

(** The entries that survive: in range, without stray bits, an identifier
    exactly when the session uses them, and no IPv4 multicast. *)
Definition wire_nlri (v6 add_path : bool) (n : Nlri) : Prop :=
  match nlri_prefix n with
  | V4 net => v6 = false /\ addr_fits 4 (v4_address net) (v4_len net) /\ is_multicast net = false
  | V6 net => v6 = true /\ addr_fits 16 (v6_address net) (v6_len net)
  end /\
  match nlri_path_id n with Some pid => add_path = true /\ u32 pid | None => add_path = false end.

Lemma parse_entry_write nbytes mk add_path pid address len rest :
  addr_fits nbytes address len ->
  match pid with Some pid => add_path = true /\ u32 pid | None => add_path = false end ->
  parse_entry nbytes mk
    ((match pid with Some pid => be_bytes 4 pid | None => [] end ++ [len] ++
       take (wire_len len) (be_bytes nbytes address)) ++ rest) add_path
  = Ok ((fun net => mkNlri net pid) <$> mk address len, rest).
Proof.
  intros Ha Hp. pose proof (octets_roundtrip _ _ _ Ha) as [_ Hback].
  destruct Ha as (Ha & Hl & Hz). pose proof (wire_len_le _ _ Hl) as Hk.
  set (oct := take (wire_len len) (be_bytes nbytes address)) in *.
  assert (length oct = wire_len len) as Hoct
    by (unfold oct; rewrite length_take, length_be_bytes; lia).
  assert (validate_and_calculate_byte_len len (8 * Z.of_nat nbytes) (length (oct ++ rest))
          = Ok (wire_len len)) as Hv
    by (apply validate_len_ok; rewrite length_app; unfold wire_len in *; lia).
  rewrite parse_entry_eq. destruct pid as [pid|].
  - destruct Hp as [-> Hp]. rewrite <- !app_assoc. cbn [andb app pid_len].
    destruct (Nat.ltb_spec (length (be_bytes 4 pid ++ len :: oct ++ rest)) 4) as [Hc|_].
    { rewrite length_app, length_be_bytes in Hc. lia. }
    rewrite (take_app_length' _ _ 4), (drop_app_length' _ _ PATH_ID_LEN) by done.
    rewrite Hv, be_val_be_bytes_id by (unfold u32 in Hp; lia).
    rewrite (take_app_length' oct), (drop_app_length' oct) by done. by rewrite Hback.
  - subst add_path. cbn [andb app pid_len drop]. rewrite Hv.
    rewrite (take_app_length' oct), (drop_app_length' oct) by done. by rewrite Hback.
Qed.

(** The parser of one family, on what [write_nlri_list] wrote. *)
Lemma parse_write_all (v6 : bool) add_path l :
  Forall (wire_nlri v6 add_path) l ->
  exists bytes, write_nlri_list l = Some bytes /\
    (if v6 then parse_nlri_v6_list else parse_nlri_list) bytes add_path = Ok l.
Proof.
  assert (forall bytes, (if v6 then parse_nlri_v6_list else parse_nlri_list) bytes add_path =
    parse_all (if v6 then 16%nat else 4%nat) (if v6 then mk_v6_entry else mk_v4_entry) bytes add_path)
    as Heq by (by destruct v6).
  setoid_rewrite Heq. clear Heq.
  induction 1 as [|[p pid] l [Hn Hpid] _ (bytes & Ew & Ep)]; [by exists []|].
  simpl in Hn, Hpid. destruct p as [[a len]|[a len]]; simpl in Hn.
  - destruct Hn as (-> & Ha & Hm). destruct (octets_roundtrip _ _ _ Ha) as [Eo _].
    eexists. split.
    + cbn [write_nlri_list]. unfold write_nlri. cbn [nlri_prefix nlri_path_id v4_address v4_len].
      rewrite Eo. cbn [mbind option_bind]. by rewrite Ew.
    + rewrite parse_all_cons by (destruct pid; [destruct (be_bytes 4 z) eqn:E; by try done|done]).
      cbn [network_prefix_len v4_len].
      rewrite (parse_entry_write 4 mk_v4_entry) by done. cbn [mbind outcome_bind].
      rewrite Ep. unfold mk_v4_entry. by rewrite Hm.
  - destruct Hn as (-> & Ha). destruct (octets_roundtrip _ _ _ Ha) as [Eo _].
    eexists. split.
    + cbn [write_nlri_list]. unfold write_nlri. cbn [nlri_prefix nlri_path_id v6_address v6_len].
      rewrite Eo. cbn [mbind option_bind]. by rewrite Ew.
    + rewrite parse_all_cons by (destruct pid; [destruct (be_bytes 4 z) eqn:E; by try done|done]).
      cbn [network_prefix_len v6_len].
      rewrite (parse_entry_write 16 mk_v6_entry) by done. cbn [mbind outcome_bind].
      by rewrite Ep.
Qed.

(** ** Panics *)
Lemma parse_entry_panic nbytes mk bytes add_path :
  bytes <> [] ->
  parse_entry nbytes mk bytes add_path = Panic <-> add_path = true /\ length bytes = 4%nat.
Proof.
  intros Hne. rewrite parse_entry_eq. unfold pid_len, PATH_ID_LEN.
  destruct add_path; cbn [andb].
  - destruct (Nat.ltb_spec (length bytes) 4).
    { split; [done|lia]. }
    destruct (drop 4 bytes) as [|len body] eqn:Ed.
    + assert (length (drop 4 bytes) = 0%nat) as Hl by by rewrite Ed. rewrite length_drop in Hl.
      split; [intros _; lia|done].
    + assert (length (drop 4 bytes) = S (length body)) as Hl by by rewrite Ed.
      rewrite length_drop in Hl. split; [|lia]. pose proof (validate_len_panic len (8 * Z.of_nat nbytes) (length body)).
      by destruct (validate_and_calculate_byte_len _ _ _).
  - rewrite drop_0. destruct bytes as [|len body]; [done|]. split; [|by intros []].
    pose proof (validate_len_panic len (8 * Z.of_nat nbytes) (length body)).
    by destruct (validate_and_calculate_byte_len _ _ _).
Qed.

Lemma parse_all_panic nbytes mk bytes add_path :
  parse_all nbytes mk bytes add_path = Panic <->
  add_path = true /\ exists pre tail l, bytes = pre ++ tail /\ length tail = 4%nat /\
    parse_all nbytes mk pre add_path = Ok l.
Proof.
  split.
  - induction bytes as [|bytes Hne IH] using (parse_all_ind nbytes mk add_path); [done|].
    rewrite parse_all_cons by done.
    destruct (parse_entry _ _ bytes _) as [[e rest]| |] eqn:E; [|done|].
    + cbn [mbind outcome_bind]. specialize (IH e rest eq_refl).
      destruct (parse_all _ _ rest _) as [more| |] eqn:Er; [done..|]. intros _.
      destruct (IH eq_refl) as (Hap & pre & tail & l & -> & Ht & Hpre). split; [done|].
      (* what the first entry consumed, and the parsed part of the rest *)
      destruct (parse_entry_split nbytes mk bytes add_path e (pre ++ tail) E) as (used & Hu & -> & Hused).
      exists (used ++ pre), tail, (option_list e ++ l). rewrite app_assoc. split_and!; [done..|].
      rewrite parse_all_cons by (by destruct used).
      by rewrite Hused; cbn [mbind outcome_bind]; rewrite Hpre.
    + intros _. apply parse_entry_panic in E as [-> Hl]; [|done]. split; [done|].
      by exists [], bytes, [].
  - intros (-> & pre & tail & l & -> & Ht & Hpre). rewrite (parse_all_app _ _ _ _ _ _ Hpre).
    rewrite parse_all_cons by (by destruct tail).
    assert (parse_entry nbytes mk tail true = Panic) as ->; [|done].
    apply parse_entry_panic; [by destruct tail|done].
Qed.

(** ** Properties *)

(**  Every list of prefixes that can be sent in one family is written
    without a panic and read back unchanged, with and without path
    identifiers. *)
Theorem nlri_list_roundtrip (v6 add_path : bool) (l : list Nlri) :
  Forall (wire_nlri v6 add_path) l ->
  exists bytes, write_nlri_list l = Some bytes /\
    (if v6 then parse_nlri_v6_list else parse_nlri_list) bytes add_path = Ok l.
Proof. apply parse_write_all. Qed.

(** A prefix list that is accepted holds only prefixes the RIB can
    store: addresses and lengths of the family in range, an identifier on
    every entry exactly when ADD-PATH is in use, and no IPv4 multicast. *)
Theorem nlri_list_wellformed (v6 add_path : bool) (bytes : list Z) (l : list Nlri) :
  bytes_ok bytes ->
  (if v6 then parse_nlri_v6_list else parse_nlri_list) bytes add_path = Ok l ->
  Forall (fun n => network_ok (nlri_prefix n) /\
    match nlri_prefix n with V4 net => v6 = false /\ is_multicast net = false | V6 _ => v6 = true end /\
    (if add_path then exists pid, nlri_path_id n = Some pid /\ u32 pid else nlri_path_id n = None)) l.
Proof.
  intros Hb. destruct v6; apply parse_all_forall; try done; intros addr len net pid Ha Hl Hmk Hp.
  - injection Hmk as <-. by split; [split; [exact Ha|exact Hl]|].
  - unfold mk_v4_entry in Hmk. destruct (is_multicast _) eqn:Em; [done|]. injection Hmk as <-.
    by split; [split; [exact Ha|exact Hl]|].
Qed.

(**  The readers index past the end of the buffer, and so panic, exactly
    when ADD-PATH is in use and the list ends with a four-byte path
    identifier that no prefix follows: [parse_path_id] accepts the four
    bytes and [bytes[cursor]] is then out of range. *)
Theorem nlri_list_panics_iff (v6 add_path : bool) (bytes : list Z) :
  (if v6 then parse_nlri_v6_list else parse_nlri_list) bytes add_path = Panic <->
  add_path = true /\ exists pre tail l, bytes = pre ++ tail /\ length tail = 4%nat /\
    (if v6 then parse_nlri_v6_list else parse_nlri_list) pre add_path = Ok l.
Proof. destruct v6; apply parse_all_panic. Qed.

(** ** Witnesses *)
Definition demo_nlri : list Nlri :=
  [mkNlri (V4 (mkV4 0x0A000000 8)) (Some 7); mkNlri (V4 (mkV4 0xC0A80180 25)) (Some 8);
   mkNlri (V4 (mkV4 0 0)) (Some 9)].

Lemma nlri_list_roundtrip_witness :
  exists bytes, write_nlri_list demo_nlri = Some bytes /\
    parse_nlri_list bytes true = Ok demo_nlri.
Proof.
  apply (nlri_list_roundtrip false true demo_nlri).
  repeat constructor; unfold u32; simpl; try lia; reflexivity.
Defined.

Lemma nlri_list_wellformed_witness :
  Forall (fun n => network_ok (nlri_prefix n) /\
    match nlri_prefix n with V4 net => false = false /\ is_multicast net = false | V6 _ => false = true end /\
    nlri_path_id n = None) [mkNlri (V4 (mkV4 0x0A010000 16)) None].
Proof.
  apply (nlri_list_wellformed false false [16; 10; 1; 8; 224]).
  - by apply bytes_ok_forallb.
  - vm_compute. reflexivity.
Defined.

Example demo_panic : parse_nlri_list [0; 0; 0; 1] true = Panic.
Proof. vm_compute. reflexivity. Qed.
