(* ===== verification/BgpLs.v ===== *)
(** * BGP-LS network layer reachability information: the data and its encoder
    ([bgpgg/src/bgp/bgpls.rs] and the types and writers of
    [bgpgg/src/bgp/bgpls_nlri.rs])

    Byte strings are lists of integers; fixed-width fields are integers.  An
    NLRI is a key of the Loc-RIB's link-state table, so its type is
    countable.  The decoder is in [BgpLsParse]. *)
From S2P Require Import Prelude Net.

Record LsTlv := mkTlv { tlv_type : Z; tlv_value : list Z }.

#[export] Instance LsTlv_eq_dec : EqDecision LsTlv.
Proof. solve_decision. Defined.
#[export] Instance LsTlv_countable : Countable LsTlv.
Proof.
  apply (inj_countable' (fun t => (tlv_type t, tlv_value t)) (fun p => mkTlv p.1 p.2)). by intros [].
Defined.

(** NLRI descriptor TLV type codes. *)
Inductive LsTlvType :=
  | LocalNodeDescriptors | RemoteNodeDescriptors | LinkLocalRemoteId
  | Ipv4InterfaceAddr | Ipv4NeighborAddr | Ipv6InterfaceAddr | Ipv6NeighborAddr
  | MultiTopologyId | OspfRouteType | IpReachabilityInfo
  | AutonomousSystem | BgpLsId | OspfAreaId | IgpRouterId.

#[export] Instance LsTlvType_eq_dec : EqDecision LsTlvType.
Proof. solve_decision. Defined.

Definition tlv_code (t : LsTlvType) : Z :=
  match t with
  | LocalNodeDescriptors => 256 | RemoteNodeDescriptors => 257 | LinkLocalRemoteId => 258
  | Ipv4InterfaceAddr => 259 | Ipv4NeighborAddr => 260
  | Ipv6InterfaceAddr => 261 | Ipv6NeighborAddr => 262
  | MultiTopologyId => 263 | OspfRouteType => 264 | IpReachabilityInfo => 265
  | AutonomousSystem => 512 | BgpLsId => 513 | OspfAreaId => 514 | IgpRouterId => 515
  end.

Definition tlv_type_from_u16 (val : Z) : option LsTlvType :=
  if val =? 256 then Some LocalNodeDescriptors
  else if val =? 257 then Some RemoteNodeDescriptors
  else if val =? 258 then Some LinkLocalRemoteId
  else if val =? 259 then Some Ipv4InterfaceAddr
  else if val =? 260 then Some Ipv4NeighborAddr
  else if val =? 261 then Some Ipv6InterfaceAddr
  else if val =? 262 then Some Ipv6NeighborAddr
  else if val =? 263 then Some MultiTopologyId
  else if val =? 264 then Some OspfRouteType
  else if val =? 265 then Some IpReachabilityInfo
  else if val =? 512 then Some AutonomousSystem
  else if val =? 513 then Some BgpLsId
  else if val =? 514 then Some OspfAreaId
  else if val =? 515 then Some IgpRouterId
  else None.

Inductive LsNlriType := LsNode | LsLink | LsPrefixV4 | LsPrefixV6.

Definition nlri_type_code (t : LsNlriType) : Z :=
  match t with LsNode => 1 | LsLink => 2 | LsPrefixV4 => 3 | LsPrefixV6 => 4 end.

Definition nlri_type_from_u16 (val : Z) : option LsNlriType :=
  if val =? 1 then Some LsNode else if val =? 2 then Some LsLink
  else if val =? 3 then Some LsPrefixV4 else if val =? 4 then Some LsPrefixV6 else None.

Inductive LsProtocolId := IsIsL1 | IsIsL2 | OspfV2 | Direct | Static | OspfV3.

Definition protocol_code (p : LsProtocolId) : Z :=
  match p with IsIsL1 => 1 | IsIsL2 => 2 | OspfV2 => 3 | Direct => 4 | Static => 5 | OspfV3 => 6 end.

Definition protocol_from_u8 (val : Z) : option LsProtocolId :=
  if val =? 1 then Some IsIsL1 else if val =? 2 then Some IsIsL2
  else if val =? 3 then Some OspfV2 else if val =? 4 then Some Direct
  else if val =? 5 then Some Static else if val =? 6 then Some OspfV3 else None.

Record NodeDescriptor := mkNodeDesc {
  as_number : option Z; bgp_ls_id : option Z; ospf_area_id : option Z;
  igp_router_id : option (list Z); nd_unknown : list LsTlv }.

Record LinkDescriptor := mkLinkDesc {
  link_local_id : option Z; link_remote_id : option Z;
  ipv4_interface_addr : option (list Z); ipv4_neighbor_addr : option (list Z);
  ipv6_interface_addr : option (list Z); ipv6_neighbor_addr : option (list Z);
  ld_multi_topology_id : option (list Z); ld_unknown : list LsTlv }.

Record PrefixDescriptor := mkPrefixDesc {
  pd_multi_topology_id : option (list Z); ospf_route_type : option Z;
  ip_reachability : option (list Z); pd_unknown : list LsTlv }.

Inductive LsDescriptors :=
  | NodeDescriptors (local_node : NodeDescriptor)
  | LinkDescriptors (local_node remote_node : NodeDescriptor) (link_descriptors : LinkDescriptor)
  | PrefixV4Descriptors (local_node : NodeDescriptor) (prefix_descriptors : PrefixDescriptor)
  | PrefixV6Descriptors (local_node : NodeDescriptor) (prefix_descriptors : PrefixDescriptor).

Record LsNlriBody := mkLsBody {
  body_protocol_id : Z; body_identifier : Z; body_descriptors : LsDescriptors }.

Record LsNlri := mkLsNlri {
  nlri_type : Z; nlri_raw : list Z; nlri_body : option LsNlriBody;
  route_distinguisher : option (list Z) }.

Definition node_default : NodeDescriptor := mkNodeDesc None None None None [].
Definition link_default : LinkDescriptor := mkLinkDesc None None None None None None None [].
Definition prefix_default : PrefixDescriptor := mkPrefixDesc None None None [].

#[export] Instance NodeDescriptor_eq_dec : EqDecision NodeDescriptor.
Proof. solve_decision. Defined.
#[export] Instance LinkDescriptor_eq_dec : EqDecision LinkDescriptor.
Proof. solve_decision. Defined.
#[export] Instance PrefixDescriptor_eq_dec : EqDecision PrefixDescriptor.
Proof. solve_decision. Defined.
#[export] Instance LsDescriptors_eq_dec : EqDecision LsDescriptors.
Proof. solve_decision. Defined.
#[export] Instance LsNlriBody_eq_dec : EqDecision LsNlriBody.
Proof. solve_decision. Defined.
#[export] Instance LsNlri_eq_dec : EqDecision LsNlri.
Proof. solve_decision. Defined.

#[export] Instance NodeDescriptor_countable : Countable NodeDescriptor.
Proof.
  apply (inj_countable'
    (fun d => (as_number d, bgp_ls_id d, ospf_area_id d, igp_router_id d, nd_unknown d))
    (fun '(a, b, c, d, e) => mkNodeDesc a b c d e)). by intros [].
Defined.
#[export] Instance LinkDescriptor_countable : Countable LinkDescriptor.
Proof.
  apply (inj_countable'
    (fun d => (link_local_id d, link_remote_id d, ipv4_interface_addr d, ipv4_neighbor_addr d,
               ipv6_interface_addr d, ipv6_neighbor_addr d, ld_multi_topology_id d, ld_unknown d))
    (fun '(a, b, c, d, e, f, g, h) => mkLinkDesc a b c d e f g h)). by intros [].
Defined.
#[export] Instance PrefixDescriptor_countable : Countable PrefixDescriptor.
Proof.
  apply (inj_countable'
    (fun d => (pd_multi_topology_id d, ospf_route_type d, ip_reachability d, pd_unknown d))
    (fun '(a, b, c, d) => mkPrefixDesc a b c d)). by intros [].
Defined.
#[export] Instance LsDescriptors_countable : Countable LsDescriptors.
Proof.
  apply (inj_countable'
    (fun d => match d with
              | NodeDescriptors l => inl (inl l)
              | LinkDescriptors l r k => inl (inr (l, r, k))
              | PrefixV4Descriptors l p => inr (inl (l, p))
              | PrefixV6Descriptors l p => inr (inr (l, p))
              end)
    (fun s => match s with
              | inl (inl l) => NodeDescriptors l
              | inl (inr (l, r, k)) => LinkDescriptors l r k
              | inr (inl (l, p)) => PrefixV4Descriptors l p
              | inr (inr (l, p)) => PrefixV6Descriptors l p
              end)). by intros [].
Defined.
#[export] Instance LsNlriBody_countable : Countable LsNlriBody.
Proof.
  apply (inj_countable' (fun b => (body_protocol_id b, body_identifier b, body_descriptors b))
    (fun '(a, b, c) => mkLsBody a b c)). by intros [].
Defined.
#[export] Instance LsNlri_countable : Countable LsNlri.
Proof.
  apply (inj_countable' (fun n => (nlri_type n, nlri_raw n, nlri_body n, route_distinguisher n))
    (fun '(a, b, c, d) => mkLsNlri a b c d)). by intros [].
Defined.

Definition local_node (d : LsDescriptors) : NodeDescriptor :=
  match d with
  | NodeDescriptors l | LinkDescriptors l _ _ | PrefixV4Descriptors l _
  | PrefixV6Descriptors l _ => l
  end.

Definition is_vpn (n : LsNlri) : bool :=
  match route_distinguisher n with Some _ => true | None => false end.

Definition ls_safi (n : LsNlri) : Safi := if is_vpn n then LinkStateVpn else Safi_LinkState.

(** ** The encoder

    A TLV's length field is the low 16 bits of the value's length. *)
Definition write_tlv_raw (ty : Z) (value : list Z) : list Z :=
  be_bytes 2 ty ++ be_bytes 2 (Z.of_nat (length value)) ++ value.

Definition write_tlv (t : LsTlvType) (value : list Z) : list Z := write_tlv_raw (tlv_code t) value.

(** A field that is written when present. *)
Definition opt_tlv {A} (t : LsTlvType) (enc : A -> list Z) (v : option A) : list Z :=
  match v with Some x => write_tlv t (enc x) | None => [] end.

Definition write_unknown (tlvs : list LsTlv) : list Z :=
  concat (map (fun t => write_tlv_raw (tlv_type t) (tlv_value t)) tlvs).

Definition node_sub_tlvs (desc : NodeDescriptor) : list Z :=
  opt_tlv AutonomousSystem (be_bytes 4) (as_number desc) ++
  opt_tlv BgpLsId (be_bytes 4) (bgp_ls_id desc) ++
  opt_tlv OspfAreaId (be_bytes 4) (ospf_area_id desc) ++
  opt_tlv IgpRouterId id (igp_router_id desc) ++
  write_unknown (nd_unknown desc).

Definition write_node_descriptor_tlv (t : LsTlvType) (desc : NodeDescriptor) : list Z :=
  write_tlv t (node_sub_tlvs desc).

Definition mt_bytes (ids : list Z) : list Z := concat (map (be_bytes 2) ids).

Definition link_ids (desc : LinkDescriptor) : option (Z * Z) :=
  match link_local_id desc, link_remote_id desc with
  | Some l, Some r => Some (l, r)
  | _, _ => None
  end.

Definition write_link_descriptor_tlvs (desc : LinkDescriptor) : list Z :=
  opt_tlv LinkLocalRemoteId (fun '(l, r) => be_bytes 4 l ++ be_bytes 4 r) (link_ids desc) ++
  opt_tlv Ipv4InterfaceAddr id (ipv4_interface_addr desc) ++
  opt_tlv Ipv4NeighborAddr id (ipv4_neighbor_addr desc) ++
  opt_tlv Ipv6InterfaceAddr id (ipv6_interface_addr desc) ++
  opt_tlv Ipv6NeighborAddr id (ipv6_neighbor_addr desc) ++
  opt_tlv MultiTopologyId mt_bytes (ld_multi_topology_id desc) ++
  write_unknown (ld_unknown desc).

Definition write_prefix_descriptor_tlvs (desc : PrefixDescriptor) : list Z :=
  opt_tlv MultiTopologyId mt_bytes (pd_multi_topology_id desc) ++
  opt_tlv OspfRouteType (fun t => [t]) (ospf_route_type desc) ++
  opt_tlv IpReachabilityInfo id (ip_reachability desc) ++
  write_unknown (pd_unknown desc).

Definition descriptor_bytes (descriptors : LsDescriptors) : list Z :=
  match descriptors with
  | NodeDescriptors l => write_node_descriptor_tlv LocalNodeDescriptors l
  | LinkDescriptors l r k =>
      write_node_descriptor_tlv LocalNodeDescriptors l ++
      write_node_descriptor_tlv RemoteNodeDescriptors r ++ write_link_descriptor_tlvs k
  | PrefixV4Descriptors l p | PrefixV6Descriptors l p =>
      write_node_descriptor_tlv LocalNodeDescriptors l ++ write_prefix_descriptor_tlvs p
  end.

Definition encode_ls_nlri_body (protocol_id identifier : Z) (descriptors : LsDescriptors) : list Z :=
  [protocol_id] ++ be_bytes 8 identifier ++ descriptor_bytes descriptors.

Definition set_identifier (n : LsNlri) (identifier : Z) : LsNlri :=
  match nlri_body n with
  | Some body =>
      let body := mkLsBody (body_protocol_id body) identifier (body_descriptors body) in
      mkLsNlri (nlri_type n)
        (encode_ls_nlri_body (body_protocol_id body) (body_identifier body) (body_descriptors body))
        (Some body) (route_distinguisher n)
  | None => n
  end.

Definition build_ls_nlri (t : LsNlriType) (p : LsProtocolId) (identifier : Z)
    (descriptors : LsDescriptors) (rd : option (list Z)) : LsNlri :=
  mkLsNlri (nlri_type_code t) (encode_ls_nlri_body (protocol_code p) identifier descriptors)
    (Some (mkLsBody (protocol_code p) identifier descriptors)) rd.

Definition RD_LEN : nat := 8.

(** The Total NLRI Length field is the low 16 bits of the length. *)
Definition write_ls_nlri (n : LsNlri) : list Z :=
  let rd_len := match route_distinguisher n with Some _ => RD_LEN | None => O end in
  be_bytes 2 (nlri_type n) ++ be_bytes 2 (Z.of_nat (length (nlri_raw n) + rd_len)) ++
  default [] (route_distinguisher n) ++ nlri_raw n.

Definition write_ls_nlri_list (entries : list LsNlri) : list Z :=
  concat (map write_ls_nlri entries).

Lemma tlv_type_from_code t : tlv_type_from_u16 (tlv_code t) = Some t.
Proof. by destruct t. Qed.

Lemma tlv_type_from_u16_Some val t : tlv_type_from_u16 val = Some t -> val = tlv_code t.
Proof.
  unfold tlv_type_from_u16. intros H.
  repeat (match type of H with context [?x =? ?y] => destruct (Z.eqb_spec x y) end;
    [injection H as <-; assumption|]). discriminate.
Qed.

Lemma nlri_type_from_code t : nlri_type_from_u16 (nlri_type_code t) = Some t.
Proof. by destruct t. Qed.
