(* ===== verification/BgpLsParse.v ===== *)
(** * The BGP-LS NLRI decoder ([bgpgg/src/bgp/bgpls_nlri.rs])

    A malformed NLRI is kept without its body, so the decoder of a body has an
    error type of its own, [LsNlriError].  Unknown TLVs are collected by
    iterating a [HashMap], in the order of [HashOrder]. *)
From S2P Require Import Prelude Wire Net Notification BgpLs.

Inductive LsNlriError :=
  | BodyTooShort (len : nat)
  | TlvTruncated (offset remaining : nat)
  | TlvOverflow (tlv_type : Z) (len available : nat)
  | TlvOrdering (prev_type : Z) (prev_len : nat) (curr_type : Z) (curr_len : nat)
  | MissingTlv (name : string)
  | DuplicateSubTlv (tlv_type : Z)
  | InvalidLength (name : string) (actual expected : nat)
  | UnalignedLength (name : string) (actual alignment : nat).

Definition TLV_HEADER_LEN : nat := 4.
Definition NLRI_BODY_HEADER_LEN : nat := 9.

Definition make_parser_error {A} : outcome ParserError A := update_err OptionalAttributeError.

(** ** TLV lists *)

(** One turn: [total] is the length of the whole buffer. *)
Definition read_ls_tlv (total : nat) (bytes : list Z) : outcome LsNlriError (LsTlv * list Z) :=
  '(t, value, rest) ← read_tlv16 (fun rest => TlvTruncated (total - length rest) (length rest)) TlvOverflow bytes;
  Ok (mkTlv t value, rest).

Definition parse_tlv_list (bytes : list Z) : outcome LsNlriError (list LsTlv) :=
  parse_list (read_ls_tlv (length bytes)) bytes.

(** By type, then by length, then by value. *)
Definition tlv_cmp (a b : LsTlv) : comparison :=
  match tlv_type a ?= tlv_type b with
  | Eq => match (length (tlv_value a) ?= length (tlv_value b))%nat with
          | Eq => lexcmp (tlv_value a) (tlv_value b)
          | c => c
          end
  | c => c
  end.

Fixpoint validate_tlv_ordering (tlvs : list LsTlv) : outcome LsNlriError () :=
  match tlvs with
  | prev :: ((curr :: _) as rest) =>
      if bool_decide (tlv_cmp prev curr = Gt)
      then Err (TlvOrdering (tlv_type prev) (length (tlv_value prev)) (tlv_type curr) (length (tlv_value curr)))
      else validate_tlv_ordering rest
  | _ => Ok ()
  end.

Fixpoint validate_unique_from (seen_types : list Z) (tlvs : list LsTlv) : outcome LsNlriError () :=
  match tlvs with
  | [] => Ok ()
  | tlv :: rest =>
      if bool_decide (tlv_type tlv ∈ seen_types) then Err (DuplicateSubTlv (tlv_type tlv))
      else validate_unique_from (seen_types ++ [tlv_type tlv]) rest
  end.
Definition validate_unique_tlv : list LsTlv -> outcome LsNlriError () := validate_unique_from [].

(** ** Descriptors *)

(** The length check that each fixed-size field starts with. *)
Definition exact (name : string) (expected : nat) (value : list Z) : outcome LsNlriError (list Z) :=
  if (length value =? expected)%nat then Ok value else Err (InvalidLength name (length value) expected).
Definition exact_u32 (name : string) (value : list Z) : outcome LsNlriError Z :=
  be_val <$> exact name 4 value.

Definition add_node_tlv (d : NodeDescriptor) (tlv : LsTlv) : outcome LsNlriError NodeDescriptor :=
  match tlv_type_from_u16 (tlv_type tlv) with
  | Some AutonomousSystem =>
      v ← exact_u32 "AS sub-TLV" (tlv_value tlv);
      Ok (mkNodeDesc (Some v) (bgp_ls_id d) (ospf_area_id d) (igp_router_id d) (nd_unknown d))
  | Some BgpLsId =>
      v ← exact_u32 "BGP-LS ID sub-TLV" (tlv_value tlv);
      Ok (mkNodeDesc (as_number d) (Some v) (ospf_area_id d) (igp_router_id d) (nd_unknown d))
  | Some OspfAreaId =>
      v ← exact_u32 "OSPF Area-ID sub-TLV" (tlv_value tlv);
      Ok (mkNodeDesc (as_number d) (bgp_ls_id d) (Some v) (igp_router_id d) (nd_unknown d))
  | Some IgpRouterId =>
      Ok (mkNodeDesc (as_number d) (bgp_ls_id d) (ospf_area_id d) (Some (tlv_value tlv)) (nd_unknown d))
  | _ => Ok (mkNodeDesc (as_number d) (bgp_ls_id d) (ospf_area_id d) (igp_router_id d) (nd_unknown d ++ [tlv]))
  end.

Fixpoint add_node_tlvs (d : NodeDescriptor) (tlvs : list LsTlv) : outcome LsNlriError NodeDescriptor :=
  match tlvs with
  | [] => Ok d
  | tlv :: rest => d ← add_node_tlv d tlv; add_node_tlvs d rest
  end.

Definition parse_node_descriptor (bytes : list Z) : outcome LsNlriError NodeDescriptor :=
  sub_tlvs ← parse_tlv_list bytes;
  _ ← validate_unique_tlv sub_tlvs;
  add_node_tlvs node_default sub_tlvs.

(** [HashMap<u16, Vec<LsTlv>>] *)
Abbreviation TlvMap := (gmap Z (list LsTlv)).

Definition push_tlv (m : TlvMap) (tlv : LsTlv) : TlvMap :=
  <[tlv_type tlv := default [] (m !! tlv_type tlv) ++ [tlv]]> m.
Definition make_tlv_map (tlvs : list LsTlv) : TlvMap := foldl push_tlv ∅ tlvs.

(** [if let Some(tlvs) = tlv_map.get(&t)], on [tlvs[0].value] *)
Definition opt_field {A} (m : TlvMap) (t : LsTlvType) (f : list Z -> outcome LsNlriError A)
    : outcome LsNlriError (option A) :=
  match m !! tlv_code t with
  | Some tlvs => tlv ← index tlvs 0; a ← f (tlv_value tlv); Ok (Some a)
  | None => Ok None
  end.

Definition parse_mt_ids (value : list Z) : outcome LsNlriError (list Z) :=
  if negb (length value mod 2 =? 0)%nat then Err (UnalignedLength "Multi-Topology ID" (length value) 2)
  else Ok (words 2 value).

Section parse.
Context `{HashOrder}.

Definition unknown_tlvs (m : TlvMap) : list LsTlv :=
  concat (map (fun kv => match tlv_type_from_u16 kv.1 with Some _ => [] | None => kv.2 end)
            (hash_order (map_to_list m))).

Definition parse_link_descriptor (m : TlvMap) : outcome LsNlriError LinkDescriptor :=
  ids ← opt_field m LinkLocalRemoteId (exact "Link Local/Remote ID" 8);
  v4i ← opt_field m Ipv4InterfaceAddr (exact "IPv4 Interface Address" 4);
  v4n ← opt_field m Ipv4NeighborAddr (exact "IPv4 Neighbor Address" 4);
  v6i ← opt_field m Ipv6InterfaceAddr (exact "IPv6 Interface Address" 16);
  v6n ← opt_field m Ipv6NeighborAddr (exact "IPv6 Neighbor Address" 16);
  mt ← opt_field m MultiTopologyId parse_mt_ids;
  Ok (mkLinkDesc ((fun v => be_val (take 4 v)) <$> ids) ((fun v => be_val (drop 4 v)) <$> ids)
        v4i v4n v6i v6n mt (unknown_tlvs m)).

Definition parse_prefix_descriptor (m : TlvMap) : outcome LsNlriError PrefixDescriptor :=
  mt ← opt_field m MultiTopologyId parse_mt_ids;
  rt ← opt_field m OspfRouteType (exact "OSPF Route Type" 1);
  ip ← opt_field m IpReachabilityInfo (fun value => Ok value);
  Ok (mkPrefixDesc mt (be_val <$> rt) ip (unknown_tlvs m)).

Definition node_field (m : TlvMap) (t : LsTlvType) (name : string) : outcome LsNlriError NodeDescriptor :=
  match m !! tlv_code t with
  | Some tlvs => tlv ← index tlvs 0; parse_node_descriptor (tlv_value tlv)
  | None => Err (MissingTlv name)
  end.

Definition parse_ls_nlri_descriptors (t : LsNlriType) (bytes : list Z) : outcome LsNlriError LsDescriptors :=
  tlvs ← parse_tlv_list bytes;
  _ ← validate_tlv_ordering tlvs;
  let m := make_tlv_map tlvs in
  l ← node_field m LocalNodeDescriptors "Local Node Descriptors";
  match t with
  | LsNode => Ok (NodeDescriptors l)
  | LsLink =>
      r ← node_field m RemoteNodeDescriptors "Remote Node Descriptors";
      k ← parse_link_descriptor m;
      Ok (LinkDescriptors l r k)
  | LsPrefixV4 => p ← parse_prefix_descriptor m; Ok (PrefixV4Descriptors l p)
  | LsPrefixV6 => p ← parse_prefix_descriptor m; Ok (PrefixV6Descriptors l p)
  end.

Definition parse_ls_nlri_body (t : LsNlriType) (body : list Z) : outcome LsNlriError LsNlriBody :=
  if (length body <? NLRI_BODY_HEADER_LEN)%nat then Err (BodyTooShort (length body))
  else
    protocol_id ← index body 0;
    descriptors ← parse_ls_nlri_descriptors t (drop NLRI_BODY_HEADER_LEN body);
    Ok (mkLsBody protocol_id (be_val (take 8 (drop 1 body))) descriptors).

(** The body of a known type, when it parses. *)
Definition parse_known_body (nlri_type : Z) (ls_body : list Z) : outcome ParserError (option LsNlriBody) :=
  match nlri_type_from_u16 nlri_type with
  | Some known_type =>
      match parse_ls_nlri_body known_type ls_body with
      | Ok body => Ok (Some body)
      | Err _ => Ok None
      | Panic => Panic
      end
  | None => Ok None
  end.

(** One turn of [parse_ls_nlri_list]: a VPN entry too short for its route
    distinguisher is skipped. *)
Definition read_ls_nlri (s : Safi) (bytes : list Z) : outcome ParserError (option LsNlri * list Z) :=
  match bytes with
  | a :: b :: c :: d :: bytes =>
      let nlri_type := be_val [a; b] in
      let total_len := Z.to_nat (be_val [c; d]) in
      if (length bytes <? total_len)%nat then make_parser_error
      else
        let full_body := take total_len bytes in
        let rest := drop total_len bytes in
        if bool_decide (s = LinkStateVpn) && (length full_body <? RD_LEN)%nat then Ok (None, rest)
        else
          let '(rd, ls_body) := if bool_decide (s = LinkStateVpn)
                                then (Some (take RD_LEN full_body), drop RD_LEN full_body)
                                else (None, full_body) in
          parsed ← parse_known_body nlri_type ls_body;
          Ok (Some (mkLsNlri nlri_type ls_body parsed rd), rest)
  | _ => make_parser_error
  end.

Definition parse_ls_nlri_list (bytes : list Z) (s : Safi) : outcome ParserError (list LsNlri) :=
  (fun entries => concat (map option_list entries)) <$> parse_list (read_ls_nlri s) bytes.
End parse.

(** ** TLV lists, read and written *)
Definition tlv_bytes (t : LsTlv) : list Z := write_tlv_raw (tlv_type t) (tlv_value t).
Definition tlv_ok (t : LsTlv) : Prop := u16 (tlv_type t) /\ Z.of_nat (length (tlv_value t)) < 65536.

Lemma read_ls_tlv_shrinks total bytes t rest :
  read_ls_tlv total bytes = Ok (t, rest) -> (length rest < length bytes)%nat.
Proof.
  unfold read_ls_tlv. destruct (read_tlv16 _ _ bytes) as [[[ty v] r]| |] eqn:E; [|done..].
  intros [= <- <-]. by apply read_tlv16_shrinks in E.
Qed.

Lemma parse_tlv_list_write l : Forall tlv_ok l -> parse_tlv_list (concat (map tlv_bytes l)) = Ok l.
Proof.
  intros Hl. unfold parse_tlv_list. apply parse_list_write with (wf := tlv_ok); [apply read_ls_tlv_shrinks| |done].
  intros [ty v] tail [Ht Hv]. split; [apply write_tlv16_nonempty|].
  unfold read_ls_tlv, tlv_bytes. change write_tlv_raw with write_tlv16. by rewrite read_tlv16_write.
Qed.

Lemma parse_tlv_list_no_panic bytes : parse_tlv_list bytes <> Panic.
Proof.
  apply parse_list_no_panic; [apply read_ls_tlv_shrinks|]. intros rest. unfold read_ls_tlv.
  pose proof (read_tlv16_no_panic (fun rest => TlvTruncated (length bytes - length rest) (length rest)) TlvOverflow rest).
  by destruct (read_tlv16 _ _ rest) as [[[]]| |].
Qed.

Definition ordered : list LsTlv -> Prop := StronglySorted (fun a b => tlv_cmp a b <> Gt).

Lemma validate_ordered l : ordered l -> validate_tlv_ordering l = Ok ().
Proof.
  induction 1 as [|a l _ IH Ha]; [done|]. destruct l as [|b l]; [done|]. cbn [validate_tlv_ordering] in *.
  apply Forall_cons in Ha as [Ha _]. by rewrite bool_decide_eq_false_2.
Qed.

Lemma tlv_cmp_lt a b : tlv_type a < tlv_type b -> tlv_cmp a b = Lt.
Proof. intros Hl. unfold tlv_cmp. by rewrite (proj2 (Z.compare_lt_iff _ _) Hl). Qed.

Lemma ordered_app l1 l2 :
  ordered l1 -> ordered l2 -> Forall (fun a => Forall (fun b => tlv_type a < tlv_type b) l2) l1 ->
  ordered (l1 ++ l2).
Proof.
  intros H1 H2. induction H1 as [|a l1 _ IH Ha]; intros Hlt; [done|].
  apply Forall_cons in Hlt as [Hlt1 Hlt]. constructor; [by apply IH|]. apply Forall_app. split; [done|].
  eapply Forall_impl; [exact Hlt1|]. intros b Hb. cbn. by rewrite tlv_cmp_lt.
Qed.

Lemma validate_unique_ok l : NoDup (tlv_type <$> l) -> validate_unique_tlv l = Ok ().
Proof.
  intros Hl. unfold validate_unique_tlv.
  assert (forall t, t ∈ ([] : list Z) -> t ∉ tlv_type <$> l) as Hd by set_solver.
  revert Hd. generalize (@nil Z) as seen. induction l as [|a l IH]; intros seen Hd; [done|].
  cbn [validate_unique_from]. apply NoDup_cons in Hl as [Ha Hl].
  rewrite bool_decide_eq_false_2.
  - apply IH; [done|]. intros t [Ht| ->%list_elem_of_singleton]%elem_of_app; [|done].
    apply Hd in Ht. set_solver.
  - intros Hin. apply (Hd _ Hin). cbn. set_solver.
Qed.

(** ** The map of TLVs *)
Fixpoint first_value (c : Z) (l : list LsTlv) : option (list Z) :=
  match l with
  | [] => None
  | t :: rest => if tlv_type t =? c then Some (tlv_value t) else first_value c rest
  end.

Lemma make_tlv_map_snoc l t : make_tlv_map (l ++ [t]) = push_tlv (make_tlv_map l) t.
Proof. unfold make_tlv_map. by rewrite foldl_app. Qed.

Lemma first_value_app c l1 l2 :
  first_value c (l1 ++ l2) = match first_value c l1 with Some v => Some v | None => first_value c l2 end.
Proof. induction l1 as [|t l1 IH]; [done|]. cbn. by destruct (tlv_type t =? c). Qed.

Lemma make_tlv_map_lookup l c :
  match make_tlv_map l !! c with
  | Some tlvs => exists t tlvs', tlvs = t :: tlvs' /\ first_value c l = Some (tlv_value t)
  | None => first_value c l = None
  end.
Proof.
  induction l as [|t l IH] using rev_ind; [done|].
  rewrite make_tlv_map_snoc, first_value_app. unfold push_tlv. cbn [first_value].
  destruct (Z.eqb_spec (tlv_type t) c) as [<-|Hne].
  - rewrite lookup_insert_eq. destruct (make_tlv_map l !! tlv_type t) as [tlvs|].
    + destruct IH as (t' & tlvs' & -> & ->). by eexists _, _.
    + rewrite IH. by eexists _, [].
  - rewrite lookup_insert_ne by done. destruct (make_tlv_map l !! c) as [tlvs|].
    + destruct IH as (t' & tlvs' & -> & ->). by eexists _, _.
    + by rewrite IH.
Qed.

Lemma opt_field_first {A} l t (f : list Z -> outcome LsNlriError A) :
  opt_field (make_tlv_map l) t f =
    match first_value (tlv_code t) l with Some v => a ← f v; Ok (Some a) | None => Ok None end.
Proof.
  unfold opt_field. pose proof (make_tlv_map_lookup l (tlv_code t)) as Hm.
  destruct (make_tlv_map l !! tlv_code t) as [tlvs|]; [|by rewrite Hm].
  by destruct Hm as (t' & tlvs' & -> & ->).
Qed.

Lemma node_field_first l t name :
  node_field (make_tlv_map l) t name =
    match first_value (tlv_code t) l with Some v => parse_node_descriptor v | None => Err (MissingTlv name) end.
Proof.
  unfold node_field. pose proof (make_tlv_map_lookup l (tlv_code t)) as Hm.
  destruct (make_tlv_map l !! tlv_code t) as [tlvs|]; [|by rewrite Hm].
  by destruct Hm as (t' & tlvs' & -> & ->).
Qed.

(** An unknown TLV. *)
Definition unknown (t : LsTlv) : Prop := tlv_type_from_u16 (tlv_type t) = None.
#[export] Instance unknown_dec t : Decision (unknown t).
Proof. unfold unknown. apply _. Defined.

Definition unknown_of (kv : Z * list LsTlv) : list LsTlv :=
  match tlv_type_from_u16 kv.1 with Some _ => [] | None => kv.2 end.

Lemma flat_map_insert (m : TlvMap) k v :
  flat_map unknown_of (map_to_list (<[k := v]> m)) ≡ₚ
    unknown_of (k, v) ++ flat_map unknown_of (map_to_list (delete k m)).
Proof.
  rewrite <- insert_delete_eq. rewrite (Permutation_flat_map unknown_of (map_to_list_insert _ k v (lookup_delete_eq m k))).
  done.
Qed.

Lemma unknown_of_eq t v : unknown_of (tlv_type t, v) = if decide (unknown t) then v else [].
Proof.
  unfold unknown_of. cbn [fst snd]. destruct (decide (unknown t)) as [Hd|Hd]; unfold unknown in Hd.
  - by rewrite Hd.
  - by destruct (tlv_type_from_u16 _).
Qed.

Lemma flat_map_push m t :
  flat_map unknown_of (map_to_list (push_tlv m t)) ≡ₚ
    flat_map unknown_of (map_to_list m) ++ (if decide (unknown t) then [t] else []).
Proof.
  unfold push_tlv. rewrite flat_map_insert, unknown_of_eq. destruct (m !! tlv_type t) as [old|] eqn:E.
  - rewrite <- (insert_id m (tlv_type t) old E) at 2. rewrite flat_map_insert, unknown_of_eq. cbn [default id].
    destruct (decide (unknown t)); [|by rewrite app_nil_r].
    by rewrite <- !app_assoc, (Permutation_app_comm [t]).
  - rewrite delete_id by done. cbn [default id app].
    destruct (decide (unknown t)); [|by rewrite app_nil_r]. by rewrite Permutation_app_comm.
Qed.

Lemma unknown_tlvs_perm `{HashOrder} l : unknown_tlvs (make_tlv_map l) ≡ₚ filter unknown l.
Proof.
  unfold unknown_tlvs. rewrite <- flat_map_concat_map, (Permutation_flat_map _ (hash_order_perm _)).
  change (fun kv : Z * list LsTlv => match tlv_type_from_u16 kv.1 with Some _ => [] | None => kv.2 end) with unknown_of.
  induction l as [|t l IH] using rev_ind; [done|]. rewrite make_tlv_map_snoc, flat_map_push, IH, filter_app.
  rewrite filter_cons. by destruct (decide (unknown t)).
Qed.

(** ** Descriptors as TLV lists *)
Definition opt_one {A} (t : LsTlvType) (enc : A -> list Z) (v : option A) : list LsTlv :=
  match v with Some x => [mkTlv (tlv_code t) (enc x)] | None => [] end.

Definition node_tlvs (d : NodeDescriptor) : list LsTlv :=
  opt_one AutonomousSystem (be_bytes 4) (as_number d) ++
  opt_one BgpLsId (be_bytes 4) (bgp_ls_id d) ++
  opt_one OspfAreaId (be_bytes 4) (ospf_area_id d) ++
  opt_one IgpRouterId id (igp_router_id d) ++ nd_unknown d.

Definition node_tlv (t : LsTlvType) (d : NodeDescriptor) : LsTlv := mkTlv (tlv_code t) (node_sub_tlvs d).

Definition link_tlvs (d : LinkDescriptor) : list LsTlv :=
  opt_one LinkLocalRemoteId (fun '(l, r) => be_bytes 4 l ++ be_bytes 4 r) (link_ids d) ++
  opt_one Ipv4InterfaceAddr id (ipv4_interface_addr d) ++
  opt_one Ipv4NeighborAddr id (ipv4_neighbor_addr d) ++
  opt_one Ipv6InterfaceAddr id (ipv6_interface_addr d) ++
  opt_one Ipv6NeighborAddr id (ipv6_neighbor_addr d) ++
  opt_one MultiTopologyId mt_bytes (ld_multi_topology_id d) ++ ld_unknown d.

Definition prefix_tlvs (d : PrefixDescriptor) : list LsTlv :=
  opt_one MultiTopologyId mt_bytes (pd_multi_topology_id d) ++
  opt_one OspfRouteType (fun t => [t]) (ospf_route_type d) ++
  opt_one IpReachabilityInfo id (ip_reachability d) ++ pd_unknown d.

Definition descriptor_tlvs (d : LsDescriptors) : list LsTlv :=
  match d with
  | NodeDescriptors l => [node_tlv LocalNodeDescriptors l]
  | LinkDescriptors l r k => node_tlv LocalNodeDescriptors l :: node_tlv RemoteNodeDescriptors r :: link_tlvs k
  | PrefixV4Descriptors l p | PrefixV6Descriptors l p => node_tlv LocalNodeDescriptors l :: prefix_tlvs p
  end.

Lemma opt_one_bytes {A} t (enc : A -> list Z) v rest :
  concat (map tlv_bytes (opt_one t enc v ++ rest)) = opt_tlv t enc v ++ concat (map tlv_bytes rest).
Proof. by destruct v; cbn; rewrite <- ?app_assoc. Qed.

Lemma node_tlvs_bytes d : node_sub_tlvs d = concat (map tlv_bytes (node_tlvs d)).
Proof. unfold node_tlvs. by rewrite !opt_one_bytes. Qed.

Lemma descriptor_tlvs_bytes d : descriptor_bytes d = concat (map tlv_bytes (descriptor_tlvs d)).
Proof.
  destruct d; cbn [descriptor_tlvs map concat]; unfold link_tlvs, prefix_tlvs; rewrite ?opt_one_bytes, ?app_nil_r; done.
Qed.

(** ** What can be sent *)
Definition node_sub_type (c : Z) : Prop := 512 <= c <= 515.

Record node_wf (d : NodeDescriptor) : Prop := {
  nw_as v : as_number d = Some v -> u32 v;
  nw_id v : bgp_ls_id d = Some v -> u32 v;
  nw_area v : ospf_area_id d = Some v -> u32 v;
  nw_router v : igp_router_id d = Some v -> Z.of_nat (length v) < 65536;
  nw_unknown : Forall (fun t => tlv_ok t /\ ~ node_sub_type (tlv_type t)) (nd_unknown d);
  nw_unique : NoDup (tlv_type <$> nd_unknown d);
  nw_len : Z.of_nat (length (node_sub_tlvs d)) < 65536;
}.

(** Unknown TLVs come after the known ones, in canonical order. *)
Definition unknown_wf (l : list LsTlv) : Prop :=
  Forall (fun t => tlv_ok t /\ unknown t /\ 265 < tlv_type t) l /\ ordered l.

Definition mt_wf (ids : option (list Z)) : Prop :=
  forall l, ids = Some l -> Forall u16 l /\ 2 * Z.of_nat (length l) < 65536.

Record link_wf (d : LinkDescriptor) : Prop := {
  lw_ids : (link_local_id d = None /\ link_remote_id d = None) \/
           exists l r, link_local_id d = Some l /\ link_remote_id d = Some r /\ u32 l /\ u32 r;
  lw_v4i v : ipv4_interface_addr d = Some v -> length v = 4%nat;
  lw_v4n v : ipv4_neighbor_addr d = Some v -> length v = 4%nat;
  lw_v6i v : ipv6_interface_addr d = Some v -> length v = 16%nat;
  lw_v6n v : ipv6_neighbor_addr d = Some v -> length v = 16%nat;
  lw_mt : mt_wf (ld_multi_topology_id d);
  lw_unknown : unknown_wf (ld_unknown d);
}.

Record prefix_wf (d : PrefixDescriptor) : Prop := {
  pw_mt : mt_wf (pd_multi_topology_id d);
  pw_ip v : ip_reachability d = Some v -> Z.of_nat (length v) < 65536;
  pw_unknown : unknown_wf (pd_unknown d);
}.

Definition descriptors_wf (t : LsNlriType) (d : LsDescriptors) : Prop :=
  match t, d with
  | LsNode, NodeDescriptors l => node_wf l
  | LsLink, LinkDescriptors l r k => node_wf l /\ node_wf r /\ link_wf k
  | LsPrefixV4, PrefixV4Descriptors l p | LsPrefixV6, PrefixV6Descriptors l p => node_wf l /\ prefix_wf p
  | _, _ => False
  end.

(** Equal up to the order of the unknown TLVs. *)
Definition link_equiv (a b : LinkDescriptor) : Prop :=
  exists u, u ≡ₚ ld_unknown a /\
    b = mkLinkDesc (link_local_id a) (link_remote_id a) (ipv4_interface_addr a) (ipv4_neighbor_addr a)
          (ipv6_interface_addr a) (ipv6_neighbor_addr a) (ld_multi_topology_id a) u.
Definition prefix_equiv (a b : PrefixDescriptor) : Prop :=
  exists u, u ≡ₚ pd_unknown a /\
    b = mkPrefixDesc (pd_multi_topology_id a) (ospf_route_type a) (ip_reachability a) u.
Definition descriptors_equiv (a b : LsDescriptors) : Prop :=
  match a, b with
  | NodeDescriptors l, NodeDescriptors l' => l' = l
  | LinkDescriptors l r k, LinkDescriptors l' r' k' => l' = l /\ r' = r /\ link_equiv k k'
  | PrefixV4Descriptors l p, PrefixV4Descriptors l' p' | PrefixV6Descriptors l p, PrefixV6Descriptors l' p' =>
      l' = l /\ prefix_equiv p p'
  | _, _ => False
  end.

(** ** Node descriptors *)
Lemma add_node_tlvs_app d l1 l2 :
  add_node_tlvs d (l1 ++ l2) = d ← add_node_tlvs d l1; add_node_tlvs d l2.
Proof.
  revert d. induction l1 as [|t l1 IH]; intros d; [done|]. cbn. by destruct (add_node_tlv d t); cbn.
Qed.

Lemma add_node_unknown d u :
  Forall (fun t => tlv_ok t /\ ~ node_sub_type (tlv_type t)) u ->
  add_node_tlvs d u =
    Ok (mkNodeDesc (as_number d) (bgp_ls_id d) (ospf_area_id d) (igp_router_id d) (nd_unknown d ++ u)).
Proof.
  revert d. induction u as [|t u IH]; intros d Hu; [by rewrite app_nil_r; destruct d|].
  apply Forall_cons in Hu as [[_ Ht] Hu]. cbn [add_node_tlvs].
  assert (add_node_tlv d t =
    Ok (mkNodeDesc (as_number d) (bgp_ls_id d) (ospf_area_id d) (igp_router_id d) (nd_unknown d ++ [t]))) as ->.
  { unfold add_node_tlv. destruct (tlv_type_from_u16 (tlv_type t)) as [[]|] eqn:E; try done;
      apply tlv_type_from_u16_Some in E; exfalso; apply Ht; rewrite E; cbv; done. }
  cbn [mbind outcome_bind]. rewrite IH by done. cbn. by rewrite <- app_assoc.
Qed.

Lemma exact_u32_be name v : u32 v -> exact_u32 name (be_bytes 4 v) = Ok v.
Proof. intros Hv. unfold exact_u32, exact. rewrite length_be_bytes. cbn [Nat.eqb fmap outcome_fmap]. by rewrite be_val_be_bytes_id. Qed.

Lemma Forall_opt_one {A} (P : LsTlv -> Prop) t (enc : A -> list Z) v :
  (forall x, v = Some x -> P (mkTlv (tlv_code t) (enc x))) -> Forall P (opt_one t enc v).
Proof. intros Hv. destruct v; constructor; [by apply Hv|constructor]. Qed.

Lemma code_u16 t : u16 (tlv_code t).
Proof. by destruct t. Qed.

Lemma node_tlvs_ok d : node_wf d -> Forall tlv_ok (node_tlvs d).
Proof.
  intros []. unfold node_tlvs. repeat (apply Forall_app; split);
    try (apply Forall_opt_one; intros x Hx; split; [apply code_u16|cbn [tlv_value]; rewrite ?length_be_bytes; try done; by auto]).
  eapply Forall_impl; [done|]. by intros t [].
Qed.

Lemma opt_one_types {A} t (enc : A -> list Z) v c : c ∈ tlv_type <$> opt_one t enc v -> c = tlv_code t.
Proof. destruct v; cbn; set_solver. Qed.

Lemma NoDup_opt_one {A} t (enc : A -> list Z) v rest :
  NoDup (tlv_type <$> rest) -> tlv_code t ∉ tlv_type <$> rest -> NoDup (tlv_type <$> (opt_one t enc v ++ rest)).
Proof. intros H1 H2. destruct v; cbn; [by constructor|done]. Qed.

Lemma node_tlvs_unique d : node_wf d -> NoDup (tlv_type <$> node_tlvs d).
Proof.
  intros []. assert (forall c, node_sub_type c -> c ∉ tlv_type <$> nd_unknown d) as Hn.
  { intros c Hc (t & -> & Ht)%list_elem_of_fmap. rewrite Forall_forall in nw_unknown0.
    by destruct (nw_unknown0 t Ht). }
  unfold node_tlvs. repeat apply NoDup_opt_one; try done;
    rewrite ?fmap_app; repeat (rewrite not_elem_of_app; split);
    try (intros Hc%opt_one_types; done); apply Hn; cbv; done.
Qed.

Lemma parse_node_roundtrip d : node_wf d -> parse_node_descriptor (node_sub_tlvs d) = Ok d.
Proof.
  intros Hd. unfold parse_node_descriptor.
  rewrite node_tlvs_bytes, parse_tlv_list_write by (by apply node_tlvs_ok). cbn [mbind outcome_bind].
  rewrite validate_unique_ok by (by apply node_tlvs_unique). cbn [mbind outcome_bind].
  destruct Hd as [H1 H2 H3 _ H5 _ _]. unfold node_tlvs. destruct d as [a b c r u]. cbn [as_number bgp_ls_id ospf_area_id igp_router_id nd_unknown] in *.
  rewrite add_node_tlvs_app.
  assert (add_node_tlvs node_default (opt_one AutonomousSystem (be_bytes 4) a) = Ok (mkNodeDesc a None None None [])) as ->.
  { destruct a as [v|]; [|done]. cbn -[be_bytes]. unfold add_node_tlv. cbn -[be_bytes]. by rewrite exact_u32_be by auto. }
  cbn [mbind outcome_bind]. rewrite add_node_tlvs_app.
  assert (add_node_tlvs (mkNodeDesc a None None None []) (opt_one BgpLsId (be_bytes 4) b) = Ok (mkNodeDesc a b None None [])) as ->.
  { destruct b as [v|]; [|done]. cbn -[be_bytes]. unfold add_node_tlv. cbn -[be_bytes]. by rewrite exact_u32_be by auto. }
  cbn [mbind outcome_bind]. rewrite add_node_tlvs_app.
  assert (add_node_tlvs (mkNodeDesc a b None None []) (opt_one OspfAreaId (be_bytes 4) c) = Ok (mkNodeDesc a b c None [])) as ->.
  { destruct c as [v|]; [|done]. cbn -[be_bytes]. unfold add_node_tlv. cbn -[be_bytes]. by rewrite exact_u32_be by auto. }
  cbn [mbind outcome_bind]. rewrite add_node_tlvs_app.
  assert (add_node_tlvs (mkNodeDesc a b c None []) (opt_one IgpRouterId id r) = Ok (mkNodeDesc a b c r [])) as ->
    by by destruct r.
  cbn [mbind outcome_bind]. by rewrite add_node_unknown.
Qed.

(** ** Link and prefix descriptors *)
Lemma ordered_opt_one {A} t (enc : A -> list Z) v rest :
  ordered rest -> Forall (fun b => tlv_code t < tlv_type b) rest -> ordered (opt_one t enc v ++ rest).
Proof.
  intros Hr Hlt. apply ordered_app; [|done|].
  - destruct v; repeat constructor.
  - by apply Forall_opt_one.
Qed.

Lemma above_opt_one {A} c t (enc : A -> list Z) v rest :
  c < tlv_code t -> Forall (fun b => c < tlv_type b) rest ->
  Forall (fun b => c < tlv_type b) (opt_one t enc v ++ rest).
Proof. intros Hc Hr. apply Forall_app. split; [|done]. by apply Forall_opt_one. Qed.

Lemma above_unknown c u : unknown_wf u -> c <= 265 -> Forall (fun b => c < tlv_type b) u.
Proof. intros [Hu _] Hc. eapply Forall_impl; [exact Hu|]. cbn. intros t (_ & _ & Ht). lia. Qed.

(** Orders, bounds and lookups of a list of optional TLVs and unknown ones. *)
Ltac tlv_above := repeat (apply above_opt_one; [cbv; done|]); try (apply above_unknown; [done|cbv; done]).
Ltac tlv_ordered := repeat (apply ordered_opt_one; [|tlv_above]); try done.

Lemma first_value_skip {A} c t (enc : A -> list Z) v rest :
  tlv_code t <> c -> first_value c (opt_one t enc v ++ rest) = first_value c rest.
Proof. intros Hc. destruct v; cbn; [|done]. by rewrite (proj2 (Z.eqb_neq _ _) Hc). Qed.

Lemma first_value_hit {A} t (enc : A -> list Z) v rest :
  first_value (tlv_code t) (opt_one t enc v ++ rest) =
    match v with Some x => Some (enc x) | None => first_value (tlv_code t) rest end.
Proof. destruct v; cbn; [|done]. by rewrite Z.eqb_refl. Qed.

Lemma first_value_none c rest : Forall (fun b => c < tlv_type b) rest -> first_value c rest = None.
Proof.
  induction 1 as [|b rest Hb _ IH]; [done|]. cbn. by destruct (Z.eqb_spec (tlv_type b) c); [lia|].
Qed.

(** The lookup of a field in such a list. *)
Ltac tlv_lookup :=
  repeat (rewrite first_value_skip by (cbv; done)); rewrite first_value_hit, first_value_none by (tlv_above; done);
  match goal with |- match ?v with _ => _ end = _ => by destruct v end.

Lemma filter_unknown_opt {A} t (enc : A -> list Z) v rest :
  filter unknown (opt_one t enc v ++ rest) = filter unknown rest.
Proof.
  rewrite filter_app. destruct v; cbn [opt_one app]; [|done]. rewrite filter_cons_False; [done|].
  unfold unknown. cbn [tlv_type]. by rewrite tlv_type_from_code.
Qed.

Lemma filter_unknown_all u : unknown_wf u -> filter unknown u = u.
Proof. intros [Hu _]. induction Hu as [|t u (_ & Ht & _) _ IH]; [done|]. by rewrite filter_cons_True, IH. Qed.

Lemma parse_mt_ids_write ids : Forall u16 ids -> parse_mt_ids (mt_bytes ids) = Ok ids.
Proof.
  intros Hi. unfold parse_mt_ids. change (mt_bytes ids) with (word_bytes 2 ids).
  rewrite length_word_bytes, Nat.mul_comm, Nat.Div0.mod_mul, words_word_bytes; [done|lia|].
  eapply Forall_impl; [done|]. unfold u16. intros. lia.
Qed.

Lemma mt_bytes_ok ids l : mt_wf ids -> ids = Some l -> Z.of_nat (length (mt_bytes l)) < 65536.
Proof. intros Hm Hl. destruct (Hm l Hl) as [_ H]. change (mt_bytes l) with (word_bytes 2 l). rewrite length_word_bytes. lia. Qed.

Lemma unknown_ok u : unknown_wf u -> Forall tlv_ok u.
Proof. intros [Hu _]. eapply Forall_impl; [done|]. by intros t []. Qed.

Lemma length_link_ids l r : length (be_bytes 4 l ++ be_bytes 4 r) = 8%nat.
Proof. by rewrite length_app, !length_be_bytes. Qed.

(** Each TLV of a list of optional ones can be sent. *)
Ltac tlvs_ok :=
  repeat (apply Forall_app; split); try (by apply unknown_ok);
  apply Forall_opt_one; intros x Hx; (split; [apply code_u16|cbn [tlv_value id]]).

Lemma link_tlvs_ok d : link_wf d -> Forall tlv_ok (link_tlvs d).
Proof.
  intros []. unfold link_tlvs. tlvs_ok.
  - destruct x. rewrite length_link_ids. done.
  - by rewrite (lw_v4i0 _ Hx).
  - by rewrite (lw_v4n0 _ Hx).
  - by rewrite (lw_v6i0 _ Hx).
  - by rewrite (lw_v6n0 _ Hx).
  - by eapply mt_bytes_ok.
Qed.

Lemma prefix_tlvs_ok d : prefix_wf d -> Forall tlv_ok (prefix_tlvs d).
Proof. intros []. unfold prefix_tlvs. tlvs_ok; [by eapply mt_bytes_ok|done|by apply pw_ip0]. Qed.

(** TLVs that come before: the node descriptors. *)
Definition before (t : LsTlv) : Prop := tlv_type t < 258 /\ ~ unknown t.

Lemma first_value_pre t pre rest :
  Forall before pre -> 258 <= tlv_code t -> first_value (tlv_code t) (pre ++ rest) = first_value (tlv_code t) rest.
Proof.
  intros Hpre Ht. rewrite first_value_app. induction Hpre as [|b pre [Hb _] _ IH]; [done|]. cbn.
  by destruct (Z.eqb_spec (tlv_type b) (tlv_code t)); [lia|].
Qed.

Lemma filter_unknown_pre pre rest : Forall before pre -> filter unknown (pre ++ rest) = filter unknown rest.
Proof. induction 1 as [|b pre [_ Hb] _ IH]; [done|]. cbn [app]. by rewrite filter_cons_False. Qed.

Section roundtrip.
Context `{HashOrder}.

Lemma exact_len name n v : length v = n -> exact name n v = Ok v.
Proof. intros <-. unfold exact. by rewrite Nat.eqb_refl. Qed.

(** A field found after the node descriptors and read back. *)
Lemma opt_field_back {A B} pre l t (f : list Z -> outcome LsNlriError B) (enc : A -> list Z) (g : A -> B) v :
  Forall before pre -> 258 <= tlv_code t -> first_value (tlv_code t) l = enc <$> v ->
  (forall x, v = Some x -> f (enc x) = Ok (g x)) ->
  opt_field (make_tlv_map (pre ++ l)) t f = Ok (g <$> v).
Proof.
  intros Hpre Ht Hf Hx. rewrite opt_field_first, first_value_pre, Hf by done.
  destruct v as [x|]; [|done]. cbn. by rewrite (Hx x eq_refl).
Qed.

Lemma parse_link_roundtrip pre d :
  link_wf d -> Forall before pre ->
  exists d', parse_link_descriptor (make_tlv_map (pre ++ link_tlvs d)) = Ok d' /\ link_equiv d d'.
Proof.
  intros [Hids H4i H4n H6i H6n Hmt Hu] Hpre.
  pose proof (unknown_tlvs_perm (pre ++ link_tlvs d)) as Hperm.
  assert (filter unknown (pre ++ link_tlvs d) = ld_unknown d) as Hf.
  { rewrite filter_unknown_pre by done. unfold link_tlvs. rewrite !filter_unknown_opt. by apply filter_unknown_all. }
  rewrite Hf in Hperm. unfold parse_link_descriptor. set (u := unknown_tlvs _) in *. clearbody u.
  rewrite (opt_field_back pre _ LinkLocalRemoteId _ (fun '(l, r) => be_bytes 4 l ++ be_bytes 4 r)
    (fun '(l, r) => be_bytes 4 l ++ be_bytes 4 r) (link_ids d) Hpre);
    [|cbv; done|unfold link_tlvs; tlv_lookup|intros [l r] _; apply exact_len, length_link_ids].
  cbn [mbind outcome_bind]. rewrite (opt_field_back pre _ Ipv4InterfaceAddr _ id id (ipv4_interface_addr d) Hpre);
    [|cbv; done|unfold link_tlvs; tlv_lookup|intros x Hx; apply exact_len, H4i, Hx].
  cbn [mbind outcome_bind]. rewrite (opt_field_back pre _ Ipv4NeighborAddr _ id id (ipv4_neighbor_addr d) Hpre);
    [|cbv; done|unfold link_tlvs; tlv_lookup|intros x Hx; apply exact_len, H4n, Hx].
  cbn [mbind outcome_bind]. rewrite (opt_field_back pre _ Ipv6InterfaceAddr _ id id (ipv6_interface_addr d) Hpre);
    [|cbv; done|unfold link_tlvs; tlv_lookup|intros x Hx; apply exact_len, H6i, Hx].
  cbn [mbind outcome_bind]. rewrite (opt_field_back pre _ Ipv6NeighborAddr _ id id (ipv6_neighbor_addr d) Hpre);
    [|cbv; done|unfold link_tlvs; tlv_lookup|intros x Hx; apply exact_len, H6n, Hx].
  cbn [mbind outcome_bind]. rewrite (opt_field_back pre _ MultiTopologyId _ mt_bytes id (ld_multi_topology_id d) Hpre);
    [|cbv; done|unfold link_tlvs; tlv_lookup|intros x Hx; apply parse_mt_ids_write, (Hmt x Hx)].
  cbn [mbind outcome_bind]. eexists. split; [reflexivity|]. exists u. split; [done|].
  rewrite !option_fmap_id. unfold link_ids.
  destruct Hids as [[-> ->]|(l & r & -> & -> & Hl & Hr)]; [done|]. cbn [fmap option_fmap option_map].
  rewrite take_app_length', drop_app_length' by (by rewrite length_be_bytes). by rewrite !be_val_be_bytes_id.
Qed.

Lemma parse_prefix_roundtrip pre d :
  prefix_wf d -> Forall before pre ->
  exists d', parse_prefix_descriptor (make_tlv_map (pre ++ prefix_tlvs d)) = Ok d' /\ prefix_equiv d d'.
Proof.
  intros [Hmt Hip Hu] Hpre.
  pose proof (unknown_tlvs_perm (pre ++ prefix_tlvs d)) as Hperm.
  assert (filter unknown (pre ++ prefix_tlvs d) = pd_unknown d) as Hf.
  { rewrite filter_unknown_pre by done. unfold prefix_tlvs. rewrite !filter_unknown_opt. by apply filter_unknown_all. }
  rewrite Hf in Hperm. unfold parse_prefix_descriptor. set (u := unknown_tlvs _) in *. clearbody u.
  rewrite (opt_field_back pre _ MultiTopologyId _ mt_bytes id (pd_multi_topology_id d) Hpre);
    [|cbv; done|unfold prefix_tlvs; tlv_lookup|intros x Hx; apply parse_mt_ids_write, (Hmt x Hx)].
  cbn [mbind outcome_bind]. rewrite (opt_field_back pre _ OspfRouteType _ (fun t => [t]) (fun t => [t]) (ospf_route_type d) Hpre);
    [|cbv; done|unfold prefix_tlvs; tlv_lookup|intros x _; by apply exact_len].
  cbn [mbind outcome_bind]. rewrite (opt_field_back pre _ IpReachabilityInfo _ id id (ip_reachability d) Hpre);
    [|cbv; done|unfold prefix_tlvs; tlv_lookup|done].
  cbn [mbind outcome_bind]. eexists. split; [reflexivity|]. exists u. split; [done|].
  rewrite !option_fmap_id. f_equal. destruct (ospf_route_type d); [|done]. cbn. f_equal. lia.
Qed.
End roundtrip.

(** ** Whole NLRIs *)
Lemma node_tlv_ok t d : node_wf d -> tlv_ok (node_tlv t d).
Proof. intros []. split; [apply code_u16|done]. Qed.

Lemma descriptor_tlvs_ok t d : descriptors_wf t d -> Forall tlv_ok (descriptor_tlvs d).
Proof.
  destruct t, d; cbn [descriptors_wf descriptor_tlvs]; try done.
  - intros Hl. apply Forall_singleton. by apply node_tlv_ok.
  - intros (Hl & Hr & Hk). by repeat (apply Forall_cons; split; [by apply node_tlv_ok|]); apply link_tlvs_ok.
  - intros (Hl & Hp). apply Forall_cons; split; [by apply node_tlv_ok|by apply prefix_tlvs_ok].
  - intros (Hl & Hp). apply Forall_cons; split; [by apply node_tlv_ok|by apply prefix_tlvs_ok].
Qed.

Lemma above_link c d : link_wf d -> c < 258 -> Forall (fun b => c < tlv_type b) (link_tlvs d).
Proof.
  intros [_ _ _ _ _ _ Hu] Hc. unfold link_tlvs. repeat (apply above_opt_one; [cbn; lia|]). apply above_unknown; [done|lia].
Qed.
Lemma above_prefix c d : prefix_wf d -> c < 258 -> Forall (fun b => c < tlv_type b) (prefix_tlvs d).
Proof.
  intros [_ _ Hu] Hc. unfold prefix_tlvs. repeat (apply above_opt_one; [cbn; lia|]). apply above_unknown; [done|lia].
Qed.

Lemma ordered_cons t rest : ordered rest -> Forall (fun b => tlv_type t < tlv_type b) rest -> ordered (t :: rest).
Proof. intros Hr Ht. apply (ordered_app [t]); [repeat constructor|done|by constructor]. Qed.

Lemma link_tlvs_ordered d : link_wf d -> ordered (link_tlvs d).
Proof. intros [_ _ _ _ _ _ Hu]. pose proof (proj2 Hu). unfold link_tlvs. tlv_ordered. Qed.
Lemma prefix_tlvs_ordered d : prefix_wf d -> ordered (prefix_tlvs d).
Proof. intros [_ _ Hu]. pose proof (proj2 Hu). unfold prefix_tlvs. tlv_ordered. Qed.

Lemma descriptor_tlvs_ordered t d : descriptors_wf t d -> ordered (descriptor_tlvs d).
Proof.
  destruct t, d; cbn [descriptors_wf descriptor_tlvs]; try done.
  - intros _. repeat constructor.
  - intros (_ & _ & Hk). apply ordered_cons; [apply ordered_cons; [by apply link_tlvs_ordered|by apply above_link]|].
    constructor; [done|by apply above_link].
  - intros (_ & Hp). apply ordered_cons; [by apply prefix_tlvs_ordered|by apply above_prefix].
  - intros (_ & Hp). apply ordered_cons; [by apply prefix_tlvs_ordered|by apply above_prefix].
Qed.

(** A body as the parser takes it. *)
Definition body_equiv (a b : LsNlriBody) : Prop :=
  body_protocol_id b = body_protocol_id a /\ body_identifier b = body_identifier a /\
  descriptors_equiv (body_descriptors a) (body_descriptors b).

Definition nlri_wf (s : Safi) (n : LsNlri) : Prop :=
  u16 (nlri_type n) /\ Z.of_nat (length (nlri_raw n)) + 8 < 65536 /\
  match route_distinguisher n with Some rd => s = LinkStateVpn /\ length rd = RD_LEN | None => s <> LinkStateVpn end /\
  match nlri_body n with
  | Some b => exists t, nlri_type_from_u16 (nlri_type n) = Some t /\ u64 (body_identifier b) /\
      descriptors_wf t (body_descriptors b) /\
      nlri_raw n = encode_ls_nlri_body (body_protocol_id b) (body_identifier b) (body_descriptors b)
  | None => nlri_type_from_u16 (nlri_type n) = None
  end.

Definition nlri_equiv (a b : LsNlri) : Prop :=
  nlri_type b = nlri_type a /\ nlri_raw b = nlri_raw a /\ route_distinguisher b = route_distinguisher a /\
  match nlri_body a, nlri_body b with
  | Some x, Some y => body_equiv x y
  | None, None => True
  | _, _ => False
  end.

Section nlri_roundtrip.
Context `{HashOrder}.

Lemma parse_descriptors_roundtrip t d :
  descriptors_wf t d ->
  exists d', parse_ls_nlri_descriptors t (descriptor_bytes d) = Ok d' /\ descriptors_equiv d d'.
Proof.
  intros Hd. unfold parse_ls_nlri_descriptors.
  rewrite descriptor_tlvs_bytes, parse_tlv_list_write by (by eapply descriptor_tlvs_ok). cbn [mbind outcome_bind].
  rewrite validate_ordered by (by eapply descriptor_tlvs_ordered). cbn [mbind outcome_bind].
  assert (forall l, before (node_tlv LocalNodeDescriptors l)) as Hbl by (intros l; split; [done|by cbv]).
  assert (forall l, before (node_tlv RemoteNodeDescriptors l)) as Hbr by (intros l; split; [done|by cbv]).
  destruct t, d as [l|l r k|l p|l p]; cbn [descriptors_wf descriptor_tlvs] in *; try done.
  - rewrite node_field_first. cbn [first_value node_tlv tlv_type tlv_code tlv_value Z.eqb Pos.eqb].
    rewrite parse_node_roundtrip by done. by eexists.
  - destruct Hd as (Hl & Hr & Hk). rewrite !node_field_first.
    cbn [first_value node_tlv tlv_type tlv_code tlv_value Z.eqb Pos.eqb].
    rewrite !parse_node_roundtrip by done. cbn [mbind outcome_bind].
    destruct (parse_link_roundtrip [node_tlv LocalNodeDescriptors l; node_tlv RemoteNodeDescriptors r] k Hk) as (k' & Ek & He);
      [by repeat constructor|]. cbn [app] in Ek. rewrite Ek. by eexists.
  - destruct Hd as (Hl & Hp). rewrite node_field_first.
    cbn [first_value node_tlv tlv_type tlv_code tlv_value Z.eqb Pos.eqb].
    rewrite parse_node_roundtrip by done. cbn [mbind outcome_bind].
    destruct (parse_prefix_roundtrip [node_tlv LocalNodeDescriptors l] p Hp) as (p' & Ep & He); [by repeat constructor|].
    cbn [app] in Ep. rewrite Ep. by eexists.
  - destruct Hd as (Hl & Hp). rewrite node_field_first.
    cbn [first_value node_tlv tlv_type tlv_code tlv_value Z.eqb Pos.eqb].
    rewrite parse_node_roundtrip by done. cbn [mbind outcome_bind].
    destruct (parse_prefix_roundtrip [node_tlv LocalNodeDescriptors l] p Hp) as (p' & Ep & He); [by repeat constructor|].
    cbn [app] in Ep. rewrite Ep. by eexists.
Qed.

Lemma parse_body_roundtrip t p i d :
  u64 i -> descriptors_wf t d ->
  exists b, parse_ls_nlri_body t (encode_ls_nlri_body p i d) = Ok b /\ body_equiv (mkLsBody p i d) b.
Proof.
  intros Hi Hd. unfold parse_ls_nlri_body, encode_ls_nlri_body.
  assert (length ([p] ++ be_bytes 8 i ++ descriptor_bytes d) = 9 + length (descriptor_bytes d))%nat as ->
    by (by rewrite !length_app, length_be_bytes).
  destruct (Nat.ltb_spec (9 + length (descriptor_bytes d)) NLRI_BODY_HEADER_LEN); [unfold NLRI_BODY_HEADER_LEN in *; lia|].
  change (index ([p] ++ be_bytes 8 i ++ descriptor_bytes d) 0) with (Ok (E := LsNlriError) p). cbn [mbind outcome_bind].
  assert (drop NLRI_BODY_HEADER_LEN ([p] ++ be_bytes 8 i ++ descriptor_bytes d) = descriptor_bytes d) as ->.
  { change NLRI_BODY_HEADER_LEN with (1 + 8)%nat. rewrite <- drop_drop. change (drop 1 ([p] ++ ?x)) with x.
    apply drop_app_length'. by rewrite length_be_bytes. }
  destruct (parse_descriptors_roundtrip t d Hd) as (d' & -> & He). cbn [mbind outcome_bind].
  eexists. split; [reflexivity|]. split_and!; [done| |done]. cbn [body_identifier].
  change (drop 1 ([p] ++ ?x)) with x. rewrite take_app_length' by (by rewrite length_be_bytes).
  by apply be_val_be_bytes_id.
Qed.

Lemma read_ls_nlri_write s n tail :
  nlri_wf s n -> exists n', read_ls_nlri s (write_ls_nlri n ++ tail) = Ok (Some n', tail) /\ nlri_equiv n n'.
Proof.
  intros (Ht & Hlen & Hrd & Hb). unfold write_ls_nlri.
  set (rd := default [] (route_distinguisher n)).
  assert (length (rd ++ nlri_raw n) = length (nlri_raw n) + match route_distinguisher n with Some _ => RD_LEN | None => 0 end)%nat as El.
  { rewrite length_app. unfold rd. destruct (route_distinguisher n) as [r|]; cbn [default id length]; [destruct Hrd as [_ Hr]; rewrite Hr|]; lia. }
  assert (exists pb, parse_known_body (nlri_type n) (nlri_raw n) = Ok pb /\
    match nlri_body n, pb with Some x, Some y => body_equiv x y | None, None => True | _, _ => False end) as (pb & Epb & Hpb).
  { unfold parse_known_body. destruct (nlri_body n) as [b|]; [|rewrite Hb; by eexists].
    destruct Hb as (t & -> & Hi & Hd & ->).
    destruct (parse_body_roundtrip t (body_protocol_id b) (body_identifier b) (body_descriptors b) Hi Hd) as (b' & -> & He).
    by eexists. }
  unfold u16, u64 in *. rewrite <- !app_assoc.
  set (len := Z.of_nat (length (nlri_raw n) + match route_distinguisher n with Some _ => RD_LEN | None => 0%nat end)).
  assert (0 <= len < 65536) as Hl by (unfold len, RD_LEN; destruct (route_distinguisher n); lia).
  pose proof (be_val_be_bytes_id 2 (nlri_type n) ltac:(lia)) as Et. pose proof (be_val_be_bytes_id 2 len ltac:(lia)) as Ele.
  pose proof (length_be_bytes 2 (nlri_type n)) as L1. pose proof (length_be_bytes 2 len) as L2.
  destruct (be_bytes 2 (nlri_type n)) as [|a [|b [|]]]; try done.
  destruct (be_bytes 2 len) as [|c [|d [|]]]; try done.
  cbn [app]. unfold read_ls_nlri. rewrite Et, Ele. cbv zeta. unfold len. rewrite Nat2Z.id, <- El, app_assoc.
  destruct (Nat.ltb_spec (length ((rd ++ nlri_raw n) ++ tail)) (length (rd ++ nlri_raw n))) as [Hlt|_];
    [rewrite (length_app _ tail) in Hlt; lia|].
  rewrite take_app_length, drop_app_length. unfold rd, nlri_equiv in *. clear rd Et Ele.
  destruct (route_distinguisher n) as [r|] eqn:Er.
  - destruct Hrd as [-> Hr]. rewrite bool_decide_eq_true_2 by done. cbn [default id andb].
    destruct (Nat.ltb_spec (length (r ++ nlri_raw n)) RD_LEN) as [Hlt|_]; [rewrite length_app in Hlt; lia|].
    rewrite take_app_length', drop_app_length' by (by rewrite Hr). rewrite Epb. cbn [mbind outcome_bind]. by eexists.
  - rewrite bool_decide_eq_false_2 by done. cbn [default id andb app]. rewrite Epb. cbn [mbind outcome_bind]. by eexists.
Qed.

Lemma read_ls_nlri_shrinks s bytes n rest :
  read_ls_nlri s bytes = Ok (n, rest) -> (length rest < length bytes)%nat.
Proof.
  unfold read_ls_nlri. destruct bytes as [|a [|b [|c [|d bytes]]]]; try done. cbv zeta.
  destruct (_ <? _)%nat; [done|]. destruct (_ && _).
  - intros [= <- <-]. rewrite length_drop. simpl. lia.
  - destruct (bool_decide _); cbn; destruct (parse_known_body _ _); cbn; try done;
      intros [= <- <-]; rewrite length_drop; simpl; lia.
Qed.
End nlri_roundtrip.

(** ** No panic *)
Definition nonempty_lists (m : TlvMap) : Prop := map_Forall (fun _ l => l <> []) m.

Lemma make_tlv_map_nonempty l : nonempty_lists (make_tlv_map l).
Proof.
  intros c tlvs Hc. pose proof (make_tlv_map_lookup l c) as Hm. rewrite Hc in Hm. by destruct Hm as (t & tlvs' & -> & _).
Qed.

Lemma validate_ordering_no_panic l : validate_tlv_ordering l <> Panic.
Proof.
  induction l as [|a l IH]; [done|]. destruct l as [|b l]; [done|]. cbn [validate_tlv_ordering] in *.
  by destruct (bool_decide _).
Qed.

Lemma validate_unique_no_panic l : validate_unique_tlv l <> Panic.
Proof.
  unfold validate_unique_tlv. generalize (@nil Z). induction l as [|a l IH]; intros seen; [done|].
  cbn [validate_unique_from]. by destruct (bool_decide _).
Qed.

Lemma exact_no_panic name n v : exact name n v <> Panic.
Proof. unfold exact. by destruct (_ =? _)%nat. Qed.

Lemma add_node_tlvs_no_panic d l : add_node_tlvs d l <> Panic.
Proof.
  revert d. induction l as [|t l IH]; intros d; [done|]. cbn [add_node_tlvs]. apply outcome_bind_no_panic; [|by auto].
  unfold add_node_tlv, exact_u32. repeat case_match; try done;
    (apply outcome_bind_no_panic; [|done]); unfold exact; by destruct (_ =? _)%nat.
Qed.

Lemma parse_node_no_panic bytes : parse_node_descriptor bytes <> Panic.
Proof.
  unfold parse_node_descriptor. apply outcome_bind_no_panic; [apply parse_tlv_list_no_panic|]. intros l _.
  apply outcome_bind_no_panic; [apply validate_unique_no_panic|]. intros _ _. apply add_node_tlvs_no_panic.
Qed.

Lemma opt_field_no_panic {A} l t (f : list Z -> outcome LsNlriError A) :
  (forall v, f v <> Panic) -> opt_field (make_tlv_map l) t f <> Panic.
Proof.
  intros Hf. rewrite opt_field_first. destruct (first_value _ l) as [v|]; [|done].
  apply outcome_bind_no_panic; [apply Hf|done].
Qed.

Lemma node_field_no_panic l t name : node_field (make_tlv_map l) t name <> Panic.
Proof. rewrite node_field_first. destruct (first_value _ l); [apply parse_node_no_panic|done]. Qed.

Lemma parse_mt_ids_no_panic v : parse_mt_ids v <> Panic.
Proof. unfold parse_mt_ids. by destruct (negb _). Qed.

(** A chain of binds none of which panics. *)
Ltac no_panic :=
  repeat first
    [ done
    | apply opt_field_no_panic; intros ?
    | apply exact_no_panic | apply parse_mt_ids_no_panic | apply node_field_no_panic
    | apply outcome_bind_no_panic; [|intros ? _] ].

Section no_panic.
Context `{HashOrder}.

Lemma parse_body_no_panic t body : parse_ls_nlri_body t body <> Panic.
Proof.
  unfold parse_ls_nlri_body. destruct (Nat.ltb_spec (length body) NLRI_BODY_HEADER_LEN) as [|Hl]; [done|].
  destruct body as [|p body]; [cbn in Hl; unfold NLRI_BODY_HEADER_LEN in Hl; lia|]. cbn [index lookup list_lookup mbind outcome_bind].
  apply outcome_bind_no_panic; [|done]. unfold parse_ls_nlri_descriptors.
  apply outcome_bind_no_panic; [apply parse_tlv_list_no_panic|]. intros l _.
  apply outcome_bind_no_panic; [apply validate_ordering_no_panic|]. intros _ _.
  apply outcome_bind_no_panic; [apply node_field_no_panic|]. intros n _.
  destruct t; unfold parse_link_descriptor, parse_prefix_descriptor; no_panic.
Qed.

Lemma read_ls_nlri_no_panic s bytes : read_ls_nlri s bytes <> Panic.
Proof.
  unfold read_ls_nlri. destruct bytes as [|a [|b [|c [|d bytes]]]]; try done. cbv zeta.
  destruct (_ <? _)%nat; [done|]. destruct (_ && _); [done|].
  assert (forall ty v, parse_known_body ty v <> Panic) as Hk.
  { intros ty v. unfold parse_known_body. destruct (nlri_type_from_u16 ty) as [t|]; [|done].
    pose proof (parse_body_no_panic t v). by destruct (parse_ls_nlri_body t v). }
  destruct (bool_decide _); (apply outcome_bind_no_panic; [apply Hk|done]).
Qed.
End no_panic.

(** What a turn consumed, outside VPN. *)
Lemma read_ls_nlri_bytes `{HashOrder} s bytes n rest :
  s <> LinkStateVpn -> bytes_ok bytes -> read_ls_nlri s bytes = Ok (n, rest) ->
  exists n', n = Some n' /\ bytes = write_ls_nlri n' ++ rest /\ bytes_ok rest.
Proof.
  intros Hs Hb. unfold read_ls_nlri. destruct bytes as [|a [|b [|c [|d bytes]]]]; try done. cbv zeta.
  rewrite !bool_decide_eq_false_2 by done. cbn [andb].
  set (len := Z.to_nat (be_val [c; d])). destruct (Nat.ltb_spec (length bytes) len) as [|Hl]; [done|].
  destruct (parse_known_body _ _) as [pb| |]; [|done..]. cbn [mbind outcome_bind]. intros [= <- <-].
  eexists. split; [reflexivity|]. unfold write_ls_nlri. cbn [nlri_type nlri_raw route_distinguisher default].
  rewrite Nat.add_0_r, length_take, Nat.min_l by done. cbn [app].
  apply Forall_cons in Hb as [Ha Hb]. apply Forall_cons in Hb as [Hb' Hb].
  apply Forall_cons in Hb as [Hc Hb]. apply Forall_cons in Hb as [Hd Hb].
  assert (bytes_ok [a; b]) as Hab by (apply Forall_cons; split; [done|by apply Forall_singleton]).
  assert (bytes_ok [c; d]) as Hcd by (apply Forall_cons; split; [done|by apply Forall_singleton]).
  unfold len. rewrite Z2Nat.id by (apply be_val_bounds, Hcd).
  pose proof (be_bytes_be_val _ Hab) as E1. pose proof (be_bytes_be_val _ Hcd) as E2. cbn [length] in E1, E2.
  change (a * 256 ^ Z.of_nat 1 + (b * 256 ^ Z.of_nat 0 + 0)) with (be_val [a; b]).
  rewrite E1, E2. cbn [app].
  rewrite take_drop. split; [done|by apply Forall_drop].
Qed.

(** ** Properties *)

(** Link-state NLRIs survive the wire: a list of NLRIs of one SAFI
    (opaque ones and node, link and prefix NLRIs with any well-formed
    descriptors, with a route distinguisher on each in the VPN SAFI) is read
    back as the same list, up to the order of the unknown TLVs, which the
    decoder collects from a hash map. *)
Theorem ls_nlri_list_roundtrip `{HashOrder} s l :
  Forall (nlri_wf s) l ->
  exists l', parse_ls_nlri_list (write_ls_nlri_list l) s = Ok l' /\ Forall2 nlri_equiv l l'.
Proof.
  intros Hl. unfold parse_ls_nlri_list.
  assert (exists e, parse_list (read_ls_nlri s) (write_ls_nlri_list l) = Ok (map Some e) /\ Forall2 nlri_equiv l e)
    as (e & -> & He).
  { induction Hl as [|n l Hn Hl (e & IH & He)]; [exists []; by split|].
    destruct (read_ls_nlri_write s n (write_ls_nlri_list l) Hn) as (n' & En & Hn').
    change (write_ls_nlri_list (n :: l)) with (write_ls_nlri n ++ write_ls_nlri_list l).
    rewrite parse_list_cons by (try apply read_ls_nlri_shrinks; done). rewrite En. cbn [mbind outcome_bind].
    rewrite IH. exists (n' :: e). split; [done|by constructor]. }
  exists e. split; [|done]. cbn [fmap outcome_fmap]. f_equal. clear He Hl.
  induction e as [|n e IH]; [done|]. cbn [map concat option_list app]. by rewrite IH.
Qed.

(** The decoder takes any bytes without a panic, and outside the VPN SAFI
    it keeps every NLRI verbatim, those it cannot read included: what it
    accepts is encoded as the same bytes again. *)
Theorem ls_nlri_list_verbatim `{HashOrder} s bytes :
  bytes_ok bytes ->
  parse_ls_nlri_list bytes s <> Panic /\
  (s <> LinkStateVpn -> forall l, parse_ls_nlri_list bytes s = Ok l -> write_ls_nlri_list l = bytes).
Proof.
  intros Hb. unfold parse_ls_nlri_list. split.
  - pose proof (parse_list_no_panic (read_ls_nlri s) (read_ls_nlri_shrinks s) bytes (read_ls_nlri_no_panic s)).
    by destruct (parse_list _ bytes).
  - intros Hs. induction bytes as [|bytes Hne IH] using (parse_list_ind (read_ls_nlri s) (read_ls_nlri_shrinks s)).
    { by intros l [= <-]. }
    rewrite parse_list_cons by (apply read_ls_nlri_shrinks || done). intros l.
    destruct (read_ls_nlri s bytes) as [[n rest]| |] eqn:E; [|done..].
    destruct (read_ls_nlri_bytes s bytes n rest Hs Hb E) as (n' & -> & -> & Hr).
    specialize (IH _ _ eq_refl Hr). cbn [mbind outcome_bind].
    destruct (parse_list _ rest) as [more| |]; [|done..]. intros [= <-]. cbn [map concat option_list app].
    change (write_ls_nlri n' ++ write_ls_nlri_list (concat (map option_list more)) = write_ls_nlri n' ++ rest).
    f_equal. by apply IH.
Qed.

(** ** Witnesses *)
Definition demo_node : NodeDescriptor := mkNodeDesc (Some 65001) (Some 0) None (Some [0; 0; 0; 0; 0; 1]) [mkTlv 600 [1; 2]].
Definition demo_link : LinkDescriptor :=
  mkLinkDesc (Some 1) (Some 2) (Some [10; 0; 0; 1]) None None None (Some [0; 2]) [mkTlv 1000 [7]; mkTlv 1001 []].
Definition demo_nlris : list LsNlri :=
  [build_ls_nlri LsNode IsIsL2 0 (NodeDescriptors demo_node) None;
   build_ls_nlri LsLink OspfV2 1 (LinkDescriptors demo_node demo_node demo_link) None;
   mkLsNlri 77 [1; 2; 3] None None].

Lemma demo_node_wf : node_wf demo_node.
Proof.
  split; cbn; try (intros v [= <-]; unfold u32; cbn; lia); try done.
  - repeat constructor; try (cbv; congruence); unfold u16, node_sub_type; cbn; lia.
  - repeat constructor. set_solver.
Qed.

Lemma demo_link_wf : link_wf demo_link.
Proof.
  split; cbn; try (by intros v [= <-]); try done.
  - right. exists 1, 2. unfold u32. split_and!; try done; lia.
  - intros l [= <-]. split; [repeat constructor; unfold u16; lia|cbn; lia].
  - split; [repeat constructor; try (cbv; congruence); unfold u16; cbn; lia|repeat constructor; by cbv].
Qed.

Lemma demo_nlris_wf : Forall (nlri_wf Safi_LinkState) demo_nlris.
Proof.
  unfold demo_nlris. apply Forall_cons; split; [|apply Forall_cons; split; [|apply Forall_singleton]].
  - split; [|split; [|split]]; [by cbv|by cbv|discriminate|]. exists LsNode.
    split; [reflexivity|split; [by cbv|split; [exact demo_node_wf|reflexivity]]].
  - split; [|split; [|split]]; [by cbv|by cbv|discriminate|]. exists LsLink.
    split; [reflexivity|split; [by cbv|split; [exact (conj demo_node_wf (conj demo_node_wf demo_link_wf))|reflexivity]]].
  - split; [|split; [|split]]; [by cbv|by cbv|discriminate|reflexivity].
Qed.

Lemma ls_nlri_list_roundtrip_witness :
  let H := insertion_order in
  exists l', parse_ls_nlri_list (write_ls_nlri_list demo_nlris) Safi_LinkState = Ok l' /\ Forall2 nlri_equiv demo_nlris l'.
Proof.
  cbv zeta. apply (@ls_nlri_list_roundtrip insertion_order). apply demo_nlris_wf.
Defined.

Lemma ls_nlri_list_verbatim_witness :
  let H := insertion_order in
  exists l, parse_ls_nlri_list [0; 77; 0; 1; 9; 0; 1; 0; 0] Safi_LinkState = Ok l /\ write_ls_nlri_list l = [0; 77; 0; 1; 9; 0; 1; 0; 0].
Proof.
  cbv zeta. eexists. split; [by vm_compute|].
  apply (@ls_nlri_list_verbatim insertion_order Safi_LinkState); [by apply bytes_ok_forallb|done|by vm_compute].
Defined.

(** The key of a link-state route is not a function of the NLRI's bytes.
    Two receptions of the same NLRI with two kinds of unknown TLVs may be
    collected from their hash maps in different orders; the values have the
    same bytes and yet are different keys, so that a withdrawal may not find
    the route it withdraws. *)
Theorem ls_nlri_key_unstable :
  let bytes := write_ls_nlri_list [build_ls_nlri LsLink OspfV2 1 (LinkDescriptors demo_node demo_node demo_link) None] in
  exists a b, @parse_ls_nlri_list insertion_order bytes Safi_LinkState = Ok [a] /\
    @parse_ls_nlri_list reverse_order bytes Safi_LinkState = Ok [b] /\
    nlri_raw a = nlri_raw b /\ a <> b.
Proof.
  cbv zeta. eexists _, _. split; [by vm_compute|]. split; [by vm_compute|]. by split.
Qed.
