(* ===== verification/Attrs.v ===== *)
(** * Path attributes ([bgpgg/src/bgp/msg_update_types.rs],
    [bgpgg/src/bgp/community.rs], [bgpgg/src/bgp/large_community.rs], the types
    of [bgpgg/src/bgp/bgpls_attr.rs])

    Addresses are integers; a Rust [String] is the list of its UTF-8 bytes. *)
From S2P Require Import Prelude Net Notification Nlri BgpLs.

Inductive IpAddr := IpV4 (a : Z) | IpV6 (a : Z).

#[export] Instance IpAddr_eq_dec : EqDecision IpAddr.
Proof. solve_decision. Defined.
#[export] Instance IpAddr_countable : Countable IpAddr.
Proof.
  apply (inj_countable' (fun a => match a with IpV4 a => inl a | IpV6 a => inr a end)
    (fun s => match s with inl a => IpV4 a | inr a => IpV6 a end)). by intros [].
Defined.

(** ** RFC 7606 actions *)
Inductive PathAttrError := Discard | TreatAsWithdraw.

#[export] Instance PathAttrError_eq_dec : EqDecision PathAttrError.
Proof. solve_decision. Defined.

Definition ORIGIN : Z := 1.
Definition AS_PATH : Z := 2.
Definition NEXT_HOP : Z := 3.
Definition MULTI_EXIT_DISC : Z := 4.
Definition LOCAL_PREF : Z := 5.
Definition ATOMIC_AGGREGATE : Z := 6.
Definition AGGREGATOR : Z := 7.
Definition COMMUNITIES : Z := 8.
Definition ORIGINATOR_ID : Z := 9.
Definition CLUSTER_LIST : Z := 10.
Definition MP_REACH_NLRI : Z := 14.
Definition MP_UNREACH_NLRI : Z := 15.
Definition EXTENDED_COMMUNITIES : Z := 16.
Definition AS4_PATH : Z := 17.
Definition AS4_AGGREGATOR : Z := 18.
Definition LINK_STATE : Z := 29.
Definition LARGE_COMMUNITIES : Z := 32.

(** In the order of the code's match arms. *)
Definition malformed_attr_action (code : Z) (is_ebgp : bool) : PathAttrError :=
  if code =? ORIGIN then TreatAsWithdraw
  else if code =? AS_PATH then TreatAsWithdraw
  else if code =? NEXT_HOP then TreatAsWithdraw
  else if code =? MULTI_EXIT_DISC then TreatAsWithdraw
  else if (code =? LOCAL_PREF) && is_ebgp then Discard
  else if code =? LOCAL_PREF then TreatAsWithdraw
  else if code =? ATOMIC_AGGREGATE then Discard
  else if code =? AGGREGATOR then Discard
  else if code =? COMMUNITIES then TreatAsWithdraw
  else if code =? EXTENDED_COMMUNITIES then TreatAsWithdraw
  else if code =? LARGE_COMMUNITIES then TreatAsWithdraw
  else if (code =? ORIGINATOR_ID) && is_ebgp then Discard
  else if code =? ORIGINATOR_ID then TreatAsWithdraw
  else if (code =? CLUSTER_LIST) && is_ebgp then Discard
  else if code =? CLUSTER_LIST then TreatAsWithdraw
  else if code =? MP_UNREACH_NLRI then TreatAsWithdraw
  else if code =? AS4_PATH then Discard
  else if code =? AS4_AGGREGATOR then Discard
  else Discard.

(** ** Attribute flags *)
Definition OPTIONAL : Z := 128.
Definition TRANSITIVE : Z := 64.
Definition PARTIAL : Z := 32.
Definition EXTENDED_LENGTH : Z := 16.

Definition extended_len (flags : Z) : bool := negb (Z.land flags EXTENDED_LENGTH =? 0).
Definition header_len (flags : Z) : nat := if extended_len flags then 4 else 3.

Definition AS_TRANS : Z := 23456.
Definition MAX_2BYTE_ASN : Z := 65535.

(** ** Attribute types *)
Inductive AttrType :=
  | TOrigin | TAsPath | TNextHop | TMultiExtiDisc | TLocalPref | TAtomicAggregate
  | TAggregator | TCommunities | TOriginatorId | TClusterList | TMpReachNlri
  | TMpUnreachNlri | TExtendedCommunities | TAs4Path | TAs4Aggregator | TLinkState
  | TLargeCommunities.

#[export] Instance AttrType_eq_dec : EqDecision AttrType.
Proof. solve_decision. Defined.

Definition attr_type_code (t : AttrType) : Z :=
  match t with
  | TOrigin => 1 | TAsPath => 2 | TNextHop => 3 | TMultiExtiDisc => 4 | TLocalPref => 5
  | TAtomicAggregate => 6 | TAggregator => 7 | TCommunities => 8 | TOriginatorId => 9
  | TClusterList => 10 | TMpReachNlri => 14 | TMpUnreachNlri => 15
  | TExtendedCommunities => 16 | TAs4Path => 17 | TAs4Aggregator => 18
  | TLinkState => 29 | TLargeCommunities => 32
  end.

Definition attr_type_try_from (v : Z) : outcome ParserError AttrType :=
  if v =? 1 then Ok TOrigin else if v =? 2 then Ok TAsPath
  else if v =? 3 then Ok TNextHop else if v =? 4 then Ok TMultiExtiDisc
  else if v =? 5 then Ok TLocalPref else if v =? 6 then Ok TAtomicAggregate
  else if v =? 7 then Ok TAggregator else if v =? 8 then Ok TCommunities
  else if v =? 9 then Ok TOriginatorId else if v =? 10 then Ok TClusterList
  else if v =? 14 then Ok TMpReachNlri else if v =? 15 then Ok TMpUnreachNlri
  else if v =? 16 then Ok TExtendedCommunities else if v =? 17 then Ok TAs4Path
  else if v =? 18 then Ok TAs4Aggregator else if v =? 29 then Ok TLinkState
  else if v =? 32 then Ok TLargeCommunities
  else update_err (UmUnknown 0).

Definition expected_flags (t : AttrType) : Z :=
  match t with
  | TOrigin | TAsPath | TNextHop | TLocalPref | TAtomicAggregate => TRANSITIVE
  | TMultiExtiDisc | TOriginatorId | TClusterList | TMpReachNlri | TMpUnreachNlri => OPTIONAL
  | TAggregator | TCommunities | TExtendedCommunities | TAs4Path | TAs4Aggregator
  | TLinkState | TLargeCommunities => Z.lor OPTIONAL TRANSITIVE
  end.

Definition is_well_known (t : AttrType) : bool :=
  match t with
  | TOrigin | TAsPath | TNextHop | TLocalPref | TAtomicAggregate => true
  | _ => false
  end.

Definition is_optional (t : AttrType) : bool :=
  match t with
  | TMultiExtiDisc | TAggregator | TCommunities | TOriginatorId | TClusterList
  | TMpReachNlri | TMpUnreachNlri | TExtendedCommunities | TAs4Path | TAs4Aggregator
  | TLinkState | TLargeCommunities => true
  | _ => false
  end.

(** ** Attribute values *)
Inductive Origin := IGP | EGP | INCOMPLETE.

Definition origin_to_u8 (o : Origin) : Z := match o with IGP => 0 | EGP => 1 | INCOMPLETE => 2 end.

Definition origin_try_from (v : Z) : outcome ParserError Origin :=
  if v =? 0 then Ok IGP else if v =? 1 then Ok EGP else if v =? 2 then Ok INCOMPLETE
  else update_err InvalidOriginAttribute.

Inductive AsPathSegmentType := AsSet | AsSequence | AsConfedSequence | AsConfedSet.

Definition segment_type_to_u8 (t : AsPathSegmentType) : Z :=
  match t with AsSet => 1 | AsSequence => 2 | AsConfedSequence => 3 | AsConfedSet => 4 end.

Definition segment_type_try_from (v : Z) : outcome ParserError AsPathSegmentType :=
  if v =? 1 then Ok AsSet else if v =? 2 then Ok AsSequence
  else if v =? 3 then Ok AsConfedSequence else if v =? 4 then Ok AsConfedSet
  else update_err MalformedASPath.

Record AsPathSegment := mkSegment {
  segment_type : AsPathSegmentType; segment_len : Z; asn_list : list Z }.

(** [AsPath] wraps its segments. *)
Abbreviation AsPath := (list AsPathSegment).

(** [AsPath::leftmost_as] *)
Definition leftmost_as (p : AsPath) : option Z := seg ← head p; head (asn_list seg).

Inductive NextHopAddr :=
  | NhIpv4 (addr : Z)
  | NhIpv6 (addr : Z)
  | NhIpv6WithLinkLocal (global link_local : Z).

Definition nh_is_unspecified (n : NextHopAddr) : bool :=
  match n with
  | NhIpv4 addr | NhIpv6 addr => addr =? 0
  | NhIpv6WithLinkLocal global link_local => (global =? 0) && (link_local =? 0)
  end.

Definition nh_global_addr (n : NextHopAddr) : NextHopAddr :=
  match n with NhIpv6WithLinkLocal global _ => NhIpv6 global | other => other end.

Definition nh_link_local (n : NextHopAddr) : option Z :=
  match n with NhIpv6WithLinkLocal _ link_local => Some link_local | _ => None end.

Definition nh_from_ip (addr : IpAddr) : NextHopAddr :=
  match addr with IpV4 v4 => NhIpv4 v4 | IpV6 v6 => NhIpv6 v6 end.

Record Aggregator := mkAggregator { agg_asn : Z; agg_ip_addr : Z }.

Record LargeCommunity := mkLarge { global_admin : Z; local_data_1 : Z; local_data_2 : Z }.

Definition large_to_bytes (c : LargeCommunity) : list Z :=
  be_bytes 4 (global_admin c) ++ be_bytes 4 (local_data_1 c) ++ be_bytes 4 (local_data_2 c).

(** From an array of twelve bytes. *)
Definition large_from_bytes (bytes : list Z) : LargeCommunity :=
  mkLarge (be_val (take 4 bytes)) (be_val (take 4 (drop 4 bytes))) (be_val (take 4 (drop 8 bytes))).

(** ** Communities *)
Definition community_from (asn value : Z) : Z := Z.lor (Z.shiftl asn 16 mod 2 ^ 32) value.
Definition community_asn (community : Z) : Z := Z.shiftr community 16 mod 2 ^ 16.
Definition community_value (community : Z) : Z := community mod 2 ^ 16.

Definition NO_EXPORT : Z := 0xFFFFFF01.
Definition NO_ADVERTISE : Z := 0xFFFFFF02.
Definition NO_EXPORT_SUBCONFED : Z := 0xFFFFFF03.
Definition GRACEFUL_SHUTDOWN : Z := 0xFFFF0000.
Definition LLGR_STALE : Z := 0xFFFF0006.
Definition NO_LLGR : Z := 0xFFFF0007.

(** ** BGP-LS attribute *)
Inductive NodeAttrTlv :=
  | NFlagBits (v : Z) | NOpaque (v : list Z) | NName (v : list Z) | NIsisAreaId (v : list Z)
  | NIpv4RouterId (v : Z) | NIpv6RouterId (v : Z).
Inductive LinkAttrTlv :=
  | LIpv4RouterIdLocal (v : Z) | LIpv6RouterIdLocal (v : Z)
  | LIpv4RouterIdRemote (v : Z) | LIpv6RouterIdRemote (v : Z)
  | LAdminGroup (v : Z) | LMaxLinkBw (v : Z) | LMaxRsvblLinkBw (v : Z)
  | LUnreservedBw (v : list Z) | LTeDefaultMetric (v : Z) | LLinkProtection (v : Z)
  | LMplsProtocolMask (v : Z) | LIgpMetric (v : Z) | LSrlg (v : list Z)
  | LOpaque (v : list Z) | LName (v : list Z).
Inductive PrefixAttrTlv :=
  | PIgpFlags (v : Z) | PIgpRouteTag (v : list Z) | PIgpExtendedRouteTag (v : list Z)
  | PMetric (v : Z) | POspfFwdAddr (v : IpAddr) | POpaque (v : list Z).
Inductive LsAttrTlv :=
  | LsaNode (t : NodeAttrTlv) | LsaLink (t : LinkAttrTlv) | LsaPrefix (t : PrefixAttrTlv)
  | LsaUnknown (t : LsTlv).
Record LsAttr := mkLsAttr { lsa_raw : list Z; lsa_tlvs : list LsAttrTlv }.

Record MpReachNlri := mkMpReach {
  mr_afi : Afi; mr_safi : Safi; mr_next_hop : NextHopAddr;
  mr_nlri : list Nlri; mr_ls_nlri : list LsNlri }.
Record MpUnreachNlri := mkMpUnreach {
  mu_afi : Afi; mu_safi : Safi; mu_withdrawn_routes : list Nlri; mu_ls_withdrawn : list LsNlri }.

Inductive PathAttrValue :=
  | AOrigin (v : Origin)
  | AAsPath (v : AsPath)
  | ANextHop (v : NextHopAddr)
  | AMultiExtiDisc (v : Z)
  | ALocalPref (v : Z)
  | AAtomicAggregate
  | AAggregator (v : Aggregator)
  | ACommunities (v : list Z)
  | AOriginatorId (v : Z)
  | AClusterList (v : list Z)
  | AMpReachNlri (v : MpReachNlri)
  | AMpUnreachNlri (v : MpUnreachNlri)
  | AExtendedCommunities (v : list Z)
  | AAs4Path (v : AsPath)
  | AAs4Aggregator (v : Aggregator)
  | ALargeCommunities (v : list LargeCommunity)
  | ALsAttr (v : LsAttr)
  | AUnknown (type_code flags : Z) (data : list Z).

Record PathAttribute := mkAttr { pa_flags : Z; pa_value : PathAttrValue }.

Definition is_unknown_transitive (a : PathAttribute) : bool :=
  match pa_value a with
  | AUnknown _ flags _ => negb (Z.land flags TRANSITIVE =? 0)
  | _ => false
  end.

Definition type_code (a : PathAttribute) : Z :=
  match pa_value a with
  | AOrigin _ => ORIGIN | AAsPath _ => AS_PATH | ANextHop _ => NEXT_HOP
  | AMultiExtiDisc _ => MULTI_EXIT_DISC | ALocalPref _ => LOCAL_PREF
  | AAtomicAggregate => ATOMIC_AGGREGATE | AAggregator _ => AGGREGATOR
  | ACommunities _ => COMMUNITIES | AOriginatorId _ => ORIGINATOR_ID
  | AClusterList _ => CLUSTER_LIST | AMpReachNlri _ => MP_REACH_NLRI
  | AMpUnreachNlri _ => MP_UNREACH_NLRI | AExtendedCommunities _ => EXTENDED_COMMUNITIES
  | AAs4Path _ => AS4_PATH | AAs4Aggregator _ => AS4_AGGREGATOR
  | ALargeCommunities _ => LARGE_COMMUNITIES | ALsAttr _ => LINK_STATE
  | AUnknown type_code _ _ => type_code
  end.

(** ** Decidable equality *)
#[export] Instance Origin_eq_dec : EqDecision Origin.
Proof. solve_decision. Defined.
#[export] Instance AsPathSegmentType_eq_dec : EqDecision AsPathSegmentType.
Proof. solve_decision. Defined.
#[export] Instance AsPathSegment_eq_dec : EqDecision AsPathSegment.
Proof. solve_decision. Defined.
#[export] Instance NextHopAddr_eq_dec : EqDecision NextHopAddr.
Proof. solve_decision. Defined.
#[export] Instance Aggregator_eq_dec : EqDecision Aggregator.
Proof. solve_decision. Defined.
#[export] Instance LargeCommunity_eq_dec : EqDecision LargeCommunity.
Proof. solve_decision. Defined.
#[export] Instance NodeAttrTlv_eq_dec : EqDecision NodeAttrTlv.
Proof. solve_decision. Defined.
#[export] Instance LinkAttrTlv_eq_dec : EqDecision LinkAttrTlv.
Proof. solve_decision. Defined.
#[export] Instance PrefixAttrTlv_eq_dec : EqDecision PrefixAttrTlv.
Proof. solve_decision. Defined.
#[export] Instance LsAttrTlv_eq_dec : EqDecision LsAttrTlv.
Proof. solve_decision. Defined.
#[export] Instance LsAttr_eq_dec : EqDecision LsAttr.
Proof. solve_decision. Defined.
#[export] Instance MpReachNlri_eq_dec : EqDecision MpReachNlri.
Proof. solve_decision. Defined.
#[export] Instance MpUnreachNlri_eq_dec : EqDecision MpUnreachNlri.
Proof. solve_decision. Defined.
#[export] Instance PathAttrValue_eq_dec : EqDecision PathAttrValue.
Proof. solve_decision. Defined.
#[export] Instance PathAttribute_eq_dec : EqDecision PathAttribute.
Proof. solve_decision. Defined.

(** ** Conversions and their inverses *)
Lemma attr_type_code_try_from t : attr_type_try_from (attr_type_code t) = Ok t.
Proof. by destruct t. Qed.

Lemma attr_type_try_from_Ok v t : attr_type_try_from v = Ok t -> v = attr_type_code t.
Proof.
  unfold attr_type_try_from. intros H.
  repeat (match type of H with context [?x =? ?y] => destruct (Z.eqb_spec x y) end;
    [injection H as <-; assumption|]). discriminate.
Qed.

Lemma segment_type_roundtrip t : segment_type_try_from (segment_type_to_u8 t) = Ok t.
Proof. by destruct t. Qed.

Lemma origin_roundtrip o : origin_try_from (origin_to_u8 o) = Ok o.
Proof. by destruct o. Qed.

Lemma well_known_or_optional t : is_well_known t = negb (is_optional t).
Proof. by destruct t. Qed.

(** The expected flags carry the optional bit for the optional attributes and
    the transitive bit for the well-known ones. *)
Lemma expected_flags_bits t :
  Z.testbit (expected_flags t) 7 = is_optional t /\
  (is_well_known t = true -> Z.testbit (expected_flags t) 6 = true).
Proof. by destruct t. Qed.

Lemma community_split_lor a v :
  u16 a -> u16 v -> community_from a v = a * 2 ^ 16 + v.
Proof.
  unfold u16, community_from. intros Ha Hv. rewrite Z.mod_small.
  - apply lor_shiftl_add; lia.
  - rewrite Z.shiftl_mul_pow2; lia.
Qed.

Lemma community_roundtrip a v :
  u16 a -> u16 v ->
  community_asn (community_from a v) = a /\ community_value (community_from a v) = v.
Proof.
  intros Ha Hv. rewrite community_split_lor by done. unfold u16, community_asn, community_value in *.
  rewrite Z.shiftr_div_pow2 by lia. rewrite Z.div_add_l, (Z.div_small v), Z.add_0_r by lia.
  rewrite (Z.mod_small a) by lia. split; [done|].
  rewrite Z.add_comm, Z_mod_plus_full. by apply Z.mod_small.
Qed.

Lemma community_rejoin c :
  u32 c -> community_from (community_asn c) (community_value c) = c.
Proof.
  unfold u32. intros Hc.
  assert (0 <= c / 2 ^ 16 < 2 ^ 16) by
    (split; [apply Z.div_pos; lia|apply Z.div_lt_upper_bound; lia]).
  rewrite community_split_lor; unfold u16, community_asn, community_value;
    rewrite ?Z.shiftr_div_pow2 by lia; try (apply Z.mod_pos_bound; lia).
  rewrite (Z.mod_small (c / 2 ^ 16)) by lia. pose proof (Z.div_mod c (2 ^ 16)). lia.
Qed.

Lemma large_community_roundtrip c :
  u32 (global_admin c) -> u32 (local_data_1 c) -> u32 (local_data_2 c) ->
  large_from_bytes (large_to_bytes c) = c.
Proof.
  destruct c as [g a b]. unfold large_from_bytes, large_to_bytes, u32. cbn [global_admin local_data_1 local_data_2].
  intros Hg Ha Hb. rewrite take_app_length' by (by rewrite length_be_bytes).
  rewrite (drop_app_length' (be_bytes 4 g)) by (by rewrite length_be_bytes).
  rewrite take_app_length' by (by rewrite length_be_bytes).
  rewrite app_assoc, drop_app_length' by (by rewrite length_app, !length_be_bytes).
  rewrite take_ge by (by rewrite length_be_bytes).
  by rewrite !be_val_be_bytes_id by done.
Qed.
