(* ===== verification/BgpLsAttr.v ===== *)
(** * The BGP-LS attribute codec ([bgpgg/src/bgp/bgpls_attr.rs],
    [LsAttrTlvType] of [bgpgg/src/bgp/bgpls.rs])

    [None] of the Rust parsers, a malformed attribute, is [Err ()]. *)
From S2P Require Import Prelude Wire Net Notification Nlri BgpLs Attrs.

Inductive LsAttrTlvType :=
  | NodeFlagBits | OpaqueNodeAttr | NodeName | IsisAreaId
  | Ipv4RouterIdLocal | Ipv6RouterIdLocal | Ipv4RouterIdRemote | Ipv6RouterIdRemote
  | AdminGroup | MaxLinkBw | MaxRsvblLinkBw | UnreservedBw | TeDefaultMetric | LinkProtection
  | MplsProtocolMask | IgpMetric | Srlg | OpaqueLinkAttr | LinkName
  | IgpFlags | IgpRouteTag | IgpExtendedRouteTag | PrefixMetric | OspfFwdAddr | OpaquePrefixAttr.

Definition attr_tlv_code (t : LsAttrTlvType) : Z :=
  match t with
  | NodeFlagBits => 1024 | OpaqueNodeAttr => 1025 | NodeName => 1026 | IsisAreaId => 1027
  | Ipv4RouterIdLocal => 1028 | Ipv6RouterIdLocal => 1029
  | Ipv4RouterIdRemote => 1030 | Ipv6RouterIdRemote => 1031
  | AdminGroup => 1088 | MaxLinkBw => 1089 | MaxRsvblLinkBw => 1090 | UnreservedBw => 1091
  | TeDefaultMetric => 1092 | LinkProtection => 1093 | MplsProtocolMask => 1094
  | IgpMetric => 1095 | Srlg => 1096 | OpaqueLinkAttr => 1097 | LinkName => 1098
  | IgpFlags => 1152 | IgpRouteTag => 1153 | IgpExtendedRouteTag => 1154
  | PrefixMetric => 1155 | OspfFwdAddr => 1156 | OpaquePrefixAttr => 1157
  end.

Definition attr_tlv_types : list LsAttrTlvType :=
  [NodeFlagBits; OpaqueNodeAttr; NodeName; IsisAreaId; Ipv4RouterIdLocal; Ipv6RouterIdLocal;
   Ipv4RouterIdRemote; Ipv6RouterIdRemote; AdminGroup; MaxLinkBw; MaxRsvblLinkBw; UnreservedBw;
   TeDefaultMetric; LinkProtection; MplsProtocolMask; IgpMetric; Srlg; OpaqueLinkAttr; LinkName;
   IgpFlags; IgpRouteTag; IgpExtendedRouteTag; PrefixMetric; OspfFwdAddr; OpaquePrefixAttr].

(** The arms of [from_u16], each a code of the enumeration. *)
Definition attr_tlv_type_from_u16 (val : Z) : option LsAttrTlvType :=
  List.find (fun t => attr_tlv_code t =? val) attr_tlv_types.

(** ** [String::from_utf8]: the well-formed byte sequences of Unicode *)
Definition in_range (lo hi b : Z) : bool := (lo <=? b) && (b <=? hi).
Definition continuation : Z -> bool := in_range 0x80 0xBF.

Definition utf8_two (a b : Z) : bool := in_range 0xC2 0xDF a && continuation b.
Definition utf8_three (a b c : Z) : bool :=
  continuation c &&
  ((a =? 0xE0) && in_range 0xA0 0xBF b || in_range 0xE1 0xEC a && continuation b
   || (a =? 0xED) && in_range 0x80 0x9F b || in_range 0xEE 0xEF a && continuation b).
Definition utf8_four (a b c d : Z) : bool :=
  continuation c && continuation d &&
  ((a =? 0xF0) && in_range 0x90 0xBF b || in_range 0xF1 0xF3 a && continuation b
   || (a =? 0xF4) && in_range 0x80 0x8F b).

Fixpoint utf8_ok (bytes : list Z) : bool :=
  match bytes with
  | [] => true
  | a :: r1 =>
      if a <? 0x80 then utf8_ok r1
      else match r1 with
      | [] => false
      | b :: r2 =>
          if utf8_two a b then utf8_ok r2
          else match r2 with
          | [] => false
          | c :: r3 =>
              if utf8_three a b c then utf8_ok r3
              else match r3 with
              | [] => false
              | d :: r4 => utf8_four a b c d && utf8_ok r4
              end
          end
      end
  end.

Definition from_utf8 (value : list Z) : outcome () (list Z) := if utf8_ok value then Ok value else Err ().

(** ** Reading *)
Definition check_len (value : list Z) (expected : nat) : outcome () () :=
  if negb (length value =? expected)%nat then Err () else Ok ().
Definition check_multiple (value : list Z) (multiple : nat) : outcome () () :=
  if negb (length value mod multiple =? 0)%nat then Err () else Ok ().

(** [metric = (metric << 8) | byte] on a [u32] *)
Definition metric_of (value : list Z) : Z :=
  foldl (fun metric byte => Z.lor (Z.shiftl metric 8 mod 2 ^ 32) byte) 0 value.

(** A fixed-size big-endian value; a list of them. *)
Definition fixed (value : list Z) (n : nat) : outcome () Z := _ ← check_len value n; Ok (be_val value).
Definition many (value : list Z) (n : nat) : outcome () (list Z) := _ ← check_multiple value n; Ok (words n value).

Definition parse_attr_tlv (t : Z) (value : list Z) : outcome () LsAttrTlv :=
  match attr_tlv_type_from_u16 t with
  | None => Ok (LsaUnknown (mkTlv t value))
  | Some NodeFlagBits => LsaNode ∘ NFlagBits <$> fixed value 1
  | Some OpaqueNodeAttr => Ok (LsaNode (NOpaque value))
  | Some NodeName => LsaNode ∘ NName <$> from_utf8 value
  | Some IsisAreaId => Ok (LsaNode (NIsisAreaId value))
  | Some Ipv4RouterIdLocal => LsaNode ∘ NIpv4RouterId <$> fixed value 4
  | Some Ipv6RouterIdLocal => LsaNode ∘ NIpv6RouterId <$> fixed value 16
  | Some Ipv4RouterIdRemote => LsaLink ∘ LIpv4RouterIdRemote <$> fixed value 4
  | Some Ipv6RouterIdRemote => LsaLink ∘ LIpv6RouterIdRemote <$> fixed value 16
  | Some AdminGroup => LsaLink ∘ LAdminGroup <$> fixed value 4
  | Some MaxLinkBw => LsaLink ∘ LMaxLinkBw <$> fixed value 4
  | Some MaxRsvblLinkBw => LsaLink ∘ LMaxRsvblLinkBw <$> fixed value 4
  | Some UnreservedBw => _ ← check_len value 32; Ok (LsaLink (LUnreservedBw (words 4 value)))
  | Some TeDefaultMetric => LsaLink ∘ LTeDefaultMetric <$> fixed value 4
  | Some LinkProtection => LsaLink ∘ LLinkProtection <$> fixed value 2
  | Some MplsProtocolMask => LsaLink ∘ LMplsProtocolMask <$> fixed value 1
  | Some IgpMetric =>
      if (length value =? 0)%nat || (3 <? length value)%nat then Err ()
      else Ok (LsaLink (LIgpMetric (metric_of value)))
  | Some Srlg => LsaLink ∘ LSrlg <$> many value 4
  | Some OpaqueLinkAttr => Ok (LsaLink (LOpaque value))
  | Some LinkName => LsaLink ∘ LName <$> from_utf8 value
  | Some IgpFlags => LsaPrefix ∘ PIgpFlags <$> fixed value 1
  | Some IgpRouteTag => LsaPrefix ∘ PIgpRouteTag <$> many value 4
  | Some IgpExtendedRouteTag => LsaPrefix ∘ PIgpExtendedRouteTag <$> many value 8
  | Some PrefixMetric => LsaPrefix ∘ PMetric <$> fixed value 4
  | Some OspfFwdAddr =>
      if (length value =? 4)%nat then Ok (LsaPrefix (POspfFwdAddr (IpV4 (be_val value))))
      else if (length value =? 16)%nat then Ok (LsaPrefix (POspfFwdAddr (IpV6 (be_val value))))
      else Err ()
  | Some OpaquePrefixAttr => Ok (LsaPrefix (POpaque value))
  end.

(** One turn of the loop of [parse_attr_tlv_list]. *)
Definition read_attr_tlv (bytes : list Z) : outcome () (LsAttrTlv * list Z) :=
  '(t, value, rest) ← read_tlv16 (fun _ => ()) (fun _ _ _ => ()) bytes;
  tlv ← parse_attr_tlv t value;
  Ok (tlv, rest).

Definition parse_attr_tlv_list : list Z -> outcome () (list LsAttrTlv) := parse_list read_attr_tlv.

Definition parse_ls_attr (data : list Z) : outcome () LsAttr :=
  if bool_decide (data = []) then Ok (mkLsAttr [] [])
  else tlvs ← parse_attr_tlv_list data; Ok (mkLsAttr data tlvs).

(** ** Writing *)
Definition write_attr (t : LsAttrTlvType) (value : list Z) : list Z := write_tlv16 (attr_tlv_code t) value.

(** The bytes of a metric from the first one that is not zero. *)
Definition metric_bytes (val : Z) : list Z :=
  let bytes := be_bytes 4 val in
  let start := Nat.min (match list_find (fun b => b <> 0) bytes with Some (i, _) => i | None => 3%nat end) 3 in
  drop start bytes.

Definition write_node_attr (t : NodeAttrTlv) : list Z :=
  match t with
  | NFlagBits flags => write_attr NodeFlagBits [flags]
  | NOpaque data => write_attr OpaqueNodeAttr data
  | NName name => write_attr NodeName name
  | NIsisAreaId area => write_attr IsisAreaId area
  | NIpv4RouterId addr => write_attr Ipv4RouterIdLocal (be_bytes 4 addr)
  | NIpv6RouterId addr => write_attr Ipv6RouterIdLocal (be_bytes 16 addr)
  end.

Definition write_link_attr (t : LinkAttrTlv) : list Z :=
  match t with
  | LIpv4RouterIdLocal addr => write_attr Ipv4RouterIdLocal (be_bytes 4 addr)
  | LIpv6RouterIdLocal addr => write_attr Ipv6RouterIdLocal (be_bytes 16 addr)
  | LIpv4RouterIdRemote addr => write_attr Ipv4RouterIdRemote (be_bytes 4 addr)
  | LIpv6RouterIdRemote addr => write_attr Ipv6RouterIdRemote (be_bytes 16 addr)
  | LAdminGroup val => write_attr AdminGroup (be_bytes 4 val)
  | LMaxLinkBw val => write_attr MaxLinkBw (be_bytes 4 val)
  | LMaxRsvblLinkBw val => write_attr MaxRsvblLinkBw (be_bytes 4 val)
  | LUnreservedBw vals => write_attr UnreservedBw (word_bytes 4 vals)
  | LTeDefaultMetric val => write_attr TeDefaultMetric (be_bytes 4 val)
  | LLinkProtection val => write_attr LinkProtection (be_bytes 2 val)
  | LMplsProtocolMask val => write_attr MplsProtocolMask [val]
  | LIgpMetric val => write_attr IgpMetric (metric_bytes val)
  | LSrlg groups => write_attr Srlg (word_bytes 4 groups)
  | LOpaque data => write_attr OpaqueLinkAttr data
  | LName name => write_attr LinkName name
  end.

Definition write_prefix_attr (t : PrefixAttrTlv) : list Z :=
  match t with
  | PIgpFlags flags => write_attr IgpFlags [flags]
  | PIgpRouteTag tags => write_attr IgpRouteTag (word_bytes 4 tags)
  | PIgpExtendedRouteTag tags => write_attr IgpExtendedRouteTag (word_bytes 8 tags)
  | PMetric val => write_attr PrefixMetric (be_bytes 4 val)
  | POspfFwdAddr (IpV4 v4) => write_attr OspfFwdAddr (be_bytes 4 v4)
  | POspfFwdAddr (IpV6 v6) => write_attr OspfFwdAddr (be_bytes 16 v6)
  | POpaque data => write_attr OpaquePrefixAttr data
  end.

Definition write_attr_tlv (t : LsAttrTlv) : list Z :=
  match t with
  | LsaNode t => write_node_attr t
  | LsaLink t => write_link_attr t
  | LsaPrefix t => write_prefix_attr t
  | LsaUnknown t => write_tlv16 (tlv_type t) (tlv_value t)
  end.

Definition build_ls_attr (tlvs : list LsAttrTlv) : LsAttr :=
  mkLsAttr (concat (map write_attr_tlv tlvs)) tlvs.

(** ** Lemmas *)
Lemma attr_tlv_type_from_code t : attr_tlv_type_from_u16 (attr_tlv_code t) = Some t.
Proof. by destruct t. Qed.

Lemma attr_tlv_code_u16 t : u16 (attr_tlv_code t).
Proof. by destruct t. Qed.

Lemma check_len_ok value n : length value = n -> check_len value n = Ok ().
Proof. intros <-. unfold check_len. by rewrite Nat.eqb_refl. Qed.

Lemma fixed_be n v : 0 <= v < 256 ^ Z.of_nat n -> fixed (be_bytes n v) n = Ok v.
Proof.
  intros Hv. unfold fixed. rewrite check_len_ok by apply length_be_bytes. cbn [mbind outcome_bind].
  by rewrite be_val_be_bytes_id.
Qed.

Lemma fixed_byte v : fixed [v] 1 = Ok v.
Proof. unfold fixed, check_len. cbn. f_equal. lia. Qed.

Lemma many_words n l : (0 < n)%nat -> Forall (fun v => 0 <= v < 256 ^ Z.of_nat n) l -> many (word_bytes n l) n = Ok l.
Proof.
  intros Hn Hl. unfold many, check_multiple. rewrite length_word_bytes, Nat.mul_comm, Nat.Div0.mod_mul.
  cbn [Nat.eqb negb mbind outcome_bind]. by rewrite words_word_bytes.
Qed.

Lemma metric_word a b c : u8 a -> u8 b -> u8 c -> metric_of [a; b; c] = be_val [a; b; c].
Proof.
  unfold u8. intros Ha Hb Hc. unfold metric_of. cbn [foldl be_val length].
  rewrite Z.shiftl_0_l, Z.mod_0_l, Z.lor_0_l by lia.
  rewrite (Z.mod_small (Z.shiftl a 8)) by (rewrite Z.shiftl_mul_pow2; lia).
  rewrite (lor_shiftl_add a b 8) by lia.
  rewrite (Z.mod_small (Z.shiftl _ 8)) by (rewrite Z.shiftl_mul_pow2; lia).
  rewrite lor_shiftl_add by lia. change (256 ^ Z.of_nat 2) with 65536. change (256 ^ Z.of_nat 1) with 256.
  change (256 ^ Z.of_nat 0) with 1. lia.
Qed.

Lemma metric_of_zero l : metric_of (0 :: l) = metric_of l.
Proof. reflexivity. Qed.

Lemma be_bytes_metric v : 0 <= v < 2 ^ 24 -> exists a b c, be_bytes 4 v = [0; a; b; c] /\ u8 a /\ u8 b /\ u8 c /\ be_val [a; b; c] = v.
Proof.
  intros Hv. pose proof (be_bytes_ok 3 v) as Hok. pose proof (be_val_be_bytes_id 3 v ltac:(lia)) as E.
  change (be_bytes 4 v) with ((v / 256 ^ Z.of_nat 3) mod 256 :: be_bytes 3 v).
  rewrite Z.div_small by lia. pose proof (length_be_bytes 3 v) as L.
  destruct (be_bytes 3 v) as [|a [|b [|c [|]]]]; try done.
  apply Forall_cons in Hok as [Ha Hok]. apply Forall_cons in Hok as [Hb Hok]. apply Forall_cons in Hok as [Hc _].
  by exists a, b, c.
Qed.

Lemma metric_roundtrip v :
  0 <= v < 2 ^ 24 -> (1 <= length (metric_bytes v) <= 3)%nat /\ metric_of (metric_bytes v) = v.
Proof.
  intros Hv. destruct (be_bytes_metric v Hv) as (a & b & c & E & Ha & Hb & Hc & Ev).
  pose proof (metric_word a b c Ha Hb Hc) as Em. rewrite Ev in Em. unfold metric_bytes. rewrite E. cbv zeta.
  cbn [list_find]. destruct (decide (0 <> 0)) as [|_]; [done|].
  destruct (decide (a <> 0)) as [_| ->%dec_stable]; cbn -[metric_of]; [by split; [lia|]|].
  rewrite metric_of_zero in Em.
  destruct (decide (b <> 0)) as [_| ->%dec_stable]; cbn -[metric_of]; [by split; [lia|]|].
  rewrite metric_of_zero in Em.
  destruct (decide (c <> 0)) as [_| ->%dec_stable]; cbn -[metric_of]; by split; [lia|].
Qed.

(** What an attribute TLV can carry: values of its width, lists that fit the
    length field, names in UTF-8, and an IGP metric of at most three bytes. *)
Definition list_fits (n : nat) (l : list Z) : Prop :=
  Forall (fun v => 0 <= v < 256 ^ Z.of_nat n) l /\ Z.of_nat n * Z.of_nat (length l) < 65536.
Definition fits (l : list Z) : Prop := Z.of_nat (length l) < 65536.

Definition attr_tlv_wf (t : LsAttrTlv) : Prop :=
  match t with
  | LsaNode (NFlagBits v) | LsaLink (LMplsProtocolMask v) | LsaPrefix (PIgpFlags v) => u8 v
  | LsaNode (NOpaque v) | LsaNode (NIsisAreaId v) | LsaLink (LOpaque v) | LsaPrefix (POpaque v) => fits v
  | LsaNode (NName v) | LsaLink (LName v) => fits v /\ utf8_ok v = true
  | LsaNode (NIpv4RouterId v) | LsaLink (LIpv4RouterIdLocal v | LIpv4RouterIdRemote v)
  | LsaPrefix (POspfFwdAddr (IpV4 v)) => u32 v
  | LsaNode (NIpv6RouterId v) | LsaLink (LIpv6RouterIdLocal v | LIpv6RouterIdRemote v)
  | LsaPrefix (POspfFwdAddr (IpV6 v)) => u128 v
  | LsaLink (LAdminGroup v | LMaxLinkBw v | LMaxRsvblLinkBw v | LTeDefaultMetric v) | LsaPrefix (PMetric v) => u32 v
  | LsaLink (LUnreservedBw l) => length l = 8%nat /\ Forall u32 l
  | LsaLink (LLinkProtection v) => u16 v
  | LsaLink (LIgpMetric v) => 0 <= v < 2 ^ 24
  | LsaLink (LSrlg l) | LsaPrefix (PIgpRouteTag l) => list_fits 4 l
  | LsaPrefix (PIgpExtendedRouteTag l) => list_fits 8 l
  | LsaUnknown t => u16 (tlv_type t) /\ fits (tlv_value t) /\ attr_tlv_type_from_u16 (tlv_type t) = None
  end.

(** The parser takes the local router identifiers for those of a node. *)
Definition as_parsed (t : LsAttrTlv) : LsAttrTlv :=
  match t with
  | LsaLink (LIpv4RouterIdLocal v) => LsaNode (NIpv4RouterId v)
  | LsaLink (LIpv6RouterIdLocal v) => LsaNode (NIpv6RouterId v)
  | t => t
  end.

Lemma read_write_attr ty v r tail :
  fits v -> parse_attr_tlv (attr_tlv_code ty) v = Ok r -> read_attr_tlv (write_attr ty v ++ tail) = Ok (r, tail).
Proof.
  intros Hv Hp. unfold read_attr_tlv, write_attr. rewrite read_tlv16_write by (done || apply attr_tlv_code_u16).
  cbn [mbind outcome_bind]. by rewrite Hp.
Qed.

Lemma fits_be n v : (n < 100)%nat -> fits (be_bytes n v).
Proof. intros Hn. unfold fits. rewrite length_be_bytes. lia. Qed.
Lemma fits_words n l : list_fits n l -> fits (word_bytes n l).
Proof. intros [_ Hl]. unfold fits. rewrite length_word_bytes. lia. Qed.
Lemma fits_byte v : fits [v].
Proof. by cbv. Qed.

Lemma parse_fixed (f : Z -> LsAttrTlv) n v : 0 <= v < 256 ^ Z.of_nat n -> f <$> fixed (be_bytes n v) n = Ok (f v).
Proof. intros Hv. by rewrite fixed_be. Qed.
Lemma parse_many (f : list Z -> LsAttrTlv) n l : (0 < n)%nat -> list_fits n l -> f <$> many (word_bytes n l) n = Ok (f l).
Proof. intros Hn [Hl _]. by rewrite many_words. Qed.

(** The cases of [read_write_attr]: the length, then the parser's arm. *)
Ltac attr_case :=
  apply read_write_attr;
  [first [by apply fits_be; lia|by apply fits_words|apply fits_byte|done]
  |unfold parse_attr_tlv; rewrite attr_tlv_type_from_code;
   first [by apply (parse_fixed (_ ∘ _))|by apply (parse_many (_ ∘ _)); [lia|]|by rewrite fixed_byte|done|idtac]].

Lemma read_attr_tlv_write t tail :
  attr_tlv_wf t -> read_attr_tlv (write_attr_tlv t ++ tail) = Ok (as_parsed t, tail).
Proof.
  destruct t as [[]|[]|[]|[ty v]]; cbn [attr_tlv_wf write_attr_tlv write_node_attr write_link_attr write_prefix_attr as_parsed]; intros H.
  all: try match goal with |- context [POspfFwdAddr ?v] => destruct v end.
  all: try attr_case.
  all: try (destruct H as [Hf Hu]; attr_case; by unfold from_utf8; rewrite Hu).
  - destruct H as [Hlen Hf]. assert (list_fits 4 v) as Hv by (split; [done|rewrite Hlen; lia]).
    apply read_write_attr; [by apply fits_words|]. unfold parse_attr_tlv. rewrite attr_tlv_type_from_code.
    rewrite check_len_ok by (by rewrite length_word_bytes, Hlen). cbn [mbind outcome_bind].
    rewrite words_word_bytes; [done|lia|apply Hv].
  - destruct (metric_roundtrip v H) as [Hl Hv].
    apply read_write_attr; [unfold fits; lia|]. unfold parse_attr_tlv. rewrite attr_tlv_type_from_code, Hv.
    destruct (Nat.eqb_spec (length (metric_bytes v)) 0); [lia|].
    by destruct (Nat.ltb_spec 3 (length (metric_bytes v))); [lia|].
  - rewrite length_be_bytes. cbn [Nat.eqb]. by rewrite be_val_be_bytes_id.
  - rewrite length_be_bytes. cbn [Nat.eqb]. by rewrite be_val_be_bytes_id.
  - cbn [tlv_type tlv_value] in *. destruct H as (Ht & Hf & Hn). unfold read_attr_tlv. rewrite read_tlv16_write by done.
    cbn [mbind outcome_bind]. unfold parse_attr_tlv. by rewrite Hn.
Qed.

Lemma write_attr_tlv_nonempty t : write_attr_tlv t <> [].
Proof. by destruct t as [[]|[]|[| | | |[]|]|]. Qed.

Lemma read_attr_tlv_shrinks bytes t rest :
  read_attr_tlv bytes = Ok (t, rest) -> (length rest < length bytes)%nat.
Proof.
  unfold read_attr_tlv. destruct (read_tlv16 _ _ bytes) as [[[ty v] r]| |] eqn:E; [|done..]. cbn [mbind outcome_bind].
  destruct (parse_attr_tlv ty v); [|done..]. cbn. intros [= <- <-]. by apply read_tlv16_shrinks in E.
Qed.

(** ** Properties *)

(** The link-state attribute survives the wire: what [build_ls_attr]
    encodes from TLVs with values in range is read back as the same TLVs, but
    that the local router identifiers of a link come back as those of a
    node. *)
Theorem ls_attr_roundtrip l :
  Forall attr_tlv_wf l ->
  parse_ls_attr (lsa_raw (build_ls_attr l)) = Ok (mkLsAttr (lsa_raw (build_ls_attr l)) (map as_parsed l)).
Proof.
  intros Hl. unfold parse_ls_attr, build_ls_attr. cbn [lsa_raw].
  assert (parse_attr_tlv_list (concat (map write_attr_tlv l)) = Ok (map as_parsed l)) as E.
  { unfold parse_attr_tlv_list. induction Hl as [|t l Ht _ IH]; [done|]. cbn [map concat].
    rewrite parse_list_cons; [|apply read_attr_tlv_shrinks|by destruct (write_attr_tlv t) eqn:Et; [destruct (write_attr_tlv_nonempty t)|]].
    rewrite read_attr_tlv_write by done. cbn [mbind outcome_bind]. by rewrite IH. }
  destruct (bool_decide_reflect (concat (map write_attr_tlv l) = [])) as [En|_]; [|by rewrite E].
  rewrite En in E |- *. unfold parse_attr_tlv_list in E. rewrite parse_list_nil in E. by injection E as <-.
Qed.

Definition demo_attr : list LsAttrTlv :=
  [LsaNode (NName [0x72; 0xC3; 0xA9]); LsaLink (LIpv4RouterIdLocal 0x0A000001); LsaLink (LIgpMetric 0x010203);
   LsaPrefix (PIgpRouteTag [1; 2]); LsaUnknown (mkTlv 9999 [5])].

Lemma ls_attr_roundtrip_witness :
  parse_ls_attr (lsa_raw (build_ls_attr demo_attr)) = Ok (mkLsAttr (lsa_raw (build_ls_attr demo_attr)) (map as_parsed demo_attr)) /\
  length (lsa_raw (build_ls_attr demo_attr)) = 39%nat.
Proof.
  split; [|by vm_compute]. apply ls_attr_roundtrip.
  unfold demo_attr. repeat (apply Forall_cons_2; [cbn [attr_tlv_wf]|]); [| | | | |constructor].
  - split; [by cbv|reflexivity].
  - unfold u32; lia.
  - lia.
  - split; [apply Forall_cons_2; [lia|apply Forall_cons_2; [lia|constructor]]|by cbv].
  - split; [by cbv|split; [by cbv|reflexivity]].
Defined.

(** An IGP metric of four bytes, which [build_ls_attr] encodes, makes the
    whole attribute unreadable: every receiver that runs this decoder discards it. *)
Theorem igp_metric_unreadable v pre post :
  2 ^ 24 <= v < 2 ^ 32 -> Forall attr_tlv_wf pre ->
  parse_ls_attr (lsa_raw (build_ls_attr (pre ++ LsaLink (LIgpMetric v) :: post))) = Err ().
Proof.
  intros Hv Hpre. unfold parse_ls_attr, build_ls_attr. cbn [lsa_raw]. rewrite map_app, concat_app. cbn [map concat].
  set (tail := concat (map write_attr_tlv post)).
  assert (metric_bytes v = be_bytes 4 v) as Em.
  { unfold metric_bytes. change (be_bytes 4 v) with ((v / 256 ^ Z.of_nat 3) mod 256 :: be_bytes 3 v). cbv zeta. cbn [list_find].
    assert (1 <= v / 256 ^ Z.of_nat 3 < 256).
    { split; [apply Z.div_le_lower_bound; lia|apply Z.div_lt_upper_bound; lia]. }
    rewrite Z.mod_small by lia. by rewrite decide_True by lia. }
  rewrite bool_decide_eq_false_2.
  2:{ by destruct (concat (map write_attr_tlv pre)). }
  assert (parse_attr_tlv_list (concat (map write_attr_tlv pre) ++ write_attr_tlv (LsaLink (LIgpMetric v)) ++ tail) = Err ()) as ->; [|done].
  unfold parse_attr_tlv_list. induction Hpre as [|t pre Ht _ IH]; cbn [map concat app].
  - rewrite parse_list_cons by (try apply read_attr_tlv_shrinks; done).
    unfold read_attr_tlv. cbn [write_attr_tlv write_link_attr]. unfold write_attr.
    rewrite Em, read_tlv16_write; [|apply attr_tlv_code_u16|by rewrite length_be_bytes].
    cbn [mbind outcome_bind]. unfold parse_attr_tlv. rewrite attr_tlv_type_from_code, length_be_bytes. done.
  - rewrite <- app_assoc, parse_list_cons; [|apply read_attr_tlv_shrinks|by destruct (write_attr_tlv t) eqn:Et; [destruct (write_attr_tlv_nonempty t)|]].
    rewrite read_attr_tlv_write by done. cbn [mbind outcome_bind]. by rewrite IH.
Qed.

Lemma igp_metric_unreadable_witness :
  parse_ls_attr (lsa_raw (build_ls_attr [LsaNode (NFlagBits 1); LsaLink (LIgpMetric 16777216); LsaPrefix (PMetric 5)])) = Err ().
Proof.
  apply (igp_metric_unreadable 16777216 [LsaNode (NFlagBits 1)] [LsaPrefix (PMetric 5)]); [lia|].
  apply Forall_singleton. by cbv.
Defined.
