(* ===== verification/Text.v ===== *)
(** * Text: characters, lines, and the text forms of Rust's standard library

    A string is the list of its Unicode scalar values.  [FromStr] and [Display]
    of the unsigned integers, of [bool] and of the IP addresses are those of the
    standard library, their error texts included. *)
From S2P Require Import Prelude Net BgpLs Attrs.

Definition Str : Type := list Z.
Definition str (s : String.string) : Str := map (fun c => Z.of_nat (Ascii.nat_of_ascii c)) (String.list_ascii_of_string s).
Arguments str : simpl never.

Fixpoint str_eqb (s t : Str) : bool :=
  match s, t with
  | [], [] => true
  | c :: s, d :: t => (c =? d) && str_eqb s t
  | _, _ => false
  end.
Notation "s =s t" := (str_eqb s (str t%string)) (at level 70).

(** ** Characters *)
(** [char::is_whitespace]: the Unicode property White_Space. *)
Definition is_whitespace (c : Z) : bool :=
  ((9 <=? c) && (c <=? 13)) || (c =? 32) || (c =? 0x85) || (c =? 0xA0) || (c =? 0x1680) || ((0x2000 <=? c) && (c <=? 0x200A))
  || (c =? 0x2028) || (c =? 0x2029) || (c =? 0x202F) || (c =? 0x205F) || (c =? 0x3000).
Definition is_digit (c : Z) : bool := (48 <=? c) && (c <=? 57).

(** ** Lines *)
Definition strip_cr (l : Str) : Str := if bool_decide (last l = Some 13) then removelast l else l.
(** [str::lines]: the characters of the current line, then the rest. *)
Fixpoint lines_from (cur s : Str) : list Str :=
  match s with
  | [] => match cur with [] => [] | _ => [cur] end
  | c :: s => if c =? 10 then strip_cr cur :: lines_from [] s else lines_from (cur ++ [c]) s
  end.
Definition lines (s : Str) : list Str := lines_from [] s.

(** ** Integers *)
Fixpoint dec_loop (fuel : nat) (n : Z) (acc : Str) : Str :=
  match fuel with
  | O => acc
  | S fuel => let acc := 48 + n mod 10 :: acc in if n <? 10 then acc else dec_loop fuel (n / 10) acc
  end.
(** [Display] of the unsigned integers: twenty digits for 64 bits. *)
Definition dec (n : Z) : Str := dec_loop 20 n [].

Inductive IntErrorKind := Empty | InvalidDigit | PosOverflow.
Definition int_error_text (e : IntErrorKind) : Str :=
  match e with
  | Empty => str "cannot parse integer from empty string"
  | InvalidDigit => str "invalid digit found in string"
  | PosOverflow => str "number too large to fit in target type"
  end.

Fixpoint parse_digits (max acc : Z) (s : Str) : IntErrorKind + Z :=
  match s with
  | [] => inr acc
  | c :: s =>
      if negb (is_digit c) then inl InvalidDigit
      else if max <? acc * 10 then inl PosOverflow
      else if max <? acc * 10 + (c - 48) then inl PosOverflow
      else parse_digits max (acc * 10 + (c - 48)) s
  end.
(** [FromStr] of an unsigned integer of at most [max]. *)
Definition parse_uint (max : Z) (s : Str) : IntErrorKind + Z :=
  match s with
  | [] => inl Empty
  | c :: rest =>
      if c =? 43 then match rest with [] => inl InvalidDigit | _ => parse_digits max 0 rest end
      else parse_digits max 0 s
  end.

(** ** Booleans *)
Definition show_bool (b : bool) : Str := if b then str "true" else str "false".
Definition parse_bool (s : Str) : option bool := if s =s "true" then Some true else if s =s "false" then Some false else None.

(** ** IP addresses: the parser of [core::net] *)
Section reader.
(** The value of a digit in the radix. *)
Definition to_digit (radix c : Z) : option Z :=
  let v := if is_digit c then c - 48 else if (97 <=? c) && (c <=? 122) then c - 87 else if (65 <=? c) && (c <=? 90) then c - 55 else 99 in
  if v <? radix then Some v else None.

(** The digits at the front, with their number and value. *)
Fixpoint read_digits (radix : Z) (s : Str) (count : nat) (acc : Z) : nat * Z * Str :=
  match s with
  | c :: s' => match to_digit radix c with Some d => read_digits radix s' (S count) (acc * radix + d) | None => (count, acc, s) end
  | [] => (count, acc, s)
  end.

(** [Parser::read_number] of a number of at most [max_digits] digits and of
    at most [max]. *)
Definition read_number (radix : Z) (max_digits : nat) (allow_zero_prefix : bool) (max : Z) (s : Str) : option (Z * Str) :=
  let has_leading_zero := match s with c :: _ => c =? 48 | [] => false end in
  let '(count, v, rest) := read_digits radix s 0 0 in
  if (max_digits <? count)%nat then None
  else if (count =? 0)%nat then None
  else if negb allow_zero_prefix && has_leading_zero && (1 <? count)%nat then None
  else if max <? v then None
  else Some (v, rest).

Definition read_char (c : Z) (s : Str) : option Str := match s with d :: s => if d =? c then Some s else None | [] => None end.

(** [Parser::read_separator]: the separator is before all but the first. *)
Definition read_separator {A} (c : Z) (i : nat) (read : Str -> option (A * Str)) (s : Str) : option (A * Str) :=
  s ← (if (0 <? i)%nat then read_char c s else Some s); read s.

Definition read_octet (i : nat) : Str -> option (Z * Str) := read_separator 46 i (read_number 10 3 false 255).
Definition read_ipv4 (s : Str) : option (Z * Str) :=
  '(a, s) ← read_octet 0 s; '(b, s) ← read_octet 1 s; '(c, s) ← read_octet 2 s; '(d, s) ← read_octet 3 s;
  Some (((a * 256 + b) * 256 + c) * 256 + d, s).

(** [read_groups]: the groups read of at most [i + limit], whether the last two
    are an IPv4 address, and the rest. *)
Fixpoint read_groups (i limit : nat) (s : Str) : list Z * bool * Str :=
  match limit with
  | O => ([], false, s)
  | S limit =>
      match (if (0 <? limit)%nat then read_separator 58 i read_ipv4 s else None) with
      | Some (v4, s) => ([v4 / 65536; v4 mod 65536], true, s)
      | None =>
          match read_separator 58 i (read_number 16 4 true 65535) s with
          | Some (g, s) => let '(gs, v4, s) := read_groups (S i) limit s in (g :: gs, v4, s)
          | None => ([], false, s)
          end
      end
  end.
Definition of_groups (gs : list Z) : Z := fold_left (fun acc g => acc * 65536 + g) gs 0.
Definition read_ipv6 (s : Str) : option (Z * Str) :=
  let '(head, head_ipv4, s) := read_groups 0 8 s in
  let head_size := length head in
  if (head_size =? 8)%nat then Some (of_groups head, s)
  else if head_ipv4 then None
  else
    s ← read_char 58 s;
    s ← read_char 58 s;
    let '(tail, _, s) := read_groups 0 (8 - (head_size + 1)) s in
    Some (of_groups (head ++ repeat 0 (8 - head_size - length tail) ++ tail), s).

Definition parse_with {A} (read : Str -> option (A * Str)) (s : Str) : option A :=
  match read s with Some (a, []) => Some a | _ => None end.
End reader.

(** [FromStr] of [Ipv4Addr] and of [IpAddr]. *)
Definition parse_ipv4 (s : Str) : option Z := if (15 <? length s)%nat then None else parse_with read_ipv4 s.
Definition parse_ip (s : Str) : option IpAddr :=
  parse_with (fun s => match read_ipv4 s with Some (a, s) => Some (IpV4 a, s) | None => '(a, s) ← read_ipv6 s; Some (IpV6 a, s) end) s.

(** [FromStr] of [SocketAddr]: a port after a colon; an IPv6 address stands in
    brackets, with its scope after a percent sign if it has one. *)
Definition read_port (s : Str) : option (Z * Str) := s ← read_char 58 s; read_number 10 (length s) true 65535 s.
Definition read_scope (s : Str) : Str :=
  match (s ← read_char 37 s; read_number 10 (length s) true (2 ^ 32 - 1) s) with Some (_, s) => s | None => s end.
Definition read_socket_v4 (s : Str) : option (IpAddr * Z * Str) := '(a, s) ← read_ipv4 s; '(port, s) ← read_port s; Some ((IpV4 a, port), s).
Definition read_socket_v6 (s : Str) : option (IpAddr * Z * Str) :=
  s ← read_char 91 s; '(a, s) ← read_ipv6 s; s ← read_char 93 (read_scope s); '(port, s) ← read_port s; Some ((IpV6 a, port), s).
Definition parse_socket_addr (s : Str) : option (IpAddr * Z) :=
  parse_with (fun s => match read_socket_v4 s with Some r => Some r | None => read_socket_v6 s end) s.

(** [Display] of [Ipv4Addr]. *)
Definition ipv4_octet (a : Z) (i : Z) : Z := Z.shiftr a (8 * i) mod 256.
Definition show_ipv4 (a : Z) : Str :=
  dec (ipv4_octet a 3) ++ str "." ++ dec (ipv4_octet a 2) ++ str "." ++ dec (ipv4_octet a 1) ++ str "." ++ dec (ipv4_octet a 0).

Example parse_ip_examples :
  parse_ip (str "10.0.0.1") = Some (IpV4 0x0A000001) /\ parse_ip (str "10.0.0.01") = None /\ parse_ip (str "256.0.0.1") = None /\
  parse_ip (str "2001:db8::1") = Some (IpV6 0x20010db8000000000000000000000001) /\ parse_ip (str "::") = Some (IpV6 0) /\
  parse_ip (str "::ffff:10.0.0.1") = Some (IpV6 0xffff0a000001) /\ parse_ip (str "1:2:3:4:5:6:7::8") = None /\
  parse_ip (str "1:2:3:4:5:6:7::") = Some (IpV6 0x00010002000300040005000600070000) /\
  show_ipv4 0x0A00FF01 = str "10.0.255.1" /\ lines (str "a" ++ [13; 10] ++ str "b") = [str "a"; str "b"].
Proof. vm_compute. done. Qed.
Example parse_socket_addr_examples :
  parse_socket_addr (str "10.0.0.1:179") = Some (IpV4 0x0A000001, 179) /\ parse_socket_addr (str "[::1%3]:0080") = Some (IpV6 1, 80) /\
  parse_socket_addr (str "10.0.0.1") = None /\ parse_socket_addr (str "10.0.0.1:65536") = None /\ parse_socket_addr (str "::1:80") = None.
Proof. vm_compute. done. Qed.

(** * Text: what is printed is parsed back; lines; words *)

Lemma str_eqb_eq s : forall t, str_eqb s t = true <-> s = t.
Proof.
  induction s as [|c s IH]; intros [|d t]; cbn [str_eqb]; try done. rewrite andb_true_iff, Z.eqb_eq, IH. split; [intros [-> ->]; done|].
  by intros [= -> ->].
Qed.
Lemma str_eqb_refl s : str_eqb s s = true.
Proof. by apply str_eqb_eq. Qed.

(** ** Integers *)
Definition num (acc : Z) (s : Str) : Z := fold_left (fun acc c => acc * 10 + (c - 48)) s acc.
Definition digits (s : Str) : Prop := Forall (fun c => is_digit c = true) s.

Lemma is_digit_range c : is_digit c = true <-> 48 <= c <= 57.
Proof. unfold is_digit. lia. Qed.

Lemma dec_loop_digits fuel : forall n acc, 0 <= n -> digits acc -> digits (dec_loop fuel n acc).
Proof.
  induction fuel as [|fuel IH]; intros n acc Hn Ha; cbn [dec_loop]; [done|].
  assert (digits (48 + n mod 10 :: acc)).
  { apply Forall_cons. split; [|done]. apply is_digit_range. pose proof (Z.mod_pos_bound n 10). lia. }
  destruct (n <? 10); [done|]. apply IH; [|done]. apply Z.div_pos; lia.
Qed.
Lemma dec_digits n : 0 <= n -> digits (dec n).
Proof. intros Hn. apply dec_loop_digits; [done|by apply Forall_nil]. Qed.

Lemma dec_loop_not_nil fuel : forall n acc, acc <> [] -> dec_loop fuel n acc <> [].
Proof. induction fuel as [|fuel IH]; intros n acc Ha; cbn [dec_loop]; [done|]. destruct (n <? 10); [done|]. by apply IH. Qed.
Lemma dec_not_nil n : dec n <> [].
Proof. unfold dec. change 20%nat with (S 19). generalize 19%nat as f. intros f. cbn [dec_loop]. destruct (n <? 10); [done|]. by apply dec_loop_not_nil. Qed.

Lemma num_dec_loop fuel : forall n acc, 0 <= n < 10 ^ Z.of_nat fuel -> num 0 (dec_loop fuel n acc) = num n acc.
Proof.
  induction fuel as [|fuel IH]; intros n acc Hn; cbn [dec_loop].
  - change (10 ^ Z.of_nat 0) with 1 in Hn. replace n with 0 by lia. done.
  - destruct (Z.ltb_spec n 10).
    + unfold num at 1. cbn [fold_left]. fold (num (0 * 10 + (48 + n mod 10 - 48)) acc). f_equal. rewrite Z.mod_small by lia. lia.
    + rewrite IH.
      * unfold num at 1. cbn [fold_left]. fold (num (n / 10 * 10 + (48 + n mod 10 - 48)) acc). f_equal.
        pose proof (Z.div_mod n 10). lia.
      * rewrite Nat2Z.inj_succ, Z.pow_succ_r in Hn by lia. split; [apply Z.div_pos; lia|]. apply Z.div_lt_upper_bound; lia.
Qed.
Lemma num_dec n : 0 <= n < 10 ^ 20 -> num 0 (dec n) = n.
Proof. intros Hn. by apply (num_dec_loop 20). Qed.

Lemma num_mono s : forall acc, digits s -> 0 <= acc -> acc <= num acc s.
Proof.
  induction s as [|c s IH]; intros acc Hs Ha; [done|]. apply Forall_cons in Hs as [Hc%is_digit_range Hs]. unfold num. cbn [fold_left].
  fold (num (acc * 10 + (c - 48)) s). specialize (IH (acc * 10 + (c - 48)) Hs). lia.
Qed.

Lemma parse_digits_ok max s : forall acc, digits s -> 0 <= acc -> num acc s <= max -> parse_digits max acc s = inr (num acc s).
Proof.
  induction s as [|c s IH]; intros acc Hs Ha Hm; [done|]. apply Forall_cons in Hs as [Hd Hs]. pose proof (proj1 (is_digit_range c) Hd) as Hc.
  cbn [parse_digits]. rewrite Hd. cbn [negb]. unfold num in Hm. cbn [fold_left] in Hm. fold (num (acc * 10 + (c - 48)) s) in Hm.
  pose proof (num_mono s (acc * 10 + (c - 48)) Hs ltac:(lia)).
  destruct (Z.ltb_spec max (acc * 10)); [lia|]. destruct (Z.ltb_spec max (acc * 10 + (c - 48))); [lia|].
  rewrite IH by (done || lia). done.
Qed.

(** An unsigned integer, printed and parsed. *)
Lemma parse_uint_dec max n : 0 <= n <= max -> n < 10 ^ 20 -> parse_uint max (dec n) = inr n.
Proof.
  intros Hn H20. pose proof (dec_digits n (proj1 Hn)) as Hd. pose proof (dec_not_nil n).
  pose proof (parse_digits_ok max (dec n) 0 Hd ltac:(lia)) as E. rewrite num_dec in E by lia. specialize (E (proj2 Hn)).
  unfold parse_uint. destruct (dec n) as [|c s] eqn:Ed; [done|]. apply Forall_cons in Hd as [Hc%is_digit_range Hd].
  by destruct (Z.eqb_spec c 43); [lia|].
Qed.

(** ** IPv4 addresses *)
Lemma read_digits_dec s rest : forall count acc, digits s -> (forall c r, rest = c :: r -> is_digit c = false /\ c < 65) ->
  read_digits 10 (s ++ rest) count acc = ((count + length s)%nat, num acc s, rest).
Proof.
  induction s as [|c s IH]; intros count acc Hs Hr; cbn [app].
  - rewrite Nat.add_0_r. destruct rest as [|c r]; [done|]. cbn [read_digits]. destruct (Hr c r eq_refl) as [Hc Hc']. unfold to_digit. rewrite Hc.
    replace ((97 <=? c) && (c <=? 122)) with false by lia. replace ((65 <=? c) && (c <=? 90)) with false by lia. done.
  - apply Forall_cons in Hs as [Hc Hs]. cbn [read_digits]. unfold to_digit. rewrite Hc. apply is_digit_range in Hc.
    destruct (Z.ltb_spec (c - 48) 10); [|lia]. rewrite IH by done. cbn [length]. by rewrite Nat.add_succ_comm.
Qed.

Definition octet_text_ok (o : Z) : bool :=
  (length (dec o) <=? 3)%nat && (negb (match dec o with c :: _ => c =? 48 | [] => false end) || (length (dec o) <=? 1)%nat).
Lemma octet_texts o : 0 <= o <= 255 -> octet_text_ok o = true.
Proof.
  intros Ho. assert (forallb octet_text_ok (map Z.of_nat (seq 0 256)) = true) as Hall by (vm_compute; reflexivity).
  rewrite forallb_forall in Hall. apply Hall. rewrite in_map_iff. exists (Z.to_nat o). split; [lia|]. apply in_seq. lia.
Qed.

Lemma read_number_octet o rest : 0 <= o <= 255 -> (forall c r, rest = c :: r -> is_digit c = false /\ c < 65) ->
  read_number 10 3 false 255 (dec o ++ rest) = Some (o, rest).
Proof.
  intros Ho Hr. pose proof (octet_texts o Ho) as [Hlen Hzero]%andb_prop. pose proof (dec_not_nil o) as Hnil.
  unfold read_number. rewrite read_digits_dec by first [apply dec_digits; lia|exact Hr]. rewrite num_dec by lia. cbn [Nat.add].
  destruct (Nat.leb_spec (length (dec o)) 3); [|done]. destruct (Nat.ltb_spec 3 (length (dec o))); [lia|].
  destruct (dec o) as [|c s] eqn:Ed; [done|]. cbn [app length Nat.eqb]. cbn [length] in Hzero.
  assert ((c =? 48) && (1 <? S (length s))%nat = false) as E.
  { destruct (c =? 48); [|done]. cbn [negb orb] in Hzero. apply Nat.leb_le in Hzero. apply Nat.ltb_ge. lia. }
  cbn [negb]. rewrite andb_true_l, E. destruct (Z.ltb_spec 255 o); [lia|]. done.
Qed.

Lemma parse_show_ipv4 a : u32 a -> parse_ipv4 (show_ipv4 a) = Some a.
Proof.
  intros Ha. unfold u32 in Ha. unfold parse_ipv4, show_ipv4.
  assert (forall i, 0 <= ipv4_octet a i <= 255) as Ho by (intros i; unfold ipv4_octet; pose proof (Z.mod_pos_bound (Z.shiftr a (8 * i)) 256); lia).
  assert (forall i, (length (dec (ipv4_octet a i)) <= 3)%nat) as Hl.
  { intros i. pose proof (octet_texts _ (Ho i)) as [Hlen _]%andb_prop. by apply Nat.leb_le. }
  change (str ".") with [46]. set (o3 := ipv4_octet a 3). set (o2 := ipv4_octet a 2). set (o1 := ipv4_octet a 1). set (o0 := ipv4_octet a 0).
  destruct (Nat.ltb_spec 15 (length (dec o3 ++ [46] ++ dec o2 ++ [46] ++ dec o1 ++ [46] ++ dec o0))) as [Hlong|_].
  { rewrite !length_app in Hlong. cbn [length] in Hlong. pose proof (Hl 3); pose proof (Hl 2); pose proof (Hl 1); pose proof (Hl 0). unfold o3, o2, o1, o0 in Hlong. lia. }
  assert (forall (s : Str) c r, 46 :: s = c :: r -> is_digit c = false /\ c < 65) as Hdot by (by intros s c r [= <- _]).
  unfold parse_with, read_ipv4, read_octet, read_separator. cbn [Nat.ltb Nat.leb mbind option_bind].
  rewrite read_number_octet by first [apply Ho|apply Hdot]. cbn [mbind option_bind app read_char]. rewrite Z.eqb_refl. cbn [mbind option_bind].
  rewrite read_number_octet by first [apply Ho|apply Hdot]. cbn [mbind option_bind app read_char]. rewrite Z.eqb_refl. cbn [mbind option_bind].
  rewrite read_number_octet by first [apply Ho|apply Hdot]. cbn [mbind option_bind app read_char]. rewrite Z.eqb_refl. cbn [mbind option_bind].
  rewrite <- (app_nil_r (dec o0)). rewrite read_number_octet by first [apply Ho|done]. cbn [mbind option_bind]. f_equal.
  unfold o3, o2, o1, o0, ipv4_octet. rewrite !Z.shiftr_div_pow2 by lia.
  change (2 ^ (8 * 3)) with 16777216. change (2 ^ (8 * 2)) with 65536. change (2 ^ (8 * 1)) with 256. change (2 ^ (8 * 0)) with 1.
  clear -Ha. Z.to_euclidean_division_equations. lia.
Qed.

(** ** What is read is in its type *)
Lemma parse_digits_range max s : forall acc v, 0 <= acc <= max -> parse_digits max acc s = inr v -> 0 <= v <= max.
Proof.
  induction s as [|c s IH]; intros acc v Ha; cbn [parse_digits]; [by intros [= <-]|].
  destruct (is_digit c) eqn:Hc; cbn [negb]; [|done]. apply is_digit_range in Hc.
  destruct (Z.ltb_spec max (acc * 10)); [done|]. destruct (Z.ltb_spec max (acc * 10 + (c - 48))); [done|]. apply IH. lia.
Qed.
Lemma parse_uint_range max s v : 0 <= max -> parse_uint max s = inr v -> 0 <= v <= max.
Proof.
  intros Hm. destruct s as [|c s]; cbn [parse_uint]; [done|]. destruct (c =? 43); [destruct s; [done|]|]; apply parse_digits_range; lia.
Qed.
Lemma to_digit_range radix c d : to_digit radix c = Some d -> 0 <= d < radix.
Proof.
  unfold to_digit, is_digit. set (v := if (48 <=? c) && (c <=? 57) then _ else _). destruct (Z.ltb_spec v radix); [|done]. intros [= <-]. split; [|done].
  unfold v. destruct ((48 <=? c) && (c <=? 57)) eqn:E1; [lia|]. destruct ((97 <=? c) && (c <=? 122)) eqn:E2; [lia|]. destruct ((65 <=? c) && (c <=? 90)) eqn:E3; lia.
Qed.
Lemma read_digits_nonneg radix s : forall count acc n v rest, 0 <= radix -> 0 <= acc -> read_digits radix s count acc = (n, v, rest) -> 0 <= v.
Proof.
  induction s as [|c s IH]; intros count acc n v rest Hr Ha; cbn [read_digits]; [by intros [= _ <- _]|].
  destruct (to_digit radix c) as [d|] eqn:E; [|by intros [= _ <- _]]. apply to_digit_range in E. apply IH; [done|nia].
Qed.
Lemma read_number_range radix w z max s v rest : 0 <= radix -> read_number radix w z max s = Some (v, rest) -> 0 <= v <= max.
Proof.
  intros Hr. unfold read_number. destruct (read_digits radix s 0 0) as [[n v'] r] eqn:E.
  assert (0 <= v') as Hv by (by apply (read_digits_nonneg radix s 0 0 n v' r)).
  destruct (w <? n)%nat; [done|]. destruct (n =? 0)%nat; [done|]. destruct (_ && _ && _); [done|]. destruct (Z.ltb_spec max v'); [done|].
  by intros [= <- <-].
Qed.
Lemma read_sep_some {A} c i (read : Str -> option (A * Str)) s r : read_separator c i read s = Some r -> exists s', read s' = Some r.
Proof. unfold read_separator. destruct (0 <? i)%nat; [destruct (read_char c s) as [s'|]; [|done]|]; cbn [mbind option_bind]; eauto. Qed.
Lemma read_octet_range i s v rest : read_octet i s = Some (v, rest) -> 0 <= v <= 255.
Proof. unfold read_octet. intros (s' & H)%read_sep_some. by apply read_number_range in H. Qed.
Lemma read_ipv4_u32 s v rest : read_ipv4 s = Some (v, rest) -> u32 v.
Proof.
  unfold read_ipv4. repeat (match goal with |- context [read_octet ?i ?t] => destruct (read_octet i t) as [[? ?]|] eqn:? end; [|done]; cbn [mbind option_bind]).
  intros [= <- _]. repeat match goal with H : read_octet _ _ = Some _ |- _ => apply read_octet_range in H end. unfold u32. lia.
Qed.
Lemma parse_with_some {A} (read : Str -> option (A * Str)) s a : parse_with read s = Some a -> read s = Some (a, []).
Proof. unfold parse_with. destruct (read s) as [[b [|c t]]|]; [by intros [= ->]|done|done]. Qed.
Lemma parse_ipv4_u32 s v : parse_ipv4 s = Some v -> u32 v.
Proof. unfold parse_ipv4. destruct (_ <? _)%nat; [done|]. by intros H%parse_with_some%read_ipv4_u32. Qed.

(** ** Lines *)
Definition no_nl (s : Str) : Prop := Forall (fun c => c <> 10 /\ c <> 13) s.

Lemma no_nl_app s t : no_nl (s ++ t) <-> no_nl s /\ no_nl t.
Proof. apply Forall_app. Qed.

Lemma strip_cr_clean s : no_nl s -> strip_cr s = s.
Proof.
  intros Hs. unfold strip_cr. rewrite bool_decide_false; [done|]. intros (l & ->)%last_Some. apply Forall_app in Hs as [_ Hs].
  apply Forall_cons in Hs as [[_ H13] _]. done.
Qed.

Lemma lines_from_app s : forall cur t, no_nl s -> lines_from cur (s ++ 10 :: t) = strip_cr (cur ++ s) :: lines t.
Proof.
  induction s as [|c s IH]; intros cur t Hs; cbn [app lines_from].
  - by rewrite app_nil_r.
  - apply Forall_cons in Hs as [[Hc _] Hs]. destruct (Z.eqb_spec c 10); [done|]. rewrite IH by done. by rewrite <- app_assoc.
Qed.
Lemma lines_line s t : no_nl s -> lines (s ++ 10 :: t) = s :: lines t.
Proof. intros Hs. unfold lines. rewrite lines_from_app by done. cbn [app]. by rewrite strip_cr_clean. Qed.

Lemma lines_from_last s : forall cur, no_nl s -> cur ++ s <> [] -> lines_from cur s = [cur ++ s].
Proof.
  induction s as [|c s IH]; intros cur Hs Hne; cbn [lines_from].
  - rewrite app_nil_r in *. by destruct cur.
  - apply Forall_cons in Hs as [[Hc _] Hs]. destruct (Z.eqb_spec c 10); [done|]. rewrite IH; [by rewrite <- app_assoc|done|by destruct cur].
Qed.
Lemma lines_last s : no_nl s -> s <> [] -> lines s = [s].
Proof. intros Hs Hne. by apply (lines_from_last s []). Qed.
