(* ===== verification/LangBgp.v ===== *)
(** * The configuration language: lexer and root parser ([conf/src/language.rs])

    A parser is a function of the tokens that are left: the source's position
    is their number, and [tokens[*pos]] is their head.  [Panic] is a loop that
    runs out of fuel, which [LangTotal] excludes. *)
From S2P Require Import Prelude Net BgpLs Attrs Text.

Record ParseError := mkParseError { pe_line : nat; pe_message : Str }.
Inductive TokenKind := Word (w : Str) | OpenBrace | CloseBrace | Newline.
Record Token := mkToken { tk_kind : TokenKind; tk_line : nat }.

Definition CHAR_OPENING_BRACE : Z := 123.
Definition CHAR_CLOSING_BRACE : Z := 125.
Definition CHAR_COMMENT : Z := 35.
Definition CHAR_QUOTE : Z := 34.

(** ** The lexer *)
(** [strip_comment]: what stands before the first [#] outside quotes. *)
Fixpoint strip_comment_from (in_quote : bool) (line : Str) : Str :=
  match line with
  | [] => []
  | ch :: line =>
      if ch =? CHAR_QUOTE then ch :: strip_comment_from (negb in_quote) line
      else if (ch =? CHAR_COMMENT) && negb in_quote then []
      else ch :: strip_comment_from in_quote line
  end.
Definition strip_comment (line : Str) : Str := strip_comment_from false line.

(** The characters up to one that stops, and the rest from it. *)
Fixpoint span_until (stops : Z -> bool) (s : Str) : Str * Str :=
  match s with
  | [] => ([], [])
  | c :: s' => if stops c then ([], s) else let '(w, rest) := span_until stops s' in (c :: w, rest)
  end.
Definition ends_word (c : Z) : bool := is_whitespace c || (c =? CHAR_OPENING_BRACE) || (c =? CHAR_CLOSING_BRACE).

(** The loop over the characters of a line. *)
Fixpoint lex_loop (fuel : nat) (s : Str) : list TokenKind :=
  match fuel, s with
  | S fuel, ch :: rest =>
      if is_whitespace ch then lex_loop fuel rest
      else if ch =? CHAR_OPENING_BRACE then OpenBrace :: lex_loop fuel rest
      else if ch =? CHAR_CLOSING_BRACE then CloseBrace :: lex_loop fuel rest
      else if ch =? CHAR_QUOTE then
        let '(word, rest) := span_until (fun c => c =? CHAR_QUOTE) rest in
        Word word :: lex_loop fuel (tail rest)
      else let '(word, rest) := span_until ends_word s in Word word :: lex_loop fuel rest
  | _, _ => []
  end.
Definition lex (line : Str) : list TokenKind := lex_loop (length line) line.

Definition tokenize (input : Str) : list Token :=
  concat (imap (fun line_idx raw_line =>
    map (fun k => mkToken k (S line_idx)) (lex (strip_comment raw_line) ++ [Newline])) (lines input)).

(** ** Parsers *)
Definition parser (A : Type) : Type := list Token -> outcome ParseError (A * list Token).
#[export] Instance parser_ret : MRet parser := fun A a ts => Ok (a, ts).
#[export] Instance parser_bind : MBind parser := fun A B f p ts =>
  match p ts with Ok (a, ts) => f a ts | Err e => Err e | Panic => Panic end.
Definition parse_err {A} (line : nat) (message : Str) : parser A := fun _ => Err (mkParseError line message).
(** [map_err(|_| parse_err(line, message))] *)
Definition or_err {A} (p : parser A) (line : nat) (message : Str) : parser A := fun ts =>
  match p ts with Err _ => Err (mkParseError line message) | r => r end.

Section parsers.
(** The line of the last token of the file, zero without one. *)
Variable last_line : nat.

Definition current_line (ts : list Token) : nat := match ts with t :: _ => tk_line t | [] => last_line end.

Definition expect_word : parser (Str * nat) := fun ts =>
  match ts with
  | mkToken (Word word) line :: ts => Ok ((word, line), ts)
  | mkToken OpenBrace line :: _ => Err (mkParseError line (str "expected word, got '{'"))
  | mkToken CloseBrace line :: _ => Err (mkParseError line (str "expected word, got '}'"))
  | mkToken Newline line :: _ => Err (mkParseError line (str "expected word, got end of line"))
  | [] => Err (mkParseError (current_line ts) (str "unexpected end of input"))
  end.

Definition take_word : parser (option Str) := fun ts =>
  match ts with mkToken (Word word) _ :: rest => Ok (Some word, rest) | _ => Ok (None, ts) end.

Definition expect_open_brace : parser () := fun ts =>
  match ts with
  | mkToken OpenBrace _ :: ts => Ok (tt, ts)
  | t :: _ => Err (mkParseError (tk_line t) (str "expected '{'"))
  | [] => Err (mkParseError (current_line ts) (str "unexpected end of input, expected '{'"))
  end.
Definition expect_close_brace : parser () := fun ts =>
  match ts with
  | mkToken CloseBrace _ :: ts => Ok (tt, ts)
  | t :: _ => Err (mkParseError (tk_line t) (str "expected '}'"))
  | [] => Err (mkParseError (current_line ts) (str "unexpected end of input, expected '}'"))
  end.

Definition finish_statement : parser () := fun ts =>
  match ts with
  | [] => Ok (tt, ts)
  | mkToken Newline _ :: rest => Ok (tt, rest)
  | mkToken CloseBrace _ :: _ => Ok (tt, ts)
  | mkToken (Word word) line :: _ => Err (mkParseError line (str "unexpected trailing token '" ++ word ++ str "'"))
  | mkToken OpenBrace line :: _ => Err (mkParseError line (str "unexpected '{'"))
  end.

Fixpoint skip_newlines_in (ts : list Token) : list Token :=
  match ts with mkToken Newline _ :: rest => skip_newlines_in rest | _ => ts end.
Definition skip_newlines : parser () := fun ts => Ok (tt, skip_newlines_in ts).

(** [peek_kind] *)
Definition peek_kind : parser (option TokenKind) := fun ts => Ok (option_map tk_kind (head ts), ts).

(** [unexpected_eof] of [language_bgp.rs] *)
Definition unexpected_eof {A} : parser A := fun ts => Err (mkParseError (current_line ts) (str "unexpected end of input, expected '}'")).

(** The loop over the statements of a block, which every block of the language
    has: [directive] takes the first word, its line, and what the block is so
    far; [open_msg] is the error for a brace.  The closing brace is left. *)
Section block.
Context {S : Type} (open_msg : Str) (directive : Str -> nat -> S -> parser S).
Fixpoint block_loop (fuel : nat) (s : S) : parser S := fun ts =>
  match fuel with
  | O => Panic
  | Datatypes.S fuel =>
      let ts := skip_newlines_in ts in
      match ts with
      | mkToken CloseBrace _ :: _ => Ok (s, ts)
      | [] => unexpected_eof ts
      | mkToken OpenBrace line :: _ => Err (mkParseError line open_msg)
      | _ => ('(key, line) ← expect_word; s ← directive key line s; block_loop fuel s) ts
      end
  end.
Definition parse_block (s : S) : parser S := fun ts =>
  (s ← block_loop (Datatypes.S (length ts)) s; _ ← expect_close_brace; mret s) ts.
End block.
End parsers.

(** * The configuration language: BGP blocks and how they are printed
    ([conf/src/language_bgp.rs], types and [Display]) *)

(** ** Enumerations, with the tokens of the language *)
Definition afi_config_str (a : Afi) : Str := match a with Afi_Ipv4 => str "ipv4" | Afi_Ipv6 => str "ipv6" | Afi_LinkState => str "ls" end.
Definition afi_from_str (s : Str) : option Afi :=
  if s =s "ipv4" then Some Afi_Ipv4 else if s =s "ipv6" then Some Afi_Ipv6 else if s =s "ls" then Some Afi_LinkState else None.
Definition afi_error (s : Str) : Str := str "expected ipv4|ipv6|ls, got '" ++ s ++ str "'".

Inductive TransportType := Tcp | Ssh.
Definition transport_config_str (t : TransportType) : Str := match t with Tcp => str "tcp" | Ssh => str "ssh" end.
Definition transport_from_str (s : Str) : option TransportType := if s =s "tcp" then Some Tcp else if s =s "ssh" then Some Ssh else None.
Definition transport_error (s : Str) : Str := str "expected tcp|ssh, got '" ++ s ++ str "'".

Inductive MaxPrefixActionKind := Terminate | Discard.
Inductive AddPathSendMode := SendAll | SendDisabled.
Inductive MatchOptionKind := MatchAny | MatchAll | MatchInvert.
Inductive RpkiValidationKind := RvValid | RvInvalid | RvNotFound.
Inductive CommunityOpKind := OpAdd | OpRemove | OpReplace.
Inductive Disposition := DAccept | DReject.

(** ** Blocks *)
Record OriginateRoute := mkOriginate { og_prefix : Str; og_nexthop : Str }.

Inductive Setting :=
  | SAsn (v : Z) | SRouterId (v : Z) | SListenAddr (v : Str) | SGrpcListenAddr (v : Str) | SLogLevel (v : Str) | SHoldTime (v : Z)
  | SConnectRetry (v : Z) | SClusterId (v : Z) | SSysName (v : Str) | SSysDescr (v : Str) | SEnhancedRrStaleTtl (v : Z)
  | SRemoteAs (v : Z) | SPort (v : Z) | SInterface (v : Str) | SMd5KeyFile (v : Str) | STtlMin (v : Z) | SNextHopSelf (v : bool)
  | SPassive (v : bool) | SRrClient (v : bool) | SRsClient (v : bool) | SGracefulShutdown (v : bool) | SOriginate (r : OriginateRoute)
  | SDelayOpenTimeSecs (v : Z) | SIdleHoldTimeSecs (v : Z) | SDampPeerOscillations (v : bool) | SAllowAutomaticStop (v : bool)
  | SSendNotificationWithoutOpen (v : bool) | SMinRouteAdvertisementIntervalSecs (v : Z) | SEnforceFirstAs (v : bool)
  | SSendRpkiCommunity (v : bool) | SAdminDown (v : bool).

Inductive FamilyDirective :=
  | ExportPolicy (name : Str)
  | ImportPolicy (name : Str)
  | MaxPrefix (limit : Z) (action : MaxPrefixActionKind)
  | AddPathSendDirective (mode : AddPathSendMode).
Record FamilyBlock := mkFamilyBlock { fb_afi : Afi; fb_safi : Safi; fb_directives : list FamilyDirective }.
Record PeerBlock := mkPeerBlock { pb_address : Str; pb_settings : list Setting; pb_families : list FamilyBlock }.

Record MatchSetRef := mkMatchSetRef { ms_set_name : Str; ms_option : MatchOptionKind }.
Inductive MatchClause :=
  | McPrefixSet (r : MatchSetRef) | McNeighborSet (r : MatchSetRef) | McAsPathSet (r : MatchSetRef) | McCommunitySet (r : MatchSetRef)
  | McExtCommunitySet (r : MatchSetRef) | McLargeCommunitySet (r : MatchSetRef) | McPrefix (s : Str) | McNeighbor (s : Str)
  | McHasAsn (v : Z) | McRouteType (s : Str) | McCommunity (s : Str) | McRpki (v : RpkiValidationKind) | McAfiSafi (s : Str)
  | McLsNlriType (s : Str) | McLsProtocolId (s : Str) | McLsInstanceId (v : Z) | McLsNodeAs (v : Z) | McLsNodeRouterId (s : Str).

Record CommunityOp := mkCommunityOp { co_op : CommunityOpKind; co_values : list Str }.
Inductive MedSet := MedTo (v : Z) | MedRemove.
Inductive SetClause :=
  | ScLocalPref (value : Z) (force : bool)
  | ScMed (m : MedSet)
  | ScCommunity (op : CommunityOp)
  | ScExtCommunity (op : CommunityOp)
  | ScLargeCommunity (op : CommunityOp)
  | ScSetRpkiState (v : RpkiValidationKind).
Record StatementBlock := mkStatementBlock {
  sb_name : option Str; sb_matches : list MatchClause; sb_sets : list SetClause; sb_disposition : option Disposition }.
Inductive PolicyRule :=
  | PrMatch (set_name action : Str)
  | PrDefault (action : Str)
  | PrStatement (block : StatementBlock).
Record PolicyBlock := mkPolicyBlock { po_name : Str; po_rules : list PolicyRule }.

Inductive MasklengthRange := Exact | Range (ge le : option Z).
Record PrefixListEntry := mkPrefixListEntry { ple_prefix : Str; ple_range : option MasklengthRange }.
Record PrefixListBlock := mkPrefixListBlock { pl_name : Str; pl_prefixes : list PrefixListEntry }.
Record NeighborSetBlock := mkNeighborSetBlock { ns_name : Str; ns_neighbors : list Str }.
Record AsPathSetBlock := mkAsPathSetBlock { as_name : Str; as_patterns : list Str }.
Record CommunitySetBlock := mkCommunitySetBlock { cs_name : Str; cs_communities : list Str }.
Record ExtCommunitySetBlock := mkExtCommunitySetBlock { ec_name : Str; ec_ext_communities : list Str }.
Record LargeCommunitySetBlock := mkLargeCommunitySetBlock { lc_name : Str; lc_large_communities : list Str }.
Record BmpServerBlock := mkBmpServerBlock { bm_address : Str; bm_statistics_timeout : option Z }.
Record BgpLsBlock := mkBgpLsBlock { bl_instance_id : Z }.
Record CloudwatchEmfBlock := mkCloudwatchEmfBlock { ce_namespace : Str }.
Record PrometheusBlock := mkPrometheusBlock { pm_listen : option Str }.
Record TelemetryBlock := mkTelemetryBlock {
  tm_json : bool; tm_cloudwatch_emf : option CloudwatchEmfBlock; tm_prometheus : option PrometheusBlock }.
Record RpkiCacheBlock := mkRpkiCacheBlock {
  rc_address : Str; rc_preference : option Z; rc_transport : option TransportType; rc_ssh_username : option Str;
  rc_ssh_private_key_file : option Str; rc_ssh_known_hosts_file : option Str; rc_retry_interval : option Z;
  rc_refresh_interval : option Z; rc_expire_interval : option Z }.

Record BgpServiceBody := mkBgpServiceBody {
  bs_settings : list Setting;
  bs_peers : list PeerBlock;
  bs_policies : list PolicyBlock;
  bs_prefix_lists : list PrefixListBlock;
  bs_neighbor_sets : list NeighborSetBlock;
  bs_as_path_sets : list AsPathSetBlock;
  bs_community_sets : list CommunitySetBlock;
  bs_ext_community_sets : list ExtCommunitySetBlock;
  bs_large_community_sets : list LargeCommunitySetBlock;
  bs_bmp_servers : list BmpServerBlock;
  bs_rpki_caches : list RpkiCacheBlock;
  bs_bgp_ls : option BgpLsBlock;
  bs_telemetry : option TelemetryBlock;
}.

Inductive Service := Bgp (body : BgpServiceBody).
Record Root := mkRoot { services : list Service }.

(** [Root::with_service]: the first service of the same kind is replaced. *)
Definition with_service (root : Root) (service : Service) : Root :=
  match services root with
  | Bgp _ :: rest => mkRoot (service :: rest)
  | [] => mkRoot [service]
  end.

(** ** Display *)
Definition nl : Str := [10].
Definition writeln (line : Str) : Str := line ++ nl.
(** [for line in text.lines() { writeln!(f, "  {}", line) }] *)
Definition indent (text : Str) : Str := concat (map (fun line => writeln (str "  " ++ line)) (lines text)).
Definition each {A} (f : A -> Str) (l : list A) : Str := concat (map f l).
Definition if_some {A} (o : option A) (f : A -> Str) : Str := match o with Some a => f a | None => [] end.

Definition needs_quotes (c : Z) : bool :=
  is_whitespace c || (c =? CHAR_QUOTE) || (c =? CHAR_COMMENT) || (c =? CHAR_OPENING_BRACE) || (c =? CHAR_CLOSING_BRACE).
Definition quote_if_needed (s : Str) : Str :=
  if existsb needs_quotes s then CHAR_QUOTE :: filter (fun c => c <> CHAR_QUOTE) s ++ [CHAR_QUOTE] else s.

Definition show_setting (s : Setting) : Str :=
  match s with
  | SAsn v => str "asn " ++ dec v
  | SRouterId v => str "router-id " ++ show_ipv4 v
  | SListenAddr v => str "listen-addr " ++ v
  | SGrpcListenAddr v => str "grpc-listen-addr " ++ v
  | SLogLevel v => str "log-level " ++ v
  | SHoldTime v => str "hold-time " ++ dec v
  | SConnectRetry v => str "connect-retry " ++ dec v
  | SClusterId v => str "cluster-id " ++ show_ipv4 v
  | SSysName v => str "sys-name " ++ quote_if_needed v
  | SSysDescr v => str "sys-descr " ++ quote_if_needed v
  | SEnhancedRrStaleTtl v => str "enhanced-rr-stale-ttl " ++ dec v
  | SRemoteAs v => str "remote-as " ++ dec v
  | SPort v => str "port " ++ dec v
  | SInterface v => str "interface " ++ v
  | SMd5KeyFile v => str "md5-key-file " ++ v
  | STtlMin v => str "ttl-min " ++ dec v
  | SNextHopSelf v => str "next-hop-self " ++ show_bool v
  | SPassive v => str "passive " ++ show_bool v
  | SRrClient v => str "rr-client " ++ show_bool v
  | SRsClient v => str "rs-client " ++ show_bool v
  | SGracefulShutdown v => str "graceful-shutdown " ++ show_bool v
  | SOriginate r => str "originate " ++ og_prefix r ++ str " nexthop " ++ og_nexthop r
  | SDelayOpenTimeSecs v => str "delay-open-time-secs " ++ dec v
  | SIdleHoldTimeSecs v => str "idle-hold-time-secs " ++ dec v
  | SDampPeerOscillations v => str "damp-peer-oscillations " ++ show_bool v
  | SAllowAutomaticStop v => str "allow-automatic-stop " ++ show_bool v
  | SSendNotificationWithoutOpen v => str "send-notification-without-open " ++ show_bool v
  | SMinRouteAdvertisementIntervalSecs v => str "min-route-advertisement-interval-secs " ++ dec v
  | SEnforceFirstAs v => str "enforce-first-as " ++ show_bool v
  | SSendRpkiCommunity v => str "send-rpki-community " ++ show_bool v
  | SAdminDown v => str "admin-down " ++ show_bool v
  end.

Definition show_directive (d : FamilyDirective) : Str :=
  match d with
  | ExportPolicy name => str "export policy " ++ name
  | ImportPolicy name => str "import policy " ++ name
  | MaxPrefix limit Terminate => str "max-prefix " ++ dec limit
  | MaxPrefix limit Discard => str "max-prefix " ++ dec limit ++ str " action discard"
  | AddPathSendDirective SendAll => str "add-path-send all"
  | AddPathSendDirective SendDisabled => str "add-path-send disabled"
  end.

Definition safi_config_str (s : Safi) : Str :=
  match s with
  | Unicast => str "unicast" | Multicast => str "multicast" | MplsLabel => str "mpls-label" | Safi_LinkState => str "link-state"
  | LinkStateVpn => str "link-state-vpn"
  end.
Definition safi_from_str (s : Str) : option Safi :=
  if s =s "unicast" then Some Unicast else if s =s "multicast" then Some Multicast else if s =s "mpls-label" then Some MplsLabel
  else if s =s "link-state" then Some Safi_LinkState else if s =s "link-state-vpn" then Some LinkStateVpn else None.
Definition safi_error (s : Str) : Str := str "expected unicast|multicast|mpls-label|link-state|link-state-vpn, got '" ++ s ++ str "'".

Definition show_family (b : FamilyBlock) : Str :=
  writeln (str "family " ++ afi_config_str (fb_afi b) ++ str " " ++ safi_config_str (fb_safi b) ++ str " {") ++
  each (fun d => writeln (str "  " ++ show_directive d)) (fb_directives b) ++ str "}".

Definition rpki_validation_to_str (v : RpkiValidationKind) : Str :=
  match v with RvValid => str "valid" | RvInvalid => str "invalid" | RvNotFound => str "not-found" end.

Definition show_match_set_ref (r : MatchSetRef) : Str :=
  match ms_option r with
  | MatchAny => ms_set_name r
  | MatchAll => ms_set_name r ++ str " all"
  | MatchInvert => ms_set_name r ++ str " invert"
  end.

Definition show_match_clause (c : MatchClause) : Str :=
  match c with
  | McPrefixSet r => str "match prefix-set " ++ show_match_set_ref r
  | McNeighborSet r => str "match neighbor-set " ++ show_match_set_ref r
  | McAsPathSet r => str "match as-path-set " ++ show_match_set_ref r
  | McCommunitySet r => str "match community-set " ++ show_match_set_ref r
  | McExtCommunitySet r => str "match ext-community-set " ++ show_match_set_ref r
  | McLargeCommunitySet r => str "match large-community-set " ++ show_match_set_ref r
  | McPrefix s => str "match prefix " ++ s
  | McNeighbor s => str "match neighbor " ++ s
  | McHasAsn v => str "match has-asn " ++ dec v
  | McRouteType s => str "match route-type " ++ s
  | McCommunity s => str "match community " ++ s
  | McRpki v => str "match rpki " ++ rpki_validation_to_str v
  | McAfiSafi s => str "match afi-safi " ++ s
  | McLsNlriType s => str "match ls-nlri-type " ++ s
  | McLsProtocolId s => str "match ls-protocol-id " ++ s
  | McLsInstanceId v => str "match ls-instance-id " ++ dec v
  | McLsNodeAs v => str "match ls-node-as " ++ dec v
  | McLsNodeRouterId s => str "match ls-node-router-id " ++ s
  end.

Definition community_op_to_str (op : CommunityOpKind) : Str :=
  match op with OpAdd => str "add" | OpRemove => str "remove" | OpReplace => str "replace" end.
(** [write_community_set] *)
Definition show_community_set (keyword : Str) (op : CommunityOp) : Str :=
  str "set " ++ keyword ++ str " " ++ community_op_to_str (co_op op) ++ each (fun v => str " " ++ v) (co_values op).

Definition show_set_clause (c : SetClause) : Str :=
  match c with
  | ScLocalPref value true => str "set local-pref force " ++ dec value
  | ScLocalPref value false => str "set local-pref " ++ dec value
  | ScMed (MedTo v) => str "set med " ++ dec v
  | ScMed MedRemove => str "set med remove"
  | ScCommunity op => show_community_set (str "community") op
  | ScExtCommunity op => show_community_set (str "ext-community") op
  | ScLargeCommunity op => show_community_set (str "large-community") op
  | ScSetRpkiState v => str "set rpki-state " ++ rpki_validation_to_str v
  end.

Definition show_statement (b : StatementBlock) : Str :=
  match sb_name b with Some name => writeln (str "statement " ++ name ++ str " {") | None => writeln (str "statement {") end ++
  each (fun m => writeln (str "  " ++ show_match_clause m)) (sb_matches b) ++
  each (fun s => writeln (str "  " ++ show_set_clause s)) (sb_sets b) ++
  if_some (sb_disposition b) (fun d => writeln (str "  " ++ match d with DAccept => str "accept" | DReject => str "reject" end)) ++
  str "}".

Definition show_rule (r : PolicyRule) : Str :=
  match r with
  | PrMatch set_name action => str "match " ++ set_name ++ str " " ++ action
  | PrDefault action => str "default " ++ action
  | PrStatement block => show_statement block
  end.

Definition show_policy (b : PolicyBlock) : Str :=
  writeln (str "policy " ++ po_name b ++ str " {") ++
  each (fun r => match r with
                 | PrStatement block => indent (show_statement block)
                 | _ => writeln (str "  " ++ show_rule r)
                 end) (po_rules b) ++ str "}".

Definition show_prefix_list_entry (e : PrefixListEntry) : Str :=
  match ple_range e with
  | None => ple_prefix e
  | Some Exact => ple_prefix e ++ str " exact"
  | Some (Range ge le) =>
      ple_prefix e ++ if_some ge (fun g => str " ge " ++ dec g) ++ if_some le (fun l => str " le " ++ dec l)
  end.

(** A block of one entry to a line. *)
Definition show_block {A} (header : Str) (show : A -> Str) (l : list A) : Str :=
  writeln (header ++ str " {") ++ each (fun a => writeln (str "  " ++ show a)) l ++ str "}".

Definition show_prefix_list (b : PrefixListBlock) : Str := show_block (str "prefix-list " ++ pl_name b) show_prefix_list_entry (pl_prefixes b).
Definition show_neighbor_set (b : NeighborSetBlock) : Str := show_block (str "neighbor-set " ++ ns_name b) id (ns_neighbors b).
Definition show_as_path_set (b : AsPathSetBlock) : Str :=
  show_block (str "as-path-set " ++ as_name b) (fun pattern => CHAR_QUOTE :: pattern ++ [CHAR_QUOTE]) (as_patterns b).
Definition show_community_set_block (b : CommunitySetBlock) : Str := show_block (str "community-set " ++ cs_name b) id (cs_communities b).
Definition show_ext_community_set_block (b : ExtCommunitySetBlock) : Str :=
  show_block (str "ext-community-set " ++ ec_name b) id (ec_ext_communities b).
Definition show_large_community_set_block (b : LargeCommunitySetBlock) : Str :=
  show_block (str "large-community-set " ++ lc_name b) id (lc_large_communities b).

Definition show_bgp_ls (b : BgpLsBlock) : Str :=
  writeln (str "bgp-ls {") ++ writeln (str "  instance-id " ++ dec (bl_instance_id b)) ++ str "}".

Definition show_telemetry (b : TelemetryBlock) : Str :=
  writeln (str "telemetry {") ++
  (if tm_json b then writeln (str "  json {}") else []) ++
  if_some (tm_cloudwatch_emf b) (fun emf =>
    writeln (str "  cloudwatch-emf {") ++ writeln (str "    namespace " ++ ce_namespace emf) ++ writeln (str "  }")) ++
  if_some (tm_prometheus b) (fun prometheus =>
    match pm_listen prometheus with
    | Some listen => writeln (str "  prometheus {") ++ writeln (str "    listen " ++ listen) ++ writeln (str "  }")
    | None => writeln (str "  prometheus {}")
    end) ++ str "}".

Definition show_bmp_server (b : BmpServerBlock) : Str :=
  writeln (str "bmp-server " ++ bm_address b ++ str " {") ++
  if_some (bm_statistics_timeout b) (fun v => writeln (str "  statistics-timeout " ++ dec v)) ++ str "}".

Definition show_rpki_cache (b : RpkiCacheBlock) : Str :=
  writeln (str "rpki-cache " ++ rc_address b ++ str " {") ++
  if_some (rc_preference b) (fun v => writeln (str "  preference " ++ dec v)) ++
  if_some (rc_transport b) (fun v => writeln (str "  transport " ++ transport_config_str v)) ++
  if_some (rc_ssh_username b) (fun v => writeln (str "  ssh-username " ++ v)) ++
  if_some (rc_ssh_private_key_file b) (fun v => writeln (str "  ssh-private-key-file " ++ v)) ++
  if_some (rc_ssh_known_hosts_file b) (fun v => writeln (str "  ssh-known-hosts-file " ++ v)) ++
  if_some (rc_retry_interval b) (fun v => writeln (str "  retry-interval " ++ dec v)) ++
  if_some (rc_refresh_interval b) (fun v => writeln (str "  refresh-interval " ++ dec v)) ++
  if_some (rc_expire_interval b) (fun v => writeln (str "  expire-interval " ++ dec v)) ++ str "}".

Definition show_peer (b : PeerBlock) : Str :=
  writeln (str "peer " ++ pb_address b ++ str " {") ++
  each (fun s => writeln (str "  " ++ show_setting s)) (pb_settings b) ++
  each (fun f => nl ++ indent (show_family f)) (pb_families b) ++ str "}".

(** The blocks of one kind: each is set off by an empty line, unless it is the
    first thing in the body. *)
Fixpoint show_blocks {A} (show : A -> Str) (first : bool) (l : list A) : Str :=
  match l with
  | [] => []
  | b :: l => (if first then [] else nl) ++ indent (show b) ++ show_blocks show false l
  end.
Definition still_first {A} (first : bool) (l : list A) : bool := match l with [] => first | _ => false end.
Definition opt_list {A} (o : option A) : list A := match o with Some a => [a] | None => [] end.

Definition show_body (b : BgpServiceBody) : Str :=
  let first := still_first true (bs_settings b) in
  let f1 := still_first first (bs_peers b) in
  let f2 := still_first f1 (bs_bmp_servers b) in
  let f3 := still_first f2 (bs_rpki_caches b) in
  let f4 := still_first f3 (bs_policies b) in
  let f5 := still_first f4 (bs_prefix_lists b) in
  let f6 := still_first f5 (bs_neighbor_sets b) in
  let f7 := still_first f6 (bs_as_path_sets b) in
  let f8 := still_first f7 (bs_community_sets b) in
  let f9 := still_first f8 (bs_ext_community_sets b) in
  let f10 := still_first f9 (bs_large_community_sets b) in
  let f11 := still_first f10 (opt_list (bs_bgp_ls b)) in
  writeln (str "service bgp {") ++
  each (fun s => writeln (str "  " ++ show_setting s)) (bs_settings b) ++
  show_blocks show_peer first (bs_peers b) ++
  show_blocks show_bmp_server f1 (bs_bmp_servers b) ++
  show_blocks show_rpki_cache f2 (bs_rpki_caches b) ++
  show_blocks show_policy f3 (bs_policies b) ++
  show_blocks show_prefix_list f4 (bs_prefix_lists b) ++
  show_blocks show_neighbor_set f5 (bs_neighbor_sets b) ++
  show_blocks show_as_path_set f6 (bs_as_path_sets b) ++
  show_blocks show_community_set_block f7 (bs_community_sets b) ++
  show_blocks show_ext_community_set_block f8 (bs_ext_community_sets b) ++
  show_blocks show_large_community_set_block f9 (bs_large_community_sets b) ++
  show_blocks show_bgp_ls f10 (opt_list (bs_bgp_ls b)) ++
  show_blocks show_telemetry f11 (opt_list (bs_telemetry b)) ++ str "}".

Definition show_service (s : Service) : Str := match s with Bgp body => show_body body end.
(** The services, with an empty line between them. *)
Definition show_root (r : Root) : Str :=
  concat (imap (fun i service => (if (0 <? i)%nat then nl else []) ++ writeln (show_service service)) (services r)).
