(* ===== verification/LangBgpParse.v ===== *)
(** * The configuration language: the parsers of the BGP blocks
    ([conf/src/language_bgp.rs]), and [language::parse] over them *)
From S2P Require Import Prelude Net BgpLs Attrs Text LangBgp.

(** ** Values *)
Definition from_uint (max : Z) (s : Str) : Str + Z := match parse_uint max s with inl e => inl (int_error_text e) | inr v => inr v end.
Definition from_u8 := from_uint (2 ^ 8 - 1).
Definition from_u16 := from_uint (2 ^ 16 - 1).
Definition from_u32 := from_uint (2 ^ 32 - 1).
Definition from_u64 := from_uint (2 ^ 64 - 1).
Definition from_bool (s : Str) : Str + bool :=
  match parse_bool s with Some b => inr b | None => inl (str "provided string was not `true` or `false`") end.
Definition from_ipv4 (s : Str) : Str + Z := match parse_ipv4 s with Some a => inr a | None => inl (str "invalid IPv4 address syntax") end.
Definition from_string (s : Str) : Str + Str := inr s.
Definition from_transport (s : Str) : Str + TransportType := match transport_from_str s with Some t => inr t | None => inl (transport_error s) end.

Definition invalid_value (key val err : Str) : Str := str "invalid " ++ key ++ str " '" ++ val ++ str "': " ++ err.

(** [parse_value], then the constructor of the setting. *)
Definition parse_value {T} (make : T -> Setting) (parse : Str -> Str + T) (key : Str) (value : option Str) : Str + Setting :=
  match value with
  | None => inl (key ++ str " requires a value")
  | Some val => match parse val with inl err => inl (invalid_value key val err) | inr v => inr (make v) end
  end.

(** [Setting::parse] *)
Definition setting_parse (key : Str) (value : option Str) : Str + Setting :=
  if key =s "asn" then parse_value SAsn from_u32 key value
  else if key =s "router-id" then parse_value SRouterId from_ipv4 key value
  else if key =s "listen-addr" then parse_value SListenAddr from_string key value
  else if key =s "grpc-listen-addr" then parse_value SGrpcListenAddr from_string key value
  else if key =s "log-level" then parse_value SLogLevel from_string key value
  else if key =s "hold-time" then parse_value SHoldTime from_u64 key value
  else if key =s "connect-retry" then parse_value SConnectRetry from_u64 key value
  else if key =s "cluster-id" then parse_value SClusterId from_ipv4 key value
  else if key =s "sys-name" then parse_value SSysName from_string key value
  else if key =s "sys-descr" then parse_value SSysDescr from_string key value
  else if key =s "enhanced-rr-stale-ttl" then parse_value SEnhancedRrStaleTtl from_u64 key value
  else if key =s "remote-as" then parse_value SRemoteAs from_u32 key value
  else if key =s "port" then parse_value SPort from_u16 key value
  else if key =s "interface" then parse_value SInterface from_string key value
  else if key =s "md5-key-file" then parse_value SMd5KeyFile from_string key value
  else if key =s "ttl-min" then parse_value STtlMin from_u8 key value
  else if key =s "next-hop-self" then parse_value SNextHopSelf from_bool key value
  else if key =s "passive" then parse_value SPassive from_bool key value
  else if key =s "rr-client" then parse_value SRrClient from_bool key value
  else if key =s "rs-client" then parse_value SRsClient from_bool key value
  else if key =s "graceful-shutdown" then parse_value SGracefulShutdown from_bool key value
  else if key =s "originate" then inl (str "originate must be written as 'originate <prefix> nexthop <addr>'")
  else if key =s "delay-open-time-secs" then parse_value SDelayOpenTimeSecs from_u64 key value
  else if key =s "idle-hold-time-secs" then parse_value SIdleHoldTimeSecs from_u64 key value
  else if key =s "damp-peer-oscillations" then parse_value SDampPeerOscillations from_bool key value
  else if key =s "allow-automatic-stop" then parse_value SAllowAutomaticStop from_bool key value
  else if key =s "send-notification-without-open" then parse_value SSendNotificationWithoutOpen from_bool key value
  else if key =s "min-route-advertisement-interval-secs" then parse_value SMinRouteAdvertisementIntervalSecs from_u64 key value
  else if key =s "enforce-first-as" then parse_value SEnforceFirstAs from_bool key value
  else if key =s "send-rpki-community" then parse_value SSendRpkiCommunity from_bool key value
  else if key =s "admin-down" then parse_value SAdminDown from_bool key value
  else inl (str "unknown setting '" ++ key ++ str "'").

Section parsers.
Variable last_line : nat.
#[local] Abbreviation expect_word := (expect_word last_line).
#[local] Abbreviation expect_open_brace := (expect_open_brace last_line).
#[local] Abbreviation parse_block := (parse_block last_line).

(** A word, or the error of its absence. *)
Definition word_or (line : nat) (message : Str) : parser Str := '(w, _) ← or_err expect_word line message; mret w.
Definition any_word : parser Str := '(w, _) ← expect_word; mret w.
(** [skip_newlines], [expect_open_brace], then the block. *)
Definition braced {A} (block : parser A) : parser A := _ ← skip_newlines; _ ← expect_open_brace; block.
Definition named {A} (line : nat) (message : Str) (block : Str -> parser A) : parser A := name ← word_or line message; braced (block name).

(** A setting line, after its keyword. *)
Definition parse_setting (key : Str) (line : nat) : parser Setting :=
  value ← take_word;
  _ ← finish_statement;
  match setting_parse key value with inl msg => parse_err line msg | inr s => mret s end.

Definition parse_originate_setting (line : nat) : parser OriginateRoute :=
  prefix ← word_or line (str "originate requires a prefix");
  kw ← word_or line (str "originate requires 'nexthop <addr>'");
  if negb (kw =s "nexthop") then parse_err line (str "expected 'nexthop', got '" ++ kw ++ str "'")
  else nexthop ← word_or line (str "nexthop requires an address"); mret (mkOriginate prefix nexthop).

(** [value.parse().map_err(|_| ..)] of an integer, in a parser. *)
Definition uint_or (max : Z) (line : nat) (message s : Str) : parser Z :=
  match parse_uint max s with inl _ => parse_err line message | inr v => mret v end.

(** [parse_scalar] *)
Definition parse_scalar {T} (parse : Str -> Str + T) (key : Str) (line : nat) : parser T :=
  value ← word_or line (key ++ str " requires a value");
  match parse value with
  | inl err => parse_err line (invalid_value key value err)
  | inr v => _ ← finish_statement; mret v
  end.

(** ** Peers *)
Definition parse_policy_directive (key : Str) (line : nat) : parser FamilyDirective :=
  sub ← word_or line (key ++ str " requires 'policy'");
  if negb (sub =s "policy") then parse_err line (key ++ str " requires 'policy', got '" ++ sub ++ str "'")
  else
    policy_name ← word_or line (key ++ str " policy requires a name");
    mret (if key =s "export" then ExportPolicy policy_name else ImportPolicy policy_name).

Definition parse_max_prefix (line : nat) : parser FamilyDirective :=
  limit_str ← word_or line (str "max-prefix requires a value");
  limit ← uint_or (2 ^ 32 - 1) line (str "invalid max-prefix value '" ++ limit_str ++ str "'") limit_str;
  peeked ← peek_kind;
  action ←
    match peeked with
    | Some (Word w) =>
        if w =s "action" then
          _ ← take_word;
          action_word ← word_or line (str "action requires terminate|discard");
          if action_word =s "terminate" then mret Terminate
          else if action_word =s "discard" then mret Discard
          else parse_err line (str "max-prefix action must be 'terminate' or 'discard', got '" ++ action_word ++ str "'")
        else mret Terminate
    | _ => mret Terminate
    end;
  _ ← finish_statement; mret (MaxPrefix limit action).

Definition parse_add_path_send (line : nat) : parser FamilyDirective :=
  val ← word_or line (str "add-path-send requires a value");
  mode ← (if val =s "all" then mret SendAll else if val =s "disabled" then mret SendDisabled
          else parse_err line (str "add-path-send must be 'all' or 'disabled', got '" ++ val ++ str "'"));
  _ ← finish_statement; mret (AddPathSendDirective mode).

Definition family_directive (key : Str) (line : nat) (directives : list FamilyDirective) : parser (list FamilyDirective) :=
  directive ←
    (if (key =s "export") || (key =s "import") then parse_policy_directive key line
     else if key =s "max-prefix" then parse_max_prefix line
     else if key =s "add-path-send" then parse_add_path_send line
     else parse_err line (str "unknown family directive '" ++ key ++ str "'"));
  _ ← match directive with MaxPrefix _ _ | AddPathSendDirective _ => mret tt | _ => finish_statement end;
  mret (directives ++ [directive]).

Definition parse_family_block (a : Afi) (s : Safi) : parser FamilyBlock :=
  directives ← parse_block (str "unexpected '{' inside family") family_directive []; mret (mkFamilyBlock a s directives).

Definition peer_directive (key : Str) (line : nat) (b : PeerBlock) : parser PeerBlock :=
  if key =s "family" then
    afi_str ← word_or line (str "family requires afi");
    a ← match afi_from_str afi_str with
        | Some a => mret a
        | None => parse_err line (str "invalid afi '" ++ afi_str ++ str "': " ++ afi_error afi_str)
        end;
    safi_str ← word_or line (str "family requires safi");
    s ← match safi_from_str safi_str with
        | Some s => mret s
        | None => parse_err line (str "invalid safi '" ++ safi_str ++ str "': " ++ safi_error safi_str)
        end;
    family ← braced (parse_family_block a s);
    mret (mkPeerBlock (pb_address b) (pb_settings b) (pb_families b ++ [family]))
  else
    setting ← parse_setting key line;
    mret (mkPeerBlock (pb_address b) (pb_settings b ++ [setting]) (pb_families b)).
Definition parse_peer_block (address : Str) : parser PeerBlock :=
  parse_block (str "unexpected '{'") peer_directive (mkPeerBlock address [] []).

(** ** Policies *)
Definition parse_match_set_ref (line : nat) : parser MatchSetRef :=
  set_name ← word_or line (str "match-set requires a set name");
  peeked ← peek_kind;
  option ←
    match peeked with
    | Some (Word w) =>
        if w =s "all" then _ ← take_word; mret MatchAll
        else if w =s "invert" then _ ← take_word; mret MatchInvert
        else if w =s "any" then _ ← take_word; mret MatchAny
        else mret MatchAny
    | _ => mret MatchAny
    end;
  mret (mkMatchSetRef set_name option).

Definition parse_rpki_validation (line : nat) : parser RpkiValidationKind :=
  s ← word_or line (str "rpki requires valid|invalid|not-found");
  if s =s "valid" then mret RvValid else if s =s "invalid" then mret RvInvalid else if s =s "not-found" then mret RvNotFound
  else parse_err line (str "rpki must be valid|invalid|not-found, got '" ++ s ++ str "'").

Definition number_clause (max : Z) (name : Str) (line : nat) : parser Z :=
  s ← any_word; uint_or max line (str "invalid " ++ name ++ str " '" ++ s ++ str "'") s.

Definition match_clause_of (kind : Str) (line : nat) : parser MatchClause :=
  let set_ref (make : MatchSetRef -> MatchClause) := r ← parse_match_set_ref line; mret (make r) in
  let text (make : Str -> MatchClause) := s ← any_word; mret (make s) in
  if kind =s "prefix-set" then set_ref McPrefixSet
  else if kind =s "neighbor-set" then set_ref McNeighborSet
  else if kind =s "as-path-set" then set_ref McAsPathSet
  else if kind =s "community-set" then set_ref McCommunitySet
  else if kind =s "ext-community-set" then set_ref McExtCommunitySet
  else if kind =s "large-community-set" then set_ref McLargeCommunitySet
  else if kind =s "prefix" then text McPrefix
  else if kind =s "neighbor" then text McNeighbor
  else if kind =s "has-asn" then v ← number_clause (2 ^ 32 - 1) kind line; mret (McHasAsn v)
  else if kind =s "route-type" then text McRouteType
  else if kind =s "community" then text McCommunity
  else if kind =s "rpki" then v ← parse_rpki_validation line; mret (McRpki v)
  else if kind =s "afi-safi" then text McAfiSafi
  else if kind =s "ls-nlri-type" then text McLsNlriType
  else if kind =s "ls-protocol-id" then text McLsProtocolId
  else if kind =s "ls-instance-id" then v ← number_clause (2 ^ 64 - 1) kind line; mret (McLsInstanceId v)
  else if kind =s "ls-node-as" then v ← number_clause (2 ^ 32 - 1) kind line; mret (McLsNodeAs v)
  else if kind =s "ls-node-router-id" then text McLsNodeRouterId
  else parse_err line (str "unknown match directive '" ++ kind ++ str "'").
Definition parse_match_clause (line : nat) : parser MatchClause :=
  kind ← word_or line (str "match requires a directive");
  clause ← match_clause_of kind line;
  _ ← finish_statement; mret clause.

(** The words up to something else. *)
Fixpoint words_in (ts : list Token) : list Str * list Token :=
  match ts with
  | mkToken (Word w) _ :: rest => let '(ws, rest) := words_in rest in (w :: ws, rest)
  | _ => ([], ts)
  end.
Definition rest_words : parser (list Str) := fun ts => Ok (words_in ts).
Definition parse_community_op (line : nat) : parser CommunityOp :=
  op_str ← word_or line (str "community requires add|remove|replace");
  op ← (if op_str =s "add" then mret OpAdd else if op_str =s "remove" then mret OpRemove else if op_str =s "replace" then mret OpReplace
        else parse_err line (str "community op must be add|remove|replace, got '" ++ op_str ++ str "'"));
  values ← rest_words;
  mret (mkCommunityOp op values).

Definition parse_local_pref (line : nat) : parser SetClause :=
  next ← any_word;
  if next =s "force" then
    val ← any_word; v ← uint_or (2 ^ 32 - 1) line (str "invalid local-pref '" ++ val ++ str "'") val; mret (ScLocalPref v true)
  else v ← uint_or (2 ^ 32 - 1) line (str "invalid local-pref '" ++ next ++ str "'") next; mret (ScLocalPref v false).
Definition parse_med (line : nat) : parser SetClause :=
  val ← any_word;
  if val =s "remove" then mret (ScMed MedRemove)
  else v ← uint_or (2 ^ 32 - 1) line (str "invalid med '" ++ val ++ str "'") val; mret (ScMed (MedTo v)).
Definition set_clause_of (kind : Str) (line : nat) : parser SetClause :=
  if kind =s "local-pref" then parse_local_pref line
  else if kind =s "med" then parse_med line
  else if kind =s "community" then op ← parse_community_op line; mret (ScCommunity op)
  else if kind =s "ext-community" then op ← parse_community_op line; mret (ScExtCommunity op)
  else if kind =s "large-community" then op ← parse_community_op line; mret (ScLargeCommunity op)
  else if kind =s "rpki-state" then v ← parse_rpki_validation line; mret (ScSetRpkiState v)
  else parse_err line (str "unknown set directive '" ++ kind ++ str "'").
Definition parse_set_clause (line : nat) : parser SetClause :=
  kind ← word_or line (str "set requires a directive");
  clause ← set_clause_of kind line;
  _ ← finish_statement; mret clause.

Definition set_disposition (line : nat) (d : Disposition) (b : StatementBlock) : parser StatementBlock :=
  match sb_disposition b with
  | Some _ => parse_err line (str "duplicate disposition")
  | None => _ ← finish_statement; mret (mkStatementBlock (sb_name b) (sb_matches b) (sb_sets b) (Some d))
  end.
Definition statement_directive (key : Str) (line : nat) (b : StatementBlock) : parser StatementBlock :=
  if key =s "match" then
    m ← parse_match_clause line; mret (mkStatementBlock (sb_name b) (sb_matches b ++ [m]) (sb_sets b) (sb_disposition b))
  else if key =s "set" then
    s ← parse_set_clause line; mret (mkStatementBlock (sb_name b) (sb_matches b) (sb_sets b ++ [s]) (sb_disposition b))
  else if key =s "accept" then set_disposition line DAccept b
  else if key =s "reject" then set_disposition line DReject b
  else parse_err line (str "unknown statement directive '" ++ key ++ str "'").
Definition parse_statement_block (name : option Str) : parser StatementBlock :=
  parse_block (str "unexpected '{' inside statement") statement_directive (mkStatementBlock name [] [] None).

Definition parse_statement_rule : parser PolicyRule :=
  peeked ← peek_kind;
  stmt_name ← match peeked with Some (Word _) => n ← any_word; mret (Some n) | _ => mret None end;
  block ← braced (parse_statement_block stmt_name);
  mret (PrStatement block).
Definition policy_rule (key : Str) (line : nat) (rules : list PolicyRule) : parser (list PolicyRule) :=
  rule ←
    (if key =s "match" then
       set_name ← word_or line (str "match requires a set name");
       action ← word_or line (str "match requires an action");
       _ ← finish_statement; mret (PrMatch set_name action)
     else if key =s "default" then
       action ← word_or line (str "default requires an action");
       _ ← finish_statement; mret (PrDefault action)
     else if key =s "statement" then parse_statement_rule
     else parse_err line (str "unknown policy rule '" ++ key ++ str "'"));
  mret (rules ++ [rule]).
Definition parse_policy_block (name : Str) : parser PolicyBlock :=
  rules ← parse_block (str "unexpected '{' inside policy") policy_rule []; mret (mkPolicyBlock name rules).

(** ** Sets *)
(** The loop of [parse_optional_masklength_range]; every turn takes a word. *)
Fixpoint masklength_loop (fuel : nat) (line : nat) (ge le : option Z) (exact : bool) : parser (option Z * option Z * bool) := fun ts =>
  match fuel with
  | O => Panic
  | S fuel =>
      match ts with
      | mkToken (Word w) _ :: _ =>
          if w =s "exact" then
            (if exact then parse_err line (str "duplicate 'exact'")
             else if bool_decide (is_Some ge) || bool_decide (is_Some le) then parse_err line (str "'exact' cannot combine with ge/le")
             else _ ← take_word; masklength_loop fuel line ge le true) ts
          else if w =s "ge" then
            (if exact then parse_err line (str "'ge' cannot combine with 'exact'")
             else
               _ ← take_word;
               val ← word_or line (str "'ge' requires a masklen value");
               n ← uint_or (2 ^ 8 - 1) line (str "invalid masklen for 'ge': '" ++ val ++ str "'") val;
               if bool_decide (is_Some ge) then parse_err line (str "duplicate 'ge'")
               else masklength_loop fuel line (Some n) le exact) ts
          else if w =s "le" then
            (if exact then parse_err line (str "'le' cannot combine with 'exact'")
             else
               _ ← take_word;
               val ← word_or line (str "'le' requires a masklen value");
               n ← uint_or (2 ^ 8 - 1) line (str "invalid masklen for 'le': '" ++ val ++ str "'") val;
               if bool_decide (is_Some le) then parse_err line (str "duplicate 'le'")
               else masklength_loop fuel line ge (Some n) exact) ts
          else Ok ((ge, le, exact), ts)
      | _ => Ok ((ge, le, exact), ts)
      end
  end.
Definition make_range (r : option Z * option Z * bool) : option MasklengthRange :=
  let '(ge, le, exact) := r in
  if exact then Some Exact else match ge, le with None, None => None | _, _ => Some (Range ge le) end.
Definition parse_optional_masklength_range (line : nat) : parser (option MasklengthRange) := fun ts =>
  (r ← masklength_loop (S (length ts)) line None None false; mret (make_range r)) ts.

Definition prefix_list_entry (prefix : Str) (line : nat) (entries : list PrefixListEntry) : parser (list PrefixListEntry) :=
  range ← parse_optional_masklength_range line;
  _ ← finish_statement; mret (entries ++ [mkPrefixListEntry prefix range]).
Definition parse_prefix_list_block (name : Str) : parser PrefixListBlock :=
  prefixes ← parse_block (str "unexpected '{' inside prefix-list") prefix_list_entry []; mret (mkPrefixListBlock name prefixes).

Definition word_list_entry (entry : Str) (_ : nat) (entries : list Str) : parser (list Str) :=
  _ ← finish_statement; mret (entries ++ [entry]).
Definition parse_word_list_block (block_kind : Str) : parser (list Str) :=
  parse_block (str "unexpected '{' inside " ++ block_kind) word_list_entry [].
Definition parse_neighbor_set_block (name : Str) : parser NeighborSetBlock :=
  neighbors ← parse_word_list_block (str "neighbor-set"); mret (mkNeighborSetBlock name neighbors).
Definition parse_as_path_set_block (name : Str) : parser AsPathSetBlock :=
  patterns ← parse_word_list_block (str "as-path-set"); mret (mkAsPathSetBlock name patterns).
Definition parse_community_set_block (name : Str) : parser CommunitySetBlock :=
  communities ← parse_word_list_block (str "community-set"); mret (mkCommunitySetBlock name communities).
Definition parse_ext_community_set_block (name : Str) : parser ExtCommunitySetBlock :=
  ext_communities ← parse_word_list_block (str "ext-community-set"); mret (mkExtCommunitySetBlock name ext_communities).
Definition parse_large_community_set_block (name : Str) : parser LargeCommunitySetBlock :=
  large_communities ← parse_word_list_block (str "large-community-set"); mret (mkLargeCommunitySetBlock name large_communities).

(** ** Servers, caches, telemetry *)
Definition bmp_directive (key : Str) (line : nat) (b : BmpServerBlock) : parser BmpServerBlock :=
  if key =s "statistics-timeout" then v ← parse_scalar from_u64 key line; mret (mkBmpServerBlock (bm_address b) (Some v))
  else parse_err line (str "unknown bmp-server directive '" ++ key ++ str "'").
Definition parse_bmp_server_block (address : Str) : parser BmpServerBlock :=
  parse_block (str "unexpected '{' inside bmp-server") bmp_directive (mkBmpServerBlock address None).

Definition bgp_ls_directive (key : Str) (line : nat) (b : BgpLsBlock) : parser BgpLsBlock :=
  if key =s "instance-id" then v ← parse_scalar from_u64 key line; mret (mkBgpLsBlock v)
  else parse_err line (str "unknown bgp-ls directive '" ++ key ++ str "'").
Definition parse_bgp_ls_block : parser BgpLsBlock := parse_block (str "unexpected '{' inside bgp-ls") bgp_ls_directive (mkBgpLsBlock 0).

(** What may stand in [json {}]: nothing. *)
Definition no_directive : parser () := fun ts =>
  match ts with
  | mkToken CloseBrace _ :: _ => Ok (tt, ts)
  | [] => unexpected_eof last_line ts
  | mkToken OpenBrace line :: _ => Err (mkParseError line (str "unexpected '{' inside json"))
  | _ => ('(key, line) ← expect_word; parse_err line (str "unknown json directive '" ++ key ++ str "'")) ts
  end.
Definition parse_telemetry_json_block : parser () := _ ← skip_newlines; _ ← no_directive; expect_close_brace last_line.

Definition emf_directive (key : Str) (line : nat) (_ : option Str) : parser (option Str) :=
  if key =s "namespace" then v ← parse_scalar from_string key line; mret (Some v)
  else parse_err line (str "unknown cloudwatch-emf directive '" ++ key ++ str "'").
Definition parse_cloudwatch_emf_block (block_line : nat) : parser CloudwatchEmfBlock :=
  namespace ← parse_block (str "unexpected '{' inside cloudwatch-emf") emf_directive None;
  match namespace with
  | Some namespace => mret (mkCloudwatchEmfBlock namespace)
  | None => parse_err block_line (str "cloudwatch-emf requires 'namespace'")
  end.

Definition prometheus_directive (key : Str) (line : nat) (_ : PrometheusBlock) : parser PrometheusBlock :=
  if key =s "listen" then v ← parse_scalar from_string key line; mret (mkPrometheusBlock (Some v))
  else parse_err line (str "unknown prometheus directive '" ++ key ++ str "'").
Definition parse_prometheus_block : parser PrometheusBlock :=
  parse_block (str "unexpected '{' inside prometheus") prometheus_directive (mkPrometheusBlock None).

Definition telemetry_directive (key : Str) (line : nat) (b : TelemetryBlock) : parser TelemetryBlock :=
  if key =s "json" then
    if tm_json b then parse_err line (str "duplicate 'json' block")
    else _ ← braced parse_telemetry_json_block; mret (mkTelemetryBlock true (tm_cloudwatch_emf b) (tm_prometheus b))
  else if key =s "cloudwatch-emf" then
    if bool_decide (is_Some (tm_cloudwatch_emf b)) then parse_err line (str "duplicate 'cloudwatch-emf' block")
    else emf ← braced (parse_cloudwatch_emf_block line); mret (mkTelemetryBlock (tm_json b) (Some emf) (tm_prometheus b))
  else if key =s "prometheus" then
    if bool_decide (is_Some (tm_prometheus b)) then parse_err line (str "duplicate 'prometheus' block")
    else p ← braced parse_prometheus_block; mret (mkTelemetryBlock (tm_json b) (tm_cloudwatch_emf b) (Some p))
  else parse_err line (str "unknown telemetry directive '" ++ key ++ str "'").
Definition parse_telemetry_block (block_line : nat) : parser TelemetryBlock :=
  b ← parse_block (str "unexpected '{' inside telemetry") telemetry_directive (mkTelemetryBlock false None None);
  if tm_json b && bool_decide (is_Some (tm_cloudwatch_emf b))
  then parse_err block_line (str "'json' and 'cloudwatch-emf' are mutually exclusive")
  else mret b.

Definition rpki_directive (key : Str) (line : nat) (b : RpkiCacheBlock) : parser RpkiCacheBlock :=
  let '(mkRpkiCacheBlock a pref tr user pkf khf retry refresh expire) := b in
  if key =s "preference" then v ← parse_scalar from_u8 key line; mret (mkRpkiCacheBlock a (Some v) tr user pkf khf retry refresh expire)
  else if key =s "transport" then
    v ← parse_scalar from_transport key line; mret (mkRpkiCacheBlock a pref (Some v) user pkf khf retry refresh expire)
  else if key =s "ssh-username" then
    v ← parse_scalar from_string key line; mret (mkRpkiCacheBlock a pref tr (Some v) pkf khf retry refresh expire)
  else if key =s "ssh-private-key-file" then
    v ← parse_scalar from_string key line; mret (mkRpkiCacheBlock a pref tr user (Some v) khf retry refresh expire)
  else if key =s "ssh-known-hosts-file" then
    v ← parse_scalar from_string key line; mret (mkRpkiCacheBlock a pref tr user pkf (Some v) retry refresh expire)
  else if key =s "retry-interval" then
    v ← parse_scalar from_u64 key line; mret (mkRpkiCacheBlock a pref tr user pkf khf (Some v) refresh expire)
  else if key =s "refresh-interval" then
    v ← parse_scalar from_u64 key line; mret (mkRpkiCacheBlock a pref tr user pkf khf retry (Some v) expire)
  else if key =s "expire-interval" then
    v ← parse_scalar from_u64 key line; mret (mkRpkiCacheBlock a pref tr user pkf khf retry refresh (Some v))
  else parse_err line (str "unknown rpki-cache directive '" ++ key ++ str "'").
Definition parse_rpki_cache_block (address : Str) : parser RpkiCacheBlock :=
  parse_block (str "unexpected '{' inside rpki-cache") rpki_directive (mkRpkiCacheBlock address None None None None None None None None).

(** ** The body of [service bgp] *)
Definition body_default : BgpServiceBody := mkBgpServiceBody [] [] [] [] [] [] [] [] [] [] [] None None.
Definition body_eta (b : BgpServiceBody) : BgpServiceBody :=
  mkBgpServiceBody (bs_settings b) (bs_peers b) (bs_policies b) (bs_prefix_lists b) (bs_neighbor_sets b) (bs_as_path_sets b)
    (bs_community_sets b) (bs_ext_community_sets b) (bs_large_community_sets b) (bs_bmp_servers b) (bs_rpki_caches b)
    (bs_bgp_ls b) (bs_telemetry b).
Definition with_settings v b := ltac:(update_field body_eta bs_settings v b).
Definition with_peers v b := ltac:(update_field body_eta bs_peers v b).
Definition with_policies v b := ltac:(update_field body_eta bs_policies v b).
Definition with_prefix_lists v b := ltac:(update_field body_eta bs_prefix_lists v b).
Definition with_neighbor_sets v b := ltac:(update_field body_eta bs_neighbor_sets v b).
Definition with_as_path_sets v b := ltac:(update_field body_eta bs_as_path_sets v b).
Definition with_community_sets v b := ltac:(update_field body_eta bs_community_sets v b).
Definition with_ext_community_sets v b := ltac:(update_field body_eta bs_ext_community_sets v b).
Definition with_large_community_sets v b := ltac:(update_field body_eta bs_large_community_sets v b).
Definition with_bmp_servers v b := ltac:(update_field body_eta bs_bmp_servers v b).
Definition with_rpki_caches v b := ltac:(update_field body_eta bs_rpki_caches v b).
Definition with_bgp_ls v b := ltac:(update_field body_eta bs_bgp_ls v b).
Definition with_telemetry v b := ltac:(update_field body_eta bs_telemetry v b).

Definition requires_name (kind : Str) : Str := kind ++ str " requires a name".
Definition requires_address (kind : Str) : Str := kind ++ str " requires an address".

Definition body_directive (key : Str) (line : nat) (b : BgpServiceBody) : parser BgpServiceBody :=
  if key =s "peer" then
    x ← named line (requires_address key) parse_peer_block; mret (with_peers (bs_peers b ++ [x]) b)
  else if key =s "policy" then
    x ← named line (requires_name key) parse_policy_block; mret (with_policies (bs_policies b ++ [x]) b)
  else if key =s "prefix-list" then
    x ← named line (requires_name key) parse_prefix_list_block; mret (with_prefix_lists (bs_prefix_lists b ++ [x]) b)
  else if key =s "neighbor-set" then
    x ← named line (requires_name key) parse_neighbor_set_block; mret (with_neighbor_sets (bs_neighbor_sets b ++ [x]) b)
  else if key =s "as-path-set" then
    x ← named line (requires_name key) parse_as_path_set_block; mret (with_as_path_sets (bs_as_path_sets b ++ [x]) b)
  else if key =s "community-set" then
    x ← named line (requires_name key) parse_community_set_block; mret (with_community_sets (bs_community_sets b ++ [x]) b)
  else if key =s "ext-community-set" then
    x ← named line (requires_name key) parse_ext_community_set_block; mret (with_ext_community_sets (bs_ext_community_sets b ++ [x]) b)
  else if key =s "large-community-set" then
    x ← named line (requires_name key) parse_large_community_set_block;
    mret (with_large_community_sets (bs_large_community_sets b ++ [x]) b)
  else if key =s "bmp-server" then
    x ← named line (requires_address key) parse_bmp_server_block; mret (with_bmp_servers (bs_bmp_servers b ++ [x]) b)
  else if key =s "rpki-cache" then
    x ← named line (requires_address key) parse_rpki_cache_block; mret (with_rpki_caches (bs_rpki_caches b ++ [x]) b)
  else if key =s "bgp-ls" then
    if bool_decide (is_Some (bs_bgp_ls b)) then parse_err line (str "duplicate 'bgp-ls' block")
    else x ← braced parse_bgp_ls_block; mret (with_bgp_ls (Some x) b)
  else if key =s "telemetry" then
    if bool_decide (is_Some (bs_telemetry b)) then parse_err line (str "duplicate 'telemetry' block")
    else x ← braced (parse_telemetry_block line); mret (with_telemetry (Some x) b)
  else if key =s "originate" then
    route ← parse_originate_setting line;
    _ ← finish_statement; mret (with_settings (bs_settings b ++ [SOriginate route]) b)
  else
    setting ← parse_setting key line; mret (with_settings (bs_settings b ++ [setting]) b).
Definition parse_bgp_body : parser BgpServiceBody := parse_block (str "unexpected '{'") body_directive body_default.

(** ** [parse_root] *)
(** The name of a service. *)
Definition service_name (line : nat) : parser Str :=
  peeked ← peek_kind; match peeked with Some (Word _) => any_word | _ => parse_err line (str "service requires a name") end.
Fixpoint root_loop (fuel : nat) (root : list Service) : parser (list Service) := fun ts =>
  match fuel with
  | O => Panic
  | S fuel =>
      let ts := skip_newlines_in ts in
      match ts with
      | [] => Ok (root, ts)
      | mkToken OpenBrace line :: _ => Err (mkParseError line (str "unexpected '{'"))
      | mkToken CloseBrace line :: _ => Err (mkParseError line (str "unexpected '}'"))
      | _ =>
          ('(kw, line) ← expect_word;
           if negb (kw =s "service") then parse_err line (str "unknown top-level block '" ++ kw ++ str "'")
           else
             name ← service_name line;
             _ ← skip_newlines;
             _ ← expect_open_brace;
             if name =s "bgp" then body ← parse_bgp_body; root_loop fuel (root ++ [Bgp body])
             else parse_err line (str "unknown service '" ++ name ++ str "'")) ts
      end
  end.
Definition parse_root : parser Root := fun ts => (l ← root_loop (S (length ts)) []; mret (mkRoot l)) ts.
End parsers.

(** [language::parse]: the file's tree, or the error. *)
Definition parse (input : Str) : outcome ParseError Root :=
  let tokens := tokenize input in
  fst <$> parse_root (match last tokens with Some t => tk_line t | None => 0%nat end) tokens.

(** ** A file, read and printed *)
Definition demo_text : Str := concat (map writeln [
  str "service bgp {"; str "  asn 65001"; str "  router-id 1.2.3.4"; str "  sys-name " ++ [34] ++ str "my # router" ++ [34]; str "  passive true";
  []; str "  peer 10.0.0.1 {"; str "    remote-as 65002"; str "  "; str "    family ipv4 unicast {"; str "      export policy out";
  str "      max-prefix 100 action discard"; str "    }"; str "  }"; []; str "  policy out {"; str "    match ours accept"; 
  str "    statement {"; str "      match community-set cs invert"; str "      set community add 1:2 3:4"; str "      set local-pref force 7";
  str "      reject"; str "    }"; str "  }"; []; str "  prefix-list ours {"; str "    10.0.0.0/8 ge 9 le 24"; str "    11.0.0.0/8 exact"; str "  }";
  []; str "  as-path-set asp {"; str "    " ++ [34] ++ str "^65001 #$" ++ [34]; str "  }"; []; str "  telemetry {"; str "    json {}";
  str "    prometheus {}"; str "  }"; str "}"]).
Example demo_text_read : (show_root <$> parse demo_text) = Ok demo_text.
Proof. vm_compute. reflexivity. Qed.
