(* ===== verification/LangSpec.v ===== *)
(** * The configuration language: the tokens of printed lines

    [reads line ks]: a line without quotes and comments has the tokens [ks];
    [line_reads]: so has a line that may quote its last word; [prints text
    ks]: a text of whole lines has the tokens [ks]. *)
From S2P Require Import Prelude Net BgpLs Attrs Text LangBgp LangBgpParse.

(** ** Words *)
Definition plain (c : Z) : bool := negb (ends_word c) && negb (c =? CHAR_QUOTE) && negb (c =? CHAR_COMMENT).
(** What is read back as one word when it is printed bare. *)
Definition word_ok (w : Str) : Prop := w <> [] /\ Forall (fun c => plain c = true) w.
Definition line_char (c : Z) : bool := negb (c =? 10) && negb (c =? 13) && negb (c =? CHAR_QUOTE) && negb (c =? CHAR_COMMENT).
Definition line_text (s : Str) : Prop := Forall (fun c => line_char c = true) s.

Lemma plain_line_char c : plain c = true -> line_char c = true.
Proof. unfold plain, line_char, ends_word, is_whitespace, CHAR_QUOTE, CHAR_COMMENT, CHAR_OPENING_BRACE, CHAR_CLOSING_BRACE. lia. Qed.
Lemma word_line_text w : word_ok w -> line_text w.
Proof. intros [_ Hw]. eapply Forall_impl; [exact Hw|]. intros c. apply plain_line_char. Qed.
Lemma line_text_no_nl s : line_text s -> no_nl s.
Proof. intros Hs. eapply Forall_impl; [exact Hs|]. intros c. unfold line_char. lia. Qed.

(** ** The lexer *)
Lemma length_span stops s : (length (span_until stops s).2 <= length s)%nat.
Proof.
  induction s as [|c s IH]; cbn [span_until]; [done|]. destruct (stops c); [done|]. destruct (span_until stops s) as [w rest]. cbn in *. lia.
Qed.

Lemma lex_fuel fuel : forall s, (length s <= fuel)%nat -> lex_loop fuel s = lex s.
Proof.
  induction fuel as [fuel IH] using lt_wf_ind. intros s Hs. unfold lex.
  destruct (decide (fuel = length s)) as [->|Hne]; [done|].
  destruct fuel as [|fuel]; [lia|]. destruct s as [|c s]; [done|]. cbn [length] in *. cbn [lex_loop].
  assert (forall r, (length r <= length s)%nat -> lex_loop fuel r = lex_loop (length s) r) as Hr.
  { intros r Hr. rewrite (IH fuel), (IH (length s)) by lia. done. }
  destruct (is_whitespace c) eqn:E1; [by apply Hr|]. destruct (c =? CHAR_OPENING_BRACE) eqn:E2; [by rewrite Hr|].
  destruct (c =? CHAR_CLOSING_BRACE) eqn:E3; [by rewrite Hr|]. destruct (c =? CHAR_QUOTE).
  - pose proof (length_span (fun c => c =? CHAR_QUOTE) s). destruct (span_until _ s) as [w rest]. cbn [snd] in *. rewrite Hr; [done|].
    destruct rest; cbn in *; lia.
  - cbn [span_until]. unfold ends_word at 1 3. rewrite E1, E2, E3. cbn [orb].
    pose proof (length_span ends_word s). destruct (span_until ends_word s) as [w rest]. cbn [snd] in *. by rewrite Hr.
Qed.

Lemma lex_ws c s : is_whitespace c = true -> lex (c :: s) = lex s.
Proof. intros Hc. unfold lex. cbn [length lex_loop]. by rewrite Hc. Qed.
Lemma lex_open s : lex (CHAR_OPENING_BRACE :: s) = OpenBrace :: lex s.
Proof. done. Qed.
Lemma lex_close s : lex (CHAR_CLOSING_BRACE :: s) = CloseBrace :: lex s.
Proof. done. Qed.

Lemma span_app stops w s : Forall (fun c => stops c = false) w -> span_until stops (w ++ s) = (w ++ (span_until stops s).1, (span_until stops s).2).
Proof.
  induction 1 as [|c w Hc _ IH]; cbn [app span_until]; [by destruct (span_until stops s)|]. by rewrite Hc, IH.
Qed.

Lemma lex_quoted q s : Forall (fun c => c <> CHAR_QUOTE) q -> lex (CHAR_QUOTE :: q ++ CHAR_QUOTE :: s) = Word q :: lex s.
Proof.
  intros Hq. unfold lex at 1. cbn [length lex_loop]. change (is_whitespace CHAR_QUOTE) with false. cbn [Z.eqb].
  change (CHAR_QUOTE =? CHAR_OPENING_BRACE) with false. change (CHAR_QUOTE =? CHAR_CLOSING_BRACE) with false.
  change (CHAR_QUOTE =? CHAR_QUOTE) with true. cbv iota.
  rewrite span_app by (eapply Forall_impl; [exact Hq|]; intros c Hc; by apply Z.eqb_neq). cbn [span_until].
  change (CHAR_QUOTE =? CHAR_QUOTE) with true. cbn [fst snd tail]. rewrite app_nil_r. f_equal. apply lex_fuel. rewrite length_app. cbn. lia.
Qed.

(** Where a text can be cut: after white space, or before it. *)
Definition ends_blank (a : Str) : Prop := exists a', a = a' ++ [32].
Definition starts_blank (s : Str) : Prop := s = [] \/ exists s', s = 32 :: s'.
Definition no_quote (s : Str) : Prop := Forall (fun c => (c =? CHAR_QUOTE) = false) s.

Lemma span_split stops s : s = (span_until stops s).1 ++ (span_until stops s).2.
Proof.
  induction s as [|c s IH]; cbn [span_until]; [done|]. destruct (stops c); [done|]. destruct (span_until stops s). cbn in *. by f_equal.
Qed.
Lemma suffix_blank w b : ends_blank (w ++ b) -> b = [] \/ ends_blank b.
Proof.
  intros (a' & Ha). destruct b as [|c b] using rev_ind; [by left|]. right. rewrite app_assoc in Ha. apply app_inj_tail in Ha as [_ ->]. by exists b.
Qed.

(** The word that a span ends, with what follows its text. *)
Lemma span_cut a : forall s, ends_blank a \/ starts_blank s ->
  span_until ends_word (a ++ s) = ((span_until ends_word a).1, (span_until ends_word a).2 ++ s).
Proof.
  induction a as [|c a IH]; intros s Hc; cbn [app span_until].
  - destruct Hc as [(a' & Ha)|[->|(s' & ->)]]; [by destruct a'|done|done].
  - destruct (ends_word c) eqn:Ec; [done|]. rewrite IH; [by destruct (span_until ends_word a)|].
    destruct Hc as [(a' & Ha)|Hs]; [|by right]. left. destruct a' as [|d a']; injection Ha as -> ->; [done|]. by exists a'.
Qed.

Lemma lex_app a s : no_quote a -> ends_blank a \/ starts_blank s -> lex (a ++ s) = lex a ++ lex s.
Proof.
  remember (length a) as n eqn:En. revert a En. induction n as [n IH] using lt_wf_ind. intros a -> Hq Hc.
  destruct a as [|c a]; [done|]. apply Forall_cons in Hq as [Hcq Hq].
  assert (ends_blank a \/ starts_blank s \/ a = []) as Hc'.
  { destruct Hc as [(a' & Ha)|Hs]; [|by right; left]. destruct a' as [|d a']; injection Ha as -> ->; [by right; right|]. left. by exists a'. }
  assert (forall b, (length b <= length a)%nat -> no_quote b -> (ends_blank b \/ starts_blank s \/ b = []) -> lex (b ++ s) = lex b ++ lex s) as Hrec.
  { intros b Hb Hbq [Hbc|[Hbc| ->]]; [| |done]; (apply (IH (length b)); [cbn; lia|done|done|tauto]). }
  cbn [app]. unfold lex at 1 2. cbn [length lex_loop].
  destruct (is_whitespace c) eqn:E1; [rewrite !lex_fuel by (rewrite ?length_app; lia); by apply Hrec|].
  destruct (c =? CHAR_OPENING_BRACE) eqn:E2; [rewrite !lex_fuel by (rewrite ?length_app; lia); by rewrite Hrec|].
  destruct (c =? CHAR_CLOSING_BRACE) eqn:E3; [rewrite !lex_fuel by (rewrite ?length_app; lia); by rewrite Hrec|].
  rewrite Hcq. change (c :: a ++ s) with ((c :: a) ++ s). rewrite span_cut by done.
  assert (ends_word c = false) as Ec by (unfold ends_word; by rewrite E1, E2, E3). cbn [span_until]. rewrite Ec.
  pose proof (length_span ends_word a) as Hl. destruct (span_until ends_word a) as [w rest] eqn:Es. cbn [fst snd] in *.
  rewrite !lex_fuel by (rewrite ?length_app; lia). cbn [app]. f_equal.
  pose proof (span_split ends_word a) as Ha. rewrite Es in Ha. cbn [fst snd] in Ha. rewrite Ha in Hq, Hc'.
  apply Forall_app in Hq as [_ Hq]. apply Hrec; [done|done|]. destruct Hc' as [Hb|[Hs| [_ ->]%app_nil]]; [|by right; left|by right; right].
  destruct (suffix_blank _ _ Hb) as [-> |Hb']; [by right; right|by left].
Qed.

(** ** Lines without quotes *)
Definition reads (line : Str) (ks : list TokenKind) : Prop := line_text line /\ lex line = ks.

Lemma line_text_no_quote s : line_text s -> no_quote s.
Proof. intros Hs. eapply Forall_impl; [exact Hs|]. intros c. unfold line_char. lia. Qed.

Lemma plain_not_end c : plain c = true -> ends_word c = false.
Proof. unfold plain. by destruct (ends_word c). Qed.

Lemma lex_word w : word_ok w -> lex w = [Word w].
Proof.
  intros [Hne Hw]. destruct w as [|c w]; [done|]. unfold lex. cbn [length lex_loop].
  pose proof (proj1 (proj1 (Forall_cons _ _ _) Hw)) as Hc. pose proof (plain_not_end c Hc) as He. unfold ends_word in He.
  apply orb_false_iff in He as [He E3]. apply orb_false_iff in He as [E1 E2]. rewrite E1, E2, E3.
  unfold plain in Hc. destruct (c =? CHAR_QUOTE); [by destruct (ends_word c)|].
  assert (Forall (fun c => ends_word c = false) (c :: w)) as Hf by (eapply Forall_impl; [exact Hw|]; intros d; apply plain_not_end).
  rewrite <- (app_nil_r (c :: w)) at 1. rewrite span_app by done. cbn [span_until fst snd]. rewrite app_nil_r. by destruct w.
Qed.

Lemma reads_nil : reads [] [].
Proof. split; [by apply Forall_nil|done]. Qed.
Lemma reads_word w : word_ok w -> reads w [Word w].
Proof. intros Hw. split; [by apply word_line_text|by apply lex_word]. Qed.
Lemma reads_lit s ks : forallb line_char s = true -> lex s = ks -> reads s ks.
Proof. intros Hs Hk. split; [|done]. apply Forall_forall. intros c Hc. rewrite forallb_forall in Hs. apply Hs. by apply list_elem_of_In. Qed.
Lemma reads_app a b ka kb : reads a ka -> reads b kb -> ends_blank a \/ starts_blank b -> reads (a ++ b) (ka ++ kb).
Proof.
  intros [Ha <-] [Hb <-] Hc. split; [by apply Forall_app|]. apply lex_app; [by apply line_text_no_quote|done].
Qed.

Lemma last_blank s : last s = Some 32 -> ends_blank s.
Proof. intros (l & ->)%last_Some. by exists l. Qed.
Lemma reads_lit_then lit s k ks :
  forallb line_char lit = true -> lex lit = k -> last lit = Some 32 -> reads s ks -> reads (lit ++ s) (k ++ ks).
Proof. intros Hc Hk Hl Hs. apply reads_app; [by apply reads_lit|done|]. left. by apply last_blank. Qed.
Lemma reads_word_then w s ks : word_ok w -> starts_blank s -> reads s ks -> reads (w ++ s) (Word w :: ks).
Proof. intros Hw Hb Hs. apply (reads_app w s [Word w]); [by apply reads_word|done|by right]. Qed.

(** ** Lines that may quote *)
Definition line_reads (line : Str) (ks : list TokenKind) : Prop := no_nl line /\ lex (strip_comment line) = ks.

Lemma strip_text_app q s t : line_text s -> strip_comment_from q (s ++ t) = s ++ strip_comment_from q t.
Proof.
  induction 1 as [|c s Hc _ IH]; cbn [app strip_comment_from]; [done|]. unfold line_char in Hc.
  destruct (c =? CHAR_QUOTE); [lia|]. destruct (c =? CHAR_COMMENT); [lia|]. cbn [andb]. by rewrite IH.
Qed.

Lemma line_of_reads s ks : reads s ks -> line_reads s ks.
Proof.
  intros [Hs <-]. split; [by apply line_text_no_nl|]. unfold strip_comment.
  rewrite <- (app_nil_r s) at 1. rewrite strip_text_app by done. cbn [strip_comment_from]. by rewrite app_nil_r.
Qed.

Definition quotable (q : Str) : Prop := Forall (fun c => c <> 10 /\ c <> 13 /\ c <> CHAR_QUOTE) q.
Lemma strip_quoted q t : quotable q -> strip_comment_from true (q ++ t) = q ++ strip_comment_from true t.
Proof.
  induction 1 as [|c q (_ & _ & Hc) _ IH]; cbn [app strip_comment_from]; [done|].
  destruct (Z.eqb_spec c CHAR_QUOTE); [done|]. rewrite andb_false_r. by rewrite IH.
Qed.

Lemma line_quoted a ka q : reads a ka -> ends_blank a -> quotable q -> line_reads (a ++ CHAR_QUOTE :: q ++ [CHAR_QUOTE]) (ka ++ [Word q]).
Proof.
  intros [Ha <-] Hb Hq. split.
  - apply no_nl_app. split; [by apply line_text_no_nl|]. apply Forall_cons. split; [done|]. apply Forall_app.
    split; [eapply Forall_impl; [exact Hq|intros c (? & ? & ?); done]|by apply Forall_singleton].
  - unfold strip_comment. rewrite strip_text_app by done. cbn [strip_comment_from]. change (CHAR_QUOTE =? CHAR_QUOTE) with true. cbn [negb].
    rewrite strip_quoted by done. cbn [strip_comment_from]. change (CHAR_QUOTE =? CHAR_QUOTE) with true. cbv iota.
    rewrite lex_app by (first [by apply line_text_no_quote|by left]). f_equal.
    rewrite lex_quoted; [done|]. eapply Forall_impl; [exact Hq|intros c (? & ? & ?); done].
Qed.

Lemma line_indented s ks : line_reads s ks -> line_reads (str "  " ++ s) ks.
Proof.
  intros [Hs <-]. split; [by apply no_nl_app; split; [by repeat (apply Forall_cons; split; [done|])|]|].
  unfold strip_comment. change (str "  ") with [32; 32]. cbn [app strip_comment_from].
  change (32 =? CHAR_QUOTE) with false. change (32 =? CHAR_COMMENT) with false. cbn [andb]. by rewrite !lex_ws.
Qed.

(** ** Texts of whole lines *)
Definition prints (t : Str) (K : list TokenKind) : Prop :=
  exists ls Ks, t = concat (map writeln ls) /\ Forall2 line_reads ls Ks /\ K = concat (map (fun ks => ks ++ [Newline]) Ks).
(** A block: whole lines, then a brace that its user ends the line after. *)
Definition block_prints (t : Str) (K : list TokenKind) : Prop := exists t0 K0, t = t0 ++ str "}" /\ prints t0 K0 /\ K = K0 ++ [CloseBrace; Newline].

Lemma prints_nil : prints [] [].
Proof. by exists [], []. Qed.
Lemma prints_line l ks : line_reads l ks -> prints (writeln l) (ks ++ [Newline]).
Proof. intros Hl. exists [l], [ks]. cbn. rewrite !app_nil_r. split_and!; [done|constructor; [done|constructor]|done]. Qed.
Lemma prints_nl : prints nl [Newline].
Proof. apply (prints_line [] []). split; [by apply Forall_nil|done]. Qed.
Lemma prints_app t1 t2 K1 K2 : prints t1 K1 -> prints t2 K2 -> prints (t1 ++ t2) (K1 ++ K2).
Proof.
  intros (l1 & k1 & -> & H1 & ->) (l2 & k2 & -> & H2 & ->). exists (l1 ++ l2), (k1 ++ k2).
  rewrite !map_app, !concat_app. split_and!; [done|by apply Forall2_app|done].
Qed.

Lemma lines_concat ls Ks t : Forall2 line_reads ls Ks -> lines (concat (map writeln ls) ++ t) = ls ++ lines t.
Proof.
  induction 1 as [|l ks ls Ks [Hl _] _ IH]; [done|]. cbn [map concat app]. change (writeln l) with (l ++ [10]). rewrite <- !app_assoc. cbn [app].
  rewrite lines_line by done. by rewrite IH.
Qed.

Lemma close_line : line_reads (str "}") [CloseBrace].
Proof. by apply line_of_reads, reads_lit. Qed.

Lemma prints_indent t K : block_prints t K -> prints (indent t) K.
Proof.
  intros (t0 & K0 & -> & (ls & Ks & -> & HL & ->) & ->). unfold indent. rewrite (lines_concat ls Ks) by done.
  change (lines (str "}")) with [str "}"]. exists (map (fun l => str "  " ++ l) (ls ++ [str "}"])), (Ks ++ [[CloseBrace]]).
  split_and!; [by rewrite map_map| |by rewrite map_app, concat_app].
  rewrite map_app. apply Forall2_app; [|constructor; [apply line_indented, close_line|constructor]].
  apply Forall2_fmap_l. eapply Forall2_impl; [exact HL|]. intros l ks. apply line_indented.
Qed.
Lemma prints_block t K : block_prints t K -> prints (writeln t) K.
Proof.
  intros (t0 & K0 & -> & Hp & ->). unfold writeln. rewrite <- app_assoc. apply prints_app; [done|].
  apply (prints_line (str "}") [CloseBrace]), close_line.
Qed.

Lemma kinds_imap (f : nat -> nat) (ls : list Str) : forall Ks, Forall2 line_reads ls Ks ->
  map tk_kind (concat (imap (fun i raw => map (fun k => mkToken k (f i)) (lex (strip_comment raw) ++ [Newline])) ls)) =
  concat (map (fun ks => ks ++ [Newline]) Ks).
Proof.
  revert f. induction ls as [|l ls IH]; intros f Ks HL; inversion HL as [|? ks ? Ks' [Hl Hk] HL']; subst; [done|].
  cbn [map concat]. rewrite imap_cons. cbn [concat]. rewrite map_app, map_map. cbn [tk_kind]. rewrite map_id. f_equal.
  by apply (IH (f ∘ S)).
Qed.
Lemma tokenize_prints t K : prints t K -> map tk_kind (tokenize t) = K.
Proof.
  intros (ls & Ks & -> & HL & ->). unfold tokenize. rewrite <- (app_nil_r (concat (map writeln ls))), (lines_concat ls Ks) by done.
  rewrite app_nil_r. by apply kinds_imap.
Qed.

(** * The configuration language: reading tokens back

    [yields p K a]: on tokens of the kinds [K], whatever follows, [p] takes
    them and returns [a].  [item_reads t d s s']: the statements printed as [t]
    take the loop of a block from [s] to [s']. *)

Abbreviation kinds ts := (map tk_kind ts).

Lemma kinds_cons ts k R : kinds ts = k :: R -> exists n ts', ts = mkToken k n :: ts' /\ kinds ts' = R.
Proof. destruct ts as [|[k' n] ts]; [done|]. intros [= -> <-]. by exists n, ts. Qed.

Definition yields {A} (p : parser A) (K : list TokenKind) (a : A) : Prop :=
  forall ts R, kinds ts = K ++ R -> exists ts', p ts = Ok (a, ts') /\ kinds ts' = R.

Lemma yields_ret {A} (a : A) : yields (mret a) [] a.
Proof. intros ts R E. by exists ts. Qed.

Lemma yields_bind {A B} (p : parser A) (f : A -> parser B) K1 K2 a b :
  yields p K1 a -> yields (f a) K2 b -> yields (p ≫= f) (K1 ++ K2) b.
Proof.
  intros Hp Hf ts R E. rewrite <- app_assoc in E. destruct (Hp ts _ E) as (ts1 & E1 & R1). destruct (Hf ts1 R R1) as (ts2 & E2 & R2).
  exists ts2. split; [|done]. unfold mbind, parser_bind. by rewrite E1.
Qed.
(** A step that takes nothing. *)
Lemma yields_then {A B} (p : parser A) (f : A -> parser B) K a b : yields p [] a -> yields (f a) K b -> yields (p ≫= f) K b.
Proof. apply (yields_bind p f [] K). Qed.
Lemma yields_last {A B} (p : parser A) (f : A -> parser B) K a b : yields p K a -> yields (f a) [] b -> yields (p ≫= f) K b.
Proof. intros Hp Hf. rewrite <- (app_nil_r K). by apply (yields_bind p f K [] a). Qed.

Section parsers.
Variable last_line : nat.
#[local] Abbreviation expect_word := (expect_word last_line).
#[local] Abbreviation word_or := (word_or last_line).
#[local] Abbreviation any_word := (any_word last_line).
#[local] Abbreviation uint_or := uint_or.

Lemma yields_word_line {B} (f : Str * nat -> parser B) w K b : (forall n, yields (f (w, n)) K b) -> yields (expect_word ≫= f) (Word w :: K) b.
Proof.
  intros Hf ts R E. destruct (kinds_cons ts _ _ E) as (n & ts' & -> & E'). destruct (Hf n ts' R E') as (ts2 & E2 & R2). by exists ts2.
Qed.
Lemma word_or_word n msg w m ts : word_or n msg (mkToken (Word w) m :: ts) = Ok (w, ts).
Proof. done. Qed.
Lemma yields_word_or n msg w : yields (word_or n msg) [Word w] w.
Proof. intros ts R E. destruct (kinds_cons ts _ _ E) as (m & ts' & -> & E'). by exists ts'. Qed.
Lemma yields_any_word w : yields any_word [Word w] w.
Proof. intros ts R E. destruct (kinds_cons ts _ _ E) as (m & ts' & -> & E'). by exists ts'. Qed.
Lemma yields_take_word w : yields take_word [Word w] (Some w).
Proof. intros ts R E. destruct (kinds_cons ts _ _ E) as (m & ts' & -> & E'). by exists ts'. Qed.
Lemma yields_finish : yields finish_statement [Newline] ().
Proof. intros ts R E. destruct (kinds_cons ts _ _ E) as (m & ts' & -> & E'). by exists ts'. Qed.
Lemma yields_uint max n msg v : 0 <= v <= max -> v < 10 ^ 20 -> yields (uint_or max n msg (dec v)) [] v.
Proof. intros Hv H20. unfold uint_or. rewrite parse_uint_dec by done. apply yields_ret. Qed.
Lemma yields_peek {B} (f : option TokenKind -> parser B) k K b : yields (f (Some k)) (k :: K) b -> yields (peek_kind ≫= f) (k :: K) b.
Proof.
  intros Hf ts R E. destruct (Hf ts R E) as (ts' & E1 & R1). exists ts'. split; [|done].
  destruct (kinds_cons ts _ _ E) as (n & ts2 & -> & _). done.
Qed.

(** The same, with what comes after. *)
Lemma yields_assoc {A B C} (p : parser A) (g : A -> parser B) (f : B -> parser C) K c :
  yields (p ≫= fun a => g a ≫= f) K c -> yields ((p ≫= g) ≫= f) K c.
Proof.
  intros H ts R E. destruct (H ts R E) as (ts' & E' & R'). exists ts'. split; [|done]. rewrite <- E'. unfold mbind, parser_bind.
  by destruct (p ts) as [[a ts1]| |].
Qed.
Lemma yields_ret_then {A B} (a : A) (f : A -> parser B) K b : yields (f a) K b -> yields (mret a ≫= f) K b.
Proof. intros H. by apply (yields_then _ _ _ a); [apply yields_ret|]. Qed.
Lemma yields_word_or_then {B} n msg w (f : Str -> parser B) K b : yields (f w) K b -> yields (word_or n msg ≫= f) (Word w :: K) b.
Proof. intros H. by apply (yields_bind _ _ [Word w] K w); [apply yields_word_or|]. Qed.
Lemma yields_any_word_then {B} w (f : Str -> parser B) K b : yields (f w) K b -> yields (any_word ≫= f) (Word w :: K) b.
Proof. intros H. by apply (yields_bind _ _ [Word w] K w); [apply yields_any_word|]. Qed.
Lemma yields_take_word_then {B} w (f : option Str -> parser B) K b : yields (f (Some w)) K b -> yields (take_word ≫= f) (Word w :: K) b.
Proof. intros H. by apply (yields_bind _ _ [Word w] K (Some w)); [apply yields_take_word|]. Qed.
Lemma yields_finish_then {B} (f : () -> parser B) K b : yields (f ()) K b -> yields (finish_statement ≫= f) (Newline :: K) b.
Proof. intros H. by apply (yields_bind _ _ [Newline] K ()); [apply yields_finish|]. Qed.
Lemma yields_uint_then {B} max n msg v (f : Z -> parser B) K b :
  0 <= v <= max -> v < 10 ^ 20 -> yields (f v) K b -> yields (uint_or max n msg (dec v) ≫= f) K b.
Proof. intros Hv H20 H. by apply (yields_then _ _ _ v); [apply yields_uint|]. Qed.

(** ** Blocks *)
Lemma skip_not_newline ts k K : kinds ts = k :: K -> k <> Newline -> skip_newlines_in ts = ts.
Proof. intros E Hk. destruct (kinds_cons ts _ _ E) as (n & ts' & -> & _). by destruct k. Qed.

Lemma yields_braced {A} (block : parser A) K a : yields block K a -> yields (braced last_line block) (OpenBrace :: K) a.
Proof.
  intros Hb ts R E. destruct (kinds_cons ts _ _ E) as (n & ts' & -> & E'). destruct (Hb ts' R E') as (ts2 & E2 & R2). by exists ts2.
Qed.
Lemma yields_named {A} n msg (block : Str -> parser A) w K a : yields (block w) K a -> yields (named last_line n msg block) (Word w :: OpenBrace :: K) a.
Proof. intros Hb. apply (yields_bind _ _ [Word w] (OpenBrace :: K) w); [apply yields_word_or|by apply yields_braced]. Qed.

Section block.
Context {S : Type} (open_msg : Str) (d : Str -> nat -> S -> parser S).
#[local] Abbreviation loop := (block_loop last_line open_msg d).

Definition loop_yields (s : S) (K : list TokenKind) (s' : S) : Prop :=
  forall fuel ts R, kinds ts = K ++ R -> (length ts < fuel)%nat ->
  exists fuel' ts', loop fuel s ts = loop fuel' s' ts' /\ kinds ts' = R /\ (length ts' < fuel')%nat.

Lemma loop_yields_app s s1 s2 K1 K2 : loop_yields s K1 s1 -> loop_yields s1 K2 s2 -> loop_yields s (K1 ++ K2) s2.
Proof.
  intros H1 H2 fuel ts R E Hf. rewrite <- app_assoc in E. destruct (H1 fuel ts _ E Hf) as (f1 & ts1 & -> & R1 & Hf1).
  by apply H2.
Qed.
Lemma loop_yields_nil s : loop_yields s [] s.
Proof. intros fuel ts R E Hf. by exists fuel, ts. Qed.
Lemma loop_yields_newline s : loop_yields s [Newline] s.
Proof.
  intros fuel ts R E Hf. destruct (kinds_cons ts _ _ E) as (n & ts' & -> & E'). cbn [length] in Hf.
  destruct fuel as [|fuel]; [lia|]. exists (Datatypes.S fuel), ts'. split_and!; [done|done|lia].
Qed.
Lemma loop_yields_item s s1 key K : (forall n, yields (d key n s) K s1) -> loop_yields s (Word key :: K) s1.
Proof.
  intros Hd fuel ts R E Hf. destruct (kinds_cons ts _ _ E) as (n & ts' & -> & E'). destruct fuel as [|fuel]; [lia|].
  destruct (Hd n ts' R E') as (ts2 & E2 & R2). exists fuel, ts2. split_and!; [|done|].
  - cbn [block_loop skip_newlines_in]. unfold mbind, parser_bind. cbn [LangBgp.expect_word]. by rewrite E2.
  - apply (f_equal length) in R2, E'. rewrite length_app, !length_map in *. cbn [length] in Hf. lia.
Qed.

Lemma yields_block s K s' : loop_yields s K s' -> yields (parse_block last_line open_msg d s) (K ++ [CloseBrace]) s'.
Proof.
  intros Hl ts R E. rewrite <- app_assoc in E. destruct (Hl (Datatypes.S (length ts)) ts _ E ltac:(lia)) as (fuel & ts' & E' & R' & Hf).
  destruct (kinds_cons ts' _ _ R') as (n & ts2 & -> & R2). exists ts2. split; [|done].
  unfold parse_block, mbind, parser_bind. rewrite E'. by destruct fuel as [|fuel]; [lia|].
Qed.

(** ** Statements as printed *)
Definition item_reads (t : Str) (s s' : S) : Prop := exists K, prints t K /\ loop_yields s K s'.

Lemma item_nil s : item_reads [] s s.
Proof. exists []. split; [apply prints_nil|apply loop_yields_nil]. Qed.
Lemma item_app t1 t2 s s1 s2 : item_reads t1 s s1 -> item_reads t2 s1 s2 -> item_reads (t1 ++ t2) s s2.
Proof.
  intros (K1 & P1 & L1) (K2 & P2 & L2). exists (K1 ++ K2). split; [by apply prints_app|by eapply loop_yields_app].
Qed.
Lemma item_nl s : item_reads nl s s.
Proof. exists [Newline]. split; [apply prints_nl|apply loop_yields_newline]. Qed.

(** A line that the directive [key] reads. *)
Definition directive_reads (line : Str) (s s' : S) : Prop :=
  exists key K, line_reads line (Word key :: K) /\ forall n, yields (d key n s) (K ++ [Newline]) s'.
Lemma item_line line s s' : directive_reads line s s' -> item_reads (writeln (str "  " ++ line)) s s'.
Proof.
  intros (key & K & Hl & Hd). exists ((Word key :: K) ++ [Newline]). split; [by apply prints_line, line_indented|].
  by apply loop_yields_item.
Qed.
Lemma item_each {A} (f : A -> Str) (step : S -> A -> S) (l : list A) : forall s,
  (forall s a, a ∈ l -> directive_reads (f a) s (step s a)) ->
  item_reads (each (fun a => writeln (str "  " ++ f a)) l) s (fold_left step l s).
Proof.
  induction l as [|a l IH]; intros s Hl; [apply item_nil|]. apply (item_app _ _ _ (step s a)).
  - apply item_line, Hl. by left.
  - apply IH. intros s' a' Ha. apply Hl. by right.
Qed.
Lemma item_if_some {A} (o : option A) (f : A -> Str) s s' :
  match o with Some a => item_reads (f a) s s' | None => s' = s end -> item_reads (if_some o f) s s'.
Proof. destruct o as [a|]; cbn [if_some]; [done|]. intros ->. apply item_nil. Qed.
End block.

(** A block as printed: its header, what the parser of the block reads. *)
Definition block_reads {A} (t : Str) (hd : list TokenKind) (p : parser A) (a : A) : Prop :=
  exists K, block_prints t (hd ++ OpenBrace :: K ++ [Newline]) /\ yields p K a.

Definition items_close {S} open_msg (d : Str -> nat -> S -> parser S) (T : Str) (s s' : S) : Prop :=
  exists t, T = t ++ str "}" /\ item_reads open_msg d t s s'.
Lemma items_end {S} open_msg (d : Str -> nat -> S -> parser S) s : items_close open_msg d (str "}") s s.
Proof. exists []. split; [done|apply item_nil]. Qed.
Lemma items_more {S} open_msg (d : Str -> nat -> S -> parser S) t T s s1 s2 :
  item_reads open_msg d t s s1 -> items_close open_msg d T s1 s2 -> items_close open_msg d (t ++ T) s s2.
Proof. intros H1 (t' & -> & H2). exists (t ++ t'). split; [by rewrite app_assoc|by eapply item_app]. Qed.

Lemma block_plain {S} open_msg (d : Str -> nat -> S -> parser S) T header hd s s' :
  line_reads header (hd ++ [OpenBrace]) -> items_close open_msg d T s s' ->
  block_reads (writeln header ++ T) hd (parse_block last_line open_msg d s) s'.
Proof.
  intros Hh (t & -> & K & Hp & Hl). exists (Newline :: K ++ [CloseBrace]). split.
  - exists (writeln header ++ t), (((hd ++ [OpenBrace]) ++ [Newline]) ++ K).
    split_and!; [by rewrite <- app_assoc| |rewrite <- !app_assoc; cbn [app]; by rewrite <- ?app_assoc].
    apply prints_app; [by apply prints_line|done].
  - apply (yields_block open_msg d s (Newline :: K)). apply (loop_yields_app _ _ _ s _ [Newline]); [apply loop_yields_newline|done].
Qed.
Lemma block_of_items {S A} open_msg (d : Str -> nat -> S -> parser S) T header hd s s' (f : S -> parser A) a :
  line_reads header (hd ++ [OpenBrace]) -> items_close open_msg d T s s' -> yields (f s') [] a ->
  block_reads (writeln header ++ T) hd (parse_block last_line open_msg d s ≫= f) a.
Proof.
  intros Hh Hi Hf. destruct (block_plain open_msg d T header hd s s' Hh Hi) as (K & Hp & Hy). exists K. split; [done|].
  by apply (yields_last _ _ _ s').
Qed.

(** An indented block as an item of another. *)
Lemma item_block {S A} open_msg (d : Str -> nat -> S -> parser S) t key hd (p : parser A) a s s' :
  block_reads t (Word key :: hd) p a ->
  (forall n K, yields p K a -> yields (d key n s) (hd ++ OpenBrace :: K) s') ->
  item_reads open_msg d (indent t) s s'.
Proof.
  intros (K & Hp & Hy) Hd. eexists. split; [by apply prints_indent|].
  replace ((Word key :: hd) ++ OpenBrace :: K ++ [Newline]) with ((Word key :: (hd ++ OpenBrace :: K)) ++ [Newline])
    by (cbn; by rewrite <- app_assoc).
  eapply loop_yields_app; [|apply loop_yields_newline]. apply loop_yields_item. intros n. by apply Hd.
Qed.
End parsers.

(** * The configuration language: a printed file is read back

    What a tree must satisfy to survive: words where the language prints bare
    words, no quotes and line ends in what it quotes, numbers in their types.
    Then one lemma per construct, from its printed lines to its parser. *)

#[local] Opaque braced named word_or any_word parse_block.

(** ** Lines by computation *)
(** Comparisons of closed keywords. *)
Ltac eval_keys :=
  repeat match goal with
  | |- context [str_eqb ?a (str ?b)] =>
      lazymatch a with dec _ => fail | _ => idtac end;
      let r := eval vm_compute in (str_eqb a (str b)) in
      match r with true => idtac | false => idtac end;
      change (str_eqb a (str b)) with r
  end; cbv iota; cbn [orb negb].

Lemma digits_word s : s <> [] -> digits s -> word_ok s.
Proof.
  intros Hne Hs. split; [done|]. eapply Forall_impl; [exact Hs|]. intros c Hc%is_digit_range.
  unfold plain, ends_word, is_whitespace, CHAR_QUOTE, CHAR_COMMENT, CHAR_OPENING_BRACE, CHAR_CLOSING_BRACE. lia.
Qed.
Lemma dec_word n : 0 <= n -> word_ok (dec n).
Proof. intros Hn. apply digits_word; [apply dec_not_nil|by apply dec_digits]. Qed.
Lemma ipv4_word a : word_ok (show_ipv4 a).
Proof.
  assert (forall i, Forall (fun c => plain c = true) (dec (ipv4_octet a i))) as Ho.
  { intros i. apply dec_word. unfold ipv4_octet. apply Z.mod_pos_bound. lia. }
  split.
  - unfold show_ipv4. pose proof (dec_not_nil (ipv4_octet a 3)). by destruct (dec (ipv4_octet a 3)).
  - unfold show_ipv4. repeat (apply Forall_app; split); try apply Ho; by apply Forall_singleton.
Qed.

(** A line of closed text and words: [reads_line] finds its tokens. *)
Ltac reads_closed := apply reads_lit; [vm_compute; reflexivity|vm_compute; reflexivity].
Ltac starts_with_blank := first [by left | right; eexists; reflexivity].
(** Cuts the tokens where the literal at the front of the line ends. *)
Ltac cut_literal :=
  lazymatch goal with
  | |- reads (str ?lit ++ ?s) ?K =>
      let n := eval vm_compute in (length (lex (str lit))) in
      let k := eval cbn [take] in (take n K) in
      let ks := eval cbn [drop] in (drop n K) in
      change (reads (str lit ++ s) (k ++ ks))
  end.
Ltac reads_line :=
  lazymatch goal with
  | |- reads (str _) _ => reads_closed
  | |- reads (str _ ++ _) _ =>
      cut_literal; apply reads_lit_then; [vm_compute; reflexivity|vm_compute; reflexivity|vm_compute; reflexivity|reads_line]
  | |- reads (_ ++ _) _ => apply reads_word_then; [assumption|starts_with_blank|reads_line]
  | |- reads _ _ => apply reads_word; assumption
  end.

(** ** Settings *)
Definition sys_ok (v : Str) : Prop := v <> [] /\ quotable v.
Definition setting_ok (s : Setting) : Prop :=
  match s with
  | SAsn v | SRemoteAs v => u32 v
  | SRouterId v | SClusterId v => u32 v
  | SListenAddr v | SGrpcListenAddr v | SLogLevel v | SInterface v | SMd5KeyFile v => word_ok v
  | SSysName v | SSysDescr v => sys_ok v
  | SHoldTime v | SConnectRetry v | SEnhancedRrStaleTtl v | SDelayOpenTimeSecs v | SIdleHoldTimeSecs v
  | SMinRouteAdvertisementIntervalSecs v => u64 v
  | SPort v => u16 v
  | STtlMin v => u8 v
  | SOriginate r => word_ok (og_prefix r) /\ word_ok (og_nexthop r)
  | _ => True
  end.
Definition is_originate (s : Setting) : bool := match s with SOriginate _ => true | _ => false end.

(** The words that start a block of the body, or a route. *)
Definition body_keyword (key : Str) : bool :=
  existsb (str_eqb key) (map str ["peer"; "policy"; "prefix-list"; "neighbor-set"; "as-path-set"; "community-set"; "ext-community-set";
    "large-community-set"; "bmp-server"; "rpki-cache"; "bgp-ls"; "telemetry"; "originate"; "family"]%string).


Lemma quote_if_needed_ok v : sys_ok v ->
  (quote_if_needed v = v /\ word_ok v) \/ quote_if_needed v = CHAR_QUOTE :: v ++ [CHAR_QUOTE].
Proof.
  intros [Hne Hq]. unfold quote_if_needed. destruct (existsb needs_quotes v) eqn:E.
  - right. assert (filter (fun c => c <> CHAR_QUOTE) v = v) as ->; [|done]. clear -Hq.
    apply (filter_all (fun c => c <> CHAR_QUOTE) v). eapply Forall_impl; [exact Hq|]. intros c (_ & _ & Hc). done.
  - left. split; [done|]. split; [done|]. apply Forall_forall. intros c Hc. destruct (needs_quotes c) eqn:En.
    + assert (existsb needs_quotes v = true) by (apply existsb_exists; exists c; split; [by apply list_elem_of_In|done]). congruence.
    + unfold needs_quotes in En. unfold plain, ends_word. destruct (is_whitespace c), (c =? CHAR_QUOTE), (c =? CHAR_COMMENT),
        (c =? CHAR_OPENING_BRACE), (c =? CHAR_CLOSING_BRACE); done.
Qed.

(** A setting's line: a key that starts no block, and a value it parses. *)
Definition setting_line (line : Str) (s : Setting) : Prop :=
  exists key val, line_reads line [Word key; Word val] /\ setting_parse key (Some val) = inr s /\ body_keyword key = false.

Lemma setting_line_word lit key v s :
  forallb line_char lit = true -> last lit = Some 32 -> lex lit = [Word key] -> body_keyword key = false -> word_ok v ->
  setting_parse key (Some v) = inr s -> setting_line (lit ++ v) s.
Proof.
  intros Hc Hl Hk Hb Hv Hs. exists key, v. split_and!; [|done|done]. apply line_of_reads, (reads_lit_then lit v [Word key] [Word v]); [done..|].
  by apply reads_word.
Qed.
Lemma setting_line_sys lit key v s :
  forallb line_char lit = true -> last lit = Some 32 -> lex lit = [Word key] -> body_keyword key = false -> sys_ok v ->
  setting_parse key (Some v) = inr s -> setting_line (lit ++ quote_if_needed v) s.
Proof.
  intros Hc Hl Hk Hb Hv Hs. destruct (quote_if_needed_ok v Hv) as [[-> Hw]| ->]; [by eapply setting_line_word|].
  exists key, v. split_and!; [|done|done]. apply (line_quoted lit [Word key] v); [by apply reads_lit|by apply last_blank|by destruct Hv].
Qed.

Lemma bool_word b : word_ok (show_bool b).
Proof. destruct b; (split; [done|]); vm_compute; repeat constructor. Qed.

Lemma from_uint_dec max n : 0 <= n <= max -> n < 10 ^ 20 -> from_uint max (dec n) = inr n.
Proof. intros Hn H20. unfold from_uint. by rewrite parse_uint_dec. Qed.
Lemma from_bool_show b : from_bool (show_bool b) = inr b.
Proof. by destruct b. Qed.
Lemma from_show_ipv4 a : u32 a -> from_ipv4 (show_ipv4 a) = inr a.
Proof. intros Ha. unfold from_ipv4. by rewrite parse_show_ipv4. Qed.

Lemma show_setting_line s : setting_ok s -> is_originate s = false -> setting_line (show_setting s) s.
Proof.
  destruct s; intros Hok Ho; try discriminate Ho; cbn [show_setting];
    (lazymatch goal with
    | |- setting_line (_ ++ quote_if_needed _) _ => eapply setting_line_sys
    | _ => eapply setting_line_word
    end; [vm_compute; reflexivity|vm_compute; reflexivity|vm_compute; reflexivity|vm_compute; reflexivity| |
          unfold setting_parse; eval_keys; unfold parse_value]).
  all: lazymatch goal with
    | |- word_ok (dec _) => apply dec_word; cbn [setting_ok] in Hok; unfold u8, u16, u32, u64 in Hok; lia
    | |- word_ok (show_ipv4 _) => apply ipv4_word
    | |- word_ok (show_bool _) => apply bool_word
    | |- word_ok _ => exact Hok
    | |- sys_ok _ => exact Hok
    | |- context [from_bool] => by rewrite from_bool_show
    | |- context [from_ipv4] => by rewrite from_show_ipv4
    | |- context [from_string] => reflexivity
    | _ => unfold from_u8, from_u16, from_u32, from_u64;
           rewrite from_uint_dec by (cbn [setting_ok] in Hok; unfold u8, u16, u32, u64 in Hok; lia); reflexivity
    end.
Qed.

(** ** Peers *)
Definition directive_ok (d : FamilyDirective) : Prop :=
  match d with
  | ExportPolicy name | ImportPolicy name => word_ok name
  | MaxPrefix limit _ => u32 limit
  | AddPathSendDirective _ => True
  end.
Definition family_ok (b : FamilyBlock) : Prop := Forall directive_ok (fb_directives b).
Definition peer_ok (b : PeerBlock) : Prop :=
  word_ok (pb_address b) /\ Forall (fun s => setting_ok s /\ is_originate s = false) (pb_settings b) /\ Forall family_ok (pb_families b).

Lemma fold_snoc {A} (l : list A) : forall acc, fold_left (fun acc x => acc ++ [x]) l acc = acc ++ l.
Proof. induction l as [|x l IH]; intros acc; cbn [fold_left]; [by rewrite app_nil_r|]. by rewrite IH, <- app_assoc. Qed.

(** The field [get] of a block, extended one entry at a time. *)
Lemma fold_field {S A} (get : S -> list A) (upd : list A -> S -> S) (l : list A) :
  (forall v s, get (upd v s) = v) -> (forall v w s, upd v (upd w s) = upd v s) -> (forall s, upd (get s) s = s) ->
  forall s, fold_left (fun s x => upd (get s ++ [x]) s) l s = upd (get s ++ l) s.
Proof.
  intros H1 H2 H3. induction l as [|x l IH]; intros s; cbn [fold_left]; [by rewrite app_nil_r, H3|].
  by rewrite IH, H1, H2, <- app_assoc.
Qed.

(** Follows a parser along the tokens; numbers are in range by [lia]. *)
Ltac yields_step :=
  first
    [ apply yields_ret_then
    | apply yields_word_or_then; eval_keys
    | apply yields_any_word_then; eval_keys
    | apply yields_take_word_then
    | apply yields_finish_then
    | apply yields_uint_then; [lia|lia|]
    | apply yields_peek; eval_keys
    | apply yields_ret
    | apply yields_assoc ].
Ltac yields_run := cbn [app]; repeat yields_step.

(** Rewrites with what a key is not. *)
Ltac not_keyword Hk :=
  unfold body_keyword in Hk; cbn [map existsb] in Hk; rewrite !orb_false_iff in Hk;
  repeat match type of Hk with (?a = false) /\ _ => let H := fresh in destruct Hk as [H Hk]; rewrite ?H end.

Section parsers.
Variable last_line : nat.

Lemma item_each_gen {S A} msg (d : Str -> nat -> S -> parser S) (f : A -> Str) (step : S -> A -> S) (l : list A) : forall s,
  (forall s a, a ∈ l -> item_reads last_line msg d (f a) s (step s a)) -> item_reads last_line msg d (each f l) s (fold_left step l s).
Proof.
  induction l as [|a l IH]; intros s Hl; [apply item_nil|]. eapply item_app; [apply Hl; by left|].
  apply IH. intros s' a' Ha. apply Hl. by right.
Qed.

Lemma family_directive_reads ds d : directive_ok d -> directive_reads (family_directive last_line) (show_directive d) ds (ds ++ [d]).
Proof.
  destruct d as [name|name|limit [|]|[|]]; intros Hok; cbn [directive_ok] in Hok; cbn [show_directive];
    try (unfold u32 in Hok; pose proof (dec_word limit ltac:(lia))).
  - exists (str "export"), [Word (str "policy"); Word name]. split; [apply line_of_reads; reads_line|].
    intros n. unfold family_directive, parse_policy_directive. eval_keys. yields_run.
  - exists (str "import"), [Word (str "policy"); Word name]. split; [apply line_of_reads; reads_line|].
    intros n. unfold family_directive, parse_policy_directive. eval_keys. yields_run.
  - exists (str "max-prefix"), [Word (dec limit)]. split; [apply line_of_reads; reads_line|].
    intros n. unfold family_directive, parse_max_prefix. eval_keys. yields_run.
  - exists (str "max-prefix"), [Word (dec limit); Word (str "action"); Word (str "discard")]. split; [apply line_of_reads; reads_line|].
    intros n. unfold family_directive, parse_max_prefix. eval_keys. yields_run.
  - exists (str "add-path-send"), [Word (str "all")]. split; [apply line_of_reads; reads_line|].
    intros n. unfold family_directive, parse_add_path_send. eval_keys. yields_run.
  - exists (str "add-path-send"), [Word (str "disabled")]. split; [apply line_of_reads; reads_line|].
    intros n. unfold family_directive, parse_add_path_send. eval_keys. yields_run.
Qed.

Lemma setting_reads {S} (d : Str -> nat -> S -> parser S) (f : Setting -> S -> parser S) line s s0 s1 :
  setting_line line s ->
  (forall key n, body_keyword key = false -> d key n s0 = (setting ← parse_setting key n; f setting s0)) -> yields (f s s0) [] s1 ->
  directive_reads d line s0 s1.
Proof.
  intros (key & val & Hl & Hp & Hk) Hd Hf. exists key, [Word val]. split; [done|]. intros n. rewrite Hd by done.
  apply (yields_last _ _ _ s); [|done]. unfold parse_setting.
  apply (yields_bind _ _ [Word val] [Newline] (Some val)); [apply yields_take_word|].
  apply (yields_last _ _ _ ()); [apply yields_finish|]. rewrite Hp. apply yields_ret.
Qed.
(** The statements of one list, each on its line. *)
Lemma items_list {A} msg (d : Str -> nat -> list A -> parser (list A)) (f : A -> Str) (l : list A) :
  (forall acc a, a ∈ l -> directive_reads d (f a) acc (acc ++ [a])) ->
  items_close last_line msg d (each (fun a => writeln (str "  " ++ f a)) l ++ str "}") [] l.
Proof.
  intros Hl. apply (items_more _ _ _ _ _ _ l); [|apply items_end].
  pose proof (item_each last_line msg d f (fun acc a => acc ++ [a]) l []) as H. rewrite fold_snoc in H. by apply H.
Qed.
(** The same for a field of a block. *)
Lemma item_field {S A} msg (d : Str -> nat -> S -> parser S) (get : S -> list A) (upd : list A -> S -> S) (f : A -> Str) (l : list A) s s' :
  (forall v s, get (upd v s) = v) -> (forall v w s, upd v (upd w s) = upd v s) -> (forall s, upd (get s) s = s) ->
  (forall s a, a ∈ l -> item_reads last_line msg d (f a) s (upd (get s ++ [a]) s)) ->
  upd (get s ++ l) s = s' -> item_reads last_line msg d (each f l) s s'.
Proof.
  intros H1 H2 H3 Hl <-. pose proof (item_each_gen msg d f (fun s x => upd (get s ++ [x]) s) l s Hl) as H.
  by rewrite (fold_field get upd l H1 H2 H3) in H.
Qed.

Lemma family_reads b : family_ok b ->
  block_reads (show_family b) [Word (str "family"); Word (afi_config_str (fb_afi b)); Word (safi_config_str (fb_safi b))]
    (parse_family_block last_line (fb_afi b) (fb_safi b)) b.
Proof.
  intros Hok. apply (block_of_items last_line _ _ _ _ _ [] (fb_directives b)).
  - apply line_of_reads. destruct (fb_afi b), (fb_safi b); reads_closed.
  - apply items_list. intros ds d Hd. apply family_directive_reads. unfold family_ok in Hok. rewrite Forall_forall in Hok. by apply Hok.
  - destruct b. apply yields_ret.
Qed.

Lemma afi_from_config a : afi_from_str (afi_config_str a) = Some a.
Proof. by destruct a. Qed.
Lemma safi_from_config s : safi_from_str (safi_config_str s) = Some s.
Proof. by destruct s. Qed.

Lemma peer_reads b : peer_ok b ->
  block_reads (show_peer b) [Word (str "peer"); Word (pb_address b)] (parse_peer_block last_line (pb_address b)) b.
Proof.
  intros (Ha & Hs & Hf). apply block_plain; [apply line_of_reads; reads_line|]. rewrite Forall_forall in Hs. rewrite Forall_forall in Hf.
  apply (items_more _ _ _ _ _ _ (mkPeerBlock (pb_address b) (pb_settings b) [])).
  - apply (item_field _ _ pb_settings (fun v s => mkPeerBlock (pb_address s) v (pb_families s))); [done|done|by intros []| |done].
    intros s x Hx. destruct (Hs x Hx) as [Hok Ho]. apply item_line.
    apply (setting_reads _ (fun setting s => mret (mkPeerBlock (pb_address s) (pb_settings s ++ [setting]) (pb_families s))) _ x);
      [by apply show_setting_line| |apply yields_ret].
    intros key n Hk. unfold peer_directive. by not_keyword Hk.
  - apply (items_more _ _ _ _ _ _ b); [|apply items_end].
    apply (item_field _ _ pb_families (fun v s => mkPeerBlock (pb_address s) (pb_settings s) v)); [done|done|by intros []| |by destruct b].
    intros s f Hin. eapply item_app; [apply item_nl|]. eapply item_block; [by apply family_reads, Hf|].
    intros n K HK. unfold peer_directive. eval_keys. yields_run.
    rewrite afi_from_config. yields_run. rewrite safi_from_config. yields_run.
    apply (yields_last _ _ _ f); [by apply yields_braced|]. yields_run.
Qed.
End parsers.
