(* ===== verification/LangPolicy.v ===== *)
(** * The configuration language: policies and sets are read back *)
From S2P Require Import Prelude Net BgpLs Attrs Text LangBgp LangBgpParse LangSpec.

#[local] Opaque braced named word_or any_word parse_block.

(** ** Policies *)
Definition match_set_ref_ok (r : MatchSetRef) : Prop := word_ok (ms_set_name r).
Definition match_clause_ok (c : MatchClause) : Prop :=
  match c with
  | McPrefixSet r | McNeighborSet r | McAsPathSet r | McCommunitySet r | McExtCommunitySet r | McLargeCommunitySet r => match_set_ref_ok r
  | McPrefix s | McNeighbor s | McRouteType s | McCommunity s | McAfiSafi s | McLsNlriType s | McLsProtocolId s | McLsNodeRouterId s => word_ok s
  | McHasAsn v | McLsNodeAs v => u32 v
  | McLsInstanceId v => u64 v
  | McRpki _ => True
  end.
Definition community_op_ok (op : CommunityOp) : Prop := Forall word_ok (co_values op).
Definition set_clause_ok (c : SetClause) : Prop :=
  match c with
  | ScLocalPref v _ | ScMed (MedTo v) => u32 v
  | ScMed MedRemove | ScSetRpkiState _ => True
  | ScCommunity op | ScExtCommunity op | ScLargeCommunity op => community_op_ok op
  end.
Definition statement_ok (b : StatementBlock) : Prop :=
  match sb_name b with Some name => word_ok name | None => True end /\ Forall match_clause_ok (sb_matches b) /\ Forall set_clause_ok (sb_sets b).
Definition rule_ok (r : PolicyRule) : Prop :=
  match r with
  | PrMatch set_name action => word_ok set_name /\ word_ok action
  | PrDefault action => word_ok action
  | PrStatement b => statement_ok b
  end.
Definition policy_ok (b : PolicyBlock) : Prop := word_ok (po_name b) /\ Forall rule_ok (po_rules b).

Definition match_set_ref_kinds (r : MatchSetRef) : list TokenKind :=
  Word (ms_set_name r) :: match ms_option r with MatchAny => [] | MatchAll => [Word (str "all")] | MatchInvert => [Word (str "invert")] end.
Lemma match_set_ref_line r : match_set_ref_ok r -> reads (show_match_set_ref r) (match_set_ref_kinds r).
Proof. destruct r as [name []]; unfold match_set_ref_ok; cbn; intros Hok; unfold show_match_set_ref, match_set_ref_kinds; cbn; reads_line. Qed.

(** A quoted word alone on its line. *)
Lemma line_quoted_word q : quotable q -> line_reads (CHAR_QUOTE :: q ++ [CHAR_QUOTE]) [Word q].
Proof.
  intros Hq. destruct (line_quoted [32] [] q) as [Hn Hl]; [by apply reads_lit|by exists []|done|]. split.
  - by apply Forall_cons in Hn as [_ Hn].
  - unfold strip_comment in *. cbn [app strip_comment_from] in Hl. change (32 =? CHAR_QUOTE) with false in Hl.
    change (32 =? CHAR_COMMENT) with false in Hl. cbn [andb] in Hl. rewrite lex_ws in Hl by done. done.
Qed.

(** A number is none of the keywords that may stand in its place. *)
Lemma dec_not_word v w : 0 <= v -> (match str w with c :: _ => is_digit c | [] => true end) = false -> str_eqb (dec v) (str w) = false.
Proof.
  intros Hv Hw. destruct (str_eqb (dec v) (str w)) eqn:E; [|done]. apply str_eqb_eq in E. pose proof (dec_digits v Hv) as Hd. rewrite E in Hd.
  destruct (str w) as [|c s]; [done|]. apply Forall_cons in Hd as [Hc _]. congruence.
Qed.

Section parsers.
Variable last_line : nat.

Lemma match_set_ref_yields {B} n r (f : MatchSetRef -> parser B) b :
  yields (f r) [Newline] b -> yields (parse_match_set_ref last_line n ≫= f) (match_set_ref_kinds r ++ [Newline]) b.
Proof.
  destruct r as [name []]; intros Hf; unfold parse_match_set_ref, match_set_ref_kinds; cbn [ms_set_name ms_option]; yields_run; exact Hf.
Qed.
Lemma rpki_yields {B} n v (f : RpkiValidationKind -> parser B) K b :
  yields (f v) K b -> yields (parse_rpki_validation last_line n ≫= f) (Word (rpki_validation_to_str v) :: K) b.
Proof. intros Hf. unfold parse_rpki_validation. destruct v; cbn [rpki_validation_to_str]; yields_run; exact Hf. Qed.
Lemma rpki_word v : word_ok (rpki_validation_to_str v).
Proof. destruct v; (split; [done|]); apply (bool_decide_unpack _); vm_compute; exact I. Qed.
Lemma number_yields {B} max name n v (f : Z -> parser B) K b :
  0 <= v <= max -> v < 10 ^ 20 -> yields (f v) K b -> yields (number_clause last_line max name n ≫= f) (Word (dec v) :: K) b.
Proof. intros Hv H20 Hf. unfold number_clause. yields_run. exact Hf. Qed.

(** A clause after its first word: what its line has, and that it is read. *)
Definition clause_reads {A} (read : Str -> nat -> parser A) (first : Str) (line : Str) (c : A) : Prop :=
  exists kind K, reads line (Word first :: Word kind :: K) /\
    forall n B (f : A -> parser B) b, yields (f c) [Newline] b -> yields (read kind n ≫= f) (K ++ [Newline]) b.

Lemma match_set_ref_clause lit kind make r :
  match_set_ref_ok r -> forallb line_char lit = true -> last lit = Some 32 -> lex lit = [Word (str "match"); Word kind] ->
  (forall n, match_clause_of last_line kind n = (r ← parse_match_set_ref last_line n; mret (make r))) ->
  clause_reads (match_clause_of last_line) (str "match") (lit ++ show_match_set_ref r) (make r).
Proof.
  intros Hok Hc Hl Hk Hof. exists kind, (match_set_ref_kinds r). split.
  - apply (reads_lit_then lit _ [Word (str "match"); Word kind]); [done..|]. by apply match_set_ref_line.
  - intros n B f b Hf. rewrite Hof. apply yields_assoc, match_set_ref_yields. by yields_run.
Qed.
Lemma text_clause lit kind make s :
  word_ok s -> forallb line_char lit = true -> last lit = Some 32 -> lex lit = [Word (str "match"); Word kind] ->
  (forall n, match_clause_of last_line kind n = (s ← any_word last_line; mret (make s))) ->
  clause_reads (match_clause_of last_line) (str "match") (lit ++ s) (make s).
Proof.
  intros Hok Hc Hl Hk Hof. exists kind, [Word s]. split.
  - apply (reads_lit_then lit _ [Word (str "match"); Word kind]); [done..|]. by apply reads_word.
  - intros n B f b Hf. rewrite Hof. cbn [app]. yields_run. exact Hf.
Qed.
Lemma number_clause_reads lit kind max make v :
  0 <= v <= max -> v < 10 ^ 20 -> forallb line_char lit = true -> last lit = Some 32 -> lex lit = [Word (str "match"); Word kind] ->
  (forall n, match_clause_of last_line kind n = (v ← number_clause last_line max kind n; mret (make v))) ->
  clause_reads (match_clause_of last_line) (str "match") (lit ++ dec v) (make v).
Proof.
  intros Hv H20 Hc Hl Hk Hof. exists kind, [Word (dec v)]. split.
  - apply (reads_lit_then lit _ [Word (str "match"); Word kind]); [done..|]. apply reads_word, dec_word; lia.
  - intros n B f b Hf. rewrite Hof. cbn [app]. apply yields_assoc. apply number_yields; [done..|]. yields_run. exact Hf.
Qed.

Lemma match_clause_reads c : match_clause_ok c -> clause_reads (match_clause_of last_line) (str "match") (show_match_clause c) c.
Proof.
  destruct c; cbn [match_clause_ok show_match_clause]; intros Hok; unfold u32, u64 in *;
    lazymatch goal with
    | |- clause_reads _ _ (_ ++ show_match_set_ref _) _ =>
        eapply match_set_ref_clause; [exact Hok|vm_compute; reflexivity..|intros n; unfold match_clause_of; eval_keys; reflexivity]
    | |- clause_reads _ _ (_ ++ dec _) _ =>
        eapply number_clause_reads; [|lia|vm_compute; reflexivity..|intros n; unfold match_clause_of; eval_keys; reflexivity]; lia
    | |- clause_reads _ _ (_ ++ rpki_validation_to_str ?v) _ =>
        exists (str "rpki"), [Word (rpki_validation_to_str v)]; split;
          [pose proof (rpki_word v); reads_line|
           intros n B f b Hf; unfold match_clause_of; eval_keys; cbn [app]; apply yields_assoc, rpki_yields; yields_run; exact Hf]
    | _ => eapply text_clause; [exact Hok|vm_compute; reflexivity..|intros n; unfold match_clause_of; eval_keys; reflexivity]
    end.
Qed.

(** *** Actions *)
Lemma words_app ws : forall ts R, kinds ts = map Word ws ++ Newline :: R -> exists n ts', words_in ts = (ws, mkToken Newline n :: ts') /\ kinds ts' = R.
Proof.
  induction ws as [|w ws IH]; intros ts R E; destruct (kinds_cons ts _ _ E) as (n & ts' & -> & E').
  - by exists n, ts'.
  - destruct (IH ts' R E') as (m & ts2 & E2 & R2). exists m, ts2. split; [|done]. cbn [words_in]. by rewrite E2.
Qed.
Lemma rest_words_yields {B} ws (f : list Str -> parser B) b :
  yields (f ws) [Newline] b -> yields (rest_words ≫= f) (map Word ws ++ [Newline]) b.
Proof.
  intros Hf ts R E. rewrite <- app_assoc in E. destruct (words_app ws ts R E) as (n & ts' & E' & R').
  destruct (Hf (mkToken Newline n :: ts') R) as (ts2 & E2 & R2); [by cbn; f_equal|]. exists ts2. split; [|done].
  unfold rest_words, mbind, parser_bind. by rewrite E'.
Qed.

Definition community_kinds (op : CommunityOp) : list TokenKind := Word (community_op_to_str (co_op op)) :: map Word (co_values op).
Lemma community_yields {B} n op (f : CommunityOp -> parser B) b :
  yields (f op) [Newline] b -> yields (parse_community_op last_line n ≫= f) (community_kinds op ++ [Newline]) b.
Proof.
  intros Hf. destruct op as [op ws]. unfold parse_community_op, community_kinds.
  destruct op; cbn [co_op co_values community_op_to_str]; yields_run; apply rest_words_yields; yields_run; exact Hf.
Qed.

Lemma words_reads ws : Forall word_ok ws -> reads (each (fun v => str " " ++ v) ws) (map Word ws) /\ starts_blank (each (fun v => str " " ++ v) ws).
Proof.
  induction 1 as [|w ws Hw _ [IH IHb]]; [split; [apply reads_nil|by left]|]. split; [|right; by eexists].
  unfold each. cbn [map concat]. rewrite <- app_assoc. apply (reads_lit_then (str " ") _ [] (Word w :: map Word ws)); [done..|].
  by apply reads_word_then.
Qed.
Lemma community_reads keyword op : reads keyword [Word keyword] -> community_op_ok op ->
  reads (show_community_set keyword op) (Word (str "set") :: Word keyword :: community_kinds op).
Proof.
  intros Hk Hok. destruct (words_reads (co_values op) Hok) as [Hws Hb]. unfold show_community_set, community_kinds.
  apply (reads_lit_then (str "set ") _ [Word (str "set")]); [done..|].
  apply (reads_app keyword _ [Word keyword]); [done| |by right; right; eexists].
  apply (reads_lit_then (str " ") _ []); [done..|]. apply reads_word_then; [|done|done].
  destruct (co_op op); (split; [done|]); apply (bool_decide_unpack _); vm_compute; exact I.
Qed.
Lemma community_clause keyword make op :
  community_op_ok op -> reads keyword [Word keyword] ->
  (forall n, set_clause_of last_line keyword n = (op ← parse_community_op last_line n; mret (make op))) ->
  clause_reads (set_clause_of last_line) (str "set") (show_community_set keyword op) (make op).
Proof.
  intros Hok Hk Hof. exists keyword, (community_kinds op). split; [by apply community_reads|].
  intros n B f b Hf. rewrite Hof. apply yields_assoc, community_yields. yields_run. exact Hf.
Qed.

Lemma set_clause_reads c : set_clause_ok c -> clause_reads (set_clause_of last_line) (str "set") (show_set_clause c) c.
Proof.
  destruct c as [v force|[v|]|op|op|op|v]; cbn [set_clause_ok]; intros Hok; unfold u32 in *; try pose proof (dec_word v ltac:(lia)).
  - destruct force; cbn [show_set_clause].
    + exists (str "local-pref"), [Word (str "force"); Word (dec v)]. split; [reads_line|].
      intros n B f b Hf. unfold set_clause_of, parse_local_pref. eval_keys. yields_run. exact Hf.
    + exists (str "local-pref"), [Word (dec v)]. split; [reads_line|].
      intros n B f b Hf. unfold set_clause_of, parse_local_pref. eval_keys. yields_run. 
      rewrite dec_not_word by (lia || done). yields_run. exact Hf.
  - exists (str "med"), [Word (dec v)]. split; [cbn [show_set_clause]; reads_line|].
    intros n B f b Hf. unfold set_clause_of, parse_med. eval_keys. yields_run. rewrite dec_not_word by (lia || done). yields_run. exact Hf.
  - exists (str "med"), [Word (str "remove")]. split; [cbn [show_set_clause]; reads_line|].
    intros n B f b Hf. unfold set_clause_of, parse_med. eval_keys. yields_run. exact Hf.
  - apply (community_clause (str "community") ScCommunity); [done|reads_closed|]. intros n. unfold set_clause_of. by eval_keys.
  - apply (community_clause (str "ext-community") ScExtCommunity); [done|reads_closed|]. intros n. unfold set_clause_of. by eval_keys.
  - apply (community_clause (str "large-community") ScLargeCommunity); [done|reads_closed|]. intros n. unfold set_clause_of. by eval_keys.
  - exists (str "rpki-state"), [Word (rpki_validation_to_str v)]. pose proof (rpki_word v). split; [cbn [show_set_clause]; reads_line|].
    intros n B f b Hf. unfold set_clause_of. eval_keys. cbn [app]. apply yields_assoc, rpki_yields. yields_run. exact Hf.
Qed.

(** *** Statements *)
Lemma clause_directive {A S} (read : Str -> nat -> parser A) word line (c : A) (d : Str -> nat -> S -> parser S) s s' :
  clause_reads read word line c ->
  (forall n kind K, (forall B (f : A -> parser B) b, yields (f c) [Newline] b -> yields (read kind n ≫= f) (K ++ [Newline]) b) ->
    yields (d word n s) (Word kind :: K ++ [Newline]) s') ->
  directive_reads d line s s'.
Proof.
  intros (kind & K & Hl & Hy) Hd. exists word, (Word kind :: K). split; [by apply line_of_reads|]. intros n. apply Hd. intros B f b. apply Hy.
Qed.

Lemma match_reads b c : match_clause_ok c ->
  directive_reads (statement_directive last_line) (show_match_clause c) b
    (mkStatementBlock (sb_name b) (sb_matches b ++ [c]) (sb_sets b) (sb_disposition b)).
Proof.
  intros Hok. apply (clause_directive _ _ _ c _ _ _ (match_clause_reads c Hok)). intros n kind K Hy.
  unfold statement_directive, parse_match_clause. eval_keys. apply yields_assoc, yields_word_or_then, yields_assoc, Hy. yields_run.
Qed.
Lemma set_reads b c : set_clause_ok c ->
  directive_reads (statement_directive last_line) (show_set_clause c) b
    (mkStatementBlock (sb_name b) (sb_matches b) (sb_sets b ++ [c]) (sb_disposition b)).
Proof.
  intros Hok. apply (clause_directive _ _ _ c _ _ _ (set_clause_reads c Hok)). intros n kind K Hy.
  unfold statement_directive, parse_set_clause. eval_keys. apply yields_assoc, yields_word_or_then, yields_assoc, Hy. yields_run.
Qed.
Lemma disposition_reads b d : sb_disposition b = None ->
  directive_reads (statement_directive last_line) (match d with DAccept => str "accept" | DReject => str "reject" end) b
    (mkStatementBlock (sb_name b) (sb_matches b) (sb_sets b) (Some d)).
Proof.
  intros Hb. exists (match d with DAccept => str "accept" | DReject => str "reject" end), [].
  split; [destruct d; apply line_of_reads; reads_line|]. intros n. destruct d; unfold statement_directive, set_disposition; eval_keys; rewrite Hb; yields_run.
Qed.

Definition statement_header (name : option Str) : list TokenKind := match name with Some name => [Word name] | None => [] end.
Lemma statement_reads b : statement_ok b ->
  block_reads (show_statement b) (Word (str "statement") :: statement_header (sb_name b)) (parse_statement_block last_line (sb_name b)) b.
Proof.
  destruct b as [name ms ss disp]. intros (Hn & Hm & Hs). cbn [sb_name sb_matches sb_sets] in *.
  assert (items_close last_line (str "unexpected '{' inside statement") (statement_directive last_line)
    (each (fun m => writeln (str "  " ++ show_match_clause m)) ms ++ each (fun s => writeln (str "  " ++ show_set_clause s)) ss ++
     if_some disp (fun d => writeln (str "  " ++ match d with DAccept => str "accept" | DReject => str "reject" end)) ++ str "}")
    (mkStatementBlock name [] [] None) (mkStatementBlock name ms ss disp)) as Hi.
  { rewrite Forall_forall in Hm. rewrite Forall_forall in Hs.
    apply (items_more _ _ _ _ _ _ (mkStatementBlock name ms [] None)).
    { apply (item_field last_line _ _ sb_matches (fun v b => mkStatementBlock (sb_name b) v (sb_sets b) (sb_disposition b)));
        [done|done|by intros []| |done]. intros b c Hc. by apply item_line, match_reads, Hm. }
    apply (items_more _ _ _ _ _ _ (mkStatementBlock name ms ss None)).
    { apply (item_field last_line _ _ sb_sets (fun v b => mkStatementBlock (sb_name b) (sb_matches b) v (sb_disposition b)));
        [done|done|by intros []| |done]. intros b c Hc. by apply item_line, set_reads, Hs. }
    apply (items_more _ _ _ _ _ _ (mkStatementBlock name ms ss disp)); [|apply items_end].
    apply item_if_some. destruct disp as [d|]; [|done]. by apply item_line, disposition_reads. }
  unfold show_statement, parse_statement_block. cbn [sb_name sb_matches sb_sets sb_disposition].
  destruct name as [name|]; (apply block_plain; [apply line_of_reads; cbn [statement_header app]; reads_line|exact Hi]).
Qed.

Lemma rule_reads rules r : rule_ok r ->
  item_reads last_line (str "unexpected '{' inside policy") (policy_rule last_line)
    (match r with PrStatement b => indent (show_statement b) | _ => writeln (str "  " ++ show_rule r) end) rules (rules ++ [r]).
Proof.
  destruct r as [set_name action|action|b]; cbn [rule_ok show_rule]; intros Hok.
  - destruct Hok as [H1 H2]. apply item_line. exists (str "match"), [Word set_name; Word action]. split; [apply line_of_reads; reads_line|].
    intros n. unfold policy_rule. eval_keys. yields_run.
  - apply item_line. exists (str "default"), [Word action]. split; [apply line_of_reads; reads_line|].
    intros n. unfold policy_rule. eval_keys. yields_run.
  - eapply item_block; [by apply statement_reads|]. intros n K HK. unfold policy_rule, parse_statement_rule. eval_keys.
    destruct (sb_name b) as [name|]; cbn [statement_header app]; yields_run;
      (apply (yields_last _ _ _ b); [by apply yields_braced|]; yields_run).
Qed.
Lemma policy_reads b : policy_ok b -> block_reads (show_policy b) [Word (str "policy"); Word (po_name b)] (parse_policy_block last_line (po_name b)) b.
Proof.
  intros [Hn Hr]. apply (block_of_items last_line _ _ _ _ _ [] (po_rules b)); [apply line_of_reads; reads_line| |destruct b; apply yields_ret].
  rewrite Forall_forall in Hr. apply (items_more _ _ _ _ _ _ (po_rules b)); [|apply items_end].
  apply (item_field last_line _ _ id (fun v _ => v)); [done..| |done]. intros rules r Hin. by apply rule_reads, Hr.
Qed.

(** ** Sets *)
Definition opt_kinds (w : String.string) (o : option Z) : list TokenKind := match o with Some v => [Word (str w); Word (dec v)] | None => [] end.
Definition range_kinds (r : option MasklengthRange) : list TokenKind :=
  match r with Some Exact => [Word (str "exact")] | Some (Range ge le) => opt_kinds "ge" ge ++ opt_kinds "le" le | None => [] end.
Definition range_ok (r : option MasklengthRange) : Prop :=
  match r with
  | Some (Range ge le) => (ge <> None \/ le <> None) /\ match ge with Some v => u8 v | None => True end /\ match le with Some v => u8 v | None => True end
  | _ => True
  end.

(** The turns of the loop, for one keyword and for the other. *)
Lemma masklength_end fuel n ge le exact ts R : kinds ts = Newline :: R ->
  masklength_loop last_line (S fuel) n ge le exact ts = Ok ((ge, le, exact), ts).
Proof. intros E. by destruct (kinds_cons ts _ _ E) as (m & ts' & -> & _). Qed.
Lemma masklength_ge fuel n v le ts R : kinds ts = Word (str "ge") :: Word (dec v) :: R -> u8 v ->
  exists ts', kinds ts' = R /\ length ts = S (S (length ts')) /\
    masklength_loop last_line (S fuel) n None le false ts = masklength_loop last_line fuel n (Some v) le false ts'.
Proof.
  intros E Hv. unfold u8 in Hv. destruct (kinds_cons ts _ _ E) as (m & ts1 & -> & E1). destruct (kinds_cons ts1 _ _ E1) as (m2 & ts2 & -> & E2).
  exists ts2. split_and!; [done|done|]. cbn [masklength_loop]. eval_keys. unfold uint_or, mbind, parser_bind. cbn [take_word].
  rewrite word_or_word, parse_uint_dec by lia. done.
Qed.
Lemma masklength_le fuel n v ge ts R : kinds ts = Word (str "le") :: Word (dec v) :: R -> u8 v ->
  exists ts', kinds ts' = R /\ length ts = S (S (length ts')) /\
    masklength_loop last_line (S fuel) n ge None false ts = masklength_loop last_line fuel n ge (Some v) false ts'.
Proof.
  intros E Hv. unfold u8 in Hv. destruct (kinds_cons ts _ _ E) as (m & ts1 & -> & E1). destruct (kinds_cons ts1 _ _ E1) as (m2 & ts2 & -> & E2).
  exists ts2. split_and!; [done|done|]. cbn [masklength_loop]. eval_keys. unfold uint_or, mbind, parser_bind. cbn [take_word].
  rewrite word_or_word, parse_uint_dec by lia. done.
Qed.

(** The loop on a range reads its bounds and stops at the end of the line. *)
Lemma masklength_range n r ts R : range_ok r -> kinds ts = range_kinds r ++ Newline :: R ->
  exists bounds ts', masklength_loop last_line (S (length ts)) n None None false ts = Ok (bounds, ts') /\ make_range bounds = r /\
    kinds ts' = Newline :: R.
Proof.
  destruct r as [[|ge le]|]; cbn [range_ok range_kinds]; intros Hr E.
  - destruct (kinds_cons ts _ _ E) as (m & ts1 & -> & E1). destruct (kinds_cons ts1 _ _ E1) as (m1 & ts2 & -> & E2).
    exists (None, None, true), (mkToken Newline m1 :: ts2). split_and!; [|done|by cbn; f_equal].
    cbn [length masklength_loop]. eval_keys. done.
  - destruct Hr as (Hne & Hg & Hl). exists (ge, le, false).
    assert (exists ts1 f1, kinds ts1 = opt_kinds "le" le ++ Newline :: R /\ (length ts1 < f1)%nat /\
      masklength_loop last_line (S (length ts)) n None None false ts = masklength_loop last_line f1 n ge None false ts1) as (ts1 & f1 & E1 & Hf1 & ->).
    { destruct ge as [v|]; cbn [opt_kinds app] in E.
      - destruct (masklength_ge (length ts) n v None ts _ E Hg) as (ts1 & E1 & Hlen & E2). exists ts1, (length ts). split_and!; [done|lia|done].
      - exists ts, (S (length ts)). split_and!; [done|lia|done]. }
    destruct f1 as [|f1]; [lia|]. destruct le as [v|]; cbn [opt_kinds app] in E1.
    + destruct (masklength_le f1 n v ge ts1 _ E1 Hl) as (ts2 & E2 & Hlen & ->). exists ts2. destruct f1 as [|f1]; [lia|].
      rewrite (masklength_end _ _ _ _ _ _ _ E2). split_and!; [done|by destruct ge|done].
    + exists ts1. rewrite (masklength_end _ _ _ _ _ _ _ E1). split_and!; [done|destruct ge; [done|]|done]. by destruct Hne.
  - exists (None, None, false), ts. rewrite (masklength_end _ _ _ _ _ _ _ E). done.
Qed.

Definition entry_ok (e : PrefixListEntry) : Prop := word_ok (ple_prefix e) /\ range_ok (ple_range e).
Definition prefix_list_ok (b : PrefixListBlock) : Prop := word_ok (pl_name b) /\ Forall entry_ok (pl_prefixes b).

Lemma entry_reads es e : entry_ok e -> directive_reads (prefix_list_entry last_line) (show_prefix_list_entry e) es (es ++ [e]).
Proof.
  intros [Hp Hr]. exists (ple_prefix e), (range_kinds (ple_range e)). split.
  - apply line_of_reads. destruct e as [prefix [[|ge le]|]]; cbn [ple_prefix ple_range range_kinds] in *; unfold show_prefix_list_entry;
      cbn [ple_prefix ple_range]; [reads_line| |reads_line].
    destruct Hr as (_ & Hg & Hl). destruct ge as [g|], le as [l|]; unfold u8 in *; cbn [if_some opt_kinds app]; rewrite ?app_nil_r;
      repeat match goal with |- context [dec ?x] => lazymatch goal with H : word_ok (dec x) |- _ => fail | _ => pose proof (dec_word x ltac:(lia)) end end;
      rewrite <- ?app_assoc; reads_line.
  - intros n ts R E. rewrite <- app_assoc in E. destruct (masklength_range n _ ts R Hr E) as (bounds & ts1 & E1 & Er & R1).
    destruct (kinds_cons ts1 _ _ R1) as (m & ts2 & -> & R2). exists ts2. split; [|done].
    unfold prefix_list_entry, parse_optional_masklength_range, mbind, parser_bind. rewrite E1. cbn [finish_statement mret parser_ret].
    rewrite Er. by destruct e.
Qed.
Lemma prefix_list_reads b : prefix_list_ok b ->
  block_reads (show_prefix_list b) [Word (str "prefix-list"); Word (pl_name b)] (parse_prefix_list_block last_line (pl_name b)) b.
Proof.
  intros [Hn He]. rewrite Forall_forall in He. unfold show_prefix_list, show_block, parse_prefix_list_block. rewrite <- app_assoc.
  apply (block_of_items last_line _ _ _ _ _ [] (pl_prefixes b)); [apply line_of_reads; reads_line| |destruct b; apply yields_ret].
  apply items_list. intros es e Hin. by apply entry_reads, He.
Qed.

(** Blocks of words, bare or quoted. *)
Lemma word_list_reads {A} kind header hd (show : Str -> Str) (words : list Str) (f : list Str -> parser A) a :
  line_reads header (hd ++ [OpenBrace]) -> (forall w, w ∈ words -> line_reads (show w) [Word w]) -> yields (f words) [] a ->
  block_reads (writeln header ++ each (fun w => writeln (str "  " ++ show w)) words ++ str "}") hd (parse_word_list_block last_line kind ≫= f) a.
Proof.
  intros Hh Hw Hf. apply (block_of_items last_line _ _ _ _ _ [] words); [done| |done]. apply items_list. intros ws w Hin.
  exists w, []. split; [by apply Hw|]. intros n. cbn [app]. unfold word_list_entry. yields_run.
Qed.
Definition words_ok (name : Str) (ws : list Str) : Prop := word_ok name /\ Forall word_ok ws.

Lemma bare_words ws : Forall word_ok ws -> forall w, w ∈ ws -> line_reads (id w) [Word w].
Proof. intros Hws w Hin. rewrite Forall_forall in Hws. apply line_of_reads. by apply reads_word, Hws. Qed.

Ltac word_list_tac :=
  unfold show_block; rewrite <- app_assoc;
  apply word_list_reads; [apply line_of_reads; reads_line|by apply bare_words|apply yields_ret].

Lemma neighbor_set_reads b : words_ok (ns_name b) (ns_neighbors b) ->
  block_reads (show_neighbor_set b) [Word (str "neighbor-set"); Word (ns_name b)] (parse_neighbor_set_block last_line (ns_name b)) b.
Proof. destruct b as [name ws]. intros [Hn Hw]. unfold show_neighbor_set, parse_neighbor_set_block. cbn [ns_name ns_neighbors] in *. word_list_tac. Qed.
Lemma community_set_reads b : words_ok (cs_name b) (cs_communities b) ->
  block_reads (show_community_set_block b) [Word (str "community-set"); Word (cs_name b)] (parse_community_set_block last_line (cs_name b)) b.
Proof.
  destruct b as [name ws]. intros [Hn Hw]. unfold show_community_set_block, parse_community_set_block. cbn [cs_name cs_communities] in *. word_list_tac.
Qed.
Lemma ext_community_set_reads b : words_ok (ec_name b) (ec_ext_communities b) ->
  block_reads (show_ext_community_set_block b) [Word (str "ext-community-set"); Word (ec_name b)]
    (parse_ext_community_set_block last_line (ec_name b)) b.
Proof.
  destruct b as [name ws]. intros [Hn Hw]. unfold show_ext_community_set_block, parse_ext_community_set_block.
  cbn [ec_name ec_ext_communities] in *. word_list_tac.
Qed.
Lemma large_community_set_reads b : words_ok (lc_name b) (lc_large_communities b) ->
  block_reads (show_large_community_set_block b) [Word (str "large-community-set"); Word (lc_name b)]
    (parse_large_community_set_block last_line (lc_name b)) b.
Proof.
  destruct b as [name ws]. intros [Hn Hw]. unfold show_large_community_set_block, parse_large_community_set_block.
  cbn [lc_name lc_large_communities] in *. word_list_tac.
Qed.

Definition as_path_set_ok (b : AsPathSetBlock) : Prop := word_ok (as_name b) /\ Forall quotable (as_patterns b).
Lemma as_path_set_reads b : as_path_set_ok b ->
  block_reads (show_as_path_set b) [Word (str "as-path-set"); Word (as_name b)] (parse_as_path_set_block last_line (as_name b)) b.
Proof.
  destruct b as [name ws]. intros [Hn Hw]. cbn [as_name as_patterns] in *. unfold show_as_path_set, parse_as_path_set_block, show_block.
  cbn [as_name as_patterns]. rewrite <- app_assoc. apply word_list_reads; [apply line_of_reads; reads_line| |apply yields_ret].
  intros w Hin. rewrite Forall_forall in Hw. destruct (line_quoted_word w (Hw w Hin)) as [H1 H2]. done.
Qed.
End parsers.
