(* ===== verification/LangMain.v ===== *)
(** * The configuration language: [parse] reads back what [show_root] prints *)
From S2P Require Import Prelude Net BgpLs Attrs Text LangBgp LangBgpParse LangSpec LangPolicy.

#[local] Opaque braced named word_or any_word parse_block.

(** ** What a file must satisfy *)
Definition opt_ok {A} (P : A -> Prop) (o : option A) : Prop := match o with Some a => P a | None => True end.
Definition bmp_server_ok (b : BmpServerBlock) : Prop := word_ok (bm_address b) /\ opt_ok u64 (bm_statistics_timeout b).
Definition bgp_ls_ok (b : BgpLsBlock) : Prop := u64 (bl_instance_id b).
Definition telemetry_ok (b : TelemetryBlock) : Prop :=
  (tm_json b = true -> tm_cloudwatch_emf b = None) /\
  opt_ok (fun e => word_ok (ce_namespace e)) (tm_cloudwatch_emf b) /\ opt_ok (fun p => opt_ok word_ok (pm_listen p)) (tm_prometheus b).
Definition rpki_cache_ok (b : RpkiCacheBlock) : Prop :=
  word_ok (rc_address b) /\ opt_ok u8 (rc_preference b) /\ opt_ok word_ok (rc_ssh_username b) /\ opt_ok word_ok (rc_ssh_private_key_file b) /\
  opt_ok word_ok (rc_ssh_known_hosts_file b) /\ opt_ok u64 (rc_retry_interval b) /\ opt_ok u64 (rc_refresh_interval b) /\
  opt_ok u64 (rc_expire_interval b).
Definition body_ok (b : BgpServiceBody) : Prop :=
  Forall setting_ok (bs_settings b) /\ Forall peer_ok (bs_peers b) /\ Forall policy_ok (bs_policies b) /\
  Forall prefix_list_ok (bs_prefix_lists b) /\ Forall (fun b => words_ok (ns_name b) (ns_neighbors b)) (bs_neighbor_sets b) /\
  Forall as_path_set_ok (bs_as_path_sets b) /\ Forall (fun b => words_ok (cs_name b) (cs_communities b)) (bs_community_sets b) /\
  Forall (fun b => words_ok (ec_name b) (ec_ext_communities b)) (bs_ext_community_sets b) /\
  Forall (fun b => words_ok (lc_name b) (lc_large_communities b)) (bs_large_community_sets b) /\
  Forall bmp_server_ok (bs_bmp_servers b) /\ Forall rpki_cache_ok (bs_rpki_caches b) /\
  opt_ok bgp_ls_ok (bs_bgp_ls b) /\ opt_ok telemetry_ok (bs_telemetry b).
Definition service_ok (s : Service) : Prop := match s with Bgp body => body_ok body end.
Definition root_ok (r : Root) : Prop := Forall service_ok (services r).

Section parsers.
Variable last_line : nat.

(** ** Scalars *)
Lemma scalar_yields {T} (parse : Str -> Str + T) key n w v : parse w = inr v -> yields (parse_scalar last_line parse key n) [Word w; Newline] v.
Proof. intros Hp. unfold parse_scalar. yields_run. rewrite Hp. yields_run. Qed.
Lemma scalar_then {T B} (parse : Str -> Str + T) key n w v (f : T -> parser B) b :
  parse w = inr v -> yields (f v) [] b -> yields (parse_scalar last_line parse key n ≫= f) [Word w; Newline] b.
Proof. intros Hp Hf. by apply (yields_last _ _ _ v); [apply scalar_yields|]. Qed.

(** A line of a keyword and one value. *)
Lemma scalar_line {S T} (d : Str -> nat -> S -> parser S) (parse : Str -> Str + T) (f : T -> S -> S) lit key w v s :
  forallb line_char lit = true -> last lit = Some 32 -> lex lit = [Word key] -> word_ok w -> parse w = inr v ->
  (forall n, d key n s = (v ← parse_scalar last_line parse key n; mret (f v s))) ->
  directive_reads d (lit ++ w) s (f v s).
Proof.
  intros Hc Hl Hk Hw Hp Hd. exists key, [Word w]. split.
  - apply line_of_reads, (reads_lit_then lit w [Word key] [Word w]); [done..|]. by apply reads_word.
  - intros n. rewrite Hd. apply (scalar_then parse key n w v); [done|]. apply yields_ret.
Qed.

Lemma from_u64_dec v : u64 v -> word_ok (dec v) /\ from_u64 (dec v) = inr v.
Proof. unfold u64. intros Hv. split; [apply dec_word; lia|apply from_uint_dec; lia]. Qed.
Lemma from_u8_dec v : u8 v -> word_ok (dec v) /\ from_u8 (dec v) = inr v.
Proof. unfold u8. intros Hv. split; [apply dec_word; lia|apply from_uint_dec; lia]. Qed.

(** The two spaces of an entry, apart from its keyword. *)
Lemma writeln_indented lit rest : writeln (str "  " ++ lit ++ rest) = writeln ((str "  " ++ lit) ++ rest).
Proof. by rewrite app_assoc. Qed.

Lemma bmp_server_reads b : bmp_server_ok b ->
  block_reads (show_bmp_server b) [Word (str "bmp-server"); Word (bm_address b)] (parse_bmp_server_block last_line (bm_address b)) b.
Proof.
  intros [Ha Ht]. destruct b as [a t]. cbn [bm_address bm_statistics_timeout] in *.
  apply block_plain; [apply line_of_reads; reads_line|]. apply (items_more _ _ _ _ _ _ (mkBmpServerBlock a t)); [|apply items_end].
  apply item_if_some. destruct t as [v|]; [|done]. destruct (from_u64_dec v Ht) as [Hw Hp].
  apply (item_line _ _ _ (str "statistics-timeout " ++ dec v)).
  apply (scalar_line _ from_u64 (fun v b => mkBmpServerBlock (bm_address b) (Some v)) _ (str "statistics-timeout")); done.
Qed.
Lemma bgp_ls_reads b : bgp_ls_ok b -> block_reads (show_bgp_ls b) [Word (str "bgp-ls")] (parse_bgp_ls_block last_line) b.
Proof.
  intros Hb. destruct b as [v]. cbn [bl_instance_id] in *. apply block_plain; [apply line_of_reads; reads_line|].
  apply (items_more _ _ _ _ _ _ (mkBgpLsBlock v)); [|apply items_end]. destruct (from_u64_dec v Hb) as [Hw Hp].
  apply (item_line _ _ _ (str "instance-id " ++ dec v)).
  by apply (scalar_line _ from_u64 (fun v _ => mkBgpLsBlock v) _ (str "instance-id")).
Qed.

(** One optional line of a block. *)
Lemma scalar_item {S T} msg (d : Str -> nat -> S -> parser S) (parse : Str -> Str + T) (show : T -> Str) (f : T -> S -> S) lit key o s s' :
  forallb line_char lit = true -> last lit = Some 32 -> lex lit = [Word key] ->
  (forall n s, d key n s = (v ← parse_scalar last_line parse key n; mret (f v s))) ->
  match o with Some v => (word_ok (show v) /\ parse (show v) = inr v) /\ s' = f v s | None => s' = s end ->
  item_reads last_line msg d (if_some o (fun v => writeln (str "  " ++ lit ++ show v))) s s'.
Proof.
  intros Hc Hl Hk Hd Ho. apply item_if_some. destruct o as [v|]; [|done]. destruct Ho as [[Hw Hp] ->].
  by apply item_line, (scalar_line d parse f lit key).
Qed.

Lemma transport_reads t : word_ok (transport_config_str t) /\ from_transport (transport_config_str t) = inr t.
Proof. split; [|by destruct t]. destruct t; (split; [done|]); apply (bool_decide_unpack _); vm_compute; exact I. Qed.
Lemma from_string_reads s : word_ok s -> word_ok (id s) /\ from_string (id s) = inr s.
Proof. done. Qed.

Ltac rpki_law := let n := fresh in let b := fresh in intros n b; destruct b; unfold rpki_directive; eval_keys; reflexivity.
Ltac rpki_value :=
  match goal with
  | |- match ?o with Some _ => _ | None => _ end =>
      is_var o; destruct o; [|reflexivity]; cbn [opt_ok] in *; split; [|reflexivity];
      first [by apply from_u8_dec | by apply from_u64_dec | by apply transport_reads | by apply from_string_reads]
  end.

Lemma rpki_cache_reads b : rpki_cache_ok b ->
  block_reads (show_rpki_cache b) [Word (str "rpki-cache"); Word (rc_address b)] (parse_rpki_cache_block last_line (rc_address b)) b.
Proof.
  destruct b as [a pref tr user pkf khf retry refresh expire]. unfold rpki_cache_ok.
  cbn [rc_address rc_preference rc_transport rc_ssh_username rc_ssh_private_key_file rc_ssh_known_hosts_file rc_retry_interval
    rc_refresh_interval rc_expire_interval]. intros (Ha & H1 & H3 & H4 & H5 & H6 & H7 & H8).
  unfold show_rpki_cache, parse_rpki_cache_block.
  cbn [rc_address rc_preference rc_transport rc_ssh_username rc_ssh_private_key_file rc_ssh_known_hosts_file rc_retry_interval
    rc_refresh_interval rc_expire_interval].
  apply block_plain; [apply line_of_reads; reads_line|].
  apply (items_more _ _ _ _ _ _ (mkRpkiCacheBlock a pref None None None None None None None));
    [apply (scalar_item _ _ from_u8 dec
       (fun v b => mkRpkiCacheBlock (rc_address b) (Some v) (rc_transport b) (rc_ssh_username b) (rc_ssh_private_key_file b) (rc_ssh_known_hosts_file b) (rc_retry_interval b) (rc_refresh_interval b) (rc_expire_interval b))
       (str "preference ") (str "preference")); [done|done|done|rpki_law|rpki_value]|].
  apply (items_more _ _ _ _ _ _ (mkRpkiCacheBlock a pref tr None None None None None None));
    [apply (scalar_item _ _ from_transport transport_config_str
       (fun v b => mkRpkiCacheBlock (rc_address b) (rc_preference b) (Some v) (rc_ssh_username b) (rc_ssh_private_key_file b) (rc_ssh_known_hosts_file b) (rc_retry_interval b) (rc_refresh_interval b) (rc_expire_interval b))
       (str "transport ") (str "transport")); [done|done|done|rpki_law|rpki_value]|].
  apply (items_more _ _ _ _ _ _ (mkRpkiCacheBlock a pref tr user None None None None None));
    [apply (scalar_item _ _ from_string id
       (fun v b => mkRpkiCacheBlock (rc_address b) (rc_preference b) (rc_transport b) (Some v) (rc_ssh_private_key_file b) (rc_ssh_known_hosts_file b) (rc_retry_interval b) (rc_refresh_interval b) (rc_expire_interval b))
       (str "ssh-username ") (str "ssh-username")); [done|done|done|rpki_law|rpki_value]|].
  apply (items_more _ _ _ _ _ _ (mkRpkiCacheBlock a pref tr user pkf None None None None));
    [apply (scalar_item _ _ from_string id
       (fun v b => mkRpkiCacheBlock (rc_address b) (rc_preference b) (rc_transport b) (rc_ssh_username b) (Some v) (rc_ssh_known_hosts_file b) (rc_retry_interval b) (rc_refresh_interval b) (rc_expire_interval b))
       (str "ssh-private-key-file ") (str "ssh-private-key-file")); [done|done|done|rpki_law|rpki_value]|].
  apply (items_more _ _ _ _ _ _ (mkRpkiCacheBlock a pref tr user pkf khf None None None));
    [apply (scalar_item _ _ from_string id
       (fun v b => mkRpkiCacheBlock (rc_address b) (rc_preference b) (rc_transport b) (rc_ssh_username b) (rc_ssh_private_key_file b) (Some v) (rc_retry_interval b) (rc_refresh_interval b) (rc_expire_interval b))
       (str "ssh-known-hosts-file ") (str "ssh-known-hosts-file")); [done|done|done|rpki_law|rpki_value]|].
  apply (items_more _ _ _ _ _ _ (mkRpkiCacheBlock a pref tr user pkf khf retry None None));
    [apply (scalar_item _ _ from_u64 dec
       (fun v b => mkRpkiCacheBlock (rc_address b) (rc_preference b) (rc_transport b) (rc_ssh_username b) (rc_ssh_private_key_file b) (rc_ssh_known_hosts_file b) (Some v) (rc_refresh_interval b) (rc_expire_interval b))
       (str "retry-interval ") (str "retry-interval")); [done|done|done|rpki_law|rpki_value]|].
  apply (items_more _ _ _ _ _ _ (mkRpkiCacheBlock a pref tr user pkf khf retry refresh None));
    [apply (scalar_item _ _ from_u64 dec
       (fun v b => mkRpkiCacheBlock (rc_address b) (rc_preference b) (rc_transport b) (rc_ssh_username b) (rc_ssh_private_key_file b) (rc_ssh_known_hosts_file b) (rc_retry_interval b) (Some v) (rc_expire_interval b))
       (str "refresh-interval ") (str "refresh-interval")); [done|done|done|rpki_law|rpki_value]|].
  apply (items_more _ _ _ _ _ _ (mkRpkiCacheBlock a pref tr user pkf khf retry refresh expire));
    [apply (scalar_item _ _ from_u64 dec
       (fun v b => mkRpkiCacheBlock (rc_address b) (rc_preference b) (rc_transport b) (rc_ssh_username b) (rc_ssh_private_key_file b) (rc_ssh_known_hosts_file b) (rc_retry_interval b) (rc_refresh_interval b) (Some v))
       (str "expire-interval ") (str "expire-interval")); [done|done|done|rpki_law|rpki_value]|].
  apply items_end.
Qed.

(** A block on one line, or of one line. *)
Lemma item_inline {S} msg (d : Str -> nat -> S -> parser S) line key K s s' :
  line_reads line (Word key :: K) -> (forall n, yields (d key n s) K s') -> item_reads last_line msg d (writeln (str "  " ++ line)) s s'.
Proof.
  intros Hl Hd. exists ((Word key :: K) ++ [Newline]). split; [by apply prints_line, line_indented|].
  eapply loop_yields_app; [by apply loop_yields_item|apply loop_yields_newline].
Qed.
Lemma yields_block_one {S} msg (d : Str -> nat -> S -> parser S) key K s s' :
  (forall n, yields (d key n s) (K ++ [Newline]) s') ->
  yields (parse_block last_line msg d s) (Newline :: (Word key :: K ++ [Newline]) ++ [CloseBrace]) s'.
Proof.
  intros Hd. apply (yields_block last_line msg d s (Newline :: Word key :: K ++ [Newline])).
  apply (loop_yields_app _ _ _ _ s _ [Newline] (Word key :: K ++ [Newline])); [apply loop_yields_newline|by apply loop_yields_item].
Qed.
Lemma item_nested {S} msg (d : Str -> nat -> S -> parser S) header line key k K s s' :
  line_reads header [Word key; OpenBrace] -> line_reads line (Word k :: K) ->
  (forall n, yields (d key n s) (OpenBrace :: Newline :: (Word k :: K ++ [Newline]) ++ [CloseBrace]) s') ->
  item_reads last_line msg d (writeln header ++ writeln line ++ writeln (str "  }")) s s'.
Proof.
  intros Hh Hl Hd. exists ((Word key :: OpenBrace :: Newline :: (Word k :: K ++ [Newline]) ++ [CloseBrace]) ++ [Newline]). split.
  - replace ((Word key :: OpenBrace :: Newline :: (Word k :: K ++ [Newline]) ++ [CloseBrace]) ++ [Newline])
      with (([Word key; OpenBrace] ++ [Newline]) ++ ((Word k :: K) ++ [Newline]) ++ ([CloseBrace] ++ [Newline]))
      by (cbn [app]; rewrite <- !app_assoc; done).
    apply prints_app; [by apply prints_line|]. apply prints_app; [by apply prints_line|].
    apply prints_line, (line_indented (str "}") [CloseBrace]), close_line.
  - eapply loop_yields_app; [by apply loop_yields_item|apply loop_yields_newline].
Qed.

(** The block of a line [lit w], on what the directive does with it. *)
Lemma scalar_block {S T} msg (d : Str -> nat -> S -> parser S) (parse : Str -> Str + T) (f : T -> S) key w v s :
  parse w = inr v -> (forall n, d key n s = (v ← parse_scalar last_line parse key n; mret (f v))) ->
  yields (parse_block last_line msg d s) (Newline :: (Word key :: [Word w] ++ [Newline]) ++ [CloseBrace]) (f v).
Proof.
  intros Hp Hd. apply (yields_block_one msg d key [Word w]). intros n. rewrite Hd. apply (scalar_then parse key n w v); [done|]. apply yields_ret.
Qed.
Lemma indented_word lit key w :
  forallb line_char lit = true -> last lit = Some 32 -> lex lit = [Word key] -> word_ok w -> line_reads (lit ++ w) [Word key; Word w].
Proof. intros Hc Hl Hk Hw. apply line_of_reads, (reads_lit_then lit w [Word key] [Word w]); [done..|]. by apply reads_word. Qed.

Lemma emf_yields n e : yields (parse_cloudwatch_emf_block last_line n)
  (Newline :: (Word (str "namespace") :: [Word (ce_namespace e)] ++ [Newline]) ++ [CloseBrace]) e.
Proof.
  unfold parse_cloudwatch_emf_block. apply (yields_last _ _ _ (Some (ce_namespace e))).
  - by apply (scalar_block _ _ from_string Some _ _ (ce_namespace e)).
  - destruct e. apply yields_ret.
Qed.
Lemma prometheus_yields listen : yields (parse_prometheus_block last_line)
  (Newline :: (Word (str "listen") :: [Word listen] ++ [Newline]) ++ [CloseBrace]) (mkPrometheusBlock (Some listen)).
Proof. by apply (scalar_block _ _ from_string (fun v => mkPrometheusBlock (Some v)) _ _ listen). Qed.
Lemma json_yields : yields (parse_telemetry_json_block last_line) [CloseBrace] ().
Proof. intros ts R E. destruct (kinds_cons ts _ _ E) as (n & ts' & -> & E'). by exists ts'. Qed.
Lemma empty_block_yields {S} msg (d : Str -> nat -> S -> parser S) s : yields (parse_block last_line msg d s) [CloseBrace] s.
Proof. apply (yields_block last_line msg d s []). apply loop_yields_nil. Qed.

#[local] Abbreviation telemetry_statements :=
  (parse_block last_line (str "unexpected '{' inside telemetry") (telemetry_directive last_line) (mkTelemetryBlock false None None)).
Lemma telemetry_yields b n K : telemetry_ok b -> yields telemetry_statements K b -> yields (parse_telemetry_block last_line n) K b.
Proof.
  destruct b as [json emf prom]. intros (Hj & _) HK. apply (yields_last _ _ _ _ _ HK). cbn [tm_json tm_cloudwatch_emf] in *.
  destruct json; [rewrite Hj by done|]; apply yields_ret.
Qed.
Lemma telemetry_reads b : telemetry_ok b -> block_reads (show_telemetry b) [Word (str "telemetry")] telemetry_statements b.
Proof.
  destruct b as [json emf prom]. unfold telemetry_ok. cbn [tm_json tm_cloudwatch_emf tm_prometheus]. intros (_ & He & Hp).
  unfold show_telemetry. cbn [tm_json tm_cloudwatch_emf tm_prometheus].
  apply block_plain; [apply line_of_reads; reads_line|].
  { apply (items_more _ _ _ _ _ _ (mkTelemetryBlock json None None)); [|apply (items_more _ _ _ _ _ _ (mkTelemetryBlock json emf None));
      [|apply (items_more _ _ _ _ _ _ (mkTelemetryBlock json emf prom)); [|apply items_end]]].
    + destruct json; [|apply item_nil]. apply (item_inline _ _ (str "json {}") (str "json") [OpenBrace; CloseBrace]); [by apply line_of_reads; reads_closed|].
      intros m. unfold telemetry_directive. eval_keys. cbn [tm_json]. apply (yields_last _ _ _ ()); [apply yields_braced, json_yields|apply yields_ret].
    + apply item_if_some. destruct emf as [e|]; [|done]. cbn [opt_ok] in He.
      apply (item_nested _ _ _ _ (str "cloudwatch-emf") (str "namespace") [Word (ce_namespace e)]).
      * by apply line_of_reads; reads_closed.
      * by apply (indented_word (str "    namespace ") (str "namespace")).
      * intros m. unfold telemetry_directive. eval_keys. cbn [tm_json tm_cloudwatch_emf tm_prometheus bool_decide is_Some_dec].
        apply (yields_last _ _ _ e); [apply yields_braced, emf_yields|apply yields_ret].
    + apply item_if_some. destruct prom as [[[listen|]]|]; [| |done]; cbn [pm_listen].
      * apply (item_nested _ _ _ _ (str "prometheus") (str "listen") [Word listen]).
        -- by apply line_of_reads; reads_closed.
        -- by apply (indented_word (str "    listen ") (str "listen")).
        -- intros m. unfold telemetry_directive. eval_keys. cbn [tm_json tm_cloudwatch_emf tm_prometheus bool_decide is_Some_dec].
           apply (yields_last _ _ _ (mkPrometheusBlock (Some listen))); [apply yields_braced, prometheus_yields|apply yields_ret].
      * apply (item_inline _ _ (str "prometheus {}") (str "prometheus") [OpenBrace; CloseBrace]); [by apply line_of_reads; reads_closed|].
        intros m. unfold telemetry_directive. eval_keys. cbn [tm_json tm_cloudwatch_emf tm_prometheus bool_decide is_Some_dec].
        apply (yields_last _ _ _ (mkPrometheusBlock None)); [apply yields_braced, empty_block_yields|apply yields_ret]. }
Qed.
End parsers.

(** * The configuration language: the body of a service and the whole file are read back *)

#[local] Opaque braced named word_or any_word parse_block.

Section parsers.
Variable last_line : nat.
#[local] Abbreviation body_reads := (item_reads last_line (str "unexpected '{'") (body_directive last_line)).

(** The blocks of one kind, each in the field [get]. *)
Lemma item_show_blocks {S A} msg (d : Str -> nat -> S -> parser S) (get : S -> list A) (upd : list A -> S -> S) (show : A -> Str) (l : list A) :
  (forall v s, get (upd v s) = v) -> (forall v w s, upd v (upd w s) = upd v s) -> (forall s, upd (get s) s = s) ->
  (forall s a, a ∈ l -> item_reads last_line msg d (indent (show a)) s (upd (get s ++ [a]) s)) ->
  forall first s s', upd (get s ++ l) s = s' -> item_reads last_line msg d (show_blocks show first l) s s'.
Proof.
  intros H1 H2 H3. induction l as [|a l IH]; intros Hl first s s' <-; cbn [show_blocks].
  - rewrite app_nil_r, H3. apply item_nil.
  - eapply item_app; [destruct first; [apply item_nil|apply item_nl]|]. eapply item_app; [apply Hl; by left|].
    apply IH; [intros s' a' Ha; apply Hl; by right|]. by rewrite H1, H2, <- app_assoc.
Qed.
Lemma item_show_opt {S A} msg (d : Str -> nat -> S -> parser S) (show : A -> Str) (o : option A) first s s' :
  match o with Some a => item_reads last_line msg d (indent (show a)) s s' | None => s' = s end ->
  item_reads last_line msg d (show_blocks show first (opt_list o)) s s'.
Proof.
  destruct o as [a|]; cbn [opt_list show_blocks]; [|intros ->; apply item_nil]. intros Hi.
  eapply item_app; [destruct first; [apply item_nil|apply item_nl]|]. rewrite app_nil_r. exact Hi.
Qed.

(** The step for the blocks of each kind that have a name. *)
Lemma named_block {A} (make : A -> BgpServiceBody -> BgpServiceBody) show key name (block : Str -> parser A) (b : A) msg s :
  block_reads (show b) [Word key; Word name] (block name) b ->
  (forall n, body_directive last_line key n s = (x ← named last_line n msg block; mret (make x s))) ->
  body_reads (indent (show b)) s (make b s).
Proof.
  intros Hb Hd. eapply item_block; [exact Hb|]. intros n K HK. rewrite Hd. cbn [app].
  apply (yields_last _ _ _ b); [by apply yields_named|apply yields_ret].
Qed.

Lemma setting_item s b : setting_ok s -> body_reads (writeln (str "  " ++ show_setting s)) b (with_settings (bs_settings b ++ [s]) b).
Proof.
  intros Hok. apply item_line. destruct (is_originate s) eqn:Ho.
  - destruct s; try discriminate Ho. destruct r as [p h]. destruct Hok as [Hp Hh]. cbn [og_prefix og_nexthop] in *.
    exists (str "originate"), [Word p; Word (str "nexthop"); Word h].
    split; [apply line_of_reads; cbn [show_setting og_prefix og_nexthop]; reads_line|].
    intros n. unfold body_directive, parse_originate_setting. eval_keys. yields_run.
  - apply (setting_reads _ (fun setting b => mret (with_settings (bs_settings b ++ [setting]) b)) _ s);
      [by apply show_setting_line| |apply yields_ret].
    intros key n Hk. unfold body_directive. by not_keyword Hk.
Qed.

(** The blocks of one kind: the laws of the field, and the block of its kind. *)
Ltac blocks_of get upd lemma :=
  let Hl := fresh in let s := fresh in let a := fresh in let Ha := fresh in
  intros Hl; apply (item_show_blocks _ _ get upd); [done|done|by intros []| |done]; intros s a Ha;
  rewrite Forall_forall in Hl; specialize (Hl a Ha);
  eapply (named_block (fun x b => upd (get b ++ [x]) b) _ _ _ _ _ _ _ (lemma last_line a Hl)); intros n; unfold body_directive; eval_keys; reflexivity.
Lemma peers_item l first b : Forall peer_ok l -> body_reads (show_blocks show_peer first l) b (with_peers (bs_peers b ++ l) b).
Proof. blocks_of bs_peers with_peers peer_reads. Qed.
Lemma bmp_servers_item l first b : Forall bmp_server_ok l -> body_reads (show_blocks show_bmp_server first l) b (with_bmp_servers (bs_bmp_servers b ++ l) b).
Proof. blocks_of bs_bmp_servers with_bmp_servers bmp_server_reads. Qed.
Lemma rpki_caches_item l first b : Forall rpki_cache_ok l -> body_reads (show_blocks show_rpki_cache first l) b (with_rpki_caches (bs_rpki_caches b ++ l) b).
Proof. blocks_of bs_rpki_caches with_rpki_caches rpki_cache_reads. Qed.
Lemma policies_item l first b : Forall policy_ok l -> body_reads (show_blocks show_policy first l) b (with_policies (bs_policies b ++ l) b).
Proof. blocks_of bs_policies with_policies policy_reads. Qed.
Lemma prefix_lists_item l first b : Forall prefix_list_ok l -> body_reads (show_blocks show_prefix_list first l) b (with_prefix_lists (bs_prefix_lists b ++ l) b).
Proof. blocks_of bs_prefix_lists with_prefix_lists prefix_list_reads. Qed.
Lemma neighbor_sets_item l first b : Forall (fun b => words_ok (ns_name b) (ns_neighbors b)) l -> body_reads (show_blocks show_neighbor_set first l) b (with_neighbor_sets (bs_neighbor_sets b ++ l) b).
Proof. blocks_of bs_neighbor_sets with_neighbor_sets neighbor_set_reads. Qed.
Lemma as_path_sets_item l first b : Forall as_path_set_ok l -> body_reads (show_blocks show_as_path_set first l) b (with_as_path_sets (bs_as_path_sets b ++ l) b).
Proof. blocks_of bs_as_path_sets with_as_path_sets as_path_set_reads. Qed.
Lemma community_sets_item l first b : Forall (fun b => words_ok (cs_name b) (cs_communities b)) l -> body_reads (show_blocks show_community_set_block first l) b (with_community_sets (bs_community_sets b ++ l) b).
Proof. blocks_of bs_community_sets with_community_sets community_set_reads. Qed.
Lemma ext_community_sets_item l first b : Forall (fun b => words_ok (ec_name b) (ec_ext_communities b)) l -> body_reads (show_blocks show_ext_community_set_block first l) b (with_ext_community_sets (bs_ext_community_sets b ++ l) b).
Proof. blocks_of bs_ext_community_sets with_ext_community_sets ext_community_set_reads. Qed.
Lemma large_community_sets_item l first b : Forall (fun b => words_ok (lc_name b) (lc_large_communities b)) l -> body_reads (show_blocks show_large_community_set_block first l) b (with_large_community_sets (bs_large_community_sets b ++ l) b).
Proof. blocks_of bs_large_community_sets with_large_community_sets large_community_set_reads. Qed.

Lemma bgp_ls_item b s : bgp_ls_ok b -> bs_bgp_ls s = None -> body_reads (indent (show_bgp_ls b)) s (with_bgp_ls (Some b) s).
Proof.
  intros Hok Hs. eapply item_block; [by apply bgp_ls_reads|]. intros n K HK. unfold body_directive. eval_keys. rewrite Hs.
  cbn [bool_decide is_Some_dec app]. apply (yields_last _ _ _ b); [by apply yields_braced|apply yields_ret].
Qed.
Lemma telemetry_item b s : telemetry_ok b -> bs_telemetry s = None -> body_reads (indent (show_telemetry b)) s (with_telemetry (Some b) s).
Proof.
  intros Hok Hs. eapply item_block; [by apply telemetry_reads|]. intros n K HK. unfold body_directive. eval_keys. rewrite Hs.
  cbn [bool_decide is_Some_dec app]. apply (yields_last _ _ _ b); [by apply yields_braced, telemetry_yields|apply yields_ret].
Qed.

Lemma body_prints_reads b : body_ok b ->
  block_reads (show_body b) [Word (str "service"); Word (str "bgp")] (parse_bgp_body last_line) b.
Proof.
  destruct b as [settings peers policies pls nss ass css ecs lcs bmps rpkis ls tm]. unfold body_ok.
  cbn [bs_settings bs_peers bs_policies bs_prefix_lists bs_neighbor_sets bs_as_path_sets bs_community_sets bs_ext_community_sets
    bs_large_community_sets bs_bmp_servers bs_rpki_caches bs_bgp_ls bs_telemetry].
  intros (H1 & H2 & H3 & H4 & H5 & H6 & H7 & H8 & H9 & H10 & H11 & H12 & H13).
  unfold show_body. cbv zeta. apply block_plain; [apply line_of_reads; reads_closed|].
  cbn [bs_settings bs_peers bs_policies bs_prefix_lists bs_neighbor_sets bs_as_path_sets bs_community_sets bs_ext_community_sets
    bs_large_community_sets bs_bmp_servers bs_rpki_caches bs_bgp_ls bs_telemetry].
  apply (items_more _ _ _ _ _ _ (mkBgpServiceBody settings [] [] [] [] [] [] [] [] [] [] None None)).
  { apply (item_field last_line _ _ bs_settings with_settings); [done|done|by intros []| |reflexivity].
    intros s x Hx. rewrite Forall_forall in H1. by apply setting_item, H1. }
  apply (items_more _ _ _ _ _ _ (mkBgpServiceBody settings peers [] [] [] [] [] [] [] [] [] None None)); [exact (peers_item peers _ (mkBgpServiceBody settings [] [] [] [] [] [] [] [] [] [] None None) H2)|].
  apply (items_more _ _ _ _ _ _ (mkBgpServiceBody settings peers [] [] [] [] [] [] [] bmps [] None None)); [exact (bmp_servers_item bmps _ (mkBgpServiceBody settings peers [] [] [] [] [] [] [] [] [] None None) H10)|].
  apply (items_more _ _ _ _ _ _ (mkBgpServiceBody settings peers [] [] [] [] [] [] [] bmps rpkis None None)); [exact (rpki_caches_item rpkis _ (mkBgpServiceBody settings peers [] [] [] [] [] [] [] bmps [] None None) H11)|].
  apply (items_more _ _ _ _ _ _ (mkBgpServiceBody settings peers policies [] [] [] [] [] [] bmps rpkis None None)); [exact (policies_item policies _ (mkBgpServiceBody settings peers [] [] [] [] [] [] [] bmps rpkis None None) H3)|].
  apply (items_more _ _ _ _ _ _ (mkBgpServiceBody settings peers policies pls [] [] [] [] [] bmps rpkis None None)); [exact (prefix_lists_item pls _ (mkBgpServiceBody settings peers policies [] [] [] [] [] [] bmps rpkis None None) H4)|].
  apply (items_more _ _ _ _ _ _ (mkBgpServiceBody settings peers policies pls nss [] [] [] [] bmps rpkis None None)); [exact (neighbor_sets_item nss _ (mkBgpServiceBody settings peers policies pls [] [] [] [] [] bmps rpkis None None) H5)|].
  apply (items_more _ _ _ _ _ _ (mkBgpServiceBody settings peers policies pls nss ass [] [] [] bmps rpkis None None)); [exact (as_path_sets_item ass _ (mkBgpServiceBody settings peers policies pls nss [] [] [] [] bmps rpkis None None) H6)|].
  apply (items_more _ _ _ _ _ _ (mkBgpServiceBody settings peers policies pls nss ass css [] [] bmps rpkis None None)); [exact (community_sets_item css _ (mkBgpServiceBody settings peers policies pls nss ass [] [] [] bmps rpkis None None) H7)|].
  apply (items_more _ _ _ _ _ _ (mkBgpServiceBody settings peers policies pls nss ass css ecs [] bmps rpkis None None)); [exact (ext_community_sets_item ecs _ (mkBgpServiceBody settings peers policies pls nss ass css [] [] bmps rpkis None None) H8)|].
  apply (items_more _ _ _ _ _ _ (mkBgpServiceBody settings peers policies pls nss ass css ecs lcs bmps rpkis None None)); [exact (large_community_sets_item lcs _ (mkBgpServiceBody settings peers policies pls nss ass css ecs [] bmps rpkis None None) H9)|].
  apply (items_more _ _ _ _ _ _ (mkBgpServiceBody settings peers policies pls nss ass css ecs lcs bmps rpkis ls None)).
  { apply item_show_opt. destruct ls as [l|]; [exact (bgp_ls_item l (mkBgpServiceBody settings peers policies pls nss ass css ecs lcs bmps rpkis None None) H12 eq_refl)|reflexivity]. }
  apply (items_more _ _ _ _ _ _ (mkBgpServiceBody settings peers policies pls nss ass css ecs lcs bmps rpkis ls tm)).
  { apply item_show_opt. destruct tm as [t|]; [exact (telemetry_item t (mkBgpServiceBody settings peers policies pls nss ass css ecs lcs bmps rpkis ls None) H13 eq_refl)|reflexivity]. }
  apply items_end.
Qed.

(** ** The file *)
Lemma service_prints s : service_ok s -> exists body K,
  s = Bgp body /\ prints (writeln (show_service s)) (Word (str "service") :: Word (str "bgp") :: OpenBrace :: K ++ [Newline]) /\
  yields (parse_bgp_body last_line) K body.
Proof.
  destruct s as [body]. intros Hok. destruct (body_prints_reads body Hok) as (K & Hp & Hy). exists body, K.
  split_and!; [done|by apply (prints_block (show_body body))|done].
Qed.

(** The tokens take the loop of the file from one list of services to another. *)
Definition root_yields (K : list TokenKind) (l l' : list Service) : Prop :=
  forall fuel ts R, kinds ts = K ++ R -> (length ts < fuel)%nat ->
  exists fuel' ts', root_loop last_line fuel l ts = root_loop last_line fuel' l' ts' /\ kinds ts' = R /\ (length ts' < fuel')%nat.
Lemma root_yields_app K1 K2 l l1 l2 : root_yields K1 l l1 -> root_yields K2 l1 l2 -> root_yields (K1 ++ K2) l l2.
Proof.
  intros H1 H2 fuel ts R E Hf. rewrite <- app_assoc in E. destruct (H1 fuel ts _ E Hf) as (f1 & ts1 & -> & R1 & Hf1). by apply H2.
Qed.
Lemma root_yields_newline l : root_yields [Newline] l l.
Proof.
  intros fuel ts R E Hf. destruct (kinds_cons ts _ _ E) as (n & ts' & -> & E'). cbn [length] in Hf.
  destruct fuel as [|fuel]; [lia|]. exists (S fuel), ts'. split_and!; [done|done|lia].
Qed.
Lemma root_yields_service K body l : yields (parse_bgp_body last_line) K body ->
  root_yields (Word (str "service") :: Word (str "bgp") :: OpenBrace :: K) l (l ++ [Bgp body]).
Proof.
  intros Hy fuel ts R E Hf. destruct (kinds_cons ts _ _ E) as (n & ts1 & -> & E1). destruct (kinds_cons ts1 _ _ E1) as (n2 & ts2 & -> & E2).
  destruct (kinds_cons ts2 _ _ E2) as (n3 & ts3 & -> & E3). destruct (Hy ts3 R E3) as (ts4 & E4 & R4). cbn [length] in Hf.
  destruct fuel as [|fuel]; [lia|]. exists fuel, ts4. split_and!; [|done|].
  - cbn [root_loop skip_newlines_in]. unfold mbind, parser_bind. cbn [LangBgp.expect_word]. eval_keys.
    unfold service_name, mbind, parser_bind. cbn [peek_kind head option_map tk_kind].
    assert (forall w m ts, any_word last_line (mkToken (Word w) m :: ts) = Ok (w, ts)) as -> by done.
    cbn [skip_newlines skip_newlines_in LangBgp.expect_open_brace]. eval_keys. by rewrite E4.
  - apply (f_equal length) in E3, R4. rewrite ?length_app, !length_map in *. lia.
Qed.

Lemma services_read l : Forall service_ok l -> forall acc, exists K,
  prints (each (fun s => nl ++ writeln (show_service s)) l) K /\ root_yields K acc (acc ++ l).
Proof.
  induction 1 as [|s l Hs _ IH]; intros acc.
  - exists []. split; [apply prints_nil|]. intros fuel ts R E Hf. exists fuel, ts. by rewrite app_nil_r.
  - destruct (service_prints s Hs) as (body & K & -> & Hp & Hy). destruct (IH (acc ++ [Bgp body])) as (K2 & Hp2 & Hy2).
    eexists. split.
    + eapply (prints_app _ (each _ l) _ K2); [|done]. eapply prints_app; [apply prints_nl|done].
    + rewrite <- app_assoc in Hy2. eapply root_yields_app; [|exact Hy2]. eapply root_yields_app; [apply root_yields_newline|].
      apply (root_yields_app (Word (str "service") :: Word (str "bgp") :: OpenBrace :: K) [Newline] _ (acc ++ [Bgp body])); [|apply root_yields_newline].
      by apply root_yields_service.
Qed.
End parsers.

(** ** Reading back what is printed *)
Lemma show_root_each s l : show_root (mkRoot (s :: l)) = writeln (show_service s) ++ each (fun s => nl ++ writeln (show_service s)) l.
Proof.
  unfold show_root, each. cbn [services imap concat Nat.ltb Nat.leb app]. f_equal. f_equal.
  rewrite <- imap_const. apply imap_ext. intros i x _. done.
Qed.

Lemma show_root_reads last_line r : root_ok r -> exists K, prints (show_root r) K /\ root_yields last_line K [] (services r).
Proof.
  destruct r as [[|s l]]; intros Hok; cbn [services].
  - exists []. split; [apply prints_nil|]. intros fuel ts R E Hf. by exists fuel, ts.
  - apply Forall_cons in Hok as [Hs Hl]. destruct (service_prints last_line s Hs) as (body & K & -> & Hp & Hy).
    destruct (services_read last_line l Hl [Bgp body]) as (K2 & Hp2 & Hy2). rewrite show_root_each. eexists. split; [by eapply prints_app|].
    eapply root_yields_app; [|exact Hy2].
    apply (root_yields_app _ (Word (str "service") :: Word (str "bgp") :: OpenBrace :: K) [Newline] _ [Bgp body]); [|apply root_yields_newline].
    by apply (root_yields_service _ K body []).
Qed.

Lemma root_yields_parse last_line K l ts : root_yields last_line K [] l -> kinds ts = K -> parse_root last_line ts = Ok (mkRoot l, []).
Proof.
  intros Hy E. destruct (Hy (S (length ts)) ts []) as (fuel & ts' & E' & R' & Hf); [by rewrite app_nil_r|lia|].
  unfold parse_root, mbind, parser_bind. rewrite E'. destruct ts' as [|t ts']; [|done]. by destruct fuel as [|fuel]; [lia|].
Qed.

Lemma parse_of_reads r : (forall n, exists K, prints (show_root r) K /\ root_yields n K [] (services r)) -> parse (show_root r) = Ok r.
Proof.
  intros Hr. unfold parse. set (n := match last _ with Some _ => _ | None => _ end). destruct (Hr n) as (K & Hp & Hy).
  rewrite (root_yields_parse n K (services r)); [|done|by apply tokenize_prints]. by destruct r.
Qed.

(** The tree of [demo_text] is one. *)
Definition demo_root : Root := match parse demo_text with Ok r => r | _ => mkRoot [] end.
Lemma demo_root_ok : root_ok demo_root.
Proof.
  let r := eval vm_compute in demo_root in change demo_root with r.
  repeat (first [apply Forall_nil; exact I | apply Forall_cons; split | split | exact I]; cbn);
    try (apply (bool_decide_unpack _); vm_compute; exact I).
Qed.

(** C5. The configuration language round-trips: [parse] on the text that
    [Display] writes for a tree (services, settings, peers with their families,
    policies with their statements, prefix lists, sets, BMP servers, RPKI
    caches, BGP-LS and telemetry blocks, with their indentation, quoting and
    empty lines) returns that tree, when bare words hold no blanks, quotes,
    braces or comment signs and the numbers fit their types. *)
Theorem parse_show_root r : root_ok r -> parse (show_root r) = Ok r.
Proof. intros Hok. apply parse_of_reads. intros n. by apply show_root_reads. Qed.

Lemma parse_show_root_witness : parse (show_root demo_root) = Ok demo_root.
Proof. apply parse_show_root. exact demo_root_ok. Defined.
