(* ===== verification/LangTotal.v ===== *)
(** * The configuration language: every text is parsed, or refused at one of its lines

    [fine p]: on tokens of the file, [p] returns and leaves some of them, or
    fails with an error at a line of the file; no loop runs out of fuel. *)
From S2P Require Import Prelude Net BgpLs Attrs Text LangBgp LangBgpParse.

Section parsers.
(** The number of lines of the file. *)
Variable count : nat.
Definition in_file (n : nat) : Prop := (1 <= n <= count)%nat.
Definition in_lines (ts : list Token) : Prop := Forall (fun t => in_file (tk_line t)) ts.
Definition fine {A} (p : parser A) : Prop := forall ts, in_lines ts ->
  match p ts with
  | Ok (_, ts') => in_lines ts' /\ (length ts' <= length ts)%nat
  | Err e => in_file (pe_line e)
  | Panic => False
  end.

Variable last_line : nat.
Hypothesis last_in : in_file last_line.

Lemma current_in ts : in_lines ts -> in_file (current_line last_line ts).
Proof. destruct ts as [|t ts]; [done|]. by intros [H _]%Forall_cons. Qed.

Lemma fine_ret {A} (a : A) : fine (mret a).
Proof. by intros ts Hts. Qed.
Lemma fine_bind {A B} (p : parser A) (f : A -> parser B) : fine p -> (forall a, fine (f a)) -> fine (p ≫= f).
Proof.
  intros Hp Hf ts Hts. specialize (Hp ts Hts). unfold mbind, parser_bind. destruct (p ts) as [[a ts1]|e|]; [|done..].
  destruct Hp as [H1 Hl]. specialize (Hf a ts1 H1). destruct (f a ts1) as [[b ts2]|e|]; [|done..]. destruct Hf. split; [done|lia].
Qed.
Lemma fine_err {A} n msg : in_file n -> fine (@parse_err A n msg).
Proof. by intros Hn ts _. Qed.
Lemma fine_or_err {A} (p : parser A) n msg : in_file n -> fine p -> fine (or_err p n msg).
Proof. intros Hn Hp ts Hts. specialize (Hp ts Hts). unfold or_err. by destruct (p ts). Qed.

(** [expect_word] takes a token, and gives a line of the file. *)
Lemma expect_word_in ts : in_lines ts ->
  match expect_word last_line ts with
  | Ok ((_, n), ts') => in_file n /\ in_lines ts' /\ (length ts' < length ts)%nat
  | Err e => in_file (pe_line e)
  | Panic => False
  end.
Proof.
  destruct ts as [|[[w| | |] n] ts]; cbn [expect_word]; [done|intros [Hn Hts]%Forall_cons; cbn; auto with lia..].
Qed.
Lemma fine_word_line {B} (f : Str * nat -> parser B) : (forall w n, in_file n -> fine (f (w, n))) -> fine (expect_word last_line ≫= f).
Proof.
  intros Hf ts Hts. pose proof (expect_word_in ts Hts) as Hw. unfold mbind, parser_bind.
  destruct (expect_word last_line ts) as [[[w n] ts1]|e|]; [|done..]. destruct Hw as (Hn & H1 & Hl). specialize (Hf w n Hn ts1 H1).
  destruct (f (w, n) ts1) as [[b ts2]|e|]; [|done..]. destruct Hf. split; [done|lia].
Qed.
Lemma fine_expect_word : fine (expect_word last_line).
Proof. intros ts Hts. pose proof (expect_word_in ts Hts) as Hw. destruct (expect_word last_line ts) as [[[w n] ts1]|e|]; [|done..].
  destruct Hw as (_ & ? & ?). split; [done|lia]. Qed.
Lemma fine_word_or n msg : in_file n -> fine (word_or last_line n msg).
Proof. intros Hn. apply fine_bind; [apply fine_or_err; [done|apply fine_expect_word]|]. intros [w m]. apply fine_ret. Qed.
Lemma fine_any_word : fine (any_word last_line).
Proof. apply fine_bind; [apply fine_expect_word|]. intros [w m]. apply fine_ret. Qed.

Ltac by_token := intros ts Hts; destruct ts as [|[[w| | |] n] ts]; cbn; try (split; [done|lia]); first [done | apply Forall_cons in Hts as [Hn Hts]; cbn in Hn; first [done|split; [done|lia]|split; [by constructor|cbn; lia]]].
Lemma fine_take_word : fine take_word.
Proof. by_token. Qed.
Lemma fine_open : fine (expect_open_brace last_line).
Proof. by_token. Qed.
Lemma fine_close : fine (expect_close_brace last_line).
Proof. by_token. Qed.
Lemma fine_finish : fine finish_statement.
Proof. by_token. Qed.
Lemma fine_peek : fine peek_kind.
Proof. intros ts Hts. by split. Qed.
Lemma skip_newlines_in_spec ts : in_lines ts -> in_lines (skip_newlines_in ts) /\ (length (skip_newlines_in ts) <= length ts)%nat.
Proof.
  induction 1 as [|[k n] ts Hn Hts [IH Hl]]; [by split; [constructor|]|]. destruct k; cbn [skip_newlines_in length]; [split; [by constructor|lia]..|]. split; [done|lia].
Qed.
Lemma fine_skip : fine skip_newlines.
Proof. intros ts Hts. by apply skip_newlines_in_spec. Qed.
Lemma fine_uint max n msg s : in_file n -> fine (uint_or max n msg s).
Proof. intros Hn. unfold uint_or. destruct (parse_uint max s); [by apply fine_err|apply fine_ret]. Qed.
Lemma fine_words : fine rest_words.
Proof.
  intros ts Hts. cbn. induction Hts as [|[[w| | |] n] ts Hn Hts IH]; cbn [words_in]; [by split; [constructor|]| | | |]; try (split; [by constructor|cbn; lia]).
  destruct (words_in ts) as [ws rest]. destruct IH. cbn. split; [done|lia].
Qed.

(** A loop of statements has a turn for each token. *)
Lemma fine_block {S} msg (d : Str -> nat -> S -> parser S) s :
  (forall key n s, in_file n -> fine (d key n s)) -> fine (parse_block last_line msg d s).
Proof.
  intros Hd. assert (forall fuel s ts, in_lines ts -> (length ts < fuel)%nat ->
    match block_loop last_line msg d fuel s ts with
    | Ok (_, ts') => in_lines ts' /\ (length ts' <= length ts)%nat | Err e => in_file (pe_line e) | Panic => False end) as Hloop.
  { induction fuel as [|fuel IH]; intros s0 ts Hts Hf; [lia|]. cbn [block_loop]. destruct (skip_newlines_in_spec ts Hts) as [H1 Hl].
    destruct (skip_newlines_in ts) as [|[k n] ts1] eqn:Es; [by apply (current_in [])|].
    assert (in_file n) as Hn by by apply Forall_cons in H1 as [? _].
    destruct k; [|done|by split|]; try (by split). all: unfold mbind, parser_bind.
    all: pose proof (expect_word_in _ H1) as Hw; destruct (expect_word last_line _) as [[[key m] ts2]|e|]; [|done..].
    all: destruct Hw as (Hm & H2 & Hl2); specialize (Hd key m s0 Hm ts2 H2); destruct (d key m s0 ts2) as [[s1 ts3]|e|]; [|done..].
    all: destruct Hd as [H3 Hl3]; specialize (IH s1 ts3 H3 ltac:(lia)); destruct (block_loop _ _ _ _ _ ts3) as [[s2 ts4]|e|]; [|done..].
    all: destruct IH; split; [done|lia]. }
  intros ts Hts. unfold parse_block, mbind, parser_bind. specialize (Hloop (Datatypes.S (length ts)) s ts Hts ltac:(lia)).
  destruct (block_loop _ _ _ _ _ ts) as [[s1 ts1]|e|]; [|done..]. destruct Hloop as [H1 Hl]. pose proof (fine_close ts1 H1) as Hc.
  destruct (expect_close_brace last_line ts1) as [[u ts2]|e|]; [|done..]. cbn. destruct Hc. split; [done|lia].
Qed.

(** ** The loop over the mask lengths: every turn takes a word *)
Definition fine_upto {A} (m : nat) (p : parser A) : Prop := forall ts, in_lines ts -> (length ts < m)%nat ->
  match p ts with
  | Ok (_, ts') => in_lines ts' /\ (length ts' <= length ts)%nat
  | Err e => in_file (pe_line e)
  | Panic => False
  end.
Lemma upto_fine {A} m (p : parser A) : fine p -> fine_upto m p.
Proof. intros Hp ts Hts _. by apply Hp. Qed.
Lemma upto_bind {A B} m (p : parser A) (f : A -> parser B) : fine p -> (forall a, fine_upto m (f a)) -> fine_upto m (p ≫= f).
Proof.
  intros Hp Hf ts Hts Hm. specialize (Hp ts Hts). unfold mbind, parser_bind. destruct (p ts) as [[a ts1]|e|]; [|done..].
  destruct Hp as [H1 Hl]. specialize (Hf a ts1 H1 ltac:(lia)). destruct (f a ts1) as [[b ts2]|e|]; [|done..]. destruct Hf. split; [done|lia].
Qed.
Lemma upto_take_word {B} m (f : option Str -> parser B) w n ts : (forall a, fine_upto m (f a)) ->
  in_lines (mkToken (Word w) n :: ts) -> (length (mkToken (Word w) n :: ts) < S m)%nat ->
  match (take_word ≫= f) (mkToken (Word w) n :: ts) with
  | Ok (_, ts') => in_lines ts' /\ (length ts' <= length (mkToken (Word w) n :: ts))%nat
  | Err e => in_file (pe_line e)
  | Panic => False
  end.
Proof.
  intros Hf [_ Hts]%Forall_cons Hm. cbn [length] in *. specialize (Hf (Some w) ts Hts ltac:(lia)).
  unfold mbind, parser_bind. cbn [take_word]. destruct (f (Some w) ts) as [[b ts2]|e|]; [|done..]. destruct Hf. split; [done|lia].
Qed.
Lemma fine_masklength_loop fuel n : in_file n -> forall ge le exact, fine_upto fuel (masklength_loop last_line fuel n ge le exact).
Proof.
  intros Hn. induction fuel as [|fuel IH]; intros ge le exact ts Hts Hf; [lia|]. cbn [masklength_loop].
  destruct ts as [|[[w| | |] m] ts]; [done| |done..].
  destruct (w =s "exact"); [|destruct (w =s "ge"); [|destruct (w =s "le"); [|done]]];
    (destruct exact; [try done|]); try (destruct (_ || _); [done|]); (eapply upto_take_word; [intros _|exact Hts|exact Hf]); try done.
  all: apply upto_bind; [by apply fine_word_or|intros val]; apply upto_bind; [by apply fine_uint|intros v].
  all: destruct (bool_decide _); [by apply upto_fine, fine_err|apply IH].
Qed.
Lemma fine_masklength n : in_file n -> fine (parse_optional_masklength_range last_line n).
Proof.
  intros Hn ts Hts. unfold parse_optional_masklength_range, mbind, parser_bind.
  pose proof (fine_masklength_loop (S (length ts)) n Hn None None false ts Hts ltac:(lia)) as H.
  by destruct (masklength_loop _ _ _ _ _ _ ts) as [[r ts1]|e|].
Qed.

(** ** The parsers of the blocks *)
#[local] Hint Resolve fine_ret fine_err fine_word_or fine_any_word fine_take_word fine_open fine_close fine_finish fine_peek fine_skip
  fine_uint fine_words fine_expect_word : core.
#[local] Opaque word_or any_word take_word expect_word expect_open_brace expect_close_brace finish_statement peek_kind skip_newlines
  uint_or rest_words parse_block.

(** Takes a parser apart, down to the ones above. *)
Ltac fine_step :=
  lazymatch goal with
  | |- fine (parse_block _ _ _ _) => apply fine_block; intros
  | |- fine (expect_word _ ≫= _) => apply fine_word_line; intros
  | |- fine (_ ≫= _) => apply fine_bind; [|intros]
  | |- fine (let _ := _ in _) => cbv zeta
  | |- fine (match ?x with _ => _ end) => destruct x
  end.
Ltac fine_run := repeat first [progress auto | fine_step].

Lemma fine_braced {A} (block : parser A) : fine block -> fine (braced last_line block).
Proof. intros Hb. unfold braced. fine_run. Qed.
Lemma fine_named {A} n msg (block : Str -> parser A) : in_file n -> (forall w, fine (block w)) -> fine (named last_line n msg block).
Proof. intros Hn Hb. unfold named. fine_run. by apply fine_braced. Qed.
#[local] Hint Resolve fine_braced fine_named : core.
#[local] Opaque braced named.

Lemma fine_setting key n : in_file n -> fine (parse_setting key n).
Proof. intros Hn. unfold parse_setting. fine_run. Qed.
Lemma fine_scalar {T} (parse : Str -> Str + T) key n : in_file n -> fine (parse_scalar last_line parse key n).
Proof. intros Hn. unfold parse_scalar. fine_run. Qed.
Lemma fine_originate n : in_file n -> fine (parse_originate_setting last_line n).
Proof. intros Hn. unfold parse_originate_setting. fine_run. Qed.
#[local] Hint Resolve fine_setting fine_scalar fine_originate : core.

Lemma fine_family a s : fine (parse_family_block last_line a s).
Proof. unfold parse_family_block, family_directive, parse_policy_directive, parse_max_prefix, parse_add_path_send. fine_run. Qed.
#[local] Hint Resolve fine_family : core.
Lemma fine_peer address : fine (parse_peer_block last_line address).
Proof. unfold parse_peer_block, peer_directive. fine_run. Qed.

Lemma fine_rpki_validation n : in_file n -> fine (parse_rpki_validation last_line n).
Proof. intros Hn. unfold parse_rpki_validation. fine_run. Qed.
Lemma fine_match_set_ref n : in_file n -> fine (parse_match_set_ref last_line n).
Proof. intros Hn. unfold parse_match_set_ref. fine_run. Qed.
Lemma fine_number max name n : in_file n -> fine (number_clause last_line max name n).
Proof. intros Hn. unfold number_clause. fine_run. Qed.
Lemma fine_community_op n : in_file n -> fine (parse_community_op last_line n).
Proof. intros Hn. unfold parse_community_op. fine_run. Qed.
#[local] Hint Resolve fine_rpki_validation fine_match_set_ref fine_number fine_community_op : core.
Lemma fine_match_clause n : in_file n -> fine (parse_match_clause last_line n).
Proof. intros Hn. unfold parse_match_clause, match_clause_of. fine_run. Qed.
Lemma fine_set_clause n : in_file n -> fine (parse_set_clause last_line n).
Proof. intros Hn. unfold parse_set_clause, set_clause_of, parse_local_pref, parse_med. fine_run. Qed.
#[local] Hint Resolve fine_match_clause fine_set_clause : core.
Lemma fine_statement name : fine (parse_statement_block last_line name).
Proof. unfold parse_statement_block, statement_directive, set_disposition. fine_run. Qed.
#[local] Hint Resolve fine_statement : core.
Lemma fine_policy name : fine (parse_policy_block last_line name).
Proof. unfold parse_policy_block, policy_rule, parse_statement_rule. fine_run. Qed.
#[local] Hint Resolve fine_peer fine_policy fine_masklength : core.

Lemma fine_prefix_list name : fine (parse_prefix_list_block last_line name).
Proof. unfold parse_prefix_list_block, prefix_list_entry. fine_run. Qed.
Lemma fine_word_list kind : fine (parse_word_list_block last_line kind).
Proof. unfold parse_word_list_block, word_list_entry. fine_run. Qed.
#[local] Hint Resolve fine_prefix_list fine_word_list : core.
Lemma fine_bmp_server address : fine (parse_bmp_server_block last_line address).
Proof. unfold parse_bmp_server_block, bmp_directive. fine_run. Qed.
Lemma fine_bgp_ls : fine (parse_bgp_ls_block last_line).
Proof. unfold parse_bgp_ls_block, bgp_ls_directive. fine_run. Qed.
Lemma fine_rpki_cache address : fine (parse_rpki_cache_block last_line address).
Proof. unfold parse_rpki_cache_block, rpki_directive. fine_run. Qed.
Lemma fine_no_directive : fine (no_directive last_line).
Proof.
  intros ts Hts. destruct ts as [|[[w| | |] n] ts]; cbn [no_directive]; [exact last_in| |by apply Forall_cons in Hts as [? _]|done|].
  all: apply (fine_word_line (fun '(key, line) => parse_err line (str "unknown json directive '" ++ key ++ str "'")));
    [intros w' m Hm; by apply fine_err|exact Hts].
Qed.
Lemma fine_json : fine (parse_telemetry_json_block last_line).
Proof. pose proof fine_no_directive. unfold parse_telemetry_json_block. fine_run. Qed.
Lemma fine_emf n : in_file n -> fine (parse_cloudwatch_emf_block last_line n).
Proof. intros Hn. unfold parse_cloudwatch_emf_block, emf_directive. fine_run. Qed.
Lemma fine_prometheus : fine (parse_prometheus_block last_line).
Proof. unfold parse_prometheus_block, prometheus_directive. fine_run. Qed.
#[local] Hint Resolve fine_json fine_emf fine_prometheus : core.
Lemma fine_telemetry n : in_file n -> fine (parse_telemetry_block last_line n).
Proof. intros Hn. unfold parse_telemetry_block, telemetry_directive. fine_run. Qed.
#[local] Hint Resolve fine_bmp_server fine_bgp_ls fine_rpki_cache fine_telemetry : core.
Lemma fine_body : fine (parse_bgp_body last_line).
Proof.
  unfold parse_bgp_body, body_directive, parse_neighbor_set_block, parse_as_path_set_block, parse_community_set_block,
    parse_ext_community_set_block, parse_large_community_set_block. fine_run; apply fine_named; intros; fine_run.
Qed.

(** ** The file *)
Lemma fine_service_name n : in_file n -> fine (service_name last_line n).
Proof. intros Hn. unfold service_name. fine_run. Qed.
#[local] Hint Resolve fine_service_name fine_body : core.

(** A service after its keyword. *)
Lemma upto_service m n l : in_file n -> (forall l, fine_upto m (root_loop last_line m l)) ->
  fine_upto m (name ← service_name last_line n; _ ← skip_newlines; _ ← expect_open_brace last_line;
    if name =s "bgp" then body ← parse_bgp_body last_line; root_loop last_line m (l ++ [Bgp body])
    else parse_err n (str "unknown service '" ++ name ++ str "'")).
Proof.
  intros Hn Hm. do 3 (apply upto_bind; [by auto|intros]). destruct (_ =s _); [|by apply upto_fine, fine_err].
  apply upto_bind; [by auto|intros]. apply Hm.
Qed.
#[local] Transparent expect_word.
Lemma fine_root_loop m : forall l, fine_upto m (root_loop last_line m l).
Proof.
  induction m as [|m IH]; intros l ts Hts Hm; [lia|]. cbn [root_loop]. destruct (skip_newlines_in_spec ts Hts) as [H1 Hl].
  destruct (skip_newlines_in ts) as [|[[w| | |] n] ts1] eqn:Es; [done| | | |].
  - apply Forall_cons in H1 as [Hn H1]. cbn [tk_line length] in *. unfold mbind at 1, parser_bind at 1. cbn [LangBgp.expect_word].
    destruct (negb (w =s "service")); [done|]. pose proof (upto_service m n l Hn IH ts1 H1 ltac:(lia)) as Hs.
    match type of Hs with match ?r with _ => _ end => destruct r as [[r' ts2]|e|]; [|done..] end. destruct Hs. split; [done|lia].
  - by apply Forall_cons in H1 as [? _].
  - by apply Forall_cons in H1 as [? _].
  - exfalso. clear -Es. induction ts as [|[[]] ts IH]; cbn in Es; try discriminate. by apply IH.
Qed.
End parsers.

Lemma imap_in_file count ls : forall f : nat -> nat, (forall i, (i < length ls)%nat -> in_file count (f i)) ->
  in_lines count (concat (imap (fun i raw => map (fun k => mkToken k (f i)) (lex (strip_comment raw) ++ [Newline])) ls)).
Proof.
  induction ls as [|l ls IH]; intros f Hf; [constructor|]. rewrite imap_cons. cbn [concat]. apply Forall_app. split.
  - apply Forall_map, Forall_forall. intros k _. apply (Hf 0%nat). cbn. lia.
  - apply (IH (f ∘ S)). intros i Hi. apply Hf. cbn. lia.
Qed.
Lemma tokens_in_file input : in_lines (length (lines input)) (tokenize input).
Proof. apply imap_in_file. intros i Hi. unfold in_file. lia. Qed.

Lemma parse_fine input :
  match parse input with
  | Ok _ => True
  | Err e => (1 <= pe_line e <= length (lines input))%nat
  | Panic => False
  end.
Proof.
  unfold parse. pose proof (tokens_in_file input) as Ht. destruct (tokenize input) as [|t ts] eqn:E; [done|].
  destruct (last (t :: ts)) as [t'|] eqn:El; [|by apply last_None in El].
  assert (in_file (length (lines input)) (tk_line t')) as Hin.
  { apply last_Some in El as [l El]. rewrite El in Ht. apply Forall_app in Ht as [_ Ht]. by apply Forall_cons in Ht as [? _]. }
  pose proof (fine_root_loop _ _ Hin (S (length (t :: ts))) [] (t :: ts) Ht ltac:(lia)) as Hr.
  unfold parse_root, mbind, parser_bind. by destruct (root_loop _ _ _ _) as [[r ts']|e|].
Qed.

(** C26. Every text is either read or refused at one of its lines: the lexer and
    the parsers of every block end (each turn of a loop takes a token), and the
    line of the error is between 1 and the number of lines of the text. *)
Theorem parse_total input :
  match parse input with
  | Ok _ => True
  | Err e => (1 <= pe_line e <= length (lines input))%nat
  | Panic => False
  end.
Proof. apply parse_fine. Qed.

(** * The configuration language: the numbers of a parsed tree are in their types

    [gives P p]: whatever tokens [p] reads, what it returns satisfies [P]. *)

(** ** Numbers *)
Lemma from_uint_range max s v : 0 <= max -> from_uint max s = inr v -> 0 <= v <= max.
Proof. intros Hm. unfold from_uint. destruct (parse_uint max s) eqn:E; [done|]. intros [= <-]. by apply parse_uint_range in E. Qed.

(** ** Trees *)
Definition opt_typed (P : Z -> Prop) (o : option Z) : Prop := match o with Some v => P v | None => True end.
Definition setting_typed (s : Setting) : Prop :=
  match s with
  | SAsn v | SRemoteAs v | SRouterId v | SClusterId v => u32 v
  | SHoldTime v | SConnectRetry v | SEnhancedRrStaleTtl v | SDelayOpenTimeSecs v | SIdleHoldTimeSecs v
  | SMinRouteAdvertisementIntervalSecs v => u64 v
  | SPort v => u16 v
  | STtlMin v => u8 v
  | _ => True
  end.
Definition directive_typed (d : FamilyDirective) : Prop := match d with MaxPrefix limit _ => u32 limit | _ => True end.
Definition family_typed (b : FamilyBlock) : Prop := Forall directive_typed (fb_directives b).
Definition peer_typed (b : PeerBlock) : Prop := Forall setting_typed (pb_settings b) /\ Forall family_typed (pb_families b).
Definition match_typed (c : MatchClause) : Prop := match c with McHasAsn v | McLsNodeAs v => u32 v | McLsInstanceId v => u64 v | _ => True end.
Definition set_typed (c : SetClause) : Prop := match c with ScLocalPref v _ | ScMed (MedTo v) => u32 v | _ => True end.
Definition statement_typed (b : StatementBlock) : Prop := Forall match_typed (sb_matches b) /\ Forall set_typed (sb_sets b).
Definition rule_typed (r : PolicyRule) : Prop := match r with PrStatement b => statement_typed b | _ => True end.
Definition policy_typed (b : PolicyBlock) : Prop := Forall rule_typed (po_rules b).
Definition range_typed (r : option MasklengthRange) : Prop := match r with Some (Range ge le) => opt_typed u8 ge /\ opt_typed u8 le | _ => True end.
Definition prefix_list_typed (b : PrefixListBlock) : Prop := Forall (fun e => range_typed (ple_range e)) (pl_prefixes b).
Definition bmp_typed (b : BmpServerBlock) : Prop := opt_typed u64 (bm_statistics_timeout b).
Definition ls_typed (b : BgpLsBlock) : Prop := u64 (bl_instance_id b).
Definition cache_typed (b : RpkiCacheBlock) : Prop :=
  opt_typed u8 (rc_preference b) /\ opt_typed u64 (rc_retry_interval b) /\ opt_typed u64 (rc_refresh_interval b) /\ opt_typed u64 (rc_expire_interval b).
Record body_typed (b : BgpServiceBody) : Prop := {
  bt_settings : Forall setting_typed (bs_settings b);
  bt_peers : Forall peer_typed (bs_peers b);
  bt_policies : Forall policy_typed (bs_policies b);
  bt_prefix_lists : Forall prefix_list_typed (bs_prefix_lists b);
  bt_bmp : Forall bmp_typed (bs_bmp_servers b);
  bt_caches : Forall cache_typed (bs_rpki_caches b);
  bt_ls : match bs_bgp_ls b with Some l => ls_typed l | None => True end;
}.
Definition service_typed (s : Service) : Prop := match s with Bgp body => body_typed body end.

(** ** Parsers *)
Definition gives {A} (P : A -> Prop) (p : parser A) : Prop := forall ts a ts', p ts = Ok (a, ts') -> P a.
Lemma gives_any {A} (p : parser A) : gives (fun _ => True) p.
Proof. done. Qed.
Lemma gives_ret {A} (P : A -> Prop) a : P a -> gives P (mret a).
Proof. by intros Ha ts a' ts' [= <- <-]. Qed.
Lemma gives_err {A} (P : A -> Prop) n msg : gives P (@parse_err A n msg).
Proof. by intros ts a ts'. Qed.
Lemma gives_bind {A B} (Q : A -> Prop) (P : B -> Prop) (p : parser A) f : gives Q p -> (forall a, Q a -> gives P (f a)) -> gives P (p ≫= f).
Proof.
  intros Hp Hf ts b ts'. unfold mbind, parser_bind. destruct (p ts) as [[a ts1]| |] eqn:E; [|done..]. intros H. exact (Hf a (Hp _ _ _ E) _ _ _ H).
Qed.
Lemma gives_uint max n msg s : 0 <= max -> gives (fun v => 0 <= v <= max) (uint_or max n msg s).
Proof.
  intros Hm. unfold uint_or. destruct (parse_uint max s) eqn:E; [apply gives_err|]. apply gives_ret. by apply parse_uint_range in E.
Qed.

Section parsers.
Variable last_line : nat.

Lemma gives_scalar {T} (P : T -> Prop) (parse : Str -> Str + T) key n :
  (forall s v, parse s = inr v -> P v) -> gives P (parse_scalar last_line parse key n).
Proof.
  intros Hp. unfold parse_scalar. apply (gives_bind (fun _ => True)); [apply gives_any|]. intros v _. destruct (parse v) eqn:E; [apply gives_err|].
  apply (gives_bind (fun _ => True)); [apply gives_any|]. intros _ _. apply gives_ret. by eapply Hp.
Qed.
Lemma gives_block {S} (I : S -> Prop) msg (d : Str -> nat -> S -> parser S) s :
  I s -> (forall key n s, I s -> gives I (d key n s)) -> gives I (parse_block last_line msg d s).
Proof.
  intros Hs Hd. assert (forall fuel s ts s' ts', I s -> block_loop last_line msg d fuel s ts = Ok (s', ts') -> I s') as Hloop.
  { induction fuel as [|fuel IH]; intros s0 ts s' ts' H0; [done|]. cbn [block_loop].
    destruct (skip_newlines_in ts) as [|[[w| | |] n] ts1]; [done| |done|by intros [= <- <-]|].
    all: unfold mbind, parser_bind; destruct (expect_word last_line _) as [[[key m] ts2]| |]; [|done..].
    all: destruct (d key m s0 ts2) as [[s1 ts3]| |] eqn:Ed; [|done..]; apply IH; by eapply Hd. }
  intros ts a ts'. unfold parse_block, mbind, parser_bind. destruct (block_loop _ _ _ _ _ ts) as [[s1 ts1]| |] eqn:E; [|done..].
  destruct (expect_close_brace last_line ts1) as [[u ts2]| |]; [|done..]. intros [= <- <-]. by eapply Hloop.
Qed.

#[local] Opaque word_or any_word take_word expect_word expect_open_brace expect_close_brace finish_statement peek_kind skip_newlines
  uint_or rest_words parse_block parse_scalar parse_setting.

Lemma snoc_typed {A} (P : A -> Prop) l a : Forall P l -> P a -> Forall P (l ++ [a]).
Proof. intros Hl Ha. apply Forall_app. by split; [|apply Forall_singleton]. Qed.

(** Takes a parser apart; what it reads is any word unless a lemma says more. *)
Create HintDb typed.
Ltac gives_step :=
  lazymatch goal with
  | |- gives _ (mret _) => apply gives_ret
  | |- gives _ (parse_err _ _) => apply gives_err
  | |- gives _ (_ ≫= _) => eapply gives_bind; [first [solve [eauto with typed nocore] | apply gives_any]|intros]
  | |- gives _ (match ?x with _ => _ end) => destruct x
  | |- gives _ (fun _ => Err _) => by intros ? ? ?
  end.
Ltac gives_run := repeat first [solve [eauto with typed nocore] | gives_step].

Lemma u_le k v : 0 <= v <= 2 ^ k - 1 -> 0 <= v < 2 ^ k.
Proof. lia. Qed.
Lemma gives_u32 n msg s : gives u32 (uint_or (2 ^ 32 - 1) n msg s).
Proof. intros ts v ts' H. apply gives_uint in H; [|lia]. unfold u32. lia. Qed.
Lemma gives_u8 n msg s : gives u8 (uint_or (2 ^ 8 - 1) n msg s).
Proof. intros ts v ts' H. apply gives_uint in H; [|lia]. unfold u8. lia. Qed.
Lemma scalar_u64 key n : gives u64 (parse_scalar last_line from_u64 key n).
Proof. apply gives_scalar. intros s v Hv%from_uint_range; unfold u64; lia. Qed.
Lemma scalar_u8 key n : gives u8 (parse_scalar last_line from_u8 key n).
Proof. apply gives_scalar. intros s v Hv%from_uint_range; unfold u8; lia. Qed.
Lemma number_u32 name n : gives u32 (number_clause last_line (2 ^ 32 - 1) name n).
Proof. unfold number_clause. eapply gives_bind; [apply gives_any|intros]. apply gives_u32. Qed.
Lemma number_u64 name n : gives u64 (number_clause last_line (2 ^ 64 - 1) name n).
Proof.
  unfold number_clause. eapply gives_bind; [apply gives_any|intros]. intros ts v ts' Hu. apply gives_uint in Hu; [|lia]. unfold u64. lia.
Qed.
#[local] Hint Resolve gives_u32 gives_u8 scalar_u64 scalar_u8 number_u32 number_u64 : typed.

#[local] Transparent parse_setting.
Lemma setting_parse_typed key val s : setting_parse key val = inr s -> setting_typed s.
Proof.
  unfold setting_parse, parse_value. intros E0.
  repeat match type of E0 with (if ?b then _ else _) = _ => destruct b end; try done; (destruct val as [w|]; [|done]).
  all: match type of E0 with match ?p with inl _ => _ | inr _ => _ end = _ => destruct p eqn:E; [done|] end; injection E0 as <-; cbn; try done.
  all: first
    [ unfold from_ipv4 in E; destruct (parse_ipv4 w) as [a|] eqn:Ea; [|done]; injection E as <-; by apply parse_ipv4_u32 in Ea
    | apply from_uint_range in E; unfold u8, u16, u32, u64; lia ].
Qed.
Lemma setting_gives key n : gives setting_typed (parse_setting key n).
Proof.
  unfold parse_setting. eapply gives_bind; [apply gives_any|intros]. eapply gives_bind; [apply gives_any|intros].
  destruct (setting_parse key a) eqn:E; [apply gives_err|]. apply gives_ret. by eapply setting_parse_typed.
Qed.
#[local] Opaque parse_setting.
#[local] Hint Resolve setting_gives : typed.

Lemma directive_gives key n : gives directive_typed (if (key =s "export") || (key =s "import") then parse_policy_directive last_line key n
  else if key =s "max-prefix" then parse_max_prefix last_line n
  else if key =s "add-path-send" then parse_add_path_send last_line n
  else parse_err n (str "unknown family directive '" ++ key ++ str "'")).
Proof. unfold parse_policy_directive, parse_max_prefix, parse_add_path_send. gives_run; cbn; auto. by destruct (key =s "export"). Qed.
#[local] Hint Resolve directive_gives : typed.
Lemma family_gives a s : gives family_typed (parse_family_block last_line a s).
Proof.
  unfold parse_family_block. eapply gives_bind; [apply (gives_block (Forall directive_typed)); [constructor|]|intros; by apply gives_ret].
  intros key n ds Hds. unfold family_directive. eapply gives_bind; [apply directive_gives|intros d Hd].
  eapply gives_bind; [apply gives_any|intros]. apply gives_ret. by apply snoc_typed.
Qed.
#[local] Hint Resolve family_gives : typed.
Lemma braced_gives {A} (P : A -> Prop) (block : parser A) : gives P block -> gives P (braced last_line block).
Proof. intros Hb. unfold braced. gives_run. Qed.
Lemma named_gives {A} (P : A -> Prop) n msg (block : Str -> parser A) : (forall w, gives P (block w)) -> gives P (named last_line n msg block).
Proof. intros Hb. unfold named. gives_run. by apply braced_gives. Qed.
#[local] Opaque braced named.
#[local] Hint Resolve braced_gives named_gives : typed.

Lemma peer_gives address : gives peer_typed (parse_peer_block last_line address).
Proof.
  apply gives_block; [by split; constructor|]. intros key n b [Hs Hf]. unfold peer_directive.
  destruct (key =s "family").
  - do 4 (eapply gives_bind; [apply gives_any|intros]). eapply gives_bind; [apply braced_gives, family_gives|intros f Hfam].
    apply gives_ret. split; [done|by apply snoc_typed].
  - eapply gives_bind; [apply setting_gives|intros]. apply gives_ret. split; [by apply snoc_typed|done].
Qed.

Lemma match_gives n : gives match_typed (parse_match_clause last_line n).
Proof.
  unfold parse_match_clause. eapply gives_bind; [apply gives_any|intros kind _].
  apply (gives_bind match_typed); [|intros c Hc; eapply gives_bind; [apply gives_any|intros; by apply gives_ret]].
  unfold match_clause_of. cbv zeta. gives_run; cbn; auto.
Qed.
Lemma set_gives n : gives set_typed (parse_set_clause last_line n).
Proof.
  unfold parse_set_clause. eapply gives_bind; [apply gives_any|intros kind _].
  apply (gives_bind set_typed); [|intros c Hc; eapply gives_bind; [apply gives_any|intros; by apply gives_ret]].
  unfold set_clause_of, parse_local_pref, parse_med. gives_run; cbn; auto.
Qed.
Lemma statement_gives name : gives statement_typed (parse_statement_block last_line name).
Proof.
  apply gives_block; [by split; constructor|]. intros key n b [Hm Hs]. unfold statement_directive, set_disposition.
  destruct (key =s "match"); [|destruct (key =s "set")].
  - eapply gives_bind; [apply match_gives|intros]. apply gives_ret. split; [by apply snoc_typed|done].
  - eapply gives_bind; [apply set_gives|intros]. apply gives_ret. split; [done|by apply snoc_typed].
  - gives_run; done.
Qed.
#[local] Hint Resolve statement_gives : typed.
Lemma policy_gives name : gives policy_typed (parse_policy_block last_line name).
Proof.
  unfold parse_policy_block. eapply gives_bind; [apply (gives_block (Forall rule_typed)); [constructor|]|intros; by apply gives_ret].
  intros key n rules Hr. unfold policy_rule, parse_statement_rule. apply (gives_bind rule_typed); [|intros r Hr1; apply gives_ret; by apply snoc_typed].
  gives_run; cbn; auto.
Qed.

Lemma masklength_gives fuel n : forall ge le exact, opt_typed u8 ge -> opt_typed u8 le ->
  gives (fun '(ge, le, _) => opt_typed u8 ge /\ opt_typed u8 le) (masklength_loop last_line fuel n ge le exact).
Proof.
  induction fuel as [|fuel IH]; intros ge le exact Hg Hl; [done|]. intros ts a ts'. cbn [masklength_loop].
  assert (gives (fun '(ge, le, _) => opt_typed u8 ge /\ opt_typed u8 le) (fun ts => Ok ((ge, le, exact), ts))) as Hstop by by intros ? ? ? [= <- <-].
  destruct ts as [|[[w| | |] m] ts]; try apply Hstop.
  destruct (w =s "exact"); [|destruct (w =s "ge"); [|destruct (w =s "le"); [|apply Hstop]]].
  all: match goal with |- ?p ?ts = _ -> _ => set (q := p); revert q; generalize ts; intros ts1 q; revert ts1 end.
  all: match goal with q := ?p |- _ => enough (gives (fun '(ge, le, _) => opt_typed u8 ge /\ opt_typed u8 le) p) as Hq
    by (intros ts1 Hr; exact (Hq _ _ _ Hr)) end.
  all: gives_run; by apply IH.
Qed.
Lemma range_gives n : gives range_typed (parse_optional_masklength_range last_line n).
Proof.
  intros ts r ts'. unfold parse_optional_masklength_range, mbind, parser_bind.
  destruct (masklength_loop _ _ _ _ _ _ ts) as [[[[ge le] exact] ts1]| |] eqn:E; [|done..]. apply masklength_gives in E as [Hg Hl]; [|done..].
  intros [= <- <-]. unfold make_range. destruct exact; [done|]. destruct ge, le; done.
Qed.
Lemma prefix_list_gives name : gives prefix_list_typed (parse_prefix_list_block last_line name).
Proof.
  unfold parse_prefix_list_block. eapply gives_bind; [apply (gives_block (Forall (fun e => range_typed (ple_range e)))); [constructor|]|intros; by apply gives_ret].
  intros key n es Hes. unfold prefix_list_entry. eapply gives_bind; [apply range_gives|intros r Hr]. eapply gives_bind; [apply gives_any|intros].
  apply gives_ret. by apply snoc_typed.
Qed.

Lemma bmp_gives address : gives bmp_typed (parse_bmp_server_block last_line address).
Proof. apply gives_block; [done|]. intros key n b Hb. unfold bmp_directive. gives_run; done. Qed.
Lemma ls_gives : gives ls_typed (parse_bgp_ls_block last_line).
Proof. apply gives_block; [done|]. intros key n b Hb. unfold bgp_ls_directive. gives_run; done. Qed.
Lemma cache_gives address : gives cache_typed (parse_rpki_cache_block last_line address).
Proof.
  apply gives_block; [done|]. intros key n [] (H1 & H2 & H3 & H4). unfold rpki_directive. cbn in H1, H2, H3, H4. gives_run; by split_and!.
Qed.

Lemma body_gives : gives body_typed (parse_bgp_body last_line).
Proof.
  apply gives_block; [by split|]. intros key n b [H1 H2 H3 H4 H5 H6 H7]. unfold body_directive.
  repeat match goal with |- gives _ (if ?c then _ else _) => destruct c end; try apply gives_err.
  all: first
    [ eapply gives_bind; [first [apply named_gives; intros w; first [apply peer_gives|apply policy_gives|apply prefix_list_gives|apply bmp_gives|apply cache_gives]
        |apply braced_gives, ls_gives|apply setting_gives]|intros x Hx; apply gives_ret; by split; try apply snoc_typed]
    | eapply gives_bind; [apply gives_any|intros x _]; first [apply gives_ret; by split|idtac] ].
  eapply gives_bind; [apply gives_any|intros _ _]. apply gives_ret. by split; try apply snoc_typed.
Qed.

(** ** The file *)
Lemma root_loop_typed fuel : forall l ts l' ts', Forall service_typed l -> root_loop last_line fuel l ts = Ok (l', ts') -> Forall service_typed l'.
Proof.
  induction fuel as [|fuel IH]; intros l ts l' ts' Hl; [done|]. cbn [root_loop].
  destruct (skip_newlines_in ts) as [|[[w| | |] n] ts1]; [by intros [= <- _]| |done|done|].
  all: unfold mbind, parser_bind; destruct (expect_word last_line _) as [[[kw m] ts2]| |]; [|done..].
  all: destruct (negb (kw =s "service")); [done|]; destruct (service_name last_line m ts2) as [[name ts3]| |]; [|done..].
  all: destruct (skip_newlines ts3) as [[u ts4]| |]; [|done..]; destruct (expect_open_brace last_line ts4) as [[u2 ts5]| |]; [|done..].
  all: destruct (name =s "bgp"); [|done]; destruct (parse_bgp_body last_line ts5) as [[body ts6]| |] eqn:E; [|done..].
  all: apply IH, snoc_typed; [done|]; by apply body_gives in E.
Qed.
End parsers.

(** The tree of any text that parses. *)
Lemma parse_typed input r : parse input = Ok r -> Forall service_typed (services r).
Proof.
  unfold parse, parse_root, mbind, parser_bind. destruct (root_loop _ _ _ _) as [[l ts]| |] eqn:E; [|done..]. intros [= <-].
  by eapply root_loop_typed.
Qed.
