(* ===== verification/Grammar.v ===== *)
(** * The configuration language: the settings a shell can edit
    ([conf/src/language_bgp.rs], from [ValueKind] on)

    One enumeration for each block, with the word of a setting, its help and
    the shape of its value.  [validate] is the test the shell makes of a token;
    [SchemaKey] is the trait of [ggsh/src/grammar.rs] over the enumerations. *)
From S2P Require Import Prelude Net BgpLs Attrs Text LangBgp.

Inductive ValueKind := VkAsn | VkIpv4 | VkIpAddr | VkAddrPort | VkPrefix | VkAfi | VkSafi | VkLogLevel | VkString | VkBool | VkU8 | VkU16 | VkU64 | VkTransport | VkPolicyName | VkSetName | VkAction.
#[export] Instance ValueKind_eq_dec : EqDecision ValueKind.
Proof. solve_decision. Defined.

Definition is_uint (max : Z) (token : Str) : bool := match parse_uint max token with inr _ => true | inl _ => false end.
Definition not_empty (token : Str) : bool := match token with [] => false | _ => true end.
(** [ValueKind::validate] *)
Definition validate (kind : ValueKind) (token : Str) : bool :=
  match kind with
  | VkAsn => is_uint (2 ^ 32 - 1) token
  | VkIpv4 => bool_decide (is_Some (parse_ipv4 token))
  | VkIpAddr => bool_decide (is_Some (parse_ip token))
  | VkAddrPort => bool_decide (is_Some (parse_socket_addr token))
  | VkPrefix => existsb (fun c => c =? 47) token
  | VkAfi => (token =s "ipv4") || (token =s "ipv6") || (token =s "ls")
  | VkSafi => (token =s "unicast") || (token =s "multicast")
  | VkLogLevel | VkString | VkPolicyName | VkSetName | VkAction => not_empty token
  | VkBool => (token =s "true") || (token =s "false")
  | VkU8 => is_uint (2 ^ 8 - 1) token
  | VkU16 => is_uint (2 ^ 16 - 1) token
  | VkU64 => is_uint (2 ^ 64 - 1) token
  | VkTransport => (token =s "tcp") || (token =s "ssh")
  end.

Inductive TopKey := TkAsn | TkRouterId | TkListenAddr | TkGrpcListenAddr | TkLogLevel | TkHoldTime | TkConnectRetry | TkClusterId | TkSysName |
  TkSysDescr | TkEnhancedRrStaleTtl.
Definition tk_all : list TopKey :=
  [TkAsn; TkRouterId; TkListenAddr; TkGrpcListenAddr; TkLogLevel; TkHoldTime; TkConnectRetry; TkClusterId; TkSysName; TkSysDescr;
   TkEnhancedRrStaleTtl].
Definition tk_as_str (k : TopKey) : Str :=
  match k with
  | TkAsn => str "asn"
  | TkRouterId => str "router-id"
  | TkListenAddr => str "listen-addr"
  | TkGrpcListenAddr => str "grpc-listen-addr"
  | TkLogLevel => str "log-level"
  | TkHoldTime => str "hold-time"
  | TkConnectRetry => str "connect-retry"
  | TkClusterId => str "cluster-id"
  | TkSysName => str "sys-name"
  | TkSysDescr => str "sys-descr"
  | TkEnhancedRrStaleTtl => str "enhanced-rr-stale-ttl"
  end.
Definition tk_help (k : TopKey) : Str :=
  match k with
  | TkAsn => str "Local autonomous system number"
  | TkRouterId => str "BGP router ID (IPv4)"
  | TkListenAddr => str "BGP listen address (host:port)"
  | TkGrpcListenAddr => str "gRPC management listen address (host:port)"
  | TkLogLevel => str "Daemon log level (e.g. debug, info)"
  | TkHoldTime => str "Hold time in seconds"
  | TkConnectRetry => str "Connect retry interval in seconds"
  | TkClusterId => str "Route reflector cluster ID (IPv4)"
  | TkSysName => str "System name advertised in BMP / ops tooling"
  | TkSysDescr => str "System description string"
  | TkEnhancedRrStaleTtl => str "Enhanced route refresh stale TTL (seconds)"
  end.
Definition tk_value_kind (k : TopKey) : ValueKind :=
  match k with
  | TkAsn => VkAsn
  | TkRouterId => VkIpv4
  | TkListenAddr => VkAddrPort
  | TkGrpcListenAddr => VkAddrPort
  | TkLogLevel => VkLogLevel
  | TkHoldTime => VkU64
  | TkConnectRetry => VkU64
  | TkClusterId => VkIpv4
  | TkSysName => VkString
  | TkSysDescr => VkString
  | TkEnhancedRrStaleTtl => VkU64
  end.

Inductive PeerKey := PkRemoteAs | PkPort | PkInterface | PkMd5KeyFile | PkTtlMin | PkNextHopSelf | PkPassive | PkRrClient | PkRsClient |
  PkGracefulShutdown | PkDelayOpenTimeSecs | PkIdleHoldTimeSecs | PkDampPeerOscillations | PkAllowAutomaticStop |
  PkSendNotificationWithoutOpen | PkMinRouteAdvertisementIntervalSecs | PkEnforceFirstAs | PkSendRpkiCommunity | PkAdminDown.
Definition pk_all : list PeerKey :=
  [PkRemoteAs; PkPort; PkInterface; PkMd5KeyFile; PkTtlMin; PkNextHopSelf; PkPassive; PkRrClient; PkRsClient; PkGracefulShutdown;
   PkDelayOpenTimeSecs; PkIdleHoldTimeSecs; PkDampPeerOscillations; PkAllowAutomaticStop; PkSendNotificationWithoutOpen;
   PkMinRouteAdvertisementIntervalSecs; PkEnforceFirstAs; PkSendRpkiCommunity; PkAdminDown].
Definition pk_as_str (k : PeerKey) : Str :=
  match k with
  | PkRemoteAs => str "remote-as"
  | PkPort => str "port"
  | PkInterface => str "interface"
  | PkMd5KeyFile => str "md5-key-file"
  | PkTtlMin => str "ttl-min"
  | PkNextHopSelf => str "next-hop-self"
  | PkPassive => str "passive"
  | PkRrClient => str "rr-client"
  | PkRsClient => str "rs-client"
  | PkGracefulShutdown => str "graceful-shutdown"
  | PkDelayOpenTimeSecs => str "delay-open-time-secs"
  | PkIdleHoldTimeSecs => str "idle-hold-time-secs"
  | PkDampPeerOscillations => str "damp-peer-oscillations"
  | PkAllowAutomaticStop => str "allow-automatic-stop"
  | PkSendNotificationWithoutOpen => str "send-notification-without-open"
  | PkMinRouteAdvertisementIntervalSecs => str "min-route-advertisement-interval-secs"
  | PkEnforceFirstAs => str "enforce-first-as"
  | PkSendRpkiCommunity => str "send-rpki-community"
  | PkAdminDown => str "admin-down"
  end.
Definition pk_help (k : PeerKey) : Str :=
  match k with
  | PkRemoteAs => str "Peer ASN"
  | PkPort => str "Peer TCP port"
  | PkInterface => str "Outgoing interface (link-local peers)"
  | PkMd5KeyFile => str "Path to TCP MD5 key file"
  | PkTtlMin => str "Minimum incoming TTL (RFC 5082)"
  | PkNextHopSelf => str "Set self as next-hop on advertisements"
  | PkPassive => str "Passive mode (do not initiate connections)"
  | PkRrClient => str "Treat peer as a route-reflector client"
  | PkRsClient => str "Treat peer as a route-server client"
  | PkGracefulShutdown => str "Send graceful shutdown community on outbound"
  | PkDelayOpenTimeSecs => str "Delay before sending OPEN (seconds)"
  | PkIdleHoldTimeSecs => str "Idle hold time before retry (seconds)"
  | PkDampPeerOscillations => str "Damp peer oscillations"
  | PkAllowAutomaticStop => str "Allow automatic state transition to Idle"
  | PkSendNotificationWithoutOpen => str "Send NOTIFICATION before OPEN exchange"
  | PkMinRouteAdvertisementIntervalSecs => str "MinRouteAdvertisementInterval (seconds)"
  | PkEnforceFirstAs => str "Reject UPDATE if peer ASN is not first in AS_PATH"
  | PkSendRpkiCommunity => str "Append RPKI validation community to outbound"
  | PkAdminDown => str "Administratively disable the peer"
  end.
Definition pk_value_kind (k : PeerKey) : ValueKind :=
  match k with
  | PkRemoteAs => VkAsn
  | PkPort => VkU16
  | PkInterface => VkString
  | PkMd5KeyFile => VkString
  | PkTtlMin => VkU8
  | PkNextHopSelf => VkBool
  | PkPassive => VkBool
  | PkRrClient => VkBool
  | PkRsClient => VkBool
  | PkGracefulShutdown => VkBool
  | PkDelayOpenTimeSecs => VkU64
  | PkIdleHoldTimeSecs => VkU64
  | PkDampPeerOscillations => VkBool
  | PkAllowAutomaticStop => VkBool
  | PkSendNotificationWithoutOpen => VkBool
  | PkMinRouteAdvertisementIntervalSecs => VkU64
  | PkEnforceFirstAs => VkBool
  | PkSendRpkiCommunity => VkBool
  | PkAdminDown => VkBool
  end.

Inductive FamilyDirectiveKey := FkExportPolicy | FkImportPolicy.
Definition fk_all : list FamilyDirectiveKey :=
  [FkExportPolicy; FkImportPolicy].
Definition fk_as_str (k : FamilyDirectiveKey) : Str :=
  match k with
  | FkExportPolicy => str "export"
  | FkImportPolicy => str "import"
  end.
Definition fk_help (k : FamilyDirectiveKey) : Str :=
  match k with
  | FkExportPolicy => str "Apply policy to outbound updates"
  | FkImportPolicy => str "Apply policy to inbound updates"
  end.
Definition fk_value_kind (_ : FamilyDirectiveKey) : ValueKind := VkPolicyName.

Inductive PolicyRuleKey := RkMatch | RkDefault.
Definition rk_all : list PolicyRuleKey :=
  [RkMatch; RkDefault].
Definition rk_as_str (k : PolicyRuleKey) : Str :=
  match k with
  | RkMatch => str "match"
  | RkDefault => str "default"
  end.
Definition rk_help (k : PolicyRuleKey) : Str :=
  match k with
  | RkMatch => str "Match a prefix-list and apply an action"
  | RkDefault => str "Default action when no rules match"
  end.

Inductive BmpServerKey := BkStatisticsTimeout.
Definition bk_all : list BmpServerKey :=
  [BkStatisticsTimeout].
Definition bk_as_str (k : BmpServerKey) : Str :=
  match k with
  | BkStatisticsTimeout => str "statistics-timeout"
  end.
Definition bk_help (k : BmpServerKey) : Str :=
  match k with
  | BkStatisticsTimeout => str "BMP statistics report interval (seconds)"
  end.
Definition bk_value_kind (k : BmpServerKey) : ValueKind :=
  match k with
  | BkStatisticsTimeout => VkU64
  end.

Inductive RpkiCacheKey := CkPreference | CkTransport | CkSshUsername | CkSshPrivateKeyFile | CkSshKnownHostsFile | CkRetryInterval | CkRefreshInterval |
  CkExpireInterval.
Definition ck_all : list RpkiCacheKey :=
  [CkPreference; CkTransport; CkSshUsername; CkSshPrivateKeyFile; CkSshKnownHostsFile; CkRetryInterval; CkRefreshInterval;
   CkExpireInterval].
Definition ck_as_str (k : RpkiCacheKey) : Str :=
  match k with
  | CkPreference => str "preference"
  | CkTransport => str "transport"
  | CkSshUsername => str "ssh-username"
  | CkSshPrivateKeyFile => str "ssh-private-key-file"
  | CkSshKnownHostsFile => str "ssh-known-hosts-file"
  | CkRetryInterval => str "retry-interval"
  | CkRefreshInterval => str "refresh-interval"
  | CkExpireInterval => str "expire-interval"
  end.
Definition ck_help (k : RpkiCacheKey) : Str :=
  match k with
  | CkPreference => str "Cache preference tier (lower wins)"
  | CkTransport => str "Transport: tcp or ssh"
  | CkSshUsername => str "SSH username (transport ssh)"
  | CkSshPrivateKeyFile => str "Path to SSH private key (transport ssh)"
  | CkSshKnownHostsFile => str "Path to SSH known_hosts (transport ssh)"
  | CkRetryInterval => str "Retry interval (seconds)"
  | CkRefreshInterval => str "Refresh interval (seconds)"
  | CkExpireInterval => str "Expire interval (seconds)"
  end.
Definition ck_value_kind (k : RpkiCacheKey) : ValueKind :=
  match k with
  | CkPreference => VkU8
  | CkTransport => VkTransport
  | CkSshUsername => VkString
  | CkSshPrivateKeyFile => VkString
  | CkSshKnownHostsFile => VkString
  | CkRetryInterval => VkU64
  | CkRefreshInterval => VkU64
  | CkExpireInterval => VkU64
  end.

Inductive BgpLsKey := LkInstanceId.
Definition lk_all : list BgpLsKey :=
  [LkInstanceId].
Definition lk_as_str (k : BgpLsKey) : Str :=
  match k with
  | LkInstanceId => str "instance-id"
  end.
Definition lk_help (k : BgpLsKey) : Str :=
  match k with
  | LkInstanceId => str "BGP-LS instance ID (RFC 9552)"
  end.
Definition lk_value_kind (k : BgpLsKey) : ValueKind :=
  match k with
  | LkInstanceId => VkU64
  end.

(** ** The trait *)
Class SchemaKey (K : Type) := {
  key_all : list K;
  key_as_str : K -> Str;
  key_help : K -> Str;
  key_value_kind : K -> ValueKind;
}.
#[export] Instance TopKey_schema : SchemaKey TopKey := { key_all := tk_all; key_as_str := tk_as_str; key_help := tk_help; key_value_kind := tk_value_kind }.
#[export] Instance PeerKey_schema : SchemaKey PeerKey := { key_all := pk_all; key_as_str := pk_as_str; key_help := pk_help; key_value_kind := pk_value_kind }.
#[export] Instance BmpServerKey_schema : SchemaKey BmpServerKey := { key_all := bk_all; key_as_str := bk_as_str; key_help := bk_help; key_value_kind := bk_value_kind }.
#[export] Instance RpkiCacheKey_schema : SchemaKey RpkiCacheKey := { key_all := ck_all; key_as_str := ck_as_str; key_help := ck_help; key_value_kind := ck_value_kind }.
#[export] Instance BgpLsKey_schema : SchemaKey BgpLsKey := { key_all := lk_all; key_as_str := lk_as_str; key_help := lk_help; key_value_kind := lk_value_kind }.

(** * The shell: its grammar ([ggsh/src/grammar.rs]) and the commands of it ([ggsh/src/parser.rs])

    A grammar is a forest: a keyword matches its name, an argument any token of
    its shape, and the command of a node is what the line that ends there does. *)

(** ** Commands *)
Inductive BgpggCommand :=
  | BgpSummary | BgpInfo | BgpPeers | BgpPeer | BgpPeerIn | BgpPeerOut | BgpRoute | RpkiCaches | RpkiRoa | RpkiValidate | ConfigHistory.
Inductive ServiceKind := SvcBgp.
Inductive Command :=
  | CmdBgpgg (c : BgpggCommand)
  | CmdVersion
  | CmdConfigure
  | CmdExit
  | EnterService (s : ServiceKind)
  | Commit
  | ShowDiff
  | ShowRunningConfig
  | ShowCandidate
  | SetTop (key : TopKey)
  | SetTopOriginate
  | SetPeer (key : PeerKey)
  | SetPeerFamily (directive : FamilyDirectiveKey)
  | SetPolicyMatch
  | SetPolicyDefault
  | SetPrefixListEntry
  | SetBmpServer (key : BmpServerKey)
  | SetRpkiCache (key : RpkiCacheKey)
  | SetBgpLs (key : BgpLsKey)
  | SetTelemetryJson
  | SetTelemetryCloudwatchEmf
  | SetTelemetryPrometheus
  | SetTelemetryPrometheusListen
  | UnsetTop (key : TopKey)
  | UnsetTopOriginate
  | UnsetPeer
  | UnsetPeerSetting (key : PeerKey)
  | UnsetPeerFamily
  | UnsetPeerFamilyDirective (directive : FamilyDirectiveKey)
  | UnsetPolicy
  | UnsetPrefixList
  | UnsetPrefixListEntry
  | UnsetBmpServer
  | UnsetBmpServerSetting (key : BmpServerKey)
  | UnsetRpkiCache
  | UnsetRpkiCacheSetting (key : RpkiCacheKey)
  | UnsetBgpLs
  | UnsetBgpLsSetting (key : BgpLsKey)
  | UnsetTelemetry
  | UnsetTelemetryJson
  | UnsetTelemetryCloudwatchEmf
  | UnsetTelemetryPrometheus
  | UnsetTelemetryPrometheusListen.

(** ** Nodes *)
Inductive Node := mkNode (name help : Str) (children : list Node) (command : option Command) (kind : option ValueKind).
Definition n_name (n : Node) : Str := let '(mkNode name _ _ _ _) := n in name.
Definition n_help (n : Node) : Str := let '(mkNode _ help _ _ _) := n in help.
Definition n_children (n : Node) : list Node := let '(mkNode _ _ children _ _) := n in children.
Definition n_command (n : Node) : option Command := let '(mkNode _ _ _ command _) := n in command.
Definition n_kind (n : Node) : option ValueKind := let '(mkNode _ _ _ _ kind) := n in kind.

Definition keyword (name help : Str) : Node := mkNode name help [] None None.
Definition arg (name help : Str) (kind : ValueKind) : Node := mkNode name help [] None (Some kind).
Definition with_children (n : Node) (children : list Node) : Node :=
  let '(mkNode name help _ command kind) := n in mkNode name help children command kind.
Definition cmd (n : Node) (command : Command) : Node :=
  let '(mkNode name help children _ kind) := n in mkNode name help children (Some command) kind.
Definition is_arg (n : Node) : bool := bool_decide (is_Some (n_kind n)).

Notation "n '|>' l" := (with_children n l) (at level 50, left associativity).
Notation "n '!>' c" := (cmd n c) (at level 50, left associativity).

Definition setting_leaves {K} `{SchemaKey K} (make_cmd : K -> Command) : list Node :=
  map (fun key => keyword (key_as_str key) (key_help key) |> [arg (str "<value>") (str "Value") (key_value_kind key) !> make_cmd key]) key_all.

(** ** The operational grammar *)
Definition afi_safi_nodes (c : Command) : list Node :=
  [arg (str "<afi>") (str "Address family (ipv4, ipv6, ls)") VkAfi !> c
     |> [arg (str "<safi>") (str "Sub-address family (unicast, multicast)") VkSafi !> c]].

Definition tree_show_bgp : list Node :=
  [keyword (str "summary") (str "Peer table overview") !> CmdBgpgg BgpSummary;
   keyword (str "info") (str "Server information") !> CmdBgpgg BgpInfo;
   keyword (str "peers") (str "Peer information") !> CmdBgpgg BgpPeers
     |> [arg (str "<address>") (str "Peer address") VkIpAddr !> CmdBgpgg BgpPeer
           |> [keyword (str "in") (str "Adj-RIB-In") !> CmdBgpgg BgpPeerIn |> afi_safi_nodes (CmdBgpgg BgpPeerIn);
               keyword (str "out") (str "Adj-RIB-Out") !> CmdBgpgg BgpPeerOut |> afi_safi_nodes (CmdBgpgg BgpPeerOut)]];
   keyword (str "routes") (str "Routing table") !> CmdBgpgg BgpRoute
     |> (afi_safi_nodes (CmdBgpgg BgpRoute) ++ [arg (str "<prefix>") (str "Prefix in CIDR format") VkPrefix !> CmdBgpgg BgpRoute])].
Definition tree_show_config : list Node := [keyword (str "history") (str "Stored config snapshots") !> CmdBgpgg ConfigHistory].
Definition tree_show_rpki : list Node :=
  [keyword (str "caches") (str "RPKI cache status") !> CmdBgpgg RpkiCaches;
   keyword (str "roa") (str "ROA table") !> CmdBgpgg RpkiRoa;
   keyword (str "validate") (str "Validate a prefix")
     |> [arg (str "<prefix>") (str "Prefix in CIDR format") VkPrefix
           |> [keyword (str "origin") (str "Origin AS keyword") |> [arg (str "<asn>") (str "AS number") VkAsn !> CmdBgpgg RpkiValidate]]]].
Definition tree_show : list Node :=
  [keyword (str "bgp") (str "BGP information") |> tree_show_bgp;
   keyword (str "rpki") (str "RPKI information") |> tree_show_rpki;
   keyword (str "config") (str "Config information") |> tree_show_config;
   keyword (str "version") (str "Version information") !> CmdVersion].
Definition tree : list Node :=
  [keyword (str "show") (str "Show operational information") |> tree_show;
   keyword (str "configure") (str "Enter configuration mode") !> CmdConfigure;
   keyword (str "exit") (str "Exit ggsh") !> CmdExit;
   keyword (str "quit") (str "Exit ggsh") !> CmdExit].

(** ** The grammar of [(config)] *)
Definition tree_show_cfg : list Node :=
  [keyword (str "diff") (str "Candidate vs running config") !> ShowDiff;
   keyword (str "running-config") (str "Currently running config") !> ShowRunningConfig].
Definition tree_show_cfg_bgp : list Node :=
  [keyword (str "diff") (str "Candidate vs running config") !> ShowDiff;
   keyword (str "running-config") (str "Currently running config") !> ShowRunningConfig;
   keyword (str "candidate") (str "In-progress candidate config") !> ShowCandidate].
Definition tree_config : list Node :=
  [keyword (str "service") (str "Enter a service block") |> [keyword (str "bgp") (str "Enter the BGP service") !> EnterService SvcBgp];
   keyword (str "commit") (str "Apply candidate, persist, return to operational") !> Commit;
   keyword (str "exit") (str "Discard candidate and return to operational") !> CmdExit;
   keyword (str "show") (str "Show information") |> tree_show_cfg].

(** ** The grammar of [(config-bgp)] *)
Definition family_directive_subtree (for_unset : bool) : list Node :=
  map (fun dir =>
    let policy :=
      if for_unset then keyword (str "policy") (str "Policy keyword") !> UnsetPeerFamilyDirective dir
      else keyword (str "policy") (str "Policy keyword") |> [arg (str "<name>") (str "Policy name") (fk_value_kind dir) !> SetPeerFamily dir] in
    keyword (fk_as_str dir) (fk_help dir) |> [policy]) fk_all.
Definition peer_subtree : Node :=
  keyword (str "peer") (str "Per-peer block")
    |> [arg (str "<addr>") (str "Peer address") VkIpAddr
          |> (setting_leaves SetPeer ++
              [keyword (str "family") (str "Per-AFI/SAFI directives")
                 |> [arg (str "<afi>") (str "Address family (ipv4, ipv6, ls)") VkAfi
                       |> [arg (str "<safi>") (str "Sub-address family (unicast, multicast)") VkSafi |> family_directive_subtree false]]])].
Definition policy_subtree : Node :=
  keyword (str "policy") (str "Named policy")
    |> [arg (str "<name>") (str "Policy name") VkString
          |> [keyword (rk_as_str RkMatch) (rk_help RkMatch)
                |> [arg (str "<set>") (str "Prefix-list set name") VkString
                      |> [arg (str "<action>") (str "Action (accept, reject, ...)") VkString !> SetPolicyMatch]];
              keyword (rk_as_str RkDefault) (rk_help RkDefault)
                |> [arg (str "<action>") (str "Action (accept, reject, ...)") VkString !> SetPolicyDefault]]].
Definition prefix_list_subtree : Node :=
  keyword (str "prefix-list") (str "Named prefix list")
    |> [arg (str "<name>") (str "Prefix-list name") VkString
          |> [arg (str "<prefix>") (str "Prefix in CIDR notation") VkPrefix !> SetPrefixListEntry]].
Definition bmp_server_subtree : Node :=
  keyword (str "bmp-server") (str "BMP collector")
    |> [arg (str "<addr>") (str "BMP collector host:port") VkAddrPort |> setting_leaves SetBmpServer].
Definition rpki_cache_subtree : Node :=
  keyword (str "rpki-cache") (str "RPKI cache")
    |> [arg (str "<addr>") (str "RPKI cache host:port") VkAddrPort |> setting_leaves SetRpkiCache].
Definition bgp_ls_subtree : Node := keyword (str "bgp-ls") (str "BGP-LS settings") |> setting_leaves SetBgpLs.
Definition telemetry_subtree : Node :=
  keyword (str "telemetry") (str "Telemetry settings")
    |> [keyword (str "json") (str "Emit metrics as JSON log lines") !> SetTelemetryJson;
        keyword (str "cloudwatch-emf") (str "Emit metrics as CloudWatch EMF log lines")
          |> [keyword (str "namespace") (str "CloudWatch namespace")
                |> [arg (str "<namespace>") (str "Namespace (e.g. Rogg/Bgpgg)") VkString !> SetTelemetryCloudwatchEmf]];
        keyword (str "prometheus") (str "Prometheus pull endpoint") !> SetTelemetryPrometheus
          |> [keyword (str "listen") (str "Listen address") |> [arg (str "<addr>") (str "host:port") VkAddrPort !> SetTelemetryPrometheusListen]]].

(** A key of a block that [unset] removes. *)
Definition unset_leaves {K} `{SchemaKey K} (make_cmd : K -> Command) : list Node :=
  map (fun key => keyword (key_as_str key) (key_help key) !> make_cmd key) key_all.
Definition unset_subtree : list Node :=
  unset_leaves UnsetTop ++
  [keyword (str "originate") (str "Stop originating a prefix")
     |> [arg (str "<prefix>") (str "Prefix in CIDR notation") VkPrefix !> UnsetTopOriginate];
   keyword (str "peer") (str "Remove a peer or peer setting")
     |> [arg (str "<addr>") (str "Peer address") VkIpAddr !> UnsetPeer
           |> (unset_leaves UnsetPeerSetting ++
               [keyword (str "family") (str "Remove a family or directive")
                  |> [arg (str "<afi>") (str "Address family") VkAfi
                        |> [arg (str "<safi>") (str "Sub-address family") VkSafi !> UnsetPeerFamily |> family_directive_subtree true]]])];
   keyword (str "policy") (str "Remove a policy") |> [arg (str "<name>") (str "Policy name") VkString !> UnsetPolicy];
   keyword (str "prefix-list") (str "Remove a prefix-list or entry")
     |> [arg (str "<name>") (str "Prefix-list name") VkString !> UnsetPrefixList
           |> [arg (str "<prefix>") (str "Prefix in CIDR notation") VkPrefix !> UnsetPrefixListEntry]];
   keyword (str "bmp-server") (str "Remove a BMP server or setting")
     |> [arg (str "<addr>") (str "BMP host:port") VkAddrPort !> UnsetBmpServer |> unset_leaves UnsetBmpServerSetting];
   keyword (str "rpki-cache") (str "Remove an RPKI cache or setting")
     |> [arg (str "<addr>") (str "RPKI host:port") VkAddrPort !> UnsetRpkiCache |> unset_leaves UnsetRpkiCacheSetting];
   keyword (str "bgp-ls") (str "Remove the bgp-ls block or a setting") !> UnsetBgpLs |> unset_leaves UnsetBgpLsSetting;
   keyword (str "telemetry") (str "Remove the telemetry block or a sub-block") !> UnsetTelemetry
     |> [keyword (str "json") (str "Remove the json sink") !> UnsetTelemetryJson;
         keyword (str "cloudwatch-emf") (str "Remove the cloudwatch-emf sink") !> UnsetTelemetryCloudwatchEmf;
         keyword (str "prometheus") (str "Remove the prometheus endpoint") !> UnsetTelemetryPrometheus
           |> [keyword (str "listen") (str "Reset listen to the default (127.0.0.1:9273)") !> UnsetTelemetryPrometheusListen]]].
Definition tree_config_bgp : list Node :=
  [keyword (str "commit") (str "Apply candidate, persist, return to operational") !> Commit;
   keyword (str "exit") (str "Return to (config)") !> CmdExit;
   keyword (str "show") (str "Show information") |> tree_show_cfg_bgp;
   keyword (str "unset") (str "Remove a setting, peer, or block") |> unset_subtree] ++
  setting_leaves SetTop ++
  [keyword (str "originate") (str "Originate a prefix")
     |> [arg (str "<prefix>") (str "Prefix in CIDR notation") VkPrefix
           |> [keyword (str "nexthop") (str "Forwarding next-hop")
                 |> [arg (str "<addr>") (str "Next-hop IP address") VkIpAddr !> SetTopOriginate]]];
   peer_subtree; policy_subtree; prefix_list_subtree; bmp_server_subtree; rpki_cache_subtree; bgp_ls_subtree; telemetry_subtree].

(** ** Parsing a line ([ggsh/src/parser.rs]) *)
Record HelpEntry := mkHelpEntry { he_keyword : Str; he_description : Str }.
Inductive ParseResult :=
  | Execution (c : Command) (args : list Str)
  | Help (entries : list HelpEntry)
  | ParseFailed (message : Str).

Definition find_match (token : Str) (nodes : list Node) : option Node :=
  match find (fun n => negb (is_arg n) && str_eqb (n_name n) token) nodes with
  | Some node => Some node
  | None => find (fun n => match n_kind n with Some kind => validate kind token | None => false end) nodes
  end.

Definition is_help (token : Str) : bool := (token =s "?") || (token =s "help") || (token =s "--help").
Definition entries_of (nodes : list Node) : list HelpEntry := map (fun n => mkHelpEntry (n_name n) (n_help n)) nodes.
(** The nodes after the tokens that match. *)
Fixpoint help_nodes (nodes : list Node) (tokens : list Str) : list Node :=
  match tokens with
  | [] => nodes
  | token :: tokens => match find_match token nodes with Some node => help_nodes (n_children node) tokens | None => nodes end
  end.
Fixpoint join (sep : Str) (l : list Str) : Str :=
  match l with [] => [] | [s] => s | s :: l => s ++ sep ++ join sep l end.

(** The loop over the tokens: the arguments, the last node, and the nodes it
    was found in. *)
Fixpoint parse_loop (nodes : list Node) (tokens : list Str) (args : list Str) (last_node : option Node) : Str + (list Str * option Node * list Node) :=
  match tokens with
  | [] => inr (args, last_node, nodes)
  | token :: rest =>
      match find_match token nodes with
      | None => inl (str "unknown command '" ++ token ++ str "', expected: " ++ join (str ", ") (map n_name nodes))
      | Some node =>
          let args := if is_arg node then args ++ [token] else args in
          match rest with
          | [] => inr (args, Some node, nodes)
          | next :: _ =>
              match n_children node with
              | [] => inl (str "unexpected token: " ++ next)
              | children => parse_loop children rest args (Some node)
              end
          end
      end
  end.

(** [parser::parse] *)
Definition parse_line (nodes : list Node) (tokens : list Str) : ParseResult :=
  match last tokens with
  | None => ParseFailed (str "no command entered")
  | Some last_token =>
      if is_help last_token then Help (entries_of (help_nodes nodes (removelast tokens)))
      else
        match parse_loop nodes tokens [] None with
        | inl message => ParseFailed message
        | inr (args, last_node, nodes) =>
            match last_node ≫= n_command with
            | Some c => Execution c args
            | None =>
                Help (entries_of match last_node with Some n => match n_children n with [] => nodes | children => children end | None => nodes end)
            end
        end
  end.

(** [str::split_whitespace] *)
Fixpoint split_whitespace_from (cur s : Str) : list Str :=
  match s with
  | [] => match cur with [] => [] | _ => [cur] end
  | c :: s =>
      if is_whitespace c then match cur with [] => split_whitespace_from [] s | _ => cur :: split_whitespace_from [] s end
      else split_whitespace_from (cur ++ [c]) s
  end.
Definition split_whitespace (s : Str) : list Str := split_whitespace_from [] s.

(** [completions]: the keywords that may come next. *)
Fixpoint starts_with (prefix s : Str) : bool :=
  match prefix, s with [], _ => true | p :: prefix, c :: s => (p =? c) && starts_with prefix s | _, _ => false end.
Fixpoint completion_nodes (nodes : list Node) (tokens : list Str) : option (list Node) :=
  match tokens with
  | [] => Some nodes
  | token :: tokens => match find_match token nodes with Some node => completion_nodes (n_children node) tokens | None => None end
  end.
Definition completions (nodes : list Node) (input : Str) : list Str :=
  let tokens := split_whitespace input in
  let completing_next := bool_decide (last input = Some 32) in
  let walk_count := if completing_next then length tokens else (length tokens - 1)%nat in
  match completion_nodes nodes (take walk_count tokens) with
  | None => []
  | Some nodes =>
      let prefix := if completing_next then [] else default [] (last tokens) in
      map n_name (filter (fun n => negb (is_arg n) && starts_with prefix (n_name n) = true) nodes)
  end.

Example parse_line_examples :
  parse_line tree_config_bgp (split_whitespace (str "peer 10.0.0.1  remote-as 65001")) = Execution (SetPeer PkRemoteAs) [str "10.0.0.1"; str "65001"] /\
  parse_line tree_config_bgp (split_whitespace (str "originate 10.0.0.0/8 nexthop 10.0.0.1")) = Execution SetTopOriginate [str "10.0.0.0/8"; str "10.0.0.1"] /\
  parse_line tree (split_whitespace (str "exit now")) = ParseFailed (str "unexpected token: now") /\
  completions tree (str "show r") = [str "rpki"] /\ completions tree_config (str "show ") = [str "diff"; str "running-config"].
Proof. vm_compute. done. Qed.
