(* ===== verification/Candidate.v ===== *)
(** * The shell: editing the candidate configuration ([ggsh/src/cmd_configure.rs])

    An edit takes the tree to a result and the tree it leaves: a command that
    fails may have changed the tree before it did. *)
From S2P Require Import Prelude Net BgpLs Attrs Text LangBgp LangBgpParse Grammar.

(** ** Edits *)
Definition edit (S : Type) : Type := S -> (Str + ()) * S.
Definition done_with {S} (s : S) : (Str + ()) * S := (inr (), s).
Definition failed {S} (message : Str) (s : S) : (Str + ()) * S := (inl message, s).
Definition upd {S} (f : S -> S) : edit S := fun s => done_with (f s).

(** [x_mut]: the first entry of that name, put at the end when there is none,
    then an edit of it. *)
Fixpoint edit_first {A} (has : A -> bool) (f : edit A) (l : list A) : (Str + ()) * list A :=
  match l with
  | [] => (inr (), [])
  | a :: l => if has a then let '(r, a) := f a in (r, a :: l) else let '(r, l) := edit_first has f l in (r, a :: l)
  end.
Definition entry_mut {A} (has : A -> bool) (new : A) (f : edit A) (l : list A) : (Str + ()) * list A :=
  edit_first has f (if existsb has l then l else l ++ [new]).
(** [iter_mut().find(..).ok_or_else(..)?], then an edit of it. *)
Definition found_mut {A} (has : A -> bool) (absent : Str) (f : edit A) (l : list A) : (Str + ()) * list A :=
  if existsb has l then edit_first has f l else (inl absent, l).
(** [retain], then an error when nothing went. *)
Definition retain_or {A} (gone : A -> bool) (absent : Str) : edit (list A) := fun l =>
  let l' := filter (fun a => gone a = false) l in
  if (length l' =? length l)%nat then (inl absent, l') else (inr (), l').

(** An edit of one field. *)
Definition on_field {S A} (get : S -> A) (set : A -> S -> S) (f : edit A) : edit S := fun s => let '(r, a) := f (get s) in (r, set a s).

(** [bgp_body_mut]: the first BGP service, put at the end when there is none. *)
Definition on_body (f : edit BgpServiceBody) : edit Root := fun root =>
  match services root with
  | Bgp body :: rest => let '(r, body) := f body in (r, mkRoot (Bgp body :: rest))
  | [] => let '(r, body) := f body_default in (r, mkRoot [Bgp body])
  end.

Definition setting_matches_top_key (s : Setting) (key : TopKey) : bool :=
  match key, s with
  | TkAsn, SAsn _ => true
  | TkRouterId, SRouterId _ => true
  | TkListenAddr, SListenAddr _ => true
  | TkGrpcListenAddr, SGrpcListenAddr _ => true
  | TkLogLevel, SLogLevel _ => true
  | TkHoldTime, SHoldTime _ => true
  | TkConnectRetry, SConnectRetry _ => true
  | TkClusterId, SClusterId _ => true
  | TkSysName, SSysName _ => true
  | TkSysDescr, SSysDescr _ => true
  | TkEnhancedRrStaleTtl, SEnhancedRrStaleTtl _ => true
  | _, _ => false
  end.
Definition setting_matches_peer_key (s : Setting) (key : PeerKey) : bool :=
  match key, s with
  | PkRemoteAs, SRemoteAs _ => true
  | PkPort, SPort _ => true
  | PkInterface, SInterface _ => true
  | PkMd5KeyFile, SMd5KeyFile _ => true
  | PkTtlMin, STtlMin _ => true
  | PkNextHopSelf, SNextHopSelf _ => true
  | PkPassive, SPassive _ => true
  | PkRrClient, SRrClient _ => true
  | PkRsClient, SRsClient _ => true
  | PkGracefulShutdown, SGracefulShutdown _ => true
  | PkDelayOpenTimeSecs, SDelayOpenTimeSecs _ => true
  | PkIdleHoldTimeSecs, SIdleHoldTimeSecs _ => true
  | PkDampPeerOscillations, SDampPeerOscillations _ => true
  | PkAllowAutomaticStop, SAllowAutomaticStop _ => true
  | PkSendNotificationWithoutOpen, SSendNotificationWithoutOpen _ => true
  | PkMinRouteAdvertisementIntervalSecs, SMinRouteAdvertisementIntervalSecs _ => true
  | PkEnforceFirstAs, SEnforceFirstAs _ => true
  | PkSendRpkiCommunity, SSendRpkiCommunity _ => true
  | PkAdminDown, SAdminDown _ => true
  | _, _ => false
  end.
Definition family_directive_matches (d : FamilyDirective) (key : FamilyDirectiveKey) : bool :=
  match key, d with FkExportPolicy, ExportPolicy _ => true | FkImportPolicy, ImportPolicy _ => true | _, _ => false end.
Definition is_originate_of (prefix : Str) (s : Setting) : bool := match s with SOriginate r => str_eqb (og_prefix r) prefix | _ => false end.

(** ** The entries that are found or made *)
Definition has_address (addr : Str) (p : PeerBlock) : bool := str_eqb (pb_address p) addr.
Definition peer_mut (addr : Str) (f : edit PeerBlock) : edit BgpServiceBody :=
  on_field bs_peers with_peers (entry_mut (has_address addr) (mkPeerBlock addr [] []) f).
Definition with_pb_settings (v : list Setting) (p : PeerBlock) : PeerBlock := mkPeerBlock (pb_address p) v (pb_families p).
Definition with_pb_families (v : list FamilyBlock) (p : PeerBlock) : PeerBlock := mkPeerBlock (pb_address p) (pb_settings p) v.
Definition is_family (a : Afi) (s : Safi) (f : FamilyBlock) : bool := bool_decide (fb_afi f = a) && bool_decide (fb_safi f = s).
Definition with_fb_directives (v : list FamilyDirective) (f : FamilyBlock) : FamilyBlock := mkFamilyBlock (fb_afi f) (fb_safi f) v.
Definition family_mut (a : Afi) (s : Safi) (f : edit FamilyBlock) : edit PeerBlock :=
  on_field pb_families with_pb_families (entry_mut (is_family a s) (mkFamilyBlock a s []) f).
Definition policy_mut (name : Str) (f : edit PolicyBlock) : edit BgpServiceBody :=
  on_field bs_policies with_policies (entry_mut (fun p => str_eqb (po_name p) name) (mkPolicyBlock name []) f).
Definition prefix_list_mut (name : Str) (f : edit PrefixListBlock) : edit BgpServiceBody :=
  on_field bs_prefix_lists with_prefix_lists (entry_mut (fun p => str_eqb (pl_name p) name) (mkPrefixListBlock name []) f).
Definition bmp_server_mut (addr : Str) (f : edit BmpServerBlock) : edit BgpServiceBody :=
  on_field bs_bmp_servers with_bmp_servers (entry_mut (fun b => str_eqb (bm_address b) addr) (mkBmpServerBlock addr None) f).
Definition rpki_cache_empty (addr : Str) : RpkiCacheBlock := mkRpkiCacheBlock addr None None None None None None None None.
Definition rpki_cache_mut (addr : Str) (f : edit RpkiCacheBlock) : edit BgpServiceBody :=
  on_field bs_rpki_caches with_rpki_caches (entry_mut (fun c => str_eqb (rc_address c) addr) (rpki_cache_empty addr) f).

Definition rpki_eta (c : RpkiCacheBlock) : RpkiCacheBlock :=
  mkRpkiCacheBlock (rc_address c) (rc_preference c) (rc_transport c) (rc_ssh_username c) (rc_ssh_private_key_file c)
    (rc_ssh_known_hosts_file c) (rc_retry_interval c) (rc_refresh_interval c) (rc_expire_interval c).
Definition with_rc_preference v c := ltac:(update_field rpki_eta rc_preference v c).
Definition with_rc_transport v c := ltac:(update_field rpki_eta rc_transport v c).
Definition with_rc_ssh_username v c := ltac:(update_field rpki_eta rc_ssh_username v c).
Definition with_rc_ssh_private_key_file v c := ltac:(update_field rpki_eta rc_ssh_private_key_file v c).
Definition with_rc_ssh_known_hosts_file v c := ltac:(update_field rpki_eta rc_ssh_known_hosts_file v c).
Definition with_rc_retry_interval v c := ltac:(update_field rpki_eta rc_retry_interval v c).
Definition with_rc_refresh_interval v c := ltac:(update_field rpki_eta rc_refresh_interval v c).
Definition with_rc_expire_interval v c := ltac:(update_field rpki_eta rc_expire_interval v c).

(** [parse_value(..)?], then the change of the block. *)
Definition with_value {S T} (parse : Str -> Str + T) (key value : Str) (f : T -> S -> S) : edit S := fun s =>
  match parse value with inl e => failed (invalid_value key value e) s | inr v => done_with (f v s) end.
(** The setting of a line, put in place of those of its key. *)
Definition put_setting (matches : Setting -> bool) (key value : Str) : edit (list Setting) := fun l =>
  match setting_parse key (Some value) with
  | inl e => failed e l
  | inr setting => done_with (filter (fun s => matches s = false) l ++ [setting])
  end.

(** ** Setting *)
Definition apply_set_top (key : TopKey) (value : Str) : edit Root :=
  on_body (on_field bs_settings with_settings (put_setting (fun s => setting_matches_top_key s key) (tk_as_str key) value)).
Definition apply_set_top_originate (prefix nexthop : Str) : edit Root :=
  on_body (on_field bs_settings with_settings
    (upd (fun l => filter (fun s => is_originate_of prefix s = false) l ++ [SOriginate (mkOriginate prefix nexthop)]))).
Definition apply_set_peer (key : PeerKey) (addr value : Str) : edit Root :=
  on_body (peer_mut addr (on_field pb_settings with_pb_settings (put_setting (fun s => setting_matches_peer_key s key) (pk_as_str key) value))).

Definition parse_afi (s : Str) : Str + Afi := match afi_from_str s with Some a => inr a | None => inl (str "invalid afi '" ++ s ++ str "': " ++ afi_error s) end.
Definition parse_safi (s : Str) : Str + Safi :=
  match safi_from_str s with Some a => inr a | None => inl (str "invalid safi '" ++ s ++ str "': " ++ safi_error s) end.
(** The family of two tokens, before anything else. *)
Definition with_family (afi_str safi_str : Str) (f : Afi -> Safi -> edit Root) : edit Root := fun root =>
  match parse_afi afi_str with
  | inl e => failed e root
  | inr a => match parse_safi safi_str with inl e => failed e root | inr s => f a s root end
  end.
Definition directive_of (key : FamilyDirectiveKey) (name : Str) : FamilyDirective :=
  match key with FkExportPolicy => ExportPolicy name | FkImportPolicy => ImportPolicy name end.
Definition apply_set_peer_family (directive : FamilyDirectiveKey) (addr afi_str safi_str name : Str) : edit Root :=
  with_family afi_str safi_str (fun a s =>
    on_body (peer_mut addr (family_mut a s (on_field fb_directives with_fb_directives
      (upd (fun l => filter (fun d => family_directive_matches d directive = false) l ++ [directive_of directive name])))))).

Definition is_match_of (set : Str) (r : PolicyRule) : bool := match r with PrMatch set_name _ => str_eqb set_name set | _ => false end.
Definition is_default (r : PolicyRule) : bool := match r with PrDefault _ => true | _ => false end.
Definition with_po_rules (v : list PolicyRule) (p : PolicyBlock) : PolicyBlock := mkPolicyBlock (po_name p) v.
Definition apply_set_policy_match (name set action : Str) : edit Root :=
  on_body (policy_mut name (on_field po_rules with_po_rules
    (upd (fun l => filter (fun r => is_match_of set r = false) l ++ [PrMatch set action])))).
Definition apply_set_policy_default (name action : Str) : edit Root :=
  on_body (policy_mut name (on_field po_rules with_po_rules (upd (fun l => filter (fun r => is_default r = false) l ++ [PrDefault action])))).

Definition has_prefix (prefix : Str) (e : PrefixListEntry) : bool := str_eqb (ple_prefix e) prefix.
Definition with_pl_prefixes (v : list PrefixListEntry) (b : PrefixListBlock) : PrefixListBlock := mkPrefixListBlock (pl_name b) v.
Definition apply_set_prefix_list_entry (name prefix : Str) : edit Root :=
  on_body (prefix_list_mut name (on_field pl_prefixes with_pl_prefixes
    (upd (fun l => if existsb (has_prefix prefix) l then l else l ++ [mkPrefixListEntry prefix None])))).

Definition apply_set_bmp_server (key : BmpServerKey) (addr value : Str) : edit Root :=
  on_body (bmp_server_mut addr
    match key with BkStatisticsTimeout => with_value from_u64 (bk_as_str key) value (fun v b => mkBmpServerBlock (bm_address b) (Some v)) end).
Definition apply_set_rpki_cache (key : RpkiCacheKey) (addr value : Str) : edit Root :=
  on_body (rpki_cache_mut addr
    match key with
    | CkPreference => with_value from_u8 (ck_as_str key) value (fun v => with_rc_preference (Some v))
    | CkTransport => with_value from_transport (str "transport") value (fun v => with_rc_transport (Some v))
    | CkSshUsername => upd (with_rc_ssh_username (Some value))
    | CkSshPrivateKeyFile => upd (with_rc_ssh_private_key_file (Some value))
    | CkSshKnownHostsFile => upd (with_rc_ssh_known_hosts_file (Some value))
    | CkRetryInterval => with_value from_u64 (ck_as_str key) value (fun v => with_rc_retry_interval (Some v))
    | CkRefreshInterval => with_value from_u64 (ck_as_str key) value (fun v => with_rc_refresh_interval (Some v))
    | CkExpireInterval => with_value from_u64 (ck_as_str key) value (fun v => with_rc_expire_interval (Some v))
    end).
(** [get_or_insert_with]: the block is there even when the value is refused. *)
Definition or_insert {A} (new : A) (f : edit A) : edit (option A) := fun o => let '(r, a) := f (default new o) in (r, Some a).
Definition apply_set_bgp_ls (key : BgpLsKey) (value : Str) : edit Root :=
  on_body (on_field bs_bgp_ls with_bgp_ls (or_insert (mkBgpLsBlock 0)
    match key with LkInstanceId => with_value from_u64 (lk_as_str key) value (fun v _ => mkBgpLsBlock v) end)).

Definition telemetry_empty : TelemetryBlock := mkTelemetryBlock false None None.
Definition on_telemetry (f : edit TelemetryBlock) : edit Root := on_body (on_field bs_telemetry with_telemetry (or_insert telemetry_empty f)).
Definition apply_set_telemetry_json : edit Root :=
  on_telemetry (fun t =>
    match tm_cloudwatch_emf t with
    | Some _ => failed (str "json and cloudwatch-emf are mutually exclusive; unset telemetry cloudwatch-emf first") t
    | None => done_with (mkTelemetryBlock true (tm_cloudwatch_emf t) (tm_prometheus t))
    end).
Definition apply_set_telemetry_cloudwatch_emf (namespace : Str) : edit Root :=
  on_telemetry (fun t =>
    if tm_json t then failed (str "json and cloudwatch-emf are mutually exclusive; unset telemetry json first") t
    else done_with (mkTelemetryBlock (tm_json t) (Some (mkCloudwatchEmfBlock namespace)) (tm_prometheus t))).
Definition apply_set_telemetry_prometheus : edit Root :=
  on_telemetry (upd (fun t => mkTelemetryBlock (tm_json t) (tm_cloudwatch_emf t) (Some (default (mkPrometheusBlock None) (tm_prometheus t))))).
Definition apply_set_telemetry_prometheus_listen (addr : Str) : edit Root :=
  on_telemetry (upd (fun t => mkTelemetryBlock (tm_json t) (tm_cloudwatch_emf t) (Some (mkPrometheusBlock (Some addr))))).

(** ** Unsetting *)
Definition not_set (what : Str) : Str := what ++ str " not set".
Definition not_found (kind what : Str) : Str := kind ++ str " " ++ what ++ str " not found".
Definition apply_unset_top (key : TopKey) : edit Root :=
  on_body (on_field bs_settings with_settings (retain_or (fun s => setting_matches_top_key s key) (not_set (tk_as_str key)))).
Definition apply_unset_top_originate (prefix : Str) : edit Root :=
  on_body (on_field bs_settings with_settings (retain_or (is_originate_of prefix) (not_set (str "originate " ++ prefix)))).
Definition apply_unset_peer (addr : Str) : edit Root :=
  on_body (on_field bs_peers with_peers (retain_or (has_address addr) (not_found (str "peer") addr))).
Definition found_peer (addr : Str) (f : edit PeerBlock) : edit Root :=
  on_body (on_field bs_peers with_peers (found_mut (has_address addr) (not_found (str "peer") addr) f)).
Definition apply_unset_peer_setting (key : PeerKey) (addr : Str) : edit Root :=
  found_peer addr (on_field pb_settings with_pb_settings
    (retain_or (fun s => setting_matches_peer_key s key) (pk_as_str key ++ str " not set on peer " ++ addr))).
Definition family_not_set (addr afi_str safi_str : Str) : Str :=
  str "family " ++ afi_str ++ str " " ++ safi_str ++ str " not set on peer " ++ addr.
Definition apply_unset_peer_family (addr afi_str safi_str : Str) : edit Root :=
  with_family afi_str safi_str (fun a s =>
    found_peer addr (on_field pb_families with_pb_families (retain_or (is_family a s) (family_not_set addr afi_str safi_str)))).
Definition apply_unset_peer_family_directive (directive : FamilyDirectiveKey) (addr afi_str safi_str : Str) : edit Root :=
  with_family afi_str safi_str (fun a s =>
    found_peer addr (on_field pb_families with_pb_families
      (found_mut (is_family a s) (family_not_set addr afi_str safi_str)
        (on_field fb_directives with_fb_directives
          (retain_or (fun d => family_directive_matches d directive)
            (fk_as_str directive ++ str " policy not set on peer " ++ addr ++ str " family " ++ afi_str ++ str " " ++ safi_str)))))).
Definition apply_unset_policy (name : Str) : edit Root :=
  on_body (on_field bs_policies with_policies (retain_or (fun p => str_eqb (po_name p) name) (not_found (str "policy") name))).
Definition apply_unset_prefix_list (name : Str) : edit Root :=
  on_body (on_field bs_prefix_lists with_prefix_lists (retain_or (fun p => str_eqb (pl_name p) name) (not_found (str "prefix-list") name))).
Definition apply_unset_prefix_list_entry (name prefix : Str) : edit Root :=
  on_body (on_field bs_prefix_lists with_prefix_lists
    (found_mut (fun p => str_eqb (pl_name p) name) (not_found (str "prefix-list") name)
      (on_field pl_prefixes with_pl_prefixes
        (retain_or (has_prefix prefix) (str "prefix " ++ prefix ++ str " not in prefix-list " ++ name))))).
Definition apply_unset_bmp_server (addr : Str) : edit Root :=
  on_body (on_field bs_bmp_servers with_bmp_servers (retain_or (fun b => str_eqb (bm_address b) addr) (not_found (str "bmp-server") addr))).
(** [take().is_some()] of a field. *)
Definition take_or {S A} (get : S -> option A) (set : option A -> S -> S) (absent : Str) : edit S := fun s =>
  ((if bool_decide (is_Some (get s)) then inr () else inl absent), set None s).
Definition apply_unset_bmp_server_setting (key : BmpServerKey) (addr : Str) : edit Root :=
  on_body (on_field bs_bmp_servers with_bmp_servers
    (found_mut (fun b => str_eqb (bm_address b) addr) (not_found (str "bmp-server") addr)
      match key with
      | BkStatisticsTimeout =>
          take_or bm_statistics_timeout (fun v b => mkBmpServerBlock (bm_address b) v) (bk_as_str key ++ str " not set on bmp-server " ++ addr)
      end)).
Definition apply_unset_rpki_cache (addr : Str) : edit Root :=
  on_body (on_field bs_rpki_caches with_rpki_caches (retain_or (fun c => str_eqb (rc_address c) addr) (not_found (str "rpki-cache") addr))).
Definition apply_unset_rpki_cache_setting (key : RpkiCacheKey) (addr : Str) : edit Root :=
  let absent := ck_as_str key ++ str " not set on rpki-cache " ++ addr in
  on_body (on_field bs_rpki_caches with_rpki_caches
    (found_mut (fun c => str_eqb (rc_address c) addr) (not_found (str "rpki-cache") addr)
      match key with
      | CkPreference => take_or rc_preference with_rc_preference absent
      | CkTransport => take_or rc_transport with_rc_transport absent
      | CkSshUsername => take_or rc_ssh_username with_rc_ssh_username absent
      | CkSshPrivateKeyFile => take_or rc_ssh_private_key_file with_rc_ssh_private_key_file absent
      | CkSshKnownHostsFile => take_or rc_ssh_known_hosts_file with_rc_ssh_known_hosts_file absent
      | CkRetryInterval => take_or rc_retry_interval with_rc_retry_interval absent
      | CkRefreshInterval => take_or rc_refresh_interval with_rc_refresh_interval absent
      | CkExpireInterval => take_or rc_expire_interval with_rc_expire_interval absent
      end)).
Definition apply_unset_bgp_ls : edit Root := on_body (take_or bs_bgp_ls with_bgp_ls (not_set (str "bgp-ls"))).
Definition apply_unset_bgp_ls_setting (_ : BgpLsKey) : edit Root :=
  failed (str "instance-id is required when bgp-ls is present; use 'unset bgp-ls' to remove the block").
Definition apply_unset_telemetry : edit Root := on_body (take_or bs_telemetry with_telemetry (not_set (str "telemetry"))).
(** An edit of the telemetry block when there is one. *)
Definition if_telemetry (absent : Str) (f : edit TelemetryBlock) : edit Root :=
  on_body (on_field bs_telemetry with_telemetry (fun o =>
    match o with None => (inl absent, None) | Some t => let '(r, t) := f t in (r, Some t) end)).
Definition with_tm_prometheus (v : option PrometheusBlock) (t : TelemetryBlock) : TelemetryBlock := mkTelemetryBlock (tm_json t) (tm_cloudwatch_emf t) v.
Definition apply_unset_telemetry_json : edit Root :=
  let absent := not_set (str "telemetry json") in
  if_telemetry absent (fun t => if tm_json t then done_with (mkTelemetryBlock false (tm_cloudwatch_emf t) (tm_prometheus t)) else failed absent t).
Definition apply_unset_telemetry_cloudwatch_emf : edit Root :=
  let absent := not_set (str "telemetry cloudwatch-emf") in
  if_telemetry absent (take_or tm_cloudwatch_emf (fun v t => mkTelemetryBlock (tm_json t) v (tm_prometheus t)) absent).
Definition apply_unset_telemetry_prometheus : edit Root :=
  let absent := not_set (str "telemetry prometheus") in if_telemetry absent (take_or tm_prometheus with_tm_prometheus absent).
Definition apply_unset_telemetry_prometheus_listen : edit Root :=
  let absent := not_set (str "telemetry prometheus listen") in
  if_telemetry absent (on_field tm_prometheus with_tm_prometheus (fun o =>
    match o with
    | None => (inl absent, None)
    | Some p => let '(r, p) := take_or pm_listen (fun v _ => mkPrometheusBlock v) absent p in (r, Some p)
    end)).

(** ** Flattening, for [show diff] *)
Definition flatten_body (b : BgpServiceBody) : list Str :=
  map show_setting (bs_settings b) ++
  concat (map (fun peer =>
    map (fun s => str "peer " ++ pb_address peer ++ str " " ++ show_setting s) (pb_settings peer) ++
    concat (map (fun family =>
      map (fun d => str "peer " ++ pb_address peer ++ str " family " ++ afi_config_str (fb_afi family) ++ str " " ++
                    safi_config_str (fb_safi family) ++ str " " ++ show_directive d) (fb_directives family)) (pb_families peer))) (bs_peers b)) ++
  concat (map (fun policy => map (fun rule => str "policy " ++ po_name policy ++ str " " ++ show_rule rule) (po_rules policy)) (bs_policies b)) ++
  concat (map (fun plist => map (fun e => str "prefix-list " ++ pl_name plist ++ str " " ++ show_prefix_list_entry e) (pl_prefixes plist)) (bs_prefix_lists b)) ++
  concat (map (fun bmp =>
    match bm_statistics_timeout bmp with Some v => [str "bmp-server " ++ bm_address bmp ++ str " statistics-timeout " ++ dec v] | None => [] end) (bs_bmp_servers b)) ++
  concat (map (fun c =>
    let line (key value : Str) := str "rpki-cache " ++ rc_address c ++ str " " ++ key ++ str " " ++ value in
    let some {A} (o : option A) (key : Str) (show : A -> Str) := match o with Some v => [line key (show v)] | None => [] end in
    some (rc_preference c) (str "preference") dec ++ some (rc_transport c) (str "transport") transport_config_str ++
    some (rc_ssh_username c) (str "ssh-username") id ++ some (rc_ssh_private_key_file c) (str "ssh-private-key-file") id ++
    some (rc_ssh_known_hosts_file c) (str "ssh-known-hosts-file") id ++ some (rc_retry_interval c) (str "retry-interval") dec ++
    some (rc_refresh_interval c) (str "refresh-interval") dec ++ some (rc_expire_interval c) (str "expire-interval") dec) (bs_rpki_caches b)) ++
  match bs_bgp_ls b with Some l => [str "bgp-ls instance-id " ++ dec (bl_instance_id l)] | None => [] end ++
  match bs_telemetry b with
  | None => []
  | Some t =>
      (if tm_json t then [str "telemetry json"] else []) ++
      match tm_cloudwatch_emf t with Some emf => [str "telemetry cloudwatch-emf namespace " ++ ce_namespace emf] | None => [] end ++
      match tm_prometheus t with
      | None => []
      | Some p => match pm_listen p with Some addr => [str "telemetry prometheus listen " ++ addr] | None => [str "telemetry prometheus"] end
      end
  end.
Definition flatten (root : Root) : list Str := concat (map (fun s => match s with Bgp body => flatten_body body end) (services root)).
