(* ===== verification/CandSpec.v ===== *)
(** * The shell: what the edits keep and what they do

    A candidate that can be printed and read back stays so when the arguments
    of the edits are bare words, whether an edit succeeds or not. *)
From S2P Require Import Prelude Net BgpLs Attrs Text LangBgp LangBgpParse LangSpec LangPolicy LangMain LangTotal Grammar Candidate.

Definition keeps_edit {S} (P : S -> Prop) (f : edit S) : Prop := forall s, P s -> P (snd (f s)).

(** ** Edits *)
Section edits.
Context {S A : Type}.
Implicit Types (P : S -> Prop) (Q : A -> Prop).
Lemma keeps_upd P (f : S -> S) : (forall s, P s -> P (f s)) -> keeps_edit P (upd f).
Proof. intros H s. apply H. Qed.
Lemma keeps_failed P m : keeps_edit P (failed m).
Proof. by intros s. Qed.
Lemma keeps_first Q has f : keeps_edit Q f -> keeps_edit (Forall Q) (edit_first has f).
Proof.
  intros Hf l Hl. induction Hl as [|a l Ha Hl IH]; cbn; [constructor|]. destruct (has a).
  - specialize (Hf a Ha). destruct (f a) as [r a']. by constructor.
  - destruct (edit_first has f l) as [r l']. by constructor.
Qed.
Lemma keeps_entry Q has new f : Q new -> keeps_edit Q f -> keeps_edit (Forall Q) (entry_mut has new f).
Proof. intros Hn Hf l Hl. unfold entry_mut. apply keeps_first; [done|]. destruct (existsb has l); [done|]. by apply Forall_app; split; [|apply Forall_singleton]. Qed.
Lemma keeps_found Q has absent f : keeps_edit Q f -> keeps_edit (Forall Q) (found_mut has absent f).
Proof. intros Hf l Hl. unfold found_mut. destruct (existsb has l); [by apply keeps_first|done]. Qed.
Lemma keeps_retain Q gone absent : keeps_edit (Forall Q) (@retain_or A gone absent).
Proof. intros l Hl. unfold retain_or. destruct (_ =? _)%nat; by apply forall_filter. Qed.
Lemma keeps_field P Q get set f : (forall s, P s -> Q (get s)) -> (forall s a, P s -> Q a -> P (set a s)) -> keeps_edit Q f -> keeps_edit P (on_field get set f).
Proof. intros Hg Hs Hf s Hp. unfold on_field. specialize (Hf (get s) (Hg s Hp)). destruct (f (get s)) as [r a]. by apply Hs. Qed.
Lemma keeps_insert Q new f : Q new -> keeps_edit Q f -> keeps_edit (opt_ok Q) (or_insert new f).
Proof. intros Hn Hf o Ho. unfold or_insert. assert (Hd : Q (default new o)) by (by destruct o). specialize (Hf _ Hd). by destruct (f _). Qed.
Lemma keeps_take P (get : S -> option A) set absent : (forall s, P s -> P (set None s)) -> keeps_edit P (take_or get set absent).
Proof. intros H s. apply H. Qed.
Lemma keeps_value {T} P (parse : Str -> Str + T) key value (f : T -> S -> S) :
  (forall v, parse value = inr v -> forall s, P s -> P (f v s)) -> keeps_edit P (with_value parse key value f).
Proof. intros H s Hs. unfold with_value. destruct (parse value) as [e|v] eqn:E; [done|]. by apply (H v). Qed.
End edits.

Lemma body_default_ok : body_ok body_default.
Proof. repeat split; constructor. Qed.
Lemma keeps_body f : keeps_edit body_ok f -> keeps_edit root_ok (on_body f).
Proof.
  intros Hf [l] Hl. unfold root_ok, on_body in *. cbn in Hl |- *. destruct Hl as [|[body] l Hb Hl]; cbn.
  - specialize (Hf _ body_default_ok). destruct (f _) as [r b]. constructor; [exact Hf|constructor].
  - specialize (Hf _ Hb). destruct (f _) as [r b]. by constructor.
Qed.

(** ** The fields of the body *)
Ltac body_field := apply keeps_field; [unfold body_ok; tauto|unfold body_ok; cbn; tauto].
Lemma keeps_settings f : keeps_edit (Forall setting_ok) f -> keeps_edit body_ok (on_field bs_settings with_settings f).
Proof. body_field. Qed.
Lemma keeps_peers f : keeps_edit (Forall peer_ok) f -> keeps_edit body_ok (on_field bs_peers with_peers f).
Proof. body_field. Qed.
Lemma keeps_policies f : keeps_edit (Forall policy_ok) f -> keeps_edit body_ok (on_field bs_policies with_policies f).
Proof. body_field. Qed.
Lemma keeps_prefix_lists f : keeps_edit (Forall prefix_list_ok) f -> keeps_edit body_ok (on_field bs_prefix_lists with_prefix_lists f).
Proof. body_field. Qed.
Lemma keeps_bmp f : keeps_edit (Forall bmp_server_ok) f -> keeps_edit body_ok (on_field bs_bmp_servers with_bmp_servers f).
Proof. body_field. Qed.
Lemma keeps_caches f : keeps_edit (Forall rpki_cache_ok) f -> keeps_edit body_ok (on_field bs_rpki_caches with_rpki_caches f).
Proof. body_field. Qed.
Lemma keeps_ls f : keeps_edit (opt_ok bgp_ls_ok) f -> keeps_edit body_ok (on_field bs_bgp_ls with_bgp_ls f).
Proof. body_field. Qed.
Lemma keeps_tm f : keeps_edit (opt_ok telemetry_ok) f -> keeps_edit body_ok (on_field bs_telemetry with_telemetry f).
Proof. body_field. Qed.
Create HintDb edits.
#[export] Hint Resolve keeps_body keeps_settings keeps_peers keeps_policies keeps_prefix_lists keeps_bmp keeps_caches keeps_ls keeps_tm
  keeps_retain keeps_found keeps_failed : edits.

(** ** Values *)
Lemma word_sys_ok w : word_ok w -> sys_ok w.
Proof.
  intros [Hne Hw]. split; [done|]. eapply Forall_impl; [exact Hw|]. intros c. unfold plain, ends_word, is_whitespace, CHAR_QUOTE. lia.
Qed.
Lemma setting_parse_ok key w s : word_ok w -> setting_parse key (Some w) = inr s -> setting_ok s /\ is_originate s = false.
Proof.
  intros Hw E. pose proof (setting_parse_typed _ _ _ E) as Ht. revert E. unfold setting_parse, parse_value, from_string.
  repeat match goal with |- (if ?b then _ else _) = _ -> _ => destruct b end; try done.
  all: try (intros [= <-]; split; [|done]; cbn; auto using word_sys_ok).
  all: match goal with |- match ?p with inl _ => _ | inr _ => _ end = _ -> _ => destruct p; [done|] end.
  all: intros [= <-]; split; [exact Ht || done|done].
Qed.

Lemma keeps_put P matches key value : word_ok value -> (forall s, setting_ok s /\ is_originate s = false -> P s) ->
  keeps_edit (Forall P) (put_setting matches key value).
Proof.
  intros Hv HP l Hl. unfold put_setting. destruct (setting_parse key (Some value)) as [e|s] eqn:E; [done|]. cbn.
  apply Forall_app. split; [by apply forall_filter|]. apply Forall_singleton, HP. by eapply setting_parse_ok.
Qed.
Lemma keeps_snoc {A} (P : A -> Prop) (Q : A -> Prop) `{forall x, Decision (Q x)} new : P new -> keeps_edit (Forall P) (upd (fun l => filter Q l ++ [new])).
Proof. intros Hn. apply keeps_upd. intros l Hl. apply Forall_app. split; [by apply forall_filter|by apply Forall_singleton]. Qed.

Lemma peer_mut_ok addr f : word_ok addr -> keeps_edit peer_ok f -> keeps_edit body_ok (peer_mut addr f).
Proof. intros Ha Hf. apply keeps_peers, keeps_entry; [|done]. split; [done|split; constructor]. Qed.
Lemma pb_settings_ok f : keeps_edit (Forall (fun s => setting_ok s /\ is_originate s = false)) f -> keeps_edit peer_ok (on_field pb_settings with_pb_settings f).
Proof. apply keeps_field; unfold peer_ok; cbn; tauto. Qed.
Lemma pb_families_ok f : keeps_edit (Forall family_ok) f -> keeps_edit peer_ok (on_field pb_families with_pb_families f).
Proof. apply keeps_field; unfold peer_ok; cbn; tauto. Qed.
Lemma fb_directives_ok f : keeps_edit (Forall directive_ok) f -> keeps_edit family_ok (on_field fb_directives with_fb_directives f).
Proof. apply keeps_field; unfold family_ok; cbn; tauto. Qed.
Lemma po_rules_ok f : keeps_edit (Forall rule_ok) f -> keeps_edit policy_ok (on_field po_rules with_po_rules f).
Proof. apply keeps_field; unfold policy_ok; cbn; tauto. Qed.
Lemma pl_prefixes_ok f : keeps_edit (Forall entry_ok) f -> keeps_edit prefix_list_ok (on_field pl_prefixes with_pl_prefixes f).
Proof. apply keeps_field; unfold prefix_list_ok; cbn; tauto. Qed.
#[export] Hint Resolve pb_settings_ok pb_families_ok fb_directives_ok po_rules_ok pl_prefixes_ok : edits.

Lemma uint_u64 v s : from_u64 s = inr v -> u64 v.
Proof. intros H%from_uint_range; unfold u64; lia. Qed.
Lemma uint_u8 v s : from_u8 s = inr v -> u8 v.
Proof. intros H%from_uint_range; unfold u8; lia. Qed.

(** ** Setting *)
Section words.
Context (a b c d : Str) (Ha : word_ok a) (Hb : word_ok b) (Hc : word_ok c) (Hd : word_ok d).
Lemma set_top_ok key : keeps_edit root_ok (apply_set_top key a).
Proof. apply keeps_body, keeps_settings, keeps_put; tauto. Qed.
Lemma set_top_originate_ok : keeps_edit root_ok (apply_set_top_originate a b).
Proof. apply keeps_body, keeps_settings, keeps_snoc. by split. Qed.
Lemma set_peer_ok key : keeps_edit root_ok (apply_set_peer key a b).
Proof. apply keeps_body, peer_mut_ok, pb_settings_ok, keeps_put; tauto. Qed.
Lemma with_family_ok P x y f : (forall af s, keeps_edit P (f af s)) -> keeps_edit P (with_family x y f).
Proof. intros Hf r Hr. unfold with_family. destruct (parse_afi x); [done|]. destruct (parse_safi y); [done|]. by apply Hf. Qed.
Lemma set_peer_family_ok directive : keeps_edit root_ok (apply_set_peer_family directive a b c d).
Proof.
  apply with_family_ok. intros af s. apply keeps_body, peer_mut_ok, pb_families_ok, keeps_entry, fb_directives_ok, keeps_snoc; [done|constructor|].
  by destruct directive.
Qed.
Lemma policy_mut_ok f : keeps_edit policy_ok f -> keeps_edit body_ok (policy_mut a f).
Proof. intros Hf. apply keeps_policies, keeps_entry; [|done]. split; [done|constructor]. Qed.
Lemma set_policy_match_ok : keeps_edit root_ok (apply_set_policy_match a b c).
Proof. apply keeps_body, policy_mut_ok, po_rules_ok, keeps_snoc. by split. Qed.
Lemma set_policy_default_ok : keeps_edit root_ok (apply_set_policy_default a b).
Proof. by apply keeps_body, policy_mut_ok, po_rules_ok, keeps_snoc. Qed.
Lemma set_prefix_list_entry_ok : keeps_edit root_ok (apply_set_prefix_list_entry a b).
Proof.
  apply keeps_body, keeps_prefix_lists, keeps_entry; [split; [done|constructor]|]. apply pl_prefixes_ok, keeps_upd. intros l Hl.
  destruct (existsb _ l); [done|]. apply Forall_app. by split; [|repeat constructor; apply Hb].
Qed.
Lemma set_bmp_server_ok key : keeps_edit root_ok (apply_set_bmp_server key a b).
Proof.
  apply keeps_body, keeps_bmp, keeps_entry; [by split|]. destruct key. apply keeps_value. intros v Hv s [H1 H2]. split; [done|]. by apply uint_u64 in Hv.
Qed.
Ltac cache_value := first
  [ apply keeps_value; intros ? Hv; first [apply uint_u8 in Hv | apply uint_u64 in Hv | clear Hv]; intros ?; unfold rpki_cache_ok; cbn; tauto
  | apply keeps_upd; intros ?; unfold rpki_cache_ok; cbn; tauto ].
Lemma set_rpki_cache_ok key : keeps_edit root_ok (apply_set_rpki_cache key a b).
Proof. apply keeps_body, keeps_caches, keeps_entry; [unfold rpki_cache_ok; cbn; tauto|]. destruct key; cache_value. Qed.
Lemma set_bgp_ls_ok key : keeps_edit root_ok (apply_set_bgp_ls key a).
Proof.
  apply keeps_body, keeps_ls, keeps_insert; [done|]. destruct key. apply keeps_value. intros v Hv s _. by apply uint_u64 in Hv.
Qed.
Lemma on_telemetry_ok f : keeps_edit telemetry_ok f -> keeps_edit root_ok (on_telemetry f).
Proof. intros Hf. apply keeps_body, keeps_tm, keeps_insert; [|done]. by repeat split. Qed.
Lemma set_telemetry_json_ok : keeps_edit root_ok apply_set_telemetry_json.
Proof.
  apply on_telemetry_ok. intros t (H1 & H2 & H3). destruct (tm_cloudwatch_emf t) as [e|] eqn:E; cbn; [split; [by rewrite E|rewrite E; by split]|].
  by repeat split.
Qed.
Lemma set_telemetry_emf_ok : keeps_edit root_ok (apply_set_telemetry_cloudwatch_emf a).
Proof.
  apply on_telemetry_ok. intros t (H1 & H2 & H3). destruct (tm_json t) eqn:E; cbn; [split; [by rewrite E|by split]|]. by repeat split; [|apply Ha..|].
Qed.
Lemma set_telemetry_prometheus_ok : keeps_edit root_ok apply_set_telemetry_prometheus.
Proof. apply on_telemetry_ok, keeps_upd. intros t (H1 & H2 & H3). split; [done|split; [done|]]. cbn. by destruct (tm_prometheus t). Qed.
Lemma set_telemetry_listen_ok : keeps_edit root_ok (apply_set_telemetry_prometheus_listen a).
Proof. apply on_telemetry_ok, keeps_upd. intros t (H1 & H2 & H3). by split; [|split]. Qed.
End words.

(** ** Unsetting *)
Lemma if_telemetry_ok absent f : keeps_edit telemetry_ok f -> keeps_edit root_ok (if_telemetry absent f).
Proof.
  intros Hf. apply keeps_body, keeps_tm. intros [t|] Ht; [|done]. specialize (Hf t Ht). cbn. by destruct (f t).
Qed.
Lemma take_cache_ok key absent : keeps_edit rpki_cache_ok
  match key with
  | CkPreference => take_or rc_preference with_rc_preference absent
  | CkTransport => take_or rc_transport with_rc_transport absent
  | CkSshUsername => take_or rc_ssh_username with_rc_ssh_username absent
  | CkSshPrivateKeyFile => take_or rc_ssh_private_key_file with_rc_ssh_private_key_file absent
  | CkSshKnownHostsFile => take_or rc_ssh_known_hosts_file with_rc_ssh_known_hosts_file absent
  | CkRetryInterval => take_or rc_retry_interval with_rc_retry_interval absent
  | CkRefreshInterval => take_or rc_refresh_interval with_rc_refresh_interval absent
  | CkExpireInterval => take_or rc_expire_interval with_rc_expire_interval absent
  end.
Proof. destruct key; apply keeps_take; intros ?; unfold rpki_cache_ok; cbn; tauto. Qed.
Lemma found_peer_ok addr f : keeps_edit peer_ok f -> keeps_edit root_ok (found_peer addr f).
Proof. intros Hf. by apply keeps_body, keeps_peers, keeps_found. Qed.
Lemma unset_bmp_setting_ok key addr : keeps_edit root_ok (apply_unset_bmp_server_setting key addr).
Proof. apply keeps_body, keeps_bmp, keeps_found. destruct key. apply keeps_take. by intros s [H _]. Qed.
Lemma unset_bgp_ls_ok : keeps_edit root_ok apply_unset_bgp_ls.
Proof. apply keeps_body, keeps_take. unfold body_ok. cbn. tauto. Qed.
Lemma unset_telemetry_ok : keeps_edit root_ok apply_unset_telemetry.
Proof. apply keeps_body, keeps_take. unfold body_ok. cbn. tauto. Qed.
Lemma unset_telemetry_json_ok : keeps_edit root_ok apply_unset_telemetry_json.
Proof. apply if_telemetry_ok. intros t (H1 & H2 & H3). destruct (tm_json t) eqn:E; cbn; [by repeat split|split; [by rewrite E|by split]]. Qed.
Lemma unset_telemetry_emf_ok : keeps_edit root_ok apply_unset_telemetry_cloudwatch_emf.
Proof. apply if_telemetry_ok, keeps_take. by intros t (H1 & H2 & H3). Qed.
Lemma unset_telemetry_prometheus_ok : keeps_edit root_ok apply_unset_telemetry_prometheus.
Proof. apply if_telemetry_ok, keeps_take. by intros t (H1 & H2 & H3). Qed.
Lemma unset_telemetry_listen_ok : keeps_edit root_ok apply_unset_telemetry_prometheus_listen.
Proof.
  apply if_telemetry_ok. apply (keeps_field _ (opt_ok (fun p => opt_ok word_ok (pm_listen p)))).
  - by intros t (H1 & H2 & H3).
  - by intros t p (H1 & H2 & H3) Hp.
  - by intros [p|] Hp.
Qed.

(** ** Accepted edits succeed *)
Definition succeeds {S} (f : edit S) : Prop := forall s, fst (f s) = inr ().
Section succeed.
Context {S A : Type}.
Lemma succeeds_upd (f : S -> S) : succeeds (upd f).
Proof. by intros s. Qed.
Lemma succeeds_first has (f : edit A) : succeeds f -> succeeds (edit_first has f).
Proof.
  intros Hf l. induction l as [|a l IH]; cbn; [done|]. destruct (has a).
  - specialize (Hf a). by destruct (f a).
  - by destruct (edit_first has f l).
Qed.
Lemma succeeds_entry has new (f : edit A) : succeeds f -> succeeds (entry_mut has new f).
Proof. intros Hf l. by apply succeeds_first. Qed.
Lemma succeeds_field (get : S -> A) set f : succeeds f -> succeeds (on_field get set f).
Proof. intros Hf s. unfold on_field. specialize (Hf (get s)). by destruct (f (get s)). Qed.
Lemma succeeds_insert new (f : edit A) : succeeds f -> succeeds (or_insert new f).
Proof. intros Hf o. unfold or_insert. specialize (Hf (default new o)). by destruct (f _). Qed.
Lemma succeeds_value {T} (parse : Str -> Str + T) key value (f : T -> S -> S) v : parse value = inr v -> succeeds (with_value parse key value f).
Proof. intros E s. unfold with_value. by rewrite E. Qed.
End succeed.
Lemma succeeds_body f : succeeds f -> succeeds (on_body f).
Proof.
  intros Hf [[|[body] l]]; unfold on_body; cbn.
  - specialize (Hf body_default). by destruct (f _).
  - specialize (Hf body). by destruct (f _).
Qed.

(** The shapes of values are those that the parsers of settings take, and the
    setting parsed is the one of the key. *)
Lemma valid_uint max v : is_uint max v = true -> exists n, from_uint max v = inr n.
Proof. unfold is_uint, from_uint. destruct (parse_uint max v); [done|eauto]. Qed.
Lemma valid_bool v : validate VkBool v = true -> exists b, from_bool v = inr b.
Proof. cbn. intros [E%str_eqb_eq | E%str_eqb_eq]%orb_true_iff; rewrite E; by eexists. Qed.
Lemma valid_ipv4 v : validate VkIpv4 v = true -> exists a, from_ipv4 v = inr a.
Proof. cbn. intros [a E]%bool_decide_eq_true. unfold from_ipv4. rewrite E. by eexists. Qed.
Lemma valid_transport v : validate VkTransport v = true -> exists t, from_transport v = inr t.
Proof. cbn. intros [E%str_eqb_eq | E%str_eqb_eq]%orb_true_iff; rewrite E; by eexists. Qed.
Lemma valid_afi v : validate VkAfi v = true -> exists a, parse_afi v = inr a.
Proof. cbn. intros [[E%str_eqb_eq | E%str_eqb_eq]%orb_true_iff | E%str_eqb_eq]%orb_true_iff; rewrite E; by eexists. Qed.
Lemma valid_safi v : validate VkSafi v = true -> exists a, parse_safi v = inr a.
Proof. cbn. intros [E%str_eqb_eq | E%str_eqb_eq]%orb_true_iff; rewrite E; by eexists. Qed.

Ltac valid_setting Hv :=
  first [apply valid_bool in Hv as [? Hv] | apply valid_ipv4 in Hv as [? Hv] | apply valid_uint in Hv as [? Hv] | clear Hv];
  unfold setting_parse; cbn [tk_as_str pk_as_str]; eval_keys; unfold parse_value, from_string, from_u8, from_u16, from_u32, from_u64;
  try rewrite Hv; eexists; split; reflexivity.
Lemma valid_top key v : validate (tk_value_kind key) v = true ->
  exists s, setting_parse (tk_as_str key) (Some v) = inr s /\ setting_matches_top_key s key = true.
Proof. intros Hv. destruct key; valid_setting Hv. Qed.
Lemma valid_peer key v : validate (pk_value_kind key) v = true ->
  exists s, setting_parse (pk_as_str key) (Some v) = inr s /\ setting_matches_peer_key s key = true.
Proof. intros Hv. destruct key; valid_setting Hv. Qed.
