(* ===== verification/Shell.v ===== *)
(** * The shell: levels, commands and sessions ([ggsh/src/shell.rs], [ggsh/src/cmd_configure.rs])

    The stack of levels has its top at the end.  What the file system and the
    daemon answer is an [Env] of each line; what the shell does to them is the
    list of [Effect]s.  [None] is a panic: an argument that is not there, or the
    [expect] of [commit_configure]. *)
From S2P Require Import Prelude Net BgpLs Attrs Text LangBgp LangBgpParse LangTotal Grammar Candidate.

Inductive ShellLevel := LvRoot | LvConfigure | LvBgpService.
#[export] Instance ShellLevel_eq_dec : EqDecision ShellLevel.
Proof. solve_decision. Defined.

(** The shell: [sh_client] is whether the daemon's client is in [clients],
    [sh_lock] whether [session_lock] is held. *)
Record Shell := mkShell {
  sh_grpc_addr : option Str;
  sh_client : bool;
  sh_levels : list ShellLevel;
  sh_candidate : option Root;
  sh_lock : bool;
  sh_config_path : Str;
}.
Definition with_client v s := mkShell (sh_grpc_addr s) v (sh_levels s) (sh_candidate s) (sh_lock s) (sh_config_path s).
Definition with_levels v s := mkShell (sh_grpc_addr s) (sh_client s) v (sh_candidate s) (sh_lock s) (sh_config_path s).
Definition with_candidate v s := mkShell (sh_grpc_addr s) (sh_client s) (sh_levels s) v (sh_lock s) (sh_config_path s).
Definition with_lock v s := mkShell (sh_grpc_addr s) (sh_client s) (sh_levels s) (sh_candidate s) v (sh_config_path s).
(** [Shell::new] *)
Definition shell_new (grpc_addr : option Str) (config_path : Str) : Shell := mkShell grpc_addr false [LvRoot] None false config_path.

(** ** The world *)
Inductive FileRead := FrText (text : Str) | FrNotFound | FrFailed (error : Str).
(** A [show] command, as it asks the daemon and prints: [parse_afi] and
    [parse_safi] give the numbers of the family. *)
Inductive ShowCall :=
  | ShSummary | ShInfo | ShPeers | ShPeer (address : Str)
  | ShPeerRib (address direction : Str) (afi safi : option Z)
  | ShRoute (args : list Str) | ShCaches | ShRoa | ShValidate (prefix : Str) (origin_as : Z) | ShHistory.
Record Env := mkEnv {
  ev_connect : Str + ();
  ev_lock : Str + ();
  ev_read : FileRead;
  ev_commit : Str -> Str + ();
  ev_running : Str + Str;
  ev_show : ShowCall -> Str + ();
  ev_version : Str + ();
}.
(** What the shell does outside: the lock file taken and removed, the text of a
    commit, what is printed. *)
Inductive Effect := TookLock | RemovedLock | SentCommit (text : Str) | Printed (text : Str).
Definition ran (A : Type) : Type := (Str + A) * Shell * list Effect.

Definition parse_error_to_str (e : ParseError) : Str := str "line " ++ dec (Z.of_nat (pe_line e)) ++ str ": " ++ pe_message e.

(** ** Levels *)
Definition current_tree (s : Shell) : list Node :=
  match last (sh_levels s) with
  | Some LvRoot | None => tree
  | Some LvConfigure => tree_config
  | Some LvBgpService => tree_config_bgp
  end.
Definition level_to_str (l : ShellLevel) : Str :=
  match l with LvRoot => str "Root" | LvConfigure => str "Configure" | LvBgpService => str "BgpService" end.
Definition enter_level (level : ShellLevel) (s : Shell) : Str + Shell :=
  match level with
  | LvRoot => inl (str "cannot enter root")
  | _ =>
      let required_top := match level with LvBgpService => LvConfigure | _ => LvRoot end in
      if bool_decide (last (sh_levels s) = Some required_top) then inr (with_levels (sh_levels s ++ [level]) s)
      else inl (str "cannot enter " ++ level_to_str level ++ str " from here")
  end.
Definition exit_configure_mode (s : Shell) : Shell := with_candidate None (with_lock false s).
Definition exit_level (s : Shell) : option Z * Shell * list Effect :=
  let popped := with_levels (removelast (sh_levels s)) s in
  match last (sh_levels s) with
  | Some LvBgpService => (None, popped, [])
  | Some LvConfigure => (None, exit_configure_mode popped, [RemovedLock])
  | Some LvRoot | None => (Some 0, popped, [])
  end.

(** [Shell::bgp]: the client, connected when it is not yet. *)
Definition connect (env : Env) (s : Shell) : Str + Shell :=
  if sh_client s then inr s
  else match sh_grpc_addr s with
       | None => inl (str "no gRPC address configured for Bgpgg")
       | Some addr =>
           match ev_connect env with
           | inl err => inl (str "Failed to connect to Bgpgg at " ++ addr ++ str ": " ++ err)
           | inr () => inr (with_client true s)
           end
       end.

(** ** A configuration session *)
(** What is done with the text of the file, the lock being held. *)
Definition configure_with (text : Str) (s : Shell) : option (ran ()) :=
  match parse text with
  | Panic => None
  | Err e => Some (inl (str "failed to parse " ++ sh_config_path s ++ str ": " ++ parse_error_to_str e), s, [TookLock; RemovedLock])
  | Ok root =>
      let s := with_lock true (with_candidate (Some root) s) in
      match enter_level LvConfigure s with
      | inl err => Some (inl err, s, [TookLock])
      | inr s => Some (inr (), s, [TookLock])
      end
  end.
Definition enter_configure (env : Env) (s : Shell) : option (ran ()) :=
  if negb (bool_decide (last (sh_levels s) = Some LvRoot)) then Some (inl (str "already in configure mode"), s, [])
  else match ev_lock env with
  | inl err => Some (inl err, s, [])
  | inr () =>
      match ev_read env with
      | FrText text => configure_with text s
      | FrNotFound => configure_with [] s
      | FrFailed err => Some (inl (str "failed to read " ++ sh_config_path s ++ str ": " ++ err), s, [TookLock])
      end
  end.

(** The levels above [Root] popped. *)
Fixpoint pop_to_root (fuel : nat) (levels : list ShellLevel) : list ShellLevel :=
  match fuel with
  | O => levels
  | S fuel => match last levels with Some LvRoot | None => levels | Some _ => pop_to_root fuel (removelast levels) end
  end.
(** The candidate's text sent; the session ends when it is accepted. *)
Definition commit_root (env : Env) (root : Root) (s : Shell) : ran () :=
  let text := show_root root in
  match connect env s with
  | inl err => (inl err, s, [])
  | inr s =>
      match ev_commit env text with
      | inr () =>
          let s := with_levels (pop_to_root (length (sh_levels s)) (sh_levels s)) s in
          (inr (), exit_configure_mode s, [SentCommit text; RemovedLock])
      | inl message => (inl (str "commit failed: " ++ message), s, [SentCommit text])
      end
  end.
Definition commit_configure (env : Env) (s : Shell) : option (ran ()) :=
  match last (sh_levels s) with
  | Some LvConfigure | Some LvBgpService => root ← sh_candidate s; Some (commit_root env root s)
  | _ => Some (inl (str "not in configure mode"), s, [])
  end.

Definition show_running_config (env : Env) (s : Shell) : ran () :=
  match connect env s with
  | inl err => (inl err, s, [])
  | inr s =>
      match ev_running env with
      | inl message => (inl (str "failed to fetch running config: " ++ message), s, [])
      | inr text => (inr (), s, [Printed text])
      end
  end.
Definition show_candidate (s : Shell) : ran () :=
  match sh_candidate s with None => (inl (str "no candidate config"), s, []) | Some root => (inr (), s, [Printed (show_root root)]) end.

(** The order of [String], and [difference] of two [BTreeSet]s: the lines of the
    first that are not in the second, in order, once. *)
Fixpoint str_ltb (s t : Str) : bool :=
  match s, t with
  | _, [] => false
  | [], _ :: _ => true
  | c :: s, d :: t => (c <? d) || ((c =? d) && str_ltb s t)
  end.
Fixpoint btree_insert (x : Str) (l : list Str) : list Str :=
  match l with
  | [] => [x]
  | y :: l' => if str_ltb x y then x :: l else if str_eqb x y then l else y :: btree_insert x l'
  end.
Definition btree_set (l : list Str) : list Str := foldr btree_insert [] l.
Definition difference (a b : list Str) : list Str := filter (fun x => existsb (str_eqb x) b = false) a.
Definition diff_lines (running candidate : Root) : list Str :=
  let candidate_lines := btree_set (flatten candidate) in
  let running_lines := btree_set (flatten running) in
  map (fun line => str "- " ++ line) (difference running_lines candidate_lines) ++
  map (fun line => str "+ " ++ line) (difference candidate_lines running_lines).
Definition show_diff (env : Env) (s : Shell) : option (ran ()) :=
  match sh_candidate s with
  | None => Some (inl (str "no candidate config"), s, [])
  | Some candidate =>
      match connect env s with
      | inl err => Some (inl err, s, [])
      | inr s =>
          match ev_running env with
          | inl message => Some (inl (str "failed to fetch running config: " ++ message), s, [])
          | inr running_text =>
              let diff running := Some (inr (), s, map Printed (map writeln (diff_lines running candidate))) in
              match split_whitespace running_text with
              | [] => diff (mkRoot [])
              | _ =>
                  match parse running_text with
                  | Panic => None
                  | Err e => Some (inl (str "failed to parse running config: " ++ parse_error_to_str e), s, [])
                  | Ok running => diff running
                  end
              end
          end
      end
  end.

(** ** Commands *)
(** [util::parse_afi] and [util::parse_safi]: lower case first (no other
    character has one of these letters as its lower case). *)
Definition to_lowercase (s : Str) : Str := map (fun c => if (65 <=? c) && (c <=? 90) then c + 32 else c) s.
Definition family_afi (arg : option Str) : option Z :=
  s ← arg; let s := to_lowercase s in
  if s =s "ipv4" then Some 1 else if s =s "ipv6" then Some 2 else if s =s "ls" then Some 16388 else None.
Definition family_safi (arg : option Str) : option Z :=
  s ← arg; let s := to_lowercase s in if s =s "unicast" then Some 1 else if s =s "multicast" then Some 2 else None.

(** [execute_bgpgg]; the connection is made first. *)
Definition execute_bgpgg (env : Env) (c : BgpggCommand) (args : list Str) (s : Shell) : option (ran ()) :=
  match connect env s with
  | inl err => Some (inl err, s, [])
  | inr s =>
      let call c := Some (ev_show env c, s, []) in
      match c with
      | BgpSummary => call ShSummary
      | BgpInfo => call ShInfo
      | BgpPeers => call ShPeers
      | BgpPeer => address ← args !! 0%nat; call (ShPeer address)
      | BgpPeerIn => address ← args !! 0%nat; call (ShPeerRib address (str "in") (family_afi (args !! 1%nat)) (family_safi (args !! 2%nat)))
      | BgpPeerOut => address ← args !! 0%nat; call (ShPeerRib address (str "out") (family_afi (args !! 1%nat)) (family_safi (args !! 2%nat)))
      | BgpRoute => call (ShRoute args)
      | RpkiCaches => call ShCaches
      | RpkiRoa => call ShRoa
      | RpkiValidate =>
          match args !! 0%nat, args !! 1%nat with
          | None, _ => Some (inl (str "missing prefix"), s, [])
          | Some _, None => Some (inl (str "missing ASN"), s, [])
          | Some prefix, Some asn =>
              match parse_uint (2 ^ 32 - 1) asn with
              | inl _ => Some (inl (str "invalid ASN"), s, [])
              | inr origin_as => call (ShValidate prefix origin_as)
              end
          end
      | ConfigHistory => call ShHistory
      end
  end.

(** An edit of the candidate. *)
Definition edit_candidate (f : edit Root) (s : Shell) : option (ran ()) :=
  match sh_candidate s with
  | None => Some (inl (str "no candidate config"), s, [])
  | Some root => let '(r, root) := f root in Some (r, with_candidate (Some root) s, [])
  end.

(** The edit of a command, with the arguments it takes: [None] is an argument
    that is not there, [Some None] a command that edits nothing. *)
Definition edit_of (c : Command) (args : list Str) : option (option (edit Root)) :=
  let arg := fun i (f : Str -> option (option (edit Root))) => a ← args !! i; f a in
  let e := fun f : edit Root => Some (Some f) in
  match c with
  | SetTop key => arg 0%nat (fun a => e (apply_set_top key a))
  | SetTopOriginate => arg 0%nat (fun a => arg 1%nat (fun b => e (apply_set_top_originate a b)))
  | SetPeer key => arg 0%nat (fun a => arg 1%nat (fun b => e (apply_set_peer key a b)))
  | SetPeerFamily directive =>
      arg 0%nat (fun a => arg 1%nat (fun b => arg 2%nat (fun c => arg 3%nat (fun d => e (apply_set_peer_family directive a b c d)))))
  | SetPolicyMatch => arg 0%nat (fun a => arg 1%nat (fun b => arg 2%nat (fun c => e (apply_set_policy_match a b c))))
  | SetPolicyDefault => arg 0%nat (fun a => arg 1%nat (fun b => e (apply_set_policy_default a b)))
  | SetPrefixListEntry => arg 0%nat (fun a => arg 1%nat (fun b => e (apply_set_prefix_list_entry a b)))
  | SetBmpServer key => arg 0%nat (fun a => arg 1%nat (fun b => e (apply_set_bmp_server key a b)))
  | SetRpkiCache key => arg 0%nat (fun a => arg 1%nat (fun b => e (apply_set_rpki_cache key a b)))
  | SetBgpLs key => arg 0%nat (fun a => e (apply_set_bgp_ls key a))
  | SetTelemetryJson => e apply_set_telemetry_json
  | SetTelemetryCloudwatchEmf => arg 0%nat (fun a => e (apply_set_telemetry_cloudwatch_emf a))
  | SetTelemetryPrometheus => e apply_set_telemetry_prometheus
  | SetTelemetryPrometheusListen => arg 0%nat (fun a => e (apply_set_telemetry_prometheus_listen a))
  | UnsetTop key => e (apply_unset_top key)
  | UnsetTopOriginate => arg 0%nat (fun a => e (apply_unset_top_originate a))
  | UnsetPeer => arg 0%nat (fun a => e (apply_unset_peer a))
  | UnsetPeerSetting key => arg 0%nat (fun a => e (apply_unset_peer_setting key a))
  | UnsetPeerFamily => arg 0%nat (fun a => arg 1%nat (fun b => arg 2%nat (fun c => e (apply_unset_peer_family a b c))))
  | UnsetPeerFamilyDirective directive =>
      arg 0%nat (fun a => arg 1%nat (fun b => arg 2%nat (fun c => e (apply_unset_peer_family_directive directive a b c))))
  | UnsetPolicy => arg 0%nat (fun a => e (apply_unset_policy a))
  | UnsetPrefixList => arg 0%nat (fun a => e (apply_unset_prefix_list a))
  | UnsetPrefixListEntry => arg 0%nat (fun a => arg 1%nat (fun b => e (apply_unset_prefix_list_entry a b)))
  | UnsetBmpServer => arg 0%nat (fun a => e (apply_unset_bmp_server a))
  | UnsetBmpServerSetting key => arg 0%nat (fun a => e (apply_unset_bmp_server_setting key a))
  | UnsetRpkiCache => arg 0%nat (fun a => e (apply_unset_rpki_cache a))
  | UnsetRpkiCacheSetting key => arg 0%nat (fun a => e (apply_unset_rpki_cache_setting key a))
  | UnsetBgpLs => e apply_unset_bgp_ls
  | UnsetBgpLsSetting key => e (apply_unset_bgp_ls_setting key)
  | UnsetTelemetry => e apply_unset_telemetry
  | UnsetTelemetryJson => e apply_unset_telemetry_json
  | UnsetTelemetryCloudwatchEmf => e apply_unset_telemetry_cloudwatch_emf
  | UnsetTelemetryPrometheus => e apply_unset_telemetry_prometheus
  | UnsetTelemetryPrometheusListen => e apply_unset_telemetry_prometheus_listen
  | CmdBgpgg _ | CmdVersion | CmdConfigure | CmdExit | EnterService _ | Commit | ShowDiff | ShowRunningConfig | ShowCandidate => Some None
  end.

(** [Shell::execute]: [inr (Some code)] quits. *)
Definition continue (r : ran ()) : ran (option Z) := let '(r, s, effects) := r in ((match r with inl e => inl e | inr () => inr None end), s, effects).
Definition execute (env : Env) (c : Command) (args : list Str) (s : Shell) : option (ran (option Z)) :=
  match c with
  | CmdExit => let '(code, s, effects) := exit_level s in Some (inr code, s, effects)
  | CmdConfigure => continue <$> enter_configure env s
  | CmdVersion => Some (continue (ev_version env, s, []))
  | CmdBgpgg c => continue <$> execute_bgpgg env c args s
  | EnterService SvcBgp => match enter_level LvBgpService s with inl e => Some (inl e, s, []) | inr s => Some (inr None, s, []) end
  | Commit => continue <$> commit_configure env s
  | ShowDiff => continue <$> show_diff env s
  | ShowRunningConfig => Some (continue (show_running_config env s))
  | ShowCandidate => Some (continue (show_candidate s))
  | _ =>
      f ← edit_of c args;
      match f with Some f => continue <$> edit_candidate f s | None => None end
  end.

(** [handle_result]: [Some code] when the command gave a code to stop with, an
    error being 1; the interactive loop ends at 0 only. *)
Definition handle_result (env : Env) (r : ParseResult) (s : Shell) : option (option Z * Shell * list Effect) :=
  match r with
  | Execution c args =>
      '(r, s, effects) ← execute env c args s;
      Some (match r with inr code => code | inl _ => Some 1 end, s, effects)
  | Help _ => Some (None, s, [])
  | ParseFailed _ => Some (Some 1, s, [])
  end.

(** A line of [run_interactive]: blank lines are skipped. *)
Definition interactive_line (env : Env) (line : Str) (s : Shell) : option (option Z * Shell * list Effect) :=
  match split_whitespace line with [] => Some (None, s, []) | tokens => handle_result env (parse_line (current_tree s) tokens) s end.
(** The loop over the lines read, each with what the world then answers, up to
    the one that ends it. *)
Fixpoint run_interactive (input : list (Env * Str)) (s : Shell) : option (Shell * list Effect) :=
  match input with
  | [] => Some (s, [])
  | (env, line) :: input =>
      '(code, s, effects) ← interactive_line env line s;
      if bool_decide (code = Some 0) then Some (s, effects)
      else '(s, rest) ← run_interactive input s; Some (s, effects ++ rest)
  end.
(** [run_single]: the exit code. *)
Definition run_single (env : Env) (tokens : list Str) (s : Shell) : option (Z * list Effect) :=
  '(code, s, effects) ← handle_result env (parse_line (current_tree s) tokens) s; Some (default 0 code, effects).

(** * The shell: sessions

    Every path of a grammar ends in a command with the arguments it needs, so
    that no line panics; the stack of levels, the candidate and the lock agree. *)

(** ** The arguments of a parsed command *)
(** The commands of a forest, each with the shapes of the arguments on the way
    to it. *)
Definition own_kinds (n : Node) : list ValueKind := match n_kind n with Some kind => [kind] | None => [] end.
Fixpoint node_paths (kinds : list ValueKind) (n : Node) : list (Command * list ValueKind) :=
  let '(mkNode _ _ children command kind) := n in
  let kinds := kinds ++ match kind with Some kind => [kind] | None => [] end in
  match command with Some c => [(c, kinds)] | None => [] end ++ concat (map (node_paths kinds) children).
Definition paths (kinds : list ValueKind) (nodes : list Node) : list (Command * list ValueKind) := concat (map (node_paths kinds) nodes).

Definition fit (kinds : list ValueKind) (args : list Str) : Prop := Forall2 (fun kind token => validate kind token = true) kinds args.

Lemma node_paths_eq kinds n :
  node_paths kinds n = match n_command n with Some c => [(c, kinds ++ own_kinds n)] | None => [] end ++ paths (kinds ++ own_kinds n) (n_children n).
Proof. by destruct n. Qed.

Lemma find_match_spec token nodes n : find_match token nodes = Some n ->
  n ∈ nodes /\ fit (own_kinds n) (if is_arg n then [token] else []).
Proof.
  unfold find_match, own_kinds, is_arg, fit. destruct (find _ nodes) as [m|] eqn:E1.
  - intros [= ->]. apply find_some in E1 as [Hin Hb]. split; [by apply list_elem_of_In|].
    unfold is_arg in Hb. destruct (n_kind n); [by cbn in Hb|]. constructor.
  - intros E2. apply find_some in E2 as [Hin Hb]. split; [by apply list_elem_of_In|].
    destruct (n_kind n); [|done]. by repeat constructor.
Qed.

Lemma paths_in c kinds' kinds n nodes : n ∈ nodes -> (c, kinds') ∈ node_paths kinds n -> (c, kinds') ∈ paths kinds nodes.
Proof.
  intros Hn Hc. unfold paths. apply list_elem_of_In, in_concat. exists (node_paths kinds n).
  split; [apply in_map|]; by apply list_elem_of_In.
Qed.

Lemma parse_loop_paths tokens : forall nodes args last args' node nodes' kinds c,
  parse_loop nodes tokens args last = inr (args', Some node, nodes') -> tokens <> [] -> n_command node = Some c -> fit kinds args ->
  exists kinds', (c, kinds') ∈ paths kinds nodes /\ fit kinds' args'.
Proof.
  induction tokens as [|token tokens IH]; intros nodes args last args' node nodes' kinds c; [done|].
  cbn. intros E _ Hc Hargs. destruct (find_match token nodes) as [n|] eqn:Em; [|done]. apply find_match_spec in Em as [Hn Hk].
  assert (Hfit : fit (kinds ++ own_kinds n) (if is_arg n then args ++ [token] else args)).
  { unfold fit in *. destruct (is_arg n); [by apply Forall2_app|]. rewrite <- (app_nil_r args). by apply Forall2_app. }
  destruct tokens as [|next tokens].
  - injection E as <- <- <-. exists (kinds ++ own_kinds n). split; [|done]. apply (paths_in _ _ _ n); [done|].
    rewrite node_paths_eq, Hc. left.
  - destruct (n_children n) as [|m children] eqn:Ech; [done|]. rewrite <- Ech in E.
    destruct (IH _ _ _ _ _ _ (kinds ++ own_kinds n) _ E ltac:(done) Hc Hfit) as (kinds' & Hin & Hf).
    exists kinds'. split; [|done]. apply (paths_in _ _ _ n); [done|]. rewrite node_paths_eq. apply elem_of_app. by right.
Qed.

Lemma parse_line_paths nodes tokens c args : parse_line nodes tokens = Execution c args ->
  exists kinds, (c, kinds) ∈ paths [] nodes /\ fit kinds args.
Proof.
  unfold parse_line. destruct (last tokens) as [l|] eqn:El; [|done]. destruct (is_help l); [done|].
  destruct (parse_loop nodes tokens [] None) as [m|[[args' node] nodes']] eqn:E; [done|].
  destruct node as [node|]; [|done]. cbn. destruct (n_command node) as [c'|] eqn:Ec; [|done]. intros [= <- <-].
  eapply parse_loop_paths; [exact E| |exact Ec|constructor]. by intros ->.
Qed.

(** ** The arguments a command takes *)
Definition command_kinds (c : Command) : list ValueKind :=
  match c with
  | CmdBgpgg (BgpPeer | BgpPeerIn | BgpPeerOut) => [VkIpAddr]
  | CmdBgpgg RpkiValidate => [VkPrefix; VkAsn]
  | SetTop key => [tk_value_kind key]
  | SetTopOriginate => [VkPrefix; VkIpAddr]
  | SetPeer key => [VkIpAddr; pk_value_kind key]
  | SetPeerFamily _ => [VkIpAddr; VkAfi; VkSafi; VkPolicyName]
  | SetPolicyMatch => [VkString; VkString; VkString]
  | SetPolicyDefault => [VkString; VkString]
  | SetPrefixListEntry => [VkString; VkPrefix]
  | SetBmpServer key => [VkAddrPort; bk_value_kind key]
  | SetRpkiCache key => [VkAddrPort; ck_value_kind key]
  | SetBgpLs key => [lk_value_kind key]
  | SetTelemetryCloudwatchEmf => [VkString]
  | SetTelemetryPrometheusListen => [VkAddrPort]
  | UnsetTopOriginate => [VkPrefix]
  | UnsetPeer | UnsetPeerSetting _ => [VkIpAddr]
  | UnsetPeerFamily | UnsetPeerFamilyDirective _ => [VkIpAddr; VkAfi; VkSafi]
  | UnsetPolicy | UnsetPrefixList => [VkString]
  | UnsetPrefixListEntry => [VkString; VkPrefix]
  | UnsetBmpServer | UnsetBmpServerSetting _ | UnsetRpkiCache | UnsetRpkiCacheSetting _ => [VkAddrPort]
  | _ => []
  end.
Definition path_ok (p : Command * list ValueKind) : bool :=
  let '(c, kinds) := p in bool_decide (take (length (command_kinds c)) kinds = command_kinds c).
Lemma trees_ok : forallb path_ok (paths [] tree ++ paths [] tree_config ++ paths [] tree_config_bgp) = true.
Proof. vm_compute. reflexivity. Qed.

Lemma current_tree_cases s : current_tree s = tree \/ current_tree s = tree_config \/ current_tree s = tree_config_bgp.
Proof. unfold current_tree. destruct (last _) as [[]|]; auto. Qed.

(** A parsed command has its arguments, each of its shape. *)
Lemma parsed_args s tokens c args : parse_line (current_tree s) tokens = Execution c args ->
  exists own rest, args = own ++ rest /\ fit (command_kinds c) own.
Proof.
  intros (kinds & Hin & Hf)%parse_line_paths.
  assert (Hok : path_ok (c, kinds) = true).
  { pose proof trees_ok as H. rewrite forallb_forall in H. apply H, list_elem_of_In. rewrite !elem_of_app.
    destruct (current_tree_cases s) as [E | [E | E]]; rewrite E in Hin; auto. }
  apply bool_decide_eq_true in Hok. exists (take (length (command_kinds c)) args), (drop (length (command_kinds c)) args).
  split; [by rewrite take_drop|]. apply (Forall2_take _ _ _ (length (command_kinds c))) in Hf. by rewrite Hok in Hf.
Qed.

(** The edit of a parsed command is there. *)
Ltac split_args :=
  unfold fit in *;
  repeat match goal with
  | H : Forall2 _ [] _ |- _ => apply Forall2_nil_inv_l in H; subst
  | H : Forall2 _ (_ :: _) _ |- _ => apply Forall2_cons_inv_l in H as (? & ? & ? & H & ->)
  end.
Lemma edit_of_args c own rest : fit (command_kinds c) own -> is_Some (edit_of c (own ++ rest)).
Proof. intros Hf. destruct c; cbn in Hf; split_args; cbn; by eexists. Qed.
Lemma execute_bgpgg_args env c own rest s : fit (command_kinds (CmdBgpgg c)) own -> is_Some (execute_bgpgg env c (own ++ rest) s).
Proof.
  intros Hf. unfold execute_bgpgg. destruct (connect env s) as [err|s']; [by eexists|].
  destruct c; cbn in Hf; split_args; cbn; try by eexists. destruct (parse_uint _ _); by eexists.
Qed.

(** ** Sessions *)
(** What holds between lines: at the root nothing is held; in a configuration
    session the candidate is there and the lock is held. *)
Inductive session : list ShellLevel -> bool -> Prop :=
  | session_root : session [LvRoot] false
  | session_configure : session [LvRoot; LvConfigure] true
  | session_bgp : session [LvRoot; LvConfigure; LvBgpService] true.
Record session_ok (s : Shell) : Prop := mkSessionOk {
  so_levels : session (sh_levels s) (sh_lock s);
  so_candidate : is_Some (sh_candidate s) <-> sh_lock s = true;
}.
Lemma shell_new_ok addr path : session_ok (shell_new addr path).
Proof. split; [constructor|]. cbn. split; [by intros []|done]. Qed.

Lemma connect_keeps env s s' : connect env s = inr s' -> sh_levels s' = sh_levels s /\ sh_candidate s' = sh_candidate s /\ sh_lock s' = sh_lock s.
Proof.
  unfold connect. destruct (sh_client s); [by intros [= <-]|]. destruct (sh_grpc_addr s); [|done].
  by destruct (ev_connect env) as [|[]]; [|intros [= <-]].
Qed.
Lemma connect_ok env s s' : connect env s = inr s' -> session_ok s -> session_ok s'.
Proof. intros (H1 & H2 & H3)%connect_keeps [Hl Hc]. split; [by rewrite H1, H3|by rewrite H2, H3]. Qed.
Lemma outside_ok s : session_ok s -> sh_lock s = false -> sh_levels s = [LvRoot] /\ sh_candidate s = None.
Proof.
  intros [Hl Hc] E. rewrite E in *. inversion Hl; subst. split; [done|]. destruct (sh_candidate s); [|done].
  by assert (false = true) by (apply Hc; by eexists).
Qed.

Lemma levels_top s l : session_ok s -> last (sh_levels s) = Some l ->
  match l with
  | LvRoot => sh_levels s = [LvRoot] /\ sh_lock s = false
  | LvConfigure => sh_levels s = [LvRoot; LvConfigure] /\ sh_lock s = true
  | LvBgpService => sh_levels s = [LvRoot; LvConfigure; LvBgpService] /\ sh_lock s = true
  end.
Proof. intros [Hl _] El. inversion Hl as [E1 E2|E1 E2|E1 E2]; rewrite <- E1 in El; injection El as <-; done. Qed.

Lemma configure_with_ok text s : session_ok s -> last (sh_levels s) = Some LvRoot ->
  exists r, configure_with text s = Some r /\ session_ok (snd (fst r)).
Proof.
  intros Hs El. unfold configure_with. pose proof (parse_fine text) as Hf.
  destruct (parse text) as [root|e|]; [|by eexists|done].
  unfold enter_level. cbn. rewrite bool_decide_true by done. eexists; split; [done|]. apply levels_top in El as [E _]; [|done].
  split; cbn; [rewrite E; constructor|by split].
Qed.
Lemma enter_configure_ok env s : session_ok s -> exists r, enter_configure env s = Some r /\ session_ok (snd (fst r)).
Proof.
  intros Hs. unfold enter_configure. destruct (bool_decide _) eqn:El; cbn; [|by eexists]. apply bool_decide_eq_true in El.
  destruct (ev_lock env) as [|[]]; [by eexists|]. destruct (ev_read env); [by apply configure_with_ok..|by eexists].
Qed.

Lemma exit_level_ok s : session_ok s -> let '(code, s', _) := exit_level s in code = Some 0 \/ (code = None /\ session_ok s').
Proof.
  intros Hs. unfold exit_level. destruct (last (sh_levels s)) as [l|] eqn:El; [|by left].
  pose proof (levels_top s l Hs El) as Ht. destruct l; [by left|right..]; destruct Ht as [E1 E2]; (split; [done|]); split; cbn.
  - rewrite E1. constructor.
  - by split; [intros []|].
  - rewrite E1, E2. constructor.
  - apply Hs.
Qed.

Lemma commit_root_ok env root s l : session_ok s -> last (sh_levels s) = Some l -> l <> LvRoot -> session_ok (snd (fst (commit_root env root s))).
Proof.
  intros Hs El Hne. unfold commit_root. destruct (connect env s) as [err|s'] eqn:Ec; [done|].
  apply connect_ok in Ec as Hs'; [|done]. apply connect_keeps in Ec as (E1 & _ & _).
  destruct (ev_commit env _) as [|[]]; [done|]. split; cbn; [|by split; [intros []|]].
  rewrite E1. pose proof (levels_top s l Hs El) as Ht. destruct l; [done|..]; destruct Ht as [-> _]; constructor.
Qed.
Lemma commit_configure_ok env s : session_ok s -> exists r, commit_configure env s = Some r /\ session_ok (snd (fst r)).
Proof.
  intros Hs. unfold commit_configure. destruct (last (sh_levels s)) as [l|] eqn:El; [|by eexists].
  assert (Hlock : l <> LvRoot -> exists root, sh_candidate s = Some root).
  { intros Hne. apply Hs. pose proof (levels_top s l Hs El) as Ht. destruct l; [done|apply Ht..]. }
  destruct l; [by eexists|..]; (destruct Hlock as [root ->]; [done|]); (eexists; split; [done|]); by eapply commit_root_ok.
Qed.

Lemma edit_candidate_ok f s : session_ok s -> exists r, edit_candidate f s = Some r /\ session_ok (snd (fst r)).
Proof.
  intros Hs. unfold edit_candidate. destruct (sh_candidate s) as [root|] eqn:Er; [|by eexists]. destruct (f root) as [r root'].
  eexists; split; [done|]. destruct Hs as [Hl Hc]. split; cbn; [done|]. rewrite Er in Hc. by split; intros _; [apply Hc|eexists].
Qed.

Lemma show_running_config_ok env s : session_ok s -> session_ok (snd (fst (show_running_config env s))).
Proof.
  intros Hs. unfold show_running_config. destruct (connect env s) as [|s'] eqn:Ec; [done|]. apply connect_ok in Ec; [|done]. by destruct (ev_running env).
Qed.
Lemma show_candidate_ok s : session_ok s -> session_ok (snd (fst (show_candidate s))).
Proof. intros Hs. unfold show_candidate. by destruct (sh_candidate s). Qed.
Lemma show_diff_ok env s : session_ok s -> exists r, show_diff env s = Some r /\ session_ok (snd (fst r)).
Proof.
  intros Hs. unfold show_diff. destruct (sh_candidate s) as [candidate|]; [|by eexists].
  destruct (connect env s) as [|s'] eqn:Ec; [by eexists|]. apply connect_ok in Ec; [|done].
  destruct (ev_running env) as [|text]; [by eexists|]. destruct (split_whitespace text); [by eexists|].
  pose proof (parse_fine text) as Hf. by destruct (parse text); [eexists..|].
Qed.
Lemma execute_bgpgg_ok env c args s : is_Some (execute_bgpgg env c args s) -> session_ok s ->
  exists r, execute_bgpgg env c args s = Some r /\ session_ok (snd (fst r)).
Proof.
  intros [r Hr] Hs. exists r. split; [done|]. revert Hr. unfold execute_bgpgg.
  destruct (connect env s) as [|s'] eqn:Ec; [by intros [= <-]|]. apply connect_ok in Ec; [|done].
  destruct c; cbn; try (by intros [= <-]);
    try (by destruct (args !! 0%nat); cbn; [intros [= <-]|]).
  destruct (args !! 0%nat), (args !! 1%nat); cbn; try by intros [= <-]. by destruct (parse_uint _ _); intros [= <-].
Qed.

(** A command that the grammar of the level let through. *)
Definition fine_end (code : option Z) (s : Shell) : Prop := code = Some 0 \/ session_ok s.
Lemma continue_ok (o : option (ran ())) : (exists r, o = Some r /\ session_ok (snd (fst r))) ->
  exists r, continue <$> o = Some r /\ session_ok (snd (fst r)).
Proof. intros (r & -> & Hs). eexists. split; [done|]. by destruct r as [[[|] s] e]. Qed.
Lemma execute_ok env c args s tokens : session_ok s -> parse_line (current_tree s) tokens = Execution c args ->
  exists r s' effects, execute env c args s = Some (r, s', effects) /\ (r = inr (Some 0) \/ session_ok s').
Proof.
  intros Hs (own & rest & -> & Hf)%parsed_args.
  assert (Hsome : forall o : option (ran (option Z)), (exists r, o = Some r /\ session_ok (snd (fst r))) ->
    exists r s' effects, o = Some (r, s', effects) /\ (r = inr (Some 0) \/ session_ok s')).
  { intros o ([[r s'] e] & -> & H). eauto 6. }
  assert (Hedit : forall f, edit_of c (own ++ rest) = Some (Some f) -> 
    exists r s' effects, (f ← edit_of c (own ++ rest); match f with Some f => continue <$> edit_candidate f s | None => None end) = Some (r, s', effects)
      /\ (r = inr (Some 0) \/ session_ok s')).
  { intros f ->. cbn. apply Hsome, continue_ok. by apply edit_candidate_ok. }
  destruct (edit_of_args c own rest Hf) as [[f|] Ef].
  { specialize (Hedit f Ef). by destruct c. }
  clear Hedit. destruct c; try (exfalso; revert Ef; cbn in Hf |- *; split_args; cbn; discriminate).
  - apply Hsome, continue_ok, execute_bgpgg_ok; [|done]. by apply execute_bgpgg_args.
  - apply Hsome. eexists; split; [done|]. by destruct (ev_version env).
  - by apply Hsome, continue_ok, enter_configure_ok.
  - pose proof (exit_level_ok s Hs) as He. cbn. destruct (exit_level s) as [[code s'] e]. do 3 eexists. split; [done|].
    destruct He as [-> | [-> H]]; auto.
  - destruct s0. cbn [execute]. apply Hsome. destruct (enter_level LvBgpService s) as [e|s'] eqn:E; (eexists; split; [done|]); [done|]. cbn.
    revert E. unfold enter_level. destruct (bool_decide _) eqn:El; [|done]. apply bool_decide_eq_true in El. intros [= <-].
    destruct (levels_top s _ Hs El) as [E1 E2]. split; cbn; [rewrite E1, E2; constructor|apply Hs].
  - by apply Hsome, continue_ok, commit_configure_ok.
  - by apply Hsome, continue_ok, show_diff_ok.
  - apply Hsome. eexists. split; [done|]. pose proof (show_running_config_ok env s Hs). by destruct (show_running_config env s) as [[[|] ?] ?].
  - apply Hsome. eexists. split; [done|]. pose proof (show_candidate_ok s Hs). by destruct (show_candidate s) as [[[|] ?] ?].
Qed.

Lemma interactive_line_ok env line s : session_ok s ->
  exists code s' effects, interactive_line env line s = Some (code, s', effects) /\ (code = Some 0 \/ session_ok s').
Proof.
  intros Hs. unfold interactive_line. destruct (split_whitespace line) as [|token tokens]; [eauto 6|].
  unfold handle_result. destruct (parse_line _ _) as [c args|entries|m] eqn:Ep; [|by eauto 7..].
  destruct (execute_ok env c args s _ Hs Ep) as (r & s' & e & Er & Hend). rewrite Er. cbn.
  do 3 eexists. split; [done|]. destruct Hend as [-> |]; auto.
Qed.
