(* ===== verification/Rtr.v ===== *)
(** * RPKI-to-Router messages ([bgpgg/src/rpki/rtr.rs])

    The PDUs of RFC 8210, their codec, and the reader that cuts a stream into
    them.  A byte slice is a list, and an index out of range a [Panic]. *)
From S2P Require Import Prelude Wire BgpLs Attrs BgpLsAttr.

Definition RTR_VERSION : Z := 1.
Definition RTR_HEADER_SIZE : nat := 8.
Definition RTR_MAX_MESSAGE_SIZE : Z := 65536.
Definition DEFAULT_REFRESH_INTERVAL : Z := 3600.
Definition DEFAULT_RETRY_INTERVAL : Z := 600.
Definition DEFAULT_EXPIRE_INTERVAL : Z := 7200.

(** [Ord for Serial]: the comparison of RFC 1982, on 32-bit numbers. *)
Definition serial_cmp (a b : Z) : comparison :=
  if a =? b then Eq
  else let d := (b - a) mod 2 ^ 32 in if (0 <? d) && (d <? 2 ^ 31) then Lt else Gt.

Inductive RtrMessageType :=
  | TSerialNotify | TSerialQuery | TResetQuery | TCacheResponse | TIpv4Prefix | TIpv6Prefix | TEndOfData | TCacheReset
  | TRouterKey | TErrorReport.
#[export] Instance RtrMessageType_eq_dec : EqDecision RtrMessageType.
Proof. solve_decision. Defined.

Definition rtr_type_code (t : RtrMessageType) : Z :=
  match t with
  | TSerialNotify => 0 | TSerialQuery => 1 | TResetQuery => 2 | TCacheResponse => 3 | TIpv4Prefix => 4 | TIpv6Prefix => 6
  | TEndOfData => 7 | TCacheReset => 8 | TRouterKey => 9 | TErrorReport => 10
  end.
Definition rtr_types : list RtrMessageType :=
  [TSerialNotify; TSerialQuery; TResetQuery; TCacheResponse; TIpv4Prefix; TIpv6Prefix; TEndOfData; TCacheReset; TRouterKey; TErrorReport].
(** [MessageType::from_u8], whose arms are the codes of the enumeration. *)
Definition rtr_type_from_u8 (val : Z) : option RtrMessageType := List.find (fun t => rtr_type_code t =? val) rtr_types.

Inductive RtrErrorCode :=
  | CorruptData | InternalError | NoDataAvailable | InvalidRequest | UnsupportedProtocolVersion | UnsupportedMessageType
  | WithdrawalOfUnknownRecord | DuplicateAnnouncementReceived | UnexpectedProtocolVersion.
#[export] Instance RtrErrorCode_eq_dec : EqDecision RtrErrorCode.
Proof. solve_decision. Defined.

Definition rtr_error_code (e : RtrErrorCode) : Z :=
  match e with
  | CorruptData => 0 | InternalError => 1 | NoDataAvailable => 2 | InvalidRequest => 3 | UnsupportedProtocolVersion => 4
  | UnsupportedMessageType => 5 | WithdrawalOfUnknownRecord => 6 | DuplicateAnnouncementReceived => 7
  | UnexpectedProtocolVersion => 8
  end.
Definition rtr_errors : list RtrErrorCode :=
  [CorruptData; InternalError; NoDataAvailable; InvalidRequest; UnsupportedProtocolVersion; UnsupportedMessageType;
   WithdrawalOfUnknownRecord; DuplicateAnnouncementReceived; UnexpectedProtocolVersion].
(** [ErrorCode::from_u16] *)
Definition rtr_error_from_u16 (val : Z) : option RtrErrorCode := List.find (fun e => rtr_error_code e =? val) rtr_errors.

Inductive RtrParseError :=
  | TooShort (expected actual : Z)
  | InvalidLength (message_type : RtrMessageType) (length : Z)
  | UnknownMessageType (v : Z)
  | UnsupportedVersion (v : Z)
  | UnknownErrorCode (v : Z)
  | MalformedErrorReport
  | InvalidErrorText.

(** ** Messages *)
Record SerialNotify := mkSerialNotify { sn_session_id : Z; sn_serial : Z }.
Record SerialQuery := mkSerialQuery { sq_session_id : Z; sq_serial : Z }.
Record CacheResponse := mkCacheResponse { cr_session_id : Z }.
(** [Ipv4Prefix] and [Ipv6Prefix]: the address is a 32- or 128-bit number. *)
Record PrefixPdu := mkPrefixPdu { pp_flags : Z; pp_prefix_length : Z; pp_max_length : Z; pp_prefix : Z; pp_asn : Z }.
Record EndOfData := mkEndOfData
  { ed_session_id : Z; ed_serial : Z; ed_refresh_interval : Z; ed_retry_interval : Z; ed_expire_interval : Z }.
Record RouterKey := mkRouterKey { rk_flags : Z; rk_subject_key_identifier : list Z; rk_asn : Z; rk_subject_public_key_info : list Z }.
Record ErrorReport := mkErrorReport { er_error_code : RtrErrorCode; er_erroneous_pdu : option (list Z); er_error_text : list Z }.

Inductive RtrMessage :=
  | MSerialNotify (m : SerialNotify)
  | MSerialQuery (m : SerialQuery)
  | MResetQuery
  | MCacheResponse (m : CacheResponse)
  | MIpv4Prefix (m : PrefixPdu)
  | MIpv6Prefix (m : PrefixPdu)
  | MEndOfData (m : EndOfData)
  | MCacheReset
  | MRouterKey (m : RouterKey)
  | MErrorReport (m : ErrorReport).

Definition is_announcement (p : PrefixPdu) : bool := negb (Z.land (pp_flags p) 1 =? 0).

(** [EndOfData::get_timers] *)
Definition clamp (lo hi v : Z) : Z := Z.min (Z.max v lo) hi.
Definition get_timers (m : EndOfData) : Z * Z * Z :=
  let refresh := clamp 1 86400 (ed_refresh_interval m) in
  let retry := clamp 1 7200 (ed_retry_interval m) in
  let expire := clamp 600 172800 (ed_expire_interval m) in
  let min_expire := Z.max refresh retry + 1 in
  (refresh, retry, if expire <? min_expire then min_expire else expire).

(** ** Writing *)
Definition prefix_to_bytes (address_size : nat) (m : PrefixPdu) : list Z :=
  [pp_flags m; pp_prefix_length m; pp_max_length m; 0] ++ be_bytes address_size (pp_prefix m) ++ be_bytes 4 (pp_asn m).
Definition end_of_data_to_bytes (m : EndOfData) : list Z :=
  be_bytes 4 (ed_serial m) ++ be_bytes 4 (ed_refresh_interval m) ++ be_bytes 4 (ed_retry_interval m) ++ be_bytes 4 (ed_expire_interval m).
Definition router_key_to_bytes (m : RouterKey) : list Z :=
  rk_subject_key_identifier m ++ be_bytes 4 (rk_asn m) ++ rk_subject_public_key_info m.
Definition error_report_to_bytes (m : ErrorReport) : list Z :=
  let erroneous_bytes := default [] (er_erroneous_pdu m) in
  be_bytes 4 (Z.of_nat (length erroneous_bytes)) ++ erroneous_bytes ++
  be_bytes 4 (Z.of_nat (length (er_error_text m))) ++ er_error_text m.

(** The type, the session field and the body of [Message::serialize]. *)
Definition rtr_parts (m : RtrMessage) : RtrMessageType * Z * list Z :=
  match m with
  | MSerialNotify m => (TSerialNotify, sn_session_id m, be_bytes 4 (sn_serial m))
  | MSerialQuery m => (TSerialQuery, sq_session_id m, be_bytes 4 (sq_serial m))
  | MResetQuery => (TResetQuery, 0, [])
  | MCacheResponse m => (TCacheResponse, cr_session_id m, [])
  | MIpv4Prefix m => (TIpv4Prefix, 0, prefix_to_bytes 4 m)
  | MIpv6Prefix m => (TIpv6Prefix, 0, prefix_to_bytes 16 m)
  | MEndOfData m => (TEndOfData, ed_session_id m, end_of_data_to_bytes m)
  | MCacheReset => (TCacheReset, 0, [])
  | MRouterKey m => (TRouterKey, Z.shiftl (rk_flags m) 8, router_key_to_bytes m)
  | MErrorReport m => (TErrorReport, rtr_error_code (er_error_code m), error_report_to_bytes m)
  end.

Definition rtr_serialize (m : RtrMessage) : list Z :=
  let '(type_code, session_id, body) := rtr_parts m in
  let length := Z.of_nat (RTR_HEADER_SIZE + length body) mod 2 ^ 32 in
  [RTR_VERSION; rtr_type_code type_code] ++ be_bytes 2 session_id ++ be_bytes 4 length ++ body.

(** ** Reading *)
Abbreviation parsed := (outcome RtrParseError).

Definition expect_length (t : RtrMessageType) (expected length : Z) : parsed () :=
  if negb (length =? expected) then Err (InvalidLength t length) else Ok ().

Definition parse_serial_notify (session_id length : Z) (body : list Z) : parsed SerialNotify :=
  _ ← expect_length TSerialNotify 12 length;
  serial ← read_be body 0 4; Ok (mkSerialNotify session_id serial).
Definition parse_serial_query (session_id length : Z) (body : list Z) : parsed SerialQuery :=
  _ ← expect_length TSerialQuery 12 length;
  serial ← read_be body 0 4; Ok (mkSerialQuery session_id serial).
Definition parse_cache_response (session_id length : Z) : parsed CacheResponse :=
  _ ← expect_length TCacheResponse 8 length; Ok (mkCacheResponse session_id).

(** The fields of a prefix whose address has [address_size] bytes. *)
Definition read_prefix (address_size : nat) (body : list Z) : parsed PrefixPdu :=
  flags ← index body 0;
  prefix_length ← index body 1;
  max_len ← index body 2;
  prefix ← read_be body 4 address_size;
  asn ← read_be body (4 + address_size) 4;
  Ok (mkPrefixPdu flags prefix_length max_len prefix asn).
Definition parse_ipv4_prefix (length : Z) (body : list Z) : parsed PrefixPdu :=
  _ ← expect_length TIpv4Prefix 20 length; read_prefix 4 body.
Definition parse_ipv6_prefix (length : Z) (body : list Z) : parsed PrefixPdu :=
  _ ← expect_length TIpv6Prefix 32 length; read_prefix 16 body.

Definition parse_end_of_data (session_id length : Z) (body : list Z) : parsed EndOfData :=
  _ ← expect_length TEndOfData 24 length;
  serial ← read_be body 0 4;
  refresh ← read_be body 4 4;
  retry ← read_be body 8 4;
  expire ← read_be body 12 4;
  Ok (mkEndOfData session_id serial refresh retry expire).

Definition parse_router_key (flags length : Z) (body : list Z) : parsed RouterKey :=
  if length <? 32 then Err (InvalidLength TRouterKey length)
  else
    ski ← slice body 0 20;
    asn ← read_be body 20 4;
    info ← (if (24 <=? List.length body)%nat then Ok (drop 24 body) else Panic);
    Ok (mkRouterKey flags ski asn info).

Definition parse_error_report (error_code : RtrErrorCode) (length : Z) (body : list Z) : parsed ErrorReport :=
  if length <? 16 then Err (InvalidLength TErrorReport length)
  else
    let body_len := Z.of_nat (List.length body) in
    if body_len <? 8 then Err MalformedErrorReport
    else
      erroneous_pdu_length ← read_be body 0 4;
      if body_len <? 4 + erroneous_pdu_length + 4 then Err MalformedErrorReport
      else
        erroneous_pdu ← (if 0 <? erroneous_pdu_length then Some <$> slice body 4 (Z.to_nat erroneous_pdu_length) else Ok None);
        let text_offset := 4 + erroneous_pdu_length in
        error_text_length ← read_be body (Z.to_nat text_offset) 4;
        let text_data_offset := text_offset + 4 in
        if body_len <? text_data_offset + error_text_length then Err MalformedErrorReport
        else
          error_text ←
            (if 0 <? error_text_length then
               text ← slice body (Z.to_nat text_data_offset) (Z.to_nat error_text_length);
               if utf8_ok text then Ok text else Err InvalidErrorText
             else Ok []);
          Ok (mkErrorReport error_code erroneous_pdu error_text).

(** The arms of [Message::from_bytes]; [flags] is the first byte of the session field. *)
Definition parse_body (t : RtrMessageType) (flags session_id length : Z) (body : list Z) : parsed RtrMessage :=
  match t with
  | TSerialNotify => MSerialNotify <$> parse_serial_notify session_id length body
  | TSerialQuery => MSerialQuery <$> parse_serial_query session_id length body
  | TResetQuery => _ ← expect_length TResetQuery 8 length; Ok MResetQuery
  | TCacheResponse => MCacheResponse <$> parse_cache_response session_id length
  | TIpv4Prefix => MIpv4Prefix <$> parse_ipv4_prefix length body
  | TIpv6Prefix => MIpv6Prefix <$> parse_ipv6_prefix length body
  | TEndOfData => MEndOfData <$> parse_end_of_data session_id length body
  | TCacheReset => _ ← expect_length TCacheReset 8 length; Ok MCacheReset
  | TRouterKey => MRouterKey <$> parse_router_key flags length body
  | TErrorReport =>
      match rtr_error_from_u16 session_id with
      | None => Err (UnknownErrorCode session_id)
      | Some error_code => MErrorReport <$> parse_error_report error_code length body
      end
  end.

(** [Message::from_bytes]: the message, and the number of bytes it takes. *)
Definition rtr_from_bytes (bytes : list Z) : parsed (RtrMessage * nat) :=
  if (length bytes <? RTR_HEADER_SIZE)%nat then Err (TooShort 8 (Z.of_nat (length bytes)))
  else
    version ← index bytes 0;
    if negb (version =? RTR_VERSION) then Err (UnsupportedVersion version)
    else
      type_val ← index bytes 1;
      session_id ← read_be bytes 2 2;
      length ← read_be bytes 4 4;
      let unknown := Err (UnknownMessageType type_val) in
      if (length <? 8) || (RTR_MAX_MESSAGE_SIZE <? length) then
        match rtr_type_from_u8 type_val with Some t => Err (InvalidLength t length) | None => unknown end
      else if Z.of_nat (List.length bytes) <? length then Err (TooShort length (Z.of_nat (List.length bytes)))
      else
        match rtr_type_from_u8 type_val with
        | None => unknown
        | Some message_type =>
            body ← slice bytes RTR_HEADER_SIZE (Z.to_nat length - RTR_HEADER_SIZE);
            flags ← index bytes 2;
            msg ← parse_body message_type flags session_id length body;
            Ok (msg, Z.to_nat length)
        end.

(** ** The reader *)
Inductive RtrReadError :=
  | REof
  | RIo
  | RParse (e : RtrParseError)
  | RMessageTooLarge (len : Z).

(** What the buffer of [RtrReader] holds a message of: the message and the
    rest, an error, or [None] when more must be read. *)
Definition buffered_message (buf : list Z) : option (outcome RtrReadError (RtrMessage * list Z)) :=
  if (RTR_HEADER_SIZE <=? length buf)%nat then
    let msg_len := be_val (take 4 (drop 4 buf)) in
    if RTR_MAX_MESSAGE_SIZE <? msg_len then Some (Err (RMessageTooLarge msg_len))
    else if msg_len <=? Z.of_nat (length buf) then
      match rtr_from_bytes (take (Z.to_nat msg_len) buf) with
      | Ok (msg, consumed) => Some (Ok (msg, drop consumed buf))
      | Err e => Some (Err (RParse e))
      | Panic => Some Panic
      end
    else None
  else None.

Section reader.
(** How the connection ends: closed, or failed. *)
Variable last : RtrReadError.

(** [RtrReader::next_message], over the chunks the connection still delivers
    (a read of no octets is its end, [last]): the message, and what is left of
    the buffer and of the chunks. *)
Fixpoint next_message (buf : list Z) (reads : list (list Z)) : outcome RtrReadError (RtrMessage * list Z * list (list Z)) :=
  match buffered_message buf with
  | Some (Ok (msg, rest)) => Ok (msg, rest, reads)
  | Some (Err e) => Err e
  | Some Panic => Panic
  | None => match reads with [] => Err last | chunk :: reads => next_message (buf ++ chunk) reads end
  end.

(** The messages of a connection, one call after the other, and the error that
    ends it. *)
Fixpoint read_messages (fuel : nat) (buf : list Z) (reads : list (list Z)) : list RtrMessage * option RtrReadError :=
  match fuel with
  | O => ([], None)
  | S fuel =>
      match next_message buf reads with
      | Ok (msg, buf, reads) => let '(msgs, e) := read_messages fuel buf reads in (msg :: msgs, e)
      | Err e => ([], Some e)
      | Panic => ([], None)
      end
  end.
End reader.
