(* ===== verification/RtrSpec.v ===== *)
(** * The RPKI-to-Router codec: round trip, totality, framing

    What is written is read back whatever the reads are cut into; reading any
    octets ends with a message or an error. *)
From S2P Require Import Prelude Wire BgpLs Attrs BgpLsAttr Rtr.

(** ** Well-formed messages *)
Definition prefix_pdu_ok (address_size : nat) (m : PrefixPdu) : Prop :=
  u8 (pp_flags m) /\ u8 (pp_prefix_length m) /\ u8 (pp_max_length m) /\
  0 <= pp_prefix m < 256 ^ Z.of_nat address_size /\ u32 (pp_asn m).

(** Fields in the width of their types, texts in UTF-8, and no more octets
    than a reader takes.  An empty erroneous PDU is written as no PDU. *)
Definition rtr_ok (m : RtrMessage) : Prop :=
  match m with
  | MSerialNotify m => u16 (sn_session_id m) /\ u32 (sn_serial m)
  | MSerialQuery m => u16 (sq_session_id m) /\ u32 (sq_serial m)
  | MResetQuery | MCacheReset => True
  | MCacheResponse m => u16 (cr_session_id m)
  | MIpv4Prefix m => prefix_pdu_ok 4 m
  | MIpv6Prefix m => prefix_pdu_ok 16 m
  | MEndOfData m => u16 (ed_session_id m) /\ u32 (ed_serial m) /\ u32 (ed_refresh_interval m) /\ u32 (ed_retry_interval m) /\
      u32 (ed_expire_interval m)
  | MRouterKey k => u8 (rk_flags k) /\ length (rk_subject_key_identifier k) = 20%nat /\ u32 (rk_asn k)
  | MErrorReport r => er_erroneous_pdu r <> Some [] /\ utf8_ok (er_error_text r) = true
  end /\ Z.of_nat (length (rtr_serialize m)) <= RTR_MAX_MESSAGE_SIZE.

Lemma rtr_type_from_code t : rtr_type_from_u8 (rtr_type_code t) = Some t.
Proof. by destruct t. Qed.
Lemma rtr_error_from_code e : rtr_error_from_u16 (rtr_error_code e) = Some e.
Proof. by destruct e. Qed.

(** ** The header *)
Definition rtr_frame (t : RtrMessageType) (session_id : Z) (body : list Z) : list Z :=
  [RTR_VERSION; rtr_type_code t] ++ be_bytes 2 session_id ++ be_bytes 4 (Z.of_nat (8 + length body)) ++ body.

Lemma rtr_serialize_frame m : rtr_serialize m = rtr_frame (rtr_parts m).1.1 (rtr_parts m).1.2 (rtr_parts m).2.
Proof.
  unfold rtr_serialize, rtr_frame, RTR_HEADER_SIZE. destruct (rtr_parts m) as [[t sid] body]. cbn [fst snd].
  change (2 ^ 32) with (256 ^ Z.of_nat 4). by rewrite be_bytes_mod.
Qed.

Lemma length_rtr_frame t sid body : length (rtr_frame t sid body) = (8 + length body)%nat.
Proof. unfold rtr_frame. rewrite !length_app, !length_be_bytes. done. Qed.

Lemma read_frame t sid body tail :
  u16 sid -> Z.of_nat (8 + length body) <= RTR_MAX_MESSAGE_SIZE ->
  rtr_from_bytes (rtr_frame t sid body ++ tail) =
    (msg ← parse_body t (Z.shiftr sid 8) sid (Z.of_nat (8 + length body)) body; Ok (msg, (8 + length body)%nat)).
Proof.
  intros Hsid Hlen. unfold RTR_MAX_MESSAGE_SIZE in Hlen. set (n := (8 + length body)%nat) in *.
  assert (0 <= Z.of_nat n < 256 ^ Z.of_nat 4) as Hn by (change (256 ^ Z.of_nat 4) with 4294967296; lia).
  assert (length (rtr_frame t sid body ++ tail) = (n + length tail)%nat) as Hl by (rewrite length_app, length_rtr_frame; done).
  unfold rtr_from_bytes, RTR_HEADER_SIZE. rewrite Hl.
  destruct (Nat.ltb_spec (n + length tail) 8); [lia|].
  assert (rtr_frame t sid body ++ tail = [RTR_VERSION; rtr_type_code t] ++ be_bytes 2 sid ++ be_bytes 4 (Z.of_nat n) ++ body ++ tail) as E
    by (unfold rtr_frame; by rewrite <- !app_assoc).
  rewrite E. change (index ([RTR_VERSION; rtr_type_code t] ++ ?l) 0) with (Ok (E := RtrParseError) RTR_VERSION).
  cbn [mbind outcome_bind]. rewrite Z.eqb_refl. cbn [negb].
  change (index ([RTR_VERSION; rtr_type_code t] ++ ?l) 1) with (Ok (E := RtrParseError) (rtr_type_code t)). cbn [mbind outcome_bind].
  rewrite (read_be_app [RTR_VERSION; rtr_type_code t] 2 sid) by done. cbn [mbind outcome_bind].
  rewrite (app_assoc [RTR_VERSION; rtr_type_code t]), (read_be_app _ 4 (Z.of_nat n)) by done. cbn [mbind outcome_bind].
  destruct (Z.ltb_spec (Z.of_nat n) 8); [lia|]. unfold RTR_MAX_MESSAGE_SIZE.
  destruct (Z.ltb_spec 65536 (Z.of_nat n)); [lia|]. cbn [orb].
  destruct (Z.ltb_spec (Z.of_nat (n + length tail)) (Z.of_nat n)); [lia|]. rewrite rtr_type_from_code.
  rewrite Nat2Z.id. rewrite (app_assoc (_ ++ _)), slice_app by (done || lia). cbn [mbind outcome_bind].
  assert (index (E := RtrParseError) ((([RTR_VERSION; rtr_type_code t] ++ be_bytes 2 sid) ++ be_bytes 4 (Z.of_nat n)) ++ body ++ tail) 2
    = Ok (Z.shiftr sid 8)) as ->; [|done].
  unfold u16 in Hsid. unfold index. cbn. rewrite Z.shiftr_div_pow2 by done. f_equal.
  change (2 ^ 8) with 256. apply Z.mod_small. split; [apply Z.div_pos; lia|apply Z.div_lt_upper_bound; lia].
Qed.

(** ** The bodies *)
Lemma read_prefix_written k (m : PrefixPdu) :
  prefix_pdu_ok k m -> read_prefix k (prefix_to_bytes k m) = Ok m.
Proof.
  intros (_ & _ & _ & Hp & Ha). unfold read_prefix, prefix_to_bytes.
  set (pre := [pp_flags m; pp_prefix_length m; pp_max_length m; 0]).
  change (index (pre ++ ?l) 0) with (Ok (E := RtrParseError) (pp_flags m)).
  change (index (pre ++ ?l) 1) with (Ok (E := RtrParseError) (pp_prefix_length m)).
  change (index (pre ++ ?l) 2) with (Ok (E := RtrParseError) (pp_max_length m)). cbn [mbind outcome_bind].
  rewrite (read_be_app pre k (pp_prefix m)) by done. cbn [mbind outcome_bind].
  rewrite app_assoc, read_be_last; [by destruct m| |done]. by rewrite length_app, length_be_bytes.
Qed.

Lemma length_prefix_to_bytes k m : length (prefix_to_bytes k m) = (8 + k)%nat.
Proof. unfold prefix_to_bytes. rewrite !length_app, !length_be_bytes. cbn. lia. Qed.

Lemma read_end_of_data m :
  u32 (ed_serial m) -> u32 (ed_refresh_interval m) -> u32 (ed_retry_interval m) -> u32 (ed_expire_interval m) ->
  parse_end_of_data (ed_session_id m) 24 (end_of_data_to_bytes m) = Ok m.
Proof.
  intros H1 H2 H3 H4. unfold parse_end_of_data, end_of_data_to_bytes, expect_length. cbn [Z.eqb negb mbind outcome_bind].
  rewrite read_be_first by done. cbn [mbind outcome_bind].
  rewrite (read_be_app (be_bytes 4 (ed_serial m)) 4 (ed_refresh_interval m) _ 4) by done. cbn [mbind outcome_bind].
  rewrite app_assoc, (read_be_app (_ ++ _) 4 (ed_retry_interval m) _ 8) by done. cbn [mbind outcome_bind].
  rewrite app_assoc, (read_be_last _ 4 (ed_expire_interval m) 12) by done. cbn [mbind outcome_bind]. by destruct m.
Qed.

Lemma read_router_key m :
  length (rk_subject_key_identifier m) = 20%nat -> u32 (rk_asn m) ->
  parse_router_key (rk_flags m) (Z.of_nat (8 + length (router_key_to_bytes m))) (router_key_to_bytes m) = Ok m.
Proof.
  intros Hs Ha. unfold parse_router_key, router_key_to_bytes.
  set (body := rk_subject_key_identifier m ++ be_bytes 4 (rk_asn m) ++ rk_subject_public_key_info m).
  assert (length body = (24 + length (rk_subject_public_key_info m))%nat) as Hl
    by (unfold body; rewrite !length_app, length_be_bytes, Hs; lia).
  rewrite Hl. destruct (Z.ltb_spec (Z.of_nat (8 + (24 + length (rk_subject_public_key_info m)))) 32); [lia|].
  assert (slice body 0 20 = Ok (E := RtrParseError) (rk_subject_key_identifier m)) as -> by by apply (slice_app []). cbn [mbind outcome_bind].
  assert (read_be body 20 4 = Ok (E := RtrParseError) (rk_asn m)) as -> by by apply read_be_app. cbn [mbind outcome_bind].
  destruct (Nat.leb_spec 24 (24 + length (rk_subject_public_key_info m))); [|lia]. cbn [mbind outcome_bind].
  assert (drop 24 body = rk_subject_public_key_info m) as ->; [|by destruct m].
  unfold body. rewrite app_assoc, drop_app_length'; [done|]. by rewrite length_app, length_be_bytes, Hs.
Qed.

Lemma read_error_report m :
  er_erroneous_pdu m <> Some [] -> utf8_ok (er_error_text m) = true ->
  Z.of_nat (8 + length (error_report_to_bytes m)) <= RTR_MAX_MESSAGE_SIZE ->
  parse_error_report (er_error_code m) (Z.of_nat (8 + length (error_report_to_bytes m))) (error_report_to_bytes m) = Ok m.
Proof.
  intros Hp Ht Hsize. unfold RTR_MAX_MESSAGE_SIZE, parse_error_report, error_report_to_bytes in *. cbv zeta in *.
  set (pdu := default [] (er_erroneous_pdu m)) in *. set (text := er_error_text m) in *.
  set (body := be_bytes 4 (Z.of_nat (length pdu)) ++ pdu ++ be_bytes 4 (Z.of_nat (length text)) ++ text) in *.
  assert (length body = (8 + length pdu + length text)%nat) as Hl by (unfold body; rewrite !length_app, !length_be_bytes; lia).
  rewrite Hl in *.
  assert (0 <= Z.of_nat (length pdu) < 256 ^ Z.of_nat 4 /\ 0 <= Z.of_nat (length text) < 256 ^ Z.of_nat 4) as [H1 H2]
    by (change (256 ^ Z.of_nat 4) with 4294967296; lia).
  destruct (Z.ltb_spec (Z.of_nat (8 + (8 + length pdu + length text))) 16); [lia|].
  destruct (Z.ltb_spec (Z.of_nat (8 + length pdu + length text)) 8); [lia|].
  assert (read_be body 0 4 = Ok (E := RtrParseError) (Z.of_nat (length pdu))) as -> by by apply read_be_first.
  cbn [mbind outcome_bind].
  destruct (Z.ltb_spec (Z.of_nat (8 + length pdu + length text)) (4 + Z.of_nat (length pdu) + 4)); [lia|].
  assert ((if 0 <? Z.of_nat (length pdu) then Some <$> slice body 4 (Z.to_nat (Z.of_nat (length pdu))) else Ok None)
    = Ok (E := RtrParseError) (er_erroneous_pdu m)) as ->.
  { rewrite Nat2Z.id. unfold body. rewrite (slice_app (be_bytes 4 _) pdu) by done. unfold pdu in *.
    destruct (er_erroneous_pdu m) as [[|x l]|]; done. }
  cbn [mbind outcome_bind]. replace (Z.to_nat (4 + Z.of_nat (length pdu))) with (4 + length pdu)%nat by lia.
  assert (read_be body (4 + length pdu) 4 = Ok (E := RtrParseError) (Z.of_nat (length text))) as ->.
  { unfold body. rewrite app_assoc. apply read_be_app; [by rewrite length_app, length_be_bytes|done]. }
  cbn [mbind outcome_bind].
  destruct (Z.ltb_spec (Z.of_nat (8 + length pdu + length text)) (4 + Z.of_nat (length pdu) + 4 + Z.of_nat (length text))); [lia|].
  replace (Z.to_nat (4 + Z.of_nat (length pdu) + 4)) with (8 + length pdu)%nat by lia. rewrite Nat2Z.id.
  assert (slice body (8 + length pdu) (length text) = Ok (E := RtrParseError) text) as Es.
  { pose proof (slice_app (E := RtrParseError) (be_bytes 4 (Z.of_nat (length pdu)) ++ pdu ++ be_bytes 4 (Z.of_nat (length text)))
      text [] (8 + length pdu) (length text)) as E. rewrite app_nil_r, <- !app_assoc in E. apply E; [|done].
    rewrite !length_app, !length_be_bytes. lia. }
  rewrite Es. cbn [mbind outcome_bind]. rewrite Ht.
  destruct (Z.ltb_spec 0 (Z.of_nat (length text))) as [Hpos|Hpos]; cbn [mbind outcome_bind]; [by destruct m|].
  destruct m as [c p t]. unfold text in *. cbn in *. by destruct t.
Qed.

Lemma parse_parts m :
  rtr_ok m ->
  parse_body (rtr_parts m).1.1 (Z.shiftr (rtr_parts m).1.2 8) (rtr_parts m).1.2 (Z.of_nat (8 + length (rtr_parts m).2)) (rtr_parts m).2
  = Ok m.
Proof.
  intros [Hok Hsize]. rewrite rtr_serialize_frame, length_rtr_frame in Hsize.
  destruct m as [[sid ser]|[sid ser]| |[sid]|p|p|e| |k|r]; cbn [rtr_parts fst snd parse_body] in *.
  - destruct Hok. unfold parse_serial_notify. rewrite length_be_bytes. cbn [sn_session_id sn_serial mbind outcome_bind].
    change (expect_length TSerialNotify 12 _) with (Ok (E := RtrParseError) tt). cbn [mbind outcome_bind].
    by rewrite (read_be_all 4 ser).
  - destruct Hok. unfold parse_serial_query. rewrite length_be_bytes. cbn [sq_session_id sq_serial mbind outcome_bind].
    change (expect_length TSerialQuery 12 _) with (Ok (E := RtrParseError) tt). cbn [mbind outcome_bind].
    by rewrite (read_be_all 4 ser).
  - done.
  - done.
  - unfold parse_ipv4_prefix. rewrite length_prefix_to_bytes. cbn [mbind outcome_bind]. by rewrite read_prefix_written.
  - unfold parse_ipv6_prefix. rewrite length_prefix_to_bytes. cbn [mbind outcome_bind]. by rewrite read_prefix_written.
  - destruct Hok as (H1 & H2 & H3 & H4 & H5).
    assert (Z.of_nat (8 + length (end_of_data_to_bytes e)) = 24) as ->
      by (unfold end_of_data_to_bytes; by rewrite !length_app, !length_be_bytes).
    by rewrite read_end_of_data.
  - done.
  - destruct Hok as (Hf & Hs & Ha). rewrite Z.shiftr_shiftl_l by done. cbn [Z.sub Z.add Z.opp Pos.add Z.pos_sub]. rewrite Z.shiftl_0_r.
    by rewrite read_router_key.
  - destruct Hok as [Hp Ht]. rewrite rtr_error_from_code. by rewrite read_error_report.
Qed.

Lemma rtr_session_u16 m : rtr_ok m -> u16 (rtr_parts m).1.2.
Proof.
  intros [Hok _]. unfold u16. destruct m as [[]|[]| |[]|p|p|e| |k|r]; cbn [rtr_parts fst snd] in *; try (destruct Hok; done); try lia.
  - destruct Hok as [Hf _]. unfold u8 in Hf. rewrite Z.shiftl_mul_pow2 by done. lia.
  - by destruct (er_error_code r).
Qed.

Lemma rtr_exchange m tail : rtr_ok m -> rtr_from_bytes (rtr_serialize m ++ tail) = Ok (m, length (rtr_serialize m)).
Proof.
  intros Hok. pose proof (proj2 Hok) as Hsize. rewrite rtr_serialize_frame, length_rtr_frame in *.
  rewrite read_frame by (done || by apply rtr_session_u16). by rewrite parse_parts.
Qed.

(** ** No panic *)
Lemma read_be_ok {E} bytes from len : (from + len <= length bytes)%nat -> exists v, read_be (E := E) bytes from len = Ok v.
Proof.
  intros Hl. unfold read_be, slice. destruct (Nat.leb_spec (from + len) (length bytes)); [|lia]. by eexists.
Qed.
Lemma index_in_range {E} (l : list Z) i : (i < length l)%nat -> exists v, index (E := E) l i = Ok v.
Proof. intros Hi. unfold index. destruct (lookup_lt_is_Some_2 l i Hi) as [v ->]. by eexists. Qed.

Lemma expect_length_inv t n len : expect_length t n len = Ok tt \/ exists e, expect_length t n len = Err e.
Proof. unfold expect_length. destruct (negb _); eauto. Qed.

(** Reads at the places the length allows. *)
Ltac no_panic_reads :=
  repeat first
    [ match goal with
      | |- context [read_be ?l ?f ?n] =>
          let v := fresh "v" in let E := fresh "E" in
          destruct (read_be_ok (E := RtrParseError) l f n) as [v E]; [try lia|rewrite E; cbn [mbind outcome_bind]]
      | |- context [index ?l ?i] =>
          let v := fresh "v" in let E := fresh "E" in
          destruct (index_in_range (E := RtrParseError) l i) as [v E]; [try lia|rewrite E; cbn [mbind outcome_bind]]
      end ].

Lemma rtr_parse_body_no_panic t flags sid len body :
  bytes_ok body -> len = Z.of_nat (8 + length body) -> parse_body t flags sid len body <> Panic.
Proof.
  intros Hb Hl. unfold parse_body, parse_serial_notify, parse_serial_query, parse_cache_response, parse_ipv4_prefix, parse_ipv6_prefix,
    parse_end_of_data, read_prefix, expect_length.
  assert (forall n, negb (len =? n) = false -> Z.of_nat (length body) = n - 8) as Hn.
  { intros n Hx. bool_props. lia. }
  destruct t.
  1,2,5,6,7: apply outcome_fmap_no_panic; destruct (negb (len =? _)) eqn:El; [done|]; apply Hn in El; cbn [mbind outcome_bind]; by no_panic_reads.
  - by destruct (negb (len =? 8)).
  - apply outcome_fmap_no_panic. by destruct (negb (len =? 8)).
  - by destruct (negb (len =? 8)).
  - apply outcome_fmap_no_panic. unfold parse_router_key. destruct (Z.ltb_spec len 32); [done|].
    apply outcome_bind_no_panic; [apply slice_no_panic; lia|]. intros ski _. no_panic_reads.
    destruct (Nat.leb_spec 24 (length body)); [done|lia].
  - destruct (rtr_error_from_u16 sid) as [c|]; [|done]. apply outcome_fmap_no_panic. unfold parse_error_report.
    destruct (Z.ltb_spec len 16); [done|]. cbv zeta. destruct (Z.ltb_spec (Z.of_nat (length body)) 8); [done|].
    assert (exists v, read_be body 0 4 = Ok (E := RtrParseError) v /\ 0 <= v) as (pl & Ep & Hpl).
    { unfold read_be, slice. destruct (Nat.leb_spec (0 + 4) (length body)); [|lia]. eexists. split; [done|].
      apply be_val_bounds. by apply Forall_take, Forall_drop. }
    rewrite Ep. cbn [mbind outcome_bind].
    destruct (Z.ltb_spec (Z.of_nat (length body)) (4 + pl + 4)); [done|].
    apply outcome_bind_no_panic.
    { destruct (0 <? pl); [|done]. apply outcome_fmap_no_panic, slice_no_panic. lia. }
    intros pdu _.
    assert (exists v, read_be body (Z.to_nat (4 + pl)) 4 = Ok (E := RtrParseError) v /\ 0 <= v) as (tl & Et & Htl).
    { unfold read_be, slice. destruct (Nat.leb_spec (Z.to_nat (4 + pl) + 4) (length body)); [|lia]. eexists. split; [done|].
      apply be_val_bounds. by apply Forall_take, Forall_drop. }
    rewrite Et. cbn [mbind outcome_bind]. destruct (Z.ltb_spec (Z.of_nat (length body)) (4 + pl + 4 + tl)); [done|].
    apply outcome_bind_no_panic; [|done]. destruct (0 <? tl); [|done].
    apply outcome_bind_no_panic; [apply slice_no_panic; lia|]. intros text _. by destruct (utf8_ok text).
Qed.

Lemma rtr_from_bytes_no_panic bytes : bytes_ok bytes -> rtr_from_bytes bytes <> Panic.
Proof.
  intros Hb. unfold rtr_from_bytes, RTR_HEADER_SIZE. destruct (Nat.ltb_spec (length bytes) 8); [done|].
  destruct (index_in_range (E := RtrParseError) bytes 0) as [ver Ev]; [lia|]. rewrite Ev. cbn [mbind outcome_bind].
  destruct (negb _); [done|]. destruct (index_in_range (E := RtrParseError) bytes 1) as [ty Ety]; [lia|]. rewrite Ety. cbn [mbind outcome_bind].
  destruct (read_be_ok (E := RtrParseError) bytes 2 2) as [sid Es]; [lia|]. rewrite Es. cbn [mbind outcome_bind].
  destruct (read_be_ok (E := RtrParseError) bytes 4 4) as [len El]; [lia|]. rewrite El. cbn [mbind outcome_bind].
  destruct (Z.ltb_spec len 8); [by destruct (rtr_type_from_u8 ty)|].
  destruct (Z.ltb_spec RTR_MAX_MESSAGE_SIZE len); [by destruct (rtr_type_from_u8 ty)|]. cbn [orb].
  destruct (Z.ltb_spec (Z.of_nat (length bytes)) len); [done|]. destruct (rtr_type_from_u8 ty) as [t|]; [|done].
  unfold slice. destruct (Nat.leb_spec (8 + (Z.to_nat len - 8)) (length bytes)); [|lia]. cbn [mbind outcome_bind].
  destruct (index_in_range (E := RtrParseError) bytes 2) as [f Ef]; [lia|]. rewrite Ef. cbn [mbind outcome_bind].
  apply outcome_bind_no_panic; [|done]. apply rtr_parse_body_no_panic; [by apply Forall_take, Forall_drop|].
  rewrite length_take, length_drop. lia.
Qed.

(** ** Framing *)
Lemma frame_length_field m tail :
  rtr_ok m -> be_val (take 4 (drop 4 (rtr_serialize m ++ tail))) = Z.of_nat (length (rtr_serialize m)).
Proof.
  intros [_ Hsize]. rewrite rtr_serialize_frame, length_rtr_frame in *. unfold rtr_frame.
  set (body := (rtr_parts m).2) in *. rewrite <- !app_assoc.
  rewrite (app_assoc [RTR_VERSION; rtr_type_code (rtr_parts m).1.1]), drop_app_length' by (by rewrite length_app, length_be_bytes).
  rewrite take_app_length' by by rewrite length_be_bytes. apply be_val_be_bytes_id.
  unfold RTR_MAX_MESSAGE_SIZE in Hsize. change (256 ^ Z.of_nat 4) with 4294967296. lia.
Qed.

Lemma serialize_size m : rtr_ok m -> (8 <= length (rtr_serialize m))%nat.
Proof. intros _. rewrite rtr_serialize_frame, length_rtr_frame. lia. Qed.

Lemma buffered_ready m buf tail :
  rtr_ok m -> buf = rtr_serialize m ++ tail -> buffered_message buf = Some (Ok (m, tail)).
Proof.
  intros Hok ->. pose proof (serialize_size m Hok) as H8. unfold buffered_message, RTR_HEADER_SIZE. rewrite length_app.
  destruct (Nat.leb_spec 8 (length (rtr_serialize m) + length tail)); [|lia]. rewrite frame_length_field by done. cbv zeta.
  destruct (Z.ltb_spec RTR_MAX_MESSAGE_SIZE (Z.of_nat (length (rtr_serialize m)))); [destruct Hok; lia|].
  destruct (Z.leb_spec (Z.of_nat (length (rtr_serialize m))) (Z.of_nat (length (rtr_serialize m) + length tail))); [|lia].
  rewrite Nat2Z.id, take_app_length. rewrite <- (app_nil_r (rtr_serialize m)) at 1. rewrite rtr_exchange by done.
  by rewrite drop_app_length.
Qed.

(** Until the whole message is there, nothing is delivered. *)
Lemma buffered_waits m buf more tail :
  rtr_ok m -> buf ++ more = rtr_serialize m ++ tail -> (length buf < length (rtr_serialize m))%nat -> buffered_message buf = None.
Proof.
  intros Hok E Hl. unfold buffered_message, RTR_HEADER_SIZE. destruct (Nat.leb_spec 8 (length buf)); [|done].
  assert (be_val (take 4 (drop 4 buf)) = Z.of_nat (length (rtr_serialize m))) as ->.
  { rewrite <- (frame_length_field m tail Hok), <- E, drop_app_le, take_app_le; [done| |]; rewrite ?length_drop; lia. }
  destruct (Z.ltb_spec RTR_MAX_MESSAGE_SIZE (Z.of_nat (length (rtr_serialize m)))); [destruct Hok; lia|].
  by destruct (Z.leb_spec (Z.of_nat (length (rtr_serialize m))) (Z.of_nat (length buf))); [lia|].
Qed.

Lemma next_message_ok last m tail : forall reads buf,
  rtr_ok m -> buf ++ concat reads = rtr_serialize m ++ tail ->
  exists buf' reads', next_message last buf reads = Ok (m, buf', reads') /\ buf' ++ concat reads' = tail.
Proof.
  induction reads as [|chunk reads IH]; intros buf Hok E; destruct (Nat.lt_ge_cases (length buf) (length (rtr_serialize m))) as [Hl|Hl].
  - exfalso. rewrite app_nil_r in E. subst buf. rewrite length_app in Hl. lia.
  - assert (buf = rtr_serialize m ++ tail) as -> by (by rewrite app_nil_r in E).
    exists tail, []. cbn [next_message]. rewrite (buffered_ready m _ tail) by done. by rewrite app_nil_r.
  - cbn [next_message]. rewrite (buffered_waits m buf (concat (chunk :: reads)) tail) by done. apply IH; [done|].
    by rewrite <- app_assoc.
  - assert (exists rest, buf = rtr_serialize m ++ rest /\ rest ++ concat (chunk :: reads) = tail) as (rest & -> & Et).
    { exists (drop (length (rtr_serialize m)) buf). pose proof (f_equal (take (length (rtr_serialize m))) E) as E1.
      rewrite take_app_length, take_app_le in E1 by done. rewrite <- E1 at 1. rewrite take_drop. split; [done|].
      pose proof (f_equal (drop (length (rtr_serialize m))) E) as E2. by rewrite drop_app_length, drop_app_le in E2 by done. }
    exists rest, (chunk :: reads). cbn [next_message]. by rewrite (buffered_ready m _ rest).
Qed.

Lemma next_message_end last : forall reads, concat reads = [] -> next_message last [] reads = Err last.
Proof. induction reads as [|chunk reads IH]; [done|]. cbn [concat]. intros [-> E]%app_nil. by apply IH. Qed.

(** ** Properties *)

(** What [serialize] writes, [from_bytes] reads back, and says how many octets
    it took whatever follows. *)
Theorem rtr_roundtrip (m : RtrMessage) (tail : list Z) :
  rtr_ok m -> rtr_from_bytes (rtr_serialize m ++ tail) = Ok (m, length (rtr_serialize m)).
Proof. apply rtr_exchange. Qed.

(** No octets from a cache make the parser panic. *)
Theorem rtr_from_bytes_total (bytes : list Z) :
  bytes_ok bytes -> rtr_from_bytes bytes <> Panic.
Proof. apply rtr_from_bytes_no_panic. Qed.

(** C24. However the connection cuts the messages of a cache into reads, the reader
    delivers those messages in order, then the end of the connection. *)
Theorem rtr_reader_frames (last : RtrReadError) (msgs : list RtrMessage) (reads : list (list Z)) (fuel : nat) :
  Forall rtr_ok msgs -> concat reads = concat (map rtr_serialize msgs) -> (length msgs < fuel)%nat ->
  read_messages last fuel [] reads = (msgs, Some last).
Proof.
  intros Hok E. change (concat reads) with ([] ++ concat reads) in E. revert fuel E. generalize (@nil Z) as buf. revert reads.
  induction Hok as [|m msgs Hm Hok IH]; intros reads buf fuel E Hf; (destruct fuel as [|fuel]; [lia|]); cbn [read_messages].
  - apply app_nil in E as [-> E]. by rewrite next_message_end.
  - destruct (next_message_ok last m (concat (map rtr_serialize msgs)) reads buf Hm E) as (buf' & reads' & -> & E').
    cbn in Hf. by rewrite (IH reads' buf' fuel) by (done || lia).
Qed.

(** The timers of an End of Data PDU are in the ranges of RFC 8210, and data
    expires after the next refresh and the next retry. *)
Theorem rtr_timers_in_range (m : EndOfData) :
  let '(refresh, retry, expire) := get_timers m in
  1 <= refresh <= 86400 /\ 1 <= retry <= 7200 /\ 600 <= expire <= 172800 /\ refresh < expire /\ retry < expire.
Proof. unfold get_timers, clamp. cbv zeta. destruct (Z.ltb_spec (Z.min (Z.max (ed_expire_interval m) 600) 172800)
  (Z.max (Z.min (Z.max (ed_refresh_interval m) 1) 86400) (Z.min (Z.max (ed_retry_interval m) 1) 7200) + 1)); lia. Qed.

(** Serial numbers compare as in RFC 1982: a later one is less than half the
    circle ahead.  Two numbers half the circle apart are each greater than the
    other, so that [Ord] is not an order there. *)
Theorem serial_order (a n : Z) :
  u32 a -> 0 < n < 2 ^ 32 ->
  let b := (a + n) mod 2 ^ 32 in
  (serial_cmp a b = Lt <-> n < 2 ^ 31) /\ (serial_cmp b a = Lt <-> 2 ^ 31 < n) /\
  (n = 2 ^ 31 -> serial_cmp a b = Gt /\ serial_cmp b a = Gt).
Proof.
  intros Ha Hn b. unfold u32 in Ha.
  assert (b - a = n \/ b - a = n - 2 ^ 32) as Hd.
  { unfold b. destruct (Z.lt_ge_cases (a + n) (2 ^ 32)); [left; rewrite Z.mod_small; lia|right].
    rewrite <- (Z.mod_unique_pos (a + n) (2 ^ 32) 1 (a + n - 2 ^ 32)); lia. }
  assert ((b - a) mod 2 ^ 32 = n) as E1.
  { destruct Hd as [-> | ->]; [apply Z.mod_small; lia|]. rewrite <- (Z.mod_unique_pos (n - 2 ^ 32) (2 ^ 32) (-1) n); lia. }
  assert ((a - b) mod 2 ^ 32 = 2 ^ 32 - n) as E2.
  { replace (a - b) with (- (b - a)) by lia. destruct Hd as [-> | ->].
    - rewrite <- (Z.mod_unique_pos (- n) (2 ^ 32) (-1) (2 ^ 32 - n)); lia.
    - rewrite Z.mod_small; lia. }
  unfold serial_cmp. rewrite E1, E2.
  destruct (Z.eqb_spec a b); [lia|]. destruct (Z.eqb_spec b a); [lia|].
  destruct (Z.ltb_spec 0 n); [|lia]. destruct (Z.ltb_spec 0 (2 ^ 32 - n)); [|lia]. cbn [andb].
  destruct (Z.ltb_spec n (2 ^ 31)), (Z.ltb_spec (2 ^ 32 - n) (2 ^ 31)); split_and!; try split; try done; try lia.
Qed.

(** A response of a cache, delivered in pieces that cut its messages. *)
Definition demo_messages : list RtrMessage :=
  [MCacheResponse (mkCacheResponse 7); MIpv4Prefix (mkPrefixPdu 1 8 24 (10 * 2 ^ 24) 65001); MEndOfData (mkEndOfData 7 1 3600 600 7200)].
Definition demo_stream : list Z := concat (map rtr_serialize demo_messages).

Lemma rtr_reader_frames_witness :
  read_messages REof 4 [] [take 5 demo_stream; take 20 (drop 5 demo_stream); drop 25 demo_stream] = (demo_messages, Some REof).
Proof.
  apply (rtr_reader_frames REof demo_messages [take 5 demo_stream; take 20 (drop 5 demo_stream); drop 25 demo_stream] 4);
    [|vm_compute; reflexivity|cbn; lia].
  repeat (apply Forall_cons; split); try apply Forall_nil_2;
    (split; [|vm_compute; discriminate]); cbn; unfold prefix_pdu_ok, u8, u16, u32; cbn; lia.
Defined.
