(* ===== verification/RtrSession.v ===== *)
(** * A session with an RPKI cache ([bgpgg/src/rpki/session.rs])

    [CacheSession] as a function from what happens on the connection to its new
    state, what it writes, and what it tells the manager.  Time is a number of
    seconds given with every event, and so is whether a write succeeds.  The
    connections themselves (TCP, SSH) and logging are left out. *)
From S2P Require Import Prelude Wire Net Vrp BgpLs Attrs Text BgpLsAttr Rtr.

(** ** What the manager shares with its sessions ([rpki/manager.rs]) *)
Definition SocketAddr : Type := IpAddr * Z.

Record SshTransport := mkSsh { ssh_username : Str; ssh_private_key_file : Str; ssh_known_hosts_file : option Str }.
Inductive RtrTransport := Tcp | Ssh (t : SshTransport).
Definition transport_to_str (t : RtrTransport) : Str := match t with Tcp => str "tcp" | Ssh _ => str "ssh" end.

Record RtrCacheConfig := mkCacheConfig {
  cc_address : SocketAddr;
  cc_preference : Z;
  cc_transport : RtrTransport;
  cc_retry_interval : option Z;
  cc_refresh_interval : option Z;
  cc_expire_interval : option Z;
}.

Record VrpBatch := mkBatch { vb_cache_addr : SocketAddr; vb_session_id : Z; vb_serial : Z; vb_vrps : gset Vrp }.
Inductive CacheEvent :=
  | Batch (b : VrpBatch)
  | CacheDisconnected (addr : SocketAddr)
  | CacheExpired (addr : SocketAddr).

(** ** The session *)
Record CacheSession := mkSession {
  se_config : RtrCacheConfig;
  se_session_id : option Z;
  se_serial_number : option Z;
  se_refresh_interval : Z;
  se_retry_interval : Z;
  se_expire_interval : Z;
  se_reconnect_delay : Z;
  se_local_vrps : gset Vrp;
  se_syncing : bool;
  se_pending_announced : gset Vrp;
  se_pending_withdrawn : gset Vrp;
  se_refresh_deadline : Z;
  se_expire_deadline : Z;
}.

Definition session_eta (s : CacheSession) : CacheSession :=
  mkSession (se_config s) (se_session_id s) (se_serial_number s) (se_refresh_interval s) (se_retry_interval s) (se_expire_interval s)
    (se_reconnect_delay s) (se_local_vrps s) (se_syncing s) (se_pending_announced s) (se_pending_withdrawn s)
    (se_refresh_deadline s) (se_expire_deadline s).
Definition with_session_id v s := ltac:(update_field session_eta se_session_id v s).
Definition with_serial_number v s := ltac:(update_field session_eta se_serial_number v s).
Definition with_refresh_interval v s := ltac:(update_field session_eta se_refresh_interval v s).
Definition with_retry_interval v s := ltac:(update_field session_eta se_retry_interval v s).
Definition with_expire_interval v s := ltac:(update_field session_eta se_expire_interval v s).
Definition with_reconnect_delay v s := ltac:(update_field session_eta se_reconnect_delay v s).
Definition with_local_vrps v s := ltac:(update_field session_eta se_local_vrps v s).
Definition with_syncing v s := ltac:(update_field session_eta se_syncing v s).
Definition with_pending_announced v s := ltac:(update_field session_eta se_pending_announced v s).
Definition with_pending_withdrawn v s := ltac:(update_field session_eta se_pending_withdrawn v s).
Definition with_refresh_deadline v s := ltac:(update_field session_eta se_refresh_deadline v s).
Definition with_expire_deadline v s := ltac:(update_field session_eta se_expire_deadline v s).

Definition session_new (config : RtrCacheConfig) (now : Z) : CacheSession :=
  let refresh_interval := default DEFAULT_REFRESH_INTERVAL (cc_refresh_interval config) in
  let retry_interval := default DEFAULT_RETRY_INTERVAL (cc_retry_interval config) in
  let expire_interval := default DEFAULT_EXPIRE_INTERVAL (cc_expire_interval config) in
  mkSession config None None refresh_interval retry_interval expire_interval 1 ∅ false ∅ ∅
    (now + refresh_interval) (now + expire_interval).

Inductive SessionResult := SrShutdown | SrDisconnected | SrFatalError.

(** What a session does: messages it writes, events it sends. *)
Inductive SessionOutput := Write (m : RtrMessage) | Tell (e : CacheEvent).

(** The new state, the outputs, and the result when the session stops. *)
Definition handled : Type := CacheSession * list SessionOutput * option SessionResult.
Definition continue (s : CacheSession) (out : list SessionOutput) : handled := (s, out, None).
Definition stop (s : CacheSession) (out : list SessionOutput) (r : SessionResult) : handled := (s, out, Some r).

Definition has_serial (s : CacheSession) : bool := match se_serial_number s with Some _ => true | None => false end.
Definition reset_session (s : CacheSession) : CacheSession := with_serial_number None (with_session_id None s).

Definition build_query (s : CacheSession) : RtrMessage :=
  match se_session_id s, se_serial_number s with
  | Some session_id, Some serial => MSerialQuery (mkSerialQuery session_id serial)
  | _, _ => MResetQuery
  end.

(** The characters of an error text. *)
Definition text_bytes (t : string) : list Z := map (fun c => Z.of_nat (Ascii.nat_of_ascii c)) (String.list_ascii_of_string t).

Definition send_error_report (code : RtrErrorCode) (text : list Z) : list SessionOutput :=
  [Write (MErrorReport (mkErrorReport code None text))].

(** A failed write of the report changes nothing else. *)
Definition protocol_error (s : CacheSession) (ok : bool) (code : RtrErrorCode) (text : string) : handled :=
  stop (reset_session s) (if ok then send_error_report code (text_bytes text) else []) SrDisconnected.

(** [make_ip_network]: the text of an address and a length, parsed back. *)
Definition make_ip_network_v4 (addr prefix_len : Z) : option IpNetwork :=
  if 32 <? prefix_len then None else Some (V4 (mkV4 addr prefix_len)).
Definition make_ip_network_v6 (addr prefix_len : Z) : option IpNetwork :=
  if 128 <? prefix_len then None else Some (V6 (mkV6 addr prefix_len)).

(** ** Messages *)
Definition handle_msg_serial_notify (s : CacheSession) (ok : bool) (notify : SerialNotify) : handled :=
  let newer :=
    match se_serial_number s with
    | Some our_serial => bool_decide (serial_cmp our_serial (sn_serial notify) = Lt)
    | None => true
    end in
  if negb newer then continue s []
  else if negb ok then stop (reset_session s) [] SrDisconnected
  else continue (with_syncing false s) [Write (build_query s)].

Definition handle_msg_cache_response (s : CacheSession) (ok : bool) (resp : CacheResponse) : handled :=
  let mismatch := match se_session_id s with Some expected => negb (cr_session_id resp =? expected) | None => false end in
  if mismatch then protocol_error s ok CorruptData "session ID mismatch"
  else
    let s := match se_session_id s with Some _ => s | None => with_session_id (Some (cr_session_id resp)) s end in
    if se_syncing s then protocol_error s ok CorruptData "CacheResponse while sync already in progress"
    else continue (with_pending_withdrawn ∅ (with_pending_announced ∅ (with_syncing true s))) [].

Definition handle_msg_prefix (s : CacheSession) (ok : bool) (announcement : bool) (vrp : option Vrp) : handled :=
  if negb (se_syncing s) then protocol_error s ok CorruptData "prefix PDU outside of sync cycle"
  else
    match vrp with
    | None => continue s []
    | Some vrp =>
        if announcement then
          if bool_decide (vrp ∈ se_pending_announced s)
          then protocol_error s ok DuplicateAnnouncementReceived "duplicate announcement in sync cycle"
          else
            let s := with_pending_announced ({[vrp]} ∪ se_pending_announced s) s in
            if has_serial s && bool_decide (vrp ∈ se_local_vrps s)
            then protocol_error s ok DuplicateAnnouncementReceived "duplicate announcement of existing VRP"
            else continue s []
        else if negb (has_serial s)
        then protocol_error s ok CorruptData "withdrawal in reset response, expected announcements only"
        else if negb (bool_decide (vrp ∈ se_local_vrps s))
        then protocol_error s ok WithdrawalOfUnknownRecord "withdrawal of unknown record"
        else continue (with_pending_withdrawn ({[vrp]} ∪ se_pending_withdrawn s) s) []
    end.

Definition handle_msg_end_of_data (s : CacheSession) (now : Z) (ok : bool) (eod : EndOfData) : handled :=
  if negb (se_syncing s) then protocol_error s ok CorruptData "EndOfData outside of sync cycle"
  else
    let s := with_syncing false s in
    let '(refresh, retry, expire) := get_timers eod in
    let s := with_refresh_interval (default refresh (cc_refresh_interval (se_config s))) s in
    let s := with_retry_interval (default retry (cc_retry_interval (se_config s))) s in
    let s := with_expire_interval (default expire (cc_expire_interval (se_config s))) s in
    let s :=
      if negb (has_serial s) then with_local_vrps (se_pending_announced s) s
      else with_local_vrps ((se_local_vrps s ∪ se_pending_announced s) ∖ se_pending_withdrawn s) s in
    let s := with_serial_number (Some (ed_serial eod)) s in
    let s := with_pending_withdrawn ∅ (with_pending_announced ∅ s) in
    let batch := mkBatch (cc_address (se_config s)) (ed_session_id eod) (ed_serial eod) (se_local_vrps s) in
    let s := with_refresh_deadline (now + se_refresh_interval s) s in
    let s := with_expire_deadline (now + se_expire_interval s) s in
    continue s [Tell (Batch batch)].

Definition handle_msg_error_report (s : CacheSession) (report : ErrorReport) : handled :=
  match er_error_code report with
  | NoDataAvailable => continue s []
  | _ => stop s [] SrFatalError
  end.

Definition handle_msg_cache_reset (s : CacheSession) (ok : bool) : handled :=
  let s := reset_session (with_local_vrps ∅ s) in
  if negb ok then stop s [] SrDisconnected else continue (with_syncing false s) [Write MResetQuery].

(** [CacheSession::handle_message] *)
Definition handle_message (s : CacheSession) (now : Z) (ok : bool) (msg : RtrMessage) : handled :=
  match msg with
  | MSerialNotify notify => handle_msg_serial_notify s ok notify
  | MCacheResponse resp => handle_msg_cache_response s ok resp
  | MIpv4Prefix pfx =>
      handle_msg_prefix s ok (is_announcement pfx)
        (option_map (fun prefix => mkVrp prefix (pp_max_length pfx) (pp_asn pfx)) (make_ip_network_v4 (pp_prefix pfx) (pp_prefix_length pfx)))
  | MIpv6Prefix pfx =>
      handle_msg_prefix s ok (is_announcement pfx)
        (option_map (fun prefix => mkVrp prefix (pp_max_length pfx) (pp_asn pfx)) (make_ip_network_v6 (pp_prefix pfx) (pp_prefix_length pfx)))
  | MEndOfData eod => handle_msg_end_of_data s now ok eod
  | MCacheReset => handle_msg_cache_reset s ok
  | MErrorReport report => handle_msg_error_report s report
  | MRouterKey _ | MResetQuery | MSerialQuery _ => continue s []
  end.

(** ** The loop of a connection *)
Inductive SessionEvent :=
  | Received (msg : RtrMessage)
  | ReadFailed (e : RtrReadError)
  | RefreshTimer
  | ExpireTimer
  | ShutdownSignal.

Section session.
(** The text of a parse error, as [Debug] prints it. *)
Variable debug_parse_error : RtrParseError -> list Z.

Definition handle_read_failed (s : CacheSession) (ok : bool) (e : RtrReadError) : handled :=
  match e with
  | REof | RIo => stop s [] SrDisconnected
  | RParse err => stop s (if ok then send_error_report CorruptData (debug_parse_error err) else []) SrFatalError
  | RMessageTooLarge _ => stop s [] SrFatalError
  end.

Definition handle_refresh (s : CacheSession) (now : Z) (ok : bool) : handled :=
  let rearm s := with_refresh_deadline (now + se_refresh_interval s) s in
  match se_session_id s, se_serial_number s with
  | Some session_id, Some serial =>
      if negb ok then stop s [] SrDisconnected
      else continue (rearm (with_syncing false s)) [Write (MSerialQuery (mkSerialQuery session_id serial))]
  | _, _ => continue (rearm s) []
  end.

Definition handle_expire (s : CacheSession) (now : Z) : handled :=
  let s := with_local_vrps ∅ s in
  continue (with_expire_deadline (now + se_expire_interval s) s) [Tell (CacheExpired (cc_address (se_config s)))].

(** One round of the loop of [CacheSession::run_session]. *)
Definition session_step (s : CacheSession) (now : Z) (ok : bool) (event : SessionEvent) : handled :=
  match event with
  | Received msg => handle_message s now ok msg
  | ReadFailed e => handle_read_failed s ok e
  | RefreshTimer => handle_refresh s now ok
  | ExpireTimer => handle_expire s now
  | ShutdownSignal => stop s [] SrShutdown
  end.

(** The loop, until it returns or the events end. *)
Fixpoint session_loop (s : CacheSession) (events : list (Z * bool * SessionEvent)) : handled :=
  match events with
  | [] => continue s []
  | (now, ok, event) :: rest =>
      match session_step s now ok event with
      | (s, out, Some r) => stop s out r
      | (s, out, None) => let '(s, out', r) := session_loop s rest in (s, out ++ out', r)
      end
  end.

(** [CacheSession::run_session] *)
Definition run_session (s : CacheSession) (now : Z) (ok : bool) (events : list (Z * bool * SessionEvent)) : handled :=
  if negb ok then stop s [] SrDisconnected
  else
    let query := build_query s in
    let s := with_syncing false s in
    let s := with_refresh_deadline (now + se_refresh_interval s) s in
    let s := with_expire_deadline (now + se_expire_interval s) s in
    let '(s, out, r) := session_loop s events in (s, Write query :: out, r).

(** ** Connections *)
Definition MAX_BACKOFF : Z := 30.

(** [CacheSession::handle_disconnect]: [shutdown] says that the request to stop
    comes during the delay.  The last component is whether to return. *)
Definition handle_disconnect (s : CacheSession) (result : SessionResult) (shutdown : bool) : CacheSession * list SessionOutput * bool :=
  match result with
  | SrShutdown => (s, [], true)
  | _ =>
      let out := [Tell (CacheDisconnected (cc_address (se_config s)))] in
      if shutdown then (s, out, true)
      else (with_reconnect_delay (Z.min (se_reconnect_delay s * 2) MAX_BACKOFF) s, out, false)
  end.

(** One turn of [CacheSession::run]: a connection that fails, or one that is
    made (which resets the delay) and what happens on it. *)
Inductive Attempt :=
  | ConnectFailed (r : SessionResult)
  | Connected (now : Z) (ok : bool) (events : list (Z * bool * SessionEvent)).

Definition run_attempt (s : CacheSession) (a : Attempt) : handled :=
  match a with
  | ConnectFailed r => stop s [] r
  | Connected now ok events => run_session (with_reconnect_delay 1 s) now ok events
  end.

(** [CacheSession::run], over its attempts and the requests to stop between
    them; an attempt without a result is still running. *)
Fixpoint session_run (s : CacheSession) (attempts : list (Attempt * bool)) : CacheSession * list SessionOutput :=
  match attempts with
  | [] => (s, [])
  | (a, shutdown) :: rest =>
      match run_attempt s a with
      | (s, out, None) => (s, out)
      | (s, out, Some r) =>
          match handle_disconnect s r shutdown with
          | (s, out', true) => (s, out ++ out')
          | (s, out', false) => let '(s, out'') := session_run s rest in (s, out ++ out' ++ out'')
          end
      end
  end.
End session.

(** * The manager of the RPKI caches ([bgpgg/src/rpki/manager.rs])

    [RtrManager] as a function from commands and events to its new state and
    what it does: sessions it starts and stops, updates of the VRP table it
    sends to the server.  Of a running session it keeps the configuration; its
    channel and its task are the outputs. *)

Record RtrManager := mkManager {
  mg_sessions : gmap SocketAddr RtrCacheConfig;
  mg_per_cache_vrps : gmap SocketAddr (gset Vrp);
  mg_all_configs : gmap SocketAddr RtrCacheConfig;
}.

Definition manager_new : RtrManager := mkManager ∅ ∅ ∅.

Definition with_sessions v (m : RtrManager) := mkManager v (mg_per_cache_vrps m) (mg_all_configs m).
Definition with_per_cache_vrps v (m : RtrManager) := mkManager (mg_sessions m) v (mg_all_configs m).
Definition with_all_configs v (m : RtrManager) := mkManager (mg_sessions m) (mg_per_cache_vrps m) v.

Inductive ManagerOutput :=
  | SpawnSession (config : RtrCacheConfig)
  | ShutdownSession (addr : SocketAddr)
  | SendVrpUpdate (added removed : list Vrp).

(** The new state and the outputs. *)
Definition managed : Type := RtrManager * list ManagerOutput.

Section manager.
Context `{HashOrder}.
Implicit Types (m : RtrManager) (addr : SocketAddr).

(** ** Helpers *)
Definition list_min (l : list Z) : option Z :=
  foldr (fun x acc => Some (match acc with Some y => Z.min x y | None => x end)) None l.

Definition lowest_configured_preference m : Z :=
  default 0 (list_min (map (fun kv : SocketAddr * RtrCacheConfig => cc_preference kv.2) (map_to_list (mg_all_configs m)))).
Definition next_preference_tier m (current : Z) : option Z :=
  list_min (filter (fun p => current < p) (map (fun kv : SocketAddr * RtrCacheConfig => cc_preference kv.2) (map_to_list (mg_all_configs m)))).

Definition session_config m addr : option RtrCacheConfig := mg_sessions m !! addr ∪ mg_all_configs m !! addr.

Definition any_other_cache_has m (exclude_addr : SocketAddr) (vrp : Vrp) : bool :=
  existsb (fun kv : SocketAddr * gset Vrp => bool_decide (kv.1 <> exclude_addr) && bool_decide (vrp ∈ kv.2)) (map_to_list (mg_per_cache_vrps m)).

Definition compute_removal_diff m addr : list Vrp :=
  match mg_per_cache_vrps m !! addr with
  | None => []
  | Some cache_vrps => filter (fun vrp => any_other_cache_has m addr vrp = false) (hash_order (elements cache_vrps))
  end.

(** [send_vrp_update], under the tests of its callers. *)
Definition send_vrp_update (added removed : list Vrp) : list ManagerOutput :=
  match added, removed with [], [] => [] | _, _ => [SendVrpUpdate added removed] end.

Definition spawn_session m (config : RtrCacheConfig) : managed :=
  (with_sessions (<[cc_address config := config]> (mg_sessions m)) m, [SpawnSession config]).

Fixpoint spawn_sessions m (configs : list RtrCacheConfig) : managed :=
  match configs with
  | [] => (m, [])
  | config :: rest =>
      if bool_decide (is_Some (mg_sessions m !! cc_address config)) then spawn_sessions m rest
      else
        let '(m, out) := spawn_session m config in
        let '(m, out') := spawn_sessions m rest in (m, out ++ out')
  end.

Definition spawn_preference_tier m (pref : Z) : managed :=
  spawn_sessions m (filter (fun c => cc_preference c = pref) (map snd (hash_order (map_to_list (mg_all_configs m))))).

(** The loop of [kill_less_preferred_tiers]: also what is removed in all. *)
Fixpoint kill_sessions m (addrs : list SocketAddr) : managed * list Vrp :=
  match addrs with
  | [] => (m, [], [])
  | addr :: rest =>
      let out := if bool_decide (is_Some (mg_sessions m !! addr)) then [ShutdownSession addr] else [] in
      let m := with_sessions (delete addr (mg_sessions m)) m in
      let removed := compute_removal_diff m addr in
      let m := with_per_cache_vrps (delete addr (mg_per_cache_vrps m)) m in
      let '(m, out', removed') := kill_sessions m rest in (m, out ++ out', removed ++ removed')
  end.

Definition kill_less_preferred_tiers m (pref : Z) : managed :=
  let less_preferred addr := match mg_all_configs m !! addr with Some c => bool_decide (pref < cc_preference c) | None => false end in
  let addrs_to_kill := filter (fun addr => less_preferred addr = true) (map fst (hash_order (map_to_list (mg_sessions m)))) in
  let '(m, out, all_removed) := kill_sessions m addrs_to_kill in (m, out ++ send_vrp_update [] all_removed).

(** ** Commands *)
Definition handle_add_cache m (config : RtrCacheConfig) : managed :=
  let addr := cc_address config in
  if bool_decide (is_Some (mg_sessions m !! addr)) then (m, [])
  else
    let m := with_all_configs (<[addr := config]> (mg_all_configs m)) m in
    if cc_preference config <=? lowest_configured_preference m then spawn_session m config else (m, []).

Definition handle_remove_cache m addr : managed :=
  let out := if bool_decide (is_Some (mg_sessions m !! addr)) then [ShutdownSession addr] else [] in
  let m := with_sessions (delete addr (mg_sessions m)) m in
  let m := with_all_configs (delete addr (mg_all_configs m)) m in
  let removed := compute_removal_diff m addr in
  let m := with_per_cache_vrps (delete addr (mg_per_cache_vrps m)) m in
  (m, out ++ send_vrp_update [] removed).

Record RpkiCacheState := mkCacheState {
  ch_address : SocketAddr; ch_preference : Z; ch_transport_name : Str; ch_session_active : bool; ch_vrp_count : nat;
}.
Definition handle_get_state m : list RpkiCacheState :=
  map (fun kv : SocketAddr * RtrCacheConfig =>
    let addr := cc_address kv.2 in
    mkCacheState addr (cc_preference kv.2) (transport_to_str (cc_transport kv.2))
      (bool_decide (is_Some (mg_sessions m !! addr)))
      (match mg_per_cache_vrps m !! addr with Some s => size s | None => 0%nat end))
    (hash_order (map_to_list (mg_all_configs m))).

(** ** Events *)
Definition handle_batch m (batch : VrpBatch) : managed :=
  let addr := vb_cache_addr batch in
  let old_vrps := default ∅ (mg_per_cache_vrps m !! addr) in
  let m := with_per_cache_vrps (<[addr := vb_vrps batch]> (mg_per_cache_vrps m)) m in
  let only_here l := filter (fun vrp => any_other_cache_has m addr vrp = false) (hash_order l) in
  let added := only_here (elements (vb_vrps batch ∖ old_vrps)) in
  let removed := only_here (elements (old_vrps ∖ vb_vrps batch)) in
  let out := send_vrp_update added removed in
  match session_config m addr with
  | Some config => let '(m, out') := kill_less_preferred_tiers m (cc_preference config) in (m, out ++ out')
  | None => (m, out)
  end.

Definition handle_disconnected m addr : managed :=
  match session_config m addr with
  | None => (m, [])
  | Some config =>
      let pref := cc_preference config in
      let same_tier_connected :=
        existsb (fun kv : SocketAddr * RtrCacheConfig => bool_decide (kv.1 <> addr) &&
          match session_config m kv.1 with Some c => bool_decide (cc_preference c = pref) | None => false end)
          (map_to_list (mg_sessions m)) in
      if same_tier_connected then (m, [])
      else match next_preference_tier m pref with
           | Some next_pref => spawn_preference_tier m next_pref
           | None => (m, [])
           end
  end.

Definition handle_expired m addr : managed :=
  let removed := compute_removal_diff m addr in
  let m := with_per_cache_vrps (delete addr (mg_per_cache_vrps m)) m in
  (m, send_vrp_update [] removed).

(** ** The loop *)
Inductive ManagerInput :=
  | AddCache (config : RtrCacheConfig)
  | RemoveCache (addr : SocketAddr)
  | GetState
  | FromSession (e : CacheEvent).

Definition manager_step m (input : ManagerInput) : managed :=
  match input with
  | AddCache config => handle_add_cache m config
  | RemoveCache addr => handle_remove_cache m addr
  | GetState => (m, [])
  | FromSession (Batch batch) => handle_batch m batch
  | FromSession (CacheDisconnected addr) => handle_disconnected m addr
  | FromSession (CacheExpired addr) => handle_expired m addr
  end.

Fixpoint manager_loop m (inputs : list ManagerInput) : managed :=
  match inputs with
  | [] => (m, [])
  | input :: rest =>
      let '(m, out) := manager_step m input in
      let '(m, out') := manager_loop m rest in (m, out ++ out')
  end.

(** [RtrManager::run], until the command channel is closed. *)
Definition manager_run (inputs : list ManagerInput) : managed :=
  let '(m, out) := manager_loop manager_new inputs in
  (with_sessions ∅ m, out ++ map (fun kv : SocketAddr * RtrCacheConfig => ShutdownSession kv.1) (hash_order (map_to_list (mg_sessions m)))).
End manager.
