(* ===== verification/RtrMain.v ===== *)
(** * The RPKI sessions and their manager: what they promise

    A sync cycle applies the cache's changes to the set the session holds; the
    manager's updates make the server's table the union of what the caches
    hold.  Then what the failover and the expiry leave out. *)
From S2P Require Import Prelude Wire Net Trie TrieSpec Vrp BgpLs Attrs BgpLsAttr Rtr RtrSpec RtrSession.

(** ** Sync cycles *)
(** The PDU that announces or withdraws a VRP. *)
Definition vrp_message (change : bool * Vrp) : RtrMessage :=
  let pdu (net_len addr : Z) : PrefixPdu := mkPrefixPdu (if change.1 then 1 else 0) net_len (max_length change.2) addr (origin_as change.2) in
  match vrp_prefix change.2 with
  | V4 net => MIpv4Prefix (pdu (v4_len net) (v4_address net))
  | V6 net => MIpv6Prefix (pdu (v6_len net) (v6_address net))
  end.

Definition apply_change (S : gset Vrp) (change : bool * Vrp) : gset Vrp :=
  if change.1 then {[change.2]} ∪ S else S ∖ {[change.2]}.

(** The set a cycle starts from: nothing, when it answers a reset query. *)
Definition base_vrps (s : CacheSession) : gset Vrp := if has_serial s then se_local_vrps s else ∅.

(** What RFC 8210 asks of the changes of one cycle: nothing announced twice or
    that the router has, nothing withdrawn that it does not have. *)
Record legal_changes (base : gset Vrp) (changes : list (bool * Vrp)) : Prop := {
  lg_once : NoDup (omap (fun c : bool * Vrp => if c.1 then Some c.2 else None) changes);
  lg_new : forall v, (true, v) ∈ changes -> v ∉ base;
  lg_known : forall v, (false, v) ∈ changes -> v ∈ base;
  lg_prefixes : forall b v, (b, v) ∈ changes -> vrp_ok v;
}.

Lemma legal_forall base changes :
  NoDup (omap (fun c : bool * Vrp => if c.1 then Some c.2 else None) changes) ->
  Forall (fun c : bool * Vrp => (if c.1 then c.2 ∉ base else c.2 ∈ base) /\ vrp_ok c.2) changes -> legal_changes base changes.
Proof.
  intros Hnd Hall. split; [done| | |]; [intros v Hin|intros v Hin|intros b v Hin];
    by destruct (proj1 (Forall_forall _ _) Hall _ Hin).
Qed.

Lemma vrp_of_message change : vrp_ok change.2 ->
  forall s now ok, handle_message s now ok (vrp_message change) = handle_msg_prefix s ok change.1 (Some change.2).
Proof.
  destruct change as [b [prefix ml asn]]. unfold vrp_ok, vrp_message. cbn. intros Hok s now ok.
  destruct prefix as [[a l]|[a l]]; cbn in Hok |- *; destruct Hok as [_ Hl];
    unfold is_announcement; cbn [pp_flags pp_prefix pp_prefix_length pp_max_length pp_asn].
  - unfold make_ip_network_v4. destruct (Z.ltb_spec 32 l); [lia|]. by destruct b.
  - unfold make_ip_network_v6. destruct (Z.ltb_spec 128 l); [lia|]. by destruct b.
Qed.

Definition announced_of (changes : list (bool * Vrp)) : list Vrp := omap (fun c : bool * Vrp => if c.1 then Some c.2 else None) changes.
Definition withdrawn_of (changes : list (bool * Vrp)) : list Vrp := omap (fun c : bool * Vrp => if c.1 then None else Some c.2) changes.

Lemma elem_of_announced v changes : v ∈ announced_of changes <-> (true, v) ∈ changes.
Proof.
  unfold announced_of. rewrite list_elem_of_omap. split; [intros ([[] w] & Hin & [= <-]); done|]. intros Hin. by exists (true, v).
Qed.
Lemma elem_of_withdrawn v changes : v ∈ withdrawn_of changes <-> (false, v) ∈ changes.
Proof.
  unfold withdrawn_of. rewrite list_elem_of_omap. split; [intros ([[] w] & Hin & [= <-]); done|]. intros Hin. by exists (false, v).
Qed.

(** The changes of a cycle do not depend on their order. *)
Lemma fold_changes changes : forall S,
  (forall v, (true, v) ∈ changes -> (false, v) ∉ changes) ->
  fold_left apply_change changes S = (S ∪ list_to_set (announced_of changes)) ∖ list_to_set (withdrawn_of changes).
Proof.
  induction changes as [|[b v] changes IH]; intros S Hd; [cbn; set_solver|]. cbn [fold_left].
  rewrite IH by (intros w Hw Hw'; by apply (Hd w); right). unfold apply_change. destruct b; cbn; [set_solver|].
  assert (v ∉ announced_of changes) as Hv by (rewrite elem_of_announced; intros Hin; apply (Hd v); [by right|by left]).
  apply leibniz_equiv. intros w. rewrite !elem_of_difference, !elem_of_union, elem_of_difference, !elem_of_list_to_set, elem_of_singleton.
  destruct (decide (w = v)); naive_solver.
Qed.

Definition with_pending (a w : gset Vrp) (s : CacheSession) : CacheSession := with_pending_withdrawn w (with_pending_announced a s).

Section sync.
Variable debug_parse_error : RtrParseError -> list Z.
#[local] Abbreviation loop := (session_loop debug_parse_error).

(** The events of PDUs that arrive one after the other. *)
Definition arrivals (pdus : list (Z * bool * (bool * Vrp))) : list (Z * bool * SessionEvent) :=
  map (fun p => (p.1, Received (vrp_message p.2))) pdus.

Lemma prefixes_loop rest : forall pdus s,
  se_syncing s = true -> NoDup (announced_of pdus.*2) ->
  (forall v, (true, v) ∈ pdus.*2 -> (v ∉ se_pending_announced s) /\ (v ∉ base_vrps s)) ->
  (forall v, (false, v) ∈ pdus.*2 -> v ∈ base_vrps s) -> (forall b v, (b, v) ∈ pdus.*2 -> vrp_ok v) ->
  loop s (arrivals pdus ++ rest) =
    loop (with_pending (list_to_set (announced_of pdus.*2) ∪ se_pending_announced s)
            (list_to_set (withdrawn_of pdus.*2) ∪ se_pending_withdrawn s) s) rest.
Proof.
  induction pdus as [|[[now ok] [b v]] pdus IH]; intros s Hsync Hnd Hann Hwd Hok.
  { cbn [fmap list_fmap announced_of withdrawn_of omap list_omap list_to_set]. unfold with_pending. rewrite !(left_id_L ∅ (∪)). by destruct s. }
  cbn [arrivals map app session_loop fst snd session_step]. fold (arrivals pdus).
  rewrite vrp_of_message by (apply (Hok b v); by left). unfold handle_msg_prefix. rewrite Hsync. cbn [negb fst snd].
  assert (forall x, (true, x) ∈ pdus.*2 -> (x ∉ se_pending_announced s) /\ (x ∉ base_vrps s)) as Hann' by (intros x Hx; apply Hann; by right).
  assert (forall x, (false, x) ∈ pdus.*2 -> x ∈ base_vrps s) as Hwd' by (intros x Hx; apply Hwd; by right).
  assert (forall b' x, (b', x) ∈ pdus.*2 -> vrp_ok x) as Hok' by (intros b' x Hx; apply (Hok b'); by right).
  destruct b.
  - destruct (Hann v ltac:(by left)) as [Hp Hb]. rewrite bool_decide_false by done.
    change (announced_of ((((now, ok), (true, v)) :: pdus).*2)) with (v :: announced_of pdus.*2) in *.
    change (withdrawn_of ((((now, ok), (true, v)) :: pdus).*2)) with (withdrawn_of pdus.*2).
    apply NoDup_cons in Hnd as [Hv Hnd].
    set (s1 := with_pending_announced ({[v]} ∪ se_pending_announced s) s).
    assert (has_serial s1 && bool_decide (v ∈ se_local_vrps s1) = false) as ->.
    { unfold base_vrps in Hb. change (has_serial s1) with (has_serial s). change (se_local_vrps s1) with (se_local_vrps s).
      destruct (has_serial s); [by rewrite bool_decide_false|done]. }
    assert (forall x, (true, x) ∈ pdus.*2 -> (x ∉ se_pending_announced s1) /\ (x ∉ base_vrps s1)) as Hann1.
    { intros x Hx. split; [|by apply Hann']. cbn. rewrite not_elem_of_union, elem_of_singleton. split; [|by apply Hann'].
      intros ->. by apply Hv, elem_of_announced. }
    unfold continue. rewrite (IH s1) by done.
    match goal with |- _ = loop ?y rest => match goal with |- context [loop ?x rest] => assert (x = y) as -> end end;
      [|by destruct (loop _ rest) as [[s2 out2] r2]].
    unfold s1, with_pending, with_pending_withdrawn, with_pending_announced. destruct s. cbn. f_equal; clear; set_solver.
  - pose proof (Hwd v ltac:(by left)) as Hb. unfold base_vrps in Hb. destruct (has_serial s) eqn:Eh; [|by apply not_elem_of_empty in Hb].
    cbn [negb]. rewrite bool_decide_true by done. cbn [negb].
    change (announced_of ((((now, ok), (false, v)) :: pdus).*2)) with (announced_of pdus.*2) in *.
    change (withdrawn_of ((((now, ok), (false, v)) :: pdus).*2)) with (v :: withdrawn_of pdus.*2).
    set (s1 := with_pending_withdrawn ({[v]} ∪ se_pending_withdrawn s) s). unfold continue.
    rewrite (IH s1) by done.
    match goal with |- _ = loop ?y rest => match goal with |- context [loop ?x rest] => assert (x = y) as -> end end;
      [|by destruct (loop _ rest) as [[s2 out2] r2]].
    unfold s1, with_pending, with_pending_withdrawn, with_pending_announced. destruct s. cbn. f_equal; clear; set_solver.
Qed.

(** A whole cycle: the response, the changes, the end. *)
Definition cycle (t0 : Z * bool) (session_id : Z) (pdus : list (Z * bool * (bool * Vrp))) (t1 : Z * bool) (eod : EndOfData)
    : list (Z * bool * SessionEvent) :=
  (t0, Received (MCacheResponse (mkCacheResponse session_id))) :: arrivals pdus ++ [(t1, Received (MEndOfData eod))].

(** What the end of a cycle makes of the pending changes. *)
Definition synced_vrps (s : CacheSession) : gset Vrp :=
  if has_serial s then (se_local_vrps s ∪ se_pending_announced s) ∖ se_pending_withdrawn s else se_pending_announced s.

Lemma end_of_data_ok s now ok eod :
  se_syncing s = true ->
  exists s', handle_msg_end_of_data s now ok eod =
      continue s' [Tell (Batch (mkBatch (cc_address (se_config s)) (ed_session_id eod) (ed_serial eod) (synced_vrps s)))] /\
    se_local_vrps s' = synced_vrps s /\ se_session_id s' = se_session_id s /\ se_serial_number s' = Some (ed_serial eod) /\
    se_syncing s' = false /\ se_config s' = se_config s.
Proof.
  destruct s as [cfg sid serial rf rt ex delay local syncing pa pw rd ed]. cbn [se_syncing]. intros ->.
  unfold handle_msg_end_of_data, synced_vrps, has_serial. destruct (get_timers eod) as [[refresh retry] expire].
  destruct serial as [serial|]; cbn; unfold continue; eexists; (split; [reflexivity|done]).
Qed.

Lemma cycle_ok s t0 session_id pdus t1 eod :
  se_syncing s = false -> (se_session_id s = None \/ se_session_id s = Some session_id) ->
  legal_changes (base_vrps s) (pdus.*2) ->
  let S := fold_left apply_change (pdus.*2) (base_vrps s) in
  exists s', loop s (cycle t0 session_id pdus t1 eod) =
      (s', [Tell (Batch (mkBatch (cc_address (se_config s)) (ed_session_id eod) (ed_serial eod) S))], None) /\
    se_local_vrps s' = S /\ se_session_id s' = Some session_id /\ se_serial_number s' = Some (ed_serial eod) /\
    se_syncing s' = false /\ se_config s' = se_config s.
Proof.
  intros Hsync Hid [Hnd Hnew Hknown Hok]. cbv zeta. unfold cycle. destruct t0 as [now0 ok0], t1 as [now1 ok1].
  cbn [session_loop session_step fst snd handle_message]. unfold handle_msg_cache_response. cbn [cr_session_id].
  assert ((match se_session_id s with Some expected => negb (session_id =? expected) | None => false end) = false) as ->.
  { destruct Hid as [-> | ->]; [done|]. by rewrite Z.eqb_refl. }
  set (s0 := match se_session_id s with Some _ => s | None => with_session_id (Some session_id) s end).
  assert (se_syncing s0 = false /\ se_session_id s0 = Some session_id /\ has_serial s0 = has_serial s /\
    se_local_vrps s0 = se_local_vrps s /\ se_config s0 = se_config s) as (E1 & E2 & E3 & E4 & E5).
  { unfold s0. destruct Hid as [E | E]; rewrite E; done. }
  rewrite E1. unfold continue. set (s1 := with_pending_withdrawn ∅ (with_pending_announced ∅ (with_syncing true s0))).
  assert (base_vrps s1 = base_vrps s) as Eb by (unfold base_vrps; change (has_serial s1) with (has_serial s0);
    change (se_local_vrps s1) with (se_local_vrps s0); by rewrite E3, E4).
  rewrite (prefixes_loop [((now1, ok1), Received (MEndOfData eod))] pdus s1);
    [|done|exact Hnd|intros v Hv; split; [by apply not_elem_of_empty|rewrite Eb; by apply Hnew]|rewrite Eb; exact Hknown|exact Hok].
  set (s2 := with_pending _ _ s1).
  destruct (end_of_data_ok s2 now1 ok1 eod eq_refl) as (s' & E & F1 & F2 & F3 & F4 & F5).
  assert (synced_vrps s2 = fold_left apply_change (pdus.*2) (base_vrps s)) as Ev.
  { rewrite fold_changes by (intros v Hv Hv'; exact (Hnew v Hv (Hknown v Hv'))). unfold synced_vrps, base_vrps in *.
    change (has_serial s2) with (has_serial s0). rewrite E3. cbn [s2 with_pending with_pending_withdrawn with_pending_announced].
    destruct (has_serial s).
    - change (se_local_vrps s2) with (se_local_vrps s0). rewrite E4. unfold s2. cbn. clear. set_solver.
    - unfold s2. cbn. assert (withdrawn_of (pdus.*2) = []) as ->; [|clear; set_solver].
      destruct (withdrawn_of (pdus.*2)) as [|v l] eqn:Ew; [done|]. exfalso. apply (not_elem_of_empty (C := gset Vrp) v), Hknown.
      apply elem_of_withdrawn. rewrite Ew. by left. }
  rewrite Ev in *. exists s'. split.
  - cbn [session_loop session_step handle_message fst snd]. rewrite E. unfold continue. change (se_config s2) with (se_config s0).
    by rewrite E5.
  - split; [exact F1|]. split; [rewrite F2; exact E2|]. split; [exact F3|]. split; [exact F4|]. rewrite F5. exact E5.
Qed.
End sync.

(** ** The manager: what the server is told *)
(** The VRPs that some cache holds. *)
Definition union_of (held : gmap SocketAddr (gset Vrp)) : gset Vrp := ⋃ (map_to_list held).*2.
Definition all_vrps (m : RtrManager) : gset Vrp := union_of (mg_per_cache_vrps m).

Lemma elem_of_all m v : v ∈ all_vrps m <-> exists addr S, mg_per_cache_vrps m !! addr = Some S /\ v ∈ S.
Proof.
  unfold all_vrps, union_of. rewrite elem_of_union_list. split.
  - intros (S & ([addr S'] & -> & Hin%elem_of_map_to_list)%list_elem_of_fmap & Hv). by exists addr, S'.
  - intros (addr & S & Hin & Hv). exists S. split; [|done]. apply list_elem_of_fmap. exists (addr, S). split; [done|].
    by apply elem_of_map_to_list.
Qed.

(** The updates of the table, in the order the server applies them. *)
Definition update_ops (o : ManagerOutput) : list (bool * list Vrp) :=
  match o with SendVrpUpdate added removed => [(true, added); (false, removed)] | _ => [] end.
Definition apply_updates (out : list ManagerOutput) (S : gset Vrp) : gset Vrp :=
  fold_left (fun S (o : bool * list Vrp) => if o.1 then S ∪ list_to_set o.2 else S ∖ list_to_set o.2) (concat (map update_ops out)) S.

Lemma apply_updates_app out out' S : apply_updates (out ++ out') S = apply_updates out' (apply_updates out S).
Proof. unfold apply_updates. by rewrite map_app, concat_app, fold_left_app. Qed.

Lemma apply_send added removed S : apply_updates (send_vrp_update added removed) S = (S ∪ list_to_set added) ∖ list_to_set removed.
Proof.
  assert (forall S : gset Vrp, S = (S ∪ ∅) ∖ ∅) as Hs by (intros; set_solver).
  destruct added, removed; [apply Hs|done..].
Qed.

(** What the caches hold, from what was said and done: a cache holds the set
    of its last batch until it expires, is removed, or its session is stopped
    for a more preferred cache. *)
Definition stopped (out : list ManagerOutput) : list SocketAddr :=
  omap (fun o => match o with ShutdownSession addr => Some addr | _ => None end) out.
Definition hold (held : gmap SocketAddr (gset Vrp)) (step : ManagerInput * list ManagerOutput) : gmap SocketAddr (gset Vrp) :=
  let held :=
    match step.1 with
    | FromSession (Batch b) => <[vb_cache_addr b := vb_vrps b]> held
    | FromSession (CacheExpired addr) | RemoveCache addr => delete addr held
    | _ => held
    end in
  fold_left (fun held addr => delete addr held) (stopped step.2) held.
Definition held_after (steps : list (ManagerInput * list ManagerOutput)) : gmap SocketAddr (gset Vrp) := fold_left hold steps ∅.

(** The inputs of a run, each with what the manager did on it. *)
Fixpoint manager_steps `{HashOrder} (m : RtrManager) (inputs : list ManagerInput) : list (ManagerInput * list ManagerOutput) :=
  match inputs with
  | [] => []
  | i :: rest => let '(m, out) := manager_step m i in (i, out) :: manager_steps m rest
  end.

Section manager.
Context `{HashOrder}.
Implicit Types (m : RtrManager) (addr : SocketAddr) (v : Vrp).

(** ** What the manager holds is what the caches hold *)
Lemma stopped_app out out' : stopped (out ++ out') = stopped out ++ stopped out'.
Proof. apply omap_app. Qed.
Lemma stopped_send added removed : stopped (send_vrp_update added removed) = [].
Proof. by destruct added, removed. Qed.

Lemma kill_held addrs : forall m m' out removed, kill_sessions m addrs = (m', out, removed) ->
  NoDup addrs -> (forall addr, addr ∈ addrs -> is_Some (mg_sessions m !! addr)) ->
  stopped out = addrs /\ mg_per_cache_vrps m' = fold_left (fun held addr => delete addr held) addrs (mg_per_cache_vrps m).
Proof.
  induction addrs as [|addr addrs IH]; intros m m' out removed; cbn [kill_sessions fold_left]; [by intros [= <- <- _]|].
  set (m2 := with_per_cache_vrps _ _). destruct (kill_sessions m2 addrs) as [[m3 out3] removed3] eqn:E. intros [= <- <- _].
  intros [Hn Hnd]%NoDup_cons Hs. destruct (IH m2 m3 out3 removed3 E Hnd) as [Eo ->].
  { intros a Ha. change (mg_sessions m2) with (delete addr (mg_sessions m)). rewrite lookup_delete_ne by (by intros ->). apply Hs. by right. }
  rewrite bool_decide_true by (apply Hs; by left). by rewrite stopped_app, Eo.
Qed.

(** The sessions that a synced cache of preference [pref] stops. *)
Lemma kill_tiers_held m pref :
  let '(m', out) := kill_less_preferred_tiers m pref in
  mg_per_cache_vrps m' = fold_left (fun held addr => delete addr held) (stopped out) (mg_per_cache_vrps m) /\
  forall addr, addr ∈ stopped out -> exists c, mg_all_configs m !! addr = Some c /\ pref < cc_preference c.
Proof.
  unfold kill_less_preferred_tiers. cbv zeta. set (addrs := filter _ _).
  destruct (kill_sessions m addrs) as [[m' out] removed] eqn:E.
  assert (NoDup addrs) as Hnd.
  { apply NoDup_filter. change (map ?f ?l) with (f <$> l). rewrite hash_order_perm. apply NoDup_fst_map_to_list. }
  assert (forall addr, addr ∈ addrs -> is_Some (mg_sessions m !! addr)) as Hs.
  { intros addr [_ Hin]%list_elem_of_filter. apply list_elem_of_fmap in Hin as ([a c] & -> & Hin).
    rewrite (elem_of_hash_order (map_to_list (mg_sessions m))) in Hin. apply elem_of_map_to_list in Hin. by exists c. }
  destruct (kill_held addrs m m' out removed E Hnd Hs) as [Eo ->]. rewrite stopped_app, stopped_send, app_nil_r, Eo.
  split; [done|]. intros addr [Hl _]%list_elem_of_filter. destruct (mg_all_configs m !! addr) as [c|]; [|done].
  exists c. split; [done|]. by apply bool_decide_eq_true in Hl.
Qed.

Lemma spawns_held configs : forall m, mg_per_cache_vrps (spawn_sessions m configs).1 = mg_per_cache_vrps m /\ stopped (spawn_sessions m configs).2 = [].
Proof.
  induction configs as [|config configs IH]; intros m; cbn [spawn_sessions]; [done|]. case_bool_decide; [apply IH|].
  unfold spawn_session. set (m1 := with_sessions _ m). destruct (IH m1) as [E1 E2].
  destruct (spawn_sessions m1 configs) as [m' out']. cbn [fst snd] in *. by rewrite E1, stopped_app, E2.
Qed.

(** One step: the manager's record of what the caches hold is theirs. *)
Lemma step_held m i : mg_per_cache_vrps (manager_step m i).1 = hold (mg_per_cache_vrps m) (i, (manager_step m i).2).
Proof.
  unfold hold. destruct i as [config|addr| |[b|addr|addr]]; cbn [manager_step fst snd].
  - unfold handle_add_cache. case_bool_decide; [done|]. cbv zeta. by destruct (_ <=? _).
  - unfold handle_remove_cache. cbv zeta. cbn [fst snd]. rewrite stopped_app, stopped_send, app_nil_r.
    case_bool_decide; cbn; [by rewrite delete_delete_eq|done].
  - done.
  - unfold handle_batch. cbv zeta. set (m1 := with_per_cache_vrps _ m). destruct (session_config m1 _) as [config|].
    + pose proof (kill_tiers_held m1 (cc_preference config)) as E. destruct (kill_less_preferred_tiers m1 _) as [m2 out2].
      destruct E as [E _]. cbn [fst snd]. by rewrite E, stopped_app, stopped_send.
    + cbn [fst snd]. by rewrite stopped_send.
  - unfold handle_disconnected. destruct (session_config m addr); [|done]. cbv zeta. destruct (existsb _ _); [done|].
    destruct (next_preference_tier m _); [|done]. unfold spawn_preference_tier.
    match goal with |- context [spawn_sessions m ?l] => by destruct (spawns_held l m) as [-> ->] end.
  - unfold handle_expired. cbv zeta. cbn [fst snd]. by rewrite stopped_send.
Qed.

Lemma loop_held inputs : forall m,
  mg_per_cache_vrps (manager_loop m inputs).1 = fold_left hold (manager_steps m inputs) (mg_per_cache_vrps m).
Proof.
  induction inputs as [|i inputs IH]; intros m; cbn [manager_loop manager_steps]; [done|].
  pose proof (step_held m i) as E. destruct (manager_step m i) as [m1 out1]. cbn [fst snd fold_left] in *. rewrite <- E, <- IH.
  by destruct (manager_loop m1 inputs).
Qed.

(** A session is stopped when its cache is removed, or when a cache that is
    configured with a better preference has synced. *)
Lemma stopped_for m i addr : addr ∈ stopped (manager_step m i).2 ->
  match i with
  | RemoveCache a => addr = a
  | FromSession (Batch b) => exists c c', session_config m (vb_cache_addr b) = Some c /\ mg_all_configs m !! addr = Some c' /\
      cc_preference c < cc_preference c'
  | _ => False
  end.
Proof.
  destruct i as [config|a| |[b|a|a]]; cbn [manager_step].
  - unfold handle_add_cache. case_bool_decide; [by intros ?%not_elem_of_nil|]. cbv zeta. by destruct (_ <=? _); intros ?%not_elem_of_nil.
  - unfold handle_remove_cache. cbv zeta. cbn [snd]. rewrite stopped_app, stopped_send, app_nil_r.
    case_bool_decide; [by intros ?%list_elem_of_singleton|by intros ?%not_elem_of_nil].
  - by intros ?%not_elem_of_nil.
  - unfold handle_batch. cbv zeta. set (m1 := with_per_cache_vrps _ m). change (session_config m (vb_cache_addr b)) with (session_config m1 (vb_cache_addr b)).
    destruct (session_config m1 _) as [config|] eqn:Ec; cbn [snd]; [|rewrite stopped_send; by intros ?%not_elem_of_nil].
    pose proof (kill_tiers_held m1 (cc_preference config)) as Hk. destruct (kill_less_preferred_tiers m1 _) as [m2 out2].
    destruct Hk as [_ Hk]. cbn [snd]. rewrite stopped_app, stopped_send. intros Hin. destruct (Hk addr Hin) as (c & Hc & Hlt). by exists config, c.
  - unfold handle_disconnected. destruct (session_config m a); [|by intros ?%not_elem_of_nil]. cbv zeta.
    destruct (existsb _ _); [by intros ?%not_elem_of_nil|]. destruct (next_preference_tier m _); [|by intros ?%not_elem_of_nil].
    unfold spawn_preference_tier. rewrite (proj2 (spawns_held _ m)). by intros ?%not_elem_of_nil.
  - unfold handle_expired. cbv zeta. cbn [snd]. rewrite stopped_send. by intros ?%not_elem_of_nil.
Qed.

Lemma other_has m addr v :
  any_other_cache_has m addr v = true <-> exists addr' S, addr' <> addr /\ mg_per_cache_vrps m !! addr' = Some S /\ v ∈ S.
Proof.
  unfold any_other_cache_has. rewrite existsb_exists. split.
  - intros ([addr' S] & Hin%list_elem_of_In%elem_of_map_to_list & [H1 H2]%andb_prop). exists addr', S.
    by rewrite bool_decide_eq_true in H1, H2.
  - intros (addr' & S & Hne & Hin & Hv). exists (addr', S). split; [by apply list_elem_of_In, elem_of_map_to_list|].
    cbn. by rewrite !bool_decide_true.
Qed.

Lemma other_has_not m addr v :
  any_other_cache_has m addr v = false <-> forall addr' S, addr' <> addr -> mg_per_cache_vrps m !! addr' = Some S -> v ∉ S.
Proof.
  rewrite <- not_true_iff_false, other_has. naive_solver.
Qed.

Lemma elem_of_removal m addr v :
  v ∈ compute_removal_diff m addr <->
  (exists S, mg_per_cache_vrps m !! addr = Some S /\ v ∈ S) /\ any_other_cache_has m addr v = false.
Proof.
  unfold compute_removal_diff. destruct (mg_per_cache_vrps m !! addr) as [S|].
  - rewrite list_elem_of_filter, (elem_of_hash_order (elements S)), elem_of_elements. naive_solver.
  - split; [by intros ?%not_elem_of_nil|naive_solver].
Qed.

(** A cache whose data goes takes along what only it had. *)
Lemma forget_vrps m addr :
  all_vrps (with_per_cache_vrps (delete addr (mg_per_cache_vrps m)) m) = all_vrps m ∖ list_to_set (compute_removal_diff m addr).
Proof.
  apply set_eq. intros v. rewrite elem_of_difference, elem_of_list_to_set, elem_of_removal, !elem_of_all, other_has_not.
  cbn [mg_per_cache_vrps with_per_cache_vrps]. split.
  - intros (addr' & S & [Hne Hl]%lookup_delete_Some & Hv). split; [by exists addr', S|]. intros [_ Hno]. by apply (Hno addr' S).
  - intros [(addr' & S & Hl & Hv) Hno]. destruct (decide (addr' = addr)) as [->|Hne].
    + apply dec_stable. intros Hn. apply Hno. split; [by exists S|]. intros a' S' Hne Hl' Hv'. apply Hn.
      exists a', S'. by rewrite lookup_delete_ne.
    + exists addr', S. by rewrite lookup_delete_ne.
Qed.

(** [out] takes the table from the union of before to that of after, with
    prefixes the table takes. *)
Definition vrps_ok m : Prop := forall v, v ∈ all_vrps m -> vrp_ok v.
Definition updates_ok (out : list ManagerOutput) : Prop := Forall (fun o : bool * list Vrp => Forall vrp_ok o.2) (concat (map update_ops out)).
Record tracks m (r : managed) : Prop := {
  tr_union : all_vrps r.1 = apply_updates r.2 (all_vrps m);
  tr_ok : vrps_ok m -> vrps_ok r.1 /\ updates_ok r.2;
}.

Lemma updates_ok_app out out' : updates_ok (out ++ out') <-> updates_ok out /\ updates_ok out'.
Proof. unfold updates_ok. by rewrite map_app, concat_app, Forall_app. Qed.

Lemma updates_ok_send added removed : Forall vrp_ok added -> Forall vrp_ok removed -> updates_ok (send_vrp_update added removed).
Proof. intros Ha Hr. unfold updates_ok. destruct added, removed; cbn; repeat (apply Forall_cons; split; [done|]); by apply Forall_nil. Qed.

Lemma tracks_same m m' out : all_vrps m' = all_vrps m -> Forall (fun o => update_ops o = []) out -> tracks m (m', out).
Proof.
  intros E Ho. assert (concat (map update_ops out) = []) as Eo by (induction Ho as [|o out Hx _ IH]; cbn; [done|by rewrite Hx, IH]).
  split; cbn [fst snd]; [unfold apply_updates; by rewrite Eo|]. intros Hm. split; [unfold vrps_ok; by rewrite E|].
  unfold updates_ok. by rewrite Eo.
Qed.

Lemma tracks_trans m m1 out1 m2 out2 : tracks m (m1, out1) -> tracks m1 (m2, out2) -> tracks m (m2, out1 ++ out2).
Proof.
  intros [U1 O1] [U2 O2]. cbn [fst snd] in *. split; cbn [fst snd]; [by rewrite apply_updates_app, <- U1|].
  intros Hm. destruct (O1 Hm) as [Hm1 Ho1]. destruct (O2 Hm1) as [Hm2 Ho2]. split; [done|]. by apply updates_ok_app.
Qed.

Lemma removal_ok m addr : vrps_ok m -> Forall vrp_ok (compute_removal_diff m addr).
Proof.
  intros Hm. apply Forall_forall. intros v [(S & Hl & Hv) _]%elem_of_removal. apply Hm, elem_of_all. by exists addr, S.
Qed.

Lemma tracks_forget m addr :
  tracks m (with_per_cache_vrps (delete addr (mg_per_cache_vrps m)) m, send_vrp_update [] (compute_removal_diff m addr)).
Proof.
  split; cbn [fst snd].
  - rewrite forget_vrps, apply_send. cbn [list_to_set]. by rewrite (right_id_L ∅ (∪)).
  - intros Hm. split; [|apply updates_ok_send; [done|by apply removal_ok]]. intros v. rewrite forget_vrps.
    intros [Hv _]%elem_of_difference. by apply Hm.
Qed.

Lemma spawn_tracks m config : tracks m (spawn_session m config).
Proof. apply tracks_same; [done|by repeat constructor]. Qed.

Lemma spawns_track configs : forall m, tracks m (spawn_sessions m configs).
Proof.
  induction configs as [|config configs IH]; intros m; cbn [spawn_sessions]; [by apply tracks_same|].
  case_bool_decide; [apply IH|]. unfold spawn_session. set (m1 := with_sessions _ m).
  specialize (IH m1). destruct (spawn_sessions m1 configs) as [m' out'].
  by apply (tracks_trans m m1); [apply spawn_tracks|].
Qed.

(** The loop that ends sessions: what it collects is what the union loses. *)
Lemma kill_ok addrs : forall m m' out removed,
  kill_sessions m addrs = (m', out, removed) ->
  all_vrps m' = all_vrps m ∖ list_to_set removed /\ Forall (fun o => update_ops o = []) out /\
  (vrps_ok m -> Forall vrp_ok removed) /\ mg_all_configs m' = mg_all_configs m /\
  (forall addr, mg_sessions m' !! addr = if bool_decide (addr ∈ addrs) then None else mg_sessions m !! addr).
Proof.
  induction addrs as [|addr addrs IH]; intros m m' out removed; cbn [kill_sessions].
  - intros [= <- <- <-]. split_and!; [set_solver|done|done|done|]. intros addr. by rewrite bool_decide_false by set_solver.
  - set (m1 := with_sessions (delete addr (mg_sessions m)) m).
    set (m2 := with_per_cache_vrps (delete addr (mg_per_cache_vrps m1)) m1).
    destruct (kill_sessions m2 addrs) as [[m3 out3] removed3] eqn:E. intros [= <- <- <-].
    destruct (IH _ _ _ _ E) as (U & O & K & C & S).
    assert (all_vrps m2 = all_vrps m ∖ list_to_set (compute_removal_diff m1 addr)) as E2 by apply (forget_vrps m1).
    split_and!.
    + rewrite U, E2, list_to_set_app_L. set_solver.
    + apply Forall_app. split; [|done]. case_bool_decide; by repeat constructor.
    + intros Hm. apply Forall_app. split; [by apply (removal_ok m1)|]. apply K. intros v. rewrite E2. intros [Hv _]%elem_of_difference.
      by apply Hm.
    + by rewrite C.
    + intros a. rewrite S. cbn [m2 m1 mg_sessions with_sessions with_per_cache_vrps]. change (mg_sessions m2) with (delete addr (mg_sessions m)).
      destruct (decide (a = addr)) as [->|Hne].
      * rewrite lookup_delete_eq. rewrite (bool_decide_true (addr ∈ addr :: addrs)) by by left. by destruct (bool_decide _).
      * rewrite lookup_delete_ne by done. by rewrite (bool_decide_ext (a ∈ addr :: addrs) (a ∈ addrs)) by (rewrite elem_of_cons; tauto).
Qed.

Lemma kill_tracks m pref : tracks m (kill_less_preferred_tiers m pref).
Proof.
  unfold kill_less_preferred_tiers. destruct (kill_sessions m _) as [[m' out] removed] eqn:E.
  destruct (kill_ok _ _ _ _ _ E) as (U & O & K & _).
  apply (tracks_trans m m).
  - by apply tracks_same.
  - split; cbn [fst snd].
    + rewrite apply_send, U. cbn [list_to_set]. by rewrite (right_id_L ∅ (∪)).
    + intros Hm. split; [|apply updates_ok_send; [done|by apply K]]. intros v. rewrite U. intros [Hv _]%elem_of_difference. by apply Hm.
Qed.

(** ** The handlers *)
Lemma add_cache_tracks m config : tracks m (handle_add_cache m config).
Proof.
  unfold handle_add_cache. case_bool_decide; [by apply tracks_same|]. cbv zeta. set (m1 := with_all_configs _ m).
  assert (tracks m (m1, [])) by by apply tracks_same.
  destruct (_ <=? _); [|done]. by apply (tracks_trans m m1 []), spawn_tracks.
Qed.

Lemma remove_cache_tracks m addr : tracks m (handle_remove_cache m addr).
Proof.
  unfold handle_remove_cache. cbv zeta. set (m1 := with_all_configs _ _).
  apply (tracks_trans m m1); [|apply tracks_forget].
  apply tracks_same; [done|]. case_bool_decide; by repeat constructor.
Qed.

(** The update of a batch: what the cache gained or lost and no other has. *)
Lemma batch_union m addr (new : gset Vrp) :
  let old := default ∅ (mg_per_cache_vrps m !! addr) in
  let m' := with_per_cache_vrps (<[addr := new]> (mg_per_cache_vrps m)) m in
  let only_here l := filter (fun vrp => any_other_cache_has m' addr vrp = false) (hash_order l) in
  all_vrps m' = (all_vrps m ∪ list_to_set (only_here (elements (new ∖ old)))) ∖ list_to_set (only_here (elements (old ∖ new))).
Proof.
  cbv zeta. set (old := default ∅ _). set (m' := with_per_cache_vrps _ m).
  assert (forall v, any_other_cache_has m' addr v = false <->
    forall addr' S, addr' <> addr -> mg_per_cache_vrps m !! addr' = Some S -> v ∉ S) as Hother.
  { intros v. rewrite other_has_not. unfold m'. cbn. split; intros Hn a S Hne Hl; apply (Hn a S Hne);
      [by rewrite lookup_insert_ne|by rewrite lookup_insert_ne in Hl]. }
  apply set_eq. intros v.
  rewrite elem_of_difference, elem_of_union, !elem_of_list_to_set, !list_elem_of_filter, (elem_of_hash_order (elements (new ∖ old))),
    (elem_of_hash_order (elements (old ∖ new))), !elem_of_elements, !elem_of_difference, !elem_of_all, Hother.
  assert (v ∈ old <-> exists S, mg_per_cache_vrps m !! addr = Some S /\ v ∈ S) as Hold.
  { unfold old. destruct (mg_per_cache_vrps m !! addr) as [S|]; cbn; [naive_solver|]. split; [by intros ?%not_elem_of_empty|naive_solver]. }
  assert ((exists a S, mg_per_cache_vrps m !! a = Some S /\ v ∈ S) <->
    v ∈ old \/ exists a S, a <> addr /\ mg_per_cache_vrps m !! a = Some S /\ v ∈ S) as Hall.
  { rewrite Hold. split; [intros (a & S & Hl & Hv); destruct (decide (a = addr)) as [->|]; [left; by exists S|right; by exists a, S]|naive_solver]. }
  assert ((exists a S, mg_per_cache_vrps m' !! a = Some S /\ v ∈ S) <->
    v ∈ new \/ exists a S, a <> addr /\ mg_per_cache_vrps m !! a = Some S /\ v ∈ S) as Hall'.
  { unfold m'. cbn. split.
    - intros (a & S & [[<- <-]|[Hne Hl]]%lookup_insert_Some & Hv); [by left|right; by exists a, S].
    - intros [Hv|(a & S & Hne & Hl & Hv)]; [exists addr, new; by rewrite lookup_insert_eq|exists a, S; by rewrite lookup_insert_ne]. }
  rewrite Hall, Hall'. set (E := exists a S, a <> addr /\ _).
  assert ((forall addr' S, addr' <> addr -> mg_per_cache_vrps m !! addr' = Some S -> v ∉ S) <-> ~ E) as HnE by (unfold E; naive_solver).
  rewrite HnE. assert (E \/ ~ E) as HE.
  { rewrite <- HnE, <- Hother. destruct (any_other_cache_has m' addr v) eqn:Ea; [left|by right].
    apply other_has in Ea as (a & S & Hne & Hl & Hv). exists a, S. split; [done|]. split; [|done]. unfold m' in Hl. cbn in Hl.
    by rewrite lookup_insert_ne in Hl. }
  destruct (decide (v ∈ new)), (decide (v ∈ old)); tauto.
Qed.

Lemma batch_tracks m batch : (forall v, v ∈ vb_vrps batch -> vrp_ok v) -> tracks m (handle_batch m batch).
Proof.
  intros Hb. unfold handle_batch. cbv zeta. set (addr := vb_cache_addr batch). set (new := vb_vrps batch) in *.
  set (old := default ∅ _). set (m' := with_per_cache_vrps _ m).
  set (added := filter _ (hash_order (elements (new ∖ old)))). set (removed := filter _ (hash_order (elements (old ∖ new)))).
  assert (tracks m (m', send_vrp_update added removed)) as T.
  { split; cbn [fst snd].
    - rewrite apply_send. apply (batch_union m addr new).
    - intros Hm. split.
      + intros v (a & S & Hl & Hv)%elem_of_all. unfold m', with_per_cache_vrps in Hl. cbn [mg_per_cache_vrps] in Hl.
        apply lookup_insert_Some in Hl as [[<- <-]|[Hne Hl]]; [by apply Hb|]. apply Hm, elem_of_all. by exists a, S.
      + apply updates_ok_send; apply Forall_forall; intros v [_ Hv]%list_elem_of_filter; rewrite elem_of_hash_order, elem_of_elements in Hv;
          apply elem_of_difference in Hv as [Hv _]; [by apply Hb|]. apply Hm, elem_of_all. exists addr. unfold old in Hv.
        destruct (mg_per_cache_vrps m !! addr) as [S|]; [by exists S|by apply not_elem_of_empty in Hv]. }
  destruct (session_config m' addr) as [config|]; [|exact T].
  pose proof (kill_tracks m' (cc_preference config)) as K. destruct (kill_less_preferred_tiers m' _) as [m2 out2].
  by apply (tracks_trans m m').
Qed.

Lemma disconnected_tracks m addr : tracks m (handle_disconnected m addr).
Proof.
  unfold handle_disconnected. destruct (session_config m addr); [|by apply tracks_same]. cbv zeta.
  destruct (existsb _ _); [by apply tracks_same|]. destruct (next_preference_tier m _); [apply spawns_track|by apply tracks_same].
Qed.

Definition input_vrps_ok (i : ManagerInput) : Prop :=
  match i with FromSession (Batch b) => forall v, v ∈ vb_vrps b -> vrp_ok v | _ => True end.

Lemma step_tracks m i : input_vrps_ok i -> tracks m (manager_step m i).
Proof.
  intros Hi. destruct i as [config|addr| |[b|addr|addr]]; cbn [manager_step].
  - apply add_cache_tracks.
  - apply remove_cache_tracks.
  - by apply tracks_same.
  - by apply batch_tracks.
  - apply disconnected_tracks.
  - apply tracks_forget.
Qed.

Lemma loop_tracks inputs : forall m, Forall input_vrps_ok inputs -> tracks m (manager_loop m inputs).
Proof.
  induction inputs as [|i inputs IH]; intros m Hi; cbn [manager_loop]; [by apply tracks_same|].
  apply Forall_cons in Hi as [Hi1 Hi]. pose proof (step_tracks m i Hi1) as T1. destruct (manager_step m i) as [m1 out1].
  specialize (IH m1 Hi). destruct (manager_loop m1 inputs) as [m2 out2]. by eapply tracks_trans.
Qed.
End manager.

(** ** A cache's history *)
Lemma session_loop_app debug events rest : forall s s1 out,
  session_loop debug s events = (s1, out, None) ->
  session_loop debug s (events ++ rest) =
    (let '(s2, out2, r) := session_loop debug s1 rest in (s2, out ++ out2, r)).
Proof.
  induction events as [|[[now ok] event] events IH]; intros s s1 out; cbn [app session_loop].
  - unfold continue. intros [= <- <-]. by destruct (session_loop _ _ _) as [[s2 out2] r].
  - destruct (session_step debug s now ok event) as [[s0 out0] [r|]]; [by unfold stop|].
    destruct (session_loop debug s0 events) as [[s3 out3] r3] eqn:E. intros [= <- <- ->].
    rewrite (IH _ _ _ E). destruct (session_loop debug s3 rest) as [[s2 out2] r2]. by rewrite app_assoc.
Qed.

Record Cycle := mkCycle { cy_start : Z * bool; cy_pdus : list (Z * bool * (bool * Vrp)); cy_stop : Z * bool; cy_end : EndOfData }.

(** What the cache holds after a cycle. *)
Definition after_cycle (S : gset Vrp) (c : Cycle) : gset Vrp := fold_left apply_change (cy_pdus c).*2 S.
Definition history_events (session_id : Z) (history : list Cycle) : list (Z * bool * SessionEvent) :=
  concat (map (fun c => cycle (cy_start c) session_id (cy_pdus c) (cy_stop c) (cy_end c)) history).

Fixpoint legal_history (S : gset Vrp) (history : list Cycle) : Prop :=
  match history with [] => True | c :: rest => legal_changes S (cy_pdus c).*2 /\ legal_history (after_cycle S c) rest end.
(** The batches that tell the history. *)
Fixpoint history_batches (addr : SocketAddr) (S : gset Vrp) (history : list Cycle) : list VrpBatch :=
  match history with
  | [] => []
  | c :: rest =>
      mkBatch addr (ed_session_id (cy_end c)) (ed_serial (cy_end c)) (after_cycle S c) :: history_batches addr (after_cycle S c) rest
  end.

Lemma after_cycle_ok S c : (forall v, v ∈ S -> vrp_ok v) -> legal_changes S (cy_pdus c).*2 -> forall v, v ∈ after_cycle S c -> vrp_ok v.
Proof.
  intros HS [_ _ _ Hok]. unfold after_cycle. generalize dependent S. induction ((cy_pdus c).*2) as [|[b w] l IH]; intros S HS; [done|].
  cbn [fold_left]. apply IH; [by intros b' v Hv; apply (Hok b'); right|]. intros v. unfold apply_change. cbn.
  assert (vrp_ok w) by (apply (Hok b w); by left). destruct b; [|set_solver].
  rewrite elem_of_union, elem_of_singleton. intros [-> |]; auto.
Qed.

Lemma history_batches_ok addr : forall history S, (forall v, v ∈ S -> vrp_ok v) -> legal_history S history ->
  Forall (fun b => vb_cache_addr b = addr /\ forall v, v ∈ vb_vrps b -> vrp_ok v) (history_batches addr S history).
Proof.
  induction history as [|c history IH]; intros S HS Hl; cbn [history_batches]; [by apply Forall_nil|]. destruct Hl as [Hc Hl].
  pose proof (after_cycle_ok S c HS Hc). apply Forall_cons. split; [done|]. by apply IH.
Qed.

Lemma history_ok debug session_id history : forall s,
  se_syncing s = false -> (se_session_id s = None \/ se_session_id s = Some session_id) -> legal_history (base_vrps s) history ->
  exists s', session_loop debug s (history_events session_id history) =
      (s', map (fun b => Tell (Batch b)) (history_batches (cc_address (se_config s)) (base_vrps s) history), None) /\
    base_vrps s' = fold_left after_cycle history (base_vrps s).
Proof.
  induction history as [|c history IH]; intros s Hsync Hid Hl; [by exists s|]. destruct Hl as [Hc Hl].
  destruct (cycle_ok debug s (cy_start c) session_id (cy_pdus c) (cy_stop c) (cy_end c) Hsync Hid Hc)
    as (s1 & E & F1 & F2 & F3 & F4 & F5).
  assert (base_vrps s1 = after_cycle (base_vrps s) c) as Eb by (unfold base_vrps, has_serial in *; by rewrite F3).
  destruct (IH s1 F4 (or_intror F2)) as (s2 & E2 & Eb2); [by rewrite Eb|]. exists s2. split; [|by rewrite Eb2, Eb].
  unfold history_events in *. cbn [map concat]. rewrite (session_loop_app _ _ _ _ _ _ E), E2, F5, Eb. done.
Qed.

(** ** A single cache *)
Section single.
Context `{HashOrder}.


(** A manager that knows one cache, with what the cache holds. *)
Record knows_one (config : RtrCacheConfig) (m : RtrManager) : Prop := {
  ko_sessions : mg_sessions m = {[cc_address config := config]};
  ko_configs : mg_all_configs m = {[cc_address config := config]};
  ko_vrps : forall addr, addr <> cc_address config -> mg_per_cache_vrps m !! addr = None;
}.

Lemma batch_one config m b : knows_one config m -> vb_cache_addr b = cc_address config ->
  let m' := (handle_batch m b).1 in knows_one config m' /\ all_vrps m' = vb_vrps b.
Proof.
  intros [Hs Hc Hv] Eb. unfold handle_batch. cbv zeta. rewrite Eb. set (m1 := with_per_cache_vrps _ m).
  assert (session_config m1 (cc_address config) = Some config) as -> by (unfold session_config; cbn; rewrite Hs, lookup_singleton_eq; by destruct (mg_all_configs m !! _)).
  assert (forall pref, pref = cc_preference config -> (kill_less_preferred_tiers m1 pref).1 = m1) as Hk.
  { intros pref ->. unfold kill_less_preferred_tiers. rewrite filter_none; [done|].
    intros addr _. cbn. rewrite Hc. destruct (decide (addr = cc_address config)) as [->|Hne].
    - rewrite lookup_singleton_eq. by rewrite bool_decide_false by lia.
    - by rewrite lookup_singleton_ne. }
  specialize (Hk _ eq_refl). destruct (kill_less_preferred_tiers m1 _) as [m2 out2]. cbn [fst] in *. subst m2. split.
  - split; [done..|]. intros addr Hne. cbn. rewrite lookup_insert_ne by done. by apply Hv.
  - apply set_eq. intros v. rewrite elem_of_all. split.
    + intros (addr & S & Hl & Hin). unfold m1, with_per_cache_vrps in Hl. cbn [mg_per_cache_vrps] in Hl.
      apply lookup_insert_Some in Hl as [[<- <-]|[Hne Hl]]; [done|]. by rewrite Hv in Hl.
    + intros Hin. exists (cc_address config), (vb_vrps b). split; [apply lookup_insert_eq|done].
Qed.

Lemma from_last {A B} (f : A -> B) (d : B) x (l : list A) : from_option f d (last (x :: l)) = from_option f (f x) (last l).
Proof. destruct l as [|y l]; [done|]. change (last (x :: y :: l)) with (last (y :: l)). by destruct (last (y :: l)) eqn:E; [|apply last_None in E]. Qed.

Lemma batches_one config : forall batches m, knows_one config m -> Forall (fun b => vb_cache_addr b = cc_address config) batches ->
  all_vrps (manager_loop m (map (fun b => FromSession (Batch b)) batches)).1 = from_option vb_vrps (all_vrps m) (last batches).
Proof.
  induction batches as [|b batches IH]; intros m Hm Hb; [done|]. apply Forall_cons in Hb as [Eb Hb].
  destruct (batch_one config m b Hm Eb) as [Hm1 E1]. cbn [map manager_loop manager_step].
  destruct (handle_batch m b) as [m1 out1]. cbn [fst] in Hm1, E1. specialize (IH m1 Hm1 Hb).
  destruct (manager_loop m1 _) as [m2 out2]. cbn [fst] in *. rewrite IH, E1. by rewrite from_last.
Qed.

Lemma last_history addr : forall history S,
  from_option vb_vrps S (last (history_batches addr S history)) = fold_left after_cycle history S.
Proof.
  induction history as [|c history IH]; intros S; [done|]. cbn [history_batches fold_left]. rewrite <- IH.
  by rewrite from_last.
Qed.
End single.

(** ** Properties *)
Section shared.
Context `{HashOrder}.

(** The table the updates build, from the empty one. *)
Lemma table_of inputs p : Forall input_vrps_ok inputs -> network_ok p ->
  let '(m, out) := manager_loop manager_new inputs in
  exists t, vrp_run (concat (map update_ops out)) vrp_new = Some t /\ agrees_with_rfc6811 t (all_vrps m) p.
Proof.
  intros Hi Hp. pose proof (loop_tracks inputs manager_new Hi) as [U O]. destruct (manager_loop manager_new inputs) as [m out].
  cbn [fst snd] in U, O. destruct O as [Hm Ho]; [intros v (a & S & Hl & _)%elem_of_all; cbn in Hl; by rewrite lookup_empty in Hl|].
  destruct (vrp_run_ok _ Ho) as (t & E & Ht & Hall). exists t. split; [done|].
  assert (all_vrps m = vrp_set (concat (map update_ops out))) as -> by (rewrite U; done). by apply validate_ok.
Qed.

Lemma add_first config : handle_add_cache manager_new config =
  (mkManager {[cc_address config := config]} ∅ {[cc_address config := config]}, [SpawnSession config]).
Proof.
  unfold handle_add_cache. cbn [mg_sessions manager_new]. rewrite lookup_empty, bool_decide_false by (by intros [? ?]).
  cbv zeta. assert (lowest_configured_preference (with_all_configs (<[cc_address config := config]> ∅) manager_new) = cc_preference config) as E.
  { unfold lowest_configured_preference. cbn [mg_all_configs with_all_configs]. rewrite insert_empty, map_to_list_singleton. done. }
  cbn [mg_all_configs manager_new]. rewrite E, Z.leb_refl. done.
Qed.
End shared.

(** The events a session tells the manager. *)
Definition told (out : list SessionOutput) : list CacheEvent := omap (fun o => match o with Tell e => Some e | Write _ => None end) out.

Lemma told_batches query batches : told (Write query :: map (fun b => Tell (Batch b)) batches) = map Batch batches.
Proof. induction batches as [|b batches IH]; [done|]. cbn in *. by rewrite IH. Qed.

(** A new session sends a Reset Query, and tells the manager after each sync
    cycle exactly the set the cache then holds, whatever the cache announces
    and withdraws as RFC 8210 allows. *)
Theorem sync_history_exact debug config now session_id history :
  legal_history ∅ history ->
  exists s', run_session debug (session_new config now) now true (history_events session_id history) =
      (s', Write MResetQuery :: map (fun b => Tell (Batch b)) (history_batches (cc_address config) ∅ history), None) /\
    base_vrps s' = fold_left after_cycle history ∅.
Proof.
  intros Hl. unfold run_session. cbn [negb]. cbv zeta. set (s := with_expire_deadline _ _).
  destruct (history_ok debug session_id history s eq_refl (or_introl eq_refl) Hl) as (s' & E & Eb). exists s'.
  change (base_vrps s) with (∅ : gset Vrp) in *. rewrite E. done.
Qed.

(** C23. Whatever caches are added and removed and whatever they tell, in any
    order, the table that the manager's updates build agrees with RFC 6811 on
    the union of what the caches hold, for every route that has an origin AS (a
    route without one is NotFound).  A cache holds the set of its last batch
    until it expires, is removed, or has its session stopped; and apart from a
    removal a session is only stopped when a cache configured with a better
    preference has synced. *)
Theorem manager_table_is_union `{HashOrder} inputs p :
  Forall input_vrps_ok inputs -> network_ok p ->
  let '(m, out) := manager_loop manager_new inputs in
  (exists t, vrp_run (concat (map update_ops out)) vrp_new = Some t /\
     agrees_with_rfc6811 t (union_of (held_after (manager_steps manager_new inputs))) p) /\
  forall i addr, addr ∈ stopped (manager_step m i).2 ->
    match i with
    | RemoveCache a => addr = a
    | FromSession (Batch b) => exists c c', session_config m (vb_cache_addr b) = Some c /\ mg_all_configs m !! addr = Some c' /\
        cc_preference c < cc_preference c'
    | _ => False
    end.
Proof.
  intros Hi Hp. pose proof (table_of inputs p Hi Hp) as T. pose proof (loop_held inputs manager_new) as E.
  destruct (manager_loop manager_new inputs) as [m out]. cbn [fst] in E. split; [|apply stopped_for].
  unfold held_after. cbn [mg_per_cache_vrps manager_new] in E. by rewrite <- E.
Qed.

(** C22. From a cache to the validation of a route: the updates that its manager
    sends for a cache's history build a table that agrees with RFC 6811 on what
    the cache holds in the end, for every route that has an origin AS; a route
    without one is NotFound. *)
Theorem cache_history_validates `{HashOrder} debug config now session_id history p :
  legal_history ∅ history -> network_ok p ->
  let '(_, out, _) := run_session debug (session_new config now) now true (history_events session_id history) in
  let '(_, updates) := manager_loop manager_new (AddCache config :: map FromSession (told out)) in
  exists t, vrp_run (concat (map update_ops updates)) vrp_new = Some t /\
    agrees_with_rfc6811 t (fold_left after_cycle history ∅) p.
Proof.
  intros Hl Hp. unfold run_session. cbn [negb]. cbv zeta. set (s := with_expire_deadline _ _).
  destruct (history_ok debug session_id history s eq_refl (or_introl eq_refl) Hl) as (s' & E & _).
  change (base_vrps s) with (∅ : gset Vrp) in *. rewrite E, told_batches. change (cc_address (se_config s)) with (cc_address config).
  set (batches := history_batches (cc_address config) ∅ history) in *.
  assert (forall v : Vrp, v ∈ (∅ : gset Vrp) -> vrp_ok v) as He by (by intros v ?%not_elem_of_empty).
  pose proof (history_batches_ok (cc_address config) history ∅ He Hl) as Hb. fold batches in Hb.
  rewrite map_map. set (inputs := AddCache config :: _).
  assert (Forall input_vrps_ok inputs) as Hi.
  { apply Forall_cons. split; [done|]. apply Forall_map. apply (Forall_impl _ _ _ Hb). by intros b [_ Hok]. }
  pose proof (table_of inputs p Hi Hp) as T.
  assert (all_vrps (manager_loop manager_new inputs).1 = fold_left after_cycle history ∅) as Eu.
  { cbn [inputs manager_loop manager_step]. rewrite add_first. set (m0 := mkManager _ _ _).
    assert (knows_one config m0) as H0 by (split; [done..|]; intros addr _; apply lookup_empty).
    pose proof (batches_one config batches m0 H0) as E1. destruct (manager_loop m0 _) as [m1 out1]. cbn [fst] in *.
    rewrite E1 by (apply (Forall_impl _ _ _ Hb); by intros b [Ha _]).
    rewrite <- (last_history (cc_address config) history ∅). done. }
  destruct (manager_loop manager_new inputs) as [m out]. cbn [fst] in Eu. by rewrite <- Eu.
Qed.

(** ** Concrete caches *)
#[local] Instance demo_rtr_order : HashOrder := insertion_order.

Definition demo_cache (i pref : Z) : RtrCacheConfig := mkCacheConfig (IpV4 (10 * 2 ^ 24 + i), 323) pref Tcp None None None.
Definition demo_vrp (i : Z) : Vrp := mkVrp (V4 (mkV4 (i * 2 ^ 24) 8)) 24 (65000 + i).
Definition demo_eod (serial : Z) : EndOfData := mkEndOfData 7 serial 3600 600 7200.
(** Two VRPs, then one goes and another comes. *)
Definition demo_history : list Cycle :=
  [mkCycle (1, true) [((2, true), (true, demo_vrp 10)); ((3, true), (true, demo_vrp 11))] (4, true) (demo_eod 1);
   mkCycle (9, true) [((9, true), (false, demo_vrp 10)); ((9, true), (true, demo_vrp 12))] (9, true) (demo_eod 2)].

Lemma demo_legal : legal_history ∅ demo_history.
Proof.
  split; [|split; [|done]]; apply legal_forall; try (apply (bool_decide_unpack _); vm_compute; exact I);
    (apply Forall_cons; split; [|apply Forall_singleton]); cbn [fst snd]; repeat split; try (unfold u32; cbn; lia);
    apply (bool_decide_unpack _); vm_compute; exact I.
Qed.

Lemma sync_history_exact_witness :
  exists s', run_session (fun _ => []) (session_new (demo_cache 1 1) 0) 0 true (history_events 7 demo_history) =
      (s', Write MResetQuery :: map (fun b => Tell (Batch b)) (history_batches (cc_address (demo_cache 1 1)) ∅ demo_history), None) /\
    base_vrps s' = fold_left after_cycle demo_history ∅.
Proof. exact (sync_history_exact (fun _ => []) (demo_cache 1 1) 0 7 demo_history demo_legal). Defined.

Definition demo_route : IpNetwork := V4 (mkV4 (11 * 2 ^ 24 + 2 ^ 16) 16).
Lemma demo_route_ok : network_ok demo_route.
Proof. cbn. unfold u32. lia. Qed.

Lemma cache_history_validates_witness :
  let '(_, out, _) := run_session (fun _ => []) (session_new (demo_cache 1 1) 0) 0 true (history_events 7 demo_history) in
  let '(_, updates) := manager_loop manager_new (AddCache (demo_cache 1 1) :: map FromSession (told out)) in
  exists t, vrp_run (concat (map update_ops updates)) vrp_new = Some t /\
    agrees_with_rfc6811 t (fold_left after_cycle demo_history ∅) demo_route.
Proof. apply (cache_history_validates (fun _ => []) (demo_cache 1 1) 0 7 demo_history demo_route); [exact demo_legal|exact demo_route_ok]. Defined.

(** The outcomes: the VRP of the second cycle is in force, the withdrawn one not. *)
Definition demo_outcome (origin : Z) (i : Z) : RpkiValidation :=
  rfc6811 (fold_left after_cycle demo_history ∅) (V4 (mkV4 (i * 2 ^ 24) 16)) origin.
Example demo_outcomes : demo_outcome 65011 11 = Valid /\ demo_outcome 65012 12 = Valid /\ demo_outcome 1 12 = Invalid /\
  demo_outcome 65010 10 = NotFound.
Proof. vm_compute. done. Qed.

(** Two caches that share a VRP, one of which goes away. *)
Definition demo_batch (i : Z) (vrps : list Vrp) : ManagerInput :=
  FromSession (Batch (mkBatch (cc_address (demo_cache i 1)) 7 1 (list_to_set vrps))).
Definition demo_inputs : list ManagerInput :=
  [AddCache (demo_cache 1 1); AddCache (demo_cache 2 1); demo_batch 1 [demo_vrp 10; demo_vrp 11]; demo_batch 2 [demo_vrp 11];
   FromSession (CacheExpired (cc_address (demo_cache 1 1)))].

Lemma demo_inputs_ok : Forall input_vrps_ok demo_inputs.
Proof.
  unfold demo_inputs. repeat (apply Forall_cons; split); try exact I; try apply Forall_nil_2; cbn [input_vrps_ok demo_batch vb_vrps];
    intros v Hv; rewrite elem_of_list_to_set, ?elem_of_cons, elem_of_nil in Hv;
    destruct Hv as [-> | Hv]; try (cbn; unfold u32; lia); destruct Hv as [-> | []]; cbn; unfold u32; lia.
Qed.

Lemma manager_table_is_union_witness :
  let '(m, out) := manager_loop manager_new demo_inputs in
  (exists t, vrp_run (concat (map update_ops out)) vrp_new = Some t /\
     agrees_with_rfc6811 t (union_of (held_after (manager_steps manager_new demo_inputs))) demo_route) /\
  forall i addr, addr ∈ stopped (manager_step m i).2 ->
    match i with
    | RemoveCache a => addr = a
    | FromSession (Batch b) => exists c c', session_config m (vb_cache_addr b) = Some c /\ mg_all_configs m !! addr = Some c' /\
        cc_preference c < cc_preference c'
    | _ => False
    end.
Proof. apply (manager_table_is_union demo_inputs demo_route); [exact demo_inputs_ok|exact demo_route_ok]. Defined.

(** ** What expiry and failover leave out *)
(** An expiry empties the set but keeps the serial number: the next query asks
    only for what changed, and the next batch tells only that. *)
Theorem expiry_forgets_without_reset debug s now now' sid serial :
  se_session_id s = Some sid -> se_serial_number s = Some serial ->
  exists s' s'',
    session_step debug s now true ExpireTimer = continue s' [Tell (CacheExpired (cc_address (se_config s)))] /\
    se_local_vrps s' = ∅ /\
    session_step debug s' now' true RefreshTimer = continue s'' [Write (MSerialQuery (mkSerialQuery sid serial))].
Proof.
  intros Hid Hser. cbn [session_step]. unfold handle_expire. eexists _, _. split_and!; [reflexivity|done|].
  unfold handle_refresh. cbn [se_session_id se_serial_number with_expire_deadline with_local_vrps]. by rewrite Hid, Hser.
Qed.

(** A cache that cannot be reached is never told to be expired: its timer runs
    only while a connection is up. *)
Theorem unreachable_cache_never_expires debug attempts : forall s addr,
  Forall (fun a : Attempt * bool => exists r, a.1 = ConnectFailed r) attempts ->
  Tell (CacheExpired addr) ∉ (session_run debug s attempts).2.
Proof.
  induction attempts as [|[a shutdown] attempts IH]; intros s addr Ha; cbn [session_run]; [by apply not_elem_of_nil|].
  apply Forall_cons in Ha as [(r & Ea) Ha]. cbn in Ea. subst a. cbn [run_attempt]. unfold stop, handle_disconnect. cbv zeta.
  assert (Tell (CacheExpired addr) ∉ [Tell (CacheDisconnected (cc_address (se_config s)))]) as Hd by (by intros ?%list_elem_of_singleton).
  specialize (IH (with_reconnect_delay (Z.min (se_reconnect_delay s * 2) MAX_BACKOFF) s) addr Ha).
  destruct r, shutdown; cbn [app snd]; try (exact Hd); try (by apply not_elem_of_nil);
    destruct (session_run debug _ attempts) as [s2 out2]; cbn [snd] in *; apply not_elem_of_cons; by split.
Qed.

(** Two caches of a tier, both unreachable: no session of the next tier starts,
    since a session that retries counts as connected. *)
Definition spawned (out : list ManagerOutput) : list SocketAddr := omap (fun o => match o with SpawnSession c => Some (cc_address c) | _ => None end) out.
Definition demo_tier : list ManagerInput :=
  [AddCache (demo_cache 1 1); AddCache (demo_cache 2 1); AddCache (demo_cache 3 2);
   FromSession (CacheDisconnected (cc_address (demo_cache 1 1))); FromSession (CacheDisconnected (cc_address (demo_cache 2 1)))].
Example fallback_not_spawned :
  spawned (manager_loop manager_new demo_tier).2 = [cc_address (demo_cache 1 1); cc_address (demo_cache 2 1)].
Proof. apply (bool_decide_unpack _). vm_compute. exact I. Qed.

(** With a single cache in the tier, the next one does start. *)
Example fallback_spawned :
  spawned (manager_loop manager_new
    [AddCache (demo_cache 1 1); AddCache (demo_cache 3 2); FromSession (CacheDisconnected (cc_address (demo_cache 1 1)))]).2 =
  [cc_address (demo_cache 1 1); cc_address (demo_cache 3 2)].
Proof. apply (bool_decide_unpack _). vm_compute. exact I. Qed.

Definition demo_removed : RtrManager :=
  (manager_loop manager_new [AddCache (demo_cache 1 1); RemoveCache (cc_address (demo_cache 1 1)); demo_batch 1 [demo_vrp 10]]).1.

(** A batch on its way when its cache is removed puts the VRPs back, and no
    cache is left whose expiry or removal takes them out. *)
Example removed_cache_comes_back :
  all_vrps demo_removed = {[demo_vrp 10]} /\ mg_sessions demo_removed = ∅ /\ mg_all_configs demo_removed = ∅.
Proof. apply (bool_decide_unpack _). vm_compute. exact I. Qed.

(** The only cache of the preferred tier is removed: nobody starts the next. *)
Example removal_spawns_no_fallback :
  mg_sessions (manager_loop manager_new [AddCache (demo_cache 1 1); AddCache (demo_cache 3 2); RemoveCache (cc_address (demo_cache 1 1))]).1 = ∅.
Proof. apply (bool_decide_unpack _). vm_compute. exact I. Qed.

(** A notification while a response comes in makes the rest of the response a
    protocol error. *)
Example notify_breaks_response :
  (session_loop (fun _ => []) (session_new (demo_cache 1 1) 0)
    [((1, true), Received (MCacheResponse (mkCacheResponse 7))); ((1, true), Received (MSerialNotify (mkSerialNotify 7 5)));
     ((1, true), Received (vrp_message (true, demo_vrp 10)))]).2 = Some SrDisconnected.
Proof. vm_compute. reflexivity. Qed.
