(* ===== verification/OpenMsg.v ===== *)
(** * The OPEN message ([bgpgg/src/bgp/msg_open_types.rs],
    [bgpgg/src/bgp/msg_open.rs], [bgpgg/src/bgp/multiprotocol.rs])

    Capabilities, optional parameters and the message body.  The one-byte
    length fields are computed with [as u8], so they are taken modulo 256.
    Debug assertions are left out. *)
From S2P Require Import Prelude Wire Net Notification Nlri BgpLs Attrs.

Definition BGP_VERSION : Z := 4.

(** ** Capabilities *)
Inductive AddPathMode := ApReceive | ApSend | ApBoth.

Definition mode_to_u8 (m : AddPathMode) : Z :=
  match m with ApReceive => 1 | ApSend => 2 | ApBoth => 3 end.
Definition mode_from_flags (send receive : bool) : option AddPathMode :=
  match send, receive with
  | true, true => Some ApBoth
  | true, false => Some ApSend
  | false, true => Some ApReceive
  | false, false => None
  end.
Definition can_send (m : AddPathMode) : bool := match m with ApSend | ApBoth => true | _ => false end.
Definition can_receive (m : AddPathMode) : bool := match m with ApReceive | ApBoth => true | _ => false end.
Definition mode_try_from (v : Z) : option AddPathMode :=
  if v =? 1 then Some ApReceive else if v =? 2 then Some ApSend else if v =? 3 then Some ApBoth
  else None.

#[export] Instance AddPathMode_eq_dec : EqDecision AddPathMode.
Proof. solve_decision. Defined.

Record AddPathCapability := mkAddPath { ap_entries : list (AfiSafi * AddPathMode) }.

Record GracefulRestartCapability := mkGr {
  gr_restart_time : Z;
  gr_restart_state : bool;
  gr_afi_safi_list : list (AfiSafi * bool);
}.

Definition gr_afi_safis (c : GracefulRestartCapability) : list AfiSafi := (gr_afi_safi_list c).*1.
Definition gr_forwarding_preserved (c : GracefulRestartCapability) (a : AfiSafi) : option bool :=
  '(_, (_, f_bit)) ← list_find (fun p => p.1 = a) (gr_afi_safi_list c); Some f_bit.

Record LlgrEntry := mkLlgrEntry { ll_afi_safi : AfiSafi; ll_forwarding : bool; ll_stale_time : Z }.
Record LlgrCapability := mkLlgr { ll_entries : list LlgrEntry }.

(** [StaleFilter] *)
Definition gr_should_clear_stale (c : GracefulRestartCapability) (a : AfiSafi) : bool :=
  bool_decide (gr_forwarding_preserved c a <> Some true).
Definition llgr_should_clear_stale (c : LlgrCapability) (a : AfiSafi) : bool :=
  match list_find (fun e => ll_afi_safi e = a) (ll_entries c) with
  | Some (_, entry) => negb (ll_forwarding entry)
  | None => true
  end.
Definition filter_stale (should_clear : AfiSafi -> bool) (stale : gset AfiSafi) : list AfiSafi :=
  filter (fun a => should_clear a = true) (elements stale).

Inductive BgpCapabilityCode :=
  | Multiprotocol | RouteRefresh | GracefulRestart | FourOctetAsn | AddPath
  | EnhancedRouteRefresh | Llgr | CapUnknown.

#[export] Instance BgpCapabilityCode_eq_dec : EqDecision BgpCapabilityCode.
Proof. solve_decision. Defined.

Definition cap_code_from (v : Z) : BgpCapabilityCode :=
  if v =? 1 then Multiprotocol else if v =? 2 then RouteRefresh
  else if v =? 64 then GracefulRestart else if v =? 65 then FourOctetAsn
  else if v =? 69 then AddPath else if v =? 70 then EnhancedRouteRefresh
  else if v =? 71 then Llgr else CapUnknown.
Definition cap_code_to_u8 (c : BgpCapabilityCode) : Z :=
  match c with
  | Multiprotocol => 1 | RouteRefresh => 2 | GracefulRestart => 64 | FourOctetAsn => 65
  | AddPath => 69 | EnhancedRouteRefresh => 70 | Llgr => 71 | CapUnknown => 0
  end.

Record Capability := mkCap { cap_code : BgpCapabilityCode; cap_len : Z; cap_val : list Z }.

Definition cap_to_bytes (c : Capability) : list Z :=
  cap_code_to_u8 (cap_code c) :: cap_len c :: cap_val c.

(** [len: val.len() as u8] *)
Definition cap_new (code : BgpCapabilityCode) (val : list Z) : Capability :=
  mkCap code (Z.of_nat (length val) mod 256) val.

Definition new_route_refresh : Capability := mkCap RouteRefresh 0 [].
Definition new_enhanced_route_refresh : Capability := mkCap EnhancedRouteRefresh 0 [].

Definition afi_safi_to_capability_bytes (a : AfiSafi) : list Z :=
  be_bytes 2 (afi_to_u16 (afi a)) ++ [0; safi_to_u8 (safi a)].
Definition new_multiprotocol (a : AfiSafi) : Capability :=
  cap_new Multiprotocol (afi_safi_to_capability_bytes a).

Definition afi_safi_from_capability_bytes (val : list Z) : outcome ParserError AfiSafi :=
  match val with
  | a1 :: a2 :: _ :: s :: _ =>
      match afi_try_from (be_val [a1; a2]), safi_try_from s with
      | Some af, Some sf => Ok (mkAfiSafi af sf)
      | _, _ => update_err OptionalAttributeError
      end
  | _ => update_err OptionalAttributeError
  end.

Definition new_four_octet_asn (asn : Z) : Capability := mkCap FourOctetAsn 4 (be_bytes 4 asn).
Definition as_four_octet_asn (c : Capability) : option Z :=
  match cap_code c with
  | FourOctetAsn => if (length (cap_val c) =? 4)%nat then Some (be_val (cap_val c)) else None
  | _ => None
  end.

Definition flag_bit (b : bool) : Z := if b then 0x80 else 0.

(** Graceful restart: flags and 12 bits of time, then tuples of four bytes. *)
Definition new_graceful_restart (restart_time : Z) (restart_state : bool)
    (afi_safi_list : list (AfiSafi * bool)) : Capability :=
  let masked := Z.land restart_time 0x0FFF in
  let first_byte := Z.lor (flag_bit restart_state) (Z.shiftr masked 8) in
  let second_byte := Z.land masked 0xFF in
  cap_new GracefulRestart
    (first_byte :: second_byte ::
     concat (map (fun p : AfiSafi * bool =>
       be_bytes 2 (afi_to_u16 (afi p.1)) ++ [safi_to_u8 (safi p.1); flag_bit p.2]) afi_safi_list)).

Fixpoint gr_tuples (val : list Z) : list (AfiSafi * bool) :=
  match val with
  | a1 :: a2 :: s :: flags :: rest =>
      match afi_try_from (be_val [a1; a2]), safi_try_from s with
      | Some af, Some sf => (mkAfiSafi af sf, negb (Z.land flags 0x80 =? 0)) :: gr_tuples rest
      | _, _ => gr_tuples rest
      end
  | _ => []
  end.
Definition as_graceful_restart (c : Capability) : option GracefulRestartCapability :=
  match cap_code c, cap_val c with
  | GracefulRestart, first_byte :: second_byte :: tuples =>
      Some (mkGr (Z.lor (Z.shiftl (Z.land first_byte 0x0F) 8) second_byte)
        (negb (Z.land first_byte 0x80 =? 0)) (gr_tuples tuples))
  | _, _ => None
  end.

Definition new_add_path (entries : list (AfiSafi * AddPathMode)) : Capability :=
  cap_new AddPath (concat (map (fun p : AfiSafi * AddPathMode =>
    be_bytes 2 (afi_to_u16 (afi p.1)) ++ [safi_to_u8 (safi p.1); mode_to_u8 p.2]) entries)).

Fixpoint add_path_tuples (val : list Z) : list (AfiSafi * AddPathMode) :=
  match val with
  | a1 :: a2 :: s :: m :: rest =>
      match afi_try_from (be_val [a1; a2]), safi_try_from s, mode_try_from m with
      | Some af, Some sf, Some mode => (mkAfiSafi af sf, mode) :: add_path_tuples rest
      | _, _, _ => add_path_tuples rest
      end
  | _ => []
  end.
Definition as_add_path (c : Capability) : option AddPathCapability :=
  match cap_code c with AddPath => Some (mkAddPath (add_path_tuples (cap_val c))) | _ => None end.

(** [(stale_time >> 16) as u8], ...: the low 24 bits, big-endian. *)
Definition llgr_entry_bytes (e : LlgrEntry) : list Z :=
  be_bytes 2 (afi_to_u16 (afi (ll_afi_safi e))) ++
  [safi_to_u8 (safi (ll_afi_safi e)); flag_bit (ll_forwarding e)] ++
  be_bytes 3 (ll_stale_time e).
Definition new_llgr (entries : list LlgrEntry) : Capability :=
  cap_new Llgr (concat (map llgr_entry_bytes entries)).

Fixpoint llgr_tuples (val : list Z) : list LlgrEntry :=
  match val with
  | a1 :: a2 :: s :: flags :: t1 :: t2 :: t3 :: rest =>
      match afi_try_from (be_val [a1; a2]), safi_try_from s with
      | Some af, Some sf =>
          mkLlgrEntry (mkAfiSafi af sf) (negb (Z.land flags 0x80 =? 0))
            (Z.lor (Z.lor (Z.shiftl t1 16) (Z.shiftl t2 8)) t3) :: llgr_tuples rest
      | _, _ => llgr_tuples rest
      end
  | _ => []
  end.
Definition as_llgr (c : Capability) : option LlgrCapability :=
  match cap_code c with Llgr => Some (mkLlgr (llgr_tuples (cap_val c))) | _ => None end.

(** ** Optional parameters *)
Inductive OptParamType := PtCapabilities | PtUnknown (v : Z).
Definition opt_param_type_from (v : Z) : OptParamType := if v =? 2 then PtCapabilities else PtUnknown v.
Definition opt_param_type_to_u8 (t : OptParamType) : Z :=
  match t with PtCapabilities => 2 | PtUnknown v => v end.

Inductive OptParamVal := PvCapabilities (caps : list Capability) | PvUnknown (data : list Z).
Definition opt_param_val_to_bytes (v : OptParamVal) : list Z :=
  match v with
  | PvCapabilities caps => concat (map cap_to_bytes caps)
  | PvUnknown data => data
  end.

Record OptionalParam := mkParam {
  param_type : OptParamType; param_len : Z; param_value : OptParamVal }.

Definition param_to_bytes (p : OptionalParam) : list Z :=
  opt_param_type_to_u8 (param_type p) :: param_len p :: opt_param_val_to_bytes (param_value p).

Definition from_capabilities (caps : list Capability) : OptionalParam :=
  mkParam PtCapabilities (foldr (fun c n => 2 + cap_len c + n) 0 caps mod 256) (PvCapabilities caps).

Definition param_capabilities (p : OptionalParam) : list Capability :=
  match param_value p with PvCapabilities caps => caps | PvUnknown _ => [] end.

Definition find_four_octet_asn (params : list OptionalParam) : option Z :=
  head (omap as_four_octet_asn (concat (map param_capabilities params))).

(** ** Reading *)
Definition open_msg_error : ParserError := BgpErr (EOpenMessage (OmUnknown 0)) [].

Definition read_capability (bytes : list Z) : outcome ParserError (Capability * list Z) :=
  '(code, val, rest) ← read_tlv8 open_msg_error bytes;
  Ok (mkCap (cap_code_from code) (Z.of_nat (length val)) val, rest).
Definition parse_capability_tlvs (bytes : list Z) : outcome ParserError (list Capability) :=
  parse_list read_capability bytes.

Definition read_optional_parameter (bytes : list Z) : outcome ParserError (OptionalParam * list Z) :=
  '(param_type_val, val, rest) ← read_tlv8 open_msg_error bytes;
  let param_type := opt_param_type_from param_type_val in
  param_value ← (match param_type with
    | PtCapabilities => caps ← parse_capability_tlvs val; Ok (PvCapabilities caps)
    | PtUnknown _ => Ok (PvUnknown val)
    end);
  Ok (mkParam param_type (Z.of_nat (length val)) param_value, rest).
Definition read_optional_parameters (bytes : list Z) : outcome ParserError (list OptionalParam) :=
  parse_list read_optional_parameter bytes.

Definition validate_version (version : Z) : outcome ParserError () :=
  if version =? BGP_VERSION then Ok ()
  else Err (BgpErr (EOpenMessage UnsupportedVersionNumber) (be_bytes 2 BGP_VERSION)).
Definition validate_hold_time (hold_time : Z) : outcome ParserError () :=
  if (hold_time =? 1) || (hold_time =? 2) then Err (BgpErr (EOpenMessage UnacceptedHoldTime) [])
  else Ok ().
Definition validate_bgp_identifier (id : Z) : outcome ParserError () :=
  if id =? 0 then Err (BgpErr (EOpenMessage BadBgpIdentifier) []) else Ok ().

Record OpenMessage := mkOpen {
  o_version : Z;
  o_asn : Z;
  o_hold_time : Z;
  o_bgp_identifier : Z;
  o_optional_params_len : Z;
  o_optional_params : list OptionalParam;
}.

(** [OpenMessage::new] *)
Definition open_new (asn hold_time bgp_identifier : Z) : OpenMessage :=
  mkOpen BGP_VERSION asn hold_time bgp_identifier 0 [].

(** The sum of the parameters' lengths, [as u8]. *)
Definition params_len (params : list OptionalParam) : Z :=
  foldr (fun p n => 2 + param_len p + n) 0 params mod 256.

Definition with_four_octet_asn_capability (asn hold_time bgp_identifier : Z) : OpenMessage :=
  let optional_params := [from_capabilities [new_four_octet_asn asn]] in
  mkOpen BGP_VERSION asn hold_time bgp_identifier (params_len optional_params) optional_params.

Definition open_from_bytes (bytes : list Z) : outcome ParserError OpenMessage :=
  match bytes with
  | version :: a1 :: a2 :: h1 :: h2 :: i1 :: i2 :: i3 :: i4 :: optional_params_len :: rest =>
      let asn_2byte := be_val [a1; a2] in
      let hold_time := be_val [h1; h2] in
      let bgp_identifier := be_val [i1; i2; i3; i4] in
      let remaining_bytes_len := Z.of_nat (length rest) mod 256 in
      if negb (optional_params_len =? remaining_bytes_len) then Err open_msg_error
      else
        _ ← validate_version version;
        _ ← validate_hold_time hold_time;
        _ ← validate_bgp_identifier bgp_identifier;
        optional_params ←
          (if optional_params_len =? 0 then Ok []
           else read_optional_parameters (take (Z.to_nat optional_params_len) rest));
        asn ← (if asn_2byte =? AS_TRANS then
                 match find_four_octet_asn optional_params with
                 | Some asn => Ok asn
                 | None => Err (BgpErr (EOpenMessage BadPeerAs) (be_bytes 2 AS_TRANS))
                 end
               else Ok asn_2byte);
        Ok (mkOpen version asn hold_time bgp_identifier optional_params_len optional_params)
  | _ => Err open_msg_error
  end.

Definition open_to_bytes (m : OpenMessage) : list Z :=
  [o_version m] ++
  be_bytes 2 (if MAX_2BYTE_ASN <? o_asn m then AS_TRANS else o_asn m) ++
  be_bytes 2 (o_hold_time m) ++
  be_bytes 4 (o_bgp_identifier m) ++
  [o_optional_params_len m] ++
  concat (map param_to_bytes (o_optional_params m)).

(** ** Reading back what was written *)

(** A capability that the decoder can name and whose length field is its
    length. *)
Definition cap_ok (c : Capability) : Prop :=
  cap_code c <> CapUnknown /\ cap_len c = Z.of_nat (length (cap_val c)) /\ (length (cap_val c) < 256)%nat.

Definition param_val_ok (t : OptParamType) (v : OptParamVal) : Prop :=
  match t, v with
  | PtCapabilities, PvCapabilities caps => Forall cap_ok caps
  | PtUnknown x, PvUnknown _ => x <> 2
  | _, _ => False
  end.
Definition param_ok (p : OptionalParam) : Prop :=
  param_val_ok (param_type p) (param_value p) /\
  param_len p = Z.of_nat (length (opt_param_val_to_bytes (param_value p))) /\
  (length (opt_param_val_to_bytes (param_value p)) < 256)%nat.

Lemma cap_code_roundtrip c : c <> CapUnknown -> cap_code_from (cap_code_to_u8 c) = c.
Proof. by destruct c. Qed.

Lemma read_capability_shrinks bytes c rest :
  read_capability bytes = Ok (c, rest) -> (length rest < length bytes)%nat.
Proof.
  unfold read_capability. destruct (read_tlv8 open_msg_error bytes) as [[[t v] r]| |] eqn:E; [|done..].
  intros [= _ <-]. by eapply read_tlv8_shrinks.
Qed.

Lemma read_capability_write c tail :
  cap_ok c -> cap_to_bytes c <> [] /\ read_capability (cap_to_bytes c ++ tail) = Ok (c, tail).
Proof.
  destruct c as [code len val]. intros (Hc & Hl & _). cbn [cap_code cap_len cap_val] in *.
  subst len. split; [done|].
  unfold read_capability, cap_to_bytes. cbn [cap_code cap_len cap_val app].
  rewrite read_tlv8_write. cbn. by rewrite cap_code_roundtrip.
Qed.

Lemma parse_capability_tlvs_write caps :
  Forall cap_ok caps -> parse_capability_tlvs (concat (map cap_to_bytes caps)) = Ok caps.
Proof.
  apply (parse_list_write read_capability read_capability_shrinks cap_to_bytes cap_ok).
  intros c tail. apply read_capability_write.
Qed.

Lemma read_optional_parameter_shrinks bytes p rest :
  read_optional_parameter bytes = Ok (p, rest) -> (length rest < length bytes)%nat.
Proof.
  unfold read_optional_parameter. destruct (read_tlv8 open_msg_error bytes) as [[[t v] r]| |] eqn:E; [|done..].
  cbn [mbind outcome_bind]. destruct (match opt_param_type_from t with PtCapabilities => _ | _ => _ end); [|done..].
  intros [= _ <-]. by eapply read_tlv8_shrinks.
Qed.

Lemma read_optional_parameter_write p tail :
  param_ok p -> param_to_bytes p <> [] /\ read_optional_parameter (param_to_bytes p ++ tail) = Ok (p, tail).
Proof.
  destruct p as [t len v]. intros (Hv & Hl & _). cbn [param_type param_len param_value] in *.
  subst len. split; [done|].
  unfold read_optional_parameter, param_to_bytes. cbn [param_type param_len param_value app].
  rewrite read_tlv8_write. cbn [mbind outcome_bind].
  destruct t as [|x], v as [caps|data]; cbn in Hv; try done.
  - cbn [opt_param_type_to_u8]. change (opt_param_type_from 2) with PtCapabilities. cbn [opt_param_val_to_bytes].
    by rewrite parse_capability_tlvs_write.
  - cbn [opt_param_type_to_u8 opt_param_val_to_bytes]. unfold opt_param_type_from.
    by destruct (Z.eqb_spec x 2).
Qed.

Lemma read_optional_parameters_write params :
  Forall param_ok params -> read_optional_parameters (concat (map param_to_bytes params)) = Ok params.
Proof.
  apply (parse_list_write read_optional_parameter read_optional_parameter_shrinks param_to_bytes param_ok).
  intros p tail. apply read_optional_parameter_write.
Qed.

(** A message the decoder accepts and the encoder does not lose anything of. *)
Record open_ok (m : OpenMessage) : Prop := {
  oo_version : o_version m = BGP_VERSION;
  oo_asn : u32 (o_asn m);
  oo_trans : MAX_2BYTE_ASN < o_asn m \/ o_asn m = AS_TRANS ->
    find_four_octet_asn (o_optional_params m) = Some (o_asn m);
  oo_hold : u16 (o_hold_time m) /\ o_hold_time m <> 1 /\ o_hold_time m <> 2;
  oo_id : u32 (o_bgp_identifier m) /\ o_bgp_identifier m <> 0;
  oo_len : o_optional_params_len m = Z.of_nat (length (concat (map param_to_bytes (o_optional_params m))));
  oo_len256 : (length (concat (map param_to_bytes (o_optional_params m))) < 256)%nat;
  oo_params : Forall param_ok (o_optional_params m);
}.

Lemma be_bytes_2 v : be_bytes 2 v = [v / 256 mod 256; v mod 256].
Proof. cbn [be_bytes]. by rewrite Z.div_1_r. Qed.

Lemma be_bytes_4 v : exists b1 b2 b3 b4, be_bytes 4 v = [b1; b2; b3; b4].
Proof. cbn [be_bytes]. by repeat eexists. Qed.

Lemma be_val_2 v : u16 v -> be_val [v / 256 mod 256; v mod 256] = v.
Proof. intros. rewrite <- be_bytes_2. by apply (be_val_be_bytes_id 2). Qed.

(** What the message itself says of the AS number field. *)
Definition asn_field (m : OpenMessage) : Z := if MAX_2BYTE_ASN <? o_asn m then AS_TRANS else o_asn m.

Lemma asn_field_u16 m : u32 (o_asn m) -> u16 (asn_field m).
Proof.
  unfold u32, u16, asn_field, MAX_2BYTE_ASN, AS_TRANS. destruct (Z.ltb_spec 65535 (o_asn m)); lia.
Qed.

Lemma read_params_ok m :
  open_ok m ->
  (if o_optional_params_len m =? 0 then Ok []
   else read_optional_parameters
     (take (Z.to_nat (o_optional_params_len m)) (concat (map param_to_bytes (o_optional_params m)))))
  = Ok (o_optional_params m).
Proof.
  intros [_ _ _ _ _ Hlen _ Hp]. rewrite Hlen, Nat2Z.id, firstn_all.
  rewrite read_optional_parameters_write by done.
  destruct (Z.eqb_spec (Z.of_nat (length (concat (map param_to_bytes (o_optional_params m))))) 0) as [E|]; [|done].
  destruct (o_optional_params m) as [|p l]; [done|]. cbn in E. lia.
Qed.

Lemma open_read_write (m : OpenMessage) : open_ok m -> open_from_bytes (open_to_bytes m) = Ok m.
Proof.
  intros Hm. pose proof (read_params_ok m Hm) as Hp.
  destruct Hm as [Hv Ha Ht (Hh & Hh1 & Hh2) [Hi Hi0] Hlen H256 _].
  unfold open_to_bytes. fold (asn_field m). rewrite !be_bytes_2.
  destruct (be_bytes_4 (o_bgp_identifier m)) as (b1 & b2 & b3 & b4 & Eb). rewrite Eb.
  cbn [app open_from_bytes]. rewrite <- Eb, be_val_be_bytes_id, !be_val_2 by (try apply asn_field_u16; done).
  rewrite (Z.mod_small (Z.of_nat (length _))) by lia. rewrite Hlen, Z.eqb_refl. cbn [negb].
  rewrite <- Hlen, Hp. rewrite Hv. cbn [mbind outcome_bind validate_version].
  unfold validate_hold_time, validate_bgp_identifier.
  destruct (Z.eqb_spec (o_hold_time m) 1), (Z.eqb_spec (o_hold_time m) 2), (Z.eqb_spec (o_bgp_identifier m) 0); try done.
  cbn. unfold asn_field. destruct (Z.ltb_spec MAX_2BYTE_ASN (o_asn m)).
  - cbn. rewrite Ht by (by left). destruct m; cbn in *; by subst.
  - destruct (Z.eqb_spec (o_asn m) AS_TRANS) as [E|].
    + rewrite Ht by (by right). destruct m; cbn in *; by subst.
    + destruct m; cbn in *; by subst.
Qed.

(** ** Properties *)

(**  Decoding an encoded OPEN gives the same message, for every message
    the decoder can accept at all: version 4, a hold time other than 1 and 2,
    a non-zero identifier, capabilities it knows, consistent lengths, and the
    four-octet capability when the AS number needs it. *)
Theorem open_roundtrip (m : OpenMessage) : open_ok m -> open_from_bytes (open_to_bytes m) = Ok m.
Proof. apply open_read_write. Qed.

Lemma open_roundtrip_witness :
  let m := mkOpen 4 200000 180 0x0A000001 14
    [from_capabilities [new_multiprotocol (mkAfiSafi Afi_Ipv6 Unicast); new_four_octet_asn 200000]] in
  open_from_bytes (open_to_bytes m) = Ok m.
Proof.
  intros m. apply open_roundtrip. split; try reflexivity.
  - split; [done|reflexivity].
  - split; [split; [done|reflexivity]|done].
  - split; [split; [done|reflexivity]|done].
  - vm_compute. lia.
  - repeat constructor; vm_compute; try discriminate; lia.
Defined.

(** *** The contents of the capabilities *)
Lemma afi_roundtrip a : afi_try_from (be_val (be_bytes 2 (afi_to_u16 a))) = Some a.
Proof. by destruct a. Qed.
Lemma safi_roundtrip s : safi_try_from (safi_to_u8 s) = Some s.
Proof. by destruct s. Qed.
Lemma mode_roundtrip m : mode_try_from (mode_to_u8 m) = Some m.
Proof. by destruct m. Qed.
Lemma flag_roundtrip b : negb (Z.land (flag_bit b) 0x80 =? 0) = b.
Proof. by destruct b. Qed.

Lemma gr_tuples_write l :
  gr_tuples (concat (map (fun p : AfiSafi * bool =>
    be_bytes 2 (afi_to_u16 (afi p.1)) ++ [safi_to_u8 (safi p.1); flag_bit p.2]) l)) = l.
Proof.
  induction l as [|[[a s] f] l IH]; [done|]. cbn [map concat fst snd afi safi].
  rewrite be_bytes_2. cbn [app gr_tuples]. rewrite <- be_bytes_2, afi_roundtrip, safi_roundtrip, flag_roundtrip.
  by rewrite IH.
Qed.

Lemma add_path_tuples_write l :
  add_path_tuples (concat (map (fun p : AfiSafi * AddPathMode =>
    be_bytes 2 (afi_to_u16 (afi p.1)) ++ [safi_to_u8 (safi p.1); mode_to_u8 p.2]) l)) = l.
Proof.
  induction l as [|[[a s] m] l IH]; [done|]. cbn [map concat fst snd afi safi].
  rewrite be_bytes_2. cbn [app add_path_tuples].
  by rewrite <- be_bytes_2, afi_roundtrip, safi_roundtrip, mode_roundtrip, IH.
Qed.

Lemma be_val_3 a b c :
  u8 b -> u8 c -> Z.lor (Z.lor (Z.shiftl a 16) (Z.shiftl b 8)) c = be_val [a; b; c].
Proof.
  unfold u8. intros Hb Hc. cbn [be_val length].
  change 16 with (8 + 8). rewrite <- (Z.shiftl_shiftl a 8 8), <- Z.shiftl_lor by lia.
  rewrite (lor_shiftl_add a b 8), lor_shiftl_add by lia. lia.
Qed.

Lemma llgr_tuples_write l :
  Forall (fun e => 0 <= ll_stale_time e < 2 ^ 24) l ->
  llgr_tuples (concat (map llgr_entry_bytes l)) = l.
Proof.
  induction 1 as [|[[a s] f t] l Ht _ IH]; [done|]. cbn [map concat ll_stale_time] in *.
  unfold llgr_entry_bytes at 1. cbn [ll_afi_safi ll_forwarding ll_stale_time afi safi].
  pose proof (be_val_be_bytes_id 3 t Ht) as Hv. pose proof (be_bytes_ok 3 t) as Hb.
  pose proof (length_be_bytes 3 t) as Hlen. rewrite (be_bytes_2 (afi_to_u16 a)).
  destruct (be_bytes 3 t) as [|t1 [|t2 [|t3 [|]]]]; try done. cbn [app llgr_tuples].
  rewrite <- be_bytes_2, afi_roundtrip, safi_roundtrip, flag_roundtrip.
  apply Forall_cons in Hb as [_ [Hb1 [Hb2 _]%Forall_cons]%Forall_cons].
  by rewrite be_val_3, Hv, IH.
Qed.

(** The two bytes of flags and time. *)
Lemma gr_header_roundtrip t s :
  0 <= t < 4096 ->
  let masked := Z.land t 0x0FFF in
  let first_byte := Z.lor (flag_bit s) (Z.shiftr masked 8) in
  Z.lor (Z.shiftl (Z.land first_byte 0x0F) 8) (Z.land masked 0xFF) = t /\
  negb (Z.land first_byte 0x80 =? 0) = s.
Proof.
  intros Ht masked first_byte.
  assert (masked = t) as Em by (unfold masked; change 0x0FFF with (2 ^ 12 - 1); rewrite land_mask_mod by lia; by apply Z.mod_small).
  assert (0 <= t / 2 ^ 8 < 2 ^ 4) as Hhi by (split; [apply Z.div_pos; lia|apply Z.div_lt_upper_bound; lia]).
  assert (first_byte = (if s then 1 else 0) * 2 ^ 7 + t / 2 ^ 8) as Ef.
  { unfold first_byte. rewrite Em, Z.shiftr_div_pow2 by lia.
    replace (flag_bit s) with (Z.shiftl (if s then 1 else 0) 7) by by destruct s.
    apply lor_shiftl_add; lia. }
  rewrite Em. split.
  - change 0x0F with (2 ^ 4 - 1). change 0xFF with (2 ^ 8 - 1). rewrite !land_mask_mod by lia.
    rewrite lor_shiftl_add by (try lia; apply Z.mod_pos_bound; lia). rewrite Ef.
    replace ((if s then 1 else 0) * 2 ^ 7 + t / 2 ^ 8) with (t / 2 ^ 8 + (if s then 8 else 0) * 2 ^ 4) by (destruct s; lia).
    rewrite Z.mod_add, (Z.mod_small (t / 2 ^ 8)) by lia. pose proof (Z.div_mod t (2 ^ 8)). lia.
  - rewrite Ef. assert (t / 2 ^ 8 ∈ seqZ 0 16) as Hin by (apply elem_of_seqZ; lia).
    apply list_elem_of_In in Hin. revert Hin. generalize (t / 2 ^ 8). intros x Hx. vm_compute in Hx.
    repeat (destruct Hx as [<-|Hx]; [by destruct s|]). done.
Qed.

Lemma multiprotocol_contents a : afi_safi_from_capability_bytes (cap_val (new_multiprotocol a)) = Ok a.
Proof. by destruct a as [[] []]. Qed.

Lemma four_octet_contents asn : u32 asn -> as_four_octet_asn (new_four_octet_asn asn) = Some asn.
Proof.
  intros Ha. unfold as_four_octet_asn, new_four_octet_asn. cbn [cap_code cap_val].
  rewrite length_be_bytes. cbn [Nat.eqb]. by rewrite be_val_be_bytes_id.
Qed.

Lemma graceful_restart_contents time state gr :
  0 <= time < 4096 -> as_graceful_restart (new_graceful_restart time state gr) = Some (mkGr time state gr).
Proof.
  intros Ht. unfold as_graceful_restart, new_graceful_restart, cap_new. cbn [cap_code cap_val].
  destruct (gr_header_roundtrip time state Ht) as [-> ->]. by rewrite gr_tuples_write.
Qed.

Lemma add_path_contents ap : as_add_path (new_add_path ap) = Some (mkAddPath ap).
Proof. unfold as_add_path, new_add_path, cap_new. cbn [cap_code cap_val]. by rewrite add_path_tuples_write. Qed.

Lemma llgr_contents ll :
  Forall (fun e => 0 <= ll_stale_time e < 2 ^ 24) ll -> as_llgr (new_llgr ll) = Some (mkLlgr ll).
Proof. intros Hl. unfold as_llgr, new_llgr, cap_new. cbn [cap_code cap_val]. by rewrite llgr_tuples_write. Qed.

(** What a speaker puts into the multiprotocol, four-octet, ADD-PATH,
    graceful-restart and LLGR capabilities is what the receiver extracts from
    them, for restart times of 12 bits and stale times of 24 bits. *)
Theorem capability_contents_roundtrip (a : AfiSafi) (asn time : Z) (state : bool)
    (gr : list (AfiSafi * bool)) (ap : list (AfiSafi * AddPathMode)) (ll : list LlgrEntry) :
  u32 asn -> 0 <= time < 4096 -> Forall (fun e => 0 <= ll_stale_time e < 2 ^ 24) ll ->
  afi_safi_from_capability_bytes (cap_val (new_multiprotocol a)) = Ok a /\
  as_four_octet_asn (new_four_octet_asn asn) = Some asn /\
  as_graceful_restart (new_graceful_restart time state gr) = Some (mkGr time state gr) /\
  as_add_path (new_add_path ap) = Some (mkAddPath ap) /\
  as_llgr (new_llgr ll) = Some (mkLlgr ll).
Proof.
  intros Ha Ht Hl. split_and!.
  - apply multiprotocol_contents.
  - by apply four_octet_contents.
  - by apply graceful_restart_contents.
  - apply add_path_contents.
  - by apply llgr_contents.
Qed.

Lemma capability_contents_roundtrip_witness :
  let a := mkAfiSafi Afi_LinkState Safi_LinkState in
  as_graceful_restart (new_graceful_restart 4095 true [(a, true)]) = Some (mkGr 4095 true [(a, true)]) /\
  as_add_path (new_add_path [(a, ApBoth)]) = Some (mkAddPath [(a, ApBoth)]) /\
  as_llgr (new_llgr [mkLlgrEntry a true 16777215]) = Some (mkLlgr [mkLlgrEntry a true 16777215]).
Proof.
  intros a. apply (capability_contents_roundtrip a 65001 4095 true [(a, true)] [(a, ApBoth)]
    [mkLlgrEntry a true 16777215]); [split; [done|reflexivity]|lia|repeat constructor; cbn; lia].
Defined.

(** ** What the decoder accepts *)
Lemma read_capability_no_panic bytes : read_capability bytes <> Panic.
Proof.
  unfold read_capability. pose proof (read_tlv8_no_panic open_msg_error bytes).
  by destruct (read_tlv8 _ bytes) as [[[t v] r]| |].
Qed.

Lemma parse_capability_tlvs_no_panic bytes : parse_capability_tlvs bytes <> Panic.
Proof. apply parse_list_no_panic; [apply read_capability_shrinks|apply read_capability_no_panic]. Qed.

Lemma read_optional_parameters_no_panic bytes : read_optional_parameters bytes <> Panic.
Proof.
  apply parse_list_no_panic; [apply read_optional_parameter_shrinks|]. clear bytes. intros bytes.
  unfold read_optional_parameter. pose proof (read_tlv8_no_panic open_msg_error bytes).
  destruct (read_tlv8 _ bytes) as [[[t v] r]| |]; [|done..]. cbn [mbind outcome_bind].
  destruct (opt_param_type_from t); [|done]. pose proof (parse_capability_tlvs_no_panic v).
  by destruct (parse_capability_tlvs v).
Qed.

Definition known_cap (c : Capability) : Prop := cap_code c <> CapUnknown.
Definition known_param (p : OptionalParam) : Prop := Forall known_cap (param_capabilities p).

Lemma cap_code_from_known v : cap_code_from v <> CapUnknown -> cap_code_to_u8 (cap_code_from v) = v.
Proof. unfold cap_code_from. repeat case_match; bool_props; by subst. Qed.

Lemma parse_capability_tlvs_sound bytes caps :
  bytes_ok bytes -> parse_capability_tlvs bytes = Ok caps -> Forall known_cap caps ->
  bytes = concat (map cap_to_bytes caps).
Proof.
  unfold parse_capability_tlvs. revert caps.
  induction bytes as [|bytes Hne IH] using (parse_list_ind _ read_capability_shrinks); intros caps Hb.
  { by intros [= <-]. }
  rewrite (parse_list_cons _ read_capability_shrinks) by done.
  destruct (read_capability bytes) as [[c rest]| |] eqn:Es; [|done..]. cbn [mbind outcome_bind].
  specialize (IH c rest eq_refl). destruct (parse_list read_capability rest) as [more| |]; [|done..].
  intros [= <-] [Hk Hks]%Forall_cons. unfold read_capability in Es.
  destruct (read_tlv8 open_msg_error bytes) as [[[t v] r]| |] eqn:E; [|done..].
  apply read_tlv8_split in E as (-> & _ & _ & Hr & _); [|done]. injection Es as <- <-.
  cbn [map concat]. rewrite <- (IH more Hr eq_refl Hks).
  unfold cap_to_bytes. cbn [cap_code cap_len cap_val app]. by rewrite cap_code_from_known by done.
Qed.

Lemma read_optional_parameters_sound bytes params :
  bytes_ok bytes -> read_optional_parameters bytes = Ok params -> Forall known_param params ->
  bytes = concat (map param_to_bytes params).
Proof.
  unfold read_optional_parameters. revert params.
  induction bytes as [|bytes Hne IH] using (parse_list_ind _ read_optional_parameter_shrinks); intros params Hb.
  { by intros [= <-]. }
  rewrite (parse_list_cons _ read_optional_parameter_shrinks) by done.
  destruct (read_optional_parameter bytes) as [[p rest]| |] eqn:Es; [|done..]. cbn [mbind outcome_bind].
  specialize (IH p rest eq_refl). destruct (parse_list read_optional_parameter rest) as [more| |]; [|done..].
  intros [= <-] [Hk Hks]%Forall_cons. unfold read_optional_parameter in Es.
  destruct (read_tlv8 open_msg_error bytes) as [[[t v] r]| |] eqn:E; [|done..].
  apply read_tlv8_split in E as (-> & _ & Hv & Hr & _); [|done]. cbn [mbind outcome_bind] in Es.
  unfold opt_param_type_from in Es. destruct (Z.eqb_spec t 2) as [->|Ht].
  - destruct (parse_capability_tlvs v) as [caps| |] eqn:Ec; [|done..]. injection Es as <- <-.
    apply parse_capability_tlvs_sound in Ec; [|done|exact Hk].
    cbn [map concat]. rewrite <- (IH more Hr eq_refl Hks). unfold param_to_bytes.
    cbn [param_type param_len param_value opt_param_type_to_u8 opt_param_val_to_bytes app]. by rewrite <- Ec.
  - injection Es as <- <-. cbn [map concat]. by rewrite <- (IH more Hr eq_refl Hks).
Qed.

Lemma be_bytes_val_2 a b : u8 a -> u8 b -> be_bytes 2 (be_val [a; b]) = [a; b].
Proof. intros. apply (be_bytes_be_val [a; b]). by repeat apply List.Forall_cons. Qed.
Lemma be_bytes_val_4 a b c d :
  u8 a -> u8 b -> u8 c -> u8 d -> be_bytes 4 (be_val [a; b; c; d]) = [a; b; c; d].
Proof. intros. apply (be_bytes_be_val [a; b; c; d]). by repeat apply List.Forall_cons. Qed.

Lemma open_no_panic bytes : open_from_bytes bytes <> Panic.
Proof.
  unfold open_from_bytes. do 10 (destruct bytes as [|? bytes]; [done|]).
  destruct (negb _); [done|]. unfold validate_version, validate_hold_time, validate_bgp_identifier.
  destruct (_ =? BGP_VERSION); [|done]. destruct (_ || _); [done|].
  destruct (be_val [z4; z5; z6; z7] =? 0); [done|].
  cbn [mbind outcome_bind].
  assert (forall len l, (if len =? 0 then Ok [] else read_optional_parameters l) <> Panic) as Hp
    by (intros len l; destruct (len =? 0); [done|apply read_optional_parameters_no_panic]).
  specialize (Hp z8 (take (Z.to_nat z8) bytes)).
  destruct (if z8 =? 0 then _ else _) as [ps| |]; [|done..]. cbn [mbind outcome_bind].
  destruct (_ =? AS_TRANS); [|done]. by destruct (find_four_octet_asn ps).
Qed.

Lemma mod_256_split (n : nat) len :
  len = Z.of_nat n mod 256 -> (Z.to_nat len <= n)%nat /\ Z.of_nat (n - Z.to_nat len) mod 256 = 0.
Proof.
  intros ->. pose proof (Z.mod_pos_bound (Z.of_nat n) 256). pose proof (Z.div_mod (Z.of_nat n) 256).
  assert (0 <= Z.of_nat n / 256) by (apply Z.div_pos; lia). split; [lia|].
  replace (Z.of_nat (n - Z.to_nat (Z.of_nat n mod 256))) with (Z.of_nat n / 256 * 256) by lia.
  by rewrite Z.mod_mul.
Qed.

(**  The OPEN decoder never panics, and what it accepts is a version-4
    message with an admissible hold time and identifier whose AS number is
    the two-byte field or, when that is AS_TRANS, the four-octet capability;
    the parameters are those of the buffer.  What follows the parameters is
    not looked at as long as its length is a multiple of 256. *)
Theorem open_decode_sound (bytes : list Z) :
  open_from_bytes bytes <> Panic /\
  (forall m, bytes_ok bytes -> open_from_bytes bytes = Ok m ->
    o_version m = 4 /\ o_hold_time m <> 1 /\ o_hold_time m <> 2 /\ o_bgp_identifier m <> 0 /\
    exists field params pad,
      bytes = [o_version m] ++ be_bytes 2 field ++ be_bytes 2 (o_hold_time m) ++
        be_bytes 4 (o_bgp_identifier m) ++ [o_optional_params_len m] ++ params ++ pad /\
      o_optional_params_len m = Z.of_nat (length params) /\ Z.of_nat (length pad) mod 256 = 0 /\
      (if field =? AS_TRANS then find_four_octet_asn (o_optional_params m) = Some (o_asn m)
       else o_asn m = field) /\
      (Forall known_param (o_optional_params m) -> params = concat (map param_to_bytes (o_optional_params m)))) /\
  forall m pad, Z.of_nat (length pad) mod 256 = 0 -> open_from_bytes bytes = Ok m ->
    open_from_bytes (bytes ++ pad) = Ok m.
Proof.
  split; [apply open_no_panic|]. unfold open_from_bytes.
  do 10 (destruct bytes as [|? bytes]; [by split|]). split.
  - intros m Hb. do 10 (apply Forall_cons in Hb as [? Hb]).
    rename z into version, z0 into a1, z1 into a2, z2 into h1, z3 into h2, z4 into i1, z5 into i2, z6 into i3,
      z7 into i4, z8 into len.
    destruct (Z.eqb_spec len (Z.of_nat (length bytes) mod 256)) as [El|]; [|done]. cbn [negb].
    apply mod_256_split in El as [Hle Hpad].
    unfold validate_version. destruct (Z.eqb_spec version BGP_VERSION) as [Ev|]; [|done]. cbn [mbind outcome_bind].
    unfold validate_hold_time. destruct (Z.eqb_spec (be_val [h1; h2]) 1); [done|].
    destruct (Z.eqb_spec (be_val [h1; h2]) 2); [done|]. cbn [orb mbind outcome_bind].
    unfold validate_bgp_identifier. destruct (Z.eqb_spec (be_val [i1; i2; i3; i4]) 0); [done|]. cbn [mbind outcome_bind].
    set (params := take (Z.to_nat len) bytes).
    assert (Z.of_nat (length params) = len) as Hlp by (unfold params, u8 in *; rewrite length_take; lia).
    destruct (if len =? 0 then Ok [] else read_optional_parameters params) as [ps| |] eqn:Ep; [|done..].
    cbn [mbind outcome_bind]. intros Hm.
    assert (exists asn, m = mkOpen version asn (be_val [h1; h2]) (be_val [i1; i2; i3; i4]) len ps /\
      (if be_val [a1; a2] =? AS_TRANS then find_four_octet_asn ps = Some asn else asn = be_val [a1; a2]))
      as (asn & -> & Hasn).
    { destruct (be_val [a1; a2] =? AS_TRANS).
      - destruct (find_four_octet_asn ps) as [asn|]; [|done]. injection Hm as <-. by exists asn.
      - injection Hm as <-. by eexists. }
    cbn [o_version o_asn o_hold_time o_bgp_identifier o_optional_params_len o_optional_params].
    split_and!; try done. exists (be_val [a1; a2]), params, (drop (Z.to_nat len) bytes).
    rewrite !be_bytes_val_2, be_bytes_val_4 by done.
    split_and!; [by rewrite <- (take_drop (Z.to_nat len) bytes) at 1|done|by rewrite length_drop|done|].
    intros Hk. destruct (Z.eqb_spec len 0) as [->|].
    + injection Ep as <-. by destruct params; [|cbn in Hlp; lia].
    + apply read_optional_parameters_sound; [by apply Forall_take|done|done].
  - intros m pad Hpad. cbn [app].
    destruct (Z.eqb_spec z8 (Z.of_nat (length bytes) mod 256)) as [El|]; [|done]. cbn [negb].
    assert (Z.of_nat (length (bytes ++ pad)) mod 256 = Z.of_nat (length bytes) mod 256) as ->.
    { rewrite length_app, Nat2Z.inj_add, Z.add_mod, Hpad, Z.add_0_r by done. by apply Z.mod_mod. }
    rewrite <- El, Z.eqb_refl. cbn [negb]. apply mod_256_split in El as [Hle _].
    by rewrite take_app_le by done.
Qed.
