(* ===== verification/Msg.v ===== *)
(** * Message framing, KEEPALIVE and ROUTE-REFRESH ([bgpgg/src/bgp/msg.rs],
    [bgpgg/src/bgp/msg_keepalive.rs], [bgpgg/src/bgp/msg_route_refresh.rs])

    A TCP stream is the list of the bytes that arrive before it ends;
    [eof_text] is the text of the I/O error at its end, which comes from the
    runtime.  [serialize] adds the header with wrapping [u16] arithmetic. *)
From S2P Require Import Prelude Wire Net Notification Nlri BgpLs Attrs OpenMsg.

Definition BGP_HEADER_SIZE_BYTES : nat := 19.
Definition MAX_MESSAGE_SIZE : Z := 4096.
Definition BGP_MARKER : list Z := replicate 16 0xff.

Inductive MessageType := MtOpen | MtUpdate | MtNotification | MtKeepalive | MtRouteRefresh.

Definition message_type_to_u8 (t : MessageType) : Z :=
  match t with MtOpen => 1 | MtUpdate => 2 | MtNotification => 3 | MtKeepalive => 4 | MtRouteRefresh => 5 end.
Definition bad_message_type (v : Z) : ParserError := BgpErr (EMessageHeader BadMessageType) [v].
Definition message_type_try_from (v : Z) : outcome ParserError MessageType :=
  if v =? 1 then Ok MtOpen else if v =? 2 then Ok MtUpdate else if v =? 3 then Ok MtNotification
  else if v =? 4 then Ok MtKeepalive else if v =? 5 then Ok MtRouteRefresh
  else Err (bad_message_type v).

(** [Message::serialize], from the kind and the body. *)
Definition serialize (kind : MessageType) (body : list Z) : list Z :=
  let length := (19 + Z.of_nat (length body) mod 2 ^ 16) mod 2 ^ 16 in
  BGP_MARKER ++ be_bytes 2 length ++ [message_type_to_u8 kind] ++ body.

Definition keepalive_to_bytes : list Z := [].

(** ** Reading *)
Definition validate_marker (header : list Z) : outcome ParserError () :=
  if decide (take 16 header = BGP_MARKER) then Ok ()
  else Err (BgpErr (EMessageHeader ConnectionNotSynchronized) []).

Definition validate_length (message_length message_type : Z) : outcome ParserError () :=
  let bad := Err (BgpErr (EMessageHeader BadMessageLength) (be_bytes 2 message_length)) in
  if message_length <? 19 then bad
  else if MAX_MESSAGE_SIZE <? message_length then bad
  else if (message_type =? message_type_to_u8 MtKeepalive) && negb (message_length =? 19) then bad
  else if (message_type =? message_type_to_u8 MtNotification) && (message_length <? 21) then bad
  else Ok ().

Definition validate_message_type (message_type : Z) : outcome ParserError () :=
  match message_type_try_from message_type with
  | Ok _ => Ok ()
  | Err _ => Err (bad_message_type message_type)
  | Panic => Panic
  end.

Section stream.
Variable eof_text : list Z.

Definition read_exact (n : nat) (stream : list Z) : outcome ParserError (list Z * list Z) :=
  if (length stream <? n)%nat then Err (IoError eof_text) else Ok (take n stream, drop n stream).

(** The message and what is left of the stream. *)
Definition read_bgp_message_bytes (stream : list Z) : outcome ParserError (list Z * list Z) :=
  '(header, stream) ← read_exact BGP_HEADER_SIZE_BYTES stream;
  _ ← validate_marker header;
  l1 ← index header 16;
  l2 ← index header 17;
  let message_length := be_val [l1; l2] in
  message_type ← index header 18;
  _ ← validate_length message_length message_type;
  _ ← validate_message_type message_type;
  let body_length := message_length - 19 in
  if 0 <? body_length then
    '(body, stream) ← read_exact (Z.to_nat body_length) stream;
    Ok (header ++ body, stream)
  else Ok (header, stream).

(** The read task of [TcpConnection::new]: what it sends to the peer, the
    error last.  Every message has at least the 19 bytes of its header, so
    the length of the stream bounds the number of turns. *)
Fixpoint read_loop (fuel : nat) (stream : list Z) : list (outcome ParserError (list Z)) :=
  match fuel with
  | O => []
  | S fuel =>
      match read_bgp_message_bytes stream with
      | Ok (bytes, stream) => Ok bytes :: read_loop fuel stream
      | Err e => [Err e]
      | Panic => [Panic]
      end
  end.
Definition read_task (stream : list Z) : list (outcome ParserError (list Z)) :=
  read_loop (S (length stream)) stream.
End stream.

(** ** ROUTE-REFRESH *)
Inductive RouteRefreshSubtype := Normal | BoRR | EoRR | RrsUnknown (v : Z).
Definition subtype_from (v : Z) : RouteRefreshSubtype :=
  if v =? 0 then Normal else if v =? 1 then BoRR else if v =? 2 then EoRR else RrsUnknown v.
Definition subtype_to_u8 (s : RouteRefreshSubtype) : Z :=
  match s with Normal => 0 | BoRR => 1 | EoRR => 2 | RrsUnknown v => v end.

#[export] Instance RouteRefreshSubtype_eq_dec : EqDecision RouteRefreshSubtype.
Proof. solve_decision. Defined.

Record RouteRefreshMessage := mkRouteRefresh {
  rr_afi : Afi; rr_safi : Safi; rr_subtype : RouteRefreshSubtype }.

Definition rr_new (a : Afi) (s : Safi) : RouteRefreshMessage := mkRouteRefresh a s Normal.
Definition rr_new_borr (a : Afi) (s : Safi) : RouteRefreshMessage := mkRouteRefresh a s BoRR.
Definition rr_new_eorr (a : Afi) (s : Safi) : RouteRefreshMessage := mkRouteRefresh a s EoRR.

(** An unknown family becomes the error [From<AfiSafiError>] gives, an UPDATE
    error. *)
Definition route_refresh_from_bytes (body full_msg : list Z) (enhanced_rr : bool)
    : outcome ParserError RouteRefreshMessage :=
  match body with
  | [a1; a2; s; f] =>
      let subtype := subtype_from s in
      match afi_try_from (be_val [a1; a2]), safi_try_from f with
      | Some af, Some sf => Ok (mkRouteRefresh af sf subtype)
      | _, _ => update_err OptionalAttributeError
      end
  | _ =>
      let is_borr_or_eorr :=
        match subtype_from <$> body !! 2%nat with Some (BoRR | EoRR) => true | _ => false end in
      if is_borr_or_eorr && enhanced_rr then Err (BgpErr (ERouteRefresh InvalidMessageLength) full_msg)
      else Err (BgpErr (EMessageHeader BadMessageLength) (be_bytes 2 (Z.of_nat (length body))))
  end.

Definition route_refresh_to_bytes (m : RouteRefreshMessage) : list Z :=
  be_bytes 2 (afi_to_u16 (rr_afi m)) ++ [subtype_to_u8 (rr_subtype m); safi_to_u8 (rr_safi m)].

(** ** Frames *)

(** A body that fits: the maximum size, and what the type asks for. *)
Definition frame_ok (kind : MessageType) (body : list Z) : Prop :=
  Z.of_nat (length body) <= 4096 - 19 /\
  match kind with
  | MtKeepalive => body = []
  | MtNotification => (2 <= length body)%nat
  | _ => True
  end.

Lemma message_type_roundtrip t : message_type_try_from (message_type_to_u8 t) = Ok t.
Proof. by destruct t. Qed.

Lemma serialize_header kind body :
  Z.of_nat (length body) <= 4096 - 19 ->
  exists l1 l2, serialize kind body = BGP_MARKER ++ [l1; l2; message_type_to_u8 kind] ++ body /\
    be_val [l1; l2] = 19 + Z.of_nat (length body).
Proof.
  intros Hb. unfold serialize. rewrite (Z.mod_small (Z.of_nat _)), Z.mod_small by lia.
  rewrite be_bytes_2. do 2 eexists. split; [done|]. apply be_val_2. unfold u16. lia.
Qed.

Lemma validate_length_ok kind body :
  frame_ok kind body -> validate_length (19 + Z.of_nat (length body)) (message_type_to_u8 kind) = Ok ().
Proof.
  intros [Hmax Hk]. unfold validate_length, MAX_MESSAGE_SIZE.
  destruct (Z.ltb_spec (19 + Z.of_nat (length body)) 19); [lia|].
  destruct (Z.ltb_spec 4096 (19 + Z.of_nat (length body))); [lia|].
  destruct kind; cbn [message_type_to_u8] in *; try done.
  - destruct (Z.ltb_spec (19 + Z.of_nat (length body)) 21); [lia|done].
  - by rewrite Hk.
Qed.

(** A frame that fits is read back whole, and nothing else of the stream. *)
Lemma read_serialize eof kind body rest :
  frame_ok kind body ->
  read_bgp_message_bytes eof (serialize kind body ++ rest) = Ok (serialize kind body, rest).
Proof.
  intros Hf. pose proof Hf as [Hmax _]. destruct (serialize_header kind body Hmax) as (l1 & l2 & -> & Hl).
  set (header := BGP_MARKER ++ [l1; l2; message_type_to_u8 kind]).
  assert ((BGP_MARKER ++ [l1; l2; message_type_to_u8 kind] ++ body) ++ rest = header ++ (body ++ rest)) as -> by reflexivity.
  unfold read_bgp_message_bytes, read_exact, BGP_HEADER_SIZE_BYTES.
  rewrite length_app. change (length header) with 19%nat.
  destruct (Nat.ltb_spec (19 + length (body ++ rest)) 19); [lia|].
  rewrite (take_app_length' header), (drop_app_length' header) by done. cbn [mbind outcome_bind].
  assert (validate_marker header = Ok ()) as -> by (unfold validate_marker; by rewrite decide_True).
  change (index header 16) with (Ok (E := ParserError) l1). change (index header 17) with (Ok (E := ParserError) l2).
  change (index header 18) with (Ok (E := ParserError) (message_type_to_u8 kind)).
  cbn [mbind outcome_bind]. rewrite Hl, validate_length_ok by done.
  unfold validate_message_type. rewrite message_type_roundtrip. cbn [mbind outcome_bind].
  replace (19 + Z.of_nat (length body) - 19) with (Z.of_nat (length body)) by lia.
  destruct (Z.ltb_spec 0 (Z.of_nat (length body))).
  - rewrite Nat2Z.id, length_app. destruct (Nat.ltb_spec (length body + length rest) (length body)); [lia|].
    rewrite (take_app_length body), (drop_app_length body). reflexivity.
  - destruct body; [|cbn in *; lia]. unfold header. by rewrite app_nil_r.
Qed.

Lemma index_Some {E A} (l : list A) i : (i < length l)%nat -> exists x, l !! i = Some x /\ index (E := E) l i = Ok x.
Proof. intros [x Hx]%lookup_lt_is_Some. exists x. unfold index. by rewrite Hx. Qed.

Lemma message_type_try_from_Ok v t : message_type_try_from v = Ok t -> message_type_to_u8 t = v.
Proof. unfold message_type_try_from. repeat case_match; bool_props; intros [= <-]; by subst. Qed.

Lemma header_split (header : list Z) :
  length header = 19%nat -> take 16 header = BGP_MARKER ->
  exists l1 l2 t, header = BGP_MARKER ++ [l1; l2; t].
Proof.
  intros Hl Hm. rewrite <- (take_drop 16 header), Hm.
  assert (length (drop 16 header) = 3%nat) as Hd by (rewrite length_drop; lia).
  destruct (drop 16 header) as [|l1 [|l2 [|t []]]]; try done. by exists l1, l2, t.
Qed.

(** The three outcomes of reading a message. *)
Lemma read_message_cases eof stream :
  bytes_ok stream ->
  match read_bgp_message_bytes eof stream with
  | Ok (msg, rest) => exists kind body, frame_ok kind body /\ msg = serialize kind body /\ stream = msg ++ rest
  | Err (IoError e) => e = eof
  | Err (BgpErr e _) => exists h, e = EMessageHeader h
  | Panic => False
  end.
Proof.
  intros Hb. unfold read_bgp_message_bytes, read_exact, BGP_HEADER_SIZE_BYTES.
  destruct (Nat.ltb_spec (length stream) 19); [cbn; done|]. cbn [mbind outcome_bind].
  unfold validate_marker. destruct (decide (take 16 (take 19 stream) = BGP_MARKER)) as [Em|]; [|cbn; by eexists].
  destruct (header_split (take 19 stream)) as (l1 & l2 & t & Eh); [rewrite length_take; lia|done|].
  assert (stream = (BGP_MARKER ++ [l1; l2; t]) ++ drop 19 stream) as Es by (by rewrite <- Eh, take_drop).
  assert (bytes_ok ((BGP_MARKER ++ [l1; l2; t]) ++ drop 19 stream)) as Hb' by (by rewrite <- Es).
  apply Forall_app in Hb' as [Hh Hb']. apply Forall_app in Hh as [_ Hh].
  apply Forall_cons in Hh as [H1 Hh]. apply Forall_cons in Hh as [H2 _].
  rewrite Eh. change (index (BGP_MARKER ++ [l1; l2; t]) 16) with (Ok (E := ParserError) l1).
  change (index (BGP_MARKER ++ [l1; l2; t]) 17) with (Ok (E := ParserError) l2).
  change (index (BGP_MARKER ++ [l1; l2; t]) 18) with (Ok (E := ParserError) t). cbn [mbind outcome_bind].
  pose proof (be_bytes_val_2 l1 l2 H1 H2) as Hl. set (len := be_val [l1; l2]) in *.
  unfold validate_length, MAX_MESSAGE_SIZE. destruct (Z.ltb_spec len 19); [cbn; by eexists|].
  destruct (Z.ltb_spec 4096 len); [cbn; by eexists|].
  destruct ((t =? message_type_to_u8 MtKeepalive) && negb (len =? 19)) eqn:Ek; [cbn; by eexists|].
  destruct ((t =? message_type_to_u8 MtNotification) && (len <? 21)) eqn:En; [cbn; by eexists|].
  cbn [mbind outcome_bind]. unfold validate_message_type.
  destruct (message_type_try_from t) as [kind| |] eqn:Et; [|cbn; by eexists|by unfold message_type_try_from in Et; repeat case_match].
  apply message_type_try_from_Ok in Et. cbn [mbind outcome_bind].
  assert (forall body rest, drop 19 stream = body ++ rest -> Z.of_nat (length body) = len - 19 ->
    exists kind body', frame_ok kind body' /\ (BGP_MARKER ++ [l1; l2; t]) ++ body = serialize kind body' /\
      stream = ((BGP_MARKER ++ [l1; l2; t]) ++ body) ++ rest) as Hok.
  { intros body rest Hd Hlen. exists kind, body. split_and!.
    - split; [lia|]. subst t. clearbody len. destruct kind; try done.
      + change ((true && (len <? 21)) = false) in En. cbn [andb] in En. apply Z.ltb_ge in En. lia.
      + change ((true && negb (len =? 19)) = false) in Ek. cbn [andb] in Ek.
        apply negb_false_iff, Z.eqb_eq in Ek. destruct body; [done|]. cbn [length] in Hlen. lia.
    - unfold serialize. rewrite (Z.mod_small (Z.of_nat _)), Z.mod_small by lia.
      replace (19 + Z.of_nat (length body)) with len by lia. rewrite Hl. by subst t.
    - rewrite <- app_assoc, <- Hd. done. }
  destruct (Z.ltb_spec 0 (len - 19)).
  - destruct (Nat.ltb_spec (length (drop 19 stream)) (Z.to_nat (len - 19))); [cbn; done|].
    cbn [mbind outcome_bind]. apply Hok; [by rewrite take_drop|]. rewrite length_take. lia.
  - specialize (Hok [] (drop 19 stream) eq_refl). rewrite !app_nil_r in Hok. apply Hok. clearbody len. cbn [length]. lia.
Qed.

Definition frame (f : MessageType * list Z) : list Z := serialize f.1 f.2.

Lemma read_short eof stream :
  (length stream < 19)%nat -> read_bgp_message_bytes eof stream = Err (IoError eof).
Proof. intros H. unfold read_bgp_message_bytes, read_exact, BGP_HEADER_SIZE_BYTES. by destruct (Nat.ltb_spec (length stream) 19); [|lia]. Qed.

Lemma frame_length kind body : length (serialize kind body) = (19 + length body)%nat.
Proof. unfold serialize. rewrite !length_app, length_be_bytes. reflexivity. Qed.

Lemma read_loop_frames eof frames fuel tail :
  Forall (fun f => frame_ok f.1 f.2) frames -> (length tail < 19)%nat -> (length frames < fuel)%nat ->
  read_loop eof fuel (concat (frame <$> frames) ++ tail) = (Ok <$> (frame <$> frames)) ++ [Err (IoError eof)].
Proof.
  intros Hf. revert fuel. induction Hf as [|[k b] frames Hf Hrest IH]; intros [|fuel] Ht Hfuel; cbn [length] in Hfuel; try lia.
  - cbn. by rewrite read_short.
  - rewrite !fmap_cons. cbn [concat]. rewrite <- app_assoc. cbn [read_loop]. unfold frame at 1. rewrite read_serialize by done.
    rewrite IH by (done || lia). done.
Qed.

Lemma concat_frames_length frames : (length frames <= length (concat (frame <$> frames)))%nat.
Proof.
  induction frames as [|[k b] frames IH]; [done|]. rewrite fmap_cons. cbn [concat length].
  rewrite length_app. unfold frame at 1. rewrite frame_length. lia.
Qed.

(** C32. The read task splits a stream where the senders put the boundaries:
    on the serialised messages of any sequence, each with a body that fits,
    followed by the rest of a header that never completes, it delivers
    exactly those messages, byte for byte and in order, then the I/O error
    of the end of the stream, and stops. *)
Theorem read_task_frames eof frames tail :
  Forall (fun f => frame_ok f.1 f.2) frames -> (length tail < BGP_HEADER_SIZE_BYTES)%nat ->
  read_task eof (concat (frame <$> frames) ++ tail) =
    (Ok <$> (frame <$> frames)) ++ [Err (IoError eof)].
Proof.
  intros Hf Ht. unfold BGP_HEADER_SIZE_BYTES in Ht. apply read_loop_frames; [done..|].
  rewrite length_app. pose proof (concat_frames_length frames). lia.
Qed.

Lemma read_task_frames_witness :
  let frames := [(MtKeepalive, keepalive_to_bytes); (MtRouteRefresh, [0; 1; 0; 1])] in
  read_task [69] (concat (frame <$> frames) ++ [255; 255]) =
    [Ok (serialize MtKeepalive []); Ok (serialize MtRouteRefresh [0; 1; 0; 1]); Err (IoError [69])].
Proof.
  refine (read_task_frames [69] [(MtKeepalive, keepalive_to_bytes); (MtRouteRefresh, [0; 1; 0; 1])] [255; 255] _ _).
  - repeat apply List.Forall_cons; [| |apply List.Forall_nil]; (split; [cbn; lia|done]).
  - cbn. unfold BGP_HEADER_SIZE_BYTES. lia.
Defined.

(** What the read task delivers on any stream. *)
Lemma read_loop_sound eof fuel stream :
  bytes_ok stream -> (length stream < fuel)%nat ->
  exists frames tail last, Forall (fun f => frame_ok f.1 f.2) frames /\
    stream = concat (frame <$> frames) ++ tail /\
    read_loop eof fuel stream = (Ok <$> (frame <$> frames)) ++ [Err last] /\
    read_bgp_message_bytes eof tail = Err last /\
    (last = IoError eof \/ exists h data, last = BgpErr (EMessageHeader h) data).
Proof.
  revert stream. induction fuel as [|fuel IH]; intros stream Hb Hfuel; [lia|]. cbn [read_loop].
  pose proof (read_message_cases eof stream Hb) as Hc.
  destruct (read_bgp_message_bytes eof stream) as [[msg rest]|e|] eqn:Er; [| |done].
  - destruct Hc as (k & b & Hf & -> & ->). apply Forall_app in Hb as [_ Hb].
    rewrite length_app, frame_length in Hfuel.
    destruct (IH rest Hb) as (frames & tail & last & Hfs & -> & -> & Ht & Hl); [lia|].
    exists ((k, b) :: frames), tail, last. rewrite !fmap_cons. cbn [concat]. rewrite <- app_assoc.
    split_and!; [by constructor|done|done|done|done].
  - exists [], stream, e. split_and!; [by constructor|done|done|done|].
    destruct e; [left; by rewrite Hc|right; destruct Hc as [h ->]; by eexists _, _].
Qed.

(** On any stream of bytes, however malformed, the read task ends, never
    panics, and what it delivers is a prefix of the stream cut at message
    boundaries: each message delivered is the serialisation of a type the
    speaker knows with a body whose length that type allows.  It ends in one
    error, which is the one the rest of the stream gives, and is the end of
    the stream or a Message Header Error. *)
Theorem read_task_sound eof stream :
  bytes_ok stream ->
  exists frames tail last, Forall (fun f => frame_ok f.1 f.2) frames /\
    stream = concat (frame <$> frames) ++ tail /\
    read_task eof stream = (Ok <$> (frame <$> frames)) ++ [Err last] /\
    read_bgp_message_bytes eof tail = Err last /\
    (last = IoError eof \/ exists h data, last = BgpErr (EMessageHeader h) data).
Proof. intros Hb. apply read_loop_sound; [done|lia]. Qed.

Lemma read_task_sound_witness :
  let stream := serialize MtKeepalive [] ++ replicate 18 255 ++ [4] in
  read_task [69] stream = [Ok (serialize MtKeepalive []); Err (BgpErr (EMessageHeader BadMessageLength) [255; 255])] /\
  exists frames tail last, Forall (fun f => frame_ok f.1 f.2) frames /\
    stream = concat (frame <$> frames) ++ tail /\
    read_task [69] stream = (Ok <$> (frame <$> frames)) ++ [Err last] /\
    read_bgp_message_bytes [69] tail = Err last /\
    (last = IoError [69] \/ exists h data, last = BgpErr (EMessageHeader h) data).
Proof.
  split; [vm_compute; reflexivity|]. apply read_task_sound. apply (bool_decide_unpack _). vm_compute. exact I.
Defined.

(** A subtype the decoder produces: [Unknown] holds no code of its own. *)
Definition subtype_ok (s : RouteRefreshSubtype) : Prop :=
  match s with RrsUnknown v => 3 <= v < 256 | _ => True end.

Lemma subtype_from_to s : subtype_ok s -> subtype_from (subtype_to_u8 s) = s.
Proof. destruct s; cbn [subtype_ok subtype_to_u8]; try done. intros H. unfold subtype_from. repeat case_match; bool_props; try lia; done. Qed.
Lemma subtype_to_from v : subtype_to_u8 (subtype_from v) = v.
Proof. unfold subtype_from. repeat case_match; bool_props; by subst. Qed.

Lemma afi_try_from_Some v a : afi_try_from v = Some a -> afi_to_u16 a = v.
Proof. unfold afi_try_from. repeat case_match; intros [= <-]; bool_props; by subst. Qed.
Lemma safi_try_from_Some v s : safi_try_from v = Some s -> safi_to_u8 s = v.
Proof. unfold safi_try_from. repeat case_match; intros [= <-]; bool_props; by subst. Qed.

(** ROUTE-REFRESH decoding is exact.  A message of any family and any
    subtype survives its encoding, whether or not Enhanced Route Refresh was
    negotiated; every body of bytes that is accepted is the encoding of what
    was decoded; and a body that is not four bytes long is refused: with the
    whole message as data when it says BoRR or EoRR in such a session, as a
    bad length otherwise. *)
Theorem route_refresh_codec full enhanced :
  (forall m, subtype_ok (rr_subtype m) ->
    route_refresh_from_bytes (route_refresh_to_bytes m) full enhanced = Ok m) /\
  (forall body m, bytes_ok body -> route_refresh_from_bytes body full enhanced = Ok m ->
    route_refresh_to_bytes m = body) /\
  (forall body, length body <> 4%nat ->
    route_refresh_from_bytes body full enhanced =
      if enhanced && bool_decide (body !! 2%nat = Some 1 \/ body !! 2%nat = Some 2)
      then Err (BgpErr (ERouteRefresh InvalidMessageLength) full)
      else Err (BgpErr (EMessageHeader BadMessageLength) (be_bytes 2 (Z.of_nat (length body))))).
Proof.
  split_and!.
  - intros [a s t] Ht. unfold route_refresh_to_bytes. rewrite be_bytes_2.
    cbn [app route_refresh_from_bytes rr_afi rr_safi rr_subtype] in *.
    rewrite be_val_2 by (destruct a; unfold u16; cbn; lia). rewrite subtype_from_to by done. by destruct a, s.
  - intros body m Hb. destruct body as [|b1 [|b2 [|b3 [|b4 []]]]]; cbn [route_refresh_from_bytes]; try (by case_match).
    destruct (afi_try_from _) as [a|] eqn:Ea; [|done]. destruct (safi_try_from _) as [s|] eqn:Es; [|done].
    intros [= <-]. unfold route_refresh_to_bytes. cbn [rr_afi rr_safi rr_subtype].
    apply Forall_cons in Hb as [H1 Hb]. apply Forall_cons in Hb as [H2 _].
    rewrite (afi_try_from_Some _ _ Ea), (safi_try_from_Some _ _ Es), subtype_to_from, be_bytes_val_2 by done. done.
  - intros body Hl. destruct body as [|b1 [|b2 [|b3 body]]]; [by destruct enhanced..|].
    assert (route_refresh_from_bytes (b1 :: b2 :: b3 :: body) full enhanced =
      if (match subtype_from b3 with BoRR | EoRR => true | _ => false end) && enhanced
      then Err (BgpErr (ERouteRefresh InvalidMessageLength) full)
      else Err (BgpErr (EMessageHeader BadMessageLength) (be_bytes 2 (Z.of_nat (length (b1 :: b2 :: b3 :: body)))))) as ->
      by (destruct body as [|b4 []]; [done|by destruct Hl|done]).
    rewrite andb_comm. f_equal. cbn [lookup list_lookup]. unfold subtype_from.
    destruct (Z.eqb_spec b3 0) as [->|]; [by destruct enhanced|].
    destruct (Z.eqb_spec b3 1) as [->|]; [by destruct enhanced|].
    destruct (Z.eqb_spec b3 2) as [->|]; [by destruct enhanced|].
    rewrite bool_decide_eq_false_2; [done|]. by intros [[= ?]|[= ?]].
Qed.
