(* ===== verification/Path.v ===== *)
(** * Paths, routes and best-path selection ([bgpgg/src/rib/path.rs],
    [bgpgg/src/rib/types.rs], [merge_as_paths] of
    [bgpgg/src/bgp/msg_update_codec.rs], [AddPathMask] and
    [MessageFormat] of [bgpgg/src/bgp/msg.rs])

    [Arc<Path>] values are compared by address in the Loc-RIB, so a path in a
    table is a [PathRef]: an address and the path stored there.  The inner
    [Arc<PathAttrs>] is only compared by value and is not modelled. *)
From S2P Require Import Prelude Net Vrp Notification Nlri BgpLs Attrs.

(** ** Route keys and sources *)
Inductive RouteKey := KPrefix (p : IpNetwork) | KLinkState (n : LsNlri).

#[export] Instance RouteKey_eq_dec : EqDecision RouteKey.
Proof. solve_decision. Defined.
#[export] Instance RouteKey_countable : Countable RouteKey.
Proof.
  apply (inj_countable' (fun k => match k with KPrefix p => inl p | KLinkState n => inr n end)
    (fun s => match s with inl p => KPrefix p | inr n => KLinkState n end)).
  by intros [].
Defined.

Definition key_afi_safi (k : RouteKey) : AfiSafi :=
  match k with
  | KPrefix prefix => network_afi_safi prefix
  | KLinkState nlri => mkAfiSafi Afi_LinkState (ls_safi nlri)
  end.

(** A route key and the remote path id to withdraw ([None]: all paths). *)
Definition Withdrawal : Type := RouteKey * option Z.

Fixpoint split_withdrawals (withdrawn : list Withdrawal) : list Nlri * list LsNlri * list LsNlri :=
  match withdrawn with
  | [] => ([], [], [])
  | (key, path_id) :: rest =>
      let '(ip, ls, vpn) := split_withdrawals rest in
      match key with
      | KPrefix prefix => (mkNlri prefix path_id :: ip, ls, vpn)
      | KLinkState nlri => if is_vpn nlri then (ip, ls, nlri :: vpn) else (ip, nlri :: ls, vpn)
      end
  end.

Inductive RouteSource :=
  | Ebgp (peer_ip : IpAddr) (bgp_id : Z)
  | Ibgp (peer_ip : IpAddr) (bgp_id : Z) (rr_client : bool)
  | Local.

#[export] Instance RouteSource_eq_dec : EqDecision RouteSource.
Proof. solve_decision. Defined.
#[export] Instance RouteSource_countable : Countable RouteSource.
Proof.
  apply (inj_countable'
    (fun s => match s with Ebgp ip id => Some (ip, id, None) | Ibgp ip id c => Some (ip, id, Some c)
              | Local => None end)
    (fun o => match o with Some (ip, id, None) => Ebgp ip id | Some (ip, id, Some c) => Ibgp ip id c
              | None => Local end)). by intros [].
Defined.

Inductive SessionType := SEbgp | SIbgp.

Definition source_from_session (t : SessionType) (peer_ip : IpAddr) (bgp_id : Z)
    (rr_client : bool) : RouteSource :=
  match t with SEbgp => Ebgp peer_ip bgp_id | SIbgp => Ibgp peer_ip bgp_id rr_client end.

Definition is_rr_client (s : RouteSource) : bool :=
  match s with Ibgp _ _ rr_client => rr_client | _ => false end.
Definition is_ibgp (s : RouteSource) : bool := match s with Ibgp _ _ _ => true | _ => false end.
Definition is_ebgp (s : RouteSource) : bool := match s with Ebgp _ _ => true | _ => false end.
Definition is_local (s : RouteSource) : bool := match s with Local => true | _ => false end.
Definition source_bgp_id (s : RouteSource) : option Z :=
  match s with Ebgp _ id | Ibgp _ id _ => Some id | Local => None end.
Definition source_peer_ip (s : RouteSource) : option IpAddr :=
  match s with Ebgp ip _ | Ibgp ip _ _ => Some ip | Local => None end.

(** ** Paths *)
Record PathAttrs := mkAttrs {
  pa_origin : Origin;
  pa_as_path : list AsPathSegment;
  pa_next_hop : NextHopAddr;
  pa_source : RouteSource;
  pa_local_pref : option Z;
  pa_med : option Z;
  pa_atomic_aggregate : bool;
  pa_aggregator : option Aggregator;
  pa_communities : list Z;
  pa_extended_communities : list Z;
  pa_large_communities : list LargeCommunity;
  pa_unknown_attrs : list PathAttribute;
  pa_originator_id : option Z;
  pa_cluster_list : list Z;
  pa_ls_attr : option LsAttr;
}.

#[export] Instance PathAttrs_eq_dec : EqDecision PathAttrs.
Proof. solve_decision. Defined.

Record Path := mkPath {
  local_path_id : option Z;
  remote_path_id : option Z;
  attrs : PathAttrs;
  stale : bool;
  rpki_state : RpkiValidation;
}.

#[export] Instance Path_eq_dec : EqDecision Path.
Proof. solve_decision. Defined.

Definition set_local_path_id (id : option Z) (p : Path) : Path :=
  mkPath id (remote_path_id p) (attrs p) (stale p) (rpki_state p).
Definition set_attrs (a : PathAttrs) (p : Path) : Path :=
  mkPath (local_path_id p) (remote_path_id p) a (stale p) (rpki_state p).
Definition set_stale (b : bool) (p : Path) : Path :=
  mkPath (local_path_id p) (remote_path_id p) (attrs p) b (rpki_state p).
Definition set_rpki_state (s : RpkiValidation) (p : Path) : Path :=
  mkPath (local_path_id p) (remote_path_id p) (attrs p) (stale p) s.

(** An [Arc<Path>]. *)
Record PathRef := mkRef { ref_ptr : Z; ref_path : Path }.

#[export] Instance PathRef_eq_dec : EqDecision PathRef.
Proof. solve_decision. Defined.

Record Route := mkRoute { route_key : RouteKey; paths : list PathRef }.
Record RoutePath := mkRoutePath { rp_key : RouteKey; rp_path : PathRef }.

(** The accessor the code uses most. *)
Definition is_from_peer (p : Path) (peer_ip : IpAddr) : bool :=
  bool_decide (source_peer_ip (pa_source (attrs p)) = Some peer_ip).

(** Per-family bits of the ADD-PATH mask. *)
Definition add_path_bit (a : AfiSafi) : Z :=
  match afi a, safi a with
  | Afi_Ipv4, Unicast => Z.shiftl 1 0
  | Afi_Ipv6, Unicast => Z.shiftl 1 1
  | Afi_Ipv4, Multicast => Z.shiftl 1 2
  | Afi_Ipv6, Multicast => Z.shiftl 1 3
  | Afi_Ipv4, MplsLabel => Z.shiftl 1 4
  | Afi_Ipv6, MplsLabel => Z.shiftl 1 5
  | Afi_LinkState, Safi_LinkState => Z.shiftl 1 6
  | Afi_LinkState, LinkStateVpn => Z.shiftl 1 7
  | _, _ => 0
  end.
Definition mask_with (m : Z) (a : AfiSafi) : Z := Z.lor m (add_path_bit a).
Definition mask_contains (m : Z) (a : AfiSafi) : bool := negb (Z.land m (add_path_bit a) =? 0).
Definition mask_is_empty (m : Z) : bool := m =? 0.

(** The encoding of a session's messages. *)
Record MessageFormat := mkFormat {
  use_4byte_asn : bool; mf_add_path : Z; mf_is_ebgp : bool; enhanced_rr : bool }.
Definition PRE_OPEN_FORMAT : MessageFormat := mkFormat false 0 false false.

Definition path_id_for (p : Path) (add_path : Z) (a : AfiSafi) : option Z :=
  if mask_contains add_path a then local_path_id p else None.

Definition matches_remote (p other : Path) : bool :=
  bool_decide (pa_source (attrs p) = pa_source (attrs other)) &&
  bool_decide (remote_path_id p = remote_path_id other).

(** ** AS paths *)
Definition segment_length (s : AsPathSegment) : nat :=
  match segment_type s with
  | AsSequence => length (asn_list s)
  | AsSet => 1
  | AsConfedSequence | AsConfedSet => 0
  end.

Definition as_path_length (p : Path) : nat :=
  sum_list_with segment_length (pa_as_path (attrs p)).

Fixpoint first_sequence_asn (segments : list AsPathSegment) : option Z :=
  match segments with
  | [] => None
  | segment :: rest =>
      match segment_type segment, asn_list segment with
      | AsSequence, asn :: _ => Some asn
      | _, _ => first_sequence_asn rest
      end
  end.
Definition neighboring_as (p : Path) : option Z := first_sequence_asn (pa_as_path (attrs p)).

Definition path_origin_as (p : Path) : option Z :=
  seg ← last (pa_as_path (attrs p));
  match segment_type seg with
  | AsSequence => last (asn_list seg)
  | _ => Some 0
  end.

Definition is_confed_segment (t : AsPathSegmentType) : bool :=
  match t with AsConfedSequence | AsConfedSet => true | _ => false end.

Definition count_non_confed_asns (path : AsPath) : nat :=
  sum_list_with (fun s => length (asn_list s))
    (filter (fun s => is_confed_segment (segment_type s) = false) path).

(** The first loop of [merge_as_paths]: [prepended] counts up to
    [prepend_count]; the lengths are u8 casts. *)
Fixpoint prepend_segments (prepend_count prepended : nat) (segments : AsPath) : AsPath :=
  match segments with
  | [] => []
  | segment :: rest =>
      if is_confed_segment (segment_type segment) then
        if (prepended <? prepend_count)%nat
        then segment :: prepend_segments prepend_count prepended rest else []
      else if (prepended <? prepend_count)%nat then
        let take_count := Nat.min (prepend_count - prepended) (length (asn_list segment)) in
        if (0 <? take_count)%nat then
          mkSegment (segment_type segment) (Z.of_nat take_count mod 2 ^ 8)
            (take take_count (asn_list segment))
          :: prepend_segments prepend_count (prepended + take_count) rest
        else prepend_segments prepend_count prepended rest
      else []
  end.

Definition merge_as_paths (as_path as4_path : AsPath) : AsPath :=
  let as_path_count := count_non_confed_asns as_path in
  let as4_path_count := count_non_confed_asns as4_path in
  if (as_path_count <? as4_path_count)%nat then as_path
  else
    let prepend_count := (as_path_count - as4_path_count)%nat in
    prepend_segments prepend_count 0 as_path ++
    filter (fun s => is_confed_segment (segment_type s) = false) as4_path.

(** ** Best-path selection: [Gt] means that the first path is better *)
Definition best_path_cmp (self other : Path) : comparison :=
  let a := attrs self in
  let b := attrs other in
  let self_llgr := bool_decide (LLGR_STALE ∈ pa_communities a) in
  let other_llgr := bool_decide (LLGR_STALE ∈ pa_communities b) in
  if negb (Bool.eqb self_llgr other_llgr) then (if other_llgr then Gt else Lt)
  else
    match Z.compare (default 100 (pa_local_pref a)) (default 100 (pa_local_pref b)) with
    | Gt => Gt
    | Lt => Lt
    | Eq =>
      match Nat.compare (as_path_length other) (as_path_length self) with
      | Gt => Gt
      | Lt => Lt
      | Eq =>
        match Z.compare (origin_to_u8 (pa_origin b)) (origin_to_u8 (pa_origin a)) with
        | Gt => Gt
        | Lt => Lt
        | Eq =>
          let med_order :=
            if bool_decide (neighboring_as self = neighboring_as other)
            then Z.compare (default 0 (pa_med b)) (default 0 (pa_med a)) else Eq in
          match med_order with
          | Gt => Gt
          | Lt => Lt
          | Eq =>
            match pa_source a, pa_source b with
            | Ebgp _ _, Ibgp _ _ _ => Gt
            | Ibgp _ _ _, Ebgp _ _ => Lt
            | Local, (Ebgp _ _ | Ibgp _ _ _) => Gt
            | (Ebgp _ _ | Ibgp _ _ _), Local => Lt
            | _, _ =>
              match Nat.compare (length (pa_cluster_list b)) (length (pa_cluster_list a)) with
              | Gt => Gt
              | Lt => Lt
              | Eq =>
                let originator_order :=
                  match pa_source a, pa_source b with
                  | Ibgp _ self_bgp_id _, Ibgp _ other_bgp_id _ =>
                      Z.compare (default other_bgp_id (pa_originator_id b))
                        (default self_bgp_id (pa_originator_id a))
                  | _, _ => Eq
                  end in
                match originator_order with
                | Gt => Gt
                | Lt => Lt
                | Eq =>
                    match pa_source a, pa_source b with
                    | Ebgp _ id_a, Ebgp _ id_b => Z.compare id_b id_a
                    | Ibgp _ id_a _, Ibgp _ id_b _ => Z.compare id_b id_a
                    | _, _ => Eq
                    end
                end
              end
            end
          end
        end
      end
    end.

(** Best first: [route.paths.sort_by(|a, b| b.best_path_cmp(a))].  [None]: the
    sort panics, which it may when the comparison is not transitive. *)
Definition sort_paths `{SortBy} (l : list PathRef) : option (list PathRef) :=
  sort_by (fun a b => best_path_cmp (ref_path b) (ref_path a)) l.

(** ** The order as a lexicographic rank

    Larger is better at every position.  [m] tells whether the MED counts. *)
Definition source_class (s : RouteSource) : Z :=
  match s with Local => 2 | Ebgp _ _ => 1 | Ibgp _ _ _ => 0 end.

Definition originator (a : PathAttrs) : Z :=
  match pa_source a with Ibgp _ id _ => default id (pa_originator_id a) | _ => 0 end.

Definition rank (m : bool) (p : Path) : list Z :=
  let a := attrs p in
  [ if bool_decide (LLGR_STALE ∈ pa_communities a) then 0 else 1;
    default 100 (pa_local_pref a);
    - Z.of_nat (as_path_length p);
    - origin_to_u8 (pa_origin a);
    if m then - default 0 (pa_med a) else 0;
    source_class (pa_source a);
    - Z.of_nat (length (pa_cluster_list a));
    - originator a;
    - default 0 (source_bgp_id (pa_source a)) ].

Lemma compare_opp x y : Z.compare (- x) (- y) = Z.compare y x.
Proof. apply Z.compare_opp. Qed.

(** The next comparison both sides make. *)
#[local] Ltac compare_step :=
  match goal with
  | |- context [bool_decide (LLGR_STALE ∈ ?l)] => destruct (bool_decide (LLGR_STALE ∈ l))
  | |- match ?c with Eq => _ | Lt => _ | Gt => _ end = _ => destruct c
  | |- match (if ?c then _ else _) with Eq => _ | Lt => _ | Gt => _ end = _ => destruct c
  end.

Lemma best_path_cmp_rank a b :
  let m := bool_decide (neighboring_as a = neighboring_as b) in
  best_path_cmp a b = lexcmp (rank m a) (rank m b).
Proof.
  intros m. unfold best_path_cmp, rank. fold m. clearbody m.
  rewrite <- !Nat2Z.inj_compare || rewrite !Nat2Z.inj_compare. destruct m; cbn [lexcmp]; rewrite !compare_opp.
  all:
  repeat (compare_step; cbn [Bool.eqb negb Z.compare Pos.compare Pos.compare_cont];
    rewrite ?compare_opp, ?Z.compare_refl; try reflexivity).
  all: unfold originator, source_class, source_bgp_id;
    destruct (pa_source (attrs a)), (pa_source (attrs b)); cbn; try reflexivity;
    repeat (compare_step; try reflexivity).
  all: match goal with |- ?c = _ => by destruct c end.
Qed.

Lemma best_path_cmp_antisym a b : best_path_cmp b a = CompOpp (best_path_cmp a b).
Proof.
  rewrite !best_path_cmp_rank.
  rewrite (bool_decide_ext (neighboring_as b = neighboring_as a) (neighboring_as a = neighboring_as b))
    by (split; congruence).
  apply lexcmp_antisym.
Qed.

(** A collection of paths on which the MED is comparable, or does not
    matter. *)
Definition med_comparable (l : list Path) : Prop :=
  forall a b, a ∈ l -> b ∈ l ->
    neighboring_as a = neighboring_as b \/
    default 0 (pa_med (attrs a)) = default 0 (pa_med (attrs b)).

Lemma med_comparable_rank l a b :
  med_comparable l -> a ∈ l -> b ∈ l -> best_path_cmp a b = lexcmp (rank true a) (rank true b).
Proof.
  intros Hl Ha Hb. rewrite best_path_cmp_rank. case_bool_decide as Hn; [done|].
  destruct (Hl a b Ha Hb) as [|Hm]; [done|]. unfold rank. rewrite Hm. cbn [lexcmp].
  by rewrite !Z.compare_refl.
Qed.

Lemma med_comparable_preorder l :
  med_comparable l -> cmp_preorder best_path_cmp (fun p => p ∈ l).
Proof.
  intros Hl. split.
  - intros a b _ _. apply best_path_cmp_antisym.
  - intros a b c Ha Hb Hc. rewrite !(med_comparable_rank l) by done. apply lexcmp_trans.
Qed.

(** [p] comes before [q]: [q] does not beat it. *)
Definition no_worse (p q : PathRef) : Prop := best_path_cmp (ref_path q) (ref_path p) <> Gt.

Lemma sort_paths_preorder (l : list PathRef) :
  med_comparable (map ref_path l) ->
  cmp_preorder (fun a b => best_path_cmp (ref_path b) (ref_path a)) (fun r => r ∈ l).
Proof.
  intros Hl. assert (forall r, r ∈ l -> ref_path r ∈ map ref_path l) as Hin
    by (intros r Hr; apply list_elem_of_fmap; eauto).
  destruct (med_comparable_preorder _ Hl) as [_ Ht]. split.
  - intros a b _ _. apply best_path_cmp_antisym.
  - intros a b c Ha Hb Hc' H1 H2. apply (Ht (ref_path c) (ref_path b) (ref_path a)); auto.
Qed.

(** Comparable paths are sorted without a panic. *)
Lemma sort_paths_comparable `{SortBy} l :
  med_comparable (map ref_path l) ->
  sort_paths l = Some (insertion_sort (fun a b => best_path_cmp (ref_path b) (ref_path a)) l).
Proof. intros Hl. by apply sort_by_preorder, sort_paths_preorder. Qed.

Lemma sort_paths_sorted `{SortBy} l l' :
  med_comparable (map ref_path l) -> sort_paths l = Some l' -> StronglySorted no_worse l'.
Proof. intros Hl. by apply sort_by_sorted, sort_paths_preorder. Qed.

Lemma sort_paths_perm `{SortBy} l l' : sort_paths l = Some l' -> l' ≡ₚ l.
Proof. apply sort_by_perm. Qed.

Lemma sorted_head_best l p rest :
  StronglySorted no_worse l -> l = p :: rest -> forall q, q ∈ l -> no_worse p q.
Proof.
  intros Hs -> q [->|Hq]%elem_of_cons.
  - unfold no_worse. rewrite best_path_cmp_rank, lexcmp_refl. done.
  - apply StronglySorted_inv in Hs as [_ Hall]. rewrite Forall_forall in Hall. by apply Hall.
Qed.

(** Sorting puts a best path first: nothing in the list beats it. *)
Lemma sort_paths_best `{SortBy} l p rest :
  med_comparable (map ref_path l) -> sort_paths l = Some (p :: rest) ->
  forall q, q ∈ l -> best_path_cmp (ref_path q) (ref_path p) <> Gt.
Proof.
  intros Hl Hs q Hq. apply (sorted_head_best (p :: rest) p rest); [by eapply sort_paths_sorted|done|].
  by rewrite (sort_paths_perm _ _ Hs).
Qed.

(** ** Merging AS_PATH and AS4_PATH *)
Definition non_confed_asns (path : AsPath) : list Z :=
  concat (map asn_list (filter (fun s => is_confed_segment (segment_type s) = false) path)).

Lemma count_non_confed path : count_non_confed_asns path = length (non_confed_asns path).
Proof.
  unfold count_non_confed_asns, non_confed_asns.
  induction (filter _ path) as [|s l IH]; [done|]. simpl. by rewrite length_app, IH.
Qed.

Lemma non_confed_cons s path :
  non_confed_asns (s :: path) =
    (if is_confed_segment (segment_type s) then [] else asn_list s) ++ non_confed_asns path.
Proof.
  unfold non_confed_asns. destruct (is_confed_segment (segment_type s)) eqn:E.
  - by rewrite filter_cons_False by congruence.
  - by rewrite filter_cons_True by congruence.
Qed.

Lemma non_confed_app p q : non_confed_asns (p ++ q) = non_confed_asns p ++ non_confed_asns q.
Proof. unfold non_confed_asns. by rewrite filter_app, map_app, concat_app. Qed.

Lemma non_confed_filter p :
  non_confed_asns (filter (fun s => is_confed_segment (segment_type s) = false) p) = non_confed_asns p.
Proof.
  unfold non_confed_asns. f_equal. f_equal. induction p as [|s p IH]; [done|].
  destruct (decide (is_confed_segment (segment_type s) = false)).
  - rewrite !filter_cons_True by done. by rewrite IH.
  - by rewrite filter_cons_False.
Qed.

Lemma prepend_segments_asns c p path :
  (p <= c)%nat ->
  non_confed_asns (prepend_segments c p path) = take (c - p) (non_confed_asns path).
Proof.
  revert p. induction path as [|s path IH]; intros p Hp; cbn [prepend_segments]; [by destruct (c - p)%nat|].
  rewrite (non_confed_cons s path). destruct (Nat.ltb_spec p c) as [Hlt|Hge].
  2: { replace (c - p)%nat with O by lia. rewrite take_0. by destruct (is_confed_segment _). }
  destruct (is_confed_segment (segment_type s)) eqn:E.
  { rewrite non_confed_cons, E. cbn [app]. by apply IH. }
  rewrite take_app. destruct (Nat.ltb_spec 0 ((c - p) `min` length (asn_list s))) as [Hpos|Hz].
  - rewrite non_confed_cons. cbn [segment_type asn_list]. rewrite E, IH by lia. f_equal.
    + destruct (Nat.le_gt_cases (c - p) (length (asn_list s))).
      * by rewrite Nat.min_l.
      * by rewrite Nat.min_r, !take_ge by lia.
    + f_equal. lia.
  - destruct (asn_list s) as [|x l] eqn:El; [|simpl in Hz; lia]. rewrite IH by done.
    cbn [length]. rewrite Nat.sub_0_r. by destruct (c - p)%nat.
Qed.

Lemma merge_as_paths_asns as_path as4_path :
  (count_non_confed_asns as4_path <= count_non_confed_asns as_path)%nat ->
  non_confed_asns (merge_as_paths as_path as4_path) =
    take (count_non_confed_asns as_path - count_non_confed_asns as4_path) (non_confed_asns as_path)
    ++ non_confed_asns as4_path.
Proof.
  intros Hle. unfold merge_as_paths. destruct (Nat.ltb_spec (count_non_confed_asns as_path) (count_non_confed_asns as4_path)); [lia|].
  rewrite non_confed_app, non_confed_filter, prepend_segments_asns by lia. by rewrite Nat.sub_0_r.
Qed.

(** ** Properties *)

(** C30.  Best-path comparison is antisymmetric, and when the MEDs of a
    collection of paths are comparable (one neighbouring AS, or one MED) it is
    a total preorder on it: the lexicographic order of the nine steps of the
    decision process, LLGR staleness first and BGP identifier last. *)
Theorem best_path_total_preorder (l : list Path) :
  med_comparable l ->
  cmp_preorder best_path_cmp (fun p => p ∈ l) /\
  forall a b, a ∈ l -> b ∈ l -> best_path_cmp a b = lexcmp (rank true a) (rank true b).
Proof.
  intros Hl. split; [by apply med_comparable_preorder|].
  intros a b Ha Hb. by apply (med_comparable_rank l).
Qed.

(** Sorting a route's comparable paths does not panic, loses none of them and
    puts first a path that no other path of the route beats. *)
Theorem best_path_first `{SortBy} (l : list PathRef) :
  med_comparable (map ref_path l) ->
  exists l', sort_paths l = Some l' /\ l' ≡ₚ l /\
  forall p rest, l' = p :: rest ->
    forall q, q ∈ l -> best_path_cmp (ref_path q) (ref_path p) <> Gt.
Proof.
  intros Hl. pose proof (sort_paths_comparable l Hl) as E. eexists. split; [exact E|].
  split; [by eapply sort_paths_perm|]. intros p rest Er. rewrite Er in E. by apply (sort_paths_best l p rest).
Qed.

(**  RFC 6793 merging: an AS4_PATH with more AS numbers than the AS_PATH
    is ignored; otherwise the AS numbers of the result, confederation
    segments left out, are the leading ones of AS_PATH that AS4_PATH lacks
    followed by those of AS4_PATH, as many as AS_PATH had. *)
Theorem merge_as_paths_spec (as_path as4_path : AsPath) :
  let n := count_non_confed_asns as_path in
  let m := count_non_confed_asns as4_path in
  if (n <? m)%nat then merge_as_paths as_path as4_path = as_path
  else non_confed_asns (merge_as_paths as_path as4_path)
         = take (n - m) (non_confed_asns as_path) ++ non_confed_asns as4_path /\
       count_non_confed_asns (merge_as_paths as_path as4_path) = n.
Proof.
  intros n m. destruct (Nat.ltb_spec n m) as [Hlt|Hge].
  - unfold merge_as_paths. fold n m. by destruct (Nat.ltb_spec n m); [|lia].
  - pose proof (merge_as_paths_asns as_path as4_path Hge) as E. split; [done|].
    rewrite count_non_confed, E, length_app, length_take, <- !count_non_confed. fold n m. lia.
Qed.

(** ** Witnesses *)
Definition demo_attrs (asns : list Z) (med : option Z) (id : Z) : PathAttrs :=
  mkAttrs IGP [mkSegment AsSequence (Z.of_nat (length asns)) asns] (NhIpv4 id) (Ebgp (IpV4 id) id)
    None med false None [] [] [] [] None [] None.
Definition demo_path (asns : list Z) (med : option Z) (id : Z) : Path :=
  mkPath None None (demo_attrs asns med id) false NotFound.

Lemma best_path_total_preorder_witness :
  let l := [demo_path [1; 2] (Some 5) 7; demo_path [1] (Some 9) 8; demo_path [1; 3] (Some 4) 9] in
  cmp_preorder best_path_cmp (fun p => p ∈ l) /\
  forall a b, a ∈ l -> b ∈ l -> best_path_cmp a b = lexcmp (rank true a) (rank true b).
Proof.
  intros l. apply best_path_total_preorder. intros a b Ha Hb. left. unfold l in *.
  repeat (apply elem_of_cons in Ha as [->|Ha]; [|]); try (by apply not_elem_of_nil in Ha);
  repeat (apply elem_of_cons in Hb as [->|Hb]; [|]); try (by apply not_elem_of_nil in Hb); reflexivity.
Defined.

#[local] Instance demo_sort : SortBy := insertion_sorts.
Lemma best_path_first_witness :
  let l := [mkRef 1 (demo_path [1; 2] None 7); mkRef 2 (demo_path [3] None 8)] in
  exists l', sort_paths l = Some l' /\ l' ≡ₚ l /\
  forall p rest, l' = p :: rest ->
    forall q, q ∈ l -> best_path_cmp (ref_path q) (ref_path p) <> Gt.
Proof.
  intros l. apply best_path_first. intros a b Ha Hb. right. unfold l in *. simpl in Ha, Hb.
  repeat (apply elem_of_cons in Ha as [->|Ha]; [|]); try (by apply not_elem_of_nil in Ha);
  repeat (apply elem_of_cons in Hb as [->|Hb]; [|]); try (by apply not_elem_of_nil in Hb); reflexivity.
Defined.

(**  Across neighbouring ASes the comparison has cycles: of three paths
    each beats the next, so insertion sort puts first a path that depends on
    the order in which the paths arrived. *)
Theorem best_path_med_cycle :
  let x := demo_path [1; 9] (Some 0) 3 in
  let y := demo_path [2; 9] (Some 0) 2 in
  let z := demo_path [1; 9] (Some 10) 1 in
  best_path_cmp x z = Gt /\ best_path_cmp z y = Gt /\ best_path_cmp y x = Gt /\
  (sort_paths [mkRef 1 x; mkRef 2 y; mkRef 3 z] ≫= head) = Some (mkRef 2 y) /\
  (sort_paths [mkRef 2 y; mkRef 3 z; mkRef 1 x] ≫= head) = Some (mkRef 3 z) /\
  (sort_paths [mkRef 3 z; mkRef 1 x; mkRef 2 y] ≫= head) = Some (mkRef 1 x).
Proof. vm_compute. repeat split. Qed.

(** Leading confederation segments are dropped when nothing is prepended,
    although the comment in the code (and RFC 6793) keeps them. *)
Lemma merge_drops_leading_confed :
  merge_as_paths [mkSegment AsConfedSequence 1 [65001]; mkSegment AsSequence 1 [23456]]
                 [mkSegment AsSequence 1 [70000]]
  = [mkSegment AsSequence 1 [70000]].
Proof. vm_compute. reflexivity. Qed.
