(* ===== verification/UpdateCodec.v ===== *)
(** * Path attributes on the wire ([bgpgg/src/bgp/msg_update_codec.rs])

    Errors carry the data their
    NOTIFICATION carries; logging is left out. *)
From S2P Require Import Prelude Wire Net Notification Nlri BgpLs BgpLsParse Attrs BgpLsAttr Path.

Definition update_err_data {A} (e : UpdateMessageError) (data : list Z) : outcome ParserError A :=
  Err (BgpErr (EUpdateMessage e) data).

(** ** Validation *)
Definition flags_error {A} (flags code attr_len : Z) : outcome ParserError A :=
  update_err_data AttributeFlagsError
    ([flags; code] ++ if negb (Z.land flags EXTENDED_LENGTH =? 0) then be_bytes 2 attr_len else [attr_len mod 2 ^ 8]).

Definition validate_attribute_flags (flags : Z) (t : AttrType) (code attr_len : Z) : outcome ParserError () :=
  if negb (Z.land flags (Z.lor OPTIONAL TRANSITIVE) =? expected_flags t) then flags_error flags code attr_len
  else if is_well_known t && negb (Z.land flags PARTIAL =? 0) then flags_error flags code attr_len
  else Ok ().

Definition nonzero_multiple (attr_len k : Z) : bool := (0 <? attr_len) && (attr_len mod k =? 0).

Definition valid_attribute_length (t : AttrType) (attr_len : Z) (use_4byte_asn : bool) : bool :=
  match t with
  | TOrigin => attr_len =? 1
  | TNextHop | TMultiExtiDisc | TLocalPref | TOriginatorId => attr_len =? 4
  | TAtomicAggregate => attr_len =? 0
  | TAggregator => if use_4byte_asn then attr_len =? 8 else attr_len =? 6
  | TCommunities | TClusterList => nonzero_multiple attr_len 4
  | TExtendedCommunities => nonzero_multiple attr_len 8
  | TLargeCommunities => nonzero_multiple attr_len 12
  | TAsPath | TMpReachNlri | TMpUnreachNlri | TAs4Path | TAs4Aggregator | TLinkState => true
  end.

Definition validate_attribute_length (t : AttrType) (attr_len : Z) (attr_bytes : list Z) (use_4byte_asn : bool)
    : outcome ParserError () :=
  if negb (valid_attribute_length t attr_len use_4byte_asn)
  then update_err_data (if is_optional t then OptionalAttributeError else AttributeLengthError) attr_bytes
  else Ok ().

Definition WITHDRAWN_ROUTES_LENGTH_SIZE : nat := 2.
Definition TOTAL_ATTR_LENGTH_SIZE : nat := 2.

Definition validate_update_message_lengths (withdrawn_routes_len total_path_attributes_len body_length : nat)
    : outcome ParserError () :=
  let claimed_size :=
    (withdrawn_routes_len + total_path_attributes_len + (WITHDRAWN_ROUTES_LENGTH_SIZE + TOTAL_ATTR_LENGTH_SIZE))%nat in
  if (body_length <? claimed_size)%nat then update_err MalformedAttributeList else Ok ().

Definition has_attr (f : PathAttrValue -> bool) (l : list PathAttribute) : bool := existsb (fun a => f (pa_value a)) l.
Definition is_origin (v : PathAttrValue) : bool := match v with AOrigin _ => true | _ => false end.
Definition is_as_path (v : PathAttrValue) : bool := match v with AAsPath _ => true | _ => false end.
Definition is_next_hop (v : PathAttrValue) : bool := match v with ANextHop _ => true | _ => false end.
Definition is_mp_reach (v : PathAttrValue) : bool := match v with AMpReachNlri _ => true | _ => false end.

Definition validate_well_known_mandatory_attributes (l : list PathAttribute) : bool :=
  if negb (has_attr is_origin l) then false
  else if negb (has_attr is_as_path l) then false
  else if negb (has_attr is_next_hop l) && negb (has_attr is_mp_reach l) then false
  else true.

Definition validate_nlri_afi (a : Afi) (nlri_list : list Nlri) : bool :=
  forallb (fun n => match a, nlri_prefix n with
                    | Afi_Ipv4, V4 _ | Afi_Ipv6, V6 _ => true
                    | _, _ => false
                    end) nlri_list.

Definition optional_attribute_error (attr_bytes : list Z) : ParserError :=
  BgpErr (EUpdateMessage OptionalAttributeError) attr_bytes.

(** ** Next hops of the multiprotocol attributes *)
Definition valid_next_hop_len (a : Afi) (s : Safi) (next_hop_len : nat) : bool :=
  match a, s with
  | Afi_Ipv4, (Unicast | Multicast | MplsLabel) => (next_hop_len =? 4)%nat
  | Afi_Ipv6, (Unicast | Multicast | MplsLabel) => (next_hop_len =? 16)%nat || (next_hop_len =? 32)%nat
  | Afi_LinkState, LinkStateVpn => (next_hop_len =? RD_LEN + 4)%nat || (next_hop_len =? RD_LEN + 16)%nat
  | Afi_LinkState, Safi_LinkState =>
      (next_hop_len =? 4)%nat || (next_hop_len =? 16)%nat || (next_hop_len =? 32)%nat
  | _, _ => false
  end.

Definition validate_mp_reach_buffer (a : Afi) (s : Safi) (next_hop_len : nat) (bytes : list Z)
    (header_size reserved_size : nat) : outcome ParserError () :=
  if negb (valid_next_hop_len a s next_hop_len) then update_err AttributeLengthError
  else if (length bytes <? header_size + next_hop_len + reserved_size)%nat then update_err AttributeLengthError
  else Ok ().

Definition parse_ipv4_addr (bytes : list Z) (offset : nat) : outcome ParserError Z := read_be bytes offset 4.
Definition parse_ipv4_next_hop (bytes : list Z) (offset : nat) : outcome ParserError NextHopAddr :=
  NhIpv4 <$> parse_ipv4_addr bytes offset.
Definition parse_ipv6_next_hop (bytes : list Z) (offset len : nat) : outcome ParserError NextHopAddr :=
  global ← read_be bytes offset 16;
  if (len =? 32)%nat then link_local ← read_be bytes (offset + 16) 16; Ok (NhIpv6WithLinkLocal global link_local)
  else Ok (NhIpv6 global).

Definition parse_mp_next_hop (bytes : list Z) (offset : nat) (a : Afi) (next_hop_len : nat)
    : outcome ParserError NextHopAddr :=
  match a with
  | Afi_Ipv4 =>
      addr ← parse_ipv4_addr bytes offset;
      if negb (is_valid_unicast_ipv4 addr) then update_err InvalidNextHopAttribute else Ok (NhIpv4 addr)
  | Afi_Ipv6 => parse_ipv6_next_hop bytes offset next_hop_len
  | Afi_LinkState =>
      if (next_hop_len =? 4)%nat then parse_ipv4_next_hop bytes offset
      else if (next_hop_len =? RD_LEN + 4)%nat then parse_ipv4_next_hop bytes (offset + RD_LEN)
      else if (next_hop_len =? 16)%nat || (next_hop_len =? 32)%nat then parse_ipv6_next_hop bytes offset next_hop_len
      else if (next_hop_len =? RD_LEN + 16)%nat then parse_ipv6_next_hop bytes (offset + RD_LEN) 16
      else update_err InvalidNextHopAttribute
  end.

(** ** Attribute values, read *)

(** An unknown type with the optional bit set is kept as it is; without it,
    it is an error that carries the attribute. *)
Definition parse_attr_type (bytes : list Z) (flags code attr_len : Z) : outcome ParserError (option AttrType) :=
  match attr_type_try_from code with
  | Ok t => Ok (Some t)
  | _ =>
      if Z.land flags OPTIONAL =? 0
      then update_err_data UnrecognizedWellKnownAttribute (take (header_len flags + Z.to_nat attr_len) bytes)
      else Ok None
  end.

(** One turn of [try_read_as_path]. *)
Definition read_segment (asn_size : nat) (bytes : list Z) : outcome ParserError (AsPathSegment * list Z) :=
  match bytes with
  | t :: segment_len :: body =>
      ty ← segment_type_try_from t;
      if segment_len =? 0 then update_err MalformedASPath
      else
        let size := (Z.to_nat segment_len * asn_size)%nat in
        if (length body <? size)%nat then update_err MalformedASPath
        else Ok (mkSegment ty segment_len (words asn_size (take size body)), drop size body)
  | _ => update_err MalformedASPath
  end.

Definition try_read_as_path (bytes : list Z) (asn_size : nat) : outcome ParserError AsPath :=
  parse_list (read_segment asn_size) bytes.

Definition read_attr_as_path (bytes : list Z) (use_4byte_asn : bool) : outcome ParserError AsPath :=
  if bool_decide (bytes = []) then Ok [] else try_read_as_path bytes (if use_4byte_asn then 4 else 2).

Definition read_attr_as4_path (bytes : list Z) : outcome ParserError AsPath :=
  if (length bytes <? 6)%nat || negb (length bytes mod 2 =? 0)%nat then update_err MalformedASPath
  else filter (fun s => is_confed_segment (segment_type s) = false) <$> try_read_as_path bytes 4.

Definition read_attr_next_hop (bytes : list Z) : outcome ParserError NextHopAddr := NhIpv4 <$> read_be bytes 0 4.

Definition read_attr_aggregator (bytes : list Z) : outcome ParserError Aggregator :=
  if (length bytes =? 8)%nat
  then asn ← read_be bytes 0 4; ip ← read_be bytes 4 4; Ok (mkAggregator asn ip)
  else asn ← read_be bytes 0 2; ip ← read_be bytes 2 4; Ok (mkAggregator asn ip).

Definition read_attr_as4_aggregator (bytes : list Z) : outcome ParserError Aggregator :=
  if negb (length bytes =? 8)%nat then update_err OptionalAttributeError else read_attr_aggregator bytes.

Definition read_words (k : nat) (bytes : list Z) : outcome ParserError (list Z) :=
  if negb (length bytes mod k =? 0)%nat then update_err OptionalAttributeError else Ok (words k bytes).
Definition read_attr_communities : list Z -> outcome ParserError (list Z) := read_words 4.
Definition read_attr_extended_communities : list Z -> outcome ParserError (list Z) := read_words 8.
Definition read_attr_large_communities (bytes : list Z) : outcome ParserError (list LargeCommunity) :=
  if negb (length bytes mod 12 =? 0)%nat then update_err OptionalAttributeError
  else Ok (map large_from_bytes (chunks 12 bytes)).
Definition read_attr_originator_id (bytes : list Z) : outcome ParserError Z := read_be bytes 0 4.
Definition read_attr_cluster_list (bytes : list Z) : list Z := words 4 bytes.

Definition multiprotocol_error {A} : outcome ParserError A := update_err OptionalAttributeError.
(** [Afi::try_from(..)?] and [Safi::try_from(..)?] *)
Definition read_afi (v : Z) : outcome ParserError Afi :=
  match afi_try_from v with Some a => Ok a | None => multiprotocol_error end.
Definition read_safi (v : Z) : outcome ParserError Safi :=
  match safi_try_from v with Some s => Ok s | None => multiprotocol_error end.

Section read.
Context `{HashOrder}.

Definition read_mp_nlri (a : Afi) (s : Safi) (bytes : list Z) (add_path : bool)
    : outcome ParserError (list Nlri * list LsNlri) :=
  match a with
  | Afi_Ipv4 => l ← parse_nlri_list bytes add_path; Ok (l, [])
  | Afi_Ipv6 => l ← parse_nlri_v6_list bytes add_path; Ok (l, [])
  | Afi_LinkState => l ← parse_ls_nlri_list bytes s; Ok ([], l)
  end.

Definition read_attr_mp_reach_nlri (bytes : list Z) (format : MessageFormat) : outcome ParserError MpReachNlri :=
  if (length bytes <? 4 + 1)%nat then update_err OptionalAttributeError
  else
    a ← read_be bytes 0 2 ≫= read_afi;
    s ← index bytes 2 ≫= read_safi;
    next_hop_len ← Z.to_nat <$> index bytes 3;
    let add_path := mask_contains (mf_add_path format) (mkAfiSafi a s) in
    _ ← validate_mp_reach_buffer a s next_hop_len bytes 4 1;
    next_hop ← parse_mp_next_hop bytes 4 a next_hop_len;
    '(nlri, ls_nlri) ← read_mp_nlri a s (drop (4 + next_hop_len + 1) bytes) add_path;
    Ok (mkMpReach a s next_hop nlri ls_nlri).

Definition read_attr_mp_unreach_nlri (bytes : list Z) (format : MessageFormat) : outcome ParserError MpUnreachNlri :=
  if (length bytes <? 3)%nat then update_err OptionalAttributeError
  else
    a ← read_be bytes 0 2 ≫= read_afi;
    s ← index bytes 2 ≫= read_safi;
    let add_path := mask_contains (mf_add_path format) (mkAfiSafi a s) in
    '(withdrawn_routes, ls_withdrawn) ← read_mp_nlri a s (drop 3 bytes) add_path;
    Ok (mkMpUnreach a s withdrawn_routes ls_withdrawn).

(** [match r { Ok(v) => f(v), Err(_) => return None }] *)
Definition or_malformed {A} (r : outcome ParserError A) (f : A -> PathAttrValue) : outcome ParserError (option PathAttrValue) :=
  match r with Ok a => Ok (Some (f a)) | Err _ => Ok None | Panic => Panic end.

Definition parse_attr_value (t : AttrType) (attr_data : list Z) (format : MessageFormat)
    : outcome ParserError (option PathAttrValue) :=
  let use_4byte := use_4byte_asn format in
  match t with
  | TOrigin =>
      v ← index attr_data 0;
      Ok (if v =? 0 then Some (AOrigin IGP) else if v =? 1 then Some (AOrigin EGP)
          else if v =? 2 then Some (AOrigin INCOMPLETE) else None)
  | TAsPath => or_malformed (read_attr_as_path attr_data use_4byte) AAsPath
  | TNextHop =>
      next_hop ← read_attr_next_hop attr_data;
      Ok (match next_hop with
          | NhIpv4 addr => if negb (is_valid_unicast_ipv4 addr) then None else Some (ANextHop next_hop)
          | _ => Some (ANextHop next_hop)
          end)
  | TMultiExtiDisc => or_malformed (read_u32 attr_data) AMultiExtiDisc
  | TLocalPref => if mf_is_ebgp format then Ok None else or_malformed (read_u32 attr_data) ALocalPref
  | TAtomicAggregate => Ok (Some AAtomicAggregate)
  | TAggregator => agg ← read_attr_aggregator attr_data; Ok (Some (AAggregator agg))
  | TCommunities => or_malformed (read_attr_communities attr_data) ACommunities
  | TOriginatorId =>
      if mf_is_ebgp format then Ok None else id ← read_attr_originator_id attr_data; Ok (Some (AOriginatorId id))
  | TClusterList => if mf_is_ebgp format then Ok None else Ok (Some (AClusterList (read_attr_cluster_list attr_data)))
  | TMpReachNlri =>
      match read_attr_mp_reach_nlri attr_data format with
      | Ok mp => Ok (if validate_nlri_afi (mr_afi mp) (mr_nlri mp) then Some (AMpReachNlri mp) else None)
      | Err _ => Ok None
      | Panic => Panic
      end
  | TMpUnreachNlri =>
      match read_attr_mp_unreach_nlri attr_data format with
      | Ok mp => Ok (if validate_nlri_afi (mu_afi mp) (mu_withdrawn_routes mp) then Some (AMpUnreachNlri mp) else None)
      | Err _ => Ok None
      | Panic => Panic
      end
  | TExtendedCommunities => or_malformed (read_attr_extended_communities attr_data) AExtendedCommunities
  | TLargeCommunities => or_malformed (read_attr_large_communities attr_data) ALargeCommunities
  | TAs4Path => or_malformed (read_attr_as4_path attr_data) AAs4Path
  | TAs4Aggregator => or_malformed (read_attr_as4_aggregator attr_data) AAs4Aggregator
  | TLinkState =>
      match parse_ls_attr attr_data with
      | Ok ls_attr => Ok (Some (ALsAttr ls_attr)) | Err _ => Ok None | Panic => Panic
      end
  end.

(** ** Attributes, read *)
Inductive PathAttrResult := Parsed (attr : PathAttribute) | Malformed (action : PathAttrError).

(** [attr_len], where the header has been found to fit. *)
Definition read_attr_len (bytes : list Z) (flags : Z) : outcome ParserError Z :=
  if extended_len flags then read_be bytes 2 2 else index bytes 2.

Definition read_known_attr (t : AttrType) (bytes : list Z) (flags code attr_len : Z) (format : MessageFormat)
    : outcome ParserError PathAttrResult :=
  let total_offset := (header_len flags + Z.to_nat attr_len)%nat in
  let attr_bytes := take total_offset bytes in
  match validate_attribute_flags flags t code attr_len with
  | Err err =>
      if code =? MP_REACH_NLRI then Err err
      else Ok (Malformed (if (code =? ATOMIC_AGGREGATE) || (code =? AGGREGATOR) then Discard else TreatAsWithdraw))
  | Panic => Panic
  | Ok _ =>
      match validate_attribute_length t attr_len attr_bytes (use_4byte_asn format) with
      | Err err =>
          if code =? MP_REACH_NLRI then Err err else Ok (Malformed (malformed_attr_action code (mf_is_ebgp format)))
      | Panic => Panic
      | Ok _ =>
          value ← parse_attr_value t (drop (header_len flags) attr_bytes) format;
          match value with
          | Some value => Ok (Parsed (mkAttr flags value))
          | None =>
              if code =? MP_REACH_NLRI then Err (optional_attribute_error attr_bytes)
              else Ok (Malformed (malformed_attr_action code (mf_is_ebgp format)))
          end
      end
  end.

Definition read_unknown_attr (bytes : list Z) (flags code attr_len : Z) : PathAttrResult :=
  let data := take (Z.to_nat attr_len) (drop (header_len flags) bytes) in
  let flags := if negb (Z.land flags TRANSITIVE =? 0) then Z.lor flags PARTIAL else flags in
  Parsed (mkAttr flags (AUnknown code flags data)).

(** The result and the number of bytes consumed, a [u16]. *)
Definition read_path_attribute (bytes : list Z) (format : MessageFormat) : outcome ParserError (PathAttrResult * Z) :=
  flags ← index bytes 0;
  let overrun := Ok (Malformed TreatAsWithdraw, Z.of_nat (length bytes) mod 2 ^ 16) in
  if (length bytes <? header_len flags)%nat then overrun
  else
    code ← index bytes 1;
    attr_len ← read_attr_len bytes flags;
    let total_offset := (header_len flags + Z.to_nat attr_len)%nat in
    if (length bytes <? total_offset)%nat then overrun
    else
      known_type ← parse_attr_type bytes flags code attr_len;
      result ← match known_type with
               | Some t => read_known_attr t bytes flags code attr_len format
               | None => Ok (read_unknown_attr bytes flags code attr_len)
               end;
      Ok (result, Z.of_nat total_offset mod 2 ^ 16).

(** The loop of [read_path_attributes]; [seen] are the codes met so far. *)
Fixpoint read_attributes_loop (fuel : nat) (bytes : list Z) (format : MessageFormat) (seen : list Z)
    (attributes : list PathAttribute) (treat_as_withdraw : bool) : outcome ParserError (list PathAttribute * bool) :=
  match bytes with
  | [] => Ok (attributes, treat_as_withdraw)
  | _ =>
      match fuel with
      | O => Panic
      | S fuel =>
          '(result, offset) ← read_path_attribute bytes format;
          let rest := drop (Z.to_nat offset) bytes in
          match result with
          | Parsed attribute =>
              let code := type_code attribute in
              if bool_decide (code ∈ seen) then
                if (code =? MP_REACH_NLRI) || (code =? MP_UNREACH_NLRI) then update_err MalformedAttributeList
                else read_attributes_loop fuel rest format seen attributes treat_as_withdraw
              else read_attributes_loop fuel rest format (code :: seen) (attributes ++ [attribute]) treat_as_withdraw
          | Malformed TreatAsWithdraw => read_attributes_loop fuel rest format seen attributes true
          | Malformed Discard => read_attributes_loop fuel rest format seen attributes treat_as_withdraw
          end
      end
  end.

(** At most one turn per byte. *)
Definition read_path_attributes (bytes : list Z) (format : MessageFormat)
    : outcome ParserError (list PathAttribute * bool) :=
  read_attributes_loop (length bytes) bytes format [] [] false.
End read.

(** ** Attributes, written

    [None] is a panic: a prefix length out of range. *)
Definition encode_asn (asn : Z) (use_4byte_asn : bool) : list Z :=
  if use_4byte_asn then be_bytes 4 asn else be_bytes 2 asn.

Definition write_as_path (path : AsPath) (use_4byte_asn : bool) : list Z :=
  concat (map (fun s => [segment_type_to_u8 (segment_type s); segment_len s] ++
                        concat (map (fun asn => encode_asn asn use_4byte_asn) (asn_list s))) path).

Definition write_next_hop (n : NextHopAddr) : list Z :=
  match n with
  | NhIpv4 addr => be_bytes 4 addr
  | NhIpv6 addr => be_bytes 16 addr
  | NhIpv6WithLinkLocal global link_local => be_bytes 16 global ++ be_bytes 16 link_local
  end.

Definition write_mp_next_hop (s : Safi) (n : NextHopAddr) : list Z :=
  let addr := write_next_hop n in
  if bool_decide (s = LinkStateVpn)
  then [Z.of_nat (RD_LEN + length addr)] ++ replicate RD_LEN 0 ++ addr
  else [Z.of_nat (length addr)] ++ addr.

Definition write_mp_nlri (a : Afi) (nlri : list Nlri) (ls_nlri : list LsNlri) : option (list Z) :=
  match a with Afi_LinkState => Some (write_ls_nlri_list ls_nlri) | _ => write_nlri_list nlri end.

Definition write_attr_mp_reach_nlri (mp : MpReachNlri) : option (list Z) :=
  nlri ← write_mp_nlri (mr_afi mp) (mr_nlri mp) (mr_ls_nlri mp);
  Some (be_bytes 2 (afi_to_u16 (mr_afi mp)) ++ [safi_to_u8 (mr_safi mp)] ++
        write_mp_next_hop (mr_safi mp) (mr_next_hop mp) ++ [0] ++ nlri).

Definition write_attr_mp_unreach_nlri (mp : MpUnreachNlri) : option (list Z) :=
  nlri ← write_mp_nlri (mu_afi mp) (mu_withdrawn_routes mp) (mu_ls_withdrawn mp);
  Some (be_bytes 2 (afi_to_u16 (mu_afi mp)) ++ [safi_to_u8 (mu_safi mp)] ++ nlri).

Definition write_attr_value (v : PathAttrValue) (use_4byte_asn : bool) : option (list Z) :=
  match v with
  | AOrigin origin => Some [origin_to_u8 origin]
  | AAsPath path => Some (write_as_path path use_4byte_asn)
  | ANextHop next_hop => Some (write_next_hop next_hop)
  | AMultiExtiDisc value | ALocalPref value => Some (be_bytes 4 value)
  | AAtomicAggregate => Some []
  | AAggregator agg => Some (encode_asn (agg_asn agg) use_4byte_asn ++ be_bytes 4 (agg_ip_addr agg))
  | ACommunities l | AClusterList l => Some (word_bytes 4 l)
  | AOriginatorId id => Some (be_bytes 4 id)
  | AMpReachNlri mp => write_attr_mp_reach_nlri mp
  | AMpUnreachNlri mp => write_attr_mp_unreach_nlri mp
  | AExtendedCommunities l => Some (word_bytes 8 l)
  | ALargeCommunities l => Some (concat (map large_to_bytes l))
  | AAs4Path path => Some (write_as_path path true)
  | AAs4Aggregator agg => Some (be_bytes 4 (agg_asn agg) ++ be_bytes 4 (agg_ip_addr agg))
  | ALsAttr ls_attr => Some (lsa_raw ls_attr)
  | AUnknown _ _ data => Some data
  end.

Definition is_skipped (v : PathAttrValue) : bool :=
  match v with ANextHop (NhIpv6WithLinkLocal _ _) => true | _ => false end.

Definition base_flags (a : PathAttribute) : Z :=
  match pa_value a with AUnknown _ flags _ => flags | _ => pa_flags a end.

Definition write_path_attribute (a : PathAttribute) (use_4byte_asn : bool) : option (list Z) :=
  if is_skipped (pa_value a) then Some []
  else
    value ← write_attr_value (pa_value a) use_4byte_asn;
    let extended := (255 <? length value)%nat || negb (Z.land (base_flags a) EXTENDED_LENGTH =? 0) in
    let flags := if extended then Z.lor (base_flags a) EXTENDED_LENGTH else base_flags a in
    let len := Z.of_nat (length value) in
    Some ([flags; type_code a] ++ (if extended then be_bytes 2 len else [len mod 2 ^ 8]) ++ value).

Fixpoint write_path_attributes (l : list PathAttribute) (use_4byte_asn : bool) : option (list Z) :=
  match l with
  | [] => Some []
  | a :: rest =>
      bytes ← write_path_attribute a use_4byte_asn;
      more ← write_path_attributes rest use_4byte_asn;
      Some (bytes ++ more)
  end.

(** ** What can be written and read back *)
Definition asn_fits (use_4byte_asn : bool) (asn : Z) : Prop := if use_4byte_asn then u32 asn else u16 asn.

Definition segment_wf (use_4byte_asn : bool) (s : AsPathSegment) : Prop :=
  1 <= segment_len s < 256 /\ segment_len s = Z.of_nat (length (asn_list s)) /\
  Forall (asn_fits use_4byte_asn) (asn_list s).

(** A next hop that the multiprotocol attribute of a family can carry. *)
Definition mp_next_hop_wf (a : Afi) (s : Safi) (n : NextHopAddr) : Prop :=
  match a, s, n with
  | Afi_Ipv4, (Unicast | Multicast | MplsLabel), NhIpv4 addr => u32 addr /\ is_valid_unicast_ipv4 addr = true
  | Afi_Ipv6, (Unicast | Multicast | MplsLabel), NhIpv6 addr => u128 addr
  | Afi_Ipv6, (Unicast | Multicast | MplsLabel), NhIpv6WithLinkLocal g l => u128 g /\ u128 l
  | Afi_LinkState, (Safi_LinkState | LinkStateVpn), NhIpv4 addr => u32 addr
  | Afi_LinkState, (Safi_LinkState | LinkStateVpn), NhIpv6 addr => u128 addr
  | Afi_LinkState, Safi_LinkState, NhIpv6WithLinkLocal g l => u128 g /\ u128 l
  | _, _, _ => False
  end.

Section wf.
Context `{HashOrder}.

(** The list of one family, with identifiers exactly when the session uses
    them; the link-state ones are read back exactly (without unknown TLVs, or
    with one kind of them). *)
Definition mp_nlri_wf (format : MessageFormat) (a : Afi) (s : Safi) (nlri : list Nlri) (ls_nlri : list LsNlri) : Prop :=
  let add_path := mask_contains (mf_add_path format) (mkAfiSafi a s) in
  match a with
  | Afi_Ipv4 => Forall (wire_nlri false add_path) nlri /\ ls_nlri = []
  | Afi_Ipv6 => Forall (wire_nlri true add_path) nlri /\ ls_nlri = []
  | Afi_LinkState => nlri = [] /\ parse_ls_nlri_list (write_ls_nlri_list ls_nlri) s = Ok ls_nlri
  end.

Definition value_wf (format : MessageFormat) (v : PathAttrValue) : Prop :=
  let four := use_4byte_asn format in
  match v with
  | AOrigin _ | AAtomicAggregate => True
  | AAsPath path => Forall (segment_wf four) path
  | ANextHop (NhIpv4 addr) => u32 addr /\ is_valid_unicast_ipv4 addr = true
  | ANextHop _ => False
  | AMultiExtiDisc v => u32 v
  | ALocalPref v | AOriginatorId v => mf_is_ebgp format = false /\ u32 v
  | AAggregator agg => asn_fits four (agg_asn agg) /\ u32 (agg_ip_addr agg)
  | ACommunities l => l <> [] /\ Forall u32 l
  | AClusterList l => mf_is_ebgp format = false /\ l <> [] /\ Forall u32 l
  | AMpReachNlri mp =>
      mp_next_hop_wf (mr_afi mp) (mr_safi mp) (mr_next_hop mp) /\
      mp_nlri_wf format (mr_afi mp) (mr_safi mp) (mr_nlri mp) (mr_ls_nlri mp)
  | AMpUnreachNlri mp => mp_nlri_wf format (mu_afi mp) (mu_safi mp) (mu_withdrawn_routes mp) (mu_ls_withdrawn mp)
  | AExtendedCommunities l => l <> [] /\ Forall u64 l
  | ALargeCommunities l =>
      l <> [] /\ Forall (fun c => u32 (global_admin c) /\ u32 (local_data_1 c) /\ u32 (local_data_2 c)) l
  | AAs4Path path =>
      path <> [] /\ Forall (segment_wf true) path /\
      Forall (fun s => is_confed_segment (segment_type s) = false) path
  | AAs4Aggregator agg => u32 (agg_asn agg) /\ u32 (agg_ip_addr agg)
  | ALsAttr a => parse_ls_attr (lsa_raw a) = Ok a
  | AUnknown code flags data =>
      attr_type_try_from code = update_err (UmUnknown 0) /\ Z.land flags OPTIONAL <> 0
  end.

Definition known_type (v : PathAttrValue) : option AttrType :=
  match v with
  | AOrigin _ => Some TOrigin | AAsPath _ => Some TAsPath | ANextHop _ => Some TNextHop
  | AMultiExtiDisc _ => Some TMultiExtiDisc | ALocalPref _ => Some TLocalPref
  | AAtomicAggregate => Some TAtomicAggregate | AAggregator _ => Some TAggregator
  | ACommunities _ => Some TCommunities | AOriginatorId _ => Some TOriginatorId
  | AClusterList _ => Some TClusterList | AMpReachNlri _ => Some TMpReachNlri
  | AMpUnreachNlri _ => Some TMpUnreachNlri | AExtendedCommunities _ => Some TExtendedCommunities
  | AAs4Path _ => Some TAs4Path | AAs4Aggregator _ => Some TAs4Aggregator
  | ALargeCommunities _ => Some TLargeCommunities | ALsAttr _ => Some TLinkState
  | AUnknown _ _ _ => None
  end.

(** The flags a known attribute must have. *)
Definition flags_wf (t : AttrType) (flags : Z) : Prop :=
  Z.land flags (Z.lor OPTIONAL TRANSITIVE) = expected_flags t /\
  (is_well_known t = true -> Z.land flags PARTIAL = 0).

Definition attr_wf (format : MessageFormat) (a : PathAttribute) : Prop :=
  value_wf format (pa_value a) /\
  match known_type (pa_value a) with Some t => flags_wf t (pa_flags a) | None => True end.

(** The flags on the wire: the extended-length bit is set when needed, and a
    reader sets the partial bit of an unknown transitive attribute. *)
Definition wire_flags (a : PathAttribute) (four : bool) : Z :=
  match write_attr_value (pa_value a) four with
  | Some value =>
      if (255 <? length value)%nat || extended_len (base_flags a) then Z.lor (base_flags a) EXTENDED_LENGTH
      else base_flags a
  | None => base_flags a
  end.

Definition as_read (a : PathAttribute) (four : bool) : PathAttribute :=
  let flags := wire_flags a four in
  match pa_value a with
  | AUnknown code _ data =>
      let flags := if negb (Z.land flags TRANSITIVE =? 0) then Z.lor flags PARTIAL else flags in
      mkAttr flags (AUnknown code flags data)
  | v => mkAttr flags v
  end.
End wf.

(** ** AS paths *)
Definition asn_size (four : bool) : nat := if four then 4 else 2.

Definition write_segment (four : bool) (s : AsPathSegment) : list Z :=
  [segment_type_to_u8 (segment_type s); segment_len s] ++ word_bytes (asn_size four) (asn_list s).

Lemma write_as_path_eq path four : write_as_path path four = concat (map (write_segment four) path).
Proof.
  unfold write_as_path. f_equal. apply map_ext. intros s. unfold write_segment, word_bytes, encode_asn, asn_size.
  do 3 f_equal. by destruct four.
Qed.

Lemma read_segment_shrinks k bytes s rest : read_segment k bytes = Ok (s, rest) -> (length rest < length bytes)%nat.
Proof.
  unfold read_segment. destruct bytes as [|t [|len body]]; [done..|].
  destruct (segment_type_try_from t); [|done..]. cbn [mbind outcome_bind]. destruct (len =? 0); [done|]. cbv zeta.
  destruct (_ <? _)%nat; [done|]. intros [= <- <-]. rewrite length_drop. simpl. lia.
Qed.

Lemma asn_fits_bounds four asn : asn_fits four asn -> 0 <= asn < 256 ^ Z.of_nat (asn_size four).
Proof. by destruct four. Qed.

Lemma read_segment_write four s tail :
  segment_wf four s -> read_segment (asn_size four) (write_segment four s ++ tail) = Ok (s, tail).
Proof.
  intros (Hl & Hlen & Ha). unfold write_segment. cbn [app]. unfold read_segment. rewrite segment_type_roundtrip.
  cbn [mbind outcome_bind]. destruct (Z.eqb_spec (segment_len s) 0); [lia|]. cbv zeta.
  assert ((Z.to_nat (segment_len s) * asn_size four)%nat = length (word_bytes (asn_size four) (asn_list s))) as ->
    by (rewrite length_word_bytes, Hlen, Nat2Z.id; lia).
  rewrite length_app. destruct (Nat.ltb_spec (length (word_bytes (asn_size four) (asn_list s)) + length tail)
    (length (word_bytes (asn_size four) (asn_list s)))); [lia|].
  rewrite take_app_length, drop_app_length, words_word_bytes.
  - by destruct s.
  - destruct four; cbn; lia.
  - eapply Forall_impl; [exact Ha|]. apply asn_fits_bounds.
Qed.

Lemma read_as_path_write four path :
  Forall (segment_wf four) path -> try_read_as_path (write_as_path path four) (asn_size four) = Ok path.
Proof.
  intros Hp. rewrite write_as_path_eq. unfold try_read_as_path.
  apply parse_list_write with (wf := segment_wf four); [apply read_segment_shrinks| |done].
  intros s tail Hs. split; [done|by apply read_segment_write].
Qed.

Lemma read_attr_as_path_write four path :
  Forall (segment_wf four) path -> read_attr_as_path (write_as_path path four) four = Ok path.
Proof.
  intros Hp. unfold read_attr_as_path. case_bool_decide as E.
  - destruct path as [|s path]; [done|]. by rewrite write_as_path_eq in E.
  - change (if four then 4%nat else 2%nat) with (asn_size four). by apply read_as_path_write.
Qed.

Lemma write_as_path_len path : Forall (segment_wf true) path ->
  (6 * length path <= length (write_as_path path true))%nat /\ (length (write_as_path path true) mod 2 = 0)%nat.
Proof.
  intros Hp. rewrite write_as_path_eq. induction Hp as [|s path (Hl & Hlen & _) _ [IH1 IH2]]; [done|].
  cbn [map concat]. rewrite length_app. unfold write_segment at 1 3. rewrite !length_app, !length_word_bytes. cbn [length asn_size].
  assert (1 <= length (asn_list s))%nat by lia. split; [lia|].
  rewrite Nat.Div0.add_mod, IH2, Nat.add_0_r, Nat.Div0.mod_mod.
  replace (2 + 4 * length (asn_list s))%nat with ((1 + 2 * length (asn_list s)) * 2)%nat by lia. apply Nat.Div0.mod_mul.
Qed.

Lemma read_as4_path_write path :
  path <> [] -> Forall (segment_wf true) path -> Forall (fun s => is_confed_segment (segment_type s) = false) path ->
  read_attr_as4_path (write_as_path path true) = Ok path.
Proof.
  intros Hne Hp Hc. destruct (write_as_path_len path Hp) as [Hl Hm]. unfold read_attr_as4_path. rewrite Hm.
  destruct (Nat.ltb_spec (length (write_as_path path true)) 6); [destruct path; [done|cbn [length] in *; lia]|].
  cbn [orb negb Nat.eqb]. rewrite (read_as_path_write true) by done. cbn [fmap outcome_fmap]. f_equal.
  clear -Hc. induction Hc as [|s path Hs _ IH]; [done|]. by rewrite filter_cons_True, IH.
Qed.

(** ** Attribute values *)
Section values.
Context `{HashOrder}.

Lemma read_words_write k l :
  (0 < k)%nat -> Forall (fun v => 0 <= v < 256 ^ Z.of_nat k) l -> read_words k (word_bytes k l) = Ok l.
Proof.
  intros Hk Hl. unfold read_words. rewrite length_word_bytes, Nat.mul_comm, Nat.Div0.mod_mul.
  cbn [Nat.eqb negb]. by rewrite words_word_bytes.
Qed.

Lemma length_large c : length (large_to_bytes c) = 12%nat.
Proof. unfold large_to_bytes. by rewrite !length_app, !length_be_bytes. Qed.

Lemma length_larges l : length (concat (map large_to_bytes l)) = (length l * 12)%nat.
Proof. induction l as [|c l IH]; [done|]. cbn [map concat length]. rewrite length_app, length_large, IH. lia. Qed.

Lemma read_larges_write l :
  Forall (fun c => u32 (global_admin c) /\ u32 (local_data_1 c) /\ u32 (local_data_2 c)) l ->
  read_attr_large_communities (concat (map large_to_bytes l)) = Ok l.
Proof.
  intros Hl. unfold read_attr_large_communities. rewrite length_larges, Nat.Div0.mod_mul. cbn [Nat.eqb negb]. f_equal.
  rewrite chunks_concat, map_map.
  - induction Hl as [|c l (H1 & H2 & H3) _ IH]; [done|]. cbn [map]. by rewrite large_community_roundtrip, IH.
  - lia.
  - apply Forall_forall. intros c _. apply length_large.
Qed.

Lemma read_aggregator_write four agg :
  asn_fits four (agg_asn agg) -> u32 (agg_ip_addr agg) ->
  read_attr_aggregator (encode_asn (agg_asn agg) four ++ be_bytes 4 (agg_ip_addr agg)) = Ok agg.
Proof.
  intros Ha Hi. unfold read_attr_aggregator. rewrite length_app, length_be_bytes. unfold encode_asn, asn_fits in *.
  destruct four; rewrite length_be_bytes; cbn [Nat.add Nat.eqb].
  - rewrite read_be_first by done. cbn [mbind outcome_bind]. rewrite read_be_last by (done || apply length_be_bytes). by destruct agg.
  - rewrite read_be_first by done. cbn [mbind outcome_bind]. rewrite read_be_last by (done || apply length_be_bytes). by destruct agg.
Qed.

Lemma read_mp_nlri_write format a s nlri ls_nlri :
  mp_nlri_wf format a s nlri ls_nlri ->
  exists bytes, write_mp_nlri a nlri ls_nlri = Some bytes /\
    read_mp_nlri a s bytes (mask_contains (mf_add_path format) (mkAfiSafi a s)) = Ok (nlri, ls_nlri).
Proof.
  unfold mp_nlri_wf. cbv zeta. set (add_path := mask_contains _ _). destruct a; cbn [write_mp_nlri read_mp_nlri].
  - intros [Hn ->]. destruct (parse_write_all false add_path nlri Hn) as (bytes & Ew & Er). exists bytes. by rewrite Er.
  - intros [Hn ->]. destruct (parse_write_all true add_path nlri Hn) as (bytes & Ew & Er). exists bytes. by rewrite Er.
  - intros [-> Hl]. eexists. split; [done|]. by rewrite Hl.
Qed.

Lemma afi_read a : read_afi (afi_to_u16 a) = Ok a.
Proof. by destruct a. Qed.
Lemma safi_read s : read_safi (safi_to_u8 s) = Ok s.
Proof. by destruct s. Qed.
Lemma afi_u16 a : 0 <= afi_to_u16 a < 256 ^ Z.of_nat 2.
Proof. by destruct a. Qed.

(** The length octet and the address bytes of a next hop. *)
Definition next_hop_len (s : Safi) (n : NextHopAddr) : nat :=
  (if bool_decide (s = LinkStateVpn) then RD_LEN else 0) + length (write_next_hop n).

Lemma write_mp_next_hop_eq s n :
  write_mp_next_hop s n =
    Z.of_nat (next_hop_len s n) :: (if bool_decide (s = LinkStateVpn) then replicate RD_LEN 0 else []) ++ write_next_hop n.
Proof. unfold write_mp_next_hop, next_hop_len. by case_bool_decide. Qed.

Lemma mp_next_hop_write a s n pre rest :
  mp_next_hop_wf a s n -> length pre = 4%nat ->
  valid_next_hop_len a s (next_hop_len s n) = true /\
  parse_mp_next_hop (pre ++ ((if bool_decide (s = LinkStateVpn) then replicate RD_LEN 0 else []) ++ write_next_hop n) ++ rest)
    4 a (next_hop_len s n) = Ok n.
Proof.
  intros Hn Hpre. destruct n as [addr|addr|g l].
  all: unfold next_hop_len; cbn [write_next_hop]; rewrite ?length_app, ?length_be_bytes.
  all: destruct a, s; cbn [mp_next_hop_wf] in Hn; try done; split; try done.
  all: cbn [bool_decide decide Safi_eq_dec]; try (rewrite bool_decide_eq_false_2 by done); try (rewrite bool_decide_eq_true_2 by done).
  all: cbn [app parse_mp_next_hop Nat.add Nat.eqb RD_LEN orb].
  all: unfold parse_ipv4_next_hop, parse_ipv4_addr, parse_ipv6_next_hop; cbn [Nat.add Nat.eqb].
  all: rewrite <- ?(app_assoc (be_bytes 16 g)), <- ?(app_assoc (replicate RD_LEN 0)), ?(app_assoc pre (replicate RD_LEN 0)).
  all: try (destruct Hn as [Hg Hl]); rewrite ?read_be_app by (try done; by rewrite length_app, Hpre);
    cbn [mbind outcome_bind fmap outcome_fmap]; rewrite ?Hl; try done.
  all: rewrite (read_be_app pre 16 g _ 4) by done; cbn [mbind outcome_bind].
  all: by rewrite (app_assoc pre), (read_be_app _ 16 l _ 20) by (try done; by rewrite length_app, Hpre, length_be_bytes).
Qed.

Lemma mp_next_hop_fits s n : (next_hop_len s n < 256)%nat.
Proof.
  unfold next_hop_len, RD_LEN. destruct n; cbn [write_next_hop]; rewrite ?length_app, !length_be_bytes;
    destruct (bool_decide _); lia.
Qed.

(** The header and the next hop of MP_REACH_NLRI. *)
Lemma mp_reach_read format mp nlri :
  mp_next_hop_wf (mr_afi mp) (mr_safi mp) (mr_next_hop mp) ->
  read_mp_nlri (mr_afi mp) (mr_safi mp) nlri (mask_contains (mf_add_path format) (mkAfiSafi (mr_afi mp) (mr_safi mp)))
    = Ok (mr_nlri mp, mr_ls_nlri mp) ->
  read_attr_mp_reach_nlri (be_bytes 2 (afi_to_u16 (mr_afi mp)) ++ [safi_to_u8 (mr_safi mp)] ++
    write_mp_next_hop (mr_safi mp) (mr_next_hop mp) ++ [0] ++ nlri) format = Ok mp.
Proof.
  destruct mp as [a s n l ls]. cbn [mr_afi mr_safi mr_next_hop mr_nlri mr_ls_nlri]. intros Hn Hl.
  set (hop := (if bool_decide (s = LinkStateVpn) then replicate RD_LEN 0 else []) ++ write_next_hop n).
  assert (length hop = next_hop_len s n) as Hhop.
  { unfold hop, next_hop_len. rewrite length_app. by case_bool_decide. }
  rewrite write_mp_next_hop_eq. fold hop.
  set (hdr := be_bytes 2 (afi_to_u16 a) ++ [safi_to_u8 s; Z.of_nat (next_hop_len s n)]).
  assert (be_bytes 2 (afi_to_u16 a) ++ [safi_to_u8 s] ++ (Z.of_nat (next_hop_len s n) :: hop) ++ [0] ++ nlri =
    hdr ++ hop ++ 0 :: nlri) as ->.
  { unfold hdr. rewrite <- app_assoc. reflexivity. }
  assert (length hdr = 4%nat) as Hhdr by (unfold hdr; by rewrite length_app, length_be_bytes).
  unfold read_attr_mp_reach_nlri. rewrite !length_app, Hhdr. cbn [length].
  destruct (Nat.ltb_spec (4 + (length hop + S (length nlri))) (4 + 1)); [lia|].
  assert (read_be (hdr ++ hop ++ 0 :: nlri) 0 2 = Ok (afi_to_u16 a)) as ->.
  { unfold hdr. rewrite <- app_assoc. apply read_be_first, afi_u16. }
  cbn [mbind outcome_bind]. rewrite afi_read.
  assert (index (E := ParserError) (hdr ++ hop ++ 0 :: nlri) 2 = Ok (safi_to_u8 s)) as ->.
  { unfold hdr, index. pose proof (length_be_bytes 2 (afi_to_u16 a)). by destruct (be_bytes 2 _) as [|? [|? [|]]]. }
  cbn [mbind outcome_bind]. rewrite safi_read.
  assert (index (E := ParserError) (hdr ++ hop ++ 0 :: nlri) 3 = Ok (Z.of_nat (next_hop_len s n))) as ->.
  { unfold hdr, index. pose proof (length_be_bytes 2 (afi_to_u16 a)). by destruct (be_bytes 2 _) as [|? [|? [|]]]. }
  cbn [mbind outcome_bind fmap outcome_fmap]. rewrite Nat2Z.id. cbv zeta.
  destruct (mp_next_hop_write a s n hdr (0 :: nlri) Hn Hhdr) as [Hv Hp].  fold hop in Hp.
  unfold validate_mp_reach_buffer. rewrite Hv, !length_app, Hhdr, Hhop. cbn [negb length].
  destruct (Nat.ltb_spec (4 + (next_hop_len s n + S (length nlri))) (4 + next_hop_len s n + 1)); [lia|].
  cbn [mbind outcome_bind]. rewrite Hp. cbn [mbind outcome_bind].
  assert (drop (4 + next_hop_len s n + 1) (hdr ++ hop ++ 0 :: nlri) = nlri) as ->.
  { rewrite app_assoc, <- Hhop, <- Hhdr, <- length_app, <- drop_drop, drop_app_length. reflexivity. }
  by rewrite Hl.
Qed.

Lemma mp_unreach_read format mp nlri :
  read_mp_nlri (mu_afi mp) (mu_safi mp) nlri (mask_contains (mf_add_path format) (mkAfiSafi (mu_afi mp) (mu_safi mp)))
    = Ok (mu_withdrawn_routes mp, mu_ls_withdrawn mp) ->
  read_attr_mp_unreach_nlri (be_bytes 2 (afi_to_u16 (mu_afi mp)) ++ [safi_to_u8 (mu_safi mp)] ++ nlri) format = Ok mp.
Proof.
  destruct mp as [a s l ls]. cbn [mu_afi mu_safi mu_withdrawn_routes mu_ls_withdrawn]. intros Hl.
  unfold read_attr_mp_unreach_nlri. rewrite read_be_first by apply afi_u16.
  assert (index (E := ParserError) (be_bytes 2 (afi_to_u16 a) ++ [safi_to_u8 s] ++ nlri) 2 = Ok (safi_to_u8 s)) as ->.
  { unfold index. pose proof (length_be_bytes 2 (afi_to_u16 a)). by destruct (be_bytes 2 _) as [|? [|? [|]]]. }
  assert (drop 3 (be_bytes 2 (afi_to_u16 a) ++ [safi_to_u8 s] ++ nlri) = nlri) as ->.
  { pose proof (length_be_bytes 2 (afi_to_u16 a)). by destruct (be_bytes 2 _) as [|? [|? [|]]]. }
  rewrite !length_app, length_be_bytes. cbn [length Nat.ltb Nat.leb Nat.add mbind outcome_bind].
  rewrite afi_read. cbn [mbind outcome_bind]. rewrite safi_read. cbn [mbind outcome_bind]. by rewrite Hl.
Qed.

Lemma mp_nlri_afi format a s nlri ls_nlri : mp_nlri_wf format a s nlri ls_nlri -> validate_nlri_afi a nlri = true.
Proof.
  unfold mp_nlri_wf, validate_nlri_afi. destruct a; [intros [Hl _]|intros [Hl _]|by intros [-> _]];
    apply forallb_forall; intros n Hn%list_elem_of_In; rewrite Forall_forall in Hl; specialize (Hl n Hn);
    unfold wire_nlri in Hl; destruct (nlri_prefix n); naive_solver.
Qed.
End values.

(** ** Attributes *)
Section attributes.
Context `{HashOrder}.

Lemma nonzero_multiple_ok n k : (0 < n)%nat -> 0 < k -> nonzero_multiple (Z.of_nat n * k) k = true.
Proof.
  intros Hn Hk. unfold nonzero_multiple. rewrite Z.mod_mul by lia.
  assert (0 < Z.of_nat n * k) by nia. by destruct (Z.ltb_spec 0 (Z.of_nat n * k)); [|lia].
Qed.

Lemma words_nonzero k (l : list Z) : (0 < k)%nat -> l <> [] ->
  nonzero_multiple (Z.of_nat (length (word_bytes k l))) (Z.of_nat k) = true.
Proof.
  intros Hk Hl. rewrite length_word_bytes, Nat2Z.inj_mul, Z.mul_comm. apply nonzero_multiple_ok; [destruct l; [done|cbn; lia]|lia].
Qed.

(** A value is encoded, with a length its type allows, and read back. *)
Lemma value_write format v t :
  value_wf format v -> known_type v = Some t ->
  exists bytes, write_attr_value v (use_4byte_asn format) = Some bytes /\
    valid_attribute_length t (Z.of_nat (length bytes)) (use_4byte_asn format) = true /\
    parse_attr_value t bytes format = Ok (Some v).
Proof.
  intros Hv Ht. destruct v as [o|path|n|m|p| |agg|l|id|l|mp|mp|l|path|agg|l|a|]; simplify_eq/=.
  - exists [origin_to_u8 o]. split_and!; [done..|by destruct o].
  - eexists. split_and!; [done..|]. by rewrite read_attr_as_path_write.
  - destruct n as [addr| |]; [|done..]. destruct Hv as [Ha Hu]. exists (be_bytes 4 addr). split_and!; [done|by rewrite length_be_bytes|].
    cbn [parse_attr_value]. unfold read_attr_next_hop. rewrite read_be_all by done.
    cbn [fmap outcome_fmap mbind outcome_bind]. by rewrite Hu.
  - exists (be_bytes 4 m). split_and!; [done|by rewrite length_be_bytes|].
    cbn [parse_attr_value]. unfold read_u32. rewrite length_be_bytes. cbn [Nat.eqb or_malformed]. by rewrite be_val_be_bytes_id.
  - destruct Hv as [He Hp]. exists (be_bytes 4 p). split_and!; [done|by rewrite length_be_bytes|].
    cbn [parse_attr_value]. unfold read_u32. rewrite He, length_be_bytes. cbn [Nat.eqb or_malformed]. by rewrite be_val_be_bytes_id.
  - by exists [].
  - destruct Hv as [Ha Hi]. exists (encode_asn (agg_asn agg) (use_4byte_asn format) ++ be_bytes 4 (agg_ip_addr agg)).
    split_and!; [done| |].
    + unfold encode_asn. destruct (use_4byte_asn format); by rewrite length_app, !length_be_bytes.
    + cbn [parse_attr_value]. by rewrite read_aggregator_write.
  - destruct Hv as [Hne Hl]. exists (word_bytes 4 l). split_and!; [done|by apply words_nonzero; [lia|]|].
    cbn [parse_attr_value]. unfold read_attr_communities. by rewrite read_words_write by (lia || done).
  - destruct Hv as [He Hp]. exists (be_bytes 4 id). split_and!; [done|by rewrite length_be_bytes|].
    cbn [parse_attr_value]. unfold read_attr_originator_id. by rewrite He, read_be_all.
  - destruct Hv as (He & Hne & Hl). exists (word_bytes 4 l). split_and!; [done|by apply words_nonzero; [lia|]|].
    cbn [parse_attr_value]. unfold read_attr_cluster_list. by rewrite He, words_word_bytes by (lia || done).
  - destruct Hv as [Hn Hl]. pose proof (mp_nlri_afi _ _ _ _ _ Hl) as Hafi.
    destruct (read_mp_nlri_write _ _ _ _ _ Hl) as (bytes & Ew & Er).
    eexists. unfold write_attr_mp_reach_nlri. rewrite Ew. split_and!; [done..|].
    cbn [parse_attr_value]. rewrite mp_reach_read by done. by rewrite Hafi.
  - pose proof (mp_nlri_afi _ _ _ _ _ Hv) as Hafi. destruct (read_mp_nlri_write _ _ _ _ _ Hv) as (bytes & Ew & Er).
    eexists. unfold write_attr_mp_unreach_nlri. rewrite Ew. split_and!; [done..|].
    cbn [parse_attr_value]. rewrite mp_unreach_read by done. by rewrite Hafi.
  - destruct Hv as [Hne Hl]. exists (word_bytes 8 l). split_and!; [done|by apply (words_nonzero 8); [lia|]|].
    cbn [parse_attr_value]. unfold read_attr_extended_communities. by rewrite read_words_write by (lia || done).
  - destruct Hv as (Hne & Hp & Hc). eexists. split_and!; [done..|]. cbn [parse_attr_value]. by rewrite read_as4_path_write.
  - destruct Hv as [Ha Hi]. exists (be_bytes 4 (agg_asn agg) ++ be_bytes 4 (agg_ip_addr agg)). split_and!; [done..|].
    cbn [parse_attr_value]. unfold read_attr_as4_aggregator. rewrite length_app, !length_be_bytes. cbn [Nat.add Nat.eqb negb].
    pose proof (read_aggregator_write true agg Ha Hi) as E. unfold encode_asn in E. by rewrite E.
  - destruct Hv as [Hne Hl]. exists (concat (map large_to_bytes l)). split_and!; [done| |].
    + rewrite length_larges. rewrite Nat2Z.inj_mul. apply nonzero_multiple_ok; [destruct l; [done|cbn; lia]|lia].
    + cbn [parse_attr_value]. by rewrite read_larges_write.
  - eexists. split_and!; [done..|]. cbn [parse_attr_value]. by rewrite Hv.
Qed.

(** The extended-length bit and the others. *)
Lemma land_ext_set flags m : Z.land 16 m = 0 -> Z.land (Z.lor flags EXTENDED_LENGTH) m = Z.land flags m.
Proof. intros Hm. unfold EXTENDED_LENGTH. by rewrite Z.land_lor_distr_l, Hm, Z.lor_0_r. Qed.

Lemma extended_len_set flags : extended_len (Z.lor flags EXTENDED_LENGTH) = true.
Proof.
  unfold extended_len, EXTENDED_LENGTH. rewrite Z.land_lor_distr_l.
  apply negb_true_iff, Z.eqb_neq. intros Hz%Z.lor_eq_0_iff. by destruct Hz.
Qed.

Definition is_extended (a : PathAttribute) (value : list Z) : bool :=
  (255 <? length value)%nat || extended_len (base_flags a).

Lemma wire_flags_eq a four value :
  write_attr_value (pa_value a) four = Some value ->
  wire_flags a four = (if is_extended a value then Z.lor (base_flags a) EXTENDED_LENGTH else base_flags a) /\
  extended_len (wire_flags a four) = is_extended a value.
Proof.
  intros Ev. unfold wire_flags. rewrite Ev. fold (is_extended a value). split; [done|].
  destruct (is_extended a value) eqn:E; [apply extended_len_set|].
  unfold is_extended in E. by apply orb_false_iff in E as [_ ->].
Qed.

Lemma wire_flags_land a four m : Z.land 16 m = 0 -> Z.land (wire_flags a four) m = Z.land (base_flags a) m.
Proof.
  intros Hm. unfold wire_flags. destruct (write_attr_value _ _); [|done]. destruct (_ || _); [by apply land_ext_set|done].
Qed.

Definition length_bytes (ext : bool) (len : Z) : list Z := if ext then be_bytes 2 len else [len mod 2 ^ 8].

Lemma write_attr_eq a four value :
  is_skipped (pa_value a) = false -> write_attr_value (pa_value a) four = Some value ->
  write_path_attribute a four =
    Some ([wire_flags a four; type_code a] ++ length_bytes (is_extended a value) (Z.of_nat (length value)) ++ value).
Proof.
  intros Hs Ev. unfold write_path_attribute. rewrite Hs, Ev. cbn [mbind option_bind]. cbv zeta.
  destruct (wire_flags_eq a four value Ev) as [-> _]. reflexivity.
Qed.

(** Reading the header back. *)
Lemma read_header_write flags code value tail ext :
  extended_len flags = ext -> Z.of_nat (length value) < (if ext then 65536 else 256) ->
  let bytes := [flags; code] ++ length_bytes ext (Z.of_nat (length value)) ++ value ++ tail in
  header_len flags = (2 + length (length_bytes ext (Z.of_nat (length value))))%nat /\
  index (E := ParserError) bytes 0 = Ok flags /\ index (E := ParserError) bytes 1 = Ok code /\
  read_attr_len bytes flags = Ok (Z.of_nat (length value)) /\
  (length bytes = header_len flags + (length value + length tail))%nat /\
  drop (header_len flags) bytes = value ++ tail.
Proof.
  intros He Hl bytes. unfold read_attr_len, header_len. rewrite He.
  assert (length bytes = 2 + length (length_bytes ext (Z.of_nat (length value))) + (length value + length tail))%nat as Hlen.
  { unfold bytes. rewrite !length_app. cbn [length]. lia. }
  rewrite Hlen. unfold bytes in *. clear Hlen. destruct ext; cbn [length_bytes].
  - rewrite length_be_bytes. split_and!; try done.
    by apply read_be_app; [|lia].
  - split_and!; try done. cbn. by rewrite Z.mod_small by lia.
Qed.

Lemma attr_value_code v t flags : known_type v = Some t -> type_code (mkAttr flags v) = attr_type_code t.
Proof. destruct v; by intros [= <-]. Qed.

Lemma flags_ok a four t attr_len :
  known_type (pa_value a) = Some t -> flags_wf t (pa_flags a) ->
  validate_attribute_flags (wire_flags a four) t (attr_type_code t) attr_len = Ok ().
Proof.
  intros Ht [Hf Hp]. assert (base_flags a = pa_flags a) as Hb by (unfold base_flags; by destruct (pa_value a)).
  unfold validate_attribute_flags. rewrite wire_flags_land, Hb, Hf, Z.eqb_refl by done. cbn [negb].
  destruct (is_well_known t) eqn:E; [|done]. rewrite wire_flags_land, Hb, Hp by done. done.
Qed.

(** One attribute: what is written is read back. *)
Lemma read_attribute_write format a :
  attr_wf format a ->
  exists bytes value, write_path_attribute a (use_4byte_asn format) = Some bytes /\
    write_attr_value (pa_value a) (use_4byte_asn format) = Some value /\
    (length value < length bytes)%nat /\
    (forall tail, Z.of_nat (length bytes) < 65536 ->
      read_path_attribute (bytes ++ tail) format = Ok (Parsed (as_read a (use_4byte_asn format)), Z.of_nat (length bytes))).
Proof.
  intros [Hv Hf]. set (four := use_4byte_asn format).
  assert (is_skipped (pa_value a) = false) as Hs by (destruct (pa_value a) as [| |[]| | | | | | | | | | | | | | | ]; done).
  assert (exists value, write_attr_value (pa_value a) four = Some value) as [value Ev].
  { destruct (known_type (pa_value a)) as [t|] eqn:Et.
    - destruct (value_write format _ _ Hv Et) as (value & Ev & _). by exists value.
    - destruct (pa_value a); try done. by eexists. }
  destruct (wire_flags_eq a four value Ev) as [_ Hext]. rewrite (write_attr_eq a four value Hs Ev).
  eexists _, value. split_and!; [done|done|rewrite !length_app; cbn; lia|].
  intros tail Hlen. set (flags := wire_flags a four) in *. set (code := type_code a) in *.
  set (ext := is_extended a value) in *. rewrite <- !app_assoc.
  assert (Z.of_nat (length value) < (if ext then 65536 else 256)) as Hl.
  { rewrite !length_app in Hlen. unfold ext, is_extended. destruct (Nat.ltb_spec 255 (length value)); cbn [orb]; [lia|].
    destruct (extended_len (base_flags a)); cbn [orb]; lia. }
  destruct (read_header_write flags code value tail ext Hext Hl) as (Hh & H0 & H1 & Ha & Hb & Hd).
  set (bytes := [flags; code] ++ _ ++ value ++ tail) in *.
  assert (length ([flags; code] ++ length_bytes ext (Z.of_nat (length value)) ++ value) = header_len flags + length value)%nat as Hw
    by (rewrite Hh, !length_app; cbn [length]; lia).
  rewrite Hw in Hlen |- *. unfold read_path_attribute. rewrite H0. cbn [mbind outcome_bind]. rewrite Hb.
  destruct (Nat.ltb_spec (header_len flags + (length value + length tail)) (header_len flags)); [lia|].
  rewrite H1. cbn [mbind outcome_bind]. rewrite Ha. cbn [mbind outcome_bind]. rewrite Nat2Z.id.
  destruct (Nat.ltb_spec (header_len flags + (length value + length tail)) (header_len flags + length value)); [lia|].
  rewrite (Z.mod_small (Z.of_nat _)) by lia.
  destruct (known_type (pa_value a)) as [t|] eqn:Et.
  - destruct (value_write format _ _ Hv Et) as (value' & Ev' & Hvl & Hp). fold four in Ev', Hvl.
    rewrite Ev in Ev'. injection Ev' as <-.
    assert (code = attr_type_code t) as -> by (unfold code; destruct a; by apply attr_value_code).
    unfold parse_attr_type. rewrite attr_type_code_try_from. cbn [mbind outcome_bind].
    unfold read_known_attr. rewrite Nat2Z.id. cbv zeta.
    pose proof (flags_ok a four t (Z.of_nat (length value)) Et Hf) as Hfl. fold flags in Hfl. rewrite Hfl. unfold validate_attribute_length. fold four. rewrite Hvl. cbn [negb].
    rewrite skipn_firstn_comm, Hd.
    replace (header_len flags + length value - header_len flags)%nat with (length value) by lia.
    rewrite take_app_length, Hp. cbn [mbind outcome_bind]. unfold as_read. fold flags.
    by destruct (pa_value a).
  - destruct (pa_value a) as [| | | | | | | | | | | | | | | | |c f data] eqn:Epa; try done. destruct Hv as [Hc Hopt].
    cbn [write_attr_value] in Ev. injection Ev as <-.
    assert (code = c) as -> by (unfold code, type_code; by rewrite Epa).
    unfold parse_attr_type. rewrite Hc.
    assert (Z.land flags OPTIONAL = Z.land f OPTIONAL) as Eopt.
    { unfold flags. rewrite wire_flags_land by done. unfold base_flags. by rewrite Epa. }
    rewrite Eopt. destruct (Z.eqb_spec (Z.land f OPTIONAL) 0); [done|]. cbn [mbind outcome_bind].
    unfold read_unknown_attr. rewrite Nat2Z.id, Hd, take_app_length. unfold as_read. by rewrite Epa.
Qed.
End attributes.
