(* ===== verification/UpdateCodecSpec.v ===== *)
(** * The path attributes of an UPDATE: what the reader guarantees

    The loop of [read_path_attributes] ([bgpgg/src/bgp/msg_update_codec.rs])
    ends and does not panic, keeps only attributes that are well formed, and
    reads back what [write_path_attributes] wrote. *)
From S2P Require Import Prelude Wire Net PathId Notification Nlri BgpLs BgpLsParse Attrs BgpLsAttr Path UpdateCodec.

(** ** No panic *)
Section no_panic.
Context `{HashOrder}.

Lemma nlri_no_panic (v6 : bool) bytes :
  (if v6 then parse_nlri_v6_list else parse_nlri_list) bytes false <> Panic.
Proof. destruct v6; intros Hp; by apply parse_all_panic in Hp as [? _]. Qed.

Lemma read_segment_no_panic k bytes : read_segment k bytes <> Panic.
Proof.
  unfold read_segment. destruct bytes as [|t [|len body]]; [done..|]. apply outcome_bind_no_panic.
  - unfold segment_type_try_from. by split_matches.
  - intros ty _. destruct (len =? 0); [done|]. cbv zeta. by destruct (_ <? _)%nat.
Qed.

Lemma read_as_path_no_panic k bytes : try_read_as_path bytes k <> Panic.
Proof. apply parse_list_no_panic; [apply read_segment_shrinks|apply read_segment_no_panic]. Qed.

Lemma parse_attr_tlv_no_panic t value : parse_attr_tlv t value <> Panic.
Proof.
  unfold parse_attr_tlv. destruct (attr_tlv_type_from_u16 t) as [ty|]; [|done].
  destruct ty; unfold fixed, many, check_len, check_multiple, from_utf8; by split_matches.
Qed.

Lemma parse_ls_attr_no_panic data : parse_ls_attr data <> Panic.
Proof.
  unfold parse_ls_attr. destruct (bool_decide _); [done|]. apply outcome_bind_no_panic; [|done].
  apply parse_list_no_panic; [apply read_attr_tlv_shrinks|]. intros bytes. unfold read_attr_tlv.
  apply outcome_bind_no_panic; [apply read_tlv16_no_panic|]. intros [[t v] r] _.
  apply outcome_bind_no_panic; [apply parse_attr_tlv_no_panic|done].
Qed.

Lemma parse_ls_nlri_list_no_panic bytes s : parse_ls_nlri_list bytes s <> Panic.
Proof. apply outcome_fmap_no_panic, parse_list_no_panic; [apply read_ls_nlri_shrinks|apply read_ls_nlri_no_panic]. Qed.

Lemma read_mp_nlri_no_panic a s bytes : read_mp_nlri a s bytes false <> Panic.
Proof.
  destruct a; cbn [read_mp_nlri]; apply outcome_bind_no_panic; try done.
  - apply (nlri_no_panic false).
  - apply (nlri_no_panic true).
  - apply parse_ls_nlri_list_no_panic.
Qed.

Lemma read_afi_no_panic v : read_afi v <> Panic.
Proof. unfold read_afi. by destruct (afi_try_from v). Qed.
Lemma read_safi_no_panic v : read_safi v <> Panic.
Proof. unfold read_safi. by destruct (safi_try_from v). Qed.

Lemma parse_ipv6_next_hop_no_panic bytes offset len :
  (offset + 16 <= length bytes)%nat -> (len = 32%nat -> (offset + 32 <= length bytes)%nat) ->
  parse_ipv6_next_hop bytes offset len <> Panic.
Proof.
  intros H1 H2. apply outcome_bind_no_panic; [by apply read_be_no_panic|]. intros g _.
  destruct (Nat.eqb_spec len 32); [|done].
  apply outcome_bind_no_panic; [apply read_be_no_panic; specialize (H2 e); lia|done].
Qed.

Lemma next_hop_no_panic a s bytes len :
  valid_next_hop_len a s len = true -> (4 + len + 1 <= length bytes)%nat -> parse_mp_next_hop bytes 4 a len <> Panic.
Proof.
  intros Hv Hl. destruct a; cbn [parse_mp_next_hop].
  - assert (len = 4%nat) as -> by (destruct s; try done; by apply Nat.eqb_eq).
    apply outcome_bind_no_panic; [apply read_be_no_panic; lia|]. intros v _. by destruct (negb _).
  - assert (len = 16%nat \/ len = 32%nat) as Hc
      by (destruct s; try done; apply orb_true_iff in Hv as [?%Nat.eqb_eq|?%Nat.eqb_eq]; auto).
    apply parse_ipv6_next_hop_no_panic; destruct Hc; lia.
  - unfold parse_ipv4_next_hop, parse_ipv4_addr, RD_LEN.
    destruct (Nat.eqb_spec len 4); [apply outcome_fmap_no_panic, read_be_no_panic; lia|].
    destruct (Nat.eqb_spec len (8 + 4)); [apply outcome_fmap_no_panic, read_be_no_panic; lia|].
    destruct (Nat.eqb_spec len 16); [subst; apply parse_ipv6_next_hop_no_panic; lia|].
    destruct (Nat.eqb_spec len 32); [subst; apply parse_ipv6_next_hop_no_panic; lia|]. cbn [orb].
    destruct (Nat.eqb_spec len (8 + 16)); [apply parse_ipv6_next_hop_no_panic; lia|done].
Qed.

Lemma mp_reach_no_panic bytes format : mf_add_path format = 0 -> read_attr_mp_reach_nlri bytes format <> Panic.
Proof.
  intros H0. unfold read_attr_mp_reach_nlri. destruct (Nat.ltb_spec (length bytes) (4 + 1)); [done|].
  apply outcome_bind_no_panic; [apply outcome_bind_no_panic; [apply read_be_no_panic; lia|auto using read_afi_no_panic]|].
  intros a _.
  apply outcome_bind_no_panic; [apply outcome_bind_no_panic; [apply index_no_panic; lia|auto using read_safi_no_panic]|].
  intros s _. apply outcome_bind_no_panic; [apply outcome_fmap_no_panic, index_no_panic; lia|]. intros len _. cbv zeta.
  unfold validate_mp_reach_buffer. destruct (valid_next_hop_len a s len) eqn:Ev; [|done]. cbn [negb].
  destruct (Nat.ltb_spec (length bytes) (4 + len + 1)); [done|]. cbn [mbind outcome_bind].
  apply outcome_bind_no_panic; [by apply (next_hop_no_panic a s)|]. intros n _.
  rewrite H0. apply outcome_bind_no_panic; [apply read_mp_nlri_no_panic|]. by intros [nlri ls_nlri] _.
Qed.

Lemma mp_unreach_no_panic bytes format : mf_add_path format = 0 -> read_attr_mp_unreach_nlri bytes format <> Panic.
Proof.
  intros H0. unfold read_attr_mp_unreach_nlri. destruct (Nat.ltb_spec (length bytes) 3); [done|].
  apply outcome_bind_no_panic; [apply outcome_bind_no_panic; [apply read_be_no_panic; lia|auto using read_afi_no_panic]|].
  intros a _.
  apply outcome_bind_no_panic; [apply outcome_bind_no_panic; [apply index_no_panic; lia|auto using read_safi_no_panic]|].
  intros s _. cbv zeta.
  rewrite H0. apply outcome_bind_no_panic; [apply read_mp_nlri_no_panic|]. by intros [nlri ls_nlri] _.
Qed.
End no_panic.

(** ** One attribute *)
Section attribute.
Context `{HashOrder}.

Lemma or_malformed_no_panic {A} (r : outcome ParserError A) f : r <> Panic -> or_malformed r f <> Panic.
Proof. by destruct r. Qed.

Lemma read_words_no_panic k bytes : read_words k bytes <> Panic.
Proof. unfold read_words. by destruct (negb _). Qed.

Lemma read_aggregator_no_panic bytes : (6 <= length bytes)%nat -> read_attr_aggregator bytes <> Panic.
Proof.
  intros Hl. unfold read_attr_aggregator. destruct (Nat.eqb_spec (length bytes) 8);
    repeat (apply outcome_bind_no_panic; [apply read_be_no_panic; lia|intros ? _]); done.
Qed.

Lemma parse_attr_value_no_panic t data format :
  valid_attribute_length t (Z.of_nat (length data)) (use_4byte_asn format) = true -> mf_add_path format = 0 ->
  parse_attr_value t data format <> Panic.
Proof.
  intros Hv H0. destruct t; cbn [valid_attribute_length] in Hv; cbn [parse_attr_value]; cbv zeta.
  - apply outcome_bind_no_panic; [apply index_no_panic; lia|done].
  - apply or_malformed_no_panic. unfold read_attr_as_path. destruct (bool_decide _); [done|apply read_as_path_no_panic].
  - apply outcome_bind_no_panic; [apply outcome_fmap_no_panic, read_be_no_panic; lia|done].
  - apply or_malformed_no_panic. unfold read_u32. by destruct (_ =? _)%nat.
  - destruct (mf_is_ebgp format); [done|]. apply or_malformed_no_panic. unfold read_u32. by destruct (_ =? _)%nat.
  - done.
  - apply outcome_bind_no_panic; [apply read_aggregator_no_panic; destruct (use_4byte_asn format); lia|done].
  - apply or_malformed_no_panic, read_words_no_panic.
  - destruct (mf_is_ebgp format); [done|]. apply outcome_bind_no_panic; [apply read_be_no_panic; lia|done].
  - by destruct (mf_is_ebgp format).
  - pose proof (mp_reach_no_panic data format H0). by destruct (read_attr_mp_reach_nlri data format).
  - pose proof (mp_unreach_no_panic data format H0). by destruct (read_attr_mp_unreach_nlri data format).
  - apply or_malformed_no_panic, read_words_no_panic.
  - apply or_malformed_no_panic. unfold read_attr_as4_path. destruct (_ || _); [done|].
    apply outcome_fmap_no_panic, read_as_path_no_panic.
  - apply or_malformed_no_panic. unfold read_attr_as4_aggregator. destruct (Nat.eqb_spec (length data) 8); [|done].
    apply read_aggregator_no_panic. lia.
  - pose proof (parse_ls_attr_no_panic data). by destruct (parse_ls_attr data).
  - apply or_malformed_no_panic. unfold read_attr_large_communities. by destruct (negb _).
Qed.

(** The header of an attribute that fits in the buffer. *)
Lemma header_size flags : header_len flags = 3%nat \/ header_len flags = 4%nat.
Proof. unfold header_len. destruct (extended_len flags); auto. Qed.

Lemma read_attr_len_no_panic bytes flags :
  (header_len flags <= length bytes)%nat -> read_attr_len bytes flags <> Panic.
Proof.
  unfold header_len, read_attr_len. destruct (extended_len flags); intros; [apply read_be_no_panic|apply index_no_panic]; lia.
Qed.

Lemma validate_flags_no_panic flags t code len : validate_attribute_flags flags t code len <> Panic.
Proof. unfold validate_attribute_flags. destruct (negb _); [done|]. by destruct (_ && _). Qed.

Lemma read_known_no_panic t bytes flags code attr_len format :
  0 <= attr_len -> (header_len flags + Z.to_nat attr_len <= length bytes)%nat -> mf_add_path format = 0 ->
  read_known_attr t bytes flags code attr_len format <> Panic.
Proof.
  intros Hp Hl H0. unfold read_known_attr. pose proof (validate_flags_no_panic flags t code attr_len).
  destruct (validate_attribute_flags flags t code attr_len); [|by destruct (code =? MP_REACH_NLRI)|done].
  unfold validate_attribute_length.
  destruct (valid_attribute_length t attr_len (use_4byte_asn format)) eqn:Ev; cbn [negb]; [|by destruct (code =? MP_REACH_NLRI)].
  apply outcome_bind_no_panic.
  - apply parse_attr_value_no_panic; [|done]. rewrite length_drop, length_take.
    rewrite <- Ev. f_equal. lia.
  - intros [v|] _; [done|]. by destruct (code =? MP_REACH_NLRI).
Qed.

Lemma parse_attr_type_no_panic bytes flags code len : parse_attr_type bytes flags code len <> Panic.
Proof. unfold parse_attr_type. destruct (attr_type_try_from code); [done|by destruct (_ =? 0)..]. Qed.

Lemma index_ok {E A} (P : A -> Prop) (l : list A) i a : Forall P l -> index (E := E) l i = Ok a -> P a.
Proof.
  unfold index. intros Hf Hi. destruct (l !! i) as [b|] eqn:Eb; [|done]. injection Hi as ->.
  by eapply Forall_lookup_1.
Qed.

Lemma read_attr_len_nonneg bytes flags attr_len : bytes_ok bytes -> read_attr_len bytes flags = Ok attr_len -> 0 <= attr_len.
Proof.
  intros Hb. unfold read_attr_len. destruct (extended_len flags).
  - unfold read_be, slice. destruct (_ <=? _)%nat; [|done]. intros [= <-].
    apply be_val_bounds. by apply Forall_take, Forall_drop.
  - intros Hi. apply (index_ok u8) in Hi; [|done]. apply Hi.
Qed.

Lemma read_path_attribute_no_panic bytes format :
  bytes <> [] -> bytes_ok bytes -> mf_add_path format = 0 -> read_path_attribute bytes format <> Panic.
Proof.
  intros Hne Hb H0. unfold read_path_attribute.
  apply outcome_bind_no_panic; [apply index_no_panic; destruct bytes; [done|cbn; lia]|]. intros flags _. cbv zeta.
  destruct (Nat.ltb_spec (length bytes) (header_len flags)) as [|Hh]; [done|].
  assert (3 <= header_len flags)%nat by (destruct (header_size flags); lia).
  apply outcome_bind_no_panic; [apply index_no_panic; lia|]. intros code _.
  apply outcome_bind_no_panic; [by apply read_attr_len_no_panic|]. intros attr_len Hal.
  apply read_attr_len_nonneg in Hal; [|done].
  destruct (Nat.ltb_spec (length bytes) (header_len flags + Z.to_nat attr_len)); [done|].
  apply outcome_bind_no_panic; [apply parse_attr_type_no_panic|]. intros k _.
  apply outcome_bind_no_panic; [|done]. destruct k as [t|]; [|done]. by apply read_known_no_panic.
Qed.

(** Every turn of the loop consumes a byte at least, and none past the end. *)
Lemma read_path_attribute_offset bytes format result offset :
  bytes <> [] -> Z.of_nat (length bytes) < 65536 -> read_path_attribute bytes format = Ok (result, offset) ->
  0 < offset <= Z.of_nat (length bytes).
Proof.
  intros Hne Hl. assert (0 < length bytes)%nat as Hp by (destruct bytes; [done|cbn; lia]).
  assert (Z.of_nat (length bytes) mod 2 ^ 16 = Z.of_nat (length bytes)) as Hm by (apply Z.mod_small; lia).
  unfold read_path_attribute. destruct (index bytes 0) as [flags| |]; [|done..]. cbn [mbind outcome_bind]. cbv zeta.
  destruct (Nat.ltb_spec (length bytes) (header_len flags)); [intros [= _ <-]; lia|].
  destruct (index bytes 1) as [code| |]; [|done..]. cbn [mbind outcome_bind].
  destruct (read_attr_len bytes flags) as [len| |]; [|done..]. cbn [mbind outcome_bind].
  destruct (Nat.ltb_spec (length bytes) (header_len flags + Z.to_nat len)); [intros [= _ <-]; lia|].
  destruct (parse_attr_type _ _ _ _) as [k| |]; [|done..]. cbn [mbind outcome_bind].
  destruct (match k with Some t => _ | None => _ end) as [r| |]; [|done..]. cbn [mbind outcome_bind]. intros [= _ <-].
  rewrite Z.mod_small by lia. destruct (header_size flags); lia.
Qed.
End attribute.

(** ** What an accepted attribute satisfies *)
Definition accepted_value (format : MessageFormat) (v : PathAttrValue) : Prop :=
  match v with
  | ANextHop n => exists addr, n = NhIpv4 addr /\ is_valid_unicast_ipv4 addr = true
  | ALocalPref _ | AOriginatorId _ | AClusterList _ => mf_is_ebgp format = false
  | AAsPath path => Forall (fun s => segment_len s <> 0) path
  | AAs4Path path => Forall (fun s => is_confed_segment (segment_type s) = false) path
  | AMpReachNlri mp => validate_nlri_afi (mr_afi mp) (mr_nlri mp) = true
  | AMpUnreachNlri mp => validate_nlri_afi (mu_afi mp) (mu_withdrawn_routes mp) = true
  | AUnknown code flags _ => (forall t, attr_type_code t <> code) /\ Z.land flags OPTIONAL <> 0
  | _ => True
  end.

Definition accepted (format : MessageFormat) (a : PathAttribute) : Prop :=
  accepted_value format (pa_value a) /\
  match known_type (pa_value a) with Some t => flags_wf t (pa_flags a) | None => True end.

Section accepted.
Context `{HashOrder}.

Lemma or_malformed_ok {A} (r : outcome ParserError A) f v : or_malformed r f = Ok (Some v) -> exists a, r = Ok a /\ v = f a.
Proof. destruct r; [|done..]. intros [= <-]. eauto. Qed.

Lemma read_as_path_segments k bytes path : try_read_as_path bytes k = Ok path -> Forall (fun s => segment_len s <> 0) path.
Proof.
  unfold try_read_as_path. apply (parse_list_forall _ (read_segment_shrinks k) (fun _ => True)); [|done].
  intros b s rest _ Hr. split; [|done]. unfold read_segment in Hr. destruct b as [|t [|len body]]; [done..|].
  destruct (segment_type_try_from t); [|done..]. cbn [mbind outcome_bind] in Hr.
  destruct (Z.eqb_spec len 0); [done|]. cbv zeta in Hr. destruct (_ <? _)%nat; [done|]. by injection Hr as <- _.
Qed.

Lemma parse_attr_value_accepted t data format v :
  parse_attr_value t data format = Ok (Some v) -> known_type v = Some t /\ accepted_value format v.
Proof.
  destruct t; cbn [parse_attr_value]; cbv zeta; intros Hp.
  - destruct (index data 0); [|done..]. cbn [mbind outcome_bind] in Hp. by split_matches.
  - apply or_malformed_ok in Hp as (path & Hr & ->). split; [done|]. cbn.
    unfold read_attr_as_path in Hr. destruct (bool_decide _); [injection Hr as <-; constructor|by eapply read_as_path_segments].
  - unfold read_attr_next_hop in Hp. destruct (read_be data 0 4) as [addr| |]; [|done..].
    cbn [mbind outcome_bind fmap outcome_fmap] in Hp.
    destruct (is_valid_unicast_ipv4 addr) eqn:Ev; [|done]. injection Hp as <-. split; [done|]. by exists addr.
  - by apply or_malformed_ok in Hp as (x & _ & ->).
  - cbn. destruct (mf_is_ebgp format) eqn:Ee; [done|]. by apply or_malformed_ok in Hp as (x & _ & ->).
  - by injection Hp as <-.
  - destruct (read_attr_aggregator data); [|done..]. by injection Hp as <-.
  - by apply or_malformed_ok in Hp as (x & _ & ->).
  - destruct (mf_is_ebgp format) eqn:Ee; [done|]. destruct (read_attr_originator_id data); [|done..]. by injection Hp as <-.
  - destruct (mf_is_ebgp format) eqn:Ee; [done|]. by injection Hp as <-.
  - destruct (read_attr_mp_reach_nlri data format) as [mp| |]; [|done..].
    destruct (validate_nlri_afi (mr_afi mp) (mr_nlri mp)) eqn:Ev; [|done]. by injection Hp as <-.
  - destruct (read_attr_mp_unreach_nlri data format) as [mp| |]; [|done..].
    destruct (validate_nlri_afi (mu_afi mp) (mu_withdrawn_routes mp)) eqn:Ev; [|done]. by injection Hp as <-.
  - by apply or_malformed_ok in Hp as (x & _ & ->).
  - apply or_malformed_ok in Hp as (path & Hr & ->). split; [done|]. cbn. unfold read_attr_as4_path in Hr.
    destruct (_ || _); [done|]. destruct (try_read_as_path data 4) as [p| |]; [|done..]. injection Hr as <-.
    apply Forall_forall. by intros s [? _]%list_elem_of_filter.
  - by apply or_malformed_ok in Hp as (x & _ & ->).
  - destruct (parse_ls_attr data); [|done..]. by injection Hp as <-.
  - by apply or_malformed_ok in Hp as (x & _ & ->).
Qed.

Lemma validated_flags_wf flags t code len : validate_attribute_flags flags t code len = Ok () -> flags_wf t flags.
Proof.
  unfold flags_wf, validate_attribute_flags, flags_error, update_err_data.
  destruct (Z.eqb_spec (Z.land flags (Z.lor OPTIONAL TRANSITIVE)) (expected_flags t)); [|done]. cbn [negb].
  destruct (is_well_known t) eqn:Ew; cbn [andb]; [|intros _; by split].
  destruct (Z.eqb_spec (Z.land flags PARTIAL) 0); [|done]. intros _. by split.
Qed.

Lemma read_known_accepted t bytes flags code len format a :
  read_known_attr t bytes flags code len format = Ok (Parsed a) -> accepted format a /\ known_type (pa_value a) = Some t.
Proof.
  unfold read_known_attr. destruct (validate_attribute_flags flags t code len) as [[]| |] eqn:Ef; [|by destruct (code =? _)|done].
  destruct (validate_attribute_length _ _ _ _); [|by destruct (code =? _)|done].
  destruct (parse_attr_value t _ format) as [[v|]| |] eqn:Ev; [|by cbn; destruct (code =? _)|done..].
  cbn [mbind outcome_bind]. intros [= <-]. apply parse_attr_value_accepted in Ev as [Ht Hv].
  unfold accepted. cbn [pa_value pa_flags]. rewrite Ht. split; [split; [done|]|done]. by eapply validated_flags_wf.
Qed.

Lemma optional_partial flags : Z.land (Z.lor flags PARTIAL) OPTIONAL = Z.land flags OPTIONAL.
Proof. rewrite Z.land_lor_distr_l. change (Z.land PARTIAL OPTIONAL) with 0. apply Z.lor_0_r. Qed.

Lemma attr_type_unknown code t : (forall t', attr_type_try_from code <> Ok t') -> attr_type_code t <> code.
Proof. intros Hn <-. by apply (Hn t), attr_type_code_try_from. Qed.

Lemma read_attribute_accepted bytes format a offset :
  read_path_attribute bytes format = Ok (Parsed a, offset) -> accepted format a.
Proof.
  unfold read_path_attribute. destruct (index bytes 0) as [flags| |]; [|done..]. cbn [mbind outcome_bind]. cbv zeta.
  destruct (_ <? _)%nat; [done|]. destruct (index bytes 1) as [code| |]; [|done..]. cbn [mbind outcome_bind].
  destruct (read_attr_len bytes flags) as [len| |]; [|done..]. cbn [mbind outcome_bind].
  destruct (_ <? _)%nat; [done|].
  destruct (parse_attr_type bytes flags code len) as [[t|]| |] eqn:Et; [| |done..]; cbn [mbind outcome_bind].
  - destruct (read_known_attr t bytes flags code len format) as [r| |] eqn:Er; [|done..]. cbn [mbind outcome_bind].
    intros [= -> _]. by apply read_known_accepted in Er as [? _].
  - intros [= <- _]. unfold parse_attr_type in Et.
    assert ((forall t', attr_type_try_from code <> Ok t') /\ Z.land flags OPTIONAL <> 0) as [Hn Ho].
    { destruct (attr_type_try_from code); [done|..]; by destruct (Z.eqb_spec (Z.land flags OPTIONAL) 0). }
    split; [|done]. split; [by intros t; apply attr_type_unknown|].
    destruct (negb _); [by rewrite optional_partial|done].
Qed.
End accepted.

(** ** The loop *)
Section loop.
Context `{HashOrder}.

Lemma read_loop_step fuel bytes format seen attributes taw :
  bytes <> [] -> (0 < fuel)%nat ->
  read_attributes_loop fuel bytes format seen attributes taw =
    match read_path_attribute bytes format with
    | Ok (Parsed a, offset) =>
        let rest := drop (Z.to_nat offset) bytes in
        if bool_decide (type_code a ∈ seen) then
          if (type_code a =? MP_REACH_NLRI) || (type_code a =? MP_UNREACH_NLRI) then update_err MalformedAttributeList
          else read_attributes_loop (fuel - 1) rest format seen attributes taw
        else read_attributes_loop (fuel - 1) rest format (type_code a :: seen) (attributes ++ [a]) taw
    | Ok (Malformed TreatAsWithdraw, offset) =>
        read_attributes_loop (fuel - 1) (drop (Z.to_nat offset) bytes) format seen attributes true
    | Ok (Malformed Discard, offset) =>
        read_attributes_loop (fuel - 1) (drop (Z.to_nat offset) bytes) format seen attributes taw
    | Err e => Err e
    | Panic => Panic
    end.
Proof.
  intros Hne Hf. destruct fuel as [|fuel]; [lia|]. destruct bytes as [|b bytes]; [done|]. cbn [read_attributes_loop].
  rewrite Nat.sub_1_r. cbn [Nat.pred]. by destruct (read_path_attribute _ _) as [[[a|[]] offset]| |].
Qed.

Lemma read_loop_no_panic fuel : forall bytes format seen attributes taw,
  bytes_ok bytes -> Z.of_nat (length bytes) < 65536 -> (length bytes <= fuel)%nat -> mf_add_path format = 0 ->
  read_attributes_loop fuel bytes format seen attributes taw <> Panic.
Proof.
  induction fuel as [|fuel IH]; intros bytes format seen attributes taw Hb Hl Hf H0.
  { by destruct bytes; [|cbn in Hf; lia]. }
  destruct (decide (bytes = [])) as [->|Hne]; [done|]. rewrite read_loop_step by (done || lia).
  rewrite Nat.sub_1_r. cbn [Nat.pred].
  pose proof (read_path_attribute_no_panic bytes format Hne Hb H0) as Hp.
  destruct (read_path_attribute bytes format) as [[r offset]| |] eqn:E; [|done..].
  apply read_path_attribute_offset in E; [|done..].
  assert (forall seen attributes taw,
    read_attributes_loop fuel (drop (Z.to_nat offset) bytes) format seen attributes taw <> Panic) as Hr.
  { intros s a w. apply IH; [by apply Forall_drop|rewrite length_drop; lia..|done]. }
  cbv zeta. destruct r as [a|[]]; [|apply Hr..]. destruct (bool_decide _); [|apply Hr].
  destruct (_ || _); [done|apply Hr].
Qed.

Lemma read_attributes_loop_sound fuel : forall bytes format seen attributes taw l taw',
  Forall (accepted format) attributes -> NoDup (map type_code attributes) ->
  (forall c, c ∈ seen <-> c ∈ map type_code attributes) ->
  read_attributes_loop fuel bytes format seen attributes taw = Ok (l, taw') ->
  Forall (accepted format) l /\ NoDup (map type_code l).
Proof.
  induction fuel as [|fuel IH]; intros bytes format seen attributes taw l taw' Ha Hn Hs.
  { destruct bytes; [|done]. by intros [= <- <-]. }
  destruct (decide (bytes = [])) as [->|Hne]; [by intros [= <- <-]|]. rewrite read_loop_step by (done || lia).
  rewrite Nat.sub_1_r. cbn [Nat.pred].
  destruct (read_path_attribute bytes format) as [[r offset]| |] eqn:E; [|done..].
  cbv zeta. destruct r as [a|[]]; [|by apply IH..].
  destruct (bool_decide_reflect (type_code a ∈ seen)) as [|Hin]; [destruct (_ || _); [done|by apply IH]|].
  apply IH.
  - apply Forall_app. split; [done|]. apply Forall_singleton. by eapply read_attribute_accepted.
  - rewrite map_app. apply NoDup_app. split; [done|]. split; [|apply NoDup_singleton].
    intros c Hc [=->]%list_elem_of_singleton. by apply Hin, Hs.
  - intros c. rewrite map_app, elem_of_app, elem_of_cons, Hs. cbn. rewrite list_elem_of_singleton. tauto.
Qed.

Lemma type_code_as_read a four : type_code (as_read a four) = type_code a.
Proof. unfold as_read. by destruct a as [f []]. Qed.

Lemma write_attributes_cons a l four :
  write_path_attributes (a :: l) four =
    (bytes ← write_path_attribute a four; more ← write_path_attributes l four; Some (bytes ++ more)).
Proof. reflexivity. Qed.

Lemma read_loop_write format l : forall seen attributes taw,
  Forall (attr_wf format) l -> NoDup (map type_code l) -> (forall a, a ∈ l -> type_code a ∉ seen) ->
  exists bytes, write_path_attributes l (use_4byte_asn format) = Some bytes /\
    forall fuel, Z.of_nat (length bytes) < 65536 -> (length bytes <= fuel)%nat ->
      read_attributes_loop fuel bytes format seen attributes taw =
        Ok (attributes ++ map (fun a => as_read a (use_4byte_asn format)) l, taw).
Proof.
  induction l as [|a l IH]; intros seen attributes taw Hw Hn Hs.
  { exists []. split; [done|]. intros fuel _ _. cbn [map]. rewrite app_nil_r. by destruct fuel. }
  apply Forall_cons in Hw as [Ha Hw]. cbn [map] in Hn. apply NoDup_cons in Hn as [Hna Hn].
  destruct (read_attribute_write format a Ha) as (abytes & value & Ew & _ & Hlt & Hr).
  set (four := use_4byte_asn format) in *.
  destruct (IH (type_code a :: seen) (attributes ++ [as_read a four]) taw Hw Hn) as (more & Em & Hm).
  { intros b Hb [Heq|Hin]%elem_of_cons; [apply Hna; rewrite <- Heq; by apply list_elem_of_fmap_2|].
    apply (Hs b); [by apply list_elem_of_further|done]. }
  exists (abytes ++ more). rewrite write_attributes_cons, Ew. cbn [mbind option_bind]. rewrite Em. split; [done|].
  intros fuel Hl Hf. rewrite length_app in Hl, Hf.
  rewrite read_loop_step; [|intros E; apply app_eq_nil in E as [-> _]; cbn in Hlt; lia|lia].
  rewrite Hr by lia. cbv zeta. rewrite type_code_as_read, bool_decide_eq_false_2 by (apply Hs, list_elem_of_here).
  rewrite Nat2Z.id, drop_app_length, Hm by lia. by rewrite <- app_assoc.
Qed.
End loop.

(** ** Properties *)

(** Reading the path attributes of a message ends without a panic on any
    bytes a message can carry, on a session without ADD-PATH: every turn
    consumes a byte at least, no attribute is read past its end, and no value
    is sliced before its length was checked. *)
Theorem read_path_attributes_total `{HashOrder} (bytes : list Z) (format : MessageFormat) :
  bytes_ok bytes -> Z.of_nat (length bytes) < 65536 -> mf_add_path format = 0 ->
  read_path_attributes bytes format <> Panic.
Proof. intros Hb Hl H0. exact (read_loop_no_panic _ bytes format [] [] false Hb Hl (le_n _) H0). Qed.

(** The attributes kept by the reader have distinct type codes and are
    well formed as RFC 4271 and RFC 7606 ask: the flags are those of the type,
    the next hop is a unicast address, LOCAL_PREF, ORIGINATOR_ID and
    CLUSTER_LIST are dropped from external peers, AS_PATH segments are not
    empty, AS4_PATH has no confederation segment, the prefixes of a
    multiprotocol attribute are of its family, and an unknown attribute is
    optional. *)
Theorem read_path_attributes_sound `{HashOrder} (bytes : list Z) (format : MessageFormat) l taw :
  read_path_attributes bytes format = Ok (l, taw) -> Forall (accepted format) l /\ NoDup (map type_code l).
Proof.
  exact (read_attributes_loop_sound (length bytes) bytes format [] [] false l taw (Forall_nil_2 _) (NoDup_nil_2) (fun c => iff_refl _)).
Qed.

(** Path attributes that a session can carry are read back from the bytes
    written for them, with the length of every value in one or two octets as
    needed, the extended-length bit set for the latter, and the partial bit
    set on an unknown transitive attribute. *)
Theorem path_attributes_roundtrip `{HashOrder} (format : MessageFormat) (l : list PathAttribute) :
  Forall (attr_wf format) l -> NoDup (map type_code l) ->
  exists bytes, write_path_attributes l (use_4byte_asn format) = Some bytes /\
    (Z.of_nat (length bytes) < 65536 ->
     read_path_attributes bytes format = Ok (map (fun a => as_read a (use_4byte_asn format)) l, false)).
Proof.
  intros Hw Hn. destruct (read_loop_write format l [] [] false Hw Hn) as (bytes & Hb & Hr); [set_solver|].
  exists bytes. split; [exact Hb|]. intros Hl. exact (Hr _ Hl (le_n _)).
Qed.

(** ** Witnesses *)
Definition demo_format : MessageFormat := mkFormat true 0 true false.

Definition demo_attributes : list PathAttribute :=
  [mkAttr TRANSITIVE (AOrigin IGP);
   mkAttr TRANSITIVE (AAsPath [mkSegment AsSequence 2 [4200000000; 65001]]);
   mkAttr TRANSITIVE (ANextHop (NhIpv4 0x0A000001));
   mkAttr (Z.lor OPTIONAL TRANSITIVE) (ACommunities [0xFDE80001]);
   mkAttr OPTIONAL (AMpReachNlri (mkMpReach Afi_Ipv6 Unicast (NhIpv6 1) [mkNlri (V6 (mkV6 (2 ^ 125) 32)) None] []));
   mkAttr 0 (AUnknown 200 (Z.lor OPTIONAL TRANSITIVE) [1; 2; 3])].

Lemma demo_attributes_wf : Forall (attr_wf (H := insertion_order) demo_format) demo_attributes.
Proof.
  apply Forall_cons_2; [by split; [|split; [|intros _]]|].
  apply Forall_cons_2.
  { split; [|by split; [|intros _]]. apply Forall_singleton. split; [cbn; lia|]. split; [done|].
    apply Forall_cons_2; [by cbv|]. apply Forall_singleton. by cbv. }
  apply Forall_cons_2; [split; [split; [unfold u32; lia|done]|by split; [|intros _]]|].
  apply Forall_cons_2; [split; [split; [done|apply Forall_singleton; unfold u32; lia]|by split]|].
  apply Forall_cons_2; [|apply Forall_singleton; split; [by split|done]].
  split; [|by split]. split; [cbn; unfold u128; lia|]. split; [|done].
  apply Forall_singleton. cbn. unfold u128. repeat split; try done; cbn; lia.
Qed.

Lemma read_path_attributes_total_witness :
  read_path_attributes (H := insertion_order) [64; 1; 1; 9; 255] demo_format <> Panic.
Proof.
  apply (read_path_attributes_total (H := insertion_order)); [|reflexivity|reflexivity].
  apply bytes_ok_forallb. reflexivity.
Defined.

Lemma read_path_attributes_sound_witness :
  exists l, read_path_attributes (H := insertion_order) [64; 1; 1; 0; 64; 5; 4; 0; 0; 0; 100] demo_format = Ok (l, false) /\
    Forall (accepted demo_format) l /\ NoDup (map type_code l).
Proof.
  exists [mkAttr 64 (AOrigin IGP)]. split; [reflexivity|].
  apply (read_path_attributes_sound (H := insertion_order) [64; 1; 1; 0; 64; 5; 4; 0; 0; 0; 100] demo_format _ false). reflexivity.
Defined.

Lemma path_attributes_roundtrip_witness :
  exists bytes, write_path_attributes demo_attributes true = Some bytes /\
    (Z.of_nat (length bytes) < 65536 ->
     read_path_attributes (H := insertion_order) bytes demo_format = Ok (map (fun a => as_read a true) demo_attributes, false)).
Proof.
  apply (path_attributes_roundtrip (H := insertion_order) demo_format demo_attributes demo_attributes_wf).
  by apply (bool_decide_unpack _).
Defined.
