(* ===== verification/Update.v ===== *)
(** * The UPDATE message ([bgpgg/src/bgp/msg_update.rs], and
    [Path::from_update_msg] of [bgpgg/src/rib/path.rs])

    The message as a record, its constructors, accessors, decoder and encoder.
    A constructor or encoder that writes attributes or prefixes gives [None]
    where the code panics (a prefix length out of range). *)
From S2P Require Import Prelude Wire Net Vrp PathId Notification Nlri BgpLs BgpLsParse Attrs BgpLsAttr Path UpdateCodec UpdateCodecSpec.

Record UpdateMessage := mkUpdate {
  withdrawn_routes_len : Z;
  withdrawn_routes : list Nlri;
  total_path_attributes_len : Z;
  path_attributes : list PathAttribute;
  nlri_list : list Nlri;
  um_format : MessageFormat;
}.

(** ** Construction *)
Definition is_v4 (net : IpNetwork) : bool := match net with V4 _ => true | V6 _ => false end.

Definition local_pref_attr (p : PathAttrs) : list PathAttribute :=
  match pa_local_pref p with Some pref => [mkAttr TRANSITIVE (ALocalPref pref)] | None => [] end.
Definition med_attr (p : PathAttrs) : list PathAttribute :=
  match pa_med p with Some metric => [mkAttr OPTIONAL (AMultiExtiDisc metric)] | None => [] end.
Definition atomic_attr (p : PathAttrs) : list PathAttribute :=
  if pa_atomic_aggregate p then [mkAttr TRANSITIVE AAtomicAggregate] else [].
Definition aggregator_attr (p : PathAttrs) : list PathAttribute :=
  match pa_aggregator p with Some agg => [mkAttr (Z.lor OPTIONAL TRANSITIVE) (AAggregator agg)] | None => [] end.

(** The attribute of a list, when it is not empty. *)
Definition list_attr {A} (flags : Z) (mk : list A -> PathAttrValue) (l : list A) : list PathAttribute :=
  match l with [] => [] | _ => [mkAttr flags (mk l)] end.
Definition originator_attr (p : PathAttrs) : list PathAttribute :=
  match pa_originator_id p with Some id => [mkAttr OPTIONAL (AOriginatorId id)] | None => [] end.

Definition build_common_path_attrs (path : Path) : list PathAttribute :=
  let p := attrs path in
  [mkAttr TRANSITIVE (AOrigin (pa_origin p)); mkAttr TRANSITIVE (AAsPath (pa_as_path p))] ++
  local_pref_attr p ++ med_attr p ++ atomic_attr p ++ aggregator_attr p ++
  list_attr (Z.lor OPTIONAL TRANSITIVE) ACommunities (pa_communities p) ++
  originator_attr p ++
  list_attr OPTIONAL AClusterList (pa_cluster_list p) ++
  list_attr (Z.lor OPTIONAL TRANSITIVE) AExtendedCommunities (pa_extended_communities p) ++
  list_attr (Z.lor OPTIONAL TRANSITIVE) ALargeCommunities (pa_large_communities p) ++
  pa_unknown_attrs p.

(** [write_path_attributes(..).len() as u16] *)
Definition attributes_len (l : list PathAttribute) (format : MessageFormat) : option Z :=
  bytes ← write_path_attributes l (use_4byte_asn format); Some (Z.of_nat (length bytes) mod 2 ^ 16).

Definition ipv4_unicast : AfiSafi := mkAfiSafi Afi_Ipv4 Unicast.
Definition ipv6_unicast : AfiSafi := mkAfiSafi Afi_Ipv6 Unicast.

Definition um_new (path : Path) (nlri : list IpNetwork) (format : MessageFormat) : option UpdateMessage :=
  let ipv4_routes := filter (fun net => is_v4 net = true) nlri in
  let ipv6_routes := filter (fun net => is_v4 net = false) nlri in
  let next_hop := pa_next_hop (attrs path) in
  let next_hop_attr :=
    match ipv4_routes, next_hop with
    | _ :: _, NhIpv4 _ => [mkAttr TRANSITIVE (ANextHop next_hop)]
    | _, _ => []
    end in
  let ipv4_path_id := path_id_for path (mf_add_path format) ipv4_unicast in
  let ipv6_path_id := path_id_for path (mf_add_path format) ipv6_unicast in
  let mp_reach :=
    match ipv6_routes with
    | [] => []
    | _ => [mkAttr OPTIONAL (AMpReachNlri (mkMpReach Afi_Ipv6 Unicast next_hop (make_nlri_list ipv6_routes ipv6_path_id) []))]
    end in
  let path_attributes := build_common_path_attrs path ++ next_hop_attr ++ mp_reach in
  len ← attributes_len path_attributes format;
  Some (mkUpdate 0 [] len path_attributes (make_nlri_list ipv4_routes ipv4_path_id) format).

Definition new_ls (path : Path) (ls_nlri : list LsNlri) (a : AfiSafi) (format : MessageFormat) : option UpdateMessage :=
  let path_attributes := build_common_path_attrs path ++
    [mkAttr OPTIONAL (AMpReachNlri (mkMpReach (afi a) (safi a) (pa_next_hop (attrs path)) [] ls_nlri))] ++
    match pa_ls_attr (attrs path) with
    | Some ls_attr => [mkAttr (Z.lor OPTIONAL TRANSITIVE) (ALsAttr ls_attr)]
    | None => []
    end in
  len ← attributes_len path_attributes format;
  Some (mkUpdate 0 [] len path_attributes [] format).

Definition new_withdraw (withdrawn : list Nlri) (format : MessageFormat) : option UpdateMessage :=
  let ipv4_withdrawn := filter (fun n => is_v4 (nlri_prefix n) = true) withdrawn in
  let ipv6_withdrawn := filter (fun n => is_v4 (nlri_prefix n) = false) withdrawn in
  let path_attributes :=
    match ipv6_withdrawn with
    | [] => []
    | _ => [mkAttr OPTIONAL (AMpUnreachNlri (mkMpUnreach Afi_Ipv6 Unicast ipv6_withdrawn []))]
    end in
  bytes ← write_nlri_list ipv4_withdrawn;
  len ← attributes_len path_attributes format;
  Some (mkUpdate (Z.of_nat (length bytes) mod 2 ^ 16) ipv4_withdrawn len path_attributes [] format).

Definition new_ls_withdraw (ls_withdrawn : list LsNlri) (a : AfiSafi) (format : MessageFormat) : option UpdateMessage :=
  let path_attributes := [mkAttr OPTIONAL (AMpUnreachNlri (mkMpUnreach (afi a) (safi a) [] ls_withdrawn))] in
  len ← attributes_len path_attributes format;
  Some (mkUpdate 0 [] len path_attributes [] format).

Definition new_eor (a : Afi) (s : Safi) (format : MessageFormat) : UpdateMessage :=
  match a, s with
  | Afi_Ipv4, Unicast => mkUpdate 0 [] 0 [] [] format
  | _, _ => mkUpdate 0 [] 0 [mkAttr OPTIONAL (AMpUnreachNlri (mkMpUnreach a s [] []))] [] format
  end.

(** ** Access *)

(** [iter().find_map(..)] *)
Definition find_map {A B} (f : A -> option B) (l : list A) : option B := head (omap f l).

(** The patterns of the accessors. *)
Definition sel_origin (v : PathAttrValue) : option Origin := match v with AOrigin x => Some x | _ => None end.
Definition sel_as_path (v : PathAttrValue) : option AsPath := match v with AAsPath x => Some x | _ => None end.
Definition sel_as4_path (v : PathAttrValue) : option AsPath := match v with AAs4Path x => Some x | _ => None end.
Definition sel_aggregator (v : PathAttrValue) : option Aggregator := match v with AAggregator x => Some x | _ => None end.
Definition sel_as4_aggregator (v : PathAttrValue) : option Aggregator := match v with AAs4Aggregator x => Some x | _ => None end.
Definition sel_next_hop (v : PathAttrValue) : option NextHopAddr := match v with ANextHop x => Some x | _ => None end.
Definition sel_local_pref (v : PathAttrValue) : option Z := match v with ALocalPref x => Some x | _ => None end.
Definition sel_med (v : PathAttrValue) : option Z := match v with AMultiExtiDisc x => Some x | _ => None end.
Definition sel_communities (v : PathAttrValue) : option (list Z) := match v with ACommunities x => Some x | _ => None end.
Definition sel_extended_communities (v : PathAttrValue) : option (list Z) := match v with AExtendedCommunities x => Some x | _ => None end.
Definition sel_large_communities (v : PathAttrValue) : option (list LargeCommunity) := match v with ALargeCommunities x => Some x | _ => None end.
Definition sel_originator_id (v : PathAttrValue) : option Z := match v with AOriginatorId x => Some x | _ => None end.
Definition sel_cluster_list (v : PathAttrValue) : option (list Z) := match v with AClusterList x => Some x | _ => None end.
Definition sel_ls_attr (v : PathAttrValue) : option LsAttr := match v with ALsAttr x => Some x | _ => None end.
Definition sel_leftmost_as (v : PathAttrValue) : option Z := match v with AAsPath p => leftmost_as p | _ => None end.
Definition sel_mp_next_hop (v : PathAttrValue) : option NextHopAddr :=
  match v with AMpReachNlri mp => Some (mr_next_hop mp) | _ => None end.

Section accessors.
Variable m : UpdateMessage.
Let find {B} (f : PathAttrValue -> option B) : option B := find_map (fun a => f (pa_value a)) (path_attributes m).

Definition um_origin : option Origin := find sel_origin.
Definition um_as_path : option AsPath := find sel_as_path.
Definition um_as4_path : option AsPath := find sel_as4_path.
Definition um_aggregator : option Aggregator := find sel_aggregator.
Definition um_as4_aggregator : option Aggregator := find sel_as4_aggregator.
Definition um_leftmost_as : option Z := find sel_leftmost_as.
Definition um_next_hop : option NextHopAddr :=
  match find sel_mp_next_hop with Some next_hop => Some next_hop | None => find sel_next_hop end.
Definition um_local_pref : option Z := find sel_local_pref.
Definition um_med : option Z := find sel_med.
Definition um_atomic_aggregate : bool := existsb (fun a => bool_decide (pa_value a = AAtomicAggregate)) (path_attributes m).
Definition um_unknown_attrs : list PathAttribute :=
  omap (fun a => match pa_value a with AUnknown _ _ _ => Some a | _ => None end) (path_attributes m).
Definition um_communities : option (list Z) := find sel_communities.
Definition um_extended_communities : option (list Z) := find sel_extended_communities.
Definition um_large_communities : option (list LargeCommunity) := find sel_large_communities.
Definition um_originator_id : option Z := find sel_originator_id.
Definition um_cluster_list : option (list Z) := find sel_cluster_list.
Definition um_ls_attr : option LsAttr := find sel_ls_attr.

(** The NLRI of the attributes follow those of the message. *)
Let mp_reach {B} (f : MpReachNlri -> list B) : list B :=
  concat (map (fun a => match pa_value a with AMpReachNlri mp => f mp | _ => [] end) (path_attributes m)).
Let mp_unreach {B} (f : MpUnreachNlri -> list B) : list B :=
  concat (map (fun a => match pa_value a with AMpUnreachNlri mp => f mp | _ => [] end) (path_attributes m)).

Definition um_nlri_list : list Nlri := nlri_list m ++ mp_reach mr_nlri.
Definition um_nlri_prefixes : list IpNetwork := map nlri_prefix (nlri_list m) ++ mp_reach (fun mp => map nlri_prefix (mr_nlri mp)).
Definition um_withdrawn_routes : list Nlri := withdrawn_routes m ++ mp_unreach mu_withdrawn_routes.
Definition um_ls_nlri_list : list LsNlri :=
  mp_reach (fun mp => match mr_afi mp with Afi_LinkState => mr_ls_nlri mp | _ => [] end).
Definition um_ls_withdrawn_list : list LsNlri :=
  mp_unreach (fun mp => match mu_afi mp with Afi_LinkState => mu_ls_withdrawn mp | _ => [] end).

Definition eor_afi_safi : option AfiSafi :=
  match withdrawn_routes m, nlri_list m with
  | [], [] =>
      match path_attributes m with
      | [] => Some ipv4_unicast
      | [a] =>
          match pa_value a with
          | AMpUnreachNlri mp =>
              match mu_withdrawn_routes mp, mu_ls_withdrawn mp with
              | [], [] => Some (mkAfiSafi (mu_afi mp) (mu_safi mp))
              | _, _ => None
              end
          | _ => None
          end
      | _ => None
      end
  | _, _ => None
  end.
Definition is_eor : bool := bool_decide (is_Some eor_afi_safi).
End accessors.

Definition is_as4_attribute (a : PathAttribute) : bool :=
  match pa_value a with AAs4Path _ | AAs4Aggregator _ => true | _ => false end.

Definition strip_as4_attributes (m : UpdateMessage) : UpdateMessage :=
  mkUpdate (withdrawn_routes_len m) (withdrawn_routes m) (total_path_attributes_len m)
    (filter (fun a => is_as4_attribute a = false) (path_attributes m)) (nlri_list m) (um_format m).

(** ** Old speakers *)
Definition two_octet_asn (asn : Z) : Z := if MAX_2BYTE_ASN <? asn then AS_TRANS else asn.
Definition two_octet_segment (s : AsPathSegment) : AsPathSegment :=
  mkSegment (segment_type s) (segment_len s) (map two_octet_asn (asn_list s)).

Definition transform_as_path_for_old_speaker (a : PathAttribute) (path : AsPath) : list PathAttribute :=
  let has_large_asn := existsb (fun s => existsb (fun asn => MAX_2BYTE_ASN <? asn) (asn_list s)) path in
  if negb has_large_asn then [a]
  else
    let segments_4byte := filter (fun s => is_confed_segment (segment_type s) = false) path in
    mkAttr (pa_flags a) (AAsPath (map two_octet_segment path)) ::
    match segments_4byte with
    | [] => []
    | _ => [mkAttr (Z.lor OPTIONAL TRANSITIVE) (AAs4Path segments_4byte)]
    end.

Definition transform_aggregator_for_old_speaker (a : PathAttribute) (agg : Aggregator) : list PathAttribute :=
  if agg_asn agg <=? MAX_2BYTE_ASN then [a]
  else [mkAttr (pa_flags a) (AAggregator (mkAggregator AS_TRANS (agg_ip_addr agg)));
        mkAttr (Z.lor OPTIONAL TRANSITIVE) (AAs4Aggregator agg)].

Definition transform_for_old_speaker (a : PathAttribute) : list PathAttribute :=
  match pa_value a with
  | AAsPath path => transform_as_path_for_old_speaker a path
  | AAggregator agg => transform_aggregator_for_old_speaker a agg
  | _ => [a]
  end.

(** The attributes as [to_bytes] writes them. *)
Definition wire_attributes (m : UpdateMessage) : list PathAttribute :=
  if use_4byte_asn (um_format m) then filter (fun a => is_as4_attribute a = false) (path_attributes m)
  else concat (map transform_for_old_speaker (path_attributes m)).

Definition um_to_bytes (m : UpdateMessage) : option (list Z) :=
  withdrawn ← write_nlri_list (withdrawn_routes m);
  attributes ← write_path_attributes (wire_attributes m) (use_4byte_asn (um_format m));
  nlri ← write_nlri_list (nlri_list m);
  Some (be_bytes 2 (Z.of_nat (length withdrawn)) ++ withdrawn ++
        be_bytes 2 (Z.of_nat (length attributes)) ++ attributes ++ nlri).

(** ** Decoding *)
Definition should_escalate_to_session_reset (nlri : list Nlri) (has_mp_reach_nlri : bool) (l : list PathAttribute)
    (total_path_attributes_len : nat) : bool :=
  if negb (bool_decide (nlri = [])) || has_mp_reach_nlri then false
  else if (total_path_attributes_len =? 0)%nat then false
  else negb match l with
            | [a] => match pa_value a with AMpUnreachNlri _ => true | _ => false end
            | _ => false
            end.

Definition collect_mp_nlri (l : list PathAttribute) : list Nlri :=
  concat (map (fun a => match pa_value a with
                        | AMpReachNlri mp => mr_nlri mp
                        | AMpUnreachNlri mp => mu_withdrawn_routes mp
                        | _ => []
                        end) l).

Definition announces_mp_nlri (l : list PathAttribute) : bool :=
  existsb (fun a => match pa_value a with AMpReachNlri mp => negb (bool_decide (mr_nlri mp = [])) | _ => false end) l.

Definition of_option {E A} (o : option A) : outcome E A := match o with Some a => Ok a | None => Panic end.

Section decode.
Context `{HashOrder}.

(** The withdrawn routes, and whether the field is malformed. *)
Definition read_withdrawn (bytes : list Z) (add_path : bool) : outcome ParserError (list Nlri * bool) :=
  match parse_nlri_list bytes add_path with
  | Ok routes => Ok (routes, false)
  | Err _ => Ok ([], true)
  | Panic => Panic
  end.

(** The message of a decoded body: a withdrawal of everything it mentions
    when it is malformed. *)
Definition finish_update (format : MessageFormat) (withdrawn_routes_len : nat) (withdrawn : list Nlri)
    (total_path_attributes_len : nat) (l : list PathAttribute) (nlri : list Nlri) (treat_as_withdraw : bool)
    : outcome ParserError UpdateMessage :=
  let has_mp_reach_nlri := announces_mp_nlri l in
  let treat_as_withdraw :=
    treat_as_withdraw ||
    ((negb (bool_decide (nlri = [])) || has_mp_reach_nlri) && negb (validate_well_known_mandatory_attributes l)) in
  if treat_as_withdraw then
    if should_escalate_to_session_reset nlri has_mp_reach_nlri l total_path_attributes_len
    then update_err MalformedAttributeList
    else
      let all_withdrawn := remove_dups (withdrawn ++ nlri ++ collect_mp_nlri l) in
      of_option (new_withdraw (hash_order all_withdrawn) format)
  else
    Ok (mkUpdate (Z.of_nat withdrawn_routes_len mod 2 ^ 16) withdrawn
          (Z.of_nat total_path_attributes_len mod 2 ^ 16) l nlri format).

Definition um_from_bytes (bytes : list Z) (format : MessageFormat) : outcome ParserError UpdateMessage :=
  let ipv4_add_path := mask_contains (mf_add_path format) ipv4_unicast in
  withdrawn_routes_len ← Z.to_nat <$> read_be bytes 0 2;
  field ← slice bytes 2 withdrawn_routes_len;
  '(withdrawn, malformed) ← read_withdrawn field ipv4_add_path;
  let offset := (2 + withdrawn_routes_len)%nat in
  total_path_attributes_len ← Z.to_nat <$> read_be bytes offset 2;
  _ ← validate_update_message_lengths withdrawn_routes_len total_path_attributes_len (length bytes);
  attr_bytes ← slice bytes (offset + 2) total_path_attributes_len;
  '(l, attr_treat_as_withdraw) ← read_path_attributes attr_bytes format;
  nlri ← (if (total_path_attributes_len =? 0)%nat then Ok []
          else parse_nlri_list (drop (offset + 2 + total_path_attributes_len) bytes) ipv4_add_path);
  finish_update format withdrawn_routes_len withdrawn total_path_attributes_len l nlri (malformed || attr_treat_as_withdraw).
End decode.

(** ** Paths from updates *)
Definition merge_as4_path_if_needed (m : UpdateMessage) (as_path : AsPath) (peer_supports_4byte_asn : bool) : AsPath :=
  let merged := match um_as4_path m with Some as4_path => merge_as_paths as_path as4_path | None => as_path end in
  if peer_supports_4byte_asn then as_path
  else match um_aggregator m with
       | Some agg => if negb (agg_asn agg =? AS_TRANS) then as_path else merged
       | None => merged
       end.

Definition get_aggregator (m : UpdateMessage) (peer_supports_4byte_asn : bool) : option Aggregator :=
  if peer_supports_4byte_asn then um_aggregator m
  else
    agg ← um_aggregator m;
    if agg_asn agg =? AS_TRANS
    then match um_as4_aggregator m with Some agg4 => Some agg4 | None => Some agg end
    else Some agg.

Definition from_update_msg (m : UpdateMessage) (source : RouteSource) (peer_supports_4byte_asn : bool) : option Path :=
  origin ← um_origin m;
  as_path_segments ← um_as_path m;
  next_hop ← um_next_hop m;
  let as_path := merge_as4_path_if_needed m as_path_segments peer_supports_4byte_asn in
  let aggregator := get_aggregator m peer_supports_4byte_asn in
  Some (mkPath None None
          (mkAttrs origin as_path next_hop source (um_local_pref m) (um_med m) (um_atomic_aggregate m) aggregator
             (default [] (um_communities m)) (default [] (um_extended_communities m))
             (default [] (um_large_communities m)) (um_unknown_attrs m) (um_originator_id m)
             (default [] (um_cluster_list m)) (um_ls_attr m))
          false NotFound).
