(* ===== verification/UpdateSpec.v ===== *)
(** * What the UPDATE codec guarantees

    The decoder on the bytes of an encoder ([Update.v]), End-of-RIB markers,
    the exchange of a path between speakers of four and of two octets, and
    the inputs on which the decoder panics or misreads a message. *)
From S2P Require Import Prelude Wire Net Vrp PathId Notification Nlri BgpLs BgpLsParse Attrs BgpLsAttr Path UpdateCodec UpdateCodecSpec Update.

(** ** The fields of a body *)
Section body.
Context `{HashOrder}.

Definition body (withdrawn attributes nlri : list Z) : list Z :=
  be_bytes 2 (Z.of_nat (length withdrawn)) ++ withdrawn ++
  be_bytes 2 (Z.of_nat (length attributes)) ++ attributes ++ nlri.

Lemma length_body wb ab nb : length (body wb ab nb) = (4 + length wb + length ab + length nb)%nat.
Proof. unfold body. rewrite !length_app, !length_be_bytes. lia. Qed.

Lemma slice_at l1 l2 l3 from len : from = length l1 -> len = length l2 -> slice (l1 ++ l2 ++ l3) from len = Ok (E := ParserError) l2.
Proof. intros -> ->. by apply slice_app. Qed.

Lemma read_len_at l1 n l3 from : from = length l1 -> Z.of_nat n < 65536 ->
  Z.to_nat <$> read_be (l1 ++ be_bytes 2 (Z.of_nat n) ++ l3) from 2 = Ok (E := ParserError) n.
Proof.
  intros Hf Hn. rewrite (read_be_app l1 2 (Z.of_nat n) l3 from (eq_sym Hf)) by lia. cbn [fmap outcome_fmap]. by rewrite Nat2Z.id.
Qed.

(** The decoder on a body whose lengths are right. *)
Lemma from_bytes_body wb ab nb format :
  Z.of_nat (length wb) < 65536 -> Z.of_nat (length ab) < 65536 ->
  let ap := mask_contains (mf_add_path format) ipv4_unicast in
  um_from_bytes (body wb ab nb) format =
    ('(withdrawn, malformed) ← read_withdrawn wb ap;
     '(l, taw) ← read_path_attributes ab format;
     nlri ← (if (length ab =? 0)%nat then Ok [] else parse_nlri_list nb ap);
     finish_update format (length wb) withdrawn (length ab) l nlri (malformed || taw)).
Proof.
  intros Hw Ha ap. unfold um_from_bytes. fold ap.
  assert (Z.to_nat <$> read_be (body wb ab nb) 0 2 = Ok (length wb)) as ->
    by exact (read_len_at [] (length wb) _ 0 eq_refl Hw).
  cbn [mbind outcome_bind].
  assert (slice (body wb ab nb) 2 (length wb) = Ok wb) as ->
    by (apply (slice_at (be_bytes 2 (Z.of_nat (length wb))) wb); by rewrite ?length_be_bytes).
  cbn [mbind outcome_bind]. destruct (read_withdrawn wb ap) as [[withdrawn malformed]| |]; [|done..].
  cbn [mbind outcome_bind].
  assert (Z.to_nat <$> read_be (body wb ab nb) (2 + length wb) 2 = Ok (length ab)) as ->.
  { unfold body. rewrite app_assoc. apply read_len_at; [|done]. by rewrite length_app, length_be_bytes. }
  cbn [mbind outcome_bind]. unfold validate_update_message_lengths, WITHDRAWN_ROUTES_LENGTH_SIZE, TOTAL_ATTR_LENGTH_SIZE.
  rewrite length_body. destruct (Nat.ltb_spec (4 + length wb + length ab + length nb) (length wb + length ab + (2 + 2))); [lia|].
  cbn [mbind outcome_bind].
  assert (body wb ab nb = (be_bytes 2 (Z.of_nat (length wb)) ++ wb ++ be_bytes 2 (Z.of_nat (length ab))) ++ ab ++ nb) as ->
    by (unfold body; by rewrite <- !app_assoc).
  rewrite slice_at by (rewrite ?length_app, ?length_be_bytes; lia). cbn [mbind outcome_bind].
  destruct (read_path_attributes ab format) as [[l taw]| |]; [|done..]. cbn [mbind outcome_bind].
  by rewrite app_assoc, drop_app_length' by (rewrite !length_app, !length_be_bytes; lia).
Qed.

Lemma to_bytes_body m :
  um_to_bytes m =
    (withdrawn ← write_nlri_list (withdrawn_routes m);
     attributes ← write_path_attributes (wire_attributes m) (use_4byte_asn (um_format m));
     nlri ← write_nlri_list (nlri_list m); Some (body withdrawn attributes nlri)).
Proof. reflexivity. Qed.

(** ** Messages a session can carry *)
Record update_wf (m : UpdateMessage) : Prop := {
  uw_withdrawn : Forall (wire_nlri false (mask_contains (mf_add_path (um_format m)) ipv4_unicast)) (withdrawn_routes m);
  uw_nlri : Forall (wire_nlri false (mask_contains (mf_add_path (um_format m)) ipv4_unicast)) (nlri_list m);
  uw_attrs : Forall (attr_wf (um_format m)) (wire_attributes m);
  uw_distinct : NoDup (map type_code (wire_attributes m));
  (** routes are announced with the attributes they need *)
  uw_mandatory : nlri_list m <> [] \/ announces_mp_nlri (wire_attributes m) = true ->
    validate_well_known_mandatory_attributes (wire_attributes m) = true;
}.

(** The message as its receiver sees it. *)
Definition received (m : UpdateMessage) (withdrawn_len attributes_len : nat) : UpdateMessage :=
  mkUpdate (Z.of_nat withdrawn_len mod 2 ^ 16) (withdrawn_routes m) (Z.of_nat attributes_len mod 2 ^ 16)
    (map (fun a => as_read a (use_4byte_asn (um_format m))) (wire_attributes m)) (nlri_list m) (um_format m).

(** The value of a known attribute does not change on the wire. *)
Lemma as_read_value a four : known_type (pa_value a) <> None -> pa_value (as_read a four) = pa_value a.
Proof. unfold as_read. by destruct a as [f []]. Qed.

Lemma has_attr_as_read f l four :
  (forall c fl d, f (AUnknown c fl d) = false) -> has_attr f (map (fun a => as_read a four) l) = has_attr f l.
Proof.
  intros Hf. unfold has_attr. induction l as [|a l IH]; [done|]. cbn [map existsb]. rewrite IH. f_equal.
  unfold as_read. destruct a as [fl []]; try done. cbn [pa_value]. by rewrite !Hf.
Qed.

Lemma mandatory_as_read l four :
  validate_well_known_mandatory_attributes (map (fun a => as_read a four) l) = validate_well_known_mandatory_attributes l.
Proof. unfold validate_well_known_mandatory_attributes. by rewrite !has_attr_as_read. Qed.

Lemma announces_as_read l four : announces_mp_nlri (map (fun a => as_read a four) l) = announces_mp_nlri l.
Proof. apply (has_attr_as_read (fun v => match v with AMpReachNlri mp => negb (bool_decide (mr_nlri mp = [])) | _ => false end)). done. Qed.

Lemma no_attribute_bytes l four : write_path_attributes l four = Some [] -> Forall (fun a => is_skipped (pa_value a) = true) l.
Proof.
  induction l as [|a l IH]; [by constructor|]. rewrite write_attributes_cons. unfold write_path_attribute.
  destruct (is_skipped (pa_value a)) eqn:Es.
  - cbn [mbind option_bind]. destruct (write_path_attributes l four) as [more|]; [|done]. cbn. intros [= ->].
    apply Forall_cons. split; [done|by apply IH].
  - destruct (write_attr_value (pa_value a) four); [|done]. cbn. by destruct (write_path_attributes l four).
Qed.

Lemma validated_not_skipped l : validate_well_known_mandatory_attributes l = true -> ~ Forall (fun a => is_skipped (pa_value a) = true) l.
Proof.
  unfold validate_well_known_mandatory_attributes. destruct (has_attr is_origin l) eqn:E; [|done]. intros _ Hf.
  apply existsb_exists in E as (a & Hin%list_elem_of_In & Ho). rewrite Forall_forall in Hf. apply Hf in Hin.
  by destruct (pa_value a).
Qed.

Lemma update_write m :
  update_wf m ->
  exists wb ab nb, um_to_bytes m = Some (body wb ab nb) /\
    (Z.of_nat (length wb) < 65536 -> Z.of_nat (length ab) < 65536 ->
     um_from_bytes (body wb ab nb) (um_format m) = Ok (received m (length wb) (length ab))).
Proof.
  intros [Hw Hn Ha Hd Hm]. rewrite to_bytes_body.
  destruct (parse_write_all false _ _ Hw) as (wb & Ew & Hwb). destruct (parse_write_all false _ _ Hn) as (nb & En & Hnb).
  destruct (read_loop_write (um_format m) (wire_attributes m) [] [] false Ha Hd) as (ab & Ea & Hab); [set_solver|].
  exists wb, ab, nb. rewrite Ew, Ea, En. split; [done|]. intros Hlw Hla. rewrite from_bytes_body by done. cbv zeta.
  set (ap := mask_contains _ _) in *. unfold read_withdrawn.
  rewrite Hwb. cbn [mbind outcome_bind]. specialize (Hab (length ab) Hla (le_n _)).
  unfold read_path_attributes. rewrite Hab. cbn [mbind outcome_bind app].
  assert ((if (length ab =? 0)%nat then Ok [] else parse_nlri_list nb ap) = Ok (nlri_list m)) as ->.
  { destruct (Nat.eqb_spec (length ab) 0) as [E|]; [|exact Hnb]. apply nil_length_inv in E as ->.
    destruct (nlri_list m) as [|n rest]; [done|]. apply no_attribute_bytes in Ea. exfalso.
    refine (validated_not_skipped _ (Hm (or_introl _)) Ea). discriminate. }
  cbn [mbind outcome_bind orb]. unfold finish_update. rewrite announces_as_read, mandatory_as_read. cbv zeta.
  assert ((negb (bool_decide (nlri_list m = [])) || announces_mp_nlri (wire_attributes m)) &&
          negb (validate_well_known_mandatory_attributes (wire_attributes m)) = false) as E.
  { destruct (bool_decide_reflect (nlri_list m = [])); cbn [negb orb]; [|by rewrite Hm by auto].
    destruct (announces_mp_nlri (wire_attributes m)); [by rewrite Hm by auto|done]. }
  cbn [orb]. rewrite E. reflexivity.
Qed.
End body.

(** ** The attributes of an announcement *)
Definition is_unknown (a : PathAttribute) : Prop := known_type (pa_value a) = None.

(** The chunks of [build_common_path_attrs], with the two that an old speaker
    is sent in another form as parameters. *)
Definition attributes_with (p : PathAttrs) (as_path_part aggregator_part tail : list PathAttribute) : list PathAttribute :=
  [mkAttr TRANSITIVE (AOrigin (pa_origin p))] ++ as_path_part ++
  local_pref_attr p ++ med_attr p ++ atomic_attr p ++ aggregator_part ++
  list_attr (Z.lor OPTIONAL TRANSITIVE) ACommunities (pa_communities p) ++
  originator_attr p ++
  list_attr OPTIONAL AClusterList (pa_cluster_list p) ++
  list_attr (Z.lor OPTIONAL TRANSITIVE) AExtendedCommunities (pa_extended_communities p) ++
  list_attr (Z.lor OPTIONAL TRANSITIVE) ALargeCommunities (pa_large_communities p) ++
  pa_unknown_attrs p ++ tail.

Definition as_path_attr (p : PathAttrs) : PathAttribute := mkAttr TRANSITIVE (AAsPath (pa_as_path p)).
Definition wire_as_path (four : bool) (p : PathAttrs) : list PathAttribute :=
  if four then [as_path_attr p] else transform_as_path_for_old_speaker (as_path_attr p) (pa_as_path p).
Definition wire_aggregator (four : bool) (p : PathAttrs) : list PathAttribute :=
  if four then aggregator_attr p else concat (map transform_for_old_speaker (aggregator_attr p)).

Lemma common_attributes path tail :
  build_common_path_attrs path ++ tail =
    attributes_with (attrs path) [as_path_attr (attrs path)] (aggregator_attr (attrs path)) tail.
Proof. unfold build_common_path_attrs, attributes_with. cbv zeta. rewrite <- !app_assoc. reflexivity. Qed.

Definition plain (a : PathAttribute) : Prop :=
  match pa_value a with AAsPath _ | AAggregator _ | AAs4Path _ | AAs4Aggregator _ => False | _ => True end.

Lemma transform_plain l : Forall plain l -> concat (map transform_for_old_speaker l) = l.
Proof.
  induction 1 as [|a l Ha _ IH]; [done|]. cbn [map concat]. rewrite IH. unfold transform_for_old_speaker, plain in *.
  by destruct (pa_value a).
Qed.

Lemma filter_as4 l : Forall (fun a => is_as4_attribute a = false) l -> filter (fun a => is_as4_attribute a = false) l = l.
Proof. induction 1 as [|a l Ha _ IH]; [done|]. by rewrite filter_cons_True, IH. Qed.

Lemma plain_as4 l : Forall plain l -> Forall (fun a => is_as4_attribute a = false) l.
Proof. intros Hl. eapply Forall_impl; [exact Hl|]. intros a. unfold is_as4_attribute, plain. by destruct (pa_value a). Qed.

Lemma unknown_plain l : Forall is_unknown l -> Forall plain l.
Proof.
  intros Hl. eapply Forall_impl; [exact Hl|]. intros a. unfold is_unknown, plain. by destruct (pa_value a).
Qed.

Ltac chunk := unfold local_pref_attr, med_attr, atomic_attr, aggregator_attr, originator_attr, list_attr; repeat case_match.

Lemma chunks_plain p :
  Forall plain (local_pref_attr p) /\ Forall plain (med_attr p) /\ Forall plain (atomic_attr p) /\
  Forall plain (originator_attr p).
Proof. repeat split; chunk; repeat constructor. Qed.

Lemma list_attr_plain {A} flags (mk : list A -> PathAttrValue) l :
  (forall l, plain (mkAttr flags (mk l))) -> Forall plain (list_attr flags mk l).
Proof. intros Hm. destruct l; cbn; [constructor|]. apply Forall_singleton, Hm. Qed.

Lemma wire_attributes_with p m tail :
  path_attributes m = attributes_with p [as_path_attr p] (aggregator_attr p) tail ->
  Forall is_unknown (pa_unknown_attrs p) -> Forall plain tail ->
  wire_attributes m =
    attributes_with p (wire_as_path (use_4byte_asn (um_format m)) p) (wire_aggregator (use_4byte_asn (um_format m)) p) tail.
Proof.
  intros E Hu Ht. unfold wire_attributes. rewrite E. apply unknown_plain in Hu.
  destruct (chunks_plain p) as (H1 & H2 & H3 & H4).
  assert (Forall plain [mkAttr TRANSITIVE (AOrigin (pa_origin p))]) as H0 by (by repeat constructor).
  pose proof (list_attr_plain (Z.lor OPTIONAL TRANSITIVE) ACommunities (pa_communities p) (fun _ => I)) as H5.
  pose proof (list_attr_plain OPTIONAL AClusterList (pa_cluster_list p) (fun _ => I)) as H6.
  pose proof (list_attr_plain (Z.lor OPTIONAL TRANSITIVE) AExtendedCommunities (pa_extended_communities p) (fun _ => I)) as H7.
  pose proof (list_attr_plain (Z.lor OPTIONAL TRANSITIVE) ALargeCommunities (pa_large_communities p) (fun _ => I)) as H8.
  destruct (use_4byte_asn (um_format m)); unfold attributes_with, wire_as_path, wire_aggregator.
  - apply filter_as4. repeat (apply Forall_app; split); try (by apply plain_as4); try by repeat constructor.
    unfold aggregator_attr. destruct (pa_aggregator p); by repeat constructor.
  - rewrite !map_app, !concat_app, (transform_plain _ H0), (transform_plain _ H1), (transform_plain _ H2), (transform_plain _ H3),
      (transform_plain _ H4), (transform_plain _ H5), (transform_plain _ H6), (transform_plain _ H7), (transform_plain _ H8),
      (transform_plain _ Hu), (transform_plain _ Ht).
    cbn [map concat]. by rewrite app_nil_r.
Qed.

(** *** Type codes *)
Definition known_codes : list Z := [1; 2; 17; 5; 4; 6; 7; 18; 8; 9; 10; 16; 32; 3; 14; 15; 29].

Lemma wire_as_path_codes four p : map type_code (wire_as_path four p) `sublist_of` [2; 17].
Proof.
  unfold wire_as_path, transform_as_path_for_old_speaker. destruct four; [repeat constructor|].
  destruct (negb _); [repeat constructor|]. destruct (filter _ _); repeat constructor.
Qed.

Lemma wire_aggregator_codes four p : map type_code (wire_aggregator four p) `sublist_of` [7; 18].
Proof.
  unfold wire_aggregator, aggregator_attr. destruct (pa_aggregator p) as [agg|]; destruct four; cbn; try by repeat constructor.
  unfold transform_for_old_speaker, transform_aggregator_for_old_speaker. cbn. destruct (_ <=? _); repeat constructor.
Qed.

Section announcement.
Context `{HashOrder}.

Lemma unknown_codes format l : Forall (attr_wf format) l -> Forall is_unknown l -> forall c, c ∈ map type_code l -> c ∉ known_codes.
Proof.
  intros Hw Hu c (a & -> & Ha)%list_elem_of_fmap Hin. rewrite Forall_forall in Hw, Hu.
  destruct (Hw a Ha) as [Hv _]. specialize (Hu a Ha). unfold is_unknown in Hu.
  destruct a as [f v]. destruct v as [| | | | | | | | | | | | | | | | |c fl d]; try done.
  cbn [pa_value value_wf type_code] in Hv, Hin. destruct Hv as [Hc _].
  unfold known_codes in Hin. set_unfold. naive_solver.
Qed.

Lemma attributes_distinct four format p tail :
  Forall (attr_wf format) (pa_unknown_attrs p) -> Forall is_unknown (pa_unknown_attrs p) ->
  NoDup (map type_code (pa_unknown_attrs p)) -> map type_code tail `sublist_of` [3; 14; 15; 29] ->
  NoDup (map type_code (attributes_with p (wire_as_path four p) (wire_aggregator four p) tail)).
Proof.
  intros Hw Hu Hn Ht.
  apply (sublist_NoDup _ ([1; 2; 17; 5; 4; 6; 7; 18; 8; 9; 10; 16; 32] ++ map type_code (pa_unknown_attrs p) ++ [3; 14; 15; 29])).
  - rewrite Permutation_app_swap_app. change ([1; 2; 17; 5; 4; 6; 7; 18; 8; 9; 10; 16; 32] ++ [3; 14; 15; 29]) with known_codes.
    apply NoDup_app. split; [done|]. split; [by apply (unknown_codes format)|]. by apply (bool_decide_unpack _).
  - unfold attributes_with. rewrite !map_app.
    change ([1; 2; 17; 5; 4; 6; 7; 18; 8; 9; 10; 16; 32] ++ map type_code (pa_unknown_attrs p) ++ [3; 14; 15; 29])
      with ([1] ++ [2; 17] ++ [5] ++ [4] ++ [6] ++ [7; 18] ++ [8] ++ [9] ++ [10] ++ [16] ++ [32] ++
            map type_code (pa_unknown_attrs p) ++ [3; 14; 15; 29]).
    repeat apply sublist_app; try done; try apply wire_as_path_codes; try apply wire_aggregator_codes; chunk; repeat constructor.
Qed.

(** *** A path that a session can announce *)
Definition opt_wf {A} (P : A -> Prop) (o : option A) : Prop := match o with Some a => P a | None => True end.

Record path_wf (format : MessageFormat) (p : PathAttrs) : Prop := {
  pw_as_path : Forall (segment_wf true) (pa_as_path p);
  pw_local_pref : opt_wf (fun v => mf_is_ebgp format = false /\ u32 v) (pa_local_pref p);
  pw_med : opt_wf u32 (pa_med p);
  pw_aggregator : opt_wf (fun a => u32 (agg_asn a) /\ u32 (agg_ip_addr a)) (pa_aggregator p);
  pw_communities : Forall u32 (pa_communities p);
  pw_originator : opt_wf (fun v => mf_is_ebgp format = false /\ u32 v) (pa_originator_id p);
  pw_cluster_list : pa_cluster_list p <> [] -> mf_is_ebgp format = false /\ Forall u32 (pa_cluster_list p);
  pw_extended : Forall u64 (pa_extended_communities p);
  pw_large : Forall (fun c => u32 (global_admin c) /\ u32 (local_data_1 c) /\ u32 (local_data_2 c)) (pa_large_communities p);
  pw_unknown : Forall (attr_wf format) (pa_unknown_attrs p) /\ Forall is_unknown (pa_unknown_attrs p) /\
    NoDup (map type_code (pa_unknown_attrs p));
}.

Lemma two_octet_fits asn : u32 asn -> u16 (two_octet_asn asn).
Proof. unfold two_octet_asn, MAX_2BYTE_ASN, AS_TRANS, u32, u16. destruct (Z.ltb_spec 65535 asn); lia. Qed.

Lemma two_octet_wf s : segment_wf true s -> segment_wf false (two_octet_segment s).
Proof.
  intros (H1 & H2 & H3). unfold two_octet_segment. split; [done|]. cbn [segment_len asn_list]. rewrite length_map. split; [done|].
  apply Forall_map. eapply Forall_impl; [exact H3|]. apply two_octet_fits.
Qed.

Lemma small_asns path :
  existsb (fun s => existsb (fun asn => MAX_2BYTE_ASN <? asn) (asn_list s)) path = false ->
  Forall (segment_wf true) path -> Forall (segment_wf false) path.
Proof.
  intros Hs Hw. apply Forall_forall. intros s Hin. rewrite Forall_forall in Hw. destruct (Hw s Hin) as (H1 & H2 & H3).
  split; [done|]. split; [done|]. apply Forall_forall. intros asn Ha. rewrite Forall_forall in H3. specialize (H3 asn Ha).
  assert ((MAX_2BYTE_ASN <? asn) = false) as Hm.
  { destruct (MAX_2BYTE_ASN <? asn) eqn:E; [|done]. rewrite <- Hs. symmetry. apply existsb_exists. exists s.
    split; [by apply list_elem_of_In|]. apply existsb_exists. exists asn. split; [by apply list_elem_of_In|done]. }
  unfold MAX_2BYTE_ASN in Hm. cbn in H3 |- *. unfold u32, u16 in *. lia.
Qed.

Lemma flags_wf_eq t : flags_wf t (expected_flags t).
Proof. by destruct t. Qed.

Lemma attr_wf_known format v t : known_type v = Some t -> value_wf format v -> attr_wf format (mkAttr (expected_flags t) v).
Proof. intros Ht Hv. unfold attr_wf. cbn [pa_value pa_flags]. rewrite Ht. split; [done|apply flags_wf_eq]. Qed.

Lemma wire_as_path_wf format p : Forall (segment_wf true) (pa_as_path p) ->
  Forall (attr_wf format) (wire_as_path (use_4byte_asn format) p).
Proof.
  intros Hp. unfold wire_as_path, transform_as_path_for_old_speaker. destruct (use_4byte_asn format) eqn:Ef.
  { apply Forall_singleton, (attr_wf_known format _ TAsPath); [done|]. cbn [value_wf]. by rewrite Ef. }
  cbv zeta. destruct (existsb _ _) eqn:El; cbn [negb].
  2:{ apply Forall_singleton, (attr_wf_known format _ TAsPath); [done|]. cbn [value_wf]. rewrite Ef. by apply small_asns. }
  apply Forall_cons_2.
  { apply (attr_wf_known format _ TAsPath); [done|]. cbn [value_wf]. rewrite Ef. apply Forall_map.
    eapply Forall_impl; [exact Hp|]. apply two_octet_wf. }
  destruct (filter _ (pa_as_path p)) as [|s rest] eqn:Es; [constructor|]. rewrite <- Es.
  apply Forall_singleton, (attr_wf_known format _ TAs4Path); [done|]. cbn [value_wf]. split; [by rewrite Es|].
  split; apply Forall_forall; intros x [Hc Hx]%list_elem_of_filter; [|done]. by rewrite Forall_forall in Hp; apply Hp.
Qed.

Lemma wire_aggregator_wf format p : opt_wf (fun a => u32 (agg_asn a) /\ u32 (agg_ip_addr a)) (pa_aggregator p) ->
  Forall (attr_wf format) (wire_aggregator (use_4byte_asn format) p).
Proof.
  unfold wire_aggregator, aggregator_attr. destruct (pa_aggregator p) as [agg|]; [|by destruct (use_4byte_asn format); constructor].
  cbn [opt_wf]. intros [Ha Hi]. destruct (use_4byte_asn format) eqn:Ef.
  { apply Forall_singleton, (attr_wf_known format _ TAggregator); [done|]. cbn [value_wf]. by rewrite Ef. }
  cbn [map concat]. unfold transform_for_old_speaker, transform_aggregator_for_old_speaker. cbn [pa_value pa_flags].
  rewrite app_nil_r. destruct (Z.leb_spec (agg_asn agg) MAX_2BYTE_ASN).
  - apply Forall_singleton, (attr_wf_known format _ TAggregator); [done|]. cbn [value_wf]. rewrite Ef. split; [|done].
    unfold asn_fits, MAX_2BYTE_ASN, u32, u16 in *. lia.
  - apply Forall_cons_2; [|apply Forall_singleton].
    + apply (attr_wf_known format _ TAggregator); [done|]. cbn [value_wf]. rewrite Ef. split; [|done]. by cbv.
    + apply (attr_wf_known format _ TAs4Aggregator); [done|]. by split.
Qed.

Lemma list_attr_wf {A} format t (mk : list A -> PathAttrValue) l :
  (forall l, known_type (mk l) = Some t) -> (l <> [] -> value_wf format (mk l)) ->
  Forall (attr_wf format) (list_attr (expected_flags t) mk l).
Proof.
  intros Ht Hv. destruct l as [|x l]; [constructor|]. apply Forall_singleton, attr_wf_known; [apply Ht|by apply Hv].
Qed.

Lemma opt_attr_wf {A} format t (mk : A -> PathAttrValue) o :
  (forall a, known_type (mk a) = Some t) -> opt_wf (fun a => value_wf format (mk a)) o ->
  Forall (attr_wf format) (match o with Some a => [mkAttr (expected_flags t) (mk a)] | None => [] end).
Proof. intros Ht Hv. destruct o; [|constructor]. apply Forall_singleton, attr_wf_known; [apply Ht|done]. Qed.

Lemma attributes_wf format p tail :
  path_wf format p -> Forall (attr_wf format) tail ->
  Forall (attr_wf format) (attributes_with p (wire_as_path (use_4byte_asn format) p)
                             (wire_aggregator (use_4byte_asn format) p) tail).
Proof.
  intros [] Ht. unfold attributes_with.
  apply Forall_app; split; [by apply Forall_singleton, (attr_wf_known format _ TOrigin)|].
  apply Forall_app; split; [by apply wire_as_path_wf|].
  apply Forall_app; split; [by apply (opt_attr_wf format TLocalPref)|].
  apply Forall_app; split; [by apply (opt_attr_wf format TMultiExtiDisc)|].
  apply Forall_app; split.
  { unfold atomic_attr. destruct (pa_atomic_aggregate p); [|constructor]. by apply Forall_singleton, (attr_wf_known format _ TAtomicAggregate). }
  apply Forall_app; split; [by apply wire_aggregator_wf|].
  apply Forall_app; split; [by apply (list_attr_wf format TCommunities)|].
  apply Forall_app; split; [by apply (opt_attr_wf format TOriginatorId)|].
  apply Forall_app; split; [apply (list_attr_wf format TClusterList); [done|]; intros Hl; by destruct (pw_cluster_list0 Hl)|].
  apply Forall_app; split; [by apply (list_attr_wf format TExtendedCommunities)|].
  apply Forall_app; split; [by apply (list_attr_wf format TLargeCommunities)|].
  apply Forall_app; split; [apply pw_unknown0|done].
Qed.

(** *** The attributes found again *)
Definition by_value {B} (f : PathAttrValue -> option B) (a : PathAttribute) : option B := f (pa_value a).

Lemma omap_as_read {B} (f : PathAttrValue -> option B) l four :
  (forall c fl d, f (AUnknown c fl d) = None) ->
  omap (by_value f) (map (fun a => as_read a four) l) = omap (by_value f) l.
Proof.
  intros Hf. assert (forall a, by_value f (as_read a four) = by_value f a) as Ha.
  { intros [fl []]; try done. unfold by_value, as_read. cbn [pa_value]. by rewrite !Hf. }
  induction l as [|a l IH]; [done|]. cbn [map omap list_omap]. by rewrite Ha, IH.
Qed.

Lemma omap_unknown {B} (f : PathAttrValue -> option B) l :
  (forall c fl d, f (AUnknown c fl d) = None) -> Forall is_unknown l -> omap (by_value f) l = [].
Proof.
  intros Hf. induction 1 as [|a l Ha _ IH]; [done|]. cbn [omap list_omap]. unfold is_unknown, by_value in *.
  destruct (pa_value a); try done. by rewrite Hf.
Qed.

Definition sel_atomic (v : PathAttrValue) : option () := match v with AAtomicAggregate => Some () | _ => None end.

Definition as_path_value (v : PathAttrValue) : Prop := match v with AAsPath _ | AAs4Path _ => True | _ => False end.
Definition aggregator_value (v : PathAttrValue) : Prop := match v with AAggregator _ | AAs4Aggregator _ => True | _ => False end.
Definition next_hop_value (v : PathAttrValue) : Prop := match v with ANextHop _ | AMpReachNlri _ => True | _ => False end.

Section find.
Variables (p : PathAttrs) (as_path_part aggregator_part tail : list PathAttribute).
Hypothesis Hu : Forall is_unknown (pa_unknown_attrs p).
Hypothesis Hap : Forall (fun a => as_path_value (pa_value a)) as_path_part.
Hypothesis Hag : Forall (fun a => aggregator_value (pa_value a)) aggregator_part.
Hypothesis Ht : Forall (fun a => next_hop_value (pa_value a)) tail.
Let l := attributes_with p as_path_part aggregator_part tail.

Lemma omap_part {B} (P : PathAttrValue -> Prop) (f : PathAttrValue -> option B) part :
  Forall (fun a => P (pa_value a)) part -> (forall v, P v -> f v = None) -> omap (by_value f) part = [].
Proof. intros Hp Hf. induction Hp as [|a part Ha _ IH]; [done|]. cbn [omap list_omap]. unfold by_value at 1. by rewrite Hf. Qed.

Lemma omap_parts {B} (f : PathAttrValue -> option B) :
  (forall c fl d, f (AUnknown c fl d) = None) ->
  omap (by_value f) l =
    omap (by_value f) [mkAttr TRANSITIVE (AOrigin (pa_origin p))] ++ omap (by_value f) as_path_part ++
    omap (by_value f) (local_pref_attr p) ++ omap (by_value f) (med_attr p) ++ omap (by_value f) (atomic_attr p) ++
    omap (by_value f) aggregator_part ++
    omap (by_value f) (list_attr (Z.lor OPTIONAL TRANSITIVE) ACommunities (pa_communities p)) ++
    omap (by_value f) (originator_attr p) ++
    omap (by_value f) (list_attr OPTIONAL AClusterList (pa_cluster_list p)) ++
    omap (by_value f) (list_attr (Z.lor OPTIONAL TRANSITIVE) AExtendedCommunities (pa_extended_communities p)) ++
    omap (by_value f) (list_attr (Z.lor OPTIONAL TRANSITIVE) ALargeCommunities (pa_large_communities p)) ++
    omap (by_value f) tail.
Proof.
  intros Hf. unfold l, attributes_with. rewrite !omap_app, (omap_unknown f (pa_unknown_attrs p)) by done. reflexivity.
Qed.
(** An optional attribute, and the attribute of a list. *)
Lemma head_list_attr {A} flags (mk : list A -> PathAttrValue) (f : PathAttrValue -> option (list A)) xs :
  (forall xs, f (mk xs) = Some xs) -> default [] (head (omap (by_value f) (list_attr flags mk xs))) = xs.
Proof. intros Hf. destruct xs as [|x xs]; [done|]. cbn. unfold by_value. cbn. by rewrite Hf. Qed.

(** The attributes a function of values does not look at. *)
Ltac drop_chunk :=
  match goal with
  | |- context [omap (by_value ?f) ?c] =>
      let H := fresh in
      assert (omap (by_value f) c = []) as H
        by first [ eapply omap_part; [eassumption|by intros []]
                 | unfold local_pref_attr, med_attr, atomic_attr, originator_attr, list_attr; by repeat case_match ];
      rewrite H; clear H
  end.
Ltac find_attr := rewrite omap_parts by done; repeat drop_chunk; rewrite ?app_nil_r; cbn [app].

Lemma find_origin : head (omap (by_value sel_origin) l) = Some (pa_origin p).
Proof. by find_attr. Qed.
Lemma find_as_path : omap (by_value sel_as_path) l =
  omap (by_value sel_as_path) as_path_part.
Proof. by find_attr. Qed.
Lemma find_as4_path : omap (by_value sel_as4_path) l =
  omap (by_value sel_as4_path) as_path_part.
Proof. by find_attr. Qed.
Lemma find_aggregator : omap (by_value sel_aggregator) l =
  omap (by_value sel_aggregator) aggregator_part.
Proof. by find_attr. Qed.
Lemma find_as4_aggregator : omap (by_value sel_as4_aggregator) l =
  omap (by_value sel_as4_aggregator) aggregator_part.
Proof. by find_attr. Qed.
Lemma find_next_hop : omap (by_value sel_next_hop) l =
  omap (by_value sel_next_hop) tail.
Proof. by find_attr. Qed.
Lemma find_mp_next_hop : omap (by_value sel_mp_next_hop) l =
  omap (by_value sel_mp_next_hop) tail.
Proof. by find_attr. Qed.
Lemma find_local_pref : head (omap (by_value sel_local_pref) l) = pa_local_pref p.
Proof. find_attr. unfold local_pref_attr. by destruct (pa_local_pref p). Qed.
Lemma find_med : head (omap (by_value sel_med) l) = pa_med p.
Proof. find_attr. unfold med_attr. by destruct (pa_med p). Qed.
Lemma find_atomic : head (omap (by_value sel_atomic) l)
  = if pa_atomic_aggregate p then Some () else None.
Proof. find_attr. unfold atomic_attr. by destruct (pa_atomic_aggregate p). Qed.
Lemma find_originator : head (omap (by_value sel_originator_id) l) = pa_originator_id p.
Proof. find_attr. unfold originator_attr. by destruct (pa_originator_id p). Qed.
Lemma find_communities :
  default [] (head (omap (by_value sel_communities) l)) = pa_communities p.
Proof. find_attr. by apply head_list_attr. Qed.
Lemma find_extended :
  default [] (head (omap (by_value sel_extended_communities) l)) = pa_extended_communities p.
Proof. find_attr. by apply head_list_attr. Qed.
Lemma find_large :
  default [] (head (omap (by_value sel_large_communities) l)) = pa_large_communities p.
Proof. find_attr. by apply head_list_attr. Qed.
Lemma find_cluster_list :
  default [] (head (omap (by_value sel_cluster_list) l)) = pa_cluster_list p.
Proof. find_attr. by apply head_list_attr. Qed.
Lemma find_ls_attr : omap (by_value sel_ls_attr) l = [].
Proof. by find_attr. Qed.
End find.

(** ** The message received *)
Lemma find_received {B} (f : PathAttrValue -> option B) m wl al :
  (forall c fl d, f (AUnknown c fl d) = None) ->
  find_map (fun a => f (pa_value a)) (path_attributes (received m wl al)) = head (omap (by_value f) (wire_attributes m)).
Proof. intros Hf. exact (f_equal head (omap_as_read f (wire_attributes m) (use_4byte_asn (um_format m)) Hf)). Qed.

Lemma existsb_atomic l :
  existsb (fun a => bool_decide (pa_value a = AAtomicAggregate)) l =
  match head (omap (by_value sel_atomic) l) with
  | Some _ => true | None => false
  end.
Proof.
  induction l as [|[fl v] l IH]; [done|]. cbn [existsb omap list_omap]. unfold by_value at 1. cbn [pa_value]. rewrite IH.
  destruct v; cbn; done.
Qed.

Lemma atomic_received m wl al :
  um_atomic_aggregate (received m wl al) =
  match head (omap (by_value sel_atomic) (wire_attributes m)) with
  | Some _ => true | None => false
  end.
Proof. unfold um_atomic_aggregate. rewrite existsb_atomic. unfold received. cbn [path_attributes]. by rewrite omap_as_read. Qed.

Definition keep_unknown (a : PathAttribute) : option PathAttribute :=
  match pa_value a with AUnknown _ _ _ => Some a | _ => None end.

Lemma keep_unknown_as_read l four :
  omap keep_unknown (map (fun a => as_read a four) l) = map (fun a => as_read a four) (omap keep_unknown l).
Proof.
  induction l as [|[fl v] l IH]; [done|]. cbn [map omap list_omap]. rewrite IH. unfold keep_unknown, as_read.
  destruct v; reflexivity.
Qed.

Lemma keep_unknown_known l : Forall (fun a => known_type (pa_value a) <> None) l -> omap keep_unknown l = [].
Proof. induction 1 as [|a l Ha _ IH]; [done|]. cbn [omap list_omap]. rewrite IH. unfold keep_unknown. by destruct (pa_value a). Qed.

Lemma keep_unknown_unknown l : Forall is_unknown l -> omap keep_unknown l = l.
Proof.
  induction 1 as [|a l Ha _ IH]; [done|]. cbn [omap list_omap]. rewrite IH. unfold keep_unknown, is_unknown in *.
  by destruct (pa_value a).
Qed.

Lemma unknown_attributes p ap ag tail :
  Forall is_unknown (pa_unknown_attrs p) -> Forall (fun a => as_path_value (pa_value a)) ap ->
  Forall (fun a => aggregator_value (pa_value a)) ag -> Forall (fun a => next_hop_value (pa_value a)) tail ->
  omap keep_unknown (attributes_with p ap ag tail) = pa_unknown_attrs p.
Proof.
  intros Hu Hap Hag Ht. unfold attributes_with. rewrite !omap_app.
  rewrite (keep_unknown_unknown _ Hu), (keep_unknown_known ap), (keep_unknown_known ag), (keep_unknown_known tail).
  - rewrite !keep_unknown_known by (chunk; repeat constructor; done). by rewrite app_nil_r.
  - eapply Forall_impl; [exact Ht|]. intros a. cbn. by destruct (pa_value a).
  - eapply Forall_impl; [exact Hag|]. intros a. cbn. by destruct (pa_value a).
  - eapply Forall_impl; [exact Hap|]. intros a. cbn. by destruct (pa_value a).
Qed.

Lemma wire_as_path_values four p : Forall (fun a => as_path_value (pa_value a)) (wire_as_path four p).
Proof.
  unfold wire_as_path, transform_as_path_for_old_speaker. destruct four; [by repeat constructor|].
  destruct (negb _); [by repeat constructor|]. destruct (filter _ _); by repeat constructor.
Qed.

Lemma wire_aggregator_values four p : Forall (fun a => aggregator_value (pa_value a)) (wire_aggregator four p).
Proof.
  unfold wire_aggregator, aggregator_attr. destruct (pa_aggregator p) as [agg|]; destruct four; cbn; try by repeat constructor.
  unfold transform_for_old_speaker, transform_aggregator_for_old_speaker. cbn. destruct (_ <=? _); by repeat constructor.
Qed.

(** ** Merging back what an old speaker was sent *)
Definition has_large_asn (path : AsPath) : bool := existsb (fun s => existsb (fun asn => MAX_2BYTE_ASN <? asn) (asn_list s)) path.

Lemma count_two_octet path : count_non_confed_asns (map two_octet_segment path) = count_non_confed_asns path.
Proof.
  unfold count_non_confed_asns. induction path as [|s path IH]; [done|]. cbn [map]. rewrite !filter_cons.
  unfold two_octet_segment at 1 3. cbn [segment_type]. destruct (decide _); cbn [sum_list_with]; rewrite ?IH; [|done].
  cbn. by rewrite length_map.
Qed.

Lemma prepend_none n path : prepend_segments n n path = [].
Proof.
  induction path as [|s path IH]; [done|]. cbn [prepend_segments]. rewrite Nat.ltb_irrefl. by destruct (is_confed_segment _).
Qed.

Definition no_confed (path : AsPath) : Prop := Forall (fun s => is_confed_segment (segment_type s) = false) path.

Lemma filter_no_confed path : no_confed path -> filter (fun s => is_confed_segment (segment_type s) = false) path = path.
Proof. induction 1 as [|s path Hs _ IH]; [done|]. by rewrite filter_cons_True, IH. Qed.

Lemma merge_back path : no_confed path -> merge_as_paths (map two_octet_segment path) path = path.
Proof.
  intros Hp. unfold merge_as_paths. rewrite count_two_octet, Nat.ltb_irrefl, Nat.sub_diag, prepend_none. cbn [app].
  by apply filter_no_confed.
Qed.

(** What the exchange with an old speaker keeps: no confederation segment,
    and with AS numbers above 65535 an aggregator that is itself such a
    number, or none. *)
Definition old_speaker_safe (p : PathAttrs) : Prop :=
  no_confed (pa_as_path p) /\
  (has_large_asn (pa_as_path p) = true -> opt_wf (fun a => MAX_2BYTE_ASN < agg_asn a \/ agg_asn a = AS_TRANS) (pa_aggregator p)).

Lemma aggregator_received four p m wl al tail :
  wire_attributes m = attributes_with p (wire_as_path four p) (wire_aggregator four p) tail ->
  Forall is_unknown (pa_unknown_attrs p) -> Forall (fun a => next_hop_value (pa_value a)) tail ->
  get_aggregator (received m wl al) four = pa_aggregator p.
Proof.
  intros Ew Hu Ht. pose proof (wire_as_path_values four p) as Hap. pose proof (wire_aggregator_values four p) as Hag.
  unfold get_aggregator, um_aggregator, um_as4_aggregator. rewrite !find_received, Ew, find_aggregator, find_as4_aggregator by done.
  unfold wire_aggregator, aggregator_attr. destruct (pa_aggregator p) as [agg|]; destruct four; try done.
  cbn [map concat]. unfold transform_for_old_speaker, transform_aggregator_for_old_speaker. cbn [pa_value pa_flags].
  rewrite app_nil_r. destruct (agg_asn agg <=? MAX_2BYTE_ASN) eqn:E; [|done].
  cbn. by destruct (agg_asn agg =? AS_TRANS).
Qed.

Lemma as_path_received four p m wl al tail :
  wire_attributes m = attributes_with p (wire_as_path four p) (wire_aggregator four p) tail ->
  Forall is_unknown (pa_unknown_attrs p) -> Forall (fun a => next_hop_value (pa_value a)) tail ->
  (four = false -> old_speaker_safe p) ->
  exists sent, um_as_path (received m wl al) = Some sent /\ merge_as4_path_if_needed (received m wl al) sent four = pa_as_path p.
Proof.
  intros Ew Hu Ht Hs. pose proof (wire_as_path_values four p) as Hap. pose proof (wire_aggregator_values four p) as Hag.
  unfold merge_as4_path_if_needed, um_as_path, um_as4_path, um_aggregator.
  rewrite !find_received, Ew, find_as_path, find_as4_path, find_aggregator by done.
  destruct four; [by exists (pa_as_path p)|]. destruct (Hs eq_refl) as [Hc Hagg]. clear Hs.
  unfold wire_as_path, transform_as_path_for_old_speaker. fold (has_large_asn (pa_as_path p)).
  destruct (has_large_asn (pa_as_path p)) eqn:El; cbn [negb].
  2:{ exists (pa_as_path p). split; [done|]. cbn. by case_match; [case_match|]. }
  rewrite filter_no_confed by done. exists (map two_octet_segment (pa_as_path p)). split; [done|].
  destruct (pa_as_path p) as [|s path] eqn:Ep; [done|]. rewrite <- Ep in *.
  specialize (Hagg eq_refl). unfold wire_aggregator, aggregator_attr.
  change (head (omap (by_value sel_as4_path) _)) with (Some (pa_as_path p)).
  cbv beta iota zeta. rewrite merge_back by done. destruct (pa_aggregator p) as [agg|]; [|done]. cbn [opt_wf] in Hagg.
  cbn [map concat]. unfold transform_for_old_speaker, transform_aggregator_for_old_speaker. cbn [pa_value pa_flags].
  rewrite app_nil_r. destruct (Z.leb_spec (agg_asn agg) MAX_2BYTE_ASN) as [Hle|]; [|done].
  destruct Hagg as [|Heq]; [lia|]. cbn. by rewrite Heq.
Qed.

(** ** Announcing a path *)
Definition route_afi_safi (v4 : bool) : AfiSafi := if v4 then ipv4_unicast else ipv6_unicast.
Definition route_path_id (format : MessageFormat) (path : Path) (v4 : bool) : option Z :=
  path_id_for path (mf_add_path format) (route_afi_safi v4).

Definition announce_tail (v4 : bool) (next_hop : NextHopAddr) (nlri : list Nlri) : list PathAttribute :=
  if v4 then [mkAttr TRANSITIVE (ANextHop next_hop)]
  else [mkAttr OPTIONAL (AMpReachNlri (mkMpReach Afi_Ipv6 Unicast next_hop nlri []))].

(** The routes of one family, with a next hop it can carry. *)
Record routes_wf (format : MessageFormat) (path : Path) (v4 : bool) (nlri : list IpNetwork) : Prop := {
  rw_nonempty : nlri <> [];
  rw_family : Forall (fun net => is_v4 net = v4) nlri;
  rw_nlri : Forall (wire_nlri (negb v4) (mask_contains (mf_add_path format) (route_afi_safi v4)))
              (make_nlri_list nlri (route_path_id format path v4));
  rw_next_hop : if v4 then exists addr, pa_next_hop (attrs path) = NhIpv4 addr /\ u32 addr /\ is_valid_unicast_ipv4 addr = true
                else mp_next_hop_wf Afi_Ipv6 Unicast (pa_next_hop (attrs path));
}.

Lemma filter_v4 v4 b nlri : Forall (fun net => is_v4 net = v4) nlri -> filter (fun net => is_v4 net = b) nlri = if decide (v4 = b) then nlri else [].
Proof.
  induction 1 as [|net nlri Hv _ IH]; [by destruct (decide _)|]. rewrite filter_cons, IH, Hv. by destruct (decide (v4 = b)).
Qed.

Lemma announce_tail_wf format path v4 nlri :
  routes_wf format path v4 nlri ->
  Forall (attr_wf format) (announce_tail v4 (pa_next_hop (attrs path)) (make_nlri_list nlri (route_path_id format path v4))).
Proof.
  intros [_ _ Hn Hh]. unfold announce_tail. destruct v4; apply Forall_singleton.
  - destruct Hh as (addr & -> & Hu & Hv). by apply (attr_wf_known format _ TNextHop).
  - apply (attr_wf_known format _ TMpReachNlri); [done|]. split; [done|]. by split.
Qed.

Lemma announce_tail_values v4 n nlri : Forall (fun a => next_hop_value (pa_value a)) (announce_tail v4 n nlri).
Proof. destruct v4; by repeat constructor. Qed.

Lemma announce_tail_plain v4 n nlri : Forall plain (announce_tail v4 n nlri).
Proof. destruct v4; by repeat constructor. Qed.

Lemma announce_tail_codes v4 n nlri : map type_code (announce_tail v4 n nlri) `sublist_of` [3; 14; 15; 29].
Proof. destruct v4; repeat constructor. Qed.

Lemma next_hop_received p m wl al v4 n nlri ap ag :
  wire_attributes m = attributes_with p ap ag (announce_tail v4 n nlri) ->
  Forall is_unknown (pa_unknown_attrs p) -> Forall (fun a => as_path_value (pa_value a)) ap ->
  Forall (fun a => aggregator_value (pa_value a)) ag -> um_next_hop (received m wl al) = Some n.
Proof.
  intros Ew Hu Hap Hag. pose proof (announce_tail_values v4 n nlri) as Ht. unfold um_next_hop.
  rewrite !find_received, Ew, find_next_hop, find_mp_next_hop by done. by destruct v4.
Qed.

(** *** Writing always succeeds *)
Definition carries_prefixes (v : PathAttrValue) : Prop := match v with AMpReachNlri _ | AMpUnreachNlri _ => True | _ => False end.

Lemma write_attribute_some a four : ~ carries_prefixes (pa_value a) -> is_Some (write_path_attribute a four).
Proof.
  intros Hc. unfold write_path_attribute. destruct (is_skipped _); [done|].
  destruct (write_attr_value (pa_value a) four) as [v|] eqn:E; [done|]. exfalso. by destruct (pa_value a) as [| |[]| | | | | | | | | | | | | | | ].
Qed.

Lemma write_attributes_some l four : Forall (fun a => is_Some (write_path_attribute a four)) l -> is_Some (write_path_attributes l four).
Proof. induction 1 as [|a l [b Hb] _ [bs IH]]; [done|]. rewrite write_attributes_cons, Hb. cbn. by rewrite IH. Qed.

Lemma plain_unknown_chunk l : Forall is_unknown l -> Forall (fun a => ~ carries_prefixes (pa_value a)) l.
Proof. intros Hl. eapply Forall_impl; [exact Hl|]. intros a Hk Hc. unfold is_unknown in Hk. by destruct (pa_value a). Qed.

Lemma attributes_no_prefixes p tail : Forall is_unknown (pa_unknown_attrs p) ->
  exists l, attributes_with p [as_path_attr p] (aggregator_attr p) tail = l ++ tail /\
    Forall (fun a => ~ carries_prefixes (pa_value a)) l.
Proof.
  intros Hu. eexists. split; [unfold attributes_with; rewrite !app_assoc; reflexivity|].
  repeat (apply Forall_app; split); try by apply plain_unknown_chunk.
  all: chunk; repeat first [apply Forall_nil_2 | apply Forall_cons_2]; by intros [].
Qed.

Lemma um_new_eq format path v4 nlri :
  routes_wf format path v4 nlri -> Forall is_unknown (pa_unknown_attrs (attrs path)) ->
  exists len, um_new path nlri format =
    Some (mkUpdate 0 [] len
      (attributes_with (attrs path) [as_path_attr (attrs path)] (aggregator_attr (attrs path))
        (announce_tail v4 (pa_next_hop (attrs path)) (make_nlri_list nlri (route_path_id format path v4))))
      (if v4 then make_nlri_list nlri (route_path_id format path v4) else []) format).
Proof.
  intros Hr Hu. pose proof (announce_tail_wf format path v4 nlri Hr) as Hw. destruct Hr as [Hne Hf _ Hh].
  unfold um_new. rewrite !(filter_v4 v4 _ nlri Hf). set (tail := announce_tail _ _ _) in *.
  destruct (attributes_no_prefixes (attrs path) tail Hu) as (l & El & Hl).
  assert (is_Some (attributes_len (attributes_with (attrs path) [as_path_attr (attrs path)] (aggregator_attr (attrs path)) tail) format)) as [len Hlen].
  { unfold attributes_len. rewrite El. destruct (write_attributes_some (l ++ tail) (use_4byte_asn format)) as [b ->]; [|done].
    apply Forall_app. split; [eapply Forall_impl; [exact Hl|]; intros a; by apply write_attribute_some|].
    eapply Forall_impl; [exact Hw|]. intros a Ha. destruct (read_attribute_write format a Ha) as (b & _ & -> & _). done. }
  exists len. rewrite <- common_attributes in Hlen |- *. unfold route_path_id, route_afi_safi in *. cbv zeta.
  destruct v4; cbn [decide bool_eq_dec].
  - destruct (decide (true = true)); [|done]. destruct (decide (true = false)); [done|].
    destruct Hh as (addr & Hn & _). destruct nlri as [|net nlri]; [done|].
    unfold tail, announce_tail in *. rewrite Hn in *. rewrite app_nil_r, Hlen. reflexivity.
  - destruct (decide (false = true)); [done|]. destruct (decide (false = false)); [|done]. destruct nlri as [|net nlri]; [done|].
    unfold tail, announce_tail in *. cbn [app]. rewrite Hlen. reflexivity.
Qed.

Lemma has_attr_app f l1 l2 : has_attr f (l1 ++ l2) = has_attr f l1 || has_attr f l2.
Proof. apply existsb_app. Qed.

Lemma mandatory_present four p ag v4 n nlri :
  validate_well_known_mandatory_attributes (attributes_with p (wire_as_path four p) ag (announce_tail v4 n nlri)) = true.
Proof.
  assert (has_attr is_as_path (wire_as_path four p) = true) as Hp.
  { unfold wire_as_path, transform_as_path_for_old_speaker. destruct four; [done|]. by destruct (negb _). }
  assert (has_attr is_next_hop (announce_tail v4 n nlri) || has_attr is_mp_reach (announce_tail v4 n nlri) = true) as Hn
    by by destruct v4.
  unfold validate_well_known_mandatory_attributes, attributes_with. rewrite !has_attr_app, Hp. cbn [orb negb].
  apply orb_true_iff in Hn as [-> | ->]; rewrite !orb_true_r; cbn [negb andb]; [done|]. by rewrite andb_false_r.
Qed.

(** What the receiver makes of the path. *)
Definition exchanged (format : MessageFormat) (source : RouteSource) (p : PathAttrs) : Path :=
  mkPath None None
    (mkAttrs (pa_origin p) (pa_as_path p) (pa_next_hop p) source (pa_local_pref p) (pa_med p) (pa_atomic_aggregate p)
       (pa_aggregator p) (pa_communities p) (pa_extended_communities p) (pa_large_communities p)
       (map (fun a => as_read a (use_4byte_asn format)) (pa_unknown_attrs p)) (pa_originator_id p) (pa_cluster_list p) None)
    false NotFound.

Lemma path_received format source p m wl al v4 n nlri :
  use_4byte_asn (um_format m) = use_4byte_asn format -> n = pa_next_hop p ->
  wire_attributes m = attributes_with p (wire_as_path (use_4byte_asn format) p) (wire_aggregator (use_4byte_asn format) p)
                        (announce_tail v4 n nlri) ->
  Forall is_unknown (pa_unknown_attrs p) -> (use_4byte_asn format = false -> old_speaker_safe p) ->
  from_update_msg (received m wl al) source (use_4byte_asn format) = Some (exchanged format source p).
Proof.
  intros Hf -> Ew Hu Hs. pose proof (wire_as_path_values (use_4byte_asn format) p) as Hap.
  pose proof (wire_aggregator_values (use_4byte_asn format) p) as Hag.
  pose proof (announce_tail_values v4 (pa_next_hop p) nlri) as Ht.
  destruct (as_path_received _ p m wl al _ Ew Hu Ht Hs) as (sent & Hsent & Hmerge).
  assert (um_origin (received m wl al) = Some (pa_origin p)) as Ho
    by (unfold um_origin; rewrite find_received, Ew by done; by apply find_origin).
  unfold from_update_msg. rewrite Ho, Hsent, (next_hop_received p m wl al v4 _ nlri _ _ Ew Hu Hap Hag).
  cbn [mbind option_bind]. cbv zeta. rewrite Hmerge, (aggregator_received _ p m wl al _ Ew Hu Ht), atomic_received.
  unfold um_local_pref, um_med, um_communities, um_extended_communities, um_large_communities, um_originator_id,
    um_cluster_list, um_ls_attr.
  rewrite !find_received, Ew by done.
  rewrite find_local_pref, find_med, find_communities, find_extended, find_large, find_originator, find_cluster_list,
    find_ls_attr, find_atomic by done.
  unfold exchanged. do 3 f_equal; [by destruct (pa_atomic_aggregate p)|].
  change (omap keep_unknown (map (fun a => as_read a (use_4byte_asn (um_format m))) (wire_attributes m)) = map (fun a => as_read a (use_4byte_asn format)) (pa_unknown_attrs p)).
  by rewrite keep_unknown_as_read, Ew, unknown_attributes, Hf.
Qed.

Lemma announced_prefixes l four : concat (map (fun a => match pa_value a with AMpReachNlri mp => mr_nlri mp | _ => [] end)
    (map (fun a => as_read a four) l)) =
  concat (map (fun a => match pa_value a with AMpReachNlri mp => mr_nlri mp | _ => [] end) l).
Proof. induction l as [|[fl v] l IH]; [done|]. cbn [map concat]. rewrite IH. f_equal. unfold as_read. by destruct v. Qed.

Lemma no_mp_reach l : Forall (fun a => ~ carries_prefixes (pa_value a)) l ->
  concat (map (fun a => match pa_value a with AMpReachNlri mp => mr_nlri mp | _ => [] end) l) = [].
Proof. induction 1 as [|[fl v] l Ha _ IH]; [done|]. cbn [map concat]. rewrite IH, app_nil_r. cbn in *. by destruct v. Qed.

Lemma wire_no_prefixes four p tail : Forall is_unknown (pa_unknown_attrs p) ->
  exists l, attributes_with p (wire_as_path four p) (wire_aggregator four p) tail = l ++ tail /\
    Forall (fun a => ~ carries_prefixes (pa_value a)) l.
Proof.
  intros Hu. eexists. split; [unfold attributes_with; rewrite !app_assoc; reflexivity|].
  repeat (apply Forall_app; split); try by apply plain_unknown_chunk.
  all: first [ eapply Forall_impl; [apply wire_as_path_values|]; intros a Ha Hc; cbn in *; by destruct (pa_value a)
             | eapply Forall_impl; [apply wire_aggregator_values|]; intros a Ha Hc; cbn in *; by destruct (pa_value a)
             | chunk; repeat first [apply Forall_nil_2 | apply Forall_cons_2]; by intros [] ].
Qed.

(** An announcement carries no link-state routes. *)
Lemma announcement_no_ls four four' p v4 n nlri : Forall is_unknown (pa_unknown_attrs p) ->
  let l := map (fun a => as_read a four') (attributes_with p (wire_as_path four p) (wire_aggregator four p) (announce_tail v4 n nlri)) in
  concat (map (fun a => match pa_value a with
    | AMpReachNlri mp => match mr_afi mp with Afi_LinkState => mr_ls_nlri mp | _ => [] end | _ => [] end) l) = [] /\
  concat (map (fun a => match pa_value a with
    | AMpUnreachNlri mp => match mu_afi mp with Afi_LinkState => mu_ls_withdrawn mp | _ => [] end | _ => [] end) l) = [].
Proof.
  intros Hu. cbv zeta. destruct (wire_no_prefixes four p (announce_tail v4 n nlri) Hu) as (l & -> & Hl).
  split; apply concat_nil_Forall, Forall_map, Forall_map, Forall_app; split; try (by destruct v4; repeat constructor);
    (eapply Forall_impl; [exact Hl|]); intros a Ha; cbn in Ha; unfold as_read; by destruct (pa_value a).
Qed.

Lemma path_exchange_ok format path v4 nlri source :
  path_wf format (attrs path) -> routes_wf format path v4 nlri ->
  (use_4byte_asn format = false -> old_speaker_safe (attrs path)) ->
  exists m bytes, um_new path nlri format = Some m /\ um_to_bytes m = Some bytes /\
    (Z.of_nat (length bytes) < 65536 ->
     exists m', um_from_bytes bytes format = Ok m' /\
       um_nlri_list m' = make_nlri_list nlri (route_path_id format path v4) /\ um_withdrawn_routes m' = [] /\
       from_update_msg m' source (use_4byte_asn format) = Some (exchanged format source (attrs path)) /\
       um_ls_nlri_list m' = [] /\ um_ls_withdrawn_list m' = [] /\
       (use_4byte_asn format = true -> um_as4_path m' = None /\ um_as4_aggregator m' = None)).
Proof.
  intros Hp Hr Hs. pose proof (announce_tail_wf format path v4 nlri Hr) as Htw. destruct (pw_unknown _ _ Hp) as (Huw & Hu & Hun).
  destruct (um_new_eq format path v4 nlri Hr Hu) as [len Em]. set (routes := make_nlri_list _ _) in *.
  set (p := attrs path) in *. set (tail := announce_tail v4 (pa_next_hop p) routes) in *.
  destruct (um_new path nlri format) as [m|]; [|done]. injection Em as Em. exists m.
  assert (um_format m = format) as Hf by by subst m.
  assert (wire_attributes m = attributes_with p (wire_as_path (use_4byte_asn format) p) (wire_aggregator (use_4byte_asn format) p) tail) as Ew.
  { rewrite <- Hf. apply wire_attributes_with; [by subst m|done|apply announce_tail_plain]. }
  assert (update_wf m) as Hm.
  { destruct Hr as [Hne _ Hn _]. split; rewrite ?Hf, ?Ew.
    - subst m. constructor.
    - subst m. cbn [nlri_list]. destruct v4; [exact Hn|constructor].
    - by apply attributes_wf.
    - apply (attributes_distinct _ format); [done..|]. apply announce_tail_codes.
    - intros _. apply mandatory_present. }
  destruct (update_write m Hm) as (wb & ab & nb & Eb & Hread). exists (body wb ab nb). split; [done|]. split; [done|].
  rewrite length_body. intros Hl. rewrite Hf in Hread. eexists. split; [apply Hread; lia|].
  split; [|split; [|split; [|split; [|split]]]].
  - unfold um_nlri_list. cbn [received path_attributes nlri_list]. rewrite announced_prefixes, Ew.
    destruct (wire_no_prefixes (use_4byte_asn format) p tail Hu) as (l & -> & Hl').
    rewrite map_app, concat_app, (no_mp_reach l Hl'). subst m tail. cbn [nlri_list]. destruct v4; cbn; by rewrite app_nil_r.
  - unfold um_withdrawn_routes. cbn [received path_attributes withdrawn_routes]. rewrite Ew.
    assert (withdrawn_routes m = []) as -> by by subst m. apply concat_nil_Forall, Forall_map, Forall_map, Forall_forall.
    intros a Ha. pose proof (attributes_wf format p tail Hp Htw) as Hw. cbn.
    destruct (wire_no_prefixes (use_4byte_asn format) p tail Hu) as (l & El & Hl'). rewrite El in Ha.
    apply elem_of_app in Ha as [Ha|Ha].
    + rewrite Forall_forall in Hl'. specialize (Hl' a Ha). cbn in Hl'. unfold as_read. by destruct (pa_value a).
    + unfold tail, announce_tail in Ha. destruct v4; apply list_elem_of_singleton in Ha as ->; reflexivity.
  - apply (path_received format source p m _ _ v4 (pa_next_hop p) routes); [by rewrite Hf|done..].
  - unfold um_ls_nlri_list. cbn [received path_attributes]. rewrite Ew. by apply announcement_no_ls.
  - unfold um_ls_withdrawn_list. cbn [received path_attributes]. rewrite Ew. by apply announcement_no_ls.
  - intros Hfour. rewrite Hfour in Ew. pose proof (wire_as_path_values true p) as Hap.
    pose proof (wire_aggregator_values true p) as Hag. pose proof (announce_tail_values v4 (pa_next_hop p) routes) as Ht.
    unfold um_as4_path, um_as4_aggregator. rewrite !find_received, Ew by done. unfold tail.
    rewrite find_as4_path, find_as4_aggregator by done. unfold wire_aggregator, aggregator_attr. by destruct (pa_aggregator p).
Qed.
End announcement.
