(* ===== verification/UpdateMain.v ===== *)
(** * Properties of the UPDATE message

    Round trips of a message, of an End-of-RIB marker and of a path announced
    to a four-octet and to a two-octet speaker; where the decoder panics; the
    messages it misreads. *)
From S2P Require Import Prelude Wire Net Vrp PathId Notification Nlri BgpLs BgpLsParse Attrs BgpLsAttr Path UpdateCodec UpdateCodecSpec Update UpdateSpec.

(** ** No panic once the lengths fit *)
Section no_panic.
Context `{HashOrder}.

Definition writable (n : Nlri) : Prop := is_Some (write_nlri n).

Lemma write_list_some l : Forall writable l -> is_Some (write_nlri_list l).
Proof. induction 1 as [|n l [b Hb] _ [bs IH]]; [done|]. cbn [write_nlri_list]. rewrite Hb. cbn. by rewrite IH. Qed.

Lemma parsed_writable (v6 : bool) add_path bytes l :
  bytes_ok bytes -> (if v6 then parse_nlri_v6_list else parse_nlri_list) bytes add_path = Ok l -> Forall writable l.
Proof.
  intros Hb. destruct v6; apply parse_all_forall; try done; intros addr len net pid Ha Hl Hmk Hp.
  - injection Hmk as <-. unfold writable, write_nlri, prefix_octets. cbn [nlri_prefix nlri_path_id v6_len].
    destruct (Nat.leb_spec (Z.to_nat ((len + 7) / 8)) 16); [by eexists|]. cbn in Hl. exfalso.
    assert ((len + 7) / 8 < 17) by (apply Z.div_lt_upper_bound; lia). lia.
  - unfold mk_v4_entry in Hmk. destruct (is_multicast _); [done|]. injection Hmk as <-.
    unfold writable, write_nlri, prefix_octets. cbn [nlri_prefix nlri_path_id v4_len].
    destruct (Nat.leb_spec (Z.to_nat ((len + 7) / 8)) 4); [by eexists|]. cbn in Hl. exfalso.
    assert ((len + 7) / 8 < 5) by (apply Z.div_lt_upper_bound; lia). lia.
Qed.

Definition attr_writable (a : PathAttribute) : Prop :=
  match pa_value a with
  | AMpReachNlri mp => Forall writable (mr_nlri mp)
  | AMpUnreachNlri mp => Forall writable (mu_withdrawn_routes mp)
  | _ => True
  end.

Lemma mp_nlri_writable a s bytes add_path l ls :
  bytes_ok bytes -> read_mp_nlri a s bytes add_path = Ok (l, ls) -> Forall writable l.
Proof.
  intros Hb. destruct a; cbn [read_mp_nlri].
  - destruct (parse_nlri_list bytes add_path) as [x| |] eqn:E; [|done..]. intros [= <- <-]. by apply (parsed_writable false) in E.
  - destruct (parse_nlri_v6_list bytes add_path) as [x| |] eqn:E; [|done..]. intros [= <- <-]. by apply (parsed_writable true) in E.
  - destruct (parse_ls_nlri_list bytes s); [|done..]. intros [= <- <-]. constructor.
Qed.

(** The decoder of an outcome, inverted. *)
Lemma bind_ok {E A B} (m : outcome E A) (f : A -> outcome E B) b : m ≫= f = Ok b -> exists a, m = Ok a /\ f a = Ok b.
Proof. destruct m; [|done..]. intros Hb. by eexists. Qed.

Lemma mp_reach_writable bytes format mp :
  bytes_ok bytes -> read_attr_mp_reach_nlri bytes format = Ok mp -> Forall writable (mr_nlri mp).
Proof.
  intros Hb. unfold read_attr_mp_reach_nlri. destruct (_ <? _)%nat; [done|].
  intros (a & _ & (s & _ & (len & _ & (u & _ & (n & _ & ([l ls] & Hr & [= <-])%bind_ok)%bind_ok)%bind_ok)%bind_ok)%bind_ok)%bind_ok.
  cbn. eapply mp_nlri_writable; [|exact Hr]. by apply Forall_drop.
Qed.

Lemma mp_unreach_writable bytes format mp :
  bytes_ok bytes -> read_attr_mp_unreach_nlri bytes format = Ok mp -> Forall writable (mu_withdrawn_routes mp).
Proof.
  intros Hb. unfold read_attr_mp_unreach_nlri. destruct (_ <? _)%nat; [done|].
  intros (a & _ & (s & _ & ([l ls] & Hr & [= <-])%bind_ok)%bind_ok)%bind_ok.
  cbn. eapply mp_nlri_writable; [|exact Hr]. by apply Forall_drop.
Qed.

Lemma parse_value_writable t data format v fl :
  bytes_ok data -> parse_attr_value t data format = Ok (Some v) -> attr_writable (mkAttr fl v).
Proof.
  intros Hb Hp. unfold attr_writable. cbn [pa_value].
  pose proof (parse_attr_value_accepted t data format v Hp) as [Ht _].
  destruct v; try done; injection Ht as <-; cbn [parse_attr_value] in Hp.
  - destruct (read_attr_mp_reach_nlri data format) as [mp| |] eqn:E; [|done..].
    destruct (validate_nlri_afi _ _); [|done]. injection Hp as <-. by eapply mp_reach_writable.
  - destruct (read_attr_mp_unreach_nlri data format) as [mp| |] eqn:E; [|done..].
    destruct (validate_nlri_afi _ _); [|done]. injection Hp as <-. by eapply mp_unreach_writable.
Qed.

Lemma read_attribute_writable bytes format a offset :
  bytes_ok bytes -> read_path_attribute bytes format = Ok (Parsed a, offset) -> attr_writable a.
Proof.
  intros Hb. unfold read_path_attribute. destruct (index bytes 0) as [flags| |]; [|done..]. cbn [mbind outcome_bind]. cbv zeta.
  destruct (_ <? _)%nat; [done|]. destruct (index bytes 1) as [code| |]; [|done..]. cbn [mbind outcome_bind].
  destruct (read_attr_len bytes flags) as [len| |]; [|done..]. cbn [mbind outcome_bind].
  destruct (_ <? _)%nat; [done|].
  destruct (parse_attr_type bytes flags code len) as [[t|]| |]; [| |done..]; cbn [mbind outcome_bind].
  - destruct (read_known_attr t bytes flags code len format) as [r| |] eqn:Er; [|done..]. cbn [mbind outcome_bind].
    intros [= -> _]. unfold read_known_attr in Er.
    destruct (validate_attribute_flags flags t code len); [|by destruct (code =? _)|done].
    destruct (validate_attribute_length _ _ _ _); [|by destruct (code =? _)|done].
    destruct (parse_attr_value t _ format) as [[v|]| |] eqn:Ev; [|by cbn in Er; destruct (code =? _)|done..].
    injection Er as <-. eapply parse_value_writable; [|exact Ev]. by apply Forall_drop, Forall_take.
  - by intros [= <- _].
Qed.
End no_panic.

Section total.
Context `{HashOrder}.

Lemma read_loop_forall (P : PathAttribute -> Prop) format :
  (forall bytes a offset, bytes_ok bytes -> read_path_attribute bytes format = Ok (Parsed a, offset) -> P a) ->
  forall fuel bytes seen attributes taw l taw', bytes_ok bytes -> Forall P attributes ->
  read_attributes_loop fuel bytes format seen attributes taw = Ok (l, taw') -> Forall P l.
Proof.
  intros HP. induction fuel as [|fuel IH]; intros bytes seen attributes taw l taw' Hb Ha.
  { destruct bytes; [|done]. by intros [= <- <-]. }
  destruct (decide (bytes = [])) as [->|Hne]; [by intros [= <- <-]|]. rewrite read_loop_step by (done || lia).
  rewrite Nat.sub_1_r. cbn [Nat.pred].
  destruct (read_path_attribute bytes format) as [[r offset]| |] eqn:E; [|done..].
  assert (bytes_ok (drop (Z.to_nat offset) bytes)) as Hd by by apply Forall_drop.
  cbv zeta. destruct r as [a|[]]; [|by apply IH..].
  destruct (bool_decide _); [destruct (_ || _); [done|by apply IH]|].
  apply IH; [done|]. apply Forall_app. split; [done|]. apply Forall_singleton. by apply (HP bytes _ offset).
Qed.

Lemma attributes_writable bytes format l taw :
  bytes_ok bytes -> read_path_attributes bytes format = Ok (l, taw) -> Forall attr_writable l.
Proof.
  intros Hb. exact (read_loop_forall attr_writable format (fun b a o => read_attribute_writable b format a o)
    (length bytes) bytes [] [] false l taw Hb (Forall_nil_2 _)).
Qed.

Lemma collected_writable l : Forall attr_writable l -> Forall writable (collect_mp_nlri l).
Proof.
  induction 1 as [|a l Ha _ IH]; [constructor|]. unfold collect_mp_nlri. cbn [map concat]. apply Forall_app. split; [|exact IH].
  unfold attr_writable in Ha. by destruct (pa_value a); try constructor.
Qed.


Lemma new_withdraw_some l format : Forall writable l -> is_Some (new_withdraw l format).
Proof.
  intros Hl. unfold new_withdraw. destruct (write_list_some (filter (fun n => is_v4 (nlri_prefix n) = true) l)) as [wb ->].
  { by apply forall_filter. }
  cbn [mbind option_bind]. unfold attributes_len.
  destruct (filter (fun n => is_v4 (nlri_prefix n) = false) l) as [|n rest] eqn:E; [by eexists|].
  destruct (write_list_some (n :: rest)) as [vb Hv]; [rewrite <- E; by apply forall_filter|].
  destruct (write_attributes_some [mkAttr OPTIONAL (AMpUnreachNlri (mkMpUnreach Afi_Ipv6 Unicast (n :: rest) []))]
    (use_4byte_asn format)) as [ab Ha].
  { apply Forall_singleton. unfold write_path_attribute. cbn [is_skipped pa_value write_attr_value].
    unfold write_attr_mp_unreach_nlri, write_mp_nlri. cbn [mu_afi mu_withdrawn_routes mu_ls_withdrawn].
    rewrite Hv. by eexists. }
  rewrite Ha. by eexists.
Qed.

Lemma finish_no_panic format wl withdrawn al l nlri taw :
  Forall writable withdrawn -> Forall writable nlri -> Forall attr_writable l ->
  finish_update format wl withdrawn al l nlri taw <> Panic.
Proof.
  intros Hw Hn Hl. unfold finish_update. cbv zeta. destruct (_ || _); [|done].
  destruct (should_escalate_to_session_reset _ _ _ _); [done|].
  destruct (new_withdraw_some (hash_order (remove_dups (withdrawn ++ nlri ++ collect_mp_nlri l))) format) as [m ->]; [|done].
  apply Forall_forall. intros n. rewrite elem_of_hash_order, elem_of_remove_dups. intros Hin.
  assert (Forall writable (withdrawn ++ nlri ++ collect_mp_nlri l)) as Ha
    by (rewrite !Forall_app; auto using collected_writable).
  rewrite Forall_forall in Ha. by apply Ha.
Qed.

Definition declared_withdrawn_len (bytes : list Z) : nat := Z.to_nat (be_val (take 2 bytes)).

Lemma read_declared bytes : (2 <= length bytes)%nat ->
  Z.to_nat <$> read_be bytes 0 2 = Ok (E := ParserError) (declared_withdrawn_len bytes).
Proof. intros Hl. unfold read_be, slice. rewrite (proj2 (Nat.leb_le _ _)) by lia. by rewrite drop_0. Qed.

Lemma from_bytes_no_panic bytes format :
  bytes_ok bytes -> Z.of_nat (length bytes) < 65536 -> mf_add_path format = 0 ->
  (4 + declared_withdrawn_len bytes <= length bytes)%nat -> um_from_bytes bytes format <> Panic.
Proof.
  intros Hb Hl H0 Hd. unfold um_from_bytes. rewrite H0. change (mask_contains 0 ipv4_unicast) with false.
  rewrite read_declared by lia. cbn [mbind outcome_bind]. set (wl := declared_withdrawn_len bytes) in *.
  apply outcome_bind_no_panic; [apply slice_no_panic; lia|]. intros field Hf.
  assert (bytes_ok field) as Hfb.
  { unfold slice in Hf. destruct (_ <=? _)%nat; [|done]. injection Hf as <-. by apply Forall_take, Forall_drop. }
  pose proof (nlri_no_panic false field) as Hn. cbv match in Hn.
  assert (exists withdrawn malformed, read_withdrawn field false = Ok (withdrawn, malformed) /\ Forall writable withdrawn)
    as (withdrawn & malformed & -> & Hw).
  { unfold read_withdrawn. destruct (parse_nlri_list field false) as [l| |] eqn:E; [|by exists [], true|done].
    exists l, false. split; [done|]. by apply (parsed_writable false) in E. }
  cbn [mbind outcome_bind].
  apply outcome_bind_no_panic; [apply outcome_fmap_no_panic, read_be_no_panic; lia|]. intros al _.
  unfold validate_update_message_lengths, WITHDRAWN_ROUTES_LENGTH_SIZE, TOTAL_ATTR_LENGTH_SIZE.
  destruct (Nat.ltb_spec (length bytes) (wl + al + (2 + 2))) as [|Hal]; [done|]. cbn [mbind outcome_bind].
  apply outcome_bind_no_panic; [apply slice_no_panic; lia|]. intros ab Hab.
  assert (bytes_ok ab /\ (length ab <= length bytes)%nat) as [Habb Habl].
  { unfold slice in Hab. destruct (_ <=? _)%nat; [|done]. injection Hab as <-.
    split; [by apply Forall_take, Forall_drop|]. rewrite length_take, length_drop. lia. }
  apply outcome_bind_no_panic.
  { assert (Z.of_nat (length ab) < 65536) as Hlt by lia.
    exact (read_loop_no_panic (length ab) ab format [] [] false Habb Hlt (le_n _) H0). }
  intros [l taw] Hla. apply attributes_writable in Hla; [|done].
  apply outcome_bind_no_panic; [destruct (_ =? 0)%nat; [done|apply (nlri_no_panic false)]|].
  intros nlri Hnl. apply finish_no_panic; [done| |done].
  destruct (_ =? 0)%nat; [by injection Hnl as <-|]. apply (parsed_writable false) in Hnl; [done|]. by apply Forall_drop.
Qed.

Lemma from_bytes_panic bytes format :
  (length bytes < 4 + declared_withdrawn_len bytes)%nat -> um_from_bytes bytes format = Panic.
Proof.
  intros Hl. unfold um_from_bytes. destruct (Nat.lt_ge_cases (length bytes) 2); [by rewrite read_be_short by lia|].
  rewrite read_declared by done. cbn [mbind outcome_bind]. set (wl := declared_withdrawn_len bytes) in *.
  destruct (slice bytes 2 wl) as [field| |] eqn:E; [|unfold slice in E; by destruct (_ <=? _)%nat|done].
  cbn [mbind outcome_bind]. destruct (read_withdrawn field _) as [[withdrawn malformed]| |] eqn:Er; cbn [mbind outcome_bind]; [|by unfold read_withdrawn in Er; destruct (parse_nlri_list _ _)|done].
  by rewrite read_be_short by lia.
Qed.
End total.

(** ** Withdrawals *)
Section withdraw.
Context `{HashOrder}.

Lemma new_withdraw_routes l format m :
  new_withdraw l format = Some m ->
  um_nlri_list m = [] /\ um_ls_nlri_list m = [] /\ forall n, n ∈ um_withdrawn_routes m <-> n ∈ l.
Proof.
  unfold new_withdraw. destruct (write_nlri_list _) as [wb|]; [|done]. cbn [mbind option_bind].
  set (v6 := filter (fun n => is_v4 (nlri_prefix n) = false) l). destruct (attributes_len _ _) as [len|]; [|done].
  cbn [mbind option_bind]. intros [= <-].
  assert (forall n, n ∈ l <-> n ∈ filter (fun n => is_v4 (nlri_prefix n) = true) l ++ v6) as Hl.
  { intros n. rewrite elem_of_app. unfold v6. rewrite !list_elem_of_filter. destruct (is_v4 (nlri_prefix n)); naive_solver. }
  unfold um_nlri_list, um_ls_nlri_list, um_withdrawn_routes. cbn [nlri_list path_attributes withdrawn_routes].
  destruct v6 as [|n rest] eqn:E; cbn [map concat pa_value mu_withdrawn_routes app]; [done|].
  split; [done|]. split; [done|]. intros x. rewrite app_nil_r. symmetry. apply Hl.
Qed.

Lemma finish_withdraws format wl withdrawn al l nlri m :
  finish_update format wl withdrawn al l nlri true = Ok m ->
  um_nlri_list m = [] /\ um_ls_nlri_list m = [] /\
  forall n, n ∈ um_withdrawn_routes m <-> n ∈ withdrawn \/ n ∈ nlri \/ n ∈ collect_mp_nlri l.
Proof.
  unfold finish_update. cbv zeta. cbn [orb]. destruct (should_escalate_to_session_reset _ _ _ _); [done|].
  destruct (new_withdraw _ _) as [m'|] eqn:E; [|done]. intros [= ->]. apply new_withdraw_routes in E as (H1 & H2 & H3).
  split; [done|]. split; [done|]. intros n. by rewrite H3, elem_of_hash_order, elem_of_remove_dups, !elem_of_app.
Qed.
End withdraw.

(** ** Properties *)

(** A message is read back as it was sent, up to what the wire changes:
    the attributes of [wire_attributes] (those an old speaker is sent in
    another form, and AS4 attributes dropped towards a new one) with their
    lengths and flag bits. *)
Theorem update_message_roundtrip `{HashOrder} (m : UpdateMessage) :
  update_wf m ->
  exists bytes, um_to_bytes m = Some bytes /\
    (Z.of_nat (length bytes) < 65536 -> exists wl al, um_from_bytes bytes (um_format m) = Ok (received m wl al)).
Proof.
  intros Hm. destruct (update_write m Hm) as (wb & ab & nb & Eb & Hr). exists (body wb ab nb). split; [done|].
  rewrite length_body. intros Hl. eexists _, _. apply Hr; lia.
Qed.

(** C36. A path announced to a peer, in one message with the routes of one
    family, becomes there a path with the same attributes: the origin, AS path,
    next hop, preferences, aggregator, communities, reflection attributes, and
    the unknown attributes with their flags.  On a session limited to two-octet
    AS numbers this takes a path that is safe for an old speaker
    ([old_speaker_safe]): no confederation segments, and no two-octet
    aggregator next to a four-octet path. *)
Theorem path_exchange `{HashOrder} (format : MessageFormat) (path : Path) (v4 : bool) (nlri : list IpNetwork) (source : RouteSource) :
  path_wf format (attrs path) -> routes_wf format path v4 nlri ->
  (use_4byte_asn format = false -> old_speaker_safe (attrs path)) ->
  exists m bytes, um_new path nlri format = Some m /\ um_to_bytes m = Some bytes /\
    (Z.of_nat (length bytes) < 65536 ->
     exists m', um_from_bytes bytes format = Ok m' /\
       um_nlri_list m' = make_nlri_list nlri (route_path_id format path v4) /\ um_withdrawn_routes m' = [] /\
       from_update_msg m' source (use_4byte_asn format) = Some (exchanged format source (attrs path))).
Proof.
  intros Hp Hr Hs. destruct (path_exchange_ok format path v4 nlri source Hp Hr Hs) as (m & bytes & Em & Eb & Hm).
  exists m, bytes. split; [done|]. split; [done|]. intros Hl. destruct (Hm Hl) as (m' & H1 & H2 & H3 & H4 & _). by exists m'.
Qed.

(** C37. RFC 6793 in one statement, for paths without confederation segments:
    splitting the four-octet numbers of a path into AS_PATH with AS_TRANS and
    AS4_PATH, and merging the two again, is the identity; the numbers of the
    AS_PATH sent all fit two octets, and its segments have the lengths of the
    original's. *)
Theorem as_path_split_merge (path : AsPath) (flags : Z) :
  no_confed path ->
  let sent := transform_as_path_for_old_speaker (mkAttr flags (AAsPath path)) path in
  exists as_path, head (omap (by_value sel_as_path) sent) = Some as_path /\
    map segment_len as_path = map segment_len path /\
    (Forall (segment_wf true) path -> Forall (segment_wf false) as_path) /\
    match head (omap (by_value sel_as4_path) sent) with
    | Some as4_path => merge_as_paths as_path as4_path = path
    | None => as_path = path
    end.
Proof.
  intros Hc. unfold transform_as_path_for_old_speaker. fold (has_large_asn path). destruct (has_large_asn path) eqn:El; cbn [negb].
  2:{ exists path. split; [done|]. split; [done|]. split; [by apply small_asns|done]. }
  rewrite filter_no_confed by done. exists (map two_octet_segment path).
  split; [by destruct path|]. split; [by rewrite map_map|].
  split; [intros Hw; apply Forall_map; eapply Forall_impl; [exact Hw|]; apply two_octet_wf|].
  destruct path as [|s path]; [done|]. change (head (omap (by_value sel_as4_path) _)) with (Some (s :: path)).
  cbv beta iota. by apply merge_back.
Qed.

(** C38. An update whose lists of prefixes parse and one of whose attributes is
    malformed in a way that is treated as withdrawal (attribute discard and
    session reset are other cases) announces nothing, and withdraws exactly the
    IP routes it mentions: those of the withdrawn field, of the NLRI field and
    of the multiprotocol attributes (RFC 7606).  Link-state routes it mentions
    are not withdrawn. *)
Theorem malformed_update_withdraws `{HashOrder} (wb ab nb : list Z) (format : MessageFormat) withdrawn l nlri m :
  let ap := mask_contains (mf_add_path format) ipv4_unicast in
  Z.of_nat (length wb) < 65536 -> Z.of_nat (length ab) < 65536 ->
  parse_nlri_list wb ap = Ok withdrawn -> read_path_attributes ab format = Ok (l, true) -> parse_nlri_list nb ap = Ok nlri ->
  um_from_bytes (body wb ab nb) format = Ok m ->
  um_nlri_list m = [] /\ um_ls_nlri_list m = [] /\
  forall n, n ∈ um_withdrawn_routes m <-> n ∈ withdrawn \/ n ∈ nlri \/ n ∈ collect_mp_nlri l.
Proof.
  intros ap Hw Ha Ew El En. rewrite from_bytes_body by done. fold ap. unfold read_withdrawn. rewrite Ew. cbn [mbind outcome_bind].
  rewrite El. cbn [mbind outcome_bind orb]. destruct (Nat.eqb_spec (length ab) 0) as [E|].
  { apply nil_length_inv in E as ->. cbn in El. by injection El as ??. }
  rewrite En. cbn [mbind outcome_bind]. apply finish_withdraws.
Qed.

(** C39. On a session without ADD-PATH the decoder panics exactly when the length
    declared for the withdrawn routes does not leave room for itself and the
    attribute length: the slice of the withdrawn routes is taken before the
    lengths are validated, so a peer can end the task with one message.  On
    every other body it returns.  (With ADD-PATH the prefix lists can panic as
    well.) *)
Theorem update_panics_iff `{HashOrder} (bytes : list Z) (format : MessageFormat) :
  bytes_ok bytes -> Z.of_nat (length bytes) < 65536 -> mf_add_path format = 0 ->
  um_from_bytes bytes format = Panic <-> (length bytes < 4 + declared_withdrawn_len bytes)%nat.
Proof.
  intros Hb Hl H0. split; [|apply from_bytes_panic]. intros Hp. apply Nat.nle_gt. intros Hle.
  by apply (from_bytes_no_panic bytes format).
Qed.

(** The End-of-RIB marker of every family is recognised by its receiver. *)
Theorem eor_roundtrip `{HashOrder} (a : Afi) (s : Safi) (format : MessageFormat) :
  eor_afi_safi (new_eor a s format) = Some (mkAfiSafi a s) /\
  exists bytes m, um_to_bytes (new_eor a s format) = Some bytes /\ um_from_bytes bytes format = Ok m /\
    eor_afi_safi m = Some (mkAfiSafi a s).
Proof.
  split; [by destruct a, s|].
  destruct format as [four ap ebgp err]. destruct a, s; (eexists _, _; split; [destruct four; reflexivity|]; split; [reflexivity|reflexivity]).
Qed.

(** Two kinds of malformed messages are taken for the End-of-RIB marker of
    IPv4 unicast, which ends the retention of stale routes: one whose
    withdrawn routes cannot be parsed and that has no attributes, and one with
    routes but no attributes, whatever the routes are. *)
Theorem malformed_update_is_eor `{HashOrder} (format : MessageFormat) :
  (forall wb nb e, Z.of_nat (length wb) < 65536 ->
     parse_nlri_list wb (mask_contains (mf_add_path format) ipv4_unicast) = Err e ->
     exists m, um_from_bytes (body wb [] nb) format = Ok m /\ eor_afi_safi m = Some ipv4_unicast) /\
  (forall nb, exists m, um_from_bytes (body [] [] nb) format = Ok m /\ eor_afi_safi m = Some ipv4_unicast).
Proof.
  assert (hash_order (@nil Nlri) = []) as Ho by (apply Permutation_nil; symmetry; apply hash_order_perm).
  split.
  - intros wb nb e Hl Hp. rewrite from_bytes_body by (cbn; lia). cbv zeta. unfold read_withdrawn. rewrite Hp.
    cbn [mbind outcome_bind length Nat.eqb read_path_attributes read_attributes_loop orb]. unfold finish_update. cbn [orb andb negb announces_mp_nlri existsb].
    cbn [should_escalate_to_session_reset]. cbn. rewrite Ho. cbn. by eexists.
  - intros nb. rewrite from_bytes_body by (cbn; lia). by eexists.
Qed.

(** The AS numbers above 65535 of a path whose aggregator has a two-octet
    number are lost on a two-octet session: AGGREGATOR is sent without
    AS4_AGGREGATOR, and the receiver ignores AS4_PATH whenever AGGREGATOR is
    not AS_TRANS, although RFC 6793 asks for that only next to an
    AS4_AGGREGATOR. *)
Theorem as4_path_lost `{HashOrder} :
  let format := mkFormat false 0 true false in
  let segment := mkSegment AsSequence 2 [4200000000; 65001] in
  let path := mkPath None None
    (mkAttrs IGP [segment] (NhIpv4 0x0A000001) Local None None false (Some (mkAggregator 65001 1)) [] [] [] [] None [] None) false NotFound in
  exists m bytes m' p, um_new path [V4 (mkV4 0x0A000000 8)] format = Some m /\ um_to_bytes m = Some bytes /\
    um_from_bytes bytes format = Ok m' /\ from_update_msg m' Local false = Some p /\
    um_as4_path m' = Some [segment] /\ pa_as_path (attrs p) = [mkSegment AsSequence 2 [AS_TRANS; 65001]].
Proof. eexists _, _, _, _. repeat (split; [vm_compute; reflexivity|]). vm_compute. reflexivity. Qed.

(** ** Witnesses *)
Definition demo_source : RouteSource := Ebgp (IpV4 0x0A000009) 7.

(** A path with a four-octet AS number and a four-octet aggregator. *)
Definition demo_announced : Path :=
  mkPath (Some 4) None
    (mkAttrs IGP [mkSegment AsSequence 2 [4200000000; 65001]] (NhIpv4 0x0A000001) Local None (Some 10) true
       (Some (mkAggregator 4200000000 1)) [0xFDE80001] [] [mkLarge 1 2 3]
       [mkAttr 0 (AUnknown 200 (Z.lor OPTIONAL TRANSITIVE) [1; 2; 3])] None [] None) false NotFound.

Definition demo_old_format : MessageFormat := mkFormat false 0 true false.
Definition demo_routes : list IpNetwork := [V4 (mkV4 0x0B000000 8); V4 (mkV4 0xC0A80180 25)].

Lemma demo_path_wf : path_wf (H := insertion_order) demo_old_format (attrs demo_announced).
Proof.
  split; cbn [attrs demo_announced pa_as_path pa_local_pref pa_med pa_aggregator pa_communities pa_originator_id
    pa_cluster_list pa_extended_communities pa_large_communities pa_unknown_attrs opt_wf]; try done.
  - apply Forall_singleton. split; [cbn; lia|]. split; [done|]. apply Forall_cons_2; [by cbv|]. apply Forall_singleton. by cbv.
  - apply Forall_singleton. by cbv.
  - apply Forall_singleton. by cbv.
  - split; [|split; [by apply Forall_singleton|apply NoDup_singleton]]. apply Forall_singleton. split; [by split|done].
Qed.

Lemma demo_routes_wf : routes_wf demo_old_format demo_announced true demo_routes.
Proof.
  split; [done|by repeat constructor| |].
  - repeat (apply Forall_cons_2; [split; [split; [done|split; [|done]]|done]; cbn; unfold addr_fits; cbn; split; [lia|split; [lia|done]]|]). constructor.
  - exists 0x0A000001. split; [done|]. split; [unfold u32; lia|done].
Qed.

Lemma path_exchange_witness :
  exists m bytes, um_new demo_announced demo_routes demo_old_format = Some m /\ um_to_bytes m = Some bytes /\
    (Z.of_nat (length bytes) < 65536 ->
     exists m', um_from_bytes (H := insertion_order) bytes demo_old_format = Ok m' /\
       um_nlri_list m' = make_nlri_list demo_routes None /\ um_withdrawn_routes m' = [] /\
       from_update_msg m' demo_source false = Some (exchanged demo_old_format demo_source (attrs demo_announced))).
Proof.
  apply (path_exchange (H := insertion_order) demo_old_format demo_announced true demo_routes demo_source).
  - exact demo_path_wf.
  - exact demo_routes_wf.
  - intros _. split; [by apply Forall_singleton|]. intros _. left. reflexivity.
Defined.

Definition demo_update : UpdateMessage := mkUpdate 0 [mkNlri (V4 (mkV4 0x0A000000 8)) None] 0 demo_attributes [] demo_format.

Lemma update_message_roundtrip_witness :
  exists bytes, um_to_bytes demo_update = Some bytes /\
    (Z.of_nat (length bytes) < 65536 ->
     exists wl al, um_from_bytes (H := insertion_order) bytes demo_format = Ok (received demo_update wl al)).
Proof.
  apply (update_message_roundtrip (H := insertion_order) demo_update). split.
  - apply Forall_singleton. split; [split; [done|split; [|done]]|done]. cbn; unfold addr_fits; cbn. split; [lia|split; [lia|done]].
  - constructor.
  - exact demo_attributes_wf.
  - by apply (bool_decide_unpack _).
  - intros _. reflexivity.
Defined.

Lemma as_path_split_merge_witness :
  let path := [mkSegment AsSequence 2 [4200000000; 65001]; mkSegment AsSet 1 [70000]] in
  let sent := transform_as_path_for_old_speaker (mkAttr 64 (AAsPath path)) path in
  exists as_path, head (omap (by_value sel_as_path) sent) = Some as_path /\
    map segment_len as_path = map segment_len path /\
    (Forall (segment_wf true) path -> Forall (segment_wf false) as_path) /\
    match head (omap (by_value sel_as4_path) sent) with
    | Some as4_path => merge_as_paths as_path as4_path = path
    | None => as_path = path
    end.
Proof. intros path. apply (as_path_split_merge path 64). by repeat constructor. Defined.

(** A route whose AS_PATH is cut short. *)
Definition demo_malformed : list Z := [64; 1; 1; 0; 64; 2; 3; 2; 1; 0; 64; 3; 4; 10; 0; 0; 1].

Lemma malformed_update_withdraws_witness :
  exists m, um_from_bytes (H := insertion_order) (body [8; 10] demo_malformed [8; 11]) demo_format = Ok m /\
    um_nlri_list m = [] /\ um_ls_nlri_list m = [] /\
    forall n, n ∈ um_withdrawn_routes m <->
      n ∈ [mkNlri (V4 (mkV4 0x0A000000 8)) None] \/ n ∈ [mkNlri (V4 (mkV4 0x0B000000 8)) None] \/ n ∈ collect_mp_nlri [mkAttr 64 (AOrigin IGP); mkAttr 64 (ANextHop (NhIpv4 0x0A000001))].
Proof.
  eexists. split; [vm_compute; reflexivity|].
  apply (malformed_update_withdraws (H := insertion_order) [8; 10] demo_malformed [8; 11] demo_format); vm_compute; reflexivity.
Defined.

Lemma update_panics_iff_witness :
  um_from_bytes (H := insertion_order) [0; 1; 0; 0] demo_format = Panic <->
  (length [0; 1; 0; 0]%Z < 4 + declared_withdrawn_len [0; 1; 0; 0]%Z)%nat.
Proof.
  apply (update_panics_iff (H := insertion_order)); [|reflexivity|reflexivity]. apply bytes_ok_forallb. reflexivity.
Defined.

Lemma malformed_update_is_eor_witness :
  exists m, um_from_bytes (H := insertion_order) (body [99] [] []) demo_format = Ok m /\ eor_afi_safi m = Some ipv4_unicast.
Proof.
  apply (proj1 (malformed_update_is_eor (H := insertion_order) demo_format) [99] [] (BgpErr (EUpdateMessage InvalidNetworkField) []));
    vm_compute; reflexivity.
Defined.
