(* ===== verification/ExtComm.v ===== *)
(** * Extended communities ([bgpgg/src/bgp/ext_community.rs])

    The binary layout: eight octets in a [u64].  The bandwidth of a link
    bandwidth community is the bit pattern of its [f32].  The text form is not
    modelled. *)
From S2P Require Import Prelude.

Definition TYPE_TWO_OCTET_AS : Z := 0x00.
Definition TYPE_IPV4_ADDRESS : Z := 0x01.
Definition TYPE_FOUR_OCTET_AS : Z := 0x02.
Definition TYPE_TRANSITIVE_OPAQUE : Z := 0x03.
Definition TYPE_NON_TRANSITIVE_OPAQUE : Z := 0x43.
Definition TYPE_EVPN : Z := 0x06.
Definition SUBTYPE_ROUTE_TARGET : Z := 0x02.
Definition SUBTYPE_ROUTE_ORIGIN : Z := 0x03.
Definition SUBTYPE_LINK_BANDWIDTH : Z := 0x04.
Definition SUBTYPE_COLOR : Z := 0x0B.
Definition SUBTYPE_ENCAPSULATION : Z := 0x0C.
Definition SUBTYPE_ORIGIN_VALIDATION : Z := 0x00.
Definition SUBTYPE_ROUTER_MAC : Z := 0x03.
Definition TYPE_NON_TRANSITIVE_BIT : Z := 0x40.

Definition byte_shift (byte_index : Z) : Z := (7 - byte_index) * 8.

(** A cast to [u8] after a shift. *)
Definition octet (extcomm byte_index : Z) : Z := Z.shiftr extcomm (byte_shift byte_index) mod 2 ^ 8.

Definition ext_type (extcomm : Z) : Z := octet extcomm 0.
Definition ext_subtype (extcomm : Z) : Z := octet extcomm 1.
Definition ext_value (extcomm : Z) : list Z := map (octet extcomm) [2; 3; 4; 5; 6; 7].

Definition is_transitive (extcomm : Z) : bool := Z.land (ext_type extcomm) TYPE_NON_TRANSITIVE_BIT =? 0.

Definition is_rpki_state_community (extcomm : Z) : bool :=
  (ext_type extcomm =? TYPE_NON_TRANSITIVE_OPAQUE) && (ext_subtype extcomm =? SUBTYPE_ORIGIN_VALIDATION).
Definition rpki_state_community_value (extcomm : Z) : Z := Z.land extcomm 0xFF.

Definition header (ty subtype : Z) : Z := Z.lor (Z.shiftl ty (byte_shift 0)) (Z.shiftl subtype (byte_shift 1)).

Definition from_rpki_state_community (state : Z) : Z :=
  Z.lor (header TYPE_NON_TRANSITIVE_OPAQUE SUBTYPE_ORIGIN_VALIDATION) state.
Definition from_two_octet_as (subtype asn local : Z) : Z :=
  Z.lor (Z.lor (header TYPE_TWO_OCTET_AS subtype) (Z.shiftl asn (byte_shift 3))) local.
Definition from_ipv4 (subtype ip local : Z) : Z :=
  Z.lor (Z.lor (header TYPE_IPV4_ADDRESS subtype) (Z.shiftl ip (byte_shift 5))) local.
Definition from_four_octet_as (subtype asn local : Z) : Z :=
  Z.lor (Z.lor (header TYPE_FOUR_OCTET_AS subtype) (Z.shiftl asn (byte_shift 5))) local.
Definition from_color (color : Z) : Z := Z.lor (header TYPE_TRANSITIVE_OPAQUE SUBTYPE_COLOR) color.
Definition from_encapsulation (tunnel_type : Z) : Z :=
  Z.lor (header TYPE_TRANSITIVE_OPAQUE SUBTYPE_ENCAPSULATION) tunnel_type.

(** [mac] has six octets. *)
Definition from_router_mac (mac : list Z) : Z :=
  foldl Z.lor (header TYPE_EVPN SUBTYPE_ROUTER_MAC)
    (zip_with (fun octet byte_index => Z.shiftl octet (byte_shift byte_index)) mac [2; 3; 4; 5; 6; 7]).

Definition from_link_bandwidth (asn bandwidth_bits : Z) : Z :=
  Z.lor (Z.lor (header (Z.lor TYPE_NON_TRANSITIVE_BIT TYPE_TWO_OCTET_AS) SUBTYPE_LINK_BANDWIDTH)
           (Z.shiftl asn (byte_shift 3))) bandwidth_bits.

(** ** The layout as arithmetic *)
Lemma lor_add a c n : 0 <= n -> 0 <= c < 2 ^ n -> a mod 2 ^ n = 0 -> Z.lor a c = a + c.
Proof.
  intros Hn Hc Ha. pose proof (Z.div_mod a (2 ^ n)) as Hd. rewrite Ha, Z.add_0_r in Hd.
  assert (a = Z.shiftl (a / 2 ^ n) n) as E by (rewrite Z.shiftl_mul_pow2 by lia; lia).
  rewrite E at 1. rewrite lor_shiftl_add by done. rewrite E at 2. rewrite Z.shiftl_mul_pow2 by lia. reflexivity.
Qed.

Lemma header_eq ty subtype : u8 ty -> u8 subtype -> header ty subtype = ty * 2 ^ 56 + subtype * 2 ^ 48.
Proof.
  unfold u8, header, byte_shift. intros Ht Hs. cbn [Z.sub Z.mul]. rewrite !Z.shiftl_mul_pow2 by lia.
  rewrite (lor_add _ _ 56); [done|lia|lia|]. apply Z.mod_mul. lia.
Qed.

Lemma octet_eq e i : 0 <= i <= 7 -> octet e i = (e / 2 ^ ((7 - i) * 8)) mod 256.
Proof. intros Hi. unfold octet, byte_shift. by rewrite Z.shiftr_div_pow2 by lia. Qed.

(** The eight octets of a community. *)
Definition octets (extcomm : Z) : list Z := ext_type extcomm :: ext_subtype extcomm :: ext_value extcomm.

Lemma octets_be_bytes extcomm : octets extcomm = be_bytes 8 extcomm.
Proof. unfold octets, ext_type, ext_subtype, ext_value. cbn [map be_bytes]. rewrite !octet_eq by lia. reflexivity. Qed.

Lemma octets_inj e : u64 e -> be_val (octets e) = e.
Proof. intros He. rewrite octets_be_bytes. by rewrite be_val_be_bytes_id. Qed.

(** Two fields after the header; [k] is the width of the second. *)
Lemma fields_eq ty subtype hi lo k :
  u8 ty -> u8 subtype -> 0 <= k < 48 -> 0 <= lo < 2 ^ k -> 0 <= hi < 2 ^ (48 - k) ->
  Z.lor (Z.lor (header ty subtype) (Z.shiftl hi k)) lo = ty * 2 ^ 56 + subtype * 2 ^ 48 + hi * 2 ^ k + lo.
Proof.
  intros Ht Hs Hk Hl Hh. rewrite header_eq by done. rewrite Z.shiftl_mul_pow2 by lia.
  assert (2 ^ (48 - k) * 2 ^ k = 2 ^ 48) as Hp by (rewrite <- Z.pow_add_r by lia; f_equal; lia).
  assert (0 < 2 ^ k) as Hpk by (apply Z.pow_pos_nonneg; lia).
  replace (ty * 2 ^ 56 + subtype * 2 ^ 48) with ((ty * 2 ^ 8 + subtype) * 2 ^ 48) by lia.
  rewrite (lor_add _ (hi * 2 ^ k) 48); [|lia|nia|apply Z.mod_mul; lia].
  apply (lor_add _ _ k); [lia|done|]. rewrite <- Hp, Z.mul_assoc, <- Z.mul_add_distr_r. apply Z.mod_mul. lia.
Qed.

Lemma field_eq ty subtype lo : u8 ty -> u8 subtype -> 0 <= lo < 2 ^ 48 ->
  Z.lor (header ty subtype) lo = ty * 2 ^ 56 + subtype * 2 ^ 48 + lo.
Proof.
  intros Ht Hs Hl. rewrite header_eq by done.
  replace (ty * 2 ^ 56 + subtype * 2 ^ 48) with ((ty * 2 ^ 8 + subtype) * 2 ^ 48) by lia.
  apply (lor_add _ _ 48); [lia|done|apply Z.mod_mul; lia].
Qed.

Lemma be_bytes_app m n hi lo : 0 <= lo < 256 ^ Z.of_nat n ->
  be_bytes (m + n) (hi * 256 ^ Z.of_nat n + lo) = be_bytes m hi ++ be_bytes n lo.
Proof.
  intros Hl. pose proof (pow256_pos n) as Hp. induction m as [|m IH]; cbn [Nat.add app].
  - cbn [be_bytes app]. rewrite <- (be_bytes_mod n (hi * _ + lo)), Z.add_comm, Z.mod_add, Z.mod_small by lia. reflexivity.
  - cbn [be_bytes]. rewrite IH. cbn [app]. f_equal.
    pose proof (pow256_pos m). rewrite Nat2Z.inj_add, Z.pow_add_r, (Z.mul_comm (256 ^ Z.of_nat m)), <- Z.div_div by lia.
    by rewrite Z.div_add_l, (Z.div_small lo), Z.add_0_r by lia.
Qed.

Lemma be_bytes_1 v : u8 v -> be_bytes 1 v = [v].
Proof. intros Hv. cbn [be_bytes]. unfold u8 in Hv. rewrite Z.div_1_r, Z.mod_small by lia. reflexivity. Qed.

Lemma octets_fields ty subtype n hi lo : (n <= 6)%nat -> u8 ty -> u8 subtype -> 0 <= lo < 256 ^ Z.of_nat n ->
  octets (ty * 2 ^ 56 + subtype * 2 ^ 48 + hi * 256 ^ Z.of_nat n + lo) =
    if decide (0 <= hi < 256 ^ Z.of_nat (6 - n)) then [ty; subtype] ++ be_bytes (6 - n) hi ++ be_bytes n lo
    else octets (ty * 2 ^ 56 + subtype * 2 ^ 48 + hi * 256 ^ Z.of_nat n + lo).
Proof.
  intros Hn Ht Hs Hl. destruct (decide _) as [Hh|]; [|done]. rewrite octets_be_bytes.
  assert (256 ^ Z.of_nat (6 - n) * 256 ^ Z.of_nat n = 2 ^ 48) as E
    by (rewrite <- Z.pow_add_r by lia; replace (Z.of_nat (6 - n) + Z.of_nat n) with 6 by lia; reflexivity).
  pose proof (pow256_pos n).
  replace (ty * 2 ^ 56 + subtype * 2 ^ 48 + hi * 256 ^ Z.of_nat n + lo)
    with (((ty * 2 ^ 8 + subtype) * 256 ^ Z.of_nat 6) + (hi * 256 ^ Z.of_nat n + lo)) by (change (256 ^ Z.of_nat 6) with (2 ^ 48); lia).
  rewrite (be_bytes_app 2 6) by (change (256 ^ Z.of_nat 6) with (2 ^ 48); nia).
  replace 6%nat with ((6 - n) + n)%nat at 1 by lia. rewrite be_bytes_app by done.
  f_equal. replace (ty * 2 ^ 8 + subtype) with (ty * 256 ^ Z.of_nat 1 + subtype) by (cbn; lia).
  rewrite (be_bytes_app 1 1) by (unfold u8 in Hs; cbn; lia). by rewrite !be_bytes_1 by done.
Qed.

(** ** Properties *)

(** The constructors lay their fields out as RFC 4360, 5668, 8097 and 9012
    say: the octets of the result are the type, the subtype, and the fields in
    network order, with zeros where the format has reserved octets. *)
Theorem ext_community_layout (subtype asn16 asn32 ip local16 local32 state : Z) :
  u8 subtype -> u16 asn16 -> u32 asn32 -> u32 ip -> u16 local16 -> u32 local32 -> u8 state ->
  octets (from_two_octet_as subtype asn16 local32) = [0x00; subtype] ++ be_bytes 2 asn16 ++ be_bytes 4 local32 /\
  octets (from_ipv4 subtype ip local16) = [0x01; subtype] ++ be_bytes 4 ip ++ be_bytes 2 local16 /\
  octets (from_four_octet_as subtype asn32 local16) = [0x02; subtype] ++ be_bytes 4 asn32 ++ be_bytes 2 local16 /\
  octets (from_link_bandwidth asn16 local32) = [0x40; 0x04] ++ be_bytes 2 asn16 ++ be_bytes 4 local32 /\
  octets (from_color local32) = [0x03; 0x0B; 0; 0] ++ be_bytes 4 local32 /\
  octets (from_encapsulation local16) = [0x03; 0x0C; 0; 0; 0; 0] ++ be_bytes 2 local16 /\
  octets (from_rpki_state_community state) = [0x43; 0x00; 0; 0; 0; 0; 0; state].
Proof.
  unfold u8, u16, u32. intros Hs Ha Hb Hi Hl Hm Hst.
  assert (forall ty hi lo n, (n < 6)%nat -> u8 ty -> forall sub, u8 sub -> 0 <= hi < 256 ^ Z.of_nat (6 - n) -> 0 <= lo < 256 ^ Z.of_nat n ->
    octets (ty * 2 ^ 56 + sub * 2 ^ 48 + hi * 2 ^ (8 * Z.of_nat n) + lo) = [ty; sub] ++ be_bytes (6 - n) hi ++ be_bytes n lo) as Hf.
  { intros ty hi lo n Hn Hty sub Hsub Hhi Hlo. replace (2 ^ (8 * Z.of_nat n)) with (256 ^ Z.of_nat n) by (by rewrite Z.pow_mul_r by lia).
    rewrite octets_fields by (done || lia). by rewrite decide_True by done. }
  assert (forall ty lo n, (n < 6)%nat -> u8 ty -> forall sub, u8 sub -> 0 <= lo < 256 ^ Z.of_nat n ->
    octets (ty * 2 ^ 56 + sub * 2 ^ 48 + lo) = [ty; sub] ++ be_bytes (6 - n) 0 ++ be_bytes n lo) as Hg.
  { intros ty lo n Hn Hty sub Hsub Hlo. rewrite <- (Hf ty 0 lo n Hn Hty sub Hsub); [f_equal; lia|split; [lia|apply pow256_pos]|done]. }
  unfold from_two_octet_as, from_ipv4, from_four_octet_as, from_link_bandwidth, from_color, from_encapsulation, from_rpki_state_community,
    TYPE_TWO_OCTET_AS, TYPE_IPV4_ADDRESS, TYPE_FOUR_OCTET_AS, TYPE_TRANSITIVE_OPAQUE, TYPE_NON_TRANSITIVE_OPAQUE,
    SUBTYPE_COLOR, SUBTYPE_ENCAPSULATION, SUBTYPE_ORIGIN_VALIDATION, SUBTYPE_LINK_BANDWIDTH.
  change (byte_shift 3) with 32. change (byte_shift 5) with 16.
  change (Z.lor TYPE_NON_TRANSITIVE_BIT 0) with 0x40.
  split_and!.
  - rewrite fields_eq by (unfold u8; lia). apply (Hf 0 asn16 local32 4%nat); unfold u8; cbn; lia.
  - rewrite fields_eq by (unfold u8; lia). apply (Hf 1 ip local16 2%nat); unfold u8; cbn; lia.
  - rewrite fields_eq by (unfold u8; lia). apply (Hf 2 asn32 local16 2%nat); unfold u8; cbn; lia.
  - rewrite fields_eq by (unfold u8; lia). apply (Hf 0x40 asn16 local32 4%nat); unfold u8; cbn; lia.
  - rewrite field_eq by (unfold u8; lia). apply (Hg 3 local32 4%nat); unfold u8; cbn; lia.
  - rewrite field_eq by (unfold u8; lia). apply (Hg 3 local16 2%nat); unfold u8; cbn; lia.
  - rewrite field_eq by (unfold u8; lia). rewrite <- (be_bytes_1 state) by (unfold u8; lia).
    apply (Hg 0x43 state 1%nat); unfold u8; cbn; lia.
Qed.

(** ** Witness *)
Lemma ext_community_layout_witness :
  octets (from_two_octet_as 2 65001 100) = [0x00; 2] ++ be_bytes 2 65001 ++ be_bytes 4 100.
Proof.
  apply (ext_community_layout 2 65001 4200000000 1 7 100 1); unfold u8, u16, u32; lia.
Defined.
