(* ===== verification/NetText.v ===== *)
(** * Addresses, prefixes and communities as text ([net/mod.rs],
    [bgp/community.rs], [bgp/ext_community.rs], [bgp/large_community.rs])

    What is printed is parsed back.  [Display] and [FromStr] of IPv6 addresses,
    of hexadecimal integers and of 32-bit floating-point numbers are those of
    the standard library: a number is read as the nearest one, ties to even, and
    printed with the fewest digits that are read as the same number. *)
From S2P Require Import Prelude Net BgpLs Attrs Text ExtComm.

(** ** Splitting *)
Fixpoint split_from (sep : Z) (cur s : Str) : list Str :=
  match s with [] => [cur] | c :: s => if c =? sep then cur :: split_from sep [] s else split_from sep (cur ++ [c]) s end.
(** [str::split] and [str::split_once] at a character. *)
Definition split (sep : Z) (s : Str) : list Str := split_from sep [] s.
Fixpoint split_once (sep : Z) (s : Str) : option (Str * Str) :=
  match s with [] => None | c :: s => if c =? sep then Some ([], s) else '(a, b) ← split_once sep s; Some (c :: a, b) end.
(** [split_once("..")] *)
Fixpoint split_dots (s : Str) : option (Str * Str) :=
  match s with
  | [] => None
  | c :: rest =>
      match (if c =? 46 then read_char 46 rest else None) with
      | Some b => Some ([], b)
      | None => '(a, b) ← split_dots rest; Some (c :: a, b)
      end
  end.
Definition strip_prefix (p s : Str) : option Str := if str_eqb (take (length p) s) p then Some (drop (length p) s) else None.

(** ** Hexadecimal *)
Definition hex_digit (d : Z) : Z := if d <? 10 then 48 + d else 87 + d.
Fixpoint hex_loop (fuel : nat) (n : Z) (acc : Str) : Str :=
  match fuel with
  | O => acc
  | S fuel => let acc := hex_digit (n mod 16) :: acc in if n <? 16 then acc else hex_loop fuel (n / 16) acc
  end.
(** [LowerHex] of the unsigned integers, and with [width] digits at least. *)
Definition hex (n : Z) : Str := hex_loop 16 n [].
Definition hex_padded (width : nat) (n : Z) : Str := repeat 48 (width - length (hex n)) ++ hex n.

Fixpoint radix_digits (radix max acc : Z) (s : Str) : option Z :=
  match s with
  | [] => Some acc
  | c :: s => d ← to_digit radix c; if max <? acc * radix + d then None else radix_digits radix max (acc * radix + d) s
  end.
(** [from_str_radix] of an unsigned integer of at most [max]. *)
Definition parse_radix (radix max : Z) (s : Str) : option Z :=
  match s with
  | [] => None
  | c :: rest => if c =? 43 then match rest with [] => None | _ => radix_digits radix max 0 rest end else radix_digits radix max 0 s
  end.

(** ** Addresses and prefixes *)
Definition segments (a : Z) : list Z := map (fun i => (a / 2 ^ (16 * i)) mod 2 ^ 16) [7; 6; 5; 4; 3; 2; 1; 0].
(** The first longest run of zeros: where it starts and its length. *)
Fixpoint zero_span (i : nat) (current longest : nat * nat) (l : list Z) : nat * nat :=
  match l with
  | [] => longest
  | s :: l =>
      if s =? 0 then
        let current := if (current.2 =? 0)%nat then (i, 1%nat) else (current.1, S current.2) in
        zero_span (S i) current (if (longest.2 <? current.2)%nat then current else longest) l
      else zero_span (S i) (0, 0)%nat longest l
  end.
Fixpoint fmt_subslice (l : list Z) : Str :=
  match l with [] => [] | [s] => hex s | s :: l => hex s ++ 58 :: fmt_subslice l end.
(** [Ipv6Addr::to_ipv4_mapped] *)
Definition is_mapped (a : Z) : bool := a / 2 ^ 32 =? 0xffff.
Definition show_ipv6 (a : Z) : Str :=
  if is_mapped a then str "::ffff:" ++ show_ipv4 (a mod 2 ^ 32)
  else
    let '(start, len) := zero_span 0 (0, 0)%nat (0, 0)%nat (segments a) in
    if (1 <? len)%nat then fmt_subslice (take start (segments a)) ++ str "::" ++ fmt_subslice (drop (start + len) (segments a))
    else fmt_subslice (segments a).
Definition show_ip (a : IpAddr) : Str := match a with IpV4 v => show_ipv4 v | IpV6 v => show_ipv6 v end.

(** [IpNetwork]: [Display] and [FromStr] *)
Definition show_network (n : IpNetwork) : Str :=
  match n with V4 n => show_ipv4 (v4_address n) ++ str "/" ++ dec (v4_len n) | V6 n => show_ipv6 (v6_address n) ++ str "/" ++ dec (v6_len n) end.
Inductive NetError := BadCidr (s : Str) | BadPrefixLength (s : Str) | Ipv4LengthExceeds (len : Z) | Ipv6LengthExceeds (len : Z) | BadAddress (s : Str).
Definition net_from_str (s : Str) : NetError + IpNetwork :=
  match split 47 s with
  | [addr; len] =>
      match parse_uint (2 ^ 8 - 1) len with
      | inl _ => inl (BadPrefixLength len)
      | inr prefix_len =>
          match parse_ipv4 addr with
          | Some a => if 32 <? prefix_len then inl (Ipv4LengthExceeds prefix_len) else inr (V4 (mkV4 a prefix_len))
          | None =>
              match parse_with read_ipv6 addr with
              | Some a => if 128 <? prefix_len then inl (Ipv6LengthExceeds prefix_len) else inr (V6 (mkV6 a prefix_len))
              | None => inl (BadAddress addr)
              end
          end
      end
  | _ => inl (BadCidr s)
  end.

(** ** 32-bit floating-point numbers, as their bits *)
Definition infinity_bits : Z := 0x7F800000.
Definition nan_bits : Z := 0x7FC00000.
Definition sign_bit : Z := 0x80000000.

(** [num / den], rounded to an integer, ties to even. *)
Definition div_even (num den : Z) : Z :=
  let q := num / den in
  match num mod den * 2 ?= den with Lt => q | Eq => if Z.even q then q else q + 1 | Gt => q + 1 end.
(** The bits of the number nearest to [num / den]. *)
Definition round_f32 (num den : Z) : Z :=
  if num =? 0 then 0
  else
    let e0 := Z.log2 num - Z.log2 den in
    let e := if num * 2 ^ Z.max 0 (- e0) <? den * 2 ^ Z.max 0 e0 then e0 - 1 else e0 in
    let e := Z.max e (-126) in
    let q := div_even (num * 2 ^ Z.max 0 (23 - e)) (den * 2 ^ Z.max 0 (e - 23)) in
    Z.min infinity_bits (q + (e + 126) * 2 ^ 23).
(** [m * 10 ^ k] *)
Definition round_dec (m k : Z) : Z := round_f32 (m * 10 ^ Z.max 0 k) (10 ^ Z.max 0 (- k)).

Fixpoint take_digits (s : Str) : Str * Str :=
  match s with c :: r => if is_digit c then let '(ds, rest) := take_digits r in (c :: ds, rest) else ([], s) | [] => ([], []) end.
Definition digits_val (s : Str) : Z := fold_left (fun acc c => acc * 10 + (c - 48)) s 0.
(** The digits of an exponent; it grows no more from 65536 on. *)
Definition exponent_val (s : Str) : Z := fold_left (fun acc c => if acc <? 0x10000 then acc * 10 + (c - 48) else acc) s 0.
Definition read_sign (s : Str) : bool * Str :=
  match s with c :: r => if c =? 45 then (true, r) else if c =? 43 then (false, r) else (false, s) | [] => (false, s) end.
Definition to_lower (c : Z) : Z := if (65 <=? c) && (c <=? 90) then c + 32 else c.

(** The digits of a number and the power of ten they are multiplied by. *)
Definition parse_decimal (s : Str) : option (Z * Z) :=
  let '(int, s) := take_digits s in
  let '(frac, s) := match read_char 46 s with Some s => take_digits s | None => ([], s) end in
  if (length (int ++ frac) =? 0)%nat then None
  else
    let m := digits_val (int ++ frac) in
    let k := - Z.of_nat (length frac) in
    match s with
    | [] => Some (m, k)
    | c :: s =>
        if to_lower c =? 101 then
          let '(neg, s) := read_sign s in
          let '(ds, s) := take_digits s in
          match ds, s with _ :: _, [] => Some (m, k + (if neg then - exponent_val ds else exponent_val ds)) | _, _ => None end
        else None
    end.
(** [FromStr] of [f32] *)
Definition parse_f32 (s : Str) : option Z :=
  let '(neg, s) := read_sign s in
  bits ←
    match parse_decimal s with
    | Some (m, k) => Some (round_dec m k)
    | None =>
        let word := map to_lower s in
        if (word =s "inf") || (word =s "infinity") then Some infinity_bits
        else if word =s "nan" then Some nan_bits else None
    end;
  Some (if neg then sign_bit + bits else bits).

(** The value of finite bits without the sign is [f32_mant * 2 ^ f32_exp]. *)
Definition f32_mant (bits : Z) : Z := if bits <? 2 ^ 23 then bits else 2 ^ 23 + bits mod 2 ^ 23.
Definition f32_exp (bits : Z) : Z := Z.max (bits / 2 ^ 23) 1 - 150.
(** The multiple of [10 ^ k] that is read as [bits], the nearer one of two. *)
Definition decimal_at (bits k : Z) : option Z :=
  let num := f32_mant bits * 2 ^ Z.max 0 (f32_exp bits) * 10 ^ Z.max 0 (- k) in
  let den := 2 ^ Z.max 0 (- f32_exp bits) * 10 ^ Z.max 0 k in
  let d := num / den in
  let down := round_dec d k =? bits in
  let up := round_dec (d + 1) k =? bits in
  if up && (negb down || (den <=? num mod den * 2)) then Some (d + 1) else if down then Some d else None.
(** From the highest power of ten down: the fewest digits. *)
Fixpoint shortest_from (fuel : nat) (bits k : Z) : Z * Z :=
  match fuel with
  | O => (0, 0)
  | S fuel => match decimal_at bits k with Some d => (d, k) | None => shortest_from fuel bits (k - 1) end
  end.
Definition shortest (bits : Z) : Z * Z := shortest_from 190 bits 39.
Definition dec_all (n : Z) : Str := dec_loop (S (Z.to_nat (Z.log2 n))) n [].
(** [m * 10 ^ k] without an exponent. *)
Definition show_decimal (m k : Z) : Str :=
  let ds := dec_all m in
  if 0 <=? k then ds ++ repeat 48 (Z.to_nat k)
  else
    let n := Z.to_nat (- k) in
    if (n <? length ds)%nat then take (length ds - n) ds ++ str "." ++ drop (length ds - n) ds
    else str "0." ++ repeat 48 (n - length ds) ++ ds.
(** [Display] of [f32] *)
Definition show_f32 (bits : Z) : Str :=
  let neg := sign_bit <=? bits in
  let b := bits mod sign_bit in
  if infinity_bits <? b then str "NaN"
  else
    (if neg then str "-" else []) ++
    (if b =? infinity_bits then str "inf" else if b =? 0 then str "0" else let '(m, k) := shortest b in show_decimal m k).

Example f32_texts :
  parse_f32 (str "1") = Some 0x3F800000 /\ parse_f32 (str "1e6") = Some 0x49742400 /\ parse_f32 (str ".5") = Some 0x3F000000 /\
  parse_f32 (str "-0") = Some 0x80000000 /\ parse_f32 (str "1e39") = Some infinity_bits /\ parse_f32 (str "1e-46") = Some 0 /\
  parse_f32 (str "+Inf") = Some infinity_bits /\ parse_f32 (str ".") = None /\ parse_f32 (str "1e") = None /\ parse_f32 (str "") = None /\
  parse_f32 (str "16777217") = Some 0x4B800000 /\ parse_f32 (str "3.4028235e38") = Some 0x7F7FFFFF /\
  show_f32 0x3DCCCCCD = str "0.1" /\ show_f32 0x49742400 = str "1000000" /\ show_f32 0x4B800000 = str "16777216" /\
  show_f32 0x7F7FFFFF = str "340282350000000000000000000000000000000" /\ show_f32 0x3F9E0652 = str "1.2345679" /\
  show_f32 1 = str "0.000000000000000000000000000000000000000000001" /\ show_f32 0x00800000 = str "0.000000000000000000000000000000000000011754944" /\
  show_f32 0xC2C80000 = str "-100" /\ show_f32 0x7F800000 = str "inf" /\ show_f32 0xFFC00000 = str "NaN".
Proof. vm_compute. done. Qed.
Example ipv6_texts :
  show_ipv6 0x20010db8000000000000000000000001 = str "2001:db8::1" /\ show_ipv6 0 = str "::" /\ show_ipv6 0xffff0a000001 = str "::ffff:10.0.0.1" /\
  show_ipv6 0x00010000000300000000000600070008 = str "1:0:3::6:7:8" /\ show_ipv6 0x00010002000300040005000600070000 = str "1:2:3:4:5:6:7:0".
Proof. vm_compute. done. Qed.

(** ** Communities *)
Inductive CommunityError := BadHighPart (s : Str) | BadLowPart (s : Str) | BadCommunity (s : Str).
(** [parse_community], [parse_community_str] and [parse_community_value]: a
    number, or two of 16 bits. *)
Definition parse_community (s : Str) : CommunityError + Z :=
  match parse_uint (2 ^ 32 - 1) s with
  | inr v => inr v
  | inl _ =>
      match split_once 58 s with
      | Some (high, low) =>
          match parse_uint (2 ^ 16 - 1) high with
          | inl _ => inl (BadHighPart high)
          | inr high_val =>
              match parse_uint (2 ^ 16 - 1) low with
              | inl _ => inl (BadLowPart low)
              | inr low_val => inr (Z.lor (Z.shiftl high_val 16) low_val)
              end
          end
      | None => inl (BadCommunity s)
      end
  end.
Definition show_community (c : Z) : Str := dec (Z.shiftr c 16 mod 2 ^ 16) ++ str ":" ++ dec (Z.land c 0xFFFF).

(** ** Large communities *)
Inductive ParseLargeCommunityError := LcInvalidFormat | LcInvalidGlobalAdmin | LcInvalidLocalData1 | LcInvalidLocalData2.
Definition parse_large_community (s : Str) : ParseLargeCommunityError + LargeCommunity :=
  match split 58 s with
  | [p0; p1; p2] =>
      match parse_uint (2 ^ 32 - 1) p0 with
      | inl _ => inl LcInvalidGlobalAdmin
      | inr ga =>
          match parse_uint (2 ^ 32 - 1) p1 with
          | inl _ => inl LcInvalidLocalData1
          | inr ld1 => match parse_uint (2 ^ 32 - 1) p2 with inl _ => inl LcInvalidLocalData2 | inr ld2 => inr (mkLarge ga ld1 ld2) end
          end
      end
  | _ => inl LcInvalidFormat
  end.
Definition show_large_community (c : LargeCommunity) : Str :=
  dec (global_admin c) ++ str ":" ++ dec (local_data_1 c) ++ str ":" ++ dec (local_data_2 c).

(** ** Extended communities *)
Inductive ParseExtCommunityError := EcInvalidFormat | EcInvalidPrefix | EcInvalidAsn | EcInvalidIpv4 | EcInvalidLocal | EcInvalidHex | EcInvalidMac.
Definition or_error {A} (e : ParseExtCommunityError) (r : IntErrorKind + A) : ParseExtCommunityError + A :=
  match r with inl _ => inl e | inr a => inr a end.
Definition some_or {A} (e : ParseExtCommunityError) (r : option A) : ParseExtCommunityError + A :=
  match r with None => inl e | Some a => inr a end.
Definition then_ok {A B} (r : ParseExtCommunityError + A) (f : A -> ParseExtCommunityError + B) : ParseExtCommunityError + B :=
  match r with inl e => inl e | inr a => f a end.

(** The route targets and origins: [prefix:value:local]. *)
Definition parse_route_community (prefix value_str local_str : Str) : ParseExtCommunityError + Z :=
  then_ok (if prefix =s "rt" then inr SUBTYPE_ROUTE_TARGET else if prefix =s "ro" then inr SUBTYPE_ROUTE_ORIGIN else inl EcInvalidPrefix) (fun subtype =>
  if bool_decide (46 ∈ value_str) then
    then_ok (some_or EcInvalidIpv4 (parse_ipv4 value_str)) (fun ip =>
    then_ok (or_error EcInvalidLocal (parse_uint (2 ^ 16 - 1) local_str)) (fun local => inr (from_ipv4 subtype ip local)))
  else
    then_ok (or_error EcInvalidAsn (parse_uint (2 ^ 32 - 1) value_str)) (fun asn =>
    then_ok (or_error EcInvalidLocal (parse_uint (2 ^ 32 - 1) local_str)) (fun local =>
    if asn <=? 65535 then inr (from_two_octet_as subtype asn local)
    else if 65535 <? local then inl EcInvalidLocal
    else inr (from_four_octet_as subtype asn local)))).
(** The octets of a MAC address, up to the first that is none. *)
Fixpoint parse_mac (parts : list Str) : ParseExtCommunityError + list Z :=
  match parts with
  | [] => inr []
  | p :: parts => then_ok (some_or EcInvalidMac (parse_radix 16 255 p)) (fun o => then_ok (parse_mac parts) (fun l => inr (o :: l)))
  end.
Definition parse_extended_community (s : Str) : ParseExtCommunityError + Z :=
  match strip_prefix (str "0x") s with
  | Some hex_str => some_or EcInvalidHex (parse_radix 16 (2 ^ 64 - 1) hex_str)
  | None =>
      match split 58 s with
      | [p0; p1] =>
          if p0 =s "rpki" then
            if p1 =s "valid" then inr (from_rpki_state_community 0)
            else if p1 =s "not-found" then inr (from_rpki_state_community 1)
            else if p1 =s "invalid" then inr (from_rpki_state_community 2)
            else inl EcInvalidFormat
          else if p0 =s "color" then then_ok (or_error EcInvalidLocal (parse_uint (2 ^ 32 - 1) p1)) (fun color => inr (from_color color))
          else if p0 =s "encapsulation" then
            then_ok (or_error EcInvalidLocal (parse_uint (2 ^ 16 - 1) p1)) (fun tunnel_type => inr (from_encapsulation tunnel_type))
          else inl EcInvalidFormat
      | [p0; p1; p2; p3; p4; p5; p6] =>
          if p0 =s "router-mac" then then_ok (parse_mac [p1; p2; p3; p4; p5; p6]) (fun mac => inr (from_router_mac mac))
          else inl EcInvalidFormat
      | [p0; p1; p2] =>
          if p0 =s "lb" then
            then_ok (or_error EcInvalidAsn (parse_uint (2 ^ 16 - 1) p1)) (fun asn =>
            then_ok (some_or EcInvalidLocal (parse_f32 p2)) (fun bandwidth => inr (from_link_bandwidth asn bandwidth)))
          else parse_route_community p0 p1 p2
      | _ => inl EcInvalidFormat
      end
  end.

Definition format_extended_community (extcomm : Z) : Str :=
  let typ := ext_type extcomm in
  let subtype := ext_subtype extcomm in
  let raw := str "0x" ++ hex_padded 16 extcomm in
  match ext_value extcomm with
  | [b0; b1; b2; b3; b4; b5] =>
      if typ =? TYPE_TRANSITIVE_OPAQUE then
        if subtype =? SUBTYPE_COLOR then str "color:" ++ dec (be_val [b2; b3; b4; b5])
        else if subtype =? SUBTYPE_ENCAPSULATION then str "encapsulation:" ++ dec (be_val [b4; b5])
        else raw
      else if typ =? TYPE_NON_TRANSITIVE_OPAQUE then
        if subtype =? SUBTYPE_ORIGIN_VALIDATION then
          if b5 =? 0 then str "rpki:valid" else if b5 =? 1 then str "rpki:not-found" else if b5 =? 2 then str "rpki:invalid" else raw
        else raw
      else if typ =? TYPE_EVPN then
        if subtype =? SUBTYPE_ROUTER_MAC then
          str "router-mac" ++ concat (map (fun b => 58 :: hex_padded 2 b) [b0; b1; b2; b3; b4; b5])
        else raw
      else if typ =? Z.lor TYPE_NON_TRANSITIVE_BIT TYPE_TWO_OCTET_AS then
        if subtype =? SUBTYPE_LINK_BANDWIDTH then
          str "lb:" ++ dec (be_val [b0; b1]) ++ str ":" ++ show_f32 (be_val [b2; b3; b4; b5])
        else raw
      else
        match (if subtype =? SUBTYPE_ROUTE_TARGET then Some (str "rt") else if subtype =? SUBTYPE_ROUTE_ORIGIN then Some (str "ro") else None) with
        | None => raw
        | Some prefix =>
            if typ =? TYPE_TWO_OCTET_AS then prefix ++ str ":" ++ dec (be_val [b0; b1]) ++ str ":" ++ dec (be_val [b2; b3; b4; b5])
            else if typ =? TYPE_IPV4_ADDRESS then prefix ++ str ":" ++ show_ipv4 (be_val [b0; b1; b2; b3]) ++ str ":" ++ dec (be_val [b4; b5])
            else if typ =? TYPE_FOUR_OCTET_AS then prefix ++ str ":" ++ dec (be_val [b0; b1; b2; b3]) ++ str ":" ++ dec (be_val [b4; b5])
            else raw
        end
  | _ => raw
  end.

Example ext_community_texts :
  parse_extended_community (str "rt:65000:100") = inr 0x0002FDE800000064 /\ parse_extended_community (str "ro:4200000000:100") = inr 0x0203FA56EA000064 /\
  parse_extended_community (str "rt:192.168.1.1:100") = inr 0x0102C0A801010064 /\ parse_extended_community (str "lb:65000:1000000") = inr 0x4004FDE849742400 /\
  parse_extended_community (str "router-mac:aa:bb:cc:dd:ee:ff") = inr 0x0603AABBCCDDEEFF /\ parse_extended_community (str "rt:4200000000:65536") = inl EcInvalidLocal /\
  parse_extended_community (str "rt:1:2:3") = inl EcInvalidFormat /\ parse_extended_community (str "soo:1:2") = inl EcInvalidPrefix /\
  format_extended_community 0x0603AABBCCDDEEFF = str "router-mac:aa:bb:cc:dd:ee:ff" /\ format_extended_community 0x0202000000050001 = str "rt:5:1" /\
  parse_large_community (str "1:2:4294967295") = inr (mkLarge 1 2 4294967295) /\ parse_large_community (str "1:2") = inl LcInvalidFormat /\
  parse_community (str "65000:100") = inr 0xFDE80064 /\ parse_community (str "7") = inr 7 /\ parse_community (str "65536:1") = inl (BadHighPart (str "65536")).
Proof. vm_compute. done. Qed.

(** ** Splitting *)
Lemma split_from_app sep s : forall cur t, sep ∉ s -> split_from sep cur (s ++ sep :: t) = (cur ++ s) :: split sep t.
Proof.
  induction s as [|c s IH]; intros cur t Hs; cbn [app split_from].
  - rewrite Z.eqb_refl. by rewrite app_nil_r.
  - apply not_elem_of_cons in Hs as [Hc Hs]. destruct (Z.eqb_spec c sep); [done|]. rewrite IH by done. by rewrite <- app_assoc.
Qed.
Lemma split_app sep s t : sep ∉ s -> split sep (s ++ sep :: t) = s :: split sep t.
Proof. apply (split_from_app sep s []). Qed.
Lemma split_from_last sep s : forall cur, sep ∉ s -> split_from sep cur s = [cur ++ s].
Proof.
  induction s as [|c s IH]; intros cur Hs; cbn [split_from]; [by rewrite app_nil_r|].
  apply not_elem_of_cons in Hs as [Hc Hs]. destruct (Z.eqb_spec c sep); [done|]. rewrite IH by done. by rewrite <- app_assoc.
Qed.
Lemma split_last sep s : sep ∉ s -> split sep s = [s].
Proof. apply (split_from_last sep s []). Qed.
Lemma split_once_app sep s t : sep ∉ s -> split_once sep (s ++ sep :: t) = Some (s, t).
Proof.
  induction s as [|c s IH]; intros Hs; cbn [app split_once]; [by rewrite Z.eqb_refl|].
  apply not_elem_of_cons in Hs as [Hc Hs]. destruct (Z.eqb_spec c sep); [done|]. by rewrite IH.
Qed.

(** ** Characters of numbers *)
Lemma digits_not_in c s : digits s -> is_digit c = false -> c ∉ s.
Proof. intros Hs Hc Hin. apply (proj1 (Forall_forall _ _) Hs) in Hin. congruence. Qed.
Lemma dec_not_in c n : 0 <= n -> is_digit c = false -> c ∉ dec n.
Proof. intros Hn. by apply digits_not_in, dec_digits. Qed.

(** A hexadecimal digit is read back. *)
Lemma to_digit_hex d : 0 <= d < 16 -> to_digit 16 (hex_digit d) = Some d.
Proof.
  intros Hd. unfold to_digit, hex_digit, is_digit. destruct (Z.ltb_spec d 10).
  - replace ((48 <=? 48 + d) && (48 + d <=? 57)) with true by lia. replace (48 + d - 48) with d by lia. by destruct (Z.ltb_spec d 16); [|lia].
  - replace ((48 <=? 87 + d) && (87 + d <=? 57)) with false by lia. replace ((97 <=? 87 + d) && (87 + d <=? 122)) with true by lia.
    replace (87 + d - 87) with d by lia. by destruct (Z.ltb_spec d 16); [|lia].
Qed.
Definition hex_digits (s : Str) : Prop := Forall (fun c => exists d, 0 <= d < 16 /\ c = hex_digit d) s.
Definition hex_num (acc : Z) (s : Str) : Z := fold_left (fun acc c => acc * 16 + default 0 (to_digit 16 c)) s acc.

Lemma hex_loop_ok fuel : forall n acc, 0 <= n < 16 ^ Z.of_nat fuel -> hex_digits acc ->
  hex_digits (hex_loop fuel n acc) /\ hex_num 0 (hex_loop fuel n acc) = hex_num n acc.
Proof.
  induction fuel as [|fuel IH]; intros n acc Hn Ha; cbn [hex_loop].
  - change (16 ^ Z.of_nat 0) with 1 in Hn. replace n with 0 by lia. done.
  - pose proof (Z.mod_pos_bound n 16 ltac:(lia)) as Hm. pose proof (Z.div_mod n 16) as Hd.
    assert (hex_digits (hex_digit (n mod 16) :: acc)) as Ha' by (apply Forall_cons; split; [by exists (n mod 16)|done]).
    destruct (Z.ltb_spec n 16).
    + split; [done|]. unfold hex_num at 1. cbn [fold_left]. rewrite to_digit_hex by done. cbn [default id]. fold (hex_num (0 * 16 + n mod 16) acc).
      f_equal. rewrite Z.mod_small; lia.
    + destruct (IH (n / 16) (hex_digit (n mod 16) :: acc)) as [H1 H2]; [|done|].
      { rewrite Nat2Z.inj_succ, Z.pow_succ_r in Hn by lia. split; [apply Z.div_pos; lia|]. apply Z.div_lt_upper_bound; lia. }
      split; [done|]. rewrite H2. unfold hex_num at 1. cbn [fold_left]. rewrite to_digit_hex by done. cbn [default id].
      fold (hex_num (n / 16 * 16 + n mod 16) acc). f_equal. lia.
Qed.
Lemma hex_ok n : u64 n -> hex_digits (hex n) /\ hex_num 0 (hex n) = n.
Proof. intros Hn. unfold u64 in Hn. apply (hex_loop_ok 16); [lia|by apply Forall_nil]. Qed.
Lemma hex_loop_not_nil fuel : forall n acc, acc <> [] -> hex_loop fuel n acc <> [].
Proof. induction fuel as [|fuel IH]; intros n acc Ha; cbn [hex_loop]; [done|]. destruct (n <? 16); [done|]. by apply IH. Qed.
Lemma hex_not_nil n : hex n <> [].
Proof. unfold hex. change 16%nat with (S 15). generalize 15%nat as f. intros f. cbn [hex_loop]. destruct (n <? 16); [done|]. by apply hex_loop_not_nil. Qed.

Lemma hex_digit_range c : (exists d, 0 <= d < 16 /\ c = hex_digit d) -> 48 <= c <= 57 \/ 97 <= c <= 102.
Proof. intros (d & Hd & ->). unfold hex_digit. destruct (Z.ltb_spec d 10); lia. Qed.
Lemma hex_digits_not_in c s : hex_digits s -> (c < 48 \/ 57 < c < 97) -> c ∉ s.
Proof. intros Hs Hc Hin. apply (proj1 (Forall_forall _ _) Hs), hex_digit_range in Hin. lia. Qed.

Lemma hex_num_mono s : forall acc, hex_digits s -> 0 <= acc -> acc <= hex_num acc s.
Proof.
  induction s as [|c s IH]; intros acc Hs Ha; [done|]. apply Forall_cons in Hs as [(d & Hd & ->) Hs].
  unfold hex_num. cbn [fold_left]. rewrite to_digit_hex by done. cbn [default id]. fold (hex_num (acc * 16 + d) s).
  specialize (IH (acc * 16 + d) Hs). lia.
Qed.
Lemma radix_digits_ok max s : forall acc, hex_digits s -> 0 <= acc -> hex_num acc s <= max -> radix_digits 16 max acc s = Some (hex_num acc s).
Proof.
  induction s as [|c s IH]; intros acc Hs Ha Hm; [done|]. apply Forall_cons in Hs as [(d & Hd & ->) Hs]. cbn [radix_digits].
  unfold hex_num in *. cbn [fold_left] in *. rewrite to_digit_hex in * by done. cbn [default id mbind option_bind] in *.
  fold (hex_num (acc * 16 + d) s) in *. pose proof (hex_num_mono s (acc * 16 + d) Hs ltac:(lia)).
  destruct (Z.ltb_spec max (acc * 16 + d)); [lia|]. by apply IH; [|lia|].
Qed.
Lemma hex_zeros n s acc : hex_num acc (repeat 48 n ++ s) = hex_num (acc * 16 ^ Z.of_nat n) s.
Proof.
  revert acc. induction n as [|n IH]; intros acc; cbn [repeat app].
  - change (16 ^ Z.of_nat 0) with 1. by rewrite Z.mul_1_r.
  - unfold hex_num at 1. cbn [fold_left]. change (to_digit 16 48) with (Some 0). cbn [default id]. fold (hex_num (acc * 16 + 0) (repeat 48 n ++ s)).
    rewrite IH. f_equal. rewrite Nat2Z.inj_succ, Z.pow_succ_r by lia. lia.
Qed.
Lemma hex_padded_ok w n : u64 n -> hex_digits (hex_padded w n) /\ hex_num 0 (hex_padded w n) = n.
Proof.
  intros Hn. destruct (hex_ok n Hn) as [H1 H2]. unfold hex_padded. split.
  - apply Forall_app. split; [|done]. apply Forall_forall. intros c Hc%list_elem_of_In%repeat_spec. exists 0. by subst c.
  - by rewrite hex_zeros.
Qed.
Lemma parse_radix_hex max w n : u64 n -> n <= max -> parse_radix 16 max (hex_padded w n) = Some n.
Proof.
  intros Hn Hm. destruct (hex_padded_ok w n Hn) as [Hd Hv]. pose proof (radix_digits_ok max (hex_padded w n) 0 Hd ltac:(lia)) as E.
  rewrite Hv in E. specialize (E Hm). unfold parse_radix. destruct (hex_padded w n) as [|c s] eqn:Es.
  - unfold hex_padded in Es. apply app_eq_nil in Es as [_ Es]. by apply hex_not_nil in Es.
  - apply Forall_cons in Hd as [Hc%hex_digit_range _]. by destruct (Z.eqb_spec c 43); [lia|].
Qed.

(** ** IPv6 addresses *)
Lemma read_digits_suffix radix s : forall count acc, exists t, s = t ++ (read_digits radix s count acc).2.
Proof.
  induction s as [|c s IH]; intros count acc; cbn [read_digits]; [by exists []|]. destruct (to_digit radix c) as [d|]; [|by exists []].
  destruct (IH (S count) (acc * radix + d)) as [t E]. exists (c :: t). cbn [app]. by f_equal.
Qed.
Lemma read_number_suffix radix w z max s v rest : read_number radix w z max s = Some (v, rest) -> exists t, s = t ++ rest.
Proof.
  unfold read_number. destruct (read_digits_suffix radix s 0 0) as [t E]. destruct (read_digits radix s 0 0) as [[count n] r].
  repeat case_match; try done; intros [= <- <-]; by exists t.
Qed.
(** A text without a dot is no IPv4 address. *)
Lemma read_ipv4_no_dot s : 46 ∉ s -> read_ipv4 s = None.
Proof.
  intros Hs. unfold read_ipv4, read_octet, read_separator. cbn [Nat.ltb Nat.leb mbind option_bind].
  destruct (read_number 10 3 false 255 s) as [[a rest]|] eqn:E; [|done]. cbn [mbind option_bind].
  apply read_number_suffix in E as [t ->]. destruct rest as [|c rest]; [done|]. cbn [read_char].
  destruct (Z.eqb_spec c 46) as [->|]; [|done]. exfalso. apply Hs. set_solver.
Qed.

Lemma read_digits_hex s rest : forall count acc, hex_digits s -> (forall c r, rest = c :: r -> c = 58) ->
  read_digits 16 (s ++ rest) count acc = ((count + length s)%nat, hex_num acc s, rest).
Proof.
  induction s as [|c s IH]; intros count acc Hs Hr; cbn [app].
  - rewrite Nat.add_0_r. destruct rest as [|c r]; [done|]. by rewrite (Hr c r eq_refl).
  - apply Forall_cons in Hs as [(d & Hd & ->) Hs]. cbn [read_digits]. rewrite to_digit_hex by done. rewrite IH by done.
    unfold hex_num. cbn [fold_left length]. rewrite to_digit_hex by done. cbn [default id]. by rewrite Nat.add_succ_comm.
Qed.
Lemma hex_length n : 0 <= n < 2 ^ 16 -> (length (hex n) <= 4)%nat.
Proof.
  intros Hn. unfold hex. change 16%nat with (S (S (S (S 12)))). generalize 12%nat as f. intros f. cbn [hex_loop].
  destruct (Z.ltb_spec n 16); [cbn; lia|]. destruct (Z.ltb_spec (n / 16) 16); [cbn; lia|]. destruct (Z.ltb_spec (n / 16 / 16) 16); [cbn; lia|].
  assert (n / 16 / 16 / 16 < 16) as Hlt by (rewrite !Z.div_div by lia; apply Z.div_lt_upper_bound; lia).
  destruct (Z.ltb_spec (n / 16 / 16 / 16) 16); [cbn; lia|lia].
Qed.
Lemma u16_u64 n : 0 <= n < 2 ^ 16 -> u64 n.
Proof. unfold u64. lia. Qed.
Lemma read_group n rest : 0 <= n < 2 ^ 16 -> (forall c r, rest = c :: r -> c = 58) ->
  read_number 16 4 true 65535 (hex n ++ rest) = Some (n, rest).
Proof.
  intros Hn Hr. destruct (hex_ok n (u16_u64 n Hn)) as [Hd Hv]. pose proof (hex_length n Hn) as Hl. unfold read_number.
  rewrite read_digits_hex by done. rewrite Hv. cbn [Nat.add]. destruct (Nat.ltb_spec 4 (length (hex n))); [lia|].
  pose proof (hex_not_nil n). destruct (hex n) as [|c s]; [done|]. cbn [app length Nat.eqb negb andb]. by destruct (Z.ltb_spec 65535 n); [lia|].
Qed.

Definition group_ok (g : Z) : Prop := 0 <= g < 2 ^ 16.
(** The groups as they follow the first [i]: each but the first of all after a
    colon. *)
Fixpoint group_text (i : nat) (l : list Z) : Str :=
  match l with [] => [] | g :: l => (if (0 <? i)%nat then [58] else []) ++ hex g ++ group_text (S i) l end.
Lemma fmt_subslice_text l : fmt_subslice l = group_text 0 l.
Proof.
  assert (forall l i, match l with [] => [] | _ => 58 :: fmt_subslice l end = group_text (S i) l) as H.
  { clear. induction l as [|g l IH]; intros i; [done|]. cbn [group_text Nat.ltb Nat.leb app]. rewrite <- (IH (S i)). f_equal. destruct l; [|done].
    cbn. by rewrite app_nil_r. }
  destruct l as [|g l]; [done|]. cbn [group_text Nat.ltb Nat.leb app]. rewrite <- (H l 0%nat). destruct l; [cbn; by rewrite app_nil_r|done].
Qed.
Lemma group_text_no_dot l : forall i, Forall group_ok l -> 46 ∉ group_text i l.
Proof.
  induction l as [|g l IH]; intros i Hl; cbn [group_text]; [by apply not_elem_of_nil|]. apply Forall_cons in Hl as [Hg Hl].
  rewrite !not_elem_of_app. split_and!; [by destruct (0 <? i)%nat; set_solver|apply hex_digits_not_in; [by apply hex_ok, u16_u64|lia]|by apply IH].
Qed.
Lemma group_text_head l i c r : group_text (S i) l = c :: r -> c = 58.
Proof. destruct l; cbn; [done|]. by intros [= <- _]. Qed.

(** Reading groups stops at the end of the text, at a double colon, or at the
    limit. *)
Definition stops (i limit : nat) (rest : Str) : Prop :=
  (46 ∉ rest) /\ (rest = [] \/ (exists r, rest = 58 :: 58 :: r)).
Lemma read_number_stop z w max c r : to_digit 16 c = None -> read_number 16 w z max (c :: r) = None.
Proof. intros Hc. unfold read_number. cbn [read_digits]. rewrite Hc. by destruct (w <? 0)%nat. Qed.
Lemma read_sep_stop i rest : rest = [] \/ (exists r, rest = 58 :: 58 :: r) -> read_separator 58 i (read_number 16 4 true 65535) rest = None.
Proof.
  intros [->|(r & ->)]; unfold read_separator; by destruct (0 <? i)%nat.
Qed.
Lemma read_sep_v4_no_dot i s : 46 ∉ s -> read_separator 58 i read_ipv4 s = None.
Proof.
  intros Hs. unfold read_separator. destruct (0 <? i)%nat; [|by apply read_ipv4_no_dot]. destruct s as [|c s]; [done|]. cbn [read_char].
  destruct (c =? 58); [|done]. cbn [mbind option_bind]. apply read_ipv4_no_dot. set_solver.
Qed.
Lemma read_groups_text l : forall i limit rest, Forall group_ok l -> (length l <= limit)%nat -> stops i limit rest ->
  (length l = limit -> rest = []) ->
  read_groups i limit (group_text i l ++ rest) = (l, false, rest).
Proof.
  induction l as [|g l IH]; intros i limit rest Hl Hlen (Hdot & Hstop) Hfull.
  - destruct limit as [|limit]; [done|]. cbn [group_text app read_groups].
    destruct (0 <? limit)%nat; [rewrite read_sep_v4_no_dot by done|]; by rewrite read_sep_stop.
  - destruct limit as [|limit]; [cbn in Hlen; lia|]. cbn [read_groups]. apply Forall_cons in Hl as [Hg Hl].
    assert (46 ∉ group_text i (g :: l) ++ rest) as Hno.
    { apply not_elem_of_app. split; [|done]. apply group_text_no_dot. by apply Forall_cons. }
    assert (read_separator 58 i (read_number 16 4 true 65535) (group_text i (g :: l) ++ rest) = Some (g, group_text (S i) l ++ rest)) as E.
    { assert (read_number 16 4 true 65535 (hex g ++ group_text (S i) l ++ rest) = Some (g, group_text (S i) l ++ rest)) as E.
      { apply read_group; [done|]. intros c r Hc. destruct l as [|g' l]; [|by injection Hc as <- _].
        cbn [group_text app] in Hc. destruct Hstop as [->|(r' & ->)]; [done|by injection Hc as <- _]. }
      unfold read_separator. cbn [group_text]. destruct (0 <? i)%nat; cbn [app read_char]; rewrite <- ?app_assoc; rewrite ?Z.eqb_refl;
        cbn [mbind option_bind]; exact E. }
    rewrite E, read_sep_v4_no_dot by exact Hno.
    rewrite (IH (S i) limit rest) by first [done|cbn in Hlen; lia|intros ?; apply Hfull; cbn; lia]. by destruct (0 <? limit)%nat.
Qed.

Lemma read_ipv4_show v : u32 v -> read_ipv4 (show_ipv4 v) = Some (v, []).
Proof.
  intros Hv. pose proof (parse_show_ipv4 v Hv) as H. unfold parse_ipv4, parse_with in H. destruct (15 <? _)%nat; [done|].
  destruct (read_ipv4 (show_ipv4 v)) as [[a [|c s]]|]; [by injection H as ->|done|done].
Qed.

Definition is_span (all : list Z) (s : nat * nat) : Prop := take s.2 (drop s.1 all) = repeat 0 s.2.
Lemma span_step all start n i : is_span all (start, n) -> (start + n = i)%nat -> all !! i = Some 0 -> is_span all (start, S n).
Proof.
  unfold is_span. cbn [fst snd]. intros Hs Hi Hz. rewrite (take_S_r _ _ 0) by (rewrite lookup_drop, Hi; exact Hz). rewrite Hs.
  change [0] with (repeat 0 1). rewrite <- repeat_app. f_equal. lia.
Qed.
Lemma zero_span_ok all l : forall i current longest, l = drop i all -> (i + length l = length all)%nat ->
  is_span all longest -> is_span all current -> (current.2 = 0 \/ current.1 + current.2 = i)%nat ->
  is_span all (zero_span i current longest l).
Proof.
  induction l as [|s l IH]; intros i current longest El Hlen Hlon Hcur Hat; cbn [zero_span]; [done|].
  assert (l = drop (S i) all) as El' by (by rewrite <- Nat.add_1_r, <- drop_drop, <- El).
  assert (all !! i = Some s) as Hi by (by rewrite <- (Nat.add_0_r i), <- lookup_drop, <- El).
  cbn [length] in Hlen. destruct (Z.eqb_spec s 0) as [->|].
  - set (c := if (current.2 =? 0)%nat then _ else _).
    assert (is_span all c /\ (c.1 + c.2 = S i)%nat) as [Hc Hc'].
    { unfold c. destruct (Nat.eqb_spec current.2 0) as [E|E].
      - split; [|cbn; lia]. by apply (span_step all i 0 i); [|lia|].
      - destruct current as [start n]. cbn [fst snd] in *. split; [|lia]. apply (span_step all start n i); [done|lia|done]. }
    apply IH; [done|lia| |done|by right]. by destruct (_ <? _)%nat.
  - apply IH; [done|lia|done|done|by left].
Qed.
Lemma zero_span_split all start len : zero_span 0 (0, 0)%nat (0, 0)%nat all = (start, len) -> (0 < len)%nat ->
  all = take start all ++ repeat 0 len ++ drop (start + len) all /\ (start + len <= length all)%nat.
Proof.
  intros E Hpos. assert (is_span all (start, len)) as H by (rewrite <- E; apply zero_span_ok; try done; by left).
  unfold is_span in H. cbn [fst snd] in H. split.
  - rewrite <- H, <- drop_drop, !take_drop. done.
  - pose proof (f_equal length H) as Hl. rewrite length_take, length_drop, repeat_length in Hl. lia.
Qed.

Lemma segments_ok a : Forall group_ok (segments a).
Proof. apply Forall_forall. intros g [i [-> _]]%list_elem_of_fmap. apply Z.mod_pos_bound. lia. Qed.
Lemma of_groups_segments a : u128 a -> of_groups (segments a) = a.
Proof.
  intros Ha. unfold u128 in Ha. unfold of_groups, segments. cbn [map fold_left Z.mul Z.pow Z.pow_pos Pos.iter Pos.mul].
  Z.to_euclidean_division_equations. lia.
Qed.

Lemma parse_mapped v : u32 v -> read_ipv6 (str "::ffff:" ++ show_ipv4 v) = Some (0xffff * 2 ^ 32 + v, []).
Proof.
  intros Hv. change (str "::ffff:" ++ show_ipv4 v) with (58 :: 58 :: hex 0xffff ++ 58 :: show_ipv4 v).
  unfold read_ipv6. change (read_groups 0 8 (58 :: 58 :: hex 0xffff ++ 58 :: show_ipv4 v)) with (@nil Z, false, 58 :: 58 :: hex 0xffff ++ 58 :: show_ipv4 v).
  cbn [length Nat.eqb Nat.sub Nat.add read_char Z.eqb Pos.eqb mbind option_bind].
  assert (read_groups 0 7 (hex 0xffff ++ 58 :: show_ipv4 v) = ([0xffff; v / 65536; v mod 65536], true, [])) as ->.
  { cbn [read_groups]. change (if (0 <? 6)%nat then read_separator 58 0 read_ipv4 (hex 0xffff ++ 58 :: show_ipv4 v) else None) with (@None (Z * Str)).
    change (read_separator 58 0 (read_number 16 4 true 65535) (hex 0xffff ++ 58 :: show_ipv4 v)) with (read_number 16 4 true 65535 (hex 0xffff ++ 58 :: show_ipv4 v)).
    rewrite read_group; [|lia|by intros c r [= <- _]].
    change (if (0 <? 5)%nat then read_separator 58 1 read_ipv4 (58 :: show_ipv4 v) else None) with (read_ipv4 (show_ipv4 v)).
    by rewrite read_ipv4_show. }
  cbn [app repeat length Nat.sub]. unfold of_groups. cbn [fold_left]. do 2 f_equal. unfold u32 in Hv. pose proof (Z.div_mod v 65536). lia.
Qed.

Lemma parse_show_ipv6 a : u128 a -> read_ipv6 (show_ipv6 a) = Some (a, []).
Proof.
  intros Ha. unfold show_ipv6, is_mapped. destruct (Z.eqb_spec (a / 2 ^ 32) 0xffff) as [E|_].
  { rewrite parse_mapped by (unfold u32; apply Z.mod_pos_bound; lia). do 2 f_equal. pose proof (Z.div_mod a (2 ^ 32)). lia. }
  replace (Some (a, @nil Z)) with (Some (of_groups (segments a), @nil Z)) by (by rewrite of_groups_segments). pose proof (segments_ok a) as Hok.
  assert (length (segments a) = 8%nat) as Hlen by done.
  destruct (zero_span 0 (0, 0)%nat (0, 0)%nat (segments a)) as [start len] eqn:Ez. generalize dependent (segments a). clear a Ha. intros all Hok Hlen Ez.
  unfold read_ipv6. destruct (Nat.ltb_spec 1 len) as [Hn|_].
  - destruct (zero_span_split all start len Ez ltac:(lia)) as [Eall Hle]. rewrite !fmt_subslice_text.
    assert (length (take start all) = start) as Hs by (rewrite length_take; lia).
    assert (length (drop (start + len) all) = (8 - start - len)%nat) as Ht by (rewrite length_drop; lia).
    assert (Forall group_ok (drop (start + len) all)) as Hd by by apply Forall_drop.
    rewrite read_groups_text; [|by apply Forall_take|lia| |lia].
    2: { split; [|right; by eexists]. change (str "::") with [58; 58]. apply not_elem_of_app. split; [set_solver|by apply group_text_no_dot]. }
    rewrite Hs. destruct (Nat.eqb_spec start 8); [lia|]. change (str "::" ++ ?x) with (58 :: 58 :: x).
    cbn [app read_char Z.eqb Pos.eqb mbind option_bind]. rewrite <- (app_nil_r (group_text 0 (drop (start + len) all))).
    rewrite read_groups_text; [|done|lia|split; [by apply not_elem_of_nil|by left]|done]. do 3 f_equal.
    rewrite Ht. replace (8 - start - (8 - start - len))%nat with len by lia. by rewrite <- Eall.
  - rewrite fmt_subslice_text, <- (app_nil_r (group_text 0 all)).
    rewrite read_groups_text; [|done|lia|split; [by apply not_elem_of_nil|by left]|done]. by rewrite Hlen.
Qed.
Lemma show_ipv6_no_ipv4 a : u128 a -> read_ipv4 (show_ipv6 a) = None.
Proof.
  intros Ha. unfold show_ipv6. destruct (is_mapped a); [done|]. pose proof (segments_ok a) as Hok.
  destruct (zero_span _ _ _ _) as [start len]. apply read_ipv4_no_dot. destruct (1 <? len)%nat; rewrite !fmt_subslice_text.
  - change (str "::") with [58; 58]. rewrite !not_elem_of_app. split_and!; [by apply group_text_no_dot, Forall_take|set_solver|by apply group_text_no_dot, Forall_drop].
  - by apply group_text_no_dot.
Qed.

Definition ip_ok (a : IpAddr) : Prop := match a with IpV4 v => u32 v | IpV6 v => u128 v end.
Lemma parse_show_ip a : ip_ok a -> parse_ip (show_ip a) = Some a.
Proof.
  destruct a as [v|v]; intros Hv; unfold parse_ip, parse_with; cbn [show_ip].
  - by rewrite read_ipv4_show.
  - by rewrite show_ipv6_no_ipv4, parse_show_ipv6.
Qed.

Lemma group_text_no c l : forall i, Forall group_ok l -> (c < 48 \/ 58 < c < 97) -> c ∉ group_text i l.
Proof.
  induction l as [|g l IH]; intros i Hl Hc; cbn [group_text]; [by apply not_elem_of_nil|]. apply Forall_cons in Hl as [Hg Hl].
  rewrite !not_elem_of_app. split_and!; [|apply hex_digits_not_in; [by apply hex_ok, u16_u64|lia]|by apply IH].
  destruct (0 <? i)%nat; [|apply not_elem_of_nil]. apply not_elem_of_cons. split; [lia|apply not_elem_of_nil].
Qed.
Lemma ipv4_no c v : is_digit c = false -> c <> 46 -> c ∉ show_ipv4 v.
Proof.
  intros Hc Hd. assert (forall i, c ∉ dec (ipv4_octet v i)) as H.
  { intros i. apply dec_not_in; [|done]. unfold ipv4_octet. by apply Z.mod_pos_bound. }
  unfold show_ipv4. change (str ".") with [46]. rewrite !not_elem_of_app. assert (c ∉ [46]) by (apply not_elem_of_cons; split; [done|apply not_elem_of_nil]). done.
Qed.
Lemma ipv6_no_slash a : 47 ∉ show_ipv6 a.
Proof.
  unfold show_ipv6. destruct (is_mapped a).
  - apply not_elem_of_app. split; [|by apply ipv4_no]. change (str "::ffff:") with [58; 58; 102; 102; 102; 102; 58]. set_solver.
  - pose proof (segments_ok a) as Hok. destruct (zero_span _ _ _ _) as [start len]. destruct (1 <? len)%nat; rewrite !fmt_subslice_text.
    + change (str "::") with [58; 58]. rewrite !not_elem_of_app.
      split_and!; [apply group_text_no; [by apply Forall_take|lia]|set_solver|apply group_text_no; [by apply Forall_drop|lia]].
    + apply group_text_no; [done|lia].
Qed.

Definition network_ok (n : IpNetwork) : Prop :=
  match n with
  | V4 n => u32 (v4_address n) /\ 0 <= v4_len n <= 32
  | V6 n => u128 (v6_address n) /\ 0 <= v6_len n <= 128
  end.
Lemma net_from_show n : network_ok n -> net_from_str (show_network n) = inr n.
Proof.
  destruct n as [[a len]|[a len]]; cbn [network_ok v4_address v4_len v6_address v6_len]; intros [Ha Hl]; unfold net_from_str; cbn [show_network v4_address v4_len v6_address v6_len].
  - change (str "/" ++ dec len) with (47 :: dec len). rewrite split_app, split_last by (by apply ipv4_no || (apply dec_not_in; [lia|done])).
    rewrite parse_uint_dec by lia. rewrite parse_show_ipv4 by done. by destruct (Z.ltb_spec 32 len); [lia|].
  - change (str "/" ++ dec len) with (47 :: dec len). rewrite split_app, split_last by (apply ipv6_no_slash || (apply dec_not_in; [lia|done])).
    rewrite parse_uint_dec by lia. unfold parse_ipv4, parse_with. rewrite show_ipv6_no_ipv4, parse_show_ipv6 by done.
    destruct (15 <? _)%nat; (by destruct (Z.ltb_spec 128 len); [lia|]).
Qed.

(** ** Floating-point numbers *)
(** [2 ^ e <= num / den], for an [e] of either sign. *)
Definition pow_le (num den e : Z) : Prop := den * 2 ^ Z.max 0 e <= num * 2 ^ Z.max 0 (- e).
Lemma pow_le_scaled num den e n : 0 <= n -> - n <= e -> pow_le num den e <-> den * 2 ^ (n + e) <= num * 2 ^ n.
Proof.
  intros Hn He. unfold pow_le. assert (0 < 2 ^ (n - Z.max 0 (- e))) as Hp by (apply Z.pow_pos_nonneg; lia).
  replace (n + e) with (Z.max 0 e + (n - Z.max 0 (- e))) by lia. replace n with (Z.max 0 (- e) + (n - Z.max 0 (- e))) at 2 by lia.
  rewrite !Z.pow_add_r by lia. rewrite !Z.mul_assoc. split; intros H; nia.
Qed.

(** The exponent of a quotient. *)
Definition f32_exponent (num den : Z) : Z :=
  let e0 := Z.log2 num - Z.log2 den in
  if num * 2 ^ Z.max 0 (- e0) <? den * 2 ^ Z.max 0 e0 then e0 - 1 else e0.
Lemma exponent_ok num den n : 0 < num -> 0 < den -> Z.log2 num + Z.log2 den + 1 <= n ->
  den * 2 ^ (n + f32_exponent num den) <= num * 2 ^ n /\ num * 2 ^ n < den * 2 ^ (n + f32_exponent num den + 1).
Proof.
  intros Hnum Hden Hn. pose proof (Z.log2_spec num Hnum) as [L1 L2]. pose proof (Z.log2_spec den Hden) as [D1 D2].
  pose proof (Z.log2_nonneg num). pose proof (Z.log2_nonneg den). set (ln := Z.log2 num) in *. set (ld := Z.log2 den) in *.
  assert (den * 2 ^ (n + (ln - ld) - 1) <= num * 2 ^ n) as Hlow.
  { transitivity (2 ^ Z.succ ld * 2 ^ (n + (ln - ld) - 1)); [apply Z.mul_le_mono_nonneg_r; [apply Z.pow_nonneg|]; lia|].
    rewrite <- Z.pow_add_r by lia. replace (Z.succ ld + (n + (ln - ld) - 1)) with (ln + n) by lia. rewrite Z.pow_add_r by lia.
    apply Z.mul_le_mono_nonneg_r; [apply Z.pow_nonneg|]; lia. }
  assert (num * 2 ^ n < den * 2 ^ (n + (ln - ld) + 1)) as Hhigh.
  { apply Z.lt_le_trans with (2 ^ Z.succ ln * 2 ^ n); [apply Z.mul_lt_mono_pos_r; [apply Z.pow_pos_nonneg|]; lia|].
    rewrite <- Z.pow_add_r by lia. replace (Z.succ ln + n) with (ld + (n + (ln - ld) + 1)) by lia. rewrite Z.pow_add_r by lia.
    apply Z.mul_le_mono_nonneg_r; [apply Z.pow_nonneg|]; lia. }
  pose proof (pow_le_scaled num den (ln - ld) n ltac:(lia) ltac:(lia)) as Hs. unfold pow_le in Hs.
  unfold f32_exponent. fold ln ld. destruct (Z.ltb_spec (num * 2 ^ Z.max 0 (- (ln - ld))) (den * 2 ^ Z.max 0 (ln - ld))) as [Hlt|Hge].
  - split; [by replace (n + (ln - ld - 1)) with (n + (ln - ld) - 1) by lia|]. replace (n + (ln - ld - 1) + 1) with (n + (ln - ld)) by lia. lia.
  - split; [by apply Hs|done].
Qed.

Lemma div_even_exact m d : 0 < d -> div_even (m * d) d = m.
Proof. intros Hd. unfold div_even. rewrite Z.div_mul, Z.mod_mul by lia. by destruct (Z.compare_spec (0 * 2) d); [lia| |lia]. Qed.

Lemma f32_parts b : 0 < b < infinity_bits ->
  let m := f32_mant b in let x := f32_exp b in
  0 < m < 2 ^ 24 /\ -149 <= x <= 104 /\ (2 ^ 23 <= m \/ x = -149) /\ m + (x + 149) * 2 ^ 23 = b.
Proof.
  unfold infinity_bits, f32_mant, f32_exp. intros Hb. pose proof (Z.div_mod b (2 ^ 23)) as Hd. pose proof (Z.mod_pos_bound b (2 ^ 23)) as Hm.
  destruct (Z.ltb_spec b (2 ^ 23)); cbn zeta; lia.
Qed.

(** Rounding gives back the number it starts from. *)
Lemma round_f32_exact b num den : 0 < b < infinity_bits -> 0 < den ->
  num * 2 ^ Z.max 0 (- f32_exp b) = f32_mant b * 2 ^ Z.max 0 (f32_exp b) * den -> round_f32 num den = b.
Proof.
  intros Hb Hden E. destruct (f32_parts b Hb) as (Hm & Hx & Hnorm & Hbits). set (m := f32_mant b) in *. set (x := f32_exp b) in *.
  assert (0 < 2 ^ Z.max 0 (- x)) as Hp1 by (apply Z.pow_pos_nonneg; lia). assert (0 < 2 ^ Z.max 0 x) as Hp2 by (apply Z.pow_pos_nonneg; lia).
  assert (0 < num) as Hnum by nia. unfold round_f32. destruct (Z.eqb_spec num 0) as [?|_]; [lia|].
  fold (f32_exponent num den). set (n := Z.log2 num + Z.log2 den + 200).
  pose proof (Z.log2_nonneg num). pose proof (Z.log2_nonneg den).
  destruct (exponent_ok num den n Hnum Hden ltac:(unfold n; lia)) as [H1 H2].
  assert (-n + 150 <= f32_exponent num den) as He.
  { unfold f32_exponent, n. destruct (_ <? _); lia. }
  assert (num * 2 ^ n = m * 2 ^ (n + x) * den) as En.
  { replace n with (Z.max 0 (- x) + (n - Z.max 0 (- x))) at 1 by lia. replace (n + x) with (Z.max 0 x + (n - Z.max 0 (- x))) by lia.
    rewrite !Z.pow_add_r by lia. rewrite !Z.mul_assoc, E. lia. }
  set (e := f32_exponent num den) in *. rewrite En in H1, H2.
  assert (2 ^ (n + e) <= m * 2 ^ (n + x)) as H1' by nia. assert (m * 2 ^ (n + x) < 2 ^ (n + e + 1)) as H2' by nia.
  assert (0 < 2 ^ (n + x)) as Hpx by (apply Z.pow_pos_nonneg; lia).
  assert (e < x + 24) as Hup.
  { assert (2 ^ (n + e) < 2 ^ (24 + (n + x))) as Hlt by (rewrite (Z.pow_add_r 2 24) by lia; nia). apply Z.pow_lt_mono_r_iff in Hlt; lia. }
  assert (Z.max e (-126) = x + 23) as ->.
  { destruct Hnorm as [Hn|Hn]; [|lia].
    assert (2 ^ (23 + (n + x)) < 2 ^ (n + e + 1)) as Hlt by (rewrite (Z.pow_add_r 2 23) by lia; nia). apply Z.pow_lt_mono_r_iff in Hlt; lia. }
  replace (23 - (x + 23)) with (- x) by lia. replace (x + 23 - 23) with x by lia. rewrite E.
  rewrite <- (Z.mul_assoc m), (Z.mul_comm (2 ^ Z.max 0 x)), div_even_exact by nia. unfold infinity_bits in *. lia.
Qed.

Lemma decimal_at_reads bits k d : decimal_at bits k = Some d -> round_dec d k = bits.
Proof.
  unfold decimal_at. set (f := _ / _). destruct (Z.eqb_spec (round_dec (f + 1) k) bits) as [E|]; cbn [andb].
  - destruct (Z.eqb_spec (round_dec f k) bits) as [E'|]; cbn [negb orb]; [|by intros [= <-]]. destruct (_ <=? _); by intros [= <-].
  - destruct (Z.eqb_spec (round_dec f k) bits) as [E'|]; [by intros [= <-]|done].
Qed.
Lemma decimal_at_nonneg bits k d : 0 < bits < infinity_bits -> decimal_at bits k = Some d -> 0 <= d.
Proof.
  intros Hb. destruct (f32_parts bits Hb) as (Hm & _). unfold decimal_at. set (f := _ / _).
  assert (0 <= f) by (apply Z.div_pos; [|apply Z.mul_pos_pos; apply Z.pow_pos_nonneg; lia]; repeat apply Z.mul_nonneg_nonneg; [lia|apply Z.pow_nonneg; lia..]).
  repeat case_match; try done; intros [= <-]; lia.
Qed.
(** At the lowest power the number itself is such a multiple. *)
Lemma decimal_at_exact bits : 0 < bits < infinity_bits -> exists d, decimal_at bits (-149) = Some d.
Proof.
  intros Hb. destruct (f32_parts bits Hb) as (Hm & Hx & _ & _). unfold decimal_at.
  change (Z.max 0 (- -149)) with 149. change (Z.max 0 (-149)) with 0. rewrite Z.pow_0_r, Z.mul_1_r.
  set (num := f32_mant bits * 2 ^ Z.max 0 (f32_exp bits) * 10 ^ 149). set (den := 2 ^ Z.max 0 (- f32_exp bits)).
  assert (0 < den) as Hden by (apply Z.pow_pos_nonneg; lia).
  assert (num mod den = 0) as Hmod.
  { unfold num, den. replace (10 ^ 149) with (5 ^ 149 * 2 ^ (149 - Z.max 0 (- f32_exp bits)) * 2 ^ Z.max 0 (- f32_exp bits)).
    - rewrite !Z.mul_assoc. apply Z.mod_mul. lia.
    - rewrite <- Z.mul_assoc, <- Z.pow_add_r by lia. replace (149 - _ + _) with 149 by lia. by rewrite <- Z.pow_mul_l. }
  assert (round_dec (num / den) (-149) = bits) as ->.
  { unfold round_dec. change (Z.max 0 (-149)) with 0. change (Z.max 0 (- -149)) with 149. rewrite Z.pow_0_r, Z.mul_1_r.
    apply round_f32_exact; [done|by apply Z.pow_pos_nonneg|]. fold den. pose proof (Z.div_mod num den ltac:(lia)). unfold num in *. lia. }
  rewrite Z.eqb_refl. destruct (_ && _); eauto.
Qed.
Lemma shortest_from_ok bits j d : decimal_at bits j = Some d -> forall fuel k, j <= k < j + Z.of_nat fuel ->
  let r := shortest_from fuel bits k in decimal_at bits r.2 = Some r.1 /\ j <= r.2 <= k.
Proof.
  intros Hj. induction fuel as [|fuel IH]; intros k Hk; cbn [shortest_from]; [lia|].
  destruct (decimal_at bits k) as [d'|] eqn:E; [by split; [|cbn; lia]|].
  assert (k <> j) by congruence. destruct (IH (k - 1) ltac:(lia)) as [H1 H2]. split; [done|lia].
Qed.
Lemma shortest_reads bits : 0 < bits < infinity_bits -> round_dec (shortest bits).1 (shortest bits).2 = bits /\ 0 <= (shortest bits).1 /\ -149 <= (shortest bits).2 <= 39.
Proof.
  intros Hb. destruct (decimal_at_exact bits Hb) as [d Hd]. destruct (shortest_from_ok bits (-149) d Hd 190 39 ltac:(lia)) as [H1 H2].
  split; [by apply decimal_at_reads|]. split; [by apply (decimal_at_nonneg bits _ _ Hb H1)|exact H2].
Qed.

(** *** Their text *)
Lemma take_digits_app s rest : digits s -> (forall c r, rest = c :: r -> is_digit c = false) -> take_digits (s ++ rest) = (s, rest).
Proof.
  intros Hs Hr. induction s as [|c s IH]; cbn [app].
  - destruct rest as [|c r]; [done|]. cbn [take_digits]. by rewrite (Hr c r eq_refl).
  - apply Forall_cons in Hs as [Hc Hs]. cbn [take_digits]. by rewrite Hc, (IH Hs).
Qed.
Lemma digits_zeros n : digits (repeat 48 n).
Proof. apply Forall_forall. intros c ->%list_elem_of_In%repeat_spec. done. Qed.
Lemma dec_all_ok m : 0 <= m -> digits (dec_all m) /\ num 0 (dec_all m) = m.
Proof.
  intros Hm. split; [by apply dec_loop_digits, Forall_nil|]. unfold dec_all. apply num_dec_loop. split; [done|].
  rewrite Nat2Z.inj_succ, Z2Nat.id by apply Z.log2_nonneg. destruct (Z.eq_dec m 0) as [->|]; [done|].
  apply Z.lt_le_trans with (2 ^ Z.succ (Z.log2 m)); [apply Z.log2_spec; lia|]. apply Z.pow_le_mono_l. lia.
Qed.
Lemma dec_all_not_nil m : dec_all m <> [].
Proof. unfold dec_all. cbn [dec_loop]. destruct (m <? 10); [done|]. by apply dec_loop_not_nil. Qed.
Lemma num_zeros n s acc : num acc (s ++ repeat 48 n) = num acc s * 10 ^ Z.of_nat n.
Proof.
  unfold num. rewrite fold_left_app. generalize (fold_left (fun acc c => acc * 10 + (c - 48)) s acc) as v.
  induction n as [|n IH]; intros v; cbn [repeat fold_left]; [change (10 ^ Z.of_nat 0) with 1; lia|].
  rewrite IH, Nat2Z.inj_succ, Z.pow_succ_r by lia. lia.
Qed.
Lemma num_leading_zeros n s : num 0 (repeat 48 n ++ s) = num 0 s.
Proof. induction n as [|n IH]; [done|]. cbn [repeat app]. unfold num at 1. cbn [fold_left]. exact IH. Qed.

(** A whole number, and one with a fraction. *)
Lemma parse_decimal_whole s : digits s -> s <> [] -> parse_decimal s = Some (num 0 s, 0).
Proof.
  intros Hs Hne. unfold parse_decimal. rewrite <- (app_nil_r s) at 1. rewrite take_digits_app by done. cbn [read_char].
  rewrite app_nil_r. by destruct s.
Qed.
Lemma parse_decimal_fraction s t : digits s -> digits t -> s <> [] -> parse_decimal (s ++ 46 :: t) = Some (num 0 (s ++ t), - Z.of_nat (length t)).
Proof.
  intros Hs Ht Hne. unfold parse_decimal. rewrite take_digits_app; [|done|by intros c r [= <- _]]. cbn [read_char]. rewrite Z.eqb_refl.
  rewrite <- (app_nil_r t) at 1. rewrite take_digits_app by done. by destruct s.
Qed.
Lemma parse_show_decimal m k : 0 <= m -> exists m' k', parse_decimal (show_decimal m k) = Some (m', k') /\ round_dec m' k' = round_dec m k.
Proof.
  intros Hm. destruct (dec_all_ok m Hm) as [Hd Hv]. pose proof (dec_all_not_nil m) as Hne. unfold show_decimal. destruct (Z.leb_spec 0 k) as [Hk|Hk].
  - exists (num 0 (dec_all m ++ repeat 48 (Z.to_nat k))), 0. split.
    + apply parse_decimal_whole; [apply Forall_app; by split; [|apply digits_zeros]|by destruct (dec_all m)].
    + rewrite num_zeros, Hv, Z2Nat.id by done. unfold round_dec. change (Z.max 0 0) with 0. change (Z.max 0 (- 0)) with 0.
      replace (Z.max 0 k) with k by lia. replace (Z.max 0 (- k)) with 0 by lia. by rewrite Z.pow_0_r, Z.mul_1_r.
  - destruct (Nat.ltb_spec (Z.to_nat (- k)) (length (dec_all m))) as [Hl|Hl].
    + change (str "." ++ ?x) with (46 :: x). exists m, k. split; [|done].
      rewrite parse_decimal_fraction; [|by apply Forall_take|by apply Forall_drop|].
      * rewrite take_drop, Hv, length_drop. do 2 f_equal. lia.
      * intros E%(f_equal length). rewrite length_take in E. cbn [length] in E. lia.
    + change (str "0." ++ ?x) with ([48] ++ 46 :: x). exists m, k. split; [|done].
      rewrite parse_decimal_fraction; [|by repeat constructor|apply Forall_app; by split; [apply digits_zeros|]|done].
      rewrite length_app, repeat_length. f_equal. f_equal; [|lia]. rewrite app_assoc. change ([48] ++ repeat 48 ?n) with (repeat 48 (S n)).
      by rewrite num_leading_zeros.
Qed.

(** A number that is printed starts with a digit. *)
Lemma show_decimal_head m k : 0 <= m -> exists c s, show_decimal m k = c :: s /\ is_digit c = true.
Proof.
  intros Hm. destruct (dec_all_ok m Hm) as [Hd _]. pose proof (dec_all_not_nil m) as Hne. unfold show_decimal.
  destruct (dec_all m) as [|c s]; [done|]. apply Forall_cons in Hd as [Hc _]. destruct (0 <=? k); [by exists c, (s ++ repeat 48 (Z.to_nat k))|].
  destruct (Nat.ltb_spec (Z.to_nat (- k)) (length (c :: s))) as [Hl|_]; [|by eexists _, _].
  destruct (length (c :: s) - Z.to_nat (- k))%nat as [|n] eqn:E; [lia|]. by eexists c, _.
Qed.
(** Without the sign. *)
Definition show_abs (b : Z) : Str := if b =? infinity_bits then str "inf" else if b =? 0 then str "0" else let '(m, k) := shortest b in show_decimal m k.
Lemma parse_show_abs b neg : 0 <= b <= infinity_bits ->
  read_sign (show_abs b) = (false, show_abs b) /\
  parse_f32 ((if neg : bool then [45] else []) ++ show_abs b) = Some (if neg then sign_bit + b else b).
Proof.
  intros Hb. unfold show_abs. destruct (Z.eqb_spec b infinity_bits) as [->|]; [by destruct neg|]. destruct (Z.eqb_spec b 0) as [->|]; [by destruct neg|].
  destruct (shortest_reads b ltac:(lia)) as (Hr & Hm & _). destruct (shortest b) as [m k]. cbn [fst snd] in *.
  destruct (show_decimal_head m k Hm) as (c & s & E & Hc%is_digit_range). destruct (parse_show_decimal m k Hm) as (m' & k' & Ep & Er).
  rewrite E in *. assert (read_sign (c :: s) = (false, c :: s)) as Hsign.
  { cbn [read_sign]. destruct (Z.eqb_spec c 45); [lia|]. by destruct (Z.eqb_spec c 43); [lia|]. }
  split; [done|]. unfold parse_f32. assert (read_sign ((if neg then [45] else []) ++ c :: s) = (neg, c :: s)) as -> by by destruct neg.
  rewrite Ep. cbn [mbind option_bind]. by rewrite Er, Hr.
Qed.
Lemma parse_show_f32 bits : u32 bits -> parse_f32 (show_f32 bits) = Some (if infinity_bits <? bits mod sign_bit then nan_bits else bits).
Proof.
  intros Hb. unfold u32 in Hb. unfold show_f32. destruct (Z.ltb_spec infinity_bits (bits mod sign_bit)) as [|Hle]; [by vm_compute|].
  fold (show_abs (bits mod sign_bit)). pose proof (Z.mod_pos_bound bits sign_bit eq_refl) as Hm. pose proof (Z.div_mod bits sign_bit) as Hd.
  destruct (parse_show_abs (bits mod sign_bit) (sign_bit <=? bits) ltac:(lia)) as [_ E]. etransitivity; [exact E|]. f_equal.
  unfold sign_bit in *. destruct (Z.leb_spec 0x80000000 bits); [|by rewrite Z.mod_small by lia]. assert (bits / 2147483648 = 1); [|lia].
  Z.to_euclidean_division_equations. lia.
Qed.
Lemma show_decimal_no c m k : 0 <= m -> is_digit c = false -> c <> 46 -> c ∉ show_decimal m k.
Proof.
  intros Hm Hc Hd. destruct (dec_all_ok m Hm) as [Hds _]. assert (forall s, digits s -> c ∉ s) as H by (intros s Hs; by apply digits_not_in).
  unfold show_decimal. destruct (0 <=? k); [apply H, Forall_app; by split; [|apply digits_zeros]|]. destruct (_ <? _)%nat.
  - change (str "." ++ ?x) with ([46] ++ x). rewrite !not_elem_of_app. split_and!; [by apply H, Forall_take|set_solver|by apply H, Forall_drop].
  - change (str "0." ++ ?x) with ([48; 46] ++ x). rewrite !not_elem_of_app. split_and!; [|apply H, digits_zeros|by apply H].
    apply not_elem_of_cons. split; [by intros ->|set_solver].
Qed.
Lemma f32_text_no_colon bits : u32 bits -> 58 ∉ show_f32 bits.
Proof.
  intros Hb. unfold show_f32. pose proof (Z.mod_pos_bound bits sign_bit eq_refl) as Hm. destruct (Z.ltb_spec infinity_bits (bits mod sign_bit)).
  { change (str "NaN") with [78; 97; 78]. set_solver. }
  apply not_elem_of_app. split; [change (str "-") with [45]; destruct (_ <=? _); set_solver|].
  destruct (Z.eqb_spec (bits mod sign_bit) infinity_bits); [change (str "inf") with [105; 110; 102]; set_solver|].
  destruct (Z.eqb_spec (bits mod sign_bit) 0); [change (str "0") with [48]; set_solver|].
  destruct (shortest_reads (bits mod sign_bit) ltac:(lia)) as (_ & H0 & _). destruct (shortest _) as [m k]. by apply show_decimal_no.
Qed.

(** ** Communities *)
Lemma parse_digits_sep max s c t : forall acc, is_digit c = false -> exists e, parse_digits max acc (s ++ c :: t) = inl e.
Proof.
  induction s as [|d s IH]; intros acc Hc; cbn [app parse_digits]; [rewrite Hc; eauto|].
  destruct (negb _); [eauto|]. destruct (_ <? _); [eauto|]. destruct (_ <? _); [eauto|]. by apply IH.
Qed.
Lemma parse_uint_sep max s c t : is_digit c = false -> c <> 43 -> exists e, parse_uint max (s ++ c :: t) = inl e.
Proof.
  intros Hc H43. destruct s as [|d s]; cbn [app parse_uint].
  - destruct (Z.eqb_spec c 43); [done|]. by apply (parse_digits_sep max [] c t).
  - destruct (d =? 43); [|by apply (parse_digits_sep max (d :: s))]. destruct (s ++ c :: t) eqn:E; [eauto|]. rewrite <- E. by apply parse_digits_sep.
Qed.
Lemma no_char c s : forallb (fun d => negb (d =? c)) s = true -> c ∉ s.
Proof. rewrite forallb_forall. intros H Hin%list_elem_of_In. specialize (H _ Hin). rewrite Z.eqb_refl in H. done. Qed.
Lemma colon_app s : str ":" ++ s = 58 :: s.
Proof. done. Qed.
Lemma dec_no_colon n : 0 <= n -> 58 ∉ dec n.
Proof. intros Hn. by apply dec_not_in. Qed.

Lemma parse_show_community c : u32 c -> parse_community (show_community c) = inr c.
Proof.
  unfold u32. intros Hc. unfold parse_community, show_community. rewrite Z.shiftr_div_pow2 by lia.
  change 0xFFFF with (Z.ones 16). rewrite Z.land_ones by lia. rewrite colon_app.
  pose proof (Z.mod_pos_bound (c / 2 ^ 16) (2 ^ 16)) as Hh. pose proof (Z.mod_pos_bound c (2 ^ 16)) as Hl.
  destruct (parse_uint_sep (2 ^ 32 - 1) (dec ((c / 2 ^ 16) mod 2 ^ 16)) 58 (dec (c mod 2 ^ 16)) eq_refl ltac:(done)) as [e ->].
  rewrite split_once_app by (apply dec_no_colon; lia). rewrite !parse_uint_dec by lia. rewrite lor_shiftl_add by lia. f_equal.
  pose proof (Z.div_mod c (2 ^ 16)). rewrite (Z.mod_small (c / 2 ^ 16)); [lia|]. split; [apply Z.div_pos; lia|apply Z.div_lt_upper_bound; lia].
Qed.

Definition large_ok (c : LargeCommunity) : Prop := u32 (global_admin c) /\ u32 (local_data_1 c) /\ u32 (local_data_2 c).
Lemma parse_show_large_community c : large_ok c -> parse_large_community (show_large_community c) = inr c.
Proof.
  destruct c as [ga ld1 ld2]. unfold large_ok, u32, parse_large_community, show_large_community. cbn [global_admin local_data_1 local_data_2]. intros (H0 & H1 & H2).
  rewrite !colon_app. rewrite !split_app, split_last by (apply dec_no_colon; lia). by rewrite !parse_uint_dec by lia.
Qed.

(** ** Extended communities *)
(** What the text of a community is read as: reserved octets become zero, a
    four-octet format with a number of 16 bits the two-octet one, and any NaN
    the one of the standard library. *)
Definition canonical_ext (c : Z) : Z :=
  let typ := ext_type c in
  let subtype := ext_subtype c in
  match ext_value c with
  | [b0; b1; b2; b3; b4; b5] =>
      if typ =? TYPE_TRANSITIVE_OPAQUE then
        if subtype =? SUBTYPE_COLOR then from_color (be_val [b2; b3; b4; b5])
        else if subtype =? SUBTYPE_ENCAPSULATION then from_encapsulation (be_val [b4; b5]) else c
      else if (typ =? TYPE_NON_TRANSITIVE_OPAQUE) && (subtype =? SUBTYPE_ORIGIN_VALIDATION) && (b5 <=? 2) then from_rpki_state_community b5
      else if (typ =? Z.lor TYPE_NON_TRANSITIVE_BIT TYPE_TWO_OCTET_AS) && (subtype =? SUBTYPE_LINK_BANDWIDTH) then
        let bits := be_val [b2; b3; b4; b5] in
        from_link_bandwidth (be_val [b0; b1]) (if infinity_bits <? bits mod sign_bit then nan_bits else bits)
      else if (typ =? TYPE_FOUR_OCTET_AS) && ((subtype =? SUBTYPE_ROUTE_TARGET) || (subtype =? SUBTYPE_ROUTE_ORIGIN)) && (be_val [b0; b1; b2; b3] <=? 65535)
      then from_two_octet_as subtype (be_val [b0; b1; b2; b3]) (be_val [b4; b5])
      else c
  | _ => c
  end.

(** The octets of a community. *)
Lemma ext_octets c : u64 c -> exists t s b0 b1 b2 b3 b4 b5,
  ext_type c = t /\ ext_subtype c = s /\ ext_value c = [b0; b1; b2; b3; b4; b5] /\ Forall u8 [t; s; b0; b1; b2; b3; b4; b5] /\
  c = be_val [t; s; b0; b1; b2; b3; b4; b5].
Proof.
  intros Hc. exists (ext_type c), (ext_subtype c), (octet c 2), (octet c 3), (octet c 4), (octet c 5), (octet c 6), (octet c 7).
  split_and!; try done.
  - assert (forall i, u8 (octet c i)) as H by (intros i; unfold octet, u8; apply Z.mod_pos_bound; lia).
    repeat (apply Forall_cons; split; [apply H|]). by apply Forall_nil.
  - symmetry. by apply octets_inj.
Qed.

(** Raw text. *)
Lemma raw_text c : u64 c -> parse_extended_community (str "0x" ++ hex_padded 16 c) = inr c.
Proof.
  intros Hc. unfold parse_extended_community. change (strip_prefix (str "0x") (str "0x" ++ hex_padded 16 c)) with (Some (hex_padded 16 c)). cbn iota.
  rewrite parse_radix_hex by (done || (unfold u64 in Hc; lia)). done.
Qed.
Lemma strip_prefix_none p s : str_eqb (take (length p) s) p = false -> strip_prefix p s = None.
Proof. unfold strip_prefix. by intros ->. Qed.
Lemma split3 a b c : 58 ∉ a -> 58 ∉ b -> 58 ∉ c -> split 58 (a ++ 58 :: b ++ 58 :: c) = [a; b; c].
Proof. intros. by rewrite !split_app, split_last. Qed.

Lemma ext_color v : u32 v -> parse_extended_community (str "color:" ++ dec v) = inr (from_color v).
Proof.
  unfold u32. intros Hv. unfold parse_extended_community. rewrite strip_prefix_none by done. change (str "color:" ++ dec v) with (str "color" ++ 58 :: dec v).
  rewrite split_app, split_last by first [by apply no_char|apply dec_no_colon; lia].
  change (str "color" =s "rpki") with false. change (str "color" =s "color") with true. cbn iota. by rewrite parse_uint_dec by lia.
Qed.
Lemma ext_encapsulation v : u16 v -> parse_extended_community (str "encapsulation:" ++ dec v) = inr (from_encapsulation v).
Proof.
  unfold u16. intros Hv. unfold parse_extended_community. rewrite strip_prefix_none by done.
  change (str "encapsulation:" ++ dec v) with (str "encapsulation" ++ 58 :: dec v).
  rewrite split_app, split_last by first [apply dec_no_colon; lia|by apply no_char].
  change (str "encapsulation" =s "rpki") with false. change (str "encapsulation" =s "color") with false. change (str "encapsulation" =s "encapsulation") with true.
  cbn iota. by rewrite parse_uint_dec by lia.
Qed.

Lemma ext_link_bandwidth asn bits : u16 asn -> u32 bits ->
  parse_extended_community (str "lb:" ++ dec asn ++ str ":" ++ show_f32 bits) =
    inr (from_link_bandwidth asn (if infinity_bits <? bits mod sign_bit then nan_bits else bits)).
Proof.
  unfold u16. intros Ha Hb. unfold parse_extended_community. rewrite strip_prefix_none by done. rewrite colon_app.
  change (str "lb:" ++ dec asn ++ 58 :: show_f32 bits) with (str "lb" ++ 58 :: dec asn ++ 58 :: show_f32 bits).
  rewrite split3 by first [apply dec_no_colon; lia|by apply f32_text_no_colon|by apply no_char].
  change (str "lb" =s "lb") with true. cbn iota. rewrite parse_uint_dec by lia. cbn [or_error then_ok]. by rewrite parse_show_f32.
Qed.

(** The prefix of a route target or origin. *)
Definition route_prefix (s : Z) : Str := if s =? SUBTYPE_ROUTE_TARGET then str "rt" else str "ro".
Lemma route_prefix_ok s p : s = SUBTYPE_ROUTE_TARGET /\ p = str "rt" \/ s = SUBTYPE_ROUTE_ORIGIN /\ p = str "ro" -> forall v l, 58 ∉ v -> 58 ∉ l ->
  parse_extended_community (p ++ str ":" ++ v ++ str ":" ++ l) = parse_route_community p v l.
Proof.
  intros Hp v l Hv Hl. rewrite !colon_app. unfold parse_extended_community. assert (58 ∉ p) as Hn.
  { destruct Hp as [[_ ->]|[_ ->]]; by apply no_char. }
  rewrite split3 by done. destruct Hp as [[-> ->]|[-> ->]]; by rewrite strip_prefix_none.
Qed.
Lemma route_subtype s p {B} (f : Z -> ParseExtCommunityError + B) : s = SUBTYPE_ROUTE_TARGET /\ p = str "rt" \/ s = SUBTYPE_ROUTE_ORIGIN /\ p = str "ro" ->
  then_ok (if p =s "rt" then inr SUBTYPE_ROUTE_TARGET else if p =s "ro" then inr SUBTYPE_ROUTE_ORIGIN else inl EcInvalidPrefix) f = f s.
Proof. by intros [[-> ->]|[-> ->]]. Qed.
Lemma ext_route_as s p asn local : s = SUBTYPE_ROUTE_TARGET /\ p = str "rt" \/ s = SUBTYPE_ROUTE_ORIGIN /\ p = str "ro" -> u32 asn -> u32 local ->
  asn <= 65535 \/ local <= 65535 ->
  parse_extended_community (p ++ str ":" ++ dec asn ++ str ":" ++ dec local) =
    inr (if asn <=? 65535 then from_two_octet_as s asn local else from_four_octet_as s asn local).
Proof.
  unfold u32. intros Hp Ha Hl Hfit. rewrite (route_prefix_ok s) by first [done|apply dec_no_colon; lia]. unfold parse_route_community.
  rewrite (route_subtype s) by done. rewrite bool_decide_false by (apply dec_not_in; [lia|done]). rewrite !parse_uint_dec by lia.
  cbn [or_error then_ok]. destruct (Z.leb_spec asn 65535); [done|]. by destruct (Z.ltb_spec 65535 local); [lia|].
Qed.
Lemma ext_route_ipv4 s p ip local : s = SUBTYPE_ROUTE_TARGET /\ p = str "rt" \/ s = SUBTYPE_ROUTE_ORIGIN /\ p = str "ro" -> u32 ip -> u16 local ->
  parse_extended_community (p ++ str ":" ++ show_ipv4 ip ++ str ":" ++ dec local) = inr (from_ipv4 s ip local).
Proof.
  unfold u16. intros Hp Ha Hl. rewrite (route_prefix_ok s) by first [done|apply dec_no_colon; lia|by apply ipv4_no]. unfold parse_route_community.
  rewrite (route_subtype s) by done. rewrite bool_decide_true.
  - rewrite parse_show_ipv4, parse_uint_dec by (done || lia). done.
  - unfold show_ipv4. change (str ".") with [46]. apply elem_of_app. right. apply elem_of_app. left. by apply list_elem_of_singleton.
Qed.
Lemma ext_router_mac mac : length mac = 6%nat -> Forall u8 mac ->
  parse_extended_community (str "router-mac" ++ concat (map (fun b => 58 :: hex_padded 2 b) mac)) = inr (from_router_mac mac).
Proof.
  intros Hlen Hok. unfold parse_extended_community. rewrite strip_prefix_none by done.
  assert (forall b, u8 b -> 58 ∉ hex_padded 2 b) as Hn.
  { intros b Hb. apply hex_digits_not_in; [|lia]. apply hex_padded_ok. unfold u8, u64 in *. lia. }
  assert (forall b, u8 b -> parse_radix 16 255 (hex_padded 2 b) = Some b) as Hr by (intros b Hb; apply parse_radix_hex; unfold u8, u64 in *; lia).
  assert (58 ∉ str "router-mac") as Hp by (by apply no_char).
  destruct mac as [|b0 [|b1 [|b2 [|b3 [|b4 [|b5 [|]]]]]]]; try done.
  do 6 (apply Forall_cons in Hok as [? Hok]). cbn [map concat app]. rewrite app_nil_r.
  repeat rewrite split_app by auto. rewrite split_last by auto. change (str "router-mac" =s "router-mac") with true. cbn iota. cbn [parse_mac].
  by rewrite !Hr by done.
Qed.

(** The octets of the formats. *)
Lemma two_octet_value s b0 b1 b2 b3 b4 b5 : Forall u8 [s; b0; b1; b2; b3; b4; b5] ->
  from_two_octet_as s (be_val [b0; b1]) (be_val [b2; b3; b4; b5]) = be_val [TYPE_TWO_OCTET_AS; s; b0; b1; b2; b3; b4; b5].
Proof. intros H. repeat (apply Forall_cons in H as [? H]). unfold from_two_octet_as, u8 in *. cbn [be_val length]. rewrite (fields_eq _ _ _ _ 32); unfold u8, TYPE_TWO_OCTET_AS; lia. Qed.
Lemma ipv4_value s b0 b1 b2 b3 b4 b5 : Forall u8 [s; b0; b1; b2; b3; b4; b5] ->
  from_ipv4 s (be_val [b0; b1; b2; b3]) (be_val [b4; b5]) = be_val [TYPE_IPV4_ADDRESS; s; b0; b1; b2; b3; b4; b5].
Proof. intros H. repeat (apply Forall_cons in H as [? H]). unfold from_ipv4, u8 in *. cbn [be_val length]. rewrite (fields_eq _ _ _ _ 16); unfold u8, TYPE_IPV4_ADDRESS; lia. Qed.
Lemma four_octet_value s b0 b1 b2 b3 b4 b5 : Forall u8 [s; b0; b1; b2; b3; b4; b5] ->
  from_four_octet_as s (be_val [b0; b1; b2; b3]) (be_val [b4; b5]) = be_val [TYPE_FOUR_OCTET_AS; s; b0; b1; b2; b3; b4; b5].
Proof. intros H. repeat (apply Forall_cons in H as [? H]). unfold from_four_octet_as, u8 in *. cbn [be_val length]. rewrite (fields_eq _ _ _ _ 16); unfold u8, TYPE_FOUR_OCTET_AS; lia. Qed.
Lemma router_mac_value b0 b1 b2 b3 b4 b5 : Forall u8 [b0; b1; b2; b3; b4; b5] ->
  from_router_mac [b0; b1; b2; b3; b4; b5] = be_val [TYPE_EVPN; SUBTYPE_ROUTER_MAC; b0; b1; b2; b3; b4; b5].
Proof.
  intros H. repeat (apply Forall_cons in H as [? H]). unfold from_router_mac, u8 in *. cbn [zip_with foldl be_val length].
  change (byte_shift 2) with 40. change (byte_shift 3) with 32. change (byte_shift 4) with 24. change (byte_shift 5) with 16. change (byte_shift 6) with 8. change (byte_shift 7) with 0.
  rewrite header_eq by done. unfold TYPE_EVPN, SUBTYPE_ROUTER_MAC. rewrite !Z.shiftl_mul_pow2 by lia.
  set (h := 6 * 2 ^ 56 + 3 * 2 ^ 48).
  assert (forall a b n, 0 <= n -> 0 <= b <= 255 -> a mod 2 ^ (n + 8) = 0 -> Z.lor a (b * 2 ^ n) = a + b * 2 ^ n /\ (a + b * 2 ^ n) mod 2 ^ n = 0) as Hstep.
  { intros a b n Hn Hb Ha. assert (0 < 2 ^ n) by (apply Z.pow_pos_nonneg; lia). split.
    - apply (lor_add _ _ (n + 8)); [lia|rewrite Z.pow_add_r by lia; nia|done].
    - rewrite Z.mod_add by lia. rewrite Z.pow_add_r, Z.rem_mul_r in Ha by lia. pose proof (Z.mod_pos_bound a (2 ^ n)). pose proof (Z.mod_pos_bound (a / 2 ^ n) (2 ^ 8)). nia. }
  destruct (Hstep h b0 40) as [-> M0]; [lia|lia|done|]. destruct (Hstep (h + b0 * 2 ^ 40) b1 32) as [-> M1]; [lia|lia|done|].
  destruct (Hstep (h + b0 * 2 ^ 40 + b1 * 2 ^ 32) b2 24) as [-> M2]; [lia|lia|done|].
  destruct (Hstep (h + b0 * 2 ^ 40 + b1 * 2 ^ 32 + b2 * 2 ^ 24) b3 16) as [-> M3]; [lia|lia|done|].
  destruct (Hstep (h + b0 * 2 ^ 40 + b1 * 2 ^ 32 + b2 * 2 ^ 24 + b3 * 2 ^ 16) b4 8) as [-> M4]; [lia|lia|done|].
  destruct (Hstep (h + b0 * 2 ^ 40 + b1 * 2 ^ 32 + b2 * 2 ^ 24 + b3 * 2 ^ 16 + b4 * 2 ^ 8) b5 0) as [-> M5]; [lia|lia|done|].
  unfold h. lia.
Qed.
(** Comparisons of numbers that are known. *)
Ltac eval_tests :=
  repeat match goal with
  | |- context [?a =? ?b] => let r := eval vm_compute in (a =? b) in match r with true => change (a =? b) with true | false => change (a =? b) with false end
  end; cbn [andb orb].
Lemma ext_community_reads (c : Z) : u64 c -> parse_extended_community (format_extended_community c) = inr (canonical_ext c).
Proof.
  intros Hc. destruct (ext_octets c Hc) as (t & s & b0 & b1 & b2 & b3 & b4 & b5 & Et & Es & Ev & Hb & E).
  pose proof (raw_text c Hc) as Hraw. unfold format_extended_community, canonical_ext. rewrite Et, Es, Ev. cbn zeta iota. clear Hc Et Es Ev.
  assert (forall l, Forall u8 l -> 0 <= be_val l < 256 ^ Z.of_nat (length l)) as Hbe by (intros l Hl; by apply be_val_bounds).
  rewrite !Forall_cons in Hb. destruct Hb as (Ht & Hs & H0 & H1 & H2 & H3 & H4 & H5 & _).
  assert (u32 (be_val [b2; b3; b4; b5])) as Hlow by (apply (Hbe [b2; b3; b4; b5]); by rewrite !Forall_cons).
  assert (u32 (be_val [b0; b1; b2; b3])) as Hhigh by (apply (Hbe [b0; b1; b2; b3]); by rewrite !Forall_cons).
  assert (u16 (be_val [b0; b1])) as Hasn by (apply (Hbe [b0; b1]); by rewrite !Forall_cons).
  assert (u16 (be_val [b4; b5])) as Hlast by (apply (Hbe [b4; b5]); by rewrite !Forall_cons).
  destruct (Z.eqb_spec t TYPE_TRANSITIVE_OPAQUE) as [|N1].
  { destruct (s =? SUBTYPE_COLOR); [by apply ext_color|]. destruct (s =? SUBTYPE_ENCAPSULATION); [by apply ext_encapsulation|done]. }
  destruct (Z.eqb_spec t TYPE_NON_TRANSITIVE_OPAQUE) as [->|N2]; eval_tests.
  { destruct (Z.eqb_spec s SUBTYPE_ORIGIN_VALIDATION); cbn [andb]; [|done].
    destruct (Z.eqb_spec b5 0) as [->|]; [done|]. destruct (Z.eqb_spec b5 1) as [->|]; [done|]. destruct (Z.eqb_spec b5 2) as [->|]; [done|].
    unfold u8 in H5. destruct (Z.leb_spec b5 2); [lia|done]. }
  destruct (Z.eqb_spec t TYPE_EVPN) as [->|N3]; eval_tests.
  { destruct (Z.eqb_spec s SUBTYPE_ROUTER_MAC) as [->|]; [|done]. rewrite ext_router_mac by (done || by rewrite !Forall_cons). f_equal. subst c.
    apply router_mac_value. by rewrite !Forall_cons. }
  destruct (Z.eqb_spec t (Z.lor TYPE_NON_TRANSITIVE_BIT TYPE_TWO_OCTET_AS)) as [->|N4]; eval_tests.
  { destruct (s =? SUBTYPE_LINK_BANDWIDTH); [by apply ext_link_bandwidth|done]. }
  assert (s = SUBTYPE_ROUTE_TARGET \/ s = SUBTYPE_ROUTE_ORIGIN \/ (s =? SUBTYPE_ROUTE_TARGET) = false /\ (s =? SUBTYPE_ROUTE_ORIGIN) = false) as Hcase.
  { destruct (Z.eqb_spec s SUBTYPE_ROUTE_TARGET); [tauto|]. destruct (Z.eqb_spec s SUBTYPE_ROUTE_ORIGIN); tauto. }
  assert (forall p, s = SUBTYPE_ROUTE_TARGET /\ p = str "rt" \/ s = SUBTYPE_ROUTE_ORIGIN /\ p = str "ro" ->
    parse_extended_community
      (if t =? TYPE_TWO_OCTET_AS then p ++ str ":" ++ dec (be_val [b0; b1]) ++ str ":" ++ dec (be_val [b2; b3; b4; b5])
       else if t =? TYPE_IPV4_ADDRESS then p ++ str ":" ++ show_ipv4 (be_val [b0; b1; b2; b3]) ++ str ":" ++ dec (be_val [b4; b5])
       else if t =? TYPE_FOUR_OCTET_AS then p ++ str ":" ++ dec (be_val [b0; b1; b2; b3]) ++ str ":" ++ dec (be_val [b4; b5])
       else str "0x" ++ hex_padded 16 c) =
    inr (if (t =? TYPE_FOUR_OCTET_AS) && (be_val [b0; b1; b2; b3] <=? 65535) then from_two_octet_as s (be_val [b0; b1; b2; b3]) (be_val [b4; b5]) else c)) as Hroute.
  { intros p Hp. unfold u16 in Hasn, Hlast. destruct (Z.eqb_spec t TYPE_TWO_OCTET_AS) as [->|N5]; eval_tests.
    { rewrite (ext_route_as s) by (done || (unfold u32; lia)). destruct (Z.leb_spec (be_val [b0; b1]) 65535); [|lia]. f_equal. subst c. apply two_octet_value. by rewrite !Forall_cons. }
    destruct (Z.eqb_spec t TYPE_IPV4_ADDRESS) as [->|N6]; eval_tests.
    { rewrite (ext_route_ipv4 s) by (done || (unfold u16; lia)). f_equal. subst c. apply ipv4_value. by rewrite !Forall_cons. }
    destruct (Z.eqb_spec t TYPE_FOUR_OCTET_AS) as [->|N7]; eval_tests; [|done].
    rewrite (ext_route_as s) by (done || (unfold u32; lia)). destruct (_ <=? _); [done|]. f_equal. subst c. apply four_octet_value. by rewrite !Forall_cons. }
  destruct Hcase as [->|[->|[-> ->]]]; eval_tests.
  - rewrite andb_true_r. apply Hroute. by left.
  - rewrite andb_true_r. apply Hroute. by right.
  - rewrite andb_false_r. exact Hraw.
Qed.

(** ** What is parsed is in its type *)
Lemma radix_digits_range radix max s : forall acc v, 0 <= radix -> 0 <= acc <= max -> radix_digits radix max acc s = Some v -> 0 <= v <= max.
Proof.
  induction s as [|c s IH]; intros acc v Hr Ha; cbn [radix_digits]; [by intros [= <-]|].
  destruct (to_digit radix c) as [d|] eqn:E; [|done]. apply to_digit_range in E. cbn [mbind option_bind].
  destruct (Z.ltb_spec max (acc * radix + d)); [done|]. apply IH; [done|nia].
Qed.
Lemma parse_radix_range radix max s v : 0 <= radix -> 0 <= max -> parse_radix radix max s = Some v -> 0 <= v <= max.
Proof.
  intros Hr Hm. destruct s as [|c s]; cbn [parse_radix]; [done|]. destruct (c =? 43); [destruct s; [done|]|]; apply radix_digits_range; lia.
Qed.

(** *** Addresses *)
Lemma read_groups_ok limit : forall i s gs v4 rest, read_groups i limit s = (gs, v4, rest) -> Forall group_ok gs /\ (length gs <= limit)%nat.
Proof.
  induction limit as [|limit IH]; intros i s gs v4 rest; cbn [read_groups]; [by intros [= <- _ _]|].
  destruct (if (0 <? limit)%nat then read_separator 58 i read_ipv4 s else None) as [[v s']|] eqn:E4.
  - intros [= <- _ _]. destruct (Nat.ltb_spec 0 limit); [|done]. apply read_sep_some in E4 as (s'' & E4%read_ipv4_u32). unfold u32 in E4.
    split; [|cbn; lia]. pose proof (Z.mod_pos_bound v 65536).
    apply Forall_cons; split; [split; [apply Z.div_pos; lia|apply Z.div_lt_upper_bound; lia]|]. apply Forall_cons; split; [unfold group_ok; lia|by apply Forall_nil].
  - destruct (read_separator 58 i (read_number 16 4 true 65535) s) as [[g s']|] eqn:Eg; [|intros [= <- _ _]; split; [by apply Forall_nil|cbn; lia]].
    apply read_sep_some in Eg as (s'' & Eg%read_number_range); [|done]. destruct (read_groups (S i) limit s') as [[gs' v4'] r'] eqn:Er.
    intros [= <- _ _]. apply IH in Er as [H1 H2]. split; [|cbn; lia]. apply Forall_cons. split; [|done]. unfold group_ok. lia.
Qed.
Lemma of_groups_bound gs : Forall group_ok gs -> 0 <= of_groups gs < 2 ^ (16 * Z.of_nat (length gs)).
Proof.
  intros H. unfold of_groups. assert (forall acc n, 0 <= acc < 2 ^ (16 * Z.of_nat n) ->
    0 <= fold_left (fun acc g => acc * 65536 + g) gs acc < 2 ^ (16 * Z.of_nat (n + length gs))) as Hg.
  { induction H as [|g gs Hg _ IH]; intros acc n Hacc; cbn [fold_left length]; [by rewrite Nat.add_0_r|].
    rewrite <- Nat.add_succ_comm. apply IH. unfold group_ok in Hg. replace (16 * Z.of_nat (S n)) with (16 * Z.of_nat n + 16) by lia.
    rewrite Z.pow_add_r by lia. change (2 ^ 16) with 65536 in *. lia. }
  apply (Hg 0 0%nat). done.
Qed.
Lemma read_ipv6_u128 s v rest : read_ipv6 s = Some (v, rest) -> u128 v.
Proof.
  unfold read_ipv6. destruct (read_groups 0 8 s) as [[head v4] s1] eqn:Eh. apply read_groups_ok in Eh as [Hh Hl].
  destruct (Nat.eqb_spec (length head) 8) as [E8|].
  - intros [= <- _]. pose proof (of_groups_bound head Hh) as H. by rewrite E8 in H.
  - destruct v4; [done|]. destruct (read_char 58 s1) as [s2|]; [|done]. cbn [mbind option_bind]. destruct (read_char 58 s2) as [s3|]; [|done].
    cbn [mbind option_bind]. destruct (read_groups 0 (8 - (length head + 1)) s3) as [[tail v4'] s4] eqn:Et. apply read_groups_ok in Et as [Ht Hlt].
    intros [= <- _]. pose proof (of_groups_bound (head ++ repeat 0 (8 - length head - length tail) ++ tail)) as H.
    replace (length (head ++ repeat 0 (8 - length head - length tail) ++ tail)) with 8%nat in H by (rewrite !length_app, repeat_length; lia).
    apply H. apply Forall_app. split; [done|]. apply Forall_app. split; [|done]. apply Forall_forall. intros g ->%list_elem_of_In%repeat_spec. by split.
Qed.
Lemma parse_ip_ok s a : parse_ip s = Some a -> ip_ok a.
Proof.
  unfold parse_ip. intros H%parse_with_some. destruct (read_ipv4 s) as [[v r]|] eqn:E4; [by injection H as <- _; apply read_ipv4_u32 in E4|].
  destruct (read_ipv6 s) as [[v r]|] eqn:E6; [|done]. injection H as <- _. by apply read_ipv6_u128 in E6.
Qed.
Lemma net_from_str_ok s n : net_from_str s = inr n -> network_ok n.
Proof.
  unfold net_from_str. destruct (split 47 s) as [|addr [|len [|]]]; try done. destruct (parse_uint (2 ^ 8 - 1) len) as [|l] eqn:El; [done|].
  apply parse_uint_range in El; [|done]. destruct (parse_ipv4 addr) as [a|] eqn:E4.
  - destruct (Z.ltb_spec 32 l); [done|]. intros [= <-]. split; [by apply parse_ipv4_u32 in E4|cbn; lia].
  - destruct (parse_with read_ipv6 addr) as [a|] eqn:E6; [|done]. destruct (Z.ltb_spec 128 l); [done|]. intros [= <-].
    apply parse_with_some, read_ipv6_u128 in E6. split; [done|cbn; lia].
Qed.

(** *** Communities *)
Lemma lor_fields a b n : 0 <= n -> 0 <= a -> 0 <= b < 2 ^ n -> Z.lor (Z.shiftl a n) b = a * 2 ^ n + b.
Proof. intros Hn Ha Hb. rewrite Z.shiftl_mul_pow2 by done. rewrite (lor_add _ _ n); [done|done|done|]. apply Z.mod_mul. apply Z.pow_nonzero; lia. Qed.
Lemma parse_community_u32 s v : parse_community s = inr v -> u32 v.
Proof.
  unfold parse_community, u32. destruct (parse_uint (2 ^ 32 - 1) s) as [e|w] eqn:E; [|intros [= <-]; apply parse_uint_range in E; lia].
  destruct (split_once 58 s) as [[h l]|]; [|done]. destruct (parse_uint (2 ^ 16 - 1) h) as [|hv] eqn:Eh; [done|].
  destruct (parse_uint (2 ^ 16 - 1) l) as [|lv] eqn:El; [done|]. intros [= <-]. apply parse_uint_range in Eh; [|done]. apply parse_uint_range in El; [|done].
  rewrite lor_fields by lia. lia.
Qed.
Lemma parse_large_ok s c : parse_large_community s = inr c -> large_ok c.
Proof.
  unfold parse_large_community. destruct (split 58 s) as [|p0 [|p1 [|p2 [|]]]]; try done.
  destruct (parse_uint _ p0) eqn:E0; [done|]. destruct (parse_uint _ p1) eqn:E1; [done|]. destruct (parse_uint _ p2) eqn:E2; [done|].
  intros [= <-]. apply parse_uint_range in E0, E1, E2; [|done..]. unfold large_ok, u32. cbn. lia.
Qed.
Lemma div_even_nonneg a b : 0 <= a -> 0 < b -> 0 <= div_even a b.
Proof. intros Ha Hb. unfold div_even. pose proof (Z.div_pos a b Ha Hb). destruct (_ ?= _); [destruct (Z.even _)|..]; lia. Qed.
Lemma round_f32_range num den : 0 <= num -> 0 < den -> 0 <= round_f32 num den <= infinity_bits.
Proof.
  intros Hn Hd. unfold round_f32. destruct (num =? 0); [done|]. set (e := Z.max _ (-126)).
  assert (-126 <= e) by (unfold e; lia). assert (0 < 2 ^ Z.max 0 (e - 23)) by (apply Z.pow_pos_nonneg; lia).
  assert (0 <= 2 ^ Z.max 0 (23 - e)) by (apply Z.pow_nonneg; lia).
  pose proof (div_even_nonneg (num * 2 ^ Z.max 0 (23 - e)) (den * 2 ^ Z.max 0 (e - 23)) ltac:(nia) ltac:(nia)). unfold infinity_bits. lia.
Qed.
Lemma take_digits_ok s : digits (take_digits s).1.
Proof.
  induction s as [|c s IH]; cbn [take_digits]; [by apply Forall_nil|]. destruct (is_digit c) eqn:E; [|by apply Forall_nil].
  destruct (take_digits s) as [ds rest]. by apply Forall_cons.
Qed.
Lemma parse_decimal_nonneg s m k : parse_decimal s = Some (m, k) -> 0 <= m.
Proof.
  unfold parse_decimal. pose proof (take_digits_ok s) as H1. destruct (take_digits s) as [int s1]. cbn [fst] in H1.
  assert (forall fs : Str * Str, digits fs.1 -> forall (p : Z * Z),
    (let '(frac, s) := fs in if (length (int ++ frac) =? 0)%nat then None else
     let m := digits_val (int ++ frac) in let k := - Z.of_nat (length frac) in
     match s with [] => Some (m, k) | c :: s => if to_lower c =? 101 then let '(neg, s) := read_sign s in let '(ds, s) := take_digits s in
       match ds, s with _ :: _, [] => Some (m, k + (if neg then - exponent_val ds else exponent_val ds)) | _, _ => None end else None end) = Some p -> 0 <= p.1) as H.
  { intros [frac s2] Hf p. cbn [fst] in Hf. destruct (_ =? 0)%nat; [done|]. cbn zeta.
    assert (0 <= digits_val (int ++ frac)) as Hv by (apply num_mono; [by apply Forall_app|done]).
    repeat case_match; try done; by intros [= <-]. }
  intros E. apply (H (match read_char 46 s1 with Some s => take_digits s | None => ([], s1) end)) in E; [done|].
  destruct (read_char 46 s1); [apply take_digits_ok|by apply Forall_nil].
Qed.
Lemma parse_f32_u32 s v : parse_f32 s = Some v -> u32 v.
Proof.
  unfold parse_f32. destruct (read_sign s) as [neg s1].
  assert (forall bits, (match parse_decimal s1 with Some (m, k) => Some (round_dec m k) | None =>
      let word := map to_lower s1 in if (word =s "inf") || (word =s "infinity") then Some infinity_bits else if word =s "nan" then Some nan_bits else None end) = Some bits ->
    0 <= bits <= nan_bits) as H.
  { intros bits. destruct (parse_decimal s1) as [[m k]|] eqn:E.
    - apply parse_decimal_nonneg in E. intros [= <-]. unfold round_dec.
      pose proof (round_f32_range (m * 10 ^ Z.max 0 k) (10 ^ Z.max 0 (- k))) as Hr. unfold infinity_bits, nan_bits in *.
      assert (0 <= 10 ^ Z.max 0 k) by (apply Z.pow_nonneg; lia). assert (0 < 10 ^ Z.max 0 (- k)) by (apply Z.pow_pos_nonneg; lia).
      specialize (Hr ltac:(nia) ltac:(lia)). lia.
    - cbn zeta. destruct (_ || _); [by intros [= <-]|]. destruct (_ =s _); [by intros [= <-]|done]. }
  destruct (match parse_decimal s1 with Some _ => _ | None => _ end) as [bits|] eqn:E; [|done]. cbn [mbind option_bind]. intros [= <-].
  specialize (H bits eq_refl). unfold u32, nan_bits, sign_bit in *. destruct neg; lia.
Qed.

(** The header and the fields fit in 64 bits. *)
Lemma ext_fields_u64 ty subtype hi lo k : u8 ty -> u8 subtype -> 0 <= k < 48 -> 0 <= lo < 2 ^ k -> 0 <= hi < 2 ^ (48 - k) ->
  u64 (Z.lor (Z.lor (header ty subtype) (Z.shiftl hi k)) lo).
Proof.
  intros Ht Hs Hk Hl Hh. rewrite fields_eq by done. assert (2 ^ (48 - k) * 2 ^ k = 2 ^ 48) as Hp by (rewrite <- Z.pow_add_r by lia; f_equal; lia).
  assert (0 < 2 ^ k) by (apply Z.pow_pos_nonneg; lia). unfold u8, u64 in *. nia.
Qed.
Lemma ext_field_u64 ty subtype lo : u8 ty -> u8 subtype -> 0 <= lo < 2 ^ 48 -> u64 (Z.lor (header ty subtype) lo).
Proof. intros Ht Hs Hl. rewrite field_eq by done. unfold u8, u64 in *. lia. Qed.
Lemma parse_mac_ok parts : forall mac, parse_mac parts = inr mac -> Forall u8 mac /\ length mac = length parts.
Proof.
  induction parts as [|p parts IH]; intros mac; cbn [parse_mac]; [by intros [= <-]|].
  destruct (parse_radix 16 255 p) as [o|] eqn:E; [|done]. cbn [some_or then_ok]. destruct (parse_mac parts) as [|l]; [done|]. cbn [then_ok]. intros [= <-].
  destruct (IH l eq_refl) as [H1 H2]. apply parse_radix_range in E; [|done..]. split; [apply Forall_cons; split; [unfold u8; lia|done]|cbn; lia].
Qed.
Lemma parse_route_u64 p v l c : parse_route_community p v l = inr c -> u64 c.
Proof.
  unfold parse_route_community. set (sub := if p =s "rt" then _ else _).
  assert (forall s, sub = inr s -> u8 s) as Hs by (unfold sub; intros s; destruct (p =s "rt"); [by intros [= <-]|]; destruct (p =s "ro"); [by intros [= <-]|done]).
  destruct sub as [|s]; [done|]. specialize (Hs s eq_refl). cbn [then_ok]. case_bool_decide.
  - destruct (parse_ipv4 v) as [ip|] eqn:E1; [|done]. cbn [some_or then_ok]. destruct (parse_uint _ l) as [|n] eqn:E2; [done|]. cbn [or_error then_ok]. intros [= <-].
    apply parse_ipv4_u32 in E1. apply parse_uint_range in E2; [|done]. apply (ext_fields_u64 _ _ _ _ 16); unfold u32 in *; first [done|lia].
  - destruct (parse_uint _ v) as [|asn] eqn:E1; [done|]. cbn [or_error then_ok]. destruct (parse_uint _ l) as [|n] eqn:E2; [done|]. cbn [or_error then_ok].
    apply parse_uint_range in E1, E2; [|done..]. destruct (Z.leb_spec asn 65535); [intros [= <-]; apply (ext_fields_u64 _ _ _ _ 32); first [done|lia]|].
    destruct (Z.ltb_spec 65535 n); [done|]. intros [= <-]. apply (ext_fields_u64 _ _ _ _ 16); first [done|lia].
Qed.
Lemma parse_ext_u64 s c : parse_extended_community s = inr c -> u64 c.
Proof.
  unfold parse_extended_community. destruct (strip_prefix _ s) as [h|].
  { destruct (parse_radix 16 _ h) as [v|] eqn:E; [|done]. intros [= <-]. apply parse_radix_range in E; [|done..]. unfold u64. lia. }
  destruct (split 58 s) as [|p0 [|p1 [|p2 [|p3 [|p4 [|p5 [|p6 [|]]]]]]]]; try done.
  - destruct (p0 =s "rpki"); [repeat (destruct (_ =s _); [by intros [= <-]|]); done|]. destruct (p0 =s "color").
    { destruct (parse_uint _ p1) as [|v] eqn:E; [done|]. intros [= <-]. apply parse_uint_range in E; [|done]. apply ext_field_u64; first [done|lia]. }
    destruct (p0 =s "encapsulation"); [|done]. destruct (parse_uint _ p1) as [|v] eqn:E; [done|]. intros [= <-]. apply parse_uint_range in E; [|done].
    apply ext_field_u64; first [done|lia].
  - destruct (p0 =s "lb"); [|by apply parse_route_u64]. destruct (parse_uint _ p1) as [|v] eqn:E; [done|]. cbn [or_error then_ok].
    destruct (parse_f32 p2) as [b|] eqn:Ef; [|done]. intros [= <-]. apply parse_uint_range in E; [|done]. apply parse_f32_u32 in Ef.
    apply (ext_fields_u64 _ _ _ _ 32); unfold u32 in *; first [done|lia].
  - destruct (p0 =s "router-mac"); [|done]. destruct (parse_mac _) as [|mac] eqn:E; [done|]. intros [= <-]. apply parse_mac_ok in E as [H Hl].
    destruct mac as [|b0 [|b1 [|b2 [|b3 [|b4 [|b5 [|]]]]]]]; try done. rewrite router_mac_value by done.
    apply (be_val_bounds [TYPE_EVPN; SUBTYPE_ROUTER_MAC; b0; b1; b2; b3; b4; b5]). do 2 (apply Forall_cons; split; [by split|]). exact H.
Qed.
