(* ===== verification/PeerCaps.v ===== *)
(** * What two speakers agree on ([PeerCapabilities], [LocalConfig] and
    [BgpOpenParams] of [bgpgg/src/peer/mod.rs], the OPEN construction and the
    negotiation of [bgpgg/src/peer/messages.rs], the session settings of
    [conf/src/bgp.rs])

    A [HashSet] is a [gset]: where the code iterates one, the order is not
    specified and [elements] stands for it.  [PeerConfig] keeps the settings
    the session code reads; its [afi_safis] are the families of its entries. *)
From S2P Require Import Prelude Wire Net Notification Nlri BgpLs Attrs OpenMsg Path.

#[export] Instance AddPathCapability_eq_dec : EqDecision AddPathCapability.
Proof. solve_decision. Defined.
#[export] Instance GracefulRestartCapability_eq_dec : EqDecision GracefulRestartCapability.
Proof. solve_decision. Defined.
#[export] Instance LlgrEntry_eq_dec : EqDecision LlgrEntry.
Proof. solve_decision. Defined.
#[export] Instance LlgrCapability_eq_dec : EqDecision LlgrCapability.
Proof. solve_decision. Defined.

#[export] Instance SessionType_eq_dec : EqDecision SessionType.
Proof. solve_decision. Defined.

(** ** Capabilities of a session *)
Record PeerCapabilities := mkCaps {
  multiprotocol : gset AfiSafi;
  route_refresh : bool;
  enhanced_route_refresh : bool;
  four_octet_asn : option Z;
  graceful_restart : option GracefulRestartCapability;
  add_path : option AddPathCapability;
  llgr : option LlgrCapability;
}.
#[export] Instance PeerCapabilities_eq_dec : EqDecision PeerCapabilities.
Proof. solve_decision. Defined.

Definition caps_default : PeerCapabilities := mkCaps ∅ false false None None None None.

Definition supports_afi_safi (c : PeerCapabilities) (a : AfiSafi) : bool := bool_decide (a ∈ multiprotocol c).
Definition supports_four_octet_asn (c : PeerCapabilities) : bool := bool_decide (is_Some (four_octet_asn c)).
Definition caps_gr_afi_safis (c : PeerCapabilities) : list AfiSafi :=
  match graceful_restart c with Some g => gr_afi_safis g | None => [] end.

(** [ap.entries.iter().any(|(e, mode)| e == afi_safi && can(mode))] *)
Definition entry_allows (can : AddPathMode -> bool) (a : AfiSafi) (e : AfiSafi * AddPathMode) : bool :=
  bool_decide (e.1 = a) && can e.2.
Definition add_path_allows (can : AddPathMode -> bool) (c : PeerCapabilities) (a : AfiSafi) : bool :=
  match add_path c with Some ap => existsb (entry_allows can a) (ap_entries ap) | None => false end.
Definition add_path_send_negotiated : PeerCapabilities -> AfiSafi -> bool := add_path_allows can_send.
Definition add_path_receive_negotiated : PeerCapabilities -> AfiSafi -> bool := add_path_allows can_receive.
Definition add_path_receive (c : PeerCapabilities) : bool :=
  match add_path c with Some ap => existsb (fun e : AfiSafi * AddPathMode => can_receive e.2) (ap_entries ap) | None => false end.

(** [afi_safis]: IPv4 unicast when multiprotocol was not negotiated. *)
Definition caps_afi_safis (c : PeerCapabilities) : list AfiSafi :=
  if bool_decide (multiprotocol c = ∅) then [mkAfiSafi Afi_Ipv4 Unicast] else elements (multiprotocol c).

(** The loop of [receive_format] and of [send_format]. *)
Definition format_mask (can : AddPathMode -> bool) (c : PeerCapabilities) : Z :=
  match add_path c with
  | Some ap => foldl (fun m e => if can e.2 then mask_with m e.1 else m) 0 (ap_entries ap)
  | None => 0
  end.
Definition format_of (can : AddPathMode -> bool) (c : PeerCapabilities) (t : option SessionType) : MessageFormat :=
  mkFormat (supports_four_octet_asn c) (format_mask can c) (bool_decide (t = Some SEbgp)) (enhanced_route_refresh c).
Definition receive_format : PeerCapabilities -> option SessionType -> MessageFormat := format_of can_receive.
Definition send_format : PeerCapabilities -> option SessionType -> MessageFormat := format_of can_send.

Record BgpOpenParams := mkOpenParams {
  peer_asn : Z; peer_hold_time : Z; peer_bgp_id : Z;
  local_asn : Z; local_hold_time : Z;
  peer_capabilities : PeerCapabilities;
}.
#[export] Instance BgpOpenParams_eq_dec : EqDecision BgpOpenParams.
Proof. solve_decision. Defined.

(** ** Settings *)
Inductive AddPathSend := ApDisabled | ApAll.
Record GracefulRestartConfig := mkGrConfig { grc_enabled : bool; grc_restart_time : Z }.
Record LlgrConfig := mkLlgrConfig {
  llc_enabled : bool; llc_stale_time : option Z; llc_afi_safis : option (list AfiSafi) }.

(** [get_peer_llgr] *)
Definition get_peer_llgr (server_llgr peer_llgr : option LlgrConfig) : option LlgrConfig :=
  effective ← match server_llgr, peer_llgr with
              | None, None => None
              | Some server, None => Some server
              | _, Some peer => if llc_enabled peer then Some peer else None
              end;
  if llc_enabled effective then
    Some (mkLlgrConfig true (llc_stale_time effective)
      (Some (default default_afi_safis (llc_afi_safis effective))))
  else None.

Record PeerConfig := mkPeerConfig {
  cfg_idle_hold_time_secs : option Z;
  cfg_damp_peer_oscillations : bool;
  cfg_passive_mode : bool;
  cfg_delay_open_time_secs : option Z;
  cfg_send_notification_without_open : bool;
  cfg_min_route_advertisement_interval_secs : option Z;
  cfg_graceful_restart : GracefulRestartConfig;
  cfg_add_path_send : AddPathSend;
  cfg_add_path_receive : bool;
  cfg_asn : option Z;
  cfg_afi_safis : list AfiSafi;
  cfg_admin_down : bool;
  cfg_rr_client : bool;
}.

Record LocalConfig := mkLocalConfig {
  lc_asn : Z; lc_bgp_id : Z; lc_hold_time : Z; lc_llgr : option LlgrConfig }.

(** ** Building the OPEN *)
Definition llgr_to_entries (c : LlgrConfig) : list LlgrEntry :=
  (fun a => mkLlgrEntry a false (default 0 (llc_stale_time c))) <$> default [] (llc_afi_safis c).

Definition advertised_afi_safis (c : PeerConfig) : list AfiSafi :=
  match cfg_afi_safis c with [] => [mkAfiSafi Afi_Ipv4 Unicast] | l => l end.

Definition sends_add_path (c : PeerConfig) : bool :=
  match cfg_add_path_send c with ApDisabled => false | ApAll => true end.

Definition build_capabilities (asn : Z) (c : PeerConfig) (l : option LlgrConfig) : list Capability :=
  let afi_safis := advertised_afi_safis c in
  (new_multiprotocol <$> afi_safis) ++
  [new_route_refresh; new_enhanced_route_refresh] ++
  (if grc_enabled (cfg_graceful_restart c) then
     [new_graceful_restart (grc_restart_time (cfg_graceful_restart c)) false ((., false) <$> afi_safis)]
   else []) ++
  [new_four_octet_asn asn] ++
  (let llgr_entries := match l with Some l => llgr_to_entries l | None => [] end in
   match llgr_entries with [] => [] | _ => [new_llgr llgr_entries] end) ++
  match mode_from_flags (sends_add_path c) (cfg_add_path_receive c) with
  | Some mode => [new_add_path ((., mode) <$> afi_safis)]
  | None => []
  end.
Definition build_optional_params (asn : Z) (c : PeerConfig) (l : option LlgrConfig) : list OptionalParam :=
  [from_capabilities (build_capabilities asn c l)].

Definition create_open_message (asn hold_time router_id : Z) (c : PeerConfig) (l : option LlgrConfig) : OpenMessage :=
  let optional_params := build_optional_params asn c l in
  mkOpen 4 asn hold_time router_id (params_len optional_params) optional_params.

(** ** Reading the peer's OPEN *)
Definition set_multiprotocol (c : PeerCapabilities) (s : gset AfiSafi) : PeerCapabilities :=
  mkCaps s (route_refresh c) (enhanced_route_refresh c) (four_octet_asn c) (graceful_restart c) (add_path c) (llgr c).
Definition set_route_refresh (c : PeerCapabilities) (b : bool) : PeerCapabilities :=
  mkCaps (multiprotocol c) b (enhanced_route_refresh c) (four_octet_asn c) (graceful_restart c) (add_path c) (llgr c).
Definition set_enhanced_route_refresh (c : PeerCapabilities) (b : bool) : PeerCapabilities :=
  mkCaps (multiprotocol c) (route_refresh c) b (four_octet_asn c) (graceful_restart c) (add_path c) (llgr c).
Definition set_four_octet_asn (c : PeerCapabilities) (v : option Z) : PeerCapabilities :=
  mkCaps (multiprotocol c) (route_refresh c) (enhanced_route_refresh c) v (graceful_restart c) (add_path c) (llgr c).
Definition set_graceful_restart (c : PeerCapabilities) (v : option GracefulRestartCapability) : PeerCapabilities :=
  mkCaps (multiprotocol c) (route_refresh c) (enhanced_route_refresh c) (four_octet_asn c) v (add_path c) (llgr c).
Definition set_add_path (c : PeerCapabilities) (v : option AddPathCapability) : PeerCapabilities :=
  mkCaps (multiprotocol c) (route_refresh c) (enhanced_route_refresh c) (four_octet_asn c) (graceful_restart c) v (llgr c).
Definition set_llgr (c : PeerCapabilities) (v : option LlgrCapability) : PeerCapabilities :=
  mkCaps (multiprotocol c) (route_refresh c) (enhanced_route_refresh c) (four_octet_asn c) (graceful_restart c) (add_path c) v.

(** One turn of the loop of [extract_capabilities]. *)
Definition extract_capability (c : PeerCapabilities) (cap : Capability) : PeerCapabilities :=
  match cap_code cap with
  | Multiprotocol =>
      match afi_safi_from_capability_bytes (cap_val cap) with
      | Ok a => set_multiprotocol c ({[a]} ∪ multiprotocol c)
      | _ => c
      end
  | RouteRefresh => set_route_refresh c true
  | FourOctetAsn =>
      if (length (cap_val cap) =? 4)%nat then set_four_octet_asn c (Some (be_val (cap_val cap))) else c
  | GracefulRestart => set_graceful_restart c (as_graceful_restart cap)
  | AddPath => set_add_path c (as_add_path cap)
  | EnhancedRouteRefresh => set_enhanced_route_refresh c true
  | Llgr => set_llgr c (as_llgr cap)
  | CapUnknown => c
  end.
Definition extract_capabilities (m : OpenMessage) : PeerCapabilities :=
  let c := foldl extract_capability caps_default (concat (map param_capabilities (o_optional_params m))) in
  match llgr c, graceful_restart c with
  | Some _, None => set_llgr c None
  | _, _ => c
  end.

(** ** Negotiation *)
Definition negotiate_multiprotocol (local : list AfiSafi) (peer : gset AfiSafi) : gset AfiSafi :=
  list_to_set local ∩ peer.

Definition negotiate_entry (local_send local_receive : bool) (e : AfiSafi * AddPathMode)
    : option (AfiSafi * AddPathMode) :=
  mode ← mode_from_flags (local_send && can_receive e.2) (local_receive && can_send e.2);
  Some (e.1, mode).
Definition negotiate_add_path (c : PeerConfig) (peer : PeerCapabilities) : option AddPathCapability :=
  peer_add_path ← add_path peer;
  if negb (sends_add_path c) && negb (cfg_add_path_receive c) then None
  else match omap (negotiate_entry (sends_add_path c) (cfg_add_path_receive c)) (ap_entries peer_add_path) with
       | [] => None
       | entries => Some (mkAddPath entries)
       end.

(** The capabilities [enter_open_confirm] stores. *)
Definition negotiate (c : PeerConfig) (peer : PeerCapabilities) : PeerCapabilities :=
  mkCaps (negotiate_multiprotocol (advertised_afi_safis c) (multiprotocol peer))
    (route_refresh peer) (enhanced_route_refresh peer) (four_octet_asn peer)
    (graceful_restart peer) (negotiate_add_path c peer) (llgr peer).

(** [local_wins_collision] *)
Definition local_wins_collision (lc : LocalConfig) (open : OpenMessage) : bool :=
  let local_id := lc_bgp_id lc in
  let remote_id := o_bgp_identifier open in
  if negb (local_id =? remote_id) then remote_id <? local_id
  else
    let remote_asn := default (o_asn open) (four_octet_asn (extract_capabilities open)) in
    remote_asn <? lc_asn lc.

(** [build_open_message] *)
Definition build_open_message (suppressed : bool) (lc : LocalConfig) (c : PeerConfig) : OpenMessage :=
  if suppressed then open_new (lc_asn lc) (lc_hold_time lc) (lc_bgp_id lc)
  else create_open_message (lc_asn lc) (lc_hold_time lc) (lc_bgp_id lc) c (lc_llgr lc).

(** ** Masks *)
Lemma mask_contains_nil a : mask_contains 0 a = false.
Proof. by destruct a as [[] []]. Qed.

Lemma mask_contains_with m a b :
  0 <= m -> mask_contains (mask_with m b) a =
    mask_contains m a || (bool_decide (b = a) && negb (add_path_bit a =? 0)).
Proof.
  intros Hm. unfold mask_contains, mask_with. rewrite Z.land_lor_distr_l.
  assert (Z.land (add_path_bit b) (add_path_bit a) = if bool_decide (b = a) then add_path_bit a else 0) as ->
    by (destruct a as [[] []], b as [[] []]; reflexivity).
  destruct (bool_decide (b = a)); cbn [andb].
  - destruct (Z.eqb_spec (Z.land m (add_path_bit a)) 0) as [->|E]; [by rewrite Z.lor_0_l|]. cbn [negb orb].
    apply negb_true_iff, Z.eqb_neq. by intros [? _]%Z.lor_eq_0_iff.
  - by rewrite Z.lor_0_r, orb_false_r.
Qed.

Lemma mask_with_nonneg m a : 0 <= m -> 0 <= mask_with m a.
Proof. intros Hm. apply Z.lor_nonneg. split; [done|]. by destruct a as [[] []]. Qed.

Lemma mask_fold (can : AddPathMode -> bool) entries m a :
  0 <= m ->
  mask_contains (foldl (fun m (e : AfiSafi * AddPathMode) => if can e.2 then mask_with m e.1 else m) m entries) a =
    mask_contains m a || (existsb (entry_allows can a) entries && negb (add_path_bit a =? 0)).
Proof.
  revert m. induction entries as [|[b mode] entries IH]; intros m Hm; cbn [foldl existsb fst snd].
  { by rewrite orb_false_r. }
  unfold entry_allows at 1. cbn [fst snd]. destruct (can mode).
  - rewrite IH, mask_contains_with by (try apply mask_with_nonneg; done). rewrite andb_true_r, <- orb_assoc. f_equal.
    by destruct (bool_decide (b = a)), (existsb _ entries), (negb (add_path_bit a =? 0)).
  - rewrite IH, andb_false_r by done. done.
Qed.

(** The mask of a format says what the ADD-PATH capability allows, for every
    family that has a bit. *)
Lemma format_mask_contains can c a :
  mask_contains (format_mask can c) a = add_path_allows can c a && negb (add_path_bit a =? 0).
Proof.
  unfold format_mask, add_path_allows. destruct (add_path c) as [ap|]; [|by rewrite mask_contains_nil].
  rewrite mask_fold by done. by rewrite mask_contains_nil.
Qed.

(** ** What an OPEN carries *)
Definition advertises_add_path (c : PeerConfig) : option AddPathMode :=
  mode_from_flags (sends_add_path c) (cfg_add_path_receive c).

(** The capabilities a speaker means to announce. *)
Definition announced (lc : LocalConfig) (c : PeerConfig) : PeerCapabilities :=
  let gr := if grc_enabled (cfg_graceful_restart c)
            then Some (mkGr (grc_restart_time (cfg_graceful_restart c)) false ((., false) <$> advertised_afi_safis c))
            else None in
  mkCaps (list_to_set (advertised_afi_safis c)) true true (Some (lc_asn lc)) gr
    (mode ← advertises_add_path c; Some (mkAddPath ((., mode) <$> advertised_afi_safis c)))
    (match gr, lc_llgr lc with
     | Some _, Some l => match llgr_to_entries l with [] => None | es => Some (mkLlgr es) end
     | _, _ => None
     end).

(** Settings the configuration checks leave: what fits the fields of the OPEN
    and of its capabilities. *)
Record config_ok (lc : LocalConfig) (c : PeerConfig) : Prop := {
  co_asn : u32 (lc_asn lc);
  co_id : u32 (lc_bgp_id lc) /\ lc_bgp_id lc <> 0;
  co_hold : u16 (lc_hold_time lc) /\ lc_hold_time lc <> 1 /\ lc_hold_time lc <> 2;
  co_gr : 0 <= grc_restart_time (cfg_graceful_restart c) < 4096;
  co_llgr : forall l t, lc_llgr lc = Some l -> llc_stale_time l = Some t -> 0 <= t < 2 ^ 24;
  co_len : (length (concat (map cap_to_bytes (build_capabilities (lc_asn lc) c (lc_llgr lc)))) < 254)%nat;
}.

Lemma cap_new_ok code val :
  code <> CapUnknown -> (length (cap_to_bytes (cap_new code val)) < 254)%nat -> cap_ok (cap_new code val).
Proof.
  intros Hc Hl. unfold cap_to_bytes, cap_new in *. cbn [cap_code cap_len cap_val app length] in *.
  split_and!; cbn [cap_code cap_len cap_val]; [done| |lia]. apply Z.mod_small. lia.
Qed.

Lemma length_concat_In {A} (l : list (list A)) x : x ∈ l -> (length x <= length (concat l))%nat.
Proof.
  induction l as [|y l IH]; [by intros ?%not_elem_of_nil|].
  intros [->|H]%elem_of_cons; cbn [concat]; rewrite length_app; [lia|]. specialize (IH H). lia.
Qed.

Lemma build_capabilities_ok lc c :
  config_ok lc c -> Forall cap_ok (build_capabilities (lc_asn lc) c (lc_llgr lc)).
Proof.
  intros [_ _ _ _ _ Hlen]. apply Forall_forall. intros cap Hin.
  assert (length (cap_to_bytes cap) < 254)%nat as Hl.
  { eapply Nat.le_lt_trans; [|exact Hlen]. apply length_concat_In. apply list_elem_of_fmap. by exists cap. }
  clear Hlen. unfold build_capabilities in Hin. rewrite !elem_of_app in Hin.
  destruct Hin as [Hin|[Hin|[Hin|[Hin|[Hin|Hin]]]]].
  - apply list_elem_of_fmap in Hin as (a & -> & _). by apply cap_new_ok.
  - apply elem_of_cons in Hin as [ -> |Hin]; [|apply list_elem_of_singleton in Hin as ->]; by (split_and!; cbn; [done|done|lia]).
  - destruct (grc_enabled _); [|by apply not_elem_of_nil in Hin].
    apply list_elem_of_singleton in Hin as ->. by apply cap_new_ok.
  - apply list_elem_of_singleton in Hin as ->. split_and!; [done|done|]. cbn. lia.
  - destruct (match lc_llgr lc with Some _ => _ | None => _ end); [by apply not_elem_of_nil in Hin|].
    apply list_elem_of_singleton in Hin as ->. by apply cap_new_ok.
  - destruct (mode_from_flags _ _); [|by apply not_elem_of_nil in Hin].
    apply list_elem_of_singleton in Hin as ->. by apply cap_new_ok.
Qed.

Lemma omap_nil {A B} (f : A -> option B) l : (forall x, x ∈ l -> f x = None) -> omap f l = [].
Proof.
  induction l as [|x l IH]; intros H; [done|]. cbn. rewrite (H x) by apply list_elem_of_here.
  apply IH. intros y Hy. apply H. by apply list_elem_of_further.
Qed.

Lemma build_find_asn lc c :
  config_ok lc c ->
  find_four_octet_asn (build_optional_params (lc_asn lc) c (lc_llgr lc)) = Some (lc_asn lc).
Proof.
  intros [Ha _ _ _ _ _]. unfold find_four_octet_asn, build_optional_params. cbn [map concat param_capabilities from_capabilities param_value].
  rewrite app_nil_r. unfold build_capabilities. rewrite !omap_app.
  rewrite (omap_nil as_four_octet_asn (new_multiprotocol <$> _)) by (intros x (a & -> & _)%list_elem_of_fmap; done).
  rewrite (omap_nil as_four_octet_asn (if grc_enabled _ then _ else _))
    by (destruct (grc_enabled _); [by intros x ->%list_elem_of_singleton|intros x Hx; by apply not_elem_of_nil in Hx]).
  cbn [omap list_omap app]. by rewrite four_octet_contents.
Qed.

Lemma foldr_cap_len caps :
  Forall cap_ok caps -> foldr (fun c n => 2 + cap_len c + n) 0 caps = Z.of_nat (length (concat (map cap_to_bytes caps))).
Proof.
  induction 1 as [|cap caps (_ & Hl & _) _ IH]; [done|]. cbn [foldr map concat]. rewrite IH, length_app, Hl.
  unfold cap_to_bytes. cbn [length]. lia.
Qed.

Lemma create_open_ok lc c :
  config_ok lc c -> open_ok (create_open_message (lc_asn lc) (lc_hold_time lc) (lc_bgp_id lc) c (lc_llgr lc)).
Proof.
  intros Hc. pose proof (build_find_asn lc c Hc) as Hfind. pose proof (build_capabilities_ok lc c Hc) as Hcaps.
  destruct Hc as [Ha Hid Hh _ _ Hlen]. set (caps := build_capabilities (lc_asn lc) c (lc_llgr lc)) in *.
  pose proof (foldr_cap_len caps Hcaps) as Hfold.
  assert (Z.of_nat (length (concat (map cap_to_bytes caps))) < 254) by lia. clear Hlen.
  assert (param_len (from_capabilities caps) = Z.of_nat (length (concat (map cap_to_bytes caps)))) as Hpl
    by (cbn [from_capabilities param_len]; rewrite Hfold; apply Z.mod_small; lia).
  assert (length (concat (map param_to_bytes (build_optional_params (lc_asn lc) c (lc_llgr lc)))) =
    2 + length (concat (map cap_to_bytes caps)))%nat as Hpb
    by (cbn [build_optional_params map concat]; rewrite app_nil_r; reflexivity).
  split; cbn [create_open_message o_version o_asn o_hold_time o_bgp_identifier o_optional_params_len o_optional_params]; try done.
  - rewrite Hpb. unfold params_len, build_optional_params. fold caps. cbn [foldr]. rewrite Hpl. rewrite Z.mod_small by lia. lia.
  - rewrite Hpb. lia.
  - constructor; [|constructor]. fold caps. split_and!; [exact Hcaps|exact Hpl|].
    change (length (concat (map cap_to_bytes caps)) < 256)%nat. lia.
Qed.

Lemma foldl_multiprotocol l c :
  foldl extract_capability c (new_multiprotocol <$> l) = set_multiprotocol c (list_to_set l ∪ multiprotocol c).
Proof.
  revert c. induction l as [|a l IH]; intros c; cbn [fmap list_fmap foldl list_to_set].
  - destruct c. unfold set_multiprotocol. cbn. by rewrite union_empty_l_L.
  - rewrite IH. unfold extract_capability. cbn [cap_code new_multiprotocol cap_new].
    rewrite multiprotocol_contents. unfold set_multiprotocol. cbn [multiprotocol]. f_equal. set_solver.
Qed.

Lemma llgr_entries_ok lc c l :
  config_ok lc c -> lc_llgr lc = Some l -> Forall (fun e => 0 <= ll_stale_time e < 2 ^ 24) (llgr_to_entries l).
Proof.
  intros [_ _ _ _ Hl _] El. apply Forall_forall. intros e (a & -> & _)%list_elem_of_fmap. cbn [ll_stale_time].
  destruct (llc_stale_time l) as [t|] eqn:Et; cbn; [eauto|lia].
Qed.

(** The loop of [extract_capabilities] on what [build_capabilities] built. *)
Lemma foldl_build lc c :
  config_ok lc c ->
  foldl extract_capability caps_default (build_capabilities (lc_asn lc) c (lc_llgr lc)) =
    mkCaps (list_to_set (advertised_afi_safis c)) true true (Some (lc_asn lc))
      (graceful_restart (announced lc c)) (add_path (announced lc c))
      (match lc_llgr lc with
       | Some l => match llgr_to_entries l with [] => None | es => Some (mkLlgr es) end
       | None => None
       end).
Proof.
  intros Hc. unfold build_capabilities. cbv zeta. rewrite !foldl_app, foldl_multiprotocol.
  unfold announced, advertises_add_path. cbn [graceful_restart add_path]. set (fams := advertised_afi_safis c).
  change (multiprotocol caps_default) with (∅ : gset AfiSafi). rewrite union_empty_r_L.
  change (foldl extract_capability (set_multiprotocol caps_default (list_to_set fams)) [new_route_refresh; new_enhanced_route_refresh])
    with (mkCaps (list_to_set fams) true true None None None None).
  set (gr := if grc_enabled _ then Some _ else None).
  assert (foldl extract_capability (mkCaps (list_to_set fams) true true None None None None)
      (if grc_enabled (cfg_graceful_restart c)
       then [new_graceful_restart (grc_restart_time (cfg_graceful_restart c)) false ((., false) <$> fams)] else [])
    = mkCaps (list_to_set fams) true true None gr None None) as ->.
  { unfold gr. destruct (grc_enabled _); [|done]. cbn [foldl]. unfold extract_capability.
    cbn [cap_code new_graceful_restart cap_new]. change (mkCap GracefulRestart _ _)
      with (new_graceful_restart (grc_restart_time (cfg_graceful_restart c)) false ((., false) <$> fams)).
    by rewrite graceful_restart_contents by apply (co_gr _ _ Hc). }
  assert (foldl extract_capability (mkCaps (list_to_set fams) true true None gr None None) [new_four_octet_asn (lc_asn lc)]
    = mkCaps (list_to_set fams) true true (Some (lc_asn lc)) gr None None) as ->.
  { cbn [foldl]. unfold extract_capability. cbn [cap_code new_four_octet_asn cap_val].
    pose proof (co_asn _ _ Hc). rewrite length_be_bytes, be_val_be_bytes_id by done. done. }
  set (ll := match lc_llgr lc with Some l => match llgr_to_entries l with [] => None | es => Some (mkLlgr es) end | None => None end).
  set (es := match lc_llgr lc with Some l => llgr_to_entries l | None => [] end).
  assert (foldl extract_capability (mkCaps (list_to_set fams) true true (Some (lc_asn lc)) gr None None)
      match es with [] => [] | _ => [new_llgr es] end
    = mkCaps (list_to_set fams) true true (Some (lc_asn lc)) gr None ll) as ->.
  { unfold ll, es. destruct (lc_llgr lc) as [l|] eqn:El; [|done]. pose proof (llgr_entries_ok lc c l Hc El) as Hes.
    destruct (llgr_to_entries l) as [|e es']; [done|]. cbn [foldl]. unfold extract_capability.
    rewrite llgr_contents by done. done. }
  destruct (mode_from_flags _ _) as [mode|]; [|done].
  cbn [foldl]. unfold extract_capability. cbn [cap_code new_add_path cap_new].
  change (mkCap AddPath _ _) with (new_add_path ((., mode) <$> fams)). by rewrite add_path_contents.
Qed.

(** What the receiver extracts is what the sender meant. *)
Lemma extract_create lc c :
  config_ok lc c ->
  extract_capabilities (create_open_message (lc_asn lc) (lc_hold_time lc) (lc_bgp_id lc) c (lc_llgr lc)) = announced lc c.
Proof.
  intros Hc. unfold extract_capabilities, create_open_message. cbn [o_optional_params].
  unfold build_optional_params. cbn [map concat param_capabilities from_capabilities param_value].
  rewrite app_nil_r, foldl_build by done. unfold announced, set_llgr. cbn [llgr graceful_restart].
  destruct (lc_llgr lc) as [l|]; [|by destruct (grc_enabled _)].
  by destruct (llgr_to_entries l), (grc_enabled _).
Qed.

(** ** Agreement of the two ends *)
Lemma existsb_negotiated (can : AddPathMode -> bool) s r m f fams :
  existsb (entry_allows can f) (omap (negotiate_entry s r) ((., m) <$> fams)) =
    bool_decide (f ∈ fams) &&
      match mode_from_flags (s && can_receive m) (r && can_send m) with Some md => can md | None => false end.
Proof.
  induction fams as [|a fams IH]; [done|]. rewrite fmap_cons. cbn [omap list_omap].
  unfold negotiate_entry at 1. cbn [fst snd].
  destruct (mode_from_flags (s && can_receive m) (r && can_send m)) as [md|] eqn:E; cbn [mbind option_bind].
  - cbn [existsb]. change (list_omap _ _ (negotiate_entry s r) (list_fmap _ _ (., m) fams))
      with (omap (negotiate_entry s r) ((., m) <$> fams)). rewrite IH. unfold entry_allows. cbn [fst snd].
    destruct (decide (a = f)) as [->|Hne].
    + rewrite (bool_decide_eq_true_2 (f = f)), (bool_decide_eq_true_2 (f ∈ f :: fams)) by (done || apply list_elem_of_here).
      by destruct (can md), (bool_decide _).
    + rewrite (bool_decide_eq_false_2 (a = f)) by done. cbn [andb orb].
      rewrite (bool_decide_ext (f ∈ a :: fams) (f ∈ fams)); [done|]. rewrite elem_of_cons. naive_solver.
  - change (list_omap _ _ (negotiate_entry s r) (list_fmap _ _ (., m) fams))
      with (omap (negotiate_entry s r) ((., m) <$> fams)). rewrite IH. by rewrite !andb_false_r.
Qed.

(** What two speakers get for a family the peer advertises: ADD-PATH in a
    direction exactly when one end sends and the other receives. *)
Lemma negotiated_add_path (can : AddPathMode -> bool) c lc' c' f :
  f ∈ advertised_afi_safis c' ->
  add_path_allows can (negotiate c (announced lc' c')) f =
    match mode_from_flags (sends_add_path c && cfg_add_path_receive c') (cfg_add_path_receive c && sends_add_path c')
    with Some md => can md | None => false end.
Proof.
  intros Hf. unfold add_path_allows, negotiate. cbn [add_path]. unfold negotiate_add_path, announced. cbn [add_path].
  unfold advertises_add_path.
  pose proof (existsb_negotiated can (sends_add_path c) (cfg_add_path_receive c)) as He.
  destruct (mode_from_flags (sends_add_path c') (cfg_add_path_receive c')) as [m|] eqn:Em; cbn [mbind option_bind ap_entries].
  - specialize (He m f (advertised_afi_safis c')). rewrite bool_decide_eq_true_2 in He by done. cbn [andb] in He.
    assert (can_receive m = cfg_add_path_receive c' /\ can_send m = sends_add_path c') as [Hr Hs]
      by (by destruct (sends_add_path c'), (cfg_add_path_receive c'); simplify_eq/=).
    rewrite Hr, Hs in He.
    destruct (negb (sends_add_path c) && negb (cfg_add_path_receive c)) eqn:En.
    + apply andb_true_iff in En as [?%negb_true_iff ?%negb_true_iff].
      by rewrite H, H0.
    + destruct (omap _ _); [by rewrite <- He|exact He].
  - destruct (sends_add_path c'), (cfg_add_path_receive c'); try done. by rewrite !andb_false_r.
Qed.

Definition speaker_open (lc : LocalConfig) (c : PeerConfig) : OpenMessage := build_open_message false lc c.

(** C33. Two speakers that exchange OPENs with their capabilities (none of them
    has suppressed its capabilities) agree on the session.  For any two
    configurations whose OPENs fit, each end decodes the other's OPEN from
    its bytes to the message that was sent; the families both negotiate are
    the same set; and for each of them what one end will send the other will
    parse: ADD-PATH identifiers are written exactly when they are read, AS
    numbers have the same width, and enhanced refresh is on at both. *)
Theorem session_formats_agree (lca lcb : LocalConfig) (ca cb : PeerConfig) ta tb :
  config_ok lca ca -> config_ok lcb cb ->
  open_from_bytes (open_to_bytes (speaker_open lca ca)) = Ok (speaker_open lca ca) /\
  open_from_bytes (open_to_bytes (speaker_open lcb cb)) = Ok (speaker_open lcb cb) /\
  let na := negotiate ca (extract_capabilities (speaker_open lcb cb)) in
  let nb := negotiate cb (extract_capabilities (speaker_open lca ca)) in
  multiprotocol na = multiprotocol nb /\
  use_4byte_asn (send_format na ta) = use_4byte_asn (receive_format nb tb) /\
  enhanced_rr (send_format na ta) = enhanced_rr (receive_format nb tb) /\
  forall f, f ∈ multiprotocol na ->
    mask_contains (mf_add_path (send_format na ta)) f = mask_contains (mf_add_path (receive_format nb tb)) f.
Proof.
  intros Ha Hb. split_and!; [by apply open_read_write, create_open_ok..|].
  unfold speaker_open, build_open_message. rewrite !extract_create by done. cbn zeta. split_and!; [|done|done|].
  - cbn [negotiate multiprotocol announced]. unfold negotiate_multiprotocol. apply intersection_comm_L.
  - intros f Hf. cbn [negotiate multiprotocol announced] in Hf. unfold negotiate_multiprotocol in Hf.
    apply elem_of_intersection in Hf as [Hfa%elem_of_list_to_set Hfb%elem_of_list_to_set].
    cbn [send_format receive_format format_of mf_add_path]. rewrite !format_mask_contains, !negotiated_add_path by done.
    by destruct (sends_add_path ca), (cfg_add_path_receive ca), (sends_add_path cb), (cfg_add_path_receive cb).
Qed.

Definition demo_config (fams : list AfiSafi) (s : AddPathSend) (r : bool) : PeerConfig :=
  mkPeerConfig (Some 30) true false None false None (mkGrConfig true 120) s r None fams false false.
Definition demo_local (asn id : Z) : LocalConfig := mkLocalConfig asn id 180 None.

Lemma demo_config_ok asn id fams s r :
  u32 asn -> u32 id /\ id <> 0 ->
  (length (concat (map cap_to_bytes (build_capabilities asn (demo_config fams s r) None))) < 254)%nat ->
  config_ok (demo_local asn id) (demo_config fams s r).
Proof. intros. split; cbn; try done; unfold u16; lia. Qed.

Lemma session_formats_agree_witness :
  let v4 := mkAfiSafi Afi_Ipv4 Unicast in
  let na := negotiate (demo_config [v4] ApAll false)
    (extract_capabilities (speaker_open (demo_local 200000 2) (demo_config [] ApDisabled true))) in
  let nb := negotiate (demo_config [] ApDisabled true)
    (extract_capabilities (speaker_open (demo_local 65001 1) (demo_config [v4] ApAll false))) in
  mask_contains (mf_add_path (send_format na None)) v4 = mask_contains (mf_add_path (receive_format nb None)) v4 /\
  mask_contains (mf_add_path (send_format na None)) v4 = true.
Proof.
  intros v4 na nb. split; [|by vm_compute].
  destruct (session_formats_agree (demo_local 65001 1) (demo_local 200000 2)
    (demo_config [v4] ApAll false) (demo_config [] ApDisabled true) None None) as (_ & _ & _ & _ & _ & H).
  - apply demo_config_ok; [done|done|vm_compute; lia].
  - apply demo_config_ok; [done|done|vm_compute; lia].
  - apply H. apply (bool_decide_unpack _). by vm_compute.
Defined.

(** *** Collisions *)

(** What a speaker sees of another's OPEN in a collision. *)
Definition speaker_key (lc : LocalConfig) : Z * Z := (lc_bgp_id lc, lc_asn lc).

Lemma local_wins_spec lc lc' c' :
  config_ok lc' c' ->
  local_wins_collision lc (speaker_open lc' c') =
    if negb (lc_bgp_id lc =? lc_bgp_id lc') then lc_bgp_id lc' <? lc_bgp_id lc else lc_asn lc' <? lc_asn lc.
Proof.
  intros Hc. unfold local_wins_collision, speaker_open, build_open_message. rewrite extract_create by done.
  done.
Qed.

(** C34. Both ends of a connection collision close the same connection.  When
    two speakers that differ in identifier or AS number have each dialed the
    other, exactly one of them decides that the connection it dialed wins. *)
Theorem collision_one_winner (lca lcb : LocalConfig) (ca cb : PeerConfig) :
  config_ok lca ca -> config_ok lcb cb -> speaker_key lca <> speaker_key lcb ->
  local_wins_collision lca (speaker_open lcb cb) = negb (local_wins_collision lcb (speaker_open lca ca)).
Proof.
  intros Ha Hb Hne. rewrite !local_wins_spec by done. unfold speaker_key in Hne.
  destruct (Z.eqb_spec (lc_bgp_id lca) (lc_bgp_id lcb)), (Z.eqb_spec (lc_bgp_id lcb) (lc_bgp_id lca)); try congruence; cbn [negb].
  - destruct (Z.ltb_spec (lc_asn lcb) (lc_asn lca)), (Z.ltb_spec (lc_asn lca) (lc_asn lcb)); try done; [lia|].
    destruct Hne. f_equal; [done|lia].
  - destruct (Z.ltb_spec (lc_bgp_id lcb) (lc_bgp_id lca)), (Z.ltb_spec (lc_bgp_id lca) (lc_bgp_id lcb)); try done; lia.
Qed.

Lemma collision_one_winner_witness :
  local_wins_collision (demo_local 65001 7) (speaker_open (demo_local 65002 7) (demo_config [] ApDisabled false)) =
  negb (local_wins_collision (demo_local 65002 7) (speaker_open (demo_local 65001 7) (demo_config [] ApDisabled false))).
Proof.
  apply collision_one_winner; [apply demo_config_ok; [done|done|vm_compute; lia]..|discriminate].
Defined.

(** *** A speaker that no longer sends capabilities *)

(** Four-octet AS numbers are not negotiated both ways when one end sends
    its OPEN without capabilities (after an Unsupported Optional Parameter):
    for every peer that announces the capability, the suppressed end writes
    AS numbers of four octets and its peer reads them as two. *)
Theorem suppressed_asn_width_differs (lca lcb : LocalConfig) (ca cb : PeerConfig) ta tb :
  config_ok lcb cb ->
  let na := negotiate ca (extract_capabilities (speaker_open lcb cb)) in
  let nb := negotiate cb (extract_capabilities (build_open_message true lca ca)) in
  use_4byte_asn (send_format na ta) = true /\ use_4byte_asn (receive_format nb tb) = false.
Proof.
  intros Hb. unfold speaker_open, build_open_message. rewrite extract_create by done. done.
Qed.

Lemma suppressed_asn_width_differs_witness :
  let na := negotiate (demo_config [] ApDisabled false)
    (extract_capabilities (speaker_open (demo_local 65001 1) (demo_config [] ApDisabled false))) in
  let nb := negotiate (demo_config [] ApDisabled false)
    (extract_capabilities (build_open_message true (demo_local 65002 2) (demo_config [] ApDisabled false))) in
  use_4byte_asn (send_format na None) = true /\ use_4byte_asn (receive_format nb None) = false.
Proof.
  apply (suppressed_asn_width_differs (demo_local 65002 2) (demo_local 65001 1)). apply demo_config_ok; [done|done|vm_compute; lia].
Defined.
