(* ===== verification/Conf.v ===== *)
(** * The configuration of the daemon, and the file it is kept in ([conf/src/bgp.rs])

    [BgpConfig] with the types under it; [from_conf_str] builds one from the
    tree of a file, and [to_conf_str] writes one as a file.  The session code's
    part of [PeerConfig] is in [PeerCaps], the server's in [Server]. *)
From S2P Require Import Prelude Net Nlri BgpLs Attrs Text LangBgp LangBgpParse OpenMsg Path PeerCaps.

(** ** Peers *)
Inductive MaxPrefixAction := MaTerminate | MaDiscard.
Record MaxPrefixSetting := mkMaxPrefixSetting { mps_limit : Z; mps_action : MaxPrefixAction }.
Definition default_gr_enabled : bool := true.
Definition default_gr_restart_time : Z := 120.
Definition graceful_restart_default : GracefulRestartConfig := mkGrConfig default_gr_enabled default_gr_restart_time.

Record AfiSafiConfig := mkAfiSafiConfig {
  ac_afi : Afi;
  ac_safi : Safi;
  ac_max_prefix : option MaxPrefixSetting;
  ac_add_path_send : option AddPathSend;
  ac_import_policy : list Str;
  ac_export_policy : list Str;
}.
(** [AfiSafiConfig::new] *)
Definition afi_safi_config_new (a : Afi) (s : Safi) : AfiSafiConfig := mkAfiSafiConfig a s None None [] [].
(** [AfiSafiConfig::afi_safi] *)
Definition ac_afi_safi (c : AfiSafiConfig) : AfiSafi := mkAfiSafi (ac_afi c) (ac_safi c).

Record PeerConfig := mkPeerConf {
  cp_address : Str;
  cp_port : Z;
  cp_idle_hold_time_secs : option Z;
  cp_damp_peer_oscillations : bool;
  cp_allow_automatic_stop : bool;
  cp_passive_mode : bool;
  cp_delay_open_time_secs : option Z;
  cp_max_prefix : option MaxPrefixSetting;
  cp_send_notification_without_open : bool;
  cp_min_route_advertisement_interval_secs : option Z;
  cp_graceful_restart : GracefulRestartConfig;
  cp_rr_client : bool;
  cp_rs_client : bool;
  cp_enforce_first_as : bool;
  cp_add_path_send : AddPathSend;
  cp_add_path_receive : bool;
  cp_asn : option Z;
  cp_md5_key_file : option Str;
  cp_next_hop_self : bool;
  cp_graceful_shutdown : bool;
  cp_ttl_min : option Z;
  cp_interface : option Str;
  cp_llgr : option LlgrConfig;
  cp_send_rpki_community : bool;
  cp_afi_safis : list AfiSafiConfig;
  cp_admin_down : bool;
}.

Definition default_idle_hold_time : option Z := Some 30.
Definition default_damp_peer_oscillations : bool := true.
Definition default_allow_automatic_stop : bool := true.
Definition default_passive_mode : bool := false.
Definition default_enforce_first_as : bool := true.
Definition default_enhanced_rr_stale_ttl : option Z := Some 360.
Definition default_port : Z := 179.
(** [PeerConfig::default] *)
Definition peer_config_default : PeerConfig :=
  mkPeerConf [] default_port default_idle_hold_time default_damp_peer_oscillations default_allow_automatic_stop
    default_passive_mode None None false None graceful_restart_default false false default_enforce_first_as ApDisabled false None
    None false false None None None false [] false.
Definition peer_conf_eta (c : PeerConfig) : PeerConfig :=
  mkPeerConf (cp_address c) (cp_port c) (cp_idle_hold_time_secs c) (cp_damp_peer_oscillations c) (cp_allow_automatic_stop c)
    (cp_passive_mode c) (cp_delay_open_time_secs c) (cp_max_prefix c) (cp_send_notification_without_open c)
    (cp_min_route_advertisement_interval_secs c) (cp_graceful_restart c) (cp_rr_client c) (cp_rs_client c) (cp_enforce_first_as c)
    (cp_add_path_send c) (cp_add_path_receive c) (cp_asn c) (cp_md5_key_file c) (cp_next_hop_self c) (cp_graceful_shutdown c)
    (cp_ttl_min c) (cp_interface c) (cp_llgr c) (cp_send_rpki_community c) (cp_afi_safis c) (cp_admin_down c).
Definition with_cp_address v c := ltac:(update_field peer_conf_eta cp_address v c).
Definition with_cp_port v c := ltac:(update_field peer_conf_eta cp_port v c).
Definition with_cp_idle_hold_time_secs v c := ltac:(update_field peer_conf_eta cp_idle_hold_time_secs v c).
Definition with_cp_damp_peer_oscillations v c := ltac:(update_field peer_conf_eta cp_damp_peer_oscillations v c).
Definition with_cp_allow_automatic_stop v c := ltac:(update_field peer_conf_eta cp_allow_automatic_stop v c).
Definition with_cp_passive_mode v c := ltac:(update_field peer_conf_eta cp_passive_mode v c).
Definition with_cp_delay_open_time_secs v c := ltac:(update_field peer_conf_eta cp_delay_open_time_secs v c).
Definition with_cp_send_notification_without_open v c := ltac:(update_field peer_conf_eta cp_send_notification_without_open v c).
Definition with_cp_min_route_advertisement_interval_secs v c := ltac:(update_field peer_conf_eta cp_min_route_advertisement_interval_secs v c).
Definition with_cp_rr_client v c := ltac:(update_field peer_conf_eta cp_rr_client v c).
Definition with_cp_rs_client v c := ltac:(update_field peer_conf_eta cp_rs_client v c).
Definition with_cp_enforce_first_as v c := ltac:(update_field peer_conf_eta cp_enforce_first_as v c).
Definition with_cp_asn v c := ltac:(update_field peer_conf_eta cp_asn v c).
Definition with_cp_md5_key_file v c := ltac:(update_field peer_conf_eta cp_md5_key_file v c).
Definition with_cp_next_hop_self v c := ltac:(update_field peer_conf_eta cp_next_hop_self v c).
Definition with_cp_graceful_shutdown v c := ltac:(update_field peer_conf_eta cp_graceful_shutdown v c).
Definition with_cp_ttl_min v c := ltac:(update_field peer_conf_eta cp_ttl_min v c).
Definition with_cp_interface v c := ltac:(update_field peer_conf_eta cp_interface v c).
Definition with_cp_send_rpki_community v c := ltac:(update_field peer_conf_eta cp_send_rpki_community v c).
Definition with_cp_afi_safis v c := ltac:(update_field peer_conf_eta cp_afi_safis v c).
Definition with_cp_admin_down v c := ltac:(update_field peer_conf_eta cp_admin_down v c).

(** [PeerConfig::ip], [socket_addr], [delay_open_time], [allow_automatic_start] *)
Definition cp_ip (c : PeerConfig) : option IpAddr := parse_ip (cp_address c).
Definition cp_socket_addr (c : PeerConfig) : option (IpAddr * Z) := ip ← cp_ip c; Some (ip, cp_port c).
Definition cp_delay_open_time (c : PeerConfig) : option Z := cp_delay_open_time_secs c.
Definition cp_allow_automatic_start (c : PeerConfig) : bool := bool_decide (is_Some (cp_idle_hold_time_secs c)).

(** The loops of [import_policy_names] and [export_policy_names]. *)
Fixpoint dedup_names (seen : list Str) (names : list Str) : list Str :=
  match names with
  | [] => []
  | name :: names => if existsb (str_eqb name) seen then dedup_names seen names else name :: dedup_names (name :: seen) names
  end.
Definition import_policy_names (c : PeerConfig) : list Str := dedup_names [] (concat (map ac_import_policy (cp_afi_safis c))).
Definition export_policy_names (c : PeerConfig) : list Str := dedup_names [] (concat (map ac_export_policy (cp_afi_safis c))).
(** [afi_safi_list] *)
Definition afi_safi_list (c : PeerConfig) : list AfiSafi := map ac_afi_safi (cp_afi_safis c).
Definition entry_for (a : Afi) (s : Safi) (entry : AfiSafiConfig) : bool := bool_decide (ac_afi entry = a) && bool_decide (ac_safi entry = s).
(** [PeerConfig::effective_max_prefix] *)
Definition peer_max_prefix (c : PeerConfig) (family : AfiSafi) : option MaxPrefixSetting :=
  match entry ← find (entry_for (afi family) (safi family)) (cp_afi_safis c); ac_max_prefix entry with
  | Some setting => Some setting
  | None => cp_max_prefix c
  end.
Definition import_policy_for (c : PeerConfig) (a : Afi) (s : Safi) : list Str :=
  match find (entry_for a s) (cp_afi_safis c) with Some entry => ac_import_policy entry | None => [] end.
Definition export_policy_for (c : PeerConfig) (a : Afi) (s : Safi) : list Str :=
  match find (entry_for a s) (cp_afi_safis c) with Some entry => ac_export_policy entry | None => [] end.

(** [afi_safi_entry_mut], with what is then done to the entry. *)
Fixpoint afi_safi_entry_mut (l : list AfiSafiConfig) (a : Afi) (s : Safi) (f : AfiSafiConfig -> AfiSafiConfig) : list AfiSafiConfig :=
  match l with
  | [] => [f (afi_safi_config_new a s)]
  | c :: l => if entry_for a s c then f c :: l else c :: afi_safi_entry_mut l a s f
  end.

(** *** Checks *)
Inductive PeerConfigError :=
  | BothClients
  | RsClientReceivesAddPath
  | LlgrStaleTime (stale_time : Z)
  | LlgrWithoutGracefulRestart
  | DuplicateFamily (a : AfiSafi).
Definition MAX_LLGR_STALE_TIME : Z := 0xFFFFFF.
(** The first entry whose family came before. *)
Fixpoint duplicate_family (seen : gset AfiSafi) (l : list AfiSafiConfig) : option AfiSafi :=
  match l with
  | [] => None
  | entry :: rest =>
      if bool_decide (ac_afi_safi entry ∈ seen) then Some (ac_afi_safi entry)
      else duplicate_family ({[ac_afi_safi entry]} ∪ seen) rest
  end.
Definition llgr_error (cfg : PeerConfig) : option PeerConfigError :=
  match cp_llgr cfg with
  | None => None
  | Some llgr =>
      if match llc_stale_time llgr with Some t => MAX_LLGR_STALE_TIME <? t | None => false end then LlgrStaleTime <$> llc_stale_time llgr
      else if llc_enabled llgr && negb (grc_enabled (cp_graceful_restart cfg)) then Some LlgrWithoutGracefulRestart
      else None
  end.
(** [PeerConfig::validate]: the error, if there is one. *)
Definition validate_peer_config (cfg : PeerConfig) : option PeerConfigError :=
  if cp_rr_client cfg && cp_rs_client cfg then Some BothClients
  else if cp_rs_client cfg && cp_add_path_receive cfg then Some RsClientReceivesAddPath
  else match llgr_error cfg with
       | Some e => Some e
       | None => DuplicateFamily <$> duplicate_family ∅ (cp_afi_safis cfg)
       end.

(** ** Stations, caches, sets *)
Record BmpConfig := mkBmpConfig { bc_address : Str; bc_statistics_timeout : option Z }.
Record RpkiCacheConfig := mkRpkiCacheConfig {
  cc_address : Str; cc_preference : Z; cc_transport : TransportType; cc_ssh_username : option Str;
  cc_ssh_private_key_file : option Str; cc_ssh_known_hosts_file : option Str; cc_retry_interval : option Z;
  cc_refresh_interval : option Z; cc_expire_interval : option Z }.

Record PrefixMatchConfig := mkPrefixMatchConfig { pm_prefix : Str; pm_masklength_range : option Str }.
Record PrefixSetConfig := mkPrefixSetConfig { psc_name : Str; psc_prefixes : list PrefixMatchConfig }.
Record NeighborSetConfig := mkNeighborSetConfig { nsc_name : Str; nsc_neighbors : list Str }.
Record AsPathSetConfig := mkAsPathSetConfig { asc_name : Str; asc_patterns : list Str }.
Record CommunitySetConfig := mkCommunitySetConfig { csc_name : Str; csc_communities : list Str }.
Record ExtCommunitySetConfig := mkExtCommunitySetConfig { ecc_name : Str; ecc_ext_communities : list Str }.
Record LargeCommunitySetConfig := mkLargeCommunitySetConfig { lcc_name : Str; lcc_large_communities : list Str }.
Record DefinedSetsConfig := mkDefinedSets {
  ds_prefix_sets : list PrefixSetConfig;
  ds_neighbor_sets : list NeighborSetConfig;
  ds_as_path_sets : list AsPathSetConfig;
  ds_community_sets : list CommunitySetConfig;
  ds_ext_community_sets : list ExtCommunitySetConfig;
  ds_large_community_sets : list LargeCommunitySetConfig;
}.
Definition defined_sets_default : DefinedSetsConfig := mkDefinedSets [] [] [] [] [] [].
Inductive DefinedSetConfig :=
  | DsPrefixSet (c : PrefixSetConfig) | DsNeighborSet (c : NeighborSetConfig) | DsAsPathSet (c : AsPathSetConfig)
  | DsCommunitySet (c : CommunitySetConfig) | DsExtCommunitySet (c : ExtCommunitySetConfig) | DsLargeCommunitySet (c : LargeCommunitySetConfig).
(** [DefinedSetConfig::name] *)
Definition defined_set_name (d : DefinedSetConfig) : Str :=
  match d with
  | DsPrefixSet c => psc_name c | DsNeighborSet c => nsc_name c | DsAsPathSet c => asc_name c
  | DsCommunitySet c => csc_name c | DsExtCommunitySet c => ecc_name c | DsLargeCommunitySet c => lcc_name c
  end.

(** ** Policies *)
Inductive MatchOptionConfig := MoAny | MoAll | MoInvert.
Record MatchSetRefConfig := mkMatchSetRefConfig { mr_set_name : Str; mr_match_option : MatchOptionConfig }.
Inductive RpkiValidationConfig := RcValid | RcInvalid | RcNotFound.
Record ConditionsConfig := mkConditions {
  cd_match_prefix_set : option MatchSetRefConfig;
  cd_match_neighbor_set : option MatchSetRefConfig;
  cd_match_as_path_set : option MatchSetRefConfig;
  cd_match_community_set : option MatchSetRefConfig;
  cd_match_ext_community_set : option MatchSetRefConfig;
  cd_match_large_community_set : option MatchSetRefConfig;
  cd_prefix : option Str;
  cd_neighbor : option Str;
  cd_has_asn : option Z;
  cd_route_type : option Str;
  cd_community : option Str;
  cd_rpki_validation : option RpkiValidationConfig;
  cd_afi_safi : option Str;
  cd_ls_nlri_type : option Str;
  cd_ls_protocol_id : option Str;
  cd_ls_instance_id : option Z;
  cd_ls_node_as : option Z;
  cd_ls_node_router_id : option Str;
}.
Definition conditions_default : ConditionsConfig :=
  mkConditions None None None None None None None None None None None None None None None None None None.
Definition conditions_eta (c : ConditionsConfig) : ConditionsConfig :=
  mkConditions (cd_match_prefix_set c) (cd_match_neighbor_set c) (cd_match_as_path_set c) (cd_match_community_set c)
    (cd_match_ext_community_set c) (cd_match_large_community_set c) (cd_prefix c) (cd_neighbor c) (cd_has_asn c) (cd_route_type c)
    (cd_community c) (cd_rpki_validation c) (cd_afi_safi c) (cd_ls_nlri_type c) (cd_ls_protocol_id c) (cd_ls_instance_id c)
    (cd_ls_node_as c) (cd_ls_node_router_id c).
Definition with_cd_match_prefix_set v c := ltac:(update_field conditions_eta cd_match_prefix_set v c).
Definition with_cd_match_neighbor_set v c := ltac:(update_field conditions_eta cd_match_neighbor_set v c).
Definition with_cd_match_as_path_set v c := ltac:(update_field conditions_eta cd_match_as_path_set v c).
Definition with_cd_match_community_set v c := ltac:(update_field conditions_eta cd_match_community_set v c).
Definition with_cd_match_ext_community_set v c := ltac:(update_field conditions_eta cd_match_ext_community_set v c).
Definition with_cd_match_large_community_set v c := ltac:(update_field conditions_eta cd_match_large_community_set v c).
Definition with_cd_prefix v c := ltac:(update_field conditions_eta cd_prefix v c).
Definition with_cd_neighbor v c := ltac:(update_field conditions_eta cd_neighbor v c).
Definition with_cd_has_asn v c := ltac:(update_field conditions_eta cd_has_asn v c).
Definition with_cd_route_type v c := ltac:(update_field conditions_eta cd_route_type v c).
Definition with_cd_community v c := ltac:(update_field conditions_eta cd_community v c).
Definition with_cd_rpki_validation v c := ltac:(update_field conditions_eta cd_rpki_validation v c).
Definition with_cd_afi_safi v c := ltac:(update_field conditions_eta cd_afi_safi v c).
Definition with_cd_ls_nlri_type v c := ltac:(update_field conditions_eta cd_ls_nlri_type v c).
Definition with_cd_ls_protocol_id v c := ltac:(update_field conditions_eta cd_ls_protocol_id v c).
Definition with_cd_ls_instance_id v c := ltac:(update_field conditions_eta cd_ls_instance_id v c).
Definition with_cd_ls_node_as v c := ltac:(update_field conditions_eta cd_ls_node_as v c).
Definition with_cd_ls_node_router_id v c := ltac:(update_field conditions_eta cd_ls_node_router_id v c).

Inductive LocalPrefActionConfig := LpSet (v : Z) | LpForce (value : Z) (force : bool).
Inductive MedActionConfig := MaSet (v : Z) | MaRemove (remove : bool).
Record CommunityActionConfig := mkCommunityAction { ca_operation : Str; ca_communities : list Str }.
Record ExtCommunityActionConfig := mkExtCommunityAction { ea_operation : Str; ea_ext_communities : list Str }.
Record LargeCommunityActionConfig := mkLargeCommunityAction { la_operation : Str; la_large_communities : list Str }.
Record ActionsConfig := mkActions {
  ax_accept : option bool;
  ax_reject : option bool;
  ax_local_pref : option LocalPrefActionConfig;
  ax_med : option MedActionConfig;
  ax_community : option CommunityActionConfig;
  ax_ext_community : option ExtCommunityActionConfig;
  ax_large_community : option LargeCommunityActionConfig;
  ax_set_rpki_state : option RpkiValidationConfig;
}.
Definition actions_default : ActionsConfig :=
  mkActions None None None None None None None None.
Definition actions_eta (c : ActionsConfig) : ActionsConfig :=
  mkActions (ax_accept c) (ax_reject c) (ax_local_pref c) (ax_med c) (ax_community c) (ax_ext_community c) (ax_large_community c)
    (ax_set_rpki_state c).
Definition with_ax_accept v c := ltac:(update_field actions_eta ax_accept v c).
Definition with_ax_reject v c := ltac:(update_field actions_eta ax_reject v c).
Definition with_ax_local_pref v c := ltac:(update_field actions_eta ax_local_pref v c).
Definition with_ax_med v c := ltac:(update_field actions_eta ax_med v c).
Definition with_ax_community v c := ltac:(update_field actions_eta ax_community v c).
Definition with_ax_ext_community v c := ltac:(update_field actions_eta ax_ext_community v c).
Definition with_ax_large_community v c := ltac:(update_field actions_eta ax_large_community v c).
Definition with_ax_set_rpki_state v c := ltac:(update_field actions_eta ax_set_rpki_state v c).

Record StatementConfig := mkStatementConfig { st_name : option Str; st_conditions : ConditionsConfig; st_actions : ActionsConfig }.
Record PolicyDefinitionConfig := mkPolicyDefinition { pd_name : Str; pd_statements : list StatementConfig }.

(** ** The daemon *)
Record BgpLsConfig := mkBgpLsConfig { lsc_max_ls_entries : Z; lsc_instance_id : Z }.
Definition bgp_ls_default : BgpLsConfig := mkBgpLsConfig 0 0.
Inductive TelemetrySink := TsJson | TsCloudwatchEmf (namespace : Str).
Record PrometheusConfig := mkPrometheusConfig { prc_listen : Str }.
Record TelemetryConfig := mkTelemetryConfig { tc_sink : option TelemetrySink; tc_prometheus : option PrometheusConfig }.
Definition default_prometheus_listen : Str := str "127.0.0.1:9273".

Record BgpConfig := mkBgpConfig {
  cf_asn : Z;
  cf_listen_addr : Str;
  cf_router_id : Z;
  cf_grpc_listen_addr : Str;
  cf_hold_time_secs : Z;
  cf_connect_retry_secs : Z;
  cf_peers : list PeerConfig;
  cf_bmp_servers : list BmpConfig;
  cf_rpki_caches : list RpkiCacheConfig;
  cf_sys_name : option Str;
  cf_sys_descr : option Str;
  cf_log_level : Str;
  cf_defined_sets : DefinedSetsConfig;
  cf_policy_definitions : list PolicyDefinitionConfig;
  cf_cluster_id : option Z;
  cf_llgr : option LlgrConfig;
  cf_enhanced_rr_stale_ttl : option Z;
  cf_bgp_ls : BgpLsConfig;
  cf_originate : list OriginateRoute;
  cf_telemetry : option TelemetryConfig;
}.

Definition default_listen_addr : Str := str "0.0.0.0:179".
Definition default_grpc_listen_addr : Str := str "127.0.0.1:50051".
Definition default_hold_time : Z := 180.
Definition default_connect_retry_time : Z := 30.
Definition default_log_level : Str := str "info".
(** [BgpConfig::default] *)
Definition bgp_config_default : BgpConfig :=
  mkBgpConfig 65000 default_listen_addr 0x01010101 default_grpc_listen_addr default_hold_time default_connect_retry_time [] [] []
    None None default_log_level defined_sets_default [] None None default_enhanced_rr_stale_ttl bgp_ls_default [] None.
Definition bgp_config_eta (c : BgpConfig) : BgpConfig :=
  mkBgpConfig (cf_asn c) (cf_listen_addr c) (cf_router_id c) (cf_grpc_listen_addr c) (cf_hold_time_secs c) (cf_connect_retry_secs
    c) (cf_peers c) (cf_bmp_servers c) (cf_rpki_caches c) (cf_sys_name c) (cf_sys_descr c) (cf_log_level c) (cf_defined_sets c)
    (cf_policy_definitions c) (cf_cluster_id c) (cf_llgr c) (cf_enhanced_rr_stale_ttl c) (cf_bgp_ls c) (cf_originate c)
    (cf_telemetry c).
Definition with_cf_asn v c := ltac:(update_field bgp_config_eta cf_asn v c).
Definition with_cf_listen_addr v c := ltac:(update_field bgp_config_eta cf_listen_addr v c).
Definition with_cf_router_id v c := ltac:(update_field bgp_config_eta cf_router_id v c).
Definition with_cf_grpc_listen_addr v c := ltac:(update_field bgp_config_eta cf_grpc_listen_addr v c).
Definition with_cf_hold_time_secs v c := ltac:(update_field bgp_config_eta cf_hold_time_secs v c).
Definition with_cf_connect_retry_secs v c := ltac:(update_field bgp_config_eta cf_connect_retry_secs v c).
Definition with_cf_peers v c := ltac:(update_field bgp_config_eta cf_peers v c).
Definition with_cf_bmp_servers v c := ltac:(update_field bgp_config_eta cf_bmp_servers v c).
Definition with_cf_rpki_caches v c := ltac:(update_field bgp_config_eta cf_rpki_caches v c).
Definition with_cf_sys_name v c := ltac:(update_field bgp_config_eta cf_sys_name v c).
Definition with_cf_sys_descr v c := ltac:(update_field bgp_config_eta cf_sys_descr v c).
Definition with_cf_log_level v c := ltac:(update_field bgp_config_eta cf_log_level v c).
Definition with_cf_defined_sets v c := ltac:(update_field bgp_config_eta cf_defined_sets v c).
Definition with_cf_policy_definitions v c := ltac:(update_field bgp_config_eta cf_policy_definitions v c).
Definition with_cf_cluster_id v c := ltac:(update_field bgp_config_eta cf_cluster_id v c).
Definition with_cf_llgr v c := ltac:(update_field bgp_config_eta cf_llgr v c).
Definition with_cf_enhanced_rr_stale_ttl v c := ltac:(update_field bgp_config_eta cf_enhanced_rr_stale_ttl v c).
Definition with_cf_bgp_ls v c := ltac:(update_field bgp_config_eta cf_bgp_ls v c).
Definition with_cf_originate v c := ltac:(update_field bgp_config_eta cf_originate v c).
Definition with_cf_telemetry v c := ltac:(update_field bgp_config_eta cf_telemetry v c).

(** [BgpConfig::new] *)
Definition bgp_config_new (asn : Z) (listen_addr : Str) (router_id hold_time_secs : Z) : BgpConfig :=
  mkBgpConfig asn listen_addr router_id default_grpc_listen_addr hold_time_secs default_connect_retry_time [] [] [] None None
    default_log_level defined_sets_default [] None None default_enhanced_rr_stale_ttl bgp_ls_default [] None.
(** [BgpConfig::cluster_id], [sys_name], [sys_descr] with the crate's version, [with_telemetry] *)
Definition effective_cluster_id (c : BgpConfig) : Z := default (cf_router_id c) (cf_cluster_id c).
Definition effective_sys_name (c : BgpConfig) : Str := default (str "bgpgg " ++ show_ipv4 (cf_router_id c)) (cf_sys_name c).
Definition effective_sys_descr (version : Str) (c : BgpConfig) : Str := default (str "bgpgg version " ++ version) (cf_sys_descr c).
Definition with_telemetry_config (telemetry : TelemetryConfig) (c : BgpConfig) : BgpConfig := with_cf_telemetry (Some telemetry) c.

(** [find_peer], [find_peer_mut] followed by a change of the entry, and [remove_peer] *)
Definition find_peer (c : BgpConfig) (ip : IpAddr) : option PeerConfig := find (fun p => bool_decide (cp_ip p = Some ip)) (cf_peers c).
Fixpoint update_first (ip : IpAddr) (f : PeerConfig -> PeerConfig) (l : list PeerConfig) : list PeerConfig :=
  match l with
  | [] => []
  | cfg :: rest => if bool_decide (cp_ip cfg = Some ip) then f cfg :: rest else cfg :: update_first ip f rest
  end.
Fixpoint remove_first (ip : IpAddr) (l : list PeerConfig) : list PeerConfig :=
  match l with
  | [] => []
  | cfg :: rest => if bool_decide (cp_ip cfg = Some ip) then rest else cfg :: remove_first ip rest
  end.
