(* ===== verification/Policy.v ===== *)
(** * Routing policies ([bgpgg/src/policy/statement.rs],
    [bgpgg/src/policy/mod.rs], [bgpgg/src/policy/sets.rs])

    Conditions, actions, statements and policies as they are evaluated against
    a route.  [is_match] is the regular-expression matcher of the [regex]
    crate, on the text of a pattern.  [None] is a panic: the shift of
    [IpNetwork::contains] on a set entry of length 0, with overflow checks.
    Building policies from the configuration is in [PolicyConf]. *)
From S2P Require Import Prelude Net Vrp Nlri BgpLs Attrs Text LangBgp LangBgpParse OpenMsg Path PeerCaps Conf.

(** ** Sets *)
Record PrefixMatch := mkPrefixMatch { pm_network : IpNetwork; pm_min_len : Z; pm_max_len : Z }.
Record PrefixSet := mkPrefixSet { prefix_set_name : Str; prefixes : list PrefixMatch }.
Record NeighborSet := mkNeighborSet { neighbor_set_name : Str; neighbors : list IpAddr }.
Record AsPathSet := mkAsPathSet { as_path_set_name : Str; patterns : list Str }.
Record CommunitySet := mkCommunitySet { community_set_name : Str; set_communities : list Z }.
Record ExtCommunitySet := mkExtCommunitySet { ext_community_set_name : Str; set_ext_communities : list Z }.
Record LargeCommunitySet := mkLargeCommunitySet { large_community_set_name : Str; set_large_communities : list LargeCommunity }.

(** [iter().any(..)] and [iter().all(..)], on predicates that can panic. *)
Fixpoint any_opt {A} (f : A -> option bool) (l : list A) : option bool :=
  match l with
  | [] => Some false
  | x :: rest => match f x with Some true => Some true | Some false => any_opt f rest | None => None end
  end.
Fixpoint all_opt {A} (f : A -> option bool) (l : list A) : option bool :=
  match l with
  | [] => Some true
  | x :: rest => match f x with Some true => all_opt f rest | Some false => Some false | None => None end
  end.

(** [PrefixMatch::contains]; [checks] as in [network_contains]. *)
Definition pm_contains (checks : bool) (pm : PrefixMatch) (prefix : IpNetwork) : option bool :=
  let prefix_len := network_prefix_len prefix in
  if (prefix_len <? pm_min_len pm) || (pm_max_len pm <? prefix_len) then Some false
  else network_contains checks (pm_network pm) prefix.

Definition match_opt {A} (opt : MatchOptionConfig) (f : A -> option bool) (l : list A) : option bool :=
  match opt with MoAny => any_opt f l | MoAll => all_opt f l | MoInvert => negb <$> any_opt f l end.

(** ** Conditions *)
Inductive RouteType := RtEbgp | RtIbgp | RtLocal.
Inductive AfiSafiMatch := Ipv4Unicast | Ipv6Unicast | MatchBgpLs.
Inductive LsNlriTypeMatch := MNode | MLink | MPrefixV4 | MPrefixV6.

(** [LsProtocolIdMatch] has the constructors of [LsProtocolId]. *)
Inductive Condition :=
  | CPrefix (p : IpNetwork)
  | CPrefixSet (set : PrefixSet) (opt : MatchOptionConfig)
  | CNeighbor (ip : IpAddr)
  | CNeighborSet (set : NeighborSet) (opt : MatchOptionConfig)
  | CAsPath (asn : Z)
  | CAsPathSet (set : AsPathSet) (opt : MatchOptionConfig)
  | CCommunity (community : Z)
  | CCommunitySet (set : CommunitySet) (opt : MatchOptionConfig)
  | CExtCommunitySet (set : ExtCommunitySet) (opt : MatchOptionConfig)
  | CLargeCommunitySet (set : LargeCommunitySet) (opt : MatchOptionConfig)
  | CRouteType (t : RouteType)
  | CRpkiValidation (state : RpkiValidation)
  | CAfiSafi (m : AfiSafiMatch)
  | CLsNlriType (m : LsNlriTypeMatch)
  | CLsProtocolId (m : LsProtocolId)
  | CLsInstanceId (id : Z)
  | CLsNodeAs (asn : Z)
  | CLsNodeRouterId (ip : IpAddr).

Definition mem {A} `{EqDecision A} (x : A) (l : list A) : bool := bool_decide (x ∈ l).

Definition path_asns (path : Path) : list Z := concat (map asn_list (pa_as_path (attrs path))).

(** The AS numbers in decimal, joined by underscores. *)
Fixpoint join (sep : Str) (l : list Str) : Str := match l with [] => [] | [s] => s | s :: l => s ++ sep ++ join sep l end.
Definition as_path_str (path : Path) : Str := join (str "_") (map dec (path_asns path)).

(** The match options on the values a path carries: the set is looked up for
    each of them. *)
Definition values_match {A} `{EqDecision A} (opt : MatchOptionConfig) (values set : list A) : bool :=
  match opt with
  | MoAny => existsb (fun c => mem c set) values
  | MoAll => forallb (fun c => mem c set) values
  | MoInvert => negb (existsb (fun c => mem c set) values)
  end.

Definition ls_body (key : RouteKey) : option LsNlriBody :=
  match key with KLinkState ls => nlri_body ls | KPrefix _ => None end.

Definition body_protocol (body : LsNlriBody) : option LsProtocolId := protocol_from_u8 (body_protocol_id body).

#[export] Instance LsProtocolId_eq_dec : EqDecision LsProtocolId.
Proof. solve_decision. Defined.

Definition ls_nlri_type_is (m : LsNlriTypeMatch) (nlri_type : Z) : bool :=
  nlri_type =? match m with MNode => 1 | MLink => 2 | MPrefixV4 => 3 | MPrefixV6 => 4 end.

Section matching.
Variable is_match : Str -> Str -> bool.
Variable checks : bool.

Definition condition_matches (c : Condition) (route_key : RouteKey) (path : Path) : option bool :=
  let a := attrs path in
  match c with
  | CPrefix p => match route_key with KPrefix prefix => Some (bool_decide (prefix = p)) | KLinkState _ => Some false end
  | CPrefixSet set opt =>
      match route_key with
      | KPrefix prefix => match_opt opt (fun pm => pm_contains checks pm prefix) (prefixes set)
      | KLinkState _ => Some false
      end
  | CNeighbor neighbor =>
      Some (match source_peer_ip (pa_source a) with Some ip => bool_decide (ip = neighbor) | None => false end)
  | CNeighborSet set opt =>
      Some (match source_peer_ip (pa_source a) with
            | None => false
            | Some peer_ip =>
                match opt with
                | MoAny => mem peer_ip (neighbors set)
                | MoAll => forallb (fun n => bool_decide (n = peer_ip)) (neighbors set)
                | MoInvert => negb (mem peer_ip (neighbors set))
                end
            end)
  | CAsPath asn => Some (mem asn (path_asns path))
  | CAsPathSet set opt => match_opt opt (fun r => Some (is_match r (as_path_str path))) (patterns set)
  | CCommunity community => Some (mem community (pa_communities a))
  | CCommunitySet set opt => Some (values_match opt (pa_communities a) (set_communities set))
  | CExtCommunitySet set opt => Some (values_match opt (pa_extended_communities a) (set_ext_communities set))
  | CLargeCommunitySet set opt => Some (values_match opt (pa_large_communities a) (set_large_communities set))
  | CRouteType route_type =>
      Some (match route_type, pa_source a with
            | RtEbgp, Ebgp _ _ | RtIbgp, Ibgp _ _ _ | RtLocal, Local => true
            | _, _ => false
            end)
  | CRpkiValidation state => Some (bool_decide (rpki_state path = state))
  | CAfiSafi m =>
      let route_afi_safi := key_afi_safi route_key in
      Some (match m with
            | Ipv4Unicast => bool_decide (route_afi_safi = mkAfiSafi Afi_Ipv4 Unicast)
            | Ipv6Unicast => bool_decide (route_afi_safi = mkAfiSafi Afi_Ipv6 Unicast)
            | MatchBgpLs => bool_decide (route_afi_safi = mkAfiSafi Afi_LinkState Safi_LinkState) ||
                bool_decide (route_afi_safi = mkAfiSafi Afi_LinkState LinkStateVpn)
            end)
  | CLsNlriType m =>
      Some (match route_key with KLinkState ls => ls_nlri_type_is m (nlri_type ls) | KPrefix _ => false end)
  | CLsProtocolId expected =>
      Some (match ls_body route_key with Some body => bool_decide (body_protocol body = Some expected) | None => false end)
  | CLsInstanceId id => Some (match ls_body route_key with Some body => body_identifier body =? id | None => false end)
  | CLsNodeAs asn =>
      Some (match ls_body route_key with
            | Some body => bool_decide (as_number (local_node (body_descriptors body)) = Some asn)
            | None => false
            end)
  | CLsNodeRouterId ip =>
      Some (match ls_body route_key with
            | Some body =>
                match igp_router_id (local_node (body_descriptors body)) with
                | Some rid =>
                    match ip with
                    | IpV4 v4 => bool_decide (rid = be_bytes 4 v4)
                    | IpV6 v6 => bool_decide (rid = be_bytes 16 v6)
                    end
                | None => false
                end
            | None => false
            end)
  end.

(** ** Actions *)
Inductive CommunityOp (A : Type) := OpAdd (l : list A) | OpRemove (l : list A) | OpReplace (l : list A).
Arguments OpAdd {A} l.
Arguments OpRemove {A} l.
Arguments OpReplace {A} l.

Inductive Action :=
  | AAccept
  | AReject
  | ASetLocalPref (value : Z) (force : bool)
  | ASetMed (value : option Z)
  | ASetCommunity (op : CommunityOp Z)
  | ASetExtCommunity (op : CommunityOp Z)
  | ASetLargeCommunity (op : CommunityOp LargeCommunity)
  | ASetRpkiState (state : RpkiValidation).

Definition push_new {A} `{EqDecision A} (l : list A) (x : A) : list A := if mem x l then l else l ++ [x].

Definition apply_op {A} `{EqDecision A} (op : CommunityOp A) (l : list A) : list A :=
  match op with
  | OpAdd to_add => foldl push_new l to_add
  | OpRemove to_remove => filter (fun c => mem c to_remove = false) l
  | OpReplace new => new
  end.

Definition with_local_pref (v : option Z) (a : PathAttrs) : PathAttrs :=
  mkAttrs (pa_origin a) (pa_as_path a) (pa_next_hop a) (pa_source a) v (pa_med a) (pa_atomic_aggregate a)
    (pa_aggregator a) (pa_communities a) (pa_extended_communities a) (pa_large_communities a) (pa_unknown_attrs a)
    (pa_originator_id a) (pa_cluster_list a) (pa_ls_attr a).
Definition with_med (v : option Z) (a : PathAttrs) : PathAttrs :=
  mkAttrs (pa_origin a) (pa_as_path a) (pa_next_hop a) (pa_source a) (pa_local_pref a) v (pa_atomic_aggregate a)
    (pa_aggregator a) (pa_communities a) (pa_extended_communities a) (pa_large_communities a) (pa_unknown_attrs a)
    (pa_originator_id a) (pa_cluster_list a) (pa_ls_attr a).
Definition with_communities (c : list Z) (e : list Z) (l : list LargeCommunity) (a : PathAttrs) : PathAttrs :=
  mkAttrs (pa_origin a) (pa_as_path a) (pa_next_hop a) (pa_source a) (pa_local_pref a) (pa_med a) (pa_atomic_aggregate a)
    (pa_aggregator a) c e l (pa_unknown_attrs a) (pa_originator_id a) (pa_cluster_list a) (pa_ls_attr a).

Definition action_apply (action : Action) (path : Path) : bool * Path :=
  let a := attrs path in
  match action with
  | AAccept => (true, path)
  | AReject => (false, path)
  | ASetLocalPref value force =>
      (true, if force || bool_decide (pa_local_pref a = None) then set_attrs (with_local_pref (Some value) a) path else path)
  | ASetMed value => (true, set_attrs (with_med value a) path)
  | ASetCommunity op =>
      (true, set_attrs (with_communities (apply_op op (pa_communities a)) (pa_extended_communities a) (pa_large_communities a) a) path)
  | ASetExtCommunity op =>
      (true, set_attrs (with_communities (pa_communities a) (apply_op op (pa_extended_communities a)) (pa_large_communities a) a) path)
  | ASetLargeCommunity op =>
      (true, set_attrs (with_communities (pa_communities a) (pa_extended_communities a) (apply_op op (pa_large_communities a)) a) path)
  | ASetRpkiState state => (true, set_rpki_state state path)
  end.

(** ** Statements and policies *)
Record Statement := mkStatement { conditions : list Condition; actions : list Action }.

Definition statement_new : Statement := mkStatement [] [].
Definition when (s : Statement) (c : Condition) : Statement := mkStatement (conditions s ++ [c]) (actions s).
Definition then_ (s : Statement) (a : Action) : Statement := mkStatement (conditions s) (actions s ++ [a]).

Definition statement_matches (s : Statement) (route_key : RouteKey) (path : Path) : option bool :=
  if bool_decide (conditions s = [])%list then Some true else all_opt (fun c => condition_matches c route_key path) (conditions s).

Fixpoint apply_actions (l : list Action) (accept : bool) (path : Path) : bool * Path :=
  match l with
  | [] => (accept, path)
  | action :: rest =>
      let '(ok, path) := action_apply action path in
      apply_actions rest (if ok then accept else false) path
  end.

(** The verdict, if the statement matches, and the path. *)
Definition statement_apply (s : Statement) (route_key : RouteKey) (path : Path) : option (option bool * Path) :=
  matched ← statement_matches s route_key path;
  match matched with
  | true => let '(accept, path) := apply_actions (actions s) true path in Some (Some accept, path)
  | false => Some (None, path)
  end.

Inductive PolicyResult := Accept | Reject | Continue.
Record Policy := mkPolicy { policy_name : Str; statements : list Statement }.

Definition DEFAULT_PERMIT_ALL : Str := str "default-permit-all".
Definition DEFAULT_DENY_ALL : Str := str "default-deny-all".

Definition policy_new (name : Str) : Policy := mkPolicy name [].
Definition with_ (p : Policy) (s : Statement) : Policy := mkPolicy (policy_name p) (statements p ++ [s]).
Definition permit_all : Policy := with_ (policy_new DEFAULT_PERMIT_ALL) (then_ statement_new AAccept).
Definition deny_all : Policy := with_ (policy_new DEFAULT_DENY_ALL) (then_ statement_new AReject).
Definition is_reserved_name (name : Str) : bool :=
  bool_decide (name = DEFAULT_PERMIT_ALL) || bool_decide (name = DEFAULT_DENY_ALL).

Fixpoint evaluate_statements (l : list Statement) (route_key : RouteKey) (path : Path) : option (PolicyResult * Path) :=
  match l with
  | [] => Some (Continue, path)
  | s :: rest =>
      match statement_apply s route_key path with
      | Some (Some accept, path) => Some (if accept then Accept else Reject, path)
      | Some (None, path) => evaluate_statements rest route_key path
      | None => None
      end
  end.

Definition evaluate (p : Policy) (route_key : RouteKey) (path : Path) : option (PolicyResult * Path) :=
  evaluate_statements (statements p) route_key path.

(** [Policy::accept] *)
Definition policy_accept (p : Policy) (route_key : RouteKey) (path : Path) : option (bool * Path) :=
  '(result, path) ← evaluate p route_key path;
  Some (match result with Accept => true | _ => false end, path).

(** [evaluate_export_policy] of [peer/outgoing.rs]: the first policy with a
    verdict decides, and a route no policy decides on is rejected. *)
Fixpoint evaluate_policies (policies : list Policy) (route_key : RouteKey) (path : Path) : option (bool * Path) :=
  match policies with
  | [] => Some (false, path)
  | p :: rest =>
      '(result, path) ← evaluate p route_key path;
      match result with
      | Accept => Some (true, path)
      | Reject => Some (false, path)
      | Continue => evaluate_policies rest route_key path
      end
  end.
End matching.
Arguments OpAdd {A} l.
Arguments OpRemove {A} l.
Arguments OpReplace {A} l.

(** ** Evaluation *)
Section evaluation.
Variable is_match : Str -> Str -> bool.
Variable checks : bool.

(** The attributes a policy cannot change. *)
Definition fixed_attrs (a : PathAttrs) :=
  (pa_origin a, pa_as_path a, pa_next_hop a, pa_source a, pa_atomic_aggregate a, pa_aggregator a, pa_unknown_attrs a,
   pa_originator_id a, pa_cluster_list a, pa_ls_attr a).
Definition fixed_part (p : Path) := (fixed_attrs (attrs p), local_path_id p, remote_path_id p, stale p).

Lemma action_fixed action path : fixed_part (action_apply action path).2 = fixed_part path.
Proof. destruct action; cbn; try reflexivity. by destruct (_ || _). Qed.

Lemma actions_fixed l : forall accept path, fixed_part (apply_actions l accept path).2 = fixed_part path.
Proof.
  induction l as [|a l IH]; intros accept path; [done|]. cbn [apply_actions]. pose proof (action_fixed a path) as Ha.
  destruct (action_apply a path) as [ok path']. rewrite IH. exact Ha.
Qed.

(** The verdict of a list of actions: acceptance, unless one of them rejects. *)
Lemma actions_verdict l : forall accept path,
  (apply_actions l accept path).1 = accept && negb (existsb (fun a => match a with AReject => true | _ => false end) l).
Proof.
  induction l as [|a l IH]; intros accept path; [by rewrite andb_true_r|]. cbn [apply_actions existsb].
  destruct (action_apply a path) as [ok path'] eqn:E. rewrite IH.
  assert (ok = negb match a with AReject => true | _ => false end) as ->
    by (destruct a; by injection E as <- <-).
  destruct accept, a; cbn; done.
Qed.

Definition all_statements (policies : list Policy) : list Statement := concat (map statements policies).

(** The statements of a list of policies, as one list. *)
Fixpoint first_match (l : list Statement) (route_key : RouteKey) (path : Path) : option (bool * Path) :=
  match l with
  | [] => Some (false, path)
  | s :: rest =>
      match statement_matches is_match checks s route_key path with
      | Some true => Some (apply_actions (actions s) true path)
      | Some false => first_match rest route_key path
      | None => None
      end
  end.

Lemma statement_apply_eq s route_key path :
  statement_apply is_match checks s route_key path =
    match statement_matches is_match checks s route_key path with
    | Some true => Some (Some (apply_actions (actions s) true path).1, (apply_actions (actions s) true path).2)
    | Some false => Some (None, path)
    | None => None
    end.
Proof.
  unfold statement_apply. destruct (statement_matches _ _ _ _ _) as [[]|]; [|done..]. cbn [mbind option_bind].
  by destruct (apply_actions _ _ _).
Qed.

Lemma evaluate_first_match l rest route_key path :
  first_match (l ++ rest) route_key path =
    match evaluate_statements is_match checks l route_key path with
    | Some (Accept, path) => Some (true, path)
    | Some (Reject, path) => Some (false, path)
    | Some (Continue, path) => first_match rest route_key path
    | None => None
    end.
Proof.
  induction l as [|s l IH]; [done|]. cbn [app first_match evaluate_statements]. rewrite statement_apply_eq.
  destruct (statement_matches _ _ _ _ _) as [[]|]; [|exact IH|done].
  destruct (apply_actions (actions s) true path) as [[] path']; done.
Qed.

Lemma evaluate_continue l route_key path path' :
  evaluate_statements is_match checks l route_key path = Some (Continue, path') -> path' = path.
Proof.
  induction l as [|s l IH]; [by intros [= <-]|]. cbn [evaluate_statements]. rewrite statement_apply_eq.
  destruct (statement_matches _ _ _ _ _) as [[]|]; [|exact IH|done].
  destruct (apply_actions _ _ _) as [[] ?]; done.
Qed.

Lemma evaluate_policies_eq policies route_key path :
  evaluate_policies is_match checks policies route_key path = first_match (all_statements policies) route_key path.
Proof.
  induction policies as [|p policies IH]; [done|]. unfold all_statements. cbn [map concat evaluate_policies].
  rewrite evaluate_first_match. unfold evaluate.
  destruct (evaluate_statements _ _ _ _ _) as [[[] path']|] eqn:E; cbn [mbind option_bind]; try done.
  by apply evaluate_continue in E as ->.
Qed.

Lemma first_match_spec l route_key path accept path' :
  first_match l route_key path = Some (accept, path') <->
  (exists pre s post, l = pre ++ s :: post /\
     Forall (fun s => statement_matches is_match checks s route_key path = Some false) pre /\
     statement_matches is_match checks s route_key path = Some true /\
     apply_actions (actions s) true path = (accept, path')) \/
  (Forall (fun s => statement_matches is_match checks s route_key path = Some false) l /\ accept = false /\ path' = path).
Proof.
  induction l as [|s l IH]; cbn [first_match].
  - split; [intros [= <- <-]; by right|]. intros [(pre & s & post & E & _)|(_ & -> & ->)]; [by destruct pre|done].
  - destruct (statement_matches is_match checks s route_key path) as [[]|] eqn:Es.
    + split.
      * intros [= E]. left. exists [], s, l. by split; [|split].
      * intros [([|t pre] & u & post & [= -> ->] & Hpre & Hu & Ha)|(Hf & _)].
        -- by rewrite Ha.
        -- apply Forall_cons in Hpre as [Ht _]. congruence.
        -- apply Forall_cons in Hf as [Hs _]. congruence.
    + rewrite IH. split.
      * intros [(pre & u & post & -> & Hpre & Hu)|(Hf & He)].
        -- left. exists (s :: pre), u, post. split; [done|]. split; [by constructor|done].
        -- right. split; [by constructor|done].
      * intros [([|t pre] & u & post & [= -> ->] & Hpre & Hu & Ha)|(Hf & He)].
        -- congruence.
        -- left. exists pre, u, post. apply Forall_cons in Hpre as [_ Hpre]. done.
        -- right. by apply Forall_cons in Hf as [_ Hf].
    + split; [done|].
      intros [([|t pre] & u & post & [= -> ->] & Hpre & Hu & Ha)|(Hf & _)].
      * congruence.
      * apply Forall_cons in Hpre as [Ht _]. congruence.
      * apply Forall_cons in Hf as [Hs _]. congruence.
Qed.
End evaluation.

(** ** Community sets *)
Section sets.
Context {A : Type} `{EqDecision A}.

Lemma mem_true (x : A) l : mem x l = true <-> x ∈ l.
Proof. apply bool_decide_eq_true. Qed.
Lemma mem_false (x : A) l : mem x l = false <-> x ∉ l.
Proof. apply bool_decide_eq_false. Qed.

Lemma push_new_elem (l : list A) x y : y ∈ push_new l x <-> y ∈ l \/ y = x.
Proof.
  unfold push_new. destruct (mem x l) eqn:E.
  - apply mem_true in E. split; [auto|]. by intros [?| ->].
  - rewrite elem_of_app, list_elem_of_singleton. done.
Qed.

Lemma push_new_nodup (l : list A) x : NoDup l -> NoDup (push_new l x).
Proof.
  intros Hl. unfold push_new. destruct (mem x l) eqn:E; [done|]. apply mem_false in E.
  apply NoDup_app. split; [done|]. split; [|apply NoDup_singleton]. by intros y Hy ->%list_elem_of_singleton.
Qed.

Lemma push_all_elem (add : list A) : forall l y, y ∈ foldl push_new l add <-> y ∈ l \/ y ∈ add.
Proof.
  induction add as [|x add IH]; intros l y; cbn [foldl]; [rewrite elem_of_nil; tauto|].
  rewrite IH, push_new_elem, elem_of_cons. tauto.
Qed.

Lemma push_all_nodup (add : list A) : forall l, NoDup l -> NoDup (foldl push_new l add).
Proof. induction add as [|x add IH]; intros l Hl; [done|]. cbn [foldl]. by apply IH, push_new_nodup. Qed.
End sets.

(** ** Properties *)

(** C40. Policies are evaluated first match first: the first statement, in the
    order of the policies and of their statements, whose conditions all hold
    of the route as it came in decides, with its own actions only; a route
    that no statement matches is rejected unchanged (RFC 8212). *)
Theorem policies_first_match is_match checks (policies : list Policy) route_key path accept path' :
  evaluate_policies is_match checks policies route_key path = Some (accept, path') <->
  (exists pre s post, all_statements policies = pre ++ s :: post /\
     Forall (fun s => statement_matches is_match checks s route_key path = Some false) pre /\
     statement_matches is_match checks s route_key path = Some true /\
     apply_actions (actions s) true path = (accept, path')) \/
  (Forall (fun s => statement_matches is_match checks s route_key path = Some false) (all_statements policies) /\
   accept = false /\ path' = path).
Proof. rewrite evaluate_policies_eq. apply first_match_spec. Qed.

(** A policy changes at most the preferences, the communities and the
    validation state of a path: the origin, AS path, next hop, source,
    aggregator, reflection and unknown attributes, the identifiers and the
    stale mark stay. *)
Theorem policies_frame is_match checks (policies : list Policy) route_key path accept path' :
  evaluate_policies is_match checks policies route_key path = Some (accept, path') -> fixed_part path' = fixed_part path.
Proof.
  rewrite evaluate_policies_eq. intros [(pre & s & post & _ & _ & _ & Ha)|(_ & _ & ->)]%first_match_spec; [|done].
  pose proof (actions_fixed (actions s) true path) as Hf. by rewrite Ha in Hf.
Qed.

(** The community operations are those of sets: adding is the union,
    without duplicates if there were none, removing the difference, replacing
    the new list. *)
Theorem community_ops_are_sets {A} `{EqDecision A} (op : CommunityOp A) (l : list A) :
  (forall x, x ∈ apply_op op l <->
     match op with OpAdd add => x ∈ l \/ x ∈ add | OpRemove remove => x ∈ l /\ x ∉ remove | OpReplace new => x ∈ new end) /\
  (NoDup l -> match op with OpReplace _ => True | _ => NoDup (apply_op op l) end).
Proof.
  split.
  - intros x. destruct op as [add|remove|new]; cbn [apply_op]; [apply push_all_elem| |done].
    rewrite list_elem_of_filter, mem_false. tauto.
  - intros Hl. destruct op as [add|remove|new]; cbn [apply_op]; [by apply push_all_nodup|by apply NoDup_filter|done].
Qed.

(** The match option [all] on communities asks that every community of
    the route be in the set, not every member of the set on the route: a route
    with all the members and one more community does not match, and a route
    without communities does. *)
Theorem match_all_is_subset (values set : list Z) :
  (values_match MoAll values set = true <-> values ⊆ set) /\
  values_match MoAll [] set = true /\
  (forall c, c ∉ set -> values_match MoAll (c :: set) set = false).
Proof.
  split; [|split; [done|]].
  - unfold values_match. rewrite forallb_forall. split.
    + intros Hf x Hx. apply mem_true, Hf. by apply list_elem_of_In.
    + intros Hs x Hx. apply mem_true, Hs. by apply list_elem_of_In.
  - intros c Hc. unfold values_match. cbn [forallb]. by apply mem_false in Hc as ->.
Qed.

(** ** Witnesses *)
Definition demo_policy : Policy :=
  mkPolicy (str "demo") [mkStatement [CCommunity 7] [AReject]; mkStatement [CAsPath 65001] [ASetLocalPref 200 true; AAccept]].

Definition demo_received : Path := demo_path [65001; 65002] None 9.

Lemma policies_frame_witness :
  exists path', evaluate_policies (fun _ _ => false) true [demo_policy] (KPrefix (V4 (mkV4 0x0A000000 8))) demo_received = Some (true, path') /\
    pa_local_pref (attrs path') = Some 200 /\ fixed_part path' = fixed_part demo_received.
Proof.
  eexists. split; [reflexivity|]. split; [reflexivity|].
  apply (policies_frame (fun _ _ => false) true [demo_policy] (KPrefix (V4 (mkV4 0x0A000000 8))) demo_received true). reflexivity.
Defined.

Lemma community_ops_are_sets_witness : NoDup (apply_op (OpAdd [2; 3; 2]) [1; 2]).
Proof. apply (community_ops_are_sets (OpAdd [2; 3; 2]) [1; 2]). by apply (bool_decide_unpack _). Defined.

Lemma match_all_is_subset_witness : values_match MoAll [9; 1; 2] [1; 2] = false.
Proof. apply (match_all_is_subset [] [1; 2]). by apply (bool_decide_unpack _). Defined.
