(* ===== verification/PolicyConf.v ===== *)
(** * Policies from the configuration ([policy/sets.rs],
    [policy/statement.rs], [policy/mod.rs])

    Sets and policies are built from their texts when the daemon starts and on
    requests; built statements are turned back into texts to be listed.
    [regex_ok] says which texts [Regex::new] of the [regex] crate accepts; a
    compiled pattern is its text. *)
From S2P Require Import Prelude Net Vrp Nlri BgpLs Attrs Text ExtComm NetText OpenMsg Path PeerCaps LangBgp Conf Policy.

(** ** Results *)
Inductive DefinedSetType := TPrefixSet | TAsPathSet | TCommunitySet | TExtCommunitySet | TLargeCommunitySet | TNeighborSet.
#[export] Instance DefinedSetType_eq_dec : EqDecision DefinedSetType.
Proof. solve_decision. Defined.

Inductive MaskRangeError := BadMinLength (s : Str) | BadMaxLength (s : Str) | MinAboveMax | MinBelowPrefix | MaxTooLong | BadRange (s : Str).
Inductive PolicyError :=
  | PePrefix (s : Str) (e : NetError)
  | PeMaskRange (e : MaskRangeError)
  | PeAddress (s : Str)
  | PeRegex (s : Str)
  | PeCommunity (s : Str) (e : CommunityError)
  | PeExtCommunity (s : Str) (e : ParseExtCommunityError)
  | PeLargeCommunity (s : Str) (e : ParseLargeCommunityError)
  | PeSetNotFound (t : DefinedSetType) (name : Str)
  | PeRouteType (s : Str)
  | PeAfiSafi (s : Str)
  | PeLsNlriType (s : Str)
  | PeLsProtocolId (s : Str)
  | PeOperation (s : Str)
  | PeReservedName (name : Str)
  | PeSetExists (name : Str)
  | PeSetReferenced (t : DefinedSetType) (policy : Str)
  | PeUnderscore
  | PeNoLock.

Definition Result (A : Type) : Type := PolicyError + A.
#[export] Instance result_ret : MRet Result := fun A a => inr a.
#[export] Instance result_bind : MBind Result := fun A B f r => match r with inl e => inl e | inr a => f a end.
(** [Result::map_err] *)
Definition map_err {E A} (f : E -> PolicyError) (r : E + A) : Result A := match r with inl e => inl (f e) | inr a => inr a end.
Definition ok_or {A} (e : PolicyError) (o : option A) : Result A := match o with None => inl e | Some a => inr a end.

(** ** Sets *)
(** [DefinedSetType::parse] and [as_str] *)
Definition set_type_str (t : DefinedSetType) : Str :=
  match t with
  | TPrefixSet => str "prefix-set" | TAsPathSet => str "as-path-set" | TCommunitySet => str "community-set"
  | TExtCommunitySet => str "ext-community-set" | TLargeCommunitySet => str "large-community-set" | TNeighborSet => str "neighbor-set"
  end.
Definition parse_set_type (s : Str) : option DefinedSetType :=
  if s =s "prefix-set" then Some TPrefixSet else if s =s "as-path-set" then Some TAsPathSet
  else if s =s "community-set" then Some TCommunitySet else if s =s "ext-community-set" then Some TExtCommunitySet
  else if s =s "large-community-set" then Some TLargeCommunitySet else if s =s "neighbor-set" then Some TNeighborSet else None.

Record DefinedSets := mkSets {
  prefix_sets : gmap Str PrefixSet;
  neighbor_sets : gmap Str NeighborSet;
  as_path_sets : gmap Str AsPathSet;
  community_sets : gmap Str CommunitySet;
  ext_community_sets : gmap Str ExtCommunitySet;
  large_community_sets : gmap Str LargeCommunitySet;
}.
Definition sets_default : DefinedSets := mkSets ∅ ∅ ∅ ∅ ∅ ∅.
Definition sets_eta (s : DefinedSets) : DefinedSets :=
  mkSets (prefix_sets s) (neighbor_sets s) (as_path_sets s) (community_sets s) (ext_community_sets s) (large_community_sets s).
Definition with_prefix_sets v s := ltac:(update_field sets_eta prefix_sets v s).
Definition with_neighbor_sets v s := ltac:(update_field sets_eta neighbor_sets v s).
Definition with_as_path_sets v s := ltac:(update_field sets_eta as_path_sets v s).
Definition with_community_sets v s := ltac:(update_field sets_eta community_sets v s).
Definition with_ext_community_sets v s := ltac:(update_field sets_eta ext_community_sets v s).
Definition with_large_community_sets v s := ltac:(update_field sets_eta large_community_sets v s).

(** An end of a range: a default when it is empty. *)
Definition range_end (dflt : Z) (e : Str -> MaskRangeError) (s : Str) : MaskRangeError + Z :=
  match s with [] => inr dflt | _ => match parse_uint (2 ^ 8 - 1) s with inl _ => inl (e s) | inr v => inr v end end.
Definition parse_masklength_range (s : Str) (prefix_len max_len : Z) : MaskRangeError + (Z * Z) :=
  if s =s "exact" then inr (prefix_len, prefix_len)
  else
    match split_dots s with
    | None => inl (BadRange s)
    | Some (min_str, max_str) =>
        match range_end prefix_len BadMinLength min_str with
        | inl e => inl e
        | inr lo =>
            match range_end max_len BadMaxLength max_str with
            | inl e => inl e
            | inr hi =>
                if hi <? lo then inl MinAboveMax else if lo <? prefix_len then inl MinBelowPrefix else if max_len <? hi then inl MaxTooLong
                else inr (lo, hi)
            end
        end
    end.

Definition parse_prefix (s : Str) : Result IpNetwork := map_err (PePrefix s) (net_from_str s).
Definition parse_address (s : Str) : Result IpAddr := ok_or (PeAddress s) (parse_ip s).
Definition parse_community_value (s : Str) : Result Z := map_err (PeCommunity s) (parse_community s).
Definition parse_ext_value (s : Str) : Result Z := map_err (PeExtCommunity s) (parse_extended_community s).
Definition parse_large_value (s : Str) : Result LargeCommunity := map_err (PeLargeCommunity s) (parse_large_community s).

Definition network_max_len (n : IpNetwork) : Z := match n with V4 _ => 32 | V6 _ => 128 end.
(** [PrefixMatch::new] *)
Definition prefix_match_new (config : PrefixMatchConfig) : Result PrefixMatch :=
  network ← parse_prefix (pm_prefix config);
  let prefix_len := network_prefix_len network in
  range ← match pm_masklength_range config with
          | Some range_str => map_err PeMaskRange (parse_masklength_range range_str prefix_len (network_max_len network))
          | None => mret (prefix_len, prefix_len)
          end;
  mret (mkPrefixMatch network range.1 range.2).

Section sets.
Variable regex_ok : Str -> bool.

Definition regex_new (s : Str) : Result Str := if regex_ok s then inr s else inl (PeRegex s).
Definition build_prefix_set (c : PrefixSetConfig) : Result PrefixSet :=
  prefixes ← mapM prefix_match_new (psc_prefixes c); mret (mkPrefixSet (psc_name c) prefixes).
Definition build_neighbor_set (c : NeighborSetConfig) : Result NeighborSet :=
  neighbors ← mapM parse_address (nsc_neighbors c); mret (mkNeighborSet (nsc_name c) neighbors).
Definition build_as_path_set (c : AsPathSetConfig) : Result AsPathSet :=
  patterns ← mapM regex_new (asc_patterns c); mret (mkAsPathSet (asc_name c) patterns).
Definition build_community_set (c : CommunitySetConfig) : Result CommunitySet :=
  communities ← mapM parse_community_value (csc_communities c); mret (mkCommunitySet (csc_name c) communities).
Definition build_ext_community_set (c : ExtCommunitySetConfig) : Result ExtCommunitySet :=
  ext_communities ← mapM parse_ext_value (ecc_ext_communities c); mret (mkExtCommunitySet (ecc_name c) ext_communities).
Definition build_large_community_set (c : LargeCommunitySetConfig) : Result LargeCommunitySet :=
  large_communities ← mapM parse_large_value (lcc_large_communities c); mret (mkLargeCommunitySet (lcc_name c) large_communities).

(** One loop of [DefinedSets::new]: every set is built and inserted. *)
Fixpoint insert_all {C S} (name : C -> Str) (build : C -> Result S) (l : list C) (m : gmap Str S) : Result (gmap Str S) :=
  match l with
  | [] => mret m
  | c :: l => s ← build c; insert_all name build l (<[name c := s]> m)
  end.
(** [DefinedSets::new] *)
Definition defined_sets_new (config : DefinedSetsConfig) : Result DefinedSets :=
  prefix ← insert_all psc_name build_prefix_set (ds_prefix_sets config) ∅;
  neighbor ← insert_all nsc_name build_neighbor_set (ds_neighbor_sets config) ∅;
  as_path ← insert_all asc_name build_as_path_set (ds_as_path_sets config) ∅;
  community ← insert_all csc_name build_community_set (ds_community_sets config) ∅;
  ext_community ← insert_all ecc_name build_ext_community_set (ds_ext_community_sets config) ∅;
  large_community ← insert_all lcc_name build_large_community_set (ds_large_community_sets config) ∅;
  mret (mkSets prefix neighbor as_path community ext_community large_community).
End sets.

(** [DefinedSets::contains], [remove] and [clear] *)
Definition sets_contains (t : DefinedSetType) (name : Str) (s : DefinedSets) : bool :=
  match t with
  | TPrefixSet => bool_decide (is_Some (prefix_sets s !! name))
  | TAsPathSet => bool_decide (is_Some (as_path_sets s !! name))
  | TCommunitySet => bool_decide (is_Some (community_sets s !! name))
  | TExtCommunitySet => bool_decide (is_Some (ext_community_sets s !! name))
  | TLargeCommunitySet => bool_decide (is_Some (large_community_sets s !! name))
  | TNeighborSet => bool_decide (is_Some (neighbor_sets s !! name))
  end.
Definition sets_remove (t : DefinedSetType) (name : Str) (s : DefinedSets) : DefinedSets :=
  match t with
  | TPrefixSet => with_prefix_sets (delete name (prefix_sets s)) s
  | TAsPathSet => with_as_path_sets (delete name (as_path_sets s)) s
  | TCommunitySet => with_community_sets (delete name (community_sets s)) s
  | TExtCommunitySet => with_ext_community_sets (delete name (ext_community_sets s)) s
  | TLargeCommunitySet => with_large_community_sets (delete name (large_community_sets s)) s
  | TNeighborSet => with_neighbor_sets (delete name (neighbor_sets s)) s
  end.
Definition sets_clear (t : DefinedSetType) (s : DefinedSets) : DefinedSets :=
  match t with
  | TPrefixSet => with_prefix_sets ∅ s
  | TAsPathSet => with_as_path_sets ∅ s
  | TCommunitySet => with_community_sets ∅ s
  | TExtCommunitySet => with_ext_community_sets ∅ s
  | TLargeCommunitySet => with_large_community_sets ∅ s
  | TNeighborSet => with_neighbor_sets ∅ s
  end.

(** ** Statements *)
(** [From<RpkiValidationConfig>] and [rpki_validation_to_config] *)
Definition rpki_from_config (c : RpkiValidationConfig) : RpkiValidation := match c with RcValid => Valid | RcInvalid => Invalid | RcNotFound => NotFound end.
Definition rpki_validation_to_config (s : RpkiValidation) : RpkiValidationConfig := match s with Valid => RcValid | Invalid => RcInvalid | NotFound => RcNotFound end.

Definition parse_route_type (s : Str) : Result RouteType :=
  if s =s "ebgp" then inr RtEbgp else if s =s "ibgp" then inr RtIbgp else if s =s "local" then inr RtLocal else inl (PeRouteType s).
Definition parse_afi_safi_match (s : Str) : Result AfiSafiMatch :=
  if s =s "ipv4-unicast" then inr Ipv4Unicast else if s =s "ipv6-unicast" then inr Ipv6Unicast else if s =s "bgp-ls" then inr MatchBgpLs
  else inl (PeAfiSafi s).
Definition parse_ls_nlri_type (s : Str) : Result LsNlriTypeMatch :=
  if s =s "node" then inr MNode else if s =s "link" then inr MLink else if s =s "prefix-v4" then inr MPrefixV4
  else if s =s "prefix-v6" then inr MPrefixV6 else inl (PeLsNlriType s).
Definition parse_ls_protocol_id (s : Str) : Result LsProtocolId :=
  if s =s "isis-l1" then inr IsIsL1 else if s =s "isis-l2" then inr IsIsL2 else if s =s "ospfv2" then inr OspfV2
  else if s =s "direct" then inr Direct else if s =s "static" then inr Static else if s =s "ospfv3" then inr OspfV3 else inl (PeLsProtocolId s).

(** A condition of a field that is set, the field parsed first. *)
Definition field {X V} (o : option X) (parse : X -> Result V) (c : V -> Condition) (stmt : Statement) : Result Statement :=
  match o with None => mret stmt | Some x => v ← parse x; mret (when stmt (c v)) end.
(** A reference to a set, and the set with its option. *)
Definition resolve {S} (t : DefinedSetType) (sets : gmap Str S) (r : MatchSetRefConfig) : Result (S * MatchOptionConfig) :=
  s ← ok_or (PeSetNotFound t (mr_set_name r)) (sets !! mr_set_name r); mret (s, mr_match_option r).
Definition verbatim {X} (x : X) : Result X := mret x.

Definition add_conditions (stmt : Statement) (cond : ConditionsConfig) (ds : DefinedSets) : Result Statement :=
  stmt ← field (cd_match_prefix_set cond) (resolve TPrefixSet (prefix_sets ds)) (fun v => CPrefixSet v.1 v.2) stmt;
  stmt ← field (cd_match_neighbor_set cond) (resolve TNeighborSet (neighbor_sets ds)) (fun v => CNeighborSet v.1 v.2) stmt;
  stmt ← field (cd_match_as_path_set cond) (resolve TAsPathSet (as_path_sets ds)) (fun v => CAsPathSet v.1 v.2) stmt;
  stmt ← field (cd_match_community_set cond) (resolve TCommunitySet (community_sets ds)) (fun v => CCommunitySet v.1 v.2) stmt;
  stmt ← field (cd_match_ext_community_set cond) (resolve TExtCommunitySet (ext_community_sets ds)) (fun v => CExtCommunitySet v.1 v.2) stmt;
  stmt ← field (cd_match_large_community_set cond) (resolve TLargeCommunitySet (large_community_sets ds)) (fun v => CLargeCommunitySet v.1 v.2) stmt;
  stmt ← field (cd_prefix cond) parse_prefix CPrefix stmt;
  stmt ← field (cd_neighbor cond) parse_address CNeighbor stmt;
  stmt ← field (cd_has_asn cond) verbatim CAsPath stmt;
  stmt ← field (cd_route_type cond) parse_route_type CRouteType stmt;
  stmt ← field (cd_community cond) parse_community_value CCommunity stmt;
  stmt ← field (cd_rpki_validation cond) verbatim (fun c => CRpkiValidation (rpki_from_config c)) stmt;
  stmt ← field (cd_afi_safi cond) parse_afi_safi_match CAfiSafi stmt;
  stmt ← field (cd_ls_nlri_type cond) parse_ls_nlri_type CLsNlriType stmt;
  stmt ← field (cd_ls_protocol_id cond) parse_ls_protocol_id CLsProtocolId stmt;
  stmt ← field (cd_ls_instance_id cond) verbatim CLsInstanceId stmt;
  stmt ← field (cd_ls_node_as cond) verbatim CLsNodeAs stmt;
  field (cd_ls_node_router_id cond) parse_address CLsNodeRouterId stmt.

(** An action of a field that is set, the field parsed first. *)
Definition action_field {X V} (o : option X) (parse : X -> Result V) (a : V -> Action) (stmt : Statement) : Result Statement :=
  match o with None => mret stmt | Some x => v ← parse x; mret (then_ stmt (a v)) end.
Definition flag (o : option bool) (a : Action) (stmt : Statement) : Statement := match o with Some true => then_ stmt a | _ => stmt end.
(** The values are parsed before the operation is looked at. *)
Definition parse_op {V} (parse : Str -> Result V) (operation : Str) (values : list Str) : Result (CommunityOp V) :=
  vs ← mapM parse values;
  if operation =s "add" then mret (OpAdd vs) else if operation =s "remove" then mret (OpRemove vs)
  else if operation =s "replace" then mret (OpReplace vs) else inl (PeOperation operation).

Definition local_pref_action (lp : LocalPrefActionConfig) : Action :=
  match lp with LpSet v => ASetLocalPref v false | LpForce value force => ASetLocalPref value force end.
Definition med_action (med : MedActionConfig) : Action := match med with MaSet v => ASetMed (Some v) | MaRemove _ => ASetMed None end.
Definition add_actions (stmt : Statement) (ac : ActionsConfig) : Result Statement :=
  stmt ← action_field (ax_local_pref ac) verbatim local_pref_action stmt;
  stmt ← action_field (ax_med ac) verbatim med_action stmt;
  stmt ← action_field (ax_community ac) (fun c => parse_op parse_community_value (ca_operation c) (ca_communities c)) ASetCommunity stmt;
  stmt ← action_field (ax_ext_community ac) (fun c => parse_op parse_ext_value (ea_operation c) (ea_ext_communities c)) ASetExtCommunity stmt;
  stmt ← action_field (ax_large_community ac) (fun c => parse_op parse_large_value (la_operation c) (la_large_communities c)) ASetLargeCommunity stmt;
  stmt ← action_field (ax_set_rpki_state ac) verbatim (fun c => ASetRpkiState (rpki_from_config c)) stmt;
  mret (flag (ax_reject ac) AReject (flag (ax_accept ac) AAccept stmt)).

Definition build_statement (def : StatementConfig) (ds : DefinedSets) : Result Statement :=
  stmt ← add_conditions statement_new (st_conditions def) ds; add_actions stmt (st_actions def).

(** *** Back to the configuration *)
Definition set_ref (name : Str) (opt : MatchOptionConfig) : option MatchSetRefConfig := Some (mkMatchSetRefConfig name opt).
Definition route_type_str (t : RouteType) : Str := match t with RtEbgp => str "ebgp" | RtIbgp => str "ibgp" | RtLocal => str "local" end.
Definition afi_safi_match_str (m : AfiSafiMatch) : Str :=
  match m with Ipv4Unicast => str "ipv4-unicast" | Ipv6Unicast => str "ipv6-unicast" | MatchBgpLs => str "bgp-ls" end.
Definition ls_nlri_type_str (m : LsNlriTypeMatch) : Str :=
  match m with MNode => str "node" | MLink => str "link" | MPrefixV4 => str "prefix-v4" | MPrefixV6 => str "prefix-v6" end.
Definition ls_protocol_id_str (p : LsProtocolId) : Str :=
  match p with
  | IsIsL1 => str "isis-l1" | IsIsL2 => str "isis-l2" | OspfV2 => str "ospfv2" | Direct => str "direct" | Static => str "static" | OspfV3 => str "ospfv3"
  end.
Definition condition_to_config (cc : ConditionsConfig) (c : Condition) : ConditionsConfig :=
  match c with
  | CPrefixSet s opt => with_cd_match_prefix_set (set_ref (prefix_set_name s) opt) cc
  | CPrefix ip => with_cd_prefix (Some (show_network ip)) cc
  | CNeighborSet s opt => with_cd_match_neighbor_set (set_ref (neighbor_set_name s) opt) cc
  | CNeighbor ip => with_cd_neighbor (Some (show_ip ip)) cc
  | CAsPathSet s opt => with_cd_match_as_path_set (set_ref (as_path_set_name s) opt) cc
  | CAsPath asn => with_cd_has_asn (Some asn) cc
  | CCommunitySet s opt => with_cd_match_community_set (set_ref (community_set_name s) opt) cc
  | CExtCommunitySet s opt => with_cd_match_ext_community_set (set_ref (ext_community_set_name s) opt) cc
  | CLargeCommunitySet s opt => with_cd_match_large_community_set (set_ref (large_community_set_name s) opt) cc
  | CCommunity comm => with_cd_community (Some (show_community comm)) cc
  | CRouteType rt => with_cd_route_type (Some (route_type_str rt)) cc
  | CRpkiValidation state => with_cd_rpki_validation (Some (rpki_validation_to_config state)) cc
  | CAfiSafi m => with_cd_afi_safi (Some (afi_safi_match_str m)) cc
  | CLsNlriType m => with_cd_ls_nlri_type (Some (ls_nlri_type_str m)) cc
  | CLsProtocolId p => with_cd_ls_protocol_id (Some (ls_protocol_id_str p)) cc
  | CLsInstanceId id => with_cd_ls_instance_id (Some id) cc
  | CLsNodeAs asn => with_cd_ls_node_as (Some asn) cc
  | CLsNodeRouterId ip => with_cd_ls_node_router_id (Some (show_ip ip)) cc
  end.
Definition op_name {V} (op : CommunityOp V) : Str := match op with OpAdd _ => str "add" | OpRemove _ => str "remove" | OpReplace _ => str "replace" end.
Definition op_values {V} (op : CommunityOp V) : list V := match op with OpAdd l | OpRemove l | OpReplace l => l end.
Definition action_to_config (ac : ActionsConfig) (a : Action) : ActionsConfig :=
  match a with
  | AAccept => with_ax_accept (Some true) ac
  | AReject => with_ax_reject (Some true) ac
  | ASetLocalPref value force => with_ax_local_pref (Some (if force : bool then LpForce value true else LpSet value)) ac
  | ASetMed value => with_ax_med (Some (match value with Some v => MaSet v | None => MaRemove true end)) ac
  | ASetCommunity op => with_ax_community (Some (mkCommunityAction (op_name op) (map show_community (op_values op)))) ac
  | ASetExtCommunity op => with_ax_ext_community (Some (mkExtCommunityAction (op_name op) (map format_extended_community (op_values op)))) ac
  | ASetLargeCommunity op => with_ax_large_community (Some (mkLargeCommunityAction (op_name op) (map show_large_community (op_values op)))) ac
  | ASetRpkiState state => with_ax_set_rpki_state (Some (rpki_validation_to_config state)) ac
  end.
(** [Statement::to_config] *)
Definition to_config (s : Statement) : StatementConfig :=
  mkStatementConfig None (foldl condition_to_config conditions_default (conditions s)) (foldl action_to_config actions_default (actions s)).

(** ** Policies *)
(** [Policy::from_config] *)
Fixpoint with_statements (p : Policy) (l : list StatementConfig) (ds : DefinedSets) : Result Policy :=
  match l with [] => mret p | def :: l => stmt ← build_statement def ds; with_statements (with_ p stmt) l ds end.
Definition policy_from_config (def : PolicyDefinitionConfig) (ds : DefinedSets) : Result Policy :=
  if is_reserved_name (pd_name def) then inl (PeReservedName (pd_name def)) else with_statements (policy_new (pd_name def)) (pd_statements def) ds.

Record PolicyContext := mkContext { policies : gmap Str Policy; defined_sets : DefinedSets }.
Definition insert_policies (ds : DefinedSets) (l : list PolicyDefinitionConfig) (m : gmap Str Policy) : Result (gmap Str Policy) :=
  insert_all pd_name (fun def => policy_from_config def ds) l m.
(** [PolicyContext::from_config] *)
Definition context_from_config (regex_ok : Str -> bool) (config : BgpConfig) : Result PolicyContext :=
  ds ← defined_sets_new regex_ok (cf_defined_sets config);
  m ← insert_policies ds (cf_policy_definitions config) ∅;
  mret (mkContext (<[DEFAULT_DENY_ALL := deny_all]> (<[DEFAULT_PERMIT_ALL := permit_all]> m)) ds).

Example masklength_examples :
  parse_masklength_range (str "exact") 16 32 = inr (16, 16) /\ parse_masklength_range (str "21..24") 16 32 = inr (21, 24) /\
  parse_masklength_range (str "..24") 16 32 = inr (16, 24) /\ parse_masklength_range (str "21..") 16 32 = inr (21, 32) /\
  parse_masklength_range (str "24..21") 16 32 = inl MinAboveMax /\ parse_masklength_range (str "8..24") 16 32 = inl MinBelowPrefix /\
  parse_masklength_range (str "16..33") 16 32 = inl MaxTooLong /\ parse_masklength_range (str "16.24") 16 32 = inl (BadRange (str "16.24")) /\
  parse_masklength_range (str "..") 16 32 = inr (16, 32) /\ parse_masklength_range (str "16...24") 16 32 = inl (BadMaxLength (str ".24")).
Proof. vm_compute. done. Qed.

(** ** The values of a statement *)
Definition option_list {A} (o : option A) : list A := match o with Some a => [a] | None => [] end.
(** A field and the value it was read as. *)
Definition fetched {X V} (parse : X -> Result V) (o : option X) (v : option V) : Prop :=
  match o, v with None, None => True | Some x, Some v => parse x = inr v | _, _ => False end.
Lemma field_ok {X V} (o : option X) (parse : X -> Result V) c stmt stmt' :
  field o parse c stmt = inr stmt' <-> exists v, fetched parse o v /\ stmt' = mkStatement (conditions stmt ++ option_list (c <$> v)) (actions stmt).
Proof.
  unfold field. destruct o as [x|]; cbn [fetched].
  - unfold mbind, result_bind, mret, result_ret. destruct (parse x) as [e|v] eqn:E; split.
    + done.
    + by intros ([v|] & Hv & _).
    + intros [= <-]. by exists (Some v).
    + intros ([w|] & Hw & ->); [|done]. by injection Hw as ->.
  - unfold mret, result_ret. split.
    + intros [= <-]. exists None. split; [done|]. cbn. rewrite app_nil_r. by destruct stmt.
    + intros ([v|] & Hv & ->); [done|]. cbn. rewrite app_nil_r. by destruct stmt.
Qed.

Record ConditionValues := mkValues {
  cv_prefix_set : option (PrefixSet * MatchOptionConfig);
  cv_neighbor_set : option (NeighborSet * MatchOptionConfig);
  cv_as_path_set : option (AsPathSet * MatchOptionConfig);
  cv_community_set : option (CommunitySet * MatchOptionConfig);
  cv_ext_community_set : option (ExtCommunitySet * MatchOptionConfig);
  cv_large_community_set : option (LargeCommunitySet * MatchOptionConfig);
  cv_prefix : option IpNetwork;
  cv_neighbor : option IpAddr;
  cv_has_asn : option Z;
  cv_route_type : option RouteType;
  cv_community : option Z;
  cv_rpki : option RpkiValidationConfig;
  cv_afi_safi : option AfiSafiMatch;
  cv_ls_nlri_type : option LsNlriTypeMatch;
  cv_ls_protocol_id : option LsProtocolId;
  cv_ls_instance_id : option Z;
  cv_ls_node_as : option Z;
  cv_ls_node_router_id : option IpAddr;
}.
Definition values_conditions (v : ConditionValues) : list Condition :=
  option_list ((fun p => CPrefixSet p.1 p.2) <$> cv_prefix_set v) ++ option_list ((fun p => CNeighborSet p.1 p.2) <$> cv_neighbor_set v) ++
  option_list ((fun p => CAsPathSet p.1 p.2) <$> cv_as_path_set v) ++ option_list ((fun p => CCommunitySet p.1 p.2) <$> cv_community_set v) ++
  option_list ((fun p => CExtCommunitySet p.1 p.2) <$> cv_ext_community_set v) ++ option_list ((fun p => CLargeCommunitySet p.1 p.2) <$> cv_large_community_set v) ++
  option_list (CPrefix <$> cv_prefix v) ++ option_list (CNeighbor <$> cv_neighbor v) ++ option_list (CAsPath <$> cv_has_asn v) ++
  option_list (CRouteType <$> cv_route_type v) ++ option_list (CCommunity <$> cv_community v) ++
  option_list ((fun c => CRpkiValidation (rpki_from_config c)) <$> cv_rpki v) ++ option_list (CAfiSafi <$> cv_afi_safi v) ++
  option_list (CLsNlriType <$> cv_ls_nlri_type v) ++ option_list (CLsProtocolId <$> cv_ls_protocol_id v) ++
  option_list (CLsInstanceId <$> cv_ls_instance_id v) ++ option_list (CLsNodeAs <$> cv_ls_node_as v) ++ option_list (CLsNodeRouterId <$> cv_ls_node_router_id v).
Record values_ok (cond : ConditionsConfig) (ds : DefinedSets) (v : ConditionValues) : Prop := {
  vo_prefix_set : fetched (resolve TPrefixSet (prefix_sets ds)) (cd_match_prefix_set cond) (cv_prefix_set v);
  vo_neighbor_set : fetched (resolve TNeighborSet (neighbor_sets ds)) (cd_match_neighbor_set cond) (cv_neighbor_set v);
  vo_as_path_set : fetched (resolve TAsPathSet (as_path_sets ds)) (cd_match_as_path_set cond) (cv_as_path_set v);
  vo_community_set : fetched (resolve TCommunitySet (community_sets ds)) (cd_match_community_set cond) (cv_community_set v);
  vo_ext_community_set : fetched (resolve TExtCommunitySet (ext_community_sets ds)) (cd_match_ext_community_set cond) (cv_ext_community_set v);
  vo_large_community_set : fetched (resolve TLargeCommunitySet (large_community_sets ds)) (cd_match_large_community_set cond) (cv_large_community_set v);
  vo_prefix : fetched parse_prefix (cd_prefix cond) (cv_prefix v);
  vo_neighbor : fetched parse_address (cd_neighbor cond) (cv_neighbor v);
  vo_has_asn : fetched verbatim (cd_has_asn cond) (cv_has_asn v);
  vo_route_type : fetched parse_route_type (cd_route_type cond) (cv_route_type v);
  vo_community : fetched parse_community_value (cd_community cond) (cv_community v);
  vo_rpki : fetched verbatim (cd_rpki_validation cond) (cv_rpki v);
  vo_afi_safi : fetched parse_afi_safi_match (cd_afi_safi cond) (cv_afi_safi v);
  vo_ls_nlri_type : fetched parse_ls_nlri_type (cd_ls_nlri_type cond) (cv_ls_nlri_type v);
  vo_ls_protocol_id : fetched parse_ls_protocol_id (cd_ls_protocol_id cond) (cv_ls_protocol_id v);
  vo_ls_instance_id : fetched verbatim (cd_ls_instance_id cond) (cv_ls_instance_id v);
  vo_ls_node_as : fetched verbatim (cd_ls_node_as cond) (cv_ls_node_as v);
  vo_ls_node_router_id : fetched parse_address (cd_ls_node_router_id cond) (cv_ls_node_router_id v);
}.

(** One field after another. *)
Lemma bind_inr {A B} (r : Result A) (f : A -> Result B) b : (r ≫= f) = inr b <-> exists a, r = inr a /\ f a = inr b.
Proof. unfold mbind, result_bind. destruct r as [e|a]; [by split; [|intros (a & ? & _)]|]. split; [by exists a|by intros (a' & [= <-] & H)]. Qed.
Lemma field_then {X V} (o : option X) (parse : X -> Result V) c stmt (f : Statement -> Result Statement) r :
  (field o parse c stmt ≫= f) = inr r <->
    exists v, fetched parse o v /\ f (mkStatement (conditions stmt ++ option_list (c <$> v)) (actions stmt)) = inr r.
Proof.
  rewrite bind_inr. split.
  - intros (stmt' & (v & Hv & ->)%field_ok & Hf). by exists v.
  - intros (v & Hv & Hf). eexists. split; [apply field_ok; by exists v|done].
Qed.

(** What is built is the list of the values that were read. *)
Lemma add_conditions_ok stmt cond ds stmt' :
  add_conditions stmt cond ds = inr stmt' <->
    exists v, values_ok cond ds v /\ stmt' = mkStatement (conditions stmt ++ values_conditions v) (actions stmt).
Proof.
  unfold add_conditions. split.
  - intros H.
    do 17 (apply field_then in H as (? & ? & H); cbn [conditions actions] in H). apply field_ok in H as (? & ? & ->). cbn [conditions actions].
    eexists (mkValues _ _ _ _ _ _ _ _ _ _ _ _ _ _ _ _ _ _). split; [split; eassumption|].
    unfold values_conditions. cbn. by rewrite <- !app_assoc.
  - intros ([] & [] & ->). cbn in *.
    do 17 (apply field_then; eexists; split; [eassumption|]; cbn [conditions actions]). apply field_ok. eexists. split; [eassumption|].
    unfold values_conditions. cbn. by rewrite <- !app_assoc.
Qed.

(** *** Their texts *)
Definition ref_to {S} (name : S -> Str) (p : S * MatchOptionConfig) : MatchSetRefConfig := mkMatchSetRefConfig (name p.1) p.2.
Definition shown_conditions (v : ConditionValues) : ConditionsConfig :=
  mkConditions (ref_to prefix_set_name <$> cv_prefix_set v) (ref_to neighbor_set_name <$> cv_neighbor_set v)
    (ref_to as_path_set_name <$> cv_as_path_set v) (ref_to community_set_name <$> cv_community_set v)
    (ref_to ext_community_set_name <$> cv_ext_community_set v) (ref_to large_community_set_name <$> cv_large_community_set v)
    (show_network <$> cv_prefix v) (show_ip <$> cv_neighbor v) (cv_has_asn v) (route_type_str <$> cv_route_type v)
    (show_community <$> cv_community v) (cv_rpki v) (afi_safi_match_str <$> cv_afi_safi v) (ls_nlri_type_str <$> cv_ls_nlri_type v)
    (ls_protocol_id_str <$> cv_ls_protocol_id v) (cv_ls_instance_id v) (cv_ls_node_as v) (show_ip <$> cv_ls_node_router_id v).

Lemma conditions_ext c d :
  cd_match_prefix_set c = cd_match_prefix_set d -> cd_match_neighbor_set c = cd_match_neighbor_set d ->
  cd_match_as_path_set c = cd_match_as_path_set d -> cd_match_community_set c = cd_match_community_set d ->
  cd_match_ext_community_set c = cd_match_ext_community_set d -> cd_match_large_community_set c = cd_match_large_community_set d ->
  cd_prefix c = cd_prefix d -> cd_neighbor c = cd_neighbor d -> cd_has_asn c = cd_has_asn d -> cd_route_type c = cd_route_type d ->
  cd_community c = cd_community d -> cd_rpki_validation c = cd_rpki_validation d -> cd_afi_safi c = cd_afi_safi d ->
  cd_ls_nlri_type c = cd_ls_nlri_type d -> cd_ls_protocol_id c = cd_ls_protocol_id d -> cd_ls_instance_id c = cd_ls_instance_id d ->
  cd_ls_node_as c = cd_ls_node_as d -> cd_ls_node_router_id c = cd_ls_node_router_id d -> c = d.
Proof. destruct c, d. cbn. intros. subst. reflexivity. Qed.

Lemma rpki_config_back c : rpki_validation_to_config (rpki_from_config c) = c.
Proof. by destruct c. Qed.

(** A field is changed by its own condition only. *)
Ltac peel_fields :=
  repeat match goal with
  | |- ?p (foldl ?f ?c (option_list (?k <$> ?o))) = _ =>
      first
        [ let H := fresh in assert (forall z, p (foldl f z (option_list (k <$> o))) = p z) as H by (intros; destruct o; reflexivity); rewrite H; clear H
        | destruct o; cbn [fmap option_fmap option_map option_list foldl]; [generalize c; intros; cbn; rewrite ?rpki_config_back; reflexivity|] ]
  end; try reflexivity.
Lemma to_config_conditions v : foldl condition_to_config conditions_default (values_conditions v) = shown_conditions v.
Proof. destruct v. unfold values_conditions. rewrite !foldl_app. cbn [cv_prefix_set cv_neighbor_set cv_as_path_set cv_community_set cv_ext_community_set cv_large_community_set cv_prefix cv_neighbor cv_has_asn cv_route_type cv_community cv_rpki cv_afi_safi cv_ls_nlri_type cv_ls_protocol_id cv_ls_instance_id cv_ls_node_as cv_ls_node_router_id].
  apply conditions_ext; peel_fields.
Qed.

(** *** Actions *)
Lemma action_field_then {X V} (o : option X) (parse : X -> Result V) a stmt (f : Statement -> Result Statement) r :
  (action_field o parse a stmt ≫= f) = inr r <->
    exists v, fetched parse o v /\ f (mkStatement (conditions stmt) (actions stmt ++ option_list (a <$> v))) = inr r.
Proof.
  rewrite bind_inr. unfold action_field. destruct o as [x|]; cbn [fetched].
  - setoid_rewrite bind_inr. split.
    + intros (s & (v & Hv & [= <-]) & Hf). by exists (Some v).
    + intros ([v|] & Hv & Hf); [|done]. eexists. split; [exists v; by split|exact Hf].
  - split.
    + intros (s & [= <-] & Hf). exists None. split; [done|]. cbn. rewrite app_nil_r. by destruct stmt.
    + intros ([v|] & Hv & Hf); [done|]. cbn in Hf. rewrite app_nil_r in Hf. exists stmt. split; [done|]. by destruct stmt.
Qed.

Record ActionValues := mkActionValues {
  av_local_pref : option LocalPrefActionConfig;
  av_med : option MedActionConfig;
  av_community : option (CommunityOp Z);
  av_ext_community : option (CommunityOp Z);
  av_large_community : option (CommunityOp LargeCommunity);
  av_rpki : option RpkiValidationConfig;
  av_accept : option unit;
  av_reject : option unit;
}.
Definition values_actions (v : ActionValues) : list Action :=
  option_list (local_pref_action <$> av_local_pref v) ++ option_list (med_action <$> av_med v) ++ option_list (ASetCommunity <$> av_community v) ++
  option_list (ASetExtCommunity <$> av_ext_community v) ++ option_list (ASetLargeCommunity <$> av_large_community v) ++
  option_list ((fun c => ASetRpkiState (rpki_from_config c)) <$> av_rpki v) ++ option_list ((fun _ => AAccept) <$> av_accept v) ++
  option_list ((fun _ => AReject) <$> av_reject v).
Definition is_set (o : option bool) : option unit := match o with Some true => Some tt | _ => None end.
Record actions_ok (ac : ActionsConfig) (v : ActionValues) : Prop := {
  ao_local_pref : fetched verbatim (ax_local_pref ac) (av_local_pref v);
  ao_med : fetched verbatim (ax_med ac) (av_med v);
  ao_community : fetched (fun c => parse_op parse_community_value (ca_operation c) (ca_communities c)) (ax_community ac) (av_community v);
  ao_ext_community : fetched (fun c => parse_op parse_ext_value (ea_operation c) (ea_ext_communities c)) (ax_ext_community ac) (av_ext_community v);
  ao_large_community : fetched (fun c => parse_op parse_large_value (la_operation c) (la_large_communities c)) (ax_large_community ac) (av_large_community v);
  ao_rpki : fetched verbatim (ax_set_rpki_state ac) (av_rpki v);
  ao_accept : av_accept v = is_set (ax_accept ac);
  ao_reject : av_reject v = is_set (ax_reject ac);
}.
Lemma accept_reject_flags stmt acc rej : flag rej AReject (flag acc AAccept stmt) =
  mkStatement (conditions stmt) (actions stmt ++ option_list ((fun _ => AAccept) <$> is_set acc) ++ option_list ((fun _ => AReject) <$> is_set rej)).
Proof. destruct stmt, acc as [[]|], rej as [[]|]; unfold flag, then_; cbn; rewrite ?app_nil_r, <- ?app_assoc; done. Qed.
Lemma add_actions_ok stmt ac stmt' :
  add_actions stmt ac = inr stmt' <-> exists v, actions_ok ac v /\ stmt' = mkStatement (conditions stmt) (actions stmt ++ values_actions v).
Proof.
  unfold add_actions. split.
  - intros H. do 6 (apply action_field_then in H as (? & ? & H); cbn [conditions actions] in H). injection H as <-. rewrite accept_reject_flags. cbn [conditions actions].
    eexists (mkActionValues _ _ _ _ _ _ _ _). split; [split; try eassumption; reflexivity|]. unfold values_actions. cbn. by rewrite <- !app_assoc.
  - intros ([] & [] & ->). cbn in *. subst.
    do 6 (apply action_field_then; eexists; split; [eassumption|]; cbn [conditions actions]). rewrite accept_reject_flags. cbn [conditions actions].
    unfold values_actions. cbn. by rewrite <- !app_assoc.
Qed.

Definition shown_op {V} (show : V -> Str) {C} (mk : Str -> list Str -> C) (op : CommunityOp V) : C := mk (op_name op) (map show (op_values op)).
Definition shown_actions (v : ActionValues) : ActionsConfig :=
  mkActions ((fun _ => true) <$> av_accept v) ((fun _ => true) <$> av_reject v)
    ((fun lp => match lp with LpForce value false => LpSet value | lp => lp end) <$> av_local_pref v)
    ((fun med => match med with MaSet v => MaSet v | MaRemove _ => MaRemove true end) <$> av_med v)
    (shown_op show_community mkCommunityAction <$> av_community v) (shown_op format_extended_community mkExtCommunityAction <$> av_ext_community v)
    (shown_op show_large_community mkLargeCommunityAction <$> av_large_community v) (av_rpki v).
Lemma to_config_actions v : foldl action_to_config actions_default (values_actions v) = shown_actions v.
Proof.
  destruct v as [lp med c e l r acc rej]. unfold values_actions. rewrite !foldl_app. cbn [av_local_pref av_med av_community av_ext_community av_large_community av_rpki av_accept av_reject].
  assert (forall a b, ax_accept a = ax_accept b -> ax_reject a = ax_reject b -> ax_local_pref a = ax_local_pref b -> ax_med a = ax_med b ->
    ax_community a = ax_community b -> ax_ext_community a = ax_ext_community b -> ax_large_community a = ax_large_community b ->
    ax_set_rpki_state a = ax_set_rpki_state b -> a = b) as actions_ext by (intros [] []; cbn; intros; by subst).
  destruct lp as [[|? []]|]; destruct med as [[]|]; apply actions_ext; peel_fields.
Qed.

(** ** Statements *)
Lemma build_statement_ok def ds stmt : build_statement def ds = inr stmt <->
  exists v w, values_ok (st_conditions def) ds v /\ actions_ok (st_actions def) w /\ stmt = mkStatement (values_conditions v) (values_actions w).
Proof.
  unfold build_statement. rewrite bind_inr. split.
  - intros (s & (v & Hv & ->)%add_conditions_ok & (w & Hw & ->)%add_actions_ok). by exists v, w.
  - intros (v & w & Hv & Hw & ->). eexists. split; [apply add_conditions_ok; by exists v|]. apply add_actions_ok. by exists w.
Qed.
Lemma to_config_values v w : to_config (mkStatement (values_conditions v) (values_actions w)) = mkStatementConfig None (shown_conditions v) (shown_actions w).
Proof. unfold to_config. cbn [conditions actions]. by rewrite to_config_conditions, to_config_actions. Qed.

(** Every set has the name it is found under. *)
Definition sets_named (ds : DefinedSets) : Prop :=
  map_Forall (fun n s => prefix_set_name s = n) (prefix_sets ds) /\ map_Forall (fun n s => neighbor_set_name s = n) (neighbor_sets ds) /\
  map_Forall (fun n s => as_path_set_name s = n) (as_path_sets ds) /\ map_Forall (fun n s => community_set_name s = n) (community_sets ds) /\
  map_Forall (fun n s => ext_community_set_name s = n) (ext_community_sets ds) /\ map_Forall (fun n s => large_community_set_name s = n) (large_community_sets ds).

Lemma resolve_back {S} (t : DefinedSetType) (m : gmap Str S) (name : S -> Str) r p : map_Forall (fun n s => name s = n) m -> resolve t m r = inr p -> ref_to name p = r.
Proof.
  intros Hn. unfold resolve. rewrite bind_inr. intros (s & Hs & [= <-]). unfold ok_or in Hs. destruct (m !! mr_set_name r) as [s'|] eqn:E; [|done].
  injection Hs as <-. apply Hn in E. unfold ref_to. cbn. rewrite E. by destruct r.
Qed.
Lemma fetched_back {S} (t : DefinedSetType) (m : gmap Str S) (name : S -> Str) o v : map_Forall (fun n s => name s = n) m -> fetched (resolve t m) o v -> ref_to name <$> v = o.
Proof. intros Hn. destruct o as [r|], v as [p|]; try done. cbn. intros Hr. f_equal. by eapply resolve_back. Qed.
Lemma fetched_show {V} (parse : Str -> Result V) (show : V -> Str) o v :
  (forall s x, parse s = inr x -> parse (show x) = inr x) -> fetched parse o v -> fetched parse (show <$> v) v.
Proof. intros H. destruct o as [s|], v as [x|]; try done. cbn. apply H. Qed.
Lemma fetched_verbatim {V} (o v : option V) : fetched verbatim o v <-> v = o.
Proof. destruct o, v; cbn; try done. unfold verbatim, mret, result_ret. split; by intros [= ->]. Qed.

Lemma prefix_back s n : parse_prefix s = inr n -> parse_prefix (show_network n) = inr n.
Proof. unfold parse_prefix, map_err. destruct (net_from_str s) as [|n'] eqn:E; [done|]. intros [= ->]. by rewrite net_from_show by by eapply net_from_str_ok. Qed.
Lemma address_back s a : parse_address s = inr a -> parse_address (show_ip a) = inr a.
Proof. unfold parse_address, ok_or. destruct (parse_ip s) as [a'|] eqn:E; [|done]. intros [= ->]. by rewrite parse_show_ip by by eapply parse_ip_ok. Qed.
Lemma community_back s c : parse_community_value s = inr c -> parse_community_value (show_community c) = inr c.
Proof. unfold parse_community_value, map_err. destruct (parse_community s) as [|c'] eqn:E; [done|]. intros [= ->]. by rewrite parse_show_community by by eapply parse_community_u32. Qed.
Lemma large_back s c : parse_large_value s = inr c -> parse_large_value (show_large_community c) = inr c.
Proof. unfold parse_large_value, map_err. destruct (parse_large_community s) as [|c'] eqn:E; [done|]. intros [= ->]. by rewrite parse_show_large_community by by eapply parse_large_ok. Qed.
Lemma ext_back s c : parse_ext_value s = inr c -> parse_ext_value (format_extended_community c) = inr (canonical_ext c).
Proof. unfold parse_ext_value, map_err. destruct (parse_extended_community s) as [|c'] eqn:E; [done|]. intros [= ->]. by rewrite ext_community_reads by by eapply parse_ext_u64. Qed.

Lemma values_back cond ds v : sets_named ds -> values_ok cond ds v -> values_ok (shown_conditions v) ds v.
Proof.
  intros (N1 & N2 & N3 & N4 & N5 & N6) [].
  split; unfold shown_conditions; cbn [cd_match_prefix_set cd_match_neighbor_set cd_match_as_path_set cd_match_community_set cd_match_ext_community_set cd_match_large_community_set
    cd_prefix cd_neighbor cd_has_asn cd_route_type cd_community cd_rpki_validation cd_afi_safi cd_ls_nlri_type cd_ls_protocol_id cd_ls_instance_id cd_ls_node_as cd_ls_node_router_id].
  1-6: by erewrite fetched_back.
  all: first [by apply fetched_verbatim | eapply fetched_show; [|eassumption]].
  - exact prefix_back.
  - exact address_back.
  - by intros ? [] ?.
  - exact community_back.
  - by intros ? [] ?.
  - by intros ? [] ?.
  - by intros ? [] ?.
  - exact address_back.
Qed.

(** *** What a listed statement is read back as *)
Definition map_op {V} (f : V -> V) (op : CommunityOp V) : CommunityOp V :=
  match op with OpAdd l => OpAdd (map f l) | OpRemove l => OpRemove (map f l) | OpReplace l => OpReplace (map f l) end.
Definition canonical_action (a : Action) : Action := match a with ASetExtCommunity op => ASetExtCommunity (map_op canonical_ext op) | a => a end.
Definition canonical_statement (s : Statement) : Statement := mkStatement (conditions s) (map canonical_action (actions s)).
Definition canonical_values (w : ActionValues) : ActionValues :=
  mkActionValues ((fun lp => match lp with LpForce value false => LpSet value | lp => lp end) <$> av_local_pref w)
    ((fun med => match med with MaSet v => MaSet v | MaRemove _ => MaRemove true end) <$> av_med w) (av_community w)
    (map_op canonical_ext <$> av_ext_community w) (av_large_community w) (av_rpki w) (av_accept w) (av_reject w).

Lemma mapM_back {V} (parse : Str -> Result V) (show : V -> Str) (f : V -> V) l : (forall s x, parse s = inr x -> parse (show x) = inr (f x)) ->
  forall vs, mapM parse l = inr vs -> mapM parse (map show vs) = inr (map f vs).
Proof.
  intros H. induction l as [|s l IH]; intros vs; cbn [mapM].
  - by intros [= <-].
  - intros (x & Hx & (xs & Hxs & [= <-])%bind_inr)%bind_inr. cbn [map mapM]. apply bind_inr. exists (f x). split; [by eapply H|].
    apply bind_inr. exists (map f xs). split; [by apply IH|done].
Qed.
Lemma op_back {V} (parse : Str -> Result V) (show : V -> Str) (f : V -> V) operation l op : (forall s x, parse s = inr x -> parse (show x) = inr (f x)) ->
  parse_op parse operation l = inr op -> parse_op parse (op_name op) (map show (op_values op)) = inr (map_op f op).
Proof.
  intros H. unfold parse_op. intros (vs & Hvs & Hop)%bind_inr. apply bind_inr. exists (map f vs).
  assert (op_values op = vs) as ->.
  { destruct (operation =s "add"); [by injection Hop as <-|]. destruct (operation =s "remove"); [by injection Hop as <-|].
    destruct (operation =s "replace"); [by injection Hop as <-|done]. }
  split; [by eapply mapM_back|].
  destruct (operation =s "add"); [by injection Hop as <-|]. destruct (operation =s "remove"); [by injection Hop as <-|].
  destruct (operation =s "replace"); [by injection Hop as <-|done].
Qed.
Lemma map_op_id {V} (op : CommunityOp V) : map_op (fun x => x) op = op.
Proof. destruct op; cbn; by rewrite map_id. Qed.

Lemma actions_back ac w : actions_ok ac w -> actions_ok (shown_actions w) (canonical_values w).
Proof.
  intros []. split; unfold shown_actions, canonical_values;
    cbn [ax_local_pref ax_med ax_community ax_ext_community ax_large_community ax_set_rpki_state ax_accept ax_reject
         av_local_pref av_med av_community av_ext_community av_large_community av_rpki av_accept av_reject]; try (by apply fetched_verbatim).
  - destruct (ax_community ac) as [c|], (av_community w) as [op|]; try done. cbn in *. etransitivity; [eapply (op_back _ _ (fun x => x)); [exact community_back|eassumption]|]. by rewrite map_op_id.
  - destruct (ax_ext_community ac) as [c|], (av_ext_community w) as [op|]; try done. cbn in *. eapply op_back; [exact ext_back|eassumption].
  - destruct (ax_large_community ac) as [c|], (av_large_community w) as [op|]; try done. cbn in *. etransitivity; [eapply (op_back _ _ (fun x => x)); [exact large_back|eassumption]|]. by rewrite map_op_id.
  - by destruct (av_accept w) as [[]|].
  - by destruct (av_reject w) as [[]|].
Qed.
Lemma canonical_actions w : values_actions (canonical_values w) = map canonical_action (values_actions w).
Proof.
  unfold values_actions, canonical_values. destruct w as [lp med c e l r acc rej].
  cbn [av_local_pref av_med av_community av_ext_community av_large_community av_rpki av_accept av_reject]. rewrite !map_app.
  f_equal; [by destruct lp as [[|? []]|]|]. f_equal; [by destruct med as [[]|]|]. f_equal; [by destruct c|]. f_equal; [by destruct e|].
  f_equal; [by destruct l|]. f_equal; [by destruct r as [[]|]|]. f_equal; [by destruct acc|by destruct rej].
Qed.
Lemma listed_statement_builds def ds stmt : sets_named ds -> build_statement def ds = inr stmt -> build_statement (to_config stmt) ds = inr (canonical_statement stmt).
Proof.
  intros Hn (v & w & Hv & Hw & ->)%build_statement_ok. rewrite to_config_values. apply build_statement_ok. exists v, (canonical_values w).
  split; [by eapply values_back|]. split; [by eapply actions_back|]. unfold canonical_statement. cbn [conditions actions]. by rewrite canonical_actions.
Qed.
