(* ===== verification/PolicyMgmt.v ===== *)
(** * Requests about sets and policies ([server/ops_mgmt.rs])

    The handlers on the two fields of the server they change, the context in
    force and the configuration that is saved; and that a daemon started from
    the saved configuration has the context in force. *)
From S2P Require Import Prelude Net Vrp Nlri BgpLs Attrs Text ExtComm NetText OpenMsg Path PeerCaps LangBgp Conf Policy PolicyConf.

Record PolicyState := mkPolicyState { ps_ctx : PolicyContext; ps_config : BgpConfig }.
Definition with_policies_map (m : gmap Str Policy) (c : PolicyContext) : PolicyContext := mkContext m (defined_sets c).
Definition with_sets (ds : DefinedSets) (c : PolicyContext) : PolicyContext := mkContext (policies c) ds.

Definition defined_set_type (set : DefinedSetConfig) : DefinedSetType :=
  match set with
  | DsPrefixSet _ => TPrefixSet | DsNeighborSet _ => TNeighborSet | DsAsPathSet _ => TAsPathSet
  | DsCommunitySet _ => TCommunitySet | DsExtCommunitySet _ => TExtCommunitySet | DsLargeCommunitySet _ => TLargeCommunitySet
  end.

Definition sets_config_eta (c : DefinedSetsConfig) : DefinedSetsConfig :=
  mkDefinedSets (ds_prefix_sets c) (ds_neighbor_sets c) (ds_as_path_sets c) (ds_community_sets c) (ds_ext_community_sets c) (ds_large_community_sets c).
Definition with_ds_prefix_sets v c := ltac:(update_field sets_config_eta ds_prefix_sets v c).
Definition with_ds_neighbor_sets v c := ltac:(update_field sets_config_eta ds_neighbor_sets v c).
Definition with_ds_as_path_sets v c := ltac:(update_field sets_config_eta ds_as_path_sets v c).
Definition with_ds_community_sets v c := ltac:(update_field sets_config_eta ds_community_sets v c).
Definition with_ds_ext_community_sets v c := ltac:(update_field sets_config_eta ds_ext_community_sets v c).
Definition with_ds_large_community_sets v c := ltac:(update_field sets_config_eta ds_large_community_sets v c).

(** [policy_references_set], through the configuration of each statement. *)
Definition references (t : DefinedSetType) (name : Str) (cond : ConditionsConfig) : bool :=
  match
    match t with
    | TPrefixSet => cd_match_prefix_set cond
    | TNeighborSet => cd_match_neighbor_set cond
    | TAsPathSet => cd_match_as_path_set cond
    | TCommunitySet => cd_match_community_set cond
    | TExtCommunitySet => cd_match_ext_community_set cond
    | TLargeCommunitySet => cd_match_large_community_set cond
    end
  with
  | Some match_set => str_eqb (mr_set_name match_set) name
  | None => false
  end.
Definition policy_references_set (p : Policy) (t : DefinedSetType) (name : Str) : bool :=
  existsb (fun stmt => references t name (st_conditions (to_config stmt))) (statements p).

Section requests.
Context `{HashOrder}.
Variable regex_ok : Str -> bool.
Implicit Types st : PolicyState.

(** *** Sets *)
Definition insert_set (set : DefinedSetConfig) (ds : DefinedSets) : Result DefinedSets :=
  match set with
  | DsPrefixSet c => s ← build_prefix_set c; mret (with_prefix_sets (<[psc_name c := s]> (prefix_sets ds)) ds)
  | DsAsPathSet c => s ← build_as_path_set regex_ok c; mret (with_as_path_sets (<[asc_name c := s]> (as_path_sets ds)) ds)
  | DsCommunitySet c => s ← build_community_set c; mret (with_community_sets (<[csc_name c := s]> (community_sets ds)) ds)
  | DsExtCommunitySet c => s ← build_ext_community_set c; mret (with_ext_community_sets (<[ecc_name c := s]> (ext_community_sets ds)) ds)
  | DsNeighborSet c => s ← build_neighbor_set c; mret (with_neighbor_sets (<[nsc_name c := s]> (neighbor_sets ds)) ds)
  | DsLargeCommunitySet c => s ← build_large_community_set c; mret (with_large_community_sets (<[lcc_name c := s]> (large_community_sets ds)) ds)
  end.
Definition push_set (set : DefinedSetConfig) (c : DefinedSetsConfig) : DefinedSetsConfig :=
  match set with
  | DsPrefixSet s => with_ds_prefix_sets (ds_prefix_sets c ++ [s]) c
  | DsAsPathSet s => with_ds_as_path_sets (ds_as_path_sets c ++ [s]) c
  | DsCommunitySet s => with_ds_community_sets (ds_community_sets c ++ [s]) c
  | DsExtCommunitySet s => with_ds_ext_community_sets (ds_ext_community_sets c ++ [s]) c
  | DsNeighborSet s => with_ds_neighbor_sets (ds_neighbor_sets c ++ [s]) c
  | DsLargeCommunitySet s => with_ds_large_community_sets (ds_large_community_sets c ++ [s]) c
  end.
Definition handle_add_defined_set (locked : bool) (set : DefinedSetConfig) st : Result unit * PolicyState :=
  if negb locked then (inl PeNoLock, st)
  else if sets_contains (defined_set_type set) (defined_set_name set) (defined_sets (ps_ctx st)) then (inl (PeSetExists (defined_set_name set)), st)
  else
    match insert_set set (defined_sets (ps_ctx st)) with
    | inl e => (inl e, st)
    | inr new_sets =>
        (mret tt, mkPolicyState (with_sets new_sets (ps_ctx st))
          (with_cf_defined_sets (push_set set (cf_defined_sets (ps_config st))) (ps_config st)))
    end.

(** [Vec::retain] on the names of another. *)
Definition retain_not {C} (name : C -> Str) (n : Str) (l : list C) : list C := filter (fun c => str_eqb (name c) n = false) l.
Definition retain_sets (t : DefinedSetType) (name : Str) (c : DefinedSetsConfig) : DefinedSetsConfig :=
  match t with
  | TPrefixSet => with_ds_prefix_sets (retain_not psc_name name (ds_prefix_sets c)) c
  | TAsPathSet => with_ds_as_path_sets (retain_not asc_name name (ds_as_path_sets c)) c
  | TCommunitySet => with_ds_community_sets (retain_not csc_name name (ds_community_sets c)) c
  | TExtCommunitySet => with_ds_ext_community_sets (retain_not ecc_name name (ds_ext_community_sets c)) c
  | TNeighborSet => with_ds_neighbor_sets (retain_not nsc_name name (ds_neighbor_sets c)) c
  | TLargeCommunitySet => with_ds_large_community_sets (retain_not lcc_name name (ds_large_community_sets c)) c
  end.
Definition handle_remove_defined_set (locked : bool) (t : DefinedSetType) (name : Str) st : Result unit * PolicyState :=
  if negb locked then (inl PeNoLock, st)
  else
    match find (fun p : Str * Policy => policy_references_set p.2 t name) (hash_order (map_to_list (policies (ps_ctx st)))) with
    | Some (policy_name, _) => (inl (PeSetReferenced t policy_name), st)
    | None =>
        (mret tt, mkPolicyState (with_sets (sets_remove t name (defined_sets (ps_ctx st))) (ps_ctx st))
          (with_cf_defined_sets (retain_sets t name (cf_defined_sets (ps_config st))) (ps_config st)))
    end.

Definition name_wanted (name : option Str) (n : Str) : bool := match name with None => true | Some wanted => str_eqb wanted n end.
(** A listed set of one kind: the ones of the name, in the order of the map. *)
Definition list_sets {S} (mk : Str -> S -> DefinedSetConfig) (name : option Str) (m : gmap Str S) : list DefinedSetConfig :=
  map (fun p : Str * S => mk p.1 p.2)
    (filter (fun p : Str * S => name_wanted name p.1 = true) (hash_order (map_to_list m))).
Definition listed_prefix (pm : PrefixMatch) : PrefixMatchConfig :=
  mkPrefixMatchConfig (show_network (pm_network pm))
    (if pm_min_len pm =? pm_max_len pm then None else Some (dec (pm_min_len pm) ++ str ".." ++ dec (pm_max_len pm))).
(** Extended and large communities are not listed. *)
Definition handle_list_defined_sets (set_type : option DefinedSetType) (name : option Str) st : list DefinedSetConfig :=
  let ds := defined_sets (ps_ctx st) in
  let wanted t := match set_type with None => true | Some t' => bool_decide (t' = t) end in
  (if wanted TPrefixSet then list_sets (fun n s => DsPrefixSet (mkPrefixSetConfig n (map listed_prefix (prefixes s)))) name (prefix_sets ds) else []) ++
  (if wanted TNeighborSet then list_sets (fun n s => DsNeighborSet (mkNeighborSetConfig n (map show_ip (neighbors s)))) name (neighbor_sets ds) else []) ++
  (if wanted TAsPathSet then list_sets (fun n s => DsAsPathSet (mkAsPathSetConfig n (patterns s))) name (as_path_sets ds) else []) ++
  (if wanted TCommunitySet then list_sets (fun n s => DsCommunitySet (mkCommunitySetConfig n (map show_community (set_communities s)))) name (community_sets ds) else []).

(** *** Policies *)
(** The first definition of the name is replaced, or one is appended. *)
Fixpoint replace_definition (def : PolicyDefinitionConfig) (l : list PolicyDefinitionConfig) : list PolicyDefinitionConfig :=
  match l with
  | [] => [def]
  | d :: l => if str_eqb (pd_name d) (pd_name def) then def :: l else d :: replace_definition def l
  end.
Definition handle_add_policy_definition (locked : bool) (name : Str) (stmts : list StatementConfig) st : Result unit * PolicyState :=
  if negb locked then (inl PeNoLock, st)
  else if match name with c :: _ => c =? 95 | [] => false end then (inl PeUnderscore, st)
  else
    let policy_def := mkPolicyDefinition name stmts in
    match policy_from_config policy_def (defined_sets (ps_ctx st)) with
    | inl e => (inl e, st)
    | inr policy =>
        (mret tt, mkPolicyState (with_policies_map (<[name := policy]> (policies (ps_ctx st))) (ps_ctx st))
          (with_cf_policy_definitions (replace_definition policy_def (cf_policy_definitions (ps_config st))) (ps_config st)))
    end.
Definition handle_remove_policy_definition (locked : bool) (name : Str) st : Result unit * PolicyState :=
  if negb locked then (inl PeNoLock, st)
  else
    (mret tt, mkPolicyState (with_policies_map (delete name (policies (ps_ctx st))) (ps_ctx st))
      (with_cf_policy_definitions (retain_not pd_name name (cf_policy_definitions (ps_config st))) (ps_config st))).
Definition handle_list_policies (name : option Str) st : list (Str * list StatementConfig) :=
  map (fun p : Str * Policy => (p.1, map to_config (statements p.2)))
    (filter (fun p : Str * Policy => name_wanted name p.1 = true) (hash_order (map_to_list (policies (ps_ctx st))))).

(** *** Requests in sequence *)
Inductive PolicyRequest :=
  | AddDefinedSet (set : DefinedSetConfig)
  | RemoveDefinedSet (t : DefinedSetType) (name : Str)
  | AddPolicyDefinition (name : Str) (stmts : list StatementConfig)
  | RemovePolicyDefinition (name : Str).
Definition policy_request (locked : bool) (r : PolicyRequest) st : Result unit * PolicyState :=
  match r with
  | AddDefinedSet set => handle_add_defined_set locked set st
  | RemoveDefinedSet t name => handle_remove_defined_set locked t name st
  | AddPolicyDefinition name stmts => handle_add_policy_definition locked name stmts st
  | RemovePolicyDefinition name => handle_remove_policy_definition locked name st
  end.
Definition policy_requests (l : list (bool * PolicyRequest)) st : PolicyState :=
  foldl (fun st r => snd (policy_request r.1 r.2 st)) st l.
End requests.

(** ** Loops that insert *)
Section inserted.
Context {C S : Type} (name : C -> Str) (build : C -> Result S).
Lemma insert_all_app l1 l2 m : insert_all name build (l1 ++ l2) m = insert_all name build l1 m ≫= insert_all name build l2.
Proof. revert m. induction l1 as [|c l1 IH]; intros m; cbn [app insert_all]; [done|]. destruct (build c); [done|]. apply IH. Qed.
Lemma insert_all_push l c s m m' : insert_all name build l m = inr m' -> build c = inr s -> insert_all name build (l ++ [c]) m = inr (<[name c := s]> m').
Proof. intros Hl Hc. rewrite insert_all_app, Hl. unfold mbind, result_bind. cbn [insert_all]. by rewrite Hc. Qed.
Lemma insert_all_retain n l : forall m m', insert_all name build l m = inr m' ->
  insert_all name build (retain_not name n l) (delete n m) = inr (delete n m').
Proof.
  induction l as [|c l IH]; intros m m'; cbn [insert_all]; [by intros [= <-]|]. intros (s & Hs & H)%bind_inr. apply IH in H.
  unfold retain_not in *. rewrite filter_cons. destruct (decide (str_eqb (name c) n = false)) as [E|E].
  - cbn [insert_all]. apply bind_inr. exists s. split; [done|]. rewrite <- delete_insert_ne; [exact H|]. intros ->. by rewrite str_eqb_refl in E.
  - apply not_false_iff_true, str_eqb_eq in E. rewrite E in H. by rewrite delete_insert_eq in H.
Qed.
Lemma insert_all_fresh n x l : forall m m', n ∉ map name l -> insert_all name build l m = inr m' ->
  insert_all name build l (<[n := x]> m) = inr (<[n := x]> m').
Proof.
  induction l as [|c l IH]; intros m m' Hn; cbn [insert_all map]; [by intros [= <-]|].
  intros (s & Hs & H)%bind_inr. apply not_elem_of_cons in Hn as [Hn Hl]. apply bind_inr. exists s. split; [done|].
  rewrite insert_insert_ne by done. by apply IH.
Qed.
(** Every element was built, and the ones of a name that is not repeated are
    in the map. *)
Lemma insert_all_built l : forall m m', insert_all name build l m = inr m' -> Forall (fun c => exists s, build c = inr s) l.
Proof.
  induction l as [|c l IH]; intros m m'; cbn [insert_all]; [by constructor|]. intros (s & Hs & H)%bind_inr.
  apply Forall_cons. split; [by exists s|by eapply IH].
Qed.
Lemma insert_all_lookup l : forall m m' n, insert_all name build l m = inr m' -> n ∉ map name l -> m' !! n = m !! n.
Proof.
  induction l as [|c l IH]; intros m m' n; cbn [insert_all map]; [by intros [= <-]|]. intros (s & Hs & H)%bind_inr [Hn Hl]%not_elem_of_cons.
  rewrite (IH _ _ n H Hl). by rewrite lookup_insert_ne.
Qed.
Lemma insert_all_in l : forall m m', insert_all name build l m = inr m' -> NoDup (map name l) ->
  Forall (fun c => exists s, build c = inr s /\ m' !! name c = Some s) l.
Proof.
  induction l as [|c l IH]; intros m m'; cbn [insert_all map]; [by constructor|]. intros (s & Hs & H)%bind_inr [Hn Hl]%NoDup_cons.
  apply Forall_cons. split; [|by eapply IH]. exists s. split; [done|]. rewrite (insert_all_lookup _ _ _ _ H Hn). by rewrite lookup_insert_eq.
Qed.
(** What holds of built elements holds of the map. *)
Lemma insert_all_Forall (P : Str -> S -> Prop) l : (forall c s, build c = inr s -> P (name c) s) -> forall m m', map_Forall P m ->
  insert_all name build l m = inr m' -> map_Forall P m'.
Proof.
  intros Hb. induction l as [|c l IH]; intros m m' Hm; cbn [insert_all]; [by intros [= <-]|]. intros (s & Hs & H)%bind_inr.
  eapply IH; [|exact H]. apply map_Forall_insert_2; [by apply Hb|done].
Qed.
End inserted.
Lemma insert_all_ext {C S} (name : C -> Str) (f g : C -> Result S) l : forall m, Forall (fun c => f c = g c) l -> insert_all name f l m = insert_all name g l m.
Proof.
  induction l as [|c l IH]; intros m Hl; cbn [insert_all]; [done|]. apply Forall_cons in Hl as [Hc Hl]. rewrite Hc. destruct (g c); [done|]. by apply IH.
Qed.

Lemma definitions_replaced def ds p l : forall m m', policy_from_config def ds = inr p -> insert_policies ds l m = inr m' -> NoDup (map pd_name l) ->
  insert_policies ds (replace_definition def l) m = inr (<[pd_name def := p]> m').
Proof.
  intros m m' Hd. revert m m'. induction l as [|d l IH]; intros m m' H Hn.
  - injection H as <-. unfold insert_policies. cbn [replace_definition insert_all]. by rewrite Hd.
  - apply bind_inr in H as (s & Hs & H). cbn [map] in Hn. apply NoDup_cons in Hn as [Hnin Hn]. cbn [replace_definition].
    destruct (str_eqb (pd_name d) (pd_name def)) eqn:E.
    + apply str_eqb_eq in E. unfold insert_policies. cbn [insert_all]. apply bind_inr. exists p. split; [done|]. rewrite E in Hnin, H.
      rewrite <- (insert_insert_eq m (pd_name def) p s). by apply insert_all_fresh.
    + unfold insert_policies. cbn [insert_all]. apply bind_inr. exists s. split; [done|]. by apply IH.
Qed.
Lemma names_replaced def l : NoDup (map pd_name l) -> NoDup (map pd_name (replace_definition def l)) /\
  forall n, n ∈ map pd_name (replace_definition def l) -> n = pd_name def \/ n ∈ map pd_name l.
Proof.
  induction l as [|d l IH]; cbn [replace_definition map].
  - intros _. split; [by apply NoDup_singleton|]. intros n ->%list_elem_of_singleton. by left.
  - intros [Hd Hl]%NoDup_cons. destruct (str_eqb (pd_name d) (pd_name def)) eqn:E.
    + apply str_eqb_eq in E. cbn [map]. rewrite <- E. split; [by apply NoDup_cons|]. by right.
    + destruct (IH Hl) as [H1 H2]. cbn [map]. split.
      * apply NoDup_cons. split; [|done]. intros [Hin|Hin]%H2; [|done]. rewrite Hin, str_eqb_refl in E. done.
      * intros n [->|Hin]%elem_of_cons; [right; by left|]. apply H2 in Hin as [Hin|Hin]; [by left|by right; right].
Qed.
Lemma names_retained {C} (name : C -> Str) n l : NoDup (map name l) -> NoDup (map name (retain_not name n l)).
Proof.
  induction l as [|c l IH]; [done|]. cbn [map]. intros [Hc Hl]%NoDup_cons. unfold retain_not in *. rewrite filter_cons.
  destruct (decide _); [|by apply IH]. cbn [map]. apply NoDup_cons. split; [|by apply IH].
  intros (c' & E & Hin)%list_elem_of_In%in_map_iff. apply Hc, list_elem_of_In, in_map_iff. exists c'. split; [done|].
  apply list_elem_of_In, list_elem_of_filter in Hin as [_ Hin]. by apply list_elem_of_In.
Qed.

(** ** Sets that a statement does not name *)
Definition same_set (t : DefinedSetType) (n : Str) (ds ds' : DefinedSets) : Prop :=
  match t with
  | TPrefixSet => prefix_sets ds !! n = prefix_sets ds' !! n
  | TNeighborSet => neighbor_sets ds !! n = neighbor_sets ds' !! n
  | TAsPathSet => as_path_sets ds !! n = as_path_sets ds' !! n
  | TCommunitySet => community_sets ds !! n = community_sets ds' !! n
  | TExtCommunitySet => ext_community_sets ds !! n = ext_community_sets ds' !! n
  | TLargeCommunitySet => large_community_sets ds !! n = large_community_sets ds' !! n
  end.
Lemma fetched_same {S} (t : DefinedSetType) (m m' : gmap Str S) o v :
  (forall r, o = Some r -> m !! mr_set_name r = m' !! mr_set_name r) -> fetched (resolve t m) o v -> fetched (resolve t m') o v.
Proof. intros H. destruct o as [r|], v as [p|]; try done. cbn. unfold resolve. by rewrite (H r eq_refl). Qed.
Lemma build_same def ds ds' stmt : (forall t n, references t n (st_conditions def) = true -> same_set t n ds ds') ->
  build_statement def ds = inr stmt -> build_statement def ds' = inr stmt.
Proof.
  intros H (v & w & Hv & Hw & ->)%build_statement_ok. apply build_statement_ok. exists v, w. split; [|done].
  assert (forall t r, match t with
      | TPrefixSet => cd_match_prefix_set (st_conditions def) | TNeighborSet => cd_match_neighbor_set (st_conditions def)
      | TAsPathSet => cd_match_as_path_set (st_conditions def) | TCommunitySet => cd_match_community_set (st_conditions def)
      | TExtCommunitySet => cd_match_ext_community_set (st_conditions def) | TLargeCommunitySet => cd_match_large_community_set (st_conditions def) end = Some r ->
    same_set t (mr_set_name r) ds ds') as Hs.
  { intros t r E. apply H. unfold references. rewrite E. apply str_eqb_refl. }
  destruct Hv. split; try assumption.
  - eapply fetched_same; [|eassumption]. exact (Hs TPrefixSet).
  - eapply fetched_same; [|eassumption]. exact (Hs TNeighborSet).
  - eapply fetched_same; [|eassumption]. exact (Hs TAsPathSet).
  - eapply fetched_same; [|eassumption]. exact (Hs TCommunitySet).
  - eapply fetched_same; [|eassumption]. exact (Hs TExtCommunitySet).
  - eapply fetched_same; [|eassumption]. exact (Hs TLargeCommunitySet).
Qed.
(** The sets it names are there. *)
Lemma fetched_contains {S} (t : DefinedSetType) (m : gmap Str S) r v : fetched (resolve t m) (Some r) v -> is_Some (m !! mr_set_name r).
Proof. destruct v as [p|]; [|done]. cbn. unfold resolve, ok_or. destruct (m !! mr_set_name r); [eauto|done]. Qed.
Lemma built_contains def ds stmt t n : build_statement def ds = inr stmt -> references t n (st_conditions def) = true -> sets_contains t n ds = true.
Proof.
  intros (v & w & [] & _ & _)%build_statement_ok. unfold references, sets_contains.
  destruct t; (case_match; [|done]); intros <-%str_eqb_eq; apply bool_decide_eq_true; by eapply fetched_contains.
Qed.
(** What [policy_references_set] looks at is what the definition says. *)
Lemma built_references def ds stmt t n : sets_named ds -> build_statement def ds = inr stmt ->
  references t n (st_conditions (to_config stmt)) = references t n (st_conditions def).
Proof.
  intros (N1 & N2 & N3 & N4 & N5 & N6) (v & w & [] & _ & ->)%build_statement_ok. rewrite to_config_values. unfold references. cbn [st_conditions].
  destruct t; unfold shown_conditions; cbn [cd_match_prefix_set cd_match_neighbor_set cd_match_as_path_set cd_match_community_set cd_match_ext_community_set cd_match_large_community_set];
    by erewrite fetched_back.
Qed.

Lemma with_statements_ok p l ds p' : with_statements p l ds = inr p' <->
  exists stmts, Forall2 (fun d s => build_statement d ds = inr s) l stmts /\ p' = mkPolicy (policy_name p) (statements p ++ stmts).
Proof.
  revert p. induction l as [|d l IH]; intros p; cbn [with_statements].
  - split; [intros [= <-]; exists []; split; [constructor|rewrite app_nil_r; by destruct p]|].
    intros (stmts & H%Forall2_nil_inv_l & ->). subst. rewrite app_nil_r. by destruct p.
  - rewrite bind_inr. split.
    + intros (s & Hs & (stmts & H & ->)%IH). exists (s :: stmts). split; [by constructor|]. cbn. by rewrite <- app_assoc.
    + intros (stmts & H & ->). apply Forall2_cons_inv_l in H as (s & stmts' & Hs & H & ->). exists s. split; [done|]. apply IH.
      exists stmts'. split; [done|]. cbn. by rewrite <- app_assoc.
Qed.
Lemma policy_from_config_ok def ds p : policy_from_config def ds = inr p <->
  is_reserved_name (pd_name def) = false /\ exists stmts, Forall2 (fun d s => build_statement d ds = inr s) (pd_statements def) stmts /\ p = mkPolicy (pd_name def) stmts.
Proof.
  unfold policy_from_config. destruct (is_reserved_name (pd_name def)); [by split; [|intros [? _]]|]. rewrite with_statements_ok.
  split; [by intros H; split|by intros [_ H]].
Qed.
Definition definition_references (t : DefinedSetType) (n : Str) (def : PolicyDefinitionConfig) : bool :=
  existsb (fun d => references t n (st_conditions d)) (pd_statements def).
Lemma policy_same def ds ds' p : (forall t n, definition_references t n def = true -> same_set t n ds ds') ->
  policy_from_config def ds = inr p -> policy_from_config def ds' = inr p.
Proof.
  intros H (Hr & stmts & Hs & ->)%policy_from_config_ok. apply policy_from_config_ok. split; [done|]. exists stmts. split; [|done].
  assert (forall d t n, d ∈ pd_statements def -> references t n (st_conditions d) = true -> same_set t n ds ds') as Hd.
  { intros d t n Hin Hn. apply H, existsb_exists. exists d. split; [by apply list_elem_of_In|done]. }
  clear H Hr. induction Hs as [|d s l stmts Hb _ IH]; constructor.
  - eapply build_same; [|exact Hb]. intros t n. apply (Hd d). left.
  - apply IH. intros d' t n Hin. apply Hd. by right.
Qed.
Lemma policy_references def ds p t n : sets_named ds -> policy_from_config def ds = inr p -> policy_references_set p t n = definition_references t n def.
Proof.
  intros Hn (_ & stmts & Hs & ->)%policy_from_config_ok. unfold policy_references_set, definition_references. cbn [statements].
  induction Hs as [|d s l stmts Hb _ IH]; cbn [existsb]; [done|]. by rewrite (built_references d ds s t n Hn Hb), IH.
Qed.
Lemma policy_contains def ds p t n : policy_from_config def ds = inr p -> definition_references t n def = true -> sets_contains t n ds = true.
Proof.
  intros (_ & stmts & Hs & ->)%policy_from_config_ok. unfold definition_references. intros (d & Hin & Hr)%existsb_exists.
  apply list_elem_of_In in Hin. apply list_elem_of_lookup in Hin as [i Hi]. destruct (Forall2_lookup_l _ _ _ _ _ Hs Hi) as (s & _ & Hb).
  by eapply built_contains.
Qed.

(** ** The saved configuration builds the context in force *)
Section persistence.
Context `{HashOrder}.
Variable regex_ok : Str -> bool.
Implicit Types st : PolicyState.

Record persisted st : Prop := {
  pe_builds : context_from_config regex_ok (ps_config st) = inr (ps_ctx st);
  pe_names : NoDup (map pd_name (cf_policy_definitions (ps_config st)));
}.
Definition built_in (m : gmap Str Policy) : gmap Str Policy := <[DEFAULT_DENY_ALL := deny_all]> (<[DEFAULT_PERMIT_ALL := permit_all]> m).
Lemma context_ok config ctx : context_from_config regex_ok config = inr ctx <->
  exists ds m, defined_sets_new regex_ok (cf_defined_sets config) = inr ds /\ insert_policies ds (cf_policy_definitions config) ∅ = inr m /\
    ctx = mkContext (built_in m) ds.
Proof.
  unfold context_from_config. rewrite bind_inr. setoid_rewrite bind_inr. split.
  - intros (ds & Hd & m & Hm & [= <-]). by exists ds, m.
  - intros (ds & m & Hd & Hm & ->). exists ds. split; [done|]. by exists m.
Qed.
Lemma new_sets_ok c ds : defined_sets_new regex_ok c = inr ds <->
  insert_all psc_name build_prefix_set (ds_prefix_sets c) ∅ = inr (prefix_sets ds) /\
  insert_all nsc_name build_neighbor_set (ds_neighbor_sets c) ∅ = inr (neighbor_sets ds) /\
  insert_all asc_name (build_as_path_set regex_ok) (ds_as_path_sets c) ∅ = inr (as_path_sets ds) /\
  insert_all csc_name build_community_set (ds_community_sets c) ∅ = inr (community_sets ds) /\
  insert_all ecc_name build_ext_community_set (ds_ext_community_sets c) ∅ = inr (ext_community_sets ds) /\
  insert_all lcc_name build_large_community_set (ds_large_community_sets c) ∅ = inr (large_community_sets ds).
Proof.
  unfold defined_sets_new. split.
  - intros (m1 & H1 & (m2 & H2 & (m3 & H3 & (m4 & H4 & (m5 & H5 & (m6 & H6 & [= <-])%bind_inr)%bind_inr)%bind_inr)%bind_inr)%bind_inr)%bind_inr. done.
  - intros (H1 & H2 & H3 & H4 & H5 & H6). do 6 (apply bind_inr; eexists; split; [eassumption|]). by destruct ds.
Qed.
Lemma new_sets_named c ds : defined_sets_new regex_ok c = inr ds -> sets_named ds.
Proof.
  intros (H1 & H2 & H3 & H4 & H5 & H6)%new_sets_ok.
  split_and!; (eapply insert_all_Forall; [|apply map_Forall_empty|eassumption]); cbn;
    intros ? ? (? & _ & [= <-])%bind_inr; reflexivity.
Qed.

(** A set that was not there changes no definition that was built, and one
    that no definition names neither. *)
Lemma insert_set_same set ds ds' t n : insert_set regex_ok set ds = inr ds' ->
  ~ (t = defined_set_type set /\ n = defined_set_name set) -> same_set t n ds ds'.
Proof.
  intros Hi Hne. destruct set as [c|c|c|c|c|c]; apply bind_inr in Hi as (s & _ & [= <-]); destruct t; cbn in *; try done;
    (rewrite lookup_insert_ne; [done|]; intros E; apply Hne; by split).
Qed.
Lemma remove_set_same t0 n0 ds t n : ~ (t = t0 /\ n = n0) -> same_set t n ds (sets_remove t0 n0 ds).
Proof.
  intros Hne. destruct t0, t; cbn in *; try done; (rewrite lookup_delete_ne; [done|]; intros E; apply Hne; by split).
Qed.
Lemma definitions_same ds ds' l m : (forall def, def ∈ l -> forall p, policy_from_config def ds = inr p -> policy_from_config def ds' = inr p) ->
  insert_policies ds l ∅ = inr m -> insert_policies ds' l ∅ = inr m.
Proof.
  intros Hs Hm. rewrite <- Hm. symmetry. apply insert_all_ext. pose proof (insert_all_built _ _ _ _ _ Hm) as Hb.
  apply Forall_forall. intros def Hin. pose proof (proj1 (Forall_forall _ _) Hb def Hin) as [p Hp]. rewrite Hp. symmetry. by apply Hs.
Qed.

Lemma add_set_persisted locked set st : persisted st -> persisted (handle_add_defined_set regex_ok locked set st).2.
Proof.
  intros [Hb Hn]. unfold handle_add_defined_set. destruct (negb locked); [by split|].
  destruct (sets_contains _ _ _) eqn:Hc; [by split|]. destruct (insert_set regex_ok set _) as [e|ds'] eqn:Hi; [by split|]. cbn [snd mret result_ret].
  split; [|exact Hn]. apply context_ok in Hb as (ds & m & Hd & Hm & Ectx). rewrite Ectx in *. cbn [defined_sets policies ps_ctx] in *.
  apply context_ok. exists ds', m. cbn [ps_config ps_ctx cf_defined_sets cf_policy_definitions with_cf_defined_sets]. split; [|split; [|done]].
  - apply new_sets_ok in Hd as (H1 & H2 & H3 & H4 & H5 & H6). apply new_sets_ok.
    destruct set as [c|c|c|c|c|c]; apply bind_inr in Hi as (s & Hs & [= <-]); cbn; split_and!; try done; by apply insert_all_push.
  - eapply definitions_same; [|exact Hm]. intros def _ p Hp. eapply policy_same; [|exact Hp]. intros t n Hr.
    eapply insert_set_same; [exact Hi|]. intros [-> ->]. rewrite (policy_contains _ _ _ _ _ Hp Hr) in Hc. done.
Qed.
Lemma find_none {A} (f : A -> bool) l a : find f l = None -> a ∈ l -> f a = false.
Proof. intros Hf Hin. apply (find_none _ _ Hf). by apply list_elem_of_In. Qed.
Lemma remove_set_persisted locked t n st : persisted st -> persisted (handle_remove_defined_set locked t n st).2.
Proof.
  intros [Hb Hn]. unfold handle_remove_defined_set. destruct (negb locked); [by split|].
  destruct (find _ _) as [[]|] eqn:Hf; [by split|]. cbn [snd mret result_ret]. split; [|exact Hn].
  apply context_ok in Hb as (ds & m & Hd & Hm & Ectx). rewrite Ectx in *. cbn [defined_sets policies ps_ctx] in *.
  apply context_ok. exists (sets_remove t n ds), m. cbn [ps_config ps_ctx cf_defined_sets cf_policy_definitions with_cf_defined_sets]. split; [|split; [|done]].
  - apply new_sets_ok in Hd as (H1 & H2 & H3 & H4 & H5 & H6). apply new_sets_ok.
    destruct t; cbn; split_and!; try done; rewrite <- (delete_empty n); by apply insert_all_retain.
  - eapply definitions_same; [|exact Hm]. intros def Hin p Hp. eapply policy_same; [|exact Hp]. intros t' n' Hr.
    apply remove_set_same. intros [-> ->]. pose proof (insert_all_in _ _ _ _ _ Hm Hn) as Hall.
    pose proof (proj1 (Forall_forall _ _) Hall def Hin) as (p' & Hp' & Hl). cbn in Hp'. rewrite Hp in Hp'. injection Hp' as <-.
    pose proof (proj1 (policy_from_config_ok _ _ _) Hp) as [Hres _]. unfold is_reserved_name in Hres. apply orb_false_elim in Hres as [Hr1 Hr2].
    apply bool_decide_eq_false in Hr1, Hr2.
    assert ((pd_name def, p) ∈ hash_order (map_to_list (built_in m))) as Hmem.
    { rewrite hash_order_perm. apply elem_of_map_to_list. unfold built_in. by rewrite !lookup_insert_ne by done. }
    apply (find_none _ _ _ Hf) in Hmem. cbn in Hmem. rewrite (policy_references _ _ _ _ _ (new_sets_named _ _ Hd) Hp), Hr in Hmem. done.
Qed.
Lemma add_policy_persisted locked n stmts st : persisted st -> persisted (handle_add_policy_definition locked n stmts st).2.
Proof.
  intros [Hb Hn]. unfold handle_add_policy_definition. destruct (negb locked); [by split|]. destruct (match n with [] => _ | _ :: _ => _ end); [by split|].
  destruct (policy_from_config _ _) as [e|p] eqn:Hp; [by split|]. cbn [snd mret result_ret]. split; [|cbn; by apply names_replaced].
  apply context_ok in Hb as (ds & m & Hd & Hm & Ectx). rewrite Ectx in *. cbn [defined_sets policies ps_ctx] in *.
  apply context_ok. exists ds, (<[n := p]> m). cbn [ps_config ps_ctx cf_defined_sets cf_policy_definitions with_cf_policy_definitions]. split; [done|].
  split; [by apply (definitions_replaced (mkPolicyDefinition n stmts))|].
  pose proof (proj1 (policy_from_config_ok _ _ _) Hp) as [Hres _]. unfold is_reserved_name in Hres. apply orb_false_elim in Hres as [Hr1 Hr2].
  apply bool_decide_eq_false in Hr1, Hr2. cbn in Hr1, Hr2. unfold with_policies_map, built_in. cbn [policies defined_sets]. f_equal.
  rewrite (insert_insert_ne _ n DEFAULT_DENY_ALL) by done. by rewrite (insert_insert_ne _ n DEFAULT_PERMIT_ALL) by done.
Qed.
Lemma remove_policy_persisted locked n st : is_reserved_name n = false -> persisted st -> persisted (handle_remove_policy_definition locked n st).2.
Proof.
  intros Hres [Hb Hn]. unfold handle_remove_policy_definition. destruct (negb locked); [by split|]. cbn [snd mret result_ret]. split; [|cbn; by apply names_retained].
  apply context_ok in Hb as (ds & m & Hd & Hm & Ectx). rewrite Ectx in *. cbn [defined_sets policies ps_ctx] in *.
  apply context_ok. exists ds, (delete n m). cbn [ps_config ps_ctx cf_defined_sets cf_policy_definitions with_cf_policy_definitions]. split; [done|].
  split; [unfold insert_policies; rewrite <- (delete_empty n); by apply insert_all_retain|].
  unfold is_reserved_name in Hres. apply orb_false_elim in Hres as [Hr1 Hr2].
  apply bool_decide_eq_false in Hr1, Hr2. unfold with_policies_map, built_in. cbn [policies defined_sets]. f_equal.
  by rewrite !delete_insert_ne by done.
Qed.
End persistence.

(** ** Listed sets *)
Lemma split_dots_app s t : 46 ∉ s -> split_dots (s ++ 46 :: 46 :: t) = Some (s, t).
Proof.
  induction s as [|c s IH]; intros Hs; cbn [app split_dots]; [by rewrite Z.eqb_refl|].
  apply not_elem_of_cons in Hs as [Hc Hs]. destruct (Z.eqb_spec c 46); [done|]. by rewrite IH.
Qed.
Lemma range_end_dec d e n : 0 <= n <= 255 -> range_end d e (dec n) = inr n.
Proof. intros Hn. unfold range_end. pose proof (dec_not_nil n). destruct (dec n) as [|c s] eqn:E; [done|]. rewrite <- E. by rewrite parse_uint_dec by lia. Qed.
Lemma network_len_max n : network_ok n -> 0 <= network_prefix_len n <= network_max_len n.
Proof. destruct n; cbn; lia. Qed.
(** The range of a set's prefix is within the lengths of its family, from the
    length of the prefix on. *)
Lemma prefix_match_range c pm : prefix_match_new c = inr pm ->
  network_ok (pm_network pm) /\ network_prefix_len (pm_network pm) <= pm_min_len pm <= pm_max_len pm /\ pm_max_len pm <= network_max_len (pm_network pm).
Proof.
  intros (n & Hn & (r & Hr & [= <-])%bind_inr)%bind_inr. cbn [pm_network pm_min_len pm_max_len].
  unfold parse_prefix, map_err in Hn. destruct (net_from_str (pm_prefix c)) as [|n'] eqn:E; [done|]. injection Hn as ->. apply net_from_str_ok in E.
  pose proof (network_len_max n E) as Hl. split; [done|]. destruct (pm_masklength_range c) as [s|]; [|injection Hr as <-; cbn; lia].
  unfold map_err in Hr. destruct (parse_masklength_range s _ _) as [|r'] eqn:Er; [done|]. injection Hr as ->. unfold parse_masklength_range in Er.
  destruct (s =s "exact"); [injection Er as <-; cbn; lia|]. destruct (split_dots s) as [[a b]|]; [|done].
  destruct (range_end _ BadMinLength a) as [|lo]; [done|]. destruct (range_end _ BadMaxLength b) as [|hi]; [done|].
  destruct (Z.ltb_spec hi lo); [done|]. destruct (Z.ltb_spec lo (network_prefix_len n)); [done|]. destruct (Z.ltb_spec (network_max_len n) hi); [done|].
  injection Er as <-. cbn. lia.
Qed.
(** A prefix that is listed is read back, but a range of one length becomes the
    length of the prefix itself. *)
Theorem listed_prefix_reads (c : PrefixMatchConfig) (pm : PrefixMatch) : prefix_match_new c = inr pm ->
  prefix_match_new (listed_prefix pm) =
    inr (if pm_min_len pm =? pm_max_len pm then mkPrefixMatch (pm_network pm) (network_prefix_len (pm_network pm)) (network_prefix_len (pm_network pm)) else pm).
Proof.
  intros H. destruct (prefix_match_range c pm H) as (Hn & Hmin & Hmax). pose proof (network_len_max _ Hn) as Hl. clear H.
  destruct pm as [n lo hi]. cbn [pm_network pm_min_len pm_max_len] in *. unfold listed_prefix, prefix_match_new. cbn [pm_network pm_min_len pm_max_len pm_prefix pm_masklength_range].
  unfold parse_prefix. rewrite net_from_show by done. cbn [map_err]. unfold mbind, result_bind. destruct (Z.eqb_spec lo hi) as [->|Hne]; [done|].
  assert (network_max_len n <= 128) as H128 by by destruct n.
  change (dec lo ++ str ".." ++ dec hi) with (dec lo ++ 46 :: 46 :: dec hi). unfold parse_masklength_range.
  assert (str_eqb (dec lo ++ 46 :: 46 :: dec hi) (str "exact") = false) as ->.
  { apply not_true_is_false. intros E%str_eqb_eq. pose proof (dec_digits lo ltac:(lia)) as Hd. pose proof (dec_not_nil lo).
    destruct (dec lo) as [|d s]; [done|]. apply Forall_cons in Hd as [Hd%is_digit_range _]. injection E as -> _. change (Z.of_nat _) with 101 in Hd. lia. }
  rewrite split_dots_app by (apply dec_not_in; [lia|done]). rewrite !range_end_dec by lia.
  destruct (Z.ltb_spec hi lo); [lia|]. destruct (Z.ltb_spec lo (network_prefix_len n)); [lia|]. by destruct (Z.ltb_spec (network_max_len n) hi); [lia|].
Qed.

(** ** Properties *)
Definition keeps_built_ins (r : PolicyRequest) : Prop := match r with RemovePolicyDefinition n => is_reserved_name n = false | _ => True end.

(** C14. Whatever requests about sets and policies are made, refused ones included,
    as long as none removes a built-in policy ([keeps_built_ins]), the
    configuration that is saved builds the sets and policies in force, when it
    did before and the policies had distinct names ([persisted]): a daemon
    started from it evaluates the same policies. *)
Theorem policy_requests_persist `{HashOrder} (regex_ok : Str -> bool) (requests : list (bool * PolicyRequest)) (st : PolicyState) :
  persisted regex_ok st -> Forall (fun r => keeps_built_ins r.2) requests -> persisted regex_ok (policy_requests regex_ok requests st).
Proof.
  intros Hp Hr. unfold policy_requests. revert st Hp. induction Hr as [|[locked r] requests Hk _ IH]; intros st Hp; cbn [foldl fst snd]; [done|].
  apply IH. destruct r as [set|t n|n stmts|n]; cbn [policy_request].
  - by apply add_set_persisted.
  - by apply remove_set_persisted.
  - by apply add_policy_persisted.
  - by apply remove_policy_persisted.
Qed.

(** C15. A policy that is listed builds, with the sets in force, the policy it was
    listed from: the same conditions and actions, but for extended communities
    in forms that their text does not show. *)
Theorem listed_policy_builds `{HashOrder} (regex_ok : Str -> bool) (st : PolicyState) (name : Str) (stmts : list StatementConfig) :
  persisted regex_ok st -> (name, stmts) ∈ handle_list_policies None st ->
  exists p, policies (ps_ctx st) !! name = Some p /\
    with_statements (policy_new name) stmts (defined_sets (ps_ctx st)) = inr (mkPolicy name (map canonical_statement (statements p))).
Proof.
  intros [Hb _] Hin. unfold handle_list_policies in Hin. apply list_elem_of_fmap in Hin as ([n p] & [= -> ->] & Hin).
  apply list_elem_of_filter in Hin as [_ Hin]. rewrite hash_order_perm in Hin. apply elem_of_map_to_list in Hin. exists p. split; [done|].
  apply context_ok in Hb as (ds & m & Hd & Hm & Ectx). rewrite Ectx in *. cbn [policies defined_sets] in *. apply with_statements_ok.
  eexists. split; [|done]. pose proof (new_sets_named _ _ _ Hd) as Hn.
  assert (Forall (fun s => build_statement (to_config s) ds = inr (canonical_statement s)) (statements p)) as Hall.
  { unfold built_in in Hin. apply lookup_insert_Some in Hin as [[_ <-]|[_ Hin]]; [by repeat constructor|].
    apply lookup_insert_Some in Hin as [[_ <-]|[_ Hin]]; [by repeat constructor|].
    assert (map_Forall (fun _ p => Forall (fun s => exists d, build_statement d ds = inr s) (statements p)) m) as Hf.
    { eapply insert_all_Forall; [|apply map_Forall_empty|exact Hm]. cbn. intros def q (_ & l & Hs & ->)%policy_from_config_ok. cbn [statements].
      induction Hs; constructor; eauto. }
    apply Hf in Hin. eapply Forall_impl; [exact Hin|]. intros s (d & Hs). by eapply listed_statement_builds. }
  clear -Hall. induction Hall; cbn [map]; constructor; done.
Qed.

(** ** Witnesses *)
#[local] Instance policy_order : HashOrder := insertion_order.
Definition any_regex (_ : Str) : bool := true.
Definition fresh_state : PolicyState := mkPolicyState (mkContext (built_in ∅) sets_default) bgp_config_default.
Lemma fresh_persisted : persisted any_regex fresh_state.
Proof. split; [reflexivity|constructor]. Qed.
Definition on_community : StatementConfig :=
  mkStatementConfig None (with_cd_match_community_set (set_ref (str "customers") MoAny) conditions_default)
    (with_ax_ext_community (Some (mkExtCommunityAction (str "add") [str "rt:65000:100"])) (with_ax_accept (Some true) actions_default)).
(** The set is named by the policy, so that it cannot be removed before it. *)
Definition policy_demo : list (bool * PolicyRequest) :=
  [ (true, AddDefinedSet (DsCommunitySet (mkCommunitySetConfig (str "customers") [str "65000:1"; str "7"])));
    (true, AddPolicyDefinition (str "p") [on_community]);
    (true, RemoveDefinedSet TCommunitySet (str "customers"));
    (false, RemovePolicyDefinition (str "p")) ].
Lemma policy_requests_persist_witness : persisted any_regex (policy_requests any_regex policy_demo fresh_state).
Proof. apply policy_requests_persist; [exact fresh_persisted|]. do 3 (apply Forall_cons; split; [exact I|]). apply Forall_cons; split; [by vm_compute|by apply Forall_nil]. Defined.

Lemma listed_policy_builds_witness : exists p, policies (ps_ctx fresh_state) !! DEFAULT_DENY_ALL = Some p /\
  with_statements (policy_new DEFAULT_DENY_ALL) [to_config (then_ statement_new AReject)] (defined_sets (ps_ctx fresh_state)) =
    inr (mkPolicy DEFAULT_DENY_ALL (map canonical_statement (statements p))).
Proof. apply (listed_policy_builds any_regex fresh_state); [exact fresh_persisted|]. vm_compute. repeat (first [left; reflexivity|right]). Defined.

(** The answers of the demonstration: the removals are refused. *)
Example policy_demo_answers :
  let st := policy_requests any_regex (take 2 policy_demo) fresh_state in
  fst (policy_request any_regex true (RemoveDefinedSet TCommunitySet (str "customers")) st) = inl (PeSetReferenced TCommunitySet (str "p")) /\
  fst (policy_request any_regex true (AddDefinedSet (DsCommunitySet (mkCommunitySetConfig (str "customers") []))) st) = inl (PeSetExists (str "customers")) /\
  fst (policy_request any_regex true (AddPolicyDefinition DEFAULT_DENY_ALL []) st) = inl (PeReservedName DEFAULT_DENY_ALL) /\
  fst (policy_request any_regex true (AddPolicyDefinition (str "q") [mkStatementConfig None (with_cd_match_prefix_set (set_ref (str "x") MoAny) conditions_default) actions_default]) st) =
    inl (PeSetNotFound TPrefixSet (str "x")).
Proof. vm_compute. done. Qed.

(** ** What the requests do not keep *)
(** A built-in policy can be removed, although its name is reserved; the saved
    configuration has it again. *)
Example built_in_removed :
  let st := snd (policy_request any_regex true (RemovePolicyDefinition DEFAULT_PERMIT_ALL) fresh_state) in
  policies (ps_ctx st) !! DEFAULT_PERMIT_ALL = None /\
  exists ctx, context_from_config any_regex (ps_config st) = inr ctx /\ policies ctx !! DEFAULT_PERMIT_ALL = Some permit_all.
Proof. split; [by vm_compute|]. eexists. split; [reflexivity|by vm_compute]. Qed.
(** Of two definitions of one name the last is in force, and a request replaces
    the first: the saved configuration still builds the other one. *)
Example replaced_first :
  let twice := with_cf_policy_definitions [mkPolicyDefinition (str "p") []; mkPolicyDefinition (str "p") []] bgp_config_default in
  exists ctx st, context_from_config any_regex twice = inr ctx /\
    handle_add_policy_definition true (str "p") [mkStatementConfig None conditions_default (with_ax_reject (Some true) actions_default)] (mkPolicyState ctx twice) = (inr tt, st) /\
    policies (ps_ctx st) !! str "p" = Some (mkPolicy (str "p") [mkStatement [] [AReject]]) /\
    exists ctx', context_from_config any_regex (ps_config st) = inr ctx' /\ policies ctx' !! str "p" = Some (mkPolicy (str "p") []).
Proof. do 2 eexists. split; [reflexivity|]. split; [reflexivity|]. split; [by vm_compute|]. eexists. split; [reflexivity|by vm_compute]. Qed.
(** A range of one length other than the prefix's is listed as the prefix. *)
Example listed_range_lost :
  prefix_match_new (mkPrefixMatchConfig (str "10.0.0.0/8") (Some (str "24..24"))) = inr (mkPrefixMatch (V4 (mkV4 0x0A000000 8)) 24 24) /\
  listed_prefix (mkPrefixMatch (V4 (mkV4 0x0A000000 8)) 24 24) = mkPrefixMatchConfig (str "10.0.0.0/8") None /\
  prefix_match_new (mkPrefixMatchConfig (str "10.0.0.0/8") None) = inr (mkPrefixMatch (V4 (mkV4 0x0A000000 8)) 8 8).
Proof. vm_compute. done. Qed.
(** A four-octet route target with a small number is listed as the two-octet one. *)
Example ext_community_changes :
  parse_extended_community (str "0x0202000000050001") = inr 0x0202000000050001 /\ format_extended_community 0x0202000000050001 = str "rt:5:1" /\
  parse_extended_community (str "rt:5:1") = inr 0x0002000500000001.
Proof. vm_compute. done. Qed.
