(* ===== verification/ConfFile.v ===== *)
(** * The configuration of the daemon: read from a file, and written ([conf/src/bgp.rs])

    [from_conf_str] turns the tree that [language::parse] returns into a
    [BgpConfig]; [to_conf_str] goes back, and the conversions of each block are
    in between.  The errors are values of [ConfError], one for each place that
    makes one. *)
From S2P Require Import Prelude Net Nlri BgpLs Attrs Text LangBgp LangBgpParse OpenMsg Path PeerCaps Conf.

Inductive ConfError :=
  | CeParse (e : ParseError)
  | CeMissingService
  | CeMissingAsn
  | CeMissingRouterId
  | CeZeroRouterId
  | CeBadPeerAddress (address : Str)
  | CeDuplicatePeer (ip : IpAddr)
  | CeBadAction (action : Str).

(** ** From the tree *)
(** *** Peers *)
Definition apply_peer_setting (c : PeerConfig) (s : Setting) : PeerConfig :=
  match s with
  | SRemoteAs v => with_cp_asn (Some v) c
  | SPort v => with_cp_port v c
  | SInterface v => with_cp_interface (Some v) c
  | SMd5KeyFile v => with_cp_md5_key_file (Some v) c
  | STtlMin v => with_cp_ttl_min (Some v) c
  | SNextHopSelf v => with_cp_next_hop_self v c
  | SPassive v => with_cp_passive_mode v c
  | SRrClient v => with_cp_rr_client v c
  | SRsClient v => with_cp_rs_client v c
  | SGracefulShutdown v => with_cp_graceful_shutdown v c
  | SDelayOpenTimeSecs v => with_cp_delay_open_time_secs (Some v) c
  | SIdleHoldTimeSecs v => with_cp_idle_hold_time_secs (Some v) c
  | SDampPeerOscillations v => with_cp_damp_peer_oscillations v c
  | SAllowAutomaticStop v => with_cp_allow_automatic_stop v c
  | SSendNotificationWithoutOpen v => with_cp_send_notification_without_open v c
  | SMinRouteAdvertisementIntervalSecs v => with_cp_min_route_advertisement_interval_secs (Some v) c
  | SEnforceFirstAs v => with_cp_enforce_first_as v c
  | SSendRpkiCommunity v => with_cp_send_rpki_community v c
  | SAdminDown v => with_cp_admin_down v c
  | _ => c
  end.

Definition max_prefix_action_of (k : MaxPrefixActionKind) : MaxPrefixAction := match k with Terminate => MaTerminate | Discard => MaDiscard end.
Definition add_path_send_of (m : AddPathSendMode) : AddPathSend := match m with SendAll => ApAll | SendDisabled => ApDisabled end.
Definition apply_directive (e : AfiSafiConfig) (d : FamilyDirective) : AfiSafiConfig :=
  match d with
  | ImportPolicy name => mkAfiSafiConfig (ac_afi e) (ac_safi e) (ac_max_prefix e) (ac_add_path_send e) (ac_import_policy e ++ [name]) (ac_export_policy e)
  | ExportPolicy name => mkAfiSafiConfig (ac_afi e) (ac_safi e) (ac_max_prefix e) (ac_add_path_send e) (ac_import_policy e) (ac_export_policy e ++ [name])
  | MaxPrefix limit action =>
      mkAfiSafiConfig (ac_afi e) (ac_safi e) (Some (mkMaxPrefixSetting limit (max_prefix_action_of action))) (ac_add_path_send e)
        (ac_import_policy e) (ac_export_policy e)
  | AddPathSendDirective mode =>
      mkAfiSafiConfig (ac_afi e) (ac_safi e) (ac_max_prefix e) (Some (add_path_send_of mode)) (ac_import_policy e) (ac_export_policy e)
  end.
Definition apply_family (c : PeerConfig) (family : FamilyBlock) : PeerConfig :=
  with_cp_afi_safis (afi_safi_entry_mut (cp_afi_safis c) (fb_afi family) (fb_safi family)
    (fun entry => fold_left apply_directive (fb_directives family) entry)) c.
Definition peer_config_from_block (b : PeerBlock) : PeerConfig :=
  fold_left apply_family (pb_families b)
    (fold_left apply_peer_setting (pb_settings b) (with_cp_address (pb_address b) peer_config_default)).

(** *** Policies *)
Definition action_to_config (action : Str) : ConfError + ActionsConfig :=
  if action =s "accept" then inr (with_ax_accept (Some true) actions_default)
  else if action =s "reject" then inr (with_ax_reject (Some true) actions_default)
  else inl (CeBadAction action).

Definition match_set_ref_to_config (r : MatchSetRef) : MatchSetRefConfig :=
  mkMatchSetRefConfig (ms_set_name r) (match ms_option r with MatchAny => MoAny | MatchAll => MoAll | MatchInvert => MoInvert end).
Definition rpki_kind_to_config (v : RpkiValidationKind) : RpkiValidationConfig :=
  match v with RvValid => RcValid | RvInvalid => RcInvalid | RvNotFound => RcNotFound end.

Definition apply_match_clause (c : ConditionsConfig) (clause : MatchClause) : ConditionsConfig :=
  match clause with
  | McPrefixSet r => with_cd_match_prefix_set (Some (match_set_ref_to_config r)) c
  | McNeighborSet r => with_cd_match_neighbor_set (Some (match_set_ref_to_config r)) c
  | McAsPathSet r => with_cd_match_as_path_set (Some (match_set_ref_to_config r)) c
  | McCommunitySet r => with_cd_match_community_set (Some (match_set_ref_to_config r)) c
  | McExtCommunitySet r => with_cd_match_ext_community_set (Some (match_set_ref_to_config r)) c
  | McLargeCommunitySet r => with_cd_match_large_community_set (Some (match_set_ref_to_config r)) c
  | McPrefix s => with_cd_prefix (Some s) c
  | McNeighbor s => with_cd_neighbor (Some s) c
  | McHasAsn v => with_cd_has_asn (Some v) c
  | McRouteType s => with_cd_route_type (Some s) c
  | McCommunity s => with_cd_community (Some s) c
  | McRpki v => with_cd_rpki_validation (Some (rpki_kind_to_config v)) c
  | McAfiSafi s => with_cd_afi_safi (Some s) c
  | McLsNlriType s => with_cd_ls_nlri_type (Some s) c
  | McLsProtocolId s => with_cd_ls_protocol_id (Some s) c
  | McLsInstanceId v => with_cd_ls_instance_id (Some v) c
  | McLsNodeAs v => with_cd_ls_node_as (Some v) c
  | McLsNodeRouterId s => with_cd_ls_node_router_id (Some s) c
  end.
Definition apply_set_clause (a : ActionsConfig) (clause : SetClause) : ActionsConfig :=
  match clause with
  | ScLocalPref value force => with_ax_local_pref (Some (if force then LpForce value true else LpSet value)) a
  | ScMed (MedTo v) => with_ax_med (Some (MaSet v)) a
  | ScMed MedRemove => with_ax_med (Some (MaRemove true)) a
  | ScCommunity op => with_ax_community (Some (mkCommunityAction (community_op_to_str (co_op op)) (co_values op))) a
  | ScExtCommunity op => with_ax_ext_community (Some (mkExtCommunityAction (community_op_to_str (co_op op)) (co_values op))) a
  | ScLargeCommunity op => with_ax_large_community (Some (mkLargeCommunityAction (community_op_to_str (co_op op)) (co_values op))) a
  | ScSetRpkiState v => with_ax_set_rpki_state (Some (rpki_kind_to_config v)) a
  end.
Definition apply_disposition (a : ActionsConfig) (d : option Disposition) : ActionsConfig :=
  match d with
  | Some DAccept => with_ax_accept (Some true) a
  | Some DReject => with_ax_reject (Some true) a
  | None => a
  end.
Definition statement_block_to_config (b : StatementBlock) : StatementConfig :=
  mkStatementConfig (sb_name b) (fold_left apply_match_clause (sb_matches b) conditions_default)
    (apply_disposition (fold_left apply_set_clause (sb_sets b) actions_default) (sb_disposition b)).
Definition rule_to_config (r : PolicyRule) : ConfError + StatementConfig :=
  match r with
  | PrMatch set_name action =>
      match action_to_config action with
      | inl e => inl e
      | inr a => inr (mkStatementConfig None (with_cd_match_prefix_set (Some (mkMatchSetRefConfig set_name MoAny)) conditions_default) a)
      end
  | PrDefault action =>
      match action_to_config action with inl e => inl e | inr a => inr (mkStatementConfig None conditions_default a) end
  | PrStatement b => inr (statement_block_to_config b)
  end.
(** A loop that stops at the first error. *)
Fixpoint all_or_error {A B} (f : A -> ConfError + B) (l : list A) : ConfError + list B :=
  match l with
  | [] => inr []
  | a :: l => match f a with inl e => inl e | inr b => match all_or_error f l with inl e => inl e | inr bs => inr (b :: bs) end end
  end.
Definition policy_block_to_definition (b : PolicyBlock) : ConfError + PolicyDefinitionConfig :=
  match all_or_error rule_to_config (po_rules b) with inl e => inl e | inr statements => inr (mkPolicyDefinition (po_name b) statements) end.

(** *** Sets, stations, caches, telemetry *)
Definition masklength_range_to_runtime (r : MasklengthRange) : Str :=
  match r with
  | Exact => str "exact"
  | Range ge le => if_some ge dec ++ str ".." ++ if_some le dec
  end.
Definition prefix_list_block_to_set (b : PrefixListBlock) : PrefixSetConfig :=
  mkPrefixSetConfig (pl_name b)
    (map (fun e => mkPrefixMatchConfig (ple_prefix e) (option_map masklength_range_to_runtime (ple_range e))) (pl_prefixes b)).
Definition neighbor_set_block_to_config (b : NeighborSetBlock) : NeighborSetConfig := mkNeighborSetConfig (ns_name b) (ns_neighbors b).
Definition as_path_set_block_to_config (b : AsPathSetBlock) : AsPathSetConfig := mkAsPathSetConfig (as_name b) (as_patterns b).
Definition community_set_block_to_config (b : CommunitySetBlock) : CommunitySetConfig := mkCommunitySetConfig (cs_name b) (cs_communities b).
Definition ext_community_set_block_to_config (b : ExtCommunitySetBlock) : ExtCommunitySetConfig :=
  mkExtCommunitySetConfig (ec_name b) (ec_ext_communities b).
Definition large_community_set_block_to_config (b : LargeCommunitySetBlock) : LargeCommunitySetConfig :=
  mkLargeCommunitySetConfig (lc_name b) (lc_large_communities b).
Definition bmp_config_from_block (b : BmpServerBlock) : BmpConfig := mkBmpConfig (bm_address b) (bm_statistics_timeout b).
Definition rpki_config_from_block (b : RpkiCacheBlock) : RpkiCacheConfig :=
  mkRpkiCacheConfig (rc_address b) (default 0 (rc_preference b)) (default Tcp (rc_transport b)) (rc_ssh_username b)
    (rc_ssh_private_key_file b) (rc_ssh_known_hosts_file b) (rc_retry_interval b) (rc_refresh_interval b) (rc_expire_interval b).
Definition telemetry_config_from_block (b : TelemetryBlock) : TelemetryConfig :=
  mkTelemetryConfig
    (if tm_json b then Some TsJson else option_map (fun emf => TsCloudwatchEmf (ce_namespace emf)) (tm_cloudwatch_emf b))
    (option_map (fun prom => mkPrometheusConfig (default default_prometheus_listen (pm_listen prom))) (tm_prometheus b)).

(** *** The daemon *)
Record SettingsRead := mkSettingsRead { sr_config : BgpConfig; sr_has_asn : bool; sr_has_router_id : bool }.
Definition apply_setting (r : SettingsRead) (s : Setting) : SettingsRead :=
  let set f := mkSettingsRead (f (sr_config r)) (sr_has_asn r) (sr_has_router_id r) in
  match s with
  | SAsn v => mkSettingsRead (with_cf_asn v (sr_config r)) true (sr_has_router_id r)
  | SRouterId v => mkSettingsRead (with_cf_router_id v (sr_config r)) (sr_has_asn r) true
  | SListenAddr v => set (with_cf_listen_addr v)
  | SGrpcListenAddr v => set (with_cf_grpc_listen_addr v)
  | SLogLevel v => set (with_cf_log_level v)
  | SHoldTime v => set (with_cf_hold_time_secs v)
  | SConnectRetry v => set (with_cf_connect_retry_secs v)
  | SClusterId v => set (with_cf_cluster_id (Some v))
  | SSysName v => set (with_cf_sys_name (Some v))
  | SSysDescr v => set (with_cf_sys_descr (Some v))
  | SEnhancedRrStaleTtl v => set (with_cf_enhanced_rr_stale_ttl (Some v))
  | SOriginate route => set (fun c => with_cf_originate (cf_originate c ++ [route]) c)
  | _ => r
  end.

(** [BgpConfig::insert_peer] *)
Definition insert_peer (c : BgpConfig) (cfg : PeerConfig) : ConfError + BgpConfig :=
  match cp_ip cfg with
  | None => inl (CeBadPeerAddress (cp_address cfg))
  | Some peer_ip =>
      match find_peer c peer_ip with
      | Some _ => inl (CeDuplicatePeer peer_ip)
      | None => inr (with_cf_peers (cf_peers c ++ [cfg]) c)
      end
  end.
Fixpoint insert_peers (c : BgpConfig) (blocks : list PeerBlock) : ConfError + BgpConfig :=
  match blocks with
  | [] => inr c
  | b :: blocks => match insert_peer c (peer_config_from_block b) with inl e => inl e | inr c => insert_peers c blocks end
  end.

(** What [from_conf_str] makes of the body: the settings, the two blocks that
    are at most once, the checks, then the lists. *)
Definition config_from_body (b : BgpServiceBody) : ConfError + BgpConfig :=
  let '(mkSettingsRead config has_asn has_router_id) := fold_left apply_setting (bs_settings b) (mkSettingsRead bgp_config_default false false) in
  let config := match bs_bgp_ls b with
                | Some l => with_cf_bgp_ls (mkBgpLsConfig (lsc_max_ls_entries (cf_bgp_ls config)) (bl_instance_id l)) config
                | None => config end in
  let config := match bs_telemetry b with Some t => with_cf_telemetry (Some (telemetry_config_from_block t)) config | None => config end in
  if negb has_asn then inl CeMissingAsn
  else if negb has_router_id then inl CeMissingRouterId
  else if cf_router_id config =? 0 then inl CeZeroRouterId
  else
    match insert_peers config (bs_peers b) with
    | inl e => inl e
    | inr config =>
        let ds := cf_defined_sets config in
        let config := with_cf_defined_sets (mkDefinedSets
          (ds_prefix_sets ds ++ map prefix_list_block_to_set (bs_prefix_lists b))
          (ds_neighbor_sets ds ++ map neighbor_set_block_to_config (bs_neighbor_sets b))
          (ds_as_path_sets ds ++ map as_path_set_block_to_config (bs_as_path_sets b))
          (ds_community_sets ds ++ map community_set_block_to_config (bs_community_sets b))
          (ds_ext_community_sets ds ++ map ext_community_set_block_to_config (bs_ext_community_sets b))
          (ds_large_community_sets ds ++ map large_community_set_block_to_config (bs_large_community_sets b))) config in
        match all_or_error policy_block_to_definition (bs_policies b) with
        | inl e => inl e
        | inr policies =>
            let config := with_cf_policy_definitions (cf_policy_definitions config ++ policies) config in
            let config := with_cf_bmp_servers (cf_bmp_servers config ++ map bmp_config_from_block (bs_bmp_servers b)) config in
            inr (with_cf_rpki_caches (cf_rpki_caches config ++ map rpki_config_from_block (bs_rpki_caches b)) config)
        end
    end.

(** [BgpConfig::from_conf_str]: the first service is the one read. *)
Definition from_conf_str (input : Str) : outcome ConfError BgpConfig :=
  match parse input with
  | Err e => Err (CeParse e)
  | Panic => Panic
  | Ok root =>
      match services root with
      | [] => Err CeMissingService
      | Bgp body :: _ => match config_from_body body with inl e => Err e | inr config => Ok config end
      end
  end.

(** ** To the tree *)
(** A setting that is written only when the test holds. *)
Definition push_if (b : bool) (s : Setting) : list Setting := if b then [s] else [].
Definition push_some {A} (o : option A) (make : A -> Setting) : list Setting := match o with Some a => [make a] | None => [] end.
Definition bool_neqb (a b : bool) : bool := negb (Bool.eqb a b).

(** [peer_settings_from_config] *)
Definition peer_settings_from_config (p : PeerConfig) : list Setting :=
  push_some (cp_asn p) SRemoteAs ++
  push_if (negb (cp_port p =? default_port)) (SPort (cp_port p)) ++
  push_some (cp_interface p) SInterface ++
  push_some (cp_md5_key_file p) SMd5KeyFile ++
  push_some (cp_ttl_min p) STtlMin ++
  push_if (cp_next_hop_self p) (SNextHopSelf true) ++
  push_if (cp_passive_mode p) (SPassive true) ++
  push_if (cp_rr_client p) (SRrClient true) ++
  push_if (cp_rs_client p) (SRsClient true) ++
  push_if (cp_graceful_shutdown p) (SGracefulShutdown true) ++
  push_some (cp_delay_open_time_secs p) SDelayOpenTimeSecs ++
  match cp_idle_hold_time_secs p with
  | Some v => push_if (bool_decide (Some v <> default_idle_hold_time)) (SIdleHoldTimeSecs v)
  | None => []
  end ++
  push_if (bool_neqb (cp_damp_peer_oscillations p) default_damp_peer_oscillations) (SDampPeerOscillations (cp_damp_peer_oscillations p)) ++
  push_if (bool_neqb (cp_allow_automatic_stop p) default_allow_automatic_stop) (SAllowAutomaticStop (cp_allow_automatic_stop p)) ++
  push_if (cp_send_notification_without_open p) (SSendNotificationWithoutOpen true) ++
  push_some (cp_min_route_advertisement_interval_secs p) SMinRouteAdvertisementIntervalSecs ++
  push_if (bool_neqb (cp_enforce_first_as p) default_enforce_first_as) (SEnforceFirstAs (cp_enforce_first_as p)) ++
  push_if (cp_send_rpki_community p) (SSendRpkiCommunity true) ++
  push_if (cp_admin_down p) (SAdminDown true).

Definition max_prefix_kind_of (a : MaxPrefixAction) : MaxPrefixActionKind := match a with MaTerminate => Terminate | MaDiscard => Discard end.
Definition add_path_mode_of (m : AddPathSend) : AddPathSendMode := match m with ApAll => SendAll | ApDisabled => SendDisabled end.
Definition has_anything (e : AfiSafiConfig) : bool :=
  match ac_import_policy e with [] => false | _ => true end || match ac_export_policy e with [] => false | _ => true end
  || bool_decide (is_Some (ac_max_prefix e)) || bool_decide (is_Some (ac_add_path_send e)).
Definition family_from_entry (e : AfiSafiConfig) : FamilyBlock :=
  mkFamilyBlock (ac_afi e) (ac_safi e)
    (match ac_max_prefix e with Some mp => [MaxPrefix (mps_limit mp) (max_prefix_kind_of (mps_action mp))] | None => [] end ++
     match ac_add_path_send e with Some aps => [AddPathSendDirective (add_path_mode_of aps)] | None => [] end ++
     map ImportPolicy (ac_import_policy e) ++ map ExportPolicy (ac_export_policy e)).
Definition families_from_peer_config (p : PeerConfig) : list FamilyBlock := map family_from_entry (filter (fun e => has_anything e = true) (cp_afi_safis p)).
Definition peer_block_from_config (p : PeerConfig) : PeerBlock :=
  mkPeerBlock (cp_address p) (peer_settings_from_config p) (families_from_peer_config p).

Definition bmp_block_from_config (c : BmpConfig) : BmpServerBlock := mkBmpServerBlock (bc_address c) (bc_statistics_timeout c).
Definition rpki_block_from_config (c : RpkiCacheConfig) : RpkiCacheBlock :=
  mkRpkiCacheBlock (cc_address c) (if cc_preference c =? 0 then None else Some (cc_preference c))
    (match cc_transport c with Tcp => None | t => Some t end) (cc_ssh_username c) (cc_ssh_private_key_file c) (cc_ssh_known_hosts_file c)
    (cc_retry_interval c) (cc_refresh_interval c) (cc_expire_interval c).
Definition telemetry_block_from_config (c : TelemetryConfig) : TelemetryBlock :=
  let prometheus := option_map (fun prom =>
    mkPrometheusBlock (if str_eqb (prc_listen prom) default_prometheus_listen then None else Some (prc_listen prom))) (tc_prometheus c) in
  match tc_sink c with
  | Some TsJson => mkTelemetryBlock true None prometheus
  | Some (TsCloudwatchEmf namespace) => mkTelemetryBlock false (Some (mkCloudwatchEmfBlock namespace)) prometheus
  | None => mkTelemetryBlock false None prometheus
  end.

(** *** Policies *)
Definition match_set_ref_from_config (c : MatchSetRefConfig) : MatchSetRef :=
  mkMatchSetRef (mr_set_name c) (match mr_match_option c with MoAny => MatchAny | MoAll => MatchAll | MoInvert => MatchInvert end).
Definition rpki_config_to_kind (v : RpkiValidationConfig) : RpkiValidationKind :=
  match v with RcValid => RvValid | RcInvalid => RvInvalid | RcNotFound => RvNotFound end.
Definition community_op_from_str (s : Str) : option CommunityOpKind :=
  if s =s "add" then Some OpAdd else if s =s "remove" then Some OpRemove else if s =s "replace" then Some OpReplace else None.

Definition has_transform (a : ActionsConfig) : bool :=
  bool_decide (is_Some (ax_local_pref a)) || bool_decide (is_Some (ax_med a)) || bool_decide (is_Some (ax_community a))
  || bool_decide (is_Some (ax_ext_community a)) || bool_decide (is_Some (ax_large_community a)) || bool_decide (is_Some (ax_set_rpki_state a)).
Definition config_to_action (a : ActionsConfig) : option Str :=
  if has_transform a then None
  else match default false (ax_accept a), default false (ax_reject a) with
       | true, false => Some (str "accept")
       | false, true => Some (str "reject")
       | _, _ => None
       end.

Definition has_other_conditions (c : ConditionsConfig) : bool :=
  bool_decide (is_Some (cd_match_neighbor_set c)) || bool_decide (is_Some (cd_match_as_path_set c))
  || bool_decide (is_Some (cd_match_community_set c)) || bool_decide (is_Some (cd_match_ext_community_set c))
  || bool_decide (is_Some (cd_match_large_community_set c)) || bool_decide (is_Some (cd_prefix c)) || bool_decide (is_Some (cd_neighbor c))
  || bool_decide (is_Some (cd_has_asn c)) || bool_decide (is_Some (cd_route_type c)) || bool_decide (is_Some (cd_community c))
  || bool_decide (is_Some (cd_rpki_validation c)) || bool_decide (is_Some (cd_afi_safi c)) || bool_decide (is_Some (cd_ls_nlri_type c))
  || bool_decide (is_Some (cd_ls_protocol_id c)) || bool_decide (is_Some (cd_ls_instance_id c)) || bool_decide (is_Some (cd_ls_node_as c))
  || bool_decide (is_Some (cd_ls_node_router_id c)).
Definition shorthand_for (s : StatementConfig) : option PolicyRule :=
  match st_name s with
  | Some _ => None
  | None =>
      if has_other_conditions (st_conditions s) then None
      else
        action ← config_to_action (st_actions s);
        match cd_match_prefix_set (st_conditions s) with
        | Some r => match mr_match_option r with MoAny => Some (PrMatch (mr_set_name r) action) | _ => None end
        | None => Some (PrDefault action)
        end
  end.

Definition clause_if {A C} (o : option A) (make : A -> C) : list C := match o with Some a => [make a] | None => [] end.
Definition matches_from_config (c : ConditionsConfig) : list MatchClause :=
  clause_if (cd_match_prefix_set c) (fun r => McPrefixSet (match_set_ref_from_config r)) ++
  clause_if (cd_match_neighbor_set c) (fun r => McNeighborSet (match_set_ref_from_config r)) ++
  clause_if (cd_match_as_path_set c) (fun r => McAsPathSet (match_set_ref_from_config r)) ++
  clause_if (cd_match_community_set c) (fun r => McCommunitySet (match_set_ref_from_config r)) ++
  clause_if (cd_match_ext_community_set c) (fun r => McExtCommunitySet (match_set_ref_from_config r)) ++
  clause_if (cd_match_large_community_set c) (fun r => McLargeCommunitySet (match_set_ref_from_config r)) ++
  clause_if (cd_prefix c) McPrefix ++ clause_if (cd_neighbor c) McNeighbor ++ clause_if (cd_has_asn c) McHasAsn ++
  clause_if (cd_route_type c) McRouteType ++ clause_if (cd_community c) McCommunity ++
  clause_if (cd_rpki_validation c) (fun v => McRpki (rpki_config_to_kind v)) ++ clause_if (cd_afi_safi c) McAfiSafi ++
  clause_if (cd_ls_nlri_type c) McLsNlriType ++ clause_if (cd_ls_protocol_id c) McLsProtocolId ++
  clause_if (cd_ls_instance_id c) McLsInstanceId ++ clause_if (cd_ls_node_as c) McLsNodeAs ++ clause_if (cd_ls_node_router_id c) McLsNodeRouterId.

Definition local_pref_clause (lp : LocalPrefActionConfig) : SetClause :=
  match lp with LpSet v => ScLocalPref v false | LpForce value force => ScLocalPref value force end.
Definition med_clause (med : MedActionConfig) : SetClause := ScMed (match med with MaSet v => MedTo v | MaRemove _ => MedRemove end).
(** A community action: an operation the grammar does not have gives up. *)
Definition community_clause_if {A} (o : option A) (operation : A -> Str) (values : A -> list Str) (make : CommunityOp -> SetClause) : option (list SetClause) :=
  match o with
  | None => Some []
  | Some a => op ← community_op_from_str (operation a); Some [make (mkCommunityOp op (values a))]
  end.
Definition sets_from_config (a : ActionsConfig) : option (list SetClause) :=
  community ← community_clause_if (ax_community a) ca_operation ca_communities ScCommunity;
  ext ← community_clause_if (ax_ext_community a) ea_operation ea_ext_communities ScExtCommunity;
  large ← community_clause_if (ax_large_community a) la_operation la_large_communities ScLargeCommunity;
  Some (clause_if (ax_local_pref a) local_pref_clause ++ clause_if (ax_med a) med_clause ++ community ++ ext ++ large ++
        clause_if (ax_set_rpki_state a) (fun v => ScSetRpkiState (rpki_config_to_kind v))).
Definition disposition_from_config (a : ActionsConfig) : option (option Disposition) :=
  match default false (ax_accept a), default false (ax_reject a) with
  | true, false => Some (Some DAccept)
  | false, true => Some (Some DReject)
  | false, false => Some None
  | true, true => None
  end.
Definition statement_config_to_block (s : StatementConfig) : option StatementBlock :=
  sets ← sets_from_config (st_actions s);
  disposition ← disposition_from_config (st_actions s);
  Some (mkStatementBlock (st_name s) (matches_from_config (st_conditions s)) sets disposition).
Definition rule_from_config (s : StatementConfig) : option PolicyRule :=
  match shorthand_for s with Some rule => Some rule | None => block ← statement_config_to_block s; Some (PrStatement block) end.
Definition policy_definition_to_block (d : PolicyDefinitionConfig) : option PolicyBlock :=
  rules ← mapM rule_from_config (pd_statements d); Some (mkPolicyBlock (pd_name d) rules).

(** *** Sets *)
(** [str::split_once("..")] *)
Fixpoint split_dots (s : Str) : option (Str * Str) :=
  match s with
  | c :: (d :: rest) as s' => if (c =? 46) && (d =? 46) then Some ([], rest) else '(a, b) ← split_dots s'; Some (c :: a, b)
  | _ => None
  end.
(** A bound: absent when its text is empty, an error when it is no [u8]. *)
Definition runtime_bound (s : Str) : option (option Z) :=
  match s with [] => Some None | _ => match parse_uint (2 ^ 8 - 1) s with inr v => Some (Some v) | inl _ => None end end.
Definition runtime_to_masklength_range (s : Str) : option MasklengthRange :=
  if s =s "exact" then Some Exact
  else
    '(min_str, max_str) ← split_dots s;
    ge ← runtime_bound min_str;
    le ← runtime_bound max_str;
    match ge, le with None, None => None | _, _ => Some (Range ge le) end.
Definition prefix_set_to_block (c : PrefixSetConfig) : option PrefixListBlock :=
  match map (fun e => mkPrefixListEntry (pm_prefix e) (pm_masklength_range e ≫= runtime_to_masklength_range)) (psc_prefixes c) with
  | [] => None
  | prefixes => Some (mkPrefixListBlock (psc_name c) prefixes)
  end.
Definition neighbor_set_config_to_block (c : NeighborSetConfig) : NeighborSetBlock := mkNeighborSetBlock (nsc_name c) (nsc_neighbors c).
Definition as_path_set_config_to_block (c : AsPathSetConfig) : AsPathSetBlock := mkAsPathSetBlock (asc_name c) (asc_patterns c).
Definition community_set_config_to_block (c : CommunitySetConfig) : CommunitySetBlock := mkCommunitySetBlock (csc_name c) (csc_communities c).
Definition ext_community_set_config_to_block (c : ExtCommunitySetConfig) : ExtCommunitySetBlock :=
  mkExtCommunitySetBlock (ecc_name c) (ecc_ext_communities c).
Definition large_community_set_config_to_block (c : LargeCommunitySetConfig) : LargeCommunitySetBlock :=
  mkLargeCommunitySetBlock (lcc_name c) (lcc_large_communities c).

(** *** The daemon *)
Definition settings_from_config (c : BgpConfig) : list Setting :=
  [SAsn (cf_asn c); SRouterId (cf_router_id c)] ++
  push_if (negb (str_eqb (cf_listen_addr c) default_listen_addr)) (SListenAddr (cf_listen_addr c)) ++
  push_if (negb (str_eqb (cf_grpc_listen_addr c) default_grpc_listen_addr)) (SGrpcListenAddr (cf_grpc_listen_addr c)) ++
  push_if (negb (str_eqb (cf_log_level c) default_log_level)) (SLogLevel (cf_log_level c)) ++
  push_if (negb (cf_hold_time_secs c =? default_hold_time)) (SHoldTime (cf_hold_time_secs c)) ++
  push_if (negb (cf_connect_retry_secs c =? default_connect_retry_time)) (SConnectRetry (cf_connect_retry_secs c)) ++
  push_some (cf_cluster_id c) SClusterId ++
  push_some (cf_sys_name c) SSysName ++
  push_some (cf_sys_descr c) SSysDescr ++
  match cf_enhanced_rr_stale_ttl c with
  | Some ttl => push_if (bool_decide (Some ttl <> default_enhanced_rr_stale_ttl)) (SEnhancedRrStaleTtl ttl)
  | None => []
  end ++
  map SOriginate (cf_originate c).
(** [BgpConfig::to_bgp_service_body] *)
Definition to_bgp_service_body (c : BgpConfig) : BgpServiceBody :=
  let ds := cf_defined_sets c in
  mkBgpServiceBody (settings_from_config c) (map peer_block_from_config (cf_peers c))
    (omap policy_definition_to_block (cf_policy_definitions c)) (omap prefix_set_to_block (ds_prefix_sets ds))
    (map neighbor_set_config_to_block (ds_neighbor_sets ds)) (map as_path_set_config_to_block (ds_as_path_sets ds))
    (map community_set_config_to_block (ds_community_sets ds)) (map ext_community_set_config_to_block (ds_ext_community_sets ds))
    (map large_community_set_config_to_block (ds_large_community_sets ds)) (map bmp_block_from_config (cf_bmp_servers c))
    (map rpki_block_from_config (cf_rpki_caches c))
    (if lsc_instance_id (cf_bgp_ls c) =? 0 then None else Some (mkBgpLsBlock (lsc_instance_id (cf_bgp_ls c))))
    (option_map telemetry_block_from_config (cf_telemetry c)).
(** [BgpConfig::to_conf_str] *)
Definition to_conf_str (c : BgpConfig) : Str := show_root (mkRoot [Bgp (to_bgp_service_body c)]).
