(* ===== verification/ConfSpec.v ===== *)
(** * The configuration of the daemon: what a saved file keeps

    [conf_kept]: the settings that the language has; [config_from_body] after
    [to_bgp_service_body] is the identity on them.  The loader's checks. *)
From S2P Require Import Prelude Net Nlri BgpLs Attrs Text LangBgp LangBgpParse OpenMsg Path PeerCaps Conf ConfFile.

(** ** What the language keeps *)
Definition entry_kept (e : AfiSafiConfig) : Prop := has_anything e = true.
Record peer_kept (p : PeerConfig) : Prop := {
  pk_ip : is_Some (cp_ip p);
  pk_idle : is_Some (cp_idle_hold_time_secs p);
  pk_max_prefix : cp_max_prefix p = None;
  pk_graceful_restart : cp_graceful_restart p = graceful_restart_default;
  pk_add_path_send : cp_add_path_send p = ApDisabled;
  pk_add_path_receive : cp_add_path_receive p = false;
  pk_llgr : cp_llgr p = None;
  pk_entries : Forall entry_kept (cp_afi_safis p);
  pk_families : NoDup (afi_safi_list p);
}.
Definition local_pref_kept (lp : LocalPrefActionConfig) : Prop := match lp with LpSet _ => True | LpForce _ force => force = true end.
Definition med_kept (m : MedActionConfig) : Prop := match m with MaSet _ => True | MaRemove remove => remove = true end.
Definition operation_kept (operation : Str) : Prop := exists op, operation = community_op_to_str op.
Definition opt_kept {A} (P : A -> Prop) (o : option A) : Prop := match o with Some a => P a | None => True end.
Definition flag_kept (o : option bool) : Prop := o <> Some false.
Record actions_kept (a : ActionsConfig) : Prop := {
  ak_accept : flag_kept (ax_accept a);
  ak_reject : flag_kept (ax_reject a);
  ak_one : ax_accept a = None \/ ax_reject a = None;
  ak_local_pref : opt_kept local_pref_kept (ax_local_pref a);
  ak_med : opt_kept med_kept (ax_med a);
  ak_community : opt_kept (fun c => operation_kept (ca_operation c)) (ax_community a);
  ak_ext_community : opt_kept (fun c => operation_kept (ea_operation c)) (ax_ext_community a);
  ak_large_community : opt_kept (fun c => operation_kept (la_operation c)) (ax_large_community a);
}.
Definition policy_kept (d : PolicyDefinitionConfig) : Prop := Forall (fun s => actions_kept (st_actions s)) (pd_statements d).
Definition bound_kept (o : option Z) : Prop := opt_kept (fun v => 0 <= v < 2 ^ 8) o.
Definition range_kept (r : MasklengthRange) : Prop :=
  match r with Exact => True | Range ge le => (ge <> None \/ le <> None) /\ bound_kept ge /\ bound_kept le end.
Definition match_kept (m : PrefixMatchConfig) : Prop :=
  opt_kept (fun s => exists r, range_kept r /\ s = masklength_range_to_runtime r) (pm_masklength_range m).
Definition prefix_set_kept (c : PrefixSetConfig) : Prop := psc_prefixes c <> [] /\ Forall match_kept (psc_prefixes c).
Record conf_kept (c : BgpConfig) : Prop := {
  ck_router_id : cf_router_id c <> 0;
  ck_peers : Forall peer_kept (cf_peers c);
  ck_distinct : NoDup (map cp_ip (cf_peers c));
  ck_llgr : cf_llgr c = None;
  ck_stale_ttl : is_Some (cf_enhanced_rr_stale_ttl c);
  ck_ls_entries : lsc_max_ls_entries (cf_bgp_ls c) = 0;
  ck_policies : Forall policy_kept (cf_policy_definitions c);
  ck_prefix_sets : Forall prefix_set_kept (ds_prefix_sets (cf_defined_sets c));
}.

(** ** Settings *)
Lemma fold_push_if {S} (f : S -> Setting -> S) b s r r' :
  (b = true -> f r s = r') -> (b = false -> r = r') -> fold_left f (push_if b s) r = r'.
Proof. destruct b; cbn; auto. Qed.
Lemma fold_push_some {S A} (f : S -> Setting -> S) (o : option A) make r r' :
  (forall a, o = Some a -> f r (make a) = r') -> (o = None -> r = r') -> fold_left f (push_some o make) r = r'.
Proof. destruct o; cbn; auto. Qed.
Lemma fold_push_default {S} (f : S -> Setting -> S) (o d : option Z) make r r' :
  is_Some o -> (forall v, o = Some v -> o <> d -> f r (make v) = r') -> (o = d -> r = r') ->
  fold_left f (match o with Some v => push_if (bool_decide (Some v <> d)) (make v) | None => [] end) r = r'.
Proof.
  intros [v ->] H1 H2. destruct (decide (Some v = d)) as [E|E].
  - rewrite bool_decide_eq_false_2 by (intros Hn; by apply Hn). cbn. auto.
  - rewrite bool_decide_eq_true_2 by done. cbn. by apply H1.
Qed.
Lemma bool_neqb_false a b : bool_neqb a b = false -> a = b.
Proof. by destruct a, b. Qed.

Ltac same :=
  first [reflexivity | intros; subst; try reflexivity; repeat match goal with
  | H : negb (_ =? _) = false |- _ => apply negb_false_iff, Z.eqb_eq in H
  | H : negb (str_eqb _ _) = false |- _ => apply negb_false_iff, str_eqb_eq in H
  | H : bool_neqb _ _ = false |- _ => apply bool_neqb_false in H
  end; subst; reflexivity].

Lemma peer_settings_read p : peer_kept p ->
  fold_left apply_peer_setting (peer_settings_from_config p) (with_cp_address (cp_address p) peer_config_default) = with_cp_afi_safis [] p.
Proof.
  destruct p as [x0 x1 x2 x3 x4 x5 x6 x7 x8 x9 x10 x11 x12 x13 x14 x15 x16 x17 x18 x19 x20 x21 x22 x23 x24 x25]. intros [_ Hi Hm
    Hg Hs Hr Hl _ _].
  cbn in Hi, Hm, Hg, Hs, Hr, Hl. subst. unfold peer_settings_from_config. rewrite !fold_left_app.
  cbn [cp_address cp_port cp_idle_hold_time_secs cp_damp_peer_oscillations cp_allow_automatic_stop cp_passive_mode
    cp_delay_open_time_secs cp_max_prefix cp_send_notification_without_open cp_min_route_advertisement_interval_secs
    cp_graceful_restart cp_rr_client cp_rs_client cp_enforce_first_as cp_add_path_send cp_add_path_receive cp_asn cp_md5_key_file
    cp_next_hop_self cp_graceful_shutdown cp_ttl_min cp_interface cp_llgr cp_send_rpki_community cp_afi_safis cp_admin_down].
  erewrite (fold_push_some apply_peer_setting _ _ (with_cp_address x0 peer_config_default) (mkPeerConf x0 default_port
    default_idle_hold_time default_damp_peer_oscillations default_allow_automatic_stop default_passive_mode None None false None
    graceful_restart_default false false default_enforce_first_as ApDisabled false x16 None false false None None None false []
    false));
    [|same|same].
  erewrite (fold_push_if apply_peer_setting _ _ (mkPeerConf x0 default_port default_idle_hold_time default_damp_peer_oscillations
    default_allow_automatic_stop default_passive_mode None None false None graceful_restart_default false false
    default_enforce_first_as ApDisabled false x16 None false false None None None false [] false) (mkPeerConf x0 x1
    default_idle_hold_time default_damp_peer_oscillations default_allow_automatic_stop default_passive_mode None None false None
    graceful_restart_default false false default_enforce_first_as ApDisabled false x16 None false false None None None false []
    false));
    [|same|same].
  erewrite (fold_push_some apply_peer_setting _ _ (mkPeerConf x0 x1 default_idle_hold_time default_damp_peer_oscillations
    default_allow_automatic_stop default_passive_mode None None false None graceful_restart_default false false
    default_enforce_first_as ApDisabled false x16 None false false None None None false [] false) (mkPeerConf x0 x1
    default_idle_hold_time default_damp_peer_oscillations default_allow_automatic_stop default_passive_mode None None false None
    graceful_restart_default false false default_enforce_first_as ApDisabled false x16 None false false None x21 None false []
    false));
    [|same|same].
  erewrite (fold_push_some apply_peer_setting _ _ (mkPeerConf x0 x1 default_idle_hold_time default_damp_peer_oscillations
    default_allow_automatic_stop default_passive_mode None None false None graceful_restart_default false false
    default_enforce_first_as ApDisabled false x16 None false false None x21 None false [] false) (mkPeerConf x0 x1
    default_idle_hold_time default_damp_peer_oscillations default_allow_automatic_stop default_passive_mode None None false None
    graceful_restart_default false false default_enforce_first_as ApDisabled false x16 x17 false false None x21 None false []
    false));
    [|same|same].
  erewrite (fold_push_some apply_peer_setting _ _ (mkPeerConf x0 x1 default_idle_hold_time default_damp_peer_oscillations
    default_allow_automatic_stop default_passive_mode None None false None graceful_restart_default false false
    default_enforce_first_as ApDisabled false x16 x17 false false None x21 None false [] false) (mkPeerConf x0 x1
    default_idle_hold_time default_damp_peer_oscillations default_allow_automatic_stop default_passive_mode None None false None
    graceful_restart_default false false default_enforce_first_as ApDisabled false x16 x17 false false x20 x21 None false []
    false));
    [|same|same].
  erewrite (fold_push_if apply_peer_setting _ _ (mkPeerConf x0 x1 default_idle_hold_time default_damp_peer_oscillations
    default_allow_automatic_stop default_passive_mode None None false None graceful_restart_default false false
    default_enforce_first_as ApDisabled false x16 x17 false false x20 x21 None false [] false) (mkPeerConf x0 x1
    default_idle_hold_time default_damp_peer_oscillations default_allow_automatic_stop default_passive_mode None None false None
    graceful_restart_default false false default_enforce_first_as ApDisabled false x16 x17 x18 false x20 x21 None false []
    false));
    [|same|same].
  erewrite (fold_push_if apply_peer_setting _ _ (mkPeerConf x0 x1 default_idle_hold_time default_damp_peer_oscillations
    default_allow_automatic_stop default_passive_mode None None false None graceful_restart_default false false
    default_enforce_first_as ApDisabled false x16 x17 x18 false x20 x21 None false [] false) (mkPeerConf x0 x1
    default_idle_hold_time default_damp_peer_oscillations default_allow_automatic_stop x5 None None false None
    graceful_restart_default false false default_enforce_first_as ApDisabled false x16 x17 x18 false x20 x21 None false []
    false));
    [|same|same].
  erewrite (fold_push_if apply_peer_setting _ _ (mkPeerConf x0 x1 default_idle_hold_time default_damp_peer_oscillations
    default_allow_automatic_stop x5 None None false None graceful_restart_default false false default_enforce_first_as ApDisabled
    false x16 x17 x18 false x20 x21 None false [] false) (mkPeerConf x0 x1 default_idle_hold_time default_damp_peer_oscillations
    default_allow_automatic_stop x5 None None false None graceful_restart_default x11 false default_enforce_first_as ApDisabled
    false x16 x17 x18 false x20 x21 None false [] false));
    [|same|same].
  erewrite (fold_push_if apply_peer_setting _ _ (mkPeerConf x0 x1 default_idle_hold_time default_damp_peer_oscillations
    default_allow_automatic_stop x5 None None false None graceful_restart_default x11 false default_enforce_first_as ApDisabled
    false x16 x17 x18 false x20 x21 None false [] false) (mkPeerConf x0 x1 default_idle_hold_time default_damp_peer_oscillations
    default_allow_automatic_stop x5 None None false None graceful_restart_default x11 x12 default_enforce_first_as ApDisabled
    false x16 x17 x18 false x20 x21 None false [] false));
    [|same|same].
  erewrite (fold_push_if apply_peer_setting _ _ (mkPeerConf x0 x1 default_idle_hold_time default_damp_peer_oscillations
    default_allow_automatic_stop x5 None None false None graceful_restart_default x11 x12 default_enforce_first_as ApDisabled
    false x16 x17 x18 false x20 x21 None false [] false) (mkPeerConf x0 x1 default_idle_hold_time default_damp_peer_oscillations
    default_allow_automatic_stop x5 None None false None graceful_restart_default x11 x12 default_enforce_first_as ApDisabled
    false x16 x17 x18 x19 x20 x21 None false [] false));
    [|same|same].
  erewrite (fold_push_some apply_peer_setting _ _ (mkPeerConf x0 x1 default_idle_hold_time default_damp_peer_oscillations
    default_allow_automatic_stop x5 None None false None graceful_restart_default x11 x12 default_enforce_first_as ApDisabled
    false x16 x17 x18 x19 x20 x21 None false [] false) (mkPeerConf x0 x1 default_idle_hold_time default_damp_peer_oscillations
    default_allow_automatic_stop x5 x6 None false None graceful_restart_default x11 x12 default_enforce_first_as ApDisabled false
    x16 x17 x18 x19 x20 x21 None false [] false));
    [|same|same].
  erewrite (fold_push_default apply_peer_setting _ _ _ (mkPeerConf x0 x1 default_idle_hold_time default_damp_peer_oscillations
    default_allow_automatic_stop x5 x6 None false None graceful_restart_default x11 x12 default_enforce_first_as ApDisabled false
    x16 x17 x18 x19 x20 x21 None false [] false) (mkPeerConf x0 x1 x2 default_damp_peer_oscillations default_allow_automatic_stop
    x5 x6 None false None graceful_restart_default x11 x12 default_enforce_first_as ApDisabled false x16 x17 x18 x19 x20 x21 None
    false [] false));
    [|exact Hi|same|same].
  erewrite (fold_push_if apply_peer_setting _ _ (mkPeerConf x0 x1 x2 default_damp_peer_oscillations default_allow_automatic_stop
    x5 x6 None false None graceful_restart_default x11 x12 default_enforce_first_as ApDisabled false x16 x17 x18 x19 x20 x21 None
    false [] false) (mkPeerConf x0 x1 x2 x3 default_allow_automatic_stop x5 x6 None false None graceful_restart_default x11 x12
    default_enforce_first_as ApDisabled false x16 x17 x18 x19 x20 x21 None false [] false));
    [|same|same].
  erewrite (fold_push_if apply_peer_setting _ _ (mkPeerConf x0 x1 x2 x3 default_allow_automatic_stop x5 x6 None false None
    graceful_restart_default x11 x12 default_enforce_first_as ApDisabled false x16 x17 x18 x19 x20 x21 None false [] false)
    (mkPeerConf x0 x1 x2 x3 x4 x5 x6 None false None graceful_restart_default x11 x12 default_enforce_first_as ApDisabled false
    x16 x17 x18 x19 x20 x21 None false [] false));
    [|same|same].
  erewrite (fold_push_if apply_peer_setting _ _ (mkPeerConf x0 x1 x2 x3 x4 x5 x6 None false None graceful_restart_default x11 x12
    default_enforce_first_as ApDisabled false x16 x17 x18 x19 x20 x21 None false [] false) (mkPeerConf x0 x1 x2 x3 x4 x5 x6 None
    x8 None graceful_restart_default x11 x12 default_enforce_first_as ApDisabled false x16 x17 x18 x19 x20 x21 None false []
    false));
    [|same|same].
  erewrite (fold_push_some apply_peer_setting _ _ (mkPeerConf x0 x1 x2 x3 x4 x5 x6 None x8 None graceful_restart_default x11 x12
    default_enforce_first_as ApDisabled false x16 x17 x18 x19 x20 x21 None false [] false) (mkPeerConf x0 x1 x2 x3 x4 x5 x6 None
    x8 x9 graceful_restart_default x11 x12 default_enforce_first_as ApDisabled false x16 x17 x18 x19 x20 x21 None false []
    false));
    [|same|same].
  erewrite (fold_push_if apply_peer_setting _ _ (mkPeerConf x0 x1 x2 x3 x4 x5 x6 None x8 x9 graceful_restart_default x11 x12
    default_enforce_first_as ApDisabled false x16 x17 x18 x19 x20 x21 None false [] false) (mkPeerConf x0 x1 x2 x3 x4 x5 x6 None
    x8 x9 graceful_restart_default x11 x12 x13 ApDisabled false x16 x17 x18 x19 x20 x21 None false [] false));
    [|same|same].
  erewrite (fold_push_if apply_peer_setting _ _ (mkPeerConf x0 x1 x2 x3 x4 x5 x6 None x8 x9 graceful_restart_default x11 x12 x13
    ApDisabled false x16 x17 x18 x19 x20 x21 None false [] false) (mkPeerConf x0 x1 x2 x3 x4 x5 x6 None x8 x9
    graceful_restart_default x11 x12 x13 ApDisabled false x16 x17 x18 x19 x20 x21 None x23 [] false));
    [|same|same].
  erewrite (fold_push_if apply_peer_setting _ _ (mkPeerConf x0 x1 x2 x3 x4 x5 x6 None x8 x9 graceful_restart_default x11 x12 x13
    ApDisabled false x16 x17 x18 x19 x20 x21 None x23 [] false) (mkPeerConf x0 x1 x2 x3 x4 x5 x6 None x8 x9
    graceful_restart_default x11 x12 x13 ApDisabled false x16 x17 x18 x19 x20 x21 None x23 [] x25));
    [|same|same].
  reflexivity.
Qed.

Lemma originate_read l : forall r,
  fold_left apply_setting (map SOriginate l) r =
  mkSettingsRead (with_cf_originate (cf_originate (sr_config r) ++ l) (sr_config r)) (sr_has_asn r) (sr_has_router_id r).
Proof.
  induction l as [|o l IH]; intros [[] a b]; cbn [map fold_left]; [by rewrite app_nil_r|]. rewrite IH. cbn. by rewrite <- app_assoc.
Qed.
(** The configuration after the settings. *)
Definition settings_read (c : BgpConfig) : BgpConfig :=
  mkBgpConfig (cf_asn c) (cf_listen_addr c) (cf_router_id c) (cf_grpc_listen_addr c) (cf_hold_time_secs c) (cf_connect_retry_secs c)
    [] [] [] (cf_sys_name c) (cf_sys_descr c) (cf_log_level c) defined_sets_default [] (cf_cluster_id c) None
    (cf_enhanced_rr_stale_ttl c) bgp_ls_default (cf_originate c) None.
Lemma settings_are_read c : is_Some (cf_enhanced_rr_stale_ttl c) ->
  fold_left apply_setting (settings_from_config c) (mkSettingsRead bgp_config_default false false) = mkSettingsRead (settings_read c) true true.
Proof.
  destruct c as [x0 x1 x2 x3 x4 x5 x6 x7 x8 x9 x10 x11 x12 x13 x14 x15 x16 x17 x18 x19]. intros Hi.
  unfold settings_from_config. rewrite !fold_left_app.
  cbn [cf_asn cf_listen_addr cf_router_id cf_grpc_listen_addr cf_hold_time_secs cf_connect_retry_secs cf_peers cf_bmp_servers
    cf_rpki_caches cf_sys_name cf_sys_descr cf_log_level cf_defined_sets cf_policy_definitions cf_cluster_id cf_llgr
    cf_enhanced_rr_stale_ttl cf_bgp_ls cf_originate cf_telemetry] in *.
  change (fold_left apply_setting [SAsn x0; SRouterId x2] (mkSettingsRead bgp_config_default false false)) with (mkSettingsRead
    (mkBgpConfig x0 default_listen_addr x2 default_grpc_listen_addr default_hold_time default_connect_retry_time [] [] [] None
    None default_log_level defined_sets_default [] None None default_enhanced_rr_stale_ttl bgp_ls_default [] None) true true).
  erewrite (fold_push_if apply_setting _ _ (mkSettingsRead (mkBgpConfig x0 default_listen_addr x2 default_grpc_listen_addr
    default_hold_time default_connect_retry_time [] [] [] None None default_log_level defined_sets_default [] None None
    default_enhanced_rr_stale_ttl bgp_ls_default [] None) true true) (mkSettingsRead (mkBgpConfig x0 x1 x2
    default_grpc_listen_addr default_hold_time default_connect_retry_time [] [] [] None None default_log_level
    defined_sets_default [] None None default_enhanced_rr_stale_ttl bgp_ls_default [] None) true true));
    [|same|same].
  erewrite (fold_push_if apply_setting _ _ (mkSettingsRead (mkBgpConfig x0 x1 x2 default_grpc_listen_addr default_hold_time
    default_connect_retry_time [] [] [] None None default_log_level defined_sets_default [] None None
    default_enhanced_rr_stale_ttl bgp_ls_default [] None) true true) (mkSettingsRead (mkBgpConfig x0 x1 x2 x3 default_hold_time
    default_connect_retry_time [] [] [] None None default_log_level defined_sets_default [] None None
    default_enhanced_rr_stale_ttl bgp_ls_default [] None) true true));
    [|same|same].
  erewrite (fold_push_if apply_setting _ _ (mkSettingsRead (mkBgpConfig x0 x1 x2 x3 default_hold_time default_connect_retry_time
    [] [] [] None None default_log_level defined_sets_default [] None None default_enhanced_rr_stale_ttl bgp_ls_default [] None)
    true true) (mkSettingsRead (mkBgpConfig x0 x1 x2 x3 default_hold_time default_connect_retry_time [] [] [] None None x11
    defined_sets_default [] None None default_enhanced_rr_stale_ttl bgp_ls_default [] None) true true));
    [|same|same].
  erewrite (fold_push_if apply_setting _ _ (mkSettingsRead (mkBgpConfig x0 x1 x2 x3 default_hold_time default_connect_retry_time
    [] [] [] None None x11 defined_sets_default [] None None default_enhanced_rr_stale_ttl bgp_ls_default [] None) true true)
    (mkSettingsRead (mkBgpConfig x0 x1 x2 x3 x4 default_connect_retry_time [] [] [] None None x11 defined_sets_default [] None
    None default_enhanced_rr_stale_ttl bgp_ls_default [] None) true true));
    [|same|same].
  erewrite (fold_push_if apply_setting _ _ (mkSettingsRead (mkBgpConfig x0 x1 x2 x3 x4 default_connect_retry_time [] [] [] None
    None x11 defined_sets_default [] None None default_enhanced_rr_stale_ttl bgp_ls_default [] None) true true) (mkSettingsRead
    (mkBgpConfig x0 x1 x2 x3 x4 x5 [] [] [] None None x11 defined_sets_default [] None None default_enhanced_rr_stale_ttl
    bgp_ls_default [] None) true true));
    [|same|same].
  erewrite (fold_push_some apply_setting _ _ (mkSettingsRead (mkBgpConfig x0 x1 x2 x3 x4 x5 [] [] [] None None x11
    defined_sets_default [] None None default_enhanced_rr_stale_ttl bgp_ls_default [] None) true true) (mkSettingsRead
    (mkBgpConfig x0 x1 x2 x3 x4 x5 [] [] [] None None x11 defined_sets_default [] x14 None default_enhanced_rr_stale_ttl
    bgp_ls_default [] None) true true));
    [|same|same].
  erewrite (fold_push_some apply_setting _ _ (mkSettingsRead (mkBgpConfig x0 x1 x2 x3 x4 x5 [] [] [] None None x11
    defined_sets_default [] x14 None default_enhanced_rr_stale_ttl bgp_ls_default [] None) true true) (mkSettingsRead (mkBgpConfig
    x0 x1 x2 x3 x4 x5 [] [] [] x9 None x11 defined_sets_default [] x14 None default_enhanced_rr_stale_ttl bgp_ls_default [] None)
    true true));
    [|same|same].
  erewrite (fold_push_some apply_setting _ _ (mkSettingsRead (mkBgpConfig x0 x1 x2 x3 x4 x5 [] [] [] x9 None x11
    defined_sets_default [] x14 None default_enhanced_rr_stale_ttl bgp_ls_default [] None) true true) (mkSettingsRead (mkBgpConfig
    x0 x1 x2 x3 x4 x5 [] [] [] x9 x10 x11 defined_sets_default [] x14 None default_enhanced_rr_stale_ttl bgp_ls_default [] None)
    true true));
    [|same|same].
  erewrite (fold_push_default apply_setting _ _ _ (mkSettingsRead (mkBgpConfig x0 x1 x2 x3 x4 x5 [] [] [] x9 x10 x11
    defined_sets_default [] x14 None default_enhanced_rr_stale_ttl bgp_ls_default [] None) true true) (mkSettingsRead (mkBgpConfig
    x0 x1 x2 x3 x4 x5 [] [] [] x9 x10 x11 defined_sets_default [] x14 None x16 bgp_ls_default [] None) true true));
    [|exact Hi|same|same].
  by rewrite originate_read.
Qed.

(** ** Families *)
Lemma entry_for_other a s e : mkAfiSafi a s <> ac_afi_safi e -> entry_for a s e = false.
Proof.
  intros Hne. unfold entry_for. rewrite <- bool_decide_and. apply bool_decide_eq_false_2. intros [<- <-]. by apply Hne.
Qed.
Lemma entry_mut_new l a s f : mkAfiSafi a s ∉ map ac_afi_safi l -> afi_safi_entry_mut l a s f = l ++ [f (afi_safi_config_new a s)].
Proof.
  induction l as [|e l IH]; intros Hn; [done|]. cbn [map] in Hn. apply not_elem_of_cons in Hn as [Hne Hn]. cbn [afi_safi_entry_mut].
  rewrite entry_for_other by done. by rewrite IH.
Qed.

Lemma fold_import names : forall e, fold_left apply_directive (map ImportPolicy names) e =
  mkAfiSafiConfig (ac_afi e) (ac_safi e) (ac_max_prefix e) (ac_add_path_send e) (ac_import_policy e ++ names) (ac_export_policy e).
Proof.
  induction names as [|n names IH]; intros []; cbn [map fold_left]; [by rewrite app_nil_r|]. rewrite IH. cbn. by rewrite <- app_assoc.
Qed.
Lemma fold_export names : forall e, fold_left apply_directive (map ExportPolicy names) e =
  mkAfiSafiConfig (ac_afi e) (ac_safi e) (ac_max_prefix e) (ac_add_path_send e) (ac_import_policy e) (ac_export_policy e ++ names).
Proof.
  induction names as [|n names IH]; intros []; cbn [map fold_left]; [by rewrite app_nil_r|]. rewrite IH. cbn. by rewrite <- app_assoc.
Qed.
(** The directives written for an entry make it. *)
Lemma directives_read e : fold_left apply_directive (fb_directives (family_from_entry e)) (afi_safi_config_new (ac_afi e) (ac_safi e)) = e.
Proof.
  destruct e as [a s mp aps imp exp]. unfold family_from_entry. cbn [fb_directives ac_afi ac_safi ac_max_prefix ac_add_path_send ac_import_policy ac_export_policy].
  rewrite !fold_left_app, fold_export, fold_import. destruct mp as [[limit []]|], aps as [[|]|]; done.
Qed.
Lemma families_read l : forall p, NoDup (map ac_afi_safi (cp_afi_safis p ++ l)) ->
  fold_left apply_family (map family_from_entry l) p = with_cp_afi_safis (cp_afi_safis p ++ l) p.
Proof.
  induction l as [|e l IH]; intros p Hd; cbn [map fold_left]; [rewrite app_nil_r; by destruct p|].
  assert (apply_family p (family_from_entry e) = with_cp_afi_safis (cp_afi_safis p ++ [e]) p) as ->.
  { unfold apply_family. change (fb_afi (family_from_entry e)) with (ac_afi e). change (fb_safi (family_from_entry e)) with (ac_safi e).
    rewrite entry_mut_new; [by rewrite directives_read|]. rewrite map_app in Hd. apply NoDup_app in Hd as (_ & Hd & _). intros Hin.
    apply (Hd _ Hin). by left. }
  destruct p. cbn. rewrite IH; cbn; rewrite <- app_assoc; done.
Qed.


Lemma peer_read p : peer_kept p -> peer_config_from_block (peer_block_from_config p) = p.
Proof.
  intros Hp. unfold peer_config_from_block, peer_block_from_config, families_from_peer_config. cbn [pb_address pb_settings pb_families].
  rewrite (peer_settings_read p Hp), families_read; rewrite (filter_all _ _ (pk_entries p Hp)); [by destruct p|].
  destruct p. exact (pk_families _ Hp).
Qed.

(** ** Peers of the daemon *)
Lemma find_peer_none c ip : Some ip ∉ map cp_ip (cf_peers c) -> find_peer c ip = None.
Proof.
  unfold find_peer. induction (cf_peers c) as [|p l IH]; [done|]. intros [Hne Hn]%not_elem_of_cons. cbn [find].
  rewrite bool_decide_eq_false_2 by congruence. by apply IH.
Qed.
Lemma insert_peers_read l : forall c, Forall peer_kept l -> NoDup (map cp_ip (cf_peers c ++ l)) ->
  insert_peers c (map peer_block_from_config l) = inr (with_cf_peers (cf_peers c ++ l) c).
Proof.
  induction l as [|p l IH]; intros c Hl Hd; cbn [map insert_peers]; [rewrite app_nil_r; by destruct c|].
  apply Forall_cons in Hl as [Hp Hl]. rewrite peer_read by done. unfold insert_peer. destruct (pk_ip p Hp) as [ip Hip]. rewrite Hip.
  rewrite find_peer_none.
  - rewrite IH by (try done; destruct c; cbn in *; by rewrite <- app_assoc). destruct c; cbn. by rewrite <- app_assoc.
  - rewrite map_app in Hd. apply NoDup_app in Hd as (_ & Hd & _). intros Hin. apply (Hd _ Hin). rewrite <- Hip. by left.
Qed.

(** ** Policies *)
Lemma match_set_ref_read r : match_set_ref_to_config (match_set_ref_from_config r) = r.
Proof. by destruct r as [n []]. Qed.
Lemma rpki_read v : rpki_kind_to_config (rpki_config_to_kind v) = v.
Proof. by destruct v. Qed.
Lemma operation_read op : community_op_from_str (community_op_to_str op) = Some op.
Proof. by destruct op. Qed.

Lemma fold_clause_if {S A C} (f : S -> C -> S) (o : option A) make r r' :
  (forall a, o = Some a -> f r (make a) = r') -> (o = None -> r = r') -> fold_left f (clause_if o make) r = r'.
Proof. destruct o; cbn; auto. Qed.
Ltac clause := first [intros ? ->; unfold apply_match_clause; rewrite ?match_set_ref_read, ?rpki_read; reflexivity | intros ->; reflexivity].
Lemma conditions_read c : fold_left apply_match_clause (matches_from_config c) conditions_default = c.
Proof.
  destruct c as [x0 x1 x2 x3 x4 x5 x6 x7 x8 x9 x10 x11 x12 x13 x14 x15 x16 x17]. unfold matches_from_config. rewrite
    !fold_left_app.
  cbn [cd_match_prefix_set cd_match_neighbor_set cd_match_as_path_set cd_match_community_set cd_match_ext_community_set
    cd_match_large_community_set cd_prefix cd_neighbor cd_has_asn cd_route_type cd_community cd_rpki_validation cd_afi_safi
    cd_ls_nlri_type cd_ls_protocol_id cd_ls_instance_id cd_ls_node_as cd_ls_node_router_id].
  erewrite (fold_clause_if apply_match_clause _ _ conditions_default (mkConditions x0 None None None None None None None None None
    None None None None None None None None)); [|clause|clause].
  erewrite (fold_clause_if apply_match_clause _ _ (mkConditions x0 None None None None None None None None None None None None
    None None None None None) (mkConditions x0 x1 None None None None None None None None None None None None None None None
    None)); [|clause|clause].
  erewrite (fold_clause_if apply_match_clause _ _ (mkConditions x0 x1 None None None None None None None None None None None None
    None None None None) (mkConditions x0 x1 x2 None None None None None None None None None None None None None None None)); [|clause|clause].
  erewrite (fold_clause_if apply_match_clause _ _ (mkConditions x0 x1 x2 None None None None None None None None None None None
    None None None None) (mkConditions x0 x1 x2 x3 None None None None None None None None None None None None None None)); [|clause|clause].
  erewrite (fold_clause_if apply_match_clause _ _ (mkConditions x0 x1 x2 x3 None None None None None None None None None None None
    None None None) (mkConditions x0 x1 x2 x3 x4 None None None None None None None None None None None None None)); [|clause|clause].
  erewrite (fold_clause_if apply_match_clause _ _ (mkConditions x0 x1 x2 x3 x4 None None None None None None None None None None
    None None None) (mkConditions x0 x1 x2 x3 x4 x5 None None None None None None None None None None None None)); [|clause|clause].
  erewrite (fold_clause_if apply_match_clause _ _ (mkConditions x0 x1 x2 x3 x4 x5 None None None None None None None None None
    None None None) (mkConditions x0 x1 x2 x3 x4 x5 x6 None None None None None None None None None None None)); [|clause|clause].
  erewrite (fold_clause_if apply_match_clause _ _ (mkConditions x0 x1 x2 x3 x4 x5 x6 None None None None None None None None None
    None None) (mkConditions x0 x1 x2 x3 x4 x5 x6 x7 None None None None None None None None None None)); [|clause|clause].
  erewrite (fold_clause_if apply_match_clause _ _ (mkConditions x0 x1 x2 x3 x4 x5 x6 x7 None None None None None None None None
    None None) (mkConditions x0 x1 x2 x3 x4 x5 x6 x7 x8 None None None None None None None None None)); [|clause|clause].
  erewrite (fold_clause_if apply_match_clause _ _ (mkConditions x0 x1 x2 x3 x4 x5 x6 x7 x8 None None None None None None None None
    None) (mkConditions x0 x1 x2 x3 x4 x5 x6 x7 x8 x9 None None None None None None None None)); [|clause|clause].
  erewrite (fold_clause_if apply_match_clause _ _ (mkConditions x0 x1 x2 x3 x4 x5 x6 x7 x8 x9 None None None None None None None
    None) (mkConditions x0 x1 x2 x3 x4 x5 x6 x7 x8 x9 x10 None None None None None None None)); [|clause|clause].
  erewrite (fold_clause_if apply_match_clause _ _ (mkConditions x0 x1 x2 x3 x4 x5 x6 x7 x8 x9 x10 None None None None None None
    None) (mkConditions x0 x1 x2 x3 x4 x5 x6 x7 x8 x9 x10 x11 None None None None None None)); [|clause|clause].
  erewrite (fold_clause_if apply_match_clause _ _ (mkConditions x0 x1 x2 x3 x4 x5 x6 x7 x8 x9 x10 x11 None None None None None
    None) (mkConditions x0 x1 x2 x3 x4 x5 x6 x7 x8 x9 x10 x11 x12 None None None None None)); [|clause|clause].
  erewrite (fold_clause_if apply_match_clause _ _ (mkConditions x0 x1 x2 x3 x4 x5 x6 x7 x8 x9 x10 x11 x12 None None None None
    None) (mkConditions x0 x1 x2 x3 x4 x5 x6 x7 x8 x9 x10 x11 x12 x13 None None None None)); [|clause|clause].
  erewrite (fold_clause_if apply_match_clause _ _ (mkConditions x0 x1 x2 x3 x4 x5 x6 x7 x8 x9 x10 x11 x12 x13 None None None None)
    (mkConditions x0 x1 x2 x3 x4 x5 x6 x7 x8 x9 x10 x11 x12 x13 x14 None None None)); [|clause|clause].
  erewrite (fold_clause_if apply_match_clause _ _ (mkConditions x0 x1 x2 x3 x4 x5 x6 x7 x8 x9 x10 x11 x12 x13 x14 None None None)
    (mkConditions x0 x1 x2 x3 x4 x5 x6 x7 x8 x9 x10 x11 x12 x13 x14 x15 None None)); [|clause|clause].
  erewrite (fold_clause_if apply_match_clause _ _ (mkConditions x0 x1 x2 x3 x4 x5 x6 x7 x8 x9 x10 x11 x12 x13 x14 x15 None None)
    (mkConditions x0 x1 x2 x3 x4 x5 x6 x7 x8 x9 x10 x11 x12 x13 x14 x15 x16 None)); [|clause|clause].
  erewrite (fold_clause_if apply_match_clause _ _ (mkConditions x0 x1 x2 x3 x4 x5 x6 x7 x8 x9 x10 x11 x12 x13 x14 x15 x16 None)
    (mkConditions x0 x1 x2 x3 x4 x5 x6 x7 x8 x9 x10 x11 x12 x13 x14 x15 x16 x17)); [|clause|clause].
  reflexivity.
Qed.

Lemma flag_cases o : flag_kept o -> o = None \/ o = Some true.
Proof. destruct o as [[|]|]; [by right|done|by left]. Qed.
Lemma community_clause_if_read {A} (o : option A) operation values make :
  opt_kept (fun a => operation_kept (operation a)) o ->
  community_clause_if o operation values make =
  Some (clause_if o (fun a => make (mkCommunityOp (default OpAdd (community_op_from_str (operation a))) (values a)))).
Proof. destruct o as [a|]; cbn [opt_kept]; [|done]. intros [op E]. unfold community_clause_if. cbn. by rewrite E, operation_read. Qed.
Lemma operation_kept_read operation : operation_kept operation ->
  community_op_to_str (default OpAdd (community_op_from_str operation)) = operation.
Proof. intros [op ->]. by rewrite operation_read. Qed.

(** The disposition, and the set clauses, make the actions. *)
Lemma disposition_read a : actions_kept a -> exists d, disposition_from_config a = Some d /\
  forall b, ax_accept b = None -> ax_reject b = None ->
    apply_disposition b d = with_ax_accept (ax_accept a) (with_ax_reject (ax_reject a) b).
Proof.
  intros [Ha Hr Hor _ _ _ _ _]. unfold disposition_from_config. destruct (flag_cases _ Ha) as [E|E], (flag_cases _ Hr) as [E'|E']; rewrite E, E' in *.
  - exists None. split; [done|]. intros [] H1 H2. cbn in *. by subst.
  - exists (Some DReject). split; [done|]. intros [] H1 H2. cbn in *. by subst.
  - exists (Some DAccept). split; [done|]. intros [] H1 H2. cbn in *. by subst.
  - by destruct Hor.
Qed.
Lemma sets_read a : actions_kept a -> exists sets, sets_from_config a = Some sets /\
  fold_left apply_set_clause sets actions_default = with_ax_accept None (with_ax_reject None a).
Proof.
  destruct a as [acc rej lp med c ec lc rv]. intros [_ _ _ Hlp Hmed Hc Hec Hlc].
  cbn [ax_local_pref ax_med ax_community ax_ext_community ax_large_community] in *.
  unfold sets_from_config. cbn [ax_local_pref ax_med ax_community ax_ext_community ax_large_community ax_set_rpki_state].
  rewrite (community_clause_if_read c) by done. rewrite (community_clause_if_read ec) by done. rewrite (community_clause_if_read lc) by done.
  eexists. split; [reflexivity|]. rewrite !fold_left_app.
  erewrite (fold_clause_if apply_set_clause lp _ _ (mkActions None None lp None None None None None));
    [|intros v ->; destruct v; cbn in Hlp; subst; reflexivity|by intros ->].
  erewrite (fold_clause_if apply_set_clause med _ _ (mkActions None None lp med None None None None));
    [|intros v ->; destruct v; cbn in Hmed; subst; reflexivity|by intros ->].
  erewrite (fold_clause_if apply_set_clause c _ _ (mkActions None None lp med c None None None));
    [|intros v ->; destruct v as [o vs]; cbn [apply_set_clause co_op co_values ca_operation ca_communities] in *; by rewrite operation_kept_read|by intros ->].
  erewrite (fold_clause_if apply_set_clause ec _ _ (mkActions None None lp med c ec None None));
    [|intros v ->; destruct v as [o vs]; cbn [apply_set_clause co_op co_values ea_operation ea_ext_communities] in *; by rewrite operation_kept_read|by intros ->].
  erewrite (fold_clause_if apply_set_clause lc _ _ (mkActions None None lp med c ec lc None));
    [|intros v ->; destruct v as [o vs]; cbn [apply_set_clause co_op co_values la_operation la_large_communities] in *; by rewrite operation_kept_read|by intros ->].
  apply fold_clause_if; [intros v ->; cbn [apply_set_clause]; by rewrite rpki_read|by intros ->].
Qed.
Lemma statement_read s : actions_kept (st_actions s) -> exists b, statement_config_to_block s = Some b /\ statement_block_to_config b = s.
Proof.
  intros Hk. destruct (disposition_read _ Hk) as (d & Ed & Hd). destruct (sets_read _ Hk) as (sets & Es & Hs).
  unfold statement_config_to_block. rewrite Es. cbn. rewrite Ed. cbn. eexists. split; [reflexivity|]. unfold statement_block_to_config.
  cbn [sb_name sb_matches sb_sets sb_disposition]. rewrite conditions_read, Hs, Hd by by destruct (st_actions s). by destruct s as [? ? []].
Qed.

(** A shorthand is made only of a statement that it stands for. *)
Lemma shorthand_read s rule : actions_kept (st_actions s) -> shorthand_for s = Some rule -> rule_to_config rule = inr s.
Proof.
  destruct s as [name conds acts]. unfold shorthand_for. cbn [st_name st_conditions st_actions]. intros Hk. destruct name; [done|].
  destruct (has_other_conditions conds) eqn:Eo; [done|]. destruct (config_to_action acts) as [action|] eqn:Ea; [|done]. cbn.
  assert (action_to_config action = inr acts) as Hact.
  { unfold config_to_action in Ea. destruct (has_transform acts) eqn:Et; [done|]. destruct Hk as [Ha Hr Hor _ _ _ _ _].
    destruct acts as [acc rej lp med c ec lc rv]. unfold has_transform in Et. cbn in *. rewrite !orb_false_iff, !bool_decide_eq_false in Et.
    destruct Et as (((((Hlp & Hmed) & Hc) & Hec) & Hlc) & Hrv). apply eq_None_not_Some in Hlp, Hmed, Hc, Hec, Hlc, Hrv. subst.
    destruct (flag_cases _ Ha) as [-> | ->], (flag_cases _ Hr) as [-> | ->]; cbn in Ea; try done; injection Ea as <-; done. }
  destruct conds. unfold has_other_conditions in Eo. cbn in *. rewrite !orb_false_iff, !bool_decide_eq_false in Eo. 
  repeat match goal with H : _ /\ _ |- _ => destruct H end.
  repeat match goal with H : ~ is_Some _ |- _ => apply eq_None_not_Some in H; subst end.
  match goal with |- match ?o with Some _ => _ | None => _ end = _ -> _ => destruct o as [[n []]|] end; intros E; try done; injection E as <-;
    cbn [rule_to_config]; rewrite Hact; done.
Qed.
Lemma rule_read s : actions_kept (st_actions s) -> exists rule, rule_from_config s = Some rule /\ rule_to_config rule = inr s.
Proof.
  intros Hk. unfold rule_from_config. destruct (shorthand_for s) as [rule|] eqn:E; [exists rule; split; [done|by apply shorthand_read]|].
  destruct (statement_read s Hk) as (b & Eb & Hb). rewrite Eb. exists (PrStatement b). split; [done|]. cbn. by rewrite Hb.
Qed.
Lemma rules_read l : Forall (fun s => actions_kept (st_actions s)) l -> exists rules, mapM rule_from_config l = Some rules /\ all_or_error rule_to_config rules = inr l.
Proof.
  induction 1 as [|s l Hs _ (rules & E & Hr)]; [by exists []|]. destruct (rule_read s Hs) as (rule & E1 & H1).
  exists (rule :: rules). cbn [mapM all_or_error]. rewrite E1. cbn. rewrite E. cbn. rewrite H1, Hr. done.
Qed.
Lemma policies_read l : Forall policy_kept l -> all_or_error policy_block_to_definition (omap policy_definition_to_block l) = inr l.
Proof.
  induction 1 as [|d l Hd _ IH]; [done|]. destruct (rules_read _ Hd) as (rules & E & Hr). cbn [omap list_omap].
  unfold policy_definition_to_block at 1. rewrite E.
  cbn [mbind option_bind all_or_error]. unfold policy_block_to_definition at 1. cbn [po_rules po_name]. rewrite Hr.
  cbn [omap list_omap] in IH. rewrite IH. by destruct d.
Qed.

(** ** Sets *)
Lemma digits_no_dot s : digits s -> Forall (fun c => c <> 46) s.
Proof. intros Hs. eapply Forall_impl; [exact Hs|]. intros c Hc%is_digit_range. lia. Qed.
Lemma split_dots_at a b : Forall (fun c => c <> 46) a -> split_dots (a ++ 46 :: 46 :: b) = Some (a, b).
Proof.
  induction 1 as [|c a Hc Ha IH]; [done|]. cbn [app].
  destruct (a ++ 46 :: 46 :: b) as [|d rest] eqn:E; [by destruct a|]. cbn [split_dots]. rewrite (proj2 (Z.eqb_neq c 46) Hc). cbn [andb].
  cbn [split_dots] in IH. rewrite IH. done.
Qed.
Lemma bound_read o : bound_kept o -> runtime_bound (if_some o dec) = Some o.
Proof.
  destruct o as [v|]; [|done]. intros Hv. cbn in Hv. cbn [if_some]. unfold runtime_bound. pose proof (dec_not_nil v).
  destruct (dec v) as [|c s] eqn:E; [done|]. rewrite <- E, parse_uint_dec by lia. done.
Qed.
Lemma range_read r : range_kept r -> runtime_to_masklength_range (masklength_range_to_runtime r) = Some r.
Proof.
  destruct r as [|ge le]; [done|]. intros (Hne & Hg & Hl). unfold masklength_range_to_runtime, runtime_to_masklength_range.
  assert (digits (if_some ge dec)) as Hd.
  { destruct ge as [v|]; [apply dec_digits; cbn in Hg; lia|by apply Forall_nil]. }
  assert (str_eqb (if_some ge dec ++ str ".." ++ if_some le dec) (str "exact") = false) as ->.
  { destruct (str_eqb _ _) eqn:E; [|done]. apply str_eqb_eq in E. destruct (if_some ge dec) as [|c s]; [done|].
    assert (Some c = Some 101) as [= ->] by (apply (f_equal head) in E; exact E). apply Forall_cons in Hd as [Hd%is_digit_range _]. lia. }
  change (str ".." ++ if_some le dec) with (46 :: 46 :: if_some le dec). rewrite split_dots_at by by apply digits_no_dot. cbn.
  rewrite !bound_read by done. cbn. destruct ge, le; try done. by destruct Hne.
Qed.
Lemma prefix_set_read c : prefix_set_kept c -> exists b, prefix_set_to_block c = Some b /\ prefix_list_block_to_set b = c.
Proof.
  destruct c as [name ps]. intros [Hne Hps]. cbn [psc_prefixes] in *. unfold prefix_set_to_block. cbn [psc_prefixes psc_name].
  destruct ps as [|p ps]; [done|]. cbn [map]. eexists. split; [reflexivity|]. unfold prefix_list_block_to_set. cbn [pl_name pl_prefixes]. f_equal.
  change (map (fun e => mkPrefixMatchConfig (ple_prefix e) (option_map masklength_range_to_runtime (ple_range e)))
    (map (fun e => mkPrefixListEntry (pm_prefix e) (pm_masklength_range e ≫= runtime_to_masklength_range)) (p :: ps)) = p :: ps).
  rewrite map_map. rewrite <- (map_id (p :: ps)) at 2. apply map_ext_Forall. eapply Forall_impl; [exact Hps|].
  intros [q [r|]]; unfold match_kept; cbn; [|done]. intros (r' & Hr & ->). by rewrite range_read.
Qed.
Lemma prefix_sets_read l : Forall prefix_set_kept l -> map prefix_list_block_to_set (omap prefix_set_to_block l) = l.
Proof.
  induction 1 as [|c l Hc _ IH]; [done|]. destruct (prefix_set_read c Hc) as (b & E & Hb). cbn. rewrite E. cbn. cbn in IH. by rewrite Hb, IH.
Qed.

Lemma map_back {A B} (f : A -> B) (g : B -> A) (l : list A) : (forall a, g (f a) = a) -> map g (map f l) = l.
Proof. intros H. rewrite map_map. rewrite <- (map_id l) at 2. by apply map_ext. Qed.

Lemma telemetry_read t : telemetry_config_from_block (telemetry_block_from_config t) = t.
Proof.
  destruct t as [sink prom]. unfold telemetry_config_from_block, telemetry_block_from_config. cbn [tc_sink tc_prometheus].
  assert (option_map (fun prom => mkPrometheusConfig (default default_prometheus_listen (pm_listen prom)))
    (option_map (fun prom => mkPrometheusBlock (if str_eqb (prc_listen prom) default_prometheus_listen then None else Some (prc_listen prom))) prom) = prom) as Hp.
  { destruct prom as [[listen]|]; [|done]. cbn [option_map prc_listen]. destruct (str_eqb listen default_prometheus_listen) eqn:E; [|done].
    apply str_eqb_eq in E. by subst. }
  destruct sink as [[|ns]|]; cbn [tm_json tm_cloudwatch_emf tm_prometheus option_map]; by rewrite Hp.
Qed.
Lemma rpki_cache_read c : rpki_config_from_block (rpki_block_from_config c) = c.
Proof.
  destruct c as [a p t u k h r f e]. unfold rpki_config_from_block, rpki_block_from_config. cbn.
  destruct (Z.eqb_spec p 0); subst; by destruct t.
Qed.

(** ** The daemon *)
Lemma blocks_read c : lsc_max_ls_entries (cf_bgp_ls c) = 0 ->
  match option_map telemetry_block_from_config (cf_telemetry c) with
  | Some t => with_cf_telemetry (Some (telemetry_config_from_block t))
      match (if lsc_instance_id (cf_bgp_ls c) =? 0 then None else Some (mkBgpLsBlock (lsc_instance_id (cf_bgp_ls c)))) with
      | Some l => with_cf_bgp_ls (mkBgpLsConfig (lsc_max_ls_entries (cf_bgp_ls (settings_read c))) (bl_instance_id l)) (settings_read c)
      | None => settings_read c
      end
  | None =>
      match (if lsc_instance_id (cf_bgp_ls c) =? 0 then None else Some (mkBgpLsBlock (lsc_instance_id (cf_bgp_ls c)))) with
      | Some l => with_cf_bgp_ls (mkBgpLsConfig (lsc_max_ls_entries (cf_bgp_ls (settings_read c))) (bl_instance_id l)) (settings_read c)
      | None => settings_read c
      end
  end = mkBgpConfig (cf_asn c) (cf_listen_addr c) (cf_router_id c) (cf_grpc_listen_addr c) (cf_hold_time_secs c) (cf_connect_retry_secs c)
      [] [] [] (cf_sys_name c) (cf_sys_descr c) (cf_log_level c) defined_sets_default [] (cf_cluster_id c) None (cf_enhanced_rr_stale_ttl c)
      (cf_bgp_ls c) (cf_originate c) (cf_telemetry c).
Proof.
  intros Hls. destruct (cf_bgp_ls c) as [m i] eqn:El. cbn in Hls. subst. cbn [lsc_instance_id].
  destruct (cf_telemetry c) as [t|] eqn:Et; cbn [option_map]; rewrite ?telemetry_read; destruct (Z.eqb_spec i 0) as [-> |Hi]; done.
Qed.
Lemma body_read c : conf_kept c -> config_from_body (to_bgp_service_body c) = inr c.
Proof.
  intros [Hrid Hpeers Hd Hllgr Httl Hls Hpol Hps]. unfold config_from_body, to_bgp_service_body.
  cbn [bs_settings bs_peers bs_policies bs_prefix_lists bs_neighbor_sets bs_as_path_sets bs_community_sets bs_ext_community_sets
    bs_large_community_sets bs_bmp_servers bs_rpki_caches bs_bgp_ls bs_telemetry].
  rewrite settings_are_read by done. cbn [negb].
  rewrite blocks_read by done.
  cbn [cf_router_id]. rewrite (proj2 (Z.eqb_neq _ _) Hrid). rewrite insert_peers_read by done.
  cbn [app cf_peers cf_defined_sets cf_policy_definitions cf_bmp_servers cf_rpki_caches with_cf_peers with_cf_defined_sets
    with_cf_policy_definitions with_cf_bmp_servers with_cf_rpki_caches]. rewrite policies_read by done.
  rewrite prefix_sets_read by done. rewrite !map_back by (intros []; done || apply rpki_cache_read).
  destruct c as [? ? ? ? ? ? ? ? ? ? ? ? [] ? ? ? ? ? ? ?]. cbn in Hllgr |- *. by subst.
Qed.
