(* ===== verification/ConfMain.v ===== *)
(** * The configuration of the daemon: loading a saved file gives it back *)
From S2P Require Import Prelude Net Nlri BgpLs Attrs Text LangBgp LangBgpParse LangSpec LangPolicy LangMain LangTotal OpenMsg Path PeerCaps Conf ConfFile ConfSpec.

(** ** Values that a file can hold *)
Record entry_values (e : AfiSafiConfig) : Prop := {
  ev_max_prefix : opt_ok (fun m => u32 (mps_limit m)) (ac_max_prefix e);
  ev_import : Forall word_ok (ac_import_policy e);
  ev_export : Forall word_ok (ac_export_policy e);
}.
Record peer_values (p : PeerConfig) : Prop := {
  pv_address : word_ok (cp_address p);
  pv_port : u16 (cp_port p);
  pv_asn : opt_ok u32 (cp_asn p);
  pv_interface : opt_ok word_ok (cp_interface p);
  pv_md5_key_file : opt_ok word_ok (cp_md5_key_file p);
  pv_ttl_min : opt_ok u8 (cp_ttl_min p);
  pv_delay_open : opt_ok u64 (cp_delay_open_time_secs p);
  pv_idle_hold : opt_ok u64 (cp_idle_hold_time_secs p);
  pv_min_route : opt_ok u64 (cp_min_route_advertisement_interval_secs p);
  pv_entries : Forall entry_values (cp_afi_safis p);
}.
Definition ref_values (r : MatchSetRefConfig) : Prop := word_ok (mr_set_name r).
Record conditions_values (c : ConditionsConfig) : Prop := {
  cv_prefix_set : opt_ok ref_values (cd_match_prefix_set c);
  cv_neighbor_set : opt_ok ref_values (cd_match_neighbor_set c);
  cv_as_path_set : opt_ok ref_values (cd_match_as_path_set c);
  cv_community_set : opt_ok ref_values (cd_match_community_set c);
  cv_ext_community_set : opt_ok ref_values (cd_match_ext_community_set c);
  cv_large_community_set : opt_ok ref_values (cd_match_large_community_set c);
  cv_words : Forall (opt_ok word_ok) [cd_prefix c; cd_neighbor c; cd_route_type c; cd_community c; cd_afi_safi c; cd_ls_nlri_type c;
    cd_ls_protocol_id c; cd_ls_node_router_id c];
  cv_has_asn : opt_ok u32 (cd_has_asn c);
  cv_ls_instance_id : opt_ok u64 (cd_ls_instance_id c);
  cv_ls_node_as : opt_ok u32 (cd_ls_node_as c);
}.
Record actions_values (a : ActionsConfig) : Prop := {
  av_local_pref : opt_ok (fun lp => match lp with LpSet v | LpForce v _ => u32 v end) (ax_local_pref a);
  av_med : opt_ok (fun m => match m with MaSet v => u32 v | MaRemove _ => True end) (ax_med a);
  av_community : opt_ok (fun c => Forall word_ok (ca_communities c)) (ax_community a);
  av_ext_community : opt_ok (fun c => Forall word_ok (ea_ext_communities c)) (ax_ext_community a);
  av_large_community : opt_ok (fun c => Forall word_ok (la_large_communities c)) (ax_large_community a);
}.
Definition statement_values (s : StatementConfig) : Prop :=
  opt_ok word_ok (st_name s) /\ conditions_values (st_conditions s) /\ actions_values (st_actions s).
Definition policy_values (d : PolicyDefinitionConfig) : Prop := word_ok (pd_name d) /\ Forall statement_values (pd_statements d).
Definition prefix_set_values (c : PrefixSetConfig) : Prop := word_ok (psc_name c) /\ Forall (fun m => word_ok (pm_prefix m)) (psc_prefixes c).
Record sets_values (d : DefinedSetsConfig) : Prop := {
  sv_prefix_sets : Forall prefix_set_values (ds_prefix_sets d);
  sv_neighbor_sets : Forall (fun c => words_ok (nsc_name c) (nsc_neighbors c)) (ds_neighbor_sets d);
  sv_as_path_sets : Forall (fun c => word_ok (asc_name c) /\ Forall quotable (asc_patterns c)) (ds_as_path_sets d);
  sv_community_sets : Forall (fun c => words_ok (csc_name c) (csc_communities c)) (ds_community_sets d);
  sv_ext_community_sets : Forall (fun c => words_ok (ecc_name c) (ecc_ext_communities c)) (ds_ext_community_sets d);
  sv_large_community_sets : Forall (fun c => words_ok (lcc_name c) (lcc_large_communities c)) (ds_large_community_sets d);
}.
Definition cache_values (c : RpkiCacheConfig) : Prop :=
  word_ok (cc_address c) /\ u8 (cc_preference c) /\ opt_ok word_ok (cc_ssh_username c) /\ opt_ok word_ok (cc_ssh_private_key_file c) /\
  opt_ok word_ok (cc_ssh_known_hosts_file c) /\ opt_ok u64 (cc_retry_interval c) /\ opt_ok u64 (cc_refresh_interval c) /\
  opt_ok u64 (cc_expire_interval c).
Definition telemetry_values (t : TelemetryConfig) : Prop :=
  opt_ok (fun s => match s with TsJson => True | TsCloudwatchEmf namespace => word_ok namespace end) (tc_sink t) /\
  opt_ok (fun p => word_ok (prc_listen p)) (tc_prometheus t).
Record conf_values (c : BgpConfig) : Prop := {
  kv_asn : u32 (cf_asn c);
  kv_router_id : u32 (cf_router_id c);
  kv_listen : word_ok (cf_listen_addr c) /\ word_ok (cf_grpc_listen_addr c) /\ word_ok (cf_log_level c);
  kv_times : u64 (cf_hold_time_secs c) /\ u64 (cf_connect_retry_secs c) /\ opt_ok u64 (cf_enhanced_rr_stale_ttl c);
  kv_cluster_id : opt_ok u32 (cf_cluster_id c);
  kv_sys : opt_ok sys_ok (cf_sys_name c) /\ opt_ok sys_ok (cf_sys_descr c);
  kv_originate : Forall (fun r => word_ok (og_prefix r) /\ word_ok (og_nexthop r)) (cf_originate c);
  kv_peers : Forall peer_values (cf_peers c);
  kv_policies : Forall policy_values (cf_policy_definitions c);
  kv_sets : sets_values (cf_defined_sets c);
  kv_bmp : Forall (fun b => word_ok (bc_address b) /\ opt_ok u64 (bc_statistics_timeout b)) (cf_bmp_servers c);
  kv_caches : Forall cache_values (cf_rpki_caches c);
  kv_ls : u64 (lsc_instance_id (cf_bgp_ls c));
  kv_telemetry : opt_ok telemetry_values (cf_telemetry c);
}.
(** What a file keeps, with values that a file can hold. *)
Definition conf_ok (c : BgpConfig) : Prop := conf_kept c /\ conf_values c.

(** ** The tree of such a configuration *)
Lemma Forall_push_if (P : Setting -> Prop) b s : P s -> Forall P (push_if b s).
Proof. intros Hs. destruct b; by repeat constructor. Qed.
Lemma Forall_push_some {A} (P : Setting -> Prop) (o : option A) make : opt_ok (fun a => P (make a)) o -> Forall P (push_some o make).
Proof. destruct o; intros Ho; by repeat constructor. Qed.
Lemma Forall_clause_if {A C} (P : C -> Prop) (o : option A) make : opt_ok (fun a => P (make a)) o -> Forall P (clause_if o make).
Proof. destruct o; intros Ho; by repeat constructor. Qed.
Lemma Forall_push_default (P : Setting -> Prop) (o d : option Z) make : opt_ok (fun v => P (make v)) o ->
  Forall P (match o with Some v => push_if (bool_decide (Some v <> d)) (make v) | None => [] end).
Proof. destruct o; intros Ho; [by apply Forall_push_if|constructor]. Qed.

Lemma opt_ok_impl {A} (P Q : A -> Prop) o : opt_ok P o -> (forall a, P a -> Q a) -> opt_ok Q o.
Proof. destruct o; cbn; auto. Qed.
Ltac settings_ok :=
  repeat (apply Forall_app; split);
  first
    [ apply Forall_push_if; cbn; tauto
    | first [apply Forall_push_default | apply Forall_push_some]; eapply opt_ok_impl; [eassumption|cbn; tauto] ].

Lemma peer_values_settings p : peer_values p -> Forall (fun s => setting_ok s /\ is_originate s = false) (peer_settings_from_config p).
Proof. intros []. unfold peer_settings_from_config. settings_ok. Qed.
Lemma entry_values_family e : entry_values e -> family_ok (family_from_entry e).
Proof.
  intros [Hm Hi He]. unfold family_ok, family_from_entry. cbn [fb_directives]. repeat (apply Forall_app; split).
  - destruct (ac_max_prefix e); [|constructor]. by apply Forall_singleton.
  - destruct (ac_add_path_send e); repeat constructor.
  - by apply Forall_map.
  - by apply Forall_map.
Qed.
Lemma peer_values_block p : peer_values p -> peer_ok (peer_block_from_config p).
Proof.
  intros Hp. split_and!; [apply Hp|by apply peer_values_settings|]. unfold peer_block_from_config, families_from_peer_config. cbn [pb_families].
  apply Forall_map. apply Forall_forall. intros e [_ He]%list_elem_of_filter. apply entry_values_family.
  pose proof (pv_entries p Hp) as Hv. rewrite Forall_forall in Hv. by apply Hv.
Qed.

Lemma ref_values_ok r : ref_values r -> match_set_ref_ok (match_set_ref_from_config r).
Proof. by destruct r. Qed.
Lemma conditions_values_ok c : conditions_values c -> Forall match_clause_ok (matches_from_config c).
Proof.
  intros [H1 H2 H3 H4 H5 H6 Hw H7 H8 H9]. rewrite !Forall_cons in Hw. destruct Hw as (? & ? & ? & ? & ? & ? & ? & ? & _). unfold matches_from_config.
  repeat (apply Forall_app; split); apply Forall_clause_if;
    first [eapply opt_ok_impl; [eassumption|cbn; auto; apply ref_values_ok] | by destruct (cd_rpki_validation c)].
Qed.
Lemma actions_values_ok a sets : actions_values a -> sets_from_config a = Some sets -> Forall set_clause_ok sets.
Proof.
  intros [H1 H2 H3 H4 H5]. unfold sets_from_config.
  assert (forall A (o : option A) operation values make l, opt_ok (fun c => Forall word_ok (values c)) o ->
    (forall op, set_clause_ok (make op) = community_op_ok op) -> community_clause_if o operation values make = Some l -> Forall set_clause_ok l) as Hc.
  { intros A o operation values make l Ho Hm. destruct o as [c|]; cbn; [|by intros [= <-]].
    destruct (community_op_from_str (operation c)); [|done]. intros [= <-]. apply Forall_singleton. rewrite Hm. exact Ho. }
  destruct (community_clause_if (ax_community a) _ _ _) as [l1|] eqn:E1; [|done].
  destruct (community_clause_if (ax_ext_community a) _ _ _) as [l2|] eqn:E2; [|done].
  destruct (community_clause_if (ax_large_community a) _ _ _) as [l3|] eqn:E3; [|done]. intros [= <-].
  repeat (apply Forall_app; split).
  - apply Forall_clause_if. eapply opt_ok_impl; [exact H1|]. by intros [].
  - apply Forall_clause_if. eapply opt_ok_impl; [exact H2|]. by intros [].
  - eapply Hc; [exact H3| |exact E1]. done.
  - eapply Hc; [exact H4| |exact E2]. done.
  - eapply Hc; [exact H5| |exact E3]. done.
  - apply Forall_clause_if. by destruct (ax_set_rpki_state a).
Qed.
Lemma statement_values_ok s b : statement_values s -> statement_config_to_block s = Some b -> statement_ok b.
Proof.
  intros (Hn & Hc & Ha). unfold statement_config_to_block. destruct (sets_from_config (st_actions s)) as [sets|] eqn:Es; [|done]. cbn.
  destruct (disposition_from_config (st_actions s)) as [d|]; [|done]. intros [= <-]. split_and!; cbn [sb_name sb_matches sb_sets].
  - by destruct (st_name s).
  - by apply conditions_values_ok.
  - by eapply actions_values_ok.
Qed.
Lemma action_word a s : config_to_action a = Some s -> word_ok s.
Proof.
  unfold config_to_action. destruct (has_transform a); [done|]. destruct (default false (ax_accept a)), (default false (ax_reject a)); try done;
    intros [= <-]; (split; [done|]); apply (bool_decide_unpack _); vm_compute; exact I.
Qed.
Lemma rule_values_ok s r : statement_values s -> rule_from_config s = Some r -> rule_ok r.
Proof.
  intros Hs. unfold rule_from_config. destruct (shorthand_for s) as [rule|] eqn:E.
  - intros [= <-]. destruct Hs as (_ & Hc & _). unfold shorthand_for in E. destruct (st_name s); [done|].
    destruct (has_other_conditions (st_conditions s)); [done|]. destruct (config_to_action (st_actions s)) as [a|] eqn:Ea; [|done]. cbn in E.
    pose proof (action_word _ _ Ea). destruct Hc as [H1 _ _ _ _ _ _ _ _ _]. destruct (cd_match_prefix_set (st_conditions s)) as [[n o]|]; [|by injection E as <-].
    cbn in E. destruct o; try done. by injection E as <-.
  - destruct (statement_config_to_block s) as [b|] eqn:Eb; [|done]. intros [= <-]. by eapply statement_values_ok.
Qed.
Lemma policy_values_ok d b : policy_values d -> policy_definition_to_block d = Some b -> policy_ok b.
Proof.
  intros [Hn Hs]. unfold policy_definition_to_block. destruct (mapM rule_from_config (pd_statements d)) as [rules|] eqn:E; [|done].
  intros [= <-]. split; [done|]. cbn [po_rules]. apply mapM_Some in E. rewrite Forall_forall in Hs. apply Forall_forall. intros r Hr.
  apply list_elem_of_lookup in Hr as [i Hi]. destruct (Forall2_lookup_r _ _ _ _ _ E Hi) as (s & Hsi & Es).
  apply (rule_values_ok s); [|done]. apply Hs. by eapply list_elem_of_lookup_2.
Qed.
Lemma omap_ok {A B} (f : A -> option B) (P : A -> Prop) (Q : B -> Prop) l :
  Forall P l -> (forall a b, P a -> f a = Some b -> Q b) -> Forall Q (omap f l).
Proof.
  intros Hl Hf. apply Forall_forall. intros b Hb. apply list_elem_of_omap in Hb as (a & Ha & Ea). rewrite Forall_forall in Hl. eauto.
Qed.
Lemma range_values_ok m : match_kept m -> range_ok (pm_masklength_range m ≫= runtime_to_masklength_range).
Proof.
  destruct m as [q [s|]]; [|done]. unfold match_kept. cbn. intros (r & Hr & ->). rewrite range_read by done.
  destruct r as [|ge le]; [done|]. destruct Hr as (Hne & Hg & Hl). split_and!; [done|by destruct ge|by destruct le].
Qed.
Lemma prefix_set_values_ok c b : prefix_set_kept c /\ prefix_set_values c -> prefix_set_to_block c = Some b -> prefix_list_ok b.
Proof.
  intros [[_ Hk] [Hn Hp]] E. assert (b = mkPrefixListBlock (psc_name c) (map (fun e => mkPrefixListEntry (pm_prefix e) (pm_masklength_range e ≫= runtime_to_masklength_range)) (psc_prefixes c))) as ->.
  { unfold prefix_set_to_block in E. destruct (map _ (psc_prefixes c)); [done|]. by injection E as <-. }
  split; [done|]. cbn [pl_prefixes]. apply Forall_map. apply Forall_forall. intros e He. rewrite Forall_forall in Hk. rewrite Forall_forall in Hp.
  split; [by apply Hp|by apply range_values_ok, Hk].
Qed.

Lemma cache_values_ok c : cache_values c -> rpki_cache_ok (rpki_block_from_config c).
Proof.
  destruct c as [a p t u k h r f e]. unfold cache_values, rpki_cache_ok. cbn. intros (? & ? & ? & ? & ? & ? & ? & ?).
  split_and!; try done. by destruct (p =? 0).
Qed.
Lemma telemetry_values_ok t : telemetry_values t -> telemetry_ok (telemetry_block_from_config t).
Proof.
  destruct t as [sink prom]. intros [Hs Hp]. cbn [tc_sink tc_prometheus] in *. unfold telemetry_ok, telemetry_block_from_config. cbn [tc_sink tc_prometheus].
  assert (opt_ok (fun p => opt_ok word_ok (pm_listen p)) (option_map (fun prom =>
    mkPrometheusBlock (if str_eqb (prc_listen prom) default_prometheus_listen then None else Some (prc_listen prom))) prom)) as Hprom.
  { destruct prom as [[l]|]; [|done]. cbn. by destruct (str_eqb l _). }
  destruct sink as [[|ns]|]; cbn [tm_json tm_cloudwatch_emf tm_prometheus]; by split_and!.
Qed.
Lemma settings_values_ok c : conf_values c -> Forall setting_ok (settings_from_config c).
Proof.
  intros [H1 H2 (H3 & H4 & H5) (H6 & H7 & H8) H9 [H10 H11] H12 _ _ _ _ _ _ _]. unfold settings_from_config.
  apply Forall_app. split; [apply Forall_cons; split; [exact H1|by apply Forall_singleton]|].
  do 9 (apply Forall_app; split; [settings_ok|]). by apply Forall_map.
Qed.
Lemma conf_body_ok c : conf_ok c -> body_ok (to_bgp_service_body c).
Proof.
  intros [Hk Hv]. pose proof (settings_values_ok c Hv) as Hs. destruct Hk as [_ _ _ _ _ _ _ Hps].
  destruct Hv as [_ _ _ _ _ _ _ Hpeers Hpol [S1 S2 S3 S4 S5 S6] Hbmp Hcaches Hls Htel]. unfold to_bgp_service_body, body_ok.
  cbn [bs_settings bs_peers bs_policies bs_prefix_lists bs_neighbor_sets bs_as_path_sets bs_community_sets bs_ext_community_sets
    bs_large_community_sets bs_bmp_servers bs_rpki_caches bs_bgp_ls bs_telemetry].
  split_and!; first [exact Hs | by apply Forall_map, (Forall_impl _ _ _ Hpeers), peer_values_block | idtac].
  - by apply (omap_ok _ _ _ _ Hpol), policy_values_ok.
  - apply (omap_ok _ (fun c => prefix_set_kept c /\ prefix_set_values c)); [by apply Forall_and|apply prefix_set_values_ok].
  - by apply Forall_map.
  - by apply Forall_map.
  - by apply Forall_map.
  - by apply Forall_map.
  - by apply Forall_map.
  - by apply Forall_map.
  - apply Forall_map, (Forall_impl _ _ _ Hcaches), cache_values_ok.
  - destruct (_ =? 0); [done|]. exact Hls.
  - destruct (cf_telemetry c); [by apply telemetry_values_ok|done].
Qed.

(** C6. A saved configuration loads to itself, for every configuration of the
    class [conf_ok]: its settings have a directive or their default
    ([conf_kept], which leaves out family blocks without a setting and empty
    prefix lists), its numbers are in their types, and its words are free of
    blanks, quotes, braces and comment signs ([conf_values]; system names and
    AS-path patterns may be quoted texts).  [from_conf_str] of [to_conf_str]
    gives back its settings left out at their defaults, peers with their
    families, policies in their short and long forms, prefix lists with their
    mask ranges, sets, stations, caches, BGP-LS and telemetry. *)
Theorem saved_conf_loads c : conf_ok c -> from_conf_str (to_conf_str c) = Ok c.
Proof.
  intros Hok. unfold from_conf_str, to_conf_str. rewrite parse_of_reads.
  - cbn [services]. destruct Hok as [Hk _]. by rewrite body_read.
  - intros n. apply show_root_reads. apply Forall_singleton. by apply conf_body_ok.
Qed.

Definition demo_conf_text : Str := concat (map writeln [
  str "service bgp {"; str "  asn 65001"; str "  router-id 1.2.3.4"; str "  hold-time 90"; str "  sys-name " ++ [34] ++ str "my # router" ++ [34];
  str "  originate 10.1.0.0/16 nexthop 10.0.0.9"; []; str "  peer 10.0.0.1 {"; str "    remote-as 65002"; str "    passive true"; str "  ";
  str "    family ipv4 unicast {"; str "      max-prefix 100 action discard"; str "      export policy out"; str "    }"; str "  }"; [];
  str "  rpki-cache 10.0.0.7:323 {"; str "    preference 2"; str "    transport ssh"; str "  }"; [];
  str "  policy out {"; str "    match ours accept"; str "    statement pref {"; str "      match community-set cs invert"; 
  str "      set local-pref force 7"; str "      set community add 1:2 3:4"; str "      reject"; str "    }"; str "    default reject"; str "  }"; [];
  str "  prefix-list ours {"; str "    10.0.0.0/8 ge 9 le 24"; str "    11.0.0.0/8 exact"; str "  }"; [];
  str "  as-path-set asp {"; str "    " ++ [34] ++ str "^65001 #$" ++ [34]; str "  }"; [];
  str "  telemetry {"; str "    json {}"; str "    prometheus {}"; str "  }"; str "}"]).
Definition demo_conf : BgpConfig := match from_conf_str demo_conf_text with Ok c => c | _ => bgp_config_default end.

(** The file of the example is the file its configuration is saved as. *)
Example demo_conf_saved : to_conf_str demo_conf = demo_conf_text.
Proof. vm_compute. reflexivity. Qed.

Lemma demo_conf_values : conf_values demo_conf.
Proof. let c := eval vm_compute in demo_conf in change demo_conf with c. repeat (constructor; cbn); first [done|lia]. Qed.
Lemma demo_conf_kept : conf_kept demo_conf.
Proof.
  let c := eval vm_compute in demo_conf in change demo_conf with c. repeat (first [left; reflexivity | right; reflexivity | constructor]; cbn);
    lazymatch goal with
    | |- _ ∉ _ => apply not_elem_of_nil
    | |- is_Some _ => eexists; vm_compute; reflexivity
    | |- operation_kept _ => exists OpAdd; reflexivity
    | |- exists r, _ /\ _ :: 46 :: _ = _ => exists (Range (Some 9) (Some 24)); split; [split_and!; [by left|done|done]|vm_compute; reflexivity]
    | |- exists r, _ => exists Exact; split; [exact I|vm_compute; reflexivity]
    | |- _ => done
    end.
Qed.
Lemma saved_conf_loads_witness : from_conf_str (to_conf_str demo_conf) = Ok demo_conf.
Proof. apply saved_conf_loads. split; [exact demo_conf_kept|exact demo_conf_values]. Defined.

(** * The configuration of the daemon: what the loader lets through

    [conf_wf]: the numbers of a loaded configuration are in their types, its
    router id is not zero, its peers have distinct addresses, the families of
    a peer are distinct, and the mask ranges are in the text of ranges. *)

(** ** Well-formed configurations *)
Record peer_wf (p : PeerConfig) : Prop := {
  pw_port : u16 (cp_port p);
  pw_asn : opt_typed u32 (cp_asn p);
  pw_ttl_min : opt_typed u8 (cp_ttl_min p);
  pw_times : opt_typed u64 (cp_idle_hold_time_secs p) /\ opt_typed u64 (cp_delay_open_time_secs p) /\
    opt_typed u64 (cp_min_route_advertisement_interval_secs p);
  pw_limits : Forall (fun e => opt_kept (fun m => u32 (mps_limit m)) (ac_max_prefix e)) (cp_afi_safis p);
  pw_families : NoDup (afi_safi_list p);
}.
Definition conditions_wf (c : ConditionsConfig) : Prop :=
  opt_typed u32 (cd_has_asn c) /\ opt_typed u32 (cd_ls_node_as c) /\ opt_typed u64 (cd_ls_instance_id c).
Definition actions_wf (a : ActionsConfig) : Prop :=
  opt_kept (fun lp => match lp with LpSet v | LpForce v _ => u32 v end) (ax_local_pref a) /\
  opt_kept (fun m => match m with MaSet v => u32 v | MaRemove _ => True end) (ax_med a).
Definition policy_wf (d : PolicyDefinitionConfig) : Prop := Forall (fun s => conditions_wf (st_conditions s) /\ actions_wf (st_actions s)) (pd_statements d).
(** A mask range is the text of a range of the language; [..] is of one
    without bounds. *)
Definition match_wf (m : PrefixMatchConfig) : Prop :=
  opt_kept (fun s => exists r, range_typed (Some r) /\ s = masklength_range_to_runtime r) (pm_masklength_range m).
Definition cache_wf (c : RpkiCacheConfig) : Prop :=
  u8 (cc_preference c) /\ opt_typed u64 (cc_retry_interval c) /\ opt_typed u64 (cc_refresh_interval c) /\ opt_typed u64 (cc_expire_interval c).
Record conf_wf (c : BgpConfig) : Prop := {
  cw_asn : u32 (cf_asn c);
  cw_router_id : u32 (cf_router_id c) /\ cf_router_id c <> 0;
  cw_times : u64 (cf_hold_time_secs c) /\ u64 (cf_connect_retry_secs c) /\ opt_typed u64 (cf_enhanced_rr_stale_ttl c);
  cw_cluster_id : opt_typed u32 (cf_cluster_id c);
  cw_ls : u64 (lsc_instance_id (cf_bgp_ls c));
  cw_peers : Forall peer_wf (cf_peers c);
  cw_addresses : Forall (fun p => is_Some (cp_ip p)) (cf_peers c) /\ NoDup (map cp_ip (cf_peers c));
  cw_policies : Forall policy_wf (cf_policy_definitions c);
  cw_prefix_sets : Forall (fun s => Forall match_wf (psc_prefixes s)) (ds_prefix_sets (cf_defined_sets c));
  cw_bmp : Forall (fun b => opt_typed u64 (bc_statistics_timeout b)) (cf_bmp_servers c);
  cw_caches : Forall cache_wf (cf_rpki_caches c);
}.

Lemma fold_invariant {S A} (I : S -> Prop) (P : A -> Prop) (f : S -> A -> S) l : Forall P l ->
  (forall s a, I s -> P a -> I (f s a)) -> forall s, I s -> I (fold_left f l s).
Proof. intros Hl Hf. induction Hl as [|a l Ha _ IH]; intros s Hs; cbn; auto. Qed.

(** ** Peers *)
Lemma peer_setting_wf p s : peer_wf p -> setting_typed s -> peer_wf (apply_peer_setting p s).
Proof. destruct p. intros [? ? ? (? & ? & ?) ? ?] Hs. destruct s; cbn in *; split; cbn; auto. Qed.
Lemma default_peer_wf a : peer_wf (with_cp_address a peer_config_default).
Proof. split; cbn; unfold u16, u64, default_port; try split_and!; try lia; try done; constructor. Qed.

Definition entry_wf (e : AfiSafiConfig) : Prop := opt_kept (fun m => u32 (mps_limit m)) (ac_max_prefix e).
Lemma directive_wf e d : entry_wf e /\ directive_typed d -> entry_wf (apply_directive e d) /\ ac_afi_safi (apply_directive e d) = ac_afi_safi e.
Proof. destruct e, d; intros [He Hd]; cbn in *; auto. Qed.
Lemma directives_wf ds e : entry_wf e -> Forall directive_typed ds ->
  entry_wf (fold_left apply_directive ds e) /\ ac_afi_safi (fold_left apply_directive ds e) = ac_afi_safi e.
Proof.
  intros He Hds. revert e He. induction Hds as [|d ds Hd _ IH]; intros e He; [done|]. cbn [fold_left].
  destruct (directive_wf e d) as [H1 H2]; [done|]. destruct (IH _ H1) as [H3 H4]. split; [done|congruence].
Qed.
Lemma entry_for_true a s e : entry_for a s e = true -> ac_afi_safi e = mkAfiSafi a s.
Proof. unfold entry_for. rewrite <- bool_decide_and, bool_decide_eq_true. destruct e. cbn. by intros [-> ->]. Qed.
Lemma entry_for_false a s e : entry_for a s e = false -> ac_afi_safi e <> mkAfiSafi a s.
Proof. unfold entry_for. rewrite <- bool_decide_and, bool_decide_eq_false. intros Hn E. apply Hn. destruct e. by injection E. Qed.

(** What is changed is one entry, of the family, new or not. *)
Lemma entry_mut_families a s f l : (forall e, ac_afi_safi (f e) = ac_afi_safi e) ->
  (map ac_afi_safi (afi_safi_entry_mut l a s f) = map ac_afi_safi l) \/
  ((mkAfiSafi a s ∉ map ac_afi_safi l) /\ map ac_afi_safi (afi_safi_entry_mut l a s f) = (map ac_afi_safi l ++ [mkAfiSafi a s])).
Proof.
  intros Hf. induction l as [|e l IH]; cbn [afi_safi_entry_mut map]; [right; split; [apply not_elem_of_nil|by rewrite Hf]|].
  destruct (entry_for a s e) eqn:E; cbn [map]; [left; by rewrite Hf|]. destruct IH as [-> |[Hn ->]]; [by left|]. right. split; [|done].
  apply not_elem_of_cons. split; [|done]. apply entry_for_false in E. congruence.
Qed.
Lemma entry_mut_wf a s f l : Forall entry_wf l -> (forall e, entry_wf e -> entry_wf (f e)) -> Forall entry_wf (afi_safi_entry_mut l a s f).
Proof.
  intros Hl Hf. induction Hl as [|e l He Hl IH]; cbn [afi_safi_entry_mut]; [apply Forall_singleton; by apply Hf|].
  destruct (entry_for a s e); apply Forall_cons; auto.
Qed.
Lemma family_wf p b : peer_wf p -> family_typed b -> peer_wf (apply_family p b).
Proof.
  destruct p. intros [? ? ? Ht Hl Hn] Hb. split; try done; cbn in *.
  - apply entry_mut_wf; [done|]. intros e He. by apply directives_wf.
  - unfold afi_safi_list in *. cbn in *. destruct (entry_mut_families (fb_afi b) (fb_safi b) (fun e => fold_left apply_directive (fb_directives b) e) cp_afi_safis)
      as [-> |[Hnew ->]]; [|done|].
    2: { apply NoDup_app. split_and!; [done| |apply NoDup_singleton]. intros x Hx ->%list_elem_of_singleton. done. }
    intros e. clear -Hb. revert e. induction Hb as [|d ds Hd _ IH]; intros e; [done|]. cbn [fold_left]. rewrite IH. by destruct e, d.
Qed.
Lemma block_peer_wf b : peer_typed b -> peer_wf (peer_config_from_block b).
Proof.
  intros [Hs Hf]. apply (fold_invariant _ family_typed); [done|apply family_wf|].
  apply (fold_invariant _ setting_typed); [done|apply peer_setting_wf|apply default_peer_wf].
Qed.

(** ** Policies, sets, caches *)
Lemma match_clause_wf c m : conditions_wf c -> match_typed m -> conditions_wf (apply_match_clause c m).
Proof. destruct c. intros (? & ? & ?) Hm. unfold conditions_wf in *. destruct m; cbn in *; auto. Qed.
Lemma set_clause_wf a s : actions_wf a -> set_typed s -> actions_wf (apply_set_clause a s).
Proof. destruct a. intros [? ?] Hs. unfold actions_wf in *. destruct s as [v [|]|[v|]|op|op|op|v]; cbn in *; auto. Qed.
Lemma default_conditions_wf : conditions_wf conditions_default.
Proof. by split_and!. Qed.
Lemma default_actions_wf : actions_wf actions_default.
Proof. by split. Qed.
Lemma action_wf action a : action_to_config action = inr a -> actions_wf a.
Proof. unfold action_to_config. repeat case_match; intros [= <-]; by split. Qed.
Lemma rule_wf r s : rule_typed r -> rule_to_config r = inr s -> conditions_wf (st_conditions s) /\ actions_wf (st_actions s).
Proof.
  destruct r as [set_name action|action|b]; cbn [rule_typed rule_to_config].
  - intros _. destruct (action_to_config action) as [e|a] eqn:E; [done|]. intros [= <-]. split; [by split_and!|by eapply action_wf].
  - intros _. destruct (action_to_config action) as [e|a] eqn:E; [done|]. intros [= <-]. split; [by split_and!|by eapply action_wf].
  - intros [Hm Hs] [= <-]. unfold statement_block_to_config. cbn [st_conditions st_actions]. split.
    + apply (fold_invariant _ match_typed); [done|apply match_clause_wf|apply default_conditions_wf].
    + assert (actions_wf (fold_left apply_set_clause (sb_sets b) actions_default)) as [H1 H2].
      { apply (fold_invariant _ set_typed); [done|apply set_clause_wf|apply default_actions_wf]. }
      destruct (fold_left apply_set_clause (sb_sets b) actions_default). destruct (sb_disposition b) as [[]|]; by split.
Qed.
Lemma all_or_error_wf {A B} (f : A -> ConfError + B) (P : A -> Prop) (Q : B -> Prop) l : (forall a b, P a -> f a = inr b -> Q b) ->
  Forall P l -> forall bs, all_or_error f l = inr bs -> Forall Q bs.
Proof.
  intros Hf. induction 1 as [|a l Ha _ IH]; intros bs; cbn [all_or_error]; [intros [= <-]; constructor|].
  destruct (f a) as [e|b] eqn:E; [done|]. destruct (all_or_error f l) as [e|bs']; [done|]. intros [= <-]. constructor; [by eapply Hf|by apply IH].
Qed.
Lemma definition_wf b d : policy_typed b -> policy_block_to_definition b = inr d -> policy_wf d.
Proof.
  intros Hb. unfold policy_block_to_definition. destruct (all_or_error rule_to_config (po_rules b)) as [e|ss] eqn:E; [done|]. intros [= <-].
  by apply (all_or_error_wf rule_to_config rule_typed _ _ rule_wf Hb).
Qed.
Lemma prefix_set_wf b : prefix_list_typed b -> Forall match_wf (psc_prefixes (prefix_list_block_to_set b)).
Proof.
  intros Hb. apply Forall_map. eapply Forall_impl; [exact Hb|]. intros [p [r|]] Hr; unfold match_wf; cbn in *; [|done]. by exists r.
Qed.
Lemma block_cache_wf b : cache_typed b -> cache_wf (rpki_config_from_block b).
Proof.
  destruct b as [a p t u k h r f e]. intros (H1 & H2 & H3 & H4). unfold cache_wf. cbn in *. split_and!; try done. destruct p; [done|]. cbn. unfold u8. lia.
Qed.

(** ** The daemon *)
Definition settings_wf (r : SettingsRead) : Prop :=
  let c := sr_config r in
  u32 (cf_asn c) /\ u32 (cf_router_id c) /\ u64 (cf_hold_time_secs c) /\ u64 (cf_connect_retry_secs c) /\
  opt_typed u64 (cf_enhanced_rr_stale_ttl c) /\ opt_typed u32 (cf_cluster_id c) /\ u64 (lsc_instance_id (cf_bgp_ls c)) /\ cf_peers c = [] /\
  cf_policy_definitions c = [] /\ cf_defined_sets c = defined_sets_default /\ cf_bmp_servers c = [] /\ cf_rpki_caches c = [].
Lemma setting_wf r s : settings_wf r -> setting_typed s -> settings_wf (apply_setting r s).
Proof.
  destruct r as [c a b]. destruct c. unfold settings_wf. cbn. intros (? & ? & ? & ? & ? & ? & ? & ? & ? & ? & ? & ?) Hs.
  destruct s; cbn in *; split_and!; auto.
Qed.
Lemma body_settings_wf b : body_typed b -> settings_wf (fold_left apply_setting (bs_settings b) (mkSettingsRead bgp_config_default false false)).
Proof.
  intros Hb. apply (fold_invariant _ setting_typed); [apply Hb|apply setting_wf|]. unfold settings_wf. cbn. unfold u32, u64, default_hold_time, default_connect_retry_time.
  split_and!; try done; lia.
Qed.

Definition peers_wf (l : list PeerConfig) : Prop :=
  Forall peer_wf l /\ Forall (fun p => is_Some (cp_ip p)) l /\ NoDup (map cp_ip l).
Lemma find_peer_absent c ip : find_peer c ip = None -> Some ip ∉ map cp_ip (cf_peers c).
Proof.
  unfold find_peer. induction (cf_peers c) as [|p l IH]; cbn [find map]; [intros _; apply not_elem_of_nil|].
  case_bool_decide as E; [done|]. intros H%IH. apply not_elem_of_cons. split; [congruence|done].
Qed.
Lemma insert_peers_wf blocks : Forall peer_typed blocks -> forall c c', peers_wf (cf_peers c) -> insert_peers c blocks = inr c' ->
  peers_wf (cf_peers c') /\ c' = with_cf_peers (cf_peers c') c.
Proof.
  induction 1 as [|b blocks Hb _ IH]; intros c c' Hc; cbn [insert_peers]; [intros [= <-]; split; [done|by destruct c]|].
  unfold insert_peer. destruct (cp_ip (peer_config_from_block b)) as [ip|] eqn:Eip; [|done]. destruct (find_peer c ip) eqn:Ef; [done|].
  intros H. apply IH in H as [H1 H2].
  - split; [done|]. rewrite H2. by destruct c.
  - apply find_peer_absent in Ef. destruct c. cbn in *. destruct Hc as (Hw & Hs & Hn). split_and!.
    + apply Forall_app. split; [done|]. apply Forall_singleton. by apply block_peer_wf.
    + apply Forall_app. split; [done|]. apply Forall_singleton. by exists ip.
    + rewrite map_app. apply NoDup_app. split_and!; [done| |apply NoDup_singleton]. cbn. rewrite Eip. intros x Hx ->%list_elem_of_singleton. done.
Qed.

Lemma body_config_wf b c : body_typed b -> config_from_body b = inr c -> conf_wf c.
Proof.
  intros Hb. pose proof (body_settings_wf b Hb) as Hset. unfold config_from_body.
  destruct (fold_left apply_setting (bs_settings b) _) as [c0 has_asn has_router_id]. cbv zeta. unfold settings_wf in Hset. cbn [sr_config] in Hset.
  match goal with |- (if _ then _ else if _ then _ else if cf_router_id ?c =? 0 then _ else _) = _ -> _ => remember c as c2 eqn:E2 end.
  assert (settings_wf (mkSettingsRead c2 true true)) as Hc2.
  { subst c2. pose proof (bt_ls b Hb) as Hls. destruct Hset as (? & ? & ? & ? & ? & ? & ? & ? & ? & ? & ? & ?).
    unfold settings_wf. cbn [sr_config]. destruct c0. cbn in *. destruct (bs_bgp_ls b), (bs_telemetry b); cbn in *; split_and!; done. }
  clear E2 Hset c0. unfold settings_wf in Hc2. cbn [sr_config] in Hc2.
  destruct Hc2 as (H1 & H2 & H3 & H4 & H5 & H6 & H7 & H8 & H9 & H10 & H11 & H12).
  destruct (negb has_asn); [done|]. destruct (negb has_router_id); [done|]. destruct (Z.eqb_spec (cf_router_id c2) 0) as [|Hrid]; [done|].
  destruct (insert_peers c2 (bs_peers b)) as [e|c3] eqn:Ep; [done|].
  apply insert_peers_wf in Ep as [(Hw & Hs & Hn) E3]; [|apply Hb|rewrite H8; split_and!; constructor].
  destruct (all_or_error policy_block_to_definition (bs_policies b)) as [e|pols] eqn:Epol; [done|]. intros [= <-].
  apply (all_or_error_wf _ policy_typed policy_wf) in Epol; [|intros; by eapply definition_wf|apply Hb].
  rewrite E3. destruct c2. cbn in *. subst. split; cbn; try done.
  - apply Forall_map. eapply Forall_impl; [apply Hb|]. intros x. apply prefix_set_wf.
  - apply Forall_map. eapply Forall_impl; [apply Hb|]. by intros [].
  - apply Forall_map. eapply Forall_impl; [apply Hb|]. intros x. apply block_cache_wf.
Qed.

(** A tree has no syntax errors. *)
Definition not_syntax (e : ConfError) : Prop := match e with CeParse _ => False | _ => True end.
Lemma insert_peers_error blocks : forall c e, insert_peers c blocks = inl e -> not_syntax e.
Proof.
  induction blocks as [|b blocks IH]; intros c e; cbn [insert_peers]; [done|]. unfold insert_peer.
  destruct (cp_ip _); [|by intros [= <-]]. destruct (find_peer c i); [by intros [= <-]|]. apply IH.
Qed.
Lemma all_or_error_error {A B} (f : A -> ConfError + B) l : (forall a e, f a = inl e -> not_syntax e) -> forall e, all_or_error f l = inl e -> not_syntax e.
Proof.
  intros Hf. induction l as [|a l IH]; intros e; cbn [all_or_error]; [done|]. destruct (f a) eqn:E; [intros [= <-]; by eapply Hf|].
  destruct (all_or_error f l); [|done]. intros [= <-]. by apply IH.
Qed.
Lemma rule_error r e : rule_to_config r = inl e -> not_syntax e.
Proof. destruct r; cbn [rule_to_config]; unfold action_to_config; repeat case_match; intros; simplify_eq; done. Qed.
Lemma policy_error b e : policy_block_to_definition b = inl e -> not_syntax e.
Proof.
  unfold policy_block_to_definition. destruct (all_or_error rule_to_config (po_rules b)) eqn:E; [|done]. intros [= <-].
  by apply (all_or_error_error _ _ rule_error) in E.
Qed.
Lemma body_error b e : config_from_body b = inl e -> not_syntax e.
Proof.
  unfold config_from_body. destruct (fold_left apply_setting _ _) as [c0 has_asn has_router_id]. cbv zeta.
  destruct (negb has_asn); [by intros [= <-]|]. destruct (negb has_router_id); [by intros [= <-]|]. destruct (_ =? 0); [by intros [= <-]|].
  destruct (insert_peers _ (bs_peers b)) eqn:Ep; [intros [= <-]; by eapply insert_peers_error|].
  destruct (all_or_error policy_block_to_definition _) eqn:El; [|done]. intros [= <-]. by apply (all_or_error_error _ _ policy_error) in El.
Qed.

Lemma load_spec input :
  match from_conf_str input with
  | Ok c => conf_wf c
  | Err (CeParse e) => (1 <= pe_line e <= length (lines input))%nat
  | Err _ => True
  | Panic => False
  end.
Proof.
  unfold from_conf_str. pose proof (parse_fine input) as Hf. destruct (parse input) as [r|e|] eqn:E; [|done..].
  apply parse_typed in E. destruct (services r) as [|[body] rest]; [done|]. apply Forall_cons in E as [Hb _].
  destruct (config_from_body body) as [e|c] eqn:Ec; [|by eapply body_config_wf]. 
  apply body_error in Ec. by destruct e.
Qed.

(** C25. The loader ends on every text, and what it lets through is well formed:
    the numbers of the configuration are in their types, the router id is not
    zero, every peer has an address, no two peers have the same one, no peer
    has a family twice, and the mask ranges are the texts of ranges; a syntax
    error is at a line of the text. *)
Theorem loaded_conf_well_formed input :
  match from_conf_str input with
  | Ok c => conf_wf c
  | Err (CeParse e) => (1 <= pe_line e <= length (lines input))%nat
  | Err _ => True
  | Panic => False
  end.
Proof. apply load_spec. Qed.
