(* ===== verification/ShellMain.v ===== *)
(** * The shell: whole sessions *)
From S2P Require Import Prelude Net BgpLs Attrs Text LangBgp LangBgpParse LangSpec LangMain LangTotal Grammar Candidate CandSpec Shell OpenMsg Path PeerCaps Conf ConfFile.

(** ** The world of a line *)
(** The words of the line can be printed bare. *)
Definition clean_line (line : Str) : Prop := Forall word_ok (split_whitespace line).
(** The file, when it can be read, was written by the printer. *)
Definition clean_env (env : Env) : Prop := forall text, ev_read env = FrText text -> exists root, root_ok root /\ text = show_root root.
Definition clean_input (i : Env * Str) : Prop := clean_env (fst i) /\ clean_line (snd i).
Definition readable (env : Env) : Prop := forall err, ev_read env <> FrFailed err.

(** ** What a line does *)
Definition cand_ok (s : Shell) : Prop := opt_ok root_ok (sh_candidate s).
(** The commits among the effects send the candidate of [s]. *)
Definition sends (s : Shell) (effects : list Effect) : Prop :=
  forall text, SentCommit text ∈ effects -> exists root, sh_candidate s = Some root /\ text = show_root root.
(** The lock file, followed through the effects. *)
Definition lock_file (held : bool) (effects : list Effect) : bool :=
  fold_left (fun held e => match e with TookLock => true | RemovedLock => false | _ => held end) effects held.

Lemma sends_none s effects : (forall text, SentCommit text ∉ effects) -> sends s effects.
Proof. intros H text Hin. by apply H in Hin. Qed.
Lemma sends_nil s : sends s [].
Proof. intros text Hin. inversion Hin. Qed.

(** What a step must do: the candidate stays printable, commits send it, and
    the lock file is there when the lock is held. *)
Record step_fine (env : Env) (s s' : Shell) (effects : list Effect) : Prop := mkStepFine {
  sf_cand : cand_ok s -> cand_ok s';
  sf_sends : sends s effects;
  sf_lock : readable env -> session_ok s -> lock_file (sh_lock s) effects = sh_lock s';
}.
Lemma step_fine_none env s : step_fine env s s [].
Proof. split; [done|apply sends_nil|done]. Qed.
Lemma step_fine_keep env s s' effects : sh_candidate s' = sh_candidate s -> (forall text, SentCommit text ∉ effects) ->
  lock_file (sh_lock s) effects = sh_lock s' -> step_fine env s s' effects.
Proof. intros E H Hl. split; [unfold cand_ok; by rewrite E|by apply sends_none|done]. Qed.
Ltac no_commit := cbn; intros ?; rewrite ?elem_of_cons, ?elem_of_nil; intuition discriminate.

(** Printing leaves the lock file alone. *)
Lemma lock_printed held l : lock_file held (map Printed l) = held.
Proof. unfold lock_file. by induction l. Qed.
Lemma printed_no_commit l text : SentCommit text ∉ map Printed l.
Proof. intros Hin. apply list_elem_of_In, in_map_iff in Hin as (? & ? & _). done. Qed.
Lemma connect_fine env s s' l : connect env s = inr s' -> step_fine env s s' (map Printed l).
Proof. intros (_ & E & El)%connect_keeps. apply step_fine_keep; [done|apply printed_no_commit|by rewrite lock_printed]. Qed.

Definition fine_ran {A} (env : Env) (s : Shell) (r : ran A) : Prop := step_fine env s (snd (fst r)) (snd r).
Lemma configure_with_fine env text s r : (exists root, root_ok root /\ parse text = Ok root) ->
  configure_with text s = Some r -> fine_ran env s r.
Proof.
  intros (root & Hok & E). unfold configure_with. rewrite E.
  assert (H : forall s', sh_candidate s' = Some root -> sh_lock s' = true -> step_fine env s s' [TookLock]).
  { intros s' Es Hl. split; [unfold cand_ok; by rewrite Es|apply sends_none; no_commit|by rewrite Hl]. }
  destruct (enter_level LvConfigure _) as [err|s'] eqn:El; intros [= <-]; [by apply H|].
  unfold enter_level in El. destruct (bool_decide _); [|done]. injection El as <-. by apply H.
Qed.
Lemma enter_configure_fine env s r : clean_env env -> enter_configure env s = Some r -> fine_ran env s r.
Proof.
  intros He. unfold enter_configure. destruct (negb _); [intros [= <-]; apply step_fine_none|].
  destruct (ev_lock env) as [|[]]; [intros [= <-]; apply step_fine_none|]. destruct (ev_read env) as [text| |err] eqn:Er.
  - apply configure_with_fine. destruct (He text Er) as (root & Hok & ->). exists root. split; [done|].
    apply parse_of_reads. intros n. by apply show_root_reads.
  - apply configure_with_fine. exists (mkRoot []). split; [constructor|reflexivity].
  - intros [= <-]. split; [done|apply sends_none; no_commit|]. intros Hr. by apply Hr in Er.
Qed.
Lemma commit_fine env s r : commit_configure env s = Some r -> fine_ran env s r.
Proof.
  assert (H : forall root, sh_candidate s = Some root -> fine_ran env s (commit_root env root s)).
  { intros root Er. unfold commit_root.
    assert (Hs : forall l, (forall text, SentCommit text ∉ l) -> sends s (SentCommit (show_root root) :: l)).
    { intros l Hl text [E | Hin]%elem_of_cons; [injection E as ->; by exists root|by apply Hl in Hin]. }
    destruct (connect env s) as [err|s'] eqn:Ec; [apply step_fine_none|]. apply connect_keeps in Ec as (_ & E & El).
    destruct (ev_commit env _) as [message|[]]; split; try (apply Hs; no_commit); unfold cand_ok; cbn; [by rewrite E|by rewrite El|done..]. }
  unfold commit_configure. destruct (last (sh_levels s)) as [[]|]; try (intros [= <-]; apply step_fine_none);
    (destruct (sh_candidate s) as [root|]; [|done]); intros [= <-]; by apply H.
Qed.

(** ** Edits *)
Lemma lookup_word args i a : Forall word_ok args -> args !! i = Some a -> word_ok a.
Proof. intros H. by apply Forall_lookup_1. Qed.
Ltac edit_arg :=
  match goal with
  | |- context [?args !! ?i] => let E := fresh "E" in destruct (args !! i) eqn:E; cbn; [apply lookup_word in E; [|assumption]|done]
  end.
Lemma edit_of_ok c args f : Forall word_ok args -> edit_of c args = Some (Some f) -> keeps_edit root_ok f.
Proof.
  intros Hargs. destruct c; cbn; try done; repeat edit_arg; intros [= <-];
    auto using set_top_ok, set_top_originate_ok, set_peer_ok, set_peer_family_ok, set_policy_match_ok, set_policy_default_ok,
      set_prefix_list_entry_ok, set_bmp_server_ok, set_rpki_cache_ok, set_bgp_ls_ok, set_telemetry_json_ok, set_telemetry_emf_ok,
      set_telemetry_prometheus_ok, set_telemetry_listen_ok, unset_bmp_setting_ok, unset_bgp_ls_ok, unset_telemetry_ok,
      unset_telemetry_json_ok, unset_telemetry_emf_ok, unset_telemetry_prometheus_ok, unset_telemetry_listen_ok.
  all: try (apply with_family_ok; intros ? ?).
  all: try apply found_peer_ok; eauto 8 with edits nocore.
  - apply keeps_body, keeps_caches, keeps_found, take_cache_ok.
Qed.

Lemma edit_candidate_fine env f s r : keeps_edit root_ok f -> edit_candidate f s = Some r -> fine_ran env s r.
Proof.
  intros Hf. unfold edit_candidate. destruct (sh_candidate s) as [root|] eqn:Er; [|intros [= <-]; apply step_fine_none].
  specialize (Hf root). destruct (f root) as [res root']. intros [= <-]. split; [|apply sends_nil|done].
  unfold cand_ok. rewrite Er. exact Hf.
Qed.

Lemma continue_fine env s (o : option (ran ())) r : (forall r, o = Some r -> fine_ran env s r) -> continue <$> o = Some r -> fine_ran env s r.
Proof. destruct o as [[[[e|[]] s'] effects]|]; [intros H; specialize (H _ eq_refl); by intros [= <-]..|done]. Qed.
Lemma running_config_fine env s : fine_ran env s (show_running_config env s).
Proof.
  unfold show_running_config. destruct (connect env s) as [err|s'] eqn:Ec; [apply step_fine_none|].
  destruct (ev_running env) as [m|text]; [apply (connect_fine _ _ _ [] Ec)|apply (connect_fine _ _ _ [text] Ec)].
Qed.
Lemma candidate_fine env s : fine_ran env s (show_candidate s).
Proof. unfold show_candidate. destruct (sh_candidate s); [apply step_fine_keep; [done|no_commit|done]|apply step_fine_none]. Qed.
Lemma diff_fine env s r : show_diff env s = Some r -> fine_ran env s r.
Proof.
  unfold show_diff. destruct (sh_candidate s) as [candidate|] eqn:Er; [|intros [= <-]; apply step_fine_none].
  destruct (connect env s) as [err|s'] eqn:Ec; [intros [= <-]; apply step_fine_none|].
  pose proof (fun l => connect_fine _ _ _ l Ec) as H.
  destruct (ev_running env) as [m|text]; [intros [= <-]; apply (H [])|].
  destruct (split_whitespace text); [|destruct (parse text); [| |done]]; intros [= <-]; first [apply (H []) | apply H].
Qed.
Lemma bgpgg_fine env c args s r : execute_bgpgg env c args s = Some r -> fine_ran env s r.
Proof.
  unfold execute_bgpgg. destruct (connect env s) as [err|s'] eqn:Ec; [intros [= <-]; apply step_fine_none|].
  assert (H : forall res : Str + (), Some (res, s', []) = Some r -> fine_ran env s r) by (intros res [= <-]; apply (connect_fine _ _ _ [] Ec)).
  destruct c; cbn; try apply H; try (destruct (args !! 0%nat); cbn; [|done]; apply H).
  destruct (args !! 0%nat), (args !! 1%nat); cbn; try apply H. destruct (parse_uint _ _); apply H.
Qed.
Lemma exit_fine env s : let '(_, s', effects) := exit_level s in step_fine env s s' effects.
Proof.
  unfold exit_level. destruct (last (sh_levels s)) as [[]|]; try (apply step_fine_keep; [done|no_commit|done]).
  split; [done|apply sends_none; no_commit|done].
Qed.

Lemma execute_fine env c args s r : clean_env env -> Forall word_ok args -> execute env c args s = Some r -> fine_ran env s r.
Proof.
  intros He Hargs.
  assert (Hedit : (f ← edit_of c args; match f with Some f => continue <$> edit_candidate f s | None => None end) = Some r -> fine_ran env s r).
  { destruct (edit_of c args) as [[f|]|] eqn:Ef; cbn; [|done..]. apply continue_fine. intros r'. by apply edit_candidate_fine, (edit_of_ok c args). }
  destruct c; try exact Hedit; clear Hedit; cbn [execute].
  - apply continue_fine. intros r'. apply bgpgg_fine.
  - intros [= <-]. unfold continue. destruct (ev_version env); apply step_fine_none.
  - apply continue_fine. intros r'. by apply enter_configure_fine.
  - pose proof (exit_fine env s) as H. destruct (exit_level s) as [[code s'] effects]. by intros [= <-].
  - destruct s0. destruct (enter_level _ s) as [e|s'] eqn:E; intros [= <-]; [apply step_fine_none|].
    unfold enter_level in E. destruct (bool_decide _); [|done]. injection E as <-. apply step_fine_keep; [done|no_commit|done].
  - apply continue_fine. intros r'. apply commit_fine.
  - apply continue_fine. intros r'. apply diff_fine.
  - intros [= <-]. pose proof (running_config_fine env s) as H. by destruct (show_running_config env s) as [[[|] ?] ?].
  - intros [= <-]. pose proof (candidate_fine env s) as H. by destruct (show_candidate s) as [[[|] ?] ?].
Qed.

(** The arguments of a line are among its words. *)
Lemma parse_loop_args tokens : forall nodes args last args' node nodes', parse_loop nodes tokens args last = inr (args', node, nodes') ->
  Forall word_ok tokens -> Forall word_ok args -> Forall word_ok args'.
Proof.
  induction tokens as [|token tokens IH]; intros nodes args last args' node nodes'; cbn; [by intros [= <- <- <-]|].
  intros E [Ht Hts]%Forall_cons Hargs. destruct (find_match token nodes) as [n|]; [|done].
  assert (Hargs' : Forall word_ok (if is_arg n then args ++ [token] else args)).
  { destruct (is_arg n); [|done]. apply Forall_app. by split; [|apply Forall_singleton]. }
  destruct tokens as [|next tokens]; [by injection E as <- <- <-|]. destruct (n_children n); [done|]. by eapply IH.
Qed.
Lemma parse_line_args nodes tokens c args : parse_line nodes tokens = Execution c args -> Forall word_ok tokens -> Forall word_ok args.
Proof.
  unfold parse_line. destruct (last tokens); [|done]. destruct (is_help _); [done|].
  destruct (parse_loop nodes tokens [] None) as [m|[[args' node] nodes']] eqn:E; [done|].
  destruct (node ≫= n_command); [|done]. intros [= <- <-] Ht. by eapply parse_loop_args; [exact E| |constructor].
Qed.

Lemma interactive_line_fine env line s code s' effects : clean_env env -> clean_line line ->
  interactive_line env line s = Some (code, s', effects) -> step_fine env s s' effects.
Proof.
  intros He Hl. unfold interactive_line. unfold clean_line in Hl. destruct (split_whitespace line) as [|token tokens]; [intros [= <- <- <-]; apply step_fine_none|].
  unfold handle_result. destruct (parse_line _ _) as [c args|entries|m] eqn:Ep; [|intros [= <- <- <-]; apply step_fine_none..].
  apply parse_line_args in Ep; [|done]. destruct (execute env c args s) as [r|] eqn:Er; [|done]. apply execute_fine in Er; [|done..].
  destruct r as [[res s1] e]. cbn. by intros [= <- <- <-].
Qed.

(** ** Runs *)
(** The shells that lines lead to, and what they did on the way; a line that
    quits leads nowhere. *)
Inductive reachable (input_ok : Env * Str -> Prop) (start : Shell) : Shell -> list Effect -> Prop :=
  | reach_start : reachable input_ok start start []
  | reach_line s effects env line code s' more :
      reachable input_ok start s effects -> input_ok (env, line) ->
      interactive_line env line s = Some (code, s', more) -> code <> Some 0 ->
      reachable input_ok start s' (effects ++ more).

Lemma reachable_ok input_ok addr path s effects : reachable input_ok (shell_new addr path) s effects -> session_ok s.
Proof.
  induction 1 as [|s effects env line code s' more Hr IH _ E Hcode]; [apply shell_new_ok|].
  destruct (interactive_line_ok env line s IH) as (code' & s'' & e & E' & Hend). rewrite E' in E. injection E as -> -> ->.
  by destruct Hend as [-> |].
Qed.
Lemma reachable_cand addr path s effects : reachable clean_input (shell_new addr path) s effects -> cand_ok s.
Proof.
  induction 1 as [|s effects env line code s' more Hr IH [He Hl] E Hcode]; [done|].
  by apply (sf_cand env _ _ _ (interactive_line_fine env line s code s' more He Hl E)).
Qed.

(** C10. No line makes the shell panic, whatever the file and the daemon answer: a
    command that the grammar lets through has its arguments, and between lines
    the levels are [Root], [Root, Configure] or [Root, Configure, BgpService],
    with a candidate and the lock exactly in the last two. *)
Theorem shell_sessions_sound addr path s effects : reachable (fun _ => True) (shell_new addr path) s effects ->
  session_ok s /\ forall env line, is_Some (interactive_line env line s).
Proof.
  intros Hr%reachable_ok. split; [done|]. intros env line.
  destruct (interactive_line_ok env line s Hr) as (code & s' & e & E & _). by eexists.
Qed.

(** C11. What [commit] sends is the candidate, and it parses back to the candidate,
    after any session whose lines are of bare words (no blanks, quotes, braces
    or comment signs in a word) and whose file was written by the printer
    ([clean_input]). *)
Theorem commit_sends_candidate addr path s effects env line code s' more text :
  reachable clean_input (shell_new addr path) s effects -> clean_input (env, line) ->
  interactive_line env line s = Some (code, s', more) -> SentCommit text ∈ more ->
  exists root, sh_candidate s = Some root /\ parse text = Ok root.
Proof.
  intros Hr [He Hl] E Hin. pose proof (interactive_line_fine env line s code s' more He Hl E) as [_ Hs _].
  destruct (Hs text Hin) as (root & Ec & ->). exists root. split; [done|]. apply reachable_cand in Hr. unfold cand_ok in Hr. rewrite Ec in Hr.
  apply parse_of_reads. intros n. by apply show_root_reads.
Qed.

(** While the file can be read, the lock file is there exactly during a
    configuration session: taken by [configure], removed by [exit] and by a
    [commit] that the daemon accepts. *)
Theorem lock_file_in_sessions addr path s effects :
  reachable (fun i => clean_input i /\ readable (fst i)) (shell_new addr path) s effects ->
  lock_file false effects = true <-> is_Some (sh_candidate s).
Proof.
  intros Hr. assert (session_ok s) as Hs by (by eapply reachable_ok).
  transitivity (sh_lock s = true); [|symmetry; apply Hs]. cut (lock_file false effects = sh_lock s); [by intros ->|]. clear Hs.
  induction Hr as [|s effects env line code s' more Hr IH [[He Hl] Hread] E Hcode]; [done|].
  pose proof (interactive_line_fine env line s code s' more He Hl E) as [_ _ Hlock].
  unfold lock_file in *. rewrite fold_left_app, IH. apply Hlock; [done|by eapply reachable_ok].
Qed.

(** ** Accepted settings *)
Definition telemetry_of (root : Root) : option TelemetryBlock := match services root with Bgp body :: _ => bs_telemetry body | [] => None end.
Definition is_set (c : Command) : bool :=
  match c with
  | SetTop _ | SetTopOriginate | SetPeer _ | SetPeerFamily _ | SetPolicyMatch | SetPolicyDefault | SetPrefixListEntry | SetBmpServer _
  | SetRpkiCache _ | SetBgpLs _ | SetTelemetryJson | SetTelemetryCloudwatchEmf | SetTelemetryPrometheus | SetTelemetryPrometheusListen => true
  | _ => false
  end.
(** The two sinks of telemetry exclude each other. *)
Definition other_sink (c : Command) (root : Root) : bool :=
  match c, telemetry_of root with
  | SetTelemetryJson, Some t => bool_decide (is_Some (tm_cloudwatch_emf t))
  | SetTelemetryCloudwatchEmf, Some t => tm_json t
  | _, _ => false
  end.

Lemma on_telemetry_fst f root : fst (on_telemetry f root) = fst (f (default telemetry_empty (telemetry_of root))).
Proof.
  unfold on_telemetry, telemetry_of, on_body, on_field, or_insert. destruct root as [[|[body] rest]]; cbn.
  - by destruct (f telemetry_empty).
  - by destruct (f _).
Qed.
Ltac use_valid :=
  repeat match goal with
  | H : validate (tk_value_kind _) _ = true |- _ => let E := fresh "Ev" in apply valid_top in H as (? & E & _)
  | H : validate (pk_value_kind _) _ = true |- _ => let E := fresh "Ev" in apply valid_peer in H as (? & E & _)
  | H : validate VkAfi _ = true |- _ => let E := fresh "Ev" in apply valid_afi in H as [? E]
  | H : validate VkSafi _ = true |- _ => let E := fresh "Ev" in apply valid_safi in H as [? E]
  end.
Lemma succeeds_put matches key value s : setting_parse key (Some value) = inr s -> succeeds (put_setting matches key value).
Proof. intros E l. unfold put_setting. by rewrite E. Qed.
Ltac edit_succeeds :=
  repeat first
    [ apply succeeds_upd | apply succeeds_body | apply succeeds_field | apply succeeds_entry | apply succeeds_insert
    | eapply succeeds_put; eassumption | eapply succeeds_value; eassumption ].
Lemma set_succeeds c own rest f : fit (command_kinds c) own -> is_set c = true -> edit_of c (own ++ rest) = Some (Some f) ->
  c <> SetTelemetryJson -> c <> SetTelemetryCloudwatchEmf -> succeeds f.
Proof.
  intros Hf Hset. destruct c; try discriminate Hset; cbn [command_kinds] in Hf; split_args; use_valid; cbn; intros [= <-] Hj Hn; try done; edit_succeeds.
  - intros root. unfold apply_set_peer_family, with_family. rewrite Ev, Ev0. revert root. edit_succeeds.
  - destruct key. apply valid_uint in H0 as [v Ev]. edit_succeeds.
  - destruct key; cbn in H0; try apply succeeds_upd.
    all: first [apply valid_uint in H0 as [v Ev] | apply valid_transport in H0 as [v Ev]]; edit_succeeds.
  - destruct key. apply valid_uint in H as [v Ev]. edit_succeeds.
Qed.

(** A [set] line that the grammar accepts succeeds, with one exception: a
    telemetry sink when the other one is set.  The shapes of the arguments in
    the grammar are those that the parsers of the settings take. *)
Theorem accepted_sets_succeed s tokens c args f root :
  parse_line (current_tree s) tokens = Execution c args -> is_set c = true -> edit_of c args = Some (Some f) ->
  fst (f root) = inr () <-> other_sink c root = false.
Proof.
  intros (own & rest & -> & Hf)%parsed_args Hset E.
  assert (c = SetTelemetryJson \/ c = SetTelemetryCloudwatchEmf \/ (c <> SetTelemetryJson /\ c <> SetTelemetryCloudwatchEmf)) as [-> | [-> | [Hj Hn]]]
    by (destruct c; auto).
  - injection E as <-. unfold apply_set_telemetry_json. rewrite on_telemetry_fst. cbn.
    destruct (telemetry_of root) as [t|]; cbn; [|done]. by destruct (tm_cloudwatch_emf t).
  - cbn in Hf. split_args. injection E as <-. unfold apply_set_telemetry_cloudwatch_emf. rewrite on_telemetry_fst. cbn.
    destruct (telemetry_of root) as [t|]; cbn; [|done]. by destruct (tm_json t).
  - rewrite (set_succeeds c own rest f Hf Hset E Hj Hn). by destruct c.
Qed.

(** ** From a set line to the daemon *)
(** The value of a setting in the configuration of the daemon. *)
Definition top_setting (key : TopKey) (c : BgpConfig) : option Setting :=
  match key with
  | TkAsn => Some (SAsn (cf_asn c))
  | TkRouterId => Some (SRouterId (cf_router_id c))
  | TkListenAddr => Some (SListenAddr (cf_listen_addr c))
  | TkGrpcListenAddr => Some (SGrpcListenAddr (cf_grpc_listen_addr c))
  | TkLogLevel => Some (SLogLevel (cf_log_level c))
  | TkHoldTime => Some (SHoldTime (cf_hold_time_secs c))
  | TkConnectRetry => Some (SConnectRetry (cf_connect_retry_secs c))
  | TkClusterId => SClusterId <$> cf_cluster_id c
  | TkSysName => SSysName <$> cf_sys_name c
  | TkSysDescr => SSysDescr <$> cf_sys_descr c
  | TkEnhancedRrStaleTtl => SEnhancedRrStaleTtl <$> cf_enhanced_rr_stale_ttl c
  end.

Lemma insert_peers_top blocks key : forall c c', insert_peers c blocks = inr c' -> top_setting key c' = top_setting key c.
Proof.
  induction blocks as [|b blocks IH]; intros c c'; cbn [insert_peers]; [by intros [= <-]|]. unfold insert_peer.
  destruct (cp_ip _); [|done]. destruct (find_peer c i); [done|]. intros ->%IH. by destruct key.
Qed.
Lemma body_top b key c : config_from_body b = inr c ->
  top_setting key c = top_setting key (sr_config (fold_left apply_setting (bs_settings b) (mkSettingsRead bgp_config_default false false))).
Proof.
  unfold config_from_body. destruct (fold_left apply_setting _ _) as [c0 has_asn has_router_id]. cbv zeta.
  destruct (negb has_asn); [done|]. destruct (negb has_router_id); [done|]. destruct (_ =? 0); [done|].
  destruct (insert_peers _ (bs_peers b)) as [e|c3] eqn:Ep; [done|]. apply (insert_peers_top _ key) in Ep.
  destruct (all_or_error policy_block_to_definition _); [done|]. intros [= <-].
  transitivity (top_setting key c3); [by destruct key|]. rewrite Ep. by destruct (bs_bgp_ls b), (bs_telemetry b), key.
Qed.
Lemma apply_setting_top key r s : setting_matches_top_key s key = true -> top_setting key (sr_config (apply_setting r s)) = Some s.
Proof. destruct key, s; try discriminate; done. Qed.

(** C27. A [set] of a top-level setting of bare words (no blanks, quotes, braces
    or comment signs) that the grammar accepts is in effect: when the candidate
    is then printed and the daemon loads it, the value the daemon has is the one
    of the line, whatever the candidate said of the key before. *)
Theorem accepted_setting_loads s tokens key value rest root c :
  parse_line (current_tree s) tokens = Execution (SetTop key) (value :: rest) -> Forall word_ok tokens -> root_ok root ->
  from_conf_str (show_root (snd (apply_set_top key value root))) = Ok c ->
  exists setting, setting_parse (tk_as_str key) (Some value) = inr setting /\ top_setting key c = Some setting.
Proof.
  intros Ep Hw Hok. pose proof (parse_line_args _ _ _ _ Ep Hw) as [Hx _]%Forall_cons.
  apply parsed_args in Ep as (own & rest' & E & Hf). cbn in Hf. split_args. injection E as -> ->.
  apply valid_top in H as (setting & Es & Hm). unfold from_conf_str.
  rewrite parse_of_reads by (intros n; apply show_root_reads; by apply set_top_ok).
  intros Hc. exists setting. split; [done|]. revert Hc.
  set (edited := on_field bs_settings with_settings (put_setting (fun s => setting_matches_top_key s key) (tk_as_str key) x)).
  assert (Hbody : forall b, config_from_body (snd (edited b)) = inr c -> top_setting key c = Some setting).
  { intros b Hb%(body_top _ key). rewrite Hb. unfold edited, on_field, put_setting. rewrite Es. cbn. rewrite fold_left_app. by apply apply_setting_top. }
  unfold apply_set_top, on_body. fold edited. destruct root as [[|[body] more]]; cbn [services];
    [specialize (Hbody body_default); destruct (edited body_default) as [r b]|specialize (Hbody body); destruct (edited body) as [r b]].
  all: cbn in *; destruct (config_from_body b); [done|]; intros [= ->]; auto.
Qed.

(** ** A session *)
Definition demo_env : Env := mkEnv (inr ()) (inr ()) FrNotFound (fun _ => inr ()) (inr []) (fun _ => inr ()) (inr ()).
Definition demo_shell : Shell := shell_new (Some (str "127.0.0.1:50051")) (str "rogg.conf").
Definition demo_lines : list Str := [str "configure"; str "service bgp"; str "asn 65001"; str "peer 10.0.0.1 remote-as 65002"].
Definition demo_body : BgpServiceBody := with_peers [mkPeerBlock (str "10.0.0.1") [SRemoteAs 65002] []] (with_settings [SAsn 65001] body_default).
Definition demo_state : Shell := mkShell (Some (str "127.0.0.1:50051")) false [LvRoot; LvConfigure; LvBgpService] (Some (mkRoot [Bgp demo_body])) true (str "rogg.conf").

Lemma clean_demo_env : clean_env demo_env.
Proof. by intros text [=]. Qed.
Lemma word_ok_of (w : Str) : bool_decide (w <> []) && forallb plain w = true -> word_ok w.
Proof. intros [Hne%bool_decide_eq_true Hw]%andb_true_iff. split; [done|]. rewrite Forall_forall. intros c Hc. by apply (proj1 (forallb_forall plain w) Hw), list_elem_of_In. Qed.
Lemma clean_lines l : forallb (fun w => bool_decide (w <> []) && forallb plain w) (concat (map split_whitespace l)) = true -> Forall clean_line l.
Proof.
  rewrite forallb_forall. intros H. rewrite Forall_forall. intros line Hl. unfold clean_line. rewrite Forall_forall. intros w Hw.
  apply word_ok_of, H, in_concat. exists (split_whitespace line). split; [apply in_map|]; by apply list_elem_of_In.
Qed.
(** Lines that all succeed, in one world. *)
Fixpoint run_lines (env : Env) (lines : list Str) (s : Shell) : option (Shell * list Effect) :=
  match lines with
  | [] => Some (s, [])
  | line :: lines =>
      match interactive_line env line s with
      | Some (None, s, effects) => '(s, rest) ← run_lines env lines s; Some (s, effects ++ rest)
      | _ => None
      end
  end.
Lemma run_lines_reachable (input_ok : Env * Str -> Prop) env start l : forall s effects s' more,
  Forall (fun line => input_ok (env, line)) l -> run_lines env l s = Some (s', more) ->
  reachable input_ok start s effects -> reachable input_ok start s' (effects ++ more).
Proof.
  induction l as [|line l IH]; intros s effects s' more Hl; cbn [run_lines]; [intros [= <- <-]; by rewrite app_nil_r|].
  apply Forall_cons in Hl as [Hline Hl]. destruct (interactive_line env line s) as [[[[code|] s1] e1]|] eqn:E; [done| |done].
  destruct (run_lines env l s1) as [[s2 e2]|] eqn:El; [|done]. cbn. intros [= <- <-] Hr. rewrite app_assoc.
  eapply IH; [done|exact El|]. by eapply reach_line; [exact Hr|exact Hline|exact E|].
Qed.
Lemma demo_reachable (input_ok : Env * Str -> Prop) : (forall line, clean_line line -> input_ok (demo_env, line)) ->
  reachable input_ok demo_shell demo_state [TookLock].
Proof.
  intros Hok. apply (run_lines_reachable input_ok demo_env demo_shell demo_lines demo_shell []).
  - eapply Forall_impl; [|exact Hok]. apply clean_lines. vm_compute. reflexivity.
  - vm_compute. reflexivity.
  - apply reach_start.
Qed.

Lemma shell_sessions_sound_witness : session_ok demo_state /\ forall env line, is_Some (interactive_line env line demo_state).
Proof. apply (shell_sessions_sound (Some (str "127.0.0.1:50051")) (str "rogg.conf") demo_state [TookLock]). by apply demo_reachable. Defined.

Lemma commit_sends_candidate_witness : exists root, sh_candidate demo_state = Some root /\ parse (show_root (mkRoot [Bgp demo_body])) = Ok root.
Proof.
  apply (commit_sends_candidate (Some (str "127.0.0.1:50051")) (str "rogg.conf") demo_state [TookLock] demo_env (str "commit") None
    (with_client true demo_shell) [SentCommit (show_root (mkRoot [Bgp demo_body])); RemovedLock]).
  - apply demo_reachable. intros line Hl. split; [exact clean_demo_env|exact Hl].
  - split; [exact clean_demo_env|]. apply (proj1 (Forall_singleton clean_line (str "commit"))), clean_lines. vm_compute. reflexivity.
  - vm_compute. reflexivity.
  - left.
Defined.

Lemma lock_file_in_sessions_witness : lock_file false [TookLock] = true <-> is_Some (sh_candidate demo_state).
Proof.
  apply (lock_file_in_sessions (Some (str "127.0.0.1:50051")) (str "rogg.conf")). apply demo_reachable.
  intros line Hl. split; [split; [exact clean_demo_env|exact Hl]|]. by intros err [=].
Defined.

Lemma accepted_sets_succeed_witness : fst (apply_set_peer PkRemoteAs (str "10.0.0.1") (str "65002") (mkRoot [])) = inr () <-> false = false.
Proof.
  apply (accepted_sets_succeed demo_state [str "peer"; str "10.0.0.1"; str "remote-as"; str "65002"] (SetPeer PkRemoteAs) [str "10.0.0.1"; str "65002"]
    (apply_set_peer PkRemoteAs (str "10.0.0.1") (str "65002")) (mkRoot [])); [vm_compute; reflexivity|reflexivity|reflexivity].
Defined.

Definition demo_edited : Root := mkRoot [Bgp (with_settings [SRouterId 0x01020304; SAsn 65001; SHoldTime 30] body_default)].
Lemma accepted_setting_loads_witness : exists setting, setting_parse (tk_as_str TkHoldTime) (Some (str "90")) = inr setting /\
  top_setting TkHoldTime (with_cf_hold_time_secs 90 (with_cf_asn 65001 (with_cf_router_id 0x01020304 bgp_config_default))) = Some setting.
Proof.
  apply (accepted_setting_loads demo_state [str "hold-time"; str "90"] TkHoldTime (str "90") [] demo_edited).
  - vm_compute. reflexivity.
  - apply Forall_cons; split; [|apply Forall_singleton]; apply word_ok_of; vm_compute; reflexivity.
  - apply Forall_singleton. split; [|apply body_default_ok].
    apply Forall_cons_2; [|apply Forall_cons_2; [|apply Forall_singleton]]; cbn; unfold u32, u64; lia.
  - vm_compute. reflexivity.
Defined.
