(* ===== verification/Store.v ===== *)
(** * The configuration file on disk: snapshots and the atomic write ([conf/src/fs.rs])

    The files of the directory of the configuration, by name.  Every system
    call may fail: [fault n] says whether the [n]-th one does, and for a write
    or a copy how much of the content was in the file by then. *)
From S2P Require Import Prelude Net BgpLs Attrs Text LangBgp LangBgpParse LangMain LangTotal PeerCaps Conf ConfFile ConfSpec ConfMain.

Definition SNAPSHOT_COUNT : nat := 10.

(** ** Names *)
(** A name cut before its last dot. *)
Fixpoint rsplit_dot (name : Str) : option (Str * Str) :=
  match name with
  | [] => None
  | c :: rest =>
      match rsplit_dot rest with
      | Some (stem, ext) => Some (c :: stem, ext)
      | None => if c =? 46 then Some ([], name) else None
      end
  end.
(** [snapshot_path_for], on the name of a file. *)
Definition snapshot_path_for (name : Str) (index : nat) : Str :=
  match rsplit_dot name with
  | Some ((_ :: _) as stem, ext) => stem ++ str "." ++ dec (Z.of_nat index) ++ ext
  | _ => name ++ str "." ++ dec (Z.of_nat index)
  end.
Definition tmp_write_path_for (name : Str) : Str := name ++ str ".tmp".
Definition lock_path_for (name : Str) : Str := name ++ str ".lock".

(** ** Files *)
Abbreviation Files := (gmap (list Z) (list Z)).
Inductive IoError := NotFound | InvalidData (message : Str) | Failed.
Inductive Fault := Refused | Cut (written : nat).
Definition io (A : Type) : Type := nat * Files -> (IoError + A) * (nat * Files).
#[export] Instance io_ret : MRet io := fun A a w => (inr a, w).
#[export] Instance io_bind : MBind io := fun A B f m w => let '(r, w) := m w in match r with inl e => (inl e, w) | inr a => f a w end.
Definition io_err {A} (e : IoError) : io A := fun w => (inl e, w).

Section files.
Context (fault : nat -> option Fault).
Definition read_to_string (p : Str) : io Str := fun '(n, fs) =>
  (match fault n with Some _ => inl Failed | None => match fs !! p with Some text => inr text | None => inl NotFound end end, (S n, fs)).
Definition remove_file (p : Str) : io () := fun '(n, fs) =>
  match fault n with
  | Some _ => (inl Failed, (S n, fs))
  | None => match fs !! p with Some _ => (inr (), (S n, delete p fs)) | None => (inl NotFound, (S n, fs)) end
  end.
Definition rename (src dst : Str) : io () := fun '(n, fs) =>
  match fault n with
  | Some _ => (inl Failed, (S n, fs))
  | None => match fs !! src with Some text => (inr (), (S n, <[dst := text]> (delete src fs))) | None => (inl NotFound, (S n, fs)) end
  end.
(** The destination is made only when the source was opened. *)
Definition copy (src dst : Str) : io () := fun '(n, fs) =>
  match fault n with
  | Some Refused => (inl Failed, (S n, fs))
  | Some (Cut k) => (inl Failed, (S n, match fs !! src with Some text => <[dst := take k text]> fs | None => fs end))
  | None => match fs !! src with Some text => (inr (), (S n, <[dst := text]> fs)) | None => (inl NotFound, (S n, fs)) end
  end.
Definition write (p text : Str) : io () := fun '(n, fs) =>
  match fault n with
  | Some Refused => (inl Failed, (S n, fs))
  | Some (Cut k) => (inl Failed, (S n, <[p := take k text]> fs))
  | None => (inr (), (S n, <[p := text]> fs))
  end.

(** [Err(e) if e.kind() == NotFound => ()] *)
Definition unless_missing (m : io ()) : io () := fun w => let '(r, w) := m w in (match r with inl NotFound => inr () | _ => r end, w).

(** ** Snapshots *)
(** [.(i)] to [.(i+1)] for [i] from [count] down to 1. *)
Fixpoint slide (path : Str) (count : nat) : io () :=
  match count with
  | O => mret ()
  | S i => _ ← unless_missing (rename (snapshot_path_for path count) (snapshot_path_for path (S count))); slide path i
  end.
Definition rotate_snapshots (path : Str) (n : nat) : io () :=
  match n with
  | O => mret ()
  | S last => _ ← unless_missing (remove_file (snapshot_path_for path n)); slide path last
  end.
Definition load_snapshot (path : Str) (index : nat) : io Str := read_to_string (snapshot_path_for path index).
(** [list_snapshots]: the indices, with the texts whose sizes and times are
    reported. *)
Definition list_snapshots (path : Str) (max : nat) (fs : Files) : list (nat * Str) :=
  omap (fun i => text ← fs !! snapshot_path_for path i; Some (i, text)) (seq 1 max).

(** ** Writing the configuration *)
(** The tree of the file, none when it is missing. *)
Definition read_existing (path : Str) : io Root := fun w =>
  let '(r, w) := read_to_string path w in
  (match r with
   | inl NotFound => inr (mkRoot [])
   | inl e => inl e
   | inr text => match parse text with Ok root => inr root | Err e => inl (InvalidData (pe_message e)) | Panic => inl Failed end
   end, w).
(** The part of [persist_service_config] after the file is read. *)
Definition write_back (path merged : Str) : io () :=
  _ ← rotate_snapshots path SNAPSHOT_COUNT;
  _ ← unless_missing (copy path (snapshot_path_for path 1));
  _ ← write (tmp_write_path_for path) merged;
  rename (tmp_write_path_for path) path.
Definition persist_service_config (path : Str) (service : Service) : io () :=
  existing ← read_existing path;
  write_back path (show_root (with_service existing service)).
End files.

Example snapshot_names :
  snapshot_path_for (str "rogg.conf") 3 = str "rogg.3.conf" /\ snapshot_path_for (str "config") 2 = str "config.2" /\
  snapshot_path_for (str ".rogg") 4 = str ".rogg.4" /\ snapshot_path_for (str "a.b.c") 10 = str "a.b.10.c".
Proof. by vm_compute. Qed.

(** * The configuration file on disk: what a write leaves

    Whatever system call fails, the file is the old text or the new one, and no
    snapshot but the oldest is lost. *)

(** ** Names *)
Lemma rsplit_dot_app name stem ext : rsplit_dot name = Some (stem, ext) -> name = stem ++ ext.
Proof.
  revert stem ext. induction name as [|c name IH]; intros stem ext; cbn; [done|]. destruct (rsplit_dot name) as [[s e]|] eqn:E.
  - intros [= <- <-]. cbn. f_equal. by apply IH.
  - destruct (c =? 46); [|done]. by intros [= <- <-].
Qed.
(** A snapshot's name is the name with the index put in. *)
Lemma snapshot_split path : exists stem ext, path = stem ++ ext /\ forall i, snapshot_path_for path i = stem ++ str "." ++ dec (Z.of_nat i) ++ ext.
Proof.
  unfold snapshot_path_for. destruct (rsplit_dot path) as [[[|c stem] ext]|] eqn:E.
  - exists path, []. split; [by rewrite app_nil_r|]. intros i. by rewrite app_nil_r.
  - exists (c :: stem), ext. by split; [apply rsplit_dot_app|].
  - exists path, []. split; [by rewrite app_nil_r|]. intros i. by rewrite app_nil_r.
Qed.
Lemma snapshot_length path i : length (snapshot_path_for path i) = (length path + 1 + length (dec (Z.of_nat i)))%nat.
Proof. destruct (snapshot_split path) as (stem & ext & -> & H). rewrite H, !length_app. change (length (str ".")) with 1%nat. lia. Qed.
Lemma dec_inj m n : 0 <= m < 10 ^ 20 -> 0 <= n < 10 ^ 20 -> dec m = dec n -> m = n.
Proof.
  intros Hm Hn E. pose proof (parse_uint_dec (10 ^ 20) m ltac:(lia) ltac:(lia)) as H1.
  rewrite E, parse_uint_dec in H1 by lia. by injection H1.
Qed.
Lemma snapshot_inj path i j : (i <= 10)%nat -> (j <= 10)%nat -> snapshot_path_for path i = snapshot_path_for path j -> i = j.
Proof.
  intros Hi Hj. destruct (snapshot_split path) as (stem & ext & _ & H). rewrite !H. intros E.
  apply app_inv_head, app_inv_head, app_inv_tail in E. apply dec_inj in E; lia.
Qed.
Lemma index_digits i : (i <= 10)%nat -> (length (dec (Z.of_nat i)) <= 2)%nat.
Proof. intros Hi. do 11 (destruct i as [|i]; [vm_compute; lia|]). lia. Qed.
Lemma snapshot_not_path path i : snapshot_path_for path i <> path.
Proof. intros E. apply (f_equal length) in E. rewrite snapshot_length in E. lia. Qed.
Lemma snapshot_not_tmp path i : (i <= 10)%nat -> snapshot_path_for path i <> tmp_write_path_for path.
Proof.
  intros Hi E. apply (f_equal length) in E. unfold tmp_write_path_for in E. rewrite snapshot_length, length_app in E. change (length (str ".tmp")) with 4%nat in E.
  pose proof (index_digits i Hi). lia.
Qed.
Lemma tmp_not_path path : tmp_write_path_for path <> path.
Proof. intros E. apply (f_equal length) in E. unfold tmp_write_path_for in E. rewrite length_app in E. change (length (str ".tmp")) with 4%nat in E. lia. Qed.

(** ** Rotation *)
Section rotation.
Context (fault : nat -> option Fault) (path : Str).
Local Abbreviation snap := (snapshot_path_for path).
Definition is_snapshot (x : Str) : Prop := exists i, (1 <= i <= 10)%nat /\ x = snap i.

(** The snapshots from [k] on are one up, and there is none at [k]. *)
Definition rotated (k : nat) (old new : Files) : Prop :=
  (forall i, (1 <= i <= 10)%nat -> new !! snap i = if (i <? k)%nat then old !! snap i else if (i =? k)%nat then None else old !! snap (i - 1)%nat) /\
  (forall x, ~ is_snapshot x -> new !! x = old !! x).

Lemma rename_rotated k old fs : (1 <= k < 10)%nat -> rotated (S k) old fs -> forall n,
  let '(r, (_, fs')) := unless_missing (rename fault (snap k) (snap (S k))) (n, fs) in
  match r with inr _ => rotated k old fs' | inl _ => fs' = fs end.
Proof.
  intros Hk [Hs Hx] n. unfold unless_missing, rename. destruct (fault n); [done|].
  assert (Hold : fs !! snap k = old !! snap k). { rewrite Hs by lia. by rewrite (proj2 (Nat.ltb_lt k (S k))) by lia. }
  destruct (fs !! snap k) as [text|] eqn:E.
  - split.
    + intros i Hi. destruct (decide (i = S k)) as [->|Hne].
      { rewrite lookup_insert_eq. rewrite (proj2 (Nat.ltb_ge (S k) k)), (proj2 (Nat.eqb_neq (S k) k)) by lia. by replace (S k - 1)%nat with k by lia. }
      rewrite lookup_insert_ne by (intros Heq%snapshot_inj; lia). destruct (decide (i = k)) as [->|Hne'].
      { rewrite lookup_delete_eq. by rewrite Nat.ltb_irrefl, Nat.eqb_refl. }
      rewrite lookup_delete_ne by (intros Heq%snapshot_inj; lia). rewrite Hs by done.
      destruct (Nat.ltb_spec i (S k)), (Nat.ltb_spec i k), (Nat.eqb_spec i (S k)), (Nat.eqb_spec i k); try lia; done.
    + intros x Hn. rewrite lookup_insert_ne, lookup_delete_ne by (intros <-; apply Hn; eexists; split; [|done]; lia). by apply Hx.
  - split; [|done]. intros i Hi. rewrite Hs by done.
    destruct (Nat.ltb_spec i (S k)), (Nat.ltb_spec i k), (Nat.eqb_spec i (S k)), (Nat.eqb_spec i k); try lia; try done; subst; [by rewrite <- Hold|].
    by replace (S k - 1)%nat with k by lia.
Qed.

(** What a rotation that stopped somewhere leaves. *)
Definition rotating (old new : Files) : Prop := new = old \/ exists k, (1 <= k <= 10)%nat /\ rotated k old new.

Lemma slide_rotated count : forall old fs n, (count < 10)%nat -> rotated (S count) old fs ->
  let '(r, (_, fs')) := slide fault path count (n, fs) in match r with inr _ => rotated 1 old fs' | inl _ => rotating old fs' end.
Proof.
  induction count as [|k IH]; intros old fs n Hk Hr; [done|].
  cbn [slide]. unfold mbind, io_bind. pose proof (rename_rotated (S k) old fs ltac:(lia) Hr n) as H.
  destruct (unless_missing _ _) as [[e|u] [n' fs']]; [|by apply IH; [lia|]].
  subst. right. exists (S (S k)). split; [lia|done].
Qed.
Lemma rotate_rotated fs n :
  let '(r, (_, fs')) := rotate_snapshots fault path SNAPSHOT_COUNT (n, fs) in match r with inr _ => rotated 1 fs fs' | inl _ => rotating fs fs' end.
Proof.
  unfold rotate_snapshots, SNAPSHOT_COUNT, mbind, io_bind, unless_missing, remove_file.
  destruct (fault n); [by left|].
  assert (H : forall fs', fs' = delete (snap 10) fs -> rotated 10 fs fs').
  { intros fs' ->. split.
    - intros i Hi. destruct (decide (i = 10%nat)) as [->|Hne]; [by rewrite lookup_delete_eq|].
      rewrite lookup_delete_ne by (intros Heq%snapshot_inj; lia). by rewrite (proj2 (Nat.ltb_lt i 10)) by lia.
    - intros x Hx. rewrite lookup_delete_ne; [done|]. intros <-. apply Hx. exists 10%nat. split; [lia|done]. }
  destruct (fs !! snap 10) eqn:E; apply slide_rotated; try lia; apply H; [done|]. by rewrite delete_id.
Qed.

(** ** The write *)
Lemma not_snapshot x : x = path \/ x = tmp_write_path_for path -> ~ is_snapshot x.
Proof. intros [-> | ->] (i & Hi & E); symmetry in E; [by apply snapshot_not_path in E|by apply snapshot_not_tmp in E; [|lia]]. Qed.
Lemma rotated_at k old new x : rotated k old new -> x = path \/ x = tmp_write_path_for path -> new !! x = old !! x.
Proof. intros [_ H] Hx. by apply H, not_snapshot. Qed.

(** Of each snapshot but the oldest, one copy at least. *)
Definition snapshots_kept (old new : Files) : Prop := forall i text, (1 <= i < 10)%nat -> old !! snap i = Some text ->
  new !! snap i = Some text \/ new !! snap (S i) = Some text.
Definition others_kept (old new : Files) : Prop :=
  forall x, x <> path -> x <> tmp_write_path_for path -> ~ is_snapshot x -> new !! x = old !! x.
Definition interrupted (old new : Files) : Prop := new !! path = old !! path /\ snapshots_kept old new /\ others_kept old new.
Record written (old new : Files) (text : Str) : Prop := mkWritten {
  wr_file : new !! path = Some text;
  wr_tmp : new !! tmp_write_path_for path = None;
  wr_first : new !! snap 1 = old !! path;
  wr_older : forall i, (1 <= i < 10)%nat -> new !! snap (S i) = old !! snap i;
  wr_others : others_kept old new;
}.

Lemma rotating_interrupted old new : rotating old new -> interrupted old new.
Proof.
  intros [-> | (k & Hk & Hr)]; [split; [done|]; split; [intros i text _ H; by left|by intros x _ _]|].
  split; [apply (rotated_at k); auto|]. split; [|intros x _ _; apply Hr].
  intros i text Hi Hold. destruct Hr as [Hs _]. destruct (decide (i < k)%nat) as [Hlt|Hge].
  - left. rewrite Hs by lia. by rewrite (proj2 (Nat.ltb_lt i k)).
  - right. rewrite Hs by lia. destruct (Nat.ltb_spec (S i) k), (Nat.eqb_spec (S i) k); try lia. by replace (S i - 1)%nat with i by lia.
Qed.

(** After the rotation, writes to the first snapshot and the temporary file. *)
Definition drafted (old new : Files) : Prop :=
  new !! path = old !! path /\ (forall i, (1 <= i < 10)%nat -> new !! snap (S i) = old !! snap i) /\ others_kept old new.
Lemma rotated_drafted old new : rotated 1 old new -> drafted old new.
Proof.
  intros Hr. split; [apply (rotated_at 1); auto|]. split; [|intros x _ _; apply Hr]. destruct Hr as [Hs _]. intros i Hi. rewrite Hs by lia.
  destruct (Nat.ltb_spec (S i) 1), (Nat.eqb_spec (S i) 1); try lia. by replace (S i - 1)%nat with i by lia.
Qed.
Lemma drafted_insert old new x text : drafted old new -> x = snap 1 \/ x = tmp_write_path_for path -> drafted old (<[x := text]> new).
Proof.
  intros (Hp & Hs & Ho) Hx. split; [|split].
  - rewrite lookup_insert_ne; [done|]. destruct Hx as [-> | ->]; [apply snapshot_not_path|apply tmp_not_path].
  - intros i Hi. rewrite lookup_insert_ne; [by apply Hs|]. destruct Hx as [-> | ->]; [intros Heq%snapshot_inj; lia|].
    intros Heq. symmetry in Heq. by apply snapshot_not_tmp in Heq; [|lia].
  - intros y H1 H2 H3. rewrite lookup_insert_ne; [by apply Ho|]. destruct Hx as [-> | ->]; [|done]. intros <-. apply H3. exists 1%nat. split; [lia|done].
Qed.
Lemma drafted_interrupted old new : drafted old new -> interrupted old new.
Proof. intros (Hp & Hs & Ho). split; [done|]. split; [|done]. intros i text Hi Hold. right. by rewrite Hs. Qed.

Lemma write_back_spec fs merged n :
  let '(r, (_, fs')) := write_back fault path merged (n, fs) in match r with inr _ => written fs fs' merged | inl _ => interrupted fs fs' end.
Proof.
  unfold write_back, mbind, io_bind. pose proof (rotate_rotated fs n) as Hrot.
  destruct (rotate_snapshots _ _ _ _) as [[e|u] [n1 fs1]]; [by apply rotating_interrupted|].
  pose proof (rotated_at 1 fs fs1 path Hrot (or_introl eq_refl)) as Hpath.
  assert (Hs1 : fs1 !! snap 1 = None) by (destruct Hrot as [H _]; by rewrite H by lia).
  pose proof (rotated_drafted fs fs1 Hrot) as Hd. clear Hrot. unfold unless_missing, copy.
  destruct (fault n1) as [[|k]|].
  { by apply drafted_interrupted. }
  { apply drafted_interrupted. destruct (fs1 !! path); [apply drafted_insert; auto|done]. }
  assert (H2 : exists fs2, (match fs1 !! path with Some text => <[snap 1 := text]> fs1 | None => fs1 end) = fs2 /\ drafted fs fs2 /\ fs2 !! snap 1 = fs !! path).
  { eexists; split; [done|]. rewrite <- Hpath. destruct (fs1 !! path) as [text|] eqn:E; [|done].
    split; [apply drafted_insert; auto|by rewrite lookup_insert_eq]. }
  destruct H2 as (fs2 & E2 & Hd2 & Hfirst).
  assert (Hw : forall m, let '(r, (_, fs')) := io_bind _ _ (fun _ => rename fault (tmp_write_path_for path) path) (write fault (tmp_write_path_for path) merged) (m, fs2) in
    match r with inr _ => written fs fs' merged | inl _ => interrupted fs fs' end).
  { intros m. unfold io_bind, write, rename. destruct (fault m) as [[|k]|];
      [by apply drafted_interrupted|apply drafted_interrupted, drafted_insert; auto|].
    destruct (fault (S m)); [apply drafted_interrupted, drafted_insert; auto|]. rewrite lookup_insert_eq.
    assert (Hsnap : forall i, (i <= 10)%nat -> <[path := merged]> (delete (tmp_write_path_for path) (<[tmp_write_path_for path := merged]> fs2)) !! snap i = fs2 !! snap i).
    { intros i Hi. rewrite lookup_insert_ne by (intros Heq; symmetry in Heq; by apply snapshot_not_path in Heq).
      rewrite lookup_delete_ne, lookup_insert_ne; [done|..]; intros Heq; symmetry in Heq; by apply snapshot_not_tmp in Heq. }
    destruct Hd2 as (_ & Hs2 & Ho2). split.
    - by rewrite lookup_insert_eq.
    - rewrite lookup_insert_ne by (intros Heq; symmetry in Heq; by apply tmp_not_path in Heq). by rewrite lookup_delete_eq.
    - rewrite Hsnap by lia. done.
    - intros i Hi. rewrite Hsnap by lia. by apply Hs2.
    - intros x H1 H2 H3. rewrite lookup_insert_ne, lookup_delete_ne, lookup_insert_ne by done. by apply Ho2. }
  destruct (fs1 !! path); subst fs2; apply Hw.
Qed.
End rotation.

(** The tree of the file before a write. *)
Definition old_tree (path : Str) (fs : Files) (root : Root) : Prop :=
  (fs !! path = None /\ root = mkRoot []) \/ exists text, fs !! path = Some text /\ parse text = Ok root.

Lemma read_existing_spec fault path fs n :
  let '(r, (_, fs')) := read_existing fault path (n, fs) in fs' = fs /\ match r with inr root => old_tree path fs root | inl _ => True end.
Proof.
  unfold read_existing, read_to_string. destruct (fault n); [done|]. destruct (fs !! path) as [text|] eqn:E.
  - destruct (parse text) as [root|e|] eqn:Ep; [|done..]. split; [done|]. right. by exists text.
  - split; [done|]. by left.
Qed.

Lemma interrupted_refl path fs : interrupted path fs fs.
Proof. split; [done|]. split; [|by intros x _ _]. intros i text _ H. by left. Qed.

Lemma persist_spec fault path service fs n :
  let '(r, (_, fs')) := persist_service_config fault path service (n, fs) in
  match r with
  | inr _ => exists root, old_tree path fs root /\ written path fs fs' (show_root (with_service root service))
  | inl _ => interrupted path fs fs'
  end.
Proof.
  unfold persist_service_config, mbind, io_bind. pose proof (read_existing_spec fault path fs n) as H.
  destruct (read_existing fault path (n, fs)) as [[e|root] [n' fs']]; destruct H as [-> H]; [apply interrupted_refl|].
  pose proof (write_back_spec fault path fs (show_root (with_service root service)) n') as Hw.
  destruct (write_back _ _ _ _) as [[e|u] [n'' fs'']]; [done|]. by exists root.
Qed.

(** C9. A write of the configuration is atomic, whichever system call fails or is
    cut short.  When it reports success the file is the old tree with the
    service's block replaced, the file before is the first snapshot, every
    snapshot is one up, and no temporary file is left; otherwise the file is as
    it was and a snapshot has moved by one at most.  Nothing else is touched. *)
Theorem persist_atomic fault path service fs n :
  let '(r, (_, fs')) := persist_service_config fault path service (n, fs) in
  match r with
  | inr _ => exists root, old_tree path fs root /\ written path fs fs' (show_root (with_service root service))
  | inl _ => interrupted path fs fs'
  end.
Proof. apply persist_spec. Qed.

(** ** Writes that succeed *)
Definition no_fault : nat -> option Fault := fun _ => None.
Lemma unless_missing_ok (m : io ()) w : (forall e, fst (m w) = inl e -> e = NotFound) -> exists w', unless_missing m w = (inr (), w').
Proof.
  intros H. unfold unless_missing. destruct (m w) as [[e|[]] w'].
  - rewrite (H e) by done. by eexists.
  - by eexists.
Qed.
Lemma rename_ok src dst w : exists w', unless_missing (rename no_fault src dst) w = (inr (), w').
Proof. apply unless_missing_ok. intros e. destruct w as [n fs]. cbn. destruct (fs !! src); cbn; [done|by intros [= <-]]. Qed.
Lemma slide_ok path count : forall w, exists w', slide no_fault path count w = (inr (), w').
Proof.
  induction count as [|k IH]; intros w; [by eexists|]. cbn [slide]. unfold mbind, io_bind.
  destruct (rename_ok (snapshot_path_for path (S k)) (snapshot_path_for path (S (S k))) w) as [w' ->]. apply IH.
Qed.
Lemma rotate_ok path n w : exists w', rotate_snapshots no_fault path n w = (inr (), w').
Proof.
  destruct n as [|n]; [by eexists|]. unfold rotate_snapshots, mbind, io_bind.
  destruct (unless_missing_ok (remove_file no_fault (snapshot_path_for path (S n))) w) as [w1 ->]; [|apply slide_ok].
  intros e. destruct w as [m fs]. cbn. destruct (fs !! _); cbn; [done|by intros [= <-]].
Qed.
Lemma write_back_ok path merged w : exists w', write_back no_fault path merged w = (inr (), w').
Proof.
  unfold write_back, mbind, io_bind. destruct (rotate_ok path SNAPSHOT_COUNT w) as [w2 ->].
  destruct (unless_missing_ok (copy no_fault path (snapshot_path_for path 1)) w2) as [w3 ->].
  { intros e. destruct w2 as [n fs]. cbn. destruct (fs !! _); cbn; [done|by intros [= <-]]. }
  destruct w3 as [n fs]. unfold write, rename, no_fault. rewrite lookup_insert_eq. by eexists.
Qed.

Lemma with_service_services root b : exists rest, services (with_service root (Bgp b)) = Bgp b :: rest.
Proof. destruct root as [[|[b0] rest]]; cbn; by eexists. Qed.
Lemma with_service_ok root b : root_ok root -> body_ok b -> root_ok (with_service root (Bgp b)).
Proof. destruct root as [[|[b0] rest]]; intros Hr Hb; [by apply Forall_singleton|]. apply Forall_cons in Hr as [_ Hr]. by apply Forall_cons. Qed.
Lemma merged_loads root c : root_ok root -> conf_ok c -> from_conf_str (show_root (with_service root (Bgp (to_bgp_service_body c)))) = Ok c.
Proof.
  intros Hr Hok. unfold from_conf_str. rewrite parse_of_reads.
  - destruct (with_service_services root (to_bgp_service_body c)) as [rest ->]. destruct Hok as [Hk _]. by rewrite body_read.
  - intros n. apply show_root_reads, with_service_ok; [done|]. by apply conf_body_ok.
Qed.

(** Saving the configuration over a file that reads well succeeds; the file
    then loads to that configuration, and the first snapshot is the text the
    file had, so that a rollback to it loads what the file loaded before. *)
Theorem saved_config_on_disk path fs root text n c :
  fs !! path = Some text -> parse text = Ok root -> root_ok root -> conf_ok c ->
  exists m fs' text', persist_service_config no_fault path (Bgp (to_bgp_service_body c)) (n, fs) = (inr (), (m, fs')) /\
    fs' !! path = Some text' /\ from_conf_str text' = Ok c /\
    load_snapshot no_fault path 1 (m, fs') = (inr text, (S m, fs')).
Proof.
  intros Hfile Hparse Hroot Hok. pose proof (persist_spec no_fault path (Bgp (to_bgp_service_body c)) fs n) as H.
  unfold persist_service_config, mbind, io_bind, read_existing, read_to_string in *. cbn [no_fault] in *. rewrite Hfile, Hparse in *.
  destruct (write_back_ok path (show_root (with_service root (Bgp (to_bgp_service_body c)))) (S n, fs)) as [[m fs'] E]. rewrite E in *.
  destruct H as (root' & Hold & Hw). destruct Hold as [[Hn _] | (text' & Ht & Hp)]; [discriminate (eq_trans (eq_sym Hn) Hfile)|].
  pose proof (eq_trans (eq_sym Ht) Hfile) as [= ->]. rewrite Hparse in Hp. injection Hp as <-.
  exists m, fs', (show_root (with_service root (Bgp (to_bgp_service_body c)))). split; [done|]. split; [apply Hw|]. split; [by apply merged_loads|].
  destruct Hw as [_ _ Hfirst _ _]. pose proof (eq_trans Hfirst Hfile) as Hs. unfold load_snapshot, read_to_string, Str in *. cbn [no_fault]. by rewrite Hs.
Qed.

Lemma saved_config_on_disk_witness : exists m fs' text',
  persist_service_config no_fault (str "rogg.conf") (Bgp (to_bgp_service_body demo_conf)) (0%nat, {[str "rogg.conf" := show_root (mkRoot [])]}) = (inr (), (m, fs')) /\
  fs' !! (str "rogg.conf" : list Z) = Some text' /\ from_conf_str text' = Ok demo_conf /\
  load_snapshot no_fault (str "rogg.conf") 1 (m, fs') = (inr (show_root (mkRoot [])), (S m, fs')).
Proof.
  apply (saved_config_on_disk (str "rogg.conf") {[str "rogg.conf" := show_root (mkRoot [])]} (mkRoot []) (show_root (mkRoot [])) 0 demo_conf).
  - apply lookup_singleton_eq.
  - vm_compute. reflexivity.
  - constructor.
  - split; [exact demo_conf_kept|exact demo_conf_values].
Defined.
