(* ===== verification/Lock.v ===== *)
(** * The lock of the configuration ([conf/src/fs.rs], [ggsh/src/shell.rs])

    The lock file is a name of the directory that leads to an inode; [flock]
    locks inodes.  A handle is an open file description: of each, the inode and
    the mode it was locked in.  The calls are the steps, so that those of
    several processes can be interleaved. *)
From S2P Require Import Prelude Net BgpLs Attrs Text.

(** [str::trim] *)
Fixpoint trim_start (s : Str) : Str := match s with c :: rest => if is_whitespace c then trim_start rest else s | [] => [] end.
Definition trim (s : Str) : Str := rev (trim_start (rev (trim_start s))).

Inductive LockMode := LkShared | LkExclusive.
Record Held := mkHeld { hd_handle : nat; hd_inode : nat; hd_mode : LockMode }.
(** The lock file: the inode its name leads to, the text of each inode, the
    inodes given out, and who holds what. *)
Record LockState := mkLockState {
  lk_file : option nat;
  lk_text : nat -> Str;
  lk_next : nat;
  lk_held : list Held;
}.
Definition lock_init : LockState := mkLockState None (fun _ => []) 0 [].

(** ** Calls *)
(** [open_lock_file]: the inode, made when the name leads nowhere. *)
Definition open_lock_file (s : LockState) : nat * LockState :=
  match lk_file s with
  | Some inode => (inode, s)
  | None => (lk_next s, mkLockState (Some (lk_next s)) (fun i => if (i =? lk_next s)%nat then [] else lk_text s i) (S (lk_next s)) (lk_held s))
  end.
Definition is_exclusive (h : Held) : bool := match hd_mode h with LkExclusive => true | LkShared => false end.
Definition on_inode (inode : nat) (h : Held) : bool := (hd_inode h =? inode)%nat.
(** [try_lock] and [try_lock_shared]: refused when another handle has the inode
    in a mode that excludes. *)
Definition try_lock (handle inode : nat) (s : LockState) : option LockState :=
  if existsb (on_inode inode) (lk_held s) then None
  else Some (mkLockState (lk_file s) (lk_text s) (lk_next s) (mkHeld handle inode LkExclusive :: lk_held s)).
Definition try_lock_shared (handle inode : nat) (s : LockState) : option LockState :=
  if existsb (fun h => on_inode inode h && is_exclusive h) (lk_held s) then None
  else Some (mkLockState (lk_file s) (lk_text s) (lk_next s) (mkHeld handle inode LkShared :: lk_held s)).
(** [set_len(0)] and the write of the session's identity. *)
Definition write_uuid (inode : nat) (text : Str) (s : LockState) : LockState :=
  mkLockState (lk_file s) (fun i => if (i =? inode)%nat then text else lk_text s i) (lk_next s) (lk_held s).
(** A handle dropped, and the file removed. *)
Definition close (handle : nat) (s : LockState) : LockState :=
  mkLockState (lk_file s) (lk_text s) (lk_next s) (filter (fun h => hd_handle h <> handle) (lk_held s)).
Definition unlink (s : LockState) : LockState := mkLockState None (lk_text s) (lk_next s) (lk_held s).

(** ** Operations *)
(** [acquire_exclusive_lock]: the error when another session is active. *)
Definition acquire_exclusive_lock (handle : nat) (uuid : Str) (s : LockState) : (Str + ()) * LockState :=
  let '(inode, s) := open_lock_file s in
  match try_lock handle inode s with
  | None => (inl (str "another configure session is active"), s)
  | Some s => (inr (), write_uuid inode uuid s)
  end.
Definition acquire_shared_lock (handle : nat) (s : LockState) : (Str + ()) * LockState :=
  let '(inode, s) := open_lock_file s in
  match try_lock_shared handle inode s with None => (inl (str "config locked"), s) | Some s => (inr (), s) end.
(** How the shell ends a session, and how [enter_configure] gives one up when
    the file does not parse: the order of the two calls differs. *)
Definition end_session (handle : nat) (s : LockState) : LockState := close handle (unlink s).
Definition give_up_session (handle : nat) (s : LockState) : LockState := unlink (close handle s).

(** [read_session_uuid], with [Uuid::parse_str] of the [uuid] crate: [inl] is
    the error of a text that is no identity. *)
Section uuid.
Context {U : Type} `{EqDecision U} (parse_uuid : Str -> option U).
Definition read_session_uuid (s : LockState) : Str + option U :=
  match lk_file s with
  | None => inr None
  | Some inode =>
      match trim (lk_text s inode) with
      | [] => inr None
      | trimmed => match parse_uuid trimmed with Some u => inr (Some u) | None => inl (str "lock file content is not a UUID") end
      end
  end.
(** [BgpServer::verify_session_uuid] *)
Definition verify_session_uuid (session_uuid : Str) (s : LockState) : Str + () :=
  match parse_uuid session_uuid with
  | None => inl (str "session_uuid is not a valid UUID")
  | Some parsed =>
      match read_session_uuid s with
      | inr (Some file_uuid) => if bool_decide (file_uuid = parsed) then inr () else inl (str "session UUID mismatch")
      | inr None => inl (str "no active configure session (lock file missing or empty)")
      | inl e => inl (str "failed to read session UUID: " ++ e)
      end
  end.
End uuid.

(** ** Processes, one operation at a time *)
(** A shell's session and a request of the daemon each take a lock under a
    handle of their own and drop it; the owner of handle [h] has the identity
    [uuid h]. *)
Section runs.
Context (uuid : nat -> Str).
Inductive LockOp := OpConfigure (h : nat) | OpExit (h : nat) | OpGiveUp (h : nat) | OpLeave (h : nat) | OpMutate (h : nat) | OpMutated (h : nat).
Definition holds (h : nat) (mode : LockMode) (s : LockState) : Prop := exists inode, mkHeld h inode mode ∈ lk_held s.
Definition idle (h : nat) (s : LockState) : Prop := Forall (fun x => hd_handle x <> h) (lk_held s).
(** Who may do what: a lock is taken by an idle handle and dropped by its
    holder; [OpLeave] is a shell that ends without removing the file. *)
Definition may (op : LockOp) (s : LockState) : Prop :=
  match op with
  | OpConfigure h | OpMutate h => idle h s
  | OpExit h | OpGiveUp h | OpLeave h => holds h LkExclusive s
  | OpMutated h => holds h LkShared s
  end.
Definition run_op (op : LockOp) (s : LockState) : LockState :=
  match op with
  | OpConfigure h => snd (acquire_exclusive_lock h (uuid h) s)
  | OpMutate h => snd (acquire_shared_lock h s)
  | OpExit h => end_session h s
  | OpGiveUp h => give_up_session h s
  | OpLeave h | OpMutated h => close h s
  end.
Inductive lock_reachable : LockState -> Prop :=
  | lock_start : lock_reachable lock_init
  | lock_step op s : lock_reachable s -> may op s -> lock_reachable (run_op op s).

(** ** Processes, one call at a time *)
(** Where a handle is between the calls of [acquire_exclusive_lock] and
    [end_session]. *)
Inductive Phase := PhIdle | PhOpened (inode : nat) | PhLocked | PhUnlinked.
Inductive LockCall := CallOpen | CallTryLock | CallUnlink | CallClose.
Definition call (h : nat) (c : LockCall) (p : Phase) (s : LockState) : option (Phase * LockState) :=
  match c, p with
  | CallOpen, PhIdle => let '(inode, s) := open_lock_file s in Some (PhOpened inode, s)
  | CallTryLock, PhOpened inode =>
      match try_lock h inode s with Some s => Some (PhLocked, write_uuid inode (uuid h) s) | None => Some (PhIdle, s) end
  | CallUnlink, PhLocked => Some (PhUnlinked, unlink s)
  | CallClose, PhUnlinked => Some (PhIdle, close h s)
  | _, _ => None
  end.
(** A schedule: which handle makes which call next. *)
Fixpoint run_calls (schedule : list (nat * LockCall)) (phases : nat -> Phase) (s : LockState) : option ((nat -> Phase) * LockState) :=
  match schedule with
  | [] => Some (phases, s)
  | (h, c) :: schedule =>
      '(p, s) ← call h c (phases h) s;
      run_calls schedule (fun k => if (k =? h)%nat then p else phases k) s
  end.
End runs.

(** ** One operation at a time *)
Section exclusion.
Context (uuid : nat -> Str).
(** Every lock is on the file that the name leads to; an exclusive one is alone
    and its owner's identity is in the file. *)
Record lock_inv (s : LockState) : Prop := mkLockInv {
  li_file : Forall (fun x => lk_file s = Some (hd_inode x)) (lk_held s);
  li_alone : forall x, x ∈ lk_held s -> hd_mode x = LkExclusive -> lk_held s = [x] /\ lk_text s (hd_inode x) = uuid (hd_handle x);
}.
Lemma inv_no_locks file text next : lock_inv (mkLockState file text next []).
Proof. split; [constructor|]. intros x Hx. inversion Hx. Qed.
Lemma inv_close h s : lock_inv s -> lock_inv (close h s).
Proof.
  intros [Hf Ha]. split; cbn.
  - rewrite Forall_forall in Hf |- *. intros x [_ Hx]%list_elem_of_filter. by apply Hf.
  - intros x [Hne Hx]%list_elem_of_filter Hm. destruct (Ha x Hx Hm) as [E Ht]. split; [|done]. rewrite E, filter_cons_True by done. done.
Qed.
Lemma holds_alone h s : lock_inv s -> holds h LkExclusive s -> exists inode, lk_held s = [mkHeld h inode LkExclusive] /\ lk_file s = Some inode /\ lk_text s inode = uuid h.
Proof.
  intros [Hf Ha] [inode Hin]. exists inode. destruct (Ha _ Hin eq_refl) as [E Ht]. rewrite Forall_forall in Hf. apply Hf in Hin. done.
Qed.
Lemma close_alone h inode s : lk_held s = [mkHeld h inode LkExclusive] -> lk_held (close h s) = [].
Proof. intros E. unfold close. cbn [lk_held]. rewrite E, filter_cons_False; [done|]. cbn. intros Hn. by apply Hn. Qed.
Lemma on_file_held s inode : lock_inv s -> lk_file s = Some inode -> existsb (on_inode inode) (lk_held s) = false -> lk_held s = [].
Proof.
  intros [Hf _] E. destruct (lk_held s) as [|x l]; [done|]. apply Forall_cons in Hf as [Hx _]. rewrite E in Hx. injection Hx as ->.
  cbn. unfold on_inode at 1. by rewrite Nat.eqb_refl.
Qed.
(** Opening the file makes it when it is missing, and then there are no locks. *)
Lemma open_inv s : lock_inv s -> let '(inode, s') := open_lock_file s in lock_inv s' /\ lk_file s' = Some inode /\ lk_held s' = lk_held s.
Proof.
  intros Hi. unfold open_lock_file. destruct (lk_file s) as [inode|] eqn:E; [done|]. cbn. split; [|done].
  assert (lk_held s = []) as ->; [|apply inv_no_locks]. destruct Hi as [Hf _]. destruct Hf as [|x l Hx]; [done|]. by rewrite E in Hx.
Qed.

Lemma run_op_inv op s : lock_inv s -> may op s -> lock_inv (run_op uuid op s).
Proof.
  intros Hi Hm. destruct op; cbn in *.
  - unfold acquire_exclusive_lock. pose proof (open_inv s Hi) as Ho. destruct (open_lock_file s) as [inode s'].
    destruct Ho as (Hi' & Ef & Eh). unfold try_lock. destruct (existsb _ _) eqn:Ex; [done|].
    apply on_file_held in Ex as E; [|done..]. split; cbn; rewrite E.
    + by apply Forall_singleton.
    + intros x Hx%list_elem_of_singleton _. subst. cbn. by rewrite Nat.eqb_refl.
  - destruct (holds_alone h s Hi Hm) as (inode & E & _ & _). unfold end_session, close, unlink. cbn. rewrite E, filter_cons_False by (cbn; auto).
    apply inv_no_locks.
  - destruct (holds_alone h s Hi Hm) as (inode & E & _ & _). unfold give_up_session, close, unlink. cbn. rewrite E, filter_cons_False by (cbn; auto).
    apply inv_no_locks.
  - by apply inv_close.
  - unfold acquire_shared_lock. pose proof (open_inv s Hi) as Ho. destruct (open_lock_file s) as [inode s'].
    destruct Ho as (Hi' & Ef & Eh). unfold try_lock_shared. destruct (existsb _ _) eqn:Ex; [done|]. destruct Hi' as [Hf Ha]. split; cbn.
    + by apply Forall_cons.
    + intros x [-> | Hx]%elem_of_cons Hmode; [done|]. exfalso. rewrite Forall_forall in Hf. specialize (Hf x Hx). rewrite Ef in Hf. injection Hf as Hino.
      assert (existsb (fun h => on_inode inode h && is_exclusive h) (lk_held s') = true) as Ht; [|by rewrite Ht in Ex].
      apply existsb_exists. exists x. split; [by apply list_elem_of_In|]. unfold on_inode, is_exclusive. by rewrite Hmode, Hino, Nat.eqb_refl.
  - by apply inv_close.
Qed.
Lemma reachable_inv s : lock_reachable uuid s -> lock_inv s.
Proof. induction 1 as [|op s Hr IH Hm]; [apply inv_no_locks|by apply run_op_inv]. Qed.

(** C28. A configuration session owns the configuration, as long as no two lock
    operations overlap in time: while it holds its lock no other session
    starts, no request takes the shared lock, and of all identities only its
    own passes the check that a commit makes. *)
Theorem session_owns_configuration {U} `{EqDecision U} (parse_uuid : Str -> option U) s h u :
  lock_reachable uuid s -> holds h LkExclusive s -> parse_uuid (uuid h) = Some u -> trim (uuid h) = uuid h -> uuid h <> [] ->
  (forall h' text, fst (acquire_exclusive_lock h' text s) = inl (str "another configure session is active")) /\
  (forall h', fst (acquire_shared_lock h' s) = inl (str "config locked")) /\
  (forall text u', parse_uuid text = Some u' -> verify_session_uuid parse_uuid text s = inr () <-> u' = u).
Proof.
  intros Hr Hh Hu Htrim Hne. apply reachable_inv in Hr. destruct (holds_alone h s Hr Hh) as (inode & E & Ef & Et).
  unfold acquire_exclusive_lock, acquire_shared_lock, open_lock_file, try_lock, try_lock_shared. rewrite Ef, E. cbn.
  unfold on_inode. cbn. rewrite Nat.eqb_refl. cbn. split_and!; [done|done|]. intros text u' Hu'.
  unfold verify_session_uuid, read_session_uuid. rewrite Hu', Ef, Et, Htrim. destruct (uuid h) as [|c rest] eqn:Eh; [done|]. rewrite Hu.
  destruct (bool_decide_reflect (u = u')) as [->|Hn]; [done|]. split; [done|by intros ->].
Qed.
End exclusion.

Definition demo_uuid (h : nat) : Str := str "id-" ++ dec (Z.of_nat h).
Lemma session_owns_configuration_witness :
  (forall h' text, fst (acquire_exclusive_lock h' text (run_op demo_uuid (OpConfigure 1) lock_init)) = inl (str "another configure session is active")) /\
  (forall h', fst (acquire_shared_lock h' (run_op demo_uuid (OpConfigure 1) lock_init)) = inl (str "config locked")) /\
  (forall text u', Some text = Some u' -> verify_session_uuid Some text (run_op demo_uuid (OpConfigure 1) lock_init) = inr () <-> u' = demo_uuid 1).
Proof.
  apply (session_owns_configuration demo_uuid Some (run_op demo_uuid (OpConfigure 1) lock_init) 1 (demo_uuid 1)).
  - apply lock_step; [apply lock_start|constructor].
  - exists 0%nat. left.
  - reflexivity.
  - vm_compute. reflexivity.
  - vm_compute. discriminate.
Defined.

(** Between the open and the lock of [acquire_exclusive_lock] the session that
    holds the lock may remove the file: then two sessions hold an exclusive
    lock, and the file has the identity of the later one. *)
Definition race : list (nat * LockCall) :=
  [(0%nat, CallOpen); (0%nat, CallTryLock); (1%nat, CallOpen); (0%nat, CallUnlink); (0%nat, CallClose); (1%nat, CallTryLock);
   (2%nat, CallOpen); (2%nat, CallTryLock)].
Theorem lock_removal_race (uuid : nat -> Str) : exists schedule phases s inode,
  run_calls uuid schedule (fun _ => PhIdle) lock_init = Some (phases, s) /\
  phases 1%nat = PhLocked /\ phases 2%nat = PhLocked /\ holds 1 LkExclusive s /\ holds 2 LkExclusive s /\
  lk_file s = Some inode /\ lk_text s inode = uuid 2%nat.
Proof.
  exists race. do 2 eexists. exists 1%nat. split; [reflexivity|]. split_and!; try reflexivity; eexists; [right; left|left].
Qed.
