(* ===== verification/Commit.v ===== *)
(** * Commits: a configuration applied and stored by the daemon
    ([server/config.rs], [server/ops_mgmt.rs], [conf/src/bgp.rs])

    What the change of configuration does to the sessions, the stations and the
    caches is the parameter [reconfigure]; here is what is checked before, what
    is kept when it fails, and how memory and file go together. *)
From S2P Require Import Prelude Net Nlri BgpLs Attrs Text LangBgp LangBgpParse LangSpec LangMain LangTotal OpenMsg Path ExtComm NetText PeerCaps Conf ConfFile ConfSpec ConfMain Store Lock.

(** ** Checks *)
Inductive CommitError :=
  | CmSession (message : Str)
  | CmSnapshot (index : nat) (e : IoError)
  | CmConfig (e : ConfError)
  | CmPeer (e : PeerConfigError)
  | CmPrefix (e : NetError) | CmNexthop (s : Str)
  | CmRestart (field : Str)
  | CmReconfigure (message : Str)
  | CmPersist (e : IoError).

(** [parse_prefix_and_nexthop] *)
Definition parse_prefix_and_nexthop (prefix_str nh_str : Str) : CommitError + (IpNetwork * NextHopAddr) :=
  match net_from_str prefix_str with
  | inl e => inl (CmPrefix e)
  | inr prefix =>
      match parse_ip nh_str with
      | None => inl (CmNexthop nh_str)
      | Some (IpV4 a) => inr (prefix, NhIpv4 a)
      | Some (IpV6 a) => inr (prefix, NhIpv6 a)
      end
  end.
Definition originate_invalid (r : OriginateRoute) : option CommitError :=
  match parse_prefix_and_nexthop (og_prefix r) (og_nexthop r) with inl e => Some e | inr _ => None end.
(** The first error of a list. *)
Fixpoint first_error {A E} (check : A -> option E) (l : list A) : option E :=
  match l with [] => None | a :: l => match check a with Some e => Some e | None => first_error check l end end.
Definition reject_unsupported_changes (old new : BgpConfig) : option CommitError :=
  if negb (cf_asn old =? cf_asn new) then Some (CmRestart (str "asn"))
  else if negb (cf_router_id old =? cf_router_id new) then Some (CmRestart (str "router-id"))
  else if negb (str_eqb (cf_listen_addr old) (cf_listen_addr new)) then Some (CmRestart (str "listen-addr"))
  else if negb (str_eqb (cf_grpc_listen_addr old) (cf_grpc_listen_addr new)) then Some (CmRestart (str "grpc-listen-addr"))
  else None.

(** ** The daemon *)
Section daemon.
Context {R : Type}.
Record Daemon := mkDaemon { dm_config : BgpConfig; dm_runtime : R; dm_path : Str }.
Definition with_dm_config v d := mkDaemon v (dm_runtime d) (dm_path d).
Definition with_dm_runtime v d := mkDaemon (dm_config d) v (dm_path d).
Context (reconfigure : BgpConfig -> BgpConfig -> R -> (Str + ()) * R) (fault : nat -> option Fault).
Context {U : Type} `{EqDecision U} (parse_uuid : Str -> option U).
Abbreviation World := (nat * Files)%type (only parsing).

(** [save_config] *)
Definition save_config (d : Daemon) (w : World) : (CommitError + ()) * World :=
  match persist_service_config fault (dm_path d) (Bgp (to_bgp_service_body (dm_config d))) w with
  | (inl e, w) => (inl (CmPersist e), w)
  | (inr (), w) => (inr (), w)
  end.
(** [apply_config]: the checks, the change of the running daemon, the file, and
    then the configuration itself. *)
Definition apply_config (new : BgpConfig) (d : Daemon) (w : World) : (CommitError + ()) * Daemon * World :=
  match first_error validate_peer_config (cf_peers new) with
  | Some e => (inl (CmPeer e), d, w)
  | None =>
  match first_error originate_invalid (cf_originate new) with
  | Some e => (inl e, d, w)
  | None =>
  match reject_unsupported_changes (dm_config d) new with
  | Some e => (inl e, d, w)
  | None =>
      let '(r, runtime) := reconfigure (dm_config d) new (dm_runtime d) in
      let d := with_dm_runtime runtime d in
      match r with
      | inl m => (inl (CmReconfigure m), d, w)
      | inr () =>
          match persist_service_config fault (dm_path d) (Bgp (to_bgp_service_body new)) w with
          | (inl e, w) => (inl (CmPersist e), d, w)
          | (inr (), w) => (inr (), with_dm_config new d, w)
          end
      end
  end end end.
Definition commit_text (text : Str) (d : Daemon) (w : World) : option ((CommitError + ()) * Daemon * World) :=
  match from_conf_str text with
  | Panic => None
  | Err e => Some (inl (CmConfig e), d, w)
  | Ok new => Some (apply_config new d w)
  end.
(** [handle_commit_config], [handle_rollback_config], [handle_save_config] *)
Definition handle_commit_config (locks : LockState) (text session_uuid : Str) (d : Daemon) (w : World) : option ((CommitError + ()) * Daemon * World) :=
  match verify_session_uuid parse_uuid session_uuid locks with
  | inl e => Some (inl (CmSession e), d, w)
  | inr () => commit_text text d w
  end.
Definition handle_rollback_config (locks : LockState) (index : nat) (session_uuid : Str) (d : Daemon) (w : World) : option ((CommitError + ()) * Daemon * World) :=
  match verify_session_uuid parse_uuid session_uuid locks with
  | inl e => Some (inl (CmSession e), d, w)
  | inr () =>
      match load_snapshot fault (dm_path d) index w with
      | (inl e, w) => Some (inl (CmSnapshot index e), d, w)
      | (inr text, w) => commit_text text d w
      end
  end.
Definition handle_save_config (locks : LockState) (session_uuid : Str) (d : Daemon) (w : World) : (CommitError + ()) * World :=
  match verify_session_uuid parse_uuid session_uuid locks with inl e => (inl (CmSession e), w) | inr () => save_config d w end.

(** ** What a commit does *)
Lemma first_error_none {A E} (check : A -> option E) l : first_error check l = None <-> Forall (fun a => check a = None) l.
Proof.
  induction l as [|a l IH]; cbn; [by split; [constructor|]|]. rewrite Forall_cons. destruct (check a) eqn:E1; [split; [done|by intros []]|].
  rewrite IH. by split; [|intros []].
Qed.
(** The fields that a restart needs. *)
Definition same_identity (old new : BgpConfig) : Prop :=
  cf_asn old = cf_asn new /\ cf_router_id old = cf_router_id new /\ cf_listen_addr old = cf_listen_addr new /\ cf_grpc_listen_addr old = cf_grpc_listen_addr new.
Lemma reject_none old new : reject_unsupported_changes old new = None <-> same_identity old new.
Proof.
  unfold reject_unsupported_changes, same_identity.
  destruct (Z.eqb_spec (cf_asn old) (cf_asn new)); [|by split; [|intros []]].
  destruct (Z.eqb_spec (cf_router_id old) (cf_router_id new)); [|by split; [|intros (? & ? & _)]]. cbn.
  destruct (str_eqb (cf_listen_addr old) _) eqn:E1; cbn.
  - apply str_eqb_eq in E1. destruct (str_eqb (cf_grpc_listen_addr old) _) eqn:E2; cbn.
    + by apply str_eqb_eq in E2.
    + split; [done|]. intros (_ & _ & _ & E). apply str_eqb_eq in E. by rewrite E in E2.
  - split; [done|]. intros (_ & _ & E & _). apply str_eqb_eq in E. by rewrite E in E1.
Qed.
Definition acceptable (old new : BgpConfig) : Prop :=
  Forall (fun p => validate_peer_config p = None) (cf_peers new) /\ Forall (fun r => originate_invalid r = None) (cf_originate new) /\ same_identity old new.

Lemma apply_config_spec new d n fs :
  let '(r, d', (_, fs')) := apply_config new d (n, fs) in
  dm_path d' = dm_path d /\
  match r with
  | inr _ => acceptable (dm_config d) new /\ dm_config d' = new /\
      exists root, old_tree (dm_path d) fs root /\ written (dm_path d) fs fs' (show_root (with_service root (Bgp (to_bgp_service_body new))))
  | inl e => dm_config d' = dm_config d /\ interrupted (dm_path d) fs fs' /\ (acceptable (dm_config d) new \/ (dm_runtime d' = dm_runtime d /\ fs' = fs))
  end.
Proof.
  unfold apply_config, acceptable.
  destruct (first_error validate_peer_config _) eqn:E1; [split_and!; auto using interrupted_refl|].
  destruct (first_error originate_invalid _) eqn:E2; [split_and!; auto using interrupted_refl|].
  destruct (reject_unsupported_changes _ _) eqn:E3; [split_and!; auto using interrupted_refl|].
  apply first_error_none in E1, E2. apply reject_none in E3. destruct (reconfigure _ _ _) as [[m|[]] runtime]; [split_and!; auto using interrupted_refl|]. cbn.
  pose proof (persist_spec fault (dm_path d) (Bgp (to_bgp_service_body new)) fs n) as Hp.
  destruct (persist_service_config _ _ _ _) as [[e|[]] [n' fs']]; cbn; split_and!; auto.
Qed.

Lemma commit_text_spec text d n fs : exists r d' n' fs', commit_text text d (n, fs) = Some (r, d', (n', fs')) /\ dm_path d' = dm_path d /\
  match r with
  | inr _ => exists new root, from_conf_str text = Ok new /\ dm_config d' = new /\ acceptable (dm_config d) new /\
      old_tree (dm_path d) fs root /\ written (dm_path d) fs fs' (show_root (with_service root (Bgp (to_bgp_service_body new))))
  | inl e => dm_config d' = dm_config d /\ interrupted (dm_path d) fs fs'
  end.
Proof.
  unfold commit_text. pose proof (load_spec text) as Hl. destruct (from_conf_str text) as [new|e|]; [| |done].
  - pose proof (apply_config_spec new d n fs) as H. destruct (apply_config new d (n, fs)) as [[r d'] [n' fs']]. destruct H as [Hp H].
    do 4 eexists. split; [done|]. split; [done|]. destruct r as [e|u]; [by destruct H as (H1 & H2 & _)|].
    destruct H as (Ha & Ec & root & Ho & Hw). by exists new, root.
  - do 4 eexists. split; [done|]. split; [done|]. split; [done|apply interrupted_refl].
Qed.
End daemon.

(** * Commits: all or nothing, rollback, and from the shell to the daemon *)

Section commits.
Context {R : Type} (reconfigure : BgpConfig -> BgpConfig -> R -> (Str + ()) * R).
Context {U : Type} `{EqDecision U} (parse_uuid : Str -> option U).

Lemma written_parses path fs fs' root c : root_ok root -> conf_ok c ->
  written path fs fs' (show_root (with_service root (Bgp (to_bgp_service_body c)))) ->
  exists text root', fs' !! path = Some text /\ parse text = Ok root' /\ root_ok root' /\ from_conf_str text = Ok c.
Proof.
  intros Hr Hc Hw. exists (show_root (with_service root (Bgp (to_bgp_service_body c)))), (with_service root (Bgp (to_bgp_service_body c))).
  assert (root_ok (with_service root (Bgp (to_bgp_service_body c)))) as Hok by (apply with_service_ok; [done|by apply conf_body_ok]).
  split; [apply Hw|]. split; [|split; [done|by apply merged_loads]]. apply parse_of_reads. intros n. by apply show_root_reads.
Qed.

(** C7. A commit is all or nothing, whatever text a session sends, whatever the
    change of the running daemon does and whichever system call fails: it ends,
    and either it succeeds, by the session that owns the lock, and then the
    daemon's configuration is the one that the text loads to, its peers and
    routes are valid, no field that needs a restart has changed, and the file
    is the old tree with that configuration's block put in, which loads to that
    configuration again (when the language can hold it and the old tree); or it
    fails, and then the daemon's record of its configuration and the
    configuration file are as they were, while of the ten snapshots the oldest
    may be lost and the running state may have changed. *)
Theorem commit_all_or_nothing fault locks text session_uuid (d : @Daemon R) n fs :
  exists r d' n' fs', handle_commit_config reconfigure fault parse_uuid locks text session_uuid d (n, fs) = Some (r, d', (n', fs')) /\
  match r with
  | inr _ =>
      verify_session_uuid parse_uuid session_uuid locks = inr () /\
      exists new root, from_conf_str text = Ok new /\ dm_config d' = new /\ acceptable (dm_config d) new /\
        old_tree (dm_path d) fs root /\ written (dm_path d) fs fs' (show_root (with_service root (Bgp (to_bgp_service_body new)))) /\
        (root_ok root -> conf_ok new -> exists after, fs' !! dm_path d = Some after /\ from_conf_str after = Ok new)
  | inl _ => dm_config d' = dm_config d /\ interrupted (dm_path d) fs fs'
  end.
Proof.
  unfold handle_commit_config. destruct (verify_session_uuid _ _ _) as [e|[]] eqn:Ev.
  - do 4 eexists. split; [done|]. split; [done|apply interrupted_refl].
  - destruct (commit_text_spec reconfigure fault text d n fs) as (r & d' & n' & fs' & E & _ & H). do 4 eexists. split; [exact E|].
    destruct r; [exact H|]. destruct H as (new & root & Hl & Hc & Ha & Ho & Hw). split; [done|]. exists new, root. split_and!; [done..|].
    intros Hr Hok. destruct (written_parses _ _ _ _ _ Hr Hok Hw) as (after & _ & Hf & _ & _ & Hload). by exists after.
Qed.

Lemma persist_ok path c root text n fs : fs !! path = Some text -> parse text = Ok root ->
  exists m fs', persist_service_config no_fault path (Bgp (to_bgp_service_body c)) (n, fs) = (inr (), (m, fs')).
Proof.
  intros Hf Hp. unfold persist_service_config, mbind, io_bind, read_existing, read_to_string. cbn [no_fault]. rewrite Hf, Hp.
  destruct (write_back_ok path (show_root (with_service root (Bgp (to_bgp_service_body c)))) (S n, fs)) as [[m fs'] E]. by exists m, fs'.
Qed.
Lemma same_identity_sym a b : same_identity a b -> same_identity b a.
Proof. intros (H1 & H2 & H3 & H4). by repeat split. Qed.

(** Accepting a configuration: the checks pass, the file can be written. *)
Lemma apply_accepted new root text (d : @Daemon R) n fs runtime :
  acceptable (dm_config d) new -> reconfigure (dm_config d) new (dm_runtime d) = (inr (), runtime) ->
  fs !! dm_path d = Some text -> parse text = Ok root ->
  exists n' fs', apply_config reconfigure no_fault new d (n, fs) = (inr (), mkDaemon new runtime (dm_path d), (n', fs')) /\
    written (dm_path d) fs fs' (show_root (with_service root (Bgp (to_bgp_service_body new)))).
Proof.
  intros (Hp & Ho & Hi) Hr Hf Ht. pose proof (persist_spec no_fault (dm_path d) (Bgp (to_bgp_service_body new)) fs n) as Hw.
  unfold apply_config. rewrite (proj2 (first_error_none validate_peer_config _) Hp), (proj2 (first_error_none originate_invalid _) Ho), (proj2 (reject_none _ _) Hi), Hr.
  destruct (persist_ok (dm_path d) new root text n fs Hf Ht) as (n' & fs' & E). cbn. rewrite E in *. exists n', fs'. split; [done|].
  destruct Hw as (root' & [[Hn _] | (text' & Ht' & Hp')] & Hw); [discriminate (eq_trans (eq_sym Hn) Hf)|].
  pose proof (eq_trans (eq_sym Ht') Hf) as [= ->]. rewrite Ht in Hp'. by injection Hp' as <-.
Qed.
End commits.

Definition demo_locks : LockState := run_op demo_uuid (OpConfigure 1) lock_init.
Definition demo_daemon : @Daemon unit := mkDaemon demo_conf () (str "rogg.conf").
Definition demo_files : Files := {[str "rogg.conf" := to_conf_str demo_conf]}.
Definition demo_reconfigure (old new : BgpConfig) (r : unit) : (Str + ()) * unit := (inr (), r).

(** Another configuration of the same speaker: another hold time, another route
    and another peer. *)
Definition demo_change_text : Str := concat (map writeln [
  str "service bgp {"; str "  asn 65001"; str "  router-id 1.2.3.4"; str "  hold-time 60";
  str "  originate 10.2.0.0/16 nexthop 10.0.0.9"; []; str "  peer 10.0.0.2 {"; str "    remote-as 65003"; str "  }"; str "}"]).
Definition demo_change : BgpConfig := match from_conf_str demo_change_text with Ok c => c | _ => bgp_config_default end.
Example demo_changes : cf_hold_time_secs demo_change = 60 /\ map cp_address (cf_peers demo_change) = [str "10.0.0.2"] /\
  cf_hold_time_secs demo_conf = 90 /\ map cp_address (cf_peers demo_conf) = [str "10.0.0.1"].
Proof. vm_compute. done. Qed.

Abbreviation demo_commit :=
  (handle_commit_config demo_reconfigure no_fault Some demo_locks (to_conf_str demo_change) (demo_uuid 1) demo_daemon (0%nat, demo_files)).
Lemma demo_conf_ok : conf_ok demo_conf.
Proof. split; [exact demo_conf_kept|exact demo_conf_values]. Qed.
Lemma demo_change_ok : conf_ok demo_change.
Proof.
  split; (let c := eval vm_compute in demo_change in change demo_change with c);
    [repeat (first [left; reflexivity|right; reflexivity|constructor]; cbn)|repeat (constructor; cbn)]; first [done|lia|apply not_elem_of_nil].
Qed.
Lemma demo_root_fine : root_ok (mkRoot [Bgp (to_bgp_service_body demo_conf)]).
Proof. apply Forall_singleton. apply conf_body_ok. exact demo_conf_ok. Qed.
Lemma demo_parses : parse (to_conf_str demo_conf) = Ok (mkRoot [Bgp (to_bgp_service_body demo_conf)]).
Proof. apply parse_of_reads. intros n. apply show_root_reads. exact demo_root_fine. Qed.
Lemma demo_loads : from_conf_str (to_conf_str demo_conf) = Ok demo_conf.
Proof. apply (merged_loads (mkRoot [])); [constructor|exact demo_conf_ok]. Qed.
Lemma demo_change_loads : from_conf_str (to_conf_str demo_change) = Ok demo_change.
Proof. apply (merged_loads (mkRoot [])); [constructor|exact demo_change_ok]. Qed.
Lemma demo_acceptable new : new = demo_conf \/ new = demo_change -> acceptable demo_conf new.
Proof. intros [-> | ->]; (split; [|split; [|repeat split]]; apply first_error_none; vm_compute; reflexivity). Qed.
Lemma demo_commit_ok : exists n' fs', demo_commit = Some (inr (), mkDaemon demo_change () (dm_path demo_daemon), (n', fs')).
Proof.
  destruct (apply_accepted demo_reconfigure demo_change (mkRoot [Bgp (to_bgp_service_body demo_conf)]) (to_conf_str demo_conf) demo_daemon 0 demo_files ()
    (demo_acceptable _ (or_intror eq_refl)) eq_refl (lookup_singleton_eq _ _) demo_parses) as (n' & fs' & E & _).
  exists n', fs'. unfold handle_commit_config, commit_text. rewrite demo_change_loads, E.
  assert (verify_session_uuid Some (demo_uuid 1) demo_locks = inr ()) as Hv by (vm_compute; reflexivity). by rewrite Hv.
Qed.

