(* ===== verification/Fsm.v ===== *)
(** * The finite state machine of a peer ([bgpgg/src/peer/fsm.rs],
    [PeerDownReason] of [bgpgg/src/types.rs])

    An [Instant] and a [Duration] are numbers of nanoseconds; the current
    time, which the code reads from the system clock, is an argument [now].
    [elapsed] saturates at zero, as [Instant::elapsed] does.  Counters are
    [u32] with the wrap-around of a release build. *)
From S2P Require Import Prelude Wire Net Notification Nlri BgpLs Attrs OpenMsg Path PeerCaps.

Inductive BgpState := Idle | Connect | Active | OpenSent | OpenConfirm | Established.
#[export] Instance BgpState_eq_dec : EqDecision BgpState.
Proof. solve_decision. Defined.

Definition state_code (s : BgpState) : Z :=
  match s with
  | Idle => 1 | Connect => 2 | Active => 3 | OpenSent => 4 | OpenConfirm => 5 | Established => 6
  end.

Inductive FsmEvent :=
  | ManualStart | ManualStop | AutomaticStart | ManualStartPassive | AutomaticStartPassive
  | AutomaticStop (subcode : CeaseSubcode)
  | ConnectRetryTimerExpires | HoldTimerExpires | KeepaliveTimerExpires
  | DelayOpenTimerExpires | IdleHoldTimerExpires
  | TcpConnectionConfirmed | TcpConnectionFails
  | BgpOpenReceived (params : BgpOpenParams)
  | BgpOpenWithDelayOpenTimer (params : BgpOpenParams)
  | BgpHeaderErr (n : NotificationMessage)
  | BgpOpenMsgErr (n : NotificationMessage)
  | NotifMsgVerErr (n : NotificationMessage)
  | NotifMsg (n : NotificationMessage)
  | BgpKeepaliveReceived | BgpUpdateReceived
  | BgpUpdateMsgErr (n : NotificationMessage).

Definition to_event_code (e : FsmEvent) : Z :=
  match e with
  | ManualStart => 1 | ManualStop => 2 | AutomaticStart => 3 | ManualStartPassive => 4
  | AutomaticStartPassive => 5 | AutomaticStop _ => 8 | ConnectRetryTimerExpires => 9
  | HoldTimerExpires => 10 | KeepaliveTimerExpires => 11 | DelayOpenTimerExpires => 12
  | IdleHoldTimerExpires => 13 | TcpConnectionConfirmed => 17 | TcpConnectionFails => 18
  | BgpOpenReceived _ => 19 | BgpOpenWithDelayOpenTimer _ => 20 | BgpHeaderErr _ => 21
  | BgpOpenMsgErr _ => 22 | NotifMsgVerErr _ => 24 | NotifMsg _ => 25
  | BgpKeepaliveReceived => 26 | BgpUpdateReceived => 27 | BgpUpdateMsgErr _ => 28
  end.

Inductive PeerDownReason :=
  | LocalNotification (n : NotificationMessage)
  | LocalNoNotification (e : FsmEvent)
  | RemoteNotification (n : NotificationMessage)
  | RemoteNoNotification
  | PeerDeConfigured.

(** ** Timers *)
Definition from_secs (s : Z) : Z := s * 1000000000.
Definition as_secs (d : Z) : Z := d / 1000000000.
Definition elapsed (now started : Z) : Z := Z.max 0 (now - started).

Record FsmTimers := mkTimers {
  connect_retry_time : Z;
  hold_time : Z;
  keepalive_time : Z;
  delay_open_time : option Z;
  connect_retry_started : option Z;
  hold_timer_started : option Z;
  keepalive_timer_started : option Z;
  delay_open_timer_started : option Z;
}.

Definition timers_new (delay_open : option Z) : FsmTimers :=
  mkTimers (from_secs 120) (from_secs 180) (from_secs 60) delay_open None None None None.

Definition timer_expired (now : Z) (started : option Z) (time : Z) : bool :=
  match started with Some s => time <=? elapsed now s | None => false end.

Definition connect_retry_expired (now : Z) (t : FsmTimers) : bool :=
  timer_expired now (connect_retry_started t) (connect_retry_time t).
Definition hold_timer_expired (now : Z) (t : FsmTimers) : bool :=
  timer_expired now (hold_timer_started t) (hold_time t).
Definition keepalive_timer_expired (now : Z) (t : FsmTimers) : bool :=
  timer_expired now (keepalive_timer_started t) (keepalive_time t).
Definition delay_open_timer_expired (now : Z) (t : FsmTimers) : bool :=
  match delay_open_timer_started t, delay_open_time t with
  | Some s, Some d => d <=? elapsed now s
  | _, _ => false
  end.
Definition delay_open_timer_running (t : FsmTimers) : bool := bool_decide (is_Some (delay_open_timer_started t)).

Definition with_connect_retry (v : option Z) (t : FsmTimers) : FsmTimers :=
  mkTimers (connect_retry_time t) (hold_time t) (keepalive_time t) (delay_open_time t)
    v (hold_timer_started t) (keepalive_timer_started t) (delay_open_timer_started t).
Definition with_hold_timer (v : option Z) (t : FsmTimers) : FsmTimers :=
  mkTimers (connect_retry_time t) (hold_time t) (keepalive_time t) (delay_open_time t)
    (connect_retry_started t) v (keepalive_timer_started t) (delay_open_timer_started t).
Definition with_keepalive_timer (v : option Z) (t : FsmTimers) : FsmTimers :=
  mkTimers (connect_retry_time t) (hold_time t) (keepalive_time t) (delay_open_time t)
    (connect_retry_started t) (hold_timer_started t) v (delay_open_timer_started t).
Definition with_delay_open_timer (v : option Z) (t : FsmTimers) : FsmTimers :=
  mkTimers (connect_retry_time t) (hold_time t) (keepalive_time t) (delay_open_time t)
    (connect_retry_started t) (hold_timer_started t) (keepalive_timer_started t) v.

Definition start_connect_retry (now : Z) : FsmTimers -> FsmTimers := with_connect_retry (Some now).
Definition stop_connect_retry : FsmTimers -> FsmTimers := with_connect_retry None.
Definition start_hold_timer (now : Z) : FsmTimers -> FsmTimers := with_hold_timer (Some now).
Definition reset_hold_timer (now : Z) : FsmTimers -> FsmTimers := with_hold_timer (Some now).
Definition stop_hold_timer : FsmTimers -> FsmTimers := with_hold_timer None.
Definition start_keepalive_timer (now : Z) : FsmTimers -> FsmTimers := with_keepalive_timer (Some now).
Definition reset_keepalive_timer (now : Z) : FsmTimers -> FsmTimers := with_keepalive_timer (Some now).
Definition stop_keepalive_timer : FsmTimers -> FsmTimers := with_keepalive_timer None.
Definition start_delay_open_timer (now : Z) : FsmTimers -> FsmTimers := with_delay_open_timer (Some now).
Definition stop_delay_open_timer : FsmTimers -> FsmTimers := with_delay_open_timer None.

(** [set_negotiated_hold_time]: the division is on whole seconds. *)
Definition set_negotiated_hold_time (h : Z) (t : FsmTimers) : FsmTimers :=
  mkTimers (connect_retry_time t) (from_secs h) (from_secs (h / 3)) (delay_open_time t)
    (connect_retry_started t) (hold_timer_started t) (keepalive_timer_started t) (delay_open_timer_started t).
Definition set_initial_hold_time (d : Z) (t : FsmTimers) : FsmTimers :=
  mkTimers (connect_retry_time t) d (keepalive_time t) (delay_open_time t)
    (connect_retry_started t) (hold_timer_started t) (keepalive_timer_started t) (delay_open_timer_started t).

(** ** The machine *)
Record Fsm := mkFsm {
  fsm_state : BgpState;
  timers : FsmTimers;
  connect_retry_counter : Z;
  passive_mode : bool;
  graceful_restart_negotiated : bool;
}.

Definition fsm_new (delay_open : option Z) (passive : bool) : Fsm :=
  mkFsm Idle (timers_new delay_open) 0 passive false.
Definition with_fsm_state (s : BgpState) (f : Fsm) : Fsm :=
  mkFsm s (timers f) (connect_retry_counter f) (passive_mode f) (graceful_restart_negotiated f).
Definition with_timers (t : FsmTimers) (f : Fsm) : Fsm :=
  mkFsm (fsm_state f) t (connect_retry_counter f) (passive_mode f) (graceful_restart_negotiated f).
Definition with_counter (n : Z) (f : Fsm) : Fsm :=
  mkFsm (fsm_state f) (timers f) n (passive_mode f) (graceful_restart_negotiated f).
Definition reset_connect_retry_counter : Fsm -> Fsm := with_counter 0.
Definition increment_connect_retry_counter (f : Fsm) : Fsm :=
  with_counter ((connect_retry_counter f + 1) mod 2 ^ 32) f.
Definition set_graceful_restart_negotiated (b : bool) (f : Fsm) : Fsm :=
  mkFsm (fsm_state f) (timers f) (connect_retry_counter f) (passive_mode f) b.

(** The transition table of [handle_event]. *)
Definition next_state (f : Fsm) (e : FsmEvent) : BgpState :=
  match fsm_state f, e with
  | Idle, ManualStart => Connect
  | Idle, AutomaticStart => Connect
  | Idle, ManualStartPassive => Active
  | Idle, AutomaticStartPassive => Active
  | Idle, IdleHoldTimerExpires => if passive_mode f then Active else Connect
  (* Connect *)
  | Connect, ManualStop => Idle
  | Connect, ConnectRetryTimerExpires => Connect
  | Connect, DelayOpenTimerExpires => OpenSent
  | Connect, TcpConnectionConfirmed => OpenSent
  | Connect, TcpConnectionFails => Active
  | Connect, BgpOpenReceived _ => Idle
  | Connect, BgpOpenWithDelayOpenTimer _ => OpenConfirm
  | Connect, BgpHeaderErr _ => Idle
  | Connect, BgpOpenMsgErr _ => Idle
  | Connect, NotifMsgVerErr _ => Idle
  | Connect, NotifMsg _ => Idle
  | Connect, (AutomaticStop _ | HoldTimerExpires | KeepaliveTimerExpires | IdleHoldTimerExpires
             | BgpKeepaliveReceived | BgpUpdateReceived | BgpUpdateMsgErr _) => Idle
  (* Active *)
  | Active, ManualStop => Idle
  | Active, ConnectRetryTimerExpires => if passive_mode f then Active else Connect
  | Active, DelayOpenTimerExpires => OpenSent
  | Active, TcpConnectionConfirmed => OpenSent
  | Active, TcpConnectionFails => Idle
  | Active, BgpOpenWithDelayOpenTimer _ => OpenConfirm
  | Active, BgpHeaderErr _ => Idle
  | Active, BgpOpenMsgErr _ => Idle
  | Active, NotifMsgVerErr _ => Idle
  | Active, NotifMsg _ => Idle
  | Active, (AutomaticStop _ | HoldTimerExpires | KeepaliveTimerExpires | IdleHoldTimerExpires
            | BgpOpenReceived _ | BgpKeepaliveReceived | BgpUpdateReceived | BgpUpdateMsgErr _) => Idle
  (* OpenSent *)
  | OpenSent, ManualStop => Idle
  | OpenSent, AutomaticStop _ => Idle
  | OpenSent, HoldTimerExpires => Idle
  | OpenSent, TcpConnectionFails => Active
  | OpenSent, BgpOpenReceived _ => OpenConfirm
  | OpenSent, BgpOpenWithDelayOpenTimer _ => OpenConfirm
  | OpenSent, BgpHeaderErr _ => Idle
  | OpenSent, BgpOpenMsgErr _ => Idle
  | OpenSent, BgpUpdateMsgErr _ => Idle
  | OpenSent, NotifMsgVerErr _ => Idle
  | OpenSent, NotifMsg _ => Idle
  | OpenSent, (ConnectRetryTimerExpires | KeepaliveTimerExpires | DelayOpenTimerExpires
              | IdleHoldTimerExpires | BgpKeepaliveReceived | BgpUpdateReceived) => Idle
  (* OpenConfirm *)
  | OpenConfirm, ManualStop => Idle
  | OpenConfirm, AutomaticStop _ => Idle
  | OpenConfirm, HoldTimerExpires => Idle
  | OpenConfirm, KeepaliveTimerExpires => OpenConfirm
  | OpenConfirm, TcpConnectionFails => Idle
  | OpenConfirm, BgpKeepaliveReceived => Established
  | OpenConfirm, BgpHeaderErr _ => Idle
  | OpenConfirm, BgpOpenMsgErr _ => Idle
  | OpenConfirm, NotifMsgVerErr _ => Idle
  | OpenConfirm, NotifMsg _ => Idle
  | OpenConfirm, (ConnectRetryTimerExpires | DelayOpenTimerExpires | IdleHoldTimerExpires
                 | BgpOpenWithDelayOpenTimer _ | BgpUpdateReceived | BgpUpdateMsgErr _) => Idle
  (* Established *)
  | Established, (ManualStart | AutomaticStart | ManualStartPassive | AutomaticStartPassive) => Established
  | Established, ManualStop => Idle
  | Established, AutomaticStop _ => Idle
  | Established, HoldTimerExpires => Idle
  | Established, KeepaliveTimerExpires => Established
  | Established, TcpConnectionConfirmed => if graceful_restart_negotiated f then Connect else Established
  | Established, TcpConnectionFails => Idle
  | Established, BgpKeepaliveReceived => Established
  | Established, BgpUpdateReceived => Established
  | Established, BgpUpdateMsgErr _ => Idle
  | Established, NotifMsgVerErr _ => Idle
  | Established, NotifMsg _ => Idle
  | Established, (ConnectRetryTimerExpires | DelayOpenTimerExpires | IdleHoldTimerExpires
                 | BgpOpenWithDelayOpenTimer _ | BgpHeaderErr _ | BgpOpenMsgErr _) => Idle
  | s, _ => s
  end.

Definition handle_event (f : Fsm) (e : FsmEvent) : Fsm * BgpState :=
  let new_state := next_state f e in (with_fsm_state new_state f, new_state).

Definition is_established (f : Fsm) : bool := bool_decide (fsm_state f = Established).
