(* ===== verification/RibTables.v ===== *)
(** * Per-family tables and the per-peer RIBs ([bgpgg/src/rib/family_tables.rs],
    [bgpgg/src/rib/rib_in.rs], [bgpgg/src/rib/rib_out.rs])

    Hash maps are finite maps; what the code returns from an iteration is
    stated up to order.  Adj-RIB-In is specified as one map from (key, remote
    path id) to paths, Adj-RIB-Out as one from (key, local path id). *)
From S2P Require Import Prelude Net BgpLs Attrs Path.

Section family_tables.
Context {V : Type}.

Record FamilyTables := mkTables {
  ft_ipv4 : gmap Ipv4Net V; ft_ipv6 : gmap Ipv6Net V; ft_ls : gmap LsNlri V }.

Implicit Types (t : FamilyTables) (key : RouteKey).

Definition ft_new : FamilyTables := mkTables ∅ ∅ ∅.

Definition ft_get t key : option V :=
  match key with
  | KPrefix (V4 net) => ft_ipv4 t !! net
  | KPrefix (V6 net) => ft_ipv6 t !! net
  | KLinkState nlri => ft_ls t !! nlri
  end.

(** Writes through [get_mut]: nothing happens when the key is absent. *)
Definition ft_update t key (f : V -> V) : FamilyTables :=
  match key with
  | KPrefix (V4 net) => mkTables (alter f net (ft_ipv4 t)) (ft_ipv6 t) (ft_ls t)
  | KPrefix (V6 net) => mkTables (ft_ipv4 t) (alter f net (ft_ipv6 t)) (ft_ls t)
  | KLinkState nlri => mkTables (ft_ipv4 t) (ft_ipv6 t) (alter f nlri (ft_ls t))
  end.

Definition ft_insert t key (v : V) : FamilyTables :=
  match key with
  | KPrefix (V4 net) => mkTables (<[net := v]> (ft_ipv4 t)) (ft_ipv6 t) (ft_ls t)
  | KPrefix (V6 net) => mkTables (ft_ipv4 t) (<[net := v]> (ft_ipv6 t)) (ft_ls t)
  | KLinkState nlri => mkTables (ft_ipv4 t) (ft_ipv6 t) (<[nlri := v]> (ft_ls t))
  end.

(** The table with the entry present, and the entry's value. *)
Definition ft_get_or_insert_with t key (default : V) : FamilyTables * V :=
  match ft_get t key with
  | Some v => (t, v)
  | None => (ft_insert t key default, default)
  end.

Definition ft_remove t key : FamilyTables * option V :=
  (match key with
   | KPrefix (V4 net) => mkTables (delete net (ft_ipv4 t)) (ft_ipv6 t) (ft_ls t)
   | KPrefix (V6 net) => mkTables (ft_ipv4 t) (delete net (ft_ipv6 t)) (ft_ls t)
   | KLinkState nlri => mkTables (ft_ipv4 t) (ft_ipv6 t) (delete nlri (ft_ls t))
   end, ft_get t key).

Definition ft_clear t : FamilyTables := mkTables ∅ ∅ ∅.

Definition ft_clear_family t (family : AfiSafi) : FamilyTables * nat :=
  match afi family, safi family with
  | Afi_Ipv4, Unicast => (mkTables ∅ (ft_ipv6 t) (ft_ls t), size (ft_ipv4 t))
  | Afi_Ipv6, Unicast => (mkTables (ft_ipv4 t) ∅ (ft_ls t), size (ft_ipv6 t))
  | Afi_LinkState, (Safi_LinkState | LinkStateVpn) =>
      (mkTables (ft_ipv4 t) (ft_ipv6 t) ∅, size (ft_ls t))
  | _, _ => (t, O)
  end.

Definition ft_clear_afi t (a : Afi) : FamilyTables * nat :=
  match a with
  | Afi_Ipv4 => ft_clear_family t (mkAfiSafi Afi_Ipv4 Unicast)
  | Afi_Ipv6 => ft_clear_family t (mkAfiSafi Afi_Ipv6 Unicast)
  | Afi_LinkState => ft_clear_family t (mkAfiSafi Afi_LinkState Safi_LinkState)
  end.

Definition ft_len t : nat := (size (ft_ipv4 t) + size (ft_ipv6 t) + size (ft_ls t))%nat.

Definition ft_family_counts t : list (AfiSafi * nat) :=
  [ (mkAfiSafi Afi_Ipv4 Unicast, size (ft_ipv4 t));
    (mkAfiSafi Afi_Ipv6 Unicast, size (ft_ipv6 t));
    (mkAfiSafi Afi_LinkState Safi_LinkState, size (ft_ls t)) ].

Definition ft_family_count t (family : AfiSafi) : nat :=
  match afi family, safi family with
  | Afi_Ipv4, Unicast => size (ft_ipv4 t)
  | Afi_Ipv6, Unicast => size (ft_ipv6 t)
  | Afi_LinkState, (Safi_LinkState | LinkStateVpn) => size (ft_ls t)
  | _, _ => O
  end.

(** Which of the three tables an iteration visits. *)
Definition family_flags (family : option AfiSafi) : bool * bool * bool :=
  match family with
  | None => (true, true, true)
  | Some af =>
      match afi af, safi af with
      | Afi_Ipv4, Unicast => (true, false, false)
      | Afi_Ipv6, Unicast => (false, true, false)
      | Afi_LinkState, (Safi_LinkState | LinkStateVpn) => (false, false, true)
      | _, _ => (false, false, false)
      end
  end.

Definition tagged {K} `{Countable K} (on : bool) (f : K -> RouteKey) (m : gmap K V)
    : list (RouteKey * V) :=
  if on then map (fun kv => (f kv.1, kv.2)) (map_to_list m) else [].

Definition ft_iter t (family : option AfiSafi) : list (RouteKey * V) :=
  let '(ipv4, ipv6, link_state) := family_flags family in
  tagged ipv4 (fun net => KPrefix (V4 net)) (ft_ipv4 t) ++
  tagged ipv6 (fun net => KPrefix (V6 net)) (ft_ipv6 t) ++
  tagged link_state KLinkState (ft_ls t).

Definition ft_drain_family t (family : AfiSafi) : FamilyTables * list (RouteKey * V) :=
  match afi family, safi family with
  | Afi_Ipv4, Unicast =>
      (mkTables ∅ (ft_ipv6 t) (ft_ls t), tagged true (fun net => KPrefix (V4 net)) (ft_ipv4 t))
  | Afi_Ipv6, Unicast =>
      (mkTables (ft_ipv4 t) ∅ (ft_ls t), tagged true (fun net => KPrefix (V6 net)) (ft_ipv6 t))
  | Afi_LinkState, (Safi_LinkState | LinkStateVpn) =>
      (mkTables (ft_ipv4 t) (ft_ipv6 t) ∅, tagged true KLinkState (ft_ls t))
  | _, _ => (t, [])
  end.

(** ** The tables as one map from route keys *)
Definition in_family (family : option AfiSafi) key : bool :=
  let '(ipv4, ipv6, link_state) := family_flags family in
  match key with KPrefix (V4 _) => ipv4 | KPrefix (V6 _) => ipv6 | KLinkState _ => link_state end.

#[local] Ltac by_key := intros; repeat match goal with k : RouteKey |- _ => destruct k as [[?|?]|?] end.

Lemma ft_get_new key : ft_get ft_new key = None.
Proof. by destruct key as [[]|]. Qed.

Lemma ft_get_insert t key key' v :
  ft_get (ft_insert t key v) key' = if decide (key = key') then Some v else ft_get t key'.
Proof.
  by_key; cbn [ft_get ft_insert ft_update ft_remove fst ft_ipv4 ft_ipv6 ft_ls]; try (by rewrite decide_False by congruence);
    (case_decide as E; [injection E as ->; by rewrite lookup_insert_eq|];
     by rewrite lookup_insert_ne by congruence).
Qed.

Lemma ft_get_update t key key' f :
  ft_get (ft_update t key f) key' = if decide (key = key') then f <$> ft_get t key' else ft_get t key'.
Proof.
  by_key; cbn [ft_get ft_insert ft_update ft_remove fst ft_ipv4 ft_ipv6 ft_ls]; try (by rewrite decide_False by congruence);
    (case_decide as E; [injection E as ->; by rewrite lookup_alter_eq|];
     by rewrite lookup_alter_ne by congruence).
Qed.

Lemma ft_get_remove t key key' :
  ft_get (ft_remove t key).1 key' = if decide (key = key') then None else ft_get t key'.
Proof.
  by_key; cbn [ft_get ft_insert ft_update ft_remove fst ft_ipv4 ft_ipv6 ft_ls]; try (by rewrite decide_False by congruence);
    (case_decide as E; [injection E as ->; by rewrite lookup_delete_eq|];
     by rewrite lookup_delete_ne by congruence).
Qed.

Lemma ft_get_clear_family t family key :
  ft_get (ft_clear_family t family).1 key =
    if in_family (Some family) key then None else ft_get t key.
Proof. destruct family as [[] []], key as [[]|]; reflexivity. Qed.

Lemma ft_drain_family_eq t family :
  (ft_drain_family t family).1 = (ft_clear_family t family).1 /\
  (ft_drain_family t family).2 = ft_iter t (Some family).
Proof.
  destruct family as [[] []]; (split; [reflexivity|]); try reflexivity;
    symmetry; apply app_nil_r.
Qed.

Lemma elem_of_tagged {K} `{Countable K} on (f : K -> RouteKey) (m : gmap K V) key v :
  (key, v) ∈ tagged on f m <-> on = true /\ exists k, key = f k /\ m !! k = Some v.
Proof.
  unfold tagged. destruct on; [|split; [by intros ?%not_elem_of_nil|by intros []]].
  rewrite list_elem_of_fmap. split.
  - intros ([k v'] & [= -> ->] & Hin%elem_of_map_to_list). eauto.
  - intros (_ & k & -> & Hk). exists (k, v). by rewrite elem_of_map_to_list.
Qed.

(** An iteration visits exactly the entries of the family. *)
Lemma elem_of_ft_iter t family key v :
  (key, v) ∈ ft_iter t family <-> in_family family key = true /\ ft_get t key = Some v.
Proof.
  unfold ft_iter, in_family. destruct (family_flags family) as [[b4 b6] bl].
  rewrite !elem_of_app, !elem_of_tagged. split.
  - intros [(Hb & k & -> & Hk)|[(Hb & k & -> & Hk)|(Hb & k & -> & Hk)]]; done.
  - destruct key as [[k|k]|k]; intros [Hb Hk]; simpl in *; [left|right; left|right; right]; eauto.
Qed.

Lemma NoDup_tagged {K} `{Countable K} on (f : K -> RouteKey) `{!Inj eq eq f} (m : gmap K V) :
  NoDup (tagged on f m).*1.
Proof.
  unfold tagged. destruct on; [|constructor].
  change (map (fun kv => (f kv.1, kv.2)) (map_to_list m))
    with ((fun kv => (f kv.1, kv.2)) <$> map_to_list m).
  rewrite <- list_fmap_compose. change (fst ∘ (fun kv : K * V => (f kv.1, kv.2))) with (f ∘ @fst K V).
  rewrite list_fmap_compose. apply NoDup_fmap_2; [done|]. apply NoDup_fst_map_to_list.
Qed.

Lemma NoDup_ft_iter t family : NoDup (ft_iter t family).*1.
Proof.
  unfold ft_iter. destruct (family_flags family) as [[b4 b6] bl]. rewrite !fmap_app.
  assert (forall on K (EqK : EqDecision K) (CK : Countable K) (f : K -> RouteKey) (m : gmap K V) k,
    k ∈ (tagged on f m).*1 -> exists x, k = f x) as Hin.
  { intros on K ? ? f m k ([k' v] & -> & Hk)%list_elem_of_fmap.
    apply elem_of_tagged in Hk as (_ & x & -> & _). by exists x. }
  apply NoDup_app. split_and!; [apply NoDup_tagged; by intros ?? [=]| |].
  - intros k Hk. apply Hin in Hk as [x ->]. rewrite elem_of_app.
    by intros [Hk|Hk]; apply Hin in Hk as [y [=]].
  - apply NoDup_app. split_and!; [apply NoDup_tagged; by intros ?? [=]| |
      apply NoDup_tagged; by intros ?? [=]].
    intros k Hk. apply Hin in Hk as [x ->]. intros Hk. by apply Hin in Hk as [y [=]].
Qed.
End family_tables.
Arguments FamilyTables V : clear implicits.

(** ** Adj-RIB-In *)
Definition AdjRibIn : Type := FamilyTables Route.

Definition ai_new : AdjRibIn := ft_new.

(** The first path with the same remote id is replaced; else append. *)
Fixpoint replace_remote (path : PathRef) (l : list PathRef) : list PathRef :=
  match l with
  | [] => [path]
  | p :: rest =>
      if bool_decide (remote_path_id (ref_path p) = remote_path_id (ref_path path))
      then path :: rest else p :: replace_remote path rest
  end.

Definition ai_add_route (rib : AdjRibIn) (key : RouteKey) (path : PathRef) : AdjRibIn :=
  let '(t, route) := ft_get_or_insert_with rib key (mkRoute key []) in
  ft_update t key (fun r => mkRoute (route_key r) (replace_remote path (paths r))).

Definition ai_remove_route (rib : AdjRibIn) (key : RouteKey) (remote : option Z) : AdjRibIn :=
  match ft_get rib key with
  | Some route =>
      let kept := filter (fun p => remote_path_id (ref_path p) <> remote) (paths route) in
      let rib := ft_update rib key (fun r => mkRoute (route_key r) kept) in
      match kept with [] => (ft_remove rib key).1 | _ => rib end
  | None => rib
  end.

Definition ai_get_route (rib : AdjRibIn) (key : RouteKey) : option Route := ft_get rib key.
Definition ai_get_routes (rib : AdjRibIn) (family : option AfiSafi) : list Route :=
  (ft_iter rib family).*2.
Definition ai_prefix_count (rib : AdjRibIn) : nat := ft_len rib.
Definition ai_family_counts (rib : AdjRibIn) : list (AfiSafi * nat) := ft_family_counts rib.
Definition ai_family_count (rib : AdjRibIn) (family : AfiSafi) : nat := ft_family_count rib family.
Definition ai_clear (rib : AdjRibIn) : AdjRibIn := ft_clear rib.
Definition ai_clear_afi_safi (rib : AdjRibIn) (family : AfiSafi) : AdjRibIn * nat :=
  ft_clear_family rib family.

Definition ai_drain_afi_safi (rib : AdjRibIn) (family : AfiSafi)
    : AdjRibIn * list (IpNetwork * option Z) :=
  match afi family, safi family with
  | (Afi_Ipv4 | Afi_Ipv6), Unicast =>
      let '(rib, drained) := ft_drain_family rib family in
      (rib, concat (map (fun kr : RouteKey * Route =>
        match kr.1 with
        | KPrefix prefix => map (fun p => (prefix, remote_path_id (ref_path p))) (paths kr.2)
        | KLinkState _ => []
        end) drained))
  | _, _ => (rib, [])
  end.

(** The abstraction: the path received for a key with a remote id. *)
Definition remote_is (remote : option Z) (p : PathRef) : Prop :=
  remote_path_id (ref_path p) = remote.
#[export] Instance remote_is_dec remote p : Decision (remote_is remote p).
Proof. unfold remote_is. apply _. Defined.

Definition ai_path (rib : AdjRibIn) (key : RouteKey) (remote : option Z) : option PathRef :=
  route ← ft_get rib key; snd <$> list_find (remote_is remote) (paths route).

Definition remote_ids (l : list PathRef) : list (option Z) :=
  map (fun p => remote_path_id (ref_path p)) l.

(** Entries are filed under their key, are never empty, and hold one path per
    remote id. *)
Definition ai_inv (rib : AdjRibIn) : Prop :=
  forall key route, ft_get rib key = Some route ->
    route_key route = key /\ paths route <> [] /\ NoDup (remote_ids (paths route)).

Lemma find_remote_cons remote p l :
  snd <$> list_find (remote_is remote) (p :: l) =
    if decide (remote_is remote p) then Some p else snd <$> list_find (remote_is remote) l.
Proof. simpl. case_decide; [done|]. by destruct (list_find _ l) as [[]|]. Qed.

Lemma find_remote_none remote l :
  ~ (remote ∈ remote_ids l) -> snd <$> list_find (remote_is remote) l = None.
Proof.
  induction l as [|p l IH]; [done|]. intros Hn. rewrite find_remote_cons, decide_False.
  - apply IH. unfold remote_ids in *. set_solver.
  - unfold remote_is. intros <-. apply Hn. unfold remote_ids. set_solver.
Qed.

Lemma find_replace_remote remote path l :
  snd <$> list_find (remote_is remote) (replace_remote path l) =
    if decide (remote_is remote path) then Some path
    else snd <$> list_find (remote_is remote) l.
Proof.
  induction l as [|p l IH]; cbn [replace_remote]; [by rewrite find_remote_cons|].
  case_bool_decide as E.
  - rewrite !find_remote_cons. unfold remote_is. repeat case_decide; congruence.
  - rewrite !find_remote_cons, IH. unfold remote_is. repeat case_decide; congruence.
Qed.

Lemma remote_ids_replace path l :
  remote_ids (replace_remote path l) =
    if decide (remote_path_id (ref_path path) ∈ remote_ids l) then remote_ids l
    else remote_ids l ++ [remote_path_id (ref_path path)].
Proof.
  unfold remote_ids. induction l as [|p l IH]; cbn [replace_remote map].
  { by rewrite decide_False by set_solver. }
  case_bool_decide as E.
  - rewrite decide_True by (rewrite E; set_solver). simpl. by rewrite E.
  - cbn [map]. rewrite IH. repeat case_decide; set_solver.
Qed.

Lemma find_filter_remote remote remote' l :
  snd <$> list_find (remote_is remote')
    (filter (fun p => remote_path_id (ref_path p) <> remote) l) =
  if decide (remote = remote') then None else snd <$> list_find (remote_is remote') l.
Proof.
  induction l as [|p l IH]; [by case_decide|].
  destruct (decide (remote_path_id (ref_path p) = remote)) as [E|E].
  - rewrite filter_cons_False, IH, find_remote_cons by tauto.
    unfold remote_is. repeat case_decide; congruence.
  - rewrite filter_cons_True, !find_remote_cons, IH by done.
    unfold remote_is. repeat case_decide; congruence.
Qed.

Lemma remote_ids_filter remote l :
  NoDup (remote_ids l) ->
  NoDup (remote_ids (filter (fun p => remote_path_id (ref_path p) <> remote) l)).
Proof.
  intros Hnd. eapply sublist_NoDup; [exact Hnd|]. unfold remote_ids.
  induction l as [|p l IH]; [done|]. cbn [map] in Hnd. apply NoDup_cons in Hnd as [_ Hnd].
  destruct (decide (remote_path_id (ref_path p) <> remote)).
  - rewrite filter_cons_True by done. cbn [map]. by apply sublist_skip, IH.
  - rewrite filter_cons_False by done. by apply sublist_cons, IH.
Qed.

(** ** The operations against a map from (key, remote id) *)
Inductive ai_op :=
  | AiAdd (key : RouteKey) (path : PathRef)
  | AiRemove (key : RouteKey) (remote : option Z)
  | AiClear
  | AiClearFamily (family : AfiSafi)
  | AiDrain (family : AfiSafi).

Definition ai_step (rib : AdjRibIn) (o : ai_op) : AdjRibIn :=
  match o with
  | AiAdd key path => ai_add_route rib key path
  | AiRemove key remote => ai_remove_route rib key remote
  | AiClear => ai_clear rib
  | AiClearFamily family => (ai_clear_afi_safi rib family).1
  | AiDrain family => (ai_drain_afi_safi rib family).1
  end.

Definition unicast_ip (family : AfiSafi) : bool :=
  match afi family, safi family with (Afi_Ipv4 | Afi_Ipv6), Unicast => true | _, _ => false end.

Definition ai_spec (m : gmap (RouteKey * option Z) PathRef) (o : ai_op)
    : gmap (RouteKey * option Z) PathRef :=
  match o with
  | AiAdd key path => <[(key, remote_path_id (ref_path path)) := path]> m
  | AiRemove key remote => delete (key, remote) m
  | AiClear => ∅
  | AiClearFamily family => filter (fun kv => in_family (Some family) kv.1.1 = false) m
  | AiDrain family =>
      if unicast_ip family then filter (fun kv => in_family (Some family) kv.1.1 = false) m else m
  end.

Definition ai_repr (rib : AdjRibIn) (m : gmap (RouteKey * option Z) PathRef) : Prop :=
  ai_inv rib /\ forall key remote, ai_path rib key remote = m !! (key, remote).

Lemma ai_repr_new : ai_repr ai_new ∅.
Proof.
  unfold ai_new. split; [intros key route; by rewrite ft_get_new|].
  intros key remote. unfold ai_path. by rewrite ft_get_new.
Qed.

Lemma ai_add_get rib key key' path :
  ft_get (ai_add_route rib key path) key' =
    if decide (key = key') then
      let old := default (mkRoute key []) (ft_get rib key) in
      Some (mkRoute (route_key old) (replace_remote path (paths old)))
    else ft_get rib key'.
Proof.
  unfold ai_add_route, ft_get_or_insert_with. destruct (ft_get rib key) as [r|] eqn:E.
  - rewrite ft_get_update. case_decide; [|done]. subst. by rewrite E.
  - rewrite ft_get_update, ft_get_insert. by case_decide.
Qed.

Lemma ai_add_ok rib m key path :
  ai_repr rib m -> ai_repr (ai_add_route rib key path) (ai_spec m (AiAdd key path)).
Proof.
  intros [Hinv Hm]. split.
  - intros key' route. rewrite ai_add_get. case_decide as E; [subst key'|by apply Hinv].
    intros [= <-]. cbn [route_key paths].
    assert (route_key (default (mkRoute key []) (ft_get rib key)) = key /\
      NoDup (remote_ids (paths (default (mkRoute key []) (ft_get rib key))))) as [Hk Hnd].
    { destruct (ft_get rib key) as [r|] eqn:E; [|by repeat constructor]. by destruct (Hinv _ _ E) as (? & ? & ?). }
    split_and!; [done|by destruct (paths _) as [|p l]; simpl; try case_bool_decide|].
    rewrite remote_ids_replace. case_decide; [done|]. apply NoDup_app.
    split_and!; [done|set_solver|apply NoDup_singleton].
  - intros key' remote. unfold ai_path. rewrite ai_add_get. cbn [ai_spec].
    destruct (decide (key = key')) as [<-|Hne].
    + cbn [mbind option_bind]. cbn [paths]. rewrite find_replace_remote. unfold remote_is at 1.
      case_decide as E; [by rewrite E, lookup_insert_eq|]. rewrite lookup_insert_ne by congruence.
      rewrite <- Hm. unfold ai_path. by destruct (ft_get rib key).
    + rewrite lookup_insert_ne by congruence. apply Hm.
Qed.

Lemma ai_remove_get rib key key' remote :
  ft_get (ai_remove_route rib key remote) key' =
    if decide (key = key') then
      r ← ft_get rib key;
      match filter (fun p => remote_path_id (ref_path p) <> remote) (paths r) with
      | [] => None
      | l => Some (mkRoute (route_key r) l)
      end
    else ft_get rib key'.
Proof.
  unfold ai_remove_route. destruct (ft_get rib key) as [r|] eqn:E; cbn [mbind option_bind].
  - destruct (filter _ (paths r)) as [|p l] eqn:Ef.
    + rewrite ft_get_remove, ft_get_update. by case_decide.
    + rewrite ft_get_update. case_decide; [|done]. subst. by rewrite E.
  - case_decide; [|done]. by subst.
Qed.

Lemma ai_remove_ok rib m key remote :
  ai_repr rib m -> ai_repr (ai_remove_route rib key remote) (ai_spec m (AiRemove key remote)).
Proof.
  intros [Hinv Hm]. split.
  - intros key' route. rewrite ai_remove_get. case_decide as E; [subst key'|by apply Hinv].
    destruct (ft_get rib key) as [r|] eqn:E; [|done]. cbn [mbind option_bind].
    destruct (Hinv _ _ E) as (Hk & _ & Hnd). pose proof (remote_ids_filter remote _ Hnd) as Hnd'.
    destruct (filter _ (paths r)) as [|p l]; [done|]. by intros [= <-].
  - intros key' remote'. unfold ai_path. rewrite ai_remove_get. cbn [ai_spec].
    destruct (decide (key = key')) as [<-|Hne].
    + assert (m !! (key, remote') = ai_path rib key remote') as E by by rewrite Hm.
      pose proof (find_filter_remote remote remote') as Hf. unfold ai_path in E.
      destruct (ft_get rib key) as [r|]; cbn [mbind option_bind] in *.
      * specialize (Hf (paths r)). destruct (filter _ (paths r)) as [|p l].
        -- cbn [mbind option_bind]. case_decide; [subst; by rewrite lookup_delete_eq|].
           rewrite lookup_delete_ne by congruence. by rewrite E, <- Hf.
        -- cbn [mbind option_bind paths]. rewrite Hf. case_decide; [subst; by rewrite lookup_delete_eq|].
           by rewrite lookup_delete_ne by congruence.
      * destruct (decide (remote = remote')) as [->|]; [by rewrite lookup_delete_eq|].
        by rewrite lookup_delete_ne by congruence.
    + rewrite lookup_delete_ne by congruence. apply Hm.
Qed.

Lemma ai_clear_family_ok rib m family :
  ai_repr rib m -> ai_repr (ft_clear_family rib family).1 (ai_spec m (AiClearFamily family)).
Proof.
  intros [Hinv Hm]. split.
  - intros key route. rewrite ft_get_clear_family. destruct (in_family _ key); [done|]. apply Hinv.
  - intros key remote. unfold ai_path. rewrite ft_get_clear_family. cbn [ai_spec].
    rewrite map_lookup_filter. rewrite <- Hm. unfold ai_path.
    destruct (in_family (Some family) key) eqn:E; cbn [mbind option_bind].
    + destruct (ft_get rib key) as [r|]; [|done]. cbn [mbind option_bind].
      destruct (snd <$> list_find _ _); [|done]. cbn. case_guard; [congruence|done].
    + destruct (ft_get rib key) as [r|]; [|done]. cbn [mbind option_bind].
      destruct (snd <$> list_find _ _); [|done]. cbn. by case_guard.
Qed.

Lemma ai_step_ok rib m o : ai_repr rib m -> ai_repr (ai_step rib o) (ai_spec m o).
Proof.
  intros H. destruct o as [key path|key remote| |family|family].
  - by apply ai_add_ok.
  - by apply ai_remove_ok.
  - apply ai_repr_new.
  - by apply ai_clear_family_ok.
  - cbn [ai_step ai_spec]. unfold ai_drain_afi_safi.
    pose proof (ft_drain_family_eq rib family) as [Hd _].
    destruct family as [[] []]; try exact H;
      destruct (ft_drain_family rib _) as [rib' drained]; cbn [fst] in *; subst rib';
      by apply (ai_clear_family_ok rib m).
Qed.

Lemma ai_run_ok ops : ai_repr (fold_left ai_step ops ai_new) (fold_left ai_spec ops ∅).
Proof.
  generalize ai_repr_new. generalize ai_new as rib. generalize (∅ : gmap (RouteKey * option Z) PathRef) as m.
  induction ops as [|o ops IH]; intros m rib H; [done|]. apply IH. by apply ai_step_ok.
Qed.

Lemma ai_path_elem rib m key remote :
  ai_repr rib m ->
  is_Some (ai_path rib key remote) <->
  exists route p, ft_get rib key = Some route /\ p ∈ paths route /\ remote_path_id (ref_path p) = remote.
Proof.
  intros [Hinv _]. unfold ai_path. split.
  - destruct (ft_get rib key) as [route|]; [|by intros [? [=]]]. cbn [mbind option_bind].
    intros [p Hp]. destruct (list_find _ _) as [[i p']|] eqn:E; [|done]. injection Hp as ->.
    apply list_find_Some in E as (Hi & Hr & _). exists route, p.
    split_and!; [done|by eapply list_elem_of_lookup_2|done].
  - intros (route & p & -> & Hp & Hr). cbn [mbind option_bind]. rewrite fmap_is_Some.
    by apply (list_find_elem_of (remote_is remote) (paths route) p).
Qed.

(** What [drain_afi_safi] withdraws. *)
Lemma ai_drain_elem rib m family prefix remote :
  ai_repr rib m -> unicast_ip family = true ->
  (prefix, remote) ∈ (ai_drain_afi_safi rib family).2 <->
  in_family (Some family) (KPrefix prefix) = true /\ is_Some (m !! (KPrefix prefix, remote)).
Proof.
  intros Hr Hu. rewrite <- (proj2 Hr), (ai_path_elem rib m) by done.
  assert ((ai_drain_afi_safi rib family).2 = concat (map (fun kr : RouteKey * Route =>
        match kr.1 with
        | KPrefix prefix => map (fun p => (prefix, remote_path_id (ref_path p))) (paths kr.2)
        | KLinkState _ => []
        end) (ft_iter rib (Some family)))) as ->.
  { unfold ai_drain_afi_safi. pose proof (ft_drain_family_eq rib family) as [_ Hd].
    destruct family as [[] []]; try done; destruct (ft_drain_family rib _); cbn [snd] in *; by subst. }
  rewrite list_elem_of_In, in_concat. setoid_rewrite <- list_elem_of_In. split.
  - intros (l & (kr & -> & Hkr)%list_elem_of_fmap & Hin). destruct kr as [[p|n] route]; cbn [fst snd] in *.
    + apply list_elem_of_fmap in Hin as (q & [= -> ->] & Hq).
      apply elem_of_ft_iter in Hkr as [Hf Hg]. eauto 8.
    + by apply not_elem_of_nil in Hin.
  - intros (Hf & route & q & Hg & Hq & <-).
    exists (map (fun p => (prefix, remote_path_id (ref_path p))) (paths route)). split.
    + apply list_elem_of_fmap. exists (KPrefix prefix, route). split; [done|].
      by apply elem_of_ft_iter.
    + apply list_elem_of_fmap. eauto.
Qed.

(** ** Adj-RIB-Out *)
Definition AdjRibOut : Type := FamilyTables (gmap Z PathRef).

Definition ao_new : AdjRibOut := ft_new.

Definition ao_insert (rib : AdjRibOut) (key : RouteKey) (path : PathRef) : AdjRibOut :=
  match local_path_id (ref_path path) with
  | None => rib
  | Some path_id =>
      let '(t, _) := ft_get_or_insert_with rib key ∅ in
      ft_update t key (fun m => <[path_id := path]> m)
  end.

Definition ao_remove_path (rib : AdjRibOut) (key : RouteKey) (path_id : Z) : AdjRibOut :=
  match ft_get rib key with
  | Some paths =>
      let rib := ft_update rib key (fun m => delete path_id m) in
      if bool_decide (delete path_id paths = ∅) then (ft_remove rib key).1 else rib
  | None => rib
  end.

Definition ao_clear_afi (rib : AdjRibOut) (a : Afi) : AdjRibOut := (ft_clear_afi rib a).1.
Definition ao_clear (rib : AdjRibOut) : AdjRibOut := ft_clear rib.

Definition ao_path_ids (rib : AdjRibOut) (key : RouteKey) : list Z :=
  match ft_get rib key with Some m => (map_to_list m).*1 | None => [] end.

Definition ao_stale_paths (rib : AdjRibOut) (key : RouteKey) (active : list RoutePath) : list PathRef :=
  match ft_get rib key with
  | None => []
  | Some m =>
      let active_ids : gset Z :=
        list_to_set (omap (fun rp => local_path_id (ref_path (rp_path rp))) active) in
      (filter (fun kv => ~ kv.1 ∈ active_ids) (map_to_list m)).*2
  end.

Definition ao_keys_for_afi (rib : AdjRibOut) (a : Afi) : list RouteKey :=
  (filter (fun kv => afi (key_afi_safi kv.1) = a) (ft_iter rib None)).*1.

Definition ao_get_routes (rib : AdjRibOut) (family : option AfiSafi) : list Route :=
  map (fun kv => mkRoute kv.1 (map_to_list kv.2).*2) (ft_iter rib family).

Definition ao_route_count (rib : AdjRibOut) : nat := ft_len rib.
Definition ao_family_counts (rib : AdjRibOut) : list (AfiSafi * nat) := ft_family_counts rib.

(** The abstraction: what was sent for a key under a local path id. *)
Definition ao_path (rib : AdjRibOut) (key : RouteKey) (path_id : Z) : option PathRef :=
  m ← ft_get rib key; m !! path_id.

(** No empty entries, and every path sits under its own local id. *)
Definition ao_inv (rib : AdjRibOut) : Prop :=
  forall key m, ft_get rib key = Some m ->
    m <> ∅ /\ forall id p, m !! id = Some p -> local_path_id (ref_path p) = Some id.

Inductive ao_op :=
  | AoInsert (key : RouteKey) (path : PathRef)
  | AoRemove (key : RouteKey) (path_id : Z)
  | AoClearAfi (a : Afi)
  | AoClear.

Definition ao_step (rib : AdjRibOut) (o : ao_op) : AdjRibOut :=
  match o with
  | AoInsert key path => ao_insert rib key path
  | AoRemove key path_id => ao_remove_path rib key path_id
  | AoClearAfi a => ao_clear_afi rib a
  | AoClear => ao_clear rib
  end.

Definition ao_spec (m : gmap (RouteKey * Z) PathRef) (o : ao_op) : gmap (RouteKey * Z) PathRef :=
  match o with
  | AoInsert key path =>
      match local_path_id (ref_path path) with
      | Some path_id => <[(key, path_id) := path]> m
      | None => m
      end
  | AoRemove key path_id => delete (key, path_id) m
  | AoClearAfi a => filter (fun kv => afi (key_afi_safi kv.1.1) <> a) m
  | AoClear => ∅
  end.

Definition ao_repr (rib : AdjRibOut) (m : gmap (RouteKey * Z) PathRef) : Prop :=
  ao_inv rib /\ forall key id, ao_path rib key id = m !! (key, id).

Lemma ao_repr_new : ao_repr ao_new ∅.
Proof.
  unfold ao_new. split; [intros key route; by rewrite ft_get_new|].
  intros key id. unfold ao_path. by rewrite ft_get_new.
Qed.

Lemma ao_insert_get rib key key' path id :
  local_path_id (ref_path path) = Some id ->
  ft_get (ao_insert rib key path) key' =
    if decide (key = key') then Some (<[id := path]> (default ∅ (ft_get rib key)))
    else ft_get rib key'.
Proof.
  intros E. unfold ao_insert, ft_get_or_insert_with. rewrite E.
  destruct (ft_get rib key) as [m|] eqn:Em.
  - rewrite ft_get_update. case_decide; [|done]. subst. by rewrite Em.
  - rewrite ft_get_update, ft_get_insert. by case_decide.
Qed.

Lemma ao_insert_ok rib m key path :
  ao_repr rib m -> ao_repr (ao_insert rib key path) (ao_spec m (AoInsert key path)).
Proof.
  intros [Hinv Hm]. cbn [ao_spec]. destruct (local_path_id (ref_path path)) as [id|] eqn:E.
  2: { unfold ao_insert. by rewrite E. }
  split.
  - intros key' m'. rewrite (ao_insert_get _ _ _ _ id) by done. case_decide as Ek; [|by apply Hinv].
    subst key'. intros [= <-]. split; [apply insert_non_empty|]. intros id' p.
    rewrite lookup_insert_Some. intros [[<- <-]|[_ Hp]]; [done|].
    destruct (ft_get rib key) as [old|] eqn:Eo; [|done]. by eapply (Hinv _ _ Eo).
  - intros key' id'. unfold ao_path. rewrite (ao_insert_get _ _ _ _ id) by done.
    destruct (decide (key = key')) as [<-|Hne].
    + cbn [mbind option_bind]. destruct (decide (id = id')) as [<-|Hid]; [by rewrite !lookup_insert_eq|].
      rewrite !lookup_insert_ne by congruence. rewrite <- Hm. unfold ao_path.
      by destruct (ft_get rib key).
    + rewrite lookup_insert_ne by congruence. apply Hm.
Qed.

Lemma ao_remove_get rib key key' id :
  ft_get (ao_remove_path rib key id) key' =
    if decide (key = key') then
      m ← ft_get rib key; if bool_decide (delete id m = ∅) then None else Some (delete id m)
    else ft_get rib key'.
Proof.
  unfold ao_remove_path. destruct (ft_get rib key) as [m|] eqn:E; cbn [mbind option_bind].
  - case_bool_decide.
    + rewrite ft_get_remove, ft_get_update. by case_decide.
    + rewrite ft_get_update. case_decide; [|done]. subst. by rewrite E.
  - case_decide; [|done]. by subst.
Qed.

Lemma ao_remove_ok rib m key id :
  ao_repr rib m -> ao_repr (ao_remove_path rib key id) (ao_spec m (AoRemove key id)).
Proof.
  intros [Hinv Hm]. cbn [ao_spec]. split.
  - intros key' m'. rewrite ao_remove_get. case_decide as Ek; [|by apply Hinv]. subst key'.
    destruct (ft_get rib key) as [old|] eqn:Eo; [|done]. cbn [mbind option_bind].
    case_bool_decide; [done|]. intros [= <-]. split; [done|]. intros id' p [_ Hp]%lookup_delete_Some.
    by eapply (Hinv _ _ Eo).
  - intros key' id'. unfold ao_path. rewrite ao_remove_get.
    destruct (decide (key = key')) as [<-|Hne].
    + assert (ao_path rib key id' = m !! (key, id')) as E by apply Hm. unfold ao_path in E.
      destruct (decide (id = id')) as [<-|Hid].
      * rewrite lookup_delete_eq. destruct (ft_get rib key) as [old|]; [|done]. cbn [mbind option_bind].
        case_bool_decide; [done|]. cbn [mbind option_bind]. by rewrite lookup_delete_eq.
      * rewrite lookup_delete_ne by congruence. rewrite <- E.
        destruct (ft_get rib key) as [old|]; [|done]. cbn [mbind option_bind].
        case_bool_decide as Ed; cbn [mbind option_bind].
        -- symmetry. rewrite <- (lookup_delete_ne old id id') by done. by rewrite Ed.
        -- by rewrite lookup_delete_ne.
    + rewrite lookup_delete_ne by congruence. apply Hm.
Qed.

(** Clearing one AFI: the families stored cover the AFI. *)
Lemma ft_get_clear_afi {V} (t : FamilyTables V) a key :
  ft_get (ft_clear_afi t a).1 key =
    if bool_decide (afi (key_afi_safi key) = a) then None else ft_get t key.
Proof. by destruct a, key as [[]|]. Qed.

Lemma ao_clear_afi_ok rib m a :
  ao_repr rib m -> ao_repr (ao_clear_afi rib a) (ao_spec m (AoClearAfi a)).
Proof.
  intros [Hinv Hm]. unfold ao_clear_afi. cbn [ao_spec]. split.
  - intros key m'. rewrite ft_get_clear_afi. case_bool_decide; [done|]. apply Hinv.
  - intros key id. unfold ao_path. rewrite ft_get_clear_afi, map_lookup_filter, <- Hm. unfold ao_path.
    case_bool_decide; cbn [mbind option_bind];
      destruct (ft_get rib key) as [old|]; try done; cbn [mbind option_bind];
      destruct (old !! id); try done; cbn; by case_guard.
Qed.

Lemma ao_step_ok rib m o : ao_repr rib m -> ao_repr (ao_step rib o) (ao_spec m o).
Proof.
  destruct o; [apply ao_insert_ok|apply ao_remove_ok|apply ao_clear_afi_ok|].
  intros _. apply ao_repr_new.
Qed.

Lemma ao_run_ok ops : ao_repr (fold_left ao_step ops ao_new) (fold_left ao_spec ops ∅).
Proof.
  generalize ao_repr_new. generalize ao_new as rib. generalize (∅ : gmap (RouteKey * Z) PathRef) as m.
  induction ops as [|o ops IH]; intros m rib H; [done|]. apply IH. by apply ao_step_ok.
Qed.

Lemma ao_stale_elem rib m key active p :
  ao_repr rib m ->
  p ∈ ao_stale_paths rib key active <->
  exists id, m !! (key, id) = Some p /\
    forall rp, rp ∈ active -> local_path_id (ref_path (rp_path rp)) <> Some id.
Proof.
  intros [_ Hm]. setoid_rewrite <- Hm. unfold ao_stale_paths, ao_path.
  destruct (ft_get rib key) as [old|]; cbn [mbind option_bind].
  2: { split; [by intros ?%not_elem_of_nil|by intros (? & ? & _)]. }
  rewrite list_elem_of_fmap. setoid_rewrite list_elem_of_filter.
  setoid_rewrite elem_of_list_to_set. setoid_rewrite list_elem_of_omap. split.
  - intros ([id p'] & -> & Hna & Hin%elem_of_map_to_list). exists id. split; [done|].
    intros rp Hrp Hl. apply Hna. eauto.
  - intros (id & Hid & Hna). exists (id, p). split_and!; [done| |by apply elem_of_map_to_list].
    intros (rp & Hrp & Hl). by apply (Hna rp).
Qed.

(** ** Properties *)

(**  After any sequence of operations an Adj-RIB-In holds, for every key
    and remote path id, the path that a map from (key, remote id) would hold
    after the same operations; no entry is left without paths, and every
    entry is filed under its own key. *)
Theorem adj_rib_in_refines_map (ops : list ai_op) :
  let rib := fold_left ai_step ops ai_new in
  let m := fold_left ai_spec ops ∅ in
  (forall key remote, ai_path rib key remote = m !! (key, remote)) /\
  forall key route, ai_get_route rib key = Some route ->
    route_key route = key /\ paths route <> [] /\ NoDup (remote_ids (paths route)).
Proof. destruct (ai_run_ok ops) as [Hinv Hm]. by split. Qed.

(** Draining a unicast family withdraws exactly what the table held for
    it, each path once under its key and remote id, and leaves the rest of
    the table alone; any other family drains nothing. *)
Theorem adj_rib_in_drain (ops : list ai_op) (family : AfiSafi) :
  let rib := fold_left ai_step ops ai_new in
  let m := fold_left ai_spec ops ∅ in
  let '(rib', out) := ai_drain_afi_safi rib family in
  (forall key remote, ai_path rib' key remote =
     if unicast_ip family && in_family (Some family) key then None else m !! (key, remote)) /\
  (forall prefix remote, (prefix, remote) ∈ out <->
     unicast_ip family = true /\ in_family (Some family) (KPrefix prefix) = true /\
     is_Some (m !! (KPrefix prefix, remote))).
Proof.
  intros rib m. pose proof (ai_run_ok ops) as Hr. fold rib m in Hr.
  pose proof (ai_step_ok rib m (AiDrain family) Hr) as [_ Hd]. cbn [ai_step ai_spec] in Hd.
  pose proof (fun prefix remote => ai_drain_elem rib m family prefix remote Hr) as Ho.
  assert (unicast_ip family = false -> (ai_drain_afi_safi rib family).2 = []) as Hno
    by (by destruct family as [[] []]).
  destruct (ai_drain_afi_safi rib family) as [rib' out]. cbn [fst snd] in *. split.
  - intros key remote. rewrite Hd. destruct (unicast_ip family); [|done]. cbn [andb].
    rewrite map_lookup_filter. destruct (in_family _ key) eqn:E; destruct (m !! _); try done; cbn; case_guard; simpl in *; congruence.
  - intros prefix remote. destruct (unicast_ip family); [rewrite Ho by done; tauto|].
    rewrite Hno by done. split; [by intros ?%not_elem_of_nil|by intros []].
Qed.

(**  After any sequence of operations an Adj-RIB-Out holds, for every key
    and local path id, what a map from (key, local id) would hold; paths
    without a local id are never stored; and [stale_paths] reports exactly
    the stored paths of the key whose id is not among the active ones. *)
Theorem adj_rib_out_refines_map (ops : list ao_op) :
  let rib := fold_left ao_step ops ao_new in
  let m := fold_left ao_spec ops ∅ in
  (forall key id, ao_path rib key id = m !! (key, id)) /\
  (forall key id p, m !! (key, id) = Some p -> local_path_id (ref_path p) = Some id) /\
  (forall key active p, p ∈ ao_stale_paths rib key active <->
     exists id, m !! (key, id) = Some p /\
       forall rp, rp ∈ active -> local_path_id (ref_path (rp_path rp)) <> Some id).
Proof.
  intros rib m. pose proof (ao_run_ok ops) as Hr. fold rib m in Hr.
  split_and!; [apply Hr| |intros; by apply ao_stale_elem].
  intros key id p. destruct Hr as [Hinv Hm]. rewrite <- Hm. unfold ao_path.
  destruct (ft_get rib key) as [old|] eqn:Eo; [|done]. cbn [mbind option_bind].
  by apply (Hinv _ _ Eo).
Qed.

(** Replacing by remote id, evaluated. *)
Example demo_adj_rib_in :
  let k := KPrefix (V4 (mkV4 0x0A000000 8)) in
  let p := fun id n => mkRef n (mkPath None id (demo_attrs [1] None 7) false Vrp.NotFound) in
  let rib := fold_left ai_step
    [AiAdd k (p (Some 1) 1); AiAdd k (p (Some 2) 2); AiAdd k (p (Some 1) 3); AiRemove k (Some 2)] ai_new in
  (r ← ai_get_route rib k; Some (map ref_ptr (paths r))) = Some [3].
Proof. vm_compute. reflexivity. Qed.
