(* ===== verification/LocRib.v ===== *)
(** * The Loc-RIB ([bgpgg/src/rib/rib_loc.rs], [bgpgg/src/rib/stale.rs],
    [PendingRoute] of [bgpgg/src/peer/mod.rs])

    Whether the best path of a key changed is decided by comparing [Arc]
    addresses, so addresses are part of the state: [lr_next] is the next
    address the allocator gives out, and [make_mut] writes in place when the
    reference is the only one and moves to a fresh address otherwise.
    [shared] is the set of addresses of which a clone exists outside the
    table: the clones other tasks keep, and those an operation itself takes
    of the old best paths.

    [None] is a panic, of a prefix trie or of the sort of a route's paths
    ([SortBy]).  The iteration order of the hash maps
    is that of [map_to_list]; the properties do not depend on it.  Log calls
    are left out. *)
From S2P Require Import Prelude Net Trie PrefixMap Vrp PathId BgpLs Attrs Path.

(** ** Results *)
Inductive LocRibError := MaxLsEntriesReached (limit : Z).

Record RouteDelta := mkDelta { best_changed : list RouteKey; changed : list RouteKey }.

Definition delta_new : RouteDelta := mkDelta [] [].
Definition has_changes (d : RouteDelta) : bool :=
  negb (match best_changed d with [] => true | _ => false end) ||
  negb (match changed d with [] => true | _ => false end).
Definition delta_extend (d other : RouteDelta) : RouteDelta :=
  mkDelta (best_changed d ++ best_changed other) (changed d ++ changed other).

Inductive PendingRoute := Announce (r : RoutePath) | Withdraw (w : Withdrawal).

Definition pending_route_key (p : PendingRoute) : RouteKey :=
  match p with Announce r => rp_key r | Withdraw (key, _) => key end.

Fixpoint pending_split (routes : list PendingRoute) : list RoutePath * list Withdrawal :=
  match routes with
  | [] => ([], [])
  | route :: rest =>
      let '(announced, withdrawn) := pending_split rest in
      match route with
      | Announce r => (r :: announced, withdrawn)
      | Withdraw w => (announced, w :: withdrawn)
      end
  end.

(** ** [Arc::make_mut] *)
Definition make_mut (shared : gset Z) (next : Z) (r : PathRef) (f : Path -> Path) : PathRef * Z :=
  if bool_decide (ref_ptr r ∈ shared) then (mkRef next (f (ref_path r)), next + 1)
  else (mkRef (ref_ptr r) (f (ref_path r)), next).

(** ** Stale paths *)
Inductive StaleStrategy := Sweep | TransitionToLlgr.

(** The path as the strategy leaves it, and whether it is retained. *)
Definition strategy_apply (strategy : StaleStrategy) (shared : gset Z) (next : Z) (path : PathRef)
    : bool * PathRef * Z :=
  match strategy with
  | Sweep => (false, path, next)
  | TransitionToLlgr =>
      if bool_decide (NO_LLGR ∈ pa_communities (attrs (ref_path path))) then (false, path, next)
      else
        let '(path, next) := make_mut shared next path (fun p =>
          if bool_decide (LLGR_STALE ∈ pa_communities (attrs p)) then p
          else
            let a := attrs p in
            set_attrs (mkAttrs (pa_origin a) (pa_as_path a) (pa_next_hop a) (pa_source a)
              (pa_local_pref a) (pa_med a) (pa_atomic_aggregate a) (pa_aggregator a)
              (pa_communities a ++ [LLGR_STALE]) (pa_extended_communities a)
              (pa_large_communities a) (pa_unknown_attrs a) (pa_originator_id a)
              (pa_cluster_list a) (pa_ls_attr a)) p) in
        (true, path, next)
  end.

(** [mark_stale] on the paths of one route. *)
Fixpoint mark_stale_paths (shared : gset Z) (next : Z) (peer_ip : IpAddr) (l : list PathRef)
    : list PathRef * nat * Z :=
  match l with
  | [] => ([], O, next)
  | p :: rest =>
      let '(p, n, next) :=
        if is_from_peer (ref_path p) peer_ip
        then let '(p, next) := make_mut shared next p (set_stale true) in (p, 1%nat, next)
        else (p, O, next) in
      let '(rest, count, next) := mark_stale_paths shared next peer_ip rest in
      (p :: rest, (n + count)%nat, next)
  end.

(** [mark_stale] over a table's values, with their keys to put them back. *)
Fixpoint mark_stale {K} (shared : gset Z) (next : Z) (peer_ip : IpAddr) (routes : list (K * Route))
    : list (K * Route) * nat * Z :=
  match routes with
  | [] => ([], O, next)
  | (k, route) :: rest =>
      let '(ps, n, next) := mark_stale_paths shared next peer_ip (paths route) in
      let '(rest, count, next) := mark_stale shared next peer_ip rest in
      ((k, mkRoute (route_key route) ps) :: rest, (n + count)%nat, next)
  end.

Definition is_stale_from (peer_ip : IpAddr) (p : PathRef) : bool :=
  is_from_peer (ref_path p) peer_ip && stale (ref_path p).

Section loc_rib.
Context {A : Type} `{PathIdAllocator A} `{SortBy}.

(** The loop of [apply_stale_to_route] over the drained paths. *)
Fixpoint apply_stale_paths (shared : gset Z) (next : Z) (peer_ip : IpAddr)
    (strategy : StaleStrategy) (path_ids : A) (l : list PathRef) : list PathRef * A * Z :=
  match l with
  | [] => ([], path_ids, next)
  | p :: rest =>
      if is_stale_from peer_ip p then
        let '(retained, p, next) := strategy_apply strategy shared next p in
        if retained then
          let '(kept, path_ids, next) := apply_stale_paths shared next peer_ip strategy path_ids rest in
          (p :: kept, path_ids, next)
        else
          let path_ids :=
            match local_path_id (ref_path p) with Some id => free path_ids id | None => path_ids end in
          apply_stale_paths shared next peer_ip strategy path_ids rest
      else
        let '(kept, path_ids, next) := apply_stale_paths shared next peer_ip strategy path_ids rest in
        (p :: kept, path_ids, next)
  end.

(** [None] inside: no stale path.  The old best is a clone, so it is shared
    while the strategy runs. *)
Definition apply_stale_to_route (shared : gset Z) (next : Z) (route : Route) (peer_ip : IpAddr)
    (path_ids : A) (strategy : StaleStrategy) : option (option PathRef * Route * A * Z) :=
  if negb (existsb (is_stale_from peer_ip) (paths route)) then Some (None, route, path_ids, next)
  else
    let old_best := head (paths route) in
    let shared := match old_best with Some p => {[ref_ptr p]} ∪ shared | None => shared end in
    let '(kept, path_ids, next) :=
      apply_stale_paths shared next peer_ip strategy path_ids (paths route) in
    sorted ← sort_paths kept;
    Some (old_best, mkRoute (route_key route) sorted, path_ids, next).

(** ** The table *)
Record LocRib := mkLocRib {
  lr_ipv4 : PrefixMap Ipv4Net Route;
  lr_ipv6 : PrefixMap Ipv6Net Route;
  lr_ls : gmap LsNlri Route;
  lr_path_ids : A;
  lr_max_ls_entries : Z;
  lr_next : Z;
}.

Implicit Types (rib : LocRib) (key : RouteKey) (peer_ip : IpAddr).

Definition with_path_ids (path_ids : A) : LocRib := mkLocRib pm_new pm_new ∅ path_ids 0 0.

Definition set_path_ids rib (path_ids : A) : LocRib :=
  mkLocRib (lr_ipv4 rib) (lr_ipv6 rib) (lr_ls rib) path_ids (lr_max_ls_entries rib) (lr_next rib).
Definition set_next rib (next : Z) : LocRib :=
  mkLocRib (lr_ipv4 rib) (lr_ipv6 rib) (lr_ls rib) (lr_path_ids rib) (lr_max_ls_entries rib) next.
Definition set_ipv4 rib m : LocRib :=
  mkLocRib m (lr_ipv6 rib) (lr_ls rib) (lr_path_ids rib) (lr_max_ls_entries rib) (lr_next rib).
Definition set_ipv6 rib m : LocRib :=
  mkLocRib (lr_ipv4 rib) m (lr_ls rib) (lr_path_ids rib) (lr_max_ls_entries rib) (lr_next rib).
Definition set_ls rib m : LocRib :=
  mkLocRib (lr_ipv4 rib) (lr_ipv6 rib) m (lr_path_ids rib) (lr_max_ls_entries rib) (lr_next rib).

(** *** Routes *)

(** [upsert_path_in_route], with the allocator and the next address. *)
Definition upsert_path_in_route (shared : gset Z) (next : Z) (route : Route) (path : PathRef)
    (path_ids : A) : option (Route * A * Z) :=
  let '(ps, path_ids, next) :=
    match list_find (fun p => matches_remote (ref_path p) (ref_path path) = true) (paths route) with
    | Some (i, existing) =>
        if bool_decide (attrs (ref_path existing) <> attrs (ref_path path)) then
          let '(path, next) :=
            make_mut shared next path (set_local_path_id (local_path_id (ref_path existing))) in
          (<[i := path]> (paths route), path_ids, next)
        else
          let '(existing, next) :=
            if bool_decide (rpki_state (ref_path existing) <> rpki_state (ref_path path))
            then make_mut shared next existing (set_rpki_state (rpki_state (ref_path path)))
            else (existing, next) in
          let '(existing, next) :=
            if stale (ref_path existing) then make_mut shared next existing (set_stale false)
            else (existing, next) in
          (<[i := existing]> (paths route), path_ids, next)
    | None =>
        let '(path_ids, id) := alloc path_ids in
        let '(path, next) := make_mut shared next path (set_local_path_id (Some id)) in
        (paths route ++ [path], path_ids, next)
    end in
  sorted ← sort_paths ps;
  Some (mkRoute (route_key route) sorted, path_ids, next).

Definition remove_paths_from_route (route : Route) (should_remove : Path -> bool)
    : Route * list Z :=
  (mkRoute (route_key route) (filter (fun p => should_remove (ref_path p) = false) (paths route)),
   omap (fun p => local_path_id (ref_path p))
     (filter (fun p => should_remove (ref_path p) = true) (paths route))).

Definition collect_peer_path_ids (routes : list Route) (peer_ip : IpAddr) : list Z :=
  concat (map (fun route => (remove_paths_from_route route (fun p => is_from_peer p peer_ip)).2) routes).
Definition drop_peer_paths (peer_ip : IpAddr) (route : Route) : Route :=
  (remove_paths_from_route route (fun p => is_from_peer p peer_ip)).1.

(** *** Lookups *)
Definition get_route rib key : option Route :=
  match key with
  | KPrefix (V4 net) => pm_get (lr_ipv4 rib) net
  | KPrefix (V6 net) => pm_get (lr_ipv6 rib) net
  | KLinkState nlri => lr_ls rib !! nlri
  end.

Definition get_best_path rib key : option PathRef := r ← get_route rib key; head (paths r).
Definition get_all_paths rib key : list PathRef :=
  match get_route rib key with Some r => paths r | None => [] end.
Definition has_route rib key : bool :=
  match get_route rib key with Some _ => true | None => false end.

Definition get_routes rib (family : option AfiSafi) : list Route :=
  match family with
  | Some af =>
      match afi af, safi af with
      | Afi_Ipv4, Unicast => pm_values (lr_ipv4 rib)
      | Afi_Ipv6, Unicast => pm_values (lr_ipv6 rib)
      | Afi_LinkState, (Safi_LinkState | LinkStateVpn) => (map_to_list (lr_ls rib)).*2
      | _, _ => []
      end
  | None => pm_values (lr_ipv4 rib) ++ pm_values (lr_ipv6 rib) ++ (map_to_list (lr_ls rib)).*2
  end.

Definition get_paths rib (family : AfiSafi) (all_paths : bool) : list RoutePath :=
  let routes := get_routes rib (Some family) in
  if all_paths
  then concat (map (fun route => map (mkRoutePath (route_key route)) (paths route)) routes)
  else omap (fun route => path ← head (paths route); Some (mkRoutePath (route_key route) path)) routes.

Definition routes_len rib : nat :=
  (pm_len (lr_ipv4 rib) + pm_len (lr_ipv6 rib) + size (lr_ls rib))%nat.

Definition lr_family_counts rib : list (AfiSafi * nat) :=
  [ (mkAfiSafi Afi_Ipv4 Unicast, pm_len (lr_ipv4 rib));
    (mkAfiSafi Afi_Ipv6 Unicast, pm_len (lr_ipv6 rib));
    (mkAfiSafi Afi_LinkState Safi_LinkState, size (lr_ls rib)) ].

Definition best_path_changed rib key (old : option PathRef) : bool :=
  match old, get_best_path rib key with
  | Some old, Some new => negb (ref_ptr old =? ref_ptr new)
  | None, None => false
  | _, _ => true
  end.

(** *** Writes *)

(** A write through [get_route_mut]. *)
Definition update_route rib key (f : Route -> Route) : LocRib :=
  match key with
  | KPrefix (V4 net) => set_ipv4 rib (pm_update (lr_ipv4 rib) net f)
  | KPrefix (V6 net) => set_ipv6 rib (pm_update (lr_ipv6 rib) net f)
  | KLinkState nlri => set_ls rib (alter f nlri (lr_ls rib))
  end.

Definition remove_route_entry rib key : option LocRib :=
  match key with
  | KPrefix (V4 net) => '(m, _) ← pm_remove (lr_ipv4 rib) net; Some (set_ipv4 rib m)
  | KPrefix (V6 net) => '(m, _) ← pm_remove (lr_ipv6 rib) net; Some (set_ipv6 rib m)
  | KLinkState nlri => Some (set_ls rib (delete nlri (lr_ls rib)))
  end.

Definition remove_paths rib key (should_remove : Path -> bool) : option (LocRib * list Z) :=
  match get_route rib key with
  | None => Some (rib, [])
  | Some route =>
      let '(route, freed) := remove_paths_from_route route should_remove in
      let rib := update_route rib key (fun _ => route) in
      match paths route with
      | [] => rib ← remove_route_entry rib key; Some (rib, freed)
      | _ => Some (rib, freed)
      end
  end.

(** The entry for [key], created empty when it is missing; [None] inside:
    the table is full. *)
Definition entry_or_insert rib key : option (option (LocRib * Route)) :=
  let empty := mkRoute key [] in
  match key with
  | KPrefix (V4 net) =>
      '(m, route) ← pm_get_or_insert (lr_ipv4 rib) net empty; Some (Some (set_ipv4 rib m, route))
  | KPrefix (V6 net) =>
      '(m, route) ← pm_get_or_insert (lr_ipv6 rib) net empty; Some (Some (set_ipv6 rib m, route))
  | KLinkState nlri =>
      if (0 <? lr_max_ls_entries rib) && negb (bool_decide (is_Some (lr_ls rib !! nlri))) &&
         (lr_max_ls_entries rib <=? Z.of_nat (size (lr_ls rib)))
      then Some None
      else
        match lr_ls rib !! nlri with
        | Some route => Some (Some (rib, route))
        | None => Some (Some (set_ls rib (<[nlri := empty]> (lr_ls rib)), empty))
        end
  end.

Definition upsert_path rib (shared : gset Z) key (path : PathRef) : option (LocRib * bool) :=
  entry ← entry_or_insert rib key;
  match entry with
  | None => Some (rib, false)
  | Some (rib, route) =>
      '(route, path_ids, next) ←
        upsert_path_in_route shared (lr_next rib) route path (lr_path_ids rib);
      Some (set_next (set_path_ids (update_route rib key (fun _ => route)) path_ids) next, true)
  end.

Definition remove_peer_path rib key peer_ip (remote : option Z) : option (LocRib * bool) :=
  '(rib, freed) ← remove_paths rib key (fun p =>
    is_from_peer p peer_ip &&
    match remote with None => true | Some id => bool_decide (remote_path_id p = Some id) end);
  Some (set_path_ids rib (free_all (lr_path_ids rib) freed),
        match freed with [] => false | _ => true end).

Definition get_peer_route_keys rib peer_ip : list RouteKey :=
  let has_peer route := existsb (fun p => is_from_peer (ref_path p) peer_ip) (paths route) in
  map (fun kv => KPrefix (V4 kv.1)) (filter (fun kv => has_peer kv.2 = true) (pm_iter (lr_ipv4 rib))) ++
  map (fun kv => KPrefix (V6 kv.1)) (filter (fun kv => has_peer kv.2 = true) (pm_iter (lr_ipv6 rib))) ++
  map (fun kv => KLinkState kv.1) (filter (fun kv => has_peer kv.2 = true) (map_to_list (lr_ls rib))).

Definition keep_route {K} (k : K) (route : Route) : bool * Route :=
  (match paths route with [] => false | _ => true end, route).

Definition clear_peer_paths rib peer_ip : option LocRib :=
  let freed := collect_peer_path_ids (pm_values (lr_ipv4 rib)) peer_ip in
  let rib := set_path_ids rib (free_all (lr_path_ids rib) freed) in
  m4 ← pm_retain (pm_update_values (lr_ipv4 rib) (drop_peer_paths peer_ip)) keep_route;
  let rib := set_ipv4 rib m4 in
  let freed := collect_peer_path_ids (pm_values (lr_ipv6 rib)) peer_ip in
  let rib := set_path_ids rib (free_all (lr_path_ids rib) freed) in
  m6 ← pm_retain (pm_update_values (lr_ipv6 rib) (drop_peer_paths peer_ip)) keep_route;
  let rib := set_ipv6 rib m6 in
  let freed := collect_peer_path_ids (map_to_list (lr_ls rib)).*2 peer_ip in
  let rib := set_path_ids rib (free_all (lr_path_ids rib) freed) in
  let ls := filter (fun kv => paths kv.2 <> []) (drop_peer_paths peer_ip <$> lr_ls rib) in
  Some (set_ls rib ls).

(** *** Updates from a peer *)

(** The clones of the old best paths, by key. *)
Definition snapshot_best rib (keys : list RouteKey) : gmap RouteKey PathRef :=
  list_to_map (omap (fun key => best ← get_best_path rib key; Some (key, best)) keys).
Definition snapshot_ptrs (old_best : gmap RouteKey PathRef) : gset Z :=
  list_to_set (map (fun kv => ref_ptr kv.2) (map_to_list old_best)).

(** One pending route; the second component is the set of rejected keys. *)
Definition apply_pending (import_policy : RouteKey -> Path -> bool * Path) (shared : gset Z)
    peer_ip (pending : PendingRoute) (st : LocRib * gset RouteKey) : option (LocRib * gset RouteKey) :=
  let '(rib, rejected) := st in
  match pending with
  | Withdraw (key, remote) =>
      '(rib, _) ← remove_peer_path rib key peer_ip remote; Some (rib, rejected)
  | Announce r =>
      let key := rp_key r in
      let '(accepted, path) := import_policy key (ref_path (rp_path r)) in
      if accepted then
        let arc := mkRef (lr_next rib) path in
        let rib := set_next rib (lr_next rib + 1) in
        '(rib, stored) ← upsert_path rib shared key arc;
        Some (rib, match stored with true => rejected | false => {[key]} ∪ rejected end)
      else
        '(rib, _) ← remove_peer_path rib key peer_ip (remote_path_id (ref_path (rp_path r)));
        Some (rib, rejected)
  end.

Fixpoint apply_pendings (import_policy : RouteKey -> Path -> bool * Path) (shared : gset Z)
    peer_ip (pending : list PendingRoute) (st : LocRib * gset RouteKey)
    : option (LocRib * gset RouteKey) :=
  match pending with
  | [] => Some st
  | p :: rest =>
      st ← apply_pending import_policy shared peer_ip p st;
      apply_pendings import_policy shared peer_ip rest st
  end.

Definition apply_peer_update rib (ext : gset Z) peer_ip (pending_routes : list PendingRoute)
    (import_policy : RouteKey -> Path -> bool * Path) : option (LocRib * RouteDelta) :=
  let affected := elements (list_to_set (map pending_route_key pending_routes) : gset RouteKey) in
  let old_best := snapshot_best rib affected in
  '(rib, rejected) ←
    apply_pendings import_policy (snapshot_ptrs old_best ∪ ext) peer_ip pending_routes (rib, ∅);
  let affected := filter (fun key => ~ key ∈ rejected) affected in
  let changed := filter (fun key => best_path_changed rib key (old_best !! key) = true) affected in
  Some (rib, mkDelta changed affected).

(** *** Local routes *)
Definition local_path (a : PathAttrs) : Path :=
  mkPath None None
    (mkAttrs (pa_origin a) (pa_as_path a) (pa_next_hop a) Local
      (Some (default 100 (pa_local_pref a))) (pa_med a) (pa_atomic_aggregate a) (pa_aggregator a)
      (pa_communities a) (pa_extended_communities a) (pa_large_communities a)
      (pa_unknown_attrs a) (pa_originator_id a) (pa_cluster_list a) (pa_ls_attr a))
    false NotFound.

Definition opt_ptr (r : option PathRef) : gset Z :=
  match r with Some p => {[ref_ptr p]} | None => ∅ end.

Definition add_local_route rib (ext : gset Z) key (path_attrs : PathAttrs)
    : option (LocRib * (LocRibError + RouteDelta)) :=
  let old_best := get_best_path rib key in
  let path := mkRef (lr_next rib) (local_path path_attrs) in
  let rib := set_next rib (lr_next rib + 1) in
  '(rib, stored) ← upsert_path rib (opt_ptr old_best ∪ ext) key path;
  match stored with
  | true => Some (rib, inr (mkDelta (if best_path_changed rib key old_best then [key] else []) [key]))
  | false => Some (rib, inl (MaxLsEntriesReached (lr_max_ls_entries rib)))
  end.

Definition remove_local_route rib key : option (LocRib * RouteDelta) :=
  let old_best := get_best_path rib key in
  '(rib, freed) ← remove_paths rib key (fun p => bool_decide (pa_source (attrs p) = Local));
  match freed with
  | [] => Some (rib, delta_new)
  | _ =>
      let rib := set_path_ids rib (free_all (lr_path_ids rib) freed) in
      Some (rib, mkDelta (if best_path_changed rib key old_best then [key] else []) [key])
  end.

Definition remove_routes_from_peer rib peer_ip : option (LocRib * RouteDelta) :=
  let changed := get_peer_route_keys rib peer_ip in
  let old_best := snapshot_best rib changed in
  rib ← clear_peer_paths rib peer_ip;
  let best := filter (fun key => best_path_changed rib key (old_best !! key) = true) changed in
  Some (rib, mkDelta best changed).

(** *** Graceful restart *)
Definition mark_table {K} `{Countable K} (ext : gset Z) (next : Z) peer_ip (m : gmap K Route)
    : gmap K Route * nat * Z :=
  let '(l, count, next) := mark_stale ext next peer_ip (map_to_list m) in
  (list_to_map l, count, next).

Definition mark_peer_routes_stale rib (ext : gset Z) peer_ip (family : AfiSafi) : LocRib * nat :=
  match afi family, safi family with
  | Afi_Ipv4, Unicast =>
      let '(m, count, next) := mark_table ext (lr_next rib) peer_ip (pm_map (lr_ipv4 rib)) in
      (set_next (set_ipv4 rib (mkPM m (pm_trie (lr_ipv4 rib)))) next, count)
  | Afi_Ipv6, Unicast =>
      let '(m, count, next) := mark_table ext (lr_next rib) peer_ip (pm_map (lr_ipv6 rib)) in
      (set_next (set_ipv6 rib (mkPM m (pm_trie (lr_ipv6 rib)))) next, count)
  | Afi_LinkState, (Safi_LinkState | LinkStateVpn) =>
      let '(m, count, next) := mark_table ext (lr_next rib) peer_ip (lr_ls rib) in
      (set_next (set_ls rib m) next, count)
  | _, _ => (rib, O)
  end.

(** The inner loop of [handle_stale]: one key, and the keys of one family. *)
Definition handle_stale_key (ext : gset Z) peer_ip (strategy : StaleStrategy) key rib (delta : RouteDelta)
    : option (LocRib * RouteDelta) :=
  match get_route rib key with
  | None => Some (rib, delta)
  | Some route =>
      '(old_best, route, path_ids, next) ←
        apply_stale_to_route ext (lr_next rib) route peer_ip (lr_path_ids rib) strategy;
      let rib := set_next (set_path_ids (update_route rib key (fun _ => route)) path_ids) next in
      match old_best with
      | None => Some (rib, delta)
      | Some old_best =>
          let is_empty :=
            match get_route rib key with
            | Some r => match paths r with [] => true | _ => false end
            | None => true
            end in
          rib ← (if is_empty then remove_route_entry rib key else Some rib);
          Some (rib, mkDelta
            (best_changed delta ++
             (if best_path_changed rib key (Some old_best) then [key] else []))
            (changed delta ++ [key]))
      end
  end.

Fixpoint handle_stale_keys (ext : gset Z) peer_ip (strategy : StaleStrategy) (keys : list RouteKey)
    rib (delta : RouteDelta) : option (LocRib * RouteDelta) :=
  match keys with
  | [] => Some (rib, delta)
  | key :: rest =>
      '(rib, delta) ← handle_stale_key ext peer_ip strategy key rib delta;
      handle_stale_keys ext peer_ip strategy rest rib delta
  end.

Fixpoint handle_stale_from (ext : gset Z) peer_ip (afi_safis : list AfiSafi)
    (strategy : StaleStrategy) rib (delta : RouteDelta) : option (LocRib * RouteDelta) :=
  match afi_safis with
  | [] => Some (rib, delta)
  | afi_safi :: rest =>
      let keys := map route_key
        (filter (fun r => existsb (is_stale_from peer_ip) (paths r) = true)
          (get_routes rib (Some afi_safi))) in
      '(rib, delta) ← handle_stale_keys ext peer_ip strategy keys rib delta;
      handle_stale_from ext peer_ip rest strategy rib delta
  end.

Definition handle_stale rib (ext : gset Z) peer_ip (afi_safis : list AfiSafi)
    (strategy : StaleStrategy) : option (LocRib * RouteDelta) :=
  handle_stale_from ext peer_ip afi_safis strategy rib delta_new.

Definition apply_llgr rib (ext : gset Z) peer_ip (afi_safis : list AfiSafi) :=
  handle_stale rib ext peer_ip afi_safis TransitionToLlgr.
Definition remove_peer_routes_stale rib (ext : gset Z) peer_ip (afi_safis : list AfiSafi) :=
  handle_stale rib ext peer_ip afi_safis Sweep.

Definition stale_afi_safis rib peer_ip : gset AfiSafi :=
  let has_stale (route : Route) := existsb (is_stale_from peer_ip) (paths route) in
  (if existsb has_stale (pm_values (lr_ipv4 rib)) then {[mkAfiSafi Afi_Ipv4 Unicast]} else ∅) ∪
  (if existsb has_stale (pm_values (lr_ipv6 rib)) then {[mkAfiSafi Afi_Ipv6 Unicast]} else ∅) ∪
  list_to_set (map (fun kv => mkAfiSafi Afi_LinkState (ls_safi kv.1))
    (filter (fun kv => has_stale kv.2 = true) (map_to_list (lr_ls rib)))).

(** *** Prefixes touched by VRP changes *)
Definition subtree_prefixes rib (prefix : IpNetwork) : option (list IpNetwork) :=
  match prefix with
  | V4 v4 => ks ← pm_subtree (lr_ipv4 rib) v4; Some (map V4 ks)
  | V6 v6 => ks ← pm_subtree (lr_ipv6 rib) v6; Some (map V6 ks)
  end.

Fixpoint affected_prefixes_of rib (vrps : list Vrp) : option (gset IpNetwork) :=
  match vrps with
  | [] => Some ∅
  | vrp :: rest =>
      ps ← subtree_prefixes rib (vrp_prefix vrp);
      more ← affected_prefixes_of rib rest;
      Some (list_to_set ps ∪ more)
  end.
Definition affected_prefixes rib (added removed : list Vrp) : option (gset IpNetwork) :=
  affected_prefixes_of rib (added ++ removed).
End loc_rib.
Arguments LocRib A : clear implicits.

(** [LocRib::new] *)
Definition loc_rib_new (max_ls_entries : Z) : LocRib BitmapPathIdAllocator :=
  mkLocRib pm_new pm_new ∅ bitmap_new max_ls_entries 0.
