(* ===== verification/Outgoing.v ===== *)
(** * Outgoing routes ([bgpgg/src/peer/outgoing.rs])

    What a peer is sent when routes change: the filters and the attribute
    transformations of an exported path, the batching of announcements into
    UPDATE messages, and the update of the Adj-RIB-Out.

    [None] is a panic (of a policy condition, of a message constructor or of
    the encoder).  The channel to the peer's task is the list of the serialized
    messages handed to it; a closed channel only logs.  An exported path is
    put in an [Arc] of its own whose address nothing compares.  Log calls are
    left out. *)
From S2P Require Import Prelude Wire Net Trie PrefixMap Vrp PathId Notification Nlri BgpLs BgpLsParse Attrs BgpLsAttr Text OpenMsg Msg Path UpdateCodec UpdateCodecSpec Update ExtComm PeerCaps Policy Fsm RibTables LocRib.

(** ** Batches *)
Record AnnouncementBatch := mkBatch { batch_afi_safi : AfiSafi; batch_path : PathRef; batch_keys : list RouteKey }.

Definition key_prefix (k : RouteKey) : option IpNetwork := match k with KPrefix p => Some p | KLinkState _ => None end.
Definition key_ls (k : RouteKey) : option LsNlri := match k with KLinkState n => Some n | KPrefix _ => None end.

Definition to_update (b : AnnouncementBatch) (format : MessageFormat) : option UpdateMessage :=
  match afi (batch_afi_safi b) with
  | Afi_Ipv4 | Afi_Ipv6 => um_new (ref_path (batch_path b)) (omap key_prefix (batch_keys b)) format
  | Afi_LinkState => new_ls (ref_path (batch_path b)) (omap key_ls (batch_keys b)) (batch_afi_safi b) format
  end.

(** ** The peer *)
Record PeerExportContext := mkExport {
  ctx_peer_addr : IpAddr;
  ctx_local_asn : Z;
  ctx_peer_asn : Z;
  ctx_local_next_hop : IpAddr;
  ctx_local_link_local : option Z;
  ctx_export_policies : gmap AfiSafi (list Policy);
  ctx_rr_client : bool;
  ctx_rs_client : bool;
  ctx_cluster_id : Z;
  ctx_send_format : MessageFormat;
  ctx_negotiated_afi_safis : gset AfiSafi;
  ctx_next_hop_self : bool;
  ctx_graceful_shutdown : bool;
  ctx_capabilities : PeerCapabilities;
  ctx_send_rpki_community : bool;
}.

Implicit Types (ctx : PeerExportContext) (path : Path).

Definition ctx_is_ebgp ctx : bool := negb (ctx_local_asn ctx =? ctx_peer_asn ctx).
Definition ctx_is_ibgp ctx : bool := ctx_local_asn ctx =? ctx_peer_asn ctx.

Definition ctx_afi_safis `{HashOrder} ctx : list AfiSafi :=
  if bool_decide (ctx_negotiated_afi_safis ctx = ∅) then [mkAfiSafi Afi_Ipv4 Unicast]
  else hash_order (elements (ctx_negotiated_afi_safis ctx)).

(** ** Filters *)
Definition should_filter_by_community (communities : list Z) (local_asn peer_asn : Z) : bool :=
  mem NO_ADVERTISE communities ||
  (negb (local_asn =? peer_asn) && (mem NO_EXPORT communities || mem NO_EXPORT_SUBCONFED communities)).

Definition path_source path : RouteSource := pa_source (attrs path).
Definition path_communities path : list Z := pa_communities (attrs path).

Definition should_export_to_peer path ctx : bool :=
  if ctx_is_ibgp ctx && is_ibgp (path_source path) && negb (is_rr_client (path_source path)) && negb (ctx_rr_client ctx)
  then false
  else if bool_decide (source_peer_ip (path_source path) = Some (ctx_peer_addr ctx)) then false
  else if should_filter_by_community (path_communities path) (ctx_local_asn ctx) (ctx_peer_asn ctx) then false
  else if mem LLGR_STALE (path_communities path) && bool_decide (llgr (ctx_capabilities ctx) = None) then false
  else true.

Definition should_propagate_to_peer (peer_addr : IpAddr) (peer_state : BgpState) (originating_peer : option IpAddr) : bool :=
  if bool_decide (originating_peer = Some peer_addr) then false else bool_decide (peer_state = Established).

(** ** Attributes *)
Definition prepend_local_asn (as_path : AsPath) (local_asn : Z) : AsPath :=
  match as_path with
  | first :: rest =>
      if bool_decide (segment_type first = AsSequence) then
        let new_asn_list := local_asn :: asn_list first in
        mkSegment AsSequence (Z.of_nat (length new_asn_list) mod 2 ^ 8) new_asn_list :: rest
      else mkSegment AsSequence 1 [local_asn] :: as_path
  | [] => [mkSegment AsSequence 1 [local_asn]]
  end.

Definition build_export_as_path path ctx : AsPath :=
  let as_path := pa_as_path (attrs path) in
  if ctx_rs_client ctx then as_path
  else if is_local (path_source path) && bool_decide (as_path = [])
  then if ctx_is_ebgp ctx then [mkSegment AsSequence 1 [ctx_local_asn ctx]] else []
  else if ctx_is_ebgp ctx then prepend_local_asn as_path (ctx_local_asn ctx)
  else as_path.

Definition build_export_local_pref path ctx : option Z :=
  if ctx_local_asn ctx =? ctx_peer_asn ctx then pa_local_pref (attrs path) else None.

Definition build_export_med path ctx : option Z :=
  if ctx_rs_client ctx then pa_med (attrs path)
  else if ctx_is_ibgp ctx then pa_med (attrs path)
  else if is_local (path_source path) then pa_med (attrs path)
  else match pa_as_path (attrs path) with
       | [] => pa_med (attrs path)
       | segment :: _ =>
           if bool_decide (head (asn_list segment) <> Some (ctx_local_asn ctx)) then None
           else if bool_decide (segment_type segment = AsSet) then None
           else pa_med (attrs path)
       end.

Definition build_export_extended_communities path ctx : list Z :=
  let l := pa_extended_communities (attrs path) in
  if ctx_rs_client ctx then l
  else if ctx_is_ebgp ctx then filter (fun c => is_transitive c = true) l
  else if ctx_send_rpki_community ctx
  then filter (fun c => is_rpki_state_community c = false) l ++
       [from_rpki_state_community (rpki_to_u8 (rpki_state path))]
  else l.

Definition build_export_communities path ctx : list Z :=
  let comms := pa_communities (attrs path) in
  if ctx_graceful_shutdown ctx && negb (mem GRACEFUL_SHUTDOWN comms) then comms ++ [GRACEFUL_SHUTDOWN] else comms.

Definition build_export_unknown_attrs path ctx : list PathAttribute :=
  let l := pa_unknown_attrs (attrs path) in
  if ctx_rs_client ctx then l
  else if ctx_is_ebgp ctx then filter (fun a => is_unknown_transitive a = true) l
  else l.

Definition address_families_match (next_hop : NextHopAddr) (ip_addr : IpAddr) : bool :=
  match next_hop, ip_addr with
  | NhIpv4 _, IpV4 _ | NhIpv6 _, IpV6 _ | NhIpv6WithLinkLocal _ _, IpV6 _ => true
  | _, _ => false
  end.

Definition build_ebgp_next_hop path (local_next_hop : IpAddr) : option NextHopAddr :=
  let next_hop := pa_next_hop (attrs path) in
  if address_families_match next_hop local_next_hop then Some (nh_from_ip local_next_hop)
  else if negb (nh_is_unspecified next_hop) then Some next_hop
  else None.

Definition build_ibgp_next_hop path (local_next_hop : IpAddr) : option NextHopAddr :=
  let next_hop := pa_next_hop (attrs path) in
  if negb (is_local (path_source path)) then Some next_hop
  else if negb (nh_is_unspecified next_hop) then Some next_hop
  else if address_families_match next_hop local_next_hop then Some (nh_from_ip local_next_hop)
  else None.

Definition build_export_next_hop path ctx (route_key : RouteKey) : option NextHopAddr :=
  let preserved := Some (pa_next_hop (attrs path)) in
  let rewritten := Some (nh_from_ip (ctx_local_next_hop ctx)) in
  match route_key with
  | KLinkState _ =>
      if ctx_rs_client ctx then preserved
      else if ctx_is_ebgp ctx || ctx_next_hop_self ctx then rewritten
      else preserved
  | KPrefix _ =>
      if ctx_rs_client ctx then preserved
      else
        let next_hop :=
          if ctx_is_ebgp ctx then build_ebgp_next_hop path (ctx_local_next_hop ctx)
          else if ctx_next_hop_self ctx then rewritten
          else build_ibgp_next_hop path (ctx_local_next_hop ctx) in
        match next_hop, ctx_local_link_local ctx with
        | Some (NhIpv6 global), Some link_local =>
            if ctx_is_ebgp ctx then Some (NhIpv6WithLinkLocal global link_local) else next_hop
        | _, _ => next_hop
        end
  end.

Definition build_export_rr_attrs path ctx (ibgp : bool) : option Z * list Z :=
  let a := attrs path in
  if negb (ibgp && (is_ibgp (pa_source a) || bool_decide (is_Some (pa_originator_id a)))) then (None, [])
  else if is_ibgp (pa_source a) then
    (match pa_originator_id a with Some id => Some id | None => source_bgp_id (pa_source a) end,
     ctx_cluster_id ctx :: pa_cluster_list a)
  else (pa_originator_id a, pa_cluster_list a).

Definition build_export_attrs path ctx (route_key : RouteKey) : option PathAttrs :=
  let a := attrs path in
  let '(originator_id, cluster_list) :=
    if ctx_rs_client ctx then (None, []) else build_export_rr_attrs path ctx (ctx_is_ibgp ctx) in
  next_hop ← build_export_next_hop path ctx route_key;
  Some (mkAttrs (pa_origin a) (build_export_as_path path ctx) next_hop (pa_source a)
    (build_export_local_pref path ctx) (build_export_med path ctx) (pa_atomic_aggregate a) (pa_aggregator a)
    (build_export_communities path ctx) (build_export_extended_communities path ctx) (pa_large_communities a)
    (build_export_unknown_attrs path ctx) originator_id cluster_list (pa_ls_attr a)).

(** [Arc::new] for an exported path. *)
Definition arc_new path : PathRef := mkRef 0 path.

(** [filter_map] with a function that may panic. *)
Fixpoint try_filter_map {A B} (f : A -> option (option B)) (l : list A) : option (list B) :=
  match l with
  | [] => Some []
  | x :: rest =>
      y ← f x; ys ← try_filter_map f rest;
      Some (match y with Some b => b :: ys | None => ys end)
  end.

(** ** Export of a path *)
Section export.
Variable is_match : Str -> Str -> bool.
Variable checks : bool.

Definition compute_export_path (route_key : RouteKey) path ctx : option (option Path) :=
  if negb (should_export_to_peer path ctx) then Some None
  else
    let policies := default [] (ctx_export_policies ctx !! key_afi_safi route_key) in
    '(accepted, exported) ← evaluate_policies is_match checks policies route_key path;
    Some (if negb accepted then None
          else
            attrs ← build_export_attrs exported ctx route_key;
            Some (mkPath (local_path_id exported) (remote_path_id exported) attrs false NotFound)).

Definition export_route_path ctx (r : RoutePath) : option (option RoutePath) :=
  match compute_export_path (rp_key r) (ref_path (rp_path r)) ctx with
  | Some (Some e) => Some (Some (mkRoutePath (rp_key r) (arc_new e)))
  | Some None => Some None
  | None => None
  end.

Definition compute_routes_for_peer (to_announce : list RoutePath) ctx : option (list RoutePath) :=
  try_filter_map (export_route_path ctx) to_announce.

(** The first path that passes, in order of preference. *)
Fixpoint first_exported (route_key : RouteKey) ctx (l : list PathRef) : option (list RoutePath) :=
  match l with
  | [] => Some []
  | p :: rest =>
      match compute_export_path route_key (ref_path p) ctx with
      | Some (Some e) => Some [mkRoutePath route_key (arc_new e)]
      | Some None => first_exported route_key ctx rest
      | None => None
      end
  end.

Definition select_paths_for_export {A} (route_key : RouteKey) (send_add_path : bool) (loc_rib : LocRib A) ctx
    : option (list RoutePath) :=
  if send_add_path
  then compute_routes_for_peer (map (mkRoutePath route_key) (get_all_paths loc_rib route_key)) ctx
  else if ctx_rs_client ctx then first_exported route_key ctx (get_all_paths loc_rib route_key)
  else compute_routes_for_peer (map (mkRoutePath route_key) (option_list (get_best_path loc_rib route_key))) ctx.
End export.

(** ** Messages *)
Definition serialize_update (m : UpdateMessage) : option (list Z) :=
  body ← um_to_bytes m; Some (serialize MtUpdate body).

Definition ls_family : AfiSafi := mkAfiSafi Afi_LinkState Safi_LinkState.
Definition ls_vpn_family : AfiSafi := mkAfiSafi Afi_LinkState LinkStateVpn.

(** A message for a list, when it is not empty. *)
Definition send_nonempty {A} (l : list A) (build : list A -> option UpdateMessage) : option (list (list Z)) :=
  match l with
  | [] => Some []
  | _ => m ← build l; bytes ← serialize_update m; Some [bytes]
  end.

Definition send_withdrawals (withdrawn : list Withdrawal) (format : MessageFormat) : option (list (list Z)) :=
  let '(ip_withdrawn, ls_withdrawn, ls_vpn_withdrawn) := split_withdrawals withdrawn in
  ip ← send_nonempty ip_withdrawn (fun l => new_withdraw l format);
  ls ← send_nonempty ls_withdrawn (fun l => new_ls_withdraw l ls_family format);
  vpn ← send_nonempty ls_vpn_withdrawn (fun l => new_ls_withdraw l ls_vpn_family format);
  Some (ip ++ ls ++ vpn).

Definition BatchingKey : Type := AfiSafi * PathAttrs * option Z.

Definition batching_key (r : RoutePath) : BatchingKey :=
  let path := ref_path (rp_path r) in (key_afi_safi (rp_key r), attrs path, local_path_id path).

(** [entry(..).or_insert_with(..)] and the push of the key, on the entries of
    the map. *)
Fixpoint batch_push (r : RoutePath) (batches : list (BatchingKey * AnnouncementBatch))
    : list (BatchingKey * AnnouncementBatch) :=
  match batches with
  | [] => [(batching_key r, mkBatch (key_afi_safi (rp_key r)) (rp_path r) [rp_key r])]
  | (k, b) :: rest =>
      if bool_decide (k = batching_key r)
      then (k, mkBatch (batch_afi_safi b) (batch_path b) (batch_keys b ++ [rp_key r])) :: rest
      else (k, b) :: batch_push r rest
  end.

Section sending.
Context `{HashOrder}.

Definition batch_announcements (to_announce : list RoutePath) : list AnnouncementBatch :=
  hash_order (foldl (fun batches r => batch_push r batches) [] to_announce).*2.

Fixpoint send_batches (batches : list AnnouncementBatch) (format : MessageFormat) : option (list (list Z)) :=
  match batches with
  | [] => Some []
  | b :: rest =>
      m ← to_update b format; serialized ← serialize_update m;
      sent ← send_batches rest format;
      Some (if MAX_MESSAGE_SIZE <? Z.of_nat (length serialized) then sent else serialized :: sent)
  end.

Definition send_batched_announcements (to_send : list RoutePath) (format : MessageFormat) : option (list (list Z)) :=
  send_batches (batch_announcements to_send) format.

(** ** The whole table *)
Definition CHUNK_SIZE : nat := 100 * 100.

(** [slice::chunks], with fuel for the number of chunks. *)
Fixpoint chunks {A} (fuel n : nat) (l : list A) : list (list A) :=
  match fuel, l with
  | S fuel, _ :: _ => take n l :: chunks fuel n (drop n l)
  | _, _ => []
  end.

Section propagate.
Variable is_match : Str -> Str -> bool.
Variable checks : bool.

Fixpoint export_chunks ctx (l : list (list RoutePath)) (format : MessageFormat)
    : option (list RoutePath * list (list Z)) :=
  match l with
  | [] => Some ([], [])
  | chunk :: rest =>
      filtered ← compute_routes_for_peer is_match checks chunk ctx;
      sent ← send_batched_announcements filtered format;
      '(all_sent, messages) ← export_chunks ctx rest format;
      Some (filtered ++ all_sent, sent ++ messages)
  end.

(** The routes reported as sent, and the messages. *)
Definition export_all_routes_to_peer (routes : list RoutePath) ctx (format : MessageFormat)
    : option (list RoutePath * list (list Z)) :=
  export_chunks ctx (chunks (length routes) CHUNK_SIZE routes) format.

(** ** Changes *)
Definition build_withdrawals_for_route (route_key : RouteKey) (stale_paths : list PathRef)
    (export_paths : list RoutePath) (send_add_path : bool) : list Withdrawal :=
  if send_add_path
  then omap (fun p => pid ← local_path_id (ref_path p); Some (route_key, Some pid)) stale_paths
  else match export_paths, stale_paths with
       | [], _ :: _ => [(route_key, None)]
       | _, _ => []
       end.

Definition remove_stale (route_key : RouteKey) (rib : AdjRibOut) (p : PathRef) : AdjRibOut :=
  match local_path_id (ref_path p) with Some pid => ao_remove_path rib route_key pid | None => rib end.

(** The loop over the keys of one family. *)
Fixpoint export_keys {A} ctx (loc_rib : LocRib A) (afi_safi : AfiSafi) (send_add_path : bool)
    (route_keys : list RouteKey) (adj_rib_out : AdjRibOut)
    : option (list RoutePath * list Withdrawal * AdjRibOut) :=
  match route_keys with
  | [] => Some ([], [], adj_rib_out)
  | route_key :: rest =>
      if bool_decide (key_afi_safi route_key <> afi_safi)
      then export_keys ctx loc_rib afi_safi send_add_path rest adj_rib_out
      else
        export_paths ← select_paths_for_export is_match checks route_key send_add_path loc_rib ctx;
        let stale_paths := ao_stale_paths adj_rib_out route_key export_paths in
        let withdrawn := build_withdrawals_for_route route_key stale_paths export_paths send_add_path in
        '(announcements, withdrawals, adj_rib_out) ←
          export_keys ctx loc_rib afi_safi send_add_path rest (foldl (remove_stale route_key) adj_rib_out stale_paths);
        Some (export_paths ++ announcements, withdrawn ++ withdrawals, adj_rib_out)
  end.

Definition insert_announcement (rib : AdjRibOut) (r : RoutePath) : AdjRibOut := ao_insert rib (rp_key r) (rp_path r).

Definition propagate_family {A} ctx (delta : RouteDelta) (loc_rib : LocRib A) (adj_rib_out : AdjRibOut)
    (afi_safi : AfiSafi) : option (AdjRibOut * list (list Z)) :=
  let send_add_path := mask_contains (mf_add_path (ctx_send_format ctx)) afi_safi in
  let route_keys := if send_add_path || ctx_rs_client ctx then changed delta else best_changed delta in
  '(announcements, withdrawals, adj_rib_out) ← export_keys ctx loc_rib afi_safi send_add_path route_keys adj_rib_out;
  withdrawn ← send_withdrawals withdrawals (ctx_send_format ctx);
  announced ← send_batched_announcements announcements (ctx_send_format ctx);
  Some (foldl insert_announcement adj_rib_out announcements, withdrawn ++ announced).

Fixpoint propagate_families {A} ctx (delta : RouteDelta) (loc_rib : LocRib A) (adj_rib_out : AdjRibOut)
    (families : list AfiSafi) : option (AdjRibOut * list (list Z)) :=
  match families with
  | [] => Some (adj_rib_out, [])
  | afi_safi :: rest =>
      '(adj_rib_out, sent) ← propagate_family ctx delta loc_rib adj_rib_out afi_safi;
      '(adj_rib_out, more) ← propagate_families ctx delta loc_rib adj_rib_out rest;
      Some (adj_rib_out, sent ++ more)
  end.

Definition propagate_routes_to_peer {A} ctx (delta : RouteDelta) (loc_rib : LocRib A) (adj_rib_out : AdjRibOut)
    : option (AdjRibOut * list (list Z)) :=
  propagate_families ctx delta loc_rib adj_rib_out (ctx_afi_safis ctx).
End propagate.
End sending.

(** * Exported paths and batches

    Which paths a peer is offered and with which attributes, the AS path an
    external peer sees, the batches of an announcement list, and the table a
    peer is sent when its session comes up. *)

(** ** Prepending *)
Definition path_numbers (as_path : AsPath) : list Z := concat (map asn_list as_path).

Lemma prepend_numbers as_path asn : path_numbers (prepend_local_asn as_path asn) = asn :: path_numbers as_path.
Proof. destruct as_path as [|s rest]; [done|]. unfold prepend_local_asn. by case_bool_decide. Qed.

Lemma prepend_length as_path asn :
  sum_list_with segment_length (prepend_local_asn as_path asn) = S (sum_list_with segment_length as_path).
Proof.
  destruct as_path as [|s rest]; [done|]. unfold prepend_local_asn. case_bool_decide as E; [|done].
  cbn. unfold segment_length. by rewrite E.
Qed.

(** A segment whose length octet is right. *)
Definition counted (s : AsPathSegment) : Prop := segment_len s = Z.of_nat (length (asn_list s)).

Definition first_sequence_len (as_path : AsPath) : nat :=
  match as_path with
  | s :: _ => if bool_decide (segment_type s = AsSequence) then length (asn_list s) else 0
  | [] => 0
  end.

Lemma prepend_counted as_path asn :
  Forall counted as_path -> Z.of_nat (first_sequence_len as_path) < 256 ->
  Forall counted (prepend_local_asn as_path asn) <-> Z.of_nat (first_sequence_len as_path) < 255.
Proof.
  intros Hc Hl. destruct as_path as [|s rest]; cbn [prepend_local_asn first_sequence_len] in *.
  { split; [lia|]. intros _. by constructor. }
  case_bool_decide; rewrite !Forall_cons; apply Forall_cons in Hc as [Hs Hr].
  - unfold counted at 1. cbn [segment_len asn_list length]. rewrite Nat2Z.inj_succ.
    destruct (decide (Z.of_nat (length (asn_list s)) = 255)) as [E|Hne].
    + rewrite E. change (Z.succ 255 mod 2 ^ 8) with 0. split; [by intros [? _]|lia].
    + rewrite Z.mod_small by lia. split; [lia|done].
  - split; [lia|]. intros _. by split_and!.
Qed.

(** ** Exported paths *)
Section exported.
Variable is_match : Str -> Str -> bool.
Variable checks : bool.

(** The conditions of [should_export_to_peer]. *)
Record exportable path ctx : Prop := {
  ex_source : source_peer_ip (path_source path) <> Some (ctx_peer_addr ctx);
  ex_reflection : ctx_is_ibgp ctx = true -> is_ibgp (path_source path) = true ->
    is_rr_client (path_source path) = true \/ ctx_rr_client ctx = true;
  ex_no_advertise : NO_ADVERTISE ∉ path_communities path;
  ex_no_export : ctx_is_ebgp ctx = true ->
    (NO_EXPORT ∉ path_communities path) /\ (NO_EXPORT_SUBCONFED ∉ path_communities path);
  ex_llgr : LLGR_STALE ∈ path_communities path -> is_Some (llgr (ctx_capabilities ctx));
}.

Lemma mem_bool (x : Z) (l : list Z) : mem x l = bool_decide (x ∈ l).
Proof. done. Qed.

Lemma should_export_spec path ctx : should_export_to_peer path ctx = true <-> exportable path ctx.
Proof.
  unfold should_export_to_peer, should_filter_by_community. fold (ctx_is_ebgp ctx).
  change (ctx_is_ibgp ctx) with (ctx_local_asn ctx =? ctx_peer_asn ctx). rewrite !mem_bool. split.
  - intros E. destruct (_ && negb (ctx_rr_client ctx)) eqn:E1; [done|].
    case_bool_decide as E2; [done|]. destruct (_ || (_ && _)) eqn:E3; [done|]. destruct (_ && _) eqn:E4 in E; [done|].
    apply orb_false_iff in E3 as [Ea Ee]. apply bool_decide_eq_false in Ea. split; [done| |done| |].
    + unfold ctx_is_ibgp. intros H1 H2. rewrite H1, H2 in E1. cbn in E1.
      destruct (is_rr_client _); [by left|]. destruct (ctx_rr_client ctx); [by right|done].
    + intros H1. rewrite H1 in Ee. cbn in Ee. apply orb_false_iff in Ee as [He1 He2].
      by apply bool_decide_eq_false in He1, He2.
    + intros Hs. rewrite bool_decide_true in E4 by done. cbn in E4. apply bool_decide_eq_false in E4.
      by apply not_eq_None_Some.
  - intros [H1 H2 H3 H4 H5]. rewrite (bool_decide_false (source_peer_ip _ = _)), (bool_decide_false (NO_ADVERTISE ∈ _)) by done.
    destruct (_ && negb (ctx_rr_client ctx)) eqn:E1.
    { rewrite !andb_true_iff, !negb_true_iff in E1. destruct E1 as [[[Ea Eb] Ec] Ed].
      destruct (H2 Ea Eb); congruence. }
    destruct (false || _) eqn:E2.
    { cbn in E2. apply andb_true_iff in E2 as [Ea Eb]. destruct (H4 Ea) as [Hn1 Hn2].
      rewrite !bool_decide_false in Eb by done. done. }
    destruct (decide (LLGR_STALE ∈ path_communities path)) as [E3|E3].
    + rewrite (bool_decide_true _ E3), bool_decide_false by (by apply not_eq_None_Some, H5). done.
    + by rewrite (bool_decide_false _ E3).
Qed.

Lemma compute_export_spec key path ctx out :
  compute_export_path is_match checks key path ctx = Some (Some out) <->
  exportable path ctx /\
  exists accepted attrs,
    evaluate_policies is_match checks (default [] (ctx_export_policies ctx !! key_afi_safi key)) key path = Some (true, accepted) /\
    build_export_attrs accepted ctx key = Some attrs /\
    out = mkPath (local_path_id accepted) (remote_path_id accepted) attrs false NotFound.
Proof.
  unfold compute_export_path. rewrite <- should_export_spec. destruct (should_export_to_peer path ctx); cbn [negb].
  2: { split; [done|]. by intros [? _]. }
  destruct (evaluate_policies _ _ _ _ _) as [[[] accepted]|]; cbn [mbind option_bind negb].
  - destruct (build_export_attrs accepted ctx key) as [a|] eqn:E; cbn [mbind option_bind]; split.
    + intros [= <-]. split; [done|]. by exists accepted, a.
    + intros (_ & p & a' & [= <-] & E' & ->). rewrite E in E'. by injection E' as ->.
    + done.
    + intros (_ & p & a' & [= <-] & E' & _). congruence.
  - split; [done|]. by intros (_ & p & a' & [=] & _).
  - split; [done|]. by intros (_ & p & a' & [=] & _).
Qed.

(** What a policy and the export leave of a path. *)
Lemma export_ids key path ctx out :
  compute_export_path is_match checks key path ctx = Some (Some out) ->
  local_path_id out = local_path_id path /\ remote_path_id out = remote_path_id path /\
  pa_source (attrs out) = pa_source (attrs path) /\ pa_origin (attrs out) = pa_origin (attrs path) /\
  pa_aggregator (attrs out) = pa_aggregator (attrs path) /\ pa_as_path (attrs out) = build_export_as_path path ctx.
Proof.
  intros (_ & accepted & a & Hp & Ha & ->)%compute_export_spec. rewrite evaluate_policies_eq in Hp.
  assert (fixed_part accepted = fixed_part path) as Hf.
  { apply first_match_spec in Hp as [(pre & s & post & _ & _ & _ & E)|(_ & _ & ->)]; [|done].
    pose proof (actions_fixed (actions s) true path) as Hf. by rewrite E in Hf. }
  unfold fixed_part, fixed_attrs in Hf. injection Hf as Ho Hap Hn Hs Hat Hag Hu Hor Hcl Hls Hl Hr Hst.
  unfold build_export_attrs in Ha. destruct (if ctx_rs_client ctx then _ else _) as [originator cluster].
  destruct (build_export_next_hop accepted ctx key); [|done]. injection Ha as <-.
  cbn [attrs local_path_id remote_path_id pa_source pa_origin pa_aggregator pa_as_path]. split_and!; try done.
  unfold build_export_as_path, path_source. by rewrite Hs, Hap.
Qed.
End exported.

(** ** Batches *)
Section batches.
Context `{HashOrder}.
Implicit Types (r : RoutePath) (b : AnnouncementBatch).

(** What a route and a batch announce: a key with attributes and an
    identifier. *)
Definition announced r : RouteKey * PathAttrs * option Z :=
  (rp_key r, attrs (ref_path (rp_path r)), local_path_id (ref_path (rp_path r))).
Definition batch_announced b : list (RouteKey * PathAttrs * option Z) :=
  map (fun k => (k, attrs (ref_path (batch_path b)), local_path_id (ref_path (batch_path b)))) (batch_keys b).

Definition key_of_batch b : BatchingKey :=
  (batch_afi_safi b, attrs (ref_path (batch_path b)), local_path_id (ref_path (batch_path b))).

Record batch_ok b : Prop := {
  bo_keys : batch_keys b <> [];
  bo_family : Forall (fun k => key_afi_safi k = batch_afi_safi b) (batch_keys b);
}.

Definition entries_ok (l : list (BatchingKey * AnnouncementBatch)) : Prop :=
  NoDup l.*1 /\ Forall (fun e => e.1 = key_of_batch e.2 /\ batch_ok e.2) l.

Lemma batch_push_keys r l :
  (batch_push r l).*1 = if bool_decide (batching_key r ∈ l.*1) then l.*1 else l.*1 ++ [batching_key r].
Proof.
  induction l as [|[k b] l IH]; [done|]. cbn [batch_push]. destruct (decide (k = batching_key r)) as [E|E].
  - rewrite (bool_decide_true _ E), !fmap_cons, bool_decide_true by (rewrite <- E; by left). done.
  - rewrite (bool_decide_false _ E), !fmap_cons, IH. cbn [fst]. repeat case_bool_decide; set_solver.
Qed.

Lemma batch_push_ok r l : entries_ok l -> entries_ok (batch_push r l).
Proof.
  intros [Hnd Hf]. split.
  - rewrite batch_push_keys. case_bool_decide; [done|]. apply NoDup_app. split; [done|]. split; [|apply NoDup_singleton]. set_solver.
  - clear Hnd. induction Hf as [|[k b] l [Hk Hb] Hf IH]; cbn [batch_push]; [|case_bool_decide as E].
    + apply Forall_singleton. split; [done|]. split; [done|]. by apply Forall_singleton.
    + apply Forall_cons. split; [|done]. cbn [fst snd] in *. split; [done|]. destruct Hb as [Hne Hfam].
      split; cbn [batch_keys batch_afi_safi]; [by destruct (batch_keys b)|]. apply Forall_app. split; [done|].
      apply Forall_singleton. rewrite Hk in E. by injection E.
    + by apply Forall_cons.
Qed.

Lemma batch_push_announced r l : entries_ok l ->
  concat (map batch_announced (batch_push r l).*2) ≡ₚ announced r :: concat (map batch_announced l.*2).
Proof.
  intros [_ Hf]. induction Hf as [|[k b] l [Hk Hb] Hf IH]; cbn [batch_push]; [done|].
  case_bool_decide as E; rewrite !fmap_cons; cbn [snd map concat].
  - rewrite app_comm_cons. apply Permutation_app_tail. unfold batch_announced. cbn [batch_keys batch_path].
    rewrite map_app. cbn [map]. rewrite <- Permutation_cons_append. cbn [fst snd] in Hk. rewrite Hk in E. injection E as _ Ha Hi.
    unfold announced. by rewrite Ha, Hi.
  - rewrite IH. by rewrite Permutation_middle.
Qed.

Lemma batches_fold l : forall acc, entries_ok acc ->
  entries_ok (foldl (fun batches r => batch_push r batches) acc l) /\
  concat (map batch_announced (foldl (fun batches r => batch_push r batches) acc l).*2) ≡ₚ
    map announced l ++ concat (map batch_announced acc.*2).
Proof.
  induction l as [|r l IH]; intros acc Ha; [done|]. cbn [foldl map].
  destruct (IH _ (batch_push_ok r acc Ha)) as [H1 H2]. split; [done|]. rewrite H2, batch_push_announced by done.
  symmetry. apply Permutation_middle.
Qed.

Lemma batches_ok l : Forall batch_ok (batch_announcements l) /\
  concat (map batch_announced (batch_announcements l)) ≡ₚ map announced l /\
  NoDup (map key_of_batch (batch_announcements l)).
Proof.
  destruct (batches_fold l [] (conj (NoDup_nil_2) (Forall_nil_2 _))) as [[Hnd Hf] Hp].
  unfold batch_announcements. set (entries := foldl _ _ l) in *. split_and!.
  - rewrite hash_order_perm. apply Forall_fmap. eapply Forall_impl; [exact Hf|]. by intros e [_ Hb].
  - rewrite hash_order_perm, Hp. by rewrite app_nil_r.
  - change (NoDup (key_of_batch <$> hash_order entries.*2)). rewrite hash_order_perm, <- list_fmap_compose.
    erewrite Forall_fmap_ext_1; [exact Hnd|]. eapply Forall_impl; [exact Hf|]. by intros e [-> _].
Qed.
End batches.

(** ** Chunks *)
Lemma chunks_whole {A} n fuel (l : list A) : (0 < n)%nat -> (length l <= fuel)%nat -> concat (chunks fuel n l) = l.
Proof.
  intros Hn. revert l. induction fuel as [|fuel IH]; intros l Hl.
  - by destruct l; [|cbn in Hl; lia].
  - destruct l as [|x l]; [done|]. cbn [chunks concat]. rewrite IH; [by rewrite take_drop|].
    rewrite length_drop. cbn [length] in *. lia.
Qed.

Lemma try_filter_map_app {A B} (f : A -> option (option B)) l1 l2 :
  try_filter_map f (l1 ++ l2) =
    r1 ← try_filter_map f l1; r2 ← try_filter_map f l2; Some (r1 ++ r2).
Proof.
  induction l1 as [|x l1 IH]; cbn [app try_filter_map].
  - cbn. by destruct (try_filter_map f l2).
  - destruct (f x) as [y|]; [|done]. cbn [mbind option_bind]. rewrite IH.
    destruct (try_filter_map f l1) as [r1|]; [|done]. cbn [mbind option_bind].
    destruct (try_filter_map f l2) as [r2|]; [|done]. cbn [mbind option_bind]. by destruct y.
Qed.

Lemma try_filter_map_elem {A B} (f : A -> option (option B)) l r :
  try_filter_map f l = Some r -> forall y, y ∈ r <-> exists x, x ∈ l /\ f x = Some (Some y).
Proof.
  revert r. induction l as [|x l IH]; intros r; cbn [try_filter_map].
  - intros [= <-] y. split; [by intros ?%not_elem_of_nil|]. by intros (x & ?%not_elem_of_nil & _).
  - destruct (f x) as [o|] eqn:E; [|done]. cbn [mbind option_bind].
    destruct (try_filter_map f l) as [ys|]; [|done]. cbn [mbind option_bind]. intros [= <-] y.
    specialize (IH ys eq_refl y). setoid_rewrite elem_of_cons. destruct o as [b|]; rewrite ?elem_of_cons, IH; naive_solver.
Qed.

Section chunking.
Context `{HashOrder}.
Variable is_match : Str -> Str -> bool.
Variable checks : bool.

Lemma export_chunks_sent ctx format l sent messages :
  export_chunks is_match checks ctx l format = Some (sent, messages) ->
  compute_routes_for_peer is_match checks (concat l) ctx = Some sent.
Proof.
  revert sent messages. induction l as [|c l IH]; intros sent messages; cbn [export_chunks concat]; [by intros [= <- <-]|].
  unfold compute_routes_for_peer in *. rewrite try_filter_map_app.
  destruct (try_filter_map _ c) as [f|]; [|done]. cbn [mbind option_bind].
  destruct (send_batched_announcements f format) as [s|]; [|done]. cbn [mbind option_bind].
  destruct (export_chunks _ _ _ l _) as [[a m]|]; [|done]. cbn [mbind option_bind]. intros [= <- <-].
  by rewrite (IH a m eq_refl).
Qed.
End chunking.

(** ** Properties *)

(** C20. The paths a peer is offered are exactly those that were not learned
    from it, that the well-known communities allow (NO_ADVERTISE never;
    NO_EXPORT and NO_EXPORT_SUBCONFED not to an external peer; LLGR_STALE only
    to a peer with long-lived graceful restart), that reflection allows (a path
    from an internal peer goes to an internal peer only if one of the two is a
    client), that the export policies accept, and for which a next hop can be
    built. *)
Theorem exported_iff is_match checks (key : RouteKey) (path : Path) (ctx : PeerExportContext) :
  (exists out, compute_export_path is_match checks key path ctx = Some (Some out)) <->
  exportable path ctx /\
  exists accepted next_hop,
    evaluate_policies is_match checks (default [] (ctx_export_policies ctx !! key_afi_safi key)) key path = Some (true, accepted) /\
    build_export_next_hop accepted ctx key = Some next_hop.
Proof.
  setoid_rewrite compute_export_spec. split.
  - intros (out & Hex & accepted & a & Hp & Ha & _). split; [done|]. exists accepted. unfold build_export_attrs in Ha.
    destruct (if ctx_rs_client ctx then _ else _). destruct (build_export_next_hop accepted ctx key) as [n|]; [|done].
    by exists n.
  - intros (Hex & accepted & n & Hp & Hn).
    assert (exists a, build_export_attrs accepted ctx key = Some a) as [a Ha].
    { unfold build_export_attrs. destruct (if ctx_rs_client ctx then _ else _). rewrite Hn. by eexists. }
    eexists. split; [done|]. exists accepted, a. split; [exact Hp|]. by split.
Qed.

(** C21. A path sent to an external peer that is not a route-server client
    carries no LOCAL_PREF, ORIGINATOR_ID or CLUSTER_LIST, no non-transitive
    extended community and no unknown attribute other than optional transitive
    ones; its AS path is the path's own with the local number in front.  (Its
    MED and its link-state attribute are not covered.) *)
Theorem ebgp_export_clean is_match checks (key : RouteKey) (path : Path) (ctx : PeerExportContext) (out : Path) :
  compute_export_path is_match checks key path ctx = Some (Some out) ->
  ctx_is_ebgp ctx = true -> ctx_rs_client ctx = false ->
  pa_local_pref (attrs out) = None /\ pa_originator_id (attrs out) = None /\ pa_cluster_list (attrs out) = [] /\
  Forall (fun c => is_transitive c = true) (pa_extended_communities (attrs out)) /\
  Forall (fun a => is_unknown_transitive a = true) (pa_unknown_attrs (attrs out)) /\
  path_numbers (pa_as_path (attrs out)) = ctx_local_asn ctx :: path_numbers (pa_as_path (attrs path)) /\
  as_path_length out = S (as_path_length path).
Proof.
  intros E He Hrs. pose proof (export_ids _ _ _ _ _ _ E) as (_ & _ & _ & _ & _ & Hap).
  apply compute_export_spec in E as (_ & accepted & a & _ & Ha & ->). cbn [attrs] in *.
  assert (ctx_is_ibgp ctx = false) as Hi by (unfold ctx_is_ebgp, ctx_is_ibgp in *; by destruct (_ =? _)).
  assert (path_numbers (pa_as_path a) = ctx_local_asn ctx :: path_numbers (pa_as_path (attrs path)) /\
    sum_list_with segment_length (pa_as_path a) = S (as_path_length path)) as [Hn Hl].
  { rewrite Hap. unfold build_export_as_path, as_path_length. rewrite Hrs, He.
    destruct (is_local (path_source path)); cbn [andb]; [|by rewrite prepend_numbers, prepend_length].
    case_bool_decide as Ea; [by rewrite Ea|by rewrite prepend_numbers, prepend_length]. }
  unfold build_export_attrs in Ha. rewrite Hrs, Hi in Ha. unfold build_export_rr_attrs in Ha. cbn [andb negb] in Ha.
  destruct (build_export_next_hop accepted ctx key); [|done]. cbn [mbind option_bind] in Ha. injection Ha as <-.
  cbn [pa_local_pref pa_originator_id pa_cluster_list pa_extended_communities pa_unknown_attrs pa_as_path] in *.
  unfold build_export_local_pref, build_export_extended_communities, build_export_unknown_attrs.
  unfold ctx_is_ibgp in Hi. rewrite Hi, Hrs, He.
  split_and!; try done; apply Forall_forall; by intros x [Hx _]%list_elem_of_filter.
Qed.

(** Towards an internal peer the AS path and LOCAL_PREF stay; a reflected
    path carries the router that originated it and our cluster in front of the
    clusters it crossed. *)
Theorem ibgp_export_reflects is_match checks (key : RouteKey) (path : Path) (ctx : PeerExportContext) (out : Path) :
  compute_export_path is_match checks key path ctx = Some (Some out) ->
  ctx_is_ibgp ctx = true -> ctx_rs_client ctx = false ->
  pa_as_path (attrs out) = pa_as_path (attrs path) /\
  if is_ibgp (path_source path) then
    pa_cluster_list (attrs out) = ctx_cluster_id ctx :: pa_cluster_list (attrs path) /\
    pa_originator_id (attrs out) =
      match pa_originator_id (attrs path) with Some id => Some id | None => source_bgp_id (path_source path) end /\
    is_Some (pa_originator_id (attrs out))
  else pa_originator_id (attrs out) = pa_originator_id (attrs path).
Proof.
  intros E Hi Hrs. pose proof (export_ids _ _ _ _ _ _ E) as (_ & _ & _ & _ & _ & Hap).
  assert (ctx_is_ebgp ctx = false) as He by (unfold ctx_is_ebgp, ctx_is_ibgp in *; by destruct (_ =? _)).
  split.
  { rewrite Hap. unfold build_export_as_path. rewrite Hrs, He. destruct (is_local (path_source path)); [|done].
    cbn [andb]. case_bool_decide as Ea; [by rewrite Ea|done]. }
  clear Hap. apply compute_export_spec in E as (_ & accepted & a & Hp & Ha & ->). cbn [attrs] in *.
  rewrite evaluate_policies_eq in Hp. assert (fixed_part accepted = fixed_part path) as Hf.
  { apply first_match_spec in Hp as [(pre & s & post & _ & _ & _ & E)|(_ & [=] & _)].
    pose proof (actions_fixed (actions s) true path) as Hf. by rewrite E in Hf. }
  unfold fixed_part, fixed_attrs in Hf. injection Hf as _ _ _ Hs _ _ _ Hor Hcl _ _ _ _.
  unfold build_export_attrs, build_export_rr_attrs in Ha. rewrite Hrs, Hi, Hs, Hor, Hcl in Ha. unfold path_source.
  cbn [andb] in Ha. destruct (is_ibgp (pa_source (attrs path))) eqn:Es; cbn [orb negb] in Ha.
  - destruct (build_export_next_hop accepted ctx key); [|done]. cbn [mbind option_bind] in Ha. injection Ha as <-.
    cbn [pa_cluster_list pa_originator_id]. split; [done|]. split; [done|].
    destruct (pa_originator_id (attrs path)); [done|]. by destruct (pa_source (attrs path)).
  - destruct (bool_decide (is_Some (pa_originator_id (attrs path)))) eqn:Eo; cbn [negb] in Ha;
      (destruct (build_export_next_hop accepted ctx key); [|done]); cbn [mbind option_bind] in Ha; injection Ha as <-;
      cbn [pa_originator_id]; [done|]. apply bool_decide_eq_false in Eo. by apply eq_None_not_Some in Eo.
Qed.

(** Prepending our number keeps the length octets of the segments right
    exactly when the first segment is not a sequence of 255 numbers: that one
    becomes a sequence of 256 numbers announced as empty, which is not what
    the peer reads back. *)
Theorem prepend_overflow (as_path : AsPath) (asn : Z) :
  Forall counted as_path -> Z.of_nat (first_sequence_len as_path) < 256 ->
  (Forall counted (prepend_local_asn as_path asn) <-> Z.of_nat (first_sequence_len as_path) < 255).
Proof. apply prepend_counted. Qed.

(** Batching announces every route once, with its own attributes and
    identifier, next to routes of its own family only; two batches differ in
    family, attributes or identifier. *)
Theorem batches_exact `{HashOrder} (to_announce : list RoutePath) :
  Forall batch_ok (batch_announcements to_announce) /\
  concat (map batch_announced (batch_announcements to_announce)) ≡ₚ map announced to_announce /\
  NoDup (map key_of_batch (batch_announcements to_announce)).
Proof. apply batches_ok. Qed.

(** Sending the table in chunks reports the routes that one computation
    over the whole table gives. *)
Theorem chunked_export_is_whole `{HashOrder} is_match checks (routes : list RoutePath) (ctx : PeerExportContext)
    (format : MessageFormat) sent messages :
  export_all_routes_to_peer is_match checks routes ctx format = Some (sent, messages) ->
  compute_routes_for_peer is_match checks routes ctx = Some sent.
Proof.
  intros E%export_chunks_sent. rewrite chunks_whole in E; [done| |done]. unfold CHUNK_SIZE. lia.
Qed.

(** ** Witnesses *)
Definition demo_key : RouteKey := KPrefix (V4 (mkV4 0x0A000000 8)).

(** A router of AS 65000 towards a peer: permissive policies for IPv4. *)
Definition demo_context (peer peer_asn : Z) (rr_client : bool) (add_path : Z) : PeerExportContext :=
  mkExport (IpV4 peer) 65000 peer_asn (IpV4 0xC0A80001) None {[ ipv4_unicast := [permit_all] ]} rr_client false 42
    (mkFormat true add_path false false) ∅ false false caps_default false.

Definition demo_internal : Path :=
  mkPath (Some 3) None
    (mkAttrs IGP [mkSegment AsSequence 1 [65001]] (NhIpv4 9) (Ibgp (IpV4 9) 9 false) (Some 200) None false None
       [7] [0x4300000000000001; 5] [] [] None [1] None) false NotFound.

Lemma exported_iff_witness :
  exportable demo_internal (demo_context 7 65002 false 0) /\ ~ exportable demo_internal (demo_context 8 65000 false 0).
Proof.
  split.
  - apply (exported_iff (fun _ _ => false) true demo_key). eexists. reflexivity.
  - intros He. assert (exists out, compute_export_path (fun _ _ => false) true demo_key demo_internal (demo_context 8 65000 false 0) = Some (Some out)) as [out [=]].
    apply exported_iff. split; [done|]. by do 2 eexists.
Defined.

Lemma ebgp_export_clean_witness :
  exists out, compute_export_path (fun _ _ => false) true demo_key demo_internal (demo_context 7 65002 false 0) = Some (Some out) /\
    pa_extended_communities (attrs out) = [5] /\ path_numbers (pa_as_path (attrs out)) = [65000; 65001].
Proof.
  eexists. split; [reflexivity|]. split; [reflexivity|].
  destruct (ebgp_export_clean (fun _ _ => false) true demo_key demo_internal (demo_context 7 65002 false 0) _ eq_refl eq_refl eq_refl)
    as (_ & _ & _ & _ & _ & E & _). exact E.
Defined.

Lemma ibgp_export_reflects_witness :
  exists out, compute_export_path (fun _ _ => false) true demo_key demo_internal (demo_context 8 65000 true 0) = Some (Some out) /\
    pa_cluster_list (attrs out) = [42; 1] /\ pa_originator_id (attrs out) = Some 9.
Proof.
  eexists. split; [reflexivity|].
  destruct (ibgp_export_reflects (fun _ _ => false) true demo_key demo_internal (demo_context 8 65000 true 0) _ eq_refl eq_refl eq_refl)
    as (_ & E1 & E2 & _). split; [exact E1|exact E2].
Defined.

Lemma prepend_overflow_witness :
  let full := [mkSegment AsSequence 255 (replicate 255 7)] in
  ~ Forall counted (prepend_local_asn full 65000) /\ map segment_len (prepend_local_asn full 65000) = [0].
Proof.
  split; [|reflexivity]. intros Hc%prepend_overflow; [by vm_compute in Hc| |by vm_compute]. by apply Forall_singleton.
Defined.

Definition demo_sent : option (list RoutePath * list (list Z)) :=
  let route := mkRoutePath demo_key (arc_new demo_internal) in
  let ctx := demo_context 7 65002 false 0 in
  export_all_routes_to_peer (H := insertion_order) (fun _ _ => false) true [route; route] ctx (ctx_send_format ctx).

Lemma chunked_export_is_whole_witness :
  match demo_sent with
  | Some (sent, messages) =>
      let route := mkRoutePath demo_key (arc_new demo_internal) in
      compute_routes_for_peer (fun _ _ => false) true [route; route] (demo_context 7 65002 false 0) = Some sent /\
      map length messages = [69%nat]
  | None => False
  end.
Proof.
  destruct demo_sent as [[sent messages]|] eqn:E; [|by vm_compute in E]. split.
  - exact (chunked_export_is_whole (H := insertion_order) (fun _ _ => false) true _ _ _ sent messages E).
  - vm_compute in E. injection E as <- <-. reflexivity.
Defined.
