(* ===== verification/PeerState.v ===== *)
(** * The state of a peer task and its effects ([Peer], [TcpConnection],
    [PeerStatistics], [GracefulRestartState] and [PeerError] of
    [bgpgg/src/peer/mod.rs], the operations a peer sends to the server from
    [bgpgg/src/server/ops.rs])

    A connection is a handle [Conn]; what the task does with it, with the
    server channel and with its timers is appended to a log of [Output]s, in
    order.  Whether a write succeeds is decided outside the program: the
    functions of [Peer.v] take the result of the [n]-th logged effect as an
    argument.  A connection that is dropped is closed ([Drop] aborts its read
    task).  Metrics and log messages are left out; counters of [u64] and
    [u32] wrap as in a release build. *)
From S2P Require Import Prelude Wire Net Trie PrefixMap Vrp PathId Notification Nlri BgpLs BgpLsParse Attrs BgpLsAttr OpenMsg Msg Path UpdateCodec UpdateCodecSpec Update PeerCaps Fsm RibTables LocRib.

(** ** Data *)

(** [conn_addrs]: the local address, local port and remote port of the
    socket, when the system can tell. *)
Record Conn := mkConn { conn_id : Z; conn_addrs : option (IpAddr * Z * Z) }.

Record PeerStatistics := mkStats {
  open_sent : Z; keepalive_sent : Z; update_sent : Z; notification_sent : Z;
  open_received : Z; keepalive_received : Z; update_received : Z; notification_received : Z;
  route_refresh_received : Z; route_refresh_sent : Z; adj_rib_in_count : Z;
}.
Definition stats_default : PeerStatistics := mkStats 0 0 0 0 0 0 0 0 0 0 0.
Definition stats_eta (s : PeerStatistics) : PeerStatistics :=
  mkStats (open_sent s) (keepalive_sent s) (update_sent s) (notification_sent s)
    (open_received s) (keepalive_received s) (update_received s) (notification_received s)
    (route_refresh_received s) (route_refresh_sent s) (adj_rib_in_count s).

(** The restart timer is the handle of the task that sleeps. *)
Record GracefulRestartState := mkGrState {
  in_restart : gmap AfiSafi bool;
  restart_timer : option nat;
  eor_received : gset AfiSafi;
  grs_afi_safis : gset AfiSafi;
  eor_sent : gset AfiSafi;
  loc_rib_received : gmap AfiSafi bool;
}.
Definition grs_eta (s : GracefulRestartState) : GracefulRestartState :=
  mkGrState (in_restart s) (restart_timer s) (eor_received s) (grs_afi_safis s) (eor_sent s) (loc_rib_received s).

Inductive AdminState := AdminUp | AdminDown | PrefixLimitReached.

(** What a peer sends to the server; [peer_ip] is in the log entry. *)
Inductive ServerOp :=
  | PeerStateChanged (state : BgpState)
  | PeerHandshakeComplete (asn : Z)
  | PeerConnectionInfo (local_address : IpAddr) (local_port remote_port : Z)
      (sent_open received_open : OpenMessage) (negotiated_capabilities : PeerCapabilities)
  | PeerUpdate (routes : list PendingRoute)
  | PeerDisconnected (reason : PeerDownReason) (gr_afi_safis : list AfiSafi)
  | SetAdminState (state : AdminState)
  | SoRouteRefresh (af : Afi) (sf : Safi)
  | SoRouteRefreshBoRR (af : Afi) (sf : Safi)
  | SoRouteRefreshEoRR (af : Afi) (sf : Safi)
  | GracefulRestartComplete (a : AfiSafi).

(** [OSpawnRestartTimer]: a task that sleeps for so many seconds, then sends
    [GracefulRestartTimerExpired] with the LLGR families. *)
Inductive Output :=
  | OWrite (conn : Z) (bytes : list Z) (ok : bool)
  | OClose (conn : Z)
  | OServer (peer_ip : IpAddr) (op : ServerOp)
  | OSpawnRestartTimer (handle : nat) (secs : Z) (llgr_afi_safis : list (AfiSafi * Z))
  | OAbort (handle : nat).

(** The texts of the I/O errors are not kept. *)
Inductive IoErrorKind := NotConnected | WriteFailed | InvalidData | ConnectionAborted | OtherIo.
Inductive PeerError :=
  | PeFsmError | PeAutomaticStop (subcode : CeaseSubcode) | PeUpdateError | PeIoError (k : IoErrorKind).

Record Peer := mkPeer {
  addr : IpAddr;
  fsm : Fsm;
  asn : option Z;
  bgp_id : option Z;
  session_type : option SessionType;
  statistics : PeerStatistics;
  config : PeerConfig;
  conn : option Conn;
  conn_pending : option Conn;
  conn_dialed : bool;
  local_config : LocalConfig;
  consecutive_down_count : Z;
  capabilities_suppressed : bool;
  manually_stopped : bool;
  established_at : option Z;
  last_update_sent : option Z;
  pending_updates : list (list Z);
  mrai_interval : Z;
  sent_open : option OpenMessage;
  received_open : option OpenMessage;
  capabilities : PeerCapabilities;
  gr_state : option GracefulRestartState;
  pending_routes : list PendingRoute;
  convergence_reported : gset AfiSafi;
  log : list Output;
}.
Definition peer_eta (p : Peer) : Peer :=
  mkPeer (addr p) (fsm p) (asn p) (bgp_id p) (session_type p) (statistics p) (config p) (conn p)
    (conn_pending p) (conn_dialed p) (local_config p) (consecutive_down_count p)
    (capabilities_suppressed p) (manually_stopped p) (established_at p) (last_update_sent p)
    (pending_updates p) (mrai_interval p) (sent_open p) (received_open p) (capabilities p)
    (gr_state p) (pending_routes p) (convergence_reported p) (log p).

Definition with_stat_open_sent v s := ltac:(update_field stats_eta open_sent v s).
Definition with_stat_keepalive_sent v s := ltac:(update_field stats_eta keepalive_sent v s).
Definition with_stat_update_sent v s := ltac:(update_field stats_eta update_sent v s).
Definition with_stat_notification_sent v s := ltac:(update_field stats_eta notification_sent v s).
Definition with_stat_open_received v s := ltac:(update_field stats_eta open_received v s).
Definition with_stat_keepalive_received v s := ltac:(update_field stats_eta keepalive_received v s).
Definition with_stat_update_received v s := ltac:(update_field stats_eta update_received v s).
Definition with_stat_notification_received v s := ltac:(update_field stats_eta notification_received v s).
Definition with_stat_route_refresh_received v s := ltac:(update_field stats_eta route_refresh_received v s).
Definition with_stat_route_refresh_sent v s := ltac:(update_field stats_eta route_refresh_sent v s).

Definition with_in_restart v s := ltac:(update_field grs_eta in_restart v s).
Definition with_restart_timer v s := ltac:(update_field grs_eta restart_timer v s).
Definition with_eor_received v s := ltac:(update_field grs_eta eor_received v s).
Definition with_eor_sent v s := ltac:(update_field grs_eta eor_sent v s).
Definition with_loc_rib_received v s := ltac:(update_field grs_eta loc_rib_received v s).

Definition with_fsm v p := ltac:(update_field peer_eta fsm v p).
Definition with_asn v p := ltac:(update_field peer_eta asn v p).
Definition with_bgp_id v p := ltac:(update_field peer_eta bgp_id v p).
Definition with_session_type v p := ltac:(update_field peer_eta session_type v p).
Definition with_statistics v p := ltac:(update_field peer_eta statistics v p).
Definition with_conn v p := ltac:(update_field peer_eta conn v p).
Definition with_conn_pending v p := ltac:(update_field peer_eta conn_pending v p).
Definition with_conn_dialed v p := ltac:(update_field peer_eta conn_dialed v p).
Definition with_consecutive_down_count v p := ltac:(update_field peer_eta consecutive_down_count v p).
Definition with_capabilities_suppressed v p := ltac:(update_field peer_eta capabilities_suppressed v p).
Definition with_manually_stopped v p := ltac:(update_field peer_eta manually_stopped v p).
Definition with_established_at v p := ltac:(update_field peer_eta established_at v p).
Definition with_last_update_sent v p := ltac:(update_field peer_eta last_update_sent v p).
Definition with_pending_updates v p := ltac:(update_field peer_eta pending_updates v p).
Definition with_sent_open v p := ltac:(update_field peer_eta sent_open v p).
Definition with_received_open v p := ltac:(update_field peer_eta received_open v p).
Definition with_capabilities v p := ltac:(update_field peer_eta capabilities v p).
Definition with_gr_state v p := ltac:(update_field peer_eta gr_state v p).
Definition with_pending_routes v p := ltac:(update_field peer_eta pending_routes v p).
Definition with_convergence_reported v p := ltac:(update_field peer_eta convergence_reported v p).
Definition with_log v p := ltac:(update_field peer_eta log v p).

(** * Incoming routes ([bgpgg/src/peer/incoming.rs])

    The route changes of an UPDATE, as the peer's task hands them to the
    server.  [next] is the next address the allocator gives out: each
    announced route has a path of its own, except that nothing compares the
    addresses before the Loc-RIB does.  Log calls are left out. *)

Definition process_withdrawals (update_msg : UpdateMessage) : list Withdrawal :=
  map (fun entry => (KPrefix (nlri_prefix entry), nlri_path_id entry)) (um_withdrawn_routes update_msg) ++
  map (fun ls_nlri => (KLinkState ls_nlri, None)) (um_ls_withdrawn_list update_msg).

Definition set_remote_path_id (id : option Z) (p : Path) : Path :=
  mkPath (local_path_id p) id (attrs p) (stale p) (rpki_state p).

(** The routes of a list, each with a path at an address of its own. *)
Fixpoint announce_all {A} (route : A -> RouteKey * Path) (next : Z) (l : list A) : list RoutePath * Z :=
  match l with
  | [] => ([], next)
  | x :: rest =>
      let '(key, path) := route x in
      let '(announced, next') := announce_all route (next + 1) rest in
      (mkRoutePath key (mkRef next path) :: announced, next')
  end.

Definition process_announcements (p : Peer) (next : Z) (update_msg : UpdateMessage) : list RoutePath * Z :=
  match bgp_id p with
  | None => ([], next)
  | Some peer_bgp_id =>
      let t := default SEbgp (session_type p) in
      let source := source_from_session t (addr p) peer_bgp_id (cfg_rr_client (config p)) in
      let peer_supports_4byte_asn := supports_four_octet_asn (capabilities p) in
      match from_update_msg update_msg source peer_supports_4byte_asn with
      | None => ([], next)
      | Some path =>
          let '(announced, next) :=
            announce_all (fun entry => (KPrefix (nlri_prefix entry), set_remote_path_id (nlri_path_id entry) path))
              next (um_nlri_list update_msg) in
          let '(ls_announced, next) :=
            announce_all (fun ls_nlri => (KLinkState ls_nlri, path)) next (um_ls_nlri_list update_msg) in
          (announced ++ ls_announced, next)
      end
  end.

(** [handle_update]: the announced and the withdrawn routes. *)
Definition handle_update (p : Peer) (next : Z) (update_msg : UpdateMessage)
    : list RoutePath * list Withdrawal * Z :=
  let has_as4_path := bool_decide (is_Some (um_as4_path update_msg)) in
  let has_as4_aggregator := bool_decide (is_Some (um_as4_aggregator update_msg)) in
  let update_msg :=
    if supports_four_octet_asn (capabilities p) && (has_as4_path || has_as4_aggregator)
    then strip_as4_attributes update_msg else update_msg in
  let withdrawn := process_withdrawals update_msg in
  let '(announced, next) := process_announcements p next update_msg in
  (announced, withdrawn, next).

(** The routes of an update in the Adj-RIB-In, as the server stores them: first
    what was withdrawn, then what was announced. *)
Definition store_routes (rib : AdjRibIn) (announced : list RoutePath) (withdrawn : list Withdrawal) : AdjRibIn :=
  fold_left (fun rib rp => ai_add_route rib (rp_key rp) (rp_path rp)) announced
    (fold_left (fun rib w => ai_remove_route rib w.1 w.2) withdrawn rib).
