(* ===== verification/Peer.v ===== *)
(** * The peer task ([bgpgg/src/peer/mod.rs], [states.rs], [state_idle.rs],
    [state_connect.rs], [state_active.rs], [state_opensent.rs],
    [state_openconfirm.rs], [state_established.rs], [messages.rs])

    The methods of [Peer] as functions of a state and error monad: the state
    survives an error, as it does in the code.  [now] is the clock and
    [write_ok n] says whether a write succeeds when [n] effects are in the log.
    One instant stands for all the clock readings of one event. *)
From S2P Require Import Prelude Wire Net Notification Nlri BgpLs Attrs OpenMsg Msg Path PeerCaps Fsm RibTables LocRib PeerState.

(** ** The monad *)
Definition M (A : Type) : Type := Peer -> Peer * outcome PeerError A.
#[export] Instance M_ret : MRet M := fun A a p => (p, Ok a).
#[export] Instance M_bind : MBind M := fun A B f m p =>
  match m p with
  | (p, Ok a) => f a p
  | (p, Err e) => (p, Err e)
  | (p, Panic) => (p, Panic)
  end.
Definition throw {A} (e : PeerError) : M A := fun p => (p, Err e).
Definition read {A} (f : Peer -> A) : M A := fun p => (p, Ok (f p)).
Definition modify (f : Peer -> Peer) : M () := fun p => (f p, Ok ()).
Definition emit (o : Output) : M () := modify (fun p => with_log (log p ++ [o]) p).
(** [let _ = m] and [if let Err(e) = m { handler }]. *)
Definition ignore (m : M ()) : M () := fun p =>
  match m p with (p, Err _) => (p, Ok ()) | r => r end.
Definition on_error (m handler : M ()) : M () := fun p =>
  match m p with (p, Err _) => handler p | r => r end.

Definition incr64 (n : Z) : Z := (n + 1) mod 2 ^ 64.
Definition incr32 (n : Z) : Z := (n + 1) mod 2 ^ 32.
Definition update_timers (f : FsmTimers -> FsmTimers) : M () :=
  modify (fun p => with_fsm (with_timers (f (timers (fsm p))) (fsm p)) p).
Definition update_fsm (f : Fsm -> Fsm) : M () := modify (fun p => with_fsm (f (fsm p)) p).
Definition update_stats (f : PeerStatistics -> PeerStatistics) : M () :=
  modify (fun p => with_statistics (f (statistics p)) p).
Definition send_server (op : ServerOp) : M () :=
  peer_ip ← read addr; emit (OServer peer_ip op).

(** Assigning a connection field drops, and so closes, the connection that
    was there. *)
Definition close (c : option Conn) : M () :=
  match c with Some c => emit (OClose (conn_id c)) | None => mret () end.
Definition set_conn (c : option Conn) : M () :=
  old ← read conn; _ ← modify (with_conn c); close old.
Definition set_conn_pending (c : option Conn) : M () :=
  old ← read conn_pending; _ ← modify (with_conn_pending c); close old.

Definition MAX_IDLE_HOLD_TIME : Z := from_secs 120.
Definition INITIAL_HOLD_TIME : Z := from_secs 240.

Definition notification_bytes (n : NotificationMessage) : list Z :=
  serialize MtNotification (notification_to_bytes n).
Definition cease (c : CeaseSubcode) : NotificationMessage := mkNotification (ECease c) [].
Definition fsm_error_notification : NotificationMessage := mkNotification EFiniteStateMachine [].

Section peer.
Variable now : Z.
Variable write_ok : nat -> bool.

(** ** Sending *)

(** [conn.tx.write_all(bytes).await?], where [conn] must be there. *)
Definition conn_write (bytes : list Z) : M () := fun p =>
  match conn p with
  | None => (p, Err (PeIoError NotConnected))
  | Some c =>
      let ok := write_ok (length (log p)) in
      (with_log (log p ++ [OWrite (conn_id c) bytes ok]) p,
       if ok then Ok () else Err (PeIoError WriteFailed))
  end.

Definition can_send_notification (p : Peer) : bool :=
  bool_decide (is_Some (conn p)) &&
  (cfg_send_notification_without_open (config p) || (0 <? open_sent (statistics p))).

Definition send_notification (n : NotificationMessage) : M () :=
  can ← read can_send_notification;
  if negb can then mret ()
  else
    _ ← conn_write (notification_bytes n);
    update_stats (fun s => with_stat_notification_sent (incr64 (notification_sent s)) s).

Definition send_open : M () :=
  open_msg ← read (fun p => build_open_message (capabilities_suppressed p) (local_config p) (config p));
  _ ← conn_write (serialize MtOpen (open_to_bytes open_msg));
  _ ← modify (with_sent_open (Some open_msg));
  update_stats (fun s => with_stat_open_sent (incr64 (open_sent s)) s).

Definition hold_time_nonzero (p : Peer) : bool := 0 <? as_secs (hold_time (timers (fsm p))).

Definition send_keepalive : M () :=
  _ ← conn_write (serialize MtKeepalive keepalive_to_bytes);
  _ ← update_stats (fun s => with_stat_keepalive_sent (incr64 (keepalive_sent s)) s);
  nonzero ← read hold_time_nonzero;
  if nonzero : bool then update_timers (start_keepalive_timer now) else mret ().

Definition send_update (update_bytes : list Z) : M () :=
  _ ← conn_write update_bytes;
  _ ← update_stats (fun s => with_stat_update_sent (incr64 (update_sent s)) s);
  nonzero ← read hold_time_nonzero;
  if nonzero : bool then update_timers (reset_keepalive_timer now) else mret ().

(** ** Graceful restart *)
Definition should_preserve_routes_with_gr (p : Peer) (reason : PeerDownReason) : bool :=
  match reason with
  | RemoteNotification _ | LocalNotification _ => false
  | _ =>
      if bool_decide (fsm_state (fsm p) <> Established) then false
      else match graceful_restart (capabilities p) with
           | Some gr_cap =>
               if bool_decide (gr_afi_safi_list gr_cap = []) then false
               else if 0 <? gr_restart_time gr_cap then true
               else match llgr (capabilities p) with
                    | Some l => existsb (fun e => 0 <? ll_stale_time e) (ll_entries l)
                    | None => false
                    end
           | None => false
           end
  end.

Definition start_gr_restart_timer : M () :=
  caps ← read capabilities;
  match graceful_restart caps with
  | None => mret ()
  | Some gr_cap =>
      let gr_set : gset AfiSafi := list_to_set (gr_afi_safis gr_cap) in
      if bool_decide (gr_set = ∅) then mret ()
      else
        let llgr_afi_safis := match llgr caps with
                              | Some l => (fun e => (ll_afi_safi e, ll_stale_time e)) <$> ll_entries l
                              | None => []
                              end in
        state ← read gr_state;
        _ ← match state with
            | Some st => match restart_timer st with Some h => emit (OAbort h) | None => mret () end
            | None => mret ()
            end;
        handle ← read (fun p => length (log p));
        _ ← emit (OSpawnRestartTimer handle (gr_restart_time gr_cap) llgr_afi_safis);
        modify (with_gr_state (Some (mkGrState (gset_to_gmap true gr_set) (Some handle) ∅ gr_set ∅ ∅)))
  end.

(** ** Disconnecting *)
Definition is_collision_reason (reason : PeerDownReason) : bool :=
  match reason with
  | RemoteNotification n =>
      match n_error n with ECease (ConnectionRejected | ConnectionCollisionResolution) => true | _ => false end
  | _ => false
  end.

Definition disconnect (apply_damping : bool) (reason : PeerDownReason) : M () :=
  had_connection ← read (fun p => bool_decide (is_Some (conn p)));
  gr ← read (fun p => if should_preserve_routes_with_gr p reason then caps_gr_afi_safis (capabilities p) else []);
  _ ← set_conn None;
  _ ← set_conn_pending None;
  _ ← modify (with_conn_dialed false);
  _ ← modify (with_established_at None);
  _ ← update_timers stop_hold_timer;
  _ ← update_timers stop_keepalive_timer;
  _ ← update_timers stop_delay_open_timer;
  if had_connection : bool then
    _ ← (if apply_damping && negb (is_collision_reason reason) then
           modify (fun p => with_consecutive_down_count (incr32 (consecutive_down_count p)) p)
         else mret ());
    _ ← (if bool_decide (gr = []) then mret () else start_gr_restart_timer);
    send_server (PeerDisconnected reason gr)
  else mret ().

(** [get_idle_hold_time]: [Duration * u32] panics when it overflows. *)
Definition get_idle_hold_time (p : Peer) : outcome PeerError (option Z) :=
  match cfg_idle_hold_time_secs (config p) with
  | None => Ok None
  | Some secs =>
      if negb (cfg_damp_peer_oscillations (config p)) || (consecutive_down_count p =? 0) then Ok (Some (from_secs secs))
      else
        let backoff := secs * 2 ^ Z.min (consecutive_down_count p) 6 in
        if 2 ^ 64 <=? backoff then Panic else Ok (Some (Z.min (from_secs backoff) MAX_IDLE_HOLD_TIME))
  end.

Definition notify_state_change : M () :=
  state ← read (fun p => fsm_state (fsm p)); send_server (PeerStateChanged state).

(** ** The OPEN *)

(** [return Err(io::Error::new(InvalidData, ..))] after a NOTIFICATION. *)
Definition reject_open {A} (e : OpenMessageError) (data : list Z) : M A :=
  _ ← send_notification (mkNotification (EOpenMessage e) data);
  throw (PeIoError InvalidData).

Definition validate_peer_bgp_id (params : BgpOpenParams) : M () :=
  lc ← read local_config;
  if (peer_asn params =? lc_asn lc) && (peer_bgp_id params =? lc_bgp_id lc)
  then reject_open BadBgpIdentifier []
  else mret ().

Definition validate_peer_asn (params : BgpOpenParams) : M () :=
  expected ← read (fun p => cfg_asn (config p));
  match expected with
  | Some expected_asn => if peer_asn params =? expected_asn then mret () else reject_open BadPeerAs []
  | None => mret ()
  end.

Definition enter_open_confirm (params : BgpOpenParams) : M () :=
  _ ← validate_peer_bgp_id params;
  _ ← validate_peer_asn params;
  _ ← modify (with_asn (Some (peer_asn params)));
  _ ← modify (with_session_type (Some (if peer_asn params =? local_asn params then SIbgp else SEbgp)));
  cfg ← read config;
  let peer_caps := peer_capabilities params in
  let local_afi_safis := advertised_afi_safis cfg in
  let negotiated := negotiate_multiprotocol local_afi_safis (multiprotocol peer_caps) in
  _ ← (if bool_decide (negotiated = ∅) && negb (bool_decide (multiprotocol peer_caps = ∅)) then
         reject_open UnsupportedCapability (concat ((fun a => cap_to_bytes (new_multiprotocol a)) <$> local_afi_safis))
       else mret ());
  _ ← modify (with_capabilities (negotiate cfg peer_caps));
  _ ← update_fsm (set_graceful_restart_negotiated (bool_decide (is_Some (graceful_restart peer_caps))));
  lc ← read local_config;
  _ ← (if (MAX_2BYTE_ASN <? lc_asn lc) && bool_decide (four_octet_asn peer_caps = None)
       then reject_open UnsupportedOptionalParameter [] else mret ());
  let hold := Z.min (local_hold_time params) (peer_hold_time params) in
  _ ← update_timers (set_negotiated_hold_time hold);
  _ ← send_keepalive;
  _ ← (if negb (hold =? 0) then update_timers (reset_hold_timer now)
       else _ ← update_timers stop_keepalive_timer; update_timers stop_hold_timer);
  send_server (PeerHandshakeComplete (peer_asn params)).

(** ** Shared transition actions *)
Definition stop_session_timers : M () :=
  _ ← update_timers stop_hold_timer; update_timers stop_keepalive_timer.

Definition transition_to_idle_on_error (reason : PeerDownReason) : M () :=
  _ ← disconnect true reason;
  _ ← update_timers stop_connect_retry;
  _ ← update_fsm increment_connect_retry_counter;
  stop_session_timers.

Definition handle_manual_stop : M () :=
  _ ← modify (with_manually_stopped true);
  let notif := cease AdministrativeShutdown in
  _ ← ignore (send_notification notif);
  _ ← disconnect true (LocalNotification notif);
  _ ← update_timers stop_connect_retry;
  _ ← update_fsm reset_connect_retry_counter;
  stop_session_timers.

Definition admin_state_for (subcode : CeaseSubcode) : AdminState :=
  match subcode with MaxPrefixesReached => PrefixLimitReached | _ => AdminDown end.

Definition handle_automatic_stop (subcode : CeaseSubcode) : M () :=
  let notif := cease subcode in
  _ ← ignore (send_notification notif);
  _ ← disconnect true (LocalNotification notif);
  _ ← update_timers stop_connect_retry;
  _ ← update_fsm increment_connect_retry_counter;
  _ ← stop_session_timers;
  _ ← send_server (SetAdminState (admin_state_for subcode));
  throw (PeAutomaticStop subcode).

Definition handle_hold_timer_expires : M () :=
  let notif := mkNotification EHoldTimerExpired [] in
  _ ← ignore (send_notification notif);
  _ ← disconnect true (LocalNotification notif);
  _ ← update_timers stop_connect_retry;
  _ ← update_fsm increment_connect_retry_counter;
  stop_session_timers.

Definition handle_bgp_message_error (notif : NotificationMessage) (in_session_state : bool) : M () :=
  _ ← ignore (send_notification notif);
  _ ← disconnect true (LocalNotification notif);
  _ ← update_timers stop_connect_retry;
  _ ← update_fsm increment_connect_retry_counter;
  if in_session_state then stop_session_timers else mret ().

Definition handle_fsm_error (in_session : bool) : M () :=
  _ ← ignore (send_notification fsm_error_notification);
  _ ← disconnect true (LocalNotification fsm_error_notification);
  _ ← update_timers stop_connect_retry;
  _ ← update_fsm increment_connect_retry_counter;
  _ ← (if in_session then stop_session_timers else mret ());
  throw PeFsmError.

(** ** Transition handlers, one per state *)
Definition handle_idle_transitions (new_state : BgpState) (event : FsmEvent) : M () :=
  match new_state with
  | Connect | Active =>
      _ ← update_fsm reset_connect_retry_counter; update_timers (start_connect_retry now)
  | _ => mret ()
  end.

Definition stop_running_timers : M () :=
  t ← read (fun p => timers (fsm p));
  _ ← (if bool_decide (is_Some (connect_retry_started t)) then update_timers stop_connect_retry else mret ());
  if delay_open_timer_running t then update_timers stop_delay_open_timer else mret ().

(** Events 21 and 22, 24, 25 and the OPEN under DelayOpen: the same lines in
    the Connect and the Active handlers. *)
Definition message_error_before_open (notif : NotificationMessage) : M () :=
  _ ← ignore (send_notification notif);
  _ ← update_timers stop_connect_retry;
  _ ← update_timers stop_delay_open_timer;
  _ ← disconnect true RemoteNoNotification;
  update_fsm increment_connect_retry_counter.

Definition version_error_before_open (notif : NotificationMessage) : M () :=
  _ ← update_timers stop_connect_retry;
  delay_open_was_running ← read (fun p => delay_open_timer_running (timers (fsm p)));
  _ ← update_timers stop_delay_open_timer;
  _ ← disconnect (negb delay_open_was_running) (RemoteNotification notif);
  if negb delay_open_was_running then update_fsm increment_connect_retry_counter else mret ().

Definition notification_before_open (notif : NotificationMessage) : M () :=
  _ ← update_timers stop_connect_retry;
  _ ← update_timers stop_delay_open_timer;
  _ ← disconnect true (RemoteNotification notif);
  update_fsm increment_connect_retry_counter.

Definition enter_open_sent : M () :=
  _ ← update_timers (set_initial_hold_time INITIAL_HOLD_TIME);
  _ ← update_timers (start_hold_timer now);
  send_open.

Definition open_under_delay_open (params : BgpOpenParams) : M () :=
  _ ← update_timers stop_connect_retry;
  _ ← update_timers stop_delay_open_timer;
  _ ← send_open;
  enter_open_confirm params.

Definition handle_connect_transitions (new_state : BgpState) (event : FsmEvent) : M () :=
  match new_state, event with
  | Connect, ConnectRetryTimerExpires | Active, TcpConnectionFails =>
      _ ← disconnect true RemoteNoNotification;
      _ ← update_timers stop_delay_open_timer;
      update_timers (start_connect_retry now)
  | Idle, BgpHeaderErr notif | Idle, BgpOpenMsgErr notif => message_error_before_open notif
  | Idle, NotifMsgVerErr notif => version_error_before_open notif
  | Idle, NotifMsg notif => notification_before_open notif
  | Idle, ManualStop =>
      _ ← disconnect true RemoteNoNotification;
      _ ← modify (with_manually_stopped true);
      _ ← update_fsm reset_connect_retry_counter;
      update_timers stop_connect_retry
  | Idle, BgpKeepaliveReceived | Idle, BgpUpdateReceived =>
      _ ← ignore (send_notification fsm_error_notification);
      _ ← stop_running_timers;
      _ ← disconnect true RemoteNoNotification;
      _ ← update_fsm increment_connect_retry_counter;
      throw PeFsmError
  | Idle, AutomaticStop _ | Idle, HoldTimerExpires | Idle, KeepaliveTimerExpires
  | Idle, IdleHoldTimerExpires | Idle, BgpOpenReceived _ | Idle, BgpUpdateMsgErr _ =>
      _ ← stop_running_timers;
      _ ← disconnect true RemoteNoNotification;
      update_fsm increment_connect_retry_counter
  | OpenSent, DelayOpenTimerExpires =>
      _ ← update_timers stop_delay_open_timer; enter_open_sent
  | OpenSent, TcpConnectionConfirmed =>
      _ ← update_timers stop_connect_retry; enter_open_sent
  | OpenConfirm, BgpOpenWithDelayOpenTimer params => open_under_delay_open params
  | _, _ => mret ()
  end.

Definition handle_active_transitions (new_state : BgpState) (event : FsmEvent) : M () :=
  match new_state, event with
  | Connect, ConnectRetryTimerExpires => update_timers (start_connect_retry now)
  | Idle, TcpConnectionFails =>
      _ ← disconnect true RemoteNoNotification;
      _ ← update_timers stop_delay_open_timer;
      _ ← update_timers (start_connect_retry now);
      update_fsm increment_connect_retry_counter
  | Idle, BgpHeaderErr notif | Idle, BgpOpenMsgErr notif => message_error_before_open notif
  | Idle, NotifMsgVerErr notif => version_error_before_open notif
  | Idle, NotifMsg notif => notification_before_open notif
  | Idle, BgpKeepaliveReceived | Idle, BgpUpdateReceived =>
      _ ← ignore (send_notification fsm_error_notification);
      _ ← update_timers stop_connect_retry;
      _ ← disconnect true RemoteNoNotification;
      _ ← update_fsm increment_connect_retry_counter;
      throw PeFsmError
  | Idle, AutomaticStop _ | Idle, HoldTimerExpires | Idle, KeepaliveTimerExpires
  | Idle, IdleHoldTimerExpires | Idle, BgpOpenReceived _ | Idle, BgpUpdateMsgErr _ =>
      _ ← update_timers stop_connect_retry;
      _ ← disconnect true RemoteNoNotification;
      update_fsm increment_connect_retry_counter
  | Idle, ManualStop =>
      notify ← read (fun p => delay_open_timer_running (timers (fsm p)) && cfg_send_notification_without_open (config p));
      _ ← (if notify : bool then ignore (send_notification (cease AdministrativeShutdown)) else mret ());
      _ ← disconnect true RemoteNoNotification;
      _ ← modify (with_manually_stopped true);
      _ ← update_fsm reset_connect_retry_counter;
      _ ← update_timers stop_connect_retry;
      update_timers stop_delay_open_timer
  | OpenSent, DelayOpenTimerExpires =>
      _ ← update_timers stop_connect_retry;
      _ ← update_timers stop_delay_open_timer;
      enter_open_sent
  | OpenSent, TcpConnectionConfirmed =>
      _ ← update_timers stop_connect_retry; enter_open_sent
  | OpenConfirm, BgpOpenWithDelayOpenTimer params => open_under_delay_open params
  | _, _ => mret ()
  end.

Definition handle_opensent_transitions (new_state : BgpState) (event : FsmEvent) : M () :=
  match new_state, event with
  | Idle, ManualStop =>
      _ ← modify (with_manually_stopped true);
      _ ← ignore (send_notification (cease AdministrativeShutdown));
      _ ← disconnect true RemoteNoNotification;
      _ ← update_timers stop_connect_retry;
      _ ← update_fsm reset_connect_retry_counter;
      stop_session_timers
  | Idle, AutomaticStop subcode =>
      _ ← ignore (send_notification (cease subcode));
      _ ← disconnect true RemoteNoNotification;
      _ ← update_timers stop_connect_retry;
      _ ← update_fsm increment_connect_retry_counter;
      _ ← stop_session_timers;
      _ ← send_server (SetAdminState (admin_state_for subcode));
      throw (PeAutomaticStop subcode)
  | Idle, HoldTimerExpires =>
      _ ← ignore (send_notification (mkNotification EHoldTimerExpired []));
      _ ← disconnect true RemoteNoNotification;
      _ ← update_timers stop_connect_retry;
      _ ← update_fsm increment_connect_retry_counter;
      stop_session_timers
  | Active, TcpConnectionFails =>
      _ ← disconnect true RemoteNoNotification;
      update_timers (start_connect_retry now)
  | Idle, BgpHeaderErr notif | Idle, BgpOpenMsgErr notif =>
      _ ← ignore (send_notification notif);
      _ ← disconnect true RemoteNoNotification;
      _ ← update_timers stop_connect_retry;
      update_fsm increment_connect_retry_counter
  | Idle, NotifMsgVerErr notif =>
      _ ← update_timers stop_connect_retry;
      disconnect false (RemoteNotification notif)
  | Idle, NotifMsg notif =>
      _ ← ignore (send_notification fsm_error_notification);
      _ ← update_timers stop_connect_retry;
      _ ← disconnect true (RemoteNotification notif);
      update_fsm increment_connect_retry_counter
  | Idle, ConnectRetryTimerExpires | Idle, KeepaliveTimerExpires | Idle, DelayOpenTimerExpires
  | Idle, IdleHoldTimerExpires | Idle, BgpKeepaliveReceived | Idle, BgpUpdateReceived =>
      _ ← ignore (send_notification fsm_error_notification);
      _ ← update_timers stop_connect_retry;
      _ ← disconnect true RemoteNoNotification;
      _ ← update_fsm increment_connect_retry_counter;
      throw PeFsmError
  | Idle, BgpUpdateMsgErr notif =>
      _ ← ignore (send_notification notif);
      _ ← disconnect true RemoteNoNotification;
      _ ← stop_session_timers;
      throw PeUpdateError
  | OpenConfirm, BgpOpenReceived params | OpenConfirm, BgpOpenWithDelayOpenTimer params =>
      _ ← update_timers stop_delay_open_timer;
      _ ← update_timers stop_connect_retry;
      enter_open_confirm params
  | _, _ => mret ()
  end.

(** The connection information for BMP, sent when it is all there. *)
Definition send_connection_info : M () :=
  info ← read (fun p => (sent_open p, received_open p, conn p, capabilities p));
  match info with
  | (Some sent, Some received, Some c, caps) =>
      match conn_addrs c with
      | Some (local_address, local_port, remote_port) =>
          send_server (PeerConnectionInfo local_address local_port remote_port sent received caps)
      | None => mret ()
      end
  | _ => mret ()
  end.

Definition handle_openconfirm_transitions (new_state : BgpState) (event : FsmEvent) : M () :=
  match new_state, event with
  | Idle, ManualStop => handle_manual_stop
  | Idle, AutomaticStop subcode => handle_automatic_stop subcode
  | Idle, HoldTimerExpires => handle_hold_timer_expires
  | Idle, TcpConnectionFails => transition_to_idle_on_error RemoteNoNotification
  | Idle, NotifMsgVerErr notif =>
      _ ← disconnect false (RemoteNotification notif); update_timers stop_connect_retry
  | Idle, NotifMsg notif => transition_to_idle_on_error (RemoteNotification notif)
  | Idle, BgpHeaderErr notif | Idle, BgpOpenMsgErr notif => handle_bgp_message_error notif true
  | OpenConfirm, KeepaliveTimerExpires => send_keepalive
  | Established, BgpKeepaliveReceived =>
      _ ← update_timers (reset_hold_timer now);
      _ ← modify (with_established_at (Some now));
      _ ← modify (with_convergence_reported ∅);
      send_connection_info
  | Idle, ConnectRetryTimerExpires | Idle, DelayOpenTimerExpires | Idle, IdleHoldTimerExpires
  | Idle, BgpOpenWithDelayOpenTimer _ | Idle, BgpUpdateReceived | Idle, BgpUpdateMsgErr _ =>
      handle_fsm_error true
  | _, _ => mret ()
  end.

(** The damping counter is cleared once the session has lasted a hold time. *)
Definition reset_damping_when_stable : M () :=
  p ← read id;
  match established_at p with
  | Some at_ =>
      if (hold_time (timers (fsm p)) <=? elapsed now at_) && (0 <? consecutive_down_count p)
      then modify (with_consecutive_down_count 0) else mret ()
  | None => mret ()
  end.

Definition handle_established_transitions (new_state : BgpState) (event : FsmEvent) : M () :=
  match new_state, event with
  | Idle, ManualStop => handle_manual_stop
  | Idle, AutomaticStop subcode => handle_automatic_stop subcode
  | Idle, HoldTimerExpires => handle_hold_timer_expires
  | Idle, BgpUpdateMsgErr notif => _ ← handle_bgp_message_error notif true; throw PeUpdateError
  | Idle, TcpConnectionFails => transition_to_idle_on_error RemoteNoNotification
  | Idle, NotifMsg notif | Idle, NotifMsgVerErr notif => transition_to_idle_on_error (RemoteNotification notif)
  | Established, KeepaliveTimerExpires => send_keepalive
  | Established, BgpKeepaliveReceived | Established, BgpUpdateReceived =>
      nonzero ← read hold_time_nonzero;
      _ ← (if nonzero : bool then update_timers (reset_hold_timer now) else mret ());
      reset_damping_when_stable
  | Idle, ConnectRetryTimerExpires | Idle, DelayOpenTimerExpires | Idle, IdleHoldTimerExpires
  | Idle, BgpOpenWithDelayOpenTimer _ | Idle, BgpHeaderErr _ | Idle, BgpOpenMsgErr _ =>
      handle_fsm_error true
  | _, _ => mret ()
  end.

(** ** Events *)
Definition dispatch_transition (old_state new_state : BgpState) (event : FsmEvent) : M () :=
  match old_state with
  | Idle => handle_idle_transitions new_state event
  | Connect => handle_connect_transitions new_state event
  | Active => handle_active_transitions new_state event
  | OpenSent => handle_opensent_transitions new_state event
  | OpenConfirm => handle_openconfirm_transitions new_state event
  | Established => handle_established_transitions new_state event
  end.

(** [self.fsm.handle_event(event)] *)
Definition fsm_handle_event (event : FsmEvent) : M BgpState := fun p =>
  let '(f, new_state) := handle_event (fsm p) event in (with_fsm f p, Ok new_state).

Definition process_event (event : FsmEvent) : M () :=
  old_state ← read (fun p => fsm_state (fsm p));
  new_state ← fsm_handle_event event;
  _ ← dispatch_transition old_state new_state event;
  if bool_decide (old_state <> new_state) then notify_state_change else mret ().

Definition try_process_event (event : FsmEvent) : M () := ignore (process_event event).

(** ** Received messages *)
Definition track_open : M () := update_stats (fun s => with_stat_open_received (incr64 (open_received s)) s).
Definition track_keepalive : M () :=
  update_stats (fun s => with_stat_keepalive_received (incr64 (keepalive_received s)) s).
Definition track_update : M () :=
  update_stats (fun s => with_stat_update_received (incr64 (update_received s)) s).
Definition track_route_refresh : M () :=
  update_stats (fun s => with_stat_route_refresh_received (incr64 (route_refresh_received s)) s).
(** RFC 5492: a peer that does not know capabilities gets none on retry. *)
Definition track_notification (n : NotificationMessage) : M () :=
  _ ← update_stats (fun s => with_stat_notification_received (incr64 (notification_received s)) s);
  match n_error n with
  | EOpenMessage UnsupportedOptionalParameter => modify (with_capabilities_suppressed true)
  | _ => mret ()
  end.

Definition handle_notification_received (n : NotificationMessage) : M () :=
  try_process_event (if is_version_error n then NotifMsgVerErr n else NotifMsg n).

Definition open_params (lc : LocalConfig) (open : OpenMessage) : BgpOpenParams :=
  mkOpenParams (o_asn open) (o_hold_time open) (o_bgp_identifier open) (lc_asn lc) (lc_hold_time lc)
    (extract_capabilities open).

(** The OPEN arm of [handle_message], reached through
    [handle_received_message]. *)
Definition handle_open (open : OpenMessage) : M () :=
  _ ← track_open;
  _ ← modify (with_received_open (Some open));
  _ ← modify (with_bgp_id (Some (o_bgp_identifier open)));
  lc ← read local_config;
  process_event (BgpOpenReceived (open_params lc open)).

(** The KEEPALIVE arm of [handle_received_message]. *)
Definition handle_keepalive : M () :=
  _ ← ignore (_ ← track_keepalive; process_event BgpKeepaliveReceived);
  nonzero ← read hold_time_nonzero;
  if nonzero : bool then update_timers (reset_hold_timer now) else mret ().

(** The NOTIFICATION arm: always an error, which ends the session. *)
Definition handle_notification (n : NotificationMessage) : M () :=
  _ ← track_notification n;
  _ ← handle_notification_received n;
  throw (PeIoError ConnectionAborted).

Definition process_delay_open (open : OpenMessage) : M () :=
  _ ← update_timers stop_delay_open_timer;
  _ ← modify (with_bgp_id (Some (o_bgp_identifier open)));
  lc ← read local_config;
  let event := BgpOpenWithDelayOpenTimer (open_params lc open) in
  _ ← modify (with_received_open (Some open));
  on_error (process_event event) (disconnect true (LocalNoNotification event)).

Definition flush_pending_routes : M () :=
  routes ← read pending_routes;
  _ ← modify (with_pending_routes []);
  send_server (PeerUpdate routes).

Definition handle_eor_received (a : AfiSafi) : M () :=
  _ ← modify (fun p => match established_at p with
                       | Some _ => with_convergence_reported ({[a]} ∪ convergence_reported p) p
                       | None => p
                       end);
  state ← read gr_state;
  match state with
  | None => mret ()
  | Some st =>
      if negb (bool_decide (a ∈ grs_afi_safis st)) then mret ()
      else if bool_decide (a ∈ eor_received st) then mret ()
      else
        let st := with_in_restart (<[a := false]> (in_restart st)) (with_eor_received ({[a]} ∪ eor_received st) st) in
        let all_eors_received := bool_decide (grs_afi_safis st ⊆ eor_received st) in
        _ ← (if all_eors_received then
               match restart_timer st with Some h => emit (OAbort h) | None => mret () end
             else mret ());
        _ ← modify (with_gr_state (Some (if all_eors_received then with_restart_timer None st else st)));
        _ ← flush_pending_routes;
        send_server (GracefulRestartComplete a)
  end.

Definition handle_route_refresh (m : RouteRefreshMessage) : M () :=
  p ← read id;
  let caps := capabilities p in
  let requested := mkAfiSafi (rr_afi m) (rr_safi m) in
  if negb (route_refresh caps) then mret ()
  else if negb (bool_decide (requested ∈ multiprotocol caps)) then mret ()
  else
    match rr_subtype m with
    | Normal => send_server (SoRouteRefresh (rr_afi m) (rr_safi m))
    | BoRR =>
        if negb (enhanced_route_refresh caps) then mret ()
        else
          let eor := match gr_state p with Some st => bool_decide (requested ∈ eor_received st) | None => true end in
          if bool_decide (is_Some (graceful_restart caps)) && negb eor then mret ()
          else send_server (SoRouteRefreshBoRR (rr_afi m) (rr_safi m))
    | EoRR =>
        if negb (enhanced_route_refresh caps) then mret ()
        else _ ← flush_pending_routes; send_server (SoRouteRefreshEoRR (rr_afi m) (rr_safi m))
    | RrsUnknown _ => mret ()
    end.

(** ** Connections and collisions *)
Definition connection_ready : M () :=
  _ ← update_timers stop_connect_retry;
  delay ← read (fun p => cfg_delay_open_time_secs (config p));
  match delay with
  | Some _ => update_timers (start_delay_open_timer now)
  | None =>
      on_error (process_event TcpConnectionConfirmed)
        (disconnect true (LocalNoNotification TcpConnectionConfirmed))
  end.

Definition resolve_collision_dialed_wins : M () := set_conn_pending None.

(** [conn_pending.take()]: the pending connection is moved, not closed. *)
Definition replace_conn_with_pending : M bool :=
  pending ← read conn_pending;
  match pending with
  | None => mret false
  | Some c =>
      _ ← modify (with_conn_pending None);
      _ ← set_conn (Some c);
      _ ← modify (with_conn_dialed false);
      mret true
  end.

Definition send_open_or_disconnect : M () :=
  on_error send_open (disconnect true (LocalNoNotification TcpConnectionFails)).

Definition promote_pending_after_conn_loss : M bool :=
  replaced ← replace_conn_with_pending;
  if negb replaced then mret false
  else
    running ← read (fun p => delay_open_timer_running (timers (fsm p)));
    _ ← (if running : bool then _ ← update_timers stop_delay_open_timer; connection_ready
         else send_open_or_disconnect);
    mret true.

(** The OPEN is processed only when ours could be sent. *)
Definition send_open_then (open : option OpenMessage) : M () := fun p =>
  match send_open p with
  | (p, Ok _) =>
      match open with
      | Some open => on_error (handle_open open) (disconnect true RemoteNoNotification) p
      | None => (p, Ok ())
      end
  | (p, Err _) => disconnect true (LocalNoNotification TcpConnectionFails) p
  | (p, Panic) => (p, Panic)
  end.

Definition adopt_pending_after_collision_loss (open : option OpenMessage) : M () :=
  delay_open ← read (fun p => delay_open_timer_running (timers (fsm p)));
  _ ← (if negb delay_open then ignore (send_notification (cease ConnectionCollisionResolution)) else mret ());
  replaced ← replace_conn_with_pending;
  if negb replaced then mret ()
  else if delay_open : bool then
    match open with
    | Some open => process_delay_open open
    | None => _ ← update_timers stop_delay_open_timer; connection_ready
    end
  else send_open_then open.

(** [Self::parse_bgp_message(bytes, PRE_OPEN_FORMAT)], as far as an OPEN goes. *)
Definition parse_open (bytes : list Z) : option OpenMessage :=
  match bytes !! 18%nat with
  | Some t => if t =? message_type_to_u8 MtOpen
              then match open_from_bytes (drop 19 bytes) with Ok m => Some m | _ => None end
              else None
  | None => None
  end.

(** [None]: the read task ended. *)
Definition handle_conn_pending_msg (result : option (outcome ParserError (list Z))) : M () :=
  lc ← read local_config;
  match result with
  | Some (Ok bytes) =>
      match parse_open bytes with
      | Some open =>
          if local_wins_collision lc open then resolve_collision_dialed_wins
          else adopt_pending_after_collision_loss (Some open)
      | None => set_conn_pending None
      end
  | _ => set_conn_pending None
  end.

(** [reject_connection] runs in a task of its own; its write is logged at the
    point where it is spawned. *)
Definition reject_connection (c : Conn) : M () :=
  ok ← read (fun p => write_ok (length (log p)));
  _ ← emit (OWrite (conn_id c) (notification_bytes (cease ConnectionRejected)) ok);
  emit (OClose (conn_id c)).

Definition lift {A} (r : outcome PeerError A) : M A := fun p => (p, r).

Definition adopt_conn (c : Conn) : M () :=
  _ ← set_conn (Some c); modify (with_conn_dialed false).

Definition drop_accepted (c : Conn) : M bool := _ ← emit (OClose (conn_id c)); mret false.

(** One policy for every state; true when the state loop must re-enter. *)
Definition on_conn_accepted (c : Conn) : M bool :=
  p ← read id;
  match fsm_state (fsm p) with
  | Idle =>
      hold ← lift (get_idle_hold_time p);
      if negb (bool_decide (is_Some hold) && negb (manually_stopped p)) then drop_accepted c
      else
        _ ← adopt_conn c;
        _ ← try_process_event (if cfg_passive_mode (config p) then AutomaticStartPassive else AutomaticStart);
        mret true
  | Established =>
      let gr_negotiated := match graceful_restart (capabilities p) with
                           | Some gr => negb (bool_decide (gr_afi_safi_list gr = []))
                           | None => false
                           end in
      if negb gr_negotiated then _ ← reject_connection c; mret false
      else
        _ ← disconnect false RemoteNoNotification;
        _ ← try_process_event TcpConnectionConfirmed;
        _ ← adopt_conn c;
        mret true
  | s =>
      if bool_decide (s = Connect \/ s = Active) && bool_decide (conn p = None) then
        _ ← adopt_conn c; _ ← connection_ready; mret true
      else if bool_decide (s <> OpenConfirm) && conn_dialed p && bool_decide (conn_pending p = None) then
        _ ← set_conn_pending (Some c); mret false
      else drop_accepted c
  end.
(** The dial of [handle_connect_state] succeeded. *)
Definition dial_succeeded (c : Conn) : M () :=
  _ ← set_conn (Some c); _ ← modify (with_conn_dialed true); connection_ready.
End peer.

(** [Peer::new] *)
Definition peer_new (a : IpAddr) (lc : LocalConfig) (cfg : PeerConfig) : Peer :=
  mkPeer a (fsm_new (from_secs <$> cfg_delay_open_time_secs cfg) (cfg_passive_mode cfg))
    None None None stats_default cfg None None false lc 0 false (cfg_admin_down cfg) None None []
    (from_secs (default 0 (cfg_min_route_advertisement_interval_secs cfg))) None None caps_default None [] ∅ [].
