(* ===== verification/PeerInv.v ===== *)
(** * Invariants of the peer task

    [keeps R m]: running [m] from any state gives a state related to it by
    the preorder [R].  The rules for the monad's operations are hints, so
    that a handler is treated by its own structure; [disconnect], which
    breaks the invariants while it runs, is one step. *)
From S2P Require Import Prelude Wire Net Notification Nlri BgpLs Attrs OpenMsg Msg Path PeerCaps Fsm RibTables LocRib PeerState Peer.

(** ** Relating the state before and after *)
Definition keeps {A} (R : Peer -> Peer -> Prop) (m : M A) : Prop := forall p, R p (m p).1.

Section keeps.
Context (R : Peer -> Peer -> Prop) `{!PreOrder R}.

Lemma keeps_ret {A} (a : A) : keeps R (mret a).
Proof. intros p. reflexivity. Qed.
Lemma keeps_throw {A} e : keeps R (throw (A := A) e).
Proof. intros p. reflexivity. Qed.
Lemma keeps_read {A} (f : Peer -> A) : keeps R (read f).
Proof. intros p. reflexivity. Qed.
Lemma keeps_lift {A} (r : outcome PeerError A) : keeps R (lift r).
Proof. intros p. reflexivity. Qed.
Lemma keeps_bind {A B} (m : M A) (f : A -> M B) :
  keeps R m -> (forall a, keeps R (f a)) -> keeps R (m ≫= f).
Proof.
  intros Hm Hf p. unfold mbind, M_bind. specialize (Hm p). destruct (m p) as [p' [a| |]]; cbn in *; [|done..].
  etrans; [exact Hm|apply Hf].
Qed.
Lemma keeps_ignore m : keeps R m -> keeps R (ignore m).
Proof. intros Hm p. unfold ignore. specialize (Hm p). by destruct (m p) as [p' []]. Qed.
Lemma keeps_on_error m h : keeps R m -> keeps R h -> keeps R (on_error m h).
Proof.
  intros Hm Hh p. unfold on_error. specialize (Hm p). destruct (m p) as [p' []]; cbn in *; [done| |done].
  etrans; [exact Hm|apply Hh].
Qed.
Lemma keeps_modify f : (forall p, R p (f p)) -> keeps R (modify f).
Proof. intros H p. apply H. Qed.
End keeps.

(** A handler, taken apart along its own syntax; the leaves are left to the
    hints of [db]. *)
(** ** What the invariants have in common

    [quiet p p']: nothing the invariants look at has changed, except that the
    DelayOpen timer may have been stopped. *)
Record quiet (p p' : Peer) : Prop := {
  qt_state : fsm_state (fsm p') = fsm_state (fsm p);
  qt_conn : conn p' = conn p;
  qt_pending : conn_pending p' = conn_pending p;
  qt_dialed : conn_dialed p' = conn_dialed p;
  qt_log : log p' = log p;
  qt_delay : delay_open_timer_started (timers (fsm p')) = delay_open_timer_started (timers (fsm p)) \/
             delay_open_timer_started (timers (fsm p')) = None;
  qt_caps : capabilities p' = capabilities p;
  qt_flag : graceful_restart_negotiated (fsm p') = graceful_restart_negotiated (fsm p);
}.

Definition gr_flag_update (caps : PeerCapabilities) (p : Peer) : Peer :=
  let p := with_capabilities caps p in
  with_fsm (set_graceful_restart_negotiated (bool_decide (is_Some (graceful_restart caps))) (fsm p)) p.

(** A preorder that every building block of the handlers respects. *)
Class Stable (R : Peer -> Peer -> Prop) : Prop := {
  st_preorder :: PreOrder R;
  st_quiet p p' : quiet p p' -> R p p';
  st_emit p o : (forall c, o <> OClose c) -> R p (with_log (log p ++ [o]) p);
  st_negotiate p caps : R p (gr_flag_update caps p);
  st_start_delay p v : is_Some (conn p) -> R p (with_fsm (with_timers (with_delay_open_timer v (timers (fsm p))) (fsm p)) p);
  st_disconnect d r : keeps R (disconnect d r);
  st_pending_none : keeps R (set_conn_pending None);
  st_replace : keeps R replace_conn_with_pending;
}.

Section stable.
Context (R : Peer -> Peer -> Prop) `{!Stable R}.
Variable now : Z.
Variable write_ok : nat -> bool.

Lemma st_modify f : (forall p, quiet p (f p)) -> keeps R (modify f).
Proof. intros H. apply keeps_modify. intros p. apply st_quiet, H. Qed.
Lemma st_keeps_emit o : (forall c, o <> OClose c) -> keeps R (emit o).
Proof. intros H p. by apply st_emit. Qed.
Lemma st_conn_write bytes : keeps R (conn_write write_ok bytes).
Proof. intros p. unfold conn_write. destruct (conn p); [|reflexivity]. by apply st_emit. Qed.
Lemma st_negotiate_then {A} caps gr (k : () -> M A) :
  gr = graceful_restart caps -> (forall a, keeps R (k a)) ->
  keeps R (_ ← modify (with_capabilities caps);
           x ← update_fsm (set_graceful_restart_negotiated (bool_decide (is_Some gr))); k x).
Proof. intros -> Hk p. etrans; [apply (st_negotiate p caps)|]. apply Hk. Qed.
End stable.

Ltac quiet_tac := intros; split; first [reflexivity | (left; reflexivity) | (right; reflexivity) | idtac].

Create HintDb peer_keeps.
#[export] Hint Extern 0 (Stable _) => tc_solve : peer_keeps.
Ltac keeps_step :=
  lazymatch goal with
  | |- forall _, _ => intro
  | |- keeps _ (mret _) => apply keeps_ret; tc_solve
  | |- keeps _ (throw _) => apply keeps_throw; tc_solve
  | |- keeps _ (read _) => apply keeps_read; tc_solve
  | |- keeps _ (lift _) => apply keeps_lift; tc_solve
  | |- keeps _ (modify (with_capabilities _) ≫= _) => apply st_negotiate_then; [tc_solve|reflexivity|]
  | |- keeps _ (mbind _ _) => apply keeps_bind; [tc_solve| |]
  | |- keeps _ (ignore _) => apply keeps_ignore
  | |- keeps _ (on_error _ _) => apply keeps_on_error; [tc_solve| |]
  | |- keeps _ (match _ with _ => _ end) => case_match
  | |- keeps _ (disconnect _ _) => apply st_disconnect
  | |- keeps _ (conn_write _ _) => apply st_conn_write; tc_solve
  | |- keeps _ (emit _) => apply st_keeps_emit; [tc_solve|done]
  | |- keeps _ (modify _) => apply st_modify; [tc_solve|quiet_tac]
  | |- keeps _ (update_timers _) => apply st_modify; [tc_solve|quiet_tac]
  | |- keeps _ (update_fsm _) => apply st_modify; [tc_solve|quiet_tac]
  | |- keeps _ (update_stats _) => apply st_modify; [tc_solve|quiet_tac]
  | |- _ => solve [auto 2 with peer_keeps nocore]
  end.
Ltac keeps_tac := repeat keeps_step.

Section stable_ops.
Context (R : Peer -> Peer -> Prop) `{!Stable R}.
Variable now : Z.
Variable write_ok : nat -> bool.

Lemma st_send_server op : keeps R (send_server op).
Proof. unfold send_server. keeps_tac. Qed.
#[local] Hint Resolve st_send_server : peer_keeps.
Lemma st_send_notification n : keeps R (send_notification write_ok n).
Proof. unfold send_notification. keeps_tac. Qed.
Lemma st_send_open : keeps R (send_open write_ok).
Proof. unfold send_open. keeps_tac. Qed.
Lemma st_send_keepalive : keeps R (send_keepalive now write_ok).
Proof. unfold send_keepalive. keeps_tac. Qed.
#[local] Hint Resolve st_send_notification st_send_open st_send_keepalive : peer_keeps.
Lemma st_reject_open {A} e data : keeps R (reject_open (A := A) write_ok e data).
Proof. unfold reject_open. keeps_tac. Qed.
#[local] Hint Resolve st_reject_open : peer_keeps.

Lemma st_enter_open_confirm params : keeps R (enter_open_confirm now write_ok params).
Proof. unfold enter_open_confirm, validate_peer_bgp_id, validate_peer_asn. keeps_tac. Qed.
#[local] Hint Resolve st_enter_open_confirm : peer_keeps.

Lemma st_idle_transitions new e : keeps R (handle_idle_transitions now new e).
Proof. unfold handle_idle_transitions. keeps_tac. Qed.
Lemma st_message_error n : keeps R (message_error_before_open write_ok n).
Proof. unfold message_error_before_open. keeps_tac. Qed.
Lemma st_version_error n : keeps R (version_error_before_open n).
Proof. unfold version_error_before_open. keeps_tac. Qed.
Lemma st_notification_before n : keeps R (notification_before_open n).
Proof. unfold notification_before_open. keeps_tac. Qed.
Lemma st_enter_open_sent : keeps R (enter_open_sent now write_ok).
Proof. unfold enter_open_sent. keeps_tac. Qed.
Lemma st_open_under_delay params : keeps R (open_under_delay_open now write_ok params).
Proof. unfold open_under_delay_open. keeps_tac. Qed.
Lemma st_stop_session_timers : keeps R stop_session_timers.
Proof. unfold stop_session_timers. keeps_tac. Qed.
Lemma st_stop_running_timers : keeps R stop_running_timers.
Proof. unfold stop_running_timers. keeps_tac. Qed.
#[local] Hint Resolve st_message_error st_version_error st_notification_before st_enter_open_sent
  st_open_under_delay st_stop_session_timers st_stop_running_timers : peer_keeps.

Lemma st_connect_transitions new e : keeps R (handle_connect_transitions now write_ok new e).
Proof. unfold handle_connect_transitions. destruct new, e; keeps_tac. Qed.
Lemma st_active_transitions new e : keeps R (handle_active_transitions now write_ok new e).
Proof. unfold handle_active_transitions. destruct new, e; keeps_tac. Qed.
Lemma st_opensent_transitions new e : keeps R (handle_opensent_transitions now write_ok new e).
Proof. unfold handle_opensent_transitions. destruct new, e; keeps_tac. Qed.

Lemma st_manual_stop : keeps R (handle_manual_stop write_ok).
Proof. unfold handle_manual_stop. keeps_tac. Qed.
Lemma st_automatic_stop c : keeps R (handle_automatic_stop write_ok c).
Proof. unfold handle_automatic_stop. keeps_tac. Qed.
Lemma st_hold_timer_expires : keeps R (handle_hold_timer_expires write_ok).
Proof. unfold handle_hold_timer_expires. keeps_tac. Qed.
Lemma st_bgp_message_error n b : keeps R (handle_bgp_message_error write_ok n b).
Proof. unfold handle_bgp_message_error. keeps_tac. Qed.
Lemma st_fsm_error b : keeps R (handle_fsm_error write_ok b).
Proof. unfold handle_fsm_error. keeps_tac. Qed.
Lemma st_idle_on_error r : keeps R (transition_to_idle_on_error r).
Proof. unfold transition_to_idle_on_error. keeps_tac. Qed.
Lemma st_connection_info : keeps R send_connection_info.
Proof. unfold send_connection_info. keeps_tac. Qed.
Lemma st_reset_damping : keeps R (reset_damping_when_stable now).
Proof. unfold reset_damping_when_stable. keeps_tac. Qed.
#[local] Hint Resolve st_manual_stop st_automatic_stop st_hold_timer_expires st_bgp_message_error
  st_fsm_error st_idle_on_error st_connection_info st_reset_damping : peer_keeps.

Lemma st_openconfirm_transitions new e : keeps R (handle_openconfirm_transitions now write_ok new e).
Proof. unfold handle_openconfirm_transitions. destruct new, e; keeps_tac. Qed.
Lemma st_established_transitions new e : keeps R (handle_established_transitions now write_ok new e).
Proof. unfold handle_established_transitions. destruct new, e; keeps_tac. Qed.

Lemma st_dispatch old new e : keeps R (dispatch_transition now write_ok old new e).
Proof.
  destruct old; cbn [dispatch_transition]; [apply st_idle_transitions|apply st_connect_transitions|
    apply st_active_transitions|apply st_opensent_transitions|apply st_openconfirm_transitions|
    apply st_established_transitions].
Qed.
#[local] Hint Resolve st_dispatch : peer_keeps.

End stable_ops.

(** A preorder that whole events respect, too. *)
Class EventStable (R : Peer -> Peer -> Prop) : Prop := {
  es_stable :: Stable R;
  es_event now write_ok e : keeps R (process_event now write_ok e);
}.

(** It is enough that the state of the machine does not matter. *)
Lemma free_state_event R `{!Stable R} :
  (forall p s, R p (with_fsm (with_fsm_state s (fsm p)) p)) -> EventStable R.
Proof.
  intros Hs. split; [done|]. intros now write_ok e. unfold process_event, notify_state_change.
  apply keeps_bind; [tc_solve|keeps_tac|]. intros old. apply keeps_bind; [tc_solve| |].
  - intros p. apply Hs.
  - intros new. apply keeps_bind; [tc_solve|by apply st_dispatch|]. intros _. case_match; [|keeps_tac].
    apply keeps_bind; [tc_solve|keeps_tac|]. intros. by apply st_send_server.
Qed.

#[export] Hint Resolve st_send_server st_send_notification st_send_open st_send_keepalive : peer_keeps.

Section event_ops.
Context (R : Peer -> Peer -> Prop) `{!EventStable R}.
Variable now : Z.
Variable write_ok : nat -> bool.

Lemma st_process_event e : keeps R (process_event now write_ok e).
Proof. apply es_event. Qed.
#[local] Hint Resolve st_send_server st_send_notification st_send_open st_send_keepalive : peer_keeps.
#[local] Hint Resolve st_process_event : peer_keeps.
Lemma st_try_process_event e : keeps R (try_process_event now write_ok e).
Proof. unfold try_process_event. keeps_tac. Qed.
#[local] Hint Resolve st_try_process_event : peer_keeps.

(** *** Messages *)
Lemma st_track_open : keeps R track_open.
Proof. unfold track_open. keeps_tac. Qed.
Lemma st_track_keepalive : keeps R track_keepalive.
Proof. unfold track_keepalive. keeps_tac. Qed.
Lemma st_track_notification n : keeps R (track_notification n).
Proof. unfold track_notification. keeps_tac. Qed.
#[local] Hint Resolve st_track_open st_track_keepalive st_track_notification : peer_keeps.
Lemma st_handle_open m : keeps R (handle_open now write_ok m).
Proof. unfold handle_open. keeps_tac. Qed.
Lemma st_handle_keepalive : keeps R (handle_keepalive now write_ok).
Proof. unfold handle_keepalive. keeps_tac. Qed.
Lemma st_handle_notification n : keeps R (handle_notification now write_ok n).
Proof. unfold handle_notification, handle_notification_received. keeps_tac. Qed.
Lemma st_process_delay_open m : keeps R (process_delay_open now write_ok m).
Proof. unfold process_delay_open. keeps_tac. Qed.
Lemma st_flush : keeps R flush_pending_routes.
Proof. unfold flush_pending_routes. keeps_tac. Qed.
#[local] Hint Resolve st_handle_open st_process_delay_open st_flush : peer_keeps.
Lemma st_handle_eor a : keeps R (handle_eor_received a).
Proof.
  unfold handle_eor_received. apply keeps_bind; [tc_solve| |]; [|keeps_tac].
  apply st_modify; [tc_solve|]. intros p. destruct (established_at p); split; first [reflexivity|by left].
Qed.
Lemma st_handle_route_refresh m : keeps R (handle_route_refresh m).
Proof. unfold handle_route_refresh. keeps_tac. Qed.

(** *** Connections *)
Lemma st_connection_ready p : is_Some (conn p) -> R p (connection_ready now write_ok p).1.
Proof.
  intros Hc. set (p1 := with_fsm (with_timers (stop_connect_retry (timers (fsm p))) (fsm p)) p).
  change (connection_ready now write_ok p) with
    ((match cfg_delay_open_time_secs (config p) with
      | Some _ => update_timers (start_delay_open_timer now)
      | None => on_error (process_event now write_ok TcpConnectionConfirmed)
                  (disconnect true (LocalNoNotification TcpConnectionConfirmed))
      end) p1).
  trans p1; [apply st_quiet; quiet_tac|]. destruct (cfg_delay_open_time_secs (config p)).
  - by apply (st_start_delay p1).
  - revert p1. generalize (with_fsm (with_timers (stop_connect_retry (timers (fsm p))) (fsm p)) p).
    change (keeps R (on_error (process_event now write_ok TcpConnectionConfirmed)
      (disconnect true (LocalNoNotification TcpConnectionConfirmed)))). keeps_tac.
Qed.

Lemma st_send_open_or_disconnect : keeps R (send_open_or_disconnect write_ok).
Proof. unfold send_open_or_disconnect. keeps_tac. Qed.

(** [replace_conn_with_pending] succeeds with a connection in place. *)
Lemma replace_conn_true p p' : replace_conn_with_pending p = (p', Ok true) -> is_Some (conn p').
Proof.
  unfold replace_conn_with_pending, set_conn, close, read, modify, emit, mbind, M_bind.
  destruct (conn_pending p); [|done]. cbn. by destruct (conn p); intros [= <-].
Qed.

Lemma st_bind_from {A B} (m : M A) (f : A -> M B) p :
  R p (m p).1 -> (forall p' a, m p = (p', Ok a) -> R p' (f a p').1) -> R p ((m ≫= f) p).1.
Proof.
  intros Hm Hf. unfold mbind, M_bind. destruct (m p) as [p' [a| |]] eqn:E; [|done..].
  etrans; [exact Hm|]. by apply Hf.
Qed.

(** Stopping the DelayOpen timer, then [connection_ready]. *)
Lemma st_restart_delay p : is_Some (conn p) ->
  R p ((_ ← update_timers stop_delay_open_timer; connection_ready now write_ok) p).1.
Proof.
  intros Hc. apply st_bind_from; [apply st_quiet; quiet_tac|].
  intros p' a [= <- _]. by apply st_connection_ready.
Qed.

Lemma st_promote : keeps R (promote_pending_after_conn_loss now write_ok).
Proof.
  intros p. unfold promote_pending_after_conn_loss. apply st_bind_from; [apply st_replace|].
  intros p' [] E; cbn [negb]; [|reflexivity]. apply replace_conn_true in E.
  unfold read at 1. unfold mbind at 1, M_bind at 1. apply st_bind_from; [|intros; reflexivity].
  destruct (delay_open_timer_running _); [by apply st_restart_delay|apply st_send_open_or_disconnect].
Qed.

Lemma st_send_open_then m : keeps R (send_open_then now write_ok m).
Proof.
  intros p. unfold send_open_then. pose proof (st_send_open R write_ok p) as Hs. destruct (send_open write_ok p) as [p' []]; cbn in Hs.
  - etrans; [exact Hs|]. destruct m as [m|]; [|reflexivity]. generalize p'.
    change (keeps R (on_error (handle_open now write_ok m) (disconnect true RemoteNoNotification))). keeps_tac.
  - etrans; [exact Hs|]. apply st_disconnect.
  - exact Hs.
Qed.

Lemma st_adopt_pending m : keeps R (adopt_pending_after_collision_loss now write_ok m).
Proof.
  unfold adopt_pending_after_collision_loss. apply keeps_bind; [tc_solve|keeps_tac|]. intros delay.
  apply keeps_bind; [tc_solve|keeps_tac|]. intros _ p. apply st_bind_from; [apply st_replace|].
  intros p' [] E; cbn [negb]; [|reflexivity]. apply replace_conn_true in E. destruct delay; [|apply st_send_open_then].
  destruct m as [m|]; [apply st_process_delay_open|by apply st_restart_delay].
Qed.

Lemma st_conn_pending_msg r : keeps R (handle_conn_pending_msg now write_ok r).
Proof.
  unfold handle_conn_pending_msg, resolve_collision_dialed_wins.
  pose proof st_adopt_pending. pose proof (st_pending_none : keeps R (set_conn_pending None)). keeps_tac; auto.
Qed.

End event_ops.

(** ** What [disconnect] leaves behind *)
Record disconnected (p : Peer) : Prop := {
  dc_conn : conn p = None;
  dc_pending : conn_pending p = None;
  dc_dialed : conn_dialed p = false;
  dc_established : established_at p = None;
  dc_hold : hold_timer_started (timers (fsm p)) = None;
  dc_keepalive : keepalive_timer_started (timers (fsm p)) = None;
  dc_delay : delay_open_timer_started (timers (fsm p)) = None;
}.

(** The parts of the state [disconnect] does not touch. *)
Record untouched (p p' : Peer) : Prop := {
  ut_state : fsm_state (fsm p') = fsm_state (fsm p);
  ut_flag : graceful_restart_negotiated (fsm p') = graceful_restart_negotiated (fsm p);
  ut_caps : capabilities p' = capabilities p;
  ut_config : config p' = config p;
  ut_local : local_config p' = local_config p;
  ut_stats : statistics p' = statistics p;
  ut_routes : pending_routes p' = pending_routes p;
}.

Definition id_list (c : option Conn) : list Z := match c with Some c => [conn_id c] | None => [] end.

(** [disconnect] up to the point where it looks at [had_connection]. *)
Definition torn_down (p : Peer) : Peer :=
  let t := timers (fsm p) in
  let t := stop_delay_open_timer (stop_keepalive_timer (stop_hold_timer t)) in
  let p := with_log (log p ++ (OClose <$> id_list (conn p)) ++ (OClose <$> id_list (conn_pending p))) p in
  with_fsm (with_timers t (fsm p)) (with_established_at None (with_conn_dialed false
    (with_conn_pending None (with_conn None p)))).

Definition disconnect_tail (apply_damping : bool) (reason : PeerDownReason) (gr : list AfiSafi) : M () :=
  _ ← (if apply_damping && negb (is_collision_reason reason) then
         modify (fun p => with_consecutive_down_count (incr32 (consecutive_down_count p)) p)
       else mret ());
  _ ← (if bool_decide (gr = []) then mret () else start_gr_restart_timer);
  send_server (PeerDisconnected reason gr).

Definition gr_families (p : Peer) (reason : PeerDownReason) : list AfiSafi :=
  if should_preserve_routes_with_gr p reason then caps_gr_afi_safis (capabilities p) else [].

Lemma disconnect_eq d r p :
  disconnect d r p = (match conn p with Some _ => disconnect_tail d r (gr_families p r) | None => mret () end) (torn_down p).
Proof.
  unfold disconnect, torn_down, set_conn, set_conn_pending, close, update_timers, read, modify, emit, mbind, M_bind.
  cbv beta iota. fold (gr_families p r).
  destruct p as [a f n b s st cfg c cp dl lc cd cs ms ea lu pu mr so ro ca gr pr cr lg].
  destruct c as [c|], cp as [cp|]; cbn -[gr_families disconnect_tail]; rewrite ?app_nil_r, <- ?app_assoc; reflexivity.
Qed.

Definition closed_of (l : list Output) : list Z :=
  omap (fun o => match o with OClose c => Some c | _ => None end) l.
Lemma closed_of_app l1 l2 : closed_of (l1 ++ l2) = closed_of l1 ++ closed_of l2.
Proof. apply omap_app. Qed.
Lemma closed_of_closes l : closed_of (OClose <$> l) = l.
Proof. induction l as [|c l IH]; [done|]. cbn. by f_equal. Qed.

(** Only the damping counter, the restart state and the log change, and
    nothing is closed. *)
Record tail_only (p p' : Peer) : Prop := {
  tl_conn : conn p' = conn p;
  tl_pending : conn_pending p' = conn_pending p;
  tl_dialed : conn_dialed p' = conn_dialed p;
  tl_established : established_at p' = established_at p;
  tl_fsm : fsm p' = fsm p;
  tl_same : untouched p p';
  tl_closed : closed_of (log p') = closed_of (log p);
}.

#[export] Instance tail_only_preorder : PreOrder tail_only.
Proof.
  split; [intros p; by split|].
  intros p q r [] []. split; try congruence.
  destruct tl_same0, tl_same1. split; congruence.
Qed.

Lemma tail_emit o : (forall c, o <> OClose c) -> keeps tail_only (emit o).
Proof.
  intros Ho p. split; try reflexivity; [by split|]. cbn. rewrite closed_of_app.
  destruct o as [|c| | |]; [|by destruct (Ho c)|..]; by rewrite app_nil_r.
Qed.
Lemma tail_modify f :
  (forall p, tail_only p (f p)) -> keeps tail_only (modify f).
Proof. intros H. by apply keeps_modify. Qed.

Ltac tail_tac :=
  repeat lazymatch goal with
  | |- forall _, _ => intro
  | |- keeps _ (mret _) => apply keeps_ret; tc_solve
  | |- keeps _ (read _) => apply keeps_read; tc_solve
  | |- keeps _ (mbind _ _) => apply keeps_bind; [tc_solve| |]
  | |- keeps _ (match _ with _ => _ end) => case_match
  | |- keeps _ (emit _) => apply tail_emit; done
  | |- keeps _ (modify _) => apply tail_modify; intros; by split
  end.

Lemma tail_start_gr : keeps tail_only start_gr_restart_timer.
Proof. unfold start_gr_restart_timer. tail_tac. Qed.

Lemma tail_disconnect_tail d r gr : keeps tail_only (disconnect_tail d r gr).
Proof.
  unfold disconnect_tail, send_server. apply keeps_bind; [tc_solve|tail_tac|]. intros _.
  apply keeps_bind; [tc_solve| |tail_tac]. case_match; [tail_tac|apply tail_start_gr].
Qed.

Lemma start_gr_ok p : exists p', start_gr_restart_timer p = (p', Ok ()).
Proof.
  unfold start_gr_restart_timer, read, modify, emit, mbind, M_bind.
  destruct (graceful_restart (capabilities p)); [|by eexists]. case_match; [by eexists|].
  destruct (gr_state p) as [st|]; [|by eexists]. destruct (restart_timer st); by eexists.
Qed.

Lemma disconnect_tail_ok d r gr p : exists p', disconnect_tail d r gr p = (p', Ok ()).
Proof.
  unfold disconnect_tail. unfold mbind at 1, M_bind at 1.
  destruct ((if _ && _ then modify _ else mret ()) p) as [p1 r1] eqn:E1.
  assert (r1 = Ok ()) as -> by (destruct (d && _); by injection E1). unfold mbind at 1, M_bind at 1.
  destruct ((if bool_decide (gr = []) then mret () else start_gr_restart_timer) p1) as [p2 r2] eqn:E2.
  assert (r2 = Ok ()) as ->; [|by eexists].
  destruct (bool_decide (gr = [])); [by injection E2|]. destruct (start_gr_ok p1) as [p' E']. congruence.
Qed.

(** [disconnect] never fails; it closes the connections it held and leaves
    the rest of the state alone. *)
Lemma disconnect_spec d r p :
  exists p', disconnect d r p = (p', Ok ()) /\ disconnected p' /\ untouched p p' /\
    closed_of (log p') = closed_of (log p) ++ id_list (conn p) ++ id_list (conn_pending p).
Proof.
  rewrite disconnect_eq.
  assert (disconnected (torn_down p) /\ untouched p (torn_down p) /\
    closed_of (log (torn_down p)) = closed_of (log p) ++ id_list (conn p) ++ id_list (conn_pending p)) as (Hd & Hu & Hl).
  { split_and!; [by split|by split|]. unfold torn_down. cbn. by rewrite !closed_of_app, !closed_of_closes. }
  destruct (conn p) as [c|]; [|by eexists].
  destruct (disconnect_tail_ok d r (gr_families p r) (torn_down p)) as [p' E].
  pose proof (tail_disconnect_tail d r (gr_families p r) (torn_down p)) as Ht. rewrite E in Ht. cbn in Ht.
  exists p'. split; [done|]. destruct Ht as [T1 T2 T3 T4 T5 [] T7], Hd, Hu.
  split_and!; [split; congruence|split; congruence|congruence].
Qed.
