(* ===== verification/PeerSafe.v ===== *)
(** * Properties of the peer task

    Instances of [Stable] for the two invariants, the steps a peer task
    takes, and what holds in every state it can reach. *)
From S2P Require Import Prelude Wire Net Notification Nlri BgpLs Attrs OpenMsg Msg Path PeerCaps Fsm RibTables LocRib PeerState Peer PeerInv.

(** ** The invariant *)
Record peer_inv (p : Peer) : Prop := {
  pi_delay : is_Some (delay_open_timer_started (timers (fsm p))) -> is_Some (conn p);
  pi_pending : is_Some (conn_pending p) -> is_Some (conn p) /\ conn_dialed p = true;
  pi_dialed : conn_dialed p = true -> is_Some (conn p);
  pi_gr : graceful_restart_negotiated (fsm p) = bool_decide (is_Some (graceful_restart (capabilities p)));
}.
Definition inv_kept (p p' : Peer) : Prop := peer_inv p -> peer_inv p'.

Lemma not_is_Some_None {A} : ~ is_Some (@None A).
Proof. by intros []. Qed.

#[export] Instance inv_kept_stable : Stable inv_kept.
Proof.
  split.
  - split; [intros p H; exact H|]. intros p q r H1 H2 H. apply H2, H1, H.
  - intros p p' [E0 E1 E2 E3 E4 E5 E6 E7] [H1 H2 H3 H4]. split; rewrite ?E1, ?E2, ?E3, ?E6, ?E7; try done.
    destruct E5 as [->| ->]; [done|by intros ?%not_is_Some_None].
  - intros p o _ [H1 H2 H3 H4]. by split.
  - intros p caps [H1 H2 H3 H4]. by split.
  - intros p v Hc [H1 H2 H3 H4]. by split.
  - intros d r p [H1 H2 H3 H4]. destruct (disconnect_spec d r p) as (p' & -> & [] & [] & _). cbn.
    split; rewrite ?dc_conn, ?dc_pending, ?dc_dialed, ?dc_delay; try (by intros ?%not_is_Some_None); try done.
    by rewrite ut_flag, ut_caps.
  - intros p [H1 H2 H3 H4]. unfold set_conn_pending, close, read, modify, emit, mbind, M_bind. cbn.
    destruct (conn_pending p); split; cbn; try done; by intros ?%not_is_Some_None.
  - intros p [H1 H2 H3 H4]. unfold replace_conn_with_pending, set_conn, close, read, modify, emit, mbind, M_bind. cbn.
    destruct (conn_pending p) as [c|] eqn:E; cbn; [|split; rewrite ?E; done].
    destruct (conn p); cbn; split; cbn; try done; by intros ?%not_is_Some_None.
Qed.

#[export] Instance inv_kept_event : EventStable inv_kept.
Proof. apply (free_state_event _). intros p s [H1 H2 H3 H4]. by split. Qed.

(** ** Going to Idle *)

(** The state of the machine is set by [handle_event] alone. *)
Definition same_state (p p' : Peer) : Prop := fsm_state (fsm p') = fsm_state (fsm p).
#[export] Instance same_state_stable : Stable same_state.
Proof.
  split.
  - split; [intros p; reflexivity|]. intros p q r H1 H2. unfold same_state in *. congruence.
  - by intros p p' [].
  - intros. reflexivity.
  - intros. reflexivity.
  - intros. reflexivity.
  - intros d r p. destruct (disconnect_spec d r p) as (p' & -> & _ & [] & _). done.
  - intros p. unfold set_conn_pending, close, read, modify, emit, mbind, M_bind. cbn. by destruct (conn_pending p).
  - intros p. unfold replace_conn_with_pending, set_conn, close, read, modify, emit, mbind, M_bind. cbn.
    destruct (conn_pending p); [|done]. by destruct (conn p).
Qed.

Definition never_errs {A} (m : M A) : Prop := forall p, exists p' a, m p = (p', Ok a).
Definition lands {A} (m : M A) : Prop := forall p, disconnected (m p).1.
Definition stays_down (p p' : Peer) : Prop := disconnected p -> disconnected p'.
#[export] Instance stays_down_preorder : PreOrder stays_down.
Proof. split; [intros p H; exact H|]. intros p q r H1 H2 H. apply H2, H1, H. Qed.

Lemma lands_now {A B} (m : M A) (f : A -> M B) : lands m -> (forall a, keeps stays_down (f a)) -> lands (m ≫= f).
Proof.
  intros Hm Hf p. unfold mbind, M_bind. specialize (Hm p). destruct (m p) as [p' [a| |]]; [|done..]. by apply Hf.
Qed.
Lemma lands_later {A B} (m : M A) (f : A -> M B) : never_errs m -> (forall a, lands (f a)) -> lands (m ≫= f).
Proof. intros Hm Hf p. unfold mbind, M_bind. destruct (Hm p) as (p' & a & ->). apply Hf. Qed.
Lemma lands_disconnect d r : lands (disconnect d r).
Proof. intros p. by destruct (disconnect_spec d r p) as (p' & -> & ? & _). Qed.

Lemma never_errs_bind {A B} (m : M A) (f : A -> M B) : never_errs m -> (forall a, never_errs (f a)) -> never_errs (m ≫= f).
Proof. intros Hm Hf p. unfold mbind, M_bind. destruct (Hm p) as (p' & a & ->). apply Hf. Qed.
Lemma never_errs_ret {A} (a : A) : never_errs (mret a).
Proof. intros p. by eexists _, _. Qed.
Lemma never_errs_read {A} (f : Peer -> A) : never_errs (read f).
Proof. intros p. by eexists _, _. Qed.
Lemma never_errs_modify f : never_errs (modify f).
Proof. intros p. by eexists _, _. Qed.
Lemma never_errs_send_notification write_ok n : never_errs (ignore (send_notification write_ok n)).
Proof.
  intros p. unfold ignore, send_notification, conn_write, read, mbind, M_bind. cbn.
  destruct (can_send_notification p); cbn; [|by eexists _, _].
  destruct (conn p); [|by eexists _, _]. by destruct (write_ok _); eexists _, _.
Qed.

Ltac stays_down_tac :=
  repeat lazymatch goal with
  | |- forall _, _ => intro
  | |- keeps _ (mret _) => apply keeps_ret; tc_solve
  | |- keeps _ (throw _) => apply keeps_throw; tc_solve
  | |- keeps _ (read _) => apply keeps_read; tc_solve
  | |- keeps _ (mbind _ _) => apply keeps_bind; [tc_solve| |]
  | |- keeps _ (match _ with _ => _ end) => case_match
  | |- keeps _ (send_server _) => unfold send_server
  | |- keeps _ (stop_session_timers) => unfold stop_session_timers
  | |- keeps _ _ => intros ? []; by split
  end.

Ltac never_errs_tac :=
  repeat lazymatch goal with
  | |- forall _, _ => intro
  | |- never_errs (ignore _) => apply never_errs_send_notification
  | |- never_errs (read _) => apply never_errs_read
  | |- never_errs (mret _) => apply never_errs_ret
  | |- never_errs (mbind _ _) => apply never_errs_bind
  | |- never_errs (match _ with _ => _ end) => case_match
  | |- never_errs (disconnect _ _) => fail
  | |- never_errs _ => apply never_errs_modify
  end.

Ltac lands_tac :=
  repeat lazymatch goal with
  | |- forall _, _ => intro
  | |- lands (disconnect _ _) => apply lands_disconnect
  | |- lands (mbind _ _) =>
      first [apply lands_later; [solve [never_errs_tac]|]
            |apply lands_now; [|solve [stays_down_tac]]]
  end.

Lemma dispatch_lands now write_ok f old e :
  old <> Idle -> fsm_state f = old -> next_state f e = Idle ->
  lands (dispatch_transition now write_ok old Idle e).
Proof.
  intros Hold Hf He. unfold next_state in He. rewrite Hf in He.
  destruct old; [done|..]; cbn [dispatch_transition];
    unfold handle_connect_transitions, handle_active_transitions, handle_opensent_transitions,
      handle_openconfirm_transitions, handle_established_transitions, handle_manual_stop,
      handle_automatic_stop, handle_hold_timer_expires, handle_bgp_message_error, handle_fsm_error,
      transition_to_idle_on_error, message_error_before_open, version_error_before_open,
      notification_before_open, stop_running_timers;
    destruct e; try done; try (by case_match); lands_tac.
Qed.

Lemma process_event_shape now write_ok e p :
  (process_event now write_ok e p).1 =
    let old := fsm_state (fsm p) in
    let new := next_state (fsm p) e in
    let '(p', r) := dispatch_transition now write_ok old new e (with_fsm (with_fsm_state new (fsm p)) p) in
    match r with
    | Ok _ => ((if bool_decide (old <> new) then notify_state_change else mret ()) p').1
    | _ => p'
    end.
Proof.
  unfold process_event, fsm_handle_event, handle_event, read, mbind, M_bind. cbn.
  by destruct (dispatch_transition _ _ _ _ _ _) as [p' []].
Qed.

(** The machine is in the state of its table after every event. *)
Lemma process_event_state now write_ok e p :
  fsm_state (fsm (process_event now write_ok e p).1) = next_state (fsm p) e.
Proof.
  rewrite process_event_shape. cbv zeta. set (p1 := with_fsm _ p).
  pose proof (st_dispatch same_state now write_ok (fsm_state (fsm p)) (next_state (fsm p) e) e p1) as Hs.
  destruct (dispatch_transition _ _ _ _ _ p1) as [p' []]; cbn in Hs; [|exact Hs..].
  case_bool_decide; exact Hs.
Qed.

Lemma process_event_idle now write_ok e p :
  fsm_state (fsm p) <> Idle -> next_state (fsm p) e = Idle -> disconnected (process_event now write_ok e p).1.
Proof.
  intros Hold He. rewrite process_event_shape. cbv zeta. set (p1 := with_fsm _ p).
  pose proof (dispatch_lands now write_ok (fsm p) (fsm_state (fsm p)) e Hold eq_refl He p1) as Hl. rewrite He.
  destruct (dispatch_transition _ _ _ _ _ p1) as [p' []]; cbn in Hl; [|exact Hl..].
  case_bool_decide; [|exact Hl]. destruct Hl. by split.
Qed.

(** No connection outlives the return to Idle. *)
Record idle_inv (p : Peer) : Prop := { ii_idle : fsm_state (fsm p) = Idle -> conn p = None /\ conn_pending p = None }.
Definition idle_kept (p p' : Peer) : Prop := idle_inv p -> idle_inv p'.
#[export] Instance idle_kept_stable : Stable idle_kept.
Proof.
  split.
  - split; [intros p H; exact H|]. intros p q r H1 H2 H. apply H2, H1, H.
  - intros p p' [E0 E1 E2 _ _ _ _ _] [H]. split. rewrite E0, E1, E2. done.
  - intros p o _ [H]. by split.
  - intros p caps [H]. by split.
  - intros p v _ [H]. by split.
  - intros d r p _. destruct (disconnect_spec d r p) as (p' & -> & [] & _). by split.
  - intros p [H]. unfold set_conn_pending, close, read, modify, emit, mbind, M_bind. cbn.
    destruct (conn_pending p); split; cbn; intros E; by destruct (H E).
  - intros p [H]. unfold replace_conn_with_pending, set_conn, close, read, modify, emit, mbind, M_bind. cbn.
    destruct (conn_pending p) as [c|] eqn:E; cbn; [|split; rewrite E; intros Hi; by destruct (H Hi)].
    destruct (conn p); cbn; split; cbn; intros Hi; by destruct (H Hi).
Qed.
#[export] Instance idle_kept_event : EventStable idle_kept.
Proof.
  split; [tc_solve|]. intros now write_ok e p [H]. split. rewrite process_event_state. intros He.
  destruct (decide (fsm_state (fsm p) = Idle)) as [Hi|Hi].
  - destruct (H Hi) as [H1 H2]. rewrite process_event_shape. cbv zeta. rewrite Hi, He. cbn. done.
  - by destruct (process_event_idle now write_ok e p Hi He).
Qed.

(** ** Steps *)

(** What happens to a peer task: an event of a timer, a command or a failed
    connection; a message on the connection, already parsed; what arrives on
    the candidate connection; the end of a connection; and new connections. *)
Inductive PeerInput :=
  | InEvent (e : FsmEvent)
  | InOpen (m : OpenMessage) | InKeepalive | InNotification (n : NotificationMessage)
  | InRouteRefresh (m : RouteRefreshMessage) | InEor (a : AfiSafi) | InDelayOpen (m : OpenMessage)
  | InPendingMsg (r : option (outcome ParserError (list Z)))
  | InConnLost | InCollisionWon | InCollisionLost
  | InDisconnect (damping : bool) (reason : PeerDownReason)
  | InConnectionReady | InAccepted (c : Conn) | InDialed (c : Conn).

Definition drop_result {A} (m : M A) : M () := _ ← m; mret ().

Definition run_input (now : Z) (write_ok : nat -> bool) (i : PeerInput) : M () :=
  match i with
  | InEvent e => process_event now write_ok e
  | InOpen m => handle_open now write_ok m
  | InKeepalive => handle_keepalive now write_ok
  | InNotification n => handle_notification now write_ok n
  | InRouteRefresh m => handle_route_refresh m
  | InEor a => handle_eor_received a
  | InDelayOpen m => process_delay_open now write_ok m
  | InPendingMsg r => handle_conn_pending_msg now write_ok r
  | InConnLost => drop_result (promote_pending_after_conn_loss now write_ok)
  | InCollisionWon => resolve_collision_dialed_wins
  | InCollisionLost => adopt_pending_after_collision_loss now write_ok None
  | InDisconnect d r => disconnect d r
  | InConnectionReady => connection_ready now write_ok
  | InAccepted c => drop_result (on_conn_accepted now write_ok c)
  | InDialed c => dial_succeeded now write_ok c
  end.

(** The state loops dial only in Connect without a connection, and call
    [connection_ready] only with one, in Connect or Active. *)
Definition enabled (p : Peer) (i : PeerInput) : Prop :=
  match i with
  | InConnectionReady => is_Some (conn p)
  | InDialed _ => fsm_state (fsm p) = Connect /\ conn p = None
  | _ => True
  end.
Definition given (i : PeerInput) : list Z :=
  match i with InAccepted c | InDialed c => [conn_id c] | _ => [] end.

(** The states a peer task reaches, with the connections it was given. *)
Inductive reaches (start : Peer) : Peer -> list Z -> Prop :=
  | reach_start : reaches start start []
  | reach_input p ids now write_ok i p' r :
      reaches start p ids -> enabled p i ->
      run_input now write_ok i p = (p', r) -> r <> Panic ->
      reaches start p' (given i ++ ids).

Section input.
Variable now : Z.
Variable write_ok : nat -> bool.

(** An input that brings no connection, for any of the invariants. *)
Lemma run_input_stable R `{!EventStable R} i p :
  given i = [] -> enabled p i -> R p (run_input now write_ok i p).1.
Proof.
  intros Hg He. destruct i; cbn [run_input]; try done.
  - by apply st_process_event.
  - by apply st_handle_open.
  - by apply st_handle_keepalive.
  - by apply st_handle_notification.
  - by apply st_handle_route_refresh.
  - by apply st_handle_eor.
  - by apply st_process_delay_open.
  - by apply st_conn_pending_msg.
  - unfold drop_result. apply st_bind_from; [tc_solve|by apply st_promote|intros; reflexivity].
  - apply st_pending_none.
  - by apply st_adopt_pending.
  - apply st_disconnect.
  - by apply st_connection_ready.
Qed.

Definition with_new_conn (c : Conn) (dialed : bool) (p : Peer) : Peer :=
  with_conn_dialed dialed (with_log (log p ++ (OClose <$> id_list (conn p))) (with_conn (Some c) p)).

Lemma adopt_conn_eq c p : adopt_conn c p = (with_new_conn c false p, Ok ()).
Proof.
  unfold adopt_conn, set_conn, close, read, modify, emit, mbind, M_bind, with_new_conn. cbn.
  destruct p as [a f n b s st cfg pc cp dl lc cd cs ms ea lu pu mr so ro ca gr pr cr lg]. cbn.
  destruct pc; cbn; rewrite ?app_nil_r; done.
Qed.
Lemma dial_eq c p : dial_succeeded now write_ok c p = connection_ready now write_ok (with_new_conn c true p).
Proof.
  unfold dial_succeeded, set_conn, close, read, modify, emit, mbind, M_bind, with_new_conn. cbn.
  destruct p as [a f n b s st cfg pc cp dl lc cd cs ms ea lu pu mr so ro ca gr pr cr lg]. cbn.
  destruct pc; cbn; rewrite ?app_nil_r; done.
Qed.

(** The ways an accepted connection is dealt with. *)
Inductive accepted (c : Conn) (p : Peer) : Peer -> Prop :=
  | acc_dropped : accepted c p (with_log (log p ++ [OClose (conn_id c)]) p)
  | acc_rejected b ok : fsm_state (fsm p) = Established ->
      accepted c p (with_log ((log p ++ [OWrite (conn_id c) b ok]) ++ [OClose (conn_id c)]) p)
  | acc_restart e : fsm_state (fsm p) = Idle -> e = AutomaticStartPassive \/ e = AutomaticStart ->
      accepted c p (try_process_event now write_ok e (with_new_conn c false p)).1
  | acc_ready : fsm_state (fsm p) = Connect \/ fsm_state (fsm p) = Active -> conn p = None ->
      accepted c p (connection_ready now write_ok (with_new_conn c false p)).1
  | acc_candidate : fsm_state (fsm p) <> Idle -> conn_dialed p = true -> conn_pending p = None ->
      accepted c p (with_conn_pending (Some c) p)
  | acc_gr_reconnect :
      fsm_state (fsm p) = Established -> is_Some (graceful_restart (capabilities p)) ->
      accepted c p (with_new_conn c false
        (try_process_event now write_ok TcpConnectionConfirmed (disconnect false RemoteNoNotification p).1).1).

Lemma try_process_event_ok e p : exists p' r, try_process_event now write_ok e p = (p', r) /\ (r = Ok () \/ r = Panic).
Proof. unfold try_process_event, ignore. destruct (process_event now write_ok e p) as [p' [[]| |]]; eauto. Qed.

Lemma on_conn_accepted_cases c p p' r :
  on_conn_accepted now write_ok c p = (p', r) -> r <> Panic -> accepted c p p'.
Proof.
  unfold on_conn_accepted. unfold read at 1, mbind at 1, M_bind at 1. unfold id. cbv beta iota.
  assert (forall (s : BgpState), fsm_state (fsm p) = s -> s <> Idle -> s <> Established ->
    (if bool_decide (s = Connect \/ s = Active) && bool_decide (conn p = None) then
        _ ← adopt_conn c; _ ← connection_ready now write_ok; mret true
      else if bool_decide (s <> OpenConfirm) && conn_dialed p && bool_decide (conn_pending p = None) then
        _ ← set_conn_pending (Some c); mret false
      else drop_accepted c) p = (p', r) -> r <> Panic -> accepted c p p') as Hother.
  { intros s Hs Hi He. case_match eqn:E1.
    - apply andb_true_iff in E1 as [E1%bool_decide_eq_true E1'%bool_decide_eq_true]. unfold mbind at 1, M_bind at 1. rewrite adopt_conn_eq.
      unfold mbind, M_bind. destruct (connection_ready now write_ok (with_new_conn c false p)) as [p1 r1] eqn:Ec.
      intros Hr _. assert (p' = (connection_ready now write_ok (with_new_conn c false p)).1) as ->
        by (rewrite Ec; by destruct r1; injection Hr).
      apply acc_ready; [by rewrite Hs|done].
    - case_match eqn:E2; [|intros [= <- <-] _; apply acc_dropped].
      apply andb_true_iff in E2 as [[_ E2]%andb_true_iff E3%bool_decide_eq_true].
      unfold set_conn_pending, close, read, modify, mbind, M_bind. cbn. rewrite E3.
      intros [= <- <-] _. apply acc_candidate; congruence. }
  destruct (fsm_state (fsm p)) eqn:Es; try (by apply Hother).
  - unfold mbind at 1, M_bind at 1, lift. destruct (get_idle_hold_time p) as [hold|e|] eqn:Eh; [| |by intros [= _ <-]].
    2: { unfold get_idle_hold_time in Eh. repeat case_match; done. }
    case_match; [intros [= <- <-] _; apply acc_dropped|]. unfold mbind at 1, M_bind at 1. rewrite adopt_conn_eq.
    unfold mbind, M_bind. set (e := if cfg_passive_mode _ then _ else _).
    destruct (try_process_event now write_ok e (with_new_conn c false p)) as [p1 r1] eqn:Ec.
    intros Hr _. assert (p' = (try_process_event now write_ok e (with_new_conn c false p)).1) as ->
      by (rewrite Ec; by destruct r1; injection Hr).
    apply acc_restart; [done|]. unfold e. destruct (cfg_passive_mode _); auto.
  - destruct (graceful_restart (capabilities p)) as [gr|] eqn:Eg; cbn [negb];
      [destruct (bool_decide (gr_afi_safi_list gr = [])); cbn [negb]|].
    1, 3: intros Hr _; unfold reject_connection, read, emit, modify, mbind, M_bind in Hr; injection Hr as <- <-;
      exact (acc_rejected c p _ _ Es).
    unfold mbind at 1, M_bind at 1. destruct (disconnect_spec false RemoteNoNotification p) as (p1 & Ed & _). rewrite Ed.
    unfold mbind at 1, M_bind at 1.
    destruct (try_process_event_ok TcpConnectionConfirmed p1) as (p2 & r2 & Et & [-> | ->]); rewrite Et; [|by intros [= _ <-]].
    unfold mbind, M_bind. rewrite adopt_conn_eq. intros [= <- <-] _.
    assert (p2 = (try_process_event now write_ok TcpConnectionConfirmed (disconnect false RemoteNoNotification p).1).1) as ->
      by (by rewrite Ed; cbn; rewrite Et).
    apply acc_gr_reconnect; [done|by rewrite Eg].
Qed.
End input.

Lemma drop_result_inv {A} (m : M A) p p' r :
  drop_result m p = (p', r) -> r <> Panic -> exists r', m p = (p', r') /\ r' <> Panic.
Proof.
  unfold drop_result, mbind, M_bind. destruct (m p) as [q [a|e|]]; intros [= <- <-] Hr; eexists; (split; [done|]); done.
Qed.

(** An input that brings a connection, for an invariant [I] of the state. *)
Section new_conn.
Variable now : Z.
Variable write_ok : nat -> bool.

Lemma inv_with_new_conn c d p : peer_inv p -> (is_Some (conn_pending p) -> d = true) -> peer_inv (with_new_conn c d p).
Proof. intros [H1 H2 H3 H4] Hd. split; cbn; [by eexists| |by eexists|done]. intros Hp. split; [by eexists|auto]. Qed.

Lemma pending_none_of p : peer_inv p -> conn p = None -> conn_pending p = None.
Proof.
  intros [_ H2 _ _] Hc. destruct (conn_pending p); [|done]. destruct H2 as [H _]; [by eexists|].
  rewrite Hc in H. by apply not_is_Some_None in H.
Qed.

(** The machine after an established session is replaced. *)
Lemma gr_reconnect_conn p :
  fsm_state (fsm p) = Established -> conn p = None ->
  let q := (try_process_event now write_ok TcpConnectionConfirmed p).1 in
  conn q = None /\ fsm_state (fsm q) <> Idle.
Proof.
  intros Hs Hc. cbv zeta. unfold try_process_event, ignore.
  pose proof (process_event_state now write_ok TcpConnectionConfirmed p) as Hst.
  pose proof (process_event_shape now write_ok TcpConnectionConfirmed p) as Hsh.
  destruct (process_event now write_ok TcpConnectionConfirmed p) as [q rq]. cbn [fst] in Hst, Hsh.
  assert (conn q = None /\ fsm_state (fsm q) <> Idle) as Hq; [|by destruct rq].
  unfold next_state in Hst, Hsh. rewrite Hs in Hst, Hsh. cbn in Hst.
  split; [|rewrite Hst; by destruct (graceful_restart_negotiated (fsm p))].
  rewrite Hsh. by destruct (graceful_restart_negotiated (fsm p)).
Qed.

Lemma accepted_inv c p p' :
  peer_inv p -> idle_inv p -> accepted now write_ok c p p' -> peer_inv p' /\ idle_inv p'.
Proof.
  intros Hi Hd [|b ok _|e Hs He|Hs Hc|Hs Hdial Hn|Hs Hgr].
  - destruct Hi, Hd. split; by split.
  - destruct Hi, Hd. split; by split.
  - split.
    + apply (st_try_process_event inv_kept), inv_with_new_conn; [done|].
      destruct (ii_idle _ Hd Hs) as [_ ->]. by intros ?%not_is_Some_None.
    + split. unfold try_process_event, ignore.
      pose proof (process_event_state now write_ok e (with_new_conn c false p)) as Hst.
      destruct (process_event now write_ok e (with_new_conn c false p)) as [q rq]. cbn [fst] in Hst.
      assert (fsm_state (fsm q) <> Idle)
        by (rewrite Hst; unfold next_state; cbn; rewrite Hs; by destruct He as [-> | ->]).
      by destruct rq.
  - pose proof (pending_none_of p Hi Hc) as Hn. assert (is_Some (conn (with_new_conn c false p))) as Hc' by by eexists.
    split.
    + apply (st_connection_ready inv_kept now write_ok _ Hc'), inv_with_new_conn; [done|].
      rewrite Hn. by intros ?%not_is_Some_None.
    + apply (st_connection_ready idle_kept now write_ok _ Hc'). split. cbn. by destruct Hs as [-> | ->].
  - destruct Hi as [H1 H2 H3 H4]. split; split; cbn; try done; auto.
  - destruct (disconnect_spec false RemoteNoNotification p) as (p1 & Ed & Hdown & Hu & _). rewrite Ed. cbn [fst].
    destruct (gr_reconnect_conn p1) as [Hc Hst]; [by rewrite (ut_state _ _ Hu)|apply Hdown|].
    set (q := (try_process_event now write_ok TcpConnectionConfirmed p1).1) in *.
    assert (peer_inv q) as Hq.
    { apply (st_try_process_event inv_kept). change p1 with (p1, Ok (E := PeerError) ()).1. rewrite <- Ed.
      by apply (st_disconnect (R := inv_kept)). }
    split; [apply inv_with_new_conn; [done|]; rewrite (pending_none_of q Hq Hc); by intros ?%not_is_Some_None|].
    split. intros Hidle. by destruct Hst.
Qed.
End new_conn.

Lemma run_input_reaches start p ids now write_ok i :
  reaches start p ids -> enabled p i -> (run_input now write_ok i p).2 <> Panic ->
  reaches start (run_input now write_ok i p).1 (given i ++ ids).
Proof. intros H He Hp. eapply reach_input; [done..| |exact Hp]. apply surjective_pairing. Qed.

Definition demo_peer : Peer := peer_new (IpV4 0x0A000002) (demo_local 65001 1) (demo_config [] ApDisabled false).
Definition demo_accept : list PeerInput :=
  [InAccepted (mkConn 1 None); InConnectionReady; InKeepalive; InAccepted (mkConn 2 None)].

(** The inputs run one after the other, at one instant, with working writes. *)
Definition run_all (start : Peer) (l : list PeerInput) : Peer :=
  foldl (fun p i => (run_input 0 (fun _ => true) i p).1) start l.

Lemma demo_reached : reaches demo_peer (run_all demo_peer demo_accept) [2; 1].
Proof.
  apply (run_input_reaches demo_peer _ _ 0 (fun _ => true) (InAccepted (mkConn 2 None))); [|done|by vm_compute].
  apply (run_input_reaches demo_peer _ _ 0 (fun _ => true) InKeepalive); [|done|by vm_compute].
  apply (run_input_reaches demo_peer _ _ 0 (fun _ => true) InConnectionReady); [|by vm_compute; eexists|by vm_compute].
  apply (run_input_reaches demo_peer _ _ 0 (fun _ => true) (InAccepted (mkConn 1 None))); [apply reach_start|done|by vm_compute].
Qed.

(** What the state loops rely on.  In every state a peer task can reach:
    while the DelayOpen timer runs there is a connection (the loops expect
    it and would panic without); a candidate is held only next to a
    connection the task has dialed itself; in Idle there is no connection at
    all; and the machine restarts gracefully exactly when the stored
    capabilities say so. *)
Theorem peer_states_sound a lc cfg p ids :
  reaches (peer_new a lc cfg) p ids -> peer_inv p /\ idle_inv p.
Proof.
  induction 1 as [|p ids now write_ok i p' r Hreach [Hi Hd] Hen Hrun Hp].
  { split; [split|split]; cbn; try done; by intros ?%not_is_Some_None. }
  destruct (decide (given i = [])) as [Hg|Hg].
  - pose proof (run_input_stable now write_ok inv_kept i p Hg Hen) as H1.
    pose proof (run_input_stable now write_ok idle_kept i p Hg Hen) as H2. rewrite Hrun in H1, H2. auto.
  - destruct i; try done; cbn [given run_input enabled] in *.
    + destruct (drop_result_inv _ _ _ _ Hrun Hp) as (r' & Hr & Hr'). apply on_conn_accepted_cases in Hr; [|done].
      by eapply accepted_inv.
    + destruct Hen as [Hs Hc]. rewrite dial_eq in Hrun. pose proof (pending_none_of p Hi Hc) as Hn.
      assert (is_Some (conn (with_new_conn c true p))) as Hc' by by eexists.
      pose proof (st_connection_ready inv_kept now write_ok _ Hc') as H1.
      pose proof (st_connection_ready idle_kept now write_ok _ Hc') as H2. rewrite Hrun in H1, H2.
      split; [by apply H1, inv_with_new_conn|]. apply H2. split. cbn. by rewrite Hs.
Qed.

Lemma peer_states_sound_witness :
  let p := run_all demo_peer demo_accept in peer_inv p /\ idle_inv p.
Proof.
  apply (peer_states_sound (IpV4 0x0A000002) (demo_local 65001 1) (demo_config [] ApDisabled false) _ [2; 1]).
  apply demo_reached.
Defined.

(** * Accepting and refusing an OPEN ([enter_open_confirm] of
    [bgpgg/src/peer/messages.rs]) and the hold timer that follows *)

(** An OPEN the speaker can live with: not its own identifier from its own
    AS; the AS number it expects, if it expects one; a family in common,
    unless the peer announces none; and four-octet AS numbers when its own
    needs them. *)
Record open_acceptable (lc : LocalConfig) (cfg : PeerConfig) (params : BgpOpenParams) : Prop := {
  oa_id : ~ (peer_asn params = lc_asn lc /\ peer_bgp_id params = lc_bgp_id lc);
  oa_asn a : cfg_asn cfg = Some a -> peer_asn params = a;
  oa_family : multiprotocol (peer_capabilities params) <> ∅ ->
    exists f, f ∈ advertised_afi_safis cfg /\ f ∈ multiprotocol (peer_capabilities params);
  oa_wide : MAX_2BYTE_ASN < lc_asn lc -> is_Some (four_octet_asn (peer_capabilities params));
}.

(** The state after the session parameters are stored. *)
Record negotiated (now : Z) (params : BgpOpenParams) (p p' : Peer) : Prop := {
  ng_asn : asn p' = Some (peer_asn params);
  ng_type : session_type p' = Some (if peer_asn params =? local_asn params then SIbgp else SEbgp);
  ng_caps : capabilities p' = negotiate (config p) (peer_capabilities params);
  ng_gr : graceful_restart_negotiated (fsm p') = bool_decide (is_Some (graceful_restart (peer_capabilities params)));
  ng_hold : hold_time (timers (fsm p')) = from_secs (Z.min (local_hold_time params) (peer_hold_time params));
  ng_keepalive : keepalive_time (timers (fsm p')) = from_secs (Z.min (local_hold_time params) (peer_hold_time params) / 3);
  ng_state : fsm_state (fsm p') = fsm_state (fsm p);
}.

Lemma reject_open_eq write_ok {A} e d p c :
  conn p = Some c ->
  let ok := write_ok (length (log p)) in
  exists p', reject_open (A := A) write_ok e d p =
      (p', Err (PeIoError (if can_send_notification p && negb ok then WriteFailed else InvalidData))) /\
    log p' = log p ++ (if can_send_notification p
                       then [OWrite (conn_id c) (notification_bytes (mkNotification (EOpenMessage e) d)) ok] else []).
Proof.
  intros Hc ok. unfold reject_open, send_notification, conn_write, throw, read, mbind, M_bind. cbv beta iota.
  destruct (can_send_notification p); cbn [negb andb]; [|eexists; by rewrite app_nil_r].
  rewrite Hc. fold ok. by destruct ok; eexists.
Qed.

Lemma bind_read {A B} (f : Peer -> A) (k : A -> M B) p : (read f ≫= k) p = k (f p) p.
Proof. done. Qed.
Lemma bind_modify {B} f (k : () -> M B) p : (modify f ≫= k) p = k () (f p).
Proof. done. Qed.
Lemma bind_update_fsm {B} f (k : () -> M B) p : (update_fsm f ≫= k) p = k () (with_fsm (f (fsm p)) p).
Proof. done. Qed.
Lemma bind_assoc_ret {A B} (m : M A) p p' r (k : A -> M B) :
  m p = (p', r) -> (m ≫= k) p = match r with Ok a => k a p' | Err e => (p', Err e) | Panic => (p', Panic) end.
Proof. intros E. unfold mbind, M_bind. rewrite E. by destruct r. Qed.

(** A check that refuses the OPEN, or goes on. *)
Lemma bind_check {B} write_ok (b : bool) e d (k : () -> M B) p c q :
  conn q = Some c -> log q = log p -> can_send_notification q = can_send_notification p ->
  (if b then
     exists p', ((if b then reject_open write_ok e d else mret ()) ≫= k) q =
        (p', Err (PeIoError (if can_send_notification p && negb (write_ok (length (log p))) then WriteFailed else InvalidData))) /\
      log p' = log p ++ (if can_send_notification p
        then [OWrite (conn_id c) (notification_bytes (mkNotification (EOpenMessage e) d)) (write_ok (length (log p)))] else [])
   else ((if b then reject_open write_ok e d else mret ()) ≫= k) q = k () q).
Proof.
  intros Hc Hl Hs. destruct b; [|done]. destruct (reject_open_eq write_ok (A := ()) e d q c Hc) as (p' & E & El).
  rewrite (bind_assoc_ret _ _ _ _ k E). rewrite Hl, Hs in *. by exists p'.
Qed.

Definition refused (c : Conn) (write_ok : nat -> bool) (p p' : Peer) (r : outcome PeerError ()) : Prop :=
  let ok := write_ok (length (log p)) in
  r = Err (PeIoError (if can_send_notification p && negb ok then WriteFailed else InvalidData)) /\
  exists e d, log p' = log p ++
    (if can_send_notification p then [OWrite (conn_id c) (notification_bytes (mkNotification (EOpenMessage e) d)) ok] else []).

(** The KEEPALIVE that confirms the OPEN, the timers and the server's
    notice. *)
Definition confirm_tail (now : Z) (write_ok : nat -> bool) (params : BgpOpenParams) : M () :=
  let hold := Z.min (local_hold_time params) (peer_hold_time params) in
  _ ← update_timers (set_negotiated_hold_time hold);
  _ ← send_keepalive now write_ok;
  _ ← (if negb (hold =? 0) then update_timers (reset_hold_timer now)
       else _ ← update_timers stop_keepalive_timer; update_timers stop_hold_timer);
  send_server (PeerHandshakeComplete (peer_asn params)).

Lemma as_from_secs s : as_secs (from_secs s) = s.
Proof. unfold as_secs, from_secs. apply Z.div_mul. lia. Qed.

Lemma confirm_tail_spec now write_ok params p c :
  conn p = Some c -> 0 <= local_hold_time params -> 0 <= peer_hold_time params ->
  let hold := Z.min (local_hold_time params) (peer_hold_time params) in
  let ok := write_ok (length (log p)) in
  let '(p', r) := confirm_tail now write_ok params p in
  r = (if ok then Ok () else Err (PeIoError WriteFailed)) /\
  log p' = log p ++ OWrite (conn_id c) (serialize MtKeepalive keepalive_to_bytes) ok ::
    (if ok then [OServer (addr p) (PeerHandshakeComplete (peer_asn params))] else []) /\
  hold_time (timers (fsm p')) = from_secs hold /\ keepalive_time (timers (fsm p')) = from_secs (hold / 3) /\
  (ok = true -> hold_timer_started (timers (fsm p')) = (if hold =? 0 then None else Some now) /\
                keepalive_timer_started (timers (fsm p')) = (if hold =? 0 then None else Some now)) /\
  asn p' = asn p /\ session_type p' = session_type p /\ capabilities p' = capabilities p /\
  graceful_restart_negotiated (fsm p') = graceful_restart_negotiated (fsm p) /\ fsm_state (fsm p') = fsm_state (fsm p) /\
  conn p' = conn p /\ conn_pending p' = conn_pending p /\ conn_dialed p' = conn_dialed p /\ addr p' = addr p.
Proof.
  intros Hc Hl Hp hold ok. unfold confirm_tail. fold hold.
  unfold send_keepalive, conn_write, update_stats, send_server, update_timers, emit, read, modify, mbind, M_bind.
  cbn -[serialize]. rewrite Hc. fold ok. destruct ok; cbn -[serialize]; [|by split_and!].
  unfold hold_time_nonzero. cbn -[serialize]. rewrite as_from_secs.
  destruct (Z.ltb_spec 0 hold), (Z.eqb_spec hold 0); try (exfalso; unfold hold in *; lia); cbn -[serialize];
    rewrite <- app_assoc; by split_and!.
Qed.

Lemma bind_bind_read {A B C} (f : Peer -> A) (g : A -> M B) (k : B -> M C) p :
  ((read f ≫= g) ≫= k) p = (g (f p) ≫= k) p.
Proof. done. Qed.

Definition with_negotiated (params : BgpOpenParams) (p : Peer) : Peer :=
  let p := with_session_type (Some (if peer_asn params =? local_asn params then SIbgp else SEbgp))
             (with_asn (Some (peer_asn params)) p) in
  let p := with_capabilities (negotiate (config p) (peer_capabilities params)) p in
  with_fsm (set_graceful_restart_negotiated (bool_decide (is_Some (graceful_restart (peer_capabilities params)))) (fsm p)) p.

(** The checks one by one: either one of them refuses the OPEN, and it is not
    acceptable, or the parameters are stored and the OPEN is confirmed. *)
Lemma enter_open_confirm_cases now write_ok params p c :
  conn p = Some c ->
  (~ open_acceptable (local_config p) (config p) params /\
     refused c write_ok p (enter_open_confirm now write_ok params p).1 (enter_open_confirm now write_ok params p).2) \/
  (open_acceptable (local_config p) (config p) params /\
     enter_open_confirm now write_ok params p = confirm_tail now write_ok params (with_negotiated params p)).
Proof.
  intros Hc. unfold enter_open_confirm, validate_peer_bgp_id, validate_peer_asn. cbv zeta. rewrite bind_bind_read.
  set (b1 := (peer_asn params =? lc_asn (local_config p)) && (peer_bgp_id params =? lc_bgp_id (local_config p))).
  match goal with |- context [(_ ≫= ?k) p] =>
    pose proof (bind_check write_ok b1 BadBgpIdentifier [] k p c p Hc eq_refl eq_refl) as H1; set (k1 := k) in * end.
  destruct b1 eqn:E1.
  { left. destruct H1 as (p' & -> & Hl). split; [|by split; [|eexists _, _; exact Hl]]. unfold b1 in E1. bool_props. intros []. tauto. }
  rewrite H1. unfold k1. clear H1 k1. rewrite bind_bind_read.
  set (b2 := match cfg_asn (config p) with Some a => negb (peer_asn params =? a) | None => false end).
  match goal with |- context [(_ ≫= ?k) p] =>
    pose proof (bind_check write_ok b2 BadPeerAs [] k p c p Hc eq_refl eq_refl) as H2; set (k2 := k) in * end.
  replace (match cfg_asn (config p) with
           | Some a => if peer_asn params =? a then mret () else reject_open write_ok BadPeerAs []
           | None => mret () end : M ())
    with (if b2 then reject_open write_ok BadPeerAs [] else mret () : M ())
    by (unfold b2; destruct (cfg_asn (config p)) as [a|]; [destruct (peer_asn params =? a); reflexivity|reflexivity]).
  destruct b2 eqn:E2.
  { left. destruct H2 as (p' & -> & Hl). split; [|by split; [|eexists _, _; exact Hl]]. unfold b2 in E2.
    intros []. destruct (cfg_asn (config p)) as [a|]; [|done]. bool_props. by specialize (oa_asn0 a eq_refl). }
  rewrite H2. unfold k2. clear H2 k2. rewrite !bind_modify, bind_read.
  set (p3 := with_session_type _ _). change (config p3) with (config p).
  set (b3 := bool_decide (negotiate_multiprotocol (advertised_afi_safis (config p)) (multiprotocol (peer_capabilities params)) = ∅) && _).
  match goal with |- context [(_ ≫= ?k) p3] =>
    pose proof (bind_check write_ok b3 UnsupportedCapability
      (concat ((fun a => cap_to_bytes (new_multiprotocol a)) <$> advertised_afi_safis (config p))) k p c p3 Hc eq_refl eq_refl) as H3;
    set (k3 := k) in * end.
  destruct b3 eqn:E3.
  { left. destruct H3 as (p' & -> & Hl). split; [|by split; [|eexists _, _; exact Hl]]. unfold b3 in E3. bool_props. intros [].
    destruct oa_family0 as (f & Hf1 & Hf2); [done|]. unfold negotiate_multiprotocol in *. set_solver. }
  rewrite H3. unfold k3. clear H3 k3. rewrite bind_modify, bind_update_fsm, bind_read.
  set (p4 := with_fsm _ (with_capabilities _ p3)). change (local_config p4) with (local_config p).
  set (b4 := (MAX_2BYTE_ASN <? lc_asn (local_config p)) && _).
  match goal with |- context [(_ ≫= ?k) p4] =>
    pose proof (bind_check write_ok b4 UnsupportedOptionalParameter [] k p c p4 Hc eq_refl eq_refl) as H4;
    set (k4 := k) in * end.
  destruct b4 eqn:E4.
  { left. destruct H4 as (p' & -> & Hl). split; [|by split; [|eexists _, _; exact Hl]]. unfold b4 in E4. bool_props. intros [].
    destruct oa_wide0 as [v Hv]; [done|]. congruence. }
  rewrite H4. clear H4. right. split;
    [|assert (p4 = with_negotiated params p) as -> by reflexivity; unfold k4, confirm_tail; cbv zeta; reflexivity].
  split.
  - intros [Ha Hb]. unfold b1 in E1. by rewrite Ha, Hb, !Z.eqb_refl in E1.
  - intros a Ha. unfold b2 in E2. rewrite Ha in E2. by bool_props.
  - intros Hne. unfold b3 in E3. rewrite (bool_decide_eq_false_2 (multiprotocol _ = ∅)), andb_true_r in E3 by done.
    apply bool_decide_eq_false in E3. apply set_choose_L in E3 as [f Hf]. exists f.
    unfold negotiate_multiprotocol in Hf. set_solver.
  - intros Hw. unfold b4 in E4. destruct (Z.ltb_spec MAX_2BYTE_ASN (lc_asn (local_config p))); [|lia].
    cbn in E4. apply bool_decide_eq_false in E4. by destruct (four_octet_asn _); [eexists|].
Qed.

(** Accepting an OPEN.  An acceptable OPEN stores the session parameters,
    writes exactly one KEEPALIVE, and, when that write succeeds, tells the
    server and starts both timers (neither of them when the negotiated hold
    time is zero); the hold time is the smaller of the two offers and the
    keepalive time a third of it.  Any other OPEN is answered by at most one
    NOTIFICATION and an error, and never by a KEEPALIVE. *)
Theorem open_confirm_exact now write_ok params p c :
  conn p = Some c -> 0 <= local_hold_time params -> 0 <= peer_hold_time params ->
  let '(p', r) := enter_open_confirm now write_ok params p in
  let hold := Z.min (local_hold_time params) (peer_hold_time params) in
  let ok := write_ok (length (log p)) in
  (open_acceptable (local_config p) (config p) params /\
    r = (if ok then Ok () else Err (PeIoError WriteFailed)) /\ negotiated now params p p' /\
    log p' = log p ++ OWrite (conn_id c) (serialize MtKeepalive keepalive_to_bytes) ok ::
      (if ok then [OServer (addr p) (PeerHandshakeComplete (peer_asn params))] else []) /\
    (ok = true -> hold_timer_started (timers (fsm p')) = (if hold =? 0 then None else Some now) /\
                  keepalive_timer_started (timers (fsm p')) = (if hold =? 0 then None else Some now))) \/
  (~ open_acceptable (local_config p) (config p) params /\ refused c write_ok p p' r).
Proof.
  intros Hc Hl Hp. pose proof (enter_open_confirm_cases now write_ok params p c Hc) as H.
  destruct (enter_open_confirm now write_ok params p) as [p' r]. cbv zeta. cbn [fst snd] in H.
  destruct H as [H|[Ha E]]; [by right|]. left. split; [done|].
  pose proof (confirm_tail_spec now write_ok params (with_negotiated params p) c Hc Hl Hp) as H.
  rewrite <- E in H. cbv zeta in H. change (log (with_negotiated params p)) with (log p) in H.
  destruct H as (Hr & Hlog & Hh & Hk & Ht & Hasn & Hty & Hcaps & Hgr & Hst & _).
  split_and!; [exact Hr| |exact Hlog|exact Ht]. split; [exact Hasn|exact Hty|exact Hcaps|exact Hgr|exact Hh|exact Hk|exact Hst].
Qed.

Definition demo_open : BgpOpenParams :=
  mkOpenParams 65002 90 2 65001 180 (negotiate (demo_config [] ApDisabled false) caps_default).
Definition demo_waiting : Peer :=
  with_conn (Some (mkConn 1 None)) (peer_new (IpV4 0x0A000002) (demo_local 65001 1) (demo_config [] ApDisabled false)).

Lemma open_confirm_exact_witness :
  let '(p', r) := enter_open_confirm 5 (fun _ => true) demo_open demo_waiting in
  r = Ok () /\ negotiated 5 demo_open demo_waiting p' /\ hold_timer_started (timers (fsm p')) = Some 5.
Proof.
  assert (enter_open_confirm 5 (fun _ => true) demo_open demo_waiting =
    ((enter_open_confirm 5 (fun _ => true) demo_open demo_waiting).1, Ok ())) as E by by vm_compute.
  pose proof (open_confirm_exact 5 (fun _ => true) demo_open demo_waiting (mkConn 1 None) eq_refl) as H.
  rewrite E in H |- *. destruct H as [(_ & _ & Hn & _ & Ht)|[_ [Hr _]]]; [by vm_compute|by vm_compute| |done].
  split_and!; [done|exact Hn|apply Ht; done].
Defined.

(** A session whose negotiated hold time is zero, which must stay up
    without heartbeats, does not survive: the KEEPALIVE that establishes it
    starts the hold timer, which has then expired at every later instant, so
    the state loop's next tick ends the session. *)
Theorem zero_hold_time_expires now later write_ok p :
  fsm_state (fsm p) = OpenConfirm -> hold_time (timers (fsm p)) = 0 ->
  let p' := (process_event now write_ok BgpKeepaliveReceived p).1 in
  fsm_state (fsm p') = Established /\ hold_timer_expired later (timers (fsm p')) = true /\
  fsm_state (fsm (process_event later write_ok HoldTimerExpires p').1) = Idle.
Proof.
  intros Hs Hh p'. rewrite !process_event_state.
  assert (fsm_state (fsm p') = Established) as E.
  { unfold p'. rewrite process_event_state. unfold next_state. by rewrite Hs. }
  split_and!; [done| |unfold next_state; by rewrite E].
  assert (hold_timer_started (timers (fsm p')) = Some now /\ hold_time (timers (fsm p')) = 0) as [H1 H2].
  { unfold p', process_event. rewrite bind_read. unfold fsm_handle_event, handle_event, mbind, M_bind.
    unfold next_state. rewrite Hs. cbn -[send_connection_info notify_state_change].
    unfold send_connection_info, notify_state_change, send_server, emit, read, modify, mbind, M_bind. cbn.
    destruct (sent_open p); [|by rewrite <- Hh]. destruct (received_open p); [|by rewrite <- Hh].
    destruct (conn p) as [c|]; [|by rewrite <- Hh]. destruct (conn_addrs c) as [[[? ?] ?]|]; by rewrite <- Hh. }
  unfold hold_timer_expired, timer_expired. rewrite H1, H2. apply Z.leb_le. unfold elapsed. lia.
Qed.

Definition demo_zero_open : BgpOpenParams :=
  mkOpenParams 65002 0 2 65001 180 (negotiate (demo_config [] ApDisabled false) caps_default).
Definition demo_confirming : Peer :=
  let p := (enter_open_confirm 5 (fun _ => true) demo_zero_open demo_waiting).1 in
  with_fsm (with_fsm_state OpenConfirm (fsm p)) p.

Lemma zero_hold_time_expires_witness :
  hold_timer_started (timers (fsm demo_confirming)) = None /\
  hold_timer_expired 7 (timers (fsm (process_event 7 (fun _ => true) BgpKeepaliveReceived demo_confirming).1)) = true.
Proof. split; [by vm_compute|]. apply (zero_hold_time_expires 7 7 (fun _ => true) demo_confirming); by vm_compute. Defined.
