(* ===== verification/PeerCollision.v ===== *)
(** * Connection collisions, at both ends

    Two speakers have each dialed the other.  Each accepts the connection the
    other dialed as its candidate, and reads the other's OPEN from it: the two
    ends keep the same connection. *)
From S2P Require Import Prelude Wire Net Notification Nlri BgpLs Attrs OpenMsg Msg Path PeerCaps Fsm RibTables LocRib PeerState Peer PeerInv PeerSafe.

(** A peer in OpenSent on the connection it dialed. *)
Record dialing (p : Peer) (lc : LocalConfig) (cfg : PeerConfig) (dialed : Conn) : Prop := {
  di_state : fsm_state (fsm p) = OpenSent;
  di_local : local_config p = lc;
  di_config : config p = cfg;
  di_conn : conn p = Some dialed;
  di_dialed : conn_dialed p = true;
  di_pending : conn_pending p = None;
  di_delay : delay_open_timer_running (timers (fsm p)) = false;
  di_caps : capabilities_suppressed p = false;
}.

(** The other's connection is accepted, and a message arrives on it. *)
Definition on_collision now (write_ok : nat -> bool) (c : Conn) (bytes : list Z) : M () :=
  _ ← on_conn_accepted now write_ok c; handle_conn_pending_msg now write_ok (Some (Ok bytes)).

Definition open_bytes (lc : LocalConfig) (cfg : PeerConfig) : list Z := serialize MtOpen (open_to_bytes (speaker_open lc cfg)).

Lemma parse_open_bytes lc cfg : config_ok lc cfg -> parse_open (open_bytes lc cfg) = Some (speaker_open lc cfg).
Proof.
  intros Hc. assert (open_from_bytes (open_to_bytes (speaker_open lc cfg)) = Ok (speaker_open lc cfg)) as E
    by (apply open_read_write; by apply create_open_ok).
  unfold parse_open, open_bytes. set (body := open_to_bytes _) in *. set (l := serialize MtOpen body).
  assert (l !! 18%nat = Some (message_type_to_u8 MtOpen)) as -> by done. assert (drop 19 l = body) as -> by done.
  by rewrite Z.eqb_refl, E.
Qed.

(** RFC 4271 section 6.8, with the AS numbers of RFC 6286: the connection
    dialed by the higher identifier stays. *)
Definition outranks (lc lc' : LocalConfig) : bool :=
  if lc_bgp_id lc =? lc_bgp_id lc' then lc_asn lc' <? lc_asn lc else lc_bgp_id lc' <? lc_bgp_id lc.

(** Another connection, in OpenSent, is the candidate. *)
Lemma accept_candidate now write_ok p lc cfg d c : dialing p lc cfg d ->
  on_conn_accepted now write_ok c p = (with_conn_pending (Some c) p, Ok false).
Proof.
  intros [Hs _ _ Hc Hd Hp _ _]. unfold on_conn_accepted. unfold read at 1, mbind at 1, M_bind at 1. unfold id. cbv beta iota.
  rewrite Hs. cbn [bool_decide]. rewrite (bool_decide_eq_false_2 (OpenSent = Connect \/ OpenSent = Active)) by (by intros [?|?]).
  cbn [andb]. rewrite (bool_decide_eq_true_2 (OpenSent <> OpenConfirm)), Hd, (bool_decide_eq_true_2 (conn_pending p = None)) by done. cbn [andb].
  unfold set_conn_pending, close, read, modify, mbind, M_bind. cbn. by rewrite Hp.
Qed.

(** The end whose own connection stays. *)
Lemma winner_keeps now write_ok p lc cfg d c lc' cfg' :
  dialing p lc cfg d -> config_ok lc' cfg' -> outranks lc lc' = true ->
  exists p', on_collision now write_ok c (open_bytes lc' cfg') p = (p', Ok ()) /\
    conn p' = Some d /\ conn_pending p' = None /\ log p' = log p ++ [OClose (conn_id c)] /\ fsm_state (fsm p') = OpenSent.
Proof.
  intros Hd Hc Ho. unfold on_collision. rewrite (bind_assoc_ret _ _ _ _ _ (accept_candidate now write_ok p lc cfg d c Hd)).
  unfold handle_conn_pending_msg. rewrite bind_read, (parse_open_bytes _ _ Hc). cbn [local_config with_conn_pending].
  rewrite (di_local _ _ _ _ Hd), (local_wins_spec _ _ _ Hc).
  assert ((if negb (lc_bgp_id lc =? lc_bgp_id lc') then lc_bgp_id lc' <? lc_bgp_id lc else lc_asn lc' <? lc_asn lc) = true) as ->
    by (rewrite <- Ho; unfold outranks; by destruct (_ =? _)).
  unfold resolve_collision_dialed_wins, set_conn_pending, close, emit, read, modify, mbind, M_bind. cbn.
  eexists. split; [done|]. cbn. by split_and!; [apply (di_conn _ _ _ _ Hd)| | |apply (di_state _ _ _ _ Hd)].
Qed.

(** The end that gives way: it announces the collision on the connection it
    dialed, closes it, and goes on with the candidate. *)
Definition farewell (p : Peer) (d : Conn) : list Output :=
  if can_send_notification p then [OWrite (conn_id d) (notification_bytes (cease ConnectionCollisionResolution)) true] else [].
Section gives_way.
Variables (now : Z) (write_ok : nat -> bool).
Hypothesis writes : forall n, write_ok n = true.

Lemma farewell_sent p d : conn p = Some d -> exists p',
  ignore (send_notification write_ok (cease ConnectionCollisionResolution)) p = (p', Ok ()) /\
  log p' = log p ++ farewell p d /\ conn p' = conn p /\ conn_pending p' = conn_pending p /\ fsm p' = fsm p /\
  local_config p' = local_config p /\ config p' = config p /\ capabilities_suppressed p' = capabilities_suppressed p /\ addr p' = addr p.
Proof.
  intros Hc. unfold ignore, send_notification, conn_write, update_stats, read, modify, mbind, M_bind, farewell. cbv beta iota.
  destruct (can_send_notification p); cbn [negb]; [|eexists; by rewrite app_nil_r].
  rewrite Hc, writes. eexists. split; [done|]. cbn. by rewrite Hc.
Qed.

Lemma replaced p d c : conn p = Some d -> conn_pending p = Some c -> exists p',
  replace_conn_with_pending p = (p', Ok true) /\ log p' = log p ++ [OClose (conn_id d)] /\
  conn p' = Some c /\ conn_pending p' = None /\ fsm p' = fsm p /\ local_config p' = local_config p /\ config p' = config p /\
  capabilities_suppressed p' = capabilities_suppressed p /\ addr p' = addr p.
Proof.
  intros Hc Hp. unfold replace_conn_with_pending, set_conn, close, emit, read, modify, mbind, M_bind. cbn. rewrite Hp. cbn. rewrite Hc. cbn.
  eexists. split; [done|]. by cbn.
Qed.

Lemma opened p c : conn p = Some c -> capabilities_suppressed p = false -> exists p',
  send_open write_ok p = (p', Ok ()) /\ log p' = log p ++ [OWrite (conn_id c) (open_bytes (local_config p) (config p)) true] /\
  conn p' = Some c /\ conn_pending p' = conn_pending p /\ fsm p' = fsm p /\ local_config p' = local_config p /\ config p' = config p /\ addr p' = addr p.
Proof.
  intros Hc Hs. unfold send_open, conn_write, update_stats, read, modify, mbind, M_bind. cbv beta iota. rewrite Hc, writes, Hs.
  eexists. split; [done|]. by cbn.
Qed.

(** An acceptable OPEN in OpenSent is confirmed. *)
Lemma confirmed p c open : conn p = Some c -> fsm_state (fsm p) = OpenSent ->
  let params := open_params (local_config p) open in
  open_acceptable (local_config p) (config p) params -> 0 <= local_hold_time params -> 0 <= peer_hold_time params ->
  exists p', handle_open now write_ok open p = (p', Ok ()) /\
    log p' = log p ++ [OWrite (conn_id c) (serialize MtKeepalive keepalive_to_bytes) true;
                       OServer (addr p) (PeerHandshakeComplete (peer_asn params)); OServer (addr p) (PeerStateChanged OpenConfirm)] /\
    conn p' = Some c /\ conn_pending p' = conn_pending p /\ fsm_state (fsm p') = OpenConfirm.
Proof.
  intros Hc Hs params Ha Hl Hp. unfold handle_open, track_open, update_stats. rewrite !bind_modify, bind_read.
  set (q := with_bgp_id _ _). change (local_config q) with (local_config p). fold params.
  unfold process_event. rewrite bind_read. change (fsm_state (fsm q)) with (fsm_state (fsm p)). rewrite Hs.
  unfold fsm_handle_event, handle_event. unfold mbind at 1, M_bind at 1.
  assert (next_state (fsm q) (BgpOpenReceived params) = OpenConfirm) as -> by (unfold next_state; change (fsm_state (fsm q)) with (fsm_state (fsm p)); by rewrite Hs).
  cbn [dispatch_transition handle_opensent_transitions]. set (q1 := with_fsm _ q).
  assert (exists q2, (_ ← update_timers stop_delay_open_timer; _ ← update_timers stop_connect_retry; enter_open_confirm now write_ok params : M ()) q1 =
    confirm_tail now write_ok params (with_negotiated params q2) /\ conn q2 = Some c /\ log q2 = log p /\ addr q2 = addr p /\
    conn_pending q2 = conn_pending p /\ fsm_state (fsm q2) = OpenConfirm) as (q2 & E & E1 & E2 & E3 & E4 & E5).
  { unfold update_timers. rewrite !bind_modify. set (q2 := with_fsm _ (with_fsm _ q1)). exists q2.
    destruct (enter_open_confirm_cases now write_ok params q2 c Hc) as [[Hn _]|[_ E]]; [by destruct Hn|].
    by rewrite E. }
  pose proof (confirm_tail_spec now write_ok params (with_negotiated params q2) c E1 Hl Hp) as H. cbv zeta in H.
  rewrite writes in H. destruct (confirm_tail now write_ok params (with_negotiated params q2)) as [p3 r].
  destruct H as (-> & Hlog & _ & _ & _ & _ & _ & _ & _ & Hst & Hcn & Hpn & _ & Had).
  rewrite (bind_assoc_ret _ _ _ _ _ E). rewrite bool_decide_eq_true_2 by done. unfold notify_state_change, send_server. rewrite bind_read.
  change (fsm_state (fsm (with_negotiated params q2))) with (fsm_state (fsm q2)) in Hst. change (addr (with_negotiated params q2)) with (addr q2) in *.
  change (log (with_negotiated params q2)) with (log q2) in Hlog. change (conn (with_negotiated params q2)) with (conn q2) in Hcn.
  change (conn_pending (with_negotiated params q2)) with (conn_pending q2) in Hpn.
  rewrite Hst, E5. unfold emit, read, modify, mbind, M_bind. cbn -[serialize]. eexists. split; [done|]. cbn -[serialize].
  rewrite Hlog, Had, E3, E2, <- app_assoc. split_and!; [done|by rewrite Hcn|by rewrite Hpn|by rewrite Hst].
Qed.

(** The whole step. *)
Lemma loser_adopts p lc cfg d c lc' cfg' :
  dialing p lc cfg d -> config_ok lc' cfg' -> outranks lc lc' = false ->
  let params := open_params lc (speaker_open lc' cfg') in
  open_acceptable lc cfg params -> 0 <= local_hold_time params -> 0 <= peer_hold_time params ->
  exists p', on_collision now write_ok c (open_bytes lc' cfg') p = (p', Ok ()) /\
    conn p' = Some c /\ conn_pending p' = None /\ fsm_state (fsm p') = OpenConfirm /\
    log p' = log p ++ farewell p d ++
      [OClose (conn_id d); OWrite (conn_id c) (open_bytes lc cfg) true; OWrite (conn_id c) (serialize MtKeepalive keepalive_to_bytes) true;
       OServer (addr p) (PeerHandshakeComplete (peer_asn params)); OServer (addr p) (PeerStateChanged OpenConfirm)].
Proof.
  intros Hd Hc Ho params Ha Hl Hp. unfold on_collision. rewrite (bind_assoc_ret _ _ _ _ _ (accept_candidate now write_ok p lc cfg d c Hd)).
  unfold handle_conn_pending_msg. rewrite bind_read, (parse_open_bytes _ _ Hc). cbn [local_config with_conn_pending].
  rewrite (di_local _ _ _ _ Hd), (local_wins_spec _ _ _ Hc).
  assert ((if negb (lc_bgp_id lc =? lc_bgp_id lc') then lc_bgp_id lc' <? lc_bgp_id lc else lc_asn lc' <? lc_asn lc) = false) as ->
    by (rewrite <- Ho; unfold outranks; by destruct (_ =? _)).
  destruct Hd as [Hs Hlc Hcfg Hcn Hdl Hpn Hdel Hsup]. set (p1 := with_conn_pending (Some c) p).
  unfold adopt_pending_after_collision_loss. rewrite bind_read. change (timers (fsm p1)) with (timers (fsm p)). rewrite Hdel. cbn [negb].
  destruct (farewell_sent p1 d Hcn) as (p2 & E2 & L2 & C2 & P2 & F2 & LC2 & CF2 & S2 & A2). rewrite (bind_assoc_ret _ _ _ _ _ E2).
  destruct (replaced p2 d c) as (p3 & E3 & L3 & C3 & P3 & F3 & LC3 & CF3 & S3 & A3); [by rewrite C2|by rewrite P2|].
  rewrite (bind_assoc_ret _ _ _ _ _ E3). cbn [negb]. unfold send_open_then.
  destruct (opened p3 c C3) as (p4 & E4 & L4 & C4 & P4 & F4 & LC4 & CF4 & A4); [rewrite S3, S2; exact Hsup|]. rewrite E4.
  assert (local_config p4 = lc) as Elc by (rewrite LC4, LC3, LC2; exact Hlc).
  assert (config p4 = cfg) as Ecf by (rewrite CF4, CF3, CF2; exact Hcfg).
  pose proof (confirmed p4 c (speaker_open lc' cfg') C4) as H. rewrite Elc, Ecf in H. fold params in H.
  destruct H as (p5 & E5 & L5 & C5 & P5 & S5); [rewrite F4, F3, F2; exact Hs|done..|].
  unfold on_error. rewrite E5. exists p5. split_and!; [done|done|by rewrite P5, P4|done|].
  rewrite L5, L4, L3, L2, A4, A3, A2, LC3, LC2, CF3, CF2. change (log p1) with (log p). change (addr p1) with (addr p).
  change (local_config p1) with (local_config p). change (config p1) with (config p). rewrite Hlc, Hcfg. by rewrite <- !app_assoc.
Qed.
End gives_way.

(** The outcome at the end whose connection stays, and at the other. *)
Record keeps_dialed (p p' : Peer) (dialed accepted : Conn) : Prop := {
  kd_conn : conn p' = Some dialed;
  kd_pending : conn_pending p' = None;
  kd_state : fsm_state (fsm p') = OpenSent;
  kd_log : log p' = log p ++ [OClose (conn_id accepted)];
}.
Record takes_accepted (p p' : Peer) (lc : LocalConfig) (cfg : PeerConfig) (params : BgpOpenParams) (dialed accepted : Conn) : Prop := {
  ta_conn : conn p' = Some accepted;
  ta_pending : conn_pending p' = None;
  ta_state : fsm_state (fsm p') = OpenConfirm;
  ta_log : log p' = log p ++ farewell p dialed ++
    [OClose (conn_id dialed); OWrite (conn_id accepted) (open_bytes lc cfg) true;
     OWrite (conn_id accepted) (serialize MtKeepalive keepalive_to_bytes) true;
     OServer (addr p) (PeerHandshakeComplete (peer_asn params)); OServer (addr p) (PeerStateChanged OpenConfirm)];
}.

Lemma outranks_antisym lca lcb : speaker_key lca <> speaker_key lcb -> outranks lcb lca = negb (outranks lca lcb).
Proof.
  intros Hne. unfold outranks, speaker_key in *. rewrite (Z.eqb_sym (lc_bgp_id lcb)).
  destruct (Z.eqb_spec (lc_bgp_id lca) (lc_bgp_id lcb)) as [E|E].
  - assert (lc_asn lca <> lc_asn lcb) by (intros E'; apply Hne; by rewrite E, E'). lia.
  - lia.
Qed.

Lemma collision_at now write_ok p lc cfg d c lc' cfg' :
  (forall n, write_ok n = true) -> config_ok lc cfg -> config_ok lc' cfg' -> dialing p lc cfg d ->
  open_acceptable lc cfg (open_params lc (speaker_open lc' cfg')) ->
  exists p', on_collision now write_ok c (open_bytes lc' cfg') p = (p', Ok ()) /\
    if outranks lc lc' then keeps_dialed p p' d c
    else takes_accepted p p' lc cfg (open_params lc (speaker_open lc' cfg')) d c.
Proof.
  intros Hw Hc Hc' Hd Ha. destruct (outranks lc lc') eqn:Eo.
  - destruct (winner_keeps now write_ok p lc cfg d c lc' cfg' Hd Hc' Eo) as (p' & E & H1 & H2 & H3 & H4). by exists p'.
  - destruct (loser_adopts now write_ok Hw p lc cfg d c lc' cfg' Hd Hc' Eo Ha) as (p' & E & H1 & H2 & H3 & H4);
      [apply (co_hold _ _ Hc)|apply (co_hold _ _ Hc')|]. by exists p'.
Qed.

(** C35. A connection collision leaves both ends with the same connection.  Two
    speakers that differ in identifier or AS number each wait in OpenSent on
    the connection it dialed; each accepts the connection that the other
    dialed, and reads the other's OPEN on it.  Then the one with the higher
    identifier (the higher AS number, between equal identifiers) has closed
    what it accepted and still waits on the connection it dialed, and the other
    has announced the collision on the connection it dialed, closed it, and
    confirmed the OPEN on the connection it accepted, in OpenConfirm; neither
    holds a candidate any more.  (Each can accept the other's OPEN, no
    DelayOpen timer runs, and the writes succeed.) *)
Theorem collision_keeps_one now wa wb pa pb lca lcb ca cb dialed_a accepted_a dialed_b accepted_b :
  (forall n, wa n = true) -> (forall n, wb n = true) ->
  config_ok lca ca -> config_ok lcb cb -> speaker_key lca <> speaker_key lcb ->
  dialing pa lca ca dialed_a -> dialing pb lcb cb dialed_b ->
  open_acceptable lca ca (open_params lca (speaker_open lcb cb)) ->
  open_acceptable lcb cb (open_params lcb (speaker_open lca ca)) ->
  exists pa' pb',
    on_collision now wa accepted_a (open_bytes lcb cb) pa = (pa', Ok ()) /\
    on_collision now wb accepted_b (open_bytes lca ca) pb = (pb', Ok ()) /\
    if outranks lca lcb
    then keeps_dialed pa pa' dialed_a accepted_a /\
         takes_accepted pb pb' lcb cb (open_params lcb (speaker_open lca ca)) dialed_b accepted_b
    else takes_accepted pa pa' lca ca (open_params lca (speaker_open lcb cb)) dialed_a accepted_a /\
         keeps_dialed pb pb' dialed_b accepted_b.
Proof.
  intros Hwa Hwb Ha Hb Hne Hda Hdb Hoa Hob.
  destruct (collision_at now wa pa lca ca dialed_a accepted_a lcb cb Hwa Ha Hb Hda Hoa) as (pa' & Ea & Ra).
  destruct (collision_at now wb pb lcb cb dialed_b accepted_b lca ca Hwb Hb Ha Hdb Hob) as (pb' & Eb & Rb).
  exists pa', pb'. split; [done|]. split; [done|]. rewrite (outranks_antisym lca lcb Hne) in Rb.
  by destruct (outranks lca lcb).
Qed.

(** ** Two speakers that dial each other *)
Definition demo_dialing (lc : LocalConfig) (c : Conn) : Peer :=
  run_all (peer_new (IpV4 0x0A000002) lc (demo_config [] ApDisabled false)) [InEvent ManualStart; InDialed c].

Lemma demo_dials lc c : lc = demo_local 65001 1 \/ lc = demo_local 65002 2 ->
  dialing (demo_dialing lc c) lc (demo_config [] ApDisabled false) c.
Proof. intros [-> | ->]; by split. Qed.
Lemma demo_accepts lc lc' : lc = demo_local 65001 1 /\ lc' = demo_local 65002 2 \/ lc = demo_local 65002 2 /\ lc' = demo_local 65001 1 ->
  open_acceptable lc (demo_config [] ApDisabled false) (open_params lc (speaker_open lc' (demo_config [] ApDisabled false))).
Proof.
  intros [[-> ->] | [-> ->]]; (split; [by intros [? _]|done| |done]); intros _; exists (mkAfiSafi Afi_Ipv4 Unicast); by split; apply (bool_decide_unpack _); vm_compute.
Qed.

Lemma collision_keeps_one_witness :
  exists pa' pb',
    on_collision 0 (fun _ => true) (mkConn 2 None) (open_bytes (demo_local 65002 2) (demo_config [] ApDisabled false))
      (demo_dialing (demo_local 65001 1) (mkConn 1 None)) = (pa', Ok ()) /\
    on_collision 0 (fun _ => true) (mkConn 4 None) (open_bytes (demo_local 65001 1) (demo_config [] ApDisabled false))
      (demo_dialing (demo_local 65002 2) (mkConn 3 None)) = (pb', Ok ()) /\
    conn pa' = Some (mkConn 2 None) /\ conn pb' = Some (mkConn 3 None).
Proof.
  destruct (collision_keeps_one 0 (fun _ => true) (fun _ => true) (demo_dialing (demo_local 65001 1) (mkConn 1 None))
    (demo_dialing (demo_local 65002 2) (mkConn 3 None)) (demo_local 65001 1) (demo_local 65002 2) (demo_config [] ApDisabled false)
    (demo_config [] ApDisabled false) (mkConn 1 None) (mkConn 2 None) (mkConn 3 None) (mkConn 4 None)) as (pa' & pb' & Ea & Eb & Ra & Rb).
  - done.
  - done.
  - apply demo_config_ok; [done|done|vm_compute; lia].
  - apply demo_config_ok; [done|done|vm_compute; lia].
  - discriminate.
  - apply demo_dials. by left.
  - apply demo_dials. by right.
  - apply demo_accepts. by left.
  - apply demo_accepts. by right.
  - exists pa', pb'. split_and!; [done|done|apply Ra|apply Rb].
Defined.
