(* ===== verification/LocRibInv.v ===== *)
(** * The Loc-RIB: lookups, the invariant, and what each write does to them

    The three tables are seen through [get_route]; every write of the code is
    a replacement of the routes of one key, or of all keys at once, and the
    invariant is preserved by the two replacement lemmas. *)
From S2P Require Import Prelude Net Trie TrieSpec PrefixMap Vrp PathId BgpLs Attrs Path LocRib.

(** ** Identities of paths *)

(** The ADD-PATH identity: source and remote path id. *)
Definition ident (r : PathRef) : RouteSource * option Z :=
  (pa_source (attrs (ref_path r)), remote_path_id (ref_path r)).
Definition local_id (r : PathRef) : option Z := local_path_id (ref_path r).

Lemma matches_remote_ident p q :
  matches_remote (ref_path p) (ref_path q) = true <-> ident p = ident q.
Proof.
  unfold matches_remote, ident. rewrite andb_true_iff, !bool_decide_eq_true. split; [by intros [-> ->]|].
  by intros [= -> ->].
Qed.

(** The path of a list with a given identity. *)
Definition find_ident (i : RouteSource * option Z) (l : list PathRef) : option PathRef :=
  snd <$> list_find (fun p => ident p = i) l.

Lemma find_ident_Some i l p :
  NoDup (map ident l) -> find_ident i l = Some p <-> p ∈ l /\ ident p = i.
Proof.
  intros Hnd. unfold find_ident. split.
  - destruct (list_find _ l) as [[j q]|] eqn:E; [|done]. intros [= ->].
    apply list_find_Some in E as (Hj & Hi & _). by split; [eapply list_elem_of_lookup_2|].
  - intros [Hp Hi]. destruct (list_find_elem_of (fun p => ident p = i) l p Hp Hi) as [[j q] E].
    rewrite E. simpl. f_equal. apply list_find_Some in E as (Hj & Hq & _).
    apply list_elem_of_lookup in Hp as [k Hk].
    assert (j = k) as ->; [|congruence].
    eapply NoDup_lookup; [exact Hnd| |].
    + change (map ident l) with (ident <$> l). by rewrite list_lookup_fmap, Hj.
    + change (map ident l) with (ident <$> l). rewrite list_lookup_fmap, Hk. simpl. congruence.
Qed.

Lemma find_ident_None i l : find_ident i l = None <-> ~ (i ∈ map ident l).
Proof.
  unfold find_ident. destruct (list_find _ l) as [[j q]|] eqn:E; simpl.
  - split; [done|]. intros Hn. apply list_find_Some in E as (Hj & Hq & _). destruct Hn.
    apply list_elem_of_fmap. exists q. split; [done|]. by eapply list_elem_of_lookup_2.
  - split; [|done]. intros _ (q & -> & Hq)%list_elem_of_fmap.
    apply list_find_None in E. rewrite Forall_forall in E. by apply (E q).
Qed.

Lemma find_ident_perm i l l' :
  NoDup (map ident l) -> l ≡ₚ l' -> find_ident i l' = find_ident i l.
Proof.
  intros Hnd Hp. assert (NoDup (map ident l')) as Hnd' by (by rewrite <- Hp).
  destruct (find_ident i l) as [p|] eqn:E.
  - apply find_ident_Some in E; [|done]. apply find_ident_Some; [done|]. by rewrite <- Hp.
  - apply find_ident_None in E. apply find_ident_None. by rewrite <- Hp.
Qed.

(** ** Key-wise access to the tables *)
Definition rkey_ok (key : RouteKey) : Prop :=
  match key with KPrefix p => network_ok p | KLinkState _ => True end.

Section inv.
Context {A : Type} `{PathIdLaws A}.
Implicit Types (rib : LocRib A) (key : RouteKey) (peer_ip : IpAddr) (l : list PathRef).

Definition rib_safe rib : Prop := pm_safe (lr_ipv4 rib) /\ pm_safe (lr_ipv6 rib).

(** The parts of the state that writes to the tables leave alone. *)
Definition same_rest rib rib' : Prop :=
  lr_path_ids rib' = lr_path_ids rib /\ lr_max_ls_entries rib' = lr_max_ls_entries rib /\
  lr_next rib' = lr_next rib.

Lemma get_update_route rib key key' f :
  get_route (update_route rib key f) key' =
    if decide (key = key') then f <$> get_route rib key' else get_route rib key'.
Proof.
  destruct key as [[n|n]|n], key' as [[n'|n']|n'];
    cbn [update_route get_route lr_ipv4 lr_ipv6 lr_ls set_ipv4 set_ipv6 set_ls pm_get pm_update pm_map];
    try (by rewrite decide_False by congruence);
    (case_decide as E; [injection E as ->; apply lookup_alter_eq|];
     apply lookup_alter_ne; congruence).
Qed.

Lemma update_route_safe rib key f : rib_safe rib -> rib_safe (update_route rib key f).
Proof.
  intros [H4 H6]. destruct key as [[n|n]|n]; split; try done; apply pm_safe_dom; try done;
    intros k; by rewrite lookup_alter_is_Some.
Qed.

Lemma update_route_rest rib key f : same_rest rib (update_route rib key f).
Proof. by destruct key as [[n|n]|n]. Qed.

Lemma remove_entry_route rib key :
  rib_safe rib -> exists rib', remove_route_entry rib key = Some rib' /\
    rib_safe rib' /\ same_rest rib rib' /\
    forall key', get_route rib' key' = if decide (key = key') then None else get_route rib key'.
Proof.
  intros [H4 H6]. destruct key as [[n|n]|n]; cbn [remove_route_entry].
  - destruct (pm_remove_safe (lr_ipv4 rib) n H4) as (m & -> & Hs & Hm). cbn [mbind option_bind].
    eexists. split_and!; [done|by split|done|]. intros [[n'|n']|n']; cbn;
      try (by rewrite decide_False by congruence). unfold pm_get. rewrite Hm.
    case_decide as E; [injection E as ->; by rewrite lookup_delete_eq|].
    by rewrite lookup_delete_ne by congruence.
  - destruct (pm_remove_safe (lr_ipv6 rib) n H6) as (m & -> & Hs & Hm). cbn [mbind option_bind].
    eexists. split_and!; [done|by split|done|]. intros [[n'|n']|n']; cbn;
      try (by rewrite decide_False by congruence). unfold pm_get. rewrite Hm.
    case_decide as E; [injection E as ->; by rewrite lookup_delete_eq|].
    by rewrite lookup_delete_ne by congruence.
  - eexists. split_and!; [done|by split|done|]. intros [[n'|n']|n']; cbn;
      try (by rewrite decide_False by congruence).
    case_decide as E; [injection E as ->; by rewrite lookup_delete_eq|].
    by rewrite lookup_delete_ne by congruence.
Qed.

(** The link-state table refuses a new entry when it is full. *)
Definition ls_full rib key : bool :=
  match key with
  | KLinkState nlri =>
      (0 <? lr_max_ls_entries rib) && negb (bool_decide (is_Some (lr_ls rib !! nlri))) &&
      (lr_max_ls_entries rib <=? Z.of_nat (size (lr_ls rib)))
  | _ => false
  end.

Lemma entry_or_insert_spec rib key :
  rib_safe rib -> rkey_ok key ->
  if ls_full rib key then entry_or_insert rib key = Some None
  else exists rib', entry_or_insert rib key
                      = Some (Some (rib', default (mkRoute key []) (get_route rib key))) /\
    rib_safe rib' /\ same_rest rib rib' /\
    forall key', get_route rib' key' =
      if decide (key = key') then Some (default (mkRoute key []) (get_route rib key))
      else get_route rib key'.
Proof.
  intros [H4 H6] Hk. destruct key as [[n|n]|n]; cbn [ls_full entry_or_insert].
  - destruct (pm_get_or_insert_safe (lr_ipv4 rib) n (mkRoute (KPrefix (V4 n)) []) H4 Hk)
      as (m & -> & Hs & Hm). cbn [mbind option_bind].
    eexists. split_and!; [done|by split|done|]. intros [[n'|n']|n']; cbn;
      try (by rewrite decide_False by congruence). unfold pm_get. rewrite Hm.
    case_decide as E; [injection E as ->; by rewrite lookup_insert_eq|].
    by rewrite lookup_insert_ne by congruence.
  - destruct (pm_get_or_insert_safe (lr_ipv6 rib) n (mkRoute (KPrefix (V6 n)) []) H6 Hk)
      as (m & -> & Hs & Hm). cbn [mbind option_bind].
    eexists. split_and!; [done|by split|done|]. intros [[n'|n']|n']; cbn;
      try (by rewrite decide_False by congruence). unfold pm_get. rewrite Hm.
    case_decide as E; [injection E as ->; by rewrite lookup_insert_eq|].
    by rewrite lookup_insert_ne by congruence.
  - destruct (_ && _); [done|]. destruct (lr_ls rib !! n) as [r|] eqn:Er.
    + exists rib. split_and!; [by cbn; rewrite Er|by split|done|].
      intros key'. case_decide as E; [|done]. subst. cbn. by rewrite Er.
    + eexists. split_and!; [by cbn; rewrite Er|by split|done|]. intros [[n'|n']|n']; cbn;
        try (by rewrite decide_False by congruence).
      case_decide as E; [injection E as ->; by rewrite lookup_insert_eq, Er|].
      by rewrite lookup_insert_ne by congruence.
Qed.

(** ** The invariant *)
Definition opt_paths (o : option Route) : list PathRef :=
  match o with Some r => paths r | None => [] end.

(** A label of the paths (a local id, an address) that no two paths of the
    whole table share. *)
Definition unique_labels (lab : PathRef -> option Z) (rt : RouteKey -> option Route) : Prop :=
  (forall key, NoDup (omap lab (opt_paths (rt key)))) /\
  forall x key key', x ∈ omap lab (opt_paths (rt key)) -> x ∈ omap lab (opt_paths (rt key')) ->
    key = key'.

Definition ptr_label (p : PathRef) : option Z := Some (ref_ptr p).

Record routes_inv (ids : gset Z) (next : Z) (rt : RouteKey -> option Route) : Prop := {
  ri_key : forall key r, rt key = Some r -> route_key r = key /\ paths r <> [];
  ri_ident : forall key, NoDup (map ident (opt_paths (rt key)));
  ri_local : forall key p, p ∈ opt_paths (rt key) -> exists id, local_id p = Some id /\ u32 id;
  ri_local_unique : unique_labels local_id rt;
  ri_ids : forall id, id ∈ ids <-> exists key, id ∈ omap local_id (opt_paths (rt key));
  ri_ptr_unique : unique_labels ptr_label rt;
  ri_ptr : forall key p, p ∈ opt_paths (rt key) -> ref_ptr p < next;
}.

(** Keys in range, tries that answer, and the identifiers in the table are
    exactly those the allocator has given out, each to one path. *)
Definition rib_inv rib : Prop :=
  rib_safe rib /\ alloc_inv (lr_path_ids rib) /\
  routes_inv (alloc_ids (lr_path_ids rib)) (lr_next rib) (get_route rib).

Lemma unique_labels_replace lab rt rt' key :
  unique_labels lab rt ->
  (forall key', key' <> key -> rt' key' = rt key') ->
  NoDup (omap lab (opt_paths (rt' key))) ->
  (forall x key', key' <> key -> x ∈ omap lab (opt_paths (rt' key)) ->
     ~ (x ∈ omap lab (opt_paths (rt key')))) ->
  unique_labels lab rt'.
Proof.
  intros [Hnd Hu] Hrt Hnd' Hx. split.
  - intros k. destruct (decide (k = key)) as [->|Hne]; [done|]. by rewrite Hrt.
  - intros x k k'. destruct (decide (k = key)) as [->|Hne], (decide (k' = key)) as [->|Hne']; try done.
    + rewrite (Hrt k') by done. intros H1 H2. by destruct (Hx x k' Hne' H1).
    + rewrite (Hrt k) by done. intros H1 H2. by destruct (Hx x k Hne H2).
    + rewrite !Hrt by done. apply Hu.
Qed.

Lemma routes_inv_ext ids next next' rt rt' :
  routes_inv ids next rt -> (forall key, rt' key = rt key) -> next <= next' ->
  routes_inv ids next' rt'.
Proof.
  intros [Hk Hi Hl [Hln Hlu] Hids [Hpn Hpu] Hp] E Hle. split.
  - intros k r. rewrite E. apply Hk.
  - intros k. rewrite E. apply Hi.
  - intros k p. rewrite E. apply Hl.
  - split; [intros k; rewrite E; apply Hln|]. intros x k k'. rewrite !E. apply Hlu.
  - intros id. rewrite Hids. by setoid_rewrite E.
  - split; [intros k; rewrite E; apply Hpn|]. intros x k k'. rewrite !E. apply Hpu.
  - intros k p. rewrite E. intros Hin%Hp. lia.
Qed.

Lemma omap_ptr_label l : omap ptr_label l = map ref_ptr l.
Proof. induction l as [|p l IH]; [done|]. cbn. by rewrite <- IH. Qed.

(** Replacing the paths of one key. *)
Lemma routes_inv_replace ids ids' next next' rt rt' key :
  routes_inv ids next rt ->
  (forall key', key' <> key -> rt' key' = rt key') ->
  (forall r, rt' key = Some r -> route_key r = key /\ paths r <> []) ->
  let old := opt_paths (rt key) in
  let new := opt_paths (rt' key) in
  NoDup (map ident new) ->
  (forall p, p ∈ new -> exists id, local_id p = Some id /\ u32 id) ->
  NoDup (omap local_id new) ->
  (forall id, id ∈ omap local_id new -> id ∈ omap local_id old \/ ~ (id ∈ ids)) ->
  (forall id, id ∈ ids' <->
     id ∈ omap local_id new \/ (id ∈ ids /\ ~ (id ∈ omap local_id old))) ->
  NoDup (map ref_ptr new) ->
  (forall p, p ∈ new -> ref_ptr p ∈ map ref_ptr old \/ next <= ref_ptr p) ->
  (forall p, p ∈ new -> ref_ptr p < next') -> next <= next' ->
  routes_inv ids' next' rt'.
Proof.
  intros [Hk Hi Hl Hlu Hids Hpu Hp] Hrt Hkey old new Hi' Hl' Hnd' Hfresh Hids' Hpnd Hpold Hplt Hle.
  pose proof omap_ptr_label as Hptr.
  assert (forall k, k = key \/ rt' k = rt k) as Hor
    by (intros k; destruct (decide (k = key)); [by left|right; by apply Hrt]).
  split.
  - intros k r. destruct (Hor k) as [->| ->]; [apply Hkey|apply Hk].
  - intros k. destruct (Hor k) as [->| ->]; [apply Hi'|apply Hi].
  - intros k p. destruct (Hor k) as [->| ->]; [apply Hl'|apply Hl].
  - apply (unique_labels_replace _ rt _ key); [done..|]. intros x k' Hne Hx Hx'.
    destruct (Hfresh x Hx) as [Ho|Ho].
    + destruct Hne. by apply (proj2 Hlu x).
    + destruct Ho. apply Hids. eauto.
  - intros id. rewrite Hids'. split.
    + intros [Hn|[Hin Hno]]; [by exists key|]. apply Hids in Hin as [k Hin].
      destruct (Hor k) as [->|E]; [done|]. exists k. by rewrite E.
    + intros [k Hin]. destruct (decide (k = key)) as [->|Hne]; [by left|]. right.
      rewrite (Hrt k) in Hin by done. split; [apply Hids; eauto|].
      intros Ho. destruct Hne. by apply (proj2 Hlu id).
  - apply (unique_labels_replace _ rt _ key); [done..|by rewrite Hptr|]. intros x k' Hne.
    rewrite !Hptr. intros (p & -> & Hin)%list_elem_of_fmap Hx'. destruct (Hpold p Hin) as [Ho|Ho].
    + destruct Hne. apply (proj2 Hpu (ref_ptr p)); by rewrite Hptr.
    + apply list_elem_of_fmap in Hx' as (q & Hq & Hin'). apply Hp in Hin'. lia.
  - intros k p. destruct (Hor k) as [->|E]; [apply Hplt|]. rewrite E. intros Hin.
    apply Hp in Hin. lia.
Qed.

(** ** Writes within a route *)
Lemma make_mut_spec shared next r f q next' :
  make_mut shared next r f = (q, next') ->
  ref_path q = f (ref_path r) /\
  ((ref_ptr q = ref_ptr r /\ ~ (ref_ptr r ∈ shared) /\ next' = next) \/
   (ref_ptr q = next /\ next' = next + 1)).
Proof.
  unfold make_mut. case_bool_decide as E; intros [= <- <-]; (split; [done|]); [by right|by left].
Qed.

(** What an announced path becomes in the table, given the path with the
    same identity, if there is one. *)
Definition upserted (old : option Path) (p : Path) (id : option Z) : Path :=
  match old with
  | Some q =>
      if bool_decide (attrs q <> attrs p) then set_local_path_id (local_path_id q) p
      else set_stale false (set_rpki_state (rpki_state p) q)
  | None => set_local_path_id id p
  end.

(** The address of a written path: kept by a write in place, which only
    happens when the address is not shared, or fresh. *)
Definition ptr_written (shared : gset Z) (next next' : Z) (old q : PathRef) : Prop :=
  (ref_ptr q = ref_ptr old /\ (q = old \/ ~ (ref_ptr old ∈ shared))) \/
  next <= ref_ptr q < next'.

Lemma in_place_spec shared next (e path : PathRef) e1 n1 e2 n2 :
  (if bool_decide (rpki_state (ref_path e) <> rpki_state (ref_path path))
   then make_mut shared next e (set_rpki_state (rpki_state (ref_path path)))
   else (e, next)) = (e1, n1) ->
  (if stale (ref_path e1) then make_mut shared n1 e1 (set_stale false) else (e1, n1)) = (e2, n2) ->
  ref_path e2 = set_stale false (set_rpki_state (rpki_state (ref_path path)) (ref_path e)) /\
  next <= n2 /\ ptr_written shared next n2 e e2.
Proof.
  intros H1 H2.
  assert (ref_path e1 = set_rpki_state (rpki_state (ref_path path)) (ref_path e) /\
    next <= n1 /\ ptr_written shared next n1 e e1) as (Ep1 & Hn1 & Hw1).
  { case_bool_decide as Er.
    - apply make_mut_spec in H1 as [-> [(Hp & Hs & ->)|[Hp ->]]]; (split_and!; [done|lia|]).
      + left. split; [done|by right].
      + right. lia.
    - injection H1 as <- <-. split_and!; [|lia|by left; split; [|left]].
      destruct (decide (rpki_state (ref_path e) = rpki_state (ref_path path))) as [E|]; [|done].
      rewrite <- E. by destruct (ref_path e). }
  destruct (stale (ref_path e1)) eqn:Es.
  - apply make_mut_spec in H2 as [-> [(Hp & Hs & ->)|[Hp ->]]]; rewrite Ep1; (split_and!; [done|lia|]).
    + destruct Hw1 as [[Hp1 _]|Hp1]; [left|right; lia]. rewrite Hp. split; [done|right; congruence].
    + right. lia.
  - injection H2 as <- <-. split_and!; [|lia|done]. rewrite Ep1 in *. simpl in Es. rewrite <- Es.
    by destruct (ref_path e).
Qed.

Section storing_in_route.
Context {Sorts : SortBy} {Returns : SortReturns}.

Lemma sort_paths_returns l : exists l', sort_paths l = Some l' /\ l' ≡ₚ l.
Proof.
  destruct (sort_returns (fun a b => best_path_cmp (ref_path b) (ref_path a)) l) as [l' E].
  exists l'. split; [exact E|]. by apply sort_paths_perm.
Qed.

Lemma upsert_in_route_spec shared next route path ids :
  exists route' ids' next', upsert_path_in_route shared next route path ids = Some (route', ids', next') /\
  route_key route' = route_key route /\ next <= next' /\
  ((exists l1 e l2 q, paths route = l1 ++ e :: l2 /\ ident e = ident path /\
      paths route' ≡ₚ l1 ++ q :: l2 /\ ids' = ids /\
      ref_path q = upserted (Some (ref_path e)) (ref_path path) None /\
      (ptr_written shared next next' e q \/ ref_ptr q = ref_ptr path)) \/
   (~ (ident path ∈ map ident (paths route)) /\ exists q,
      paths route' ≡ₚ q :: paths route /\ ids' = (alloc ids).1 /\
      ref_path q = upserted None (ref_path path) (Some (alloc ids).2) /\
      (ref_ptr q = ref_ptr path \/ next <= ref_ptr q < next'))).
Proof.
  unfold upsert_path_in_route.
  destruct (list_find _ (paths route)) as [[i e]|] eqn:Ef.
  - apply list_find_Some in Ef as (Hi & He & _). apply matches_remote_ident in He.
    pose proof (take_drop_middle _ _ _ Hi) as Hsplit.
    assert (forall q, <[i := q]> (paths route) = take i (paths route) ++ q :: drop (S i) (paths route))
      as Hins by (intros q; apply insert_take_drop; by eapply lookup_lt_Some).
    case_bool_decide as Ea.
    + destruct (make_mut _ _ _ _) as [q n] eqn:Em. apply make_mut_spec in Em as [Hq Hptr].
      destruct (sort_paths_returns (<[i := q]> (paths route))) as (sorted & -> & Hs).
      eexists _, _, _. split; [done|]. cbn [route_key paths]. split_and!; [done|lia|]. left.
      exists (take i (paths route)), e, (drop (S i) (paths route)), q.
      split_and!; [done|done|by rewrite <- Hins|done| |].
      * rewrite Hq. unfold upserted. by rewrite bool_decide_eq_true_2.
      * destruct Hptr as [(Hp & _)|[Hp Hn]]; [by right|left; right; lia].
    + destruct (if bool_decide (rpki_state (ref_path e) <> rpki_state (ref_path path)) then _ else _)
        as [e1 n1] eqn:E1.
      destruct (if stale (ref_path e1) then _ else _) as [e2 n2] eqn:E2.
      destruct (in_place_spec _ _ _ _ _ _ _ _ E1 E2) as (Hq & Hn & Hw).
      destruct (sort_paths_returns (<[i := e2]> (paths route))) as (sorted & -> & Hs).
      eexists _, _, _. split; [done|]. cbn [route_key paths]. split_and!; [done|done|]. left.
      exists (take i (paths route)), e, (drop (S i) (paths route)), e2.
      split_and!; [done|done|by rewrite <- Hins|done| |by left].
      rewrite Hq. unfold upserted. rewrite bool_decide_eq_false_2; [done|].
      destruct (decide (attrs (ref_path e) = attrs (ref_path path))); [|done]. intros ?. done.
  - apply list_find_None in Ef. rewrite Forall_forall in Ef.
    destruct (alloc ids) as [ids' id]. destruct (make_mut _ _ _ _) as [q n] eqn:Em.
    apply make_mut_spec in Em as [Hq Hptr].
    destruct (sort_paths_returns (paths route ++ [q])) as (sorted & -> & Hs).
    eexists _, _, _. split; [done|]. cbn [route_key paths fst snd].
    split_and!; [done|lia|]. right. split.
    + intros (p & Hp & Hin)%list_elem_of_fmap. apply (Ef p Hin). by apply matches_remote_ident.
    + exists q. split_and!; [|done|done|].
      * rewrite Hs. apply Permutation_app_comm.
      * destruct Hptr as [(Hp & _)|[Hp Hn]]; [by left|right; lia].
Qed.

End storing_in_route.

Lemma upserted_ident old p id :
  (forall q, old = Some q -> (pa_source (attrs q), remote_path_id q) = (pa_source (attrs p), remote_path_id p)) ->
  (pa_source (attrs (upserted old p id)), remote_path_id (upserted old p id))
    = (pa_source (attrs p), remote_path_id p).
Proof.
  destruct old as [q|]; [|done]. intros E. simpl. case_bool_decide; [done|]. simpl. by apply E.
Qed.

Lemma upserted_local q p id : local_path_id (upserted (Some q) p id) = local_path_id q.
Proof. simpl. by case_bool_decide. Qed.

(** ** [upsert_path] *)
Lemma get_route_set_next rib n key : get_route (set_next rib n) key = get_route rib key.
Proof. by destruct key as [[]|]. Qed.
Lemma get_route_set_path_ids rib ids key : get_route (set_path_ids rib ids) key = get_route rib key.
Proof. by destruct key as [[]|]. Qed.

(** Every path of the new list was there, or was written to an address that
    was not shared, or is at a fresh address. *)
Definition writes_ok (shared : gset Z) (fresh : Z) (old new : list PathRef) : Prop :=
  forall p, p ∈ new -> p ∈ old \/ ~ (ref_ptr p ∈ shared) \/ fresh <= ref_ptr p.

Lemma elem_of_omap_local l id : id ∈ omap local_id l <-> exists p, p ∈ l /\ local_id p = Some id.
Proof. apply list_elem_of_omap. Qed.

Lemma NoDup_omap_local l p q :
  NoDup (omap local_id l) -> p ∈ l -> q ∈ l -> is_Some (local_id p) -> local_id p = local_id q -> p = q.
Proof.
  induction l as [|x l IH]; [by intros _ ?%not_elem_of_nil|]. cbn. intros Hnd Hp Hq [id Hid] Heq.
  assert (forall y, y ∈ l -> local_id y = Some id -> id ∈ omap local_id l) as Hin
    by (intros y Hy Ey; apply elem_of_omap_local; eauto).
  apply elem_of_cons in Hp as [->|Hp]; apply elem_of_cons in Hq as [->|Hq]; [done| | |].
  - rewrite Hid in Hnd. apply NoDup_cons in Hnd as [Hn _]. destruct Hn. apply (Hin q); congruence.
  - rewrite <- Heq, Hid in Hnd. apply NoDup_cons in Hnd as [Hn _]. destruct Hn. by apply (Hin p).
  - apply IH; [|done..|by eexists|done]. destruct (local_id x); [by apply NoDup_cons in Hnd as [_ ?]|done].
Qed.

(** Replacing a path of a list by one with the same identity and local id
    keeps the lists of labels. *)
Lemma replace_same {B} (f : PathRef -> B) l1 e l2 q :
  f q = f e -> map f (l1 ++ q :: l2) = map f (l1 ++ e :: l2).
Proof. intros E. rewrite !map_app. simpl. by rewrite E. Qed.

Lemma replace_same_omap l1 e l2 q :
  local_id q = local_id e -> omap local_id (l1 ++ q :: l2) = omap local_id (l1 ++ e :: l2).
Proof. intros E. rewrite !omap_app. simpl. by rewrite E. Qed.

Lemma NoDup_map_replace {B} (f : PathRef -> B) l1 e l2 q :
  NoDup (map f (l1 ++ e :: l2)) -> f q = f e \/ ~ (f q ∈ map f (l1 ++ l2)) ->
  NoDup (map f (l1 ++ q :: l2)).
Proof.
  intros Hnd [E|Hq]; [by rewrite (replace_same f l1 e)|].
  rewrite !map_app in *. simpl in *. apply NoDup_app in Hnd as (H1 & H2 & H3).
  apply NoDup_cons in H3 as [H3 H4]. apply NoDup_app.
  split_and!; [done|set_solver|]. apply NoDup_cons. set_solver.
Qed.

(** Case: the identity was there. *)
Lemma upsert_replace_inv ids next next' rt rt' key l1 e l2 q fresh shared :
  routes_inv ids next rt ->
  (forall key', key' <> key -> rt' key' = rt key') ->
  opt_paths (rt key) = l1 ++ e :: l2 ->
  (exists r, rt' key = Some r /\ route_key r = key /\ paths r ≡ₚ l1 ++ q :: l2) ->
  ident q = ident e -> local_id q = local_id e -> next <= next' -> next <= fresh < next' ->
  (ptr_written shared next next' e q \/ ref_ptr q = fresh) ->
  routes_inv ids next' rt'.
Proof.
  intros Hinv Hrt Hold (r & Hr & Hrk & Hperm) Hqi Hql Hle Hfresh Hw.
  pose proof Hinv as [Hk Hi Hl [Hlnd Hlu] Hids [Hpnd Hpu] Hp].
  assert (forall p, p ∈ paths r <-> p = q \/ p ∈ l1 ++ l2) as Hin
    by (intros p; rewrite Hperm; set_solver).
  assert (forall p, p ∈ l1 ++ l2 -> p ∈ opt_paths (rt key)) as Hsub
    by (intros p; rewrite Hold; set_solver).
  assert (e ∈ opt_paths (rt key)) as He by (rewrite Hold; set_solver).
  assert (opt_paths (rt' key) = paths r) as Hn by by rewrite Hr.
  assert (omap local_id (paths r) ≡ₚ omap local_id (opt_paths (rt key))) as Hlperm
    by by rewrite Hold, <- (replace_same_omap l1 e l2 q) by done; rewrite Hperm.
  assert (ref_ptr q = ref_ptr e \/ next <= ref_ptr q < next') as Hqp
    by (destruct Hw as [[[? _]|?]|?]; [by left|by right|right; lia]).
  apply (routes_inv_replace ids ids next next' rt rt' key Hinv Hrt); rewrite ?Hn.
  - intros r' Hr'. rewrite Hr in Hr'. injection Hr' as <-. split; [done|].
    intros E. rewrite E in Hin. by apply (not_elem_of_nil q), Hin; left.
  - rewrite Hperm, (replace_same _ _ e) by done. rewrite <- Hold. apply Hi.
  - intros p [->|Hp']%Hin; [rewrite Hql; by apply Hl in He|apply (Hl key); by apply Hsub].
  - rewrite Hlperm. apply Hlnd.
  - intros id. rewrite Hlperm. by left.
  - intros id. rewrite Hlperm. split; [|by intros [Ho|[Ho _]]; [apply Hids; by exists key|]].
    intros Hid. destruct (decide (id ∈ omap local_id (opt_paths (rt key)))); [by left|by right].
  - rewrite Hperm. apply (NoDup_map_replace _ _ e).
    + rewrite <- Hold, <- omap_ptr_label. apply Hpnd.
    + destruct Hqp as [->|Hqp]; [by left|right]. intros (x & Hx & Hxin)%list_elem_of_fmap.
      apply Hsub, Hp in Hxin. lia.
  - intros p [->|Hp']%Hin; [destruct Hqp as [->|]; [left; by apply list_elem_of_fmap_2|right; lia]|].
    left. apply list_elem_of_fmap_2. by apply Hsub.
  - intros p [->|Hp']%Hin; [destruct Hqp as [->|]; [apply Hp in He|]; lia|].
    apply Hsub, Hp in Hp'. lia.
  - done.
Qed.

(** Case: a new path, with a new local id. *)
Lemma upsert_new_inv ids id next next' rt rt' key q fresh :
  routes_inv ids next rt ->
  (forall key', key' <> key -> rt' key' = rt key') ->
  (exists r, rt' key = Some r /\ route_key r = key /\ paths r ≡ₚ q :: opt_paths (rt key)) ->
  ~ (ident q ∈ map ident (opt_paths (rt key))) ->
  local_id q = Some id -> u32 id -> ~ (id ∈ ids) ->
  next <= next' -> next <= fresh < next' ->
  (ref_ptr q = fresh \/ next <= ref_ptr q < next') ->
  routes_inv ({[id]} ∪ ids) next' rt'.
Proof.
  intros Hinv Hrt (r & Hr & Hrk & Hperm) Hni Hid Hu32 Hfree Hle Hfresh Hw.
  pose proof Hinv as [Hk Hi Hl [Hlnd Hlu] Hids [Hpnd Hpu] Hp].
  assert (forall p, p ∈ paths r <-> p = q \/ p ∈ opt_paths (rt key)) as Hin
    by (intros p; rewrite Hperm; set_solver).
  assert (opt_paths (rt' key) = paths r) as Hn by by rewrite Hr.
  assert (omap local_id (paths r) ≡ₚ id :: omap local_id (opt_paths (rt key))) as Hlperm
    by (rewrite Hperm; cbn; by rewrite Hid).
  apply (routes_inv_replace ids ({[id]} ∪ ids) next next' rt rt' key Hinv Hrt); rewrite ?Hn.
  - intros r' Hr'. rewrite Hr in Hr'. injection Hr' as <-. split; [done|].
    intros E. rewrite E in Hin. by apply (not_elem_of_nil q), Hin; left.
  - rewrite Hperm. cbn. apply NoDup_cons. by split.
  - intros p [->|Hp']%Hin; [eauto|by apply (Hl key)].
  - rewrite Hlperm. apply NoDup_cons. split; [|done]. intros Ho. apply Hfree, Hids. eauto.
  - intros x. rewrite Hlperm, elem_of_cons. intros [->|Hx]; [by right|by left].
  - intros x. rewrite Hlperm, elem_of_cons, elem_of_union, elem_of_singleton. split.
    + intros [->|Hx]; [by left; left|].
      destruct (decide (x ∈ omap local_id (opt_paths (rt key)))); [by left; right|by right].
    + intros [[->|Ho]|[Hx _]]; [by left|right; apply Hids; by exists key|by right].
  - rewrite Hperm. cbn. apply NoDup_cons. rewrite <- omap_ptr_label. split; [|apply Hpnd].
    rewrite omap_ptr_label. intros (x & Hx & Hxin)%list_elem_of_fmap. apply Hp in Hxin. lia.
  - intros p [->|Hp']%Hin; [right; lia|left; by apply list_elem_of_fmap_2].
  - intros p [->|Hp']%Hin; [lia|]. apply Hp in Hp'. lia.
  - done.
Qed.

(** The old paths of a key, and what an upsert makes of them. *)
Definition old_paths rib key : list PathRef := opt_paths (get_route rib key).

Section storing.
Context {Sorts : SortBy} {Returns : SortReturns}.

(** The outcome of storing [path] under [key]: [id] is the identifier given
    to a new path. *)
Record upsert_post rib rib' (shared : gset Z) key (path : PathRef) (id : option Z) : Prop := {
  up_inv : rib_inv rib';
  up_max : lr_max_ls_entries rib' = lr_max_ls_entries rib;
  up_next : lr_next rib <= lr_next rib';
  up_size : (size (alloc_ids (lr_path_ids rib')) <= S (size (alloc_ids (lr_path_ids rib))))%nat;
  up_other : forall key', key' <> key -> get_route rib' key' = get_route rib key';
  up_sorted : exists ps, sort_paths ps = Some (old_paths rib' key);
  up_elem : exists q, ident q = ident path /\
    ref_path q = upserted (ref_path <$> find_ident (ident path) (old_paths rib key)) (ref_path path) id /\
    forall p, p ∈ old_paths rib' key <-> p = q \/ (p ∈ old_paths rib key /\ ident p <> ident path);
  up_writes : writes_ok shared (lr_next rib) (old_paths rib key) (old_paths rib' key);
}.

Lemma upsert_sorted shared next route path ids route' ids' next' :
  upsert_path_in_route shared next route path ids = Some (route', ids', next') ->
  exists ps, sort_paths ps = Some (paths route').
Proof.
  unfold upsert_path_in_route. intros E.
  repeat case_match; apply bind_Some in E as (sorted & E & [= <- <- <-]); by eexists.
Qed.

Section upsert_cases.
Context (rib rib' : LocRib A) (shared : gset Z) (key : RouteKey) (path : PathRef) (route' : Route).
Hypothesis Hinv : rib_inv rib.
Hypothesis Hptr : ref_ptr path = lr_next rib.
Hypothesis Hsafe' : rib_safe rib'.
Hypothesis Hmax : lr_max_ls_entries rib' = lr_max_ls_entries rib.
Hypothesis Hnext : lr_next rib < lr_next rib'.
Hypothesis Hget : forall k, get_route rib' k = if decide (key = k) then Some route' else get_route rib k.
Hypothesis Hkey : route_key route' = key.
Hypothesis Hsorted : exists ps, sort_paths ps = Some (paths route').

Lemma upsert_get_key : old_paths rib' key = paths route' /\ get_route rib' key = Some route' /\
  forall k, k <> key -> get_route rib' k = get_route rib k.
Proof.
  unfold old_paths. rewrite Hget, decide_True by done. split_and!; [done..|].
  intros k Hne. by rewrite Hget, decide_False by congruence.
Qed.

Lemma upsert_found_case l1 e l2 q :
  old_paths rib key = l1 ++ e :: l2 -> ident e = ident path ->
  paths route' ≡ₚ l1 ++ q :: l2 -> lr_path_ids rib' = lr_path_ids rib ->
  ref_path q = upserted (Some (ref_path e)) (ref_path path) None ->
  (ptr_written shared (lr_next rib + 1) (lr_next rib') e q \/ ref_ptr q = ref_ptr path) ->
  upsert_post rib rib' shared key path None.
Proof.
  intros Hsplit Hie Hperm Hids Hq Hw. destruct upsert_get_key as (Hnew & Hr' & Hother).
  destruct Hinv as (_ & Ha & Hri). pose proof (ri_ident _ _ _ Hri key) as Hnd.
  fold (old_paths rib key) in Hnd.
  assert (find_ident (ident path) (old_paths rib key) = Some e) as Hfind
    by (apply find_ident_Some; [done|]; split; [rewrite Hsplit; set_solver|done]).
  assert (ident q = ident path) as Hiq.
  { unfold ident. rewrite Hq. apply upserted_ident. intros ? [= <-]. exact Hie. }
  assert (local_id q = local_id e) as Hlq by (unfold local_id; by rewrite Hq, upserted_local).
  assert (forall p, p ∈ paths route' <-> p = q \/ (p ∈ old_paths rib key /\ ident p <> ident path)) as Helem.
  { intros p. rewrite Hperm, Hsplit. rewrite Hsplit, map_app in Hnd. simpl in Hnd.
    apply NoDup_app in Hnd as (_ & Hd1 & [Hd2 _]%NoDup_cons).
    assert (p ∈ l1 ++ l2 -> ident p <> ident path) as Hne.
    { rewrite <- Hie. intros [Hp|Hp]%elem_of_app E.
      - apply (Hd1 (ident p)); [by apply list_elem_of_fmap_2|rewrite E; by left].
      - apply Hd2. rewrite <- E. by apply list_elem_of_fmap_2. }
    assert (p = e -> ident p = ident path) as He by (by intros ->).
    rewrite elem_of_app in Hne. rewrite !elem_of_app, !elem_of_cons. clear -Hne He. tauto. }
  split; try done.
  - split_and!; [done|by rewrite Hids|]. rewrite Hids.
    apply (upsert_replace_inv _ (lr_next rib) (lr_next rib') (get_route rib) _ key l1 e l2 q (lr_next rib) shared);
      try done; try lia; [by exists route'|congruence|].
    destruct Hw as [[Hw|Hw]|Hw]; [left; by left|left; right; lia|right; congruence].
  - lia.
  - rewrite Hids. lia.
  - by rewrite Hnew.
  - exists q. rewrite Hfind, Hnew. by split_and!.
  - intros p. rewrite Hnew, Helem. intros [->|[Hp _]]; [|by left].
    destruct Hw as [[[Hpe [->|Hs]]|Hw]|Hw].
    + left. rewrite Hsplit. set_solver.
    + right; left. by rewrite Hpe.
    + right; right. lia.
    + right; right. lia.
Qed.

Lemma upsert_new_case q :
  ~ (ident path ∈ map ident (old_paths rib key)) ->
  paths route' ≡ₚ q :: old_paths rib key -> lr_path_ids rib' = (alloc (lr_path_ids rib)).1 ->
  ref_path q = upserted None (ref_path path) (Some (alloc (lr_path_ids rib)).2) ->
  (ref_ptr q = ref_ptr path \/ lr_next rib + 1 <= ref_ptr q < lr_next rib') ->
  Z.of_nat (size (alloc_ids (lr_path_ids rib))) < 2 ^ 32 - 1 ->
  upsert_post rib rib' shared key path (Some (alloc (lr_path_ids rib)).2).
Proof.
  intros Hni Hperm Hids Hq Hw Hroom. destruct upsert_get_key as (Hnew & Hr' & Hother).
  destruct Hinv as (_ & Ha & Hri).
  destruct (alloc_ok _ Ha Hroom) as (Ha' & Hrange & Hfree & Hids').
  assert (ident q = ident path) as Hiq by (unfold ident; by rewrite Hq).
  assert (local_id q = Some (alloc (lr_path_ids rib)).2) as Hlq by (unfold local_id; by rewrite Hq).
  assert (forall p, p ∈ paths route' <-> p = q \/ (p ∈ old_paths rib key /\ ident p <> ident path)) as Helem.
  { intros p. rewrite Hperm, elem_of_cons.
    assert (p ∈ old_paths rib key -> ident p <> ident path)
      by (intros Hp E; apply Hni; rewrite <- E; by apply list_elem_of_fmap_2).
    naive_solver. }
  split; try done.
  - split_and!; [done|by rewrite Hids|]. rewrite Hids, Hids'.
    apply (upsert_new_inv _ _ (lr_next rib) (lr_next rib') (get_route rib) _ key q (lr_next rib));
      try done; try lia.
    + by exists route'.
    + by rewrite Hiq.
    + unfold u32. lia.
  - lia.
  - rewrite Hids, Hids', size_union, size_singleton by set_solver. lia.
  - by rewrite Hnew.
  - exists q. rewrite Hnew. split_and!; [done| |done].
    rewrite Hq. by rewrite (proj2 (find_ident_None _ _) Hni).
  - intros p. rewrite Hnew, Helem. intros [->|[Hp _]]; [|by left]. right; right. lia.
Qed.
End upsert_cases.

(** The announced [Arc] has just been created, at the last fresh address. *)
Lemma upsert_path_spec rib shared key path :
  rib_inv rib -> rkey_ok key -> ref_ptr path = lr_next rib ->
  Z.of_nat (size (alloc_ids (lr_path_ids rib))) < 2 ^ 32 - 1 ->
  let rib0 := set_next rib (lr_next rib + 1) in
  if ls_full rib key then upsert_path rib0 shared key path = Some (rib0, false) /\ rib_inv rib0
  else exists rib' id, upsert_path rib0 shared key path = Some (rib', true) /\
    upsert_post rib rib' shared key path id.
Proof.
  intros Hinv Hkey Hptr Hroom rib0. pose proof Hinv as (Hsafe & Ha & Hri).
  assert (rib_safe rib0) as Hsafe0 by exact Hsafe.
  pose proof (entry_or_insert_spec rib0 key Hsafe0 Hkey) as Hentry.
  assert (ls_full rib0 key = ls_full rib key) as Efull by by destruct key as [[]|].
  rewrite Efull in Hentry. unfold upsert_path. destruct (ls_full rib key).
  { rewrite Hentry. split; [done|]. split_and!; [done..|].
    apply (routes_inv_ext _ (lr_next rib) _ (get_route rib)); [done|apply get_route_set_next|simpl; lia]. }
  destruct Hentry as (rib1 & -> & Hsafe1 & (Hids1 & Hmax1 & Hnext1) & Hget1).
  cbn [mbind option_bind]. set (route := default (mkRoute key []) (get_route rib0 key)) in *.
  assert (paths route = old_paths rib key /\ route_key route = key) as [Hpaths Hrk].
  { unfold route, old_paths, rib0. rewrite get_route_set_next.
    destruct (get_route rib key) as [r|] eqn:E; [|done]. by destruct (ri_key _ _ _ Hri _ _ E). }
  destruct (upsert_in_route_spec shared (lr_next rib1) route path (lr_path_ids rib1))
    as (route' & ids' & next' & Eup & Hrk' & Hle & Hcases).
  rewrite Eup. cbn [mbind option_bind]. rewrite Hnext1, Hids1 in *. cbn in Hle.
  set (rib' := set_next (set_path_ids (update_route rib1 key (fun _ => route')) ids') next').
  assert (forall k, get_route rib' k = if decide (key = k) then Some route' else get_route rib k) as Hget.
  { intros k. unfold rib'. rewrite get_route_set_next, get_route_set_path_ids, get_update_route, Hget1.
    case_decide; [done|]. apply get_route_set_next. }
  assert (rib_safe rib') as Hsafe' by exact (update_route_safe rib1 key _ Hsafe1).
  assert (lr_max_ls_entries rib' = lr_max_ls_entries rib) as Hmax
    by (unfold rib'; cbn; by rewrite (proj1 (proj2 (update_route_rest rib1 key _))), Hmax1).
  pose proof (upsert_sorted _ _ _ _ _ _ _ _ Eup) as Hsorted.
  assert (lr_next rib < lr_next rib') as Hnext by (unfold rib'; cbn; lia).
  rewrite Hpaths, Hrk in *.
  destruct Hcases as [(l1 & e & l2 & q & Hsplit & Hie & Hperm & -> & Hq & Hw)|(Hni & q & Hperm & -> & Hq & Hw)].
  - exists rib', None. split; [done|].
    by apply (upsert_found_case rib rib' shared key path route' Hinv Hptr Hsafe' Hmax Hnext Hget Hrk' Hsorted l1 e l2 q).
  - eexists rib', _. split; [done|].
    by apply (upsert_new_case rib rib' shared key path route' Hinv Hptr Hsafe' Hmax Hnext Hget Hrk' Hsorted q).
Qed.

End storing.

(** ** Removals *)
Definition kept_paths (should_remove : Path -> bool) (l : list PathRef) : list PathRef :=
  filter (fun p => should_remove (ref_path p) = false) l.
Definition gone_paths (should_remove : Path -> bool) (l : list PathRef) : list PathRef :=
  filter (fun p => should_remove (ref_path p) = true) l.

Lemma elem_of_kept f l p : p ∈ kept_paths f l <-> p ∈ l /\ f (ref_path p) = false.
Proof. unfold kept_paths. rewrite list_elem_of_filter. tauto. Qed.
Lemma elem_of_gone f l p : p ∈ gone_paths f l <-> p ∈ l /\ f (ref_path p) = true.
Proof. unfold gone_paths. rewrite list_elem_of_filter. tauto. Qed.

Lemma kept_map_sublist {B} (g : PathRef -> B) f l : map g (kept_paths f l) `sublist_of` map g l.
Proof.
  unfold kept_paths. induction l as [|p l IH]; [done|].
  destruct (decide (f (ref_path p) = false)).
  - rewrite filter_cons_True by done. by apply sublist_skip.
  - rewrite filter_cons_False by done. by apply sublist_cons.
Qed.

Lemma kept_omap_sublist f l : omap local_id (kept_paths f l) `sublist_of` omap local_id l.
Proof.
  unfold kept_paths. induction l as [|p l IH]; [done|].
  destruct (decide (f (ref_path p) = false)).
  - rewrite filter_cons_True by done. cbn. destruct (local_id p); [by apply sublist_skip|done].
  - rewrite filter_cons_False by done. cbn. destruct (local_id p); [by apply sublist_cons|done].
Qed.

(** The identifiers of a list are those of the kept and of the gone paths,
    and the two are apart. *)
Lemma kept_gone_ids f l id :
  NoDup (omap local_id l) ->
  (id ∈ omap local_id l <-> id ∈ omap local_id (kept_paths f l) \/ id ∈ omap local_id (gone_paths f l)) /\
  (id ∈ omap local_id (kept_paths f l) -> ~ (id ∈ omap local_id (gone_paths f l))).
Proof.
  intros Hnd. rewrite !elem_of_omap_local. setoid_rewrite elem_of_kept. setoid_rewrite elem_of_gone. split.
  - split.
    + intros (p & Hp & Hid). destruct (f (ref_path p)) eqn:E; [right|left]; eauto.
    + intros [(p & [Hp _] & Hid)|(p & [Hp _] & Hid)]; eauto.
  - intros (p & [Hp Hf] & Hid) (q & [Hq Hf'] & Hid').
    assert (p = q) as ->; [|congruence]. apply (NoDup_omap_local l); [done..|by eexists|congruence].
Qed.

(** Removing paths of one key, once the allocator has their identifiers
    back. *)
Record remove_post rib rib' key (f : Path -> bool) : Prop := {
  rm_inv : rib_inv rib';
  rm_max : lr_max_ls_entries rib' = lr_max_ls_entries rib;
  rm_next : lr_next rib' = lr_next rib;
  rm_size : (size (alloc_ids (lr_path_ids rib')) <= size (alloc_ids (lr_path_ids rib)))%nat;
  rm_other : forall key', key' <> key -> get_route rib' key' = get_route rib key';
  rm_paths : old_paths rib' key = kept_paths f (old_paths rib key);
}.

Lemma removed_ids ids freed rt key l f :
  routes_inv ids freed rt -> opt_paths (rt key) = l ->
  Forall u32 (omap local_id (gone_paths f l)).
Proof.
  intros Hri <-. apply Forall_forall. intros id (p & Hp & Hid)%elem_of_omap_local.
  apply elem_of_gone in Hp as [Hp _]. destruct (ri_local _ _ _ Hri key p Hp) as (id' & E & Hu). congruence.
Qed.

Lemma remove_inv ids next rt rt' key f :
  routes_inv ids next rt ->
  (forall key', key' <> key -> rt' key' = rt key') ->
  (forall r, rt' key = Some r -> route_key r = key /\ paths r <> []) ->
  opt_paths (rt' key) = kept_paths f (opt_paths (rt key)) ->
  routes_inv (ids ∖ list_to_set (omap local_id (gone_paths f (opt_paths (rt key))))) next rt'.
Proof.
  intros Hinv Hrt Hkey Hnew. pose proof Hinv as [Hk Hi Hl [Hlnd Hlu] Hids [Hpnd Hpu] Hp].
  assert (forall p, p ∈ opt_paths (rt' key) -> p ∈ opt_paths (rt key)) as Hsub
    by (intros p; rewrite Hnew, elem_of_kept; tauto).
  apply (routes_inv_replace ids _ next next rt rt' key Hinv Hrt Hkey).
  - rewrite Hnew. eapply sublist_NoDup; [apply Hi|apply kept_map_sublist].
  - intros p Hin. by apply (Hl key), Hsub.
  - rewrite Hnew. eapply sublist_NoDup; [apply Hlnd|apply kept_omap_sublist].
  - intros id. rewrite !elem_of_omap_local. intros (p & Hin%Hsub & Hid). left. eauto.
  - intros id. rewrite Hnew, elem_of_difference, elem_of_list_to_set.
    destruct (kept_gone_ids f (opt_paths (rt key)) id (Hlnd key)) as [Hor Hdisj]. rewrite Hor. split.
    + intros [Hin Hng]. destruct (decide (id ∈ omap local_id (kept_paths f (opt_paths (rt key))))); tauto.
    + intros [Hkept|[Hin Hn]]; [|tauto]. split; [|by apply Hdisj]. apply Hids. exists key. tauto.
  - rewrite Hnew. eapply sublist_NoDup; [|apply kept_map_sublist]. rewrite <- omap_ptr_label. apply Hpnd.
  - intros p Hin. left. by apply list_elem_of_fmap_2, Hsub.
  - intros p Hin. by eapply Hp, Hsub.
  - done.
Qed.

Lemma remove_paths_spec rib key f :
  rib_inv rib ->
  exists rib', remove_paths rib key f = Some (rib', omap local_id (gone_paths f (old_paths rib key))) /\
    lr_path_ids rib' = lr_path_ids rib /\
    remove_post rib (set_path_ids rib'
      (free_all (lr_path_ids rib) (omap local_id (gone_paths f (old_paths rib key))))) key f.
Proof.
  intros (Hsafe & Ha & Hri). unfold remove_paths.
  assert (exists rib', remove_paths rib key f = Some (rib', omap local_id (gone_paths f (old_paths rib key))) /\
    rib_safe rib' /\ same_rest rib rib' /\
    (forall key', key' <> key -> get_route rib' key' = get_route rib key') /\
    (forall r, get_route rib' key = Some r -> route_key r = key /\ paths r <> []) /\
    old_paths rib' key = kept_paths f (old_paths rib key)) as
    (rib' & E & Hsafe' & (Hids & Hmax & Hnext) & Hother & Hkey & Hpaths).
  { unfold remove_paths, old_paths. destruct (get_route rib key) as [route|] eqn:Er.
    2: { exists rib. rewrite Er. split_and!; try done. }
    unfold remove_paths_from_route. fold (kept_paths f (paths route)). fold (gone_paths f (paths route)).
    cbn [opt_paths paths]. destruct (ri_key _ _ _ Hri _ _ Er) as [Hrk _].
    set (rib1 := update_route rib key _).
    assert (rib_safe rib1) as Hs1 by by apply update_route_safe.
    pose proof (update_route_rest rib key
      (fun _ => mkRoute (route_key route) (kept_paths f (paths route)))) as Hrest. fold rib1 in Hrest.
    assert (forall k, get_route rib1 k = if decide (key = k)
      then Some (mkRoute (route_key route) (kept_paths f (paths route))) else get_route rib k) as Hg1.
    { intros k. unfold rib1. rewrite get_update_route. case_decide; [|done]. subst. by rewrite Er. }
    destruct (kept_paths f (paths route)) as [|p l] eqn:Ek.
    - destruct (remove_entry_route rib1 key Hs1) as (rib2 & -> & Hs2 & (? & ? & ?) & Hg2).
      exists rib2. destruct Hrest as (? & ? & ?). split; [done|]. split; [done|].
      split; [unfold same_rest; split_and!; congruence|]. split; [|split].
      + intros k Hne. rewrite Hg2, decide_False by congruence. by rewrite Hg1, decide_False by congruence.
      + intros r. by rewrite Hg2, decide_True.
      + by rewrite Hg2, decide_True.
    - exists rib1. split; [done|]. split; [done|]. split; [done|]. split; [|split].
      + intros k Hne. by rewrite Hg1, decide_False by congruence.
      + intros r. rewrite Hg1, decide_True by done. by intros [= <-].
      + by rewrite Hg1, decide_True. }
  exists rib'. split_and!; [done|done|].
  destruct (free_all_ok (lr_path_ids rib) (omap local_id (gone_paths f (old_paths rib key))) Ha) as [Ha' Hids'].
  { by apply (removed_ids _ _ _ _ _ _ Hri eq_refl). }
  split; cbn; try done.
  - split_and!; [done|done|]. cbn. rewrite Hids', Hnext.
    apply (routes_inv_ext _ (lr_next rib) _ (get_route rib'));
      [|apply get_route_set_path_ids|lia]. by apply (remove_inv _ _ (get_route rib)).
  - rewrite Hids'. apply subseteq_size. set_solver.
Qed.
End inv.
