(* ===== verification/LocRibSpec.v ===== *)
(** * The Loc-RIB against its specification

    The specification is one finite map from (route key, path identity) to
    paths without local identifiers; every operation of [LocRib] is related
    to an operation on it.  The deltas are related to the best paths before
    and after. *)
From S2P Require Import Prelude Net Trie TrieSpec PrefixMap Vrp PathId BgpLs Attrs Path LocRib LocRibInv.

Abbreviation PathKey := (RouteKey * (RouteSource * option Z))%type.
Abbreviation RibMap := (gmap PathKey Path).

Definition strip (p : Path) : Path := set_local_path_id None p.
Definition path_ident (p : Path) : RouteSource * option Z := (pa_source (attrs p), remote_path_id p).

(** ** Operations of the specification *)
Definition spec_upsert (m : RibMap) (key : RouteKey) (path : Path) : RibMap :=
  <[(key, path_ident path) := strip (upserted (m !! (key, path_ident path)) path None)]> m.

Definition spec_remove (m : RibMap) (key : RouteKey) (f : Path -> bool) : RibMap :=
  filter (fun kv => ~ (kv.1.1 = key /\ f kv.2 = true)) m.

(** Link-state keys in use, and whether one more is refused. *)
Definition ls_key (k : PathKey) : option LsNlri :=
  match k.1 with KLinkState n => Some n | KPrefix _ => None end.
Definition ls_keys (m : RibMap) : gset LsNlri := list_to_set (omap ls_key (map_to_list m).*1).
Definition spec_full (max : Z) (m : RibMap) (key : RouteKey) : bool :=
  match key with
  | KLinkState n =>
      (0 <? max) && negb (bool_decide (n ∈ ls_keys m)) && (max <=? Z.of_nat (size (ls_keys m)))
  | KPrefix _ => false
  end.

(** A withdrawal from a peer: all its paths, or the one with a remote id. *)
Definition withdrawn_by (peer_ip : IpAddr) (remote : option Z) (p : Path) : bool :=
  is_from_peer p peer_ip &&
  match remote with None => true | Some id => bool_decide (remote_path_id p = Some id) end.

Definition spec_pending (max : Z) (policy : RouteKey -> Path -> bool * Path) (peer_ip : IpAddr)
    (m : RibMap) (pending : PendingRoute) : RibMap :=
  match pending with
  | Withdraw (key, remote) => spec_remove m key (withdrawn_by peer_ip remote)
  | Announce r =>
      let '(accepted, path) := policy (rp_key r) (ref_path (rp_path r)) in
      if accepted then
        if spec_full max m (rp_key r) then m else spec_upsert m (rp_key r) path
      else spec_remove m (rp_key r) (withdrawn_by peer_ip (remote_path_id (ref_path (rp_path r))))
  end.

Section spec.
Context {A : Type} `{PathIdLaws A}.
Implicit Types (rib : LocRib A) (key : RouteKey) (peer_ip : IpAddr) (m : RibMap).

Definition rib_repr rib m : Prop :=
  rib_inv rib /\
  forall key i, m !! (key, i) = (fun p => strip (ref_path p)) <$> find_ident i (old_paths rib key).

Lemma rib_ident rib key : rib_inv rib -> NoDup (map ident (old_paths rib key)).
Proof. intros (_ & _ & Hri). apply (ri_ident _ _ _ Hri). Qed.

Lemma rib_repr_elem rib m key i p :
  rib_repr rib m -> m !! (key, i) = Some p <->
  exists q, q ∈ old_paths rib key /\ ident q = i /\ strip (ref_path q) = p.
Proof.
  intros [Hinv Hm]. rewrite Hm, fmap_Some. pose proof (rib_ident rib key Hinv) as Hnd. split.
  - intros (q & [Hq Hi]%find_ident_Some & ->); [eauto|done].
  - intros (q & Hq & Hi & <-). exists q. split; [|done]. by apply find_ident_Some.
Qed.

Lemma strip_upserted old p id id' : strip (upserted old p id) = strip (upserted (strip <$> old) p id').
Proof.
  destruct old as [q|]; [|done]. unfold upserted. cbn [fmap option_fmap option_map].
  change (attrs (strip q)) with (attrs q). by destruct (bool_decide (attrs q <> attrs p)).
Qed.

Lemma repr_upsert {Sorts : SortBy} rib rib' m shared key path id :
  rib_repr rib m -> upsert_post rib rib' shared key path id ->
  rib_repr rib' (spec_upsert m key (ref_path path)).
Proof.
  intros [Hinv Hm] Hup. split; [by apply (up_inv _ _ _ _ _ _ Hup)|].
  destruct (up_elem _ _ _ _ _ _ Hup) as (q & Hiq & Hq & Helem).
  pose proof (rib_ident rib' key (up_inv _ _ _ _ _ _ Hup)) as Hnd'.
  pose proof (rib_ident rib key Hinv) as Hnd. intros key' i. unfold spec_upsert.
  destruct (decide (key' = key)) as [->|Hne].
  2: { rewrite lookup_insert_ne by congruence. rewrite Hm. unfold old_paths.
       by rewrite (up_other _ _ _ _ _ _ Hup). }
  destruct (decide (i = ident path)) as [->|Hi].
  - change (path_ident (ref_path path)) with (ident path). rewrite lookup_insert_eq.
    assert (find_ident (ident path) (old_paths rib' key) = Some q) as ->
      by (apply find_ident_Some; [done|]; split; [apply Helem; by left|done]).
    cbn [fmap option_fmap option_map]. rewrite Hm, Hq. f_equal.
    rewrite (strip_upserted (ref_path <$> _) _ id None). by destruct (find_ident _ _).
  - rewrite lookup_insert_ne by (intros E; apply Hi; symmetry; exact (f_equal snd E)). rewrite Hm.
    assert (find_ident i (old_paths rib' key) = find_ident i (old_paths rib key)) as ->; [|done].
    apply option_eq. intros p. rewrite !find_ident_Some, Helem by done. split.
    + intros [[->|[Hp _]] Hpi]; [by destruct Hi; rewrite <- Hpi|by split].
    + intros [Hp Hpi]. split; [|done]. right. split; [done|congruence].
Qed.

Lemma repr_remove rib rib' m key f :
  rib_repr rib m -> remove_post rib rib' key f -> (forall p, f (strip p) = f p) ->
  rib_repr rib' (spec_remove m key f).
Proof.
  intros Hr Hrm Hf. pose proof Hr as [Hinv Hm]. pose proof (rm_inv _ _ _ _ Hrm) as Hinv'.
  split; [done|]. intros key' i. apply option_eq. intros p.
  unfold spec_remove. rewrite map_lookup_filter_Some. cbn [fst snd].
  rewrite (rib_repr_elem rib m key' i p Hr), fmap_Some.
  setoid_rewrite find_ident_Some; [|by apply rib_ident].
  destruct (decide (key' = key)) as [->|Hne].
  - rewrite (rm_paths _ _ _ _ Hrm). setoid_rewrite elem_of_kept. split.
    + intros [(q & Hq & Hi & <-) Hn]. exists q. split_and!; try done.
      rewrite Hf in Hn. destruct (f (ref_path q)); [by destruct Hn|done].
    + intros (q & [[Hq Hk] Hi] & ->). split; [eauto|]. rewrite Hf, Hk. by intros [_ ?].
  - assert (old_paths rib' key' = old_paths rib key') as ->
      by (unfold old_paths; by rewrite (rm_other _ _ _ _ Hrm)).
    split.
    + intros [(q & Hq & Hi & <-) _]. eauto.
    + intros (q & [Hq Hi] & ->). split; [eauto|]. by intros [? _].
Qed.

(** The link-state keys of the map are the entries of the table. *)
Lemma elem_of_ls_keys m n : n ∈ ls_keys m <-> exists i, is_Some (m !! (KLinkState n, i)).
Proof.
  unfold ls_keys. rewrite elem_of_list_to_set, list_elem_of_omap. split.
  - intros ([k i] & ([k' p] & Ek & Hin%elem_of_map_to_list)%list_elem_of_fmap & Hk).
    cbn in Ek. subst k'. unfold ls_key in Hk. cbn in Hk. destruct k; [done|]. injection Hk as ->. eauto.
  - intros (i & p & Hp). exists (KLinkState n, i). split; [|done].
    apply list_elem_of_fmap. exists ((KLinkState n, i), p). by rewrite elem_of_map_to_list.
Qed.

Lemma ls_keys_dom rib m : rib_repr rib m -> ls_keys m = dom (lr_ls rib).
Proof.
  intros Hr. apply set_eq. intros n. rewrite elem_of_ls_keys, elem_of_dom. split.
  - intros (i & p & Hp). apply (rib_repr_elem rib m _ _ _ Hr) in Hp as (q & Hq & _ & _).
    unfold old_paths in Hq. cbn in Hq. by destruct (lr_ls rib !! n); [|apply not_elem_of_nil in Hq].
  - intros [r Hn]. destruct Hr as [Hinv Hm]. pose proof Hinv as (_ & _ & Hri).
    destruct (ri_key _ _ _ Hri (KLinkState n) r) as [_ Hne]; [done|].
    destruct (paths r) as [|q l] eqn:Ep; [done|]. exists (ident q).
    rewrite (Hm (KLinkState n) (ident q)).
    assert (find_ident (ident q) (old_paths rib (KLinkState n)) = Some q) as ->; [|by eexists].
    apply find_ident_Some; [by apply rib_ident|]. split; [|done].
    unfold old_paths. cbn. rewrite Hn. cbn. rewrite Ep. by left.
Qed.

Lemma ls_full_spec rib m key :
  rib_repr rib m -> ls_full rib key = spec_full (lr_max_ls_entries rib) m key.
Proof.
  intros Hr. destruct key as [|n]; [done|]. unfold ls_full, spec_full.
  rewrite (ls_keys_dom rib m Hr), size_dom. do 3 f_equal.
  apply bool_decide_ext. by rewrite elem_of_dom.
Qed.

Definition room rib (n : nat) : Prop :=
  Z.of_nat (size (alloc_ids (lr_path_ids rib)) + n) < 2 ^ 32.

(** ** Snapshots of best paths

    [o] was cloned from the table earlier: as long as writes leave shared
    addresses alone, the table holds the same path at that address or none. *)
Definition held rib (o : PathRef) : Prop :=
  ref_ptr o < lr_next rib /\ forall key p, p ∈ old_paths rib key -> ref_ptr p = ref_ptr o -> p = o.

Lemma held_best rib key o : rib_inv rib -> get_best_path rib key = Some o -> held rib o.
Proof.
  intros (_ & _ & Hri) Hb. destruct Hri as [_ _ _ _ _ [Hnd Hu] Hp].
  assert (o ∈ old_paths rib key) as Ho.
  { unfold get_best_path, old_paths in *. destruct (get_route rib key) as [r|]; [|done].
    cbn in *. destruct (paths r); [done|]. injection Hb as ->. by left. }
  split; [by apply (Hp key)|]. intros key' p Hin E.
  assert (key' = key) as ->.
  { apply (Hu (ref_ptr o)); rewrite omap_ptr_label; [rewrite <- E|]; by apply list_elem_of_fmap_2. }
  specialize (Hnd key). rewrite omap_ptr_label in Hnd. unfold old_paths in *.
  apply list_elem_of_lookup in Hin as [i Hi]. apply list_elem_of_lookup in Ho as [j Hj].
  assert (i = j) as ->; [|congruence]. eapply NoDup_lookup; [exact Hnd| |].
  - change (map ref_ptr ?l) with (ref_ptr <$> l). rewrite list_lookup_fmap, Hi. done.
  - change (map ref_ptr ?l) with (ref_ptr <$> l). rewrite list_lookup_fmap, Hj. simpl. congruence.
Qed.

Lemma held_writes rib rib' shared key o :
  held rib o -> ref_ptr o ∈ shared -> lr_next rib <= lr_next rib' ->
  (forall key', key' <> key -> get_route rib' key' = get_route rib key') ->
  writes_ok shared (lr_next rib) (old_paths rib key) (old_paths rib' key) ->
  held rib' o.
Proof.
  intros [Hlt Hh] Hs Hn Hother Hw. split; [lia|]. intros key' p Hp E.
  destruct (decide (key' = key)) as [->|Hne].
  - destruct (Hw p Hp) as [Hold|[Hns|Hf]]; [by apply (Hh key)|congruence|lia].
  - apply (Hh key'); [|done]. unfold old_paths in *. by rewrite <- Hother.
Qed.

(** ** One pending route *)

(** Only link-state keys are ever refused, and only under a limit. *)
Definition refusable (max : Z) key : Prop := (exists n, key = KLinkState n) /\ 0 < max.

Lemma spec_full_refusable max m key : spec_full max m key = true -> refusable max key.
Proof.
  destruct key as [|n]; [done|]. simpl. rewrite !andb_true_iff. intros [[Hm _] _]. split; [eauto|lia].
Qed.

Definition pending_ok (p : PendingRoute) : Prop := rkey_ok (pending_route_key p).

(** What one write does, apart from its effect on the map. *)
Record step_frame rib rib' (shared : gset Z) key : Prop := {
  sf_max : lr_max_ls_entries rib' = lr_max_ls_entries rib;
  sf_next : lr_next rib <= lr_next rib';
  sf_size : (size (alloc_ids (lr_path_ids rib')) <= S (size (alloc_ids (lr_path_ids rib))))%nat;
  sf_other : forall key', key' <> key -> get_route rib' key' = get_route rib key';
  sf_writes : writes_ok shared (lr_next rib) (old_paths rib key) (old_paths rib' key);
}.

Lemma remove_frame rib rib' shared key f : remove_post rib rib' key f -> step_frame rib rib' shared key.
Proof.
  intros Hrm. split.
  - apply (rm_max _ _ _ _ Hrm).
  - rewrite (rm_next _ _ _ _ Hrm). lia.
  - pose proof (rm_size _ _ _ _ Hrm). lia.
  - apply (rm_other _ _ _ _ Hrm).
  - intros p Hp. left. rewrite (rm_paths _ _ _ _ Hrm) in Hp. by apply elem_of_kept in Hp as [? _].
Qed.

Lemma upsert_frame {Sorts : SortBy} rib rib' shared key path id :
  upsert_post rib rib' shared key path id -> step_frame rib rib' shared key.
Proof. by intros []. Qed.

Lemma next_frame rib shared key : step_frame rib (set_next rib (lr_next rib + 1)) shared key.
Proof.
  split; cbn; try lia; try done; try (intros; apply get_route_set_next).
  intros p Hp. left. unfold old_paths in *. by rewrite get_route_set_next in Hp.
Qed.

Lemma repr_next rib m : rib_repr rib m -> rib_repr (set_next rib (lr_next rib + 1)) m.
Proof.
  intros [(Hs & Ha & Hri) Hm]. split.
  - split_and!; [done..|]. apply (routes_inv_ext _ (lr_next rib) _ (get_route rib));
      [done|apply get_route_set_next|simpl; lia].
  - intros key i. rewrite Hm. unfold old_paths. by rewrite get_route_set_next.
Qed.

Lemma remove_peer_path_ok rib m key peer_ip remote :
  rib_repr rib m -> exists rib' b, remove_peer_path rib key peer_ip remote = Some (rib', b) /\
    rib_repr rib' (spec_remove m key (withdrawn_by peer_ip remote)) /\
    remove_post rib rib' key (withdrawn_by peer_ip remote).
Proof.
  intros Hr. unfold remove_peer_path.
  destruct (remove_paths_spec rib key (withdrawn_by peer_ip remote) (proj1 Hr)) as (rib1 & E & Hids & Hrm).
  unfold withdrawn_by in E at 1. rewrite E. cbn [mbind option_bind]. rewrite Hids.
  eexists _, _. split; [done|]. split; [|done]. by apply (repr_remove rib).
Qed.

Lemma announce_ok {Sorts : SortBy} {Returns : SortReturns} rib m shared key path :
  rib_repr rib m -> rkey_ok key -> room rib 1 ->
  exists rib' b,
    upsert_path (set_next rib (lr_next rib + 1)) shared key (mkRef (lr_next rib) path) = Some (rib', b) /\
    b = negb (spec_full (lr_max_ls_entries rib) m key) /\
    rib_repr rib' (if b then spec_upsert m key path else m) /\
    step_frame rib rib' shared key /\
    (if b then exists id, upsert_post rib rib' shared key (mkRef (lr_next rib) path) id
     else rib' = set_next rib (lr_next rib + 1)).
Proof.
  intros Hr Hk Hroom.
  pose proof (upsert_path_spec rib shared key (mkRef (lr_next rib) path) (proj1 Hr) Hk eq_refl) as Hup.
  rewrite (ls_full_spec rib m key Hr) in Hup. unfold room in Hroom.
  destruct (spec_full _ m key).
  - destruct Hup as [-> _]; [lia|]. eexists _, _. split_and!; [done|done|by apply repr_next|apply next_frame|done].
  - destruct Hup as (rib' & id & -> & Hpost); [lia|]. eexists _, _. split_and!; [done|done| | |].
    + by apply (repr_upsert rib rib' m shared key (mkRef (lr_next rib) path) id).
    + by eapply upsert_frame.
    + by exists id.
Qed.

Lemma apply_pending_ok {Sorts : SortBy} {Returns : SortReturns} rib m policy shared peer_ip pending rejected :
  rib_repr rib m -> pending_ok pending -> room rib 1 ->
  exists rib' rejected',
    apply_pending policy shared peer_ip pending (rib, rejected) = Some (rib', rejected') /\
    rib_repr rib' (spec_pending (lr_max_ls_entries rib) policy peer_ip m pending) /\
    step_frame rib rib' shared (pending_route_key pending) /\
    (forall k, k ∈ rejected' -> k ∈ rejected \/
       (k = pending_route_key pending /\ refusable (lr_max_ls_entries rib) k)).
Proof.
  intros Hr Hok Hroom. destruct pending as [r|[key remote]]; cbn [apply_pending spec_pending pending_route_key].
  - destruct (policy (rp_key r) (ref_path (rp_path r))) as [[] path].
    + destruct (announce_ok rib m shared (rp_key r) path Hr Hok Hroom)
        as (rib' & b & -> & -> & Hr' & Hf & _). cbn [mbind option_bind].
      eexists _, _. split; [done|].
      destruct (spec_full _ _ _) eqn:Efull; cbn [negb] in *; (split_and!; [done..|]); [|by left].
      intros k [->%elem_of_singleton|Hk]%elem_of_union; [right|by left].
      split; [done|by eapply spec_full_refusable].
    + destruct (remove_peer_path_ok rib m (rp_key r) peer_ip (remote_path_id (ref_path (rp_path r))) Hr)
        as (rib' & b & -> & Hr' & Hrm). cbn [mbind option_bind].
      eexists _, _. split_and!; [done|done|by eapply remove_frame|by left].
  - destruct (remove_peer_path_ok rib m key peer_ip remote Hr) as (rib' & b & -> & Hr' & Hrm).
    cbn [mbind option_bind]. eexists _, _. split_and!; [done|done|by eapply remove_frame|by left].
Qed.

(** ** A batch *)
Definition spec_update (max : Z) (policy : RouteKey -> Path -> bool * Path) peer_ip m (pending : list PendingRoute) : RibMap :=
  fold_left (spec_pending max policy peer_ip) pending m.

Lemma apply_pendings_ok {Sorts : SortBy} {Returns : SortReturns} rib m policy shared peer_ip pending rejected :
  rib_repr rib m -> Forall pending_ok pending -> room rib (length pending) ->
  exists rib' rejected',
    apply_pendings policy shared peer_ip pending (rib, rejected) = Some (rib', rejected') /\
    rib_repr rib' (spec_update (lr_max_ls_entries rib) policy peer_ip m pending) /\
    lr_max_ls_entries rib' = lr_max_ls_entries rib /\
    (size (alloc_ids (lr_path_ids rib')) <= size (alloc_ids (lr_path_ids rib)) + length pending)%nat /\
    (forall key, ~ (key ∈ map pending_route_key pending) -> get_route rib' key = get_route rib key) /\
    (forall o, held rib o -> ref_ptr o ∈ shared -> held rib' o) /\
    (forall k, k ∈ rejected' -> k ∈ rejected \/
       (k ∈ map pending_route_key pending /\ refusable (lr_max_ls_entries rib) k)).
Proof.
  revert rib m rejected. induction pending as [|p pending IH]; intros rib m rejected Hr Hok Hroom.
  { exists rib, rejected. split_and!; try done; [cbn; lia|by left]. }
  apply Forall_cons in Hok as [Hp Hok]. unfold room in Hroom. cbn [length] in Hroom.
  destruct (apply_pending_ok rib m policy shared peer_ip p rejected Hr Hp) as
    (rib1 & rej1 & E1 & Hr1 & Hf & Hrej1); [unfold room; lia|].
  pose proof (sf_size _ _ _ _ Hf) as Hsz. pose proof (sf_max _ _ _ _ Hf) as Hmax.
  destruct (IH rib1 _ rej1 Hr1 Hok) as (rib2 & rej2 & E2 & Hr2 & Hmax2 & Hsz2 & Hget & Hheld & Hrej2);
    [unfold room; lia|].
  exists rib2, rej2. cbn [apply_pendings]. rewrite E1. cbn [mbind option_bind].
  split_and!; [done| |congruence|cbn; lia| | |].
  - cbn [spec_update fold_left]. by rewrite Hmax in Hr2.
  - intros key Hn. cbn [map] in Hn. rewrite Hget by set_solver.
    apply (sf_other _ _ _ _ Hf). set_solver.
  - intros o Ho Hs. apply Hheld; [|done].
    apply (held_writes rib rib1 shared (pending_route_key p)); try done;
      [apply (sf_next _ _ _ _ Hf)|apply (sf_other _ _ _ _ Hf)|apply (sf_writes _ _ _ _ Hf)].
  - intros k Hk. cbn [map]. rewrite elem_of_cons. rewrite Hmax in Hrej2.
    destruct (Hrej2 k Hk) as [Hk1|[? ?]]; [|by right; split; [right|]].
    destruct (Hrej1 k Hk1) as [?|[-> ?]]; [by left|by right; split; [left|]].
Qed.

(** ** Snapshots and deltas *)
Lemma snapshot_best_lookup rib keys key :
  snapshot_best rib keys !! key = if decide (key ∈ keys) then get_best_path rib key else None.
Proof.
  unfold snapshot_best. induction keys as [|k keys IH]; [by rewrite decide_False by set_solver|].
  cbn. destruct (get_best_path rib k) as [b|] eqn:Eb; cbn.
  - destruct (decide (key = k)) as [->|Hne].
    + by rewrite lookup_insert_eq, decide_True by set_solver.
    + rewrite lookup_insert_ne by done. rewrite IH. repeat case_decide; set_solver.
  - rewrite IH. destruct (decide (key = k)) as [->|Hne]; repeat case_decide; set_solver.
Qed.

Lemma snapshot_ptrs_elem rib keys key o :
  snapshot_best rib keys !! key = Some o -> ref_ptr o ∈ snapshot_ptrs (snapshot_best rib keys).
Proof.
  intros Hk. unfold snapshot_ptrs. apply elem_of_list_to_set, list_elem_of_fmap.
  exists (key, o). by rewrite elem_of_map_to_list.
Qed.

Lemma best_elem rib key o : get_best_path rib key = Some o -> o ∈ old_paths rib key.
Proof.
  unfold get_best_path, old_paths. destruct (get_route rib key) as [r|]; [|done]. cbn.
  destruct (paths r); [done|]. intros [= ->]. by left.
Qed.

(** When nothing is reported, the best path is the very same. *)
Lemma best_path_changed_false rib key old :
  (forall o, old = Some o -> held rib o) ->
  best_path_changed rib key old = false -> get_best_path rib key = old.
Proof.
  unfold best_path_changed. intros Hheld. destruct old as [o|], (get_best_path rib key) as [b|] eqn:Eb; try done.
  intros E%negb_false_iff%Z.eqb_eq. f_equal.
  destruct (Hheld o eq_refl) as [_ Hh]. apply (Hh key); [by apply best_elem|done].
Qed.

(** What a delta promises about the best paths before and after. *)
Record delta_ok rib rib' (keys : list RouteKey) (d : RouteDelta) (silent : RouteKey -> Prop) : Prop := {
  do_changed : forall key, key ∈ changed d -> key ∈ keys;
  do_best : forall key, key ∈ best_changed d -> key ∈ changed d;
  do_complete : forall key, key ∈ keys -> ~ silent key -> key ∈ changed d;
  do_best_complete : forall key, get_best_path rib' key <> get_best_path rib key ->
    ~ silent key -> key ∈ best_changed d;
}.

Lemma delta_of_snapshot rib rib' (keys affected : list RouteKey) (silent : RouteKey -> Prop) :
  rib_inv rib ->
  (forall key, key ∈ affected -> key ∈ keys) -> (forall key, key ∈ keys -> ~ silent key -> key ∈ affected) ->
  (forall key, ~ (key ∈ keys) -> get_route rib' key = get_route rib key) ->
  (forall key o, key ∈ keys -> get_best_path rib key = Some o -> held rib' o) ->
  delta_ok rib rib' keys
    (mkDelta (filter (fun key => best_path_changed rib' key (snapshot_best rib keys !! key) = true) affected)
       affected) silent.
Proof.
  intros Hinv Hsub Hcompl Hother Hheld. split; cbn; [done| |done|].
  - intros key [_ Hk]%list_elem_of_filter. done.
  - intros key Hne Hs. destruct (decide (key ∈ keys)) as [Hin|Hin].
    2: { destruct Hne. unfold get_best_path. by rewrite Hother. }
    apply list_elem_of_filter. split; [|by apply Hcompl].
    destruct (best_path_changed _ _ _) eqn:E; [done|]. destruct Hne.
    rewrite snapshot_best_lookup, decide_True in E by done.
    apply best_path_changed_false in E; [done|]. intros o Ho. by apply (Hheld key).
Qed.

Lemma apply_peer_update_ok {Sorts : SortBy} {Returns : SortReturns} rib m ext peer_ip pending policy :
  rib_repr rib m -> Forall pending_ok pending -> room rib (length pending) ->
  exists rib' d silent, apply_peer_update rib ext peer_ip pending policy = Some (rib', d) /\
    rib_repr rib' (spec_update (lr_max_ls_entries rib) policy peer_ip m pending) /\
    lr_max_ls_entries rib' = lr_max_ls_entries rib /\
    (size (alloc_ids (lr_path_ids rib')) <= size (alloc_ids (lr_path_ids rib)) + length pending)%nat /\
    delta_ok rib rib' (elements (list_to_set (map pending_route_key pending) : gset RouteKey)) d silent /\
    forall key, silent key -> refusable (lr_max_ls_entries rib) key.
Proof.
  intros Hr Hok Hroom. unfold apply_peer_update.
  set (keys := elements (list_to_set (map pending_route_key pending) : gset RouteKey)).
  set (shared := snapshot_ptrs (snapshot_best rib keys) ∪ ext).
  assert (forall key, key ∈ keys <-> key ∈ map pending_route_key pending) as Hkeys
    by (intros; unfold keys; by rewrite elem_of_elements, elem_of_list_to_set).
  destruct (apply_pendings_ok rib m policy shared peer_ip pending ∅ Hr Hok Hroom)
    as (rib' & rej & -> & Hr' & Hmax & Hsz & Hget & Hheld & Hrej).
  cbn [mbind option_bind]. exists rib'. eexists. exists (fun key => key ∈ rej).
  split_and!; [done|done|done|done| |].
  - apply (delta_of_snapshot rib rib' keys (filter (fun key => ~ key ∈ rej) keys) (fun key => key ∈ rej)).
    + apply Hr.
    + intros key [_ Hk]%list_elem_of_filter. done.
    + intros key Hk Hn. by apply list_elem_of_filter.
    + intros key Hn. apply Hget. by rewrite <- Hkeys.
    + intros key o Hk Ho. apply Hheld; [by apply (held_best rib key), Ho; apply Hr|].
      apply elem_of_union_l, (snapshot_ptrs_elem rib keys key).
      by rewrite snapshot_best_lookup, decide_True.
  - intros key Hk. destruct (Hrej key Hk) as [Hk'|[_ ?]]; [set_solver|done].
Qed.

(** ** Local routes *)
Lemma delta_single rib rib' key :
  rib_inv rib -> (forall key', key' <> key -> get_route rib' key' = get_route rib key') ->
  (forall o, get_best_path rib key = Some o -> held rib' o) ->
  delta_ok rib rib' [key]
    (mkDelta (if best_path_changed rib' key (get_best_path rib key) then [key] else []) [key])
    (fun _ => False).
Proof.
  intros Hinv Hother Hheld.
  assert ((if best_path_changed rib' key (get_best_path rib key) then [key] else []) =
    filter (fun k => best_path_changed rib' k (snapshot_best rib [key] !! k) = true) [key]) as ->.
  { rewrite filter_cons, snapshot_best_lookup, (decide_True (P:=key ∈ [key])) by by left.
    destruct (best_path_changed _ _ _); [by rewrite decide_True|by rewrite decide_False]. }
  apply delta_of_snapshot; [done|done|done| |].
  - intros k Hk. apply Hother. intros ->. destruct Hk. by left.
  - intros k o Hk%list_elem_of_singleton Ho. subst k. by apply Hheld.
Qed.

Definition spec_add_local (max : Z) m key (a : PathAttrs) : RibMap :=
  if spec_full max m key then m else spec_upsert m key (local_path a).
Definition spec_remove_local m key : RibMap :=
  spec_remove m key (fun p => bool_decide (pa_source (attrs p) = Local)).

Lemma add_local_route_ok {Sorts : SortBy} {Returns : SortReturns} rib m ext key a :
  rib_repr rib m -> rkey_ok key -> room rib 1 ->
  exists rib' res, add_local_route rib ext key a = Some (rib', res) /\
    rib_repr rib' (spec_add_local (lr_max_ls_entries rib) m key a) /\
    lr_max_ls_entries rib' = lr_max_ls_entries rib /\
    (size (alloc_ids (lr_path_ids rib')) <= S (size (alloc_ids (lr_path_ids rib))))%nat /\
    match res with
    | inl e => e = MaxLsEntriesReached (lr_max_ls_entries rib) /\
        spec_full (lr_max_ls_entries rib) m key = true
    | inr d => spec_full (lr_max_ls_entries rib) m key = false /\
        delta_ok rib rib' [key] d (fun _ => False)
    end.
Proof.
  intros Hr Hk Hroom. unfold add_local_route, spec_add_local.
  destruct (announce_ok rib m (opt_ptr (get_best_path rib key) ∪ ext) key (local_path a) Hr Hk Hroom)
    as (rib' & b & -> & -> & Hr' & Hf & _). cbn [mbind option_bind].
  pose proof (sf_max _ _ _ _ Hf) as Hmax. pose proof (sf_size _ _ _ _ Hf) as Hsz.
  destruct (spec_full _ _ _) eqn:Efull; cbn [negb] in *; eexists rib', _.
  - rewrite Hmax. by split_and!.
  - split_and!; [done..|]. split; [done|].
    apply delta_single; [apply Hr|apply (sf_other _ _ _ _ Hf)|]. intros o Ho.
    apply (held_writes rib rib' (opt_ptr (get_best_path rib key) ∪ ext) key);
      [by apply (held_best rib key); [apply Hr|]| |apply Hf..].
    rewrite Ho. cbn [opt_ptr]. set_solver.
Qed.


Lemma kept_all f l : omap local_id (gone_paths f l) = [] -> Forall (fun p => is_Some (local_id p)) l ->
  kept_paths f l = l.
Proof.
  unfold gone_paths, kept_paths. induction l as [|p l IH]; [done|].
  intros Hg [[id Hid] Hl]%Forall_cons. rewrite filter_cons in Hg |- *.
  destruct (f (ref_path p)) eqn:Ef.
  - rewrite decide_True in Hg by done. cbn in Hg. by rewrite Hid in Hg.
  - rewrite decide_False in Hg by done. rewrite decide_True by done. by rewrite IH.
Qed.

Lemma all_have_ids rib key : rib_inv rib -> Forall (fun p => is_Some (local_id p)) (old_paths rib key).
Proof.
  intros (_ & _ & Hri). apply Forall_forall. intros p Hp.
  destruct (ri_local _ _ _ Hri key p Hp) as (id & -> & _). by eexists.
Qed.

(** Nothing removed means that nothing changes in the map either. *)
Lemma spec_remove_none rib m key f :
  rib_repr rib m -> kept_paths f (old_paths rib key) = old_paths rib key ->
  (forall p, f (strip p) = f p) -> spec_remove m key f = m.
Proof.
  intros Hr Hk Hf. unfold spec_remove. apply map_filter_id. intros [key' i] p Hp [E Hfp]. cbn in E, Hfp.
  subst key'. apply (rib_repr_elem rib m _ _ _ Hr) in Hp as (q & Hq & _ & <-).
  rewrite <- Hk in Hq. apply elem_of_kept in Hq as [_ Hq]. rewrite Hf in Hfp. congruence.
Qed.

Lemma repr_same_ids rib m a :
  rib_repr (set_path_ids rib a) m -> alloc_inv (lr_path_ids rib) ->
  alloc_ids a = alloc_ids (lr_path_ids rib) -> rib_repr rib m.
Proof.
  intros [(Hs & Ha & Hri) Hm] Ha' E. split.
  - split_and!; [done|done|]. rewrite <- E.
    apply (routes_inv_ext _ (lr_next rib) _ (get_route (set_path_ids rib a)));
      [done|intros; by rewrite get_route_set_path_ids|lia].
  - intros key i. rewrite Hm. unfold old_paths. by rewrite get_route_set_path_ids.
Qed.

Lemma remove_post_same_ids rib rib' a key f :
  remove_post rib (set_path_ids rib' a) key f -> rib_inv rib' ->
  alloc_ids a = alloc_ids (lr_path_ids rib') -> remove_post rib rib' key f.
Proof.
  intros [_ Hmax Hnext Hsz Hother Hp] Hinv E. split; [done|done|done| | |].
  - cbn in Hsz. by rewrite <- E.
  - intros k Hk. rewrite <- (get_route_set_path_ids rib' a). by apply Hother.
  - unfold old_paths in *. by rewrite get_route_set_path_ids in Hp.
Qed.

Definition is_local_path (p : Path) : bool := bool_decide (pa_source (attrs p) = Local).

Lemma remove_local_route_ok rib m key :
  rib_repr rib m ->
  exists rib' d, remove_local_route rib key = Some (rib', d) /\
    rib_repr rib' (spec_remove_local m key) /\ remove_post rib rib' key is_local_path /\
    (d = delta_new /\ spec_remove_local m key = m \/ delta_ok rib rib' [key] d (fun _ => False)).
Proof.
  intros Hr. unfold remove_local_route, spec_remove_local. fold is_local_path.
  destruct (remove_paths_spec rib key is_local_path (proj1 Hr)) as (rib1 & -> & Hids & Hrm).
  cbn [mbind option_bind].
  pose proof (repr_remove _ _ _ _ _ Hr Hrm (fun p => eq_refl)) as Hr1.
  destruct (omap local_id (gone_paths is_local_path (old_paths rib key))) as [|id ids] eqn:Eg.
  - exists rib1, delta_new. pose proof Hr as [(_ & Ha & _) _].
    destruct (free_all_ok (lr_path_ids rib) [] Ha (Forall_nil_2 _)) as [_ Hf0].
    assert (alloc_ids (free_all (lr_path_ids rib) []) = alloc_ids (lr_path_ids rib1)) as Hf1
      by (rewrite Hf0, Hids; set_solver).
    assert (rib_repr rib1 (spec_remove m key is_local_path)) as Hr2
      by (apply (repr_same_ids _ _ _ Hr1); [by rewrite Hids|done]).
    split_and!; [done|done|by apply (remove_post_same_ids _ _ _ _ _ Hrm); [apply Hr2|]|left].
    split; [done|]. apply (spec_remove_none rib); [done|apply kept_all; [done|apply all_have_ids, Hr]|done].
  - rewrite Hids. eexists _, _. split_and!; [done|done|done|].
    right. apply delta_single; [apply Hr|apply (rm_other _ _ _ _ Hrm)|].
    intros o Ho. pose proof (remove_frame _ _ (opt_ptr (Some o)) _ _ Hrm) as Hfr.
    apply (held_writes rib _ (opt_ptr (Some o)) key);
      [by apply (held_best rib key); [apply Hr|]| |apply Hfr..]. cbn [opt_ptr]. set_solver.
Qed.
End spec.
