(* ===== verification/LocRibPeer.v ===== *)
(** * The Loc-RIB when a session goes down

    [remove_routes_from_peer], related to the specification of LocRibSpec: one
    filter of the map from path identities to paths, and a delta that names
    exactly the keys that had a path of the peer. *)
From S2P Require Import Prelude Net Trie TrieSpec PrefixMap Vrp PathId BgpLs Attrs Path LocRib LocRibInv LocRibSpec.

Definition spec_remove_peer (m : RibMap) (peer_ip : IpAddr) : RibMap :=
  filter (fun kv => is_from_peer kv.2 peer_ip = false) m.

Section peer.
Context {A : Type} `{PathIdLaws A}.
Implicit Types (rib : LocRib A) (key : RouteKey) (peer_ip : IpAddr) (m : RibMap) (f : Path -> bool).

(** ** Dropping paths from every route *)
Definition drop_route f (r : Route) : option Route :=
  match kept_paths f (paths r) with [] => None | ps => Some (mkRoute (route_key r) ps) end.

Lemma drop_route_paths f o : opt_paths (o ≫= drop_route f) = kept_paths f (opt_paths o).
Proof. destruct o as [r|]; [|done]. 
  cbn [mbind option_bind opt_paths]. unfold drop_route. by destruct (kept_paths f (paths r)).
Qed.

Lemma drop_route_Some f r r' : drop_route f r = Some r' -> route_key r' = route_key r /\ paths r' <> [].
Proof. unfold drop_route. destruct (kept_paths f (paths r)); [done|]. by intros [= <-]. Qed.

Lemma routes_inv_drop ids ids' next (rt rt' : RouteKey -> option Route) f :
  routes_inv ids next rt -> (forall key, rt' key = rt key ≫= drop_route f) ->
  (forall id, id ∈ ids' <->
     id ∈ ids /\ ~ exists key, id ∈ omap local_id (gone_paths f (opt_paths (rt key)))) ->
  routes_inv ids' next rt'.
Proof.
  intros Hinv Hrt Hids'. pose proof Hinv as [Hk Hi Hl [Hlnd Hlu] Hids [Hpnd Hpu] Hp].
  assert (forall key, opt_paths (rt' key) = kept_paths f (opt_paths (rt key))) as Hps
    by (intros key; by rewrite Hrt, drop_route_paths).
  assert (forall key p, p ∈ opt_paths (rt' key) -> p ∈ opt_paths (rt key)) as Hsub
    by (intros key p; rewrite Hps, elem_of_kept; tauto).
  assert (forall (lab : PathRef -> option Z) key x,
    x ∈ omap lab (opt_paths (rt' key)) -> x ∈ omap lab (opt_paths (rt key))) as Hlab.
  { intros lab key x. rewrite !list_elem_of_omap. intros (p & Hin & E). eauto. }
  split.
  - intros key r. rewrite Hrt. destruct (rt key) as [r0|] eqn:E; [|done]. cbn.
    intros [Hrk Hne]%drop_route_Some. rewrite Hrk. split; [by apply Hk|done].
  - intros key. rewrite Hps. eapply sublist_NoDup; [apply Hi|apply kept_map_sublist].
  - intros key p Hin. by apply (Hl key), Hsub.
  - split; [|intros x key key' H1%Hlab H2%Hlab; by apply (Hlu x)].
    intros key. rewrite Hps. eapply sublist_NoDup; [apply Hlnd|apply kept_omap_sublist].
  - intros id. rewrite Hids'. split.
    + intros [(key & Hin)%Hids Hn]. exists key. rewrite Hps.
      destruct (kept_gone_ids f (opt_paths (rt key)) id (Hlnd key)) as [Hor _].
      apply Hor in Hin as [Hin|Hin]; [done|]. destruct Hn. by exists key.
    + intros (key & Hin). pose proof (Hlab local_id key id Hin) as Hin0. split; [apply Hids; by exists key|].
      intros (key' & Hg). rewrite Hps in Hin.
      assert (id ∈ omap local_id (opt_paths (rt key'))) as Hin'
        by (apply (kept_gone_ids f (opt_paths (rt key')) id (Hlnd key')); by right).
      rewrite (Hlu id key key' Hin0 Hin') in Hin.
      by apply (kept_gone_ids f (opt_paths (rt key')) id (Hlnd key')) in Hin.
  - split; [|intros x key key' H1%Hlab H2%Hlab; by apply (Hpu x)].
    intros key. rewrite omap_ptr_label, Hps. eapply sublist_NoDup; [|apply kept_map_sublist].
    rewrite <- omap_ptr_label. apply Hpnd.
  - intros key p Hin. by apply (Hp key), Hsub.
Qed.

Lemma drop_peer_paths_eq peer_ip r :
  paths (drop_peer_paths peer_ip r) = kept_paths (fun p => is_from_peer p peer_ip) (paths r) /\
  route_key (drop_peer_paths peer_ip r) = route_key r.
Proof. done. Qed.

Lemma drop_keep `{Countable K} (m : gmap K Route) peer_ip k :
  map_imap (fun k v => if (keep_route k v).1 then Some (keep_route k v).2 else None)
    (drop_peer_paths peer_ip <$> m) !! k = m !! k ≫= drop_route (fun p => is_from_peer p peer_ip).
Proof.
  rewrite map_lookup_imap, lookup_fmap. destruct (m !! k) as [r|]; [|done]. cbn.
  unfold drop_route, keep_route. fold (kept_paths (fun p => is_from_peer p peer_ip) (paths r)).
  destruct (drop_peer_paths_eq peer_ip r) as [Ep Er]. unfold drop_peer_paths in *.
  cbn in *. fold (kept_paths (fun p => is_from_peer p peer_ip) (paths r)).
  by destruct (kept_paths _ (paths r)).
Qed.

Lemma drop_filter (m : gmap LsNlri Route) peer_ip k :
  filter (fun kv : LsNlri * Route => paths kv.2 <> []) (drop_peer_paths peer_ip <$> m) !! k
    = m !! k ≫= drop_route (fun p => is_from_peer p peer_ip).
Proof.
  apply option_eq. intros r. rewrite map_lookup_filter_Some, lookup_fmap. cbn [snd].
  destruct (m !! k) as [r0|]; [|by split; [intros [? ?]|]]. cbn.
  unfold drop_route. fold (kept_paths (fun p => is_from_peer p peer_ip) (paths r0)).
  split.
  - intros [[= <-] Hne]. cbn in Hne. unfold drop_peer_paths, remove_paths_from_route. cbn.
    fold (kept_paths (fun p => is_from_peer p peer_ip) (paths r0)) in *.
    by destruct (kept_paths _ (paths r0)).
  - unfold drop_peer_paths, remove_paths_from_route. cbn.
    fold (kept_paths (fun p => is_from_peer p peer_ip) (paths r0)).
    by destruct (kept_paths _ (paths r0)); intros [= <-].
Qed.

Lemma elem_of_collect `{Countable K} (m : gmap K Route) peer_ip id :
  id ∈ collect_peer_path_ids (map_to_list m).*2 peer_ip <->
  exists k r, m !! k = Some r /\ id ∈ omap local_id (gone_paths (fun p => is_from_peer p peer_ip) (paths r)).
Proof.
  unfold collect_peer_path_ids. rewrite list_elem_of_In, in_concat. setoid_rewrite <- list_elem_of_In. split.
  - intros (l & (r & -> & ([k r'] & -> & Hin%elem_of_map_to_list)%list_elem_of_fmap)%list_elem_of_fmap & Hid).
    by exists k, r'.
  - intros (k & r & Hin%elem_of_map_to_list & Hid). eexists. split; [|exact Hid].
    apply list_elem_of_fmap. exists r. split; [done|]. apply list_elem_of_fmap. by exists (k, r).
Qed.

(** ** A session goes down *)
Record peer_cleared rib rib' peer_ip : Prop := {
  pc_inv : rib_inv rib';
  pc_max : lr_max_ls_entries rib' = lr_max_ls_entries rib;
  pc_next : lr_next rib' = lr_next rib;
  pc_size : (size (alloc_ids (lr_path_ids rib')) <= size (alloc_ids (lr_path_ids rib)))%nat;
  pc_route : forall key, get_route rib' key = get_route rib key ≫= drop_route (fun p => is_from_peer p peer_ip);
}.


(** Three calls of [free_all]. *)
Lemma free_all_3 (a : A) l1 l2 l3 :
  alloc_inv a -> Forall u32 l1 -> Forall u32 l2 -> Forall u32 l3 ->
  let a' := free_all (free_all (free_all a l1) l2) l3 in
  alloc_inv a' /\ forall id, id ∈ alloc_ids a' <->
    id ∈ alloc_ids a /\ ~ (id ∈ l1) /\ ~ (id ∈ l2) /\ ~ (id ∈ l3).
Proof.
  intros Ha H1 H2 H3. destruct (free_all_ok a l1 Ha H1) as [Ha1 E1].
  destruct (free_all_ok _ l2 Ha1 H2) as [Ha2 E2]. destruct (free_all_ok _ l3 Ha2 H3) as [Ha3 E3].
  split; [done|]. intros id. rewrite E3, E2, E1, !elem_of_difference, !elem_of_list_to_set. tauto.
Qed.

(** The identifiers that [clear_peer_paths] collects from the three tables. *)
Lemma collected_ids rib peer_ip id :
  (id ∈ collect_peer_path_ids (pm_values (lr_ipv4 rib)) peer_ip \/
   id ∈ collect_peer_path_ids (pm_values (lr_ipv6 rib)) peer_ip \/
   id ∈ collect_peer_path_ids (map_to_list (lr_ls rib)).*2 peer_ip) <->
  exists key, id ∈ omap local_id (gone_paths (fun p => is_from_peer p peer_ip) (old_paths rib key)).
Proof.
  unfold pm_values. rewrite !elem_of_collect. split.
  - intros [(k & r & Hk & Hid)|[(k & r & Hk & Hid)|(k & r & Hk & Hid)]];
      [exists (KPrefix (V4 k))|exists (KPrefix (V6 k))|exists (KLinkState k)];
      unfold old_paths; cbn; unfold pm_get; by rewrite Hk.
  - intros ([[k|k]|k] & Hid); unfold old_paths in Hid; cbn in Hid; unfold pm_get in Hid;
      (destruct (_ !! k) as [r|] eqn:Hk; [|by apply not_elem_of_nil in Hid]);
      [left|right; left|right; right]; eauto.
Qed.

Lemma clear_peer_paths_spec rib peer_ip :
  rib_inv rib -> exists rib', clear_peer_paths rib peer_ip = Some rib' /\ peer_cleared rib rib' peer_ip.
Proof.
  intros ((H4 & H6) & Ha & Hri). unfold clear_peer_paths.
  cbn [lr_ipv4 lr_path_ids set_path_ids]. set (f := fun p => is_from_peer p peer_ip).
  set (l4 := collect_peer_path_ids (pm_values (lr_ipv4 rib)) peer_ip).
  destruct (pm_retain_safe (pm_update_values (lr_ipv4 rib) (drop_peer_paths peer_ip)) keep_route)
    as (m4 & -> & Hs4 & Hm4).
  { apply pm_safe_dom; [|done]. intros k. by rewrite lookup_fmap, fmap_is_Some. }
  cbn [mbind option_bind]. cbn [lr_ipv6 lr_path_ids lr_ls set_path_ids set_ipv4 set_ipv6].
  set (l6 := collect_peer_path_ids (pm_values (lr_ipv6 rib)) peer_ip).
  destruct (pm_retain_safe (pm_update_values (lr_ipv6 rib) (drop_peer_paths peer_ip)) keep_route)
    as (m6 & -> & Hs6 & Hm6).
  { apply pm_safe_dom; [|done]. intros k. by rewrite lookup_fmap, fmap_is_Some. }
  cbn [mbind option_bind]. cbn [lr_ipv6 lr_path_ids lr_ls set_path_ids set_ipv4 set_ipv6].
  set (ll := collect_peer_path_ids (map_to_list (lr_ls rib)).*2 peer_ip).
  eexists. split; [reflexivity|].
  match goal with |- peer_cleared rib ?r _ => set (rib' := r) end.
  pose proof (collected_ids rib peer_ip) as Hgone. fold f l4 l6 ll in Hgone.
  assert (forall l, (forall id, id ∈ l -> id ∈ l4 \/ id ∈ l6 \/ id ∈ ll) -> Forall u32 l) as Hu.
  { intros l Hl. apply Forall_forall. intros id (key & Hid)%Hl%Hgone.
    pose proof (removed_ids _ _ _ key _ f Hri eq_refl) as Hf. rewrite Forall_forall in Hf. by apply Hf. }
  destruct (free_all_3 (lr_path_ids rib) l4 l6 ll Ha) as [Ha' Hids']; [apply Hu; tauto..|].
  assert (forall id, id ∈ alloc_ids (free_all (free_all (free_all (lr_path_ids rib) l4) l6) ll) <->
    id ∈ alloc_ids (lr_path_ids rib) /\ ~ exists key, id ∈ omap local_id (gone_paths f (old_paths rib key))) as Hids''.
  { intros id. rewrite Hids', <- Hgone. tauto. }
  assert (forall key, get_route rib' key = get_route rib key ≫= drop_route f) as Hrt.
  { intros [[k|k]|k]; cbn; unfold pm_get.
    - rewrite Hm4. apply drop_keep.
    - rewrite Hm6. apply drop_keep.
    - apply drop_filter. }
  split; cbn; try done.
  - split_and!; [by split|done|]. cbn. by apply (routes_inv_drop (alloc_ids (lr_path_ids rib)) _ _ (get_route rib) _ f).
  - apply subseteq_size. intros id. by intros [? _]%Hids''.
Qed.

Lemma elem_of_peer_keys rib peer_ip key :
  key ∈ get_peer_route_keys rib peer_ip <->
  exists p, p ∈ old_paths rib key /\ is_from_peer (ref_path p) peer_ip = true.
Proof.
  assert (forall r : Route, existsb (fun p => is_from_peer (ref_path p) peer_ip) (paths r) = true <->
    exists p, p ∈ paths r /\ is_from_peer (ref_path p) peer_ip = true) as Hex.
  { intros r. rewrite existsb_exists. by setoid_rewrite list_elem_of_In. }
  unfold get_peer_route_keys, pm_iter. rewrite !elem_of_app, !list_elem_of_fmap. cbn [fst]. split.
  - intros [([k r] & -> & Hin)|[([k r] & -> & Hin)|([k r] & -> & Hin)]];
      apply list_elem_of_filter in Hin as [He Hin%elem_of_map_to_list]; apply Hex in He; cbn in *;
      unfold old_paths; cbn; unfold pm_get; by rewrite Hin.
  - intros Hp. destruct key as [[k|k]|k]; unfold old_paths in Hp; cbn in Hp; unfold pm_get in Hp;
      (destruct (_ !! k) as [r|] eqn:Hk; [|by destruct Hp as (? & ?%not_elem_of_nil & _)]);
      [left|right; left|right; right]; exists (k, r); (split; [done|]);
      apply list_elem_of_filter; (split; [by apply Hex|by apply elem_of_map_to_list]).
Qed.

Lemma repr_clear rib rib' m peer_ip :
  rib_repr rib m -> peer_cleared rib rib' peer_ip -> rib_repr rib' (spec_remove_peer m peer_ip).
Proof.
  intros Hr [Hinv' _ _ _ Hroute]. split; [done|]. intros key i. apply option_eq. intros p.
  unfold spec_remove_peer. rewrite map_lookup_filter_Some, (rib_repr_elem rib m key i p Hr), fmap_Some.
  setoid_rewrite find_ident_Some; [|by apply rib_ident].
  assert (old_paths rib' key = kept_paths (fun p => is_from_peer p peer_ip) (old_paths rib key)) as ->
    by (unfold old_paths; by rewrite Hroute, drop_route_paths).
  setoid_rewrite elem_of_kept. split.
  - intros [(q & Hq & Hi & <-) Hn]. by exists q.
  - intros (q & [[Hq Hk] Hi] & ->). split; [eauto|done].
Qed.

Lemma held_cleared rib rib' peer_ip o : peer_cleared rib rib' peer_ip -> held rib o -> held rib' o.
Proof.
  intros [_ _ Hn _ Hroute] [Hlt Hh]. split; [lia|]. intros key p Hp. apply (Hh key).
  unfold old_paths in Hp. rewrite Hroute, drop_route_paths in Hp. by apply elem_of_kept in Hp as [? _].
Qed.

(** Comparing addresses tells exactly whether the best path is another one. *)
Lemma best_path_changed_iff rib key old :
  (forall o, old = Some o -> held rib o) ->
  best_path_changed rib key old = true <-> get_best_path rib key <> old.
Proof.
  intros Hheld. destruct (best_path_changed rib key old) eqn:E.
  - split; [|done]. intros _ Heq. unfold best_path_changed in E. rewrite Heq in E.
    destruct old; [|done]. by rewrite Z.eqb_refl in E.
  - split; [done|]. intros Hne. destruct Hne. by apply best_path_changed_false.
Qed.

Lemma kept_same f (l : list PathRef) :
  Forall (fun p => f (ref_path p) = false) l -> kept_paths f l = l.
Proof.
  unfold kept_paths. induction 1 as [|p l Hp Hl IH]; [done|]. by rewrite filter_cons, decide_True, IH.
Qed.

Lemma remove_routes_from_peer_ok rib m peer_ip :
  rib_repr rib m ->
  exists rib' d, remove_routes_from_peer rib peer_ip = Some (rib', d) /\
    rib_repr rib' (spec_remove_peer m peer_ip) /\ peer_cleared rib rib' peer_ip /\
    (forall key, key ∈ changed d <->
       exists p, p ∈ old_paths rib key /\ is_from_peer (ref_path p) peer_ip = true) /\
    (forall key, key ∈ best_changed d <-> get_best_path rib' key <> get_best_path rib key).
Proof.
  intros Hr. unfold remove_routes_from_peer.
  destruct (clear_peer_paths_spec rib peer_ip (proj1 Hr)) as (rib' & -> & Hc). cbn [mbind option_bind].
  eexists rib', _. split_and!; [done|by apply (repr_clear rib)|done| |]; cbn [changed best_changed].
  { intros key. apply elem_of_peer_keys. }
  intros key. rewrite list_elem_of_filter, snapshot_best_lookup.
  assert (forall o, get_best_path rib key = Some o -> held rib' o) as Hheld.
  { intros o Ho. apply (held_cleared rib rib' peer_ip); [done|]. by apply (held_best rib key); [apply Hr|]. }
  destruct (decide (key ∈ get_peer_route_keys rib peer_ip)) as [Hin|Hn].
  { rewrite <- best_path_changed_iff by done. tauto. }
  split; [tauto|]. intros Hne. destruct Hne. unfold get_best_path. rewrite (pc_route _ _ _ Hc).
  destruct (get_route rib key) as [r|] eqn:Er; [|done]. cbn.
  assert (kept_paths (fun p => is_from_peer p peer_ip) (paths r) = paths r) as Hk.
  { apply kept_same, Forall_forall. intros p Hp.
    destruct (is_from_peer (ref_path p) peer_ip) eqn:E; [|done]. destruct Hn. apply elem_of_peer_keys.
    exists p. split; [|done]. unfold old_paths. by rewrite Er. }
  unfold drop_route. rewrite Hk. by destruct (paths r).
Qed.
End peer.
