(* ===== verification/LocRibStale.v ===== *)
(** * Stale routes: what graceful restart does to the Loc-RIB

    [mark_peer_routes_stale], the sweep and the LLGR transition, in terms of
    the paths of each key: every path is kept, rewritten or dropped by a
    function of the path alone, identities stay, and the delta names every key
    with a stale path.  Both keep the invariant of the Loc-RIB. *)
From S2P Require Import Prelude Net Trie TrieSpec PrefixMap Vrp PathId BgpLs Attrs Path LocRib LocRibInv LocRibSpec LocRibPeer.

(** ** Rewriting the paths of a route

    [rewritten shared f next l next' l']: the paths of [l], in order, with [f]
    applied, dropped where [f] gives nothing, each in place when its address is
    not shared or untouched, otherwise at a fresh address. *)
Inductive rewritten (shared : gset Z) (f : Path -> option Path) : Z -> list PathRef -> Z -> list PathRef -> Prop :=
  | rw_nil next : rewritten shared f next [] next []
  | rw_drop next p l next' l' :
      f (ref_path p) = None -> rewritten shared f next l next' l' -> rewritten shared f next (p :: l) next' l'
  | rw_same next p l next' l' :
      f (ref_path p) = Some (ref_path p) -> rewritten shared f next l next' l' ->
      rewritten shared f next (p :: l) next' (p :: l')
  | rw_place next p q l next' l' :
      f (ref_path p) = Some q -> ~ (ref_ptr p ∈ shared) -> rewritten shared f next l next' l' ->
      rewritten shared f next (p :: l) next' (mkRef (ref_ptr p) q :: l')
  | rw_fresh next p q l next' l' :
      f (ref_path p) = Some q -> rewritten shared f (next + 1) l next' l' ->
      rewritten shared f next (p :: l) next' (mkRef next q :: l').

Lemma rewritten_next shared f next l next' l' : rewritten shared f next l next' l' -> next <= next'.
Proof. induction 1; lia. Qed.

Lemma rewritten_paths shared f next l next' l' :
  rewritten shared f next l next' l' -> map ref_path l' = omap f (map ref_path l).
Proof. induction 1 as [|? ? ? ? ? E|? ? ? ? ? E|? ? ? ? ? ? E|? ? ? ? ? ? E]; cbn; [done|..]; rewrite E; cbn; by f_equal. Qed.

(** Where a path of the result is. *)
Lemma rewritten_ptr shared f next l next' l' :
  rewritten shared f next l next' l' -> forall q, q ∈ l' ->
    q ∈ l \/ (ref_ptr q ∈ map ref_ptr l /\ ~ (ref_ptr q ∈ shared)) \/ next <= ref_ptr q < next'.
Proof.
  induction 1 as [|? ? ? ? ? E Hr IH|? ? ? ? ? E Hr IH|? ? ? ? ? ? E Hs Hr IH|? ? ? ? ? ? E Hr IH]; cbn; intros x.
  - by intros ?%not_elem_of_nil.
  - intros Hx. destruct (IH x Hx) as [?|[[? ?]|?]]; set_solver.
  - intros [->|Hx]%elem_of_cons; [set_solver|]. destruct (IH x Hx) as [?|[[? ?]|?]]; set_solver.
  - intros [->|Hx]%elem_of_cons; cbn; [set_solver|]. destruct (IH x Hx) as [?|[[? ?]|?]]; set_solver.
  - pose proof (rewritten_next _ _ _ _ _ _ Hr). intros [->|Hx]%elem_of_cons; cbn; [right; right; lia|].
    destruct (IH x Hx) as [?|[[? ?]|?]]; [set_solver..|right; right; lia].
Qed.

(** A path of the result comes from one of the list. *)
Lemma rewritten_elem shared f next l next' l' :
  rewritten shared f next l next' l' -> forall q, q ∈ l' -> exists p, p ∈ l /\ f (ref_path p) = Some (ref_path q).
Proof.
  induction 1 as [|? ? ? ? ? E Hr IH|? ? ? ? ? E Hr IH|? ? ? ? ? ? E Hs Hr IH|? ? ? ? ? ? E Hr IH]; intros x;
    [by intros ?%not_elem_of_nil| |intros [->|Hx]%elem_of_cons..]; cbn in *;
    try (by eexists; split; [left|]); try (destruct (IH x Hx) as (y & ? & ?); exists y; split; [by right|done]).
  intros Hx. destruct (IH x Hx) as (y & ? & ?). exists y. split; [by right|done].
Qed.

Lemma rewritten_ptrs shared f next l next' l' :
  rewritten shared f next l next' l' -> NoDup (map ref_ptr l) -> (forall p, p ∈ l -> ref_ptr p < next) ->
  NoDup (map ref_ptr l').
Proof.
  intros Hrw. assert (forall next l next' l' z, rewritten shared f next l next' l' -> z < next ->
      ~ (z ∈ map ref_ptr l) -> ~ (z ∈ map ref_ptr l')) as Hnew.
  { clear. intros next l next' l' z Hr Hz Hn (q & -> & Hq)%list_elem_of_fmap.
    destruct (rewritten_ptr _ _ _ _ _ _ Hr q Hq) as [Hl|[[Hl _]|Hl]]; [|done|lia].
    apply Hn. by apply list_elem_of_fmap_2. }
  induction Hrw as [|? ? ? ? ? E Hr IH|? ? ? ? ? E Hr IH|? ? ? ? ? ? E Hs Hr IH|? ? ? ? ? ? E Hr IH];
    cbn [map]; [constructor| |intros [Hp Hnd]%NoDup_cons Hlt..].
  - intros [Hp Hnd]%NoDup_cons Hlt. apply IH; [done|]. intros x Hx. apply Hlt. by right.
  - apply NoDup_cons. split; [|apply IH; [done|]; intros x Hx; apply Hlt; by right].
    eapply Hnew; [exact Hr| |exact Hp]. apply Hlt. by left.
  - apply NoDup_cons. cbn [ref_ptr]. split; [|apply IH; [done|]; intros x Hx; apply Hlt; by right].
    eapply Hnew; [exact Hr| |exact Hp]. apply Hlt. by left.
  - apply NoDup_cons. cbn [ref_ptr]. split.
    + intros (z & Eq & Hq)%list_elem_of_fmap. destruct (rewritten_ptr _ _ _ _ _ _ Hr z Hq) as [Hl|[[Hl _]|Hl]]; [| |lia].
      * specialize (Hlt z). rewrite elem_of_cons in Hlt. specialize (Hlt (or_intror Hl)). lia.
      * apply list_elem_of_fmap in Hl as (y & Ey & Hy). specialize (Hlt y). rewrite elem_of_cons in Hlt.
        specialize (Hlt (or_intror Hy)). lia.
    + apply IH; [done|]. intros x Hx. specialize (Hlt x). rewrite elem_of_cons in Hlt. specialize (Hlt (or_intror Hx)). lia.
Qed.

(** [f] keeps the identity and the local identifier. *)
Definition keeps_ids (f : Path -> option Path) : Prop :=
  forall p q, f p = Some q -> path_ident q = path_ident p /\ local_path_id q = local_path_id p.

Section labels.
Context (shared : gset Z) (f : Path -> option Path) (Hf : keeps_ids f).

Lemma rewritten_idents next l next' l' :
  rewritten shared f next l next' l' -> map ident l' `sublist_of` map ident l.
Proof.
  induction 1 as [|? ? ? ? ? E Hr IH|? ? ? ? ? E Hr IH|? ? ? ? ? ? E Hs Hr IH|? ? ? ? ? ? E Hr IH]; cbn;
    [constructor|by apply sublist_cons|by apply sublist_skip|..];
    apply Hf in E as [E _]; unfold path_ident in E; unfold ident at 1; cbn; rewrite E; by apply sublist_skip.
Qed.

Lemma rewritten_locals next l next' l' :
  rewritten shared f next l next' l' -> omap local_id l' `sublist_of` omap local_id l.
Proof.
  induction 1 as [|? ? ? ? ? E Hr IH|? ? ? ? ? E Hr IH|? ? ? ? ? ? E Hs Hr IH|? ? ? ? ? ? E Hr IH]; cbn [omap list_omap]; [done|..].
  - destruct (local_id p); [by apply sublist_cons|done].
  - destruct (local_id p); [by apply sublist_skip|done].
  - apply Hf in E as [_ E]. change (local_id (mkRef (ref_ptr p) q)) with (local_path_id q). rewrite E.
    change (local_path_id (ref_path p)) with (local_id p). destruct (local_id p); [by apply sublist_skip|done].
  - apply Hf in E as [_ E]. change (local_id (mkRef next q)) with (local_path_id q). rewrite E.
    change (local_path_id (ref_path p)) with (local_id p). destruct (local_id p); [by apply sublist_skip|done].
Qed.
End labels.

(** Paths that [f] drops. *)
Definition dropped (f : Path -> option Path) (p : Path) : bool := match f p with None => true | Some _ => false end.

Section stale.
Context {A : Type} `{PathIdLaws A}.
Implicit Types (rib : LocRib A) (key : RouteKey) (peer_ip : IpAddr) (l : list PathRef).

(** The invariant after the route of a key is rewritten, in any order. *)
Lemma rewrite_inv (shared : gset Z) f ids next next' (rt rt' : RouteKey -> option Route) key l' :
  keeps_ids f -> routes_inv ids next rt ->
  (forall key', key' <> key -> rt' key' = rt key') ->
  (forall r, rt' key = Some r -> route_key r = key /\ paths r <> []) ->
  rewritten shared f next (opt_paths (rt key)) next' l' -> opt_paths (rt' key) ≡ₚ l' ->
  routes_inv (ids ∖ list_to_set (omap local_id (gone_paths (dropped f) (opt_paths (rt key))))) next' rt'.
Proof.
  intros Hf Hinv Hrt Hkey Hrw Hp. pose proof Hinv as [Hk Hi Hl [Hlnd Hlu] Hids [Hpnd Hpu] Hlt].
  set (old := opt_paths (rt key)) in *.
  pose proof (rewritten_locals shared f Hf _ _ _ _ Hrw) as Hsub.
  assert (forall id, id ∈ omap local_id l' <-> id ∈ omap local_id (kept_paths (dropped f) old)) as Hkept.
  { intros id. rewrite !elem_of_omap_local. setoid_rewrite elem_of_kept. unfold dropped. split.
    - intros (q & Hq & Hid). destruct (rewritten_elem _ _ _ _ _ _ Hrw q Hq) as (p & Hpin & E). exists p.
      rewrite E. apply Hf in E as [_ E]. split; [done|]. unfold local_id in *. congruence.
    - intros (p & [Hpin Hd] & Hid). destruct (f (ref_path p)) as [q|] eqn:E; [|done].
      assert (q ∈ map ref_path l') as (x & -> & Hx)%list_elem_of_fmap.
      { rewrite (rewritten_paths _ _ _ _ _ _ Hrw). apply list_elem_of_omap. exists (ref_path p).
        split; [by apply list_elem_of_fmap_2|done]. }
      exists x. split; [done|]. apply Hf in E as [_ E]. unfold local_id in *. congruence. }
  apply (routes_inv_replace ids _ next next' rt rt' key Hinv Hrt Hkey).
  - rewrite Hp. eapply sublist_NoDup; [apply (Hi key)|]. by eapply rewritten_idents.
  - intros q. rewrite Hp. intros Hq. destruct (rewritten_elem _ _ _ _ _ _ Hrw q Hq) as (p & Hpin & E).
    apply Hf in E as [_ E]. destruct (Hl key p Hpin) as (id & Hid & Hu). exists id. unfold local_id in *. split; [congruence|done].
  - rewrite Hp. eapply sublist_NoDup; [apply (Hlnd key)|done].
  - intros id. rewrite Hp. intros Hid. left. by eapply sublist_subseteq.
  - intros id. rewrite Hp, Hkept, elem_of_difference, elem_of_list_to_set. fold old.
    destruct (kept_gone_ids (dropped f) old id (Hlnd key)) as [Hor Hdisj]. rewrite Hor. split.
    + intros [Hin Hng]. destruct (decide (id ∈ omap local_id (kept_paths (dropped f) old))); tauto.
    + intros [Hk'|[Hin Hn]]; [|tauto]. split; [|by apply Hdisj]. apply Hids. exists key. fold old. tauto.
  - rewrite Hp. eapply rewritten_ptrs; [exact Hrw| |].
    + rewrite <- omap_ptr_label. apply (Hpnd key).
    + intros p. apply Hlt.
  - intros q. rewrite Hp. intros Hq. destruct (rewritten_ptr _ _ _ _ _ _ Hrw q Hq) as [Hin|[[Hin _]|Hin]];
      [left; by apply list_elem_of_fmap_2|by left|right; lia].
  - intros q. rewrite Hp. intros Hq. pose proof (rewritten_next _ _ _ _ _ _ Hrw).
    destruct (rewritten_ptr _ _ _ _ _ _ Hrw q Hq) as [Hin|[[(y & Ey & Hin)%list_elem_of_fmap _]|Hin]];
      [specialize (Hlt key q Hin)|specialize (Hlt key y Hin)|]; lia.
  - by eapply rewritten_next.
Qed.

(** ** The two rewrites *)
Definition mark_fn peer_ip (p : Path) : option Path :=
  Some (if is_from_peer p peer_ip then set_stale true p else p).

(** The LLGR_STALE community, added once. *)
Definition llgr_tag (p : Path) : Path :=
  if bool_decide (LLGR_STALE ∈ pa_communities (attrs p)) then p
  else
    let a := attrs p in
    set_attrs (mkAttrs (pa_origin a) (pa_as_path a) (pa_next_hop a) (pa_source a)
      (pa_local_pref a) (pa_med a) (pa_atomic_aggregate a) (pa_aggregator a)
      (pa_communities a ++ [LLGR_STALE]) (pa_extended_communities a)
      (pa_large_communities a) (pa_unknown_attrs a) (pa_originator_id a)
      (pa_cluster_list a) (pa_ls_attr a)) p.

Definition stale_from peer_ip (p : Path) : bool := is_from_peer p peer_ip && stale p.

Definition stale_fn (strategy : StaleStrategy) peer_ip (p : Path) : option Path :=
  if stale_from peer_ip p then
    match strategy with
    | Sweep => None
    | TransitionToLlgr => if bool_decide (NO_LLGR ∈ pa_communities (attrs p)) then None else Some (llgr_tag p)
    end
  else Some p.

Lemma llgr_tag_same p :
  path_ident (llgr_tag p) = path_ident p /\ local_path_id (llgr_tag p) = local_path_id p /\
  stale (llgr_tag p) = stale p /\ (forall ip, is_from_peer (llgr_tag p) ip = is_from_peer p ip).
Proof. unfold llgr_tag. by case_bool_decide. Qed.

Lemma mark_keeps peer_ip : keeps_ids (mark_fn peer_ip).
Proof. intros p q [= <-]. by destruct (is_from_peer p peer_ip). Qed.

Lemma stale_fn_keeps strategy peer_ip : keeps_ids (stale_fn strategy peer_ip).
Proof.
  intros p q. unfold stale_fn. destruct (stale_from peer_ip p); [|by intros [= <-]].
  destruct strategy; [done|]. case_bool_decide; [done|]. intros [= <-].
  destruct (llgr_tag_same p) as (? & ? & _). done.
Qed.

Lemma mark_stale_paths_rw shared peer_ip l : forall next l' n next',
  mark_stale_paths shared next peer_ip l = (l', n, next') -> rewritten shared (mark_fn peer_ip) next l next' l'.
Proof.
  induction l as [|p l IH]; intros next l' n next'; cbn [mark_stale_paths]; [intros [= <- <- <-]; constructor|].
  destruct (is_from_peer (ref_path p) peer_ip) eqn:Ep.
  - destruct (make_mut shared next p (set_stale true)) as [q next1] eqn:Em.
    destruct (mark_stale_paths shared next1 peer_ip l) as [[l1 n1] next2] eqn:El. intros [= <- <- <-].
    apply IH in El. destruct q as [ptr q]. apply make_mut_spec in Em as (Eq & [(Ept & Hs & ->)|(Ept & ->)]); cbn in Eq, Ept; subst.
    + apply rw_place; [unfold mark_fn; by rewrite Ep|done|done].
    + apply rw_fresh; [unfold mark_fn; by rewrite Ep|done].
  - destruct (mark_stale_paths shared next peer_ip l) as [[l1 n1] next2] eqn:El. intros [= <- <- <-].
    apply rw_same; [unfold mark_fn; by rewrite Ep|by eapply IH].
Qed.

Lemma strategy_apply_rw strategy shared next p peer_ip retained q next' :
  is_stale_from peer_ip p = true -> strategy_apply strategy shared next p = (retained, q, next') ->
  match stale_fn strategy peer_ip (ref_path p) with
  | None => retained = false /\ q = p /\ next' = next
  | Some q' => retained = true /\ ref_path q = q' /\
      ((ref_ptr q = ref_ptr p /\ ~ (ref_ptr p ∈ shared) /\ next' = next) \/ (ref_ptr q = next /\ next' = next + 1))
  end.
Proof.
  intros Hp. unfold stale_fn. change (stale_from peer_ip (ref_path p)) with (is_stale_from peer_ip p). rewrite Hp.
  destruct strategy; cbn [strategy_apply]; [by intros [= <- <- <-]|].
  case_bool_decide; [by intros [= <- <- <-]|].
  destruct (make_mut _ _ _ _) as [q1 next1] eqn:Em. intros [= <- <- <-]. apply make_mut_spec in Em as (-> & Hptr).
  by split_and!.
Qed.

Definition free_list (path_ids : A) (l : list Z) : A := foldl free path_ids l.

Lemma free_list_ok (ids : list Z) : forall a, alloc_inv a -> Forall u32 ids ->
  alloc_inv (free_list a ids) /\ alloc_ids (free_list a ids) = alloc_ids a ∖ list_to_set ids.
Proof.
  induction ids as [|id l IH]; intros a Ha Hl; [split; [done|cbn; set_solver]|].
  apply Forall_cons in Hl as [Hid Hl]. destruct (free_ok a id Ha Hid) as [Ha1 E1].
  destruct (IH _ Ha1 Hl) as [Ha2 E2]. split; [done|]. unfold free_list in *. cbn [foldl]. rewrite E2, E1. set_solver.
Qed.

Lemma gone_cons f p l :
  gone_paths (dropped f) (p :: l) =
    match f (ref_path p) with None => p :: gone_paths (dropped f) l | Some _ => gone_paths (dropped f) l end.
Proof.
  unfold gone_paths. rewrite filter_cons. destruct (f (ref_path p)) eqn:E.
  - apply decide_False. unfold dropped. by rewrite E.
  - apply decide_True. unfold dropped. by rewrite E.
Qed.

Lemma apply_stale_paths_rw strategy shared peer_ip l : forall next path_ids l' path_ids' next',
  apply_stale_paths shared next peer_ip strategy path_ids l = (l', path_ids', next') ->
  rewritten shared (stale_fn strategy peer_ip) next l next' l' /\
  path_ids' = free_list path_ids (omap local_id (gone_paths (dropped (stale_fn strategy peer_ip)) l)).
Proof.
  induction l as [|p l IH]; intros next path_ids l' path_ids' next'; cbn [apply_stale_paths];
    [intros [= <- <- <-]; split; [constructor|done]|].
  rewrite gone_cons. destruct (is_stale_from peer_ip p) eqn:Ep.
  - destruct (strategy_apply strategy shared next p) as [[retained q] next1] eqn:Es.
    pose proof (strategy_apply_rw _ _ _ _ _ _ _ _ Ep Es) as Hs.
    destruct (stale_fn strategy peer_ip (ref_path p)) as [q'|] eqn:Ef.
    + destruct Hs as (-> & Eq & Hptr).
      destruct (apply_stale_paths shared next1 peer_ip strategy path_ids l) as [[l1 ids1] next2] eqn:El.
      intros [= <- <- <-]. apply IH in El as [Hrw ->]. split; [|done]. destruct q as [ptr q]. cbn in Eq, Hptr. subst q.
      destruct Hptr as [(-> & Hn & ->)|(-> & ->)]; [by apply rw_place|by apply rw_fresh].
    + destruct Hs as (-> & -> & ->). intros El. cbn [omap list_omap]. unfold local_id at 1.
      destruct (local_path_id (ref_path p)) as [id|]; apply IH in El as [Hrw ->]; (split; [by apply rw_drop|done]).
  - assert (stale_fn strategy peer_ip (ref_path p) = Some (ref_path p)) as Ef
      by (unfold stale_fn, stale_from; unfold is_stale_from in Ep; by rewrite Ep).
    rewrite Ef.
    destruct (apply_stale_paths shared next peer_ip strategy path_ids l) as [[l1 ids1] next2] eqn:El.
    intros [= <- <- <-]. apply IH in El as [Hrw ->]. split; [by apply rw_same|done].
Qed.

(** ** One key *)
Section passes.
Context {Sorts : SortBy} {Returns : SortReturns}.

(** The outcome of rewriting the paths of [key] with [f]. *)
Record stale_post rib rib' key (f : Path -> option Path) : Prop := {
  st_inv : rib_inv rib';
  st_max : lr_max_ls_entries rib' = lr_max_ls_entries rib;
  st_next : lr_next rib <= lr_next rib';
  st_size : (size (alloc_ids (lr_path_ids rib')) <= size (alloc_ids (lr_path_ids rib)))%nat;
  st_other : forall key', key' <> key -> get_route rib' key' = get_route rib key';
  st_paths : map ref_path (old_paths rib' key) ≡ₚ omap f (map ref_path (old_paths rib key));
  st_held : forall o, get_best_path rib key = Some o -> held rib' o;
  st_sorted : exists ps, sort_paths ps = Some (old_paths rib' key);
}.

(** A write to a table, then the removal of the entry if it is empty. *)
Definition replace_route rib key (route : Route) (path_ids : A) (next : Z) : option (LocRib A) :=
  let rib := set_next (set_path_ids (update_route rib key (fun _ => route)) path_ids) next in
  if match get_route rib key with Some r => match paths r with [] => true | _ => false end | None => true end
  then remove_route_entry rib key else Some rib.

Lemma replace_route_ok rib key old route ids next :
  rib_safe rib -> get_route rib key = Some old ->
  exists rib', replace_route rib key route ids next = Some rib' /\ rib_safe rib' /\
    lr_path_ids rib' = ids /\ lr_max_ls_entries rib' = lr_max_ls_entries rib /\ lr_next rib' = next /\
    forall k, get_route rib' k =
      if decide (key = k) then match paths route with [] => None | _ => Some route end else get_route rib k.
Proof.
  intros Hs Hold. unfold replace_route.
  set (rib1 := update_route rib key (fun _ => route)).
  assert (forall k, get_route (set_next (set_path_ids rib1 ids) next) k = if decide (key = k) then Some route else get_route rib k) as Hg.
  { intros k. rewrite get_route_set_next, get_route_set_path_ids. unfold rib1. rewrite get_update_route.
    case_decide; [|done]. subst. by rewrite Hold. }
  assert (rib_safe (set_next (set_path_ids rib1 ids) next)) as Hs1 by (apply (update_route_safe rib key (fun _ => route)) in Hs; exact Hs).
  destruct (update_route_rest rib key (fun _ => route)) as (_ & Hmax & _). fold rib1 in Hmax.
  rewrite (Hg key), decide_True by done. destruct (paths route) as [|p l] eqn:Ep.
  - destruct (remove_entry_route _ key Hs1) as (rib2 & -> & Hs2 & (E1 & E2 & E3) & Hg2).
    exists rib2. split_and!; [done|done|by rewrite E1|by rewrite E2|by rewrite E3|].
    intros k. rewrite Hg2. case_decide; [done|]. by rewrite Hg, decide_False.
  - eexists. split_and!; [done|done|done|done|done|exact Hg].
Qed.

Lemma rewritten_gone_u32 f ids rib key :
  routes_inv ids (lr_next rib) (get_route rib) -> Forall u32 (omap local_id (gone_paths (dropped f) (old_paths rib key))).
Proof. intros Hri. by eapply removed_ids. Qed.

(** The old best path is shared while the route is rewritten, so the table
    holds it as it was or not at all. *)
Lemma rewritten_held shared f rib rib' key next' l' o :
  rib_inv rib -> get_best_path rib key = Some o -> ref_ptr o ∈ shared ->
  rewritten shared f (lr_next rib) (old_paths rib key) next' l' -> old_paths rib' key ≡ₚ l' ->
  (forall key', key' <> key -> get_route rib' key' = get_route rib key') -> lr_next rib <= lr_next rib' ->
  held rib' o.
Proof.
  intros Hinv Hb Hs Hrw Hp Hother Hn. apply (held_writes rib rib' shared key); [by apply (held_best rib key)|done|done|done|].
  intros q. rewrite Hp. intros Hq. destruct (rewritten_ptr _ _ _ _ _ _ Hrw q Hq) as [?|[[_ ?]|[? _]]]; tauto.
Qed.

Lemma stale_key_ok rib ext key peer_ip strategy route :
  rib_inv rib -> get_route rib key = Some route -> existsb (is_stale_from peer_ip) (paths route) = true ->
  exists best route' ids next rib',
    apply_stale_to_route ext (lr_next rib) route peer_ip (lr_path_ids rib) strategy = Some (Some best, route', ids, next) /\
    get_best_path rib key = Some best /\
    replace_route rib key route' ids next = Some rib' /\ stale_post rib rib' key (stale_fn strategy peer_ip).
Proof.
  intros Hinv Hr Hst. pose proof Hinv as (Hsafe & Ha & Hri). unfold apply_stale_to_route. rewrite Hst. cbn [negb].
  destruct (ri_key _ _ _ Hri _ _ Hr) as [Hrk Hne]. destruct (paths route) as [|best rest] eqn:Ep; [done|]. cbn [hd_error].
  assert (get_best_path rib key = Some best) as Hb by (unfold get_best_path; rewrite Hr; cbn; by rewrite Ep).
  assert (old_paths rib key = best :: rest) as Hold by (unfold old_paths; by rewrite Hr).
  destruct (apply_stale_paths _ _ _ _ _ _) as [[kept ids] next] eqn:Ea. apply apply_stale_paths_rw in Ea as [Hrw ->].
  rewrite <- Hold in Hrw |- *.
  destruct (sort_paths_returns kept) as (sorted & Esort & Hsorted). rewrite Esort. cbn [mbind option_bind].
  destruct (free_list_ok _ (lr_path_ids rib) Ha (rewritten_gone_u32 (stale_fn strategy peer_ip) _ rib key Hri)) as [Ha' Hids'].
  set (ids' := free_list _ _) in *. set (route' := mkRoute (route_key route) sorted).
  destruct (replace_route_ok rib key route route' ids' next Hsafe Hr) as (rib' & E & Hsafe' & E1 & E2 & E3 & Hg).
  exists best, route', ids', next, rib'. split_and!; [done|done|done|].
  assert (old_paths rib' key ≡ₚ kept) as Hperm.
  { unfold old_paths. rewrite Hg, decide_True by done. cbn [paths route']. rewrite <- Hsorted. by destruct sorted. }
  assert (forall k, k <> key -> get_route rib' k = get_route rib k) as Hother
    by (intros k Hk; by rewrite Hg, decide_False by congruence).
  assert (lr_next rib <= lr_next rib') as Hnext by (rewrite E3; by eapply rewritten_next).
  split; try done.
  - split; [done|]. rewrite E1. split; [done|]. rewrite Hids', E3.
    apply (rewrite_inv ({[ref_ptr best]} ∪ ext) (stale_fn strategy peer_ip) _ (lr_next rib) next (get_route rib) (get_route rib') key kept
      (stale_fn_keeps strategy peer_ip) Hri Hother); [|exact Hrw|exact Hperm].
    intros r. rewrite Hg, decide_True by done. unfold route'. cbn [paths].
    destruct sorted eqn:Es; [done|]. intros [= <-]. by split.
  - rewrite E1, Hids'. apply subseteq_size. set_solver.
  - rewrite Hperm. by rewrite (rewritten_paths _ _ _ _ _ _ Hrw).
  - intros o Ho. rewrite Hb in Ho. injection Ho as <-.
    eapply rewritten_held; [exact Hinv|exact Hb| |exact Hrw|exact Hperm|exact Hother|exact Hnext]. set_solver.
  - exists kept. unfold old_paths. rewrite Hg, decide_True by done. rewrite Esort. cbn [paths route']. by destruct sorted.
Qed.

(** ** Several keys *)
Definition has_stale rib peer_ip key : bool := existsb (is_stale_from peer_ip) (old_paths rib key).

(** The outcome of a run over the keys in [P]. *)
Record stale_result rib rib' peer_ip strategy (P : RouteKey -> Prop) (d d' : RouteDelta) : Prop := {
  sr_inv : rib_inv rib';
  sr_max : lr_max_ls_entries rib' = lr_max_ls_entries rib;
  sr_size : (size (alloc_ids (lr_path_ids rib')) <= size (alloc_ids (lr_path_ids rib)))%nat;
  sr_same : forall key, ~ P key \/ has_stale rib peer_ip key = false -> get_route rib' key = get_route rib key;
  sr_paths : forall key, P key ->
    map ref_path (old_paths rib' key) ≡ₚ omap (stale_fn strategy peer_ip) (map ref_path (old_paths rib key));
  sr_changed : forall key, key ∈ changed d' <-> key ∈ changed d \/ (P key /\ has_stale rib peer_ip key = true);
  sr_best_kept : forall key, key ∈ best_changed d -> key ∈ best_changed d';
  sr_best : forall key, get_best_path rib' key <> get_best_path rib key -> key ∈ best_changed d';
  sr_sorted : forall key, P key -> has_stale rib peer_ip key = true -> exists ps, sort_paths ps = Some (old_paths rib' key);
}.

Lemma stale_fn_idem strategy peer_ip p q : stale_fn strategy peer_ip p = Some q -> stale_fn strategy peer_ip q = Some q.
Proof.
  unfold stale_fn. destruct (stale_from peer_ip p) eqn:Ep; [|intros [= <-]; by rewrite Ep].
  destruct strategy; [done|]. case_bool_decide as Hn; [done|]. intros [= <-].
  destruct (llgr_tag_same p) as (_ & _ & Es & Ef).
  assert (stale_from peer_ip (llgr_tag p) = true) as -> by (unfold stale_from; by rewrite Es, Ef).
  rewrite bool_decide_false.
  2: { unfold llgr_tag. case_bool_decide; [done|]. cbn. rewrite elem_of_app, list_elem_of_singleton. by intros [?|?]. }
  f_equal. unfold llgr_tag at 1. rewrite bool_decide_true; [done|].
  unfold llgr_tag. case_bool_decide; [done|]. cbn. apply elem_of_app. right. by left.
Qed.

Lemma omap_stale_idem strategy peer_ip (l : list Path) :
  omap (stale_fn strategy peer_ip) (omap (stale_fn strategy peer_ip) l) = omap (stale_fn strategy peer_ip) l.
Proof.
  induction l as [|p l IH]; [done|]. cbn [omap list_omap]. destruct (stale_fn strategy peer_ip p) eqn:E; [|done].
  cbn [omap list_omap]. rewrite (stale_fn_idem _ _ _ _ E). by f_equal.
Qed.

Lemma omap_no_stale strategy peer_ip l :
  existsb (is_stale_from peer_ip) l = false -> omap (stale_fn strategy peer_ip) (map ref_path l) = map ref_path l.
Proof.
  induction l as [|p l IH]; [done|]. cbn [existsb map omap list_omap]. intros [Hp Hl]%orb_false_iff.
  assert (stale_fn strategy peer_ip (ref_path p) = Some (ref_path p)) as ->
    by (unfold stale_fn, stale_from; unfold is_stale_from in Hp; by rewrite Hp).
  f_equal. by apply IH.
Qed.

Lemma stale_result_refl rib peer_ip strategy (P : RouteKey -> Prop) d :
  rib_inv rib -> (forall key, P key -> has_stale rib peer_ip key = false) -> stale_result rib rib peer_ip strategy P d d.
Proof.
  intros Hinv Hn. split; try done.
  - intros key Hk. by rewrite omap_no_stale by by apply Hn.
  - intros key. split; [by left|]. intros [?|[Hp Hs]]; [done|]. by rewrite Hn in Hs.
  - intros key Hp Hs. by rewrite Hn in Hs.
Qed.

Lemma stale_result_trans rib rib1 rib2 peer_ip strategy (P Q : RouteKey -> Prop) d d1 d2
    `{!forall key, Decision (P key)} `{!forall key, Decision (Q key)} :
  stale_result rib rib1 peer_ip strategy P d d1 -> stale_result rib1 rib2 peer_ip strategy Q d1 d2 ->
  stale_result rib rib2 peer_ip strategy (fun key => P key \/ Q key) d d2.
Proof.
  intros [I1 M1 Z1 S1 P1 C1 B1 D1 O1] [I2 M2 Z2 S2 P2 C2 B2 D2 O2].
  assert (forall key, has_stale rib peer_ip key = false -> has_stale rib1 peer_ip key = false) as Hs.
  { intros key Hk. unfold has_stale, old_paths. rewrite S1 by by right. exact Hk. }
  assert (forall key, ~ Q key -> old_paths rib2 key = old_paths rib1 key) as Hq
    by (intros key Hn; unfold old_paths; by rewrite S2 by by left).
  assert (forall key, ~ P key -> old_paths rib1 key = old_paths rib key) as Hp
    by (intros key Hn; unfold old_paths; by rewrite S1 by by left).
  split; [done|congruence|lia| | | |auto| |].
  - intros key [Hn|Hn]; [rewrite S2, S1; [done|left; tauto..]|]. rewrite S2 by by (right; apply Hs). rewrite S1 by by right. done.
  - intros key Hk. destruct (decide (Q key)) as [HQ|HQ], (decide (P key)) as [HP|HP].
    + rewrite P2 by done. rewrite P1 by done. by rewrite omap_stale_idem.
    + rewrite P2 by done. by rewrite Hp by done.
    + rewrite Hq by done. by apply P1.
    + tauto.
  - intros key. rewrite C2, C1. split.
    + intros [[?|[HP Hk]]|[HQ Hk]]; [by left|right; split; [by left|done]|]. right. split; [by right|].
      destruct (has_stale rib peer_ip key) eqn:E; [done|]. by rewrite Hs in Hk.
    + intros [?|[HPQ Hk]]; [by left; left|]. destruct (decide (P key)) as [HP|HP]; [by left; right|].
      right. split; [tauto|]. unfold has_stale. by rewrite Hp.
  - intros key Hne. destruct (decide (get_best_path rib1 key = get_best_path rib key)) as [E|E].
    + apply D2. by rewrite E.
    + by apply B2, D1.
  - intros key HPQ Hk. destruct (decide (Q key)) as [HQ|HQ]; [destruct (has_stale rib1 peer_ip key) eqn:E|].
    + by apply O2.
    + destruct (decide (P key)) as [HP|HP]; [|unfold has_stale in E, Hk; by rewrite Hp, Hk in E].
      unfold old_paths. rewrite S2 by by right. by apply O1.
    + rewrite Hq by done. apply O1; [tauto|done].
Qed.

(** *** One step of the loop *)
Lemma update_route_same rib key route :
  get_route rib key = Some route -> update_route rib key (fun _ => route) = rib.
Proof.
  assert (forall `{Countable K} (m : gmap K Route) k r, m !! k = Some r -> alter (fun _ => r) k m = m) as Ha.
  { intros K ? ? m k r E. apply map_eq. intros i. destruct (decide (i = k)) as [->|Hne];
      [rewrite lookup_alter_eq, E; done|by rewrite lookup_alter_ne]. }
  destruct rib as [m4 m6 ls ids mx nx], key as [[n|n]|n]; cbn; unfold pm_get, pm_update; intros E;
    unfold set_ipv4, set_ipv6, set_ls; cbn; rewrite Ha by done; [by destruct m4|by destruct m6|done].
Qed.

Lemma stale_step_ok rib ext key peer_ip strategy d :
  rib_inv rib ->
  exists rib' d', handle_stale_key ext peer_ip strategy key rib d = Some (rib', d') /\
    stale_result rib rib' peer_ip strategy (fun k => k = key) d d'.
Proof.
  intros Hinv. unfold handle_stale_key. destruct (get_route rib key) as [route|] eqn:Er.
  2: { exists rib, d. split; [done|]. apply stale_result_refl; [done|]. intros k ->. unfold has_stale, old_paths. by rewrite Er. }
  assert (old_paths rib key = paths route) as Hold by (unfold old_paths; by rewrite Er).
  destruct (existsb (is_stale_from peer_ip) (paths route)) eqn:Es.
  - destruct (stale_key_ok rib ext key peer_ip strategy route Hinv Er Es) as (best & route' & ids & next & rib' & Ea & Hb & Ep & Hpost).
    rewrite Ea. cbn [mbind option_bind]. unfold replace_route in Ep. rewrite Ep. cbn [mbind option_bind]. eexists rib', _. split; [done|].
    destruct Hpost as [I M N Z O Pp Hheld Hsort].
    assert (forall k, k = key -> has_stale rib peer_ip k = true) as Hst by (intros k ->; unfold has_stale; by rewrite Hold).
    split; cbn [changed best_changed]; [done|done|done| | | | | |by intros k ->].
    + intros k [Hk|Hk]; [by apply O|]. apply O. intros ->. by rewrite Hst in Hk.
    + by intros k ->.
    + intros k. rewrite elem_of_app, list_elem_of_singleton. split; [intros [?|?]; [by left|right; split; [done|by apply Hst]]|tauto].
    + intros k Hk. apply elem_of_app. by left.
    + intros k Hne. apply elem_of_app. right. destruct (decide (k = key)) as [->|Hk]; [|destruct Hne; unfold get_best_path; by rewrite O].
      assert (best_path_changed rib' key (Some best) = true) as ->; [|by left].
      apply best_path_changed_iff; [intros o [= <-]; by apply Hheld|by rewrite <- Hb].
  - unfold apply_stale_to_route. rewrite Es. cbn [negb mbind option_bind]. exists rib, d.
    rewrite update_route_same by done. split; [by destruct rib|]. apply stale_result_refl; [done|].
    intros k ->. unfold has_stale. by rewrite Hold.
Qed.

Lemma handle_stale_keys_ok ext peer_ip strategy keys : forall rib d,
  rib_inv rib -> exists rib' d', handle_stale_keys ext peer_ip strategy keys rib d = Some (rib', d') /\
    stale_result rib rib' peer_ip strategy (fun k => k ∈ keys) d d'.
Proof.
  induction keys as [|key keys IH]; intros rib d Hinv.
  { exists rib, d. split; [done|]. apply stale_result_refl; [done|]. by intros k ?%not_elem_of_nil. }
  destruct (stale_step_ok rib ext key peer_ip strategy d Hinv) as (rib1 & d1 & E1 & R1).
  destruct (IH rib1 d1 (sr_inv _ _ _ _ _ _ _ R1)) as (rib2 & d2 & E2 & R2). exists rib2, d2. split; [cbn [handle_stale_keys]; by rewrite E1|].
  pose proof (stale_result_trans _ _ _ _ _ _ _ _ _ _ R1 R2) as R. destruct R as [I M Z S Pp C B D O].
  split; try done; intros k; rewrite ?elem_of_cons; auto.
Qed.

(** ** The keys of a family

    The link-state families share a table: both name all of its keys. *)
Definition in_table (a : AfiSafi) key : bool :=
  match key with
  | KPrefix (V4 _) => bool_decide (a = mkAfiSafi Afi_Ipv4 Unicast)
  | KPrefix (V6 _) => bool_decide (a = mkAfiSafi Afi_Ipv6 Unicast)
  | KLinkState _ => bool_decide (a = mkAfiSafi Afi_LinkState Safi_LinkState \/ a = mkAfiSafi Afi_LinkState LinkStateVpn)
  end.
Definition in_tables (l : list AfiSafi) key : Prop := exists a, a ∈ l /\ in_table a key = true.

#[export] Instance in_tables_dec (l : list AfiSafi) key : Decision (in_tables l key).
Proof.
  refine (cast_if (decide (Exists (fun a => in_table a key = true) l))); unfold in_tables; by rewrite <- Exists_exists.
Defined.

Lemma elem_of_get_routes rib a route :
  rib_inv rib -> route ∈ get_routes rib (Some a) <->
    in_table a (route_key route) = true /\ get_route rib (route_key route) = Some route.
Proof.
  intros (_ & _ & Hri).
  assert (forall key r, get_route rib key = Some r -> route_key r = key) as Hk by (intros key r Hr; by apply (ri_key _ _ _ Hri)).
  assert (forall `{Countable K} (m : gmap K Route), route ∈ (map_to_list m).*2 <-> exists k, m !! k = Some route) as Hm.
  { intros K ? ? m. rewrite list_elem_of_fmap. split.
    - intros ([k r] & -> & Hin%elem_of_map_to_list). by exists k.
    - intros [k Hin]. exists (k, route). by rewrite elem_of_map_to_list. }
  assert (forall (P : Prop) `{!Decision P}, bool_decide P = true <-> P) as Hb by (intros; apply bool_decide_eq_true).
  destruct a as [[| |] [| | | |]]; cbn [get_routes afi safi]; unfold pm_values; rewrite ?Hm; split;
    try (by intros ?%not_elem_of_nil);
    try (intros [Ht Hg]; destruct (route_key route) as [[k|k]|k]; cbn in Ht; apply Hb in Ht; try congruence; try (by exists k);
      by destruct Ht as [?|?]; congruence);
    intros [k Hin].
  all: try (pose proof (Hk (KPrefix (V4 k)) route Hin) as E; rewrite E; by split).
  all: try (pose proof (Hk (KPrefix (V6 k)) route Hin) as E; rewrite E; by split).
  all: pose proof (Hk (KLinkState k) route Hin) as E; rewrite E; by split.
Qed.

Lemma stale_result_ext rib rib' peer_ip strategy (P Q : RouteKey -> Prop) d d' `{!forall key, Decision (P key)} :
  (forall k, P k -> Q k) -> (forall k, Q k -> has_stale rib peer_ip k = true -> P k) ->
  stale_result rib rib' peer_ip strategy P d d' -> stale_result rib rib' peer_ip strategy Q d d'.
Proof.
  intros HPQ HQP [I M Z S Pp C B D O].
  assert (forall k, Q k -> ~ P k -> has_stale rib peer_ip k = false) as Hn.
  { intros k HQ HP. destruct (has_stale rib peer_ip k) eqn:E; [|done]. destruct HP. by apply HQP. }
  split; try done.
  - intros k [Hk|Hk]; apply S; [left; naive_solver|by right].
  - intros k HQ. destruct (decide (P k)) as [HP|HP]; [by apply Pp|]. unfold old_paths at 1. rewrite S by by left.
    fold (old_paths rib k). by rewrite omap_no_stale by by apply Hn.
  - intros k. rewrite C. naive_solver.
  - intros k HQ Hk. apply O; auto.
Qed.

Lemma handle_stale_family_ok rib ext peer_ip strategy a d :
  rib_inv rib ->
  exists rib' d', handle_stale_keys ext peer_ip strategy
      (map route_key (filter (fun r => existsb (is_stale_from peer_ip) (paths r) = true) (get_routes rib (Some a)))) rib d = Some (rib', d') /\
    stale_result rib rib' peer_ip strategy (fun k => in_table a k = true) d d'.
Proof.
  intros Hinv. set (keys := map route_key _).
  destruct (handle_stale_keys_ok ext peer_ip strategy keys rib d Hinv) as (rib' & d' & E & R).
  exists rib', d'. split; [done|]. revert R. apply stale_result_ext; [apply _|..].
  - intros k (r & -> & [_ [Ht _]%elem_of_get_routes]%list_elem_of_filter)%list_elem_of_fmap; done.
  - intros k Ht Hs. unfold has_stale, old_paths in Hs. destruct (get_route rib k) as [r|] eqn:Er; [|done].
    assert (route_key r = k) as Ek by (destruct Hinv as (_ & _ & Hri); by apply (ri_key _ _ _ Hri)).
    apply list_elem_of_fmap. exists r. split; [done|]. apply list_elem_of_filter. split; [done|].
    apply elem_of_get_routes; [done|]. by rewrite Ek.
Qed.

Lemma handle_stale_from_ok ext peer_ip strategy (l : list AfiSafi) : forall rib d,
  rib_inv rib -> exists rib' d', handle_stale_from ext peer_ip l strategy rib d = Some (rib', d') /\
    stale_result rib rib' peer_ip strategy (in_tables l) d d'.
Proof.
  induction l as [|a l IH]; intros rib d Hinv; cbn [handle_stale_from].
  { exists rib, d. split; [done|]. apply stale_result_refl; [done|]. by intros k (a & ?%not_elem_of_nil & _). }
  destruct (handle_stale_family_ok rib ext peer_ip strategy a d Hinv) as (rib1 & d1 & -> & R1). cbn [mbind option_bind].
  destruct (IH rib1 d1 (sr_inv _ _ _ _ _ _ _ R1)) as (rib2 & d2 & E2 & R2). exists rib2, d2. split; [done|].
  pose proof (stale_result_trans _ _ _ _ _ _ _ _ _ _ R1 R2) as R. revert R. apply stale_result_ext; [apply _|..].
  - intros k [?|(b & ? & ?)]; [exists a; split; [by left|done]|exists b; split; [by right|done]].
  - intros k (b & [->|Hb]%elem_of_cons & Ht) _; [by left|right; by exists b].
Qed.

(** The sweep and the LLGR transition do not panic. *)
Lemma handle_stale_ok rib ext peer_ip strategy (l : list AfiSafi) :
  rib_inv rib -> exists rib' d, handle_stale rib ext peer_ip l strategy = Some (rib', d) /\
    stale_result rib rib' peer_ip strategy (in_tables l) delta_new d.
Proof. apply handle_stale_from_ok. Qed.

End passes.

(** ** Marking *)
Definition mark peer_ip (p : Path) : Path := if is_from_peer p peer_ip then set_stale true p else p.

(** The tables before and after paths were marked under the keys in [P]. *)
Definition marked_paths peer_ip (rt rt' : RouteKey -> option Route) (P : RouteKey -> Prop) : Prop :=
  (forall key, ~ P key -> rt' key = rt key) /\
  forall key, P key -> map ref_path (opt_paths (rt' key)) = map (mark peer_ip) (map ref_path (opt_paths (rt key))) /\
    (rt' key = None <-> rt key = None).

Lemma rewritten_mark shared peer_ip next l next' l' :
  rewritten shared (mark_fn peer_ip) next l next' l' -> map ref_path l' = map (mark peer_ip) (map ref_path l).
Proof.
  intros E%rewritten_paths. rewrite E. clear E. induction (map ref_path l) as [|p ps IH]; [done|]. cbn. by f_equal.
Qed.

Lemma mark_stale_inv {K} (tag : K -> RouteKey) `{!Inj eq eq tag} ext peer_ip ids (l : list (K * Route)) :
  forall next (rt : RouteKey -> option Route) (l' : list (K * Route)) n next',
  routes_inv ids next rt -> NoDup l.*1 -> (forall k r, (k, r) ∈ l -> rt (tag k) = Some r) ->
  mark_stale ext next peer_ip l = (l', n, next') ->
  exists rt', routes_inv ids next' rt' /\ l'.*1 = l.*1 /\ (forall k r, (k, r) ∈ l' -> rt' (tag k) = Some r) /\
    marked_paths peer_ip rt rt' (fun key => exists k, k ∈ l.*1 /\ key = tag k).
Proof.
  induction l as [|[k r] l IH]; intros next rt l' n next' Hri Hnd Hl; cbn [mark_stale].
  { intros [= <- <- <-]. exists rt. split; [done|]. split; [done|]. split; [by intros ? ? ?%not_elem_of_nil|].
    split; [done|]. by intros key (k & ?%not_elem_of_nil & _). }
  destruct (mark_stale_paths ext next peer_ip (paths r)) as [[ps n1] next1] eqn:Em. apply mark_stale_paths_rw in Em as Hrw.
  destruct (mark_stale ext next1 peer_ip l) as [[l1 n2] next2] eqn:El. intros [= <- <- <-].
  cbn [fmap list_fmap fst] in Hnd. apply NoDup_cons in Hnd as [Hk Hnd].
  assert (rt (tag k) = Some r) as Hr by (apply Hl; by left).
  set (rt1 := fun key => if decide (key = tag k) then Some (mkRoute (route_key r) ps) else rt key).
  assert (ps <> []) as Hps.
  { destruct (ri_key _ _ _ Hri _ _ Hr) as [_ Hne]. intros ->. apply rewritten_mark in Hrw. by destruct (paths r). }
  assert (routes_inv ids next1 rt1) as Hri1.
  { assert (ids = ids ∖ list_to_set (omap local_id (gone_paths (dropped (mark_fn peer_ip)) (opt_paths (rt (tag k)))))) as ->.
    { assert (gone_paths (dropped (mark_fn peer_ip)) (opt_paths (rt (tag k))) = []) as ->; [|cbn; set_solver].
      induction (opt_paths (rt (tag k))) as [|p q IHq]; [done|]. by rewrite gone_cons. }
    eapply (rewrite_inv ext (mark_fn peer_ip) ids next next1 rt rt1 (tag k) ps); [apply mark_keeps|done| | | |].
    - intros key Hne. unfold rt1. by rewrite decide_False.
    - intros r0. unfold rt1. rewrite decide_True by done. intros [= <-]. cbn. split; [|done]. by apply (ri_key _ _ _ Hri).
    - by rewrite Hr.
    - unfold rt1. by rewrite decide_True. }
  destruct (IH next1 rt1 l1 n2 next2 Hri1 Hnd) as (rt2 & Hri2 & E1 & Hl2 & Hm); [|done|].
  { intros k0 r0 Hin. unfold rt1. rewrite decide_False; [apply Hl; by right|]. intros E. apply (inj _) in E as ->.
    apply Hk. apply list_elem_of_fmap. by exists (k, r0). }
  destruct Hm as [Hm1 Hm2].
  assert (rt2 (tag k) = Some (mkRoute (route_key r) ps)) as Hk2.
  { rewrite Hm1; [unfold rt1; by rewrite decide_True|]. intros (k0 & Hin & E). apply (inj _) in E as ->. done. }
  exists rt2. split; [done|]. split; [cbn; by f_equal|]. split; [intros k0 r0 [[= -> ->]|Hin]%elem_of_cons; [done|by apply Hl2]|].
  cbn [fmap list_fmap fst]. split.
  - intros key Hn. rewrite Hm1 by (intros (k0 & ? & ?); apply Hn; exists k0; split; [by right|done]).
    unfold rt1. rewrite decide_False; [done|]. intros ->. apply Hn. exists k. split; [by left|done].
  - intros key (k0 & [->|Hin]%elem_of_cons & ->).
    + rewrite Hk2, Hr. split; [|done]. cbn [opt_paths paths]. by eapply rewritten_mark.
    + destruct (Hm2 (tag k0)) as [H1 H2]; [by exists k0|]. revert H1 H2. unfold rt1. rewrite decide_False; [done|].
      intros E. apply (inj _) in E as ->. done.
Qed.

Lemma mark_table_inv `{Countable K} (tag : K -> RouteKey) `{!Inj eq eq tag} ext next peer_ip ids (m m' : gmap K Route) n next'
    (rt : RouteKey -> option Route) :
  routes_inv ids next rt -> (forall k, rt (tag k) = m !! k) -> mark_table ext next peer_ip m = (m', n, next') ->
  exists rt', routes_inv ids next' rt' /\ (forall k, rt' (tag k) = m' !! k) /\
    marked_paths peer_ip rt rt' (fun key => exists k, key = tag k).
Proof.
  intros Hri Hrt. unfold mark_table. destruct (mark_stale ext next peer_ip (map_to_list m)) as [[l n1] next1] eqn:E.
  intros [= <- <- <-].
  destruct (mark_stale_inv tag ext peer_ip ids (map_to_list m) next rt l n1 next1 Hri) as (rt' & Hri' & Ek & Hl & Hm1 & Hm2);
    [apply NoDup_fst_map_to_list|intros k r Hin; rewrite Hrt; by apply elem_of_map_to_list|done|].
  assert (forall k, k ∈ (map_to_list m).*1 <-> is_Some (m !! k)) as Hdom.
  { intros k. rewrite list_elem_of_fmap. split.
    - intros ([k0 r] & -> & Hin%elem_of_map_to_list). by exists r.
    - intros [r Hin]. exists (k, r). by rewrite elem_of_map_to_list. }
  exists rt'. split; [done|]. split.
  - intros k. destruct (decide (k ∈ (map_to_list m).*1)) as [Hin|Hn].
    + assert (k ∈ l.*1) as ([k0 r] & -> & Hin')%list_elem_of_fmap by by rewrite Ek. cbn [fst].
      rewrite (Hl _ _ Hin'). symmetry. apply elem_of_list_to_map_1; [rewrite Ek; apply NoDup_fst_map_to_list|done].
    + rewrite Hm1 by (intros (k0 & Hin & E0); apply (inj _) in E0 as ->; done). rewrite Hrt.
      rewrite (not_elem_of_list_to_map_1 l k) by by rewrite Ek. by apply eq_None_not_Some; rewrite <- Hdom.
  - split.
    + intros key Hn. apply Hm1. intros (k & _ & ->). apply Hn. by exists k.
    + intros key [k ->]. destruct (decide (k ∈ (map_to_list m).*1)) as [Hin|Hn]; [apply Hm2; by exists k|].
      rewrite Hm1 by (intros (k0 & Hin & E0); apply (inj _) in E0 as ->; done).
      assert (rt (tag k) = None) as -> by (rewrite Hrt; by apply eq_None_not_Some; rewrite <- Hdom). done.
Qed.

#[local] Instance tag4_inj : Inj eq eq (fun k => KPrefix (V4 k)).
Proof. by intros ? ? [= ->]. Qed.
#[local] Instance tag6_inj : Inj eq eq (fun k => KPrefix (V6 k)).
Proof. by intros ? ? [= ->]. Qed.
#[local] Instance tagls_inj : Inj eq eq KLinkState.
Proof. by intros ? ? [= ->]. Qed.

(** What marking leaves alone, and the mark. *)
Record mark_post rib rib' peer_ip (a : AfiSafi) : Prop := {
  mp_inv : rib_inv rib';
  mp_ids : lr_path_ids rib' = lr_path_ids rib;
  mp_max : lr_max_ls_entries rib' = lr_max_ls_entries rib;
  mp_paths : marked_paths peer_ip (get_route rib) (get_route rib') (fun key => in_table a key = true);
}.

(** A table replaced by its marked version, the rest as it was. *)
Lemma mark_post_table `{Countable K} (tag : K -> RouteKey) `{!Inj eq eq tag} rib rib' ext peer_ip a (m m' : gmap K Route) n next' :
  rib_inv rib -> (forall k, get_route rib (tag k) = m !! k) ->
  mark_table ext (lr_next rib) peer_ip m = (m', n, next') ->
  (forall k, get_route rib' (tag k) = m' !! k) -> (forall key, (~ exists k, key = tag k) -> get_route rib' key = get_route rib key) ->
  (forall key, in_table a key = true <-> exists k, key = tag k) ->
  ((forall k, m' !! k = None <-> m !! k = None) -> rib_safe rib') ->
  lr_path_ids rib' = lr_path_ids rib -> lr_max_ls_entries rib' = lr_max_ls_entries rib -> lr_next rib' = next' ->
  mark_post rib rib' peer_ip a.
Proof.
  intros (Hsafe & Ha & Hri) Hm Em Hm' Hother Htab Hsafe' Eids Emax Enext.
  destruct (mark_table_inv tag ext (lr_next rib) peer_ip _ m m' n next' (get_route rib) Hri Hm Em) as (rt' & Hri' & Hrt & Hmark1 & Hmark2).
  assert (forall key, get_route rib' key = rt' key) as Heq.
  { intros key. destruct (decide (in_table a key = true)) as [Ht|Ht].
    - apply Htab in Ht as [k ->]. by rewrite Hm', Hrt.
    - rewrite Hother by by rewrite <- Htab. symmetry. apply Hmark1. by rewrite <- Htab. }
  split; [|done|done|split].
  - split; [|split; [by rewrite Eids|]].
    + apply Hsafe'. intros k. rewrite <- Hrt, <- Hm. apply Hmark2. by exists k.
    + rewrite Eids, Enext. apply (routes_inv_ext _ next' next' rt'); [done|done|lia].
  - intros key Hn. rewrite Heq. apply Hmark1. by rewrite <- Htab.
  - intros key Hk. rewrite !Heq. apply Hmark2. by apply Htab.
Qed.

Lemma mark_post_refl rib peer_ip a : rib_inv rib -> (forall key, in_table a key = false) -> mark_post rib rib peer_ip a.
Proof. intros Hinv Hn. split; [done|done|done|]. split; [done|]. intros key. by rewrite Hn. Qed.

Lemma mark_ok rib ext peer_ip a : rib_inv rib -> mark_post rib (mark_peer_routes_stale rib ext peer_ip a).1 peer_ip a.
Proof.
  intros Hinv. pose proof Hinv as ((H4 & H6) & _).
  destruct a as [[| |] [| | | |]]; cbn [mark_peer_routes_stale afi safi fst];
    try (apply mark_post_refl; [done|]; intros [[k|k]|k]; apply bool_decide_eq_false; by intuition congruence).
  - destruct (mark_table ext (lr_next rib) peer_ip (pm_map (lr_ipv4 rib))) as [[m n] next] eqn:E.
    apply (mark_post_table (fun k => KPrefix (V4 k)) rib _ ext peer_ip _ (pm_map (lr_ipv4 rib)) m n next); try done.
    + intros [[k|k]|k] Hn; [destruct Hn; by exists k|done|done].
    + intros [[k|k]|k]; cbn; split; try done; [by exists k|by intros [? ?]|by intros [? ?]].
    + intros Hd. split; [|done]. apply pm_safe_dom; [|done]. intros k. cbn. rewrite !is_Some_alt. specialize (Hd k).
      destruct (m !! k), (pm_map (lr_ipv4 rib) !! k); naive_solver.
  - destruct (mark_table ext (lr_next rib) peer_ip (pm_map (lr_ipv6 rib))) as [[m n] next] eqn:E.
    apply (mark_post_table (fun k => KPrefix (V6 k)) rib _ ext peer_ip _ (pm_map (lr_ipv6 rib)) m n next); try done.
    + intros [[k|k]|k] Hn; [done|destruct Hn; by exists k|done].
    + intros [[k|k]|k]; cbn; split; try done; [by intros [? ?]|by exists k|by intros [? ?]].
    + intros Hd. split; [done|]. apply pm_safe_dom; [|done]. intros k. cbn. rewrite !is_Some_alt. specialize (Hd k).
      destruct (m !! k), (pm_map (lr_ipv6 rib) !! k); naive_solver.
  - destruct (mark_table ext (lr_next rib) peer_ip (lr_ls rib)) as [[m n] next] eqn:E.
    apply (mark_post_table KLinkState rib _ ext peer_ip _ (lr_ls rib) m n next); try done.
    + intros [[k|k]|k] Hn; [done|done|destruct Hn; by exists k].
    + intros [[k|k]|k]; cbn; split; try done; [by intros [? ?]|by intros [? ?]|by exists k].
  - destruct (mark_table ext (lr_next rib) peer_ip (lr_ls rib)) as [[m n] next] eqn:E.
    apply (mark_post_table KLinkState rib _ ext peer_ip _ (lr_ls rib) m n next); try done.
    + intros [[k|k]|k] Hn; [done|done|destruct Hn; by exists k].
    + intros [[k|k]|k]; cbn; split; try done; [by intros [? ?]|by intros [? ?]|by exists k].
Qed.
End stale.
