(* ===== verification/LocRibSort.v ===== *)
(** * Two sorts

    What the Loc-RIB does with a sort that panics less often: everything it
    returned before, it returns again. *)
From S2P Require Import Prelude Net Trie PrefixMap Vrp PathId BgpLs Attrs Path LocRib.

Section monotone.
Context {A : Type} `{PathIdAllocator A} {S1 S2 : SortBy} (Hle : sort_le S1 S2).
Implicit Types (rib : LocRib A) (key : RouteKey) (peer_ip : IpAddr).

#[local] Ltac step := apply opt_le_bind; [|intros ?].

Lemma sort_paths_le l : opt_le (@sort_paths S1 l) (@sort_paths S2 l).
Proof. intros l'. apply Hle. Qed.

Lemma upsert_in_route_le shared next route path (ids : A) :
  opt_le (@upsert_path_in_route A _ S1 shared next route path ids) (@upsert_path_in_route A _ S2 shared next route path ids).
Proof.
  unfold upsert_path_in_route. destruct (match list_find _ _ with Some _ => _ | None => _ end) as [[ps ids'] next'].
  step; [apply sort_paths_le|apply opt_le_refl].
Qed.

Lemma upsert_path_le rib shared key path :
  opt_le (@upsert_path A _ S1 rib shared key path) (@upsert_path A _ S2 rib shared key path).
Proof.
  unfold upsert_path. step; [apply opt_le_refl|]. destruct a as [[rib1 route]|]; [|apply opt_le_refl].
  step; [apply upsert_in_route_le|]. apply opt_le_refl.
Qed.

Lemma apply_pending_le policy shared peer_ip pending (st : LocRib A * gset RouteKey) :
  opt_le (@apply_pending A _ S1 policy shared peer_ip pending st) (@apply_pending A _ S2 policy shared peer_ip pending st).
Proof.
  destruct st as [rib rejected], pending as [r|[key remote]]; cbn [apply_pending]; [|apply opt_le_refl].
  destruct (policy _ _) as [[] path]; [|apply opt_le_refl]. step; [apply upsert_path_le|apply opt_le_refl].
Qed.

Lemma apply_pendings_le policy shared peer_ip pending : forall st : LocRib A * gset RouteKey,
  opt_le (@apply_pendings A _ S1 policy shared peer_ip pending st) (@apply_pendings A _ S2 policy shared peer_ip pending st).
Proof.
  induction pending as [|p pending IH]; intros st; cbn [apply_pendings]; [apply opt_le_refl|].
  step; [apply apply_pending_le|apply IH].
Qed.

Lemma apply_peer_update_le rib ext peer_ip pending policy :
  opt_le (@apply_peer_update A _ S1 rib ext peer_ip pending policy) (@apply_peer_update A _ S2 rib ext peer_ip pending policy).
Proof. unfold apply_peer_update. step; [apply apply_pendings_le|apply opt_le_refl]. Qed.

Lemma add_local_route_le rib ext key a :
  opt_le (@add_local_route A _ S1 rib ext key a) (@add_local_route A _ S2 rib ext key a).
Proof. unfold add_local_route. step; [apply upsert_path_le|apply opt_le_refl]. Qed.

Lemma stale_to_route_le shared next route peer_ip (ids : A) strategy :
  opt_le (@apply_stale_to_route A _ S1 shared next route peer_ip ids strategy)
    (@apply_stale_to_route A _ S2 shared next route peer_ip ids strategy).
Proof.
  unfold apply_stale_to_route. destruct (negb _); [apply opt_le_refl|].
  destruct (apply_stale_paths _ _ _ _ _ _) as [[kept ids'] next']. step; [apply sort_paths_le|apply opt_le_refl].
Qed.

Lemma handle_stale_key_le ext peer_ip strategy key rib delta :
  opt_le (@handle_stale_key A _ S1 ext peer_ip strategy key rib delta) (@handle_stale_key A _ S2 ext peer_ip strategy key rib delta).
Proof.
  unfold handle_stale_key. destruct (get_route rib key) as [route|]; [|apply opt_le_refl].
  step; [apply stale_to_route_le|apply opt_le_refl].
Qed.

Lemma handle_stale_keys_le ext peer_ip strategy keys : forall rib delta,
  opt_le (@handle_stale_keys A _ S1 ext peer_ip strategy keys rib delta) (@handle_stale_keys A _ S2 ext peer_ip strategy keys rib delta).
Proof.
  induction keys as [|key keys IH]; intros rib delta; cbn [handle_stale_keys]; [apply opt_le_refl|].
  step; [apply handle_stale_key_le|]. destruct a as [rib1 d1]. apply IH.
Qed.

Lemma handle_stale_from_le ext peer_ip strategy (l : list AfiSafi) : forall rib delta,
  opt_le (@handle_stale_from A _ S1 ext peer_ip l strategy rib delta) (@handle_stale_from A _ S2 ext peer_ip l strategy rib delta).
Proof.
  induction l as [|a l IH]; intros rib delta; cbn [handle_stale_from]; [apply opt_le_refl|].
  step; [apply handle_stale_keys_le|]. destruct a0 as [rib1 d1]. apply IH.
Qed.

Lemma handle_stale_le rib ext peer_ip (l : list AfiSafi) strategy :
  opt_le (@handle_stale A _ S1 rib ext peer_ip l strategy) (@handle_stale A _ S2 rib ext peer_ip l strategy).
Proof. apply handle_stale_from_le. Qed.
End monotone.
