(* ===== verification/LocRibOps.v ===== *)
(** * Every operation of the Loc-RIB

    Sequences of calls on the table (peer updates, local routes, a session that
    goes down, the passes of graceful restart), each related to an operation of
    the specification, and the order of the routes they leave. *)
From S2P Require Import Prelude Net Trie TrieSpec PrefixMap Vrp PathId BgpLs Attrs Path LocRib LocRibInv LocRibSpec LocRibPeer LocRibStale LocRibSort.

(** ** Sequences of operations *)

(** A call on the table, with the clones ([ext]) other tasks hold then. *)
Inductive RibOp :=
  | OpPeerUpdate (ext : gset Z) (peer_ip : IpAddr) (pending : list PendingRoute)
      (policy : RouteKey -> Path -> bool * Path)
  | OpAddLocal (ext : gset Z) (key : RouteKey) (path_attrs : PathAttrs)
  | OpRemoveLocal (key : RouteKey)
  | OpPeerDown (peer_ip : IpAddr)
  | OpMarkStale (ext : gset Z) (peer_ip : IpAddr) (a : AfiSafi)
  | OpHandleStale (ext : gset Z) (peer_ip : IpAddr) (afi_safis : list AfiSafi) (strategy : StaleStrategy).

Definition run_op `{PathIdAllocator A} `{SortBy} (rib : LocRib A) (op : RibOp) : option (LocRib A) :=
  match op with
  | OpPeerUpdate ext peer_ip pending policy =>
      '(rib, _) ← apply_peer_update rib ext peer_ip pending policy; Some rib
  | OpAddLocal ext key path_attrs => '(rib, _) ← add_local_route rib ext key path_attrs; Some rib
  | OpRemoveLocal key => '(rib, _) ← remove_local_route rib key; Some rib
  | OpPeerDown peer_ip => '(rib, _) ← remove_routes_from_peer rib peer_ip; Some rib
  | OpMarkStale ext peer_ip a => Some (mark_peer_routes_stale rib ext peer_ip a).1
  | OpHandleStale ext peer_ip afi_safis strategy =>
      '(rib, _) ← handle_stale rib ext peer_ip afi_safis strategy; Some rib
  end.
Fixpoint run_ops `{PathIdAllocator A} `{SortBy} (rib : LocRib A) (ops : list RibOp) : option (LocRib A) :=
  match ops with
  | [] => Some rib
  | op :: rest => rib ← run_op rib op; run_ops rib rest
  end.

(** The keys are well formed, and how many identifiers the call may take. *)
Definition op_ok (op : RibOp) : Prop :=
  match op with
  | OpPeerUpdate _ _ pending _ => Forall pending_ok pending
  | OpAddLocal _ key _ => rkey_ok key
  | _ => True
  end.
Definition op_size (op : RibOp) : nat :=
  match op with
  | OpPeerUpdate _ _ pending _ => length pending
  | OpAddLocal _ _ _ => 1
  | _ => 0
  end%nat.

(** Marking, and the passes over stale paths: one rewrite of the map. *)
Definition spec_rewrite (g : RouteKey -> Path -> option Path) (m : RibMap) : RibMap := map_imap (fun k p => g k.1 p) m.
Definition spec_mark (m : RibMap) (peer_ip : IpAddr) (a : AfiSafi) : RibMap :=
  spec_rewrite (fun key p => Some (if in_table a key then mark peer_ip p else p)) m.
Definition spec_stale (m : RibMap) (peer_ip : IpAddr) (afi_safis : list AfiSafi) (strategy : StaleStrategy) : RibMap :=
  spec_rewrite (fun key p => if bool_decide (in_tables afi_safis key) then stale_fn strategy peer_ip p else Some p) m.

Definition spec_op (max : Z) (m : RibMap) (op : RibOp) : RibMap :=
  match op with
  | OpPeerUpdate _ peer_ip pending policy => spec_update max policy peer_ip m pending
  | OpAddLocal _ key path_attrs => spec_add_local max m key path_attrs
  | OpRemoveLocal key => spec_remove_local m key
  | OpPeerDown peer_ip => spec_remove_peer m peer_ip
  | OpMarkStale _ peer_ip a => spec_mark m peer_ip a
  | OpHandleStale _ peer_ip afi_safis strategy => spec_stale m peer_ip afi_safis strategy
  end.
Definition spec_ops (max : Z) (ops : list RibOp) : RibMap := fold_left (spec_op max) ops ∅.

Section ops.
Context {A : Type} `{PathIdLaws A} {Sorts : SortBy} {Returns : SortReturns}.
Implicit Types (rib : LocRib A) (key : RouteKey) (peer_ip : IpAddr) (m : RibMap) (f : Path -> bool).

(** ** The routes stay sorted

    [G] is a class of attributes with comparable MEDs. *)
Section sorted.
Context (G : PathAttrs -> Prop).

(** What the operations do to the table, seen from its routes. *)
Inductive rib_write rib : LocRib A -> Prop :=
  | write_next n : rib_write rib (set_next rib n)
  | write_upsert rib' shared key path id :
      upsert_post rib rib' shared key path id -> G (attrs (ref_path path)) -> rib_write rib rib'
  | write_remove rib' key f : remove_post rib rib' key f -> rib_write rib rib'
  | write_clear rib' peer_ip : peer_cleared rib rib' peer_ip -> rib_write rib rib'
  | write_mark rib' peer_ip a : mark_post rib rib' peer_ip a -> rib_write rib rib'
  | write_stale rib' peer_ip strategy (P : RouteKey -> Prop) d d' `{!forall key, Decision (P key)} :
      stale_result rib rib' peer_ip strategy P d d' -> rib_write rib rib'.

Definition accepted_in (policy : RouteKey -> Path -> bool * Path) (p : PendingRoute) : Prop :=
  match p with
  | Announce r =>
      let '(accepted, path) := policy (rp_key r) (ref_path (rp_path r)) in
      accepted = true -> G (attrs path)
  | Withdraw _ => True
  end.

Lemma apply_pending_writes rib m policy shared peer_ip pending rejected rib' rejected' :
  rib_repr rib m -> pending_ok pending -> room rib 1 -> accepted_in policy pending ->
  apply_pending policy shared peer_ip pending (rib, rejected) = Some (rib', rejected') ->
  rib_write rib rib'.
Proof.
  intros Hr Hok Hroom Hacc E. destruct pending as [r|[key remote]]; cbn [apply_pending accepted_in] in *.
  - destruct (policy (rp_key r) (ref_path (rp_path r))) as [[] path].
    + destruct (announce_ok rib m shared (rp_key r) path Hr Hok Hroom) as (rib1 & b & Eu & _ & _ & _ & Hb).
      rewrite Eu in E. cbn [mbind option_bind] in E. injection E as <- _. destruct b.
      * destruct Hb as [id Hb]. eapply write_upsert; [exact Hb|]. by apply Hacc.
      * subst rib1. apply write_next.
    + destruct (remove_peer_path_ok rib m (rp_key r) peer_ip (remote_path_id (ref_path (rp_path r))) Hr)
        as (rib1 & b & Eu & _ & Hrm). rewrite Eu in E. injection E as <- _. by eapply write_remove.
  - destruct (remove_peer_path_ok rib m key peer_ip remote Hr) as (rib1 & b & Eu & _ & Hrm).
    rewrite Eu in E. injection E as <- _. by eapply write_remove.
Qed.

Lemma apply_pendings_writes rib m policy shared peer_ip pending rejected rib' rejected' :
  rib_repr rib m -> Forall pending_ok pending -> room rib (length pending) ->
  Forall (accepted_in policy) pending ->
  apply_pendings policy shared peer_ip pending (rib, rejected) = Some (rib', rejected') ->
  rtc rib_write rib rib'.
Proof.
  revert rib m rejected. induction pending as [|p pending IH]; intros rib m rejected Hr Hok Hroom Hacc E.
  { injection E as <- _. done. }
  apply Forall_cons in Hok as [Hp Hok]. apply Forall_cons in Hacc as [Ha Hacc].
  unfold room in Hroom. cbn [length] in Hroom.
  destruct (apply_pending_ok rib m policy shared peer_ip p rejected Hr Hp) as
    (rib1 & rej1 & E1 & Hr1 & Hf & _); [unfold room; lia|]. pose proof (sf_size _ _ _ _ Hf) as Hsz.
  cbn [apply_pendings] in E. rewrite E1 in E. cbn [mbind option_bind] in E.
  eapply rtc_l; [eapply apply_pending_writes; [exact Hr|exact Hp|unfold room; lia|exact Ha|exact E1]|].
  eapply IH; [exact Hr1|done|unfold room; lia|done|exact E].
Qed.

(** Every route is sorted, best path first. *)
Definition rib_sorted rib : Prop :=
  forall key, Forall (fun p => G (attrs (ref_path p))) (old_paths rib key) /\
    StronglySorted no_worse (old_paths rib key).

Hypothesis G_comparable : forall p q : Path, G (attrs p) -> G (attrs q) ->
  neighboring_as p = neighboring_as q \/ default 0 (pa_med (attrs p)) = default 0 (pa_med (attrs q)).

Hypothesis G_tag : forall p : Path, G (attrs p) -> G (attrs (llgr_tag p)).

Lemma mark_attrs peer_ip p : attrs (mark peer_ip p) = attrs p.
Proof. unfold mark. by destruct (is_from_peer p peer_ip). Qed.

(** The order looks at the attributes and the remote identifiers, not the mark. *)
Lemma best_path_cmp_mark peer_ip p q : best_path_cmp (mark peer_ip p) (mark peer_ip q) = best_path_cmp p q.
Proof. unfold mark. by destruct (is_from_peer p peer_ip), (is_from_peer q peer_ip). Qed.

Definition path_no_worse (p q : Path) : Prop := best_path_cmp q p <> Gt.

Lemma no_worse_paths (l : list PathRef) : StronglySorted no_worse l <-> StronglySorted path_no_worse (map ref_path l).
Proof.
  induction l as [|p l IH]; cbn [map]; [split; constructor|].
  rewrite !StronglySorted_cons, IH, !Forall_forall. split; intros [Hp Hs]; (split; [|done]).
  - intros q (x & -> & Hx)%list_elem_of_fmap. by apply Hp.
  - intros q Hq. apply (Hp (ref_path q)). by apply list_elem_of_fmap_2.
Qed.

Lemma mark_sorted peer_ip (l : list Path) : StronglySorted path_no_worse l -> StronglySorted path_no_worse (map (mark peer_ip) l).
Proof.
  induction 1 as [|p l Hl IH Hp]; cbn [map]; [constructor|]. constructor; [done|]. rewrite Forall_forall in Hp |- *.
  intros q (x & -> & Hx)%list_elem_of_fmap. unfold path_no_worse. rewrite best_path_cmp_mark. by apply Hp.
Qed.

Lemma stale_fn_attrs strategy peer_ip p q : stale_fn strategy peer_ip p = Some q -> G (attrs p) -> G (attrs q).
Proof.
  unfold stale_fn. destruct (stale_from peer_ip p); [|by intros [= <-]].
  destruct strategy; [done|]. case_bool_decide; [done|]. intros [= <-]. apply G_tag.
Qed.

Lemma old_paths_attrs rib key :
  Forall (fun p => G (attrs (ref_path p))) (old_paths rib key) <-> forall q, q ∈ map ref_path (old_paths rib key) -> G (attrs q).
Proof.
  rewrite Forall_forall. split.
  - intros Hg q (p & -> & Hp)%list_elem_of_fmap. by apply Hg.
  - intros Hg p Hp. apply Hg. by apply list_elem_of_fmap_2.
Qed.

Lemma upserted_attrs old p id : attrs (upserted old p id) = attrs p.
Proof. destruct old as [q|]; [|done]. cbn. case_bool_decide as E; [done|]. cbn. by destruct (decide (attrs q = attrs p)). Qed.

Lemma kept_sorted f l : StronglySorted no_worse l -> StronglySorted no_worse (kept_paths f l).
Proof.
  unfold kept_paths. induction 1 as [|p l Hl IH Hp]; [constructor|]. rewrite filter_cons.
  case_decide; [|done]. constructor; [done|]. rewrite Forall_forall in Hp |- *.
  intros q [_ Hq]%list_elem_of_filter. by apply Hp.
Qed.

Lemma class_comparable (l : list PathRef) :
  Forall (fun p => G (attrs (ref_path p))) l -> med_comparable (map ref_path l).
Proof.
  rewrite Forall_forall. intros HG a b (p & -> & Hp)%list_elem_of_fmap (q & -> & Hq)%list_elem_of_fmap.
  by apply G_comparable; apply HG.
Qed.

(** The list that was sorted has the elements of the result. *)
Lemma comparable_sorted (ps l : list PathRef) :
  sort_paths ps = Some l -> Forall (fun p => G (attrs (ref_path p))) l -> StronglySorted no_worse l.
Proof.
  intros E HG. eapply sort_paths_sorted; [|exact E]. apply class_comparable.
  by rewrite <- (sort_paths_perm _ _ E).
Qed.

Lemma mark_post_sorted rib rib' peer_ip a : mark_post rib rib' peer_ip a -> rib_sorted rib -> rib_sorted rib'.
Proof.
  intros [_ _ _ [Hsame Hmark]] Hs key. destruct (Hs key) as [HG Hss]. destruct (decide (in_table a key = true)) as [Ht|Ht].
  2: { unfold old_paths in *. by rewrite Hsame. }
  rewrite old_paths_attrs, no_worse_paths in *. destruct (Hmark key Ht) as [E _]. unfold old_paths in *. rewrite E.
  split; [|by apply mark_sorted]. intros q (p & -> & Hp)%list_elem_of_fmap. rewrite mark_attrs. by apply HG.
Qed.

Lemma stale_result_sorted rib rib' peer_ip strategy (P : RouteKey -> Prop) d d' `{!forall key, Decision (P key)} :
  stale_result rib rib' peer_ip strategy P d d' -> rib_sorted rib -> rib_sorted rib'.
Proof.
  intros [_ _ _ Hsame Hpaths _ _ _ Hsort] Hs key. destruct (Hs key) as [HG Hss].
  destruct (decide (P key)) as [HP|HP], (has_stale rib peer_ip key) eqn:Est.
  2-4: by unfold old_paths in *; rewrite Hsame by tauto.
  assert (Forall (fun p => G (attrs (ref_path p))) (old_paths rib' key)) as HG'.
  { rewrite old_paths_attrs in *. intros q. rewrite Hpaths by done. intros (p & Hp & E)%list_elem_of_omap.
    eapply stale_fn_attrs; [exact E|]. by apply HG. }
  split; [done|]. destruct (Hsort key HP Est) as [ps Eps]. by apply (comparable_sorted ps).
Qed.

Lemma write_sorted rib rib' : rib_write rib rib' -> rib_sorted rib -> rib_sorted rib'.
Proof.
  intros Hw Hs. destruct Hw as [n|rib' shared key' path id Hup HG|rib' key' f Hrm|rib' peer_ip Hc|rib' peer_ip a Hm|rib' peer_ip strategy P d d' HPd Hst];
    [..|by eapply mark_post_sorted|by eapply stale_result_sorted]; intros key.
  - unfold old_paths. rewrite get_route_set_next. apply Hs.
  - destruct (decide (key = key')) as [->|Hne].
    2: { unfold old_paths. rewrite (up_other _ _ _ _ _ _ Hup) by done. apply Hs. }
    destruct (up_elem _ _ _ _ _ _ Hup) as (q & _ & Hq & Helem).
    assert (Forall (fun p => G (attrs (ref_path p))) (old_paths rib' key')) as HG'.
    { apply Forall_forall. intros p [->|[Hp _]]%Helem; [by rewrite Hq, upserted_attrs|].
      destruct (Hs key') as [Hall _]. rewrite Forall_forall in Hall. by apply Hall. }
    split; [done|]. destruct (up_sorted _ _ _ _ _ _ Hup) as [ps Eps]. by apply (comparable_sorted ps).
  - destruct (decide (key = key')) as [->|Hne].
    2: { unfold old_paths. rewrite (rm_other _ _ _ _ Hrm) by done. apply Hs. }
    rewrite (rm_paths _ _ _ _ Hrm). split; [|by apply kept_sorted, Hs].
    destruct (Hs key') as [Hall _]. rewrite Forall_forall in Hall |- *.
    intros p [Hp _]%elem_of_kept. by apply Hall.
  - unfold old_paths. rewrite (pc_route _ _ _ Hc), drop_route_paths.
    split; [|by apply kept_sorted, Hs].
    destruct (Hs key) as [Hall _]. rewrite Forall_forall in Hall |- *.
    intros p [Hp _]%elem_of_kept. by apply Hall.
Qed.

Lemma writes_sorted rib rib' : rtc rib_write rib rib' -> rib_sorted rib -> rib_sorted rib'.
Proof. induction 1 as [|? ? ? Hw _ IH]; [done|]. intros Hs. apply IH. by eapply write_sorted. Qed.

Definition op_attrs (op : RibOp) : Prop :=
  match op with
  | OpPeerUpdate _ _ pending policy => Forall (accepted_in policy) pending
  | OpAddLocal _ _ a => G (attrs (local_path a))
  | _ => True
  end.

Lemma run_op_writes rib m op rib' :
  rib_repr rib m -> op_ok op -> room rib (op_size op) -> op_attrs op -> run_op rib op = Some rib' ->
  rtc rib_write rib rib'.
Proof.
  intros Hr Hok Hroom Ha E.
  destruct op as [ext peer_ip pending policy|ext key a|key|peer_ip|ext peer_ip a|ext peer_ip l strategy]; cbn [run_op op_attrs op_ok op_size] in *.
  - unfold apply_peer_update in E.
    destruct (apply_pendings _ _ _ _ _) as [[rib1 rej]|] eqn:E1; [|done]. injection E as <-.
    by eapply apply_pendings_writes.
  - unfold add_local_route in E.
    destruct (announce_ok rib m (opt_ptr (get_best_path rib key) ∪ ext) key (local_path a) Hr Hok Hroom)
      as (rib1 & b & Eu & _ & _ & _ & Hb). rewrite Eu in E. cbn [mbind option_bind] in E.
    apply rtc_once. destruct b; injection E as <-.
    + destruct Hb as [id Hb]. by eapply write_upsert.
    + subst rib1. apply write_next.
  - destruct (remove_local_route_ok rib m key Hr) as (rib1 & d & E1 & _ & Hrm & _).
    rewrite E1 in E. injection E as <-. apply rtc_once. by eapply write_remove.
  - destruct (remove_routes_from_peer_ok rib m peer_ip Hr) as (rib1 & d & E1 & _ & Hc & _).
    rewrite E1 in E. injection E as <-. apply rtc_once. by eapply write_clear.
  - injection E as <-. apply rtc_once. eapply write_mark. apply mark_ok, Hr.
  - destruct (handle_stale_ok rib ext peer_ip strategy l (proj1 Hr)) as (rib1 & d & E1 & Hst).
    rewrite E1 in E. injection E as <-. apply rtc_once. exact (write_stale rib rib1 peer_ip strategy (in_tables l) delta_new d Hst).
Qed.

(** *** Any other sort

    On tables and announcements within the class no sort panics, so a run
    takes the same course with any [SortBy]. *)
Section any_sort.
Context (S : SortBy).

#[local] Abbreviation all_in := (Forall (fun p => G (attrs (ref_path p)))).

Lemma sort_paths_any l : all_in l -> @sort_paths S l = @sort_paths Sorts l.
Proof. intros HG. pose proof (class_comparable _ HG). by rewrite !sort_paths_comparable. Qed.

Lemma upsert_in_route_any shared next route path (ids : A) :
  all_in (paths route) -> G (attrs (ref_path path)) ->
  @upsert_path_in_route A _ S shared next route path ids = @upsert_path_in_route A _ Sorts shared next route path ids.
Proof.
  intros HG Hp. unfold upsert_path_in_route. destruct (match list_find _ _ with Some _ => _ | None => _ end) as [[ps ids'] next'] eqn:E.
  assert (all_in ps) as Hps.
  { destruct (list_find _ _) as [[i e]|] eqn:Ef.
    - apply list_find_Some in Ef as (Hi & _ & _).
      assert (G (attrs (ref_path e))) as He by (eapply Forall_lookup_1 in HG; [exact HG|exact Hi]).
      case_bool_decide.
      + destruct (make_mut _ _ _ _) as [q n] eqn:Em. apply make_mut_spec in Em as [Hq _].
        injection E as <- _ _. apply Forall_insert; [done|]. by rewrite Hq.
      + destruct (if bool_decide (rpki_state _ <> _) then _ else _) as [e1 n1] eqn:E1.
        destruct (if stale _ then _ else _) as [e2 n2] eqn:E2.
        destruct (in_place_spec _ _ _ _ _ _ _ _ E1 E2) as (Hq & _).
        injection E as <- _ _. apply Forall_insert; [done|]. by rewrite Hq.
    - destruct (alloc ids) as [ids1 id]. destruct (make_mut _ _ _ _) as [q n] eqn:Em. apply make_mut_spec in Em as [Hq _].
      injection E as <- _ _. apply Forall_app. split; [done|]. repeat constructor. by rewrite Hq. }
  by rewrite sort_paths_any.
Qed.

Lemma entry_paths rib key rib1 route : entry_or_insert rib key = Some (Some (rib1, route)) ->
  paths route = old_paths rib key.
Proof.
  unfold old_paths. destruct key as [[n|n]|n]; cbn [entry_or_insert get_route]; unfold pm_get_or_insert, pm_get.
  1, 2: destruct (pm_map _ !! n) as [r|]; cbn [mbind option_bind]; [by intros [= _ <-]|];
    destruct (trie_insert _ _ _) as [[t x]|]; [|done]; by intros [= _ <-].
  case_match; [done|]. destruct (lr_ls rib !! n); by intros [= _ <-].
Qed.

Lemma upsert_path_any rib shared key path :
  all_in (old_paths rib key) -> G (attrs (ref_path path)) ->
  @upsert_path A _ S rib shared key path = @upsert_path A _ Sorts rib shared key path.
Proof.
  intros HG Hp. unfold upsert_path. destruct (entry_or_insert rib key) as [[[rib1 route]|]|] eqn:E; [|done..].
  cbn [mbind option_bind]. rewrite upsert_in_route_any; [done| |done]. by rewrite (entry_paths _ _ _ _ E).
Qed.

Lemma next_in rib n key : rib_sorted rib -> all_in (old_paths (set_next rib n) key).
Proof. intros Hs. unfold old_paths. rewrite get_route_set_next. apply Hs. Qed.

Lemma apply_pending_any policy shared peer_ip pending rib rejected :
  rib_sorted rib -> accepted_in policy pending ->
  @apply_pending A _ S policy shared peer_ip pending (rib, rejected) = @apply_pending A _ Sorts policy shared peer_ip pending (rib, rejected).
Proof.
  intros Hs Ha. destruct pending as [r|[key remote]]; cbn [apply_pending accepted_in] in *; [|done].
  destruct (policy _ _) as [[] path]; [|done]. rewrite upsert_path_any; [done|by apply next_in|by apply Ha].
Qed.

Lemma apply_pendings_any policy shared peer_ip pending : forall rib m rejected,
  rib_repr rib m -> Forall pending_ok pending -> room rib (length pending) ->
  Forall (accepted_in policy) pending -> rib_sorted rib ->
  @apply_pendings A _ S policy shared peer_ip pending (rib, rejected) = @apply_pendings A _ Sorts policy shared peer_ip pending (rib, rejected).
Proof.
  induction pending as [|p pending IH]; intros rib m rejected Hr Hok Hroom Hacc Hs; [done|].
  apply Forall_cons in Hok as [Hp Hok]. apply Forall_cons in Hacc as [Ha Hacc].
  unfold room in Hroom. cbn [length] in Hroom. cbn [apply_pendings]. rewrite apply_pending_any by done.
  destruct (apply_pending_ok rib m policy shared peer_ip p rejected Hr Hp) as
    (rib1 & rej1 & E1 & Hr1 & Hf & _); [unfold room; lia|]. pose proof (sf_size _ _ _ _ Hf) as Hsz.
  rewrite E1. cbn [mbind option_bind]. eapply IH; [exact Hr1|done|unfold room; lia|done|].
  eapply write_sorted; [|exact Hs]. eapply apply_pending_writes; [exact Hr|exact Hp|unfold room; lia|exact Ha|exact E1].
Qed.

Lemma apply_peer_update_any rib m ext peer_ip pending policy :
  rib_repr rib m -> Forall pending_ok pending -> room rib (length pending) ->
  Forall (accepted_in policy) pending -> rib_sorted rib ->
  @apply_peer_update A _ S rib ext peer_ip pending policy = @apply_peer_update A _ Sorts rib ext peer_ip pending policy.
Proof. intros. unfold apply_peer_update. by erewrite apply_pendings_any. Qed.

Lemma add_local_route_any rib ext key a :
  rib_sorted rib -> G (attrs (local_path a)) -> @add_local_route A _ S rib ext key a = @add_local_route A _ Sorts rib ext key a.
Proof. intros Hs Ha. unfold add_local_route. by rewrite upsert_path_any by (try done; by apply next_in). Qed.

Lemma stale_to_route_any shared next route peer_ip (ids : A) strategy :
  all_in (paths route) ->
  @apply_stale_to_route A _ S shared next route peer_ip ids strategy = @apply_stale_to_route A _ Sorts shared next route peer_ip ids strategy.
Proof.
  intros HG. unfold apply_stale_to_route. destruct (negb _); [done|].
  destruct (apply_stale_paths _ _ _ _ _ _) as [[kept ids'] next'] eqn:E. rewrite sort_paths_any; [done|].
  apply apply_stale_paths_rw in E as [Hrw%rewritten_paths _]. rewrite Forall_forall in HG |- *. intros p Hp.
  assert (ref_path p ∈ map ref_path kept) as Hin by by apply list_elem_of_fmap_2.
  rewrite Hrw in Hin. apply list_elem_of_omap in Hin as (q & (x & -> & Hx)%list_elem_of_fmap & E).
  eapply stale_fn_attrs; [exact E|by apply HG].
Qed.

Lemma handle_stale_keys_any ext peer_ip strategy keys : forall rib d,
  rib_inv rib -> rib_sorted rib ->
  @handle_stale_keys A _ S ext peer_ip strategy keys rib d = @handle_stale_keys A _ Sorts ext peer_ip strategy keys rib d.
Proof.
  induction keys as [|key keys IH]; intros rib d Hinv Hs; [done|]. cbn [handle_stale_keys].
  assert (@handle_stale_key A _ S ext peer_ip strategy key rib d = @handle_stale_key A _ Sorts ext peer_ip strategy key rib d) as ->.
  { unfold handle_stale_key. destruct (get_route rib key) as [route|] eqn:E; [|done]. rewrite stale_to_route_any; [done|].
    destruct (Hs key) as [HG _]. unfold old_paths in HG. by rewrite E in HG. }
  destruct (stale_step_ok rib ext key peer_ip strategy d Hinv) as (rib1 & d1 & -> & R). cbn [mbind option_bind].
  apply IH; [apply (sr_inv _ _ _ _ _ _ _ R)|]. exact (stale_result_sorted _ _ _ _ _ _ _ R Hs).
Qed.

Lemma handle_stale_from_any ext peer_ip strategy (l : list AfiSafi) : forall rib d,
  rib_inv rib -> rib_sorted rib ->
  @handle_stale_from A _ S ext peer_ip l strategy rib d = @handle_stale_from A _ Sorts ext peer_ip l strategy rib d.
Proof.
  induction l as [|a l IH]; intros rib d Hinv Hs; [done|]. cbn [handle_stale_from]. rewrite handle_stale_keys_any by done.
  destruct (handle_stale_family_ok rib ext peer_ip strategy a d Hinv) as (rib1 & d1 & -> & R). cbn [mbind option_bind].
  apply IH; [apply (sr_inv _ _ _ _ _ _ _ R)|]. exact (stale_result_sorted _ _ _ _ _ _ _ R Hs).
Qed.

Lemma run_op_any rib m op :
  rib_repr rib m -> op_ok op -> room rib (op_size op) -> op_attrs op -> rib_sorted rib ->
  @run_op A _ S rib op = @run_op A _ Sorts rib op.
Proof.
  intros Hr Hok Hroom Ha Hs.
  destruct op as [ext peer_ip pending policy|ext key a|key|peer_ip|ext peer_ip a|ext peer_ip l strategy];
    cbn [run_op op_attrs op_ok op_size] in *; [..|done|]; try done.
  - by erewrite apply_peer_update_any.
  - by rewrite add_local_route_any.
  - unfold handle_stale. by rewrite handle_stale_from_any by (try done; apply Hr).
Qed.
End any_sort.
End sorted.

(** ** Every operation against the specification *)

(** A rewrite of the table is the rewrite of the map. *)
Lemma repr_rewrite rib rib' m (g : RouteKey -> Path -> option Path) :
  rib_repr rib m -> rib_inv rib' -> (forall key, keeps_ids (g key)) ->
  (forall key p, g key (strip p) = strip <$> g key p) ->
  (forall key, map ref_path (old_paths rib' key) ≡ₚ omap (g key) (map ref_path (old_paths rib key))) ->
  rib_repr rib' (spec_rewrite g m).
Proof.
  intros Hr Hinv' Hg Hstrip Hp. split; [done|]. intros key i. apply option_eq. intros p.
  unfold spec_rewrite. rewrite map_lookup_imap, bind_Some. cbn [fst]. rewrite fmap_Some.
  setoid_rewrite (rib_repr_elem rib m key i _ Hr). setoid_rewrite find_ident_Some; [|by apply rib_ident].
  assert (forall q, q ∈ map ref_path (old_paths rib' key) <-> exists x, x ∈ old_paths rib key /\ g key (ref_path x) = Some q) as Hin.
  { intros q. rewrite (Hp key), list_elem_of_omap. setoid_rewrite list_elem_of_fmap. naive_solver. }
  split.
  - intros (q & (x & Hx & Hi & <-) & E). rewrite Hstrip in E. apply fmap_Some in E as (y & Ey & ->).
    assert (y ∈ map ref_path (old_paths rib' key)) as (z & -> & Hz)%list_elem_of_fmap by (apply Hin; by exists x).
    exists z. split; [split; [done|]|done]. apply Hg in Ey as [Ey _]. rewrite <- Hi. exact Ey.
  - intros (z & [Hz Hi] & ->).
    assert (ref_path z ∈ map ref_path (old_paths rib' key)) as (x & Hx & E)%Hin by by apply list_elem_of_fmap_2.
    exists (strip (ref_path x)). rewrite Hstrip, E. split; [|done]. exists x. split_and!; [done| |done].
    rewrite <- Hi. symmetry. exact (proj1 (Hg key _ _ E)).
Qed.

Lemma mark_strip peer_ip p : mark peer_ip (strip p) = strip (mark peer_ip p).
Proof. unfold mark. change (is_from_peer (strip p) peer_ip) with (is_from_peer p peer_ip). by destruct (is_from_peer p peer_ip). Qed.

Lemma stale_fn_strip strategy peer_ip p : stale_fn strategy peer_ip (strip p) = strip <$> stale_fn strategy peer_ip p.
Proof.
  unfold stale_fn. change (stale_from peer_ip (strip p)) with (stale_from peer_ip p). destruct (stale_from peer_ip p); [|done].
  destruct strategy; [done|]. change (attrs (strip p)) with (attrs p). case_bool_decide; [done|]. cbn [fmap option_fmap option_map].
  f_equal. unfold llgr_tag. change (attrs (strip p)) with (attrs p). by case_bool_decide.
Qed.

Lemma omap_some_id (l : list Path) (g : Path -> option Path) : (forall p, g p = Some p) -> omap g l = l.
Proof. intros Hg. induction l as [|p l IH]; [done|]. cbn [omap list_omap]. rewrite Hg. by f_equal. Qed.

Lemma mark_repr rib rib' m peer_ip a : rib_repr rib m -> mark_post rib rib' peer_ip a -> rib_repr rib' (spec_mark m peer_ip a).
Proof.
  intros Hr [Hinv' _ _ [Hsame Hmark]]. apply (repr_rewrite rib); [done|done|..].
  - intros key p q [= <-]. destruct (in_table a key); [|done]. by apply (mark_keeps peer_ip p).
  - intros key p. cbn [fmap option_fmap option_map]. destruct (in_table a key); [by rewrite mark_strip|done].
  - intros key. destruct (in_table a key) eqn:Et.
    + unfold old_paths. rewrite (proj1 (Hmark key Et)). clear.
      induction (map ref_path (opt_paths (get_route rib key))) as [|p ps IH]; [done|]. cbn. by constructor.
    + unfold old_paths. rewrite Hsame by congruence. by rewrite omap_some_id.
Qed.

Lemma stale_repr rib rib' m peer_ip strategy (l : list AfiSafi) d d' :
  rib_repr rib m -> stale_result rib rib' peer_ip strategy (in_tables l) d d' -> rib_repr rib' (spec_stale m peer_ip l strategy).
Proof.
  intros Hr [Hinv' _ _ Hsame Hpaths _ _ _ _]. apply (repr_rewrite rib); [done|done|..].
  - intros key p q. case_bool_decide; [apply stale_fn_keeps|by intros [= <-]].
  - intros key p. case_bool_decide; [apply stale_fn_strip|done].
  - intros key. case_bool_decide as Hk; [by apply Hpaths|]. unfold old_paths. rewrite Hsame by by left. by rewrite omap_some_id.
Qed.

Lemma run_op_ok rib m op :
  rib_repr rib m -> op_ok op -> room rib (op_size op) ->
  exists rib', run_op rib op = Some rib' /\ rib_repr rib' (spec_op (lr_max_ls_entries rib) m op) /\
    lr_max_ls_entries rib' = lr_max_ls_entries rib /\
    (size (alloc_ids (lr_path_ids rib')) <= size (alloc_ids (lr_path_ids rib)) + op_size op)%nat.
Proof.
  intros Hr Hok Hroom.
  destruct op as [ext peer_ip pending policy|ext key a|key|peer_ip|ext peer_ip a|ext peer_ip l strategy]; cbn [run_op spec_op op_size].
  - destruct (apply_peer_update_ok rib m ext peer_ip pending policy Hr Hok Hroom)
      as (rib' & d & silent & -> & Hr' & Hmax & Hsz & _). by exists rib'.
  - destruct (add_local_route_ok rib m ext key a Hr Hok Hroom) as (rib' & res & -> & Hr' & Hmax & Hsz & _).
    exists rib'. split_and!; [done|done|done|lia].
  - destruct (remove_local_route_ok rib m key Hr) as (rib' & d & -> & Hr' & Hrm & _). exists rib'.
    pose proof (rm_size _ _ _ _ Hrm). split_and!; [done|done|apply (rm_max _ _ _ _ Hrm)|lia].
  - destruct (remove_routes_from_peer_ok rib m peer_ip Hr) as (rib' & d & -> & Hr' & Hc & _). exists rib'.
    pose proof (pc_size _ _ _ Hc). split_and!; [done|done|apply (pc_max _ _ _ Hc)|lia].
  - pose proof (mark_ok rib ext peer_ip a (proj1 Hr)) as Hm. eexists. split; [done|]. split; [by eapply mark_repr|].
    destruct Hm as [_ -> -> _]. split; [done|lia].
  - destruct (handle_stale_ok rib ext peer_ip strategy l (proj1 Hr)) as (rib' & d & -> & Hst). exists rib'. split; [done|].
    split; [by eapply stale_repr|]. destruct Hst as [_ ? ? _ _ _ _ _ _]. split; [done|lia].
Qed.

Definition ops_size (ops : list RibOp) : nat := sum_list_with op_size ops.

Lemma run_ops_ok rib m ops :
  rib_repr rib m -> Forall op_ok ops -> room rib (ops_size ops) ->
  exists rib', run_ops rib ops = Some rib' /\
    rib_repr rib' (fold_left (spec_op (lr_max_ls_entries rib)) ops m) /\
    lr_max_ls_entries rib' = lr_max_ls_entries rib /\
    (size (alloc_ids (lr_path_ids rib')) <= size (alloc_ids (lr_path_ids rib)) + ops_size ops)%nat.
Proof.
  revert rib m. induction ops as [|op ops IH]; intros rib m Hr Hok Hroom.
  { exists rib. split_and!; [done|done|done|cbn; lia]. }
  apply Forall_cons in Hok as [Hop Hok]. unfold room in Hroom. cbn in Hroom.
  destruct (run_op_ok rib m op Hr Hop) as (rib1 & E1 & Hr1 & Hmax & Hsz); [unfold room; lia|].
  destruct (IH rib1 _ Hr1 Hok) as (rib2 & E2 & Hr2 & Hmax2 & Hsz2);
    [unfold room; unfold ops_size in *; lia|].
  exists rib2. cbn [run_ops fold_left]. rewrite E1. cbn [mbind option_bind].
  rewrite Hmax in Hr2. split_and!; [done|done|congruence|unfold ops_size in *; cbn; lia].
Qed.

Lemma run_ops_sorted G rib m ops rib' :
  (forall p q : Path, G (attrs p) -> G (attrs q) ->
    neighboring_as p = neighboring_as q \/ default 0 (pa_med (attrs p)) = default 0 (pa_med (attrs q))) ->
  (forall p : Path, G (attrs p) -> G (attrs (llgr_tag p))) ->
  rib_repr rib m -> Forall op_ok ops -> room rib (ops_size ops) -> Forall (op_attrs G) ops ->
  rib_sorted G rib -> run_ops rib ops = Some rib' -> rib_sorted G rib'.
Proof.
  intros HG HT. revert rib m. induction ops as [|op ops IH]; intros rib m Hr Hok Hroom Ha Hs E; [by injection E as <-|].
  apply Forall_cons in Hok as [Hop Hok]. apply Forall_cons in Ha as [Hopa Ha].
  unfold room in Hroom. cbn in Hroom.
  destruct (run_op_ok rib m op Hr Hop) as (rib1 & E1 & Hr1 & Hmax & Hsz); [unfold room; lia|].
  cbn [run_ops] in E. rewrite E1 in E. cbn [mbind option_bind] in E.
  apply (IH rib1 _ Hr1 Hok); [unfold room; unfold ops_size in *; lia|done| |done].
  apply (writes_sorted G HG HT rib); [|done]. eapply run_op_writes; [exact Hr|exact Hop| |exact Hopa|exact E1].
  unfold room; lia.
Qed.

(** Comparable attributes: the run is the same with any sort. *)
Lemma run_ops_any G (S : SortBy) rib m ops :
  (forall p q : Path, G (attrs p) -> G (attrs q) ->
    neighboring_as p = neighboring_as q \/ default 0 (pa_med (attrs p)) = default 0 (pa_med (attrs q))) ->
  (forall p : Path, G (attrs p) -> G (attrs (llgr_tag p))) ->
  rib_repr rib m -> Forall op_ok ops -> room rib (ops_size ops) -> Forall (op_attrs G) ops ->
  rib_sorted G rib -> @run_ops A _ S rib ops = @run_ops A _ Sorts rib ops.
Proof.
  intros HG HT. revert rib m. induction ops as [|op ops IH]; intros rib m Hr Hok Hroom Ha Hs; [done|].
  apply Forall_cons in Hok as [Hop Hok]. apply Forall_cons in Ha as [Hopa Ha].
  unfold room in Hroom. cbn in Hroom.
  destruct (run_op_ok rib m op Hr Hop) as (rib1 & E1 & Hr1 & Hmax & Hsz); [unfold room; lia|].
  cbn [run_ops]. rewrite (run_op_any G HG HT S rib m), E1 by (done || (unfold room; lia)). cbn [mbind option_bind].
  apply (IH rib1 _ Hr1 Hok); [unfold room; unfold ops_size in *; lia|done|].
  apply (writes_sorted G HG HT rib); [|done]. eapply run_op_writes; [exact Hr|exact Hop| |exact Hopa|exact E1].
  unfold room; lia.
Qed.
End ops.

(** ** Runs with a sort that may panic *)
Lemma run_op_le `{PathIdAllocator A} {S1 S2 : SortBy} (rib : LocRib A) op :
  sort_le S1 S2 -> opt_le (@run_op A _ S1 rib op) (@run_op A _ S2 rib op).
Proof.
  intros Hle. destruct op; cbn [run_op]; try apply opt_le_refl; (apply opt_le_bind; [|intros [??]; apply opt_le_refl]).
  - by apply apply_peer_update_le.
  - by apply add_local_route_le.
  - by apply handle_stale_le.
Qed.

Lemma run_ops_le `{PathIdAllocator A} {S1 S2 : SortBy} ops : forall rib : LocRib A,
  sort_le S1 S2 -> opt_le (@run_ops A _ S1 rib ops) (@run_ops A _ S2 rib ops).
Proof.
  induction ops as [|op ops IH]; intros rib Hle; cbn [run_ops]; [apply opt_le_refl|].
  apply opt_le_bind; [by apply run_op_le|]. intros rib1. by apply IH.
Qed.

(** A class of attributes, closed under the LLGR tag. *)
Definition tagged_class (G : PathAttrs -> Prop) (a : PathAttrs) : Prop :=
  G a \/ exists p, G (attrs p) /\ a = attrs (llgr_tag p).

Lemma tagged_as p : neighboring_as (llgr_tag p) = neighboring_as p.
Proof. unfold llgr_tag. by case_bool_decide. Qed.
Lemma tagged_med p : pa_med (attrs (llgr_tag p)) = pa_med (attrs p).
Proof. unfold llgr_tag. by case_bool_decide. Qed.

Lemma tagged_twice p q : attrs q = attrs (llgr_tag p) -> attrs (llgr_tag q) = attrs q.
Proof.
  intros E. unfold llgr_tag at 1. rewrite bool_decide_true; [done|]. rewrite E.
  unfold llgr_tag. case_bool_decide; [done|]. cbn. apply elem_of_app. right. by left.
Qed.

Lemma tagged_class_tag G p : tagged_class G (attrs p) -> tagged_class G (attrs (llgr_tag p)).
Proof. intros [HG|(q & HG & E)]; [right; by exists p|]. rewrite (tagged_twice q p E), E. right. by exists q. Qed.

Lemma tagged_class_comparable G :
  (forall p q : Path, G (attrs p) -> G (attrs q) ->
    neighboring_as p = neighboring_as q \/ default 0 (pa_med (attrs p)) = default 0 (pa_med (attrs q))) ->
  forall p q : Path, tagged_class G (attrs p) -> tagged_class G (attrs q) ->
    neighboring_as p = neighboring_as q \/ default 0 (pa_med (attrs p)) = default 0 (pa_med (attrs q)).
Proof.
  intros HG. assert (forall p, tagged_class G (attrs p) ->
    exists q, G (attrs q) /\ neighboring_as p = neighboring_as q /\ pa_med (attrs p) = pa_med (attrs q)) as Hback.
  { intros p [Hp|(q & Hq & E)]; [by exists p|]. exists q. split; [done|].
    rewrite <- (tagged_as q), <- (tagged_med q). unfold neighboring_as. by rewrite E. }
  intros p q (p' & Hp & -> & ->)%Hback (q' & Hq & -> & ->)%Hback. by apply HG.
Qed.

Lemma accepted_weaken (G G' : PathAttrs -> Prop) policy pending :
  (forall a, G a -> G' a) -> Forall (accepted_in G policy) pending -> Forall (accepted_in G' policy) pending.
Proof.
  intros HG Ha. apply (Forall_impl _ _ _ Ha). intros [r|w]; cbn; [|done].
  destruct (policy _ _) as [? ?]. auto.
Qed.

Lemma op_attrs_weaken (G G' : PathAttrs -> Prop) op : (forall a, G a -> G' a) -> op_attrs G op -> op_attrs G' op.
Proof.
  intros HG. destruct op as [ext peer_ip pending policy|ext key a|key|peer_ip|ext peer_ip a|ext peer_ip l strategy];
    cbn [op_attrs]; [by apply accepted_weaken|by apply HG|done..].
Qed.

(** * What the Loc-RIB promises

    The theorems on [LocRib::new] and any sequence of calls: the table is the
    specification's map, path identifiers are unique, the first path of a
    route is a best one, and the deltas name every key whose best path
    changed.  Then the cases in which it promises less than it seems to. *)

Lemma get_route_new max key : get_route (loc_rib_new max) key = None.
Proof. by destruct key as [[]|]. Qed.

Lemma routes_inv_empty next (rt : RouteKey -> option Route) :
  (forall key, rt key = None) -> routes_inv ∅ next rt.
Proof.
  intros E. split; unfold unique_labels; setoid_rewrite E; cbn.
  - done.
  - constructor.
  - intros key p Hin. by apply not_elem_of_nil in Hin.
  - split; [constructor|]. intros x key key' Hin. by apply not_elem_of_nil in Hin.
  - intros id. split; [by intros Hin; apply elem_of_empty in Hin|].
    intros [key Hin]. by apply not_elem_of_nil in Hin.
  - split; [constructor|]. intros x key key' Hin. by apply not_elem_of_nil in Hin.
  - intros key p Hin. by apply not_elem_of_nil in Hin.
Qed.

Lemma loc_rib_new_repr max : rib_repr (loc_rib_new max) ∅.
Proof.
  split.
  - split_and!; [split; apply pm_safe_new|apply bitmap_new_ok|].
    apply routes_inv_empty, get_route_new.
  - intros key i. unfold old_paths. by rewrite get_route_new, lookup_empty.
Qed.

Lemma alloc_ids_new max : alloc_ids (lr_path_ids (loc_rib_new max)) = ∅.
Proof. apply bitmap_new_ok. Qed.

Lemma room_new max n : Z.of_nat n < 2 ^ 32 -> room (loc_rib_new max) n.
Proof. intros. unfold room. rewrite alloc_ids_new, size_empty. lia. Qed.

(** Well-formed keys, and fewer announcements than there are identifiers. *)
Definition ops_fit (ops : list RibOp) : Prop :=
  Forall op_ok ops /\ Z.of_nat (ops_size ops) < 2 ^ 32.

(** The table [ops] lead to from the empty one. *)
Definition reaches `{SortBy} (max : Z) (ops : list RibOp) (rib : LocRib BitmapPathIdAllocator) : Prop :=
  ops_fit ops /\ run_ops (loc_rib_new max) ops = Some rib.

(** Any run from the empty table, with any sort [S]. *)
Section from_new.
Context {S : SortBy} (max : Z) (ops : list RibOp).

Lemma run_from_new rib :
  reaches max ops rib ->
  rib_repr rib (spec_ops max ops) /\ lr_max_ls_entries rib = max /\
  (size (alloc_ids (lr_path_ids rib)) <= ops_size ops)%nat.
Proof.
  intros [[Hok Hs] E]. apply (run_ops_le _ _ (sort_le_returning S)) in E.
  destruct (@run_ops_ok _ _ _ _ (returning_returns S) _ _ ops (loc_rib_new_repr max) Hok (room_new max _ Hs))
    as (rib' & E' & Hr & Hmax & Hsz). rewrite E in E'. injection E' as <-. split_and!; [done|done|].
  by rewrite alloc_ids_new, size_empty in Hsz.
Qed.

Lemma returns_from_new : ops_fit ops -> @SortReturns S -> is_Some (run_ops (loc_rib_new max) ops).
Proof.
  intros [Hok Hs] Hret.
  destruct (run_ops_ok _ _ ops (loc_rib_new_repr max) Hok (room_new max _ Hs)) as (rib & E & _). by exists rib.
Qed.

(** A class of attributes with comparable MEDs. *)
Definition comparable_meds (G : PathAttrs -> Prop) : Prop := forall p q : Path, G (attrs p) -> G (attrs q) ->
  neighboring_as p = neighboring_as q \/ default 0 (pa_med (attrs p)) = default 0 (pa_med (attrs q)).

Lemma new_sorted G : rib_sorted G (loc_rib_new max).
Proof. intros [[]|]; split; constructor. Qed.

Lemma tagged_ops G : Forall (op_attrs G) ops -> Forall (op_attrs (tagged_class G)) ops.
Proof. intros Ha. apply (Forall_impl _ _ _ Ha). intros op. apply op_attrs_weaken. by left. Qed.

Lemma comparable_from_new G :
  ops_fit ops -> comparable_meds G -> Forall (op_attrs G) ops -> is_Some (run_ops (loc_rib_new max) ops).
Proof.
  intros [Hok Hs] HG Ha.
  rewrite (@run_ops_any _ _ _ _ (returning_returns S) (tagged_class G) S _ _ ops (tagged_class_comparable G HG) (tagged_class_tag G)
    (loc_rib_new_repr max) Hok (room_new max _ Hs) (tagged_ops G Ha) (new_sorted _)).
  destruct (@run_ops_ok _ _ _ _ (returning_returns S) _ _ ops (loc_rib_new_repr max) Hok (room_new max _ Hs)) as (rib & E & _).
  by exists rib.
Qed.

Lemma sorted_from_new G rib :
  comparable_meds G -> reaches max ops rib -> Forall (op_attrs G) ops -> rib_sorted (tagged_class G) rib.
Proof.
  intros HG [[Hok Hs] E] Ha. apply (run_ops_le _ _ (sort_le_returning S)) in E.
  eapply (@run_ops_sorted _ _ _ _ (returning_returns S) (tagged_class G)); [by apply tagged_class_comparable|apply tagged_class_tag|
    apply (loc_rib_new_repr max)|exact Hok|by apply room_new|by apply tagged_ops|apply new_sorted|exact E].
Qed.
End from_new.

(** What a delta promises, for keys that cannot be refused. *)
Lemma delta_facts max (rib rib' : LocRib BitmapPathIdAllocator) (pending : list PendingRoute) d silent :
  lr_max_ls_entries rib = max ->
  delta_ok rib rib' (elements (list_to_set (map pending_route_key pending) : gset RouteKey)) d silent ->
  (forall key, silent key -> refusable (lr_max_ls_entries rib) key) ->
  (forall key, key ∈ changed d -> key ∈ map pending_route_key pending) /\
  forall key, ~ (0 < max /\ exists n, key = KLinkState n) ->
    (key ∈ map pending_route_key pending -> key ∈ changed d) /\
    (get_best_path rib' key <> get_best_path rib key -> key ∈ best_changed d).
Proof.
  intros Hmax [Hc _ Hcompl Hbest] Hsil.
  assert (forall key, key ∈ elements (list_to_set (map pending_route_key pending) : gset RouteKey) <->
    key ∈ map pending_route_key pending) as Hk by (intros; by rewrite elem_of_elements, elem_of_list_to_set).
  split; [intros key Hin; by apply Hk, Hc|]. intros key Hn.
  assert (~ silent key) as Hns by (intros Hx; apply Hn; destruct (Hsil key Hx) as [? ?]; rewrite Hmax in *; tauto).
  split; [intros Hin; by apply Hcompl; [apply Hk|]|]. intros Hne. by apply Hbest.
Qed.

(** ** Properties *)

(** C2.  With fewer than 2^32 announcements, every sequence of peer updates,
    local additions and removals, peer losses and the passes of graceful
    restart (marking, sweeping, the LLGR transition) that returns leaves in
    the table exactly what the specification's map holds: under each key one
    path per source and remote path identifier, with the attributes last
    announced or tagged.  It returns when the sort of a route's paths does;
    and, whatever that sort does on a comparison that is no order, when the
    MEDs of the accepted attributes are comparable. *)
Theorem loc_rib_refines_map `{SortBy} (max : Z) (ops : list RibOp) :
  ops_fit ops ->
  (forall rib, run_ops (loc_rib_new max) ops = Some rib ->
    (forall key, NoDup (map ident (get_all_paths rib key))) /\
    forall key i p, spec_ops max ops !! (key, i) = Some p <->
      exists q, q ∈ get_all_paths rib key /\ ident q = i /\ strip (ref_path q) = p) /\
  (SortReturns -> is_Some (run_ops (loc_rib_new max) ops)) /\
  (forall G, comparable_meds G -> Forall (op_attrs G) ops -> is_Some (run_ops (loc_rib_new max) ops)).
Proof.
  intros Hfit. split_and!; [|by apply returns_from_new|intros G; by apply comparable_from_new].
  intros rib E. destruct (run_from_new max ops rib) as (Hr & _); [by split|]. split.
  - intros key. by apply rib_ident, Hr.
  - intros key i p. by apply rib_repr_elem.
Qed.

(** C17.  In every reachable table each path has a local identifier, no two
    paths of the whole table share one, and the identifiers in use are
    exactly those the allocator has marked as taken. *)
Theorem loc_rib_path_ids_unique `{SortBy} (max : Z) (ops : list RibOp) (rib : LocRib BitmapPathIdAllocator) :
  reaches max ops rib ->
  (forall key p, p ∈ get_all_paths rib key -> exists id, local_path_id (ref_path p) = Some id /\ u32 id) /\
  (forall key key' p p', p ∈ get_all_paths rib key -> p' ∈ get_all_paths rib key' ->
    local_path_id (ref_path p) = local_path_id (ref_path p') -> key = key' /\ p = p') /\
  forall id, id ∈ bitmap_ids (lr_path_ids rib) <->
    exists key p, p ∈ get_all_paths rib key /\ local_path_id (ref_path p) = Some id.
Proof.
  intros E. destruct (run_from_new max ops rib E) as [[(_ & _ & Hri) _] _].
  destruct Hri as [_ _ Hl [Hnd Hu] Hids _ _]. split_and!; [exact Hl| |].
  - intros key key' p p' Hp Hp' Heq. destruct (Hl key p Hp) as (id & Hid & _).
    assert (key = key') as <-.
    { apply (Hu id); apply elem_of_omap_local; [by exists p|exists p'; split; [done|]].
      unfold local_id in *. congruence. }
    split; [done|]. apply (NoDup_omap_local _ p p' (Hnd key) Hp Hp'); [by exists id|exact Heq].
  - intros id. rewrite (Hids id). by setoid_rewrite elem_of_omap_local.
Qed.

(** C18.  When the attributes that were accepted are comparable (one
    neighbouring AS, or one MED), the best path of every route of every
    reachable table is one that no other path of the route beats. *)
Theorem loc_rib_best_is_best `{SortBy} (max : Z) (ops : list RibOp) (rib : LocRib BitmapPathIdAllocator)
    (G : PathAttrs -> Prop) :
  (forall p q : Path, G (attrs p) -> G (attrs q) ->
    neighboring_as p = neighboring_as q \/ default 0 (pa_med (attrs p)) = default 0 (pa_med (attrs q))) ->
  reaches max ops rib -> Forall (op_attrs G) ops ->
  forall key best, get_best_path rib key = Some best ->
    best ∈ get_all_paths rib key /\
    forall p, p ∈ get_all_paths rib key -> best_path_cmp (ref_path p) (ref_path best) <> Gt.
Proof.
  intros HG E Ha key best Hb. split; [by apply best_elem|].
  destruct (sorted_from_new max ops G rib HG E Ha key) as [_ Hss]. unfold old_paths, get_best_path, get_all_paths in *.
  destruct (get_route rib key) as [r|]; [|done]. cbn [opt_paths mbind option_bind] in *.
  destruct (paths r) as [|b rest]; [done|]. injection Hb as ->. by apply (sorted_head_best _ best rest).
Qed.

(** C19.  The delta of a peer update, on a table reached with fewer than 2^32
    announcements, is complete when the update returns: outside link-state
    keys under an entry limit, [changed] is the set of keys of the update and
    every key whose best path is another one afterwards is in [best_changed];
    a link-state key under an entry limit is in [changed] only if it is a key
    of the update.  The update returns when the sort of a route's paths does,
    and whenever the MEDs of the accepted attributes are comparable. *)
Theorem peer_update_delta_complete `{SortBy} (max : Z) (ops : list RibOp) (rib : LocRib BitmapPathIdAllocator)
    (ext : gset Z) (peer_ip : IpAddr) (pending : list PendingRoute)
    (policy : RouteKey -> Path -> bool * Path) :
  reaches max ops rib -> Forall pending_ok pending ->
  Z.of_nat (ops_size ops + length pending) < 2 ^ 32 ->
  (forall rib' d, apply_peer_update rib ext peer_ip pending policy = Some (rib', d) ->
    (forall key, key ∈ changed d -> key ∈ map pending_route_key pending) /\
    forall key, ~ (0 < max /\ exists n, key = KLinkState n) ->
      (key ∈ map pending_route_key pending -> key ∈ changed d) /\
      (get_best_path rib' key <> get_best_path rib key -> key ∈ best_changed d)) /\
  (SortReturns -> is_Some (apply_peer_update rib ext peer_ip pending policy)) /\
  (forall G, comparable_meds G -> Forall (op_attrs G) ops -> Forall (accepted_in G policy) pending ->
    is_Some (apply_peer_update rib ext peer_ip pending policy)).
Proof.
  intros E Hp Hs. destruct (run_from_new max ops rib E) as (Hr & Hmax & Hsz).
  assert (room rib (length pending)) as Hroom by (unfold room; lia).
  destruct (@apply_peer_update_ok _ _ _ _ (returning_returns _) rib _ ext peer_ip pending policy Hr Hp Hroom) as
    (rib1 & d1 & silent & E1 & _ & _ & _ & Hd & Hsil).
  split_and!.
  - intros rib' d E'. apply (apply_peer_update_le (sort_le_returning _)) in E'. rewrite E1 in E'. injection E' as <- <-.
    by apply (delta_facts max rib rib1 pending d1 silent).
  - intros Hret. destruct (apply_peer_update_ok rib _ ext peer_ip pending policy Hr Hp Hroom) as (rib' & d & ? & E' & _).
    by eexists.
  - intros G HG Ha Hacc.
    erewrite (@apply_peer_update_any _ _ _ _ (returning_returns _) (tagged_class G) (tagged_class_comparable G HG)
      (tagged_class_tag G)); [by eexists|exact Hr|done|done| |by apply (sorted_from_new max ops)].
    apply (accepted_weaken G); [by left|done].
Qed.

(**  Losing a peer reports exactly the keys that had a path of the peer,
    and among them exactly those whose best path is another one afterwards;
    no path of the peer is left and all others are kept. *)
Theorem peer_down_exact `{SortBy} (max : Z) (ops : list RibOp) (rib : LocRib BitmapPathIdAllocator) (peer_ip : IpAddr) :
  reaches max ops rib ->
  exists rib' d, remove_routes_from_peer rib peer_ip = Some (rib', d) /\
    (forall key, get_all_paths rib' key =
       filter (fun p => is_from_peer (ref_path p) peer_ip = false) (get_all_paths rib key)) /\
    (forall key, key ∈ changed d <->
       exists p, p ∈ get_all_paths rib key /\ is_from_peer (ref_path p) peer_ip = true) /\
    (forall key, key ∈ best_changed d <-> get_best_path rib' key <> get_best_path rib key).
Proof.
  intros E. destruct (run_from_new max ops rib E) as (Hr & _).
  destruct (remove_routes_from_peer_ok rib _ peer_ip Hr) as (rib' & d & E' & _ & Hc & H1 & H2).
  exists rib', d. split_and!; [done| |done|done]. intros key.
  change (opt_paths (get_route rib' key) = kept_paths (fun p => is_from_peer p peer_ip) (opt_paths (get_route rib key))).
  by rewrite (pc_route _ _ _ Hc), drop_route_paths.
Qed.

(** ** Witnesses *)
Definition demo_net : RouteKey := KPrefix (V4 (mkV4 (10 * 2 ^ 24) 8)).
Definition demo_node (n : Z) : RouteKey := KLinkState (mkLsNlri 1 [n] None None).
Definition accept_all (_ : RouteKey) (p : Path) : bool * Path := (true, p).
Definition announce (key : RouteKey) (p : Path) : PendingRoute := Announce (mkRoutePath key (mkRef (-1) p)).

(** A local route, two peers that announce it, and one of them withdrawing. *)
Definition demo_ops : list RibOp :=
  [ OpAddLocal ∅ demo_net (demo_attrs [] None 1);
    OpPeerUpdate ∅ (IpV4 7) [announce demo_net (demo_path [65001; 65002] None 7)] accept_all;
    OpPeerUpdate ∅ (IpV4 8) [announce demo_net (demo_path [65003] None 8); announce (demo_node 1) (demo_path [65003] None 8)] accept_all;
    OpPeerUpdate ∅ (IpV4 7) [Withdraw (demo_net, None)] accept_all;
    OpPeerUpdate ∅ (IpV4 7) [announce demo_net (demo_path [65001] None 7)] accept_all ].
#[local] Instance demo_sort : SortBy := insertion_sorts.
Definition demo_rib : LocRib BitmapPathIdAllocator :=
  default (loc_rib_new 0) (run_ops (loc_rib_new 0) demo_ops).

Lemma demo_ops_ok : Forall op_ok demo_ops.
Proof. repeat constructor; vm_compute; intuition discriminate. Qed.
Lemma demo_ops_run : run_ops (loc_rib_new 0) demo_ops = Some demo_rib.
Proof. vm_compute. reflexivity. Qed.
Lemma demo_reaches : reaches 0 demo_ops demo_rib.
Proof. split; [split; [apply demo_ops_ok|by vm_compute]|apply demo_ops_run]. Qed.
Example demo_rib_paths :
  map (fun p => (path_ident (ref_path p), local_path_id (ref_path p))) (get_all_paths demo_rib demo_net) =
    [((Local, None), Some 1); ((Ebgp (IpV4 7) 7, None), Some 2); ((Ebgp (IpV4 8) 8, None), Some 3)].
Proof. vm_compute. reflexivity. Qed.

Lemma demo_comparable : comparable_meds (fun a => pa_med a = None).
Proof. intros p q Hp Hq. right. by rewrite Hp, Hq. Qed.

Lemma loc_rib_refines_map_witness :
  is_Some (run_ops (loc_rib_new 0) demo_ops) /\
  forall rib, run_ops (loc_rib_new 0) demo_ops = Some rib ->
    (forall key, NoDup (map ident (get_all_paths rib key))) /\
    forall key i p, spec_ops 0 demo_ops !! (key, i) = Some p <->
      exists q, q ∈ get_all_paths rib key /\ ident q = i /\ strip (ref_path q) = p.
Proof.
  destruct (loc_rib_refines_map 0 demo_ops) as (H1 & _ & H2); [apply demo_reaches|]. split; [|exact H1].
  apply (H2 (fun a => pa_med a = None)); [apply demo_comparable|repeat constructor].
Defined.

Lemma loc_rib_path_ids_unique_witness :
  (forall key p, p ∈ get_all_paths demo_rib key -> exists id, local_path_id (ref_path p) = Some id /\ u32 id) /\
  (forall key key' p p', p ∈ get_all_paths demo_rib key -> p' ∈ get_all_paths demo_rib key' ->
    local_path_id (ref_path p) = local_path_id (ref_path p') -> key = key' /\ p = p') /\
  forall id, id ∈ bitmap_ids (lr_path_ids demo_rib) <->
    exists key p, p ∈ get_all_paths demo_rib key /\ local_path_id (ref_path p) = Some id.
Proof.
  apply (loc_rib_path_ids_unique 0 demo_ops demo_rib demo_reaches).
Defined.

Lemma loc_rib_best_is_best_witness :
  length (get_all_paths demo_rib demo_net) = 3%nat /\
  forall key best, get_best_path demo_rib key = Some best ->
    best ∈ get_all_paths demo_rib key /\
    forall p, p ∈ get_all_paths demo_rib key -> best_path_cmp (ref_path p) (ref_path best) <> Gt.
Proof.
  split; [vm_compute; reflexivity|].
  apply (loc_rib_best_is_best 0 demo_ops demo_rib (fun a => pa_med a = None)).
  - apply demo_comparable.
  - apply demo_reaches.
  - repeat constructor.
Defined.

Lemma peer_update_delta_complete_witness :
  is_Some (apply_peer_update demo_rib ∅ (IpV4 7) [Withdraw (demo_net, None)] accept_all) /\
  forall rib' d, apply_peer_update demo_rib ∅ (IpV4 7) [Withdraw (demo_net, None)] accept_all = Some (rib', d) ->
    (forall key, key ∈ changed d -> key ∈ [demo_net]) /\
    forall key, ~ (0 < 0 /\ exists n, key = KLinkState n) ->
      (key ∈ [demo_net] -> key ∈ changed d) /\
      (get_best_path rib' key <> get_best_path demo_rib key -> key ∈ best_changed d).
Proof.
  destruct (peer_update_delta_complete 0 demo_ops demo_rib ∅ (IpV4 7) [Withdraw (demo_net, None)] accept_all)
    as (H1 & _ & H2).
  - apply demo_reaches.
  - repeat constructor; vm_compute; intuition discriminate.
  - by vm_compute.
  - split; [|exact H1]. apply (H2 (fun a => pa_med a = None)); [apply demo_comparable|repeat constructor..].
Defined.

Lemma peer_down_exact_witness :
  exists rib' d, remove_routes_from_peer demo_rib (IpV4 7) = Some (rib', d) /\
    (forall key, get_all_paths rib' key =
       filter (fun p => is_from_peer (ref_path p) (IpV4 7) = false) (get_all_paths demo_rib key)) /\
    (forall key, key ∈ changed d <->
       exists p, p ∈ get_all_paths demo_rib key /\ is_from_peer (ref_path p) (IpV4 7) = true) /\
    (forall key, key ∈ best_changed d <-> get_best_path rib' key <> get_best_path demo_rib key).
Proof.
  apply (peer_down_exact 0 demo_ops demo_rib (IpV4 7) demo_reaches).
Defined.

(** ** Limits of the deltas and of the order *)

(** Under an entry limit a key that one announcement of the batch refused
    is left out of the delta, even when the batch changed it: with room for
    one link-state entry, withdrawing [K], announcing [L] and announcing [K]
    again removes [K] from the table and reports [L] alone. *)
Theorem rejected_key_not_reported :
  let p := demo_path [65001] None 7 in
  (rib ← run_ops (loc_rib_new 1) [OpPeerUpdate ∅ (IpV4 7) [announce (demo_node 1) p] accept_all];
   '(rib', d) ← apply_peer_update rib ∅ (IpV4 7)
     [Withdraw (demo_node 1, None); announce (demo_node 2) p; announce (demo_node 1) p] accept_all;
   Some (has_route rib (demo_node 1), has_route rib' (demo_node 1), changed d, best_changed d))
  = Some (true, false, [demo_node 2], [demo_node 2]).
Proof. vm_compute. reflexivity. Qed.

(** Removing a path does not sort the route again: with MEDs of several
    neighbouring ASes the best path after a withdrawal can be one that
    another path of the route beats. *)
Theorem withdrawal_leaves_beaten_best :
  let x := demo_path [1; 9] (Some 0) 3 in
  let y := demo_path [2; 9] (Some 0) 2 in
  let z := demo_path [1; 9] (Some 10) 1 in
  let ops := [ OpPeerUpdate ∅ (IpV4 2) [announce demo_net y] accept_all;
               OpPeerUpdate ∅ (IpV4 1) [announce demo_net z] accept_all;
               OpPeerUpdate ∅ (IpV4 3) [announce demo_net x] accept_all;
               OpPeerUpdate ∅ (IpV4 2) [Withdraw (demo_net, None)] accept_all ] in
  (rib ← run_ops (loc_rib_new 0) ops;
   best ← get_best_path rib demo_net;
   Some (path_ident (ref_path best),
     map (fun p => (path_ident (ref_path p), best_path_cmp (ref_path p) (ref_path best)))
       (get_all_paths rib demo_net)))
  = Some ((Ebgp (IpV4 1) 1, None), [((Ebgp (IpV4 1) 1, None), Eq); ((Ebgp (IpV4 3) 3, None), Gt)]).
Proof. vm_compute. reflexivity. Qed.

(** The comparison has a cycle on the same three paths, so the standard
    library may panic when the third is stored: [strict_sorts] does. *)
Theorem cyclic_meds_may_panic :
  let x := demo_path [1; 9] (Some 0) 3 in
  let y := demo_path [2; 9] (Some 0) 2 in
  let z := demo_path [1; 9] (Some 10) 1 in
  let ops := [ OpPeerUpdate ∅ (IpV4 2) [announce demo_net y] accept_all;
               OpPeerUpdate ∅ (IpV4 1) [announce demo_net z] accept_all;
               OpPeerUpdate ∅ (IpV4 3) [announce demo_net x] accept_all ] in
  ops_fit ops /\
  is_Some (@run_ops _ _ strict_sorts (loc_rib_new 0) (take 2 ops)) /\
  @run_ops _ _ strict_sorts (loc_rib_new 0) ops = None.
Proof.
  split; [split; [repeat constructor; vm_compute; intuition discriminate|by vm_compute]|].
  split; [by eexists; vm_compute|by vm_compute].
Qed.
