(* ===== verification/Propagate.v ===== *)
(** * The Adj-RIB-Out after a change

    What [propagate_routes_to_peer] makes of the Adj-RIB-Out, in terms of the
    map it represents: under the keys of the delta exactly the paths selected
    for export from the Loc-RIB as it is now, elsewhere what was there. *)
From S2P Require Import Prelude Wire Net Trie TrieSpec PrefixMap Vrp PathId Notification Nlri BgpLs BgpLsParse Attrs BgpLsAttr Text OpenMsg Msg Path UpdateCodec UpdateCodecSpec Update ExtComm PeerCaps Policy Fsm RibTables LocRib Outgoing LocRibInv LocRibSpec LocRibPeer LocRibStale LocRibOps.

(** The map an Adj-RIB-Out represents. *)
Abbreviation OutMap := (gmap (RouteKey * Z) PathRef).

Implicit Types (ctx : PeerExportContext) (key : RouteKey) (m : OutMap).

(** A list of routes holds the identifier. *)
Definition holds_id (l : list RoutePath) (id : Z) : Prop :=
  exists r, r ∈ l /\ local_path_id (ref_path (rp_path r)) = Some id.

#[export] Instance holds_id_dec l id : Decision (holds_id l id).
Proof.
  refine (cast_if (decide (Exists (fun r => local_path_id (ref_path (rp_path r)) = Some id) l)));
    rewrite Exists_exists in *; done.
Defined.

(** Every table without empty entries represents a map. *)
Lemma ao_repr_exists out : ao_inv out -> exists m, ao_repr out m.
Proof.
  intros Hinv.
  pose (l := concat (map (fun kv => map (fun ip => ((kv.1, ip.1), ip.2)) (map_to_list kv.2)) (ft_iter out None))).
  assert (forall key id p, ((key, id), p) ∈ l <-> ao_path out key id = Some p) as Hl.
  { intros key id p. unfold l, ao_path. rewrite list_elem_of_In, in_concat. setoid_rewrite <- list_elem_of_In. split.
    - intros (x & ([key' old] & -> & [_ Hkv]%elem_of_ft_iter)%list_elem_of_fmap & ([id' p'] & [= -> -> ->] & Hin%elem_of_map_to_list)%list_elem_of_fmap).
      cbn in Hkv, Hin. by rewrite Hkv.
    - destruct (ft_get out key) as [old|] eqn:Eo; [|done]. cbn. intros Hp. eexists. split.
      + apply list_elem_of_fmap. exists (key, old). split; [done|].
        apply (elem_of_ft_iter out None key old). split; [by destruct key as [[]|]|done].
      + apply list_elem_of_fmap. exists (id, p). split; [done|]. by apply elem_of_map_to_list. }
  exists (list_to_map l). split; [done|]. intros key id. apply option_eq. intros p. rewrite <- Hl. split.
  - intros Hin. apply elem_of_list_to_map'; [|done]. intros q _ Hq. rewrite Hl in Hin, Hq. rewrite Hin in Hq. by injection Hq.
  - apply elem_of_list_to_map_2.
Qed.

(** A path is filed under its own identifier. *)
Lemma ao_own out m key id p : ao_repr out m -> m !! (key, id) = Some p -> local_path_id (ref_path p) = Some id.
Proof.
  intros [Hinv Hm] Hp. rewrite <- Hm in Hp. unfold ao_path in Hp.
  destruct (ft_get out key) as [old|] eqn:Eo; [|done]. by eapply (Hinv _ _ Eo).
Qed.

Lemma stale_elem out m key active p :
  ao_repr out m -> p ∈ ao_stale_paths out key active <->
  exists id, m !! (key, id) = Some p /\ ~ holds_id active id.
Proof.
  intros Hr. rewrite (ao_stale_elem out m) by done. split; intros (id & Hid & Hn); exists id; (split; [done|]).
  - intros (rp & Hrp & Hx). by apply (Hn rp).
  - intros rp Hrp Hx. apply Hn. by exists rp.
Qed.

(** ** Removing the stale paths of a key *)
Lemma remove_all_ok key l : forall rib m, ao_repr rib m ->
  exists m', ao_repr (foldl (remove_stale key) rib l) m' /\
    forall k id p, m' !! (k, id) = Some p <->
      m !! (k, id) = Some p /\ ~ (k = key /\ exists q, q ∈ l /\ local_path_id (ref_path q) = Some id).
Proof.
  induction l as [|x l IH]; intros rib m Hr.
  { exists m. split; [done|]. intros k id p. split; [|tauto]. intros H. split; [done|].
    by intros (_ & q & ?%not_elem_of_nil & _). }
  cbn [foldl]. unfold remove_stale at 2. destruct (local_path_id (ref_path x)) as [pid|] eqn:Ex.
  - destruct (IH _ _ (ao_remove_ok rib m key pid Hr)) as (m' & Hr' & Hm'). exists m'. split; [done|].
    intros k id p. rewrite Hm'. cbn [ao_spec]. rewrite lookup_delete_Some. setoid_rewrite elem_of_cons. split.
    + intros [[Hne Hp] Hn]. split; [done|]. intros (-> & q & [->|Hq] & Hid); [|by apply Hn; eauto].
      apply Hne. congruence.
    + intros [Hp Hn]. split; [split; [|done]|].
      * intros [= <- <-]. apply Hn. eauto.
      * intros (-> & q & Hq & Hid). apply Hn. eauto.
  - destruct (IH rib m Hr) as (m' & Hr' & Hm'). exists m'. split; [done|].
    intros k id p. rewrite Hm'. setoid_rewrite elem_of_cons. split; intros [Hp Hn]; (split; [done|]).
    + intros (-> & q & [->|Hq] & Hid); [congruence|]. apply Hn. eauto.
    + intros (-> & q & Hq & Hid). apply Hn. eauto.
Qed.

(** After the stale paths of a key are removed, the active ones are left. *)
Lemma remove_stale_ok rib m key active :
  ao_repr rib m ->
  exists m', ao_repr (foldl (remove_stale key) rib (ao_stale_paths rib key active)) m' /\
    forall k id p, m' !! (k, id) = Some p <-> m !! (k, id) = Some p /\ (k = key -> holds_id active id).
Proof.
  intros Hr. destruct (remove_all_ok key (ao_stale_paths rib key active) rib m Hr) as (m' & Hr' & Hm').
  exists m'. split; [done|]. intros k id p. rewrite Hm'. setoid_rewrite (stale_elem rib m); [|done].
  split; intros [Hp Hn]; (split; [done|]).
  - intros ->. apply dec_stable. intros Hna. apply Hn. split; [done|]. exists p.
    split; [by exists id|]. by apply (ao_own rib m key).
  - intros (-> & q & (id' & Hid' & Hna) & Hid). apply Hna. rewrite (ao_own rib m key id' q Hr Hid') in Hid.
    injection Hid as ->. by apply Hn.
Qed.

(** ** Inserting the announcements *)
Lemma insert_all_ok l : forall rib m, ao_repr rib m ->
  (forall r r', r ∈ l -> r' ∈ l -> rp_key r = rp_key r' ->
     local_path_id (ref_path (rp_path r)) = local_path_id (ref_path (rp_path r')) -> rp_path r = rp_path r') ->
  exists m', ao_repr (foldl insert_announcement rib l) m' /\
    forall k id p, m' !! (k, id) = Some p <->
      (exists r, r ∈ l /\ rp_key r = k /\ rp_path r = p /\ local_path_id (ref_path p) = Some id) \/
      (m !! (k, id) = Some p /\ ~ exists r, r ∈ l /\ rp_key r = k /\ local_path_id (ref_path (rp_path r)) = Some id).
Proof.
  induction l as [|x l IH]; intros rib m Hr Hf.
  { exists m. split; [done|]. intros k id p. split; [|by intros [(r & ?%not_elem_of_nil & _)|[? _]]].
    intros H. right. split; [done|]. by intros (r & ?%not_elem_of_nil & _). }
  cbn [foldl]. destruct (IH _ _ (ao_insert_ok rib m (rp_key x) (rp_path x) Hr)) as (m' & Hr' & Hm').
  { intros r r' H1 H2. apply Hf; by right. }
  exists m'. split; [done|]. intros k id p. rewrite Hm'. cbn [ao_spec]. setoid_rewrite elem_of_cons. clear Hm' IH.
  destruct (local_path_id (ref_path (rp_path x))) as [pid|] eqn:Ex.
  - rewrite lookup_insert_Some. split.
    + intros [(r & Hr1 & H2)|[[[[= <- <-] <-]|[Hne Hp]] Hn]]; [left; eauto|left; exists x; split_and!; [by left|done..]|].
      right. split; [done|]. intros (r & [->|Hr1] & Hk & Hid); [apply Hne; congruence|]. apply Hn. eauto.
    + intros [(r & [->|Hr1] & Hk & <- & Hid)|[Hp Hn]].
      * destruct (decide (Exists (fun r => rp_key r = k /\ local_path_id (ref_path (rp_path r)) = Some id) l)) as [Hn|Hn];
          rewrite Exists_exists in Hn; [destruct Hn as (r & Hr1 & Hkr & Hidr)|].
        -- left. exists r. split_and!; [done|done| |done]. apply Hf; [by right|by left|congruence|congruence].
        -- right. split; [|done]. left. split; [congruence|done].
      * left. eauto.
      * right. split; [|intros (r & Hr1 & Hkr & Hidr); apply Hn; eauto]. right. split; [|done].
        intros [= <- <-]. apply Hn. exists x. eauto.
  - split.
    + intros [(r & Hr1 & H2)|[Hp Hn]]; [left; eauto|]. right. split; [done|].
      intros (r & [->|Hr1] & Hk & Hid); [congruence|]. apply Hn. eauto.
    + intros [(r & [->|Hr1] & Hk & <- & Hid)|[Hp Hn]]; [congruence|left; eauto|].
      right. split; [done|]. intros (r & Hr1 & Hk & Hid). apply Hn. eauto.
Qed.

Section propagate.
Context `{HashOrder} {A : Type} `{PathIdLaws A}.
Variable is_match : Str -> Str -> bool.
Variable checks : bool.
Implicit Types (rib : LocRib A) (out : AdjRibOut).

Definition out_id (r : RoutePath) : option Z := local_path_id (ref_path (rp_path r)).

(** ** The paths selected for a key *)
Lemma select_elem key ap rib ctx sel r :
  select_paths_for_export is_match checks key ap rib ctx = Some sel -> r ∈ sel ->
  exists p e, p ∈ get_all_paths rib key /\
    compute_export_path is_match checks key (ref_path p) ctx = Some (Some e) /\ r = mkRoutePath key (arc_new e).
Proof.
  assert (forall l sel, compute_routes_for_peer is_match checks (map (mkRoutePath key) l) ctx = Some sel -> r ∈ sel ->
    exists p e, p ∈ l /\ compute_export_path is_match checks key (ref_path p) ctx = Some (Some e) /\
      r = mkRoutePath key (arc_new e)) as Hc.
  { intros l s E Hr. apply (try_filter_map_elem _ _ _ E) in Hr as (x & (p & -> & Hp)%list_elem_of_fmap & Ex).
    unfold export_route_path in Ex. cbn [rp_key rp_path] in Ex. exists p.
    destruct (compute_export_path _ _ key (ref_path p) ctx) as [[e|]|]; [|done..]. injection Ex as <-. by exists e. }
  unfold select_paths_for_export. destruct ap; [apply Hc|]. destruct (ctx_rs_client ctx).
  - generalize (get_all_paths rib key) as l. induction l as [|p l IH]; cbn [first_exported].
    + by intros [= <-] ?%not_elem_of_nil.
    + destruct (compute_export_path _ _ key (ref_path p) ctx) as [[e|]|] eqn:E; [| |done].
      * intros [= <-] ->%list_elem_of_singleton. exists p, e. split; [by left|done].
      * intros Es Hr. destruct (IH Es Hr) as (q & e & Hq & Hx). exists q, e. split; [by right|done].
  - intros E Hr. destruct (Hc _ _ E Hr) as (p & e & Hp & Hx). exists p, e. split; [|done].
    unfold get_best_path, get_all_paths in *. destruct (get_route rib key) as [rt|]; cbn in *; [|by apply not_elem_of_nil in Hp].
    destruct (paths rt); cbn in Hp; [by apply not_elem_of_nil in Hp|]. apply list_elem_of_singleton in Hp as ->. by left.
Qed.

Lemma select_local key ap rib ctx sel r :
  rib_inv rib -> select_paths_for_export is_match checks key ap rib ctx = Some sel -> r ∈ sel ->
  rp_key r = key /\ exists id, out_id r = Some id /\ u32 id.
Proof.
  intros (_ & _ & Hri) E Hr. destruct (select_elem _ _ _ _ _ _ E Hr) as (p & e & Hp & Hx & ->). split; [done|].
  destruct (ri_local _ _ _ Hri key p Hp) as (id & Hid & Hu). exists id. split; [|done].
  apply export_ids in Hx as (Hl & _). unfold out_id. cbn. by rewrite Hl.
Qed.

Lemma select_functional key ap rib ctx sel r r' :
  rib_inv rib -> select_paths_for_export is_match checks key ap rib ctx = Some sel -> r ∈ sel -> r' ∈ sel ->
  out_id r = out_id r' -> r = r'.
Proof.
  intros Hinv E Hr Hr' Hid. destruct (select_elem _ _ _ _ _ _ E Hr) as (p & e & Hp & Hx & ->).
  destruct (select_elem _ _ _ _ _ _ E Hr') as (p' & e' & Hp' & Hx' & ->).
  pose proof (export_ids _ _ _ _ _ _ Hx) as (Hl & _). pose proof (export_ids _ _ _ _ _ _ Hx') as (Hl' & _).
  unfold out_id in Hid. cbn in Hid. rewrite Hl, Hl' in Hid. destruct Hinv as (_ & _ & Hri).
  assert (p = p') as ->; [|rewrite Hx in Hx'; by injection Hx' as ->].
  destruct (ri_local _ _ _ Hri key p Hp) as (id & Hid' & _).
  apply (NoDup_omap_local _ p p' (proj1 (ri_local_unique _ _ _ Hri) key)); [done|done|by exists id|done].
Qed.

(** A peer without ADD-PATH is offered at most one path of a key. *)
Lemma select_single key rib ctx sel :
  select_paths_for_export is_match checks key false rib ctx = Some sel -> (length sel <= 1)%nat.
Proof.
  unfold select_paths_for_export. destruct (ctx_rs_client ctx).
  - generalize (get_all_paths rib key) as l. induction l as [|p l IH]; cbn [first_exported]; [intros [= <-]; cbn; lia|].
    destruct (compute_export_path _ _ key (ref_path p) ctx) as [[e|]|]; [intros [= <-]; cbn; lia|apply IH|done].
  - destruct (get_best_path rib key) as [p|]; cbn; [|intros [= <-]; cbn; lia].
    destruct (export_route_path _ _ _ _) as [o|]; cbn; [|done]. intros [= <-]. destruct o; cbn; lia.
Qed.

(** ** The keys of one family *)
Definition selected ctx rib (ap : bool) key sel : Prop :=
  select_paths_for_export is_match checks key ap rib ctx = Some sel.

(** What is withdrawn for a key. *)
Lemma withdrawals_elem out m key sel ap w :
  ao_repr out m -> w ∈ build_withdrawals_for_route key (ao_stale_paths out key sel) sel ap <->
  if ap then exists id, w = (key, Some id) /\ is_Some (m !! (key, id)) /\ ~ holds_id sel id
  else w = (key, None) /\ sel = [] /\ exists id, is_Some (m !! (key, id)).
Proof.
  intros Hr. unfold build_withdrawals_for_route. destruct ap.
  - rewrite list_elem_of_omap. setoid_rewrite (stale_elem out m); [|done]. split.
    + intros (p & (id & Hp & Hn) & Hx). rewrite (ao_own out m key id p Hr Hp) in Hx. injection Hx as <-.
      exists id. split; [done|]. split; [by exists p|done].
    + intros (id & -> & [p Hp] & Hn). exists p. split; [by exists id|]. by rewrite (ao_own out m key id p Hr Hp).
  - destruct sel as [|r sel]; [|split; [by intros ?%not_elem_of_nil|by intros (_ & [=] & _)]].
    pose proof (fun p => stale_elem out m key [] p Hr) as Hst. destruct (ao_stale_paths out key []) as [|p l].
    + split; [by intros ?%not_elem_of_nil|]. intros (_ & _ & id & p & Hp). exfalso.
      apply (not_elem_of_nil p), Hst. exists id. split; [done|]. by intros (r & ?%not_elem_of_nil & _).
    + rewrite list_elem_of_singleton. split; [|tauto]. intros ->. split; [done|]. split; [done|].
      destruct (proj1 (Hst p) (list_elem_of_here _ _)) as (id & Hp & _). exists id. by exists p.
Qed.

Lemma export_keys_ok ctx rib family ap : forall keys out m announcements withdrawals out',
  ao_repr out m -> export_keys is_match checks ctx rib family ap keys out = Some (announcements, withdrawals, out') ->
  let handled key := key ∈ keys /\ key_afi_safi key = family in
  (forall key, handled key -> exists sel, selected ctx rib ap key sel) /\
  (forall r, r ∈ announcements <-> exists key sel, handled key /\ selected ctx rib ap key sel /\ r ∈ sel) /\
  (exists m', ao_repr out' m' /\ forall k id p, m' !! (k, id) = Some p <->
     m !! (k, id) = Some p /\ (handled k -> forall sel, selected ctx rib ap k sel -> holds_id sel id)) /\
  (forall w, w ∈ withdrawals <-> exists key sel, handled key /\ selected ctx rib ap key sel /\
     if ap then exists id, w = (key, Some id) /\ is_Some (m !! (key, id)) /\ ~ holds_id sel id
     else w = (key, None) /\ sel = [] /\ exists id, is_Some (m !! (key, id))).
Proof.
  induction keys as [|k keys IH]; intros out m announcements withdrawals out' Hr; cbn [export_keys].
  { intros [= <- <- <-]. split_and!.
    - by intros key [?%not_elem_of_nil _].
    - intros r. split; [by intros ?%not_elem_of_nil|]. by intros (key & sel & [?%not_elem_of_nil _] & _).
    - exists m. split; [done|]. intros k id p. split; [|tauto]. intros Hp. split; [done|]. by intros [?%not_elem_of_nil _].
    - intros w. split; [by intros ?%not_elem_of_nil|]. by intros (key & sel & [?%not_elem_of_nil _] & _). }
  case_bool_decide as Ef.
  { intros E. destruct (IH _ _ _ _ _ Hr E) as (Hs & Ha & Hm & Hw). cbv zeta.
    assert (forall key, key ∈ k :: keys /\ key_afi_safi key = family <-> key ∈ keys /\ key_afi_safi key = family) as Hk.
    { intros key. rewrite elem_of_cons. naive_solver. }
    setoid_rewrite Hk. by split_and!. }
  destruct (select_paths_for_export is_match checks k ap rib ctx) as [sel|] eqn:Es; [|done]. cbn [mbind option_bind].
  destruct (remove_stale_ok out m k sel Hr) as (m1 & Hr1 & Hm1).
  destruct (export_keys _ _ _ _ _ _ keys _) as [[[ann wd] out1]|] eqn:E; [|done]. cbn [mbind option_bind].
  intros [= <- <- <-]. destruct (IH _ _ _ _ _ Hr1 E) as (Hs & Ha & (m' & Hr' & Hm') & Hw). cbv zeta in *. clear IH E.
  assert (key_afi_safi k = family) as Hk by (exact Ef).
  assert (forall key, key ∈ k :: keys /\ key_afi_safi key = family <-> key = k \/ (key ∈ keys /\ key_afi_safi key = family)) as Hh.
  { intros key. rewrite elem_of_cons. naive_solver. }
  setoid_rewrite Hh. clear Hh. unfold selected in *. split_and!.
  - intros key [->|Hkey]; [by exists sel|by apply Hs].
  - intros r. rewrite elem_of_app, Ha. split.
    + intros [Hin|(key & s & Hkey & Hx)]; [exists k, sel; by eauto|]. exists key, s. by split; [right|].
    + intros (key & s & [->|Hkey] & Hx & Hin); [left; rewrite Es in Hx; by injection Hx as ->|]. right. by exists key, s.
  - exists m'. split; [done|]. intros k' id p. rewrite Hm', Hm1. split.
    + intros [[Hp Hn] Hx]. split; [done|]. intros [->|Hkey] s Hsel; [|by apply Hx].
      rewrite Es in Hsel. injection Hsel as <-. by apply Hn.
    + intros [Hp Hx]. split; [split; [done|]|].
      * intros ->. by apply (Hx (or_introl eq_refl)).
      * intros Hkey. by apply Hx; right.
  - intros w. rewrite elem_of_app, (withdrawals_elem out m) by done. rewrite Hw. split.
    + intros [Hin|(key & s & Hkey & Hx & Hin)]; [exists k, sel; by eauto|]. exists key, s. split; [by right|]. split; [done|].
      revert Hin. assert (forall id, is_Some (m1 !! (key, id)) -> is_Some (m !! (key, id))) as Hsub.
      { intros id [p Hp]. exists p. by apply Hm1 in Hp as [? _]. }
      destruct ap; [intros (id & -> & ? & ?)|intros (-> & -> & id & ?)]; eauto 8.
    + intros (key & s & [->|Hkey] & Hx & Hin); [left; rewrite Es in Hx; by injection Hx as ->|].
      destruct (decide (key = k)) as [->|Hne]; [left; rewrite Es in Hx; by injection Hx as ->|].
      right. exists key, s. split; [done|]. split; [done|]. revert Hin.
      assert (forall id, is_Some (m !! (key, id)) -> is_Some (m1 !! (key, id))) as Hsup.
      { intros id [p Hp]. exists p. by apply Hm1. }
      destruct ap; [intros (id & -> & ? & ?)|intros (-> & -> & id & ?)]; eauto 8.
Qed.

(** ** One family, and all of them *)
Definition add_path_family ctx (family : AfiSafi) : bool := mask_contains (mf_add_path (ctx_send_format ctx)) family.
Definition delta_keys ctx (delta : RouteDelta) (family : AfiSafi) : list RouteKey :=
  if add_path_family ctx family || ctx_rs_client ctx then changed delta else best_changed delta.

(** The keys of a delta that concern the peer. *)
Definition concerns ctx (delta : RouteDelta) key : Prop :=
  key_afi_safi key ∈ ctx_afi_safis ctx /\ key ∈ delta_keys ctx delta (key_afi_safi key).

(** A path of the peer's table that the Loc-RIB exports under an identifier. *)
Definition exports ctx rib key (id : Z) (p : PathRef) : Prop :=
  exists sel r, selected ctx rib (add_path_family ctx (key_afi_safi key)) key sel /\
    r ∈ sel /\ rp_path r = p /\ local_path_id (ref_path p) = Some id.

Lemma announcements_functional ctx rib ap (P : RouteKey -> Prop) (announcements : list RoutePath) :
  rib_inv rib ->
  (forall r : RoutePath, r ∈ announcements <-> exists key sel, P key /\ selected ctx rib ap key sel /\ r ∈ sel) ->
  forall r r' : RoutePath, r ∈ announcements -> r' ∈ announcements -> rp_key r = rp_key r' -> out_id r = out_id r' -> rp_path r = rp_path r'.
Proof.
  intros Hinv Ha r r' (key & sel & _ & Hsel & Hr)%Ha (key' & sel' & _ & Hsel' & Hr')%Ha Hk Hid. unfold selected in *.
  pose proof (proj1 (select_local _ _ _ _ _ _ Hinv Hsel Hr)) as E.
  pose proof (proj1 (select_local _ _ _ _ _ _ Hinv Hsel' Hr')) as E'.
  assert (key' = key) as -> by congruence. rewrite Hsel in Hsel'. injection Hsel' as <-.
  by rewrite (select_functional _ _ _ _ _ _ _ Hinv Hsel Hr Hr' Hid).
Qed.

Lemma propagate_family_ok ctx delta rib out m family out' sent :
  rib_inv rib -> ao_repr out m ->
  propagate_family is_match checks ctx delta rib out family = Some (out', sent) ->
  exists m', ao_repr out' m' /\ forall key id p,
    (key ∈ delta_keys ctx delta family /\ key_afi_safi key = family -> m' !! (key, id) = Some p <-> exports ctx rib key id p) /\
    (~ (key ∈ delta_keys ctx delta family /\ key_afi_safi key = family) -> m' !! (key, id) = m !! (key, id)).
Proof.
  intros Hinv Hr. unfold propagate_family. fold (add_path_family ctx family). fold (delta_keys ctx delta family).
  set (ap := add_path_family ctx family). set (keys := delta_keys ctx delta family).
  destruct (export_keys _ _ _ _ _ _ _ _) as [[[announcements withdrawals] out1]|] eqn:E; [|done]. cbn [mbind option_bind].
  destruct (send_withdrawals _ _) as [w|]; [|done]. cbn [mbind option_bind].
  destruct (send_batched_announcements _ _) as [a|]; [|done]. cbn [mbind option_bind]. intros [= <- _].
  destruct (export_keys_ok _ _ _ _ _ _ _ _ _ _ Hr E) as (Hs & Ha & (m1 & Hr1 & Hm1) & _). cbv zeta in *.
  destruct (insert_all_ok announcements out1 m1 Hr1) as (m' & Hr' & Hm').
  { exact (announcements_functional ctx rib ap _ announcements Hinv Ha). }
  exists m'. split; [done|]. intros key id p.
  assert (forall r, r ∈ announcements -> rp_key r = key -> exists sel, (key ∈ keys /\ key_afi_safi key = family) /\ selected ctx rib ap key sel /\ r ∈ sel) as Hann.
  { intros r (key' & sel & Hk & Hsel & Hin)%Ha <-. pose proof (proj1 (select_local _ _ _ _ _ _ Hinv Hsel Hin)) as <-. by exists sel. }
  split.
  - intros Hk. rewrite Hm', Hm1. destruct (Hs key Hk) as [sel Hsel]. unfold exports.
    assert (add_path_family ctx (key_afi_safi key) = ap) as -> by by rewrite (proj2 Hk). split.
    + intros [(r & Hin & Hkey & Hp & Hid)|[[_ Hh] Hn]].
      * destruct (Hann r Hin Hkey) as (s & _ & Hx & Hins). by exists s, r.
      * exfalso. apply Hn. destruct (Hh Hk sel Hsel) as (r & Hin & Hid). exists r. split; [apply Ha; by exists key, sel|].
        split; [|done]. by apply (select_local _ _ _ _ _ _ Hinv Hsel Hin).
    + intros (s & r & Hx & Hin & Hp & Hid). left. exists r. split; [apply Ha; by exists key, s|].
      split; [by apply (select_local _ _ _ _ _ _ Hinv Hx Hin)|done].
  - intros Hk. apply option_eq. intros q. rewrite Hm', Hm1. split.
    + intros [(r & Hin & Hkey & _)|[[Hq _] _]]; [|done]. by destruct (Hann r Hin Hkey) as (s & ? & _).
    + intros Hq. right. split; [by split; [|intros ?%Hk]|]. intros (r & Hin & Hkey & _).
      by destruct (Hann r Hin Hkey) as (s & ? & _).
Qed.

Lemma propagate_families_ok ctx delta rib families : forall out m out' sent,
  rib_inv rib -> ao_repr out m ->
  propagate_families is_match checks ctx delta rib out families = Some (out', sent) ->
  exists m', ao_repr out' m' /\ forall key id p,
    (key_afi_safi key ∈ families /\ key ∈ delta_keys ctx delta (key_afi_safi key) ->
       m' !! (key, id) = Some p <-> exports ctx rib key id p) /\
    (~ (key_afi_safi key ∈ families /\ key ∈ delta_keys ctx delta (key_afi_safi key)) -> m' !! (key, id) = m !! (key, id)).
Proof.
  induction families as [|family families IH]; intros out m out' sent Hinv Hr; cbn [propagate_families].
  { intros [= <- <-]. exists m. split; [done|]. intros key id p. split; [by intros [?%not_elem_of_nil _]|done]. }
  destruct (propagate_family _ _ _ _ _ _ _) as [[out1 s1]|] eqn:E1; [|done]. cbn [mbind option_bind].
  destruct (propagate_families _ _ _ _ _ _ families) as [[out2 s2]|] eqn:E2; [|done]. cbn [mbind option_bind]. intros [= <- <-].
  destruct (propagate_family_ok _ _ _ _ _ _ _ _ Hinv Hr E1) as (m1 & Hr1 & Hm1).
  destruct (IH _ _ _ _ Hinv Hr1 E2) as (m' & Hr' & Hm'). exists m'. split; [done|]. intros key id p.
  destruct (Hm1 key id p) as [H1a H1b]. destruct (Hm' key id p) as [H2a H2b]. rewrite elem_of_cons.
  destruct (decide (key_afi_safi key ∈ families /\ key ∈ delta_keys ctx delta (key_afi_safi key))) as [Hin|Hin].
  { split; [tauto|]. intros Hn. exfalso. apply Hn. destruct Hin. by split; [right|]. }
  rewrite H2b by done. split.
  - intros [[E|Hfam] Hk]; [|by destruct Hin]. apply H1a. by rewrite <- E.
  - intros Hn. apply H1b. intros [Hk <-]. apply Hn. by split; [left|].
Qed.
End propagate.

(** ** Properties *)

(** C4. After a change is propagated to a peer, its Adj-RIB-Out is that of the
    Loc-RIB as it is now under every key of the delta in a negotiated family:
    for a peer with ADD-PATH all the paths that pass, for a route-server client
    the first that passes, otherwise the best path if it passes; stale paths are
    gone, and under other keys nothing changed. *)
Theorem adj_rib_out_synced `{HashOrder} {A} `{PathIdLaws A} is_match checks ctx (delta : RouteDelta) (rib : LocRib A)
    (out out' : AdjRibOut) (sent : list (list Z)) :
  rib_inv rib -> ao_inv out ->
  propagate_routes_to_peer is_match checks ctx delta rib out = Some (out', sent) ->
  ao_inv out' /\ forall key id p,
    (concerns ctx delta key -> ao_path out' key id = Some p <-> exports is_match checks ctx rib key id p) /\
    (~ concerns ctx delta key -> ao_path out' key id = ao_path out key id).
Proof.
  intros Hinv Ho E. destruct (ao_repr_exists out Ho) as [m Hr].
  destruct (propagate_families_ok _ _ _ _ _ _ _ _ _ _ Hinv Hr E) as (m' & [Ho' Hm'] & Hp). split; [done|].
  intros key id p. destruct Hr as [_ Hm]. rewrite Hm, Hm'. apply Hp.
Qed.

(** ** Witness *)
#[local] Instance demo_order : HashOrder := insertion_order.

(** The router of [demo_rib] as AS 65000 and a peer of AS 65002 with ADD-PATH
    for IPv4 unicast. *)
Definition demo_ctx : PeerExportContext := demo_context 9 65002 false 1.
Definition demo_delta : RouteDelta := mkDelta [demo_net] [demo_net].
Lemma demo_rib_inv : rib_inv demo_rib.
Proof. apply (run_from_new 0 demo_ops demo_rib demo_reaches). Qed.

Lemma adj_rib_out_synced_witness :
  exists out' sent, propagate_routes_to_peer (fun _ _ => false) true demo_ctx demo_delta demo_rib ao_new = Some (out', sent) /\
    ao_inv out' /\ is_Some (ao_path out' demo_net 2) /\
    forall id p, ao_path out' demo_net id = Some p <-> exports (fun _ _ => false) true demo_ctx demo_rib demo_net id p.
Proof.
  destruct (propagate_routes_to_peer (fun _ _ => false) true demo_ctx demo_delta demo_rib ao_new) as [[out' sent]|] eqn:E;
    [|by vm_compute in E].
  assert (ao_inv ao_new) as Hnew by apply ao_repr_new.
  destruct (adj_rib_out_synced (fun _ _ => false) true demo_ctx demo_delta demo_rib ao_new out' sent demo_rib_inv Hnew E) as [Hinv Hp].
  exists out', sent. split; [done|]. split; [done|]. split.
  - vm_compute in E. injection E as <- _. vm_compute. by eexists.
  - intros id p. apply Hp. split; [vm_compute; by left|]. vm_compute. by left.
Defined.
