(* ===== verification/Mirror.v ===== *)
(** * What the peer makes of what it is sent

    The messages of a propagated change, read by the peer's own decoder and
    stored in its Adj-RIB-In: the Adj-RIB-In stays the image of our
    Adj-RIB-Out for that peer. *)
From S2P Require Import Prelude Wire Net Trie TrieSpec PrefixMap Vrp PathId Notification Nlri BgpLs BgpLsParse Attrs BgpLsAttr Text OpenMsg Msg Path UpdateCodec UpdateCodecSpec Update UpdateSpec UpdateMain ExtComm PeerCaps Policy Fsm RibTables LocRib Outgoing PeerState Peer LocRibInv LocRibSpec LocRibPeer LocRibStale LocRibOps Propagate.

(** The map an Adj-RIB-In represents, and what a batch announces. *)
Abbreviation InMap := (gmap (RouteKey * option Z) PathRef).
Abbreviation Announcement := (RouteKey * PathAttrs * option Z)%type.

(** ** Withdrawals on the wire *)
Section mirror.
Context `{HashOrder}.

Definition withdrawn_wf (format : MessageFormat) (n : Nlri) : Prop :=
  wire_nlri (negb (is_v4 (nlri_prefix n))) (mask_contains (mf_add_path format) (network_afi_safi (nlri_prefix n))) n.

Lemma wire_writable v6 add_path n : wire_nlri v6 add_path n -> writable n.
Proof.
  intros Hn. destruct (parse_write_all v6 add_path [n]) as (bytes & E & _); [by apply Forall_singleton|].
  cbn [write_nlri_list] in E. unfold writable. destruct (write_nlri n); [by eexists|done].
Qed.

Lemma withdrawn_wf_family format l v4 :
  Forall (withdrawn_wf format) l ->
  Forall (wire_nlri (negb v4) (mask_contains (mf_add_path format) (route_afi_safi v4)))
    (filter (fun n => is_v4 (nlri_prefix n) = v4) l).
Proof.
  intros Hl. rewrite Forall_forall in Hl. apply Forall_forall. intros n [Hv Hin]%list_elem_of_filter.
  specialize (Hl n Hin). unfold withdrawn_wf in Hl. rewrite Hv in Hl.
  by destruct (nlri_prefix n), v4.
Qed.

(** The attributes of a withdrawal. *)
Definition unreach_attrs (v6 : list Nlri) : list PathAttribute :=
  match v6 with [] => [] | _ => [mkAttr OPTIONAL (AMpUnreachNlri (mkMpUnreach Afi_Ipv6 Unicast v6 []))] end.

Lemma withdraw_exchange format l :
  Forall (withdrawn_wf format) l ->
  exists m bytes, new_withdraw l format = Some m /\ um_to_bytes m = Some bytes /\
    (Z.of_nat (length bytes) < 65536 -> exists m', um_from_bytes bytes format = Ok m' /\
       um_nlri_list m' = [] /\ um_ls_nlri_list m' = [] /\ um_ls_withdrawn_list m' = [] /\
       um_origin m' = None /\ um_as4_path m' = None /\ um_as4_aggregator m' = None /\
       forall n, n ∈ um_withdrawn_routes m' <-> n ∈ l).
Proof.
  intros Hl. pose proof (withdrawn_wf_family format l true Hl) as H4.
  pose proof (withdrawn_wf_family format l false Hl) as H6. cbn [negb route_afi_safi] in H4, H6.
  destruct (new_withdraw_some l format) as [m Em].
  { eapply Forall_impl; [exact Hl|]. intros n. apply wire_writable. }
  assert (exists wl al, m = mkUpdate wl (filter (fun n => is_v4 (nlri_prefix n) = true) l) al
    (unreach_attrs (filter (fun n => is_v4 (nlri_prefix n) = false) l)) [] format) as (wl & al & ->).
  { unfold new_withdraw in Em. destruct (write_nlri_list _); [|done]. cbn [mbind option_bind] in Em.
    fold (unreach_attrs (filter (fun n => is_v4 (nlri_prefix n) = false) l)) in Em.
    destruct (attributes_len _ _); [|done]. injection Em as <-. by eexists _, _. }
  set (v4 := filter (fun n => is_v4 (nlri_prefix n) = true) l) in *.
  set (v6 := filter (fun n => is_v4 (nlri_prefix n) = false) l) in *.
  set (m := mkUpdate wl v4 al (unreach_attrs v6) [] format) in *.
  assert (wire_attributes m = unreach_attrs v6) as Ew.
  { unfold wire_attributes, m. cbn [um_format path_attributes]. by destruct (use_4byte_asn format), v6. }
  assert (update_wf m) as Hm.
  { split; rewrite ?Ew.
    - exact H4.
    - apply Forall_nil_2.
    - unfold unreach_attrs. destruct v6 as [|n rest]; [constructor|]. apply Forall_singleton.
      apply (attr_wf_known format _ TMpUnreachNlri); [done|]. by split.
    - unfold unreach_attrs. destruct v6; [constructor|apply NoDup_singleton].
    - intros [?|Ha]; [done|]. by destruct v6. }
  destruct (update_write m Hm) as (wb & ab & nb & Eb & Hr). exists m, (body wb ab nb). split; [done|]. split; [done|].
  rewrite length_body. intros Hlen. eexists. split; [apply Hr; lia|].
  assert (forall n, n ∈ v4 ++ v6 <-> n ∈ l) as Hin.
  { intros n. rewrite elem_of_app. unfold v4, v6. rewrite !list_elem_of_filter. destruct (is_v4 (nlri_prefix n)); naive_solver. }
  unfold um_nlri_list, um_ls_nlri_list, um_ls_withdrawn_list, um_origin, um_as4_path, um_as4_aggregator, um_withdrawn_routes.
  cbn [received path_attributes nlri_list withdrawn_routes]. rewrite Ew. setoid_rewrite <- Hin.
  destruct v6 as [|n rest]; cbn; [by setoid_rewrite app_nil_r|]. by rewrite app_nil_r.
Qed.

(** Two ends that agree on the AS number size and the ADD-PATH families write
    the same bytes. *)
Definition formats_agree (fs fr : MessageFormat) : Prop :=
  use_4byte_asn fs = use_4byte_asn fr /\ mf_add_path fs = mf_add_path fr.

Lemma to_bytes_agree wl wr al pa nl fs fr : formats_agree fs fr ->
  um_to_bytes (mkUpdate wl wr al pa nl fs) = um_to_bytes (mkUpdate wl wr al pa nl fr).
Proof. intros [H4 _]. unfold um_to_bytes, wire_attributes. cbn [um_format path_attributes withdrawn_routes nlri_list]. by rewrite H4. Qed.

Lemma um_new_agree path nlri fs fr : formats_agree fs fr ->
  (m ← um_new path nlri fs; um_to_bytes m) = (m ← um_new path nlri fr; um_to_bytes m).
Proof.
  intros Hf. pose proof Hf as [H4 Ha]. unfold um_new, attributes_len. rewrite H4, Ha.
  destruct (write_path_attributes _ _); [|done]. cbn [mbind option_bind]. by apply to_bytes_agree.
Qed.

Lemma new_withdraw_agree l fs fr : formats_agree fs fr ->
  (m ← new_withdraw l fs; um_to_bytes m) = (m ← new_withdraw l fr; um_to_bytes m).
Proof.
  intros Hf. pose proof Hf as [H4 Ha]. unfold new_withdraw, attributes_len. rewrite H4.
  destruct (write_nlri_list _); [|done]. cbn [mbind option_bind].
  destruct (write_path_attributes _ _); [|done]. cbn [mbind option_bind]. by apply to_bytes_agree.
Qed.

(** ** The receiver *)

Definition receive_update (p : Peer) (format : MessageFormat) (rib : AdjRibIn) (next : Z) (bytes : list Z)
    : option (AdjRibIn * Z) :=
  match um_from_bytes (drop BGP_HEADER_SIZE_BYTES bytes) format with
  | Ok m =>
      let '(announced, withdrawn, next) := handle_update p next m in
      Some (store_routes rib announced withdrawn, next)
  | _ => None
  end.

Fixpoint receive_all (p : Peer) (format : MessageFormat) (rib : AdjRibIn) (next : Z) (messages : list (list Z))
    : option (AdjRibIn * Z) :=
  match messages with
  | [] => Some (rib, next)
  | bytes :: rest => '(rib, next) ← receive_update p format rib next bytes; receive_all p format rib next rest
  end.

Lemma receive_all_app p format l1 l2 : forall rib next,
  receive_all p format rib next (l1 ++ l2) =
    ('(rib, next) ← receive_all p format rib next l1; receive_all p format rib next l2).
Proof.
  induction l1 as [|b l1 IH]; intros rib next; [done|]. cbn [app receive_all].
  destruct (receive_update p format rib next b) as [[rib' next']|]; [|done]. cbn [mbind option_bind]. apply IH.
Qed.

(** What an Adj-RIB-In holds, addresses aside. *)
Definition held (m : InMap) (kr : RouteKey * option Z) : option Path := ref_path <$> m !! kr.

Lemma store_withdrawn_ok withdrawn : forall rib m, ai_repr rib m ->
  exists m', ai_repr (fold_left (fun rib w => ai_remove_route rib w.1 w.2) withdrawn rib) m' /\
    forall kr, held m' kr = if decide (kr ∈ withdrawn) then None else held m kr.
Proof.
  induction withdrawn as [|w l IH]; intros rib m Hr; [by exists m|]. cbn [fold_left].
  destruct (IH _ _ (ai_remove_ok rib m w.1 w.2 Hr)) as (m' & Hr' & Hm'). exists m'. split; [done|].
  intros kr. rewrite Hm'. cbn [ai_spec]. unfold held. destruct w as [k r]. cbn [fst snd].
  destruct (decide (kr ∈ l)) as [Hin|Hin]; [by rewrite decide_True by (by right)|].
  destruct (decide (kr = (k, r))) as [->|Hne].
  - by rewrite lookup_delete_eq, decide_True by (by left).
  - rewrite lookup_delete_ne by done. rewrite decide_False; [done|]. rewrite elem_of_cons. naive_solver.
Qed.

Definition nlri_kr (n : Nlri) : RouteKey * option Z := (KPrefix (nlri_prefix n), nlri_path_id n).

Lemma store_announced_ok path l : forall next rib m, ai_repr rib m ->
  exists m', ai_repr (fold_left (fun rib rp => ai_add_route rib (rp_key rp) (rp_path rp))
      (announce_all (fun entry => (KPrefix (nlri_prefix entry), set_remote_path_id (nlri_path_id entry) path)) next l).1 rib) m' /\
    forall kr, held m' kr = if decide (kr ∈ map nlri_kr l) then Some (set_remote_path_id kr.2 path) else held m kr.
Proof.
  induction l as [|n l IH]; intros next rib m Hr; [by exists m|]. cbn [announce_all map].
  specialize (IH (next + 1)). destruct (announce_all _ (next + 1) l) as [announced next'] eqn:E. cbn [fst fold_left rp_key rp_path] in *.
  destruct (IH _ _ (ai_add_ok rib m (KPrefix (nlri_prefix n)) (mkRef next (set_remote_path_id (nlri_path_id n) path)) Hr)) as (m' & Hr' & Hm').
  exists m'. split; [done|]. intros kr. rewrite Hm'. cbn [ai_spec ref_path set_remote_path_id remote_path_id]. unfold held.
  change (KPrefix (nlri_prefix n), nlri_path_id n) with (nlri_kr n).
  destruct (decide (kr ∈ map nlri_kr l)) as [Hin|Hin]; [by rewrite decide_True by (by right)|].
  destruct (decide (kr = nlri_kr n)) as [->|Hne].
  - by rewrite lookup_insert_eq, decide_True by (by left).
  - rewrite lookup_insert_ne by done. rewrite decide_False; [done|]. rewrite elem_of_cons. naive_solver.
Qed.

(** A receiver that labels its routes with [source]. *)
Record receiver (p : Peer) (fr : MessageFormat) (source : RouteSource) : Prop := {
  rv_four : supports_four_octet_asn (capabilities p) = use_4byte_asn fr;
  rv_source : exists id, bgp_id p = Some id /\
    source = source_from_session (default SEbgp (session_type p)) (addr p) id (cfg_rr_client (config p));
}.

Lemma drop_header kind body : drop BGP_HEADER_SIZE_BYTES (serialize kind body) = body.
Proof. unfold serialize. rewrite !app_assoc. by apply drop_app_length'. Qed.

(** The AS4 attributes are not there to be stripped. *)
Lemma handle_update_plain p next m :
  (supports_four_octet_asn (capabilities p) = true -> um_as4_path m = None /\ um_as4_aggregator m = None) ->
  handle_update p next m =
    let '(announced, next) := process_announcements p next m in (announced, process_withdrawals m, next).
Proof.
  intros Hs. unfold handle_update. destruct (supports_four_octet_asn _); cbn [andb]; [|done].
  destruct (Hs eq_refl) as [-> ->]. done.
Qed.

Lemma receive_withdraw p fr source rib next mi fs l bytes :
  receiver p fr source -> formats_agree fs fr -> Forall (withdrawn_wf fr) l -> ai_repr rib mi ->
  (m ← new_withdraw l fs; serialize_update m) = Some bytes -> Z.of_nat (length bytes) <= MAX_MESSAGE_SIZE ->
  exists rib' next' mi', receive_update p fr rib next bytes = Some (rib', next') /\ ai_repr rib' mi' /\
    forall kr, held mi' kr = if decide (kr ∈ map nlri_kr l) then None else held mi kr.
Proof.
  intros Hp Hf Hl Hr Eb Hsize. destruct (withdraw_exchange fr l Hl) as (m & body & Em & Ebody & Hx).
  assert (bytes = serialize MtUpdate body) as ->.
  { pose proof (new_withdraw_agree l fs fr Hf) as Ha. rewrite Em in Ha. cbn [mbind option_bind] in Ha. rewrite Ebody in Ha.
    unfold serialize_update in Eb. destruct (new_withdraw l fs) as [ms|]; [|done]. cbn [mbind option_bind] in *.
    rewrite Ha in Eb. by injection Eb. }
  unfold MAX_MESSAGE_SIZE in Hsize. rewrite frame_length in Hsize.
  destruct Hx as (m' & Ed & Hn & Hln & Hlw & Ho & H1 & H2 & Hw); [lia|].
  destruct (store_withdrawn_ok (process_withdrawals m') rib mi Hr) as (mi' & Hr' & Hm').
  unfold receive_update. rewrite drop_header, Ed, handle_update_plain by done.
  assert (process_announcements p next m' = ([], next)) as ->.
  { unfold process_announcements, from_update_msg. rewrite Ho. by destruct (bgp_id p). }
  eexists _, _, mi'. split; [done|]. split; [exact Hr'|]. intros kr. rewrite Hm'.
  assert (kr ∈ process_withdrawals m' <-> kr ∈ map nlri_kr l) as Hiff.
  { unfold process_withdrawals. rewrite Hlw, app_nil_r. change (map (fun entry => (KPrefix (nlri_prefix entry), nlri_path_id entry))) with (map nlri_kr).
    rewrite !list_elem_of_fmap. by setoid_rewrite Hw. }
  destruct (decide (kr ∈ map nlri_kr l)) as [Hin|Hin]; [by rewrite decide_True by (by apply Hiff)|].
  rewrite decide_False; [done|]. by rewrite Hiff.
Qed.

(** One batch of one family. *)
Lemma receive_announce p fr source rib next mi fs path v4 prefixes bytes :
  receiver p fr source -> formats_agree fs fr -> path_wf fr (attrs path) -> routes_wf fr path v4 prefixes ->
  (use_4byte_asn fr = false -> old_speaker_safe (attrs path)) -> ai_repr rib mi ->
  (m ← um_new path prefixes fs; serialize_update m) = Some bytes -> Z.of_nat (length bytes) <= MAX_MESSAGE_SIZE ->
  exists rib' next' mi', receive_update p fr rib next bytes = Some (rib', next') /\ ai_repr rib' mi' /\
    forall kr, held mi' kr =
      if decide (kr ∈ map nlri_kr (make_nlri_list prefixes (route_path_id fr path v4)))
      then Some (set_remote_path_id kr.2 (exchanged fr source (attrs path))) else held mi kr.
Proof.
  intros [Hfour (id & Hid & ->)] Hf Hpw Hrw Hsafe Hr Eb Hsize. set (source := source_from_session _ _ _ _).
  destruct (path_exchange_ok fr path v4 prefixes source Hpw Hrw Hsafe) as (m & body & Em & Ebody & Hx).
  assert (bytes = serialize MtUpdate body) as ->.
  { pose proof (um_new_agree path prefixes fs fr Hf) as Ha. rewrite Em in Ha. cbn [mbind option_bind] in Ha. rewrite Ebody in Ha.
    unfold serialize_update in Eb. destruct (um_new path prefixes fs) as [ms|]; [|done]. cbn [mbind option_bind] in *.
    rewrite Ha in Eb. by injection Eb. }
  unfold MAX_MESSAGE_SIZE in Hsize. rewrite frame_length in Hsize.
  destruct Hx as (m' & Ed & Hn & Hw & Hp & Hln & Hlw & Has4); [lia|].
  destruct (store_announced_ok (exchanged fr source (attrs path)) (um_nlri_list m') next rib mi Hr) as (mi' & Hr' & Hm').
  unfold receive_update. rewrite drop_header, Ed, handle_update_plain by (by rewrite Hfour).
  unfold process_announcements, process_withdrawals. rewrite Hid, Hw, Hlw, Hln, Hfour. fold source. rewrite Hp. cbn [map app announce_all].
  destruct (announce_all _ next (um_nlri_list m')) as [announced next'] eqn:E. cbn [fst] in Hr'.
  eexists _, _, mi'. split; [done|]. split; [|by rewrite <- Hn]. unfold store_routes. cbn [fold_left]. by rewrite app_nil_r.
Qed.

(** ** A list of batches *)
Definition prefix_wire (prefix : IpNetwork) : Prop :=
  match prefix with
  | V4 net => addr_fits 4 (v4_address net) (v4_len net) /\ is_multicast net = false
  | V6 net => addr_fits 16 (v6_address net) (v6_len net)
  end.

(** Attributes that a session of the format carries with a prefix. *)
Record sendable (fr : MessageFormat) (prefix : IpNetwork) (a : PathAttrs) : Prop := {
  sd_path : path_wf fr a;
  sd_next_hop : match prefix with
                | V4 _ => exists addr, pa_next_hop a = NhIpv4 addr /\ u32 addr /\ is_valid_unicast_ipv4 addr = true
                | V6 _ => mp_next_hop_wf Afi_Ipv6 Unicast (pa_next_hop a)
                end;
  sd_old : use_4byte_asn fr = false -> old_speaker_safe a;
}.

(** The identifier on the wire. *)
Definition wire_id (fr : MessageFormat) (key : RouteKey) (id : Z) : option Z :=
  if mask_contains (mf_add_path fr) (key_afi_safi key) then Some id else None.

Lemma wire_nlri_ok fr prefix id : prefix_wire prefix -> u32 id ->
  withdrawn_wf fr (mkNlri prefix (wire_id fr (KPrefix prefix) id)).
Proof.
  intros Hp Hid. unfold withdrawn_wf, wire_nlri, wire_id. cbn [nlri_prefix nlri_path_id key_afi_safi].
  destruct prefix as [net|net]; cbn [is_v4 negb prefix_wire] in *; (split; [by try split|]); by destruct (mask_contains _ _).
Qed.


Definition good (fr : MessageFormat) (v4 : bool) (x : Announcement) : Prop :=
  exists prefix id, x = (KPrefix prefix, x.1.2, Some id) /\ is_v4 prefix = v4 /\ prefix_wire prefix /\ u32 id /\
    sendable fr prefix x.1.2.

(** Where the receiver files it, and what. *)
Definition filed (fr : MessageFormat) (x : Announcement) : RouteKey * option Z := (x.1.1, id ← x.2; wire_id fr x.1.1 id).
Definition received_path (fr : MessageFormat) (source : RouteSource) (a : PathAttrs) (remote : option Z) : Path :=
  set_remote_path_id remote (exchanged fr source a).

Definition batch_fits (fs : MessageFormat) (b : AnnouncementBatch) : Prop :=
  match m ← to_update b fs; serialize_update m with
  | Some bytes => Z.of_nat (length bytes) <= MAX_MESSAGE_SIZE
  | None => True
  end.

#[export] Instance batch_fits_dec fs b : Decision (batch_fits fs b).
Proof. unfold batch_fits. destruct (m ← to_update b fs; serialize_update m); apply _. Defined.

Lemma batch_prefixes fr v4 b : Forall (good fr v4) (batch_announced b) ->
  batch_keys b = map KPrefix (omap key_prefix (batch_keys b)).
Proof.
  unfold batch_announced. induction (batch_keys b) as [|k l IH]; [done|]. cbn [map].
  intros [(prefix & id & E & _) Hl]%Forall_cons. injection E as -> _. cbn. f_equal. by apply IH.
Qed.

Lemma batch_routes_wf fr v4 b : batch_ok b -> Forall (good fr v4) (batch_announced b) ->
  let path := ref_path (batch_path b) in
  let prefixes := omap key_prefix (batch_keys b) in
  routes_wf fr path v4 prefixes /\ path_wf fr (attrs path) /\ (use_4byte_asn fr = false -> old_speaker_safe (attrs path)) /\
  map nlri_kr (make_nlri_list prefixes (route_path_id fr path v4)) = map (filed fr) (batch_announced b) /\
  afi (batch_afi_safi b) = afi (route_afi_safi v4).
Proof.
  intros [Hne Hfam] Hg path prefixes. pose proof (batch_prefixes fr v4 b Hg) as Ek. fold prefixes in Ek.
  unfold batch_announced in Hg |- *. fold path in Hg |- *. rewrite Ek in Hg |- *. rewrite Ek in Hfam.
  assert (forall prefix, prefix ∈ prefixes -> is_v4 prefix = v4 /\ prefix_wire prefix /\ sendable fr prefix (attrs path) /\
    exists id, local_path_id path = Some id /\ u32 id) as Hall.
  { intros prefix Hin. rewrite Forall_forall in Hg. destruct (Hg (KPrefix prefix, attrs path, local_path_id path)) as (p & id & E & Hv & Hw & Hu & Hs).
    { apply list_elem_of_fmap. exists (KPrefix prefix). split; [done|]. by apply list_elem_of_fmap_2. }
    injection E as <- Eid. split_and!; [done..|by exists id]. }
  assert (exists p0, p0 ∈ prefixes) as [p0 Hp0].
  { destruct prefixes as [|p0 rest]; [by rewrite Ek in Hne|]. exists p0. by left. }
  destruct (Hall p0 Hp0) as (Hv0 & _ & [Hpw Hnh Hold] & id & Hid & Hu).
  assert (forall prefix, prefix ∈ prefixes -> network_afi_safi prefix = route_afi_safi v4) as Hnf.
  { intros prefix Hin. destruct (Hall prefix Hin) as (<- & _). by destruct prefix. }
  split_and!; [split|done|done| |].
  - by intros E; rewrite E in Hp0; apply not_elem_of_nil in Hp0.
  - apply Forall_forall. intros prefix Hin. by apply Hall.
  - apply Forall_fmap, Forall_forall. intros prefix Hin. destruct (Hall prefix Hin) as (Hv & Hw & _).
    pose proof (wire_nlri_ok fr prefix id Hw Hu) as Hx. unfold withdrawn_wf, wire_id in Hx. cbn [nlri_prefix key_afi_safi] in Hx.
    rewrite Hv, (Hnf prefix Hin) in Hx. unfold route_path_id, path_id_for. by rewrite Hid.
  - by destruct p0, v4.
  - unfold make_nlri_list. rewrite !map_map. apply map_ext_in. intros prefix Hin%list_elem_of_In. unfold nlri_kr, filed. cbn.
    rewrite Hid. unfold route_path_id, path_id_for, wire_id. cbn. rewrite (Hnf prefix Hin), Hid. by destruct (mask_contains _ _).
  - rewrite Forall_forall in Hfam. rewrite <- (Hfam (KPrefix p0)) by (by apply list_elem_of_fmap_2). cbn.
    by rewrite (Hnf p0 Hp0).
Qed.

Lemma receive_batches p fr source fs v4 : receiver p fr source -> formats_agree fs fr ->
  forall batches rib next mi sent, ai_repr rib mi ->
  Forall batch_ok batches -> Forall (good fr v4) (concat (map batch_announced batches)) -> Forall (batch_fits fs) batches ->
  (forall x y, x ∈ concat (map batch_announced batches) -> y ∈ concat (map batch_announced batches) ->
     filed fr x = filed fr y -> x.1.2 = y.1.2) ->
  send_batches batches fs = Some sent ->
  exists rib' next' mi', receive_all p fr rib next sent = Some (rib', next') /\ ai_repr rib' mi' /\
    forall kr q, held mi' kr = Some q <->
      (exists x, x ∈ concat (map batch_announced batches) /\ filed fr x = kr /\ q = received_path fr source x.1.2 kr.2) \/
      (held mi kr = Some q /\ ~ exists x, x ∈ concat (map batch_announced batches) /\ filed fr x = kr).
Proof.
  intros Hp Hf. induction batches as [|b batches IH]; intros rib next mi sent Hr Hok Hg Hfit Hfun; cbn [send_batches].
  { intros [= <-]. exists rib, next, mi. split; [done|]. split; [done|]. intros kr q. split.
    - intros Hq. right. split; [done|]. by intros (x & ?%not_elem_of_nil & _).
    - by intros [(x & ?%not_elem_of_nil & _)|[Hq _]]. }
  cbn [map concat] in *. apply Forall_cons in Hok as [Hb Hok]. apply Forall_app in Hg as [Hgb Hg]. apply Forall_cons in Hfit as [Hfb Hfit].
  destruct (batch_routes_wf fr v4 b Hb Hgb) as (Hrw & Hpw & Hold & Ekr & Hafi). cbv zeta in *.
  unfold batch_fits in Hfb. destruct (to_update b fs) as [m|] eqn:Em; [|done]. cbn [mbind option_bind] in *.
  destruct (serialize_update m) as [bytes|] eqn:Eb; [|done]. cbn [mbind option_bind].
  destruct (send_batches batches fs) as [rest|] eqn:Er; [|done]. cbn [mbind option_bind].
  rewrite (proj2 (Z.ltb_ge _ _) Hfb). intros [= <-].
  assert (to_update b fs = um_new (ref_path (batch_path b)) (omap key_prefix (batch_keys b)) fs) as Eu.
  { unfold to_update. rewrite Hafi. by destruct v4. }
  destruct (receive_announce p fr source rib next mi fs _ v4 _ bytes Hp Hf Hpw Hrw Hold Hr) as (rib1 & next1 & mi1 & E1 & Hr1 & Hm1);
    [by rewrite <- Eu, Em|done|].
  destruct (IH rib1 next1 mi1 rest Hr1 Hok Hg Hfit) as (rib' & next' & mi' & E' & Hr' & Hm'); [|done|].
  { intros x y Hx Hy. apply Hfun; by apply elem_of_app; right. }
  exists rib', next', mi'. cbn [receive_all]. rewrite E1. cbn [mbind option_bind]. split; [done|]. split; [done|].
  intros kr q. rewrite Hm', Hm1, Ekr. clear Hm' Hm1 E1 E' IH.
  assert (forall x, x ∈ batch_announced b -> x.1.2 = attrs (ref_path (batch_path b))) as Hattr.
  { intros x (k & -> & _)%list_elem_of_fmap. done. }
  assert (kr ∈ map (filed fr) (batch_announced b) <-> exists x, x ∈ batch_announced b /\ filed fr x = kr) as Hin.
  { rewrite list_elem_of_fmap. naive_solver. }
  setoid_rewrite elem_of_app. destruct (decide (kr ∈ map (filed fr) (batch_announced b))) as [Hkr|Hkr].
  - pose proof (proj1 Hin Hkr) as (x0 & Hx0 & Ex0). split.
    + intros [(x & Hx & Ex & ->)|[[= <-] Hn]]; [left; by eauto|]. left. exists x0. split; [by left|]. split; [done|].
      unfold received_path. by rewrite (Hattr x0 Hx0).
    + intros [(x & [Hx|Hx] & Ex & ->)|[_ Hn]]; [|left; by eauto|destruct Hn; by eauto].
      destruct (decide (Exists (fun y => filed fr y = kr) (concat (map batch_announced batches)))) as [Hy|Hy];
        rewrite Exists_exists in Hy.
      * destruct Hy as (y & Hy & Ey). left. exists y. split; [done|]. split; [done|]. f_equal.
        apply Hfun; [apply elem_of_app; by left|apply elem_of_app; by right|congruence].
      * right. unfold received_path. by rewrite (Hattr x Hx).
  - assert (~ exists x, x ∈ batch_announced b /\ filed fr x = kr) as Hno by (by rewrite <- Hin). split.
    + intros [(x & Hx & Ex & ->)|[Hq Hn]]; [left; by eauto|]. right. split; [done|]. naive_solver.
    + intros [(x & [Hx|Hx] & Ex & ->)|[Hq Hn]]; [destruct Hno; by eauto|left; by eauto|right]. split; [done|]. naive_solver.
Qed.
End mirror.

(** ** A propagated change *)
Lemma split_prefixes wd : Forall (fun w : Withdrawal => exists prefix, w.1 = KPrefix prefix) wd ->
  exists l, split_withdrawals wd = (l, [], []) /\ map nlri_kr l = wd.
Proof.
  induction 1 as [|[k r] wd (prefix & E) _ (l & El & Em)]; [by exists []|]. cbn in E. subst k. cbn [split_withdrawals].
  rewrite El. eexists. split; [done|]. cbn [map]. by rewrite Em.
Qed.

Section propagated.
Context `{HashOrder} {A : Type} `{PathIdLaws A}.
Variable is_match : Str -> Str -> bool.
Variable checks : bool.
Variables (ctx : PeerExportContext) (delta : RouteDelta) (rib : LocRib A).
Variables (peer : Peer) (fr : MessageFormat) (source : RouteSource).
Hypothesis Hinv : rib_inv rib.
Hypothesis Hpeer : receiver peer fr source.
Hypothesis Hformat : formats_agree (ctx_send_format ctx) fr.

(** The Adj-RIB-In is the image of the Adj-RIB-Out. *)
Definition mirrors (m : OutMap) (mi : InMap) : Prop :=
  forall prefix remote q, held mi (KPrefix prefix, remote) = Some q <->
    exists id p, m !! (KPrefix prefix, id) = Some p /\ remote = wire_id fr (KPrefix prefix) id /\
      q = received_path fr source (attrs (ref_path p)) remote.

Definition ids_ok (m : OutMap) : Prop := forall k id p, m !! (k, id) = Some p -> u32 id.

(** The keys are prefixes the wire can carry, with attributes it can carry. *)
Definition carried (P : RouteKey -> Prop) : Prop :=
  forall key, P key -> exists prefix, key = KPrefix prefix /\ prefix_wire prefix /\
    forall id p, exports is_match checks ctx rib key id p -> sendable fr prefix (attrs (ref_path p)).

(** No message of the family is longer than a message may be. *)
Definition family_fits (out : AdjRibOut) (family : AfiSafi) : Prop :=
  match export_keys is_match checks ctx rib family (add_path_family ctx family) (delta_keys ctx delta family) out with
  | Some (announcements, withdrawals, _) =>
      Forall (batch_fits (ctx_send_format ctx)) (batch_announcements announcements) /\
      match send_withdrawals withdrawals (ctx_send_format ctx) with
      | Some l => Forall (fun bytes => Z.of_nat (length bytes) <= MAX_MESSAGE_SIZE) l
      | None => True
      end
  | None => True
  end.

#[export] Instance family_fits_dec out family : Decision (family_fits out family).
Proof.
  unfold family_fits. destruct (export_keys _ _ _ _ _ _ _ _) as [[[? withdrawals] ?]|]; [|apply _].
  destruct (send_withdrawals withdrawals _); apply _.
Defined.

Lemma receive_withdrawals inrib next mi withdrawals sent :
  ai_repr inrib mi -> Forall (fun w : Withdrawal => exists prefix, w.1 = KPrefix prefix) withdrawals ->
  (forall n, nlri_kr n ∈ withdrawals -> withdrawn_wf fr n) ->
  send_withdrawals withdrawals (ctx_send_format ctx) = Some sent ->
  Forall (fun bytes => Z.of_nat (length bytes) <= MAX_MESSAGE_SIZE) sent ->
  exists inrib' next' mi', receive_all peer fr inrib next sent = Some (inrib', next') /\ ai_repr inrib' mi' /\
    forall kr, held mi' kr = if decide (kr ∈ withdrawals) then None else held mi kr.
Proof.
  intros Hr Hw Hwf. unfold send_withdrawals. destruct (split_prefixes withdrawals Hw) as (l & -> & El). cbn [send_nonempty].
  destruct l as [|n rest]; cbn [send_nonempty]; [|set (l := n :: rest) in *].
  { cbn. intros [= <-] _. cbn in El. subst withdrawals. exists inrib, next, mi. split; [done|]. split; [done|]. intros kr.
    by rewrite decide_False by apply not_elem_of_nil. }
  destruct (new_withdraw l (ctx_send_format ctx)) as [m|] eqn:Em; [|done]. cbn [mbind option_bind].
  destruct (serialize_update m) as [bytes|] eqn:Eb; [|done]. cbn [mbind option_bind app]. intros [= <-] [Hsize _]%Forall_cons.
  destruct (receive_withdraw peer fr source inrib next mi (ctx_send_format ctx) l bytes Hpeer Hformat) as (inrib' & next' & mi' & E & Hr' & Hm');
    [|done|by rewrite Em|done|].
  { apply Forall_forall. intros x Hx. apply Hwf. rewrite <- El. by apply list_elem_of_fmap_2. }
  exists inrib', next', mi'. cbn [receive_all]. rewrite E. split; [done|]. split; [done|]. intros kr. by rewrite Hm', El.
Qed.

(** What the announcements of a family tell the receiver. *)
Definition told (announcements : list RoutePath) (kr : RouteKey * option Z) (q : Path) : Prop :=
  exists r id, r ∈ announcements /\ out_id r = Some id /\ kr = (rp_key r, wire_id fr (rp_key r) id) /\
    q = received_path fr source (attrs (ref_path (rp_path r))) kr.2.

Lemma receive_announcements inrib next mi v4 announcements sent :
  ai_repr inrib mi -> Forall (fun r => good fr v4 (announced r)) announcements ->
  Forall (batch_fits (ctx_send_format ctx)) (batch_announcements announcements) ->
  (forall r r' : RoutePath, r ∈ announcements -> r' ∈ announcements -> filed fr (announced r) = filed fr (announced r') ->
     attrs (ref_path (rp_path r)) = attrs (ref_path (rp_path r'))) ->
  send_batched_announcements announcements (ctx_send_format ctx) = Some sent ->
  exists inrib' next' mi', receive_all peer fr inrib next sent = Some (inrib', next') /\ ai_repr inrib' mi' /\
    forall kr q, held mi' kr = Some q <-> told announcements kr q \/ (held mi kr = Some q /\ ~ exists q', told announcements kr q').
Proof.
  intros Hr Hg Hfit Hfun Es. destruct (batches_ok announcements) as (Hok & Hperm & _).
  assert (forall x, x ∈ concat (map batch_announced (batch_announcements announcements)) <-> exists r, x = announced r /\ r ∈ announcements) as Hin.
  { intros x. rewrite Hperm. apply list_elem_of_fmap. }
  destruct (receive_batches peer fr source (ctx_send_format ctx) v4 Hpeer Hformat _ inrib next mi sent Hr Hok) as (inrib' & next' & mi' & E & Hr' & Hm');
    [|done| |done|].
  - apply Forall_forall. intros x (r & -> & Hx)%Hin. rewrite Forall_forall in Hg. by apply Hg.
  - intros x y (r & -> & Hx)%Hin (r' & -> & Hy)%Hin. by apply Hfun.
  - exists inrib', next', mi'. split; [done|]. split; [done|]. intros kr q. rewrite Hm'.
    assert (forall q, told announcements kr q <-> exists x, x ∈ concat (map batch_announced (batch_announcements announcements)) /\
      filed fr x = kr /\ q = received_path fr source x.1.2 kr.2) as Ht.
    { intros q'. setoid_rewrite Hin. rewrite Forall_forall in Hg. split.
      - intros (r & id & Hx & Hid & -> & ->). exists (announced r). split; [by exists r|]. unfold filed, announced. cbn [fst snd].
        unfold out_id in Hid. by rewrite Hid.
      - intros (x & (r & -> & Hx) & <- & ->). destruct (Hg r Hx) as (prefix & id & Ex & _). injection Ex as Ek Eid.
        exists r, id. split; [done|]. split; [done|]. unfold filed, announced. cbn [fst snd]. by rewrite Eid. }
    rewrite <- Ht. setoid_rewrite Ht. apply or_iff_compat_l, and_iff_compat_l. split; intros Hn; contradict Hn.
    + destruct Hn as (q' & x & Hx & Ex & _). by exists x.
    + destruct Hn as (x & Hx & Ex). eexists. exists x. done.
Qed.

(** What the receiver files a route under determines the route: with ADD-PATH
    by its identifier, without because there is only one. *)
Lemma announcements_filed family (P : RouteKey -> Prop) (announcements : list RoutePath) :
  (forall key, P key -> key_afi_safi key = family) ->
  (forall r : RoutePath, r ∈ announcements <-> exists key sel,
     P key /\ selected is_match checks ctx rib (add_path_family ctx family) key sel /\ r ∈ sel) ->
  forall r r' : RoutePath, r ∈ announcements -> r' ∈ announcements -> filed fr (announced r) = filed fr (announced r') ->
    rp_path r = rp_path r'.
Proof.
  intros Hfam Ha r r' Hr Hr' E. pose proof Hr as (key & sel & Hk & Hsel & Hin)%Ha.
  pose proof Hr' as (key' & sel' & Hk' & Hsel' & Hin')%Ha. unfold selected in *.
  destruct (select_local _ _ _ _ _ _ _ _ Hinv Hsel Hin) as [Ek (id & Hid & _)].
  destruct (select_local _ _ _ _ _ _ _ _ Hinv Hsel' Hin') as [Ek' (id' & Hid' & _)].
  unfold filed, announced in E. cbn [fst snd] in E. unfold out_id in Hid, Hid'. rewrite Hid, Hid' in E. cbn [mbind option_bind] in E.
  injection E as Ekk Eid. rewrite Ek, Ek' in Ekk. subst key'. rewrite Hsel in Hsel'. injection Hsel' as <-.
  assert (r = r') as ->; [|done]. unfold wire_id in Eid. rewrite Ek, Ek', (Hfam key Hk) in Eid.
  destruct Hformat as [_ Hmask]. unfold add_path_family in Hsel. rewrite Hmask in Hsel.
  destruct (mask_contains (mf_add_path fr) family).
  - apply (select_functional is_match checks key true rib ctx sel r r' Hinv Hsel Hin Hin'). unfold out_id. congruence.
  - pose proof (select_single _ _ _ _ _ _ Hsel) as Hl. destruct sel as [|x [|y sel]]; cbn in Hl; [by apply not_elem_of_nil in Hin| |lia].
    apply list_elem_of_singleton in Hin, Hin'. congruence.
Qed.

(** The image after the withdrawals and the announcements. *)
Lemma mirrors_step family (handled : RouteKey -> Prop) `{forall k, Decision (handled k)} m m' mi mi1 mi' (announcements : list RoutePath) (withdrawals : list Withdrawal) :
  let ap := add_path_family ctx family in
  mirrors m mi ->
  (forall key, handled key -> add_path_family ctx (key_afi_safi key) = ap) ->
  (forall key id, handled key -> wire_id fr key id = if ap then Some id else None) ->
  (forall key, handled key -> exists sel, selected is_match checks ctx rib ap key sel) ->
  (forall r, r ∈ announcements <-> exists key sel, handled key /\ selected is_match checks ctx rib ap key sel /\ r ∈ sel) ->
  (forall w, w ∈ withdrawals <-> exists key sel, handled key /\ selected is_match checks ctx rib ap key sel /\
     if ap then exists id, w = (key, Some id) /\ is_Some (m !! (key, id)) /\ ~ holds_id sel id
     else w = (key, None) /\ sel = [] /\ exists id, is_Some (m !! (key, id))) ->
  (forall kr, held mi1 kr = if decide (kr ∈ withdrawals) then None else held mi kr) ->
  (forall kr q, held mi' kr = Some q <-> told announcements kr q \/ (held mi1 kr = Some q /\ ~ exists q', told announcements kr q')) ->
  (forall key id p,
    (handled key -> m' !! (key, id) = Some p <-> exports is_match checks ctx rib key id p) /\
    (~ handled key -> m' !! (key, id) = m !! (key, id))) ->
  mirrors m' mi'.
Proof.
  intros ap Hmir Hap Hwid Hs Ha Hw Hm1 Hm2 Hm' prefix remote q. rewrite Hm2.
  assert (forall r, r ∈ announcements -> rp_key r = (KPrefix prefix) -> handled (KPrefix prefix) /\ exists sel, selected is_match checks ctx rib ap (KPrefix prefix) sel /\ r ∈ sel) as Hann.
  { intros r (key & sel & Hh & Hsel & Hin)%Ha Ek. destruct (select_local _ _ _ _ _ _ _ _ Hinv Hsel Hin) as [Ek' _].
    assert (key = (KPrefix prefix)) as -> by congruence. split; [done|by exists sel]. }
  destruct (decide (handled (KPrefix prefix))) as [Hk|Hk].
  - assert (forall id p, m' !! ((KPrefix prefix), id) = Some p <-> exports is_match checks ctx rib (KPrefix prefix) id p) as Hx by (intros id p; by apply (Hm' (KPrefix prefix) id p)).
    destruct (Hs (KPrefix prefix) Hk) as [sel Hsel]. split.
    + intros [(r & id & Hr & Hid & [= Ek ->] & ->)|[Hheld Hn]].
      * destruct (Hann r Hr (eq_sym Ek)) as (_ & s & Hs' & Hin). exists id, (rp_path r). rewrite <- Ek. split_and!; [|done..].
        apply Hx. exists s, r. rewrite (Hap (KPrefix prefix) Hk). split_and!; done.
      * exfalso. rewrite Hm1 in Hheld. destruct (decide _) as [|Hnw]; [done|]. apply Hmir in Hheld as (id & p & Hp & -> & _).
        rewrite (Hwid _ id Hk) in *.
        assert (exists r, r ∈ sel /\ forall id', out_id r = Some id' -> (if ap then Some id' else None) = if ap then Some id else None)
          as (r & Hr & Hrid).
        { destruct ap.
          - destruct (decide (holds_id sel id)) as [(r & Hr & Hid)|Hno]; [exists r; split; [done|]; unfold out_id; congruence|].
            destruct Hnw. apply Hw. exists (KPrefix prefix), sel. split; [done|]. split; [done|]. exists id. split; [done|]. by split; [exists p|].
          - destruct sel as [|r sel]; [|exists r; split; [by left|done]]. destruct Hnw. apply Hw. exists (KPrefix prefix), [].
            split; [done|]. split; [done|]. split; [done|]. split; [done|]. exists id. by exists p. }
        destruct (select_local _ _ _ _ _ _ _ _ Hinv Hsel Hr) as [Ek (id' & Hid' & _)].
        apply Hn. eexists. exists r, id'. split; [apply Ha; by exists (KPrefix prefix), sel|]. split; [done|]. rewrite Ek, (Hwid _ id' Hk).
        split; [|done]. by rewrite (Hrid id' Hid').
    + intros (id & p & (s & r & Hs' & Hin & <- & Hid)%Hx & -> & ->). left. exists r, id.
      rewrite (Hap (KPrefix prefix) Hk) in Hs'. destruct (select_local _ _ _ _ _ _ _ _ Hinv Hs' Hin) as [Ek _].
      split; [apply Ha; by exists (KPrefix prefix), s|]. split; [done|]. rewrite Ek. done.
  - assert (~ exists q', told announcements ((KPrefix prefix), remote) q') as Hno.
    { intros (q' & r & id & Hr & _ & [= Ek _] & _). by destruct (Hann r Hr (eq_sym Ek)). }
    assert (((KPrefix prefix), remote) ∉ withdrawals) as Hnw.
    { intros (key & sel & Hh & _ & Hx)%Hw. apply Hk. destruct ap; [destruct Hx as (id & [= <- _] & _)|destruct Hx as [[= <- _] _]]; done. }
    assert (forall id, m' !! (KPrefix prefix, id) = m !! (KPrefix prefix, id)) as Hsame.
    { intros id. apply option_eq. intros p. by rewrite (proj2 (Hm' (KPrefix prefix) id p) Hk). }
    rewrite Hm1, decide_False by done. setoid_rewrite Hsame. rewrite <- (Hmir prefix remote q). split.
    + intros [Ht|[Hq _]]; [destruct Hno; by exists q|done].
    + intros Hq. by right.
Qed.

Lemma family_mirrored out m family out' sent inrib next mi :
  let handled key := key ∈ delta_keys ctx delta family /\ key_afi_safi key = family in
  ao_repr out m -> ids_ok m -> ai_repr inrib mi -> mirrors m mi ->
  carried handled -> family_fits out family ->
  propagate_family is_match checks ctx delta rib out family = Some (out', sent) ->
  exists m' inrib' next' mi', ao_repr out' m' /\ ids_ok m' /\
    receive_all peer fr inrib next sent = Some (inrib', next') /\ ai_repr inrib' mi' /\ mirrors m' mi'.
Proof.
  intros handled Hr Hids Hri Hmir Hcar Hfit E.
  destruct (propagate_family_ok _ _ _ _ _ _ _ _ _ _ Hinv Hr E) as (m' & Hr' & Hm').
  unfold propagate_family in E. fold (add_path_family ctx family) in E. fold (delta_keys ctx delta family) in E.
  unfold family_fits in Hfit. set (ap := add_path_family ctx family) in *.
  destruct (export_keys _ _ _ _ _ _ _ _) as [[[announcements withdrawals] out1]|] eqn:Ek; [|done]. cbn [mbind option_bind] in E.
  destruct (send_withdrawals withdrawals _) as [w|] eqn:Ew; [|done]. cbn [mbind option_bind] in E.
  destruct (send_batched_announcements announcements _) as [a|] eqn:Ea; [|done]. cbn [mbind option_bind] in E.
  injection E as _ <-. destruct Hfit as [Hfit Hwfit].
  destruct (export_keys_ok _ _ _ _ _ _ _ _ _ _ _ _ Hr Ek) as (Hs & Ha & _ & Hw). fold handled in Hs, Ha, Hw. cbv zeta in *.
  assert (forall key, handled key -> add_path_family ctx (key_afi_safi key) = ap) as Hap by (by intros key [_ ->]).
  assert (forall key id, handled key -> wire_id fr key id = if ap then Some id else None) as Hwid.
  { intros key id [_ Hkey]. unfold wire_id, ap, add_path_family. by rewrite Hkey, (proj2 Hformat). }
  assert (ids_ok m') as Hids'.
  { intros k id p Hp. destruct (Hm' k id p) as [Hin1 Hin2].
    destruct (decide (k ∈ delta_keys ctx delta family /\ key_afi_safi k = family)) as [Hh|Hh].
    - apply (Hin1 Hh) in Hp as (sel & r & Hsel & Hin & <- & Hid).
      destruct (select_local _ _ _ _ _ _ _ _ Hinv Hsel Hin) as [_ (id' & Hid' & Hu)]. unfold out_id in Hid'. congruence.
    - rewrite (Hin2 Hh) in Hp. by eapply Hids. }
  (* the withdrawals *)
  destruct (receive_withdrawals inrib next mi withdrawals w Hri) as (inrib1 & next1 & mi1 & E1 & Hri1 & Hm1); [| |done|done|].
  { apply Forall_forall. intros x (key & sel & Hh & _ & Hx)%Hw. destruct (Hcar key Hh) as (prefix & -> & _). exists prefix.
    destruct ap; [by destruct Hx as (id & -> & _)|by destruct Hx as [-> _]]. }
  { intros n (key & sel & Hh & _ & Hx)%Hw. destruct (Hcar key Hh) as (prefix & -> & Hpw & _).
    assert (exists id, u32 id /\ nlri_kr n = (KPrefix prefix, wire_id fr (KPrefix prefix) id)) as (id & Hu & En).
    { destruct ap; [destruct Hx as (id & -> & [p Hp] & _)|destruct Hx as (-> & _ & id & p & Hp)]; exists id;
        (split; [by eapply Hids|by rewrite Hwid]). }
    pose proof (wire_nlri_ok fr prefix id Hpw Hu) as Hn. destruct n as [np nid]. unfold nlri_kr in En. cbn in En. by injection En as -> ->. }
  (* the announcements *)
  assert (Forall (fun r => good fr (bool_decide (family = ipv4_unicast)) (announced r)) announcements) as Hgood.
  { apply Forall_forall. intros r (key & sel & Hh & Hsel & Hin)%Ha. destruct (Hcar key Hh) as (prefix & -> & Hpw & Hsend).
    destruct (select_local _ _ _ _ _ _ _ _ Hinv Hsel Hin) as [Ekey (id & Hid & Hu)]. exists prefix, id. unfold announced. cbn [fst snd].
    unfold out_id in Hid. rewrite Ekey, Hid. split_and!; try done.
    - destruct Hh as [_ <-]. by destruct prefix.
    - apply (Hsend id). exists sel, r. by rewrite Hap. }
  destruct (receive_announcements inrib1 next1 mi1 (bool_decide (family = ipv4_unicast)) announcements a Hri1 Hgood Hfit) as (inrib' & next' & mi' & E2 & Hri' & Hm2); [|done|].
  { intros r r' Hx Hy Hf. by rewrite (announcements_filed family handled announcements (fun key Hh => proj2 Hh) Ha r r' Hx Hy Hf). }
  exists m', inrib', next', mi'. split; [done|]. split; [done|]. rewrite receive_all_app, E1. cbn [mbind option_bind].
  split; [done|]. split; [done|].
  exact (mirrors_step family handled m m' mi mi1 mi' announcements withdrawals Hmir Hap Hwid Hs Ha Hw Hm1 Hm2 Hm').
Qed.

(** No message of any family is. *)
Fixpoint families_fit (out : AdjRibOut) (families : list AfiSafi) : Prop :=
  match families with
  | [] => True
  | family :: rest =>
      family_fits out family /\
      match propagate_family is_match checks ctx delta rib out family with
      | Some (out', _) => families_fit out' rest
      | None => True
      end
  end.

#[export] Instance families_fit_dec out families : Decision (families_fit out families).
Proof.
  revert out. induction families as [|family families IH]; intros out; cbn [families_fit]; [apply _|].
  destruct (propagate_family _ _ _ _ _ out family) as [[out' ?]|]; apply _.
Defined.

(** The peer's table is the image of ours for the peer. *)
Definition in_sync (out : AdjRibOut) (inrib : AdjRibIn) : Prop :=
  exists m mi, ao_repr out m /\ ids_ok m /\ ai_repr inrib mi /\ mirrors m mi.

Lemma families_mirrored families : forall out out' sent inrib next,
  in_sync out inrib ->
  (forall family, family ∈ families -> carried (fun key => key ∈ delta_keys ctx delta family /\ key_afi_safi key = family)) ->
  families_fit out families ->
  propagate_families is_match checks ctx delta rib out families = Some (out', sent) ->
  exists inrib' next', receive_all peer fr inrib next sent = Some (inrib', next') /\ in_sync out' inrib'.
Proof.
  induction families as [|family families IH]; intros out out' sent inrib next Hsync Hcar Hfit; cbn [propagate_families].
  { intros [= <- <-]. by exists inrib, next. }
  cbn [families_fit] in Hfit. destruct Hfit as [Hf Hfit].
  destruct (propagate_family _ _ _ _ _ out family) as [[out1 s1]|] eqn:E1; [|done]. cbn [mbind option_bind].
  destruct (propagate_families _ _ _ _ _ out1 families) as [[out2 s2]|] eqn:E2; [|done]. cbn [mbind option_bind]. intros [= <- <-].
  destruct Hsync as (m & mi & Hr & Hids & Hri & Hmir).
  destruct (family_mirrored out m family out1 s1 inrib next mi Hr Hids Hri Hmir (Hcar family (list_elem_of_here _ _)) Hf E1)
    as (m1 & inrib1 & next1 & mi1 & Hr1 & Hids1 & Erec & Hri1 & Hmir1).
  destruct (IH out1 out2 s2 inrib1 next1) as (inrib' & next' & Erec' & Hsync'); [by exists m1, mi1| |done|done|].
  { intros f Hin. apply Hcar. by right. }
  exists inrib', next'. rewrite receive_all_app, Erec. by split.
Qed.
End propagated.

(** ** Properties *)

(** C3. The peer learns exactly what our Adj-RIB-Out for it says, for the IP
    families, prefixes and attributes that the wire can carry ([carried]), and
    as long as no message goes over the maximum size ([families_fit]: the code
    drops such a message but records its routes).  When the Adj-RIB-In of the
    peer is the image of our Adj-RIB-Out (the same prefixes, the attributes as
    the wire carries them, the local path identifier as the peer's remote one
    when the family uses ADD-PATH), then after a change is propagated, the
    messages sent are all decoded by the peer, and storing their routes makes
    its Adj-RIB-In the image of the new Adj-RIB-Out. *)
Theorem propagation_mirrored `{HashOrder} {A} `{PathIdLaws A} is_match checks (ctx : PeerExportContext) (delta : RouteDelta)
    (rib : LocRib A) (peer : Peer) (fr : MessageFormat) (source : RouteSource) out out' sent inrib next :
  rib_inv rib -> receiver peer fr source -> formats_agree (ctx_send_format ctx) fr ->
  carried is_match checks ctx rib fr (concerns ctx delta) ->
  in_sync fr source out inrib ->
  families_fit is_match checks ctx delta rib out (ctx_afi_safis ctx) ->
  propagate_routes_to_peer is_match checks ctx delta rib out = Some (out', sent) ->
  exists inrib' next', receive_all peer fr inrib next sent = Some (inrib', next') /\ in_sync fr source out' inrib'.
Proof.
  intros Hinv Hpeer Hformat Hcar Hsync Hfit E.
  refine (families_mirrored is_match checks ctx delta rib peer fr source Hinv Hpeer Hformat _ out out' sent inrib next Hsync _ Hfit E).
  intros family Hfam key [Hk <-]. apply Hcar. by split.
Qed.

(** Both tables are empty when a session comes up. *)
Lemma in_sync_new fr source : in_sync fr source ao_new ai_new.
Proof.
  exists ∅, ∅. split; [apply ao_repr_new|]. split; [by intros k id p ?%lookup_empty_Some|]. split; [apply ai_repr_new|].
  intros prefix remote q. unfold held. rewrite lookup_empty. split; [done|]. intros (id & p & Hp & _). by apply lookup_empty_Some in Hp.
Qed.

(** ** Witnesses *)
#[local] Instance demo_order : HashOrder := insertion_order.

(** A peer of AS 65002. *)
Definition demo_receiver : Peer :=
  with_capabilities (set_four_octet_asn caps_default (Some 65002))
    (with_bgp_id (Some 65000) (peer_new (IpV4 1) (demo_local 65002 9) (demo_config [] ApDisabled true))).
Definition demo_source : RouteSource := Ebgp (IpV4 1) 65000.

Lemma demo_concerns key : concerns demo_ctx demo_delta key -> key = demo_net.
Proof. intros [_ Hk]. apply list_elem_of_singleton. by destruct (key_afi_safi key) as [[] []]. Qed.

Definition demo_exports : list RoutePath :=
  Eval vm_compute in default [] (select_paths_for_export (fun _ _ => false) true demo_net true demo_rib demo_ctx).

Lemma demo_exports_eq : selected (fun _ _ => false) true demo_ctx demo_rib true demo_net demo_exports.
Proof. vm_compute. reflexivity. Qed.

(** A path with an AS path of one sequence and no optional attributes. *)
Lemma plain_path_wf fr next_hop source asns : asns <> [] -> (length asns < 256)%nat -> Forall u32 asns ->
  path_wf fr (mkAttrs IGP [mkSegment AsSequence (Z.of_nat (length asns)) asns] next_hop source
    None None false None [] [] [] [] None [] None).
Proof.
  intros Hne Hlen Hu. assert (0 < length asns)%nat by (destruct asns; [done|cbn; lia]). split; try done; cbn.
  - apply Forall_singleton. unfold segment_wf. cbn. split_and!; [lia|lia|done|exact Hu].
  - split; [apply Forall_nil_2|]. split; [apply Forall_nil_2|apply NoDup_nil_2].
Qed.

Lemma demo_exports_attrs :
  Forall (fun r => let a := attrs (ref_path (rp_path r)) in let asns := path_numbers (pa_as_path a) in
    a = mkAttrs IGP [mkSegment AsSequence (Z.of_nat (length asns)) asns] (NhIpv4 0xC0A80001) (pa_source a)
          None None false None [] [] [] [] None [] None /\ asns <> [] /\ (length asns < 256)%nat /\ Forall u32 asns) demo_exports.
Proof.
  repeat first [apply Forall_cons_2 | apply Forall_nil_2];
    (split; [reflexivity|]); (split; [discriminate|]); (split; [apply Nat.ltb_lt; reflexivity|]);
    repeat first [apply Forall_cons_2 | apply Forall_nil_2]; by vm_compute.
Qed.

Lemma demo_carried : carried (fun _ _ => false) true demo_ctx demo_rib (ctx_send_format demo_ctx) (concerns demo_ctx demo_delta).
Proof.
  intros key ->%demo_concerns. eexists. split; [reflexivity|]. split; [by repeat split; vm_compute|].
  intros id p (sel & r & Hsel & Hin & <- & _).
  assert (sel = demo_exports) as ->.
  { pose proof demo_exports_eq as E. unfold selected in *. change (add_path_family _ _) with true in Hsel.
    rewrite E in Hsel. by injection Hsel. }
  clear Hsel. revert r Hin. apply Forall_forall.
  eapply Forall_impl; [exact demo_exports_attrs|]. intros r (E & Hne & Hlen & Hu). rewrite E.
  split; [by apply plain_path_wf|by eexists; split; [reflexivity|by vm_compute]|done].
Qed.

Lemma demo_fits : families_fit (fun _ _ => false) true demo_ctx demo_delta demo_rib ao_new (ctx_afi_safis demo_ctx).
Proof. apply (bool_decide_unpack _). vm_compute. exact I. Qed.

Lemma propagation_mirrored_witness :
  exists out sent inrib' next',
    propagate_routes_to_peer (fun _ _ => false) true demo_ctx demo_delta demo_rib ao_new = Some (out, sent) /\
    receive_all demo_receiver (ctx_send_format demo_ctx) ai_new 0 sent = Some (inrib', next') /\
    in_sync (ctx_send_format demo_ctx) demo_source out inrib' /\ length sent = 3%nat.
Proof.
  destruct (propagate_routes_to_peer (fun _ _ => false) true demo_ctx demo_delta demo_rib ao_new) as [[out sent]|] eqn:E;
    [|by vm_compute in E].
  destruct (propagation_mirrored (fun _ _ => false) true demo_ctx demo_delta demo_rib demo_receiver (ctx_send_format demo_ctx) demo_source
    ao_new out sent ai_new 0 demo_rib_inv) as (inrib' & next' & Er & Hs).
  - split; [reflexivity|]. exists 65000. split; reflexivity.
  - by split.
  - exact demo_carried.
  - apply in_sync_new.
  - exact demo_fits.
  - exact E.
  - exists out, sent, inrib', next'. split_and!; [done|exact Er|exact Hs|]. vm_compute in E. injection E as _ <-. reflexivity.
Defined.
