(* ===== verification/Server.v ===== *)
(** * The server: its state, and the propagation of routes
    ([bgpgg/src/server/mod.rs], [bgpgg/src/server/propagate.rs], the
    configuration it reads from [conf/src/bgp.rs])

    One task owns the tables and handles one operation at a time.  Its state is
    a [BgpServer]; what it sends to the peer tasks and to the BMP destinations
    is appended to a log of [ServerOutput]s, in order.  A running timer of
    [ServerOpTimers] is its key with its duration.  Sends to a peer's channel
    are logged under the peer's address.

    [interface_link_local] is the system's answer about an interface.  [None]
    is a panic: of a prefix
    trie, of a policy's prefix test ([checks] as in [network_contains]) or of
    the encoder of an UPDATE.  Metrics, log calls and the clock are left out. *)
From S2P Require Import Prelude Wire Net Trie PrefixMap Vrp PathId Notification Nlri BgpLs Attrs Text OpenMsg Msg Path Update PeerCaps Conf Policy Fsm RibTables LocRib Outgoing PeerState.

(** ** State *)
Record ConnectionInfo := mkConnInfo {
  ci_sent_open : OpenMessage;
  ci_received_open : OpenMessage;
  ci_local_address : IpAddr;
  ci_local_port : Z;
  ci_remote_port : Z;
  ci_local_link_local : option Z;
}.
Record ConnectionState := mkConnState {
  cs_state : BgpState;
  cs_asn : option Z;
  cs_bgp_id : option Z;
  cs_conn_info : option ConnectionInfo;
  cs_capabilities : option PeerCapabilities;
}.
(** The default, and [reset]. *)
Definition conn_reset : ConnectionState := mkConnState Idle None None None None.

Definition conn_supports_four_octet_asn (c : ConnectionState) : bool :=
  match cs_capabilities c with Some caps => supports_four_octet_asn caps | None => false end.
Definition conn_has_enhanced_route_refresh (c : ConnectionState) : bool :=
  match cs_capabilities c with Some caps => enhanced_route_refresh caps | None => false end.
Definition conn_negotiated_afi_safis (c : ConnectionState) : gset AfiSafi :=
  match cs_capabilities c with Some caps => multiprotocol caps | None => ∅ end.
Definition conn_send_format (c : ConnectionState) : MessageFormat :=
  match cs_capabilities c with Some caps => send_format caps None | None => PRE_OPEN_FORMAT end.
Definition conn_receive_format (c : ConnectionState) : MessageFormat :=
  match cs_capabilities c with Some caps => receive_format caps None | None => PRE_OPEN_FORMAT end.

Record BmpPeerIdentity := mkIdentity { id_peer_as : Z; id_peer_bgp_id : Z; id_use_4byte_asn : bool }.

(** The keys with a running timer, and how long it was set for. *)
Definition ServerOpTimers : Type := gmap AfiSafi Z.
Definition timers_run (t : ServerOpTimers) (key : AfiSafi) (duration_secs : Z) : ServerOpTimers :=
  <[key := duration_secs]> (delete key t).
Definition timers_cancel (t : ServerOpTimers) (key : AfiSafi) : ServerOpTimers := delete key t.
Definition timers_keys (t : ServerOpTimers) : gset AfiSafi := dom t.

Record PeerInfo := mkPeerInfo {
  pi_admin_state : AdminState;
  pi_import_policies : gmap AfiSafi (list Policy);
  pi_export_policies : gmap AfiSafi (list Policy);
  pi_conn : ConnectionState;
  pi_adj_rib_in : AdjRibIn;
  pi_adj_rib_out : AdjRibOut;
  pi_disabled_afi_safi : gset AfiSafi;
  pi_llgr_timers : ServerOpTimers;
  pi_rr_stale_timers : ServerOpTimers;
  pi_bmp_session : option BmpPeerIdentity;
}.
Definition peer_info_new (admin_down : bool) : PeerInfo :=
  mkPeerInfo (if admin_down then AdminDown else AdminUp) ∅ ∅ conn_reset ai_new ao_new ∅ ∅ ∅ None.
Definition peer_info_eta (p : PeerInfo) : PeerInfo :=
  mkPeerInfo (pi_admin_state p) (pi_import_policies p) (pi_export_policies p) (pi_conn p) (pi_adj_rib_in p)
    (pi_adj_rib_out p) (pi_disabled_afi_safi p) (pi_llgr_timers p) (pi_rr_stale_timers p) (pi_bmp_session p).
Definition with_pi_admin_state v p := ltac:(update_field peer_info_eta pi_admin_state v p).
Definition with_pi_import_policies v p := ltac:(update_field peer_info_eta pi_import_policies v p).
Definition with_pi_export_policies v p := ltac:(update_field peer_info_eta pi_export_policies v p).
Definition with_pi_conn v p := ltac:(update_field peer_info_eta pi_conn v p).
Definition with_pi_adj_rib_in v p := ltac:(update_field peer_info_eta pi_adj_rib_in v p).
Definition with_pi_adj_rib_out v p := ltac:(update_field peer_info_eta pi_adj_rib_out v p).
Definition with_pi_disabled_afi_safi v p := ltac:(update_field peer_info_eta pi_disabled_afi_safi v p).
Definition with_pi_llgr_timers v p := ltac:(update_field peer_info_eta pi_llgr_timers v p).
Definition with_pi_rr_stale_timers v p := ltac:(update_field peer_info_eta pi_rr_stale_timers v p).
Definition with_pi_bmp_session v p := ltac:(update_field peer_info_eta pi_bmp_session v p).

Definition established_conn (p : PeerInfo) : option ConnectionState :=
  if bool_decide (cs_state (pi_conn p) = Established) then Some (pi_conn p) else None.
Definition is_established (p : PeerInfo) : bool := bool_decide (is_Some (established_conn p)).
Definition supports_4byte_asn (p : PeerInfo) : bool :=
  match (c ← established_conn p; cs_capabilities c) with
  | Some caps => supports_four_octet_asn caps
  | None => true
  end.
Definition add_path_receive_mask (p : PeerInfo) : Z :=
  match established_conn p with Some conn => mf_add_path (conn_receive_format conn) | None => 0 end.

(** What the server sends to a peer task. *)
Inductive PeerOp :=
  | SendUpdate (bytes : list Z)
  | LocalRibSent (afi_safi : AfiSafi)
  | SendRouteRefresh (af : Afi) (sf : Safi) (subtype : RouteRefreshSubtype)
  | Shutdown (subcode : CeaseSubcode)
  | HardReset
  | ManualStartOp
  | ManualStopOp
  | ManualStartPassiveOp
  | AutomaticStartOp
  | AutomaticStartPassiveOp.

Inductive BmpOp :=
  | BmpPeerUp (peer_ip : IpAddr) (identity : BmpPeerIdentity) (local_address : IpAddr) (local_port remote_port : Z)
      (sent_open received_open : OpenMessage)
  | BmpPeerDown (peer_ip : IpAddr) (identity : BmpPeerIdentity) (reason : PeerDownReason)
  | BmpRouteMonitoring (peer_ip : IpAddr) (peer_as peer_bgp_id : Z) (update : UpdateMessage).

Inductive ServerOutput := ToPeer (peer_ip : IpAddr) (op : PeerOp) | ToBmp (op : BmpOp).

Record BgpServer A := mkServer {
  sv_peers : gmap IpAddr PeerInfo;
  sv_loc_rib : LocRib A;
  sv_config : BgpConfig;
  sv_policies : gmap Str Policy;
  sv_local_addr : IpAddr;
  sv_vrp_table : VrpTable;
  sv_log : list ServerOutput;
}.
Arguments mkServer {A}.
Arguments sv_peers {A}.
Arguments sv_loc_rib {A}.
Arguments sv_config {A}.
Arguments sv_policies {A}.
Arguments sv_local_addr {A}.
Arguments sv_vrp_table {A}.
Arguments sv_log {A}.

Section server.
Context {A : Type} `{PathIdAllocator A} `{HashOrder} {Sorts : SortBy}.
Variable is_match : Str -> Str -> bool.
Variable checks : bool.
Implicit Types s : BgpServer A.

Definition with_peers s peers : BgpServer A :=
  mkServer peers (sv_loc_rib s) (sv_config s) (sv_policies s) (sv_local_addr s) (sv_vrp_table s) (sv_log s).
Definition with_loc_rib s rib : BgpServer A :=
  mkServer (sv_peers s) rib (sv_config s) (sv_policies s) (sv_local_addr s) (sv_vrp_table s) (sv_log s).
Definition with_vrp_table s t : BgpServer A :=
  mkServer (sv_peers s) (sv_loc_rib s) (sv_config s) (sv_policies s) (sv_local_addr s) t (sv_log s).
Definition emit s (outputs : list ServerOutput) : BgpServer A :=
  mkServer (sv_peers s) (sv_loc_rib s) (sv_config s) (sv_policies s) (sv_local_addr s) (sv_vrp_table s) (sv_log s ++ outputs).

(** [peers.get_mut(..)] followed by a change of the entry. *)
Definition update_peer s (peer_ip : IpAddr) (f : PeerInfo -> PeerInfo) : BgpServer A :=
  with_peers s (alter f peer_ip (sv_peers s)).
Definition set_peer s (peer_ip : IpAddr) (p : PeerInfo) : BgpServer A := with_peers s (<[peer_ip := p]> (sv_peers s)).

Definition broadcast_bmp s (op : BmpOp) : BgpServer A := emit s [ToBmp op].

(** ** Policies of a peer *)
Definition resolve_policies s (policy_names : list Str) (is_ebgp : bool) : list Policy :=
  omap (fun name => sv_policies s !! name) policy_names ++ [if is_ebgp then deny_all else permit_all].

(** [by_family], where the last entry of a family counts. *)
Definition policy_names (cfg : PeerConfig) : gmap AfiSafi (list Str * list Str) :=
  let by_family := foldl (fun m c => <[ac_afi_safi c := (ac_import_policy c, ac_export_policy c)]> m) ∅ (cp_afi_safis cfg) in
  if bool_decide (by_family = ∅) then {[mkAfiSafi Afi_Ipv4 Unicast := ([], [])]} else by_family.

Definition build_peer_policies s (cfg : PeerConfig) (is_ebgp : bool)
    : gmap AfiSafi (list Policy) * gmap AfiSafi (list Policy) :=
  ((fun names : list Str * list Str => resolve_policies s names.1 is_ebgp) <$> policy_names cfg,
   (fun names : list Str * list Str => resolve_policies s names.2 is_ebgp) <$> policy_names cfg).

(** ** Propagation *)
Definition export_context s (peer_addr : IpAddr) (entry : PeerInfo) (cfg : PeerConfig) (conn : ConnectionState)
    (caps : PeerCapabilities) (peer_asn : Z) : PeerExportContext :=
  mkExport peer_addr (cf_asn (sv_config s)) peer_asn
    (match cs_conn_info conn with Some ci => ci_local_address ci | None => sv_local_addr s end)
    (ci ← cs_conn_info conn; ci_local_link_local ci)
    (pi_export_policies entry) (cp_rr_client cfg) (cp_rs_client cfg) (effective_cluster_id (sv_config s))
    (conn_send_format conn) (conn_negotiated_afi_safis conn) (cp_next_hop_self cfg) (cp_graceful_shutdown cfg)
    caps (cp_send_rpki_community cfg).

(** [propagate_routes_to_peer] with the peer's entry: the new Adj-RIB-Out, and
    the messages sent. *)
Definition propagate_to s (delta : RouteDelta) (peer_addr : IpAddr) (entry : PeerInfo) (ctx : PeerExportContext)
    : option (BgpServer A) :=
  '(adj_rib_out, sent) ← propagate_routes_to_peer is_match checks ctx delta (sv_loc_rib s) (pi_adj_rib_out entry);
  Some (emit (set_peer s peer_addr (with_pi_adj_rib_out adj_rib_out entry)) (map (fun b => ToPeer peer_addr (SendUpdate b)) sent)).

(** The configurations by address, where the last one counts. *)
Definition peer_cfg_by_ip s : gmap IpAddr PeerConfig :=
  foldl (fun m cfg => match cp_ip cfg with Some ip => <[ip := cfg]> m | None => m end) ∅ (cf_peers (sv_config s)).

(** The context of a peer that changes are propagated to. *)
Definition propagation_context s (originating_peer : option IpAddr) (peer_addr : IpAddr) (entry : PeerInfo)
    : option PeerExportContext :=
  peer_cfg ← peer_cfg_by_ip s !! peer_addr;
  conn ← established_conn entry;
  if negb (should_propagate_to_peer peer_addr (cs_state conn) originating_peer) then None
  else
    caps ← cs_capabilities conn;
    Some (export_context s peer_addr entry peer_cfg conn caps (default (cf_asn (sv_config s)) (cs_asn conn))).

(** The loop of [propagate_routes] over the peers. *)
Fixpoint propagate_peers (delta : RouteDelta) (originating_peer : option IpAddr) (l : list (IpAddr * PeerInfo)) s
    : option (BgpServer A) :=
  match l with
  | [] => Some s
  | (peer_addr, entry) :: rest =>
      match propagation_context s originating_peer peer_addr entry with
      | None => propagate_peers delta originating_peer rest s
      | Some ctx =>
          s ← propagate_to s delta peer_addr entry ctx;
          propagate_peers delta originating_peer rest s
      end
  end.

Definition propagate_routes s (delta : RouteDelta) (originating_peer : option IpAddr) : option (BgpServer A) :=
  if negb (has_changes delta) then Some s
  else propagate_peers delta originating_peer (hash_order (map_to_list (sv_peers s))) s.

Definition resendable (af : Afi) (sf : Safi) : bool :=
  match af, sf with
  | (Afi_Ipv4 | Afi_Ipv6), Unicast | Afi_LinkState, (Safi_LinkState | LinkStateVpn) => true
  | _, _ => false
  end.

(** The context of a peer the table is sent to again. *)
Definition resend_context s (peer_ip : IpAddr) (entry : PeerInfo) : option PeerExportContext :=
  conn ← established_conn entry;
  peer_asn ← cs_asn conn;
  caps ← cs_capabilities conn;
  peer_cfg ← find_peer (sv_config s) peer_ip;
  Some (export_context s peer_ip entry peer_cfg conn caps peer_asn).

Definition resend_routes_to_peer s (peer_ip : IpAddr) (af : Afi) (sf : Safi) : option (BgpServer A) :=
  match sv_peers s !! peer_ip with
  | None => Some s
  | Some entry =>
      if negb (resendable af sf) then Some s
      else match resend_context s peer_ip entry with
           | None => Some s
           | Some ctx =>
               let all_keys := map route_key (get_routes (sv_loc_rib s) (Some (mkAfiSafi af sf))) in
               propagate_to s (mkDelta all_keys all_keys) peer_ip entry ctx
           end
  end.

(** ** Route monitoring *)
Definition monitor_message s (peer_ip : IpAddr) (peer_as peer_bgp_id : Z) (update : UpdateMessage) : BgpServer A :=
  broadcast_bmp s (BmpRouteMonitoring peer_ip peer_as peer_bgp_id update).

(** A message for a list, when it is not empty. *)
Definition monitor_nonempty {B} s (peer_ip : IpAddr) (peer_as peer_bgp_id : Z) (l : list B)
    (build : list B -> option UpdateMessage) : option (BgpServer A) :=
  match l with
  | [] => Some s
  | _ => update ← build l; Some (monitor_message s peer_ip peer_as peer_bgp_id update)
  end.

Fixpoint monitor_batches s (peer_ip : IpAddr) (peer_as peer_bgp_id : Z) (format : MessageFormat)
    (batches : list AnnouncementBatch) : option (BgpServer A) :=
  match batches with
  | [] => Some s
  | b :: rest =>
      update ← to_update b format;
      monitor_batches (monitor_message s peer_ip peer_as peer_bgp_id update) peer_ip peer_as peer_bgp_id format rest
  end.

Definition send_bmp_route_monitoring s (peer_ip : IpAddr) (peer_as peer_bgp_id : Z) (withdrawn : list Withdrawal)
    (announced : list RoutePath) : option (BgpServer A) :=
  let use_4byte_asn := match sv_peers s !! peer_ip with Some p => supports_4byte_asn p | None => true end in
  let add_path := match sv_peers s !! peer_ip with Some p => add_path_receive_mask p | None => 0 end in
  let format := mkFormat use_4byte_asn add_path false false in
  let '(ip_withdrawn, ls_withdrawn, ls_vpn_withdrawn) := split_withdrawals withdrawn in
  s ← monitor_nonempty s peer_ip peer_as peer_bgp_id ip_withdrawn (fun l => new_withdraw l format);
  s ← monitor_nonempty s peer_ip peer_as peer_bgp_id ls_withdrawn (fun l => new_ls_withdraw l ls_family format);
  s ← monitor_nonempty s peer_ip peer_as peer_bgp_id ls_vpn_withdrawn (fun l => new_ls_withdraw l ls_vpn_family format);
  monitor_batches s peer_ip peer_as peer_bgp_id format (batch_announcements announced).
End server.
