(* ===== verification/ServerOps.v ===== *)
(** * The operations of the server ([bgpgg/src/server/ops.rs])

    One function per handler, from the state and the operation to the next
    state; [None] is a panic (see [Server]).  [ext] is the set of addresses of
    paths of which other tasks hold a clone while the operation runs.  The
    replies to statistics and metrics queries are left out: they change
    nothing. *)
From S2P Require Import Prelude Wire Net Trie PrefixMap Vrp PathId Notification Nlri BgpLs Attrs Text OpenMsg Msg Path Update ExtComm PeerCaps Conf Policy Fsm RibTables LocRib Outgoing PeerState Server.

(** ** Checks on received routes *)


(** [validate_afi_safi]: whether the update is processed, and the peer. *)
Fixpoint validate_afi_safi (peer : PeerInfo) (announced : list RoutePath) (negotiated : gset AfiSafi) : bool * PeerInfo :=
  match announced with
  | [] => (true, peer)
  | pp :: rest =>
      let afi_safi := key_afi_safi (rp_key pp) in
      if bool_decide (afi_safi ∈ pi_disabled_afi_safi peer) then (false, peer)
      else if bool_decide (negotiated <> ∅) && bool_decide (afi_safi ∉ negotiated)
      then (false,
            with_pi_disabled_afi_safi ({[afi_safi]} ∪ pi_disabled_afi_safi peer)
              (with_pi_adj_rib_in (ai_drain_afi_safi (pi_adj_rib_in peer) afi_safi).1 peer))
      else validate_afi_safi peer rest negotiated
  end.

Definition check_first_as (path : Path) (peer_asn : Z) : bool :=
  match pa_as_path (attrs path) with
  | [] => true
  | first_segment :: _ =>
      match asn_list first_segment with
      | [] => true
      | leftmost_as :: _ => if leftmost_as =? AS_TRANS then true else leftmost_as =? peer_asn
      end
  end.

(** Treat-as-withdraw. *)
Definition reject_announcements (routes : list PendingRoute) : list PendingRoute :=
  map (fun route =>
    match route with
    | Announce rp => Withdraw (rp_key rp, remote_path_id (ref_path (rp_path rp)))
    | Withdraw w => Withdraw w
    end) routes.

Definition scrub_attrs (a : PathAttrs) : PathAttrs :=
  mkAttrs (pa_origin a) (pa_as_path a) (pa_next_hop a) (pa_source a)
    (if bool_decide (GRACEFUL_SHUTDOWN ∈ pa_communities a) then Some 0 else pa_local_pref a)
    (pa_med a) (pa_atomic_aggregate a) (pa_aggregator a) (pa_communities a)
    (filter (fun ec => is_rpki_state_community ec = false) (pa_extended_communities a))
    (pa_large_communities a) (pa_unknown_attrs a) None [] (pa_ls_attr a).
Definition scrub_path (p : Path) : Path := set_attrs (scrub_attrs (attrs p)) p.

(** [scrub_ebgp_pending_routes].  Every path is also in the Adj-RIB-In, so
    [Arc::make_mut] moves it to a fresh address. *)
Fixpoint scrub_ebgp_pending_routes (next : Z) (routes : list PendingRoute) : list PendingRoute * Z :=
  match routes with
  | [] => ([], next)
  | Announce rp :: rest =>
      let path := mkRef next (scrub_path (ref_path (rp_path rp))) in
      let '(rest, next) := scrub_ebgp_pending_routes (next + 1) rest in
      (Announce (mkRoutePath (rp_key rp) path) :: rest, next)
  | route :: rest =>
      let '(rest, next) := scrub_ebgp_pending_routes next rest in
      (route :: rest, next)
  end.

Definition is_next_hop_local (path : Path) (local_address : option IpAddr) : bool :=
  match local_address with
  | None => false
  | Some local_ip =>
      match pa_next_hop (attrs path), local_ip with
      | NhIpv4 nh, IpV4 local => nh =? local
      | NhIpv6 nh, IpV6 local => nh =? local
      | _, _ => false
      end
  end.

Definition has_as_path_loop (path : Path) (local_asn : Z) : bool :=
  existsb (fun seg => mem local_asn (asn_list seg)) (pa_as_path (attrs path)).

Definition has_route_reflector_loop (path : Path) (local_bgp_id cluster_id : Z) : bool :=
  if bool_decide (pa_originator_id (attrs path) = Some local_bgp_id) then true
  else mem cluster_id (pa_cluster_list (attrs path)).

(** The condition of treat-as-withdraw, on the first announced path. *)
Definition rejects_update (cfg : PeerConfig) (local_asn peer_asn local_bgp_id cluster_id : Z)
    (local_address : option IpAddr) (first_path : Path) : bool :=
  let is_ebgp := negb (peer_asn =? local_asn) in
  (is_ebgp && cp_enforce_first_as cfg && negb (check_first_as first_path peer_asn)) ||
  is_next_hop_local first_path local_address ||
  has_as_path_loop first_path local_asn ||
  (negb is_ebgp && has_route_reflector_loop first_path local_bgp_id cluster_id).

(** ** Import *)
Section import.
Variable is_match : Str -> Str -> bool.
Variable checks : bool.

(** [apply_import]; its loop over the policies is that of
    [evaluate_export_policy]. *)
Definition apply_import (vrp_table : VrpTable) (local_asn : Z) (import_policies : gmap AfiSafi (list Policy))
    (route_key : RouteKey) (path : Path) : option (bool * Path) :=
  path ← (match route_key with
          | KPrefix prefix =>
              state ← validate vrp_table prefix (default local_asn (path_origin_as path));
              Some (set_rpki_state state path)
          | KLinkState _ => Some path
          end);
  let path :=
    if bool_decide (pa_local_pref (attrs path) = None)
    then set_attrs (with_local_pref (Some 100) (attrs path)) path else path in
  evaluate_policies is_match checks (default [] (import_policies !! key_afi_safi route_key)) route_key path.
End import.

(** ** Prefix limits *)
Inductive MaxPrefixOutcome := Within (discard_families : gset AfiSafi) | OverTerminate.

(** The loop over the families of an update. *)
Fixpoint check_max_prefix (limits : gmap AfiSafi MaxPrefixSetting) (rib : AdjRibIn) (families : list AfiSafi)
    (discard_families : gset AfiSafi) : MaxPrefixOutcome :=
  match families with
  | [] => Within discard_families
  | family :: rest =>
      match limits !! family with
      | None => check_max_prefix limits rib rest discard_families
      | Some setting =>
          if mps_limit setting <? Z.of_nat (ai_family_count rib family) then
            match mps_action setting with
            | MaTerminate => OverTerminate
            | MaDiscard => check_max_prefix limits rib rest ({[family]} ∪ discard_families)
            end
          else check_max_prefix limits rib rest discard_families
      end
  end.

Definition discard_routes (discard_families : gset AfiSafi) (routes : list PendingRoute) : list PendingRoute :=
  filter (fun r => match r with
                   | Announce rp => bool_decide (key_afi_safi (rp_key rp) ∉ discard_families)
                   | Withdraw _ => true
                   end = true) routes.

(** ** Operations *)
Inductive ServerEvent :=
  | EvPeer (peer_ip : IpAddr) (op : ServerOp)
  | GracefulRestartTimerExpired (peer_ip : IpAddr) (llgr_afi_safis : list (AfiSafi * Z))
  | LlgrTimerExpired (peer_ip : IpAddr) (afi_safi : AfiSafi)
  | EnhancedRrStaleTimerExpired (peer_ip : IpAddr) (afi_safi : AfiSafi)
  | EvLocalRibSent (peer_ip : IpAddr) (afi_safi : AfiSafi)
  | VrpUpdate (added removed : list Vrp).

Section handlers.
Context {A : Type} `{PathIdAllocator A} `{HashOrder} {Sorts : SortBy}.
Variable is_match : Str -> Str -> bool.
Variable checks : bool.
Variable interface_link_local : Str -> option Z.
Implicit Types s : BgpServer A.

#[local] Abbreviation propagate_routes := (propagate_routes is_match checks).
#[local] Abbreviation resend_routes_to_peer := (resend_routes_to_peer is_match checks).

(** [apply_peer_update] with [apply_import] as its policy, which is called on
    every announced path and may panic. *)
Definition import_routes s (ext : gset Z) (peer_ip : IpAddr) (import_policies : gmap AfiSafi (list Policy))
    (routes : list PendingRoute) : option (LocRib A * RouteDelta) :=
  let policy := apply_import is_match checks (sv_vrp_table s) (cf_asn (sv_config s)) import_policies in
  if existsb (fun r => match r with
                       | Announce rp => bool_decide (policy (rp_key rp) (ref_path (rp_path rp)) = None)
                       | Withdraw _ => false
                       end) routes
  then None
  else apply_peer_update (sv_loc_rib s) ext peer_ip routes (fun key path => default (false, path) (policy key path)).

(** *** Sessions *)
Definition handle_peer_handshake_complete s (peer_ip : IpAddr) (asn : Z) : BgpServer A :=
  let is_ebgp := negb (asn =? cf_asn (sv_config s)) in
  match find_peer (sv_config s) peer_ip with
  | None => s
  | Some cfg =>
      let '(import_policies, export_policies) := build_peer_policies s cfg is_ebgp in
      update_peer s peer_ip (fun peer =>
        let c := pi_conn peer in
        with_pi_export_policies export_policies (with_pi_import_policies import_policies
          (with_pi_conn (mkConnState (cs_state c) (Some asn) (cs_bgp_id c) (cs_conn_info c) (cs_capabilities c)) peer)))
  end.

Definition handle_peer_connection_info s (peer_ip : IpAddr) (local_address : IpAddr) (local_port remote_port : Z)
    (sent_open received_open : OpenMessage) (negotiated_capabilities : PeerCapabilities) : BgpServer A :=
  let local_link_local := cfg ← find_peer (sv_config s) peer_ip; iface ← cp_interface cfg; interface_link_local iface in
  update_peer s peer_ip (fun peer =>
    let c := pi_conn peer in
    with_pi_conn (mkConnState (cs_state c) (cs_asn c) (Some (o_bgp_identifier received_open))
      (Some (mkConnInfo sent_open received_open local_address local_port remote_port local_link_local))
      (Some negotiated_capabilities)) peer).

Definition bmp_peer_down_if_ended s (peer_ip : IpAddr) (reason : PeerDownReason) : BgpServer A :=
  match sv_peers s !! peer_ip with
  | None => s
  | Some peer =>
      if is_established peer then s
      else match pi_bmp_session peer with
           | None => s
           | Some session =>
               update_peer (broadcast_bmp s (BmpPeerDown peer_ip session reason)) peer_ip (with_pi_bmp_session None)
           end
  end.

Fixpoint mark_families_stale (ext : gset Z) (peer_ip : IpAddr) (l : list AfiSafi) (rib : LocRib A) : LocRib A :=
  match l with
  | [] => rib
  | afi_safi :: rest => mark_families_stale ext peer_ip rest (mark_peer_routes_stale rib ext peer_ip afi_safi).1
  end.

Definition handle_peer_disconnected s (ext : gset Z) (peer_ip : IpAddr) (reason : PeerDownReason)
    (gr_afi_safis : list AfiSafi) : option (BgpServer A) :=
  match sv_peers s !! peer_ip with
  | None => Some s
  | Some peer =>
      let was_established := bool_decide (cs_state (pi_conn peer) = Established) in
      let peer := with_pi_rr_stale_timers ∅ (with_pi_adj_rib_out (ao_clear (pi_adj_rib_out peer)) (with_pi_conn conn_reset peer)) in
      let peer :=
        match gr_afi_safis with
        | [] => with_pi_disabled_afi_safi ∅ (with_pi_adj_rib_in (ai_clear (pi_adj_rib_in peer)) peer)
        | _ => peer
        end in
      let s := set_peer s peer_ip peer in
      s ← (match gr_afi_safis with
           | _ :: _ => Some (with_loc_rib s (mark_families_stale ext peer_ip gr_afi_safis (sv_loc_rib s)))
           | [] =>
               if was_established then
                 '(rib, delta) ← remove_routes_from_peer (sv_loc_rib s) peer_ip;
                 propagate_routes (with_loc_rib s rib) delta (Some peer_ip)
               else Some s
           end);
      Some (bmp_peer_down_if_ended s peer_ip reason)
  end.

(** *** Stale routes *)
Definition sweep s (ext : gset Z) (peer_ip : IpAddr) (families : list AfiSafi) : option (BgpServer A * RouteDelta) :=
  '(rib, delta) ← remove_peer_routes_stale (sv_loc_rib s) ext peer_ip families;
  Some (with_loc_rib s rib, delta).

Definition sweep_gr_stale s (ext : gset Z) (peer_ip : IpAddr) (caps : PeerCapabilities) : option (BgpServer A * RouteDelta) :=
  let stale := stale_afi_safis (sv_loc_rib s) peer_ip in
  sweep s ext peer_ip
    (hash_order (match graceful_restart caps with
                 | Some cap => filter_stale (gr_should_clear_stale cap) stale
                 | None => elements stale
                 end)).

Definition sweep_llgr_stale s (ext : gset Z) (peer_ip : IpAddr) (caps : PeerCapabilities) : option (BgpServer A * RouteDelta) :=
  match sv_peers s !! peer_ip with
  | None => Some (s, delta_new)
  | Some peer_info =>
      let stale := timers_keys (pi_llgr_timers peer_info) in
      let to_clear := hash_order (match llgr caps with
                                  | Some cap => filter_stale (llgr_should_clear_stale cap) stale
                                  | None => elements stale
                                  end) in
      let s := set_peer s peer_ip (with_pi_llgr_timers (foldl timers_cancel (pi_llgr_timers peer_info) to_clear) peer_info) in
      sweep s ext peer_ip to_clear
  end.

Definition sweep_stale s (ext : gset Z) (peer_ip : IpAddr) (caps : PeerCapabilities) : option (BgpServer A) :=
  '(s, delta) ← sweep_gr_stale s ext peer_ip caps;
  '(s, more) ← sweep_llgr_stale s ext peer_ip caps;
  propagate_routes s (delta_extend delta more) (Some peer_ip).

Definition sweep_and_propagate s (ext : gset Z) (peer_ip : IpAddr) (afi_safi : AfiSafi) : option (BgpServer A) :=
  '(s, delta) ← sweep s ext peer_ip [afi_safi];
  propagate_routes s delta (Some peer_ip).

Definition clear_stale_afi_safi s (ext : gset Z) (peer_ip : IpAddr) (afi_safi : AfiSafi) : option (BgpServer A) :=
  let s := update_peer s peer_ip (fun p => with_pi_llgr_timers (timers_cancel (pi_llgr_timers p) afi_safi) p) in
  sweep_and_propagate s ext peer_ip afi_safi.

Definition handle_gr_timer_expired s (ext : gset Z) (peer_ip : IpAddr) (llgr_afi_safis : list (AfiSafi * Z))
    : option (BgpServer A) :=
  let stale_afi_safis := hash_order (elements (stale_afi_safis (sv_loc_rib s) peer_ip)) in
  let llgr_map : gmap AfiSafi Z :=
    foldl (fun m e => <[e.1 := e.2]> m) ∅ (filter (fun e => e.2 <> 0) llgr_afi_safis) in
  let llgr := filter (fun a => is_Some (llgr_map !! a)) stale_afi_safis in
  let gr := filter (fun a => ~ is_Some (llgr_map !! a)) stale_afi_safis in
  '(rib, delta) ← remove_peer_routes_stale (sv_loc_rib s) ext peer_ip gr;
  '(rib, more) ← apply_llgr rib ext peer_ip llgr;
  let s := update_peer (with_loc_rib s rib) peer_ip (fun p =>
    with_pi_llgr_timers (foldl (fun t e => timers_run t e.1 e.2) (pi_llgr_timers p) (hash_order (map_to_list llgr_map))) p) in
  propagate_routes s (delta_extend delta more) (Some peer_ip).

(** *** Establishment *)
Fixpoint resend_families s (peer_ip : IpAddr) (l : list AfiSafi) : option (BgpServer A) :=
  match l with
  | [] => Some s
  | a :: rest => s ← resend_routes_to_peer s peer_ip (afi a) (safi a); resend_families s peer_ip rest
  end.

(** The PeerUp message, once per session. *)
Definition bmp_peer_up s (peer_ip : IpAddr) (peer : PeerInfo) (conn : ConnectionState) : BgpServer A :=
  match pi_bmp_session peer, cs_asn conn, cs_bgp_id conn, cs_conn_info conn with
  | None, Some asn, Some bgp_id, Some ci =>
      let session := mkIdentity asn bgp_id (supports_4byte_asn peer) in
      update_peer
        (broadcast_bmp s (BmpPeerUp peer_ip session (ci_local_address ci) (ci_local_port ci) (ci_remote_port ci)
          (ci_sent_open ci) (ci_received_open ci)))
        peer_ip (with_pi_bmp_session (Some session))
  | _, _, _, _ => s
  end.

Definition handle_peer_established s (ext : gset Z) (peer_ip : IpAddr) : option (BgpServer A) :=
  match (peer ← sv_peers s !! peer_ip; conn ← established_conn peer; caps ← cs_capabilities conn; Some (peer, conn, caps)) with
  | None => Some s
  | Some (peer, conn, caps) =>
      let s := bmp_peer_up s peer_ip peer conn in
      s ← sweep_stale s ext peer_ip caps;
      let negotiated_afi_safis := hash_order (caps_afi_safis caps) in
      s ← resend_families s peer_ip negotiated_afi_safis;
      Some (emit s (map (fun a => ToPeer peer_ip (LocalRibSent a)) negotiated_afi_safis))
  end.

Definition handle_peer_state_changed s (ext : gset Z) (peer_ip : IpAddr) (state : BgpState) : option (BgpServer A) :=
  match sv_peers s !! peer_ip with
  | None => Some s
  | Some peer =>
      let c := pi_conn peer in
      let s := set_peer s peer_ip
        (with_pi_conn (mkConnState state (cs_asn c) (cs_bgp_id c) (cs_conn_info c) (cs_capabilities c)) peer) in
      if bool_decide (state = Established) then handle_peer_established s ext peer_ip else Some s
  end.

(** *** Prefix limits *)
Definition handle_max_prefix_terminate s (peer_ip : IpAddr) : option (BgpServer A) :=
  match sv_peers s !! peer_ip with
  | None => Some s
  | Some peer =>
      let bmp_info :=
        conn ← established_conn peer; asn ← cs_asn conn; bgp_id ← cs_bgp_id conn;
        Some (mkIdentity asn bgp_id (supports_4byte_asn peer)) in
      let established := is_established peer in
      let peer := with_pi_adj_rib_out (ao_clear (pi_adj_rib_out peer)) (with_pi_disabled_afi_safi ∅
        (with_pi_adj_rib_in (ai_clear (pi_adj_rib_in peer)) (with_pi_admin_state PrefixLimitReached peer))) in
      let peer := if established then with_pi_conn conn_reset peer else peer in
      let s := set_peer s peer_ip peer in
      let s := if established then emit s [ToPeer peer_ip (Shutdown MaxPrefixesReached)] else s in
      '(rib, delta) ← remove_routes_from_peer (sv_loc_rib s) peer_ip;
      s ← propagate_routes (with_loc_rib s rib) delta (Some peer_ip);
      Some (match bmp_info with
            | Some session =>
                broadcast_bmp s (BmpPeerDown peer_ip session
                  (LocalNotification (mkNotification (ECease MaxPrefixesReached) [])))
            | None => s
            end)
  end.

(** *** Route refresh *)
Definition send_enhanced_route_refresh s (peer_ip : IpAddr) (af : Afi) (sf : Safi) : option (BgpServer A) :=
  if negb (match sv_peers s !! peer_ip with Some p => is_established p | None => false end) then Some s
  else
    s ← resend_routes_to_peer (emit s [ToPeer peer_ip (SendRouteRefresh af sf BoRR)]) peer_ip af sf;
    Some (emit s [ToPeer peer_ip (SendRouteRefresh af sf EoRR)]).

Definition handle_route_refresh s (peer_ip : IpAddr) (af : Afi) (sf : Safi) : option (BgpServer A) :=
  let enhanced :=
    match (p ← sv_peers s !! peer_ip; established_conn p) with
    | Some c => conn_has_enhanced_route_refresh c
    | None => false
    end in
  if enhanced then send_enhanced_route_refresh s peer_ip af sf else resend_routes_to_peer s peer_ip af sf.

Definition handle_route_refresh_borr s (ext : gset Z) (peer_ip : IpAddr) (af : Afi) (sf : Safi) : BgpServer A :=
  let afi_safi := mkAfiSafi af sf in
  let s := with_loc_rib s (mark_peer_routes_stale (sv_loc_rib s) ext peer_ip afi_safi).1 in
  match cf_enhanced_rr_stale_ttl (sv_config s) with
  | Some ttl => update_peer s peer_ip (fun p => with_pi_rr_stale_timers (timers_run (pi_rr_stale_timers p) afi_safi ttl) p)
  | None => s
  end.

Definition handle_route_refresh_eorr s (ext : gset Z) (peer_ip : IpAddr) (af : Afi) (sf : Safi) : option (BgpServer A) :=
  let afi_safi := mkAfiSafi af sf in
  let s := update_peer s peer_ip (fun p => with_pi_rr_stale_timers (timers_cancel (pi_rr_stale_timers p) afi_safi) p) in
  sweep_and_propagate s ext peer_ip afi_safi.

(** *** Updates *)
Definition update_families (routes : list PendingRoute) : gset AfiSafi :=
  list_to_set (map (fun r => key_afi_safi (pending_route_key r)) routes).

(** [max_prefix_for_family] *)
Definition max_prefix_limits (cfg : PeerConfig) (families : gset AfiSafi) : gmap AfiSafi MaxPrefixSetting :=
  list_to_map (omap (fun family => setting ← peer_max_prefix cfg family; Some (family, setting)) (elements families)).

(** The end of [handle_peer_update]: import, propagation and monitoring. *)
Definition import_and_propagate s (ext : gset Z) (peer_ip : IpAddr) (routes : list PendingRoute) : option (BgpServer A) :=
  match sv_peers s !! peer_ip with
  | None => Some s
  | Some peer =>
      '(rib, delta) ← import_routes s ext peer_ip (pi_import_policies peer) routes;
      s ← propagate_routes (with_loc_rib s rib) delta (Some peer_ip);
      match (conn ← established_conn peer; asn ← cs_asn conn; bgp_id ← cs_bgp_id conn; Some (asn, bgp_id)) with
      | Some (asn, bgp_id) =>
          let '(bmp_announced, bmp_withdrawn) := pending_split routes in
          send_bmp_route_monitoring s peer_ip asn bgp_id bmp_withdrawn bmp_announced
      | None => Some s
      end
  end.

Definition handle_peer_update s (ext : gset Z) (peer_ip : IpAddr) (routes : list PendingRoute) : option (BgpServer A) :=
  match (peer ← sv_peers s !! peer_ip; conn ← established_conn peer; asn ← cs_asn conn; Some (peer, conn, asn)) with
  | None => Some s
  | Some (peer, conn, peer_asn) =>
      let local_address := ci ← cs_conn_info conn; Some (ci_local_address ci) in
      let local_asn := cf_asn (sv_config s) in
      let is_ebgp := negb (peer_asn =? local_asn) in
      let peer_cfg := default peer_config_default (find_peer (sv_config s) peer_ip) in
      let limits := max_prefix_limits peer_cfg (update_families routes) in
      let '(announced, withdrawn) := pending_split routes in
      let peer := with_pi_adj_rib_in (store_routes (pi_adj_rib_in peer) announced withdrawn) peer in
      let '(valid, peer) := validate_afi_safi peer announced (conn_negotiated_afi_safis conn) in
      let s := set_peer s peer_ip peer in
      if negb valid then Some s
      else
        let routes :=
          match announced with
          | first :: _ =>
              if rejects_update peer_cfg local_asn peer_asn (cf_router_id (sv_config s)) (effective_cluster_id (sv_config s))
                   local_address (ref_path (rp_path first))
              then reject_announcements routes else routes
          | [] => routes
          end in
        let '(routes, next) :=
          if is_ebgp then scrub_ebgp_pending_routes (lr_next (sv_loc_rib s)) routes
          else (routes, lr_next (sv_loc_rib s)) in
        let s := with_loc_rib s (set_next (sv_loc_rib s) next) in
        match check_max_prefix limits (pi_adj_rib_in peer) (hash_order (elements (update_families routes))) ∅ with
        | OverTerminate => if cp_allow_automatic_stop peer_cfg then handle_max_prefix_terminate s peer_ip else Some s
        | Within discard_families => import_and_propagate s ext peer_ip (discard_routes discard_families routes)
        end
  end.

(** *** Origin validation *)
(** The routes of the Adj-RIBs-In under the prefixes, by peer. *)
Definition peer_affected_routes (prefixes : list IpNetwork) (rib : AdjRibIn) : list RoutePath :=
  concat (map (fun prefix =>
    match ai_get_route rib (KPrefix prefix) with
    | Some route => map (mkRoutePath (KPrefix prefix)) (paths route)
    | None => []
    end) prefixes).
Definition affected_routes s (prefixes : gset IpNetwork) : list (IpAddr * list RoutePath) :=
  omap (fun e : IpAddr * PeerInfo =>
    match peer_affected_routes (hash_order (elements prefixes)) (pi_adj_rib_in e.2) with
    | [] => None
    | routes => Some (e.1, routes)
    end) (hash_order (map_to_list (sv_peers s))).

Fixpoint reevaluate_routes s (ext : gset Z) (routes : list (IpAddr * list RoutePath)) (delta : RouteDelta)
    : option (BgpServer A * RouteDelta) :=
  match routes with
  | [] => Some (s, delta)
  | (peer_ip, peer_routes) :: rest =>
      match sv_peers s !! peer_ip with
      | None => reevaluate_routes s ext rest delta
      | Some peer =>
          '(rib, peer_delta) ← import_routes s ext peer_ip (pi_import_policies peer) (map Announce peer_routes);
          reevaluate_routes (with_loc_rib s rib) ext rest (delta_extend delta peer_delta)
      end
  end.

Definition handle_vrp_update s (ext : gset Z) (added removed : list Vrp) : option (BgpServer A) :=
  t ← vrp_add (sv_vrp_table s) added;
  t ← vrp_remove t removed;
  let s := with_vrp_table s t in
  affected ← affected_prefixes (sv_loc_rib s) added removed;
  if bool_decide (affected = ∅) then Some s
  else
    '(s, delta) ← reevaluate_routes s ext (affected_routes s affected) delta_new;
    if has_changes delta then propagate_routes s delta None else Some s.

(** *** Dispatch *)
Definition handle_server_op s (ext : gset Z) (op : ServerEvent) : option (BgpServer A) :=
  match op with
  | EvPeer peer_ip (PeerStateChanged state) => handle_peer_state_changed s ext peer_ip state
  | EvPeer peer_ip (PeerHandshakeComplete asn) => Some (handle_peer_handshake_complete s peer_ip asn)
  | EvPeer peer_ip (PeerConnectionInfo local_address local_port remote_port sent_open received_open caps) =>
      Some (handle_peer_connection_info s peer_ip local_address local_port remote_port sent_open received_open caps)
  | EvPeer peer_ip (PeerUpdate routes) => handle_peer_update s ext peer_ip routes
  | EvPeer peer_ip (PeerDisconnected reason gr_afi_safis) => handle_peer_disconnected s ext peer_ip reason gr_afi_safis
  | EvPeer peer_ip (SetAdminState state) => Some (update_peer s peer_ip (with_pi_admin_state state))
  | EvPeer peer_ip (SoRouteRefresh af sf) => handle_route_refresh s peer_ip af sf
  | EvPeer peer_ip (SoRouteRefreshBoRR af sf) => Some (handle_route_refresh_borr s ext peer_ip af sf)
  | EvPeer peer_ip (SoRouteRefreshEoRR af sf) => handle_route_refresh_eorr s ext peer_ip af sf
  | EvPeer peer_ip (GracefulRestartComplete afi_safi) => clear_stale_afi_safi s ext peer_ip afi_safi
  | GracefulRestartTimerExpired peer_ip llgr_afi_safis => handle_gr_timer_expired s ext peer_ip llgr_afi_safis
  | LlgrTimerExpired peer_ip afi_safi => clear_stale_afi_safi s ext peer_ip afi_safi
  | EnhancedRrStaleTimerExpired peer_ip afi_safi => sweep_and_propagate s ext peer_ip afi_safi
  | EvLocalRibSent peer_ip afi_safi =>
      Some (match sv_peers s !! peer_ip with
            | Some p => if is_established p then emit s [ToPeer peer_ip (LocalRibSent afi_safi)] else s
            | None => s
            end)
  | VrpUpdate added removed => handle_vrp_update s ext added removed
  end.
End handlers.
