(* ===== verification/ServerMgmt.v ===== *)
(** * The management operations ([bgpgg/src/server/ops_mgmt.rs], and the peers'
    tasks of [bgpgg/src/server/mod.rs])

    The operations that change the state: peers, their policies, local routes,
    resets.  An address is the result of parsing the one in the request;
    [locked] says whether the configuration file could be locked, which the
    operations try first; [negotiated] is the answer of the peer's task to the
    query of its capabilities, and [built] the policy that
    [Policy::from_config] makes of the statements in a request.  Here the
    requests about policies change what the sessions use; [PolicyMgmt] has them
    with the defined sets and the configuration that is written back to disk.
    The listing queries of peers and routes and the operations on BMP stations
    and RPKI caches are left out. *)
From S2P Require Import Prelude Wire Net Trie PrefixMap Vrp PathId Notification Nlri BgpLs Attrs Text OpenMsg Msg Path Update ExtComm PeerCaps Conf Policy Fsm RibTables LocRib Outgoing PeerState Server ServerOps.

(** ** Operations *)
Inductive ResetType := SoftIn | SoftOut | Soft | Hard.
Inductive PolicyDirection := Import | Export.

Inductive MgmtOp :=
  | AddPeer (addr : Str) (config : PeerConfig)
  | RemovePeer (addr : Str)
  | DisablePeer (addr : Str)
  | EnablePeer (addr : Str)
  | ResetPeer (addr : Str) (reset_type : ResetType) (af : option Afi) (sf : option Safi) (negotiated : option (gset AfiSafi))
  | SetPeerGracefulShutdown (addr : Str) (enabled : bool)
  | AddRoute (key : RouteKey) (attrs : PathAttrs)
  | RemoveRoute (key : RouteKey)
  | AddPolicy (name : Str) (built : option Policy)
  | RemovePolicy (name : Str)
  | SetPolicyAssignment (peer_addr : IpAddr) (family : AfiSafi) (direction : PolicyDirection) (policy_names : list Str).

Inductive MgmtError :=
  | NoLock
  | InvalidAddress
  | PeerExists
  | PeerNotFound
  | InvalidConfig (e : PeerConfigError)
  | NotEstablished
  | NoCapabilities
  | NotNegotiated (a : AfiSafi)
  | ReservedPolicyName
  | PolicyNotBuilt
  | PolicyNotFound (name : Str)
  | LocRibRefused (e : LocRibError).

(** What the loop of [BgpServer::run] takes from its channels. *)
Inductive ServerInput :=
  | Event (op : ServerEvent)
  | Request (locked : bool) (op : MgmtOp).

(** What the requester is answered. *)
Abbreviation MgmtAnswer := (MgmtError + unit)%type.

Section mgmt.
Context {A : Type} `{PathIdAllocator A} `{HashOrder} {Sorts : SortBy}.
Variable is_match : Str -> Str -> bool.
Variable checks : bool.
Variable interface_link_local : Str -> option Z.
Implicit Types s : BgpServer A.

Definition with_config s (c : BgpConfig) : BgpServer A :=
  mkServer (sv_peers s) (sv_loc_rib s) c (sv_policies s) (sv_local_addr s) (sv_vrp_table s) (sv_log s).
Definition with_policies s (policies : gmap Str Policy) : BgpServer A :=
  mkServer (sv_peers s) (sv_loc_rib s) (sv_config s) policies (sv_local_addr s) (sv_vrp_table s) (sv_log s).
Definition update_peers_config s (f : list PeerConfig -> list PeerConfig) : BgpServer A :=
  with_config s (with_cf_peers (f (cf_peers (sv_config s))) (sv_config s)).

Definition refuse s (e : MgmtError) : option (BgpServer A * MgmtAnswer) := Some (s, inl e).
Definition answer_ok s : option (BgpServer A * MgmtAnswer) := Some (s, inr tt).

(** *** Peers *)
Definition spawn_and_start_peer s (peer_ip : IpAddr) (config : PeerConfig) : BgpServer A :=
  let s := set_peer s peer_ip (peer_info_new (cp_admin_down config)) in
  if cp_admin_down config then s
  else emit s [ToPeer peer_ip (if cp_passive_mode config then ManualStartPassiveOp else ManualStartOp)].

Definition handle_add_peer s (addr : Str) (config : PeerConfig) : option (BgpServer A * MgmtAnswer) :=
  match parse_ip addr with
  | None => refuse s InvalidAddress
  | Some peer_ip =>
      if bool_decide (is_Some (sv_peers s !! peer_ip)) then refuse s PeerExists
      else
        let config := with_cp_address addr config in
        match validate_peer_config config with
        | Some e => refuse s (InvalidConfig e)
        | None => answer_ok (spawn_and_start_peer (update_peers_config s (fun l => l ++ [config])) peer_ip config)
        end
  end.

Definition shutdown_and_remove_peer s (peer_ip : IpAddr) : option (BgpServer A) :=
  match sv_peers s !! peer_ip with
  | None => Some s
  | Some entry =>
      let s := emit s [ToPeer peer_ip (Shutdown PeerDeconfigured)] in
      let s := match pi_bmp_session entry with
               | Some session => broadcast_bmp s (BmpPeerDown peer_ip session PeerDeConfigured)
               | None => s
               end in
      let s := with_peers s (delete peer_ip (sv_peers s)) in
      '(rib, delta) ← remove_routes_from_peer (sv_loc_rib s) peer_ip;
      Server.propagate_routes is_match checks (with_loc_rib s rib) delta None
  end.

Definition handle_remove_peer s (addr : Str) : option (BgpServer A * MgmtAnswer) :=
  match parse_ip addr with
  | None => refuse s InvalidAddress
  | Some peer_ip =>
      if bool_decide (is_Some (sv_peers s !! peer_ip)) then
        s ← shutdown_and_remove_peer s peer_ip;
        answer_ok (update_peers_config s (remove_first peer_ip))
      else refuse s PeerNotFound
  end.

Definition handle_disable_peer s (addr : Str) : option (BgpServer A * MgmtAnswer) :=
  match parse_ip addr with
  | None => refuse s InvalidAddress
  | Some peer_ip =>
      match sv_peers s !! peer_ip with
      | None => refuse s PeerNotFound
      | Some entry =>
          let s := emit (set_peer s peer_ip (with_pi_admin_state AdminDown entry)) [ToPeer peer_ip ManualStopOp] in
          answer_ok (update_peers_config s (update_first peer_ip (with_cp_admin_down true)))
      end
  end.

Definition handle_enable_peer s (addr : Str) : option (BgpServer A * MgmtAnswer) :=
  match parse_ip addr with
  | None => refuse s InvalidAddress
  | Some peer_ip =>
      let passive := match find_peer (sv_config s) peer_ip with Some cfg => cp_passive_mode cfg | None => false end in
      match sv_peers s !! peer_ip with
      | None => refuse s PeerNotFound
      | Some entry =>
          let s := emit (set_peer s peer_ip (with_pi_admin_state AdminUp entry))
                     [ToPeer peer_ip (if passive then ManualStartPassiveOp else ManualStartOp)] in
          answer_ok (update_peers_config s (update_first peer_ip (with_cp_admin_down false)))
      end
  end.

(** *** Resets *)
Definition handle_reset_hard s (peer_ip : IpAddr) : option (BgpServer A * MgmtAnswer) :=
  match sv_peers s !! peer_ip with
  | None => refuse s PeerNotFound
  | Some peer => if is_established peer then answer_ok (emit s [ToPeer peer_ip HardReset]) else refuse s NotEstablished
  end.

Definition handle_reset_soft_in s (peer_ip : IpAddr) (afi_safis : list AfiSafi) : BgpServer A :=
  match sv_peers s !! peer_ip with
  | Some peer =>
      if is_established peer
      then emit s (map (fun a => ToPeer peer_ip (SendRouteRefresh (afi a) (safi a) Normal)) afi_safis) else s
  | None => s
  end.

Definition handle_reset_soft_out s (peer_ip : IpAddr) (afi_safis : list AfiSafi) : option (BgpServer A * MgmtAnswer) :=
  s ← resend_families is_match checks s peer_ip afi_safis; answer_ok s.

(** [Option::is_none_or] *)
Definition none_or {B} (f : B -> bool) (o : option B) : bool := match o with Some x => f x | None => true end.
(** The families of a reset, from the request and what was negotiated. *)
Definition reset_families (af : option Afi) (sf : option Safi) (negotiated : list AfiSafi) : MgmtError + list AfiSafi :=
  match af, sf with
  | Some a, Some f =>
      if bool_decide (mkAfiSafi a f ∈ negotiated) then inr [mkAfiSafi a f] else inl (NotNegotiated (mkAfiSafi a f))
  | _, _ =>
      inr (filter (fun cap => none_or (fun a => bool_decide (afi cap = a)) af && none_or (fun f => bool_decide (safi cap = f)) sf = true) negotiated)
  end.

Definition handle_reset_peer s (addr : Str) (reset_type : ResetType) (af : option Afi) (sf : option Safi)
    (negotiated : option (gset AfiSafi)) : option (BgpServer A * MgmtAnswer) :=
  match parse_ip addr with
  | None => refuse s InvalidAddress
  | Some peer_ip =>
      match sv_peers s !! peer_ip with
      | None => refuse s PeerNotFound
      | Some entry =>
          if negb (is_established entry) then refuse s NotEstablished
          else
            match negotiated with
            | None => refuse s NoCapabilities
            | Some caps =>
                if bool_decide (caps = ∅) then refuse s NoCapabilities
                else
                  match reset_families af sf (hash_order (elements caps)) with
                  | inl e => refuse s e
                  | inr afi_safis =>
                      match reset_type with
                      | SoftIn => answer_ok (handle_reset_soft_in s peer_ip afi_safis)
                      | SoftOut => handle_reset_soft_out s peer_ip afi_safis
                      | Soft => handle_reset_soft_out (handle_reset_soft_in s peer_ip afi_safis) peer_ip afi_safis
                      | Hard => handle_reset_hard s peer_ip
                      end
                  end
            end
      end
  end.

Definition handle_set_peer_graceful_shutdown s (addr : Str) (enabled : bool) : option (BgpServer A * MgmtAnswer) :=
  match parse_ip addr with
  | None => refuse s InvalidAddress
  | Some peer_ip =>
      match sv_peers s !! peer_ip with
      | None => refuse s PeerNotFound
      | Some entry =>
          let afi_safis :=
            match established_conn entry with
            | Some conn => hash_order (elements (conn_negotiated_afi_safis conn))
            | None => []
            end in
          s ← resend_families is_match checks
                (update_peers_config s (update_first peer_ip (with_cp_graceful_shutdown enabled))) peer_ip afi_safis;
          answer_ok s
      end
  end.

(** *** Local routes *)
Definition handle_add_route s (ext : gset Z) (key : RouteKey) (attrs : PathAttrs) : option (BgpServer A * MgmtAnswer) :=
  let key := match key with
             | KLinkState nlri => KLinkState (set_identifier nlri (lsc_instance_id (cf_bgp_ls (sv_config s))))
             | KPrefix _ => key
             end in
  '(rib, result) ← add_local_route (sv_loc_rib s) ext key attrs;
  match result with
  | inr delta => s ← Server.propagate_routes is_match checks (with_loc_rib s rib) delta None; answer_ok s
  | inl e => refuse (with_loc_rib s rib) (LocRibRefused e)
  end.

Definition handle_remove_route s (key : RouteKey) : option (BgpServer A * MgmtAnswer) :=
  '(rib, delta) ← remove_local_route (sv_loc_rib s) key;
  s ← Server.propagate_routes is_match checks (with_loc_rib s rib) delta None;
  answer_ok s.

(** *** Policies *)
(** [str::starts_with] of a character *)
Definition starts_with (c : Z) (name : Str) : bool := match name with d :: _ => d =? c | [] => false end.

Definition handle_add_policy s (name : Str) (built : option Policy) : option (BgpServer A * MgmtAnswer) :=
  if starts_with 95 name then refuse s ReservedPolicyName
  else match built with
       | Some policy => answer_ok (with_policies s (<[name := policy]> (sv_policies s)))
       | None => refuse s PolicyNotBuilt
       end.

Definition handle_remove_policy s (name : Str) : option (BgpServer A * MgmtAnswer) :=
  answer_ok (with_policies s (delete name (sv_policies s))).

(** The policies of the names, or the first name without one. *)
Fixpoint resolve_names s (names : list Str) : Str + list Policy :=
  match names with
  | [] => inr []
  | name :: rest =>
      match sv_policies s !! name with
      | None => inl name
      | Some policy => match resolve_names s rest with inr l => inr (policy :: l) | inl missing => inl missing end
      end
  end.

Definition assign_family (direction : PolicyDirection) (names : list Str) (c : AfiSafiConfig) : AfiSafiConfig :=
  match direction with
  | Import => mkAfiSafiConfig (ac_afi c) (ac_safi c) (ac_max_prefix c) (ac_add_path_send c) names (ac_export_policy c)
  | Export => mkAfiSafiConfig (ac_afi c) (ac_safi c) (ac_max_prefix c) (ac_add_path_send c) (ac_import_policy c) names
  end.

Definition handle_set_policy_assignment s (peer_addr : IpAddr) (family : AfiSafi) (direction : PolicyDirection)
    (names : list Str) : option (BgpServer A * MgmtAnswer) :=
  match resolve_names s names with
  | inl name => refuse s (PolicyNotFound name)
  | inr resolved_policies =>
      match sv_peers s !! peer_addr with
      | None => refuse s PeerNotFound
      | Some peer =>
          let peer :=
            match direction with
            | Import => with_pi_import_policies (<[family := resolved_policies]> (pi_import_policies peer)) peer
            | Export => with_pi_export_policies (<[family := resolved_policies]> (pi_export_policies peer)) peer
            end in
          answer_ok (update_peers_config (set_peer s peer_addr peer) (update_first peer_addr (fun cfg =>
            with_cp_afi_safis (afi_safi_entry_mut (cp_afi_safis cfg) (afi family) (safi family) (assign_family direction names)) cfg)))
      end
  end.

(** *** Dispatch *)
Definition needs_lock (op : MgmtOp) : bool :=
  match op with ResetPeer _ _ _ _ _ | AddRoute _ _ | RemoveRoute _ => false | _ => true end.

Definition handle_mgmt_op s (ext : gset Z) (locked : bool) (op : MgmtOp) : option (BgpServer A * MgmtAnswer) :=
  if needs_lock op && negb locked then refuse s NoLock
  else
    match op with
    | AddPeer addr config => handle_add_peer s addr config
    | RemovePeer addr => handle_remove_peer s addr
    | DisablePeer addr => handle_disable_peer s addr
    | EnablePeer addr => handle_enable_peer s addr
    | ResetPeer addr reset_type af sf negotiated => handle_reset_peer s addr reset_type af sf negotiated
    | SetPeerGracefulShutdown addr enabled => handle_set_peer_graceful_shutdown s addr enabled
    | AddRoute key attrs => handle_add_route s ext key attrs
    | RemoveRoute key => handle_remove_route s key
    | AddPolicy name built => handle_add_policy s name built
    | RemovePolicy name => handle_remove_policy s name
    | SetPolicyAssignment peer_addr family direction names => handle_set_policy_assignment s peer_addr family direction names
    end.

(** *** The loop *)
Definition server_step s (ext : gset Z) (input : ServerInput) : option (BgpServer A) :=
  match input with
  | Event op => handle_server_op is_match checks interface_link_local s ext op
  | Request locked op => fst <$> handle_mgmt_op s ext locked op
  end.

Fixpoint run_server s (ext : gset Z) (inputs : list ServerInput) : option (BgpServer A) :=
  match inputs with
  | [] => Some s
  | input :: rest => s ← server_step s ext input; run_server s ext rest
  end.
End mgmt.
