(* ===== verification/ServerSync.v ===== *)
(** * The peers' tables follow the Loc-RIB

    What it means that the Adj-RIB-Out of a peer is the export of the Loc-RIB,
    what a change of the Loc-RIB must report for the propagation to keep it so,
    and the frame of [propagate_routes]: of a peer's entry only the Adj-RIB-Out
    changes, and nothing of the server but the entries and the log. *)
From S2P Require Import Prelude Wire Net Trie TrieSpec PrefixMap Vrp PathId Notification Nlri BgpLs BgpLsParse Attrs BgpLsAttr Text OpenMsg Msg Path UpdateCodec UpdateCodecSpec Update ExtComm PeerCaps Conf Policy Fsm RibTables LocRib Outgoing PeerState LocRibInv LocRibSpec LocRibPeer LocRibStale LocRibSort LocRibOps Propagate Server ServerOps.

(** ** What is exported does not depend on the stale marks *)
Section unmarked.
Variable is_match : Str -> Str -> bool.
Variable checks : bool.

Lemma condition_matches_stale c key b p :
  condition_matches is_match checks c key (set_stale b p) = condition_matches is_match checks c key p.
Proof. by destruct c. Qed.

Lemma statement_matches_stale s key b p :
  statement_matches is_match checks s key (set_stale b p) = statement_matches is_match checks s key p.
Proof.
  unfold statement_matches. destruct (bool_decide _); [done|]. induction (conditions s) as [|c l IH]; [done|].
  cbn [all_opt]. by rewrite condition_matches_stale, IH.
Qed.

Lemma action_apply_stale a b p : action_apply a (set_stale b p) = ((action_apply a p).1, set_stale b (action_apply a p).2).
Proof. destruct a; try done. cbn. by destruct (force || _). Qed.

Lemma apply_actions_stale l b : forall ok p,
  apply_actions l ok (set_stale b p) = ((apply_actions l ok p).1, set_stale b (apply_actions l ok p).2).
Proof.
  induction l as [|a l IH]; intros ok p; [done|]. cbn [apply_actions]. rewrite action_apply_stale.
  destruct (action_apply a p) as [ok' p']. cbn [fst snd]. apply IH.
Qed.

Lemma evaluate_stale l key b p :
  evaluate_statements is_match checks l key (set_stale b p) =
    (fun r => (r.1, set_stale b r.2)) <$> evaluate_statements is_match checks l key p.
Proof.
  induction l as [|s l IH]; [done|]. cbn [evaluate_statements]. unfold statement_apply. rewrite statement_matches_stale.
  destruct (statement_matches _ _ s key p) as [[]|]; cbn [mbind option_bind]; [|exact IH|done].
  rewrite apply_actions_stale. by destruct (apply_actions (actions s) true p).
Qed.

Lemma evaluate_policies_stale l key b p :
  evaluate_policies is_match checks l key (set_stale b p) =
    (fun r => (r.1, set_stale b r.2)) <$> evaluate_policies is_match checks l key p.
Proof.
  induction l as [|q l IH]; [done|]. cbn [evaluate_policies]. unfold evaluate. rewrite evaluate_stale.
  destruct (evaluate_statements _ _ (statements q) key p) as [[[] p']|] eqn:E; cbn [fmap option_fmap option_map mbind option_bind fst snd]; try done.
  (* the verdict of a statement that does not match leaves the path *)
  assert (p' = p) as ->.
  { clear IH. revert E. induction (statements q) as [|s l' IH]; cbn [evaluate_statements]; [by intros [= ->]|].
    unfold statement_apply. destruct (statement_matches _ _ s key p) as [[]|]; cbn [mbind option_bind]; [|done|done].
    destruct (apply_actions (actions s) true p) as [[] ?]; done. }
  exact IH.
Qed.

Lemma compute_export_stale key b p ctx :
  compute_export_path is_match checks key (set_stale b p) ctx = compute_export_path is_match checks key p ctx.
Proof.
  unfold compute_export_path. change (should_export_to_peer (set_stale b p) ctx) with (should_export_to_peer p ctx).
  destruct (negb (should_export_to_peer p ctx)); [done|]. rewrite evaluate_policies_stale.
  by destruct (evaluate_policies _ _ _ key p) as [[ok p']|].
Qed.
End unmarked.

(** A path without its mark; what a table holds, and prefers, up to the marks. *)
Definition unmarked (p : PathRef) : Path := set_stale false (ref_path p).
Definition held_paths {A} (rib : LocRib A) (key : RouteKey) : list Path := map unmarked (get_all_paths rib key).
Definition held_best_path {A} (rib : LocRib A) (key : RouteKey) : option Path := unmarked <$> get_best_path rib key.

Section exports.
Context `{HashOrder} {A : Type} `{PathIdLaws A}.
Variable is_match : Str -> Str -> bool.
Variable checks : bool.
Implicit Types (rib : LocRib A) (ctx : PeerExportContext) (key : RouteKey).

Lemma export_unmarked key p q ctx : unmarked p = unmarked q ->
  compute_export_path is_match checks key (ref_path p) ctx = compute_export_path is_match checks key (ref_path q) ctx.
Proof.
  intros E. rewrite <- (compute_export_stale is_match checks key false (ref_path p)).
  rewrite <- (compute_export_stale is_match checks key false (ref_path q)). unfold unmarked in E. by rewrite E.
Qed.

Lemma map_cons_inv {B C} (f : B -> C) x l y l' : map f (x :: l) = map f (y :: l') -> f x = f y /\ map f l = map f l'.
Proof. cbn [map]. intros E. split; [exact (f_equal (fun l => default (f x) (head l)) E)|exact (f_equal tail E)]. Qed.

Lemma compute_routes_unmarked key ctx : forall l l' : list PathRef, map unmarked l = map unmarked l' ->
  compute_routes_for_peer is_match checks (map (mkRoutePath key) l) ctx =
  compute_routes_for_peer is_match checks (map (mkRoutePath key) l') ctx.
Proof.
  unfold compute_routes_for_peer. induction l as [|p l IH]; intros [|q l'] E; [done..|].
  apply map_cons_inv in E as [Ep El]. cbn [map try_filter_map].
  rewrite (IH l') by done.
  assert (export_route_path is_match checks ctx (mkRoutePath key p) = export_route_path is_match checks ctx (mkRoutePath key q)) as ->;
    [|done].
  unfold export_route_path. cbn [rp_key rp_path]. by rewrite (export_unmarked key p q ctx).
Qed.

Lemma first_exported_unmarked key ctx : forall l l' : list PathRef, map unmarked l = map unmarked l' ->
  first_exported is_match checks key ctx l = first_exported is_match checks key ctx l'.
Proof.
  induction l as [|p l IH]; intros [|q l'] E; [done..|].
  apply map_cons_inv in E as [Ep El]. cbn [first_exported].
  rewrite (export_unmarked key p q ctx) by done. by rewrite (IH l').
Qed.

(** Tables that agree on a key export the same under it. *)
Lemma select_same key ap rib rib' ctx :
  (ap || ctx_rs_client ctx = true -> held_paths rib key = held_paths rib' key) ->
  (ap || ctx_rs_client ctx = false -> held_best_path rib key = held_best_path rib' key) ->
  select_paths_for_export is_match checks key ap rib ctx = select_paths_for_export is_match checks key ap rib' ctx.
Proof.
  intros Hall Hbest. unfold select_paths_for_export. destruct ap; cbn [orb] in *.
  - apply compute_routes_unmarked, (Hall eq_refl).
  - destruct (ctx_rs_client ctx).
    + apply first_exported_unmarked, (Hall eq_refl).
    + apply compute_routes_unmarked. specialize (Hbest eq_refl). unfold held_best_path in Hbest.
      destruct (get_best_path rib key), (get_best_path rib' key); cbn in *; congruence.
Qed.

Lemma exports_same key rib rib' ctx :
  (add_path_family ctx (key_afi_safi key) || ctx_rs_client ctx = true -> held_paths rib key = held_paths rib' key) ->
  (add_path_family ctx (key_afi_safi key) || ctx_rs_client ctx = false -> held_best_path rib key = held_best_path rib' key) ->
  forall id p, exports is_match checks ctx rib key id p <-> exports is_match checks ctx rib' key id p.
Proof. intros Ha Hb id p. unfold exports, selected. by rewrite (select_same key _ rib rib' ctx Ha Hb). Qed.

(** ** Complete deltas

    Keys of [silent] are left out: under an entry limit a refused link-state
    key is not reported. *)
Record reports rib rib' (d : RouteDelta) : Prop := {
  rp_max : lr_max_ls_entries rib' = lr_max_ls_entries rib;
  rp_changed : forall key, ~ refusable (lr_max_ls_entries rib) key -> ~ key ∈ changed d -> held_paths rib' key = held_paths rib key;
  rp_best : forall key, ~ refusable (lr_max_ls_entries rib) key -> ~ key ∈ best_changed d -> held_best_path rib' key = held_best_path rib key;
}.

Lemma reports_refl rib : reports rib rib delta_new.
Proof. by split. Qed.

Lemma reports_trans rib rib1 rib2 d d' : reports rib rib1 d -> reports rib1 rib2 d' -> reports rib rib2 (delta_extend d d').
Proof.
  intros [M1 C1 B1] [M2 C2 B2]. rewrite M1 in C2, B2. split; [congruence|..]; intros key Hs; cbn [delta_extend changed best_changed];
    rewrite elem_of_app; intros Hn.
  - rewrite C2, C1; tauto.
  - rewrite B2, B1; tauto.
Qed.

Lemma reports_same rib rib' d : (forall key, get_route rib' key = get_route rib key) ->
  lr_max_ls_entries rib' = lr_max_ls_entries rib -> reports rib rib' d.
Proof.
  intros Hg Hm. split; [done|..]; intros key _ _; unfold held_paths, held_best_path, get_all_paths, get_best_path; by rewrite Hg.
Qed.

(** ** The Adj-RIB-Out in sync *)
Record out_synced ctx rib (out : AdjRibOut) : Prop := {
  os_inv : ao_inv out;
  os_paths : forall key id p, key_afi_safi key ∈ ctx_afi_safis ctx -> ~ refusable (lr_max_ls_entries rib) key ->
    ao_path out key id = Some p <-> exports is_match checks ctx rib key id p;
}.

(** A complete delta, propagated, keeps the table in sync. *)
Lemma synced_step ctx rib rib' d out out' sent :
  rib_inv rib' -> out_synced ctx rib out -> reports rib rib' d ->
  propagate_routes_to_peer is_match checks ctx d rib' out = Some (out', sent) -> out_synced ctx rib' out'.
Proof.
  intros Hinv [Ho Hs] [Hmax Hc Hb] E. destruct (ao_repr_exists out Ho) as [m [Ho1 Hm]].
  destruct (propagate_families_ok is_match checks ctx d rib' _ out m out' sent Hinv (conj Ho1 Hm) E) as (m' & [Ho' Hm'] & Hp).
  split; [done|]. rewrite Hmax. intros key id p Hf Hr. rewrite Hm'. destruct (Hp key id p) as [Hin Hout].
  destruct (decide (key ∈ delta_keys ctx d (key_afi_safi key))) as [Hk|Hk]; [by apply Hin|].
  rewrite Hout by tauto. rewrite <- Hm, Hs by done. unfold delta_keys in Hk.
  apply exports_same; intros Hap; rewrite Hap in Hk; symmetry; auto.
Qed.

(** Nothing reported and nothing sent. *)
Lemma synced_silent ctx rib rib' d out :
  out_synced ctx rib out -> reports rib rib' d -> has_changes d = false -> out_synced ctx rib' out.
Proof.
  intros [Ho Hs] [Hmax Hc Hb] Hd. split; [done|]. rewrite Hmax. intros key id p Hf Hr. rewrite Hs by done.
  assert (best_changed d = [] /\ changed d = []) as [Eb Ec]
    by (unfold has_changes in Hd; by destruct (best_changed d), (changed d)).
  apply exports_same; intros _; symmetry; [apply Hc|apply Hb]; try done; rewrite ?Eb, ?Ec; by apply not_elem_of_nil.
Qed.
End exports.

(** ** What the operations of the Loc-RIB report *)
Section operations.
Context {A : Type} `{PathIdLaws A} {Sorts : SortBy}.

(** What returns, returns with a sort that never panics. *)
#[local] Abbreviation total := (sort_le_returning Sorts).
Implicit Types (rib : LocRib A) (key : RouteKey).

(** The table represents some map of the specification. *)
Definition good_rib rib : Prop := exists m, rib_repr rib m.

Lemma good_rib_inv rib : good_rib rib -> rib_inv rib.
Proof. by intros [m [Hi _]]. Qed.

Lemma apply_peer_update_other rib ext peer_ip pending policy rib' d key :
  good_rib rib -> Forall pending_ok pending -> room rib (length pending) ->
  apply_peer_update rib ext peer_ip pending policy = Some (rib', d) ->
  ~ key ∈ map pending_route_key pending -> get_route rib' key = get_route rib key.
Proof.
  intros [m Hr] Hok Hroom E Hk. apply (apply_peer_update_le total) in E. unfold apply_peer_update in E.
  match type of E with context [apply_pendings policy ?sh peer_ip pending (rib, ∅)] =>
    destruct (apply_pendings_ok (Returns := returning_returns Sorts) rib m policy sh peer_ip pending ∅ Hr Hok Hroom) as (r & rej & E' & _ & _ & _ & Hg & _) end.
  rewrite E' in E. cbn [mbind option_bind] in E. injection E as <- _. by apply Hg.
Qed.

Lemma update_reports rib ext peer_ip pending policy rib' d :
  good_rib rib -> Forall pending_ok pending -> room rib (length pending) ->
  apply_peer_update rib ext peer_ip pending policy = Some (rib', d) ->
  good_rib rib' /\ reports rib rib' d /\
  (size (alloc_ids (lr_path_ids rib')) <= size (alloc_ids (lr_path_ids rib)) + length pending)%nat.
Proof.
  intros [m Hr] Hok Hroom E.
  destruct (apply_peer_update_ok (Returns := returning_returns Sorts) rib m ext peer_ip pending policy Hr Hok Hroom)
    as (rib1 & d1 & silent & E1 & Hr1 & Hmax & Hsz & [_ _ Hc Hb] & Hsil).
  pose proof (apply_peer_update_le total _ _ _ _ _ _ E) as E2. rewrite E2 in E1. injection E1 as <- <-. split; [by eexists|]. split; [|done]. split; [done|..]; intros key Href Hn.
  - assert (~ key ∈ map pending_route_key pending) as Hk.
    { intros Hin. apply Hn, Hc; [by apply elem_of_elements, elem_of_list_to_set|]. by intros ?%Hsil. }
    unfold held_paths, get_all_paths. erewrite apply_peer_update_other; [done|by eexists|done..].
  - unfold held_best_path. destruct (decide (get_best_path rib' key = get_best_path rib key)) as [->|Hne]; [done|].
    destruct Hn. apply Hb; [done|]. by intros ?%Hsil.
Qed.

Lemma peer_down_reports rib peer_ip rib' d :
  good_rib rib -> remove_routes_from_peer rib peer_ip = Some (rib', d) -> good_rib rib' /\ reports rib rib' d.
Proof.
  intros [m Hr] E. destruct (remove_routes_from_peer_ok rib m peer_ip Hr) as (rib1 & d1 & E1 & Hr1 & Hc & Hch & Hb).
  rewrite E in E1. injection E1 as <- <-. split; [by eexists|]. split; [apply (pc_max _ _ _ Hc)|..]; intros key _ Hn.
  - unfold held_paths. f_equal. change (old_paths rib' key = old_paths rib key).
    unfold old_paths at 1. rewrite (pc_route _ _ _ Hc), drop_route_paths. apply kept_same, Forall_forall. intros p Hp.
    destruct (is_from_peer (ref_path p) peer_ip) eqn:Ep; [|done]. destruct Hn. apply Hch. by exists p.
  - unfold held_best_path. destruct (decide (get_best_path rib' key = get_best_path rib key)) as [->|Hne]; [done|].
    destruct Hn. by apply Hb.
Qed.

Lemma stale_reports rib ext peer_ip families strategy rib' d :
  good_rib rib -> handle_stale rib ext peer_ip families strategy = Some (rib', d) -> good_rib rib' /\ reports rib rib' d.
Proof.
  intros [m Hr] E. destruct (handle_stale_ok (Returns := returning_returns Sorts) rib ext peer_ip strategy families (proj1 Hr)) as (rib1 & d1 & E1 & Hst).
  apply (handle_stale_le total) in E. rewrite E in E1. injection E1 as <- <-. split; [eexists; by eapply (stale_repr (Sorts := returning Sorts))|].
  destruct Hst as [_ Hmax _ Hsame _ Hc _ Hb _]. split; [done|..]; intros key _ Hn.
  - unfold held_paths, get_all_paths. rewrite Hsame; [done|]. rewrite Hc in Hn.
    destruct (decide (in_tables families key)); [|by left]. right. destruct (has_stale rib peer_ip key) eqn:Es; tauto.
  - unfold held_best_path. destruct (decide (get_best_path rib' key = get_best_path rib key)) as [->|Hne]; [done|].
    destruct Hn. by apply Hb.
Qed.

Lemma unmarked_mark peer_ip (l l' : list PathRef) :
  map ref_path l' = map (mark peer_ip) (map ref_path l) -> map unmarked l' = map unmarked l.
Proof.
  assert (forall l : list PathRef, map unmarked l = map (set_stale false) (map ref_path l)) as Hu by (intros; by rewrite map_map).
  intros E. rewrite !Hu, E, map_map. apply map_ext. intros p. unfold mark. by destruct (is_from_peer p peer_ip).
Qed.

Lemma get_best_hd rib key : get_best_path rib key = head (get_all_paths rib key).
Proof. unfold get_best_path, get_all_paths. destruct (get_route rib key) as [r|]; [|done]. cbn. by destruct (paths r). Qed.

Lemma mark_reports rib ext peer_ip a :
  good_rib rib -> good_rib (mark_peer_routes_stale rib ext peer_ip a).1 /\
  reports rib (mark_peer_routes_stale rib ext peer_ip a).1 delta_new.
Proof.
  intros [m Hr]. pose proof (mark_ok rib ext peer_ip a (proj1 Hr)) as Hm. split; [eexists; by eapply mark_repr|].
  set (rib' := (mark_peer_routes_stale rib ext peer_ip a).1) in *.
  assert (forall key, held_paths rib' key = held_paths rib key) as Hp.
  { intros key. destruct Hm as [_ _ _ [Hsame Hmark]]. destruct (decide (in_table a key = true)) as [Ht|Ht].
    - by apply (unmarked_mark peer_ip), Hmark.
    - unfold held_paths, get_all_paths. by rewrite Hsame. }
  split; [apply Hm|by intros..|]. intros key _ _. specialize (Hp key). unfold held_best_path, held_paths in *. rewrite !get_best_hd.
  destruct (get_all_paths rib' key), (get_all_paths rib key); try done. by apply map_cons_inv in Hp as [? _]; cbn; f_equal.
Qed.

Lemma mark_families_reports ext peer_ip (l : list AfiSafi) : forall rib,
  good_rib rib -> good_rib (mark_families_stale ext peer_ip l rib) /\ reports rib (mark_families_stale ext peer_ip l rib) delta_new.
Proof.
  induction l as [|a l IH]; intros rib Hg; cbn [mark_families_stale]; [split; [done|apply reports_refl]|].
  destruct (mark_reports rib ext peer_ip a Hg) as [Hg1 R1]. destruct (IH _ Hg1) as [Hg2 R2]. split; [done|].
  change delta_new with (delta_extend delta_new delta_new). by eapply reports_trans.
Qed.

(** The delta of a write of one key reports it. *)
Lemma delta_reports rib rib' key d :
  lr_max_ls_entries rib' = lr_max_ls_entries rib -> (forall k, k <> key -> get_route rib' k = get_route rib k) ->
  delta_ok rib rib' [key] d (fun _ => False) -> reports rib rib' d.
Proof.
  intros Hmax Hother [_ _ Hc Hb]. split; [done|..]; intros k _ Hn.
  - unfold held_paths, get_all_paths. rewrite Hother; [done|]. intros ->. apply Hn, Hc; [by left|tauto].
  - unfold held_best_path. destruct (decide (get_best_path rib' k = get_best_path rib k)) as [->|Hne]; [done|].
    destruct Hn. apply Hb; [done|tauto].
Qed.

Lemma same_routes_report rib rib' :
  lr_max_ls_entries rib' = lr_max_ls_entries rib -> (forall k, old_paths rib' k = old_paths rib k) -> reports rib rib' delta_new.
Proof.
  intros Hmax Hp. assert (forall k, get_all_paths rib' k = get_all_paths rib k) as Hall.
  { intros k. specialize (Hp k). unfold old_paths, get_all_paths in *.
    by destruct (get_route rib' k), (get_route rib k). }
  split; [done|..]; intros k _ _; [unfold held_paths|unfold held_best_path; rewrite !get_best_hd]; by rewrite Hall.
Qed.

Lemma add_local_reports rib ext key a rib' d :
  good_rib rib -> rkey_ok key -> room rib 1 -> add_local_route rib ext key a = Some (rib', inr d) ->
  good_rib rib' /\ reports rib rib' d.
Proof.
  intros [m Hr] Hk Hroom E. apply (add_local_route_le total) in E.
  destruct (add_local_route_ok (Returns := returning_returns Sorts) rib m ext key a Hr Hk Hroom) as (r1 & res & E1 & Hr1 & Hmax & _ & Hres).
  rewrite E in E1. injection E1 as <- <-. destruct Hres as [_ Hd]. split; [by eexists|]. eapply delta_reports; [done| |exact Hd].
  unfold add_local_route in E.
  destruct (announce_ok (Returns := returning_returns Sorts) rib m (opt_ptr (get_best_path rib key) ∪ ext) key (local_path a) Hr Hk Hroom)
    as (rib1 & b & Eu & _ & _ & Hf & _). rewrite Eu in E. cbn [mbind option_bind] in E.
  destruct b; [|done]. injection E as <- _. apply Hf.
Qed.

Lemma add_local_refused rib ext key a rib' e :
  good_rib rib -> rkey_ok key -> room rib 1 -> add_local_route rib ext key a = Some (rib', inl e) ->
  good_rib rib' /\ reports rib rib' delta_new.
Proof.
  intros [m Hr] Hk Hroom E. apply (add_local_route_le total) in E. unfold add_local_route in E.
  destruct (announce_ok (Returns := returning_returns Sorts) rib m (opt_ptr (get_best_path rib key) ∪ ext) key (local_path a) Hr Hk Hroom)
    as (rib1 & b & Eu & _ & Hr1 & _ & Hb). rewrite Eu in E. cbn [mbind option_bind] in E.
  destruct b; [done|]. injection E as <- _. split; [by eexists|]. subst rib1. by split.
Qed.

Lemma remove_local_reports rib key rib' d :
  good_rib rib -> remove_local_route rib key = Some (rib', d) -> good_rib rib' /\ reports rib rib' d.
Proof.
  intros [m Hr] E. destruct (remove_local_route_ok rib m key Hr) as (r1 & d1 & E1 & Hr1 & Hrm & Hd).
  rewrite E in E1. injection E1 as <- <-. split; [by eexists|]. destruct Hd as [[-> Hm]|Hd].
  - apply same_routes_report; [apply Hrm|]. intros k. destruct (decide (k = key)) as [->|Hne].
    + rewrite (rm_paths _ _ _ _ Hrm). apply kept_same, Forall_forall. intros p Hp.
      destruct (is_local_path (ref_path p)) eqn:Ep; [|done]. exfalso.
      assert (m !! (key, ident p) = Some (strip (ref_path p))) as Hi by (apply (rib_repr_elem rib m _ _ _ Hr); by exists p).
      rewrite <- Hm in Hi. unfold spec_remove_local, spec_remove in Hi.
      apply map_lookup_filter_Some in Hi as [_ Hi]. by apply Hi.
    + unfold old_paths. by rewrite (rm_other _ _ _ _ Hrm).
  - eapply delta_reports; [apply Hrm|apply Hrm|exact Hd].
Qed.

Lemma set_next_good rib n : good_rib rib -> lr_next rib <= n -> good_rib (set_next rib n).
Proof.
  intros [m [(Hs & Ha & Hri) Hm]] Hn. exists m. split.
  - split_and!; [done..|]. apply (routes_inv_ext _ (lr_next rib) _ (get_route rib)); [done|apply get_route_set_next|exact Hn].
  - intros key i. rewrite Hm. unfold old_paths. by rewrite get_route_set_next.
Qed.
End operations.

(** ** The frame of a propagation *)
Definition is_update (o : ServerOutput) : Prop := exists ip bytes, o = ToPeer ip (SendUpdate bytes).

Section propagation.
Context {A : Type} `{PathIdLaws A} `{HashOrder} {Sorts : SortBy}.
Variable is_match : Str -> Str -> bool.
Variable checks : bool.
Implicit Types (s : BgpServer A) (ip : IpAddr) (e : PeerInfo) (d : RouteDelta).

#[local] Abbreviation propagate_routes := (Server.propagate_routes is_match checks).

(** The parts of the server that a propagation leaves alone. *)
Record same_server s s' : Prop := {
  ss_rib : sv_loc_rib s' = sv_loc_rib s;
  ss_config : sv_config s' = sv_config s;
  ss_policies : sv_policies s' = sv_policies s;
  ss_addr : sv_local_addr s' = sv_local_addr s;
  ss_vrp : sv_vrp_table s' = sv_vrp_table s;
  ss_log : exists outs, sv_log s' = sv_log s ++ outs /\ Forall is_update outs;
}.

Lemma same_server_refl s : same_server s s.
Proof. split; try done. exists []. by rewrite app_nil_r. Qed.

Lemma same_server_trans s s1 s2 : same_server s s1 -> same_server s1 s2 -> same_server s s2.
Proof.
  intros [? ? ? ? ? (o1 & L1 & F1)] [? ? ? ? ? (o2 & L2 & F2)]. split; try congruence.
  exists (o1 ++ o2). rewrite L2, L1, app_assoc. split; [done|]. by apply Forall_app.
Qed.

Lemma context_same s s' origin ip e :
  sv_config s' = sv_config s -> sv_local_addr s' = sv_local_addr s ->
  propagation_context s' origin ip e = propagation_context s origin ip e.
Proof. intros Ec Ea. unfold propagation_context, peer_cfg_by_ip, export_context. by rewrite Ec, Ea. Qed.

(** What a propagation makes of the table of one peer. *)
Definition table_after s d origin ip e (out : AdjRibOut) : Prop :=
  match propagation_context s origin ip e with
  | None => out = pi_adj_rib_out e
  | Some ctx =>
      (has_changes d = false /\ out = pi_adj_rib_out e) \/
      exists sent, propagate_routes_to_peer is_match checks ctx d (sv_loc_rib s) (pi_adj_rib_out e) = Some (out, sent)
  end.

Record propagated d origin s s' : Prop := {
  pg_same : same_server s s';
  pg_peers : forall ip, match sv_peers s !! ip with
    | None => sv_peers s' !! ip = None
    | Some e => exists out, sv_peers s' !! ip = Some (with_pi_adj_rib_out out e) /\ table_after s d origin ip e out
    end;
}.

Lemma propagate_to_same s d ip e ctx s' :
  propagate_to is_match checks s d ip e ctx = Some s' ->
  same_server s s' /\ exists out sent, sv_peers s' = <[ip := with_pi_adj_rib_out out e]> (sv_peers s) /\
    propagate_routes_to_peer is_match checks ctx d (sv_loc_rib s) (pi_adj_rib_out e) = Some (out, sent).
Proof.
  unfold propagate_to. destruct (propagate_routes_to_peer _ _ _ _ _ _) as [[out sent]|]; [|done]. cbn [mbind option_bind].
  intros [= <-]. split; [|by exists out, sent]. split; try done. eexists. split; [done|].
  apply Forall_forall. intros o (b & -> & _)%list_elem_of_fmap. by exists ip, b.
Qed.

Lemma table_after_same s s' d origin ip e out :
  same_server s s' -> table_after s' d origin ip e out -> table_after s d origin ip e out.
Proof. intros [Er Ec _ Ea _ _]. unfold table_after. by rewrite (context_same s s') by done; rewrite Er. Qed.

Lemma with_same_out e : with_pi_adj_rib_out (pi_adj_rib_out e) e = e.
Proof. by destruct e. Qed.

Lemma propagate_peers_ok d origin (l : list (IpAddr * PeerInfo)) : forall s s',
  NoDup l.*1 -> (forall ip e, (ip, e) ∈ l -> sv_peers s !! ip = Some e) ->
  propagate_peers is_match checks d origin l s = Some s' ->
  same_server s s' /\ (forall ip, ~ ip ∈ l.*1 -> sv_peers s' !! ip = sv_peers s !! ip) /\
  forall ip e, (ip, e) ∈ l -> exists out, sv_peers s' !! ip = Some (with_pi_adj_rib_out out e) /\ table_after s d origin ip e out.
Proof.
  induction l as [|[ip e] l IH]; intros s s' Hnd Hl; cbn [propagate_peers].
  { intros [= <-]. split; [apply same_server_refl|]. split; [done|]. by intros ? ? ?%not_elem_of_nil. }
  cbn [fmap list_fmap fst] in Hnd. apply NoDup_cons in Hnd as [Hip Hnd].
  (* the rest of the loop, from a state in which only this entry may be another one *)
  assert (forall s1, same_server s s1 -> (forall ip', ip' <> ip -> sv_peers s1 !! ip' = sv_peers s !! ip') ->
    (exists out, sv_peers s1 !! ip = Some (with_pi_adj_rib_out out e) /\ table_after s d origin ip e out) ->
    propagate_peers is_match checks d origin l s1 = Some s' ->
    same_server s s' /\ (forall ip', ~ ip' ∈ ((ip, e) :: l).*1 -> sv_peers s' !! ip' = sv_peers s !! ip') /\
    forall ip' e', (ip', e') ∈ (ip, e) :: l ->
      exists out, sv_peers s' !! ip' = Some (with_pi_adj_rib_out out e') /\ table_after s d origin ip' e' out) as Hrest.
  { intros s1 Hs1 Hother (out & Hout & Htab) E.
    assert (forall ip' e', (ip', e') ∈ l -> ip' <> ip) as Hne.
    { intros ip' e' Hin ->. apply Hip. apply list_elem_of_fmap. by exists (ip, e'). }
    destruct (IH s1 s' Hnd) as (Hs2 & Hout2 & Hin2); [|exact E|].
    { intros ip' e' Hin. rewrite Hother by by eapply Hne. apply Hl. by right. }
    split; [by eapply same_server_trans|]. split.
    - intros ip' Hn. cbn [fmap list_fmap fst] in Hn. rewrite elem_of_cons in Hn. rewrite Hout2 by tauto. apply Hother. tauto.
    - intros ip' e' [[= -> ->]|Hin]%elem_of_cons; [exists out; split; [by rewrite Hout2|done]|].
      destruct (Hin2 ip' e' Hin) as (out' & ? & ?). exists out'. split; [done|]. by eapply table_after_same. }
  destruct (propagation_context s origin ip e) as [ctx|] eqn:Ec.
  - destruct (propagate_to is_match checks s d ip e ctx) as [s1|] eqn:Et; [|done]. cbn [mbind option_bind].
    apply propagate_to_same in Et as (Hs1 & out & sent & Ep & Er). apply Hrest; [done|..].
    + intros ip' Hne. by rewrite Ep, lookup_insert_ne.
    + exists out. rewrite Ep, lookup_insert_eq. split; [done|]. unfold table_after. rewrite Ec. right. by exists sent.
  - apply Hrest; [apply same_server_refl|done|]. exists (pi_adj_rib_out e). rewrite with_same_out. split; [apply Hl; by left|].
    unfold table_after. by rewrite Ec.
Qed.

Lemma propagate_routes_ok d origin s s' : propagate_routes s d origin = Some s' -> propagated d origin s s'.
Proof.
  unfold Server.propagate_routes. destruct (has_changes d) eqn:Ed; cbn [negb].
  - intros E. pose proof (hash_order_perm (map_to_list (sv_peers s))) as Hperm.
    apply propagate_peers_ok in E as (Hs & Hout & Hin).
    + split; [done|]. intros ip. destruct (sv_peers s !! ip) as [e|] eqn:Ee.
      * apply Hin. rewrite Hperm. by apply elem_of_map_to_list.
      * rewrite Hout; [done|]. rewrite Hperm. intros ([ip' e] & -> & Hx%elem_of_map_to_list)%list_elem_of_fmap. cbn in Ee. congruence.
    + rewrite Hperm. apply NoDup_fst_map_to_list.
    + intros ip e. rewrite Hperm. by rewrite elem_of_map_to_list.
  - intros [= <-]. split; [apply same_server_refl|]. intros ip. destruct (sv_peers s !! ip) as [e|]; [|done].
    exists (pi_adj_rib_out e). rewrite with_same_out. split; [done|]. unfold table_after.
    destruct (propagation_context s origin ip e); [by left|done].
Qed.

(** ** Peers in sync *)

(** The entry of a peer that the server propagates to holds the export of the
    Loc-RIB. *)
Definition peer_synced s ip : Prop :=
  forall e ctx, sv_peers s !! ip = Some e -> propagation_context s None ip e = Some ctx ->
    out_synced is_match checks ctx (sv_loc_rib s) (pi_adj_rib_out e).

(** The Loc-RIB represents a map of its specification, and no table to a peer
    has empty entries. *)
Record server_inv s : Prop := {
  si_rib : good_rib (sv_loc_rib s);
  si_out : forall ip e, sv_peers s !! ip = Some e -> ao_inv (pi_adj_rib_out e);
}.

(** What the export to a peer reads of the configuration. *)
Definition peer_view s ip : option PeerConfig * Z * Z :=
  (peer_cfg_by_ip s !! ip, cf_asn (sv_config s), effective_cluster_id (sv_config s)).

(** The entry of [ip] exports as before. *)
Record same_peer s s' ip : Prop := {
  sp_view : peer_view s' ip = peer_view s ip;
  sp_addr : sv_local_addr s' = sv_local_addr s;
  sp_entry : forall e', sv_peers s' !! ip = Some e' -> exists e, sv_peers s !! ip = Some e /\
    pi_conn e' = pi_conn e /\ pi_export_policies e' = pi_export_policies e /\ pi_adj_rib_out e' = pi_adj_rib_out e;
}.

Lemma same_peer_context s s' ip e e' origin :
  same_peer s s' ip -> pi_conn e' = pi_conn e -> pi_export_policies e' = pi_export_policies e ->
  propagation_context s' origin ip e' = propagation_context s origin ip e.
Proof.
  intros [[= Ec En Ei] Ea _] E1 E2. unfold propagation_context, established_conn. rewrite Ec, E1.
  destruct (peer_cfg_by_ip s !! ip); [|done]. cbn [mbind option_bind]. unfold export_context. by rewrite En, Ei, Ea, E2.
Qed.

(** The context does not look at the table itself. *)
Lemma context_with_out s origin ip e out :
  propagation_context s origin ip (with_pi_adj_rib_out out e) = propagation_context s origin ip e.
Proof. done. Qed.

Lemma context_origin s origin ip e : origin <> Some ip -> propagation_context s origin ip e = propagation_context s None ip e.
Proof.
  intros Ho. unfold propagation_context, should_propagate_to_peer. by rewrite bool_decide_false by done.
Qed.

(** One change of the Loc-RIB, reported and propagated, keeps every other peer in sync. *)
Lemma synced_propagate s s1 s' d origin ip :
  same_peer s s1 ip -> good_rib (sv_loc_rib s1) -> reports (sv_loc_rib s) (sv_loc_rib s1) d ->
  propagated d origin s1 s' -> origin <> Some ip -> peer_synced s ip -> peer_synced s' ip.
Proof.
  intros Hsame Hg Hrep [[Er Ec _ Ea _ _] Hp] Ho Hs e ctx He Hctx. specialize (Hp ip). rewrite Er.
  destruct (sv_peers s1 !! ip) as [e1|] eqn:E1; [|congruence]. destruct Hp as (out & E' & Htab). rewrite He in E'. injection E' as ->.
  destruct (sp_entry _ _ _ Hsame e1 E1) as (e0 & E0 & X1 & X2 & X3).
  rewrite (context_same s1 s') in Hctx by done. rewrite context_with_out in Hctx. unfold table_after in Htab.
  rewrite context_origin, Hctx in Htab by done. rewrite (same_peer_context s s1 ip e0 e1 None Hsame X1 X2) in Hctx.
  pose proof (Hs e0 ctx E0 Hctx) as Hout. rewrite X3 in Htab. cbn [pi_adj_rib_out with_pi_adj_rib_out].
  destruct Htab as [[Hd ->]|[sent Hsent]].
  - by eapply synced_silent.
  - eapply synced_step; [by apply good_rib_inv|done..].
Qed.

(** A change of the Loc-RIB that nobody has to be told about. *)
Lemma synced_quiet s s' ip :
  same_peer s s' ip -> reports (sv_loc_rib s) (sv_loc_rib s') delta_new -> peer_synced s ip -> peer_synced s' ip.
Proof.
  intros Hsame Hrep Hs e ctx He Hctx. destruct (sp_entry _ _ _ Hsame e He) as (e0 & E0 & X1 & X2 & X3).
  rewrite (same_peer_context s s' ip e0 e None Hsame X1 X2) in Hctx. rewrite X3. by eapply synced_silent; [apply Hs| |].
Qed.
End propagation.
