(* ===== verification/ServerSteps.v ===== *)
(** * Every operation of the server keeps the others in sync

    Each handler is a change of its own peer's entry, changes of the Loc-RIB
    whose deltas it collects, and a propagation of what it collected.  [lag]
    is the state in between: the Loc-RIB is ahead of the peers by a delta. *)
From S2P Require Import Prelude Wire Net Trie TrieSpec PrefixMap Vrp PathId Notification Nlri BgpLs BgpLsParse Attrs BgpLsAttr Text OpenMsg Msg Path UpdateCodec UpdateCodecSpec Update ExtComm PeerCaps Conf Policy Fsm RibTables LocRib Outgoing PeerState LocRibInv LocRibSpec LocRibPeer LocRibStale LocRibOps Propagate Server ServerOps ServerSync.

Section steps.
Context {A : Type} `{PathIdLaws A} `{HashOrder} {Sorts : SortBy}.
Variable is_match : Str -> Str -> bool.
Variable checks : bool.
Variable interface_link_local : Str -> option Z.
Implicit Types (s : BgpServer A) (ip : IpAddr) (e : PeerInfo) (d : RouteDelta) (origin : option IpAddr).

#[local] Abbreviation synced := (peer_synced is_match checks).

(** ** Changes of one peer's entry *)
Record local_change origin s s' : Prop := {
  lc_rib : sv_loc_rib s' = sv_loc_rib s;
  lc_view : forall ip, origin <> Some ip -> peer_view s' ip = peer_view s ip;
  lc_addr : sv_local_addr s' = sv_local_addr s;
  lc_others : forall ip, origin <> Some ip -> sv_peers s' !! ip = sv_peers s !! ip;
  lc_out : (forall ip e, sv_peers s !! ip = Some e -> ao_inv (pi_adj_rib_out e)) ->
    forall ip e, sv_peers s' !! ip = Some e -> ao_inv (pi_adj_rib_out e);
}.

Lemma local_refl origin s : local_change origin s s.
Proof. by split. Qed.

Lemma local_trans origin s s1 s2 : local_change origin s s1 -> local_change origin s1 s2 -> local_change origin s s2.
Proof.
  intros [? V1 ? O1 I1] [? V2 ? O2 I2]. split; try congruence.
  - intros ip Ho. by rewrite V2, V1.
  - intros ip Ho. by rewrite O2, O1.
  - intros Hall. apply I2, I1, Hall.
Qed.

Lemma local_emit origin s outs : local_change origin s (emit s outs).
Proof. by split. Qed.

Lemma local_vrp origin s t : local_change origin s (with_vrp_table s t).
Proof. by split. Qed.

Lemma local_set origin s ip e0 e :
  origin = Some ip -> sv_peers s !! ip = Some e0 -> (ao_inv (pi_adj_rib_out e0) -> ao_inv (pi_adj_rib_out e)) ->
  local_change origin s (set_peer s ip e).
Proof.
  intros -> He Hi. split; try done.
  - intros ip' Hne. cbn. rewrite lookup_insert_ne; [done|congruence].
  - intros Hall ip' e'. cbn. rewrite lookup_insert_Some. intros [[<- <-]|[_ Hx]]; [apply Hi|]; by eapply Hall.
Qed.

Lemma local_insert origin s ip e :
  origin = Some ip -> ao_inv (pi_adj_rib_out e) -> local_change origin s (set_peer s ip e).
Proof.
  intros -> Hi. split; try done.
  - intros ip' Hne. cbn. rewrite lookup_insert_ne; [done|congruence].
  - intros Hall ip' e'. cbn. rewrite lookup_insert_Some. intros [[<- <-]|[_ Hx]]; [done|by eapply Hall].
Qed.

Lemma local_delete origin s ip : origin = Some ip -> local_change origin s (with_peers s (delete ip (sv_peers s))).
Proof.
  intros ->. split; try done.
  - intros ip' Hne. cbn. rewrite lookup_delete_ne; [done|congruence].
  - intros Hall ip' e'. cbn. intros [_ Hx]%lookup_delete_Some. by eapply Hall.
Qed.

Lemma local_update origin s ip f :
  origin = Some ip -> (forall e, ao_inv (pi_adj_rib_out e) -> ao_inv (pi_adj_rib_out (f e))) ->
  local_change origin s (update_peer s ip f).
Proof.
  intros -> Hi. split; try done.
  - intros ip' Hne. cbn. rewrite lookup_alter_ne; [done|congruence].
  - intros Hall ip' e'. cbn. destruct (decide (ip' = ip)) as [->|Hne].
    + rewrite lookup_alter_eq. intros (e & He & ->)%fmap_Some. apply Hi. by eapply Hall.
    + rewrite lookup_alter_ne by done. apply Hall.
Qed.

(** ** The Loc-RIB ahead of the peers *)
Record lag origin s0 s d : Prop := {
  lg_good : good_rib (sv_loc_rib s);
  lg_out : forall ip e, sv_peers s !! ip = Some e -> ao_inv (pi_adj_rib_out e);
  lg_reports : reports (sv_loc_rib s0) (sv_loc_rib s) d;
  lg_peers : forall ip, origin <> Some ip -> same_peer s0 s ip;
}.

Lemma lag_start origin s : server_inv s -> lag origin s s delta_new.
Proof.
  intros [Hg Ho]. split; [done|done|apply reports_refl|]. intros ip _. split; [done|done|]. intros e He. by exists e.
Qed.

Lemma lag_local origin s0 s s' d : lag origin s0 s d -> local_change origin s s' -> lag origin s0 s' d.
Proof.
  intros [Hg Ho Hr Hp] [Er Ec Ea Hoth Hi]. split; [by rewrite Er|by apply Hi|by rewrite Er|].
  intros ip Hne. destruct (Hp ip Hne) as [X1 X2 X3]. split; [by rewrite Ec|congruence|]. intros e. rewrite Hoth by done. apply X3.
Qed.

Lemma lag_rib origin s0 s d rib d' :
  lag origin s0 s d -> good_rib rib /\ reports (sv_loc_rib s) rib d' -> lag origin s0 (with_loc_rib s rib) (delta_extend d d').
Proof.
  intros [Hg Ho Hr Hp] [Hg' Hr']. split; [done|done|by eapply reports_trans|]. intros ip Hne. by destruct (Hp ip Hne).
Qed.

Lemma delta_extend_new d : delta_extend d delta_new = d.
Proof. destruct d. unfold delta_extend. cbn. by rewrite !app_nil_r. Qed.
Lemma delta_new_extend d : delta_extend delta_new d = d.
Proof. by destruct d. Qed.

(** What an operation must do: keep the invariant, and the others in sync. *)
Definition keeps origin s s' : Prop :=
  server_inv s' /\ forall ip, origin <> Some ip -> synced s ip -> synced s' ip.

Lemma propagated_inv d origin s s' : server_inv s -> propagated is_match checks d origin s s' -> server_inv s'.
Proof.
  intros [Hg Ho] [[Er _ _ _ _ _] Hp]. split; [by rewrite Er|]. intros ip e' He'. specialize (Hp ip).
  destruct (sv_peers s !! ip) as [e|] eqn:He; [|congruence]. destruct Hp as (out & E & Htab). rewrite He' in E. injection E as ->.
  cbn. specialize (Ho ip e He). unfold table_after in Htab. destruct (propagation_context s origin ip e) as [ctx|]; [|by subst].
  destruct Htab as [[_ ->]|[sent E]]; [done|].
  destruct (ao_repr_exists _ Ho) as [m Hr]. destruct (propagate_families_ok _ _ _ _ _ _ _ _ _ _ (good_rib_inv _ Hg) Hr E) as (m' & [? _] & _).
  done.
Qed.

Lemma lag_inv origin s0 s d : lag origin s0 s d -> server_inv s.
Proof. by intros []. Qed.

Lemma lag_done_any origin origin' s0 s s' d :
  lag origin s0 s d -> (forall ip, origin <> Some ip -> origin' <> Some ip) ->
  Server.propagate_routes is_match checks s d origin' = Some s' -> keeps origin s0 s'.
Proof.
  intros Hl Ho' E%propagate_routes_ok. pose proof Hl as [Hg Ho Hr Hp]. split; [by eapply propagated_inv; [eapply lag_inv|]|].
  intros ip Hne. eapply synced_propagate; [by apply Hp|done|done|exact E|by apply Ho'].
Qed.

Lemma lag_done origin s0 s s' d : lag origin s0 s d -> Server.propagate_routes is_match checks s d origin = Some s' -> keeps origin s0 s'.
Proof. intros Hl. by apply (lag_done_any origin origin s0 s). Qed.

Lemma lag_quiet origin s0 s : lag origin s0 s delta_new -> keeps origin s0 s.
Proof.
  intros Hl. pose proof Hl as [Hg Ho Hr Hp]. split; [by eapply lag_inv|]. intros ip Hne. eapply synced_quiet; [by apply Hp|done].
Qed.

Lemma keeps_local origin s0 s s' : keeps origin s0 s -> local_change origin s s' -> keeps origin s0 s'.
Proof.
  intros [Hi Hs] Hlc. destruct (lag_quiet origin s s' (lag_local _ _ _ _ _ (lag_start origin s Hi) Hlc)) as [Hi' Hs'].
  split; [done|]. auto.
Qed.

Lemma local_keeps origin s s' : server_inv s -> local_change origin s s' -> keeps origin s s'.
Proof. intros Hi Hlc. by apply lag_quiet, (lag_local _ _ s), Hlc; apply lag_start. Qed.

Lemma keeps_refl origin s : server_inv s -> keeps origin s s.
Proof. intros Hi. by split. Qed.

(** ** Sending the table to a peer again *)
Lemma propagate_to_local s d ip e ctx s' origin :
  origin = Some ip -> good_rib (sv_loc_rib s) -> sv_peers s !! ip = Some e ->
  propagate_to is_match checks s d ip e ctx = Some s' -> local_change origin s s'.
Proof.
  intros -> Hg He E. apply propagate_to_same in E as ([Er Ec _ Ea _ _] & out & sent & Ep & E). split; [done| |done| |].
  - intros ip' _. unfold peer_view, peer_cfg_by_ip. by rewrite Ec.
  - intros ip' Hne. rewrite Ep, lookup_insert_ne; [done|congruence].
  - intros Hall ip' e'. rewrite Ep, lookup_insert_Some. intros [[<- <-]|[_ Hx]]; [|by eapply Hall]. cbn.
    destruct (ao_repr_exists _ (Hall ip e He)) as [m Hr].
    destruct (propagate_families_ok _ _ _ _ _ _ _ _ _ _ (good_rib_inv _ Hg) Hr E) as (m' & [? _] & _). done.
Qed.

Lemma resend_local s ip af sf s' origin :
  origin = Some ip -> good_rib (sv_loc_rib s) ->
  Server.resend_routes_to_peer is_match checks s ip af sf = Some s' -> local_change origin s s'.
Proof.
  intros Ho Hg. unfold Server.resend_routes_to_peer. destruct (sv_peers s !! ip) as [e|] eqn:He; [|intros [= <-]; apply local_refl].
  destruct (negb (resendable af sf)); [intros [= <-]; apply local_refl|].
  destruct (resend_context s ip e) as [ctx|]; [|intros [= <-]; apply local_refl]. by apply propagate_to_local.
Qed.

Lemma resend_families_local ip origin (l : list AfiSafi) : forall s s',
  origin = Some ip -> good_rib (sv_loc_rib s) ->
  resend_families is_match checks s ip l = Some s' -> local_change origin s s'.
Proof.
  induction l as [|a l IH]; intros s s' Ho Hg; cbn [resend_families]; [intros [= <-]; apply local_refl|].
  destruct (Server.resend_routes_to_peer _ _ s ip _ _) as [s1|] eqn:E1; [|done]. cbn [mbind option_bind]. intros E2.
  pose proof (resend_local _ _ _ _ _ _ Ho Hg E1) as L1. eapply local_trans; [exact L1|].
  apply (IH s1 s'); [done| |done]. by rewrite (lc_rib _ _ _ L1).
Qed.
End steps.

(** ** The handlers *)
Section handlers.
Context {A : Type} `{PathIdLaws A} `{HashOrder} {Sorts : SortBy}.
Variable is_match : Str -> Str -> bool.
Variable checks : bool.
Variable interface_link_local : Str -> option Z.
Implicit Types (s : BgpServer A) (ip : IpAddr) (d : RouteDelta) (origin : option IpAddr).

#[local] Abbreviation keeps := (keeps is_match checks).

Lemma ao_inv_clear out : ao_inv (ao_clear out).
Proof. apply ao_repr_new. Qed.

(** *** Stale routes *)
Lemma sweep_lag origin s0 s ext ip families s' d d' :
  lag origin s0 s d -> sweep s ext ip families = Some (s', d') -> lag origin s0 s' (delta_extend d d').
Proof.
  intros Hl. unfold sweep. destruct (remove_peer_routes_stale _ _ _ _) as [[rib d1]|] eqn:E; [|done]. cbn [mbind option_bind].
  intros [= <- <-]. apply lag_rib; [done|]. eapply stale_reports; [apply Hl|exact E].
Qed.

Lemma sweep_and_propagate_keeps s ext ip a s' :
  server_inv s -> sweep_and_propagate is_match checks s ext ip a = Some s' -> keeps (Some ip) s s'.
Proof.
  intros Hi. unfold sweep_and_propagate. destruct (sweep s ext ip [a]) as [[s1 d]|] eqn:E; [|done]. cbn [mbind option_bind].
  apply lag_done. rewrite <- (delta_new_extend d). eapply sweep_lag; [by apply lag_start|exact E].
Qed.

Lemma keeps_from_local s0 s ip s' : local_change (Some ip) s0 s -> keeps (Some ip) s s' -> server_inv s0 -> keeps (Some ip) s0 s'.
Proof.
  intros Hlc [Hi' Hs'] Hi. destruct (local_keeps is_match checks (Some ip) s0 s Hi Hlc) as [Hi1 Hs1]. split; [done|]. auto.
Qed.

Lemma clear_stale_keeps s ext ip a s' :
  server_inv s -> clear_stale_afi_safi is_match checks s ext ip a = Some s' -> keeps (Some ip) s s'.
Proof.
  intros Hi. unfold clear_stale_afi_safi. intros E.
  match type of E with sweep_and_propagate _ _ ?s1 _ _ _ = _ => assert (local_change (Some ip) s s1) as Hlc by by apply local_update end.
  eapply keeps_from_local; [exact Hlc| |done]. eapply sweep_and_propagate_keeps; [|exact E].
  by apply (local_keeps is_match checks (Some ip) s).
Qed.

Lemma sweep_stale_keeps s ext ip caps s' :
  server_inv s -> sweep_stale is_match checks s ext ip caps = Some s' -> keeps (Some ip) s s'.
Proof.
  intros Hi. unfold sweep_stale. destruct (sweep_gr_stale s ext ip caps) as [[s1 d1]|] eqn:E1; [|done]. cbn [mbind option_bind].
  assert (lag (Some ip) s s1 d1) as L1.
  { rewrite <- (delta_new_extend d1). eapply sweep_lag; [by apply lag_start|exact E1]. }
  destruct (sweep_llgr_stale s1 ext ip caps) as [[s2 d2]|] eqn:E2; [|done]. cbn [mbind option_bind]. apply lag_done.
  unfold sweep_llgr_stale in E2. destruct (sv_peers s1 !! ip) as [e|] eqn:He.
  - eapply sweep_lag; [|exact E2]. eapply lag_local; [exact L1|]. by eapply local_set.
  - injection E2 as <- <-. by rewrite delta_extend_new.
Qed.

Lemma gr_timer_keeps s ext ip l s' :
  server_inv s -> handle_gr_timer_expired is_match checks s ext ip l = Some s' -> keeps (Some ip) s s'.
Proof.
  intros Hi. unfold handle_gr_timer_expired.
  destruct (remove_peer_routes_stale _ _ _ _) as [[rib1 d1]|] eqn:E1; [|done]. cbn [mbind option_bind].
  destruct (apply_llgr rib1 _ _ _) as [[rib2 d2]|] eqn:E2; [|done]. cbn [mbind option_bind]. apply lag_done.
  eapply lag_local; [|by apply local_update].
  assert (lag (Some ip) s (with_loc_rib s rib1) d1) as L1.
  { rewrite <- (delta_new_extend d1). apply lag_rib; [by apply lag_start|]. eapply stale_reports; [apply Hi|exact E1]. }
  change (with_loc_rib s rib2) with (with_loc_rib (with_loc_rib s rib1) rib2). apply lag_rib; [done|].
  eapply stale_reports; [apply L1|exact E2].
Qed.

(** *** Sessions *)
Lemma bmp_down_local s ip reason : local_change (Some ip) s (bmp_peer_down_if_ended s ip reason).
Proof.
  unfold bmp_peer_down_if_ended. destruct (sv_peers s !! ip) as [e|]; [|apply local_refl].
  destruct (is_established e); [apply local_refl|]. destruct (pi_bmp_session e) as [b|]; [|apply local_refl].
  eapply local_trans; [apply local_emit|by apply local_update].
Qed.

Lemma disconnected_keeps s ext ip reason families s' :
  server_inv s -> handle_peer_disconnected is_match checks s ext ip reason families = Some s' -> keeps (Some ip) s s'.
Proof.
  intros Hi. unfold handle_peer_disconnected. destruct (sv_peers s !! ip) as [e|] eqn:He; [|intros [= <-]; by apply keeps_refl].
  match goal with |- context [set_peer s ip ?x] => set (e1 := x) end. set (s1 := set_peer s ip e1).
  assert (lag (Some ip) s s1 delta_new) as L1.
  { eapply lag_local; [by apply lag_start|]. eapply local_set; [done|exact He|]. intros _. unfold e1. destruct families; apply ao_inv_clear. }
  match goal with |- (mbind _ ?x = _) -> _ => destruct x as [s2|] eqn:E2 end; [|done]. cbn [mbind option_bind]. intros [= <-].
  eapply keeps_local; [|apply bmp_down_local]. revert E2. destruct families as [|a families].
  - destruct (bool_decide _); [|intros [= <-]; by apply lag_quiet].
    destruct (remove_routes_from_peer (sv_loc_rib s1) ip) as [[rib d]|] eqn:E; [|done]. cbn [mbind option_bind]. apply lag_done.
    rewrite <- (delta_new_extend d). apply lag_rib; [done|]. eapply peer_down_reports; [apply L1|exact E].
  - intros [= <-]. apply lag_quiet. rewrite <- (delta_new_extend delta_new). apply lag_rib; [done|].
    exact (mark_families_reports ext ip (a :: families) (sv_loc_rib s1) (lg_good _ _ _ _ L1)).
Qed.

Lemma bmp_up_local s ip e c : local_change (Some ip) s (bmp_peer_up s ip e c).
Proof.
  unfold bmp_peer_up. destruct (pi_bmp_session e), (cs_asn c), (cs_bgp_id c), (cs_conn_info c); try apply local_refl.
  eapply local_trans; [apply local_emit|by apply local_update].
Qed.

Lemma established_keeps s ext ip s' :
  server_inv s -> handle_peer_established is_match checks s ext ip = Some s' -> keeps (Some ip) s s'.
Proof.
  intros Hi. unfold handle_peer_established. destruct (peer ← sv_peers s !! ip; _) as [[[e c] caps]|]; [|intros [= <-]; by apply keeps_refl].
  set (s1 := bmp_peer_up s ip e c).
  assert (local_change (Some ip) s s1) as L1 by apply bmp_up_local.
  pose proof (local_keeps is_match checks _ _ _ Hi L1) as K1.
  destruct (sweep_stale _ _ s1 ext ip caps) as [s2|] eqn:E2; [|done]. cbn [mbind option_bind].
  apply sweep_stale_keeps in E2 as K2; [|apply K1]. destruct (resend_families _ _ s2 ip _) as [s3|] eqn:E3; [|done].
  cbn [mbind option_bind]. intros [= <-]. eapply keeps_from_local; [exact L1| |done].
  eapply keeps_local; [eapply keeps_local; [exact K2|]|apply local_emit].
  eapply resend_families_local; [done| |exact E3]. apply K2.
Qed.

Lemma state_changed_keeps s ext ip state s' :
  server_inv s -> handle_peer_state_changed is_match checks s ext ip state = Some s' -> keeps (Some ip) s s'.
Proof.
  intros Hi. unfold handle_peer_state_changed. destruct (sv_peers s !! ip) as [e|] eqn:He; [|intros [= <-]; by apply keeps_refl].
  match goal with |- context [set_peer s ip ?e1] => set (s1 := set_peer s ip e1) end.
  assert (local_change (Some ip) s s1) as L1 by by eapply local_set.
  pose proof (local_keeps is_match checks _ _ _ Hi L1) as K1.
  case_bool_decide; [|intros [= <-]; done]. intros E. eapply keeps_from_local; [exact L1| |done].
  eapply established_keeps; [apply K1|exact E].
Qed.

Lemma handshake_local s ip asn : local_change (Some ip) s (handle_peer_handshake_complete s ip asn).
Proof.
  unfold handle_peer_handshake_complete. destruct (find_peer (sv_config s) ip); [|apply local_refl].
  destruct (build_peer_policies _ _ _). by apply local_update.
Qed.

(** *** Prefix limits and route refresh *)
Lemma max_prefix_keeps s ip s' :
  server_inv s -> handle_max_prefix_terminate is_match checks s ip = Some s' -> keeps (Some ip) s s'.
Proof.
  intros Hi. unfold handle_max_prefix_terminate. destruct (sv_peers s !! ip) as [e|] eqn:He; [|intros [= <-]; by apply keeps_refl].
  set (bmp := (conn ← established_conn e; _)). set (e1 := if is_established e then with_pi_conn _ _ else _).
  set (s1 := if is_established e then emit _ _ else _).
  assert (local_change (Some ip) s s1) as L1.
  { assert (local_change (Some ip) s (set_peer s ip e1)) as L.
    { eapply local_set; [done|exact He|]. intros _. unfold e1. destruct (is_established e); apply ao_inv_clear. }
    unfold s1. destruct (is_established e); [|exact L]. eapply local_trans; [exact L|apply local_emit]. }
  assert (lag (Some ip) s s1 delta_new) as L2 by (eapply lag_local; [by apply lag_start|exact L1]).
  destruct (remove_routes_from_peer (sv_loc_rib s1) ip) as [[rib d]|] eqn:E; [|done]. cbn [mbind option_bind].
  destruct (Server.propagate_routes _ _ _ d _) as [s2|] eqn:E2; [|done]. cbn [mbind option_bind]. intros [= <-].
  assert (keeps (Some ip) s s2) as K.
  { eapply lag_done; [|exact E2]. rewrite <- (delta_new_extend d). apply lag_rib; [done|].
    eapply peer_down_reports; [apply L2|exact E]. }
  destruct bmp; [|done]. eapply keeps_local; [exact K|apply local_emit].
Qed.

Lemma refresh_local s ip af sf s' :
  good_rib (sv_loc_rib s) -> handle_route_refresh is_match checks s ip af sf = Some s' -> local_change (Some ip) s s'.
Proof.
  intros Hg. unfold handle_route_refresh, send_enhanced_route_refresh.
  destruct (match _ with Some c => _ | None => false end); [|by apply resend_local].
  destruct (negb _); [intros [= <-]; apply local_refl|].
  destruct (Server.resend_routes_to_peer _ _ _ ip af sf) as [s1|] eqn:E; [|done]. cbn [mbind option_bind]. intros [= <-].
  eapply local_trans; [apply (local_emit _ s)|]. eapply local_trans; [|apply local_emit].
  eapply resend_local; [done| |exact E]. exact Hg.
Qed.

Lemma borr_keeps s ext ip af sf : server_inv s -> keeps (Some ip) s (handle_route_refresh_borr s ext ip af sf).
Proof.
  intros Hi. unfold handle_route_refresh_borr.
  assert (keeps (Some ip) s (with_loc_rib s (mark_peer_routes_stale (sv_loc_rib s) ext ip (mkAfiSafi af sf)).1)) as K.
  { apply lag_quiet. rewrite <- (delta_new_extend delta_new). apply lag_rib; [by apply lag_start|]. apply mark_reports, Hi. }
  cbn [sv_config with_loc_rib]. destruct (cf_enhanced_rr_stale_ttl _); [|done]. eapply keeps_local; [exact K|by apply local_update].
Qed.

Lemma eorr_keeps s ext ip af sf s' :
  server_inv s -> handle_route_refresh_eorr is_match checks s ext ip af sf = Some s' -> keeps (Some ip) s s'.
Proof.
  intros Hi. unfold handle_route_refresh_eorr. intros E.
  match type of E with sweep_and_propagate _ _ ?s1 _ _ _ = _ => assert (local_change (Some ip) s s1) as Hlc by by apply local_update end.
  eapply keeps_from_local; [exact Hlc| |done]. eapply sweep_and_propagate_keeps; [|exact E].
  by apply (local_keeps is_match checks (Some ip) s).
Qed.
End handlers.

(** ** Updates *)

(** *** What happens to the routes of an update before the import *)
Definition batch_fits (n : nat) (l : list PendingRoute) : Prop := Forall pending_ok l /\ (length l <= n)%nat.

Lemma reject_fits n l : batch_fits n l -> batch_fits n (reject_announcements l).
Proof.
  intros [Hok Hn]. split; [|by unfold reject_announcements; rewrite length_map]. unfold reject_announcements.
  apply Forall_forall. intros x (y & -> & Hy)%list_elem_of_fmap. rewrite Forall_forall in Hok. specialize (Hok y Hy). by destruct y.
Qed.

Lemma scrub_fits n l : forall next l' next', scrub_ebgp_pending_routes next l = (l', next') ->
  batch_fits n l -> batch_fits n l' /\ next <= next'.
Proof.
  assert (forall next l' next', scrub_ebgp_pending_routes next l = (l', next') ->
    map pending_route_key l' = map pending_route_key l /\ next <= next') as Hs.
  { induction l as [|x l IH]; intros next l' next'; cbn [scrub_ebgp_pending_routes]; [intros [= <- <-]; split; [done|lia]|].
    destruct x as [r|w].
    - destruct (scrub_ebgp_pending_routes (next + 1) l) as [l1 n1] eqn:E. intros [= <- <-]. apply IH in E as [E ?].
      cbn [map pending_route_key rp_key]. rewrite E. split; [done|lia].
    - destruct (scrub_ebgp_pending_routes next l) as [l1 n1] eqn:E. intros [= <- <-]. apply IH in E as [E ?].
      cbn [map]. rewrite E. split; [done|lia]. }
  intros next l' next' E [Hok Hn]. destruct (Hs _ _ _ E) as [Hk Hle]. split; [|done]. split.
  - rewrite Forall_forall in Hok |- *. intros x Hx. unfold pending_ok.
    assert (pending_route_key x ∈ map pending_route_key l) as (y & -> & Hy)%list_elem_of_fmap by (rewrite <- Hk; by apply list_elem_of_fmap_2).
    by apply Hok.
  - apply (f_equal length) in Hk. rewrite !length_map in Hk. lia.
Qed.

Lemma discard_fits n families l : batch_fits n l -> batch_fits n (discard_routes families l).
Proof.
  intros [Hok Hn]. split.
  { rewrite Forall_forall in Hok |- *. intros x [_ Hx]%list_elem_of_filter. by apply Hok. }
  unfold discard_routes.
  etransitivity; [apply length_filter|done].
Qed.

Lemma validate_out e announced negotiated : pi_adj_rib_out (validate_afi_safi e announced negotiated).2 = pi_adj_rib_out e.
Proof.
  induction announced as [|r l IH]; [done|]. cbn [validate_afi_safi].
  destruct (bool_decide _); [done|]. by destruct (bool_decide (negotiated <> ∅) && _).
Qed.

Section updates.
Context {A : Type} `{PathIdLaws A} `{HashOrder} {Sorts : SortBy}.
Variable is_match : Str -> Str -> bool.
Variable checks : bool.
Implicit Types (s : BgpServer A) (ip : IpAddr) (d : RouteDelta) (origin : option IpAddr).

#[local] Abbreviation keeps := (keeps is_match checks).

Lemma room_le (rib : LocRib A) n n' : room rib n -> (n' <= n)%nat -> room rib n'.
Proof. unfold room. lia. Qed.

Lemma import_lag origin s0 s d ext ip policies routes rib d' n :
  lag origin s0 s d -> batch_fits n routes -> room (sv_loc_rib s) n ->
  import_routes is_match checks s ext ip policies routes = Some (rib, d') ->
  lag origin s0 (with_loc_rib s rib) (delta_extend d d') /\
  (size (alloc_ids (lr_path_ids rib)) <= size (alloc_ids (lr_path_ids (sv_loc_rib s))) + length routes)%nat.
Proof.
  intros Hl [Hok Hn] Hroom. unfold import_routes. destruct (existsb _ routes); [done|]. intros E.
  eapply update_reports in E as (Hg & Hr & Hsz); [|apply Hl|done|by eapply room_le]. split; [|done]. by apply lag_rib.
Qed.

(** *** Monitoring only sends *)
Lemma monitor_nonempty_local {B} origin s ip asn id (l : list B) build s' :
  monitor_nonempty s ip asn id l build = Some s' -> local_change origin s s'.
Proof.
  unfold monitor_nonempty. destruct l; [intros [= <-]; apply local_refl|].
  destruct (build _); [|done]. intros [= <-]. apply local_emit.
Qed.

Lemma monitor_batches_local origin ip asn id fmt bs : forall s s',
  monitor_batches s ip asn id fmt bs = Some s' -> local_change origin s s'.
Proof.
  induction bs as [|b bs IH]; intros s s'; cbn [monitor_batches]; [intros [= <-]; apply local_refl|].
  destruct (to_update b fmt); [|done]. cbn [mbind option_bind]. intros E%IH. eapply local_trans; [|exact E]. apply local_emit.
Qed.

Lemma monitoring_local origin s ip asn id withdrawn announced s' :
  send_bmp_route_monitoring s ip asn id withdrawn announced = Some s' -> local_change origin s s'.
Proof.
  unfold send_bmp_route_monitoring. destruct (split_withdrawals withdrawn) as [[w1 w2] w3].
  destruct (monitor_nonempty s ip asn id w1 _) as [s1|] eqn:E1; [|done]. cbn [mbind option_bind].
  destruct (monitor_nonempty s1 ip asn id w2 _) as [s2|] eqn:E2; [|done]. cbn [mbind option_bind].
  destruct (monitor_nonempty s2 ip asn id w3 _) as [s3|] eqn:E3; [|done]. cbn [mbind option_bind]. intros E4.
  eapply local_trans; [by eapply monitor_nonempty_local|]. eapply local_trans; [by eapply monitor_nonempty_local|].
  eapply local_trans; [by eapply monitor_nonempty_local|]. by eapply monitor_batches_local.
Qed.

Lemma import_keeps s0 s ext ip routes s' n :
  lag (Some ip) s0 s delta_new -> batch_fits n routes -> room (sv_loc_rib s) n ->
  import_and_propagate is_match checks s ext ip routes = Some s' -> keeps (Some ip) s0 s'.
Proof.
  intros Hl Hf Hroom. unfold import_and_propagate. destruct (sv_peers s !! ip) as [e|]; [|intros [= <-]; by apply lag_quiet].
  destruct (import_routes _ _ s ext ip _ routes) as [[rib d]|] eqn:E1; [|done]. cbn [mbind option_bind].
  destruct (import_lag _ _ _ _ _ _ _ _ _ _ _ Hl Hf Hroom E1) as [L1 _]. rewrite delta_new_extend in L1.
  destruct (Server.propagate_routes _ _ _ d _) as [s1|] eqn:E2; [|done]. cbn [mbind option_bind].
  pose proof (lag_done _ _ _ _ _ _ _ L1 E2) as K.
  destruct (conn ← established_conn e; _) as [[asn id]|]; [|intros [= <-]; exact K].
  destruct (pending_split routes) as [bmp_announced bmp_withdrawn]. intros E3.
  eapply keeps_local; [exact K|]. by eapply monitoring_local.
Qed.

Lemma update_keeps s ext ip routes s' :
  server_inv s -> Forall pending_ok routes -> room (sv_loc_rib s) (length routes) ->
  handle_peer_update is_match checks s ext ip routes = Some s' -> keeps (Some ip) s s'.
Proof.
  intros Hi Hok Hroom. unfold handle_peer_update.
  destruct (sv_peers s !! ip) as [e|] eqn:He; cbn [mbind option_bind]; [|intros [= <-]; by apply keeps_refl].
  destruct (established_conn e) as [c|]; cbn [mbind option_bind]; [|intros [= <-]; by apply keeps_refl].
  destruct (cs_asn c) as [asn|]; cbn [mbind option_bind]; [|intros [= <-]; by apply keeps_refl].
  cbv zeta. destruct (pending_split routes) as [announced withdrawn].
  match goal with |- context [validate_afi_safi ?x announced ?n] => pose proof (validate_out x announced n) as Hout;
    destruct (validate_afi_safi x announced n) as [valid e1] end. cbn [snd] in Hout. cbn [pi_adj_rib_out with_pi_adj_rib_in] in Hout.
  assert (lag (Some ip) s (set_peer s ip e1) delta_new) as L1.
  { eapply lag_local; [by apply lag_start|]. eapply local_set; [done|exact He|]. by rewrite Hout. }
  destruct valid; cbn [negb]; [|intros [= <-]; by apply lag_quiet].
  match goal with |- context [scrub_ebgp_pending_routes _ ?x] => assert (batch_fits (length routes) x) as Hf1; [|set (routes1 := x) in *] end.
  { destruct announced; [by split|]. destruct (rejects_update _ _ _ _ _ _ _); [apply reject_fits|]; by split. }
  destruct (if negb (asn =? _) then scrub_ebgp_pending_routes _ routes1 else _) as [routes2 next] eqn:Es.
  assert (batch_fits (length routes) routes2 /\ lr_next (sv_loc_rib s) <= next) as [Hf2 Hnext].
  { revert Es. destruct (negb _); [by intros E; eapply scrub_fits|]. intros [= <- <-]. split; [done|lia]. }
  cbn [sv_loc_rib set_peer with_peers].
  assert (lag (Some ip) s (with_loc_rib (set_peer s ip e1) (set_next (sv_loc_rib s) next)) delta_new) as L2.
  { rewrite <- (delta_new_extend delta_new). apply lag_rib; [done|]. split.
    - apply (set_next_good (sv_loc_rib s)); [apply Hi|done].
    - apply reports_same; [intros; apply get_route_set_next|done]. }
  match goal with |- context [check_max_prefix ?a ?b ?c ?d] => destruct (check_max_prefix a b c d) as [fam|] end.
  - apply (import_keeps _ _ _ _ _ _ (length routes)); [exact L2|by apply discard_fits|exact Hroom].
  - destruct (cp_allow_automatic_stop _); [|intros [= <-]; by apply lag_quiet].
    intros E. destruct (lag_quiet is_match checks _ _ _ L2) as [Hi2 Hs2].
    destruct (max_prefix_keeps is_match checks _ _ _ Hi2 E) as [Hi3 Hs3]. split; [done|]. auto.
Qed.

(** *** Origin validation *)
Lemma reevaluate_lag s0 ext : forall routes s d s' d' n,
  lag None s0 s d -> Forall (fun r : IpAddr * list RoutePath => Forall pending_ok (map Announce r.2)) routes ->
  (sum_list_with (fun r : IpAddr * list RoutePath => length r.2) routes <= n)%nat -> room (sv_loc_rib s) n ->
  reevaluate_routes is_match checks s ext routes d = Some (s', d') -> lag None s0 s' d'.
Proof.
  induction routes as [|[ip l] routes IH]; intros s d s' d' n Hl Hok Hn Hroom; cbn [reevaluate_routes]; [by intros [= <- <-]|].
  apply Forall_cons in Hok as [Hok1 Hok]. cbn [snd sum_list_with] in *.
  destruct (sv_peers s !! ip) as [e|]; [|eapply IH; [exact Hl|done| |exact Hroom]; lia].
  destruct (import_routes _ _ s ext ip _ _) as [[rib d1]|] eqn:E; [|done]. cbn [mbind option_bind].
  assert (batch_fits (length l) (map Announce l)) as Hf by (split; [done|by rewrite length_map]).
  assert (room (sv_loc_rib s) (length l)) as Hroom1 by (eapply room_le; [exact Hroom|lia]).
  destruct (import_lag _ _ _ _ _ _ _ _ _ _ _ Hl Hf Hroom1 E) as [L1 Hsz].
  rewrite length_map in Hsz. apply (IH _ _ _ _ (n - length l)%nat); [exact L1|done|lia|].
  unfold room in *. cbn [sv_loc_rib with_loc_rib]. lia.
Qed.

Lemma vrp_keeps s ext added removed s' :
  server_inv s ->
  (forall affected, affected_prefixes (sv_loc_rib s) added removed = Some affected ->
     Forall (fun r => Forall pending_ok (map Announce r.2)) (affected_routes s affected) /\
     room (sv_loc_rib s) (sum_list_with (fun r => length r.2) (affected_routes s affected))) ->
  handle_vrp_update is_match checks s ext added removed = Some s' -> keeps None s s'.
Proof.
  intros Hi Hok. unfold handle_vrp_update.
  destruct (vrp_add _ added) as [t1|]; [|done]. cbn [mbind option_bind].
  destruct (vrp_remove t1 removed) as [t2|]; [|done]. cbn [mbind option_bind].
  assert (lag None s (with_vrp_table s t2) delta_new) as L1 by (eapply lag_local; [by apply lag_start|apply local_vrp]).
  cbn [sv_loc_rib with_vrp_table]. destruct (affected_prefixes _ _ _) as [affected|]; [|done]. cbn [mbind option_bind].
  destruct (Hok affected eq_refl) as [Hf Hroom]. destruct (bool_decide _); [intros [= <-]; by apply lag_quiet|].
  destruct (reevaluate_routes _ _ _ ext _ _) as [[s1 d]|] eqn:E; [|done]. cbn [mbind option_bind].
  pose proof (reevaluate_lag _ _ _ _ _ _ _ _ L1 Hf (le_n _) Hroom E) as L2.
  destruct (has_changes d) eqn:Ed; [by apply lag_done|]. intros [= <-]. apply (lag_done _ _ None s s1 s1 d L2).
  unfold Server.propagate_routes. by rewrite Ed.
Qed.
End updates.
