(* ===== verification/ServerResend.v ===== *)
(** * Sending a peer the table again

    A resend sets what is filed under the keys that have a route; what is filed
    under others stays.  A session that comes up starts with an empty table,
    so that sending every family puts it in sync, and so does a peer that was
    in sync before its configuration or policies changed. *)
From S2P Require Import Prelude Wire Net Trie TrieSpec PrefixMap Vrp PathId Notification Nlri BgpLs BgpLsParse Attrs BgpLsAttr Text OpenMsg Msg Path UpdateCodec UpdateCodecSpec Update ExtComm PeerCaps Conf Policy Fsm RibTables LocRib Outgoing PeerState LocRibInv LocRibSpec LocRibPeer LocRibStale LocRibOps Propagate Server ServerOps ServerSync ServerSteps.

Section resend.
Context {A : Type} `{PathIdLaws A} `{HashOrder} {Sorts : SortBy}.
Variable is_match : Str -> Str -> bool.
Variable checks : bool.
Implicit Types (s : BgpServer A) (ip : IpAddr) (e : PeerInfo).

#[local] Abbreviation synced := (peer_synced is_match checks).

(** ** Sending the table again *)
Lemma resendable_family key : resendable (afi (key_afi_safi key)) (safi (key_afi_safi key)) = true /\ in_table (key_afi_safi key) key = true.
Proof.
  destruct key as [[k|k]|k]; [done..|]. unfold key_afi_safi, in_table, ls_safi. destruct (is_vpn k); cbn; (split; [done|]); apply bool_decide_eq_true; auto.
Qed.

(** The keys of [a] with a route are set to what is exported, the others are left. *)
Lemma resend_step s ip e ctx a s' :
  rib_inv (sv_loc_rib s) -> ao_inv (pi_adj_rib_out e) ->
  sv_peers s !! ip = Some e -> resend_context s ip e = Some ctx ->
  Server.resend_routes_to_peer is_match checks s ip (afi a) (safi a) = Some s' ->
  same_server s s' /\ exists out, sv_peers s' !! ip = Some (with_pi_adj_rib_out out e) /\ ao_inv out /\
    forall key, key_afi_safi key ∈ ctx_afi_safis ctx ->
      (forall id p, ao_path out key id = Some p <-> exports is_match checks ctx (sv_loc_rib s) key id p) \/
      ((forall id, ao_path out key id = ao_path (pi_adj_rib_out e) key id) /\ (a = key_afi_safi key -> get_route (sv_loc_rib s) key = None)).
Proof.
  intros Hri Ho He Hctx. unfold Server.resend_routes_to_peer. rewrite He, Hctx.
  assert (mkAfiSafi (afi a) (safi a) = a) as -> by by destruct a.
  destruct (resendable (afi a) (safi a)) eqn:Er; cbn [negb].
  2: { intros [= <-]. split; [apply same_server_refl|]. exists (pi_adj_rib_out e). rewrite with_same_out. split; [done|]. split; [done|].
       intros key _. right. split; [done|]. intros ->. by rewrite (proj1 (resendable_family key)) in Er. }
  intros E. apply propagate_to_same in E as (Hs & out & sent & Ep & E). split; [done|]. exists out.
  split; [by rewrite Ep, lookup_insert_eq|]. destruct (ao_repr_exists _ Ho) as [m [Ho' Hm]].
  destruct (propagate_families_ok _ _ _ _ _ _ _ _ _ _ Hri (conj Ho' Hm) E) as (m' & [Ho1 Hm'] & Hp). split; [done|]. intros key Hf.
  set (keys := map route_key (get_routes (sv_loc_rib s) (Some a))) in *.
  assert (delta_keys ctx (mkDelta keys keys) (key_afi_safi key) = keys) as Ek by (unfold delta_keys; by destruct (_ || _)).
  destruct (decide (key ∈ keys)) as [Hk|Hk].
  - left. intros id p. rewrite Hm'. destruct (Hp key id p) as [Hin _]. rewrite Ek in Hin. by apply Hin.
  - right. split.
    { intros id. rewrite Hm', Hm. destruct (Hp key id (mkRef 0 (demo_path [] None 0))) as [_ Hout].
      rewrite Ek in Hout. apply Hout. tauto. }
    intros ->. destruct (get_route (sv_loc_rib s) key) as [r|] eqn:Eg; [|done]. destruct Hk.
    pose proof Hri as (_ & _ & Hroutes). destruct (ri_key _ _ _ Hroutes _ _ Eg) as [Hkey _].
    apply list_elem_of_fmap. exists r. split; [done|]. apply elem_of_get_routes; [done|]. rewrite Hkey. split; [apply resendable_family|done].
Qed.

Lemma exports_none ctx (rib : LocRib A) key id p : get_route rib key = None -> ~ exports is_match checks ctx rib key id p.
Proof.
  intros Hg (sel & r & Hsel & Hr & _). destruct (select_elem is_match checks _ _ _ _ _ _ Hsel Hr) as (q & _ & Hq & _).
  unfold get_all_paths in Hq. rewrite Hg in Hq. by apply not_elem_of_nil in Hq.
Qed.

(** A key is in order in the table, or nothing is filed under it yet. *)
Definition in_order ctx (rib : LocRib A) (out : AdjRibOut) key : Prop :=
  forall id p, ao_path out key id = Some p <-> exports is_match checks ctx rib key id p.
Definition not_filed (out : AdjRibOut) key : Prop := forall id, ao_path out key id = None.

Lemma in_order_none ctx (rib : LocRib A) out key : get_route rib key = None -> in_order ctx rib out key <-> not_filed out key.
Proof.
  intros Hg. split.
  - intros Hin id. destruct (ao_path out key id) as [p|] eqn:E; [|done]. apply Hin in E. by destruct (exports_none _ _ _ _ _ Hg E).
  - intros Hn id p. rewrite Hn. split; [done|]. intros Hex. by destruct (exports_none _ _ _ _ _ Hg Hex).
Qed.

(** A table with nothing under keys without a route: sending its families again
    puts their keys in order. *)
Record clean ctx (rib : LocRib A) (out : AdjRibOut) key (seen : list AfiSafi) : Prop := {
  cl_none : get_route rib key = None -> not_filed out key;
  cl_seen : key_afi_safi key ∈ seen -> in_order ctx rib out key;
}.

Lemma resend_families_ok (K : RouteKey -> Prop) ip ctx (l : list AfiSafi) : forall (seen : list AfiSafi) s e s',
  rib_inv (sv_loc_rib s) -> ao_inv (pi_adj_rib_out e) -> sv_peers s !! ip = Some e -> resend_context s ip e = Some ctx ->
  (forall key, K key -> key_afi_safi key ∈ ctx_afi_safis ctx -> clean ctx (sv_loc_rib s) (pi_adj_rib_out e) key seen) ->
  resend_families is_match checks s ip l = Some s' ->
  same_server s s' /\ exists out, sv_peers s' !! ip = Some (with_pi_adj_rib_out out e) /\ ao_inv out /\
    forall key, K key -> key_afi_safi key ∈ ctx_afi_safis ctx -> clean ctx (sv_loc_rib s) out key (l ++ seen).
Proof.
  induction l as [|a l IH]; intros seen s e s' Hri Ho He Hctx Hpre; cbn [resend_families].
  { intros [= <-]. split; [apply same_server_refl|]. exists (pi_adj_rib_out e). by rewrite with_same_out. }
  destruct (Server.resend_routes_to_peer _ _ s ip _ _) as [s1|] eqn:E1; [|done]. cbn [mbind option_bind]. intros E2.
  destruct (resend_step _ _ _ _ _ _ Hri Ho He Hctx E1) as (Hs1 & out1 & He1 & Ho1 & Hk1).
  pose proof Hs1 as [Er Ec Ep Ea _ _].
  assert (resend_context s1 ip (with_pi_adj_rib_out out1 e) = Some ctx) as Hctx1.
  { rewrite <- Hctx. unfold resend_context, export_context. by rewrite Ec, Ea. }
  destruct (IH (a :: seen) s1 (with_pi_adj_rib_out out1 e) s') as (Hs2 & out & He2 & Ho2 & Hk2); try done.
  { by rewrite Er. }
  { intros key Hkey Hf. rewrite Er. cbn [pi_adj_rib_out with_pi_adj_rib_out]. destruct (Hpre key Hkey Hf) as [Hnone Hseen].
    destruct (Hk1 key Hf) as [Hin|[Hsame Hn]].
    - split; [|done]. intros Hg. by apply (in_order_none ctx (sv_loc_rib s)).
    - assert (get_route (sv_loc_rib s) key = None -> not_filed out1 key) as Hnone1 by (intros Hg id; rewrite Hsame; by apply Hnone).
      split; [done|]. intros [Heq|Hin]%elem_of_cons; [apply in_order_none; auto|].
      intros id p. rewrite Hsame. by apply Hseen. }
  rewrite Er in Hk2. split; [by eapply same_server_trans|]. exists out. split; [done|]. split; [done|]. intros key Hkey Hf.
  destruct (Hk2 key Hkey Hf) as [Hnone Hseen]. split; [done|]. intros Hin. apply Hseen.
  rewrite <- app_comm_cons, !elem_of_cons, !elem_of_app, elem_of_cons in *. tauto.
Qed.

(** A peer that is sent every family, with nothing filed under keys that have
    no route, is in order. *)
Lemma resend_all_ok s ip e ctx (l : list AfiSafi) s' :
  good_rib (sv_loc_rib s) -> ao_inv (pi_adj_rib_out e) -> sv_peers s !! ip = Some e -> resend_context s ip e = Some ctx ->
  (forall key, key_afi_safi key ∈ ctx_afi_safis ctx -> ~ refusable (lr_max_ls_entries (sv_loc_rib s)) key ->
     get_route (sv_loc_rib s) key = None -> not_filed (pi_adj_rib_out e) key) ->
  (forall a, a ∈ ctx_afi_safis ctx -> a ∈ l) ->
  resend_families is_match checks s ip l = Some s' ->
  same_server s s' /\ exists out, sv_peers s' !! ip = Some (with_pi_adj_rib_out out e) /\ out_synced is_match checks ctx (sv_loc_rib s') out.
Proof.
  intros Hg Ho He Hctx Hnf Hl E.
  destruct (resend_families_ok (fun key => ~ refusable (lr_max_ls_entries (sv_loc_rib s)) key) ip ctx l [] s e s')
    as (Hs & out & He' & Ho' & Hk); try done; [by apply good_rib_inv| |].
  { intros key Hr Hf. split; [by apply Hnf|]. by intros ?%not_elem_of_nil. }
  split; [done|]. exists out. split; [done|]. destruct Hs as [-> _ _ _ _ _]. split; [done|]. intros key id p Hf Hr.
  destruct (Hk key Hr Hf) as [_ Hin]. apply Hin. rewrite app_nil_r. by apply Hl.
Qed.

(** ** The context of a peer, both ways *)
Definition distinct_peers s : Prop := NoDup (omap cp_ip (cf_peers (sv_config s))).

Lemma find_absent ip (l : list PeerConfig) : ip ∉ omap cp_ip l -> find (fun p => bool_decide (cp_ip p = Some ip)) l = None.
Proof.
  induction l as [|c l IH]; [done|]. intros Hn. cbn [find]. case_bool_decide as Hc.
  - contradict Hn. apply list_elem_of_omap. exists c. split; [by left|done].
  - apply IH. contradict Hn. apply list_elem_of_omap in Hn as (p & Hp & E). apply list_elem_of_omap. exists p. split; [by right|done].
Qed.
Lemma peer_cfg_lookup s ip : distinct_peers s -> peer_cfg_by_ip s !! ip = find_peer (sv_config s) ip.
Proof.
  unfold distinct_peers, peer_cfg_by_ip, find_peer. generalize (cf_peers (sv_config s)) as l. intros l.
  assert (forall m : gmap IpAddr PeerConfig, NoDup (omap cp_ip l) ->
    foldl (fun m cfg => match cp_ip cfg with Some ip => <[ip := cfg]> m | None => m end) m l !! ip =
      match find (fun p => bool_decide (cp_ip p = Some ip)) l with Some p => Some p | None => m !! ip end) as Hf.
  { induction l as [|c l IH]; intros m Hnd; [done|]. cbn [foldl find omap list_omap] in *.
    destruct (cp_ip c) as [ip'|] eqn:Ec.
    - apply NoDup_cons in Hnd as [Hn Hnd]. rewrite IH by done. case_bool_decide as Hc.
      + injection Hc as ->. by rewrite find_absent, lookup_insert_eq.
      + destruct (find _ l); [done|]. rewrite lookup_insert_ne; [done|congruence].
    - rewrite IH by done. by rewrite bool_decide_false by done. }
  intros Hnd. rewrite Hf by done. by destruct (find _ l).
Qed.

Lemma context_resend s ip e ctx :
  distinct_peers s -> is_Some (cs_asn (pi_conn e)) ->
  propagation_context s None ip e = Some ctx -> resend_context s ip e = Some ctx.
Proof.
  intros Hd [asn Ea]. unfold propagation_context, resend_context, established_conn. rewrite peer_cfg_lookup by done.
  destruct (find_peer (sv_config s) ip) as [cfg|]; [|done]. cbn [mbind option_bind].
  case_bool_decide; [|done]. cbn [mbind option_bind]. rewrite Ea. destruct (negb _); [done|].
  by destruct (cs_capabilities (pi_conn e)).
Qed.

Lemma context_caps s origin ip e ctx caps :
  propagation_context s origin ip e = Some ctx -> cs_capabilities (pi_conn e) = Some caps ->
  forall a, a ∈ ctx_afi_safis ctx -> a ∈ hash_order (caps_afi_safis caps).
Proof.
  unfold propagation_context. destruct (peer_cfg_by_ip s !! ip); [|done]. cbn [mbind option_bind].
  unfold established_conn. case_bool_decide; [|done]. cbn [mbind option_bind]. destruct (negb _); [done|].
  intros E Ec. rewrite Ec in E. cbn [mbind option_bind] in E. injection E as <-. intros a. rewrite (hash_order_perm (caps_afi_safis caps)).
  unfold ctx_afi_safis, caps_afi_safis, export_context, conn_negotiated_afi_safis. cbn [ctx_negotiated_afi_safis]. rewrite Ec.
  case_bool_decide; [done|]. by rewrite (hash_order_perm (elements (multiprotocol caps))).
Qed.

(** A propagation leaves the table of its originator alone. *)
Lemma own_propagation s d ip e s' :
  Server.propagate_routes is_match checks s d (Some ip) = Some s' -> sv_peers s !! ip = Some e ->
  same_server s s' /\ sv_peers s' !! ip = Some e.
Proof.
  intros [Hs Hp]%propagate_routes_ok He. split; [done|]. specialize (Hp ip). rewrite He in Hp. destruct Hp as (out & -> & Htab).
  unfold table_after in Htab.
  assert (propagation_context s (Some ip) ip e = None) as Ec.
  { unfold propagation_context, should_propagate_to_peer. destruct (peer_cfg_by_ip s !! ip); [|done]. cbn [mbind option_bind].
    destruct (established_conn e); [|done]. cbn [mbind option_bind]. by rewrite bool_decide_true. }
  rewrite Ec in Htab. by rewrite Htab, with_same_out.
Qed.

(** What the entry of a peer exports with. *)
Definition same_exporter e e' : Prop :=
  pi_conn e' = pi_conn e /\ pi_export_policies e' = pi_export_policies e /\ pi_adj_rib_out e' = pi_adj_rib_out e.

Lemma own_sweep s ext ip e caps s' :
  sweep_stale is_match checks s ext ip caps = Some s' -> sv_peers s !! ip = Some e ->
  sv_config s' = sv_config s /\ sv_local_addr s' = sv_local_addr s /\ exists e', sv_peers s' !! ip = Some e' /\ same_exporter e e'.
Proof.
  unfold sweep_stale, sweep_gr_stale, sweep_llgr_stale, sweep. intros E He.
  destruct (remove_peer_routes_stale _ ext ip _) as [[rib1 d1]|]; [|done]. cbn [mbind option_bind] in E.
  cbn [sv_peers with_loc_rib] in E. rewrite He in E.
  match type of E with context [set_peer _ ip ?x] => set (e1 := x) in E end.
  destruct (remove_peer_routes_stale _ ext ip _) as [[rib2 d2]|]; [|done]. cbn [mbind option_bind] in E.
  apply (own_propagation _ _ _ e1) in E as [[_ Ec _ Ea _ _] He']; [|cbn; by rewrite lookup_insert_eq].
  split; [done|]. split; [done|]. by exists e1.
Qed.
(** Whatever is sent again, of the entry only the table changes. *)
Lemma resend_families_entry ip (l : list AfiSafi) : forall s e s',
  sv_peers s !! ip = Some e -> resend_families is_match checks s ip l = Some s' ->
  same_server s s' /\ exists out, sv_peers s' !! ip = Some (with_pi_adj_rib_out out e).
Proof.
  induction l as [|a l IH]; intros s e s' He; cbn [resend_families].
  { intros [= <-]. split; [apply same_server_refl|]. exists (pi_adj_rib_out e). by rewrite with_same_out. }
  destruct (Server.resend_routes_to_peer _ _ s ip _ _) as [s1|] eqn:E1; [|done]. cbn [mbind option_bind]. intros E2.
  assert (same_server s s1 /\ exists out, sv_peers s1 !! ip = Some (with_pi_adj_rib_out out e)) as (Hs1 & out1 & He1).
  { assert (s1 = s -> same_server s s1 /\ exists out, sv_peers s1 !! ip = Some (with_pi_adj_rib_out out e)) as Hsame.
    { intros ->. split; [apply same_server_refl|]. exists (pi_adj_rib_out e). by rewrite with_same_out. }
    unfold Server.resend_routes_to_peer in E1. rewrite He in E1. destruct (negb _); [apply Hsame; congruence|].
    destruct (resend_context s ip e) as [ctx|]; [|apply Hsame; congruence].
    apply propagate_to_same in E1 as (? & out & sent & Ep & _). split; [done|]. exists out. by rewrite Ep, lookup_insert_eq. }
  destruct (IH s1 _ s' He1 E2) as (Hs2 & out & He2). split; [by eapply same_server_trans|]. by exists out.
Qed.

(** Becoming established: the table to the peer, empty before, is in order. *)
Lemma established_in_order s ext ip e s' :
  server_inv s -> distinct_peers s -> sv_peers s !! ip = Some e -> is_Some (cs_asn (pi_conn e)) ->
  (forall key, not_filed (pi_adj_rib_out e) key) ->
  handle_peer_established is_match checks s ext ip = Some s' -> synced s' ip.
Proof.
  intros Hi Hd He Hasn Hnf E. pose proof (established_keeps _ _ _ _ _ _ Hi E) as [Hi' _]. unfold handle_peer_established in E.
  rewrite He in E. cbn [mbind option_bind] in E.
  destruct (established_conn e) as [c|] eqn:Eest; cbn [mbind option_bind] in E.
  2: { injection E as <-. intros e' ctx He' Hctx. rewrite He in He'. injection He' as <-. exfalso. unfold propagation_context in Hctx.
       rewrite Eest in Hctx. by destruct (peer_cfg_by_ip s !! ip). }
  assert (c = pi_conn e) as -> by (unfold established_conn in Eest; case_bool_decide; [by injection Eest|done]).
  destruct (cs_capabilities (pi_conn e)) as [caps|] eqn:Ecaps; cbn [mbind option_bind] in E.
  2: { injection E as <-. intros e' ctx He' Hctx. rewrite He in He'. injection He' as <-. exfalso. unfold propagation_context in Hctx.
       rewrite Eest in Hctx. destruct (peer_cfg_by_ip s !! ip); [|done]. cbn [mbind option_bind] in Hctx. rewrite Ecaps in Hctx.
       by destruct (negb _). }
  assert (exists e1, sv_peers (bmp_peer_up s ip e (pi_conn e)) !! ip = Some e1 /\ same_exporter e e1) as (e1 & He1 & Hx1).
  { unfold bmp_peer_up. destruct (pi_bmp_session e), (cs_asn (pi_conn e)), (cs_bgp_id (pi_conn e)), (cs_conn_info (pi_conn e));
      try (by exists e). eexists. split; [cbn; by rewrite lookup_alter_eq, He|done]. }
  assert (sv_config (bmp_peer_up s ip e (pi_conn e)) = sv_config s) as Ec1.
  { unfold bmp_peer_up. by destruct (pi_bmp_session e), (cs_asn (pi_conn e)), (cs_bgp_id (pi_conn e)), (cs_conn_info (pi_conn e)). }
  pose proof (bmp_up_local s ip e (pi_conn e)) as L1. set (s1 := bmp_peer_up s ip e (pi_conn e)) in *.
  destruct (sweep_stale _ _ s1 ext ip caps) as [s2|] eqn:E2; [|done]. cbn [mbind option_bind] in E.
  destruct (sweep_stale_keeps _ _ _ _ _ _ _ (proj1 (local_keeps is_match checks _ _ _ Hi L1)) E2) as [Hi2 _].
  destruct (own_sweep _ _ _ _ _ _ E2 He1) as (Ec2 & Ea2 & e2 & He2 & Hx2).
  destruct (resend_families _ _ s2 ip _) as [s3|] eqn:E3; [|done]. cbn [mbind option_bind] in E. injection E as <-.
  destruct Hx1 as (X1 & X2 & X3), Hx2 as (Y1 & Y2 & Y3).
  assert (pi_conn e2 = pi_conn e) as Econn by congruence. assert (pi_adj_rib_out e2 = pi_adj_rib_out e) as Eout by congruence.
  intros e' ctx He' Hctx. cbn [sv_peers emit] in He'.
  destruct (resend_families_entry _ _ _ _ _ He2 E3) as ([_ Ec3 _ Ea3 _ _] & out3 & He3). rewrite He' in He3. injection He3 as ->.
  rewrite (context_same s2) in Hctx by done. rewrite context_with_out in Hctx.
  assert (distinct_peers s2) as Hd2.
  { unfold distinct_peers. rewrite Ec2, Ec1. exact Hd. }
  destruct (resend_all_ok s2 ip e2 ctx (hash_order (caps_afi_safis caps)) s3 (si_rib _ Hi2)) as (_ & out & He3 & Hsync); try done.
  - by eapply si_out.
  - apply context_resend; [done| |done]. by rewrite Econn.
  - intros key _ _ _. rewrite Eout. apply Hnf.
  - eapply context_caps; [exact Hctx|]. by rewrite Econn.
  - rewrite He' in He3. injection He3 as ->. exact Hsync.
Qed.
End resend.
