(* ===== verification/ServerMgmtSteps.v ===== *)
(** * Requests keep the other peers in sync

    One lemma per handler of [ServerMgmt], as for the operations: a request
    about a peer is a change of its entry and its configuration, a local route
    a change of the Loc-RIB that everyone is told of. *)
From S2P Require Import Prelude Wire Net Trie TrieSpec PrefixMap Vrp PathId Notification Nlri BgpLs BgpLsParse Attrs BgpLsAttr Text OpenMsg Msg Path UpdateCodec UpdateCodecSpec Update ExtComm PeerCaps Conf Policy Fsm RibTables LocRib Outgoing PeerState LocRibInv LocRibSpec LocRibPeer LocRibStale LocRibOps Propagate Server ServerOps ServerMgmt ServerSync ServerSteps ServerResend.

Section requests.
Context {A : Type} `{PathIdLaws A} `{HashOrder} {Sorts : SortBy}.
Variable is_match : Str -> Str -> bool.
Variable checks : bool.
Implicit Types (s : BgpServer A) (ip : IpAddr) (e : PeerInfo) (origin : option IpAddr).

#[local] Abbreviation keeps := (keeps is_match checks).
#[local] Abbreviation mgmt := (handle_mgmt_op is_match checks).

(** ** The configurations of the peers *)
Definition config_map (l : list PeerConfig) : gmap IpAddr PeerConfig :=
  foldl (fun m cfg => match cp_ip cfg with Some ip => <[ip := cfg]> m | None => m end) ∅ l.

(** The last configuration of an address. *)
Fixpoint last_config (ip : IpAddr) (l : list PeerConfig) : option PeerConfig :=
  match l with
  | [] => None
  | cfg :: rest =>
      match last_config ip rest with
      | Some c => Some c
      | None => if bool_decide (cp_ip cfg = Some ip) then Some cfg else None
      end
  end.

Lemma config_map_last ip l : config_map l !! ip = last_config ip l.
Proof.
  unfold config_map.
  assert (forall m : gmap IpAddr PeerConfig,
    foldl (fun m cfg => match cp_ip cfg with Some ip => <[ip := cfg]> m | None => m end) m l !! ip =
      match last_config ip l with Some c => Some c | None => m !! ip end) as Hf.
  { induction l as [|cfg l IH]; intros m; [done|]. cbn [foldl last_config]. rewrite IH.
    destruct (last_config ip l); [done|]. destruct (cp_ip cfg) as [ip'|]; case_bool_decide as Hip; try done.
    - injection Hip as ->. by rewrite lookup_insert_eq.
    - rewrite lookup_insert_ne; [done|congruence]. }
  rewrite Hf. by destruct (last_config ip l).
Qed.

Lemma last_config_app ip l cfg : cp_ip cfg <> Some ip -> last_config ip (l ++ [cfg]) = last_config ip l.
Proof. intros Hne. induction l as [|c l IH]; cbn; [by rewrite bool_decide_false|by rewrite IH]. Qed.

Lemma last_config_update ip ip' f l :
  (forall cfg, cp_ip (f cfg) = cp_ip cfg) -> ip <> ip' -> last_config ip (update_first ip' f l) = last_config ip l.
Proof.
  intros Hf Hne. induction l as [|c l IH]; [done|]. cbn [update_first]. case_bool_decide as Hc; cbn [last_config]; [|by rewrite IH].
  rewrite Hf, Hc. by rewrite bool_decide_false by congruence.
Qed.

Lemma last_config_remove ip ip' l : ip <> ip' -> last_config ip (remove_first ip' l) = last_config ip l.
Proof.
  intros Hne. induction l as [|c l IH]; [done|]. cbn [remove_first]. case_bool_decide as Hc; cbn [last_config]; [|by rewrite IH].
  rewrite Hc. rewrite bool_decide_false by congruence. by destruct (last_config ip l).
Qed.

(** A change of the configuration of one peer. *)
Lemma local_config s origin f :
  (forall ip, origin <> Some ip -> last_config ip (f (cf_peers (sv_config s))) = last_config ip (cf_peers (sv_config s))) ->
  local_change origin s (update_peers_config s f).
Proof.
  intros Hf. split; try done. intros ip Hne. unfold peer_view, peer_cfg_by_ip, update_peers_config.
  cbn [sv_config with_config cf_peers with_cf_peers cf_asn]. fold (config_map (f (cf_peers (sv_config s)))).
  fold (config_map (cf_peers (sv_config s))). by rewrite !config_map_last, Hf.
Qed.

Lemma local_update_first s ip f : (forall cfg, cp_ip (f cfg) = cp_ip cfg) ->
  local_change (Some ip) s (update_peers_config s (update_first ip f)).
Proof. intros Hf. apply local_config. intros ip' Hne. apply last_config_update; [done|congruence]. Qed.

Lemma local_policies s origin policies : local_change origin s (with_policies s policies).
Proof. by split. Qed.

Lemma local_emits s0 s outs origin : local_change origin s0 s -> local_change origin s0 (emit s outs).
Proof. intros L. eapply local_trans; [exact L|apply local_emit]. Qed.

(** ** The handlers *)
(** A request refused leaves the state as it is. *)
Lemma refuse_keeps origin s err s' a : server_inv s -> refuse s err = Some (s', a) -> keeps origin s s'.
Proof. intros Hi [= <- _]. by apply keeps_refl. Qed.

Lemma ok_keeps origin s s1 s' a : server_inv s -> local_change origin s s1 -> answer_ok s1 = Some (s', a) -> keeps origin s s'.
Proof. intros Hi L [= <- _]. by apply local_keeps. Qed.
Hint Resolve refuse_keeps ok_keeps : core.

Lemma add_peer_keeps s addr config s' a :
  server_inv s -> handle_add_peer s addr config = Some (s', a) -> keeps (parse_ip addr) s s'.
Proof.
  intros Hi. unfold handle_add_peer. destruct (parse_ip addr) as [ip|] eqn:Ea; [|eauto]. case_bool_decide; [eauto|]. cbv zeta.
  destruct (validate_peer_config _); [eauto|]. apply ok_keeps; [done|]. unfold spawn_and_start_peer.
  assert (local_change (Some ip) s (update_peers_config s (fun l => l ++ [with_cp_address addr config]))) as L1.
  { apply local_config. intros ip' Hne. apply last_config_app. change (parse_ip addr <> Some ip'). by rewrite Ea. }
  assert (local_change (Some ip) s (set_peer (update_peers_config s (fun l => l ++ [with_cp_address addr config])) ip
    (peer_info_new (cp_admin_down (with_cp_address addr config))))) as L2.
  { eapply local_trans; [exact L1|]. apply local_insert; [done|]. apply ao_repr_new. }
  destruct (cp_admin_down _); [exact L2|]. by apply local_emits.
Qed.

Lemma shutdown_keeps s ip s' : server_inv s -> shutdown_and_remove_peer is_match checks s ip = Some s' -> keeps (Some ip) s s'.
Proof.
  intros Hi E1. unfold shutdown_and_remove_peer in E1. destruct (sv_peers s !! ip) as [e|] eqn:He; [|injection E1 as <-; by apply keeps_refl].
  match type of E1 with context [with_peers ?x _] => set (s2 := x) in E1 end.
  assert (local_change (Some ip) s s2) as L2.
  { unfold s2. destruct (pi_bmp_session e); [unfold broadcast_bmp; apply local_emits|]; apply local_emit. }
  destruct (remove_routes_from_peer _ ip) as [[rib d]|] eqn:E; [|done]. cbn [mbind option_bind] in E1.
  refine (lag_done_any is_match checks (Some ip) None _ _ _ _ _ _ E1); [|by intros]. rewrite <- (delta_new_extend d).
  assert (lag (Some ip) s (with_peers s2 (delete ip (sv_peers s2))) delta_new) as L3.
  { eapply lag_local; [by apply lag_start|]. eapply local_trans; [exact L2|by apply local_delete]. }
  apply lag_rib; [exact L3|]. eapply peer_down_reports; [apply L3|exact E].
Qed.
Lemma remove_peer_keeps s addr s' a :
  server_inv s -> handle_remove_peer is_match checks s addr = Some (s', a) -> keeps (parse_ip addr) s s'.
Proof.
  intros Hi. unfold handle_remove_peer. destruct (parse_ip addr) as [ip|] eqn:Ea; [|eauto]. case_bool_decide; [|eauto].
  destruct (shutdown_and_remove_peer _ _ s ip) as [s1|] eqn:E1; [|done]. cbn [mbind option_bind]. intros [= <- _].
  eapply keeps_local; [by eapply shutdown_keeps|]. apply local_config. intros ip' Hne. apply last_config_remove. congruence.
Qed.

Lemma admin_local s ip e st outs f :
  sv_peers s !! ip = Some e -> (forall cfg, cp_ip (f cfg) = cp_ip cfg) ->
  local_change (Some ip) s (update_peers_config (emit (set_peer s ip (with_pi_admin_state st e)) outs) (update_first ip f)).
Proof.
  intros He Hf. eapply local_trans; [|by apply local_update_first]. apply local_emits. by eapply local_set.
Qed.

Lemma disable_peer_keeps s addr s' a : server_inv s -> handle_disable_peer s addr = Some (s', a) -> keeps (parse_ip addr) s s'.
Proof.
  intros Hi. unfold handle_disable_peer. destruct (parse_ip addr) as [ip|] eqn:Ea; [|eauto].
  destruct (sv_peers s !! ip) as [e|] eqn:He; [|eauto]. apply ok_keeps; [done|by apply admin_local].
Qed.

Lemma enable_peer_keeps s addr s' a : server_inv s -> handle_enable_peer s addr = Some (s', a) -> keeps (parse_ip addr) s s'.
Proof.
  intros Hi. unfold handle_enable_peer. destruct (parse_ip addr) as [ip|] eqn:Ea; [|eauto].
  destruct (sv_peers s !! ip) as [e|] eqn:He; [|eauto]. apply ok_keeps; [done|by apply admin_local].
Qed.

Lemma soft_in_local s ip l : local_change (Some ip) s (handle_reset_soft_in s ip l).
Proof.
  unfold handle_reset_soft_in. destruct (sv_peers s !! ip) as [e|]; [|apply local_refl].
  destruct (is_established e); [apply local_emit|apply local_refl].
Qed.

Lemma soft_out_keeps s0 s ip l s' a :
  server_inv s0 -> local_change (Some ip) s0 s -> handle_reset_soft_out is_match checks s ip l = Some (s', a) -> keeps (Some ip) s0 s'.
Proof.
  intros Hi L. unfold handle_reset_soft_out. destruct (resend_families _ _ s ip l) as [s1|] eqn:E; [|done]. cbn [mbind option_bind].
  intros [= <- _]. apply local_keeps; [done|]. eapply local_trans; [exact L|]. eapply resend_families_local; [done| |exact E].
  rewrite (lc_rib _ _ _ L). apply Hi.
Qed.

Lemma reset_peer_keeps s addr rt af sf negotiated s' a :
  server_inv s -> handle_reset_peer is_match checks s addr rt af sf negotiated = Some (s', a) -> keeps (parse_ip addr) s s'.
Proof.
  intros Hi. unfold handle_reset_peer. destruct (parse_ip addr) as [ip|] eqn:Ea; [|eauto]. destruct (sv_peers s !! ip) as [e|] eqn:He; [|eauto].
  destruct (negb _); [eauto|]. destruct negotiated as [caps|]; [|eauto]. case_bool_decide; [eauto|].
  destruct (reset_families _ _ _) as [err|l]; [eauto|]. destruct rt.
  - apply ok_keeps; [done|apply soft_in_local].
  - apply soft_out_keeps; [done|apply local_refl].
  - apply soft_out_keeps; [done|apply soft_in_local].
  - unfold handle_reset_hard. rewrite He. destruct (is_established e); [|eauto]. apply ok_keeps; [done|apply local_emit].
Qed.

Lemma graceful_shutdown_keeps s addr enabled s' a :
  server_inv s -> handle_set_peer_graceful_shutdown is_match checks s addr enabled = Some (s', a) -> keeps (parse_ip addr) s s'.
Proof.
  intros Hi. unfold handle_set_peer_graceful_shutdown. destruct (parse_ip addr) as [ip|] eqn:Ea; [|eauto].
  destruct (sv_peers s !! ip) as [e|] eqn:He; [|eauto]. apply (soft_out_keeps s); [done|by apply local_update_first].
Qed.

Lemma add_route_keeps s ext key attrs s' a :
  server_inv s -> rkey_ok key -> room (sv_loc_rib s) 1 -> handle_add_route is_match checks s ext key attrs = Some (s', a) ->
  keeps None s s'.
Proof.
  intros Hi Hk Hroom. unfold handle_add_route.
  match goal with |- context [add_local_route _ ext ?k attrs] => set (key' := k) end.
  assert (rkey_ok key') as Hk' by by destruct key.
  destruct (add_local_route _ ext key' attrs) as [[rib [err|d]]|] eqn:E; [..|done]; cbn [mbind option_bind].
  - intros [= <- _]. apply lag_quiet. rewrite <- (delta_new_extend delta_new). apply lag_rib; [by apply lag_start|].
    eapply add_local_refused; [apply Hi|exact Hk'|exact Hroom|exact E].
  - destruct (Server.propagate_routes _ _ _ d None) as [s1|] eqn:E2; [|done]. cbn [mbind option_bind]. intros [= <- _].
    eapply lag_done; [|exact E2]. rewrite <- (delta_new_extend d). apply lag_rib; [by apply lag_start|].
    eapply add_local_reports; [apply Hi|exact Hk'|exact Hroom|exact E].
Qed.

Lemma remove_route_keeps s key s' a :
  server_inv s -> handle_remove_route is_match checks s key = Some (s', a) -> keeps None s s'.
Proof.
  intros Hi. unfold handle_remove_route. destruct (remove_local_route _ key) as [[rib d]|] eqn:E; [|done]. cbn [mbind option_bind].
  destruct (Server.propagate_routes _ _ _ d None) as [s1|] eqn:E2; [|done]. cbn [mbind option_bind]. intros [= <- _].
  eapply lag_done; [|exact E2]. rewrite <- (delta_new_extend d). apply lag_rib; [by apply lag_start|].
  eapply remove_local_reports; [apply Hi|exact E].
Qed.

Lemma add_policy_keeps s name built s' a : server_inv s -> handle_add_policy s name built = Some (s', a) -> keeps None s s'.
Proof.
  intros Hi. unfold handle_add_policy. destruct (starts_with _ _); [eauto|]. destruct built; [|eauto].
  apply ok_keeps; [done|apply local_policies].
Qed.

Lemma assignment_keeps s ip family direction names s' a :
  server_inv s -> handle_set_policy_assignment s ip family direction names = Some (s', a) -> keeps (Some ip) s s'.
Proof.
  intros Hi. unfold handle_set_policy_assignment. destruct (resolve_names s names); [eauto|].
  destruct (sv_peers s !! ip) as [e|] eqn:He; [|eauto]. apply ok_keeps; [done|].
  eapply local_trans; [|by apply local_update_first]. eapply local_set; [done|exact He|by destruct direction].
Qed.

(** ** The requests *)
(** The peer a request is about. *)
Definition request_origin (op : MgmtOp) : option IpAddr :=
  match op with
  | AddPeer addr _ | RemovePeer addr | DisablePeer addr | EnablePeer addr | ResetPeer addr _ _ _ _
  | SetPeerGracefulShutdown addr _ => parse_ip addr
  | SetPolicyAssignment peer_addr _ _ _ => Some peer_addr
  | AddRoute _ _ | RemoveRoute _ | AddPolicy _ _ | RemovePolicy _ => None
  end.

Definition request_ok s (op : MgmtOp) : Prop :=
  match op with AddRoute key _ => rkey_ok key /\ room (sv_loc_rib s) 1 | _ => True end.

Lemma request_keeps s ext locked op s' a :
  server_inv s -> request_ok s op -> mgmt s ext locked op = Some (s', a) -> keeps (request_origin op) s s'.
Proof.
  intros Hi Hok. unfold handle_mgmt_op. destruct (needs_lock op && negb locked); [by apply refuse_keeps|].
  destruct op; cbn [request_origin].
  - by apply add_peer_keeps.
  - by apply remove_peer_keeps.
  - by apply disable_peer_keeps.
  - by apply enable_peer_keeps.
  - by apply reset_peer_keeps.
  - by apply graceful_shutdown_keeps.
  - destruct Hok. by apply add_route_keeps.
  - by apply remove_route_keeps.
  - by apply add_policy_keeps.
  - apply ok_keeps; [done|apply local_policies].
  - by apply assignment_keeps.
Qed.
(** ** Putting the peer itself back in order *)
#[local] Abbreviation synced := (peer_synced is_match checks).

Lemma context_exists s ip e ctx :
  propagation_context s None ip e = Some ctx ->
  is_established e = true /\ is_Some (cs_capabilities (pi_conn e)) /\ is_Some (peer_cfg_by_ip s !! ip) /\
  ctx_negotiated_afi_safis ctx = conn_negotiated_afi_safis (pi_conn e).
Proof.
  unfold propagation_context, is_established. destruct (peer_cfg_by_ip s !! ip); [|done]. cbn [mbind option_bind].
  destruct (established_conn e) as [c|] eqn:Ec; [|done]. cbn [mbind option_bind]. destruct (negb _); [done|].
  assert (c = pi_conn e) as -> by (unfold established_conn in Ec; case_bool_decide; congruence).
  destruct (cs_capabilities (pi_conn e)); [|done]. by intros [= <-].
Qed.

Lemma exists_context s ip e :
  is_established e = true -> is_Some (cs_capabilities (pi_conn e)) -> is_Some (peer_cfg_by_ip s !! ip) ->
  is_Some (propagation_context s None ip e).
Proof.
  unfold propagation_context, is_established. destruct (established_conn e) as [c|] eqn:Ec; [|done]. intros _ [caps Hc] [cfg ->].
  cbn [mbind option_bind]. unfold established_conn in Ec. case_bool_decide as Hst; [|done]. injection Ec as <-.
  assert (should_propagate_to_peer ip (cs_state (pi_conn e)) None = true) as ->.
  { unfold should_propagate_to_peer. rewrite Hst. done. }
  rewrite Hc. by eexists.
Qed.

(** The configuration or the policies of a peer in sync have changed, and its
    families are sent again. *)
Lemma resend_resyncs s0 s ip e0 e (l : list AfiSafi) s' :
  server_inv s -> distinct_peers s -> synced s0 ip ->
  sv_peers s0 !! ip = Some e0 -> sv_peers s !! ip = Some e ->
  pi_conn e = pi_conn e0 -> pi_adj_rib_out e = pi_adj_rib_out e0 -> sv_loc_rib s = sv_loc_rib s0 ->
  (is_Some (peer_cfg_by_ip s !! ip) -> is_Some (peer_cfg_by_ip s0 !! ip)) -> is_Some (cs_asn (pi_conn e)) ->
  conn_negotiated_afi_safis (pi_conn e) <> ∅ -> (forall a, a ∈ conn_negotiated_afi_safis (pi_conn e) -> a ∈ l) ->
  resend_families is_match checks s ip l = Some s' -> synced s' ip.
Proof.
  intros Hi Hd Hs He0 He Ec Eo Er Hcfg Hasn Hne Hl E e' ctx He' Hctx.
  destruct (resend_families_entry is_match checks _ _ _ _ _ He E) as ([_ Ecfg _ Ea _ _] & out & He1). rewrite He' in He1. injection He1 as ->.
  rewrite (context_same s) in Hctx by done. rewrite context_with_out in Hctx.
  destruct (context_exists _ _ _ _ Hctx) as (Hest & Hcaps & Hpc & Hfam).
  destruct (exists_context s0 ip e0) as [ctx0 Hctx0]; [by unfold is_established, established_conn in *; rewrite <- Ec|by rewrite <- Ec|by apply Hcfg|].
  pose proof (context_exists _ _ _ _ Hctx0) as (_ & _ & _ & Hfam0).
  assert (ctx_afi_safis ctx = ctx_afi_safis ctx0) as Efam by (unfold ctx_afi_safis; by rewrite Hfam, Hfam0, Ec).
  destruct (resend_all_ok is_match checks s ip e ctx l s') as (_ & out' & He2 & Hsync); try done.
  - apply Hi.
  - by eapply si_out.
  - by apply context_resend.
  - intros key Hf Hr Hg. rewrite Eo. destruct (Hs e0 ctx0 He0 Hctx0) as [_ Hp]. rewrite Efam in Hf. rewrite Er in Hr, Hg.
    apply (in_order_none is_match checks ctx0 (sv_loc_rib s0) _ _ Hg). intros id p. by apply Hp.
  - intros a. unfold ctx_afi_safis. rewrite Hfam, bool_decide_false by done. rewrite (hash_order_perm (elements _)), elem_of_elements. apply Hl.
  - rewrite He' in He2. injection He2 as ->. exact Hsync.
Qed.

Lemma distinct_update s ip f :
  (forall cfg, cp_ip (f cfg) = cp_ip cfg) -> distinct_peers s -> distinct_peers (update_peers_config s (update_first ip f)).
Proof.
  intros Hf. unfold distinct_peers. cbn. enough (forall l, omap cp_ip (update_first ip f l) = omap cp_ip l) as -> by done.
  induction l as [|c l IH]; [done|]. cbn [update_first]. case_bool_decide; cbn; [by rewrite Hf|].
  by rewrite IH.
Qed.

Lemma cfg_update s ip ip' f :
  (forall cfg, cp_ip (f cfg) = cp_ip cfg) ->
  is_Some (peer_cfg_by_ip (update_peers_config s (update_first ip' f)) !! ip) -> is_Some (peer_cfg_by_ip s !! ip).
Proof.
  intros Hf. unfold peer_cfg_by_ip. cbn. fold (config_map (update_first ip' f (cf_peers (sv_config s)))).
  fold (config_map (cf_peers (sv_config s))). rewrite !config_map_last. generalize (cf_peers (sv_config s)).
  induction l as [|c l IH]; [done|]. cbn [update_first]. case_bool_decide; cbn [last_config].
  - rewrite Hf. destruct (last_config ip l); [by eexists|]. case_bool_decide; [by eexists|by intros [? ?]].
  - destruct (last_config ip (update_first ip' f l)) as [x|].
    + intros _. destruct (IH ltac:(by eexists)) as [y ->]. by eexists.
    + case_bool_decide; [|by intros [? ?]]. destruct (last_config ip l); by eexists.
Qed.

Lemma graceful_shutdown_sends s addr ip e enabled s' a :
  parse_ip addr = Some ip -> server_inv s -> distinct_peers s -> synced s ip -> sv_peers s !! ip = Some e -> is_established e = true ->
  is_Some (cs_asn (pi_conn e)) -> conn_negotiated_afi_safis (pi_conn e) <> ∅ ->
  handle_set_peer_graceful_shutdown is_match checks s addr enabled = Some (s', a) -> synced s' ip.
Proof.
  intros Ha Hi Hd Hs He Hest Hasn Hne. unfold handle_set_peer_graceful_shutdown. rewrite Ha, He. clear Ha. cbv zeta.
  destruct (resend_families _ _ _ _ _) as [s1|] eqn:E; [|done]. cbn [mbind option_bind]. intros [= <- _].
  eapply (resend_resyncs s (update_peers_config s (update_first ip (with_cp_graceful_shutdown enabled))) ip e e);
    [|by apply distinct_update|exact Hs|exact He|exact He|done..| |exact Hasn|exact Hne| |exact E].
  - by apply (local_keeps is_match checks (Some ip) s), local_update_first.
  - by apply cfg_update.
  - intros a0 Ha. unfold is_established, established_conn in *. case_bool_decide; [|done].
    by rewrite (hash_order_perm (elements _)), elem_of_elements.
Qed.

Lemma assignment_then_reset s addr ip e family direction names s1 caps s' :
  parse_ip addr = Some ip -> server_inv s -> distinct_peers s -> synced s ip -> sv_peers s !! ip = Some e ->
  is_Some (cs_asn (pi_conn e)) -> conn_negotiated_afi_safis (pi_conn e) = caps ->
  handle_set_policy_assignment s ip family direction names = Some (s1, inr tt) ->
  handle_reset_peer is_match checks s1 addr SoftOut None None (Some caps) = Some (s', inr tt) -> synced s' ip.
Proof.
  intros Haddr Hi Hd Hs He Hasn Hcaps E1. assert (server_inv s1) as Hi1 by by eapply assignment_keeps.
  unfold handle_set_policy_assignment in E1. destruct (resolve_names s names) as [|policies]; [done|].
  rewrite He in E1. injection E1 as <-. unfold handle_reset_peer. rewrite Haddr. cbn [sv_peers update_peers_config with_config].
  match goal with |- context [set_peer s ip ?x] => set (e1 := x) in * end.
  assert (pi_conn e1 = pi_conn e /\ pi_adj_rib_out e1 = pi_adj_rib_out e) as [Ec Eo] by by destruct direction.
  cbn [sv_peers set_peer with_peers]. rewrite lookup_insert_eq. destruct (negb _); [done|]. case_bool_decide as Hne; [done|].
  cbn [reset_families]. unfold handle_reset_soft_out. destruct (resend_families _ _ _ _ _) as [s2|] eqn:E; [|done].
  cbn [mbind option_bind]. intros [= <-].
  match type of E with resend_families _ _ ?x _ _ = _ => eapply (resend_resyncs s x ip e e1) end; [done| |exact Hs|exact He|cbn; by rewrite lookup_insert_eq|done|done|done| | | | |exact E].
  - by apply distinct_update.
  - by apply cfg_update.
  - by rewrite Ec.
  - by rewrite Ec, Hcaps.
  - intros a0. rewrite Ec, Hcaps. intros Ha. apply list_elem_of_filter. split; [done|].
    by rewrite (hash_order_perm (elements _)), elem_of_elements.
Qed.
End requests.
