(* ===== verification/ServerMain.v ===== *)
(** * What the server promises

    The theorems on sequences of operations: who stays in sync with the
    Loc-RIB, and from when. *)
From S2P Require Import Prelude Wire Net Trie TrieSpec PrefixMap Vrp PathId Notification Nlri BgpLs BgpLsParse Attrs BgpLsAttr Text OpenMsg Msg Path UpdateCodec UpdateCodecSpec Update ExtComm PeerCaps Conf Policy Fsm RibTables LocRib Outgoing PeerState LocRibInv LocRibSpec LocRibPeer LocRibStale LocRibOps Propagate Server ServerOps ServerMgmt ServerSync ServerSteps ServerResend ServerMgmtSteps.

(** The peer an operation is about: changes are not propagated back to it. *)
Definition event_origin (op : ServerEvent) : option IpAddr :=
  match op with
  | EvPeer ip _ | GracefulRestartTimerExpired ip _ | LlgrTimerExpired ip _ | EnhancedRrStaleTimerExpired ip _
  | EvLocalRibSent ip _ => Some ip
  | VrpUpdate _ _ => None
  end.

(** Well-formed keys, and identifiers left for the paths that are announced. *)
Definition event_ok {A} `{PathIdLaws A} `{HashOrder} {Sorts : SortBy} (s : BgpServer A) (op : ServerEvent) : Prop :=
  match op with
  | EvPeer _ (PeerUpdate routes) => Forall pending_ok routes /\ room (sv_loc_rib s) (length routes)
  | VrpUpdate added removed =>
      forall affected, affected_prefixes (sv_loc_rib s) added removed = Some affected ->
        Forall (fun r => Forall pending_ok (map Announce r.2)) (affected_routes s affected) /\
        room (sv_loc_rib s) (sum_list_with (fun r => length r.2) (affected_routes s affected))
  | _ => True
  end.

Definition input_origin (i : ServerInput) : option IpAddr :=
  match i with Event op => event_origin op | Request _ op => request_origin op end.
Definition input_ok {A} `{PathIdLaws A} `{HashOrder} {Sorts : SortBy} (s : BgpServer A) (i : ServerInput) : Prop :=
  match i with Event op => event_ok s op | Request _ op => request_ok s op end.

Section server.
Context {A : Type} `{PathIdLaws A} `{HashOrder} {Sorts : SortBy}.
Variable is_match : Str -> Str -> bool.
Variable checks : bool.
Variable interface_link_local : Str -> option Z.
Implicit Types (s : BgpServer A) (e : PeerInfo).

#[local] Abbreviation handle := (handle_server_op is_match checks interface_link_local).
#[local] Abbreviation step := (server_step is_match checks interface_link_local).
#[local] Abbreviation run := (run_server is_match checks interface_link_local).
#[local] Abbreviation synced := (peer_synced is_match checks).

Lemma event_keeps s ext op s' :
  server_inv s -> event_ok s op -> handle s ext op = Some s' -> keeps is_match checks (event_origin op) s s'.
Proof.
  intros Hi Hok. destruct op as [ip op|ip l|ip a|ip a|ip a|added removed]; cbn [handle_server_op event_origin].
  2: by apply gr_timer_keeps.
  2: by apply clear_stale_keeps.
  2: by apply sweep_and_propagate_keeps.
  3: by apply vrp_keeps.
  2: { intros [= <-]. apply local_keeps; [done|]. destruct (sv_peers s !! ip) as [e|]; [|apply local_refl].
       destruct (is_established e); [apply local_emit|apply local_refl]. }
  destruct op; cbn [event_ok] in Hok.
  - by apply state_changed_keeps.
  - intros [= <-]. apply local_keeps; [done|apply handshake_local].
  - intros [= <-]. apply local_keeps; [done|by apply local_update].
  - destruct Hok. by apply update_keeps.
  - by apply disconnected_keeps.
  - intros [= <-]. apply local_keeps; [done|by apply local_update].
  - intros E. apply local_keeps; [done|]. by eapply refresh_local; [apply Hi|].
  - intros [= <-]. by apply borr_keeps.
  - by apply eorr_keeps.
  - by apply clear_stale_keeps.
Qed.

Lemma input_keeps s ext (i : ServerInput) s' :
  server_inv s -> input_ok s i -> step s ext i = Some s' -> keeps is_match checks (input_origin i) s s'.
Proof.
  intros Hi Hok. destruct i as [op|locked op]; cbn [server_step input_origin]; [by apply event_keeps|].
  intros ([s1 a] & E & ->)%fmap_Some. by eapply request_keeps.
Qed.

Fixpoint inputs_ok s (ext : gset Z) (ops : list ServerInput) : Prop :=
  match ops with
  | [] => True
  | op :: rest => input_ok s op /\ forall s', step s ext op = Some s' -> inputs_ok s' ext rest
  end.

Lemma run_keeps ip ext (ops : list ServerInput) : forall s s',
  server_inv s -> inputs_ok s ext ops -> Forall (fun op => input_origin op <> Some ip) ops -> run s ext ops = Some s' ->
  server_inv s' /\ (synced s ip -> synced s' ip).
Proof.
  induction ops as [|op ops IH]; intros s s' Hi Hok Ho; cbn [run_server]; [by intros [= <-]|].
  destruct (step s ext op) as [s1|] eqn:E1; [|done]. cbn [mbind option_bind].
  apply Forall_cons in Ho as [Ho1 Ho]. destruct Hok as [Hok1 Hok].
  destruct (input_keeps _ _ _ _ Hi Hok1 E1) as [Hi1 Hs1]. intros E2.
  destruct (IH s1 s' Hi1 (Hok s1 E1) Ho E2) as [Hi2 Hs2]. split; [done|]. auto.
Qed.

Lemma run_inv ext (ops : list ServerInput) : forall s s', server_inv s -> inputs_ok s ext ops -> run s ext ops = Some s' -> server_inv s'.
Proof.
  induction ops as [|op ops IH]; intros s s' Hi; cbn [run_server]; [by intros _ [= <-]|]. intros [Hok1 Hok].
  destruct (step s ext op) as [s1|] eqn:E1; [|done]. cbn [mbind option_bind].
  apply IH; [apply (input_keeps _ _ _ _ Hi Hok1 E1)|by apply Hok].
Qed.

Lemma inputs_ok_app ext (ops ops' : list ServerInput) : forall s,
  inputs_ok s ext ops -> (forall s', run s ext ops = Some s' -> inputs_ok s' ext ops') -> inputs_ok s ext (ops ++ ops').
Proof.
  induction ops as [|op ops IH]; intros s Hok Hrest; [by apply Hrest|]. destruct Hok as [Hok1 Hok]. split; [done|]. intros s' E.
  apply IH; [by apply Hok|]. intros s2 E2. apply Hrest. cbn [run_server]. by rewrite E.
Qed.

Lemma inputs_ok_session ext (ops : list ServerInput) : forall s, Forall (fun op => forall s', input_ok s' op) ops -> inputs_ok s ext ops.
Proof. induction ops as [|op ops IH]; intros s; [done|]. intros [Ho Hl]%Forall_cons. split; [done|]. intros s' _. by apply IH. Qed.
(** The state change of a peer whose table is empty. *)
Lemma established_op_synced s s' ext ip e :
  server_inv s -> distinct_peers s -> sv_peers s !! ip = Some e -> is_Some (cs_asn (pi_conn e)) ->
  pi_adj_rib_out e = ao_new -> handle s ext (EvPeer ip (PeerStateChanged Established)) = Some s' ->
  server_inv s' /\ synced s' ip /\ forall ip', ip' <> ip -> synced s ip' -> synced s' ip'.
Proof.
  intros Hi Hd He Hasn Hout E.
  destruct (event_keeps s ext (EvPeer ip (PeerStateChanged Established)) s' Hi I E) as [Hi' Hs'].
  split; [done|]. split; [|intros ip' Hne; apply Hs'; cbn; congruence].
  cbn [handle_server_op] in E. unfold handle_peer_state_changed in E. rewrite He in E. rewrite bool_decide_true in E by done.
  eapply established_in_order; [| | | | |exact E].
  - apply (local_keeps is_match checks (Some ip) s); [done|]. by eapply local_set.
  - exact Hd.
  - cbn. by rewrite lookup_insert_eq.
  - exact Hasn.
  - intros key id. cbn. rewrite Hout. by destruct key as [[]|].
Qed.
End server.

(** ** Properties *)


(** C13. When a session is established whose table is empty, as [PeerInfo::new] and
    every disconnection leave it, the stale routes of the peer are swept and
    the whole Loc-RIB is sent: the new peer is in sync, and so is every peer
    that was. *)
Theorem established_peer_synced {A} `{PathIdLaws A} `{HashOrder} {Sorts : SortBy} is_match checks interface_link_local
    (s s' : BgpServer A) (ext : gset Z) (ip : IpAddr) (e : PeerInfo) :
  server_inv s -> distinct_peers s -> sv_peers s !! ip = Some e -> is_Some (cs_asn (pi_conn e)) ->
  pi_adj_rib_out e = ao_new ->
  handle_server_op is_match checks interface_link_local s ext (EvPeer ip (PeerStateChanged Established)) = Some s' ->
  server_inv s' /\ peer_synced is_match checks s' ip /\
  forall ip', ip' <> ip -> peer_synced is_match checks s ip' -> peer_synced is_match checks s' ip'.
Proof. apply established_op_synced. Qed.

(** ** Witnesses *)
#[local] Instance server_order : HashOrder := insertion_order.
#[local] Instance server_sort : SortBy := insertion_sorts.

Definition no_regex (_ _ : Str) : bool := false.
Definition no_interface (_ : Str) : option Z := None.
#[local] Abbreviation run_demo := (run_server no_regex true no_interface).

(** A router of AS 65000 with three external neighbours, whose policies accept
    all IPv4 routes in both directions. *)
Definition accept_policy : Policy := with_ (policy_new (str "accept")) (then_ statement_new AAccept).
Definition ipv4_accepted (max_prefix : option MaxPrefixSetting) : list AfiSafiConfig :=
  [mkAfiSafiConfig Afi_Ipv4 Unicast max_prefix None [str "accept"] [str "accept"]].
Definition neighbour (ip : Z) : PeerConfig :=
  with_cp_afi_safis (ipv4_accepted None) (with_cp_address (show_ipv4 ip) peer_config_default).
Definition demo_config (peers : list PeerConfig) : BgpConfig := with_cf_peers peers (bgp_config_new 65000 default_listen_addr 1 default_hold_time).
Definition demo_server : BgpServer BitmapPathIdAllocator :=
  mkServer (list_to_map (map (fun ip => (IpV4 ip, peer_info_new false)) [7; 8; 9])) (loc_rib_new 0)
    (demo_config (map neighbour [7; 8; 9])) {[ str "accept" := accept_policy ]}
    (IpV4 1) vrp_new [].

(** The operations of a session that comes up, and an update with one route. *)
Definition up (ip : Z) : list ServerInput :=
  [ Event (EvPeer (IpV4 ip) (PeerHandshakeComplete (65000 + ip)));
    Event (EvPeer (IpV4 ip) (PeerConnectionInfo (IpV4 1) 179 179 (open_new 65000 90 1) (open_new 65000 90 ip) caps_default));
    Event (EvPeer (IpV4 ip) (PeerStateChanged Established)) ].
Definition learn (ip : Z) (asns : list Z) : ServerInput :=
  Event (EvPeer (IpV4 ip) (PeerUpdate [announce demo_net (demo_path ((65000 + ip) :: asns) None ip)])).
Definition unlearn (ip : Z) : ServerInput := Event (EvPeer (IpV4 ip) (PeerUpdate [Withdraw (demo_net, None)])).

(** Peers 7 and 9 are up, and 7 has announced a route. *)
Definition two_up : list ServerInput := up 7 ++ up 9 ++ [learn 7 []].
Definition two_peers : BgpServer BitmapPathIdAllocator := default demo_server (run_demo demo_server ∅ two_up).

(** What the server holds under a key, and believes to have sent to a peer. *)
Definition sent_to (s : BgpServer BitmapPathIdAllocator) (ip : Z) : list Z :=
  match sv_peers s !! IpV4 ip with
  | Some e => omap (fun id => match ao_path (pi_adj_rib_out e) demo_net id with Some _ => Some id | None => None end) [1; 2; 3]
  | None => []
  end.
Definition routes_held (s : BgpServer BitmapPathIdAllocator) : list (option IpAddr) :=
  map (fun p => source_peer_ip (pa_source (attrs (ref_path p)))) (get_all_paths (sv_loc_rib s) demo_net).

Example two_peers_state : (routes_held two_peers, sent_to two_peers 7, sent_to two_peers 9) = ([Some (IpV4 7)], [], [1]).
Proof. vm_compute. reflexivity. Qed.

Lemma demo_server_inv : server_inv demo_server.
Proof.
  split; [exists ∅; apply loc_rib_new_repr|]. intros ip e He.
  apply elem_of_list_to_map_2, list_elem_of_fmap in He as (n & [= -> ->] & _). apply ao_repr_new.
Qed.

Lemma up_ok ip ext s : inputs_ok no_regex true no_interface s ext (up ip).
Proof. apply inputs_ok_session. by repeat constructor. Qed.

Lemma announce_fits (s : BgpServer BitmapPathIdAllocator) ip asns :
  Z.of_nat (size (alloc_ids (lr_path_ids (sv_loc_rib s)))) < 2 ^ 32 - 1 -> input_ok s (learn ip asns).
Proof. intros Hs. split; [repeat constructor; vm_compute; intuition discriminate|]. unfold room. cbn [length]. lia. Qed.

Lemma unlearn_fits (s : BgpServer BitmapPathIdAllocator) ip :
  Z.of_nat (size (alloc_ids (lr_path_ids (sv_loc_rib s)))) < 2 ^ 32 - 1 -> input_ok s (unlearn ip).
Proof. intros Hs. split; [repeat constructor; vm_compute; intuition discriminate|]. unfold room. cbn [length]. lia. Qed.

Lemma two_peers_inv : server_inv two_peers.
Proof.
  apply (run_inv no_regex true no_interface ∅ two_up demo_server); [apply demo_server_inv| |vm_compute; reflexivity].
  unfold two_up. rewrite app_assoc. apply inputs_ok_app.
  - apply inputs_ok_app; [apply up_ok|intros; apply up_ok].
  - intros s' E. vm_compute in E. injection E as <-. split; [|by intros]. by apply announce_fits.
Qed.

(** Peer 8 comes up and hears of the route, announces it too, and 7 withdraws. *)
Definition eight_joins : list ServerInput := up 8 ++ [unlearn 7].
Definition after_join : BgpServer BitmapPathIdAllocator := default demo_server (run_demo two_peers ∅ eight_joins).


(** Peer 8 has shaken hands and is about to be established. *)
Definition eight_waits : BgpServer BitmapPathIdAllocator := default demo_server (run_demo two_peers ∅ (take 2 (up 8))).
Definition eight_up : BgpServer BitmapPathIdAllocator := default demo_server (run_demo two_peers ∅ (up 8)).

Lemma established_peer_synced_witness :
  sent_to eight_up 8 = [1] /\ server_inv eight_up /\ peer_synced no_regex true eight_up (IpV4 8) /\
  forall ip', ip' <> IpV4 8 -> peer_synced no_regex true eight_waits ip' -> peer_synced no_regex true eight_up ip'.
Proof.
  split; [vm_compute; reflexivity|].
  apply (established_peer_synced no_regex true no_interface eight_waits eight_up ∅ (IpV4 8)
    (default (peer_info_new true) (sv_peers eight_waits !! IpV4 8))).
  - apply (run_inv no_regex true no_interface ∅ (take 2 (up 8)) two_peers); [apply two_peers_inv| |vm_compute; reflexivity].
    apply inputs_ok_session. by repeat constructor.
  - unfold distinct_peers. apply (bool_decide_unpack _). vm_compute. exact I.
  - vm_compute. reflexivity.
  - by eexists.
  - vm_compute. reflexivity.
  - vm_compute. reflexivity.
Defined.

(** ** The peer a change comes from is not told about it

    Peers 8 and 7 announce a route, 7 the better one, so that the route of 8
    had been sent to 7 before.  When 8 withdraws, then 7, the Loc-RIB is empty,
    but 7 is never sent a withdrawal: its own update hid the best path it was
    told about, and the change that removed it was its own. *)
Definition ghost : list ServerInput := up 7 ++ up 8 ++ up 9 ++ [learn 8 [1]; learn 7 []; unlearn 8; unlearn 7].
Definition after_ghost : BgpServer BitmapPathIdAllocator := default demo_server (run_demo demo_server ∅ ghost).

Definition ghost_entry : PeerInfo := default (peer_info_new true) (sv_peers after_ghost !! IpV4 7).
Definition ghost_ctx : PeerExportContext := default demo_ctx (propagation_context after_ghost None (IpV4 7) ghost_entry).

(** Split horizon on changes leaves a withdrawn route with the peer that made
    the last change: a run of accepted announcements and withdrawals after
    which the Loc-RIB is empty and a peer is out of sync with it. *)
Theorem originator_out_of_sync :
  run_demo demo_server ∅ ghost = Some after_ghost /\ routes_held after_ghost = [] /\
  (sent_to after_ghost 7, sent_to after_ghost 8, sent_to after_ghost 9) = ([1], [], []) /\
  ~ peer_synced no_regex true after_ghost (IpV4 7).
Proof.
  split; [vm_compute; reflexivity|]. split; [vm_compute; reflexivity|]. split; [vm_compute; reflexivity|]. intros Hs.
  destruct (Hs ghost_entry ghost_ctx) as [_ Hp]; [vm_compute; reflexivity..|].
  assert (is_Some (ao_path (pi_adj_rib_out ghost_entry) demo_net 1)) as [p Ep] by (apply (bool_decide_unpack _); vm_compute; exact I).
  apply Hp in Ep.
  - revert Ep. apply exports_none. vm_compute. reflexivity.
  - apply (bool_decide_unpack _). vm_compute. exact I.
  - by intros [[? [=]] _].
Qed.

(** * What management requests promise

    Which requests leave the peer they are about in sync, and which need a
    reset after them. *)

(** ** Properties *)

(** Setting the graceful shutdown of a peer sends its families again with the
    new community list: a peer in sync that negotiated families stays in sync. *)
Theorem graceful_shutdown_resyncs {A} `{PathIdLaws A} `{HashOrder} {Sorts : SortBy} is_match checks
    (s s' : BgpServer A) (ext : gset Z) (addr : Str) (ip : IpAddr) (e : PeerInfo) (enabled : bool) (a : MgmtAnswer) :
  parse_ip addr = Some ip -> server_inv s -> distinct_peers s -> peer_synced is_match checks s ip ->
  sv_peers s !! ip = Some e -> is_established e = true -> is_Some (cs_asn (pi_conn e)) ->
  conn_negotiated_afi_safis (pi_conn e) <> ∅ ->
  handle_mgmt_op is_match checks s ext true (SetPeerGracefulShutdown addr enabled) = Some (s', a) ->
  peer_synced is_match checks s' ip.
Proof. unfold handle_mgmt_op. cbn [needs_lock andb negb]. apply graceful_shutdown_sends. Qed.

(** Assigning policies to a peer says nothing to it; a soft reset afterwards,
    of everything it negotiated, makes it hold the export under the new ones. *)
Theorem policy_change_then_reset {A} `{PathIdLaws A} `{HashOrder} {Sorts : SortBy} is_match checks
    (s s1 s2 : BgpServer A) (ext : gset Z) (addr : Str) (ip : IpAddr) (e : PeerInfo) (locked locked' : bool)
    (family : AfiSafi) (direction : PolicyDirection) (names : list Str) :
  parse_ip addr = Some ip -> server_inv s -> distinct_peers s -> peer_synced is_match checks s ip ->
  sv_peers s !! ip = Some e -> is_Some (cs_asn (pi_conn e)) ->
  handle_mgmt_op is_match checks s ext locked (SetPolicyAssignment ip family direction names) = Some (s1, inr tt) ->
  handle_mgmt_op is_match checks s1 ext locked'
    (ResetPeer addr SoftOut None None (Some (conn_negotiated_afi_safis (pi_conn e)))) = Some (s2, inr tt) ->
  sv_log s1 = sv_log s /\ peer_synced is_match checks s2 ip.
Proof.
  intros Haddr Hi Hd Hs He Hasn. unfold handle_mgmt_op. destruct locked; [|done]. cbn [needs_lock andb negb]. intros E1 E2. split.
  - unfold handle_set_policy_assignment in E1. destruct (resolve_names s names); [done|]. rewrite He in E1. by injection E1 as <-.
  - by eapply assignment_then_reset.
Qed.

(** A peer without the multiprotocol capability, which is sent IPv4 routes, has
    no family in the list: setting its graceful shutdown sends it nothing. *)
Theorem graceful_shutdown_skips_legacy_peer {A} `{PathIdLaws A} `{HashOrder} {Sorts : SortBy} is_match checks
    (s : BgpServer A) (ext : gset Z) (addr : Str) (ip : IpAddr) (e : PeerInfo) (enabled : bool) :
  parse_ip addr = Some ip -> sv_peers s !! ip = Some e -> conn_negotiated_afi_safis (pi_conn e) = ∅ ->
  exists s', handle_mgmt_op is_match checks s ext true (SetPeerGracefulShutdown addr enabled) = Some (s', inr tt) /\
    sv_log s' = sv_log s /\ sv_peers s' = sv_peers s.
Proof.
  intros Haddr He Hne. unfold handle_mgmt_op, handle_set_peer_graceful_shutdown. cbn [needs_lock andb negb]. rewrite Haddr, He. cbv zeta.
  assert (match established_conn e with Some conn => hash_order (elements (conn_negotiated_afi_safis conn)) | None => [] end = []) as ->.
  { unfold established_conn. case_bool_decide; [|done]. rewrite Hne, elements_empty. apply Permutation_nil_r, hash_order_perm. }
  by eexists.
Qed.

(** ** Witnesses *)

Definition ipv4_unicast : AfiSafi := mkAfiSafi Afi_Ipv4 Unicast.
(** Peer 8 comes up with the multiprotocol capability. *)
Definition multiprotocol_caps : PeerCapabilities := mkCaps {[ ipv4_unicast ]} false false None None None None.
Definition eight_capable : list ServerInput :=
  [ Event (EvPeer (IpV4 8) (PeerHandshakeComplete 65008));
    Event (EvPeer (IpV4 8) (PeerConnectionInfo (IpV4 1) 179 179 (open_new 65000 90 1) (open_new 65000 90 8) multiprotocol_caps)) ].
Definition capable_waits : BgpServer BitmapPathIdAllocator := default demo_server (run_demo two_peers ∅ eight_capable).
Definition capable_up : BgpServer BitmapPathIdAllocator :=
  default demo_server (handle_server_op no_regex true no_interface capable_waits ∅ (EvPeer (IpV4 8) (PeerStateChanged Established))).
Definition eight : PeerInfo := default (peer_info_new true) (sv_peers capable_up !! IpV4 8).

Lemma capable_in_sync : server_inv capable_up /\ peer_synced no_regex true capable_up (IpV4 8).
Proof.
  assert (server_inv capable_waits) as Hi.
  { apply (run_inv no_regex true no_interface ∅ eight_capable two_peers); [apply two_peers_inv| |vm_compute; reflexivity].
    apply inputs_ok_session. by repeat constructor. }
  destruct (established_op_synced no_regex true no_interface capable_waits capable_up ∅ (IpV4 8)
    (default (peer_info_new true) (sv_peers capable_waits !! IpV4 8))) as (Hi' & Hs & _); [done| | | | | |done].
  - unfold distinct_peers. apply (bool_decide_unpack _). vm_compute. exact I.
  - vm_compute. reflexivity.
  - apply (bool_decide_unpack _). vm_compute. exact I.
  - vm_compute. reflexivity.
  - vm_compute. reflexivity.
Qed.

Lemma capable_distinct : distinct_peers capable_up.
Proof. unfold distinct_peers. apply (bool_decide_unpack _). vm_compute. exact I. Qed.

(** The updates sent to a peer. *)
Definition updates_to (ip : Z) (log : list ServerOutput) : list (list Z) :=
  omap (fun o => match o with ToPeer ip' (SendUpdate b) => if bool_decide (ip' = IpV4 ip) then Some b else None | _ => None end) log.

Definition shutting_down : BgpServer BitmapPathIdAllocator :=
  default demo_server (fst <$> handle_mgmt_op no_regex true capable_up ∅ true (SetPeerGracefulShutdown (str "0.0.0.8") true)).

Lemma graceful_shutdown_resyncs_witness :
  (length (updates_to 8 (sv_log capable_up)), length (updates_to 8 (sv_log shutting_down))) = (1, 2)%nat /\
  peer_synced no_regex true shutting_down (IpV4 8).
Proof.
  split; [vm_compute; reflexivity|].
  apply (graceful_shutdown_resyncs no_regex true capable_up shutting_down ∅ (str "0.0.0.8") (IpV4 8) eight true (inr tt)).
  - vm_compute. reflexivity.
  - apply capable_in_sync.
  - apply capable_distinct.
  - apply capable_in_sync.
  - vm_compute. reflexivity.
  - vm_compute. reflexivity.
  - apply (bool_decide_unpack _). vm_compute. exact I.
  - apply (bool_decide_unpack _). vm_compute. exact I.
  - vm_compute. reflexivity.
Defined.

(** A policy that rejects everything, for what is sent to peer 8. *)
Definition with_deny : BgpServer BitmapPathIdAllocator :=
  with_policies capable_up (<[str "deny" := deny_all]> (sv_policies capable_up)).
Definition assigned : BgpServer BitmapPathIdAllocator :=
  default demo_server (fst <$> handle_mgmt_op no_regex true with_deny ∅ true
    (SetPolicyAssignment (IpV4 8) ipv4_unicast Export [str "deny"])).
Definition reset_after : BgpServer BitmapPathIdAllocator :=
  default demo_server (fst <$> handle_mgmt_op no_regex true assigned ∅ true
    (ResetPeer (str "0.0.0.8") SoftOut None None (Some (conn_negotiated_afi_safis (pi_conn eight))))).

Lemma with_deny_ok : server_inv with_deny /\ peer_synced no_regex true with_deny (IpV4 8).
Proof.
  destruct capable_in_sync as [Hi Hs].
  destruct (local_keeps no_regex true None capable_up with_deny Hi (local_policies _ _ _)) as [Hi' Hs'].
  split; [done|]. by apply Hs'.
Qed.

Lemma policy_change_then_reset_witness :
  (sent_to capable_up 8, sent_to assigned 8, sent_to reset_after 8) = ([1], [1], []) /\
  sv_log assigned = sv_log with_deny /\ peer_synced no_regex true reset_after (IpV4 8).
Proof.
  split; [vm_compute; reflexivity|].
  apply (policy_change_then_reset no_regex true with_deny assigned reset_after ∅ (str "0.0.0.8") (IpV4 8) eight true true ipv4_unicast Export [str "deny"]).
  - vm_compute. reflexivity.
  - exact (proj1 with_deny_ok).
  - unfold distinct_peers. apply (bool_decide_unpack _). vm_compute. exact I.
  - exact (proj2 with_deny_ok).
  - vm_compute. reflexivity.
  - apply (bool_decide_unpack _). vm_compute. exact I.
  - vm_compute. reflexivity.
  - vm_compute. reflexivity.
Defined.

Lemma graceful_shutdown_skips_legacy_peer_witness :
  sent_to two_peers 9 = [1] /\
  exists s', handle_mgmt_op no_regex true two_peers ∅ true (SetPeerGracefulShutdown (str "0.0.0.9") true) = Some (s', inr tt) /\
    sv_log s' = sv_log two_peers /\ sv_peers s' = sv_peers two_peers.
Proof.
  split; [vm_compute; reflexivity|].
  apply (graceful_shutdown_skips_legacy_peer no_regex true two_peers ∅ (str "0.0.0.9") (IpV4 9)
    (default (peer_info_new true) (sv_peers two_peers !! IpV4 9)) true).
  - vm_compute. reflexivity.
  - vm_compute. reflexivity.
  - vm_compute. reflexivity.
Defined.
