(* ===== verification/ServerBmp.v ===== *)
(** * What the monitoring stations are told of sessions

    The PeerUp and PeerDown messages of a peer in the server's log, against the
    identity its entry remembers.  Every handler but one keeps the two in step. *)
From S2P Require Import Prelude Wire Net Trie TrieSpec PrefixMap Vrp PathId Notification Nlri BgpLs BgpLsParse Attrs BgpLsAttr Text OpenMsg Msg Path UpdateCodec UpdateCodecSpec Update ExtComm PeerCaps Conf Policy Fsm RibTables LocRib Outgoing PeerState LocRibInv LocRibSpec LocRibPeer LocRibStale LocRibOps Propagate Server ServerOps ServerMgmt ServerSync ServerSteps ServerResend ServerMgmtSteps ServerMain.

(** A station's view of a peer: the identity of the open session, and [None]
    once a message does not fit: a second PeerUp, or a PeerDown without its
    PeerUp. *)
Definition bmp_view : Type := option (option BmpPeerIdentity).

#[export] Instance BmpPeerIdentity_eq_dec : EqDecision BmpPeerIdentity.
Proof. solve_decision. Defined.

Definition station_step (ip : IpAddr) (v : bmp_view) (o : ServerOutput) : bmp_view :=
  match o with
  | ToBmp (BmpPeerUp ip' id _ _ _ _ _) =>
      if bool_decide (ip' = ip) then match v with Some None => Some (Some id) | _ => None end else v
  | ToBmp (BmpPeerDown ip' id _) =>
      if bool_decide (ip' = ip) then
        match v with Some (Some id') => if bool_decide (id' = id) then Some None else None | _ => None end
      else v
  | _ => v
  end.
Definition station_view (ip : IpAddr) (log : list ServerOutput) : bmp_view := foldl (station_step ip) (Some None) log.

Lemma validate_session e announced negotiated : pi_bmp_session (validate_afi_safi e announced negotiated).2 = pi_bmp_session e.
Proof.
  induction announced as [|r l IH]; [done|]. cbn [validate_afi_safi].
  destruct (bool_decide _); [done|]. by destruct (bool_decide (negotiated <> ∅) && _).
Qed.

(** No peer is torn down for its prefixes. *)
Definition never_terminates (cfg : PeerConfig) : Prop :=
  cp_allow_automatic_stop cfg = false \/
  forall family setting, peer_max_prefix cfg family = Some setting -> mps_action setting = MaDiscard.

Section bmp.
Context {A : Type} `{PathIdLaws A} `{HashOrder} {Sorts : SortBy}.
Variable is_match : Str -> Str -> bool.
Variable checks : bool.
Variable interface_link_local : Str -> option Z.
Implicit Types (s : BgpServer A) (ip : IpAddr) (e : PeerInfo).

Definition session s ip : option BmpPeerIdentity := sv_peers s !! ip ≫= pi_bmp_session.

(** The stations know the session the server remembers. *)
Definition stations_agree s : Prop := forall ip, station_view ip (sv_log s) = Some (session s ip).

(** No configured peer is. *)
Definition cfg_ok s : Prop := Forall never_terminates (cf_peers (sv_config s)).

(** Messages that say nothing of sessions. *)
Definition no_session (o : ServerOutput) : Prop :=
  match o with ToBmp (BmpPeerUp _ _ _ _ _ _ _) | ToBmp (BmpPeerDown _ _ _) => False | _ => True end.

Record bmp_quiet s s' : Prop := {
  bq_log : exists outs, sv_log s' = sv_log s ++ outs /\ Forall no_session outs;
  bq_session : forall ip, session s' ip = session s ip;
  bq_config : cfg_ok s -> cfg_ok s';
}.

Lemma station_quiet ip outs : forall v, Forall no_session outs -> foldl (station_step ip) v outs = v.
Proof.
  induction outs as [|o outs IH]; intros v; [done|]. intros [Ho Hl]%Forall_cons. cbn [foldl].
  assert (station_step ip v o = v) as -> by by destruct o as [|[]]. by apply IH.
Qed.

Lemma quiet_agree s s' : bmp_quiet s s' -> stations_agree s -> stations_agree s'.
Proof.
  intros [(outs & El & Ho) Hs _] Ha ip. unfold station_view. rewrite El, foldl_app, station_quiet, Hs by done. apply Ha.
Qed.

Lemma quiet_refl s : bmp_quiet s s.
Proof. split; try done. exists []. by rewrite app_nil_r. Qed.

Lemma quiet_trans s s1 s2 : bmp_quiet s s1 -> bmp_quiet s1 s2 -> bmp_quiet s s2.
Proof.
  intros [(o1 & L1 & F1) S1 C1] [(o2 & L2 & F2) S2 C2]. split; [|intros ip; by rewrite S2, S1|auto].
  exists (o1 ++ o2). rewrite L2, L1, app_assoc. split; [done|]. by apply Forall_app.
Qed.

Lemma quiet_emit s outs : Forall no_session outs -> bmp_quiet s (emit s outs).
Proof. intros Ho. split; try done. by exists outs. Qed.

Lemma quiet_rib s rib : bmp_quiet s (with_loc_rib s rib).
Proof. split; try done. exists []. by rewrite app_nil_r. Qed.

Lemma quiet_vrp s t : bmp_quiet s (with_vrp_table s t).
Proof. split; try done. exists []. by rewrite app_nil_r. Qed.

Lemma quiet_update s ip f : (forall e, pi_bmp_session (f e) = pi_bmp_session e) -> bmp_quiet s (update_peer s ip f).
Proof.
  intros Hf. split; [exists []; by rewrite app_nil_r| |done]. intros ip'. unfold session. cbn.
  destruct (decide (ip' = ip)) as [->|Hne]; [|by rewrite lookup_alter_ne]. rewrite lookup_alter_eq.
  destruct (sv_peers s !! ip); cbn; [apply Hf|done].
Qed.

Lemma quiet_set s ip e0 e : sv_peers s !! ip = Some e0 -> pi_bmp_session e = pi_bmp_session e0 -> bmp_quiet s (set_peer s ip e).
Proof.
  intros He Es. split; [exists []; by rewrite app_nil_r| |done]. intros ip'. unfold session. cbn.
  destruct (decide (ip' = ip)) as [->|Hne]; [|by rewrite lookup_insert_ne]. by rewrite lookup_insert_eq, He.
Qed.

Lemma quiet_same s s' :
  same_server s s' -> (forall ip, session s' ip = session s ip) -> bmp_quiet s s'.
Proof.
  intros [_ Ec _ _ _ (outs & El & Ho)] Hs. split; [|done|unfold cfg_ok; by rewrite Ec]. exists outs. split; [done|].
  apply (Forall_impl _ _ _ Ho). by intros o (ip & b & ->).
Qed.

Lemma quiet_propagate d origin s s' : Server.propagate_routes is_match checks s d origin = Some s' -> bmp_quiet s s'.
Proof.
  intros [Hs Hp]%propagate_routes_ok. apply quiet_same; [done|]. intros ip. specialize (Hp ip). unfold session.
  destruct (sv_peers s !! ip) as [e|]; [|by rewrite Hp]. by destruct Hp as (out & -> & _).
Qed.

Lemma quiet_resend s ip af sf s' : Server.resend_routes_to_peer is_match checks s ip af sf = Some s' -> bmp_quiet s s'.
Proof.
  unfold Server.resend_routes_to_peer. destruct (sv_peers s !! ip) as [e|] eqn:He; [|intros [= <-]; apply quiet_refl].
  destruct (negb (resendable af sf)); [intros [= <-]; apply quiet_refl|].
  destruct (resend_context s ip e) as [ctx|]; [|intros [= <-]; apply quiet_refl].
  intros (Hs & out & sent & Ep & _)%propagate_to_same. apply quiet_same; [done|]. intros ip'. unfold session. rewrite Ep.
  destruct (decide (ip' = ip)) as [->|Hne]; [by rewrite lookup_insert_eq, He|by rewrite lookup_insert_ne].
Qed.

Lemma quiet_resend_families ip (l : list AfiSafi) : forall s s', resend_families is_match checks s ip l = Some s' -> bmp_quiet s s'.
Proof.
  induction l as [|a l IH]; intros s s'; cbn [resend_families]; [intros [= <-]; apply quiet_refl|].
  destruct (Server.resend_routes_to_peer _ _ s ip _ _) as [s1|] eqn:E1; [|done]. cbn [mbind option_bind]. intros E2%IH.
  eapply quiet_trans; [by eapply quiet_resend|done].
Qed.

(** ** The handlers *)
Definition tells s s' : Prop := (cfg_ok s -> cfg_ok s') /\ (stations_agree s -> stations_agree s').

Lemma quiet_tells s s' : bmp_quiet s s' -> tells s s'.
Proof. intros Hq. split; [apply Hq|by apply quiet_agree]. Qed.
Lemma tells_refl s : tells s s.
Proof. by split. Qed.
Lemma tells_trans s s1 s2 : tells s s1 -> tells s1 s2 -> tells s s2.
Proof. intros [C1 T1] [C2 T2]. split; auto. Qed.

Lemma quiet_sweep s ext ip families s' d : sweep s ext ip families = Some (s', d) -> bmp_quiet s s'.
Proof.
  unfold sweep. destruct (remove_peer_routes_stale _ _ _ _) as [[rib d1]|]; [|done]. intros [= <- _]. apply quiet_rib.
Qed.

Lemma quiet_sweep_propagate s ext ip a s' : sweep_and_propagate is_match checks s ext ip a = Some s' -> bmp_quiet s s'.
Proof.
  unfold sweep_and_propagate. destruct (sweep s ext ip [a]) as [[s1 d]|] eqn:E1; [|done]. cbn [mbind option_bind]. intros E2.
  eapply quiet_trans; [by eapply quiet_sweep|by eapply quiet_propagate].
Qed.

Lemma quiet_clear_stale s ext ip a s' : clear_stale_afi_safi is_match checks s ext ip a = Some s' -> bmp_quiet s s'.
Proof. intros E. eapply quiet_trans; [|eapply quiet_sweep_propagate; exact E]. by apply quiet_update. Qed.

Lemma quiet_eorr s ext ip af sf s' : handle_route_refresh_eorr is_match checks s ext ip af sf = Some s' -> bmp_quiet s s'.
Proof. intros E. eapply quiet_trans; [|eapply quiet_sweep_propagate; exact E]. by apply quiet_update. Qed.

Lemma quiet_sweep_stale s ext ip caps s' : sweep_stale is_match checks s ext ip caps = Some s' -> bmp_quiet s s'.
Proof.
  unfold sweep_stale. destruct (sweep_gr_stale s ext ip caps) as [[s1 d1]|] eqn:E1; [|done]. cbn [mbind option_bind].
  destruct (sweep_llgr_stale s1 ext ip caps) as [[s2 d2]|] eqn:E2; [|done]. cbn [mbind option_bind]. intros E3.
  eapply quiet_trans; [by eapply quiet_sweep|]. eapply quiet_trans; [|by eapply quiet_propagate].
  unfold sweep_llgr_stale in E2. destruct (sv_peers s1 !! ip) as [e|] eqn:He; [|injection E2 as <- _; apply quiet_refl].
  eapply quiet_trans; [|eapply quiet_sweep; exact E2]. by eapply quiet_set.
Qed.

Lemma quiet_gr_timer s ext ip l s' : handle_gr_timer_expired is_match checks s ext ip l = Some s' -> bmp_quiet s s'.
Proof.
  unfold handle_gr_timer_expired. destruct (remove_peer_routes_stale _ _ _ _) as [[rib1 d1]|]; [|done]. cbn [mbind option_bind].
  destruct (apply_llgr rib1 _ _ _) as [[rib2 d2]|]; [|done]. cbn [mbind option_bind]. intros E.
  eapply quiet_trans; [|by eapply quiet_propagate]. eapply quiet_trans; [apply quiet_rib|by apply quiet_update].
Qed.

Lemma bmp_down_tells s ip reason : tells s (bmp_peer_down_if_ended s ip reason).
Proof.
  unfold bmp_peer_down_if_ended. destruct (sv_peers s !! ip) as [e|] eqn:He; [|apply tells_refl].
  destruct (is_established e); [apply tells_refl|]. destruct (pi_bmp_session e) as [b|] eqn:Eb; [|apply tells_refl].
  split; [done|]. intros Ha ip'. cbn [sv_log update_peer with_peers broadcast_bmp emit]. unfold station_view.
  rewrite foldl_app. fold (station_view ip' (sv_log s)). rewrite (Ha ip'). cbn [foldl station_step].
  unfold session. cbn [sv_peers update_peer with_peers broadcast_bmp emit]. case_bool_decide as Hip.
  - subst ip'. rewrite lookup_alter_eq, He. cbn. rewrite Eb. by rewrite bool_decide_true.
  - by rewrite lookup_alter_ne.
Qed.

Lemma bmp_up_tells s ip e c : sv_peers s !! ip = Some e -> tells s (bmp_peer_up s ip e c).
Proof.
  intros He. unfold bmp_peer_up. destruct (pi_bmp_session e) as [b|] eqn:Eb; [apply tells_refl|].
  destruct (cs_asn c), (cs_bgp_id c), (cs_conn_info c); try apply tells_refl.
  split; [done|]. intros Ha ip'. cbn [sv_log update_peer with_peers broadcast_bmp emit]. unfold station_view.
  rewrite foldl_app. fold (station_view ip' (sv_log s)). rewrite (Ha ip'). cbn [foldl station_step].
  unfold session. cbn [sv_peers update_peer with_peers broadcast_bmp emit]. case_bool_decide as Hip.
  - subst ip'. rewrite lookup_alter_eq, He. cbn. by rewrite Eb.
  - by rewrite lookup_alter_ne.
Qed.

Lemma disconnected_tells s ext ip reason families s' :
  handle_peer_disconnected is_match checks s ext ip reason families = Some s' -> tells s s'.
Proof.
  unfold handle_peer_disconnected. destruct (sv_peers s !! ip) as [e|] eqn:He; [|intros [= <-]; apply tells_refl].
  match goal with |- context [set_peer s ip ?x] => set (e1 := x) end.
  assert (bmp_quiet s (set_peer s ip e1)) as Q1 by (eapply quiet_set; [exact He|]; unfold e1; by destruct families).
  match goal with |- (mbind _ ?x = _) -> _ => destruct x as [s2|] eqn:E2 end; [|done]. cbn [mbind option_bind]. intros [= <-].
  eapply tells_trans; [|apply bmp_down_tells]. apply quiet_tells. eapply quiet_trans; [exact Q1|]. revert E2. destruct families.
  - destruct (bool_decide _); [|intros [= <-]; apply quiet_refl].
    destruct (remove_routes_from_peer _ ip) as [[rib d]|]; [|done]. cbn [mbind option_bind]. intros E.
    eapply quiet_trans; [apply quiet_rib|by eapply quiet_propagate].
  - intros [= <-]. apply quiet_rib.
Qed.

Lemma established_tells s ext ip s' : handle_peer_established is_match checks s ext ip = Some s' -> tells s s'.
Proof.
  unfold handle_peer_established. destruct (sv_peers s !! ip) as [e|] eqn:He; cbn [mbind option_bind]; [|intros [= <-]; apply tells_refl].
  destruct (established_conn e) as [c|]; cbn [mbind option_bind]; [|intros [= <-]; apply tells_refl].
  destruct (cs_capabilities c) as [caps|]; cbn [mbind option_bind]; [|intros [= <-]; apply tells_refl].
  destruct (sweep_stale _ _ _ ext ip caps) as [s2|] eqn:E2; [|done]. cbn [mbind option_bind].
  destruct (resend_families _ _ s2 ip _) as [s3|] eqn:E3; [|done]. cbn [mbind option_bind]. intros [= <-].
  eapply tells_trans; [by apply (bmp_up_tells s ip e c)|]. apply quiet_tells. eapply quiet_trans; [by eapply quiet_sweep_stale|].
  eapply quiet_trans; [by eapply quiet_resend_families|]. apply quiet_emit, Forall_forall. by intros o (a & -> & _)%list_elem_of_fmap.
Qed.

Lemma state_changed_tells s ext ip state s' : handle_peer_state_changed is_match checks s ext ip state = Some s' -> tells s s'.
Proof.
  unfold handle_peer_state_changed. destruct (sv_peers s !! ip) as [e|] eqn:He; [|intros [= <-]; apply tells_refl].
  match goal with |- context [set_peer s ip ?x] => set (e1 := x) end.
  assert (bmp_quiet s (set_peer s ip e1)) as Q%quiet_tells by by eapply quiet_set.
  destruct (bool_decide _); [|by intros [= <-]]. intros E. eapply tells_trans; [exact Q|by eapply established_tells].
Qed.

Lemma quiet_refresh s ip af sf s' : handle_route_refresh is_match checks s ip af sf = Some s' -> bmp_quiet s s'.
Proof.
  unfold handle_route_refresh, send_enhanced_route_refresh.
  destruct (match _ with Some c => _ | None => false end); [|by apply quiet_resend].
  destruct (negb _); [intros [= <-]; apply quiet_refl|].
  destruct (Server.resend_routes_to_peer _ _ _ ip af sf) as [s1|] eqn:E; [|done]. cbn [mbind option_bind]. intros [= <-].
  apply quiet_resend in E. eapply quiet_trans; [|eapply quiet_trans; [exact E|]]; apply quiet_emit; by repeat constructor.
Qed.

(** ** Updates *)
Lemma quiet_monitor_nonempty {B} s ip asn id (l : list B) build s' : monitor_nonempty s ip asn id l build = Some s' -> bmp_quiet s s'.
Proof.
  unfold monitor_nonempty. destruct l; [intros [= <-]; apply quiet_refl|]. destruct (build _); [|done]. intros [= <-].
  apply quiet_emit. by repeat constructor.
Qed.

Lemma quiet_monitor_batches ip asn id fmt bs : forall s s', monitor_batches s ip asn id fmt bs = Some s' -> bmp_quiet s s'.
Proof.
  induction bs as [|b bs IH]; intros s s'; cbn [monitor_batches]; [intros [= <-]; apply quiet_refl|].
  destruct (to_update b fmt); [|done]. cbn [mbind option_bind]. intros E%IH. eapply quiet_trans; [|exact E].
  apply quiet_emit. by repeat constructor.
Qed.

Lemma quiet_monitoring s ip asn id withdrawn announced s' :
  send_bmp_route_monitoring s ip asn id withdrawn announced = Some s' -> bmp_quiet s s'.
Proof.
  unfold send_bmp_route_monitoring. destruct (split_withdrawals withdrawn) as [[w1 w2] w3].
  destruct (monitor_nonempty s ip asn id w1 _) as [s1|] eqn:E1; [|done]. cbn [mbind option_bind].
  destruct (monitor_nonempty s1 ip asn id w2 _) as [s2|] eqn:E2; [|done]. cbn [mbind option_bind].
  destruct (monitor_nonempty s2 ip asn id w3 _) as [s3|] eqn:E3; [|done]. cbn [mbind option_bind]. intros E4.
  eapply quiet_trans; [by eapply quiet_monitor_nonempty|]. eapply quiet_trans; [by eapply quiet_monitor_nonempty|].
  eapply quiet_trans; [by eapply quiet_monitor_nonempty|]. by eapply quiet_monitor_batches.
Qed.

Lemma quiet_import s ext ip routes s' : import_and_propagate is_match checks s ext ip routes = Some s' -> bmp_quiet s s'.
Proof.
  unfold import_and_propagate. destruct (sv_peers s !! ip) as [e|]; [|intros [= <-]; apply quiet_refl].
  destruct (import_routes _ _ s ext ip _ routes) as [[rib d]|]; [|done]. cbn [mbind option_bind].
  destruct (Server.propagate_routes _ _ _ d _) as [s1|] eqn:E2; [|done]. cbn [mbind option_bind].
  assert (bmp_quiet s s1) as Q by (eapply quiet_trans; [apply quiet_rib|by eapply quiet_propagate]).
  destruct (conn ← established_conn e; _) as [[asn id]|]; [|intros [= <-]; exact Q].
  destruct (pending_split routes). intros E3. eapply quiet_trans; [exact Q|by eapply quiet_monitoring].
Qed.

Lemma check_discards limits rib families : forall fam,
  (forall family setting, limits !! family = Some setting -> mps_action setting = MaDiscard) ->
  check_max_prefix limits rib families fam <> OverTerminate.
Proof.
  intros fam Hd. revert fam. induction families as [|f l IH]; intros fam; [done|]. cbn [check_max_prefix].
  destruct (limits !! f) as [setting|] eqn:E; [|apply IH]. destruct (_ <? _); [|apply IH]. rewrite (Hd f setting E). apply IH.
Qed.

Lemma limits_effective cfg families family setting :
  max_prefix_limits cfg families !! family = Some setting -> peer_max_prefix cfg family = Some setting.
Proof.
  unfold max_prefix_limits. intros E%elem_of_list_to_map_2. apply list_elem_of_omap in E as (f & _ & E).
  destruct (peer_max_prefix cfg f) eqn:Ef; [|done]. cbn in E. by injection E as -> ->.
Qed.

Lemma quiet_update_handler s ext ip routes s' :
  cfg_ok s ->
  handle_peer_update is_match checks s ext ip routes = Some s' -> bmp_quiet s s'.
Proof.
  intros Hcfg. unfold handle_peer_update.
  destruct (sv_peers s !! ip) as [e|] eqn:He; cbn [mbind option_bind]; [|intros [= <-]; apply quiet_refl].
  destruct (established_conn e) as [c|]; cbn [mbind option_bind]; [|intros [= <-]; apply quiet_refl].
  destruct (cs_asn c) as [asn|]; cbn [mbind option_bind]; [|intros [= <-]; apply quiet_refl].
  cbv zeta. destruct (pending_split routes) as [announced withdrawn].
  destruct (validate_afi_safi _ announced _) as [valid e1] eqn:Ev.
  assert (bmp_quiet s (set_peer s ip e1)) as Q1.
  { eapply quiet_set; [exact He|]. apply (f_equal snd) in Ev. cbn [snd] in Ev. subst e1. by rewrite validate_session. }
  destruct valid; cbn [negb]; [|intros [= <-]; exact Q1].
  set (cfg := default peer_config_default (find_peer (sv_config s) ip)).
  destruct (if negb (asn =? _) then scrub_ebgp_pending_routes _ _ else _) as [routes2 next].
  assert (never_terminates cfg) as Hc.
  { unfold cfg, find_peer. destruct (find _ _) as [p|] eqn:Ef; cbn; [|right; intros family setting; done].
    apply find_some in Ef as [Hin%list_elem_of_In _]. unfold cfg_ok in Hcfg. rewrite Forall_forall in Hcfg. by apply Hcfg. }
  destruct (check_max_prefix _ _ _ _) as [fam|] eqn:Ec.
  - intros E. eapply quiet_trans; [exact Q1|]. eapply quiet_trans; [apply quiet_rib|by eapply quiet_import].
  - destruct Hc as [->|Hd]; [intros [= <-]; eapply quiet_trans; [exact Q1|apply quiet_rib]|].
    exfalso. revert Ec. apply check_discards. intros family setting Hl. eapply Hd. by eapply limits_effective.
Qed.

Lemma quiet_reevaluate ext : forall routes s d s' d',
  reevaluate_routes is_match checks s ext routes d = Some (s', d') -> bmp_quiet s s'.
Proof.
  induction routes as [|[ip l] routes IH]; intros s d s' d'; cbn [reevaluate_routes]; [intros [= <- _]; apply quiet_refl|].
  destruct (sv_peers s !! ip) as [e|]; [|apply IH].
  destruct (import_routes _ _ s ext ip _ _) as [[rib d1]|]; [|done]. cbn [mbind option_bind]. intros E%IH.
  eapply quiet_trans; [apply quiet_rib|done].
Qed.

Lemma quiet_vrp_update s ext added removed s' : handle_vrp_update is_match checks s ext added removed = Some s' -> bmp_quiet s s'.
Proof.
  unfold handle_vrp_update. destruct (vrp_add _ added) as [t1|]; [|done]. cbn [mbind option_bind].
  destruct (vrp_remove t1 removed) as [t2|]; [|done]. cbn [mbind option_bind].
  destruct (affected_prefixes _ _ _) as [affected|]; [|done]. cbn [mbind option_bind].
  destruct (bool_decide _); [intros [= <-]; apply quiet_vrp|].
  destruct (reevaluate_routes _ _ _ ext _ _) as [[s1 d]|] eqn:E; [|done]. cbn [mbind option_bind].
  assert (bmp_quiet s s1) as Q by (eapply quiet_trans; [apply (quiet_vrp s t2)|by eapply quiet_reevaluate]).
  destruct (has_changes d); [|intros [= <-]; exact Q]. intros E2. eapply quiet_trans; [exact Q|by eapply quiet_propagate].
Qed.

Lemma handshake_tells s ip asn : tells s (handle_peer_handshake_complete s ip asn).
Proof.
  unfold handle_peer_handshake_complete. destruct (find_peer (sv_config s) ip); [|apply tells_refl].
  destruct (build_peer_policies _ _ _). by apply quiet_tells, quiet_update.
Qed.

Lemma borr_tells s ext ip af sf : tells s (handle_route_refresh_borr s ext ip af sf).
Proof.
  unfold handle_route_refresh_borr. cbn [sv_config with_loc_rib]. apply quiet_tells.
  destruct (cf_enhanced_rr_stale_ttl _); [|apply quiet_rib]. eapply quiet_trans; [apply quiet_rib|by apply quiet_update].
Qed.

Lemma event_tells s ext op s' :
  cfg_ok s ->
  handle_server_op is_match checks interface_link_local s ext op = Some s' -> tells s s'.
Proof.
  intros Hc. destruct op as [ip op|ip l|ip a|ip a|ip a|added removed]; cbn [handle_server_op].
  - destruct op.
    + apply state_changed_tells.
    + intros [= <-]. apply handshake_tells.
    + intros [= <-]. by apply quiet_tells, quiet_update.
    + intros E. by eapply quiet_tells, quiet_update_handler.
    + apply disconnected_tells.
    + intros [= <-]. by apply quiet_tells, quiet_update.
    + intros E. by eapply quiet_tells, quiet_refresh.
    + intros [= <-]. apply borr_tells.
    + intros E. by eapply quiet_tells, quiet_eorr.
    + intros E. by eapply quiet_tells, quiet_clear_stale.
  - intros E. by eapply quiet_tells, quiet_gr_timer.
  - intros E. by eapply quiet_tells, quiet_clear_stale.
  - intros E. by eapply quiet_tells, quiet_sweep_propagate.
  - intros [= <-]. destruct (sv_peers s !! ip) as [e|]; [|apply tells_refl].
    destruct (is_established e); [|apply tells_refl]. apply quiet_tells, quiet_emit. by repeat constructor.
  - intros E. by eapply quiet_tells, quiet_vrp_update.
Qed.

(** ** Requests *)
Lemma quiet_config s f : (cfg_ok s -> Forall never_terminates (f (cf_peers (sv_config s)))) -> bmp_quiet s (update_peers_config s f).
Proof. intros Hf. split; [exists []; by rewrite app_nil_r|done|exact Hf]. Qed.

Lemma forall_update_first {P : PeerConfig -> Prop} ip f l :
  (forall cfg, P cfg -> P (f cfg)) -> Forall P l -> Forall P (update_first ip f l).
Proof. intros Hf. induction 1; cbn; [constructor|]. case_bool_decide; constructor; auto. Qed.

Lemma forall_remove_first {P : PeerConfig -> Prop} ip l : Forall P l -> Forall P (remove_first ip l).
Proof. induction 1; cbn; [constructor|]. case_bool_decide; [done|by constructor]. Qed.

Lemma quiet_update_config s ip f : (forall cfg, never_terminates cfg -> never_terminates (f cfg)) ->
  bmp_quiet s (update_peers_config s (update_first ip f)).
Proof. intros Hf. apply quiet_config. intros Hc. by apply forall_update_first. Qed.

(** Assigning policies leaves the limits. *)
Lemma assigned_limits cfg (family : AfiSafi) direction names a :
  peer_max_prefix (with_cp_afi_safis (afi_safi_entry_mut (cp_afi_safis cfg) (afi family) (safi family) (assign_family direction names)) cfg) a =
  peer_max_prefix cfg a.
Proof.
  unfold peer_max_prefix. cbn [cp_afi_safis cp_max_prefix with_cp_afi_safis].
  enough (forall l, (find (entry_for (afi a) (safi a)) (afi_safi_entry_mut l (afi family) (safi family) (assign_family direction names)) ≫= ac_max_prefix) =
    (find (entry_for (afi a) (safi a)) l ≫= ac_max_prefix)) as -> by done.
  assert (forall c, entry_for (afi a) (safi a) (assign_family direction names c) = entry_for (afi a) (safi a) c) as Ee by (by destruct direction).
  assert (forall c, ac_max_prefix (assign_family direction names c) = ac_max_prefix c) as Em by (by destruct direction).
  induction l as [|c l IH]; cbn [afi_safi_entry_mut find].
  - rewrite Ee. destruct (entry_for _ _ _); [|done]. cbn [mbind option_bind]. by rewrite Em.
  - destruct (entry_for (afi family) (safi family) c); cbn [find]; rewrite ?Ee; destruct (entry_for (afi a) (safi a) c); cbn [mbind option_bind]; auto.
Qed.

Lemma never_assigned cfg (family : AfiSafi) direction names :
  never_terminates cfg ->
  never_terminates (with_cp_afi_safis (afi_safi_entry_mut (cp_afi_safis cfg) (afi family) (safi family) (assign_family direction names)) cfg).
Proof. intros [?|Hd]; [by left|right]. intros a setting. rewrite assigned_limits. apply Hd. Qed.

Lemma refuse_tells s err s' a : refuse s err = Some (s', a) -> tells s s'.
Proof. intros [= <- _]. apply tells_refl. Qed.
Lemma ok_tells s s1 s' a : tells s s1 -> answer_ok s1 = Some (s', a) -> tells s s'.
Proof. by intros Ht [= <- _]. Qed.
Lemma quiet_ok s s1 s' a : bmp_quiet s s1 -> answer_ok s1 = Some (s', a) -> tells s s'.
Proof. intros Q. by apply ok_tells, quiet_tells. Qed.
Hint Resolve refuse_tells : core.

Lemma new_peer_quiet s ip e : sv_peers s !! ip = None -> pi_bmp_session e = None -> bmp_quiet s (set_peer s ip e).
Proof.
  intros He Es. split; [exists []; by rewrite app_nil_r| |done]. intros ip'. unfold session. cbn.
  destruct (decide (ip' = ip)) as [->|Hne]; [|by rewrite lookup_insert_ne]. by rewrite lookup_insert_eq, He.
Qed.

Lemma add_peer_tells s addr config s' a :
  never_terminates config -> handle_add_peer s addr config = Some (s', a) -> tells s s'.
Proof.
  intros Hn. unfold handle_add_peer. destruct (parse_ip addr) as [ip|] eqn:Ea; [|eauto]. case_bool_decide as Hp; [eauto|]. cbv zeta.
  destruct (validate_peer_config _); [eauto|]. apply quiet_ok. eapply quiet_trans.
  - apply (quiet_config s (fun l => l ++ [with_cp_address addr config])). intros Hc. apply Forall_app. split; [done|]. apply Forall_cons. by split; [exact Hn|constructor].
  - unfold spawn_and_start_peer.
    assert (forall s1, sv_peers s1 = sv_peers s -> bmp_quiet s1 (set_peer s1 ip (peer_info_new (cp_admin_down (with_cp_address addr config))))) as Q.
    { intros s1 Es. apply new_peer_quiet; [|done]. rewrite Es. by apply eq_None_not_Some. }
    destruct (cp_admin_down _); [by apply Q|]. eapply quiet_trans; [by apply Q|apply quiet_emit]. by repeat constructor.
Qed.

(** Removing a peer tells the stations that its session is over, if it had one. *)
Lemma removed_tells s ip e :
  sv_peers s !! ip = Some e ->
  tells s (let s := emit s [ToPeer ip (Shutdown PeerDeconfigured)] in
           let s := match pi_bmp_session e with
                    | Some b => broadcast_bmp s (BmpPeerDown ip b PeerDeConfigured)
                    | None => s
                    end in with_peers s (delete ip (sv_peers s))).
Proof.
  intros He. cbv zeta. split; [by destruct (pi_bmp_session e)|]. intros Ha ip'. specialize (Ha ip') as Hv. unfold session in *.
  assert (forall v, station_step ip' v (ToPeer ip (Shutdown PeerDeconfigured)) = v) as Hstep by done.
  destruct (pi_bmp_session e) as [b|] eqn:Eb; cbn [sv_log sv_peers with_peers broadcast_bmp emit]; unfold station_view in *;
    rewrite !foldl_app, Hv; cbn [foldl]; rewrite Hstep; cbn [station_step].
  - case_bool_decide as Hip; [subst ip'|by rewrite lookup_delete_ne]. rewrite lookup_delete_eq, He. cbn [mbind option_bind].
    rewrite Eb. by rewrite bool_decide_true.
  - destruct (decide (ip = ip')) as [<-|Hne]; [|by rewrite lookup_delete_ne]. rewrite lookup_delete_eq, He. cbn [mbind option_bind]. by rewrite Eb.
Qed.

Lemma remove_peer_tells s addr s' a : handle_remove_peer is_match checks s addr = Some (s', a) -> tells s s'.
Proof.
  unfold handle_remove_peer. destruct (parse_ip addr) as [ip|] eqn:Ea; [|eauto]. case_bool_decide; [|eauto].
  destruct (shutdown_and_remove_peer _ _ s ip) as [s1|] eqn:E1; [|done]. cbn [mbind option_bind]. apply ok_tells.
  eapply tells_trans; [|apply quiet_tells, quiet_config; intros Hc; by apply forall_remove_first].
  unfold shutdown_and_remove_peer in E1. destruct (sv_peers s !! ip) as [e|] eqn:He; [|injection E1 as <-; apply tells_refl].
  pose proof (removed_tells s ip e He) as T. cbv zeta in T.
  destruct (remove_routes_from_peer _ ip) as [[rib d]|]; [|done]. cbn [mbind option_bind] in E1.
  eapply tells_trans; [exact T|]. apply quiet_tells. eapply quiet_trans; [apply quiet_rib|by eapply quiet_propagate].
Qed.

Lemma admin_tells s ip e st outs f s' a :
  sv_peers s !! ip = Some e -> Forall no_session outs -> (forall cfg, never_terminates cfg -> never_terminates (f cfg)) ->
  answer_ok (update_peers_config (emit (set_peer s ip (with_pi_admin_state st e)) outs) (update_first ip f)) = Some (s', a) -> tells s s'.
Proof.
  intros He Ho Hf. apply quiet_ok. eapply quiet_trans; [|by apply quiet_update_config].
  eapply quiet_trans; [eapply (quiet_set s ip e (with_pi_admin_state st e)); [exact He|done]|by apply quiet_emit].
Qed.

Lemma quiet_soft_in s ip l : bmp_quiet s (handle_reset_soft_in s ip l).
Proof.
  unfold handle_reset_soft_in. destruct (sv_peers s !! ip) as [e|]; [|apply quiet_refl].
  destruct (is_established e); [|apply quiet_refl]. apply quiet_emit, Forall_forall. by intros o (x & -> & _)%list_elem_of_fmap.
Qed.

Lemma soft_out_tells s0 s ip l s' a : bmp_quiet s0 s -> handle_reset_soft_out is_match checks s ip l = Some (s', a) -> tells s0 s'.
Proof.
  intros Q. unfold handle_reset_soft_out. destruct (resend_families _ _ s ip l) as [s1|] eqn:E; [|done]. cbn [mbind option_bind].
  apply quiet_ok. eapply quiet_trans; [exact Q|by eapply quiet_resend_families].
Qed.

Lemma reset_tells s addr rt af sf negotiated s' a :
  handle_reset_peer is_match checks s addr rt af sf negotiated = Some (s', a) -> tells s s'.
Proof.
  unfold handle_reset_peer. destruct (parse_ip addr) as [ip|] eqn:Ea; [|eauto]. destruct (sv_peers s !! ip) as [e|] eqn:He; [|eauto].
  destruct (negb _); [eauto|]. destruct negotiated as [caps|]; [|eauto]. case_bool_decide; [eauto|].
  destruct (reset_families _ _ _) as [err|l]; [eauto|]. destruct rt.
  - apply quiet_ok, quiet_soft_in.
  - apply soft_out_tells, quiet_refl.
  - apply soft_out_tells, quiet_soft_in.
  - unfold handle_reset_hard. rewrite He. destruct (is_established e); [|eauto]. apply quiet_ok, quiet_emit. by repeat constructor.
Qed.

(** A request that brings no peer with a limit that ends sessions. *)
Definition request_tame (op : MgmtOp) : Prop :=
  match op with AddPeer _ config => never_terminates config | _ => True end.

Lemma request_tells s ext locked op s' a :
  request_tame op -> handle_mgmt_op is_match checks s ext locked op = Some (s', a) -> tells s s'.
Proof.
  intros Ht. unfold handle_mgmt_op. destruct (needs_lock op && negb locked); [eauto|]. destruct op; cbn [request_tame] in Ht.
  - by apply add_peer_tells.
  - apply remove_peer_tells.
  - unfold handle_disable_peer. destruct (parse_ip addr) as [ip|] eqn:Ea; [|eauto]. destruct (sv_peers s !! ip) as [e|] eqn:He; [|eauto].
    apply admin_tells; [done|by repeat constructor|done].
  - unfold handle_enable_peer. destruct (parse_ip addr) as [ip|] eqn:Ea; [|eauto]. destruct (sv_peers s !! ip) as [e|] eqn:He; [|eauto].
    apply admin_tells; [done|by repeat constructor|done].
  - apply reset_tells.
  - unfold handle_set_peer_graceful_shutdown. destruct (parse_ip addr) as [ip|] eqn:Ea; [|eauto]. destruct (sv_peers s !! ip) as [e|]; [|eauto].
    apply (soft_out_tells s). by apply quiet_update_config.
  - unfold handle_add_route. destruct (add_local_route _ _ _ _) as [[rib [err|d]]|]; [..|done]; cbn [mbind option_bind].
    + intros [= <- _]. apply quiet_tells, quiet_rib.
    + destruct (Server.propagate_routes _ _ _ d None) as [s1|] eqn:E; [|done]. cbn [mbind option_bind]. apply quiet_ok.
      eapply quiet_trans; [apply quiet_rib|by eapply quiet_propagate].
  - unfold handle_remove_route. destruct (remove_local_route _ _) as [[rib d]|]; [|done]. cbn [mbind option_bind].
    destruct (Server.propagate_routes _ _ _ d None) as [s1|] eqn:E; [|done]. cbn [mbind option_bind]. apply quiet_ok.
    eapply quiet_trans; [apply quiet_rib|by eapply quiet_propagate].
  - unfold handle_add_policy. destruct (starts_with _ _); [eauto|]. destruct built; [|eauto]. apply quiet_ok. split; try done.
    exists []. by rewrite app_nil_r.
  - apply quiet_ok. split; try done. exists []. by rewrite app_nil_r.
  - unfold handle_set_policy_assignment. destruct (resolve_names s policy_names); [eauto|].
    destruct (sv_peers s !! peer_addr) as [e|] eqn:He; [|eauto]. apply quiet_ok.
    eapply quiet_trans; [|apply quiet_update_config; intros cfg; apply never_assigned].
    eapply quiet_set; [exact He|by destruct direction].
Qed.

Definition input_tame (i : ServerInput) : Prop := match i with Event _ => True | Request _ op => request_tame op end.

Lemma input_tells s ext i s' :
  cfg_ok s -> input_tame i -> server_step is_match checks interface_link_local s ext i = Some s' -> tells s s'.
Proof.
  intros Hc Ht. destruct i as [op|locked op]; cbn [server_step]; [by apply event_tells|].
  intros ([s1 a] & E & ->)%fmap_Some. by eapply request_tells.
Qed.
End bmp.

(** ** Properties *)

(** C16. As long as no peer is torn down for its number of prefixes, the PeerUp and
    PeerDown messages of every peer alternate, each PeerDown names the identity
    of the PeerUp before it, and the session that is open for the stations is
    the one the server remembers, peers that are removed included. *)
Theorem bmp_sessions_paired {A} `{PathIdLaws A} `{HashOrder} {Sorts : SortBy} is_match checks interface_link_local
    (s s' : BgpServer A) (ext : gset Z) (ops : list ServerInput) :
  cfg_ok s -> Forall input_tame ops -> stations_agree s ->
  run_server is_match checks interface_link_local s ext ops = Some s' -> stations_agree s'.
Proof.
  revert s. induction ops as [|op ops IH]; intros s Hc Ht Ha; cbn [run_server]; [by intros [= <-]|].
  apply Forall_cons in Ht as [Ht1 Ht].
  destruct (server_step _ _ _ s ext op) as [s1|] eqn:E1; [|done]. cbn [mbind option_bind].
  destruct (input_tells _ _ _ _ _ _ _ Hc Ht1 E1) as [Ec Hs]. by apply IH; auto.
Qed.

(** ** Witness, and the handler left out *)
#[local] Instance bmp_order : HashOrder := insertion_order.
#[local] Instance bmp_sort : SortBy := insertion_sorts.

Lemma demo_stations : stations_agree demo_server.
Proof.
  intros ip. unfold session. destruct (sv_peers demo_server !! ip) as [e|] eqn:He; [|done].
  by apply elem_of_list_to_map_2, list_elem_of_fmap in He as (n & [= -> ->] & _).
Qed.

(** PeerUp or PeerDown. *)
Definition session_kind (o : ServerOutput) : option bool :=
  match o with ToBmp (BmpPeerUp _ _ _ _ _ _ _) => Some true | ToBmp (BmpPeerDown _ _ _) => Some false | _ => None end.

(** A session that is lost, comes back, and is removed. *)
Definition flap : list ServerInput :=
  up 7 ++ [learn 7 []; Event (EvPeer (IpV4 7) (PeerDisconnected RemoteNoNotification []))] ++ up 7 ++
  [Request true (RemovePeer (str "0.0.0.7"))].
Definition after_flap : BgpServer BitmapPathIdAllocator :=
  default demo_server (run_server no_regex true no_interface demo_server ∅ flap).

Lemma neighbour_tame n : never_terminates (neighbour n).
Proof. right. intros family setting. unfold peer_max_prefix. cbn. by destruct (entry_for _ _ _). Qed.

Lemma bmp_sessions_paired_witness :
  omap session_kind (sv_log after_flap) = [true; false; true; false] /\ stations_agree after_flap.
Proof.
  split; [vm_compute; reflexivity|]. apply (bmp_sessions_paired no_regex true no_interface demo_server after_flap ∅ flap).
  - unfold cfg_ok. apply Forall_forall. intros cfg (n & -> & _)%list_elem_of_fmap. apply neighbour_tame.
  - unfold flap, up. cbn [app]. repeat (apply Forall_cons; split; [exact I|]). constructor.
  - apply demo_stations.
  - vm_compute. reflexivity.
Defined.

(** A neighbour that is torn down when it announces anything. *)
Definition strict : PeerConfig :=
  with_cp_afi_safis (ipv4_accepted (Some (mkMaxPrefixSetting 0 MaTerminate))) (neighbour 7).
Definition strict_server : BgpServer BitmapPathIdAllocator :=
  mkServer (sv_peers demo_server) (loc_rib_new 0) (demo_config [strict]) (sv_policies demo_server)
    (IpV4 1) vrp_new [].

(** Tearing a peer down for its prefixes reports PeerDown and keeps the
    identity, so that removing the peer afterwards reports it again: the
    stations get two PeerDown messages for one PeerUp. *)
Theorem prefix_limit_reports_down_twice :
  (s ← run_server no_regex true no_interface strict_server ∅
        (up 7 ++ [learn 7 []; Request true (RemovePeer (str "0.0.0.7"))]);
   Some (omap session_kind (sv_log s), station_view (IpV4 7) (sv_log s))) = Some ([true; false; false], None).
Proof. vm_compute. reflexivity. Qed.
